(* ===== verification/_CoqProject ===== *)
-Q . S2P
Prelude.v
BitReflect.v
ArmDecode.v
ThumbTypes.v
ThumbShapes.v
ThumbPack.v
ThumbCustom.v
ThumbEngine.v
ThumbOpsAlu.v
ThumbOpsMem.v
ThumbOpsSys.v
ThumbDecode.v
ThumbDecodeData.v
ThumbDecodeBranch.v
ThumbDecodeMem.v
ThumbFeat.v
ThumbProps.v
SortSpec.v
Sort.v
Qsort.v
IntSort.v
HotArena.v
HotArenaClient.v
Vector.v
UniquePtr.v
Bytes.v
ElfSym.v
ElfResolve.v
ArmLink.v
HotVeneer.v
ArmReloc.v
ArmRelocSpec.v
ArmRelocThumb.v
ArmRelocFrame.v
ArmRelocData.v
ArmExec.v
HotExec.v
ArmPlt.v
HotText.v
HotTextSpec.v
LinearScan.v
LsSweep.v
LsScratch.v
LsHeld.v
SpillSlots.v
SpillLayout.v
FpSpec.v
SoftCommon.v
SoftRound.v
SoftUnpack.v
SoftFloat.v
SoftDouble.v
SoftDoubleArith.v
SoftDoubleDiv.v
SoftCmp.v
EabiInt.v
EabiDiv.v
EabiShift.v
SoftConv.v
SoftConvInt.v
SoftConvFp.v
SoftConvWidth.v
EabiMem.v
Cfg.v
CfgPaths.v
CfgSemi.v
CfgDfs.v
CfgStamp.v
CfgDom.v
CfgBlocks.v
CfgBuild.v
CfgFrontier.v
CfgCycle.v
Aapcs.v
AapcsSpec.v
Fold.v
FoldSpec.v
KnownBits.v
BitSet.v
