(* ===== verification/Prelude.v ===== *)
(** * A verification library for the ARMv8-M fork of TinyCC

    The program is a C compiler and linker for ARM microcontrollers that also runs
    on them.  A front end translates C to a three-address intermediate code; passes
    optimise it; a register allocator and the Thumb code generator turn it into
    instructions, each built by one of the encoders of
    [src/source/backend/arch/arm/thumb]; the linker ([src/source/obj],
    [arm-link.c]) collects sections, resolves symbols, places veneers and PLT
    entries and patches the instructions.  Everything stands on a small library of
    containers and an arena allocator ([src/source/memory]).

    This library models the parts where a mistake produces wrong machine code or
    corrupts memory without any diagnostic: the encoders, the linker's backend and
    symbol table, the memory library, the runtime library ([src/lib]) that compiled
    programs call for floating point and long division; and, between the ends, the
    layout of calls, the folding of constants, known bits, the control-flow graph
    and the live intervals.

    ** Conventions.  A C integer is a [Z] with its wrap-around written out ([u32],
    [s32], ...); memory is a function from addresses to bytes ([Bytes.mem]) or a
    list of cells; code that can fail returns [option], and code that reports an
    error and continues carries the list of errors in its state.  The encoders run
    in the state monad [Enc] over the immediate cache.  Loops are structural where
    the C loop counts, and take fuel where it does not: the fuel is computed from
    the data (the size of the table, of the array, of the arena) and a lemma beside
    shows that it is never exhausted, or the theorem about the loop states its
    result outright, which an exhausted loop would not give.

    ** Files, and the code they model

    - [Prelude], [BitReflect]: integers, notations, tactics, hint databases; bit
      vector goals decided by reflection.
    - [ArmDecode]: the reference the encoders are checked against,
      written from the architecture manual and not from the program: what an
      instruction word means.
    - [ThumbTypes], [ThumbShapes], [ThumbPack], [ThumbCustom], [ThumbEngine]:
      [thumb.h], [thumb.c] and the custom emitters: operands, variants, operand
      shapes, the packing of constants with its cache, guards, and the engine that
      tries the variants of a table in turn ([thop_emit_in]).
    - [ThumbOpsAlu], [ThumbOpsMem], [ThumbOpsSys]: one definition per public
      encoder ([th_add_imm], [th_ldr_imm], ...) with its variant table.
    - [ThumbDecode], [ThumbDecodeData], [ThumbDecodeMem], [ThumbDecodeBranch]: what
      the emitted words mean.  [ThumbFeat]: [-march] and [-mfpu].  [ThumbProps]:
      properties of the whole engine.
    - [SortSpec], [Sort], [Qsort]: [memory/sort.c], the in-place stable sort.
    - [HotArena], [HotArenaClient]: [memory/hot_arena.c], the arena allocator.
    - [Vector], [UniquePtr]: [memory/vector.c], [memory/unique_ptr.c].
    - [Bytes]: little-endian access.  [ElfSym], [ElfResolve]: [obj/tccelf_sym.c],
      the symbol table, its hash and symbol resolution.
    - [ArmLink], [ArmReloc], [ArmPlt]: [arm-link.c]: relocation classes, every case
      of [relocate], the PLT.  [ArmRelocSpec], [ArmRelocThumb], [ArmRelocFrame],
      [ArmRelocData]: what relocations achieve, stated on decoded instructions.
    - [HotText], [HotTextSpec]: the placing of the veneers of the
      [--hot-text] block.  [HotVeneer], [ArmExec], [HotExec]: what a veneer does
      when executed by a small reference machine.
    - [IntSort]: the contract of sorting [int]s that passes rely on, and the instance
      built on [tcc_qsort].  [LinearScan], [LsSweep], [LsScratch], [LsHeld]:
      [machine/tccls.c], the live intervals and their queries.  [SpillSlots],
      [SpillLayout]: the packing of spill slots.
    - [FpSpec]: what IEEE 754 asks of an operation, on exact numbers.  [SoftCommon],
      [SoftRound], [SoftUnpack]: [lib/fp/soft/soft_common.h] and its rounding cores.
      [SoftFloat]: [fadd.c], [fmul.c], [fdiv.c].  [SoftDouble] with [SoftDoubleArith],
      [SoftDoubleDiv]: [dadd.c], [dmul.c], [ddiv.c].
      [SoftCmp]: [fcmp.c], [dcmp.c].  [SoftConv] with [SoftConvInt], [SoftConvFp],
      [SoftConvWidth]: [conv.c], [conv64.c], [dconv.c] and the conversions of
      [lib/armeabi.c].  [EabiInt] with [EabiDiv], [EabiShift]; [EabiMem]: the integer
      and memory routines of [lib/armeabi.c].
    - [Cfg]: [ir/cfg.c], the control-flow graph of a function.  [CfgPaths]: walks,
      dominance, depth-first trees and semidominators of a graph.  [CfgDfs]: the
      searches; [CfgSemi]: the semidominators with path compression; [CfgStamp]: the
      stamps of the dominator tree; [CfgDom]: order, dominators and their query.
      [CfgBlocks], [CfgBuild]: the construction against the flow of the
      code.  [CfgFrontier]: dominance frontiers.  [CfgCycle]: cycle detection.
    - [Aapcs], [AapcsSpec]: [arm_aapcs.c] with its callers in [arm-thumb-gen.c] and
      [ir/gen/params.c]: where the arguments of a call go; the rules of the procedure
      call standard as a relation.
    - [Fold], [FoldSpec]: [opt/util/cond_util.c], [opt/util/const_eval.c] and
      [frontend/gen/op/int.c]: comparison tokens, constant folding and the integer
      operators of the front end.
    - [KnownBits]: [opt/flat/scalar/known_bits.c], the lattice, its transfer
      functions and the table of frame slots.
    - [BitSet]: [bitspan.h], [bit_matrix.h], [dynamic_bitset.h], [small_sequence.h].

    ** What the theorems show

    - Encoders: every emitted word decodes, in the reference, to the instruction
      asked for, with its registers, immediates, shifts and flags; the engine
      behaves as if the cache were not there; sizes fit the target's features;
      branches are emitted exactly in their range.
    - Linker: a relocated instruction or word reaches the symbol, or an error is
      reported (not for a branch into the PLT); relocations touch nothing else; PLT
      stubs and veneers execute to their target; after the veneer pass a branch that
      may not cross the border of the hot block goes to a veneer on its own side,
      and the pass adds exactly the announced bytes; the hash table is equivalent to
      a search of the table and refines a finite map with the resolution rules;
      undefined symbols are never lost from the list the archives are searched for.
    - Memory: the sort is a stable sort for both element representations; the arena
      keeps its block list consistent, hands out disjoint blocks and becomes one
      free block again, for requests that do not wrap in [size_t]; vectors implement
      lists; owners never free twice.
    - Live intervals: the incremental sweep answers as a scan of all intervals does, in
      every state code generation goes through; a scratch register handed out is free;
      the range query agrees with the single query; packed spill slots are disjoint,
      aligned and shared exactly as before, through hash collisions.
    - Runtime library: addition, subtraction, multiplication and division of floats
      and doubles return the nearest representable value, ties to even, for all
      operands, with the special cases of IEEE 754; comparisons are exact;
      conversions round, truncate or saturate; 64-bit division by 32-bit words is
      division; an overlapping move copies the original bytes. The loops that
      normalize a significand have the width of the word as fuel, the quotient
      corrections have 3 steps, one more than they take.
    - Control-flow graph: blocks and edges are the flow of control between the
      instructions, but for computed gotos, for which the graph has no edges; the stored
      dominators are the immediate dominators of the graph, and the constant-time query
      on a built function without computed gotos is dominance over paths of
      instructions; frontiers are exact but for the entry block; the cycle test is exact
      for code without computed jumps; the slices sized by the counting pass hold what
      the filling pass stores, unless a 16-bit counter wraps, which is a result of its
      own.  A search has one step per edge and one per block as
      fuel, the stamps two per block, a climb the number of blocks; each is proved to be
      enough.
    - Call layout: the registers and stack slots of the arguments are a run of the
      rules of the procedure call standard, with its VFP variant; no two arguments share
      a register or a byte; the moves that drop a hidden result pointer put every
      argument word where the other layout wants it.
    - Folding: the tables of comparison tokens are negation and exchange of operands;
      a folded compare or instruction has the value of the instruction at its width, and
      where it has not (a signed order on unsigned operands, a field of the high word) is
      said; an
      integer operator of the front end keeps the value of the C operator through every
      simplification; a constant division by zero is an error exactly where the
      expression is evaluated.
    - Known bits: the transfer functions are sound, an entry of the table holds of the
      frame in every reachable state, and a decided branch goes where the comparison
      sends it.
    - Bit sets: the word kernels are operations on sets of indices, the iteration visits
      the members below the limit in order; the buffers keep their contents through
      moves, own their allocation alone and free it once.

    ** Not modelled.  The front end but for the integer operators, the optimisation
    passes but for known bits and the shared folding, instruction selection and the
    SSA register allocator (their state is the whole compiler); object file
    input and output, DWARF, the driver (files and processes); the string section
    (names are strings); symbol versions; lazy section loading; headers for other
    systems.  The bounds of the models are those of the code, except that array
    indices are unbounded where an array that fits the address space cannot
    overflow them.

    ** Left open.  The parser, the code generator and the remaining passes work on the global
    value stack and on the full IR; a model of them starts with the semantics of the
    IR instructions. *)

From stdpp Require Export base tactics numbers list option.
From Stdlib Require Export ZArith Lia.

(** ** Machine integers

    A C integer is a [Z]; an unsigned object of width [w] keeps the invariant
    [0 <= x < 2^w], and every operation of the source that can leave the
    range is followed by the wrap-around the C type prescribes. *)

Declare Scope c_scope.
Delimit Scope c_scope with C.

Definition u32 (x : Z) : Z := Z.land x (Z.ones 32).
Definition u16 (x : Z) : Z := Z.land x (Z.ones 16).
Definition u8 (x : Z) : Z := Z.land x (Z.ones 8).
Definition u64 (x : Z) : Z := Z.land x (Z.ones 64).

(** [(int32_t)x] of an unsigned 32-bit value. *)
Definition s32 (x : Z) : Z := if Z.ltb (u32 x) (2 ^ 31) then u32 x else u32 x - 2 ^ 32.

(** [x << n] and [~x] on [uint32_t]. *)
Definition shl32 (x n : Z) : Z := u32 (Z.shiftl x n).
Definition not32 (x : Z) : Z := Z.lxor (u32 x) (Z.ones 32).

(** [__builtin_ctz(x)], undefined at 0. *)
Definition ctz32 (x : Z) : Z := Z.log2 (Z.land x (- x)).

(** C truth value of an integer, and the integer of a comparison. *)
Definition truth (x : Z) : bool := negb (Z.eqb x 0).
Definition b2z (b : bool) : Z := if b then 1 else 0.

Notation "x &&& y" := (Z.land x y) (at level 40, left associativity) : c_scope.
Notation "x ||| y" := (Z.lor x y) (at level 50, left associativity) : c_scope.
Notation "x ^^^ y" := (Z.lxor x y) (at level 45, left associativity) : c_scope.
Notation "x <<< n" := (shl32 x n) (at level 36, left associativity) : c_scope.
Notation "x >>> n" := (Z.shiftr x n) (at level 36, left associativity) : c_scope.
Notation "~~~ x" := (not32 x) (at level 30, right associativity) : c_scope.

(** ** Generic lemmas on fixed-width integers *)

Section Width.
Local Open Scope Z_scope.

Lemma land_ones_bound w x : 0 <= w -> 0 <= Z.land x (Z.ones w) < 2 ^ w.
Proof.
  intros Hw. rewrite Z.land_ones by done.
  apply Z.mod_pos_bound, Z.pow_pos_nonneg; lia.
Qed.

Lemma u32_mod x : u32 x = x mod 2 ^ 32.
Proof. apply Z.land_ones; lia. Qed.

Lemma u32_bound x : 0 <= u32 x < 2 ^ 32.
Proof. apply land_ones_bound; lia. Qed.

Lemma u16_bound x : 0 <= u16 x < 2 ^ 16.
Proof. apply land_ones_bound; lia. Qed.

Lemma u8_bound x : 0 <= u8 x < 2 ^ 8.
Proof. apply land_ones_bound; lia. Qed.

Lemma u32_small x : 0 <= x < 2 ^ 32 -> u32 x = x.
Proof. intros. rewrite u32_mod. by apply Z.mod_small. Qed.

Lemma u16_small x : 0 <= x < 2 ^ 16 -> u16 x = x.
Proof. intros. unfold u16. rewrite Z.land_ones by lia. by apply Z.mod_small. Qed.

Lemma u8_small x : 0 <= x < 2 ^ 8 -> u8 x = x.
Proof. intros. unfold u8. rewrite Z.land_ones by lia. by apply Z.mod_small. Qed.

Lemma u32_idemp x : u32 (u32 x) = u32 x.
Proof. apply u32_small, u32_bound. Qed.

(** The signed view of [x] wraps back to [x], and of a wrapped signed value
    gives the value back. *)
Lemma u32_s32 x : u32 (s32 x) = u32 x.
Proof.
  unfold s32. rewrite !u32_mod. case_match; [by rewrite Z.mod_mod|].
  rewrite <-(Z.mod_mod x (2 ^ 32)) at 2 by lia.
  rewrite Zminus_mod, Z_mod_same_full, Z.sub_0_r. by rewrite !Z.mod_mod by lia.
Qed.

Lemma s32_u32 x : - 2 ^ 31 <= x < 2 ^ 31 -> s32 (u32 x) = x.
Proof.
  intros Hx. unfold s32. rewrite u32_idemp, u32_mod.
  destruct (decide (0 <= x)).
  - rewrite Z.mod_small by lia. destruct (Z.ltb_spec x (2 ^ 31)); lia.
  - replace (x mod 2 ^ 32) with (x + 2 ^ 32).
    + destruct (Z.ltb_spec (x + 2 ^ 32) (2 ^ 31)); lia.
    + apply (Z.mod_unique _ _ (-1)); lia.
Qed.

Lemma s32_bound x : - 2 ^ 31 <= s32 x < 2 ^ 31.
Proof.
  pose proof (u32_bound x). unfold s32.
  destruct (Z.ltb_spec (u32 x) (2 ^ 31)); lia.
Qed.

Lemma s32_small x : - 2 ^ 31 <= x < 2 ^ 31 -> s32 x = x.
Proof.
  intros Hx. unfold s32. rewrite u32_mod. destruct (Z.lt_ge_cases x 0).
  - rewrite <- (Z.mod_unique x (2 ^ 32) (-1) (x + 2 ^ 32)) by lia. case_match; lia.
  - rewrite Z.mod_small by lia. case_match; lia.
Qed.

Lemma testbit_above w x i : 0 <= w <= i -> 0 <= x < 2 ^ w -> Z.testbit x i = false.
Proof.
  intros Hi Hx. rewrite <-(Z.mod_small x (2 ^ w)) by done.
  apply Z.mod_pow2_bits_high; lia.
Qed.

Lemma lor_bound w x y : 0 <= w -> 0 <= x < 2 ^ w -> 0 <= y < 2 ^ w -> 0 <= Z.lor x y < 2 ^ w.
Proof.
  intros Hw Hx Hy. split; [apply Z.lor_nonneg; lia|].
  destruct (decide (Z.lor x y = 0)) as [->|Hne]; [lia|].
  apply Z.log2_lt_cancel. rewrite Z.log2_pow2 by done.
  destruct (decide (x = 0)) as [->|]; [rewrite Z.lor_0_l in *; apply Z.log2_lt_pow2; lia|].
  destruct (decide (y = 0)) as [->|]; [rewrite Z.lor_0_r in *; apply Z.log2_lt_pow2; lia|].
  rewrite Z.log2_lor by lia.
  apply Z.max_lub_lt; apply Z.log2_lt_pow2; lia.
Qed.

Lemma truth_false x : truth x = false <-> x = 0.
Proof. unfold truth. rewrite negb_false_iff. apply Z.eqb_eq. Qed.

Lemma truth_true x : truth x = true <-> x <> 0.
Proof. unfold truth. rewrite negb_true_iff. apply Z.eqb_neq. Qed.

End Width.

(** ** Exhaustive checks over small ranges *)

Section Exhaustive.
Local Open Scope Z_scope.

Definition forall_below (n : Z) (P : Z -> bool) : bool := forallb P (seqZ 0 n).

Lemma forall_below_sound n P x : forall_below n P = true -> 0 <= x < n -> P x = true.
Proof.
  unfold forall_below. rewrite forallb_forall. intros H Hx.
  apply H, list_elem_of_In, elem_of_seqZ. lia.
Qed.

Definition forall_between (lo hi : Z) (P : Z -> bool) : bool := forallb P (seqZ lo (hi - lo)).

Lemma forall_between_sound lo hi P x :
  forall_between lo hi P = true -> lo <= x < hi -> P x = true.
Proof.
  unfold forall_between. rewrite forallb_forall. intros H Hx.
  apply H, list_elem_of_In, elem_of_seqZ. lia.
Qed.

(** All numbers of [n] bits, by their bits. *)
Fixpoint forall_bits (n : nat) (acc : Z) (P : Z -> bool) : bool :=
  match n with
  | O => P acc
  | S n => forall_bits n (2 * acc) P && forall_bits n (2 * acc + 1) P
  end.

Lemma forall_bits_from n acc P x :
  forall_bits n acc P = true -> 0 <= x < 2 ^ Z.of_nat n -> P (acc * 2 ^ Z.of_nat n + x) = true.
Proof.
  revert acc x. induction n as [|n IH]; intros acc x H Hx.
  - change (2 ^ Z.of_nat 0) with 1 in *. cbn [forall_bits] in H.
    replace (acc * 1 + x) with acc by lia. done.
  - cbn [forall_bits] in H. apply andb_prop in H as [H0 H1].
    rewrite Nat2Z.inj_succ, Z.pow_succ_r in * by lia.
    destruct (decide (x < 2 ^ Z.of_nat n)).
    + specialize (IH _ x H0). rewrite <-IH by lia. f_equal. lia.
    + specialize (IH _ (x - 2 ^ Z.of_nat n) H1). rewrite <-IH by lia. f_equal. lia.
Qed.

Lemma forall_bits_sound n P x :
  forall_bits n 0 P = true -> 0 <= x < 2 ^ Z.of_nat n -> P x = true.
Proof. intros H Hx. by rewrite <-(forall_bits_from n 0 P x H Hx). Qed.

Fixpoint range_forall (lo : Z) (n : nat) (P : Z -> Prop) : Prop :=
  match n with
  | O => True
  | S n => P lo /\ range_forall (lo + 1) n P
  end.

Lemma range_ind (P : Z -> Prop) lo n x :
  range_forall lo n P -> lo <= x < lo + Z.of_nat n -> P x.
Proof.
  revert lo. induction n as [|n IH]; simpl; intros lo HP Hx; [lia|].
  destruct HP as [H0 HP], (decide (x = lo)) as [->|]; [done|]. apply (IH _ HP). lia.
Qed.

End Exhaustive.

(** Case analysis on an integer variable with [n] values from [lo]: one goal per value. *)
Ltac enum_range x lo n :=
  let Hx := fresh in
  assert (Hx : (lo <= x < lo + Z.of_nat n)%Z) by lia;
  repeat match goal with H : context [x] |- _ => lazymatch H with Hx => fail | _ => revert H end end;
  revert Hx; generalize dependent x; intros x Hx;
  pattern x; refine (range_ind _ lo n x _ Hx);
  cbn [range_forall Z.add Pos.add Pos.succ Pos.add_carry];
  repeat split; clear Hx x.

(** [lia] with quotients and remainders by constants. *)
Ltac lia_mod := Z.to_euclidean_division_equations; lia.

(** ** Lists *)

Lemma list_split {A} (k : nat) (l : list A) :
  (k <= length l)%nat -> exists l1 l2, l = l1 ++ l2 /\ length l1 = k.
Proof. intros H. exists (take k l), (drop k l). split; [by rewrite take_drop | by apply length_take_le]. Qed.

(** Equality of concatenations up to association. *)
Ltac list_assoc := cbn [app]; rewrite ?app_nil_r, <- ?app_assoc; cbn [app]; rewrite ?app_nil_r; reflexivity.

(** ** Arrays of integers

    An array is a list; reading past its end gives 0 and writing there does nothing,
    which the well-formedness of each component's state excludes. *)

Section Arrays.
Local Open Scope Z_scope.

Definition int_at (data : list Z) (i : Z) : Z := default 0 (data !! Z.to_nat i).
Definition set_int (data : list Z) (i x : Z) : list Z := <[Z.to_nat i := x]> data.

Lemma set_int_length l i x : length (set_int l i x) = length l.
Proof. apply length_insert. Qed.

Lemma int_at_set l i x : 0 <= i < Z.of_nat (length l) -> int_at (set_int l i x) i = x.
Proof. intros Hi. unfold int_at, set_int. by rewrite list_lookup_insert_eq by lia. Qed.

Lemma int_at_set_ne l i j x : 0 <= i -> 0 <= j -> i <> j -> int_at (set_int l i x) j = int_at l j.
Proof. intros Hi Hj Hn. unfold int_at, set_int. by rewrite list_lookup_insert_ne by lia. Qed.

Lemma int_at_app l k i : Z.of_nat (length l) <= i -> int_at (l ++ k) i = int_at k (i - Z.of_nat (length l)).
Proof. intros Hi. unfold int_at. rewrite lookup_app_r by lia. do 2 f_equal. lia. Qed.

Lemma int_at_app_l l k i : 0 <= i < Z.of_nat (length l) -> int_at (l ++ k) i = int_at l i.
Proof. intros Hi. unfold int_at. by rewrite lookup_app_l by lia. Qed.

Lemma int_at_lookup l (i : nat) x : l !! i = Some x -> int_at l (Z.of_nat i) = x.
Proof. intros H. unfold int_at. by rewrite Nat2Z.id, H. Qed.
End Arrays.

(** ** The lowest set bit *)

Section LowestBit.
Local Open Scope Z_scope.

Lemma lowest_bit x : 0 < x -> exists k m, 0 <= k /\ Z.land x (- x) = 2 ^ k /\ x = (2 * m + 1) * 2 ^ k.
Proof.
  destruct x as [|p|p]; [lia| |lia]. intros _. induction p as [q IH|q (k & m & Hk & E & Ht)|].
  - exists 0, (Z.pos q). split; [done|]. split; [|lia]. apply Z.bits_inj'. intros i Hi. rewrite Z.land_spec.
    replace (- Z.pos (xI q)) with (Z.lnot (2 * Z.pos q)) by (unfold Z.lnot; lia). rewrite Z.lnot_spec by done.
    replace (Z.pos (xI q)) with (2 * Z.pos q + 1) by lia. change (2 ^ 0) with 1.
    destruct (Z.eq_dec i 0) as [->|Hn].
    + by rewrite Z.testbit_odd_0, Z.testbit_even_0.
    + replace i with (Z.succ (i - 1)) by lia. rewrite Z.testbit_odd_succ, Z.testbit_even_succ by lia.
      rewrite andb_negb_r. symmetry. change 1 with (2 ^ 0) at 1. apply Z.pow2_bits_false. lia.
  - exists (Z.succ k), m. split; [lia|]. replace (Z.pos (xO q)) with (2 * Z.pos q) by lia. split.
    + replace (- (2 * Z.pos q)) with (2 * - Z.pos q) by lia. rewrite Z.pow_succ_r by done. rewrite <-E.
      rewrite !(Z.mul_comm 2). change 2 with (2 ^ 1). rewrite <-!Z.shiftl_mul_pow2 by lia. by rewrite Z.shiftl_land.
    + rewrite Z.pow_succ_r by done. lia.
  - exists 0, 0. done.
Qed.

Lemma ctz_odd x : 0 < x -> 0 <= ctz32 x /\ exists m, x = (2 * m + 1) * 2 ^ ctz32 x.
Proof.
  intros Hx. destruct (lowest_bit x Hx) as (k & m & Hk & E & Ht). unfold ctz32. rewrite E, Z.log2_pow2 by done. eauto.
Qed.

Lemma ctz_testbit x : 0 < x -> 0 <= ctz32 x /\ Z.testbit x (ctz32 x) = true.
Proof.
  intros Hx. destruct (ctz_odd x Hx) as (Hk & m & E). split; [done|].
  rewrite E at 1. rewrite Z.mul_pow2_bits, Z.sub_diag by done. by rewrite Z.testbit_odd_0.
Qed.
End LowestBit.
