(* ===== verification/BitReflect.v ===== *)
(** * Bit-level decision procedure by reflection

    [bit_solve] proves an equation between fixed-width bit expressions (masks,
    shifts by constants, [|], [&], [^], constants and bounded variables): both
    sides are reified, the symbolic boolean of each bit position is computed,
    and the two are compared on all assignments of the few variable bits they
    mention.  The encoders of the code generator and the architecture's decoder
    are related through it. *)

From S2P Require Import Prelude.
Local Open Scope Z_scope.

(** Bit expressions over an environment of bounded variables. *)
Inductive bx : Type :=
| BVar (x : nat)
| BConst (c : Z)
| BLand (a b : bx)
| BLor (a b : bx)
| BLxor (a b : bx)
| BShl (a : bx) (n : Z)
| BShr (a : bx) (n : Z).

(** Symbolic booleans: bit [i] of variable [x]. *)
Inductive sb : Type :=
| S0 | S1
| SV (x : nat) (i : Z)
| SAnd (a b : sb)
| SOr (a b : sb)
| SXor (a b : sb).

Definition sand (a b : sb) : sb :=
  match a, b with
  | S0, _ | _, S0 => S0
  | S1, x | x, S1 => x
  | _, _ => SAnd a b
  end.

Definition sor (a b : sb) : sb :=
  match a, b with
  | S1, _ | _, S1 => S1
  | S0, x | x, S0 => x
  | _, _ => SOr a b
  end.

Definition sxor (a b : sb) : sb :=
  match a, b with
  | S0, x | x, S0 => x
  | S1, S1 => S0
  | _, _ => SXor a b
  end.

(** The environment pairs each variable's value with its width. *)
Definition env := list (Z * Z).
Definition env_ok (e : env) : Prop := Forall (fun p => 0 <= p.2 /\ 0 <= p.1 < 2 ^ p.2) e.
Definition env_val (e : env) (x : nat) : Z := (nth x e (0, 0)).1.
Definition env_width (e : env) (x : nat) : Z := (nth x e (0, 0)).2.

Fixpoint bx_denote (e : env) (t : bx) : Z :=
  match t with
  | BVar x => env_val e x
  | BConst c => c
  | BLand a b => Z.land (bx_denote e a) (bx_denote e b)
  | BLor a b => Z.lor (bx_denote e a) (bx_denote e b)
  | BLxor a b => Z.lxor (bx_denote e a) (bx_denote e b)
  | BShl a n => Z.shiftl (bx_denote e a) n
  | BShr a n => Z.shiftr (bx_denote e a) n
  end.

Fixpoint sb_denote (f : nat -> Z -> bool) (s : sb) : bool :=
  match s with
  | S0 => false
  | S1 => true
  | SV x i => f x i
  | SAnd a b => sb_denote f a && sb_denote f b
  | SOr a b => sb_denote f a || sb_denote f b
  | SXor a b => xorb (sb_denote f a) (sb_denote f b)
  end.

(** Bit [i] of a term, given the widths of the variables. *)
Fixpoint bx_bit (ws : list Z) (t : bx) (i : Z) : sb :=
  match t with
  | BVar x => if Z.ltb i (nth x ws 0) then SV x i else S0
  | BConst c => if Z.testbit c i then S1 else S0
  | BLand a b => sand (bx_bit ws a i) (bx_bit ws b i)
  | BLor a b => sor (bx_bit ws a i) (bx_bit ws b i)
  | BLxor a b => sxor (bx_bit ws a i) (bx_bit ws b i)
  | BShl a n => if Z.ltb i n then S0 else bx_bit ws a (i - n)
  | BShr a n => bx_bit ws a (i + n)
  end.

(** An upper bound of the width of a term, [None] when it may be negative or a
    shift amount is. *)
Fixpoint bx_width (ws : list Z) (t : bx) : option Z :=
  match t with
  | BVar x => Some (nth x ws 0)
  | BConst c => if Z.leb 0 c then Some (Z.log2 c + 1) else None
  | BLand a b =>
      match bx_width ws a, bx_width ws b with
      | Some v, Some w => Some (Z.min v w)
      | _, _ => None
      end
  | BLor a b | BLxor a b =>
      match bx_width ws a, bx_width ws b with
      | Some v, Some w => Some (Z.max v w)
      | _, _ => None
      end
  | BShl a n =>
      if Z.leb 0 n then match bx_width ws a with Some w => Some (w + n) | None => None end
      else None
  | BShr a n =>
      if Z.leb 0 n then match bx_width ws a with Some w => Some (Z.max 0 (w - n)) | None => None end
      else None
  end.

(** The variable bits of a symbolic boolean, and the comparison of two by
    enumeration of their assignments. *)
Fixpoint sb_vars (s : sb) : list (nat * Z) :=
  match s with
  | S0 | S1 => []
  | SV x i => [(x, i)]
  | SAnd a b | SOr a b | SXor a b => sb_vars a ++ sb_vars b
  end.

Definition upd (f : nat -> Z -> bool) (x : nat) (i : Z) (b : bool) : nat -> Z -> bool :=
  fun y j => if Nat.eqb x y && Z.eqb i j then b else f y j.

Fixpoint sb_enum (vs : list (nat * Z)) (f : nat -> Z -> bool) (s t : sb) : bool :=
  match vs with
  | [] => Bool.eqb (sb_denote f s) (sb_denote f t)
  | (x, i) :: vs =>
      sb_enum vs (upd f x i true) s t && sb_enum vs (upd f x i false) s t
  end.

Definition pair_eqb (p q : nat * Z) : bool := Nat.eqb p.1 q.1 && Z.eqb p.2 q.2.
Definition nodupb (vs : list (nat * Z)) : list (nat * Z) :=
  fold_right (fun p acc => if existsb (pair_eqb p) acc then acc else p :: acc) [] vs.

Definition sb_eqb (s t : sb) : bool :=
  sb_enum (nodupb (sb_vars s ++ sb_vars t)) (fun _ _ => false) s t.

Fixpoint bits_eqb (ws : list Z) (a b : bx) (n : nat) : bool :=
  match n with
  | O => true
  | S n => sb_eqb (bx_bit ws a (Z.of_nat n)) (bx_bit ws b (Z.of_nat n)) && bits_eqb ws a b n
  end.

Definition bx_eqb (ws : list Z) (a b : bx) : bool :=
  match bx_width ws a, bx_width ws b with
  | Some v, Some w => bits_eqb ws a b (Z.to_nat (Z.max v w))
  | _, _ => false
  end.

(** ** Soundness *)

Section Sound.
Context (e : env) (He : env_ok e).

Let ws : list Z := map snd e.
Let val (x : nat) (i : Z) : bool := Z.testbit (env_val e x) i.

Lemma nth_ws x : nth x ws 0 = env_width e x.
Proof. unfold ws, env_width. change 0 with ((0, 0) : Z * Z).2 at 1. apply map_nth. Qed.

Lemma env_bound x : 0 <= env_width e x /\ 0 <= env_val e x < 2 ^ env_width e x.
Proof.
  unfold env_width, env_val. destruct (nth_in_or_default x e (0, 0)) as [Hin | ->].
  - unfold env_ok in He. rewrite List.Forall_forall in He. by apply He.
  - simpl. lia.
Qed.

Lemma sand_ok f a b : sb_denote f (sand a b) = sb_denote f a && sb_denote f b.
Proof.
  destruct a, b; simpl; try done; by rewrite ?andb_false_r, ?andb_true_r.
Qed.

Lemma sor_ok f a b : sb_denote f (sor a b) = sb_denote f a || sb_denote f b.
Proof.
  destruct a, b; simpl; try done; by rewrite ?orb_false_r, ?orb_true_r.
Qed.

Lemma sxor_ok f a b : sb_denote f (sxor a b) = xorb (sb_denote f a) (sb_denote f b).
Proof.
  destruct a, b; simpl; try done; by rewrite ?xorb_false_r, ?xorb_false_l.
Qed.

(** Above its width a term has no bit. *)
Lemma bx_width_sound t w :
  bx_width ws t = Some w ->
  0 <= w /\ forall i, w <= i -> Z.testbit (bx_denote e t) i = false.
Proof.
  revert w. induction t as [x|c|a IHa b IHb|a IHa b IHb|a IHa b IHb|a IHa n|a IHa n];
    simpl; intros w Hw.
  - rewrite nth_ws in Hw. simplify_eq. destruct (env_bound x) as [? Hx].
    split; [done|]. intros i Hi. by apply (testbit_above (env_width e x)).
  - destruct (Z.leb_spec 0 c); [|done]. simplify_eq.
    pose proof (Z.log2_nonneg c). split; [lia|]. intros i Hi. apply Z.bits_above_log2; lia.
  - repeat case_match; simplify_eq. edestruct IHa as [? Ha]; [done|].
    edestruct IHb as [? Hb]; [done|]. split; [lia|]. intros i Hi. rewrite Z.land_spec.
    destruct (Z.min_spec z z0) as [[_ Hm]|[_ Hm]]; rewrite Hm in Hi.
    + by rewrite Ha.
    + rewrite Hb by done. apply andb_false_r.
  - repeat case_match; simplify_eq. edestruct IHa as [? Ha]; [done|].
    edestruct IHb as [? Hb]; [done|]. split; [lia|]. intros i Hi.
    by rewrite Z.lor_spec, Ha, Hb by lia.
  - repeat case_match; simplify_eq. edestruct IHa as [? Ha]; [done|].
    edestruct IHb as [? Hb]; [done|]. split; [lia|]. intros i Hi.
    by rewrite Z.lxor_spec, Ha, Hb by lia.
  - destruct (Z.leb_spec 0 n); [|done]. case_match; simplify_eq.
    edestruct IHa as [? Ha]; [done|]. split; [lia|]. intros i Hi.
    rewrite Z.shiftl_spec by lia. apply Ha; lia.
  - destruct (Z.leb_spec 0 n); [|done]. case_match; simplify_eq.
    edestruct IHa as [? Ha]; [done|]. split; [lia|]. intros i Hi.
    rewrite Z.shiftr_spec by lia. apply Ha; lia.
Qed.

Lemma bx_bit_sound t w i :
  bx_width ws t = Some w -> 0 <= i ->
  Z.testbit (bx_denote e t) i = sb_denote val (bx_bit ws t i).
Proof.
  revert w i. induction t as [x|c|a IHa b IHb|a IHa b IHb|a IHa b IHb|a IHa n|a IHa n];
    simpl; intros w i Hw Hi.
  - rewrite nth_ws. destruct (env_bound x) as [? Hx].
    destruct (Z.ltb_spec i (env_width e x)); simpl; [done|].
    by apply (testbit_above (env_width e x)).
  - by destruct (Z.testbit c i).
  - repeat case_match; simplify_eq. rewrite Z.land_spec, sand_ok. f_equal; eauto.
  - repeat case_match; simplify_eq. rewrite Z.lor_spec, sor_ok. f_equal; eauto.
  - repeat case_match; simplify_eq. rewrite Z.lxor_spec, sxor_ok. f_equal; eauto.
  - destruct (Z.leb_spec 0 n); [|done]. case_match; simplify_eq.
    rewrite Z.shiftl_spec by done. destruct (Z.ltb_spec i n); simpl.
    + apply Z.testbit_neg_r; lia.
    + eapply IHa; [done|lia].
  - destruct (Z.leb_spec 0 n); [|done]. case_match; simplify_eq.
    rewrite Z.shiftr_spec by done. eapply IHa; [done|lia].
Qed.
End Sound.

Lemma sb_denote_ext f g s :
  (forall x i, In (x, i) (sb_vars s) -> f x i = g x i) -> sb_denote f s = sb_denote g s.
Proof.
  induction s as [| |x i|a IHa b IHb|a IHa b IHb|a IHa b IHb]; simpl; intros H; try done.
  1: by apply H; left.
  all: rewrite IHa, IHb by (intros; apply H, in_or_app; auto); done.
Qed.

(** Enumerating a set of bits that covers the variables decides equality. *)
Lemma sb_enum_sound vs f g s t :
  sb_enum vs f s t = true ->
  (forall x i, In (x, i) (sb_vars s ++ sb_vars t) -> ~ In (x, i) vs -> f x i = g x i) ->
  sb_denote g s = sb_denote g t.
Proof.
  revert f. induction vs as [|[x i] vs IH]; simpl; intros f H Hag.
  - apply Bool.eqb_prop in H.
    rewrite <-(sb_denote_ext f g s), <-(sb_denote_ext f g t); [done|..];
      intros; apply Hag; try (apply in_or_app; auto); tauto.
  - apply andb_prop in H as [H1 H0].
    assert (Hu : forall b, g x i = b -> forall y j, In (y, j) (sb_vars s ++ sb_vars t) ->
      ~ In (y, j) vs -> upd f x i b y j = g y j).
    { intros b Hb y j Hin Hn. unfold upd.
      destruct (Nat.eqb_spec x y) as [->|], (Z.eqb_spec i j) as [->|]; simpl; try done;
        apply Hag; try done; intros [[=]|]; simplify_eq; done. }
    destruct (g x i) eqn:Hg; eauto.
Qed.

Lemma nodupb_in p vs : In p vs -> In p (nodupb vs).
Proof.
  induction vs as [|q vs IH]; simpl; [done|]. intros [->|Hin].
  - destruct (existsb (pair_eqb p) (nodupb vs)) eqn:Hex; [|by left].
    apply existsb_exists in Hex as (q & Hq & Heq). unfold pair_eqb in Heq.
    apply andb_prop in Heq as [H1%Nat.eqb_eq H2%Z.eqb_eq]. destruct p, q; simpl in *. by subst.
  - destruct existsb; [auto|]. right. auto.
Qed.

Lemma sb_eqb_sound s t g : sb_eqb s t = true -> sb_denote g s = sb_denote g t.
Proof.
  intros H. eapply sb_enum_sound; [exact H|]. intros x i Hin Hn.
  by destruct Hn; apply nodupb_in.
Qed.

Lemma bits_eqb_sound ws a b n g i :
  bits_eqb ws a b n = true -> 0 <= i < Z.of_nat n ->
  sb_denote g (bx_bit ws a i) = sb_denote g (bx_bit ws b i).
Proof.
  induction n as [|n IH]; simpl; intros H Hi; [lia|].
  apply andb_prop in H as [H1 H2]. destruct (decide (i = Z.of_nat n)) as [->|].
  - by apply sb_eqb_sound.
  - apply IH; [done|lia].
Qed.

Theorem bx_eqb_sound e a b :
  env_ok e -> bx_eqb (map snd e) a b = true -> bx_denote e a = bx_denote e b.
Proof.
  intros He H. unfold bx_eqb in H.
  destruct (bx_width (map snd e) a) as [v|] eqn:Ha; [|done].
  destruct (bx_width (map snd e) b) as [w|] eqn:Hb; [|done].
  destruct (bx_width_sound e He a v Ha) as [Hv Ha'].
  destruct (bx_width_sound e He b w Hb) as [Hw Hb'].
  apply Z.bits_inj'. intros i Hi. destruct (decide (i < Z.max v w)).
  - rewrite (bx_bit_sound e He a v), (bx_bit_sound e He b w) by done.
    eapply bits_eqb_sound; [exact H|]. lia.
  - by rewrite Ha', Hb' by lia.
Qed.

(** ** Reification *)

(** Conversion unfolds the definitions built from bit operations before the bit
    operations themselves. *)
#[global] Strategy 100 [Z.land Z.lor Z.lxor Z.shiftl Z.shiftr Z.ones].

Ltac list_index x l :=
  lazymatch l with
  | (x, _) :: _ => constr:(O)
  | _ :: ?l => let n := list_index x l in constr:(S n)
  end.

(** The width of an atom, from a hypothesis [0 <= x < k]. *)
Ltac atom_width x :=
  match goal with
  | H : 0 <= x < ?k |- _ => let w := eval vm_compute in (Z.log2_up k) in constr:(w)
  end.

Ltac is_Zconst t :=
  lazymatch t with
  | Z0 => idtac
  | Zpos _ => idtac
  | Zneg _ => idtac
  end.

Ltac add_atom x l :=
  match l with
  | context [cons (x, _) _] => constr:(l)
  | _ => let w := atom_width x in constr:(cons (x, w) l)
  end.

Ltac collect t l :=
  lazymatch t with
  | Z.land ?a ?b => let l := collect a l in collect b l
  | Z.lor ?a ?b => let l := collect a l in collect b l
  | Z.lxor ?a ?b => let l := collect a l in collect b l
  | Z.shiftl ?a _ => collect a l
  | Z.shiftr ?a _ => collect a l
  | Z.ones _ => constr:(l)
  | Z0 => constr:(l)
  | Zpos _ => constr:(l)
  | Zneg _ => constr:(l)
  | _ => add_atom t l
  end.

Ltac reify t l :=
  lazymatch t with
  | Z.land ?a ?b => let a := reify a l in let b := reify b l in constr:(BLand a b)
  | Z.lor ?a ?b => let a := reify a l in let b := reify b l in constr:(BLor a b)
  | Z.lxor ?a ?b => let a := reify a l in let b := reify b l in constr:(BLxor a b)
  | Z.shiftl ?a ?n => let a := reify a l in constr:(BShl a n)
  | Z.shiftr ?a ?n => let a := reify a l in constr:(BShr a n)
  | Z.ones _ => constr:(BConst t)
  | Z0 => constr:(BConst t)
  | Zpos _ => constr:(BConst t)
  | Zneg _ => constr:(BConst t)
  | _ => let n := list_index t l in constr:(BVar n)
  end.

Ltac bit_solve_core :=
  lazymatch goal with
  | |- ?a = ?b :> Z =>
      let l := collect a (@nil (Z * Z)) in
      let l := collect b l in
      let ra := reify a l in
      let rb := reify b l in
      let r := eval vm_compute in (bx_eqb (map snd l) ra rb) in
      lazymatch r with true => idtac end;
      change (bx_denote l ra = bx_denote l rb);
      apply bx_eqb_sound;
      [ unfold env_ok; repeat (apply List.Forall_cons; [simpl; lia|]); apply List.Forall_nil
      | vm_compute; reflexivity ]
  end.

(** Proves a bit-level equation over variables bounded in the context. *)
Ltac bit_solve := unfold u8, u16, u64, not32, shl32; unfold u32; bit_solve_core.

(** The constant, the variable, or the low five bits or single bit of a variable,
    that a term is equal to. *)
Definition bx_candidates (ws : list Z) (a : bx) : list bx :=
  let bits := map (fun i => bx_bit ws a (Z.of_nat i)) (seq 0 32) in
  let const := fold_right (fun s c => 2 * c + match s with S1 => 1 | _ => 0 end) 0 bits in
  let vars := seq 0 (length ws) in
  BConst const :: map BVar vars ++ map (fun x => BLand (BVar x) (BConst 31)) vars ++
  flat_map (fun x => map (fun i => BLand (BShr (BVar x) (Z.of_nat i)) (BConst 1)) (seq 0 8)) vars.

Definition bx_guess (ws : list Z) (a : bx) : option bx :=
  match filter (fun c => bx_eqb ws a c) (bx_candidates ws a) with
  | c :: _ => Some c
  | [] => None
  end.

(** Replaces the term [t] of the goal, which [unf] unfolds to bit operations, by
    what it reads. *)
Ltac bit_read t unf :=
  let t' := unf t in
  let l := collect t' (@nil (Z * Z)) in
  let ra := reify t' l in
  let g := eval vm_compute in (bx_guess (map snd l) ra) in
  lazymatch g with
  | Some ?r =>
      let v := eval cbn [bx_denote env_val nth fst] in (bx_denote l r) in
      let H := fresh in
      assert (H : t = v);
      [ change (bx_denote l ra = bx_denote l r); apply bx_eqb_sound;
        [ unfold env_ok; repeat (apply List.Forall_cons; [simpl; lia|]); apply List.Forall_nil
        | vm_compute; reflexivity ]
      | rewrite H; clear H ]
  end.

Example bit_solve_demo x y :
  0 <= x < 16 -> 0 <= y < 256 ->
  Z.land (Z.shiftr (Z.lor (Z.lor 0xF2000000 (shl32 x 8)) y) 8) 0xf = x.
Proof. intros. bit_solve. Qed.
