(* ===== verification/ArmDecode.v ===== *)
(** * Reference definitions of the ARMv8-M architecture

    The pseudo-functions of the architecture's instruction descriptions that the
    encoders are checked against: the expansion of modified immediates, and the
    immediates and fields of the encodings as a decoder reads them from the
    instruction word.  A 32-bit instruction is the word
    [first halfword << 16 | second halfword]. *)

From S2P Require Import Prelude BitReflect.
Local Open Scope Z_scope.

(** Bits [[lo+len-1 : lo]] of a word. *)
Definition slice (x lo len : Z) : Z := Z.land (Z.shiftr x lo) (Z.ones len).

(** [SignExtend] of an [n]-bit value. *)
Definition sign_extend (n x : Z) : Z := if Z.testbit x (n - 1) then x - 2 ^ n else x.

(** [ROR(x, n)] on 32 bits. *)
Definition ror32 (x n : Z) : Z := Z.lor (Z.shiftr x n) (u32 (Z.shiftl x (32 - n))).

(** [ThumbExpandImm]: the 32-bit constant of a 12-bit modified immediate;
    [None] for the UNPREDICTABLE patterns. *)
Definition ThumbExpandImm (imm12 : Z) : option Z :=
  let imm8 := slice imm12 0 8 in
  if Z.eqb (slice imm12 10 2) 0 then
    let m := slice imm12 8 2 in
    if Z.eqb m 0 then Some imm8
    else if Z.eqb imm8 0 then None
    else if Z.eqb m 1 then Some (Z.lor (Z.shiftl imm8 16) imm8)
    else if Z.eqb m 2 then Some (Z.lor (Z.shiftl imm8 24) (Z.shiftl imm8 8))
    else Some (Z.lor (Z.lor (Z.shiftl imm8 24) (Z.shiftl imm8 16)) (Z.lor (Z.shiftl imm8 8) imm8))
  else
    Some (ror32 (Z.lor 0x80 (slice imm12 0 7)) (slice imm12 7 5)).

(** [i:imm3:imm8] of a 32-bit data-processing (immediate) word. *)
Definition modimm_field (op : Z) : Z :=
  Z.lor (Z.lor (Z.shiftl (slice op 26 1) 11) (Z.shiftl (slice op 12 3) 8)) (slice op 0 8).

(** [imm4:i:imm3:imm8] of MOVW, MOVT; [i:imm3:imm8] of ADDW, SUBW, ADR. *)
Definition imm16_field (op : Z) : Z :=
  Z.lor (Z.shiftl (slice op 16 4) 12) (modimm_field op).

(** Branch offsets: B<c> (T1), B (T2), B<c>.W (T3), B.W/BL (T4/T1), CBZ/CBNZ. *)
Definition b_t1_offset (op : Z) : Z := sign_extend 9 (Z.shiftl (slice op 0 8) 1).
Definition b_t2_offset (op : Z) : Z := sign_extend 12 (Z.shiftl (slice op 0 11) 1).

Definition b_t3_offset (op : Z) : Z :=
  sign_extend 21
    (Z.lor (Z.shiftl (slice op 26 1) 20)
      (Z.lor (Z.shiftl (slice op 11 1) 19)
        (Z.lor (Z.shiftl (slice op 13 1) 18)
          (Z.lor (Z.shiftl (slice op 16 6) 12) (Z.shiftl (slice op 0 11) 1))))).

(** [I1 = NOT (J1 EOR S)], [I2 = NOT (J2 EOR S)]. *)
Definition b_t4_offset (op : Z) : Z :=
  let s := slice op 26 1 in
  let i1 := Z.lxor (Z.lxor (slice op 13 1) s) 1 in
  let i2 := Z.lxor (Z.lxor (slice op 11 1) s) 1 in
  sign_extend 25
    (Z.lor (Z.shiftl s 24)
      (Z.lor (Z.shiftl i1 23)
        (Z.lor (Z.shiftl i2 22)
          (Z.lor (Z.shiftl (slice op 16 10) 12) (Z.shiftl (slice op 0 11) 1))))).

Definition cbz_offset (op : Z) : Z :=
  Z.lor (Z.shiftl (slice op 9 1) 6) (Z.shiftl (slice op 3 5) 1).

(** [DecodeImmShift]: shift kind (0 LSL, 1 LSR, 2 ASR, 3 ROR, 4 RRX) and amount. *)
Definition DecodeImmShift (ty imm5 : Z) : Z * Z :=
  if Z.eqb ty 0 then (0, imm5)
  else if Z.eqb ty 1 then (1, if Z.eqb imm5 0 then 32 else imm5)
  else if Z.eqb ty 2 then (2, if Z.eqb imm5 0 then 32 else imm5)
  else if Z.eqb imm5 0 then (4, 1) else (3, imm5).

(** ** Generic facts about slices *)

Lemma slice_bound x lo len : 0 <= len -> 0 <= slice x lo len < 2 ^ len.
Proof. apply land_ones_bound. Qed.

Lemma sign_extend_range n x : 0 < n -> 0 <= x < 2 ^ n -> - 2 ^ (n - 1) <= sign_extend n x < 2 ^ (n - 1).
Proof.
  intros Hn Hx. unfold sign_extend.
  assert (2 ^ n = 2 * 2 ^ (n - 1)) as Hp.
  { rewrite <-Z.pow_succ_r by lia. f_equal; lia. }
  destruct (Z.testbit x (n - 1)) eqn:Hb.
  - rewrite Z.testbit_true in Hb by lia.
    assert (1 <= x / 2 ^ (n - 1)).
    { pose proof (Z.div_pos x (2 ^ (n - 1))).
      destruct (decide (x / 2 ^ (n - 1) = 0)) as [E|]; [rewrite E in Hb; discriminate Hb|]. lia. }
    assert (2 ^ (n - 1) <= x).
    { rewrite (Z.div_mod x (2 ^ (n - 1))) by lia. pose proof (Z.mod_pos_bound x (2 ^ (n - 1))). nia. }
    lia.
  - rewrite Z.testbit_false in Hb by lia.
    destruct (decide (x < 2 ^ (n - 1))) as [|Hge]; [lia|].
    rewrite <-(Z.div_unique x (2 ^ (n - 1)) 1 (x - 2 ^ (n - 1))) in Hb by lia. discriminate Hb.
Qed.

(** A signed value is the sign extension of its low bits. *)
Lemma sign_extend_mod n x :
  0 < n -> - 2 ^ (n - 1) <= x < 2 ^ (n - 1) -> sign_extend n (x mod 2 ^ n) = x.
Proof.
  intros Hn Hx.
  pose proof (Z.mod_pos_bound x (2 ^ n)) as Hb.
  destruct (sign_extend_range n (x mod 2 ^ n)) as [H1 H2]; [done|apply Hb; lia|].
  assert (Hp : 2 ^ n = 2 * 2 ^ (n - 1)).
  { rewrite <-Z.pow_succ_r by lia. f_equal; lia. }
  assert (He : exists k, sign_extend n (x mod 2 ^ n) = x + k * 2 ^ n).
  { unfold sign_extend. destruct (Z.testbit _ _).
    - exists (- (x / 2 ^ n) - 1). rewrite (Z.div_mod x (2 ^ n)) at 2 by lia. lia.
    - exists (- (x / 2 ^ n)). rewrite (Z.div_mod x (2 ^ n)) at 2 by lia. lia. }
  destruct He as [k Hk]. rewrite Hk in *. assert (k = 0) by nia. lia.
Qed.

(** ** A reference decoder of the Thumb instruction set

    The encodings of the ARMv8-M architecture that the code generator uses, each
    a mask and pattern of fixed bits with the instruction its operand fields
    denote.  The patterns are pairwise incompatible ([t16_disjoint],
    [t32_disjoint]), so a word has at most one reading. *)

Local Open Scope Z_scope.

Inductive alu_op := AND | BIC | ORR | ORN | EOR | ADD | ADC | SBC | SUB | RSB.
Inductive cmp_op := TST | TEQ | CMN | CMP.
Inductive srtype := LSL | LSR | ASR | ROR | RRX.
Inductive ext_op := SXTB | SXTH | UXTB | UXTH.
Inductive rev_op := REV | REV16 | REVSH | RBIT | CLZ.
Inductive lmul_op := SMULL | UMULL | SMLAL | UMLAL | UMAAL.
Inductive access := A_word | A_byte | A_half | A_sbyte | A_shalf.

(** Instructions by their effect.  [s] is whether the flags are set. *)
Inductive instr :=
| ALUi (op : alu_op) (s : bool) (rd rn imm : Z)
| ALUr (op : alu_op) (s : bool) (rd rn rm : Z) (sh : srtype * Z)
| MOVi (s : bool) (rd imm : Z)
| MVNi (s : bool) (rd imm : Z)
| MOVT (rd imm16 : Z)
| MOVr (s : bool) (rd rm : Z) (sh : srtype * Z)
| MVNr (s : bool) (rd rm : Z) (sh : srtype * Z)
| CMPi (op : cmp_op) (rn imm : Z)
| CMPr (op : cmp_op) (rn rm : Z) (sh : srtype * Z)
| SHr (k : srtype) (s : bool) (rd rn rm : Z)
| EXT (op : ext_op) (rd rm rot : Z)
| REVr (op : rev_op) (rd rm : Z)
| BFI (rd rn lsb msb : Z)
| BFC (rd lsb msb : Z)
| SBFX (rd rn lsb width : Z)
| MUL (s : bool) (rd rn rm : Z)
| MLA (rd rn rm ra : Z)
| MLS (rd rn rm ra : Z)
| LMUL (op : lmul_op) (rdlo rdhi rn rm : Z)
| DIV (signed : bool) (rd rn rm : Z)
| LDSTi (load : bool) (k : access) (rt rn imm : Z) (index add wback : bool)
| LDSTr (load : bool) (k : access) (rt rn rm lsl : Z)
| LDRlit (k : access) (rt off : Z)
| ADR (rd off : Z)
| LDSTD (load : bool) (rt rt2 rn imm : Z) (index add wback : bool)
| LDSTM (load db : bool) (rn : Z) (wback : bool) (list : Z)
| Bi (off : Z)
| Bcond (cond off : Z)
| BL (off : Z)
| BX (rm : Z)
| BLX (rm : Z)
| CBZ (nonzero : bool) (rn off : Z).

Definition sh_none : srtype * Z := (LSL, 0).

(** [DecodeImmShift] with the shift kinds named. *)
Definition imm_shift (ty imm5 : Z) : srtype * Z :=
  if Z.eqb ty 0 then (LSL, imm5)
  else if Z.eqb ty 1 then (LSR, if Z.eqb imm5 0 then 32 else imm5)
  else if Z.eqb ty 2 then (ASR, if Z.eqb imm5 0 then 32 else imm5)
  else if Z.eqb imm5 0 then (RRX, 1) else (ROR, imm5).

Record encoding := mk_enc { e_mask : Z; e_pat : Z; e_sem : Z -> option instr }.

Definition matches (e : encoding) (w : Z) : bool := Z.eqb (Z.land w (e_mask e)) (e_pat e).

Fixpoint decode_in (tbl : list encoding) (w : Z) : option instr :=
  match tbl with
  | [] => None
  | e :: tbl => if matches e w then e_sem e w else decode_in tbl w
  end.

(** ** 16-bit encodings (outside an IT block) *)

Definition lo3 (w k : Z) : Z := slice w k 3.
Definition dn (w : Z) : Z := Z.lor (Z.shiftl (slice w 7 1) 3) (slice w 0 3).

Definition t16_shift (k : Z) (pat : Z) : encoding :=
  mk_enc 0xF800 pat (fun w => Some (MOVr true (lo3 w 0) (lo3 w 3) (imm_shift k (slice w 6 5)))).
Definition t16_dp (pat : Z) (f : Z -> Z -> instr) : encoding :=
  mk_enc 0xFFC0 pat (fun w => Some (f (lo3 w 0) (lo3 w 3))).
Definition t16_ldst_reg (pat : Z) (load : bool) (k : access) : encoding :=
  mk_enc 0xFE00 pat (fun w => Some (LDSTr load k (lo3 w 0) (lo3 w 3) (lo3 w 6) 0)).
Definition t16_ldst_imm (pat scale : Z) (load : bool) (k : access) : encoding :=
  mk_enc 0xF800 pat (fun w =>
    Some (LDSTi load k (lo3 w 0) (lo3 w 3) (Z.shiftl (slice w 6 5) scale) true true false)).
Definition t16_ldst_sp (pat : Z) (load : bool) : encoding :=
  mk_enc 0xF800 pat (fun w =>
    Some (LDSTi load A_word (lo3 w 8) 13 (Z.shiftl (slice w 0 8) 2) true true false)).

(** PUSH/POP lists: the ninth bit is LR (push) or PC (pop). *)
Definition push_list (w : Z) : Z := Z.lor (slice w 0 8) (Z.shiftl (slice w 8 1) 14).
Definition pop_list (w : Z) : Z := Z.lor (slice w 0 8) (Z.shiftl (slice w 8 1) 15).

Definition t16_table : list encoding := [
  t16_shift 0 0x0000; t16_shift 1 0x0800; t16_shift 2 0x1000;
  mk_enc 0xFE00 0x1800 (fun w => Some (ALUr ADD true (lo3 w 0) (lo3 w 3) (lo3 w 6) sh_none));
  mk_enc 0xFE00 0x1A00 (fun w => Some (ALUr SUB true (lo3 w 0) (lo3 w 3) (lo3 w 6) sh_none));
  mk_enc 0xFE00 0x1C00 (fun w => Some (ALUi ADD true (lo3 w 0) (lo3 w 3) (lo3 w 6)));
  mk_enc 0xFE00 0x1E00 (fun w => Some (ALUi SUB true (lo3 w 0) (lo3 w 3) (lo3 w 6)));
  mk_enc 0xF800 0x2000 (fun w => Some (MOVi true (lo3 w 8) (slice w 0 8)));
  mk_enc 0xF800 0x2800 (fun w => Some (CMPi CMP (lo3 w 8) (slice w 0 8)));
  mk_enc 0xF800 0x3000 (fun w => Some (ALUi ADD true (lo3 w 8) (lo3 w 8) (slice w 0 8)));
  mk_enc 0xF800 0x3800 (fun w => Some (ALUi SUB true (lo3 w 8) (lo3 w 8) (slice w 0 8)));
  t16_dp 0x4000 (fun d m => ALUr AND true d d m sh_none);
  t16_dp 0x4040 (fun d m => ALUr EOR true d d m sh_none);
  t16_dp 0x4080 (fun d m => SHr LSL true d d m);
  t16_dp 0x40C0 (fun d m => SHr LSR true d d m);
  t16_dp 0x4100 (fun d m => SHr ASR true d d m);
  t16_dp 0x4140 (fun d m => ALUr ADC true d d m sh_none);
  t16_dp 0x4180 (fun d m => ALUr SBC true d d m sh_none);
  t16_dp 0x41C0 (fun d m => SHr ROR true d d m);
  t16_dp 0x4200 (fun n m => CMPr TST n m sh_none);
  t16_dp 0x4240 (fun d n => ALUi RSB true d n 0);
  t16_dp 0x4280 (fun n m => CMPr CMP n m sh_none);
  t16_dp 0x42C0 (fun n m => CMPr CMN n m sh_none);
  t16_dp 0x4300 (fun d m => ALUr ORR true d d m sh_none);
  t16_dp 0x4340 (fun d n => MUL true d n d);
  t16_dp 0x4380 (fun d m => ALUr BIC true d d m sh_none);
  t16_dp 0x43C0 (fun d m => MVNr true d m sh_none);
  mk_enc 0xFF00 0x4400 (fun w => Some (ALUr ADD false (dn w) (dn w) (slice w 3 4) sh_none));
  mk_enc 0xFF00 0x4500 (fun w => Some (CMPr CMP (dn w) (slice w 3 4) sh_none));
  mk_enc 0xFF00 0x4600 (fun w => Some (MOVr false (dn w) (slice w 3 4) sh_none));
  mk_enc 0xFF87 0x4700 (fun w => Some (BX (slice w 3 4)));
  mk_enc 0xFF87 0x4780 (fun w => Some (BLX (slice w 3 4)));
  mk_enc 0xF800 0x4800 (fun w => Some (LDRlit A_word (lo3 w 8) (Z.shiftl (slice w 0 8) 2)));
  t16_ldst_reg 0x5000 false A_word; t16_ldst_reg 0x5200 false A_half;
  t16_ldst_reg 0x5400 false A_byte; t16_ldst_reg 0x5600 true A_sbyte;
  t16_ldst_reg 0x5800 true A_word; t16_ldst_reg 0x5A00 true A_half;
  t16_ldst_reg 0x5C00 true A_byte; t16_ldst_reg 0x5E00 true A_shalf;
  t16_ldst_imm 0x6000 2 false A_word; t16_ldst_imm 0x6800 2 true A_word;
  t16_ldst_imm 0x7000 0 false A_byte; t16_ldst_imm 0x7800 0 true A_byte;
  t16_ldst_imm 0x8000 1 false A_half; t16_ldst_imm 0x8800 1 true A_half;
  t16_ldst_sp 0x9000 false; t16_ldst_sp 0x9800 true;
  mk_enc 0xF800 0xA000 (fun w => Some (ADR (lo3 w 8) (Z.shiftl (slice w 0 8) 2)));
  mk_enc 0xF800 0xA800 (fun w => Some (ALUi ADD false (lo3 w 8) 13 (Z.shiftl (slice w 0 8) 2)));
  mk_enc 0xFF80 0xB000 (fun w => Some (ALUi ADD false 13 13 (Z.shiftl (slice w 0 7) 2)));
  mk_enc 0xFF80 0xB080 (fun w => Some (ALUi SUB false 13 13 (Z.shiftl (slice w 0 7) 2)));
  mk_enc 0xFD00 0xB100 (fun w => Some (CBZ false (lo3 w 0) (cbz_offset w)));
  mk_enc 0xFD00 0xB900 (fun w => Some (CBZ true (lo3 w 0) (cbz_offset w)));
  t16_dp 0xB200 (fun d m => EXT SXTH d m 0);
  t16_dp 0xB240 (fun d m => EXT SXTB d m 0);
  t16_dp 0xB280 (fun d m => EXT UXTH d m 0);
  t16_dp 0xB2C0 (fun d m => EXT UXTB d m 0);
  mk_enc 0xFE00 0xB400 (fun w => Some (LDSTM false true 13 true (push_list w)));
  mk_enc 0xFE00 0xBC00 (fun w => Some (LDSTM true false 13 true (pop_list w)));
  t16_dp 0xBA00 (fun d m => REVr REV d m);
  t16_dp 0xBA40 (fun d m => REVr REV16 d m);
  t16_dp 0xBAC0 (fun d m => REVr REVSH d m);
  mk_enc 0xF800 0xC000 (fun w => Some (LDSTM false false (lo3 w 8) true (slice w 0 8)));
  mk_enc 0xF800 0xC800 (fun w =>
    Some (LDSTM true false (lo3 w 8) (negb (Z.testbit w (lo3 w 8))) (slice w 0 8)));
  mk_enc 0xF000 0xD000 (fun w =>
    if Z.ltb (slice w 8 4) 14 then Some (Bcond (slice w 8 4) (b_t1_offset w)) else None);
  mk_enc 0xF800 0xE000 (fun w => Some (Bi (b_t2_offset w)))
].

(** ** 32-bit encodings *)

Definition rn_ (w : Z) : Z := slice w 16 4.
Definition rd_ (w : Z) : Z := slice w 8 4.
Definition rt_ (w : Z) : Z := slice w 12 4.
Definition rm_ (w : Z) : Z := slice w 0 4.
Definition s_ (w : Z) : bool := Z.testbit w 20.
Definition imm5_ (w : Z) : Z := Z.lor (Z.shiftl (slice w 12 3) 2) (slice w 6 2).
Definition shift_ (w : Z) : srtype * Z := imm_shift (slice w 4 2) (imm5_ w).

(** Data processing with a modified immediate; the flag-setting forms without a
    destination are the comparisons, the forms without a first operand the moves. *)
Definition t32_modimm (opc : Z) (op : alu_op) (special : option cmp_op) : encoding :=
  mk_enc 0xFBE08000 (Z.lor 0xF0000000 (Z.shiftl opc 21)) (fun w =>
    match ThumbExpandImm (modimm_field w) with
    | None => None
    | Some imm =>
        match special with
        | Some c => if Z.eqb (rd_ w) 15 && s_ w then Some (CMPi c (rn_ w) imm)
                    else Some (ALUi op (s_ w) (rd_ w) (rn_ w) imm)
        | None => Some (ALUi op (s_ w) (rd_ w) (rn_ w) imm)
        end
    end).

Definition t32_movimm (opc : Z) (op : alu_op) (mov : bool -> Z -> Z -> instr) : encoding :=
  mk_enc 0xFBE08000 (Z.lor 0xF0000000 (Z.shiftl opc 21)) (fun w =>
    match ThumbExpandImm (modimm_field w) with
    | None => None
    | Some imm =>
        if Z.eqb (rn_ w) 15 then Some (mov (s_ w) (rd_ w) imm)
        else Some (ALUi op (s_ w) (rd_ w) (rn_ w) imm)
    end).

Definition t32_reg (opc : Z) (op : alu_op) (special : option cmp_op) : encoding :=
  mk_enc 0xFFE00000 (Z.lor 0xEA000000 (Z.shiftl opc 21)) (fun w =>
    match special with
    | Some c => if Z.eqb (rd_ w) 15 && s_ w then Some (CMPr c (rn_ w) (rm_ w) (shift_ w))
                else Some (ALUr op (s_ w) (rd_ w) (rn_ w) (rm_ w) (shift_ w))
    | None => Some (ALUr op (s_ w) (rd_ w) (rn_ w) (rm_ w) (shift_ w))
    end).

Definition t32_movreg (opc : Z) (op : alu_op) (mov : bool -> Z -> Z -> srtype * Z -> instr) : encoding :=
  mk_enc 0xFFE00000 (Z.lor 0xEA000000 (Z.shiftl opc 21)) (fun w =>
    if Z.eqb (rn_ w) 15 then Some (mov (s_ w) (rd_ w) (rm_ w) (shift_ w))
    else Some (ALUr op (s_ w) (rd_ w) (rn_ w) (rm_ w) (shift_ w))).

Definition t32_shr (k : srtype) (pat : Z) : encoding :=
  mk_enc 0xFFE0F0F0 pat (fun w => Some (SHr k (s_ w) (rd_ w) (rn_ w) (rm_ w))).
Definition t32_ext (pat : Z) (op : ext_op) : encoding :=
  mk_enc 0xFFFFF0C0 pat (fun w => Some (EXT op (rd_ w) (rm_ w) (Z.shiftl (slice w 4 2) 3))).
(** Both copies of the operand register must agree. *)
Definition t32_rev (pat : Z) (op : rev_op) : encoding :=
  mk_enc 0xFFF0F0F0 pat (fun w =>
    if Z.eqb (rn_ w) (rm_ w) then Some (REVr op (rd_ w) (rm_ w)) else None).

(** Single loads and stores: positive 12-bit offset, and the indexed, register
    and literal forms that share the other opcode. *)
Definition t32_ldst12 (pat : Z) (load : bool) (k : access) : encoding :=
  mk_enc 0xFFF00000 pat (fun w =>
    if Z.eqb (rn_ w) 15 then (if load then Some (LDRlit k (rt_ w) (slice w 0 12)) else None)
    else Some (LDSTi load k (rt_ w) (rn_ w) (slice w 0 12) true true false)).
Definition t32_ldst8 (pat : Z) (load : bool) (k : access) : encoding :=
  mk_enc 0xFFF00000 pat (fun w =>
    if Z.eqb (rn_ w) 15 then (if load then Some (LDRlit k (rt_ w) (- slice w 0 12)) else None)
    else if Z.testbit w 11 then
      if Z.eqb (slice w 8 3) 6 then None
      else if negb (Z.testbit w 10) && negb (Z.testbit w 8) then None
      else Some (LDSTi load k (rt_ w) (rn_ w) (slice w 0 8)
                   (Z.testbit w 10) (Z.testbit w 9) (Z.testbit w 8))
    else if Z.eqb (slice w 6 5) 0 then Some (LDSTr load k (rt_ w) (rn_ w) (rm_ w) (slice w 4 2))
    else None).

Definition t32_ldstm (pat : Z) (load db : bool) : encoding :=
  mk_enc 0xFFD00000 pat (fun w => Some (LDSTM load db (rn_ w) (Z.testbit w 21) (slice w 0 16))).

Definition t32_ldstd (pat : Z) (load : bool) : encoding :=
  mk_enc 0xFE500000 pat (fun w =>
    if negb (Z.testbit w 24) && negb (Z.testbit w 21) then None
    else Some (LDSTD load (rt_ w) (rd_ w) (rn_ w) (Z.shiftl (slice w 0 8) 2)
                 (Z.testbit w 24) (Z.testbit w 23) (Z.testbit w 21))).

Definition t32_lmul (pat : Z) (op : lmul_op) : encoding :=
  mk_enc 0xFFF000F0 pat (fun w => Some (LMUL op (rt_ w) (rd_ w) (rn_ w) (rm_ w))).

Definition t32_table : list encoding := [
  t32_modimm 0 AND (Some TST); t32_modimm 1 BIC None;
  t32_movimm 2 ORR MOVi; t32_movimm 3 ORN MVNi;
  t32_modimm 4 EOR (Some TEQ); t32_modimm 8 ADD (Some CMN); t32_modimm 10 ADC None;
  t32_modimm 11 SBC None; t32_modimm 13 SUB (Some CMP); t32_modimm 14 RSB None;
  mk_enc 0xFBF08000 0xF2000000 (fun w =>
    if Z.eqb (rn_ w) 15 then Some (ADR (rd_ w) (modimm_field w))
    else Some (ALUi ADD false (rd_ w) (rn_ w) (modimm_field w)));
  mk_enc 0xFBF08000 0xF2A00000 (fun w =>
    if Z.eqb (rn_ w) 15 then Some (ADR (rd_ w) (- modimm_field w))
    else Some (ALUi SUB false (rd_ w) (rn_ w) (modimm_field w)));
  mk_enc 0xFBF08000 0xF2400000 (fun w => Some (MOVi false (rd_ w) (imm16_field w)));
  mk_enc 0xFBF08000 0xF2C00000 (fun w => Some (MOVT (rd_ w) (imm16_field w)));
  mk_enc 0xFFF08020 0xF3400000 (fun w => Some (SBFX (rd_ w) (rn_ w) (imm5_ w) (slice w 0 5 + 1)));
  mk_enc 0xFFF08020 0xF3600000 (fun w =>
    if Z.eqb (rn_ w) 15 then Some (BFC (rd_ w) (imm5_ w) (slice w 0 5))
    else Some (BFI (rd_ w) (rn_ w) (imm5_ w) (slice w 0 5)));
  t32_reg 0 AND (Some TST); t32_reg 1 BIC None; t32_movreg 2 ORR MOVr; t32_movreg 3 ORN MVNr;
  t32_reg 4 EOR (Some TEQ); t32_reg 8 ADD (Some CMN); t32_reg 10 ADC None; t32_reg 11 SBC None;
  t32_reg 13 SUB (Some CMP); t32_reg 14 RSB None;
  t32_shr LSL 0xFA00F000; t32_shr LSR 0xFA20F000; t32_shr ASR 0xFA40F000; t32_shr ROR 0xFA60F000;
  t32_ext 0xFA0FF080 SXTH; t32_ext 0xFA1FF080 UXTH; t32_ext 0xFA4FF080 SXTB; t32_ext 0xFA5FF080 UXTB;
  t32_rev 0xFA90F080 REV; t32_rev 0xFA90F090 REV16; t32_rev 0xFA90F0A0 RBIT; t32_rev 0xFA90F0B0 REVSH;
  t32_rev 0xFAB0F080 CLZ;
  mk_enc 0xFFF000F0 0xFB000000 (fun w =>
    if Z.eqb (rt_ w) 15 then Some (MUL false (rd_ w) (rn_ w) (rm_ w))
    else Some (MLA (rd_ w) (rn_ w) (rm_ w) (rt_ w)));
  mk_enc 0xFFF000F0 0xFB000010 (fun w => Some (MLS (rd_ w) (rn_ w) (rm_ w) (rt_ w)));
  t32_lmul 0xFB800000 SMULL; t32_lmul 0xFBA00000 UMULL; t32_lmul 0xFBC00000 SMLAL;
  t32_lmul 0xFBE00000 UMLAL; t32_lmul 0xFBE00060 UMAAL;
  mk_enc 0xFFF0F0F0 0xFB90F0F0 (fun w => Some (DIV true (rd_ w) (rn_ w) (rm_ w)));
  mk_enc 0xFFF0F0F0 0xFBB0F0F0 (fun w => Some (DIV false (rd_ w) (rn_ w) (rm_ w)));
  t32_ldst12 0xF8C00000 false A_word; t32_ldst12 0xF8D00000 true A_word;
  t32_ldst12 0xF8800000 false A_byte; t32_ldst12 0xF8900000 true A_byte;
  t32_ldst12 0xF8A00000 false A_half; t32_ldst12 0xF8B00000 true A_half;
  t32_ldst12 0xF9900000 true A_sbyte; t32_ldst12 0xF9B00000 true A_shalf;
  t32_ldst8 0xF8400000 false A_word; t32_ldst8 0xF8500000 true A_word;
  t32_ldst8 0xF8000000 false A_byte; t32_ldst8 0xF8100000 true A_byte;
  t32_ldst8 0xF8200000 false A_half; t32_ldst8 0xF8300000 true A_half;
  t32_ldst8 0xF9100000 true A_sbyte; t32_ldst8 0xF9300000 true A_shalf;
  t32_ldstm 0xE8800000 false false; t32_ldstm 0xE8900000 true false;
  t32_ldstm 0xE9000000 false true; t32_ldstm 0xE9100000 true true;
  t32_ldstd 0xE8400000 false; t32_ldstd 0xE8500000 true;
  mk_enc 0xF800D000 0xF000D000 (fun w => Some (BL (b_t4_offset w)));
  mk_enc 0xF800D000 0xF0009000 (fun w => Some (Bi (b_t4_offset w)));
  mk_enc 0xF800D000 0xF0008000 (fun w =>
    if Z.ltb (slice w 22 4) 14 then Some (Bcond (slice w 22 4) (b_t3_offset w)) else None)
].

(** A word of the given size in bytes. *)
Definition decode (size w : Z) : option instr :=
  if Z.eqb size 2 then decode_in t16_table w
  else if Z.eqb size 4 then decode_in t32_table w
  else None.

(** ** No word has two readings *)

Definition conflict (e f : encoding) : bool :=
  truth (Z.land (Z.land (e_mask e) (e_mask f)) (Z.lxor (e_pat e) (e_pat f))).

Fixpoint pairwise_conflict (tbl : list encoding) : bool :=
  match tbl with
  | [] => true
  | e :: tbl => forallb (conflict e) tbl && pairwise_conflict tbl
  end.

Lemma t16_disjoint : pairwise_conflict t16_table = true.
Proof. vm_compute. reflexivity. Qed.

Lemma t32_disjoint : pairwise_conflict t32_table = true.
Proof. vm_compute. reflexivity. Qed.

Lemma conflict_sound e f w :
  conflict e f = true -> matches e w = true -> matches f w = true -> False.
Proof.
  unfold conflict, matches. rewrite truth_true, !Z.eqb_eq. intros Hc He Hf. apply Hc.
  apply Z.bits_inj'. intros i Hi. rewrite Z.bits_0, !Z.land_spec, Z.lxor_spec.
  rewrite <-He, <-Hf, !Z.land_spec.
  destruct (Z.testbit w i), (Z.testbit (e_mask e) i), (Z.testbit (e_mask f) i); done.
Qed.

(** A matching encoding of a pairwise incompatible table is the one decoded. *)
Lemma decode_in_match tbl e w :
  pairwise_conflict tbl = true -> e ∈ tbl -> matches e w = true -> decode_in tbl w = e_sem e w.
Proof.
  induction tbl as [|f tbl IH]; simpl; [by intros _ ?%elem_of_nil|].
  intros [Hf Htbl]%andb_prop Hin He. apply elem_of_cons in Hin as [->|Hin]; [by rewrite He|].
  destruct (matches f w) eqn:Hm; [|by apply IH].
  exfalso. rewrite forallb_forall in Hf. apply (conflict_sound f e w); [|done..].
  by apply Hf, list_elem_of_In.
Qed.

(** The encoding's index in its table is enough to decode a word that matches it. *)
Lemma decode_t16 n e w :
  t16_table !! n = Some e -> Z.land w (e_mask e) = e_pat e -> decode 2 w = e_sem e w.
Proof.
  intros Hn Hm. apply decode_in_match; [apply t16_disjoint| |by apply Z.eqb_eq].
  by eapply list_elem_of_lookup_2.
Qed.

Lemma decode_t32 n e w :
  t32_table !! n = Some e -> Z.land w (e_mask e) = e_pat e -> decode 4 w = e_sem e w.
Proof.
  intros Hn Hm. apply decode_in_match; [apply t32_disjoint| |by apply Z.eqb_eq].
  by eapply list_elem_of_lookup_2.
Qed.
