(* ===== verification/ThumbTypes.v ===== *)
(** * Data types of the Thumb encoder ([backend/arch/arm/thumb/thumb.h])

    Operand, shape and variant records, the feature masks, and the encoder's
    state: the target's feature set ([arm_target_dependent.feat]) and the cache of
    [th_pack_const].  An internal compiler error ([tcc_ice], which exits) is the
    [None] of the encoder monad. *)

From S2P Require Import Prelude.
Local Open Scope Z_scope.

(** ** Enumerations *)

Inductive thumb_flags_behaviour :=
| FLAGS_BEHAVIOUR_NOT_IMPORTANT
| FLAGS_BEHAVIOUR_SET
| FLAGS_BEHAVIOUR_BLOCK.

Inductive thumb_enforce_encoding :=
| ENFORCE_ENCODING_NONE
| ENFORCE_ENCODING_16BIT
| ENFORCE_ENCODING_32BIT.

Inductive thumb_shift_type :=
| THUMB_SHIFT_NONE
| THUMB_SHIFT_RRX
| THUMB_SHIFT_LSL
| THUMB_SHIFT_LSR
| THUMB_SHIFT_ASR
| THUMB_SHIFT_ROR.

Inductive thumb_shift_mode :=
| THUMB_SHIFT_IMMEDIATE
| THUMB_SHIFT_REGISTER.

Inductive imm_kind :=
| IMM_NONE
| IMM_RAW
| IMM_PACK_CONST
| IMM_PACK_3_8_1
| IMM_PACK_10_11_0
| IMM_SIGNED_PUW.

Inductive thop_variant_size :=
| THOP_VARIANT_NONE
| THOP_VARIANT_T16
| THOP_VARIANT_T32.

#[global] Instance flags_eq_dec : EqDecision thumb_flags_behaviour.
Proof. solve_decision. Defined.
#[global] Instance enc_eq_dec : EqDecision thumb_enforce_encoding.
Proof. solve_decision. Defined.
#[global] Instance shift_type_eq_dec : EqDecision thumb_shift_type.
Proof. solve_decision. Defined.
#[global] Instance shift_mode_eq_dec : EqDecision thumb_shift_mode.
Proof. solve_decision. Defined.
#[global] Instance imm_kind_eq_dec : EqDecision imm_kind.
Proof. solve_decision. Defined.
#[global] Instance variant_size_eq_dec : EqDecision thop_variant_size.
Proof. solve_decision. Defined.

(** The enumerators' integer values, where the code uses them as such. *)
Definition shift_type_val (t : thumb_shift_type) : Z :=
  match t with
  | THUMB_SHIFT_NONE => 0
  | THUMB_SHIFT_RRX => 1
  | THUMB_SHIFT_LSL => 2
  | THUMB_SHIFT_LSR => 3
  | THUMB_SHIFT_ASR => 4
  | THUMB_SHIFT_ROR => 5
  end.

Definition size_val (s : thop_variant_size) : Z :=
  match s with
  | THOP_VARIANT_NONE => 0
  | THOP_VARIANT_T16 => 2
  | THOP_VARIANT_T32 => 4
  end.

(** ** Core registers *)

Definition R0 : Z := 0.
Definition R7 : Z := 7.
Definition R_FP : Z := R7.
Definition R_IP : Z := 12.
Definition R_SP : Z := 13.
Definition R_LR : Z := 14.
Definition R_PC : Z := 15.

(** ** Feature masks: [thop_feat] and [thop_feat32] as the integers their
    bit-fields pack into. *)

Definition feat_t16 : Z := Z.shiftl 1 0.
Definition feat_t32 : Z := Z.shiftl 1 1.
Definition feat_it : Z := Z.shiftl 1 2.
Definition feat_mod_imm : Z := Z.shiftl 1 3.
Definition feat_movw_movt : Z := Z.shiftl 1 4.
Definition feat_dsp : Z := Z.shiftl 1 5.
Definition feat_sat : Z := Z.shiftl 1 6.
Definition feat_div : Z := Z.shiftl 1 7.
Definition feat_bfx : Z := Z.shiftl 1 8.
Definition feat_clz_rbit : Z := Z.shiftl 1 9.
Definition feat_ldaex : Z := Z.shiftl 1 10.
Definition feat_vfp_sp : Z := Z.shiftl 1 11.
Definition feat_vfp_dp : Z := Z.shiftl 1 12.
Definition feat_tbb_tbh : Z := Z.shiftl 1 13.
Definition feat_cbz : Z := Z.shiftl 1 14.
Definition feat_hwdiv_t16 : Z := Z.shiftl 1 15.
Definition feat_sec : Z := Z.shiftl 1 16.
Definition feat_sec_tt : Z := Z.shiftl 1 17.
Definition feat_lob : Z := Z.shiftl 1 18.
Definition feat_pacbti : Z := Z.shiftl 1 19.
Definition feat_cde : Z := Z.shiftl 1 20.
Definition feat_ras : Z := Z.shiftl 1 21.
Definition feat_fp16 : Z := Z.shiftl 1 22.
Definition feat_fp_armv8 : Z := Z.shiftl 1 23.
Definition feat_fp_dp_d32 : Z := Z.shiftl 1 24.
Definition feat_mve_int : Z := Z.shiftl 1 25.
Definition feat_mve_fp : Z := Z.shiftl 1 26.
Definition feat_cache_maint : Z := Z.shiftl 1 27.
Definition feat_debug : Z := Z.shiftl 1 28.
Definition feat_coproc : Z := Z.shiftl 1 29.
Definition feat_lrcpc : Z := Z.shiftl 1 30.
Definition feat_unpriv_ls : Z := Z.shiftl 1 31.

(** [{.a = 1, .b = 1}] *)
Definition feats (l : list Z) : Z := fold_right Z.lor 0 l.

(** ** Operands and results *)

Record thumb_opcode := mk_opcode { op_size : Z; op_opcode : Z }.

Definition no_opcode : thumb_opcode := mk_opcode 0 0.

Record thumb_shift := mk_shift {
  sh_type : thumb_shift_type;
  sh_value : Z;
  sh_mode : thumb_shift_mode;
}.

Definition THUMB_SHIFT_DEFAULT : thumb_shift :=
  mk_shift THUMB_SHIFT_NONE 0 THUMB_SHIFT_IMMEDIATE.

Record thop_args := mk_args {
  a_rd : Z; a_rn : Z; a_rm : Z; a_ra : Z;
  a_imm : Z;
  a_imm2 : Z;
  a_shift : thumb_shift;
  a_flags : thumb_flags_behaviour;
  a_enc : thumb_enforce_encoding;
  a_in_it_block : bool;
  a_puw : Z;
  a_exclude_bit : Z;
}.

(** [(thop_args){}]; the designated initialisers of the wrappers are the
    functions [with_*] applied to it. *)
Definition args0 : thop_args :=
  mk_args 0 0 0 0 0 0 THUMB_SHIFT_DEFAULT FLAGS_BEHAVIOUR_NOT_IMPORTANT
    ENFORCE_ENCODING_NONE false 0 0.

Definition with_rd (x : Z) (a : thop_args) : thop_args :=
  mk_args x (a_rn a) (a_rm a) (a_ra a) (a_imm a) (a_imm2 a) (a_shift a) (a_flags a) (a_enc a) (a_in_it_block a) (a_puw a) (a_exclude_bit a).
Definition with_rn (x : Z) (a : thop_args) : thop_args :=
  mk_args (a_rd a) x (a_rm a) (a_ra a) (a_imm a) (a_imm2 a) (a_shift a) (a_flags a) (a_enc a) (a_in_it_block a) (a_puw a) (a_exclude_bit a).
Definition with_rm (x : Z) (a : thop_args) : thop_args :=
  mk_args (a_rd a) (a_rn a) x (a_ra a) (a_imm a) (a_imm2 a) (a_shift a) (a_flags a) (a_enc a) (a_in_it_block a) (a_puw a) (a_exclude_bit a).
Definition with_ra (x : Z) (a : thop_args) : thop_args :=
  mk_args (a_rd a) (a_rn a) (a_rm a) x (a_imm a) (a_imm2 a) (a_shift a) (a_flags a) (a_enc a) (a_in_it_block a) (a_puw a) (a_exclude_bit a).
Definition with_imm (x : Z) (a : thop_args) : thop_args :=
  mk_args (a_rd a) (a_rn a) (a_rm a) (a_ra a) x (a_imm2 a) (a_shift a) (a_flags a) (a_enc a) (a_in_it_block a) (a_puw a) (a_exclude_bit a).
Definition with_imm2 (x : Z) (a : thop_args) : thop_args :=
  mk_args (a_rd a) (a_rn a) (a_rm a) (a_ra a) (a_imm a) x (a_shift a) (a_flags a) (a_enc a) (a_in_it_block a) (a_puw a) (a_exclude_bit a).
Definition with_shift (x : thumb_shift) (a : thop_args) : thop_args :=
  mk_args (a_rd a) (a_rn a) (a_rm a) (a_ra a) (a_imm a) (a_imm2 a) x (a_flags a) (a_enc a) (a_in_it_block a) (a_puw a) (a_exclude_bit a).
Definition with_flags (x : thumb_flags_behaviour) (a : thop_args) : thop_args :=
  mk_args (a_rd a) (a_rn a) (a_rm a) (a_ra a) (a_imm a) (a_imm2 a) (a_shift a) x (a_enc a) (a_in_it_block a) (a_puw a) (a_exclude_bit a).
Definition with_enc (x : thumb_enforce_encoding) (a : thop_args) : thop_args :=
  mk_args (a_rd a) (a_rn a) (a_rm a) (a_ra a) (a_imm a) (a_imm2 a) (a_shift a) (a_flags a) x (a_in_it_block a) (a_puw a) (a_exclude_bit a).
Definition with_in_it_block (x : bool) (a : thop_args) : thop_args :=
  mk_args (a_rd a) (a_rn a) (a_rm a) (a_ra a) (a_imm a) (a_imm2 a) (a_shift a) (a_flags a) (a_enc a) x (a_puw a) (a_exclude_bit a).
Definition with_puw (x : Z) (a : thop_args) : thop_args :=
  mk_args (a_rd a) (a_rn a) (a_rm a) (a_ra a) (a_imm a) (a_imm2 a) (a_shift a) (a_flags a) (a_enc a) (a_in_it_block a) x (a_exclude_bit a).
Definition with_exclude_bit (x : Z) (a : thop_args) : thop_args :=
  mk_args (a_rd a) (a_rn a) (a_rm a) (a_ra a) (a_imm a) (a_imm2 a) (a_shift a) (a_flags a) (a_enc a) (a_in_it_block a) (a_puw a) x.

Definition mk_thop_args (l : list (thop_args -> thop_args)) : thop_args :=
  fold_left (fun a f => f a) l args0.

(** ** Shapes *)

Definition REG_ANY : Z := 0.
Definition REG_LOW_ONLY : Z := Z.shiftl 1 0.
Definition REG_NOT_SP : Z := Z.shiftl 1 1.
Definition REG_NOT_PC : Z := Z.shiftl 1 2.
Definition REG_NOT_LR : Z := Z.shiftl 1 3.
Definition REG_EQ_RN : Z := Z.shiftl 1 4.
Definition REG_EQ_RM : Z := Z.shiftl 1 5.
Definition REG_SP_ONLY : Z := Z.shiftl 1 6.
Definition REG_PC_ONLY : Z := Z.shiftl 1 7.
Definition REG_LOW_REGSET : Z := Z.shiftl 1 8.
Definition REG_RM_BIT_NOT_SP : Z := Z.shiftl 1 9.
Definition REG_RM_BITS_NOT_LR_PC : Z := Z.shiftl 1 10.

Record imm_spec := mk_imm_spec {
  is_kind : imm_kind;
  is_width : Z;
  is_scale_log2 : Z;
  is_is_signed : bool;
}.

(** Where an operand lands in the final word. *)
Record bitfield := bf { bf_shift : Z; bf_width : Z }.

Record thop_variant_shape := mk_shape {
  s_feat : Z;
  s_imm : imm_spec;
  s_rd_place : bitfield;
  s_rn_place : bitfield;
  s_rm_place : bitfield;
  s_ra_place : bitfield;
  s_imm_place : bitfield;
  s_shift_type_bits : bitfield;
  s_shift_imm2_bits : bitfield;
  s_shift_imm3_bits : bitfield;
  s_imm2_place : bitfield;
  s_split_imm2_place : bitfield;
  s_split_imm3_place : bitfield;
  s_puw_bits : bitfield;
  s_rm_raw_place : bitfield;
  s_dn_rd_split : bitfield;
  s_rd_con : Z;
  s_rn_con : Z;
  s_rm_con : Z;
  s_ra_con : Z;
  s_size : thop_variant_size;
  s_shift_allowed : Z;
  s_puw_fixed : Z;
  s_has_s_bit : bool;
  s_implicit_s : bool;
  s_forbid_s_in_it : bool;
  s_has_rd_hi : bool;
}.

Definition shape0 : thop_variant_shape :=
  mk_shape 0 (mk_imm_spec IMM_NONE 0 0 false) (bf 0 0) (bf 0 0) (bf 0 0) (bf 0 0) (bf 0 0) (bf 0 0) (bf 0 0) (bf 0 0) (bf 0 0) (bf 0 0) (bf 0 0) (bf 0 0) (bf 0 0) (bf 0 0) 0 0 0 0 THOP_VARIANT_NONE 0 0 false false false false.

Definition set_feat (x : Z) (s : thop_variant_shape) : thop_variant_shape :=
  mk_shape x (s_imm s) (s_rd_place s) (s_rn_place s) (s_rm_place s) (s_ra_place s) (s_imm_place
    s) (s_shift_type_bits s) (s_shift_imm2_bits s) (s_shift_imm3_bits s) (s_imm2_place s)
    (s_split_imm2_place s) (s_split_imm3_place s) (s_puw_bits s) (s_rm_raw_place s)
    (s_dn_rd_split s) (s_rd_con s) (s_rn_con s) (s_rm_con s) (s_ra_con s) (s_size s)
    (s_shift_allowed s) (s_puw_fixed s) (s_has_s_bit s) (s_implicit_s s) (s_forbid_s_in_it s)
    (s_has_rd_hi s).
Definition set_imm (x : imm_spec) (s : thop_variant_shape) : thop_variant_shape :=
  mk_shape (s_feat s) x (s_rd_place s) (s_rn_place s) (s_rm_place s) (s_ra_place s)
    (s_imm_place s) (s_shift_type_bits s) (s_shift_imm2_bits s) (s_shift_imm3_bits s)
    (s_imm2_place s) (s_split_imm2_place s) (s_split_imm3_place s) (s_puw_bits s)
    (s_rm_raw_place s) (s_dn_rd_split s) (s_rd_con s) (s_rn_con s) (s_rm_con s) (s_ra_con s)
    (s_size s) (s_shift_allowed s) (s_puw_fixed s) (s_has_s_bit s) (s_implicit_s s)
    (s_forbid_s_in_it s) (s_has_rd_hi s).
Definition set_rd_place (x : bitfield) (s : thop_variant_shape) : thop_variant_shape :=
  mk_shape (s_feat s) (s_imm s) x (s_rn_place s) (s_rm_place s) (s_ra_place s) (s_imm_place s)
    (s_shift_type_bits s) (s_shift_imm2_bits s) (s_shift_imm3_bits s) (s_imm2_place s)
    (s_split_imm2_place s) (s_split_imm3_place s) (s_puw_bits s) (s_rm_raw_place s)
    (s_dn_rd_split s) (s_rd_con s) (s_rn_con s) (s_rm_con s) (s_ra_con s) (s_size s)
    (s_shift_allowed s) (s_puw_fixed s) (s_has_s_bit s) (s_implicit_s s) (s_forbid_s_in_it s)
    (s_has_rd_hi s).
Definition set_rn_place (x : bitfield) (s : thop_variant_shape) : thop_variant_shape :=
  mk_shape (s_feat s) (s_imm s) (s_rd_place s) x (s_rm_place s) (s_ra_place s) (s_imm_place s)
    (s_shift_type_bits s) (s_shift_imm2_bits s) (s_shift_imm3_bits s) (s_imm2_place s)
    (s_split_imm2_place s) (s_split_imm3_place s) (s_puw_bits s) (s_rm_raw_place s)
    (s_dn_rd_split s) (s_rd_con s) (s_rn_con s) (s_rm_con s) (s_ra_con s) (s_size s)
    (s_shift_allowed s) (s_puw_fixed s) (s_has_s_bit s) (s_implicit_s s) (s_forbid_s_in_it s)
    (s_has_rd_hi s).
Definition set_rm_place (x : bitfield) (s : thop_variant_shape) : thop_variant_shape :=
  mk_shape (s_feat s) (s_imm s) (s_rd_place s) (s_rn_place s) x (s_ra_place s) (s_imm_place s)
    (s_shift_type_bits s) (s_shift_imm2_bits s) (s_shift_imm3_bits s) (s_imm2_place s)
    (s_split_imm2_place s) (s_split_imm3_place s) (s_puw_bits s) (s_rm_raw_place s)
    (s_dn_rd_split s) (s_rd_con s) (s_rn_con s) (s_rm_con s) (s_ra_con s) (s_size s)
    (s_shift_allowed s) (s_puw_fixed s) (s_has_s_bit s) (s_implicit_s s) (s_forbid_s_in_it s)
    (s_has_rd_hi s).
Definition set_ra_place (x : bitfield) (s : thop_variant_shape) : thop_variant_shape :=
  mk_shape (s_feat s) (s_imm s) (s_rd_place s) (s_rn_place s) (s_rm_place s) x (s_imm_place s)
    (s_shift_type_bits s) (s_shift_imm2_bits s) (s_shift_imm3_bits s) (s_imm2_place s)
    (s_split_imm2_place s) (s_split_imm3_place s) (s_puw_bits s) (s_rm_raw_place s)
    (s_dn_rd_split s) (s_rd_con s) (s_rn_con s) (s_rm_con s) (s_ra_con s) (s_size s)
    (s_shift_allowed s) (s_puw_fixed s) (s_has_s_bit s) (s_implicit_s s) (s_forbid_s_in_it s)
    (s_has_rd_hi s).
Definition set_imm_place (x : bitfield) (s : thop_variant_shape) : thop_variant_shape :=
  mk_shape (s_feat s) (s_imm s) (s_rd_place s) (s_rn_place s) (s_rm_place s) (s_ra_place s) x
    (s_shift_type_bits s) (s_shift_imm2_bits s) (s_shift_imm3_bits s) (s_imm2_place s)
    (s_split_imm2_place s) (s_split_imm3_place s) (s_puw_bits s) (s_rm_raw_place s)
    (s_dn_rd_split s) (s_rd_con s) (s_rn_con s) (s_rm_con s) (s_ra_con s) (s_size s)
    (s_shift_allowed s) (s_puw_fixed s) (s_has_s_bit s) (s_implicit_s s) (s_forbid_s_in_it s)
    (s_has_rd_hi s).
Definition set_shift_type_bits (x : bitfield) (s : thop_variant_shape) : thop_variant_shape :=
  mk_shape (s_feat s) (s_imm s) (s_rd_place s) (s_rn_place s) (s_rm_place s) (s_ra_place s)
    (s_imm_place s) x (s_shift_imm2_bits s) (s_shift_imm3_bits s) (s_imm2_place s)
    (s_split_imm2_place s) (s_split_imm3_place s) (s_puw_bits s) (s_rm_raw_place s)
    (s_dn_rd_split s) (s_rd_con s) (s_rn_con s) (s_rm_con s) (s_ra_con s) (s_size s)
    (s_shift_allowed s) (s_puw_fixed s) (s_has_s_bit s) (s_implicit_s s) (s_forbid_s_in_it s)
    (s_has_rd_hi s).
Definition set_shift_imm2_bits (x : bitfield) (s : thop_variant_shape) : thop_variant_shape :=
  mk_shape (s_feat s) (s_imm s) (s_rd_place s) (s_rn_place s) (s_rm_place s) (s_ra_place s)
    (s_imm_place s) (s_shift_type_bits s) x (s_shift_imm3_bits s) (s_imm2_place s)
    (s_split_imm2_place s) (s_split_imm3_place s) (s_puw_bits s) (s_rm_raw_place s)
    (s_dn_rd_split s) (s_rd_con s) (s_rn_con s) (s_rm_con s) (s_ra_con s) (s_size s)
    (s_shift_allowed s) (s_puw_fixed s) (s_has_s_bit s) (s_implicit_s s) (s_forbid_s_in_it s)
    (s_has_rd_hi s).
Definition set_shift_imm3_bits (x : bitfield) (s : thop_variant_shape) : thop_variant_shape :=
  mk_shape (s_feat s) (s_imm s) (s_rd_place s) (s_rn_place s) (s_rm_place s) (s_ra_place s)
    (s_imm_place s) (s_shift_type_bits s) (s_shift_imm2_bits s) x (s_imm2_place s)
    (s_split_imm2_place s) (s_split_imm3_place s) (s_puw_bits s) (s_rm_raw_place s)
    (s_dn_rd_split s) (s_rd_con s) (s_rn_con s) (s_rm_con s) (s_ra_con s) (s_size s)
    (s_shift_allowed s) (s_puw_fixed s) (s_has_s_bit s) (s_implicit_s s) (s_forbid_s_in_it s)
    (s_has_rd_hi s).
Definition set_imm2_place (x : bitfield) (s : thop_variant_shape) : thop_variant_shape :=
  mk_shape (s_feat s) (s_imm s) (s_rd_place s) (s_rn_place s) (s_rm_place s) (s_ra_place s)
    (s_imm_place s) (s_shift_type_bits s) (s_shift_imm2_bits s) (s_shift_imm3_bits s) x
    (s_split_imm2_place s) (s_split_imm3_place s) (s_puw_bits s) (s_rm_raw_place s)
    (s_dn_rd_split s) (s_rd_con s) (s_rn_con s) (s_rm_con s) (s_ra_con s) (s_size s)
    (s_shift_allowed s) (s_puw_fixed s) (s_has_s_bit s) (s_implicit_s s) (s_forbid_s_in_it s)
    (s_has_rd_hi s).
Definition set_split_imm2_place (x : bitfield) (s : thop_variant_shape) : thop_variant_shape :=
  mk_shape (s_feat s) (s_imm s) (s_rd_place s) (s_rn_place s) (s_rm_place s) (s_ra_place s)
    (s_imm_place s) (s_shift_type_bits s) (s_shift_imm2_bits s) (s_shift_imm3_bits s)
    (s_imm2_place s) x (s_split_imm3_place s) (s_puw_bits s) (s_rm_raw_place s) (s_dn_rd_split
    s) (s_rd_con s) (s_rn_con s) (s_rm_con s) (s_ra_con s) (s_size s) (s_shift_allowed s)
    (s_puw_fixed s) (s_has_s_bit s) (s_implicit_s s) (s_forbid_s_in_it s) (s_has_rd_hi s).
Definition set_split_imm3_place (x : bitfield) (s : thop_variant_shape) : thop_variant_shape :=
  mk_shape (s_feat s) (s_imm s) (s_rd_place s) (s_rn_place s) (s_rm_place s) (s_ra_place s)
    (s_imm_place s) (s_shift_type_bits s) (s_shift_imm2_bits s) (s_shift_imm3_bits s)
    (s_imm2_place s) (s_split_imm2_place s) x (s_puw_bits s) (s_rm_raw_place s) (s_dn_rd_split
    s) (s_rd_con s) (s_rn_con s) (s_rm_con s) (s_ra_con s) (s_size s) (s_shift_allowed s)
    (s_puw_fixed s) (s_has_s_bit s) (s_implicit_s s) (s_forbid_s_in_it s) (s_has_rd_hi s).
Definition set_puw_bits (x : bitfield) (s : thop_variant_shape) : thop_variant_shape :=
  mk_shape (s_feat s) (s_imm s) (s_rd_place s) (s_rn_place s) (s_rm_place s) (s_ra_place s)
    (s_imm_place s) (s_shift_type_bits s) (s_shift_imm2_bits s) (s_shift_imm3_bits s)
    (s_imm2_place s) (s_split_imm2_place s) (s_split_imm3_place s) x (s_rm_raw_place s)
    (s_dn_rd_split s) (s_rd_con s) (s_rn_con s) (s_rm_con s) (s_ra_con s) (s_size s)
    (s_shift_allowed s) (s_puw_fixed s) (s_has_s_bit s) (s_implicit_s s) (s_forbid_s_in_it s)
    (s_has_rd_hi s).
Definition set_rm_raw_place (x : bitfield) (s : thop_variant_shape) : thop_variant_shape :=
  mk_shape (s_feat s) (s_imm s) (s_rd_place s) (s_rn_place s) (s_rm_place s) (s_ra_place s)
    (s_imm_place s) (s_shift_type_bits s) (s_shift_imm2_bits s) (s_shift_imm3_bits s)
    (s_imm2_place s) (s_split_imm2_place s) (s_split_imm3_place s) (s_puw_bits s) x
    (s_dn_rd_split s) (s_rd_con s) (s_rn_con s) (s_rm_con s) (s_ra_con s) (s_size s)
    (s_shift_allowed s) (s_puw_fixed s) (s_has_s_bit s) (s_implicit_s s) (s_forbid_s_in_it s)
    (s_has_rd_hi s).
Definition set_dn_rd_split (x : bitfield) (s : thop_variant_shape) : thop_variant_shape :=
  mk_shape (s_feat s) (s_imm s) (s_rd_place s) (s_rn_place s) (s_rm_place s) (s_ra_place s)
    (s_imm_place s) (s_shift_type_bits s) (s_shift_imm2_bits s) (s_shift_imm3_bits s)
    (s_imm2_place s) (s_split_imm2_place s) (s_split_imm3_place s) (s_puw_bits s)
    (s_rm_raw_place s) x (s_rd_con s) (s_rn_con s) (s_rm_con s) (s_ra_con s) (s_size s)
    (s_shift_allowed s) (s_puw_fixed s) (s_has_s_bit s) (s_implicit_s s) (s_forbid_s_in_it s)
    (s_has_rd_hi s).
Definition set_rd_con (x : Z) (s : thop_variant_shape) : thop_variant_shape :=
  mk_shape (s_feat s) (s_imm s) (s_rd_place s) (s_rn_place s) (s_rm_place s) (s_ra_place s)
    (s_imm_place s) (s_shift_type_bits s) (s_shift_imm2_bits s) (s_shift_imm3_bits s)
    (s_imm2_place s) (s_split_imm2_place s) (s_split_imm3_place s) (s_puw_bits s)
    (s_rm_raw_place s) (s_dn_rd_split s) x (s_rn_con s) (s_rm_con s) (s_ra_con s) (s_size s)
    (s_shift_allowed s) (s_puw_fixed s) (s_has_s_bit s) (s_implicit_s s) (s_forbid_s_in_it s)
    (s_has_rd_hi s).
Definition set_rn_con (x : Z) (s : thop_variant_shape) : thop_variant_shape :=
  mk_shape (s_feat s) (s_imm s) (s_rd_place s) (s_rn_place s) (s_rm_place s) (s_ra_place s)
    (s_imm_place s) (s_shift_type_bits s) (s_shift_imm2_bits s) (s_shift_imm3_bits s)
    (s_imm2_place s) (s_split_imm2_place s) (s_split_imm3_place s) (s_puw_bits s)
    (s_rm_raw_place s) (s_dn_rd_split s) (s_rd_con s) x (s_rm_con s) (s_ra_con s) (s_size s)
    (s_shift_allowed s) (s_puw_fixed s) (s_has_s_bit s) (s_implicit_s s) (s_forbid_s_in_it s)
    (s_has_rd_hi s).
Definition set_rm_con (x : Z) (s : thop_variant_shape) : thop_variant_shape :=
  mk_shape (s_feat s) (s_imm s) (s_rd_place s) (s_rn_place s) (s_rm_place s) (s_ra_place s)
    (s_imm_place s) (s_shift_type_bits s) (s_shift_imm2_bits s) (s_shift_imm3_bits s)
    (s_imm2_place s) (s_split_imm2_place s) (s_split_imm3_place s) (s_puw_bits s)
    (s_rm_raw_place s) (s_dn_rd_split s) (s_rd_con s) (s_rn_con s) x (s_ra_con s) (s_size s)
    (s_shift_allowed s) (s_puw_fixed s) (s_has_s_bit s) (s_implicit_s s) (s_forbid_s_in_it s)
    (s_has_rd_hi s).
Definition set_ra_con (x : Z) (s : thop_variant_shape) : thop_variant_shape :=
  mk_shape (s_feat s) (s_imm s) (s_rd_place s) (s_rn_place s) (s_rm_place s) (s_ra_place s)
    (s_imm_place s) (s_shift_type_bits s) (s_shift_imm2_bits s) (s_shift_imm3_bits s)
    (s_imm2_place s) (s_split_imm2_place s) (s_split_imm3_place s) (s_puw_bits s)
    (s_rm_raw_place s) (s_dn_rd_split s) (s_rd_con s) (s_rn_con s) (s_rm_con s) x (s_size s)
    (s_shift_allowed s) (s_puw_fixed s) (s_has_s_bit s) (s_implicit_s s) (s_forbid_s_in_it s)
    (s_has_rd_hi s).
Definition set_size (x : thop_variant_size) (s : thop_variant_shape) : thop_variant_shape :=
  mk_shape (s_feat s) (s_imm s) (s_rd_place s) (s_rn_place s) (s_rm_place s) (s_ra_place s)
    (s_imm_place s) (s_shift_type_bits s) (s_shift_imm2_bits s) (s_shift_imm3_bits s)
    (s_imm2_place s) (s_split_imm2_place s) (s_split_imm3_place s) (s_puw_bits s)
    (s_rm_raw_place s) (s_dn_rd_split s) (s_rd_con s) (s_rn_con s) (s_rm_con s) (s_ra_con s) x
    (s_shift_allowed s) (s_puw_fixed s) (s_has_s_bit s) (s_implicit_s s) (s_forbid_s_in_it s)
    (s_has_rd_hi s).
Definition set_shift_allowed (x : Z) (s : thop_variant_shape) : thop_variant_shape :=
  mk_shape (s_feat s) (s_imm s) (s_rd_place s) (s_rn_place s) (s_rm_place s) (s_ra_place s)
    (s_imm_place s) (s_shift_type_bits s) (s_shift_imm2_bits s) (s_shift_imm3_bits s)
    (s_imm2_place s) (s_split_imm2_place s) (s_split_imm3_place s) (s_puw_bits s)
    (s_rm_raw_place s) (s_dn_rd_split s) (s_rd_con s) (s_rn_con s) (s_rm_con s) (s_ra_con s)
    (s_size s) x (s_puw_fixed s) (s_has_s_bit s) (s_implicit_s s) (s_forbid_s_in_it s)
    (s_has_rd_hi s).
Definition set_puw_fixed (x : Z) (s : thop_variant_shape) : thop_variant_shape :=
  mk_shape (s_feat s) (s_imm s) (s_rd_place s) (s_rn_place s) (s_rm_place s) (s_ra_place s)
    (s_imm_place s) (s_shift_type_bits s) (s_shift_imm2_bits s) (s_shift_imm3_bits s)
    (s_imm2_place s) (s_split_imm2_place s) (s_split_imm3_place s) (s_puw_bits s)
    (s_rm_raw_place s) (s_dn_rd_split s) (s_rd_con s) (s_rn_con s) (s_rm_con s) (s_ra_con s)
    (s_size s) (s_shift_allowed s) x (s_has_s_bit s) (s_implicit_s s) (s_forbid_s_in_it s)
    (s_has_rd_hi s).
Definition set_has_s_bit (x : bool) (s : thop_variant_shape) : thop_variant_shape :=
  mk_shape (s_feat s) (s_imm s) (s_rd_place s) (s_rn_place s) (s_rm_place s) (s_ra_place s)
    (s_imm_place s) (s_shift_type_bits s) (s_shift_imm2_bits s) (s_shift_imm3_bits s)
    (s_imm2_place s) (s_split_imm2_place s) (s_split_imm3_place s) (s_puw_bits s)
    (s_rm_raw_place s) (s_dn_rd_split s) (s_rd_con s) (s_rn_con s) (s_rm_con s) (s_ra_con s)
    (s_size s) (s_shift_allowed s) (s_puw_fixed s) x (s_implicit_s s) (s_forbid_s_in_it s)
    (s_has_rd_hi s).
Definition set_implicit_s (x : bool) (s : thop_variant_shape) : thop_variant_shape :=
  mk_shape (s_feat s) (s_imm s) (s_rd_place s) (s_rn_place s) (s_rm_place s) (s_ra_place s)
    (s_imm_place s) (s_shift_type_bits s) (s_shift_imm2_bits s) (s_shift_imm3_bits s)
    (s_imm2_place s) (s_split_imm2_place s) (s_split_imm3_place s) (s_puw_bits s)
    (s_rm_raw_place s) (s_dn_rd_split s) (s_rd_con s) (s_rn_con s) (s_rm_con s) (s_ra_con s)
    (s_size s) (s_shift_allowed s) (s_puw_fixed s) (s_has_s_bit s) x (s_forbid_s_in_it s)
    (s_has_rd_hi s).
Definition set_forbid_s_in_it (x : bool) (s : thop_variant_shape) : thop_variant_shape :=
  mk_shape (s_feat s) (s_imm s) (s_rd_place s) (s_rn_place s) (s_rm_place s) (s_ra_place s)
    (s_imm_place s) (s_shift_type_bits s) (s_shift_imm2_bits s) (s_shift_imm3_bits s)
    (s_imm2_place s) (s_split_imm2_place s) (s_split_imm3_place s) (s_puw_bits s)
    (s_rm_raw_place s) (s_dn_rd_split s) (s_rd_con s) (s_rn_con s) (s_rm_con s) (s_ra_con s)
    (s_size s) (s_shift_allowed s) (s_puw_fixed s) (s_has_s_bit s) (s_implicit_s s) x
    (s_has_rd_hi s).
Definition set_has_rd_hi (x : bool) (s : thop_variant_shape) : thop_variant_shape :=
  mk_shape (s_feat s) (s_imm s) (s_rd_place s) (s_rn_place s) (s_rm_place s) (s_ra_place s)
    (s_imm_place s) (s_shift_type_bits s) (s_shift_imm2_bits s) (s_shift_imm3_bits s)
    (s_imm2_place s) (s_split_imm2_place s) (s_split_imm3_place s) (s_puw_bits s)
    (s_rm_raw_place s) (s_dn_rd_split s) (s_rd_con s) (s_rn_con s) (s_rm_con s) (s_ra_con s)
    (s_size s) (s_shift_allowed s) (s_puw_fixed s) (s_has_s_bit s) (s_implicit_s s)
    (s_forbid_s_in_it s) x.

(** A brace initialiser: the designated fields set, the others zero. *)
Definition shape_init (l : list (thop_variant_shape -> thop_variant_shape)) : thop_variant_shape :=
  fold_left (fun s f => f s) l shape0.
