(* ===== verification/ThumbShapes.v ===== *)
(** * The encoding shapes ([thop_shapes.h], [thop_shapes_def.h])

    One definition per entry of [thop_shapes[]], with the designated initialisers
    of the source in their order, and the id enumerations. *)

From stdpp Require Import strings.
From S2P Require Import Prelude ThumbTypes.
Local Open Scope Z_scope.

Inductive thop_shape_id :=
| THOP_SHAPE_END
| THOP_SHAPE_ADR_T1
| THOP_SHAPE_ADR_T3
| THOP_SHAPE_ADR_T4
| THOP_SHAPE_T16_IMM8
| THOP_SHAPE_T16_IMM3
| THOP_SHAPE_T32_MOD_IMM
| THOP_SHAPE_T32_IMM12
| THOP_SHAPE_T16_ADD_SP_IMM
| THOP_SHAPE_T16_ADD_SP_IMM8
| THOP_SHAPE_T16_SUB_SP_IMM
| THOP_SHAPE_T16_REG3
| THOP_SHAPE_T32_REG_SHIFT
| THOP_SHAPE_T16_ADD_SP_REG
| THOP_SHAPE_T16_ADD_T2
| THOP_SHAPE_T16_REG_RDN_RM
| THOP_SHAPE_T32_BFX
| THOP_SHAPE_T32_SSAT_LSL
| THOP_SHAPE_T32_SSAT_ASR
| THOP_SHAPE_T32_USAT_LSL
| THOP_SHAPE_T32_USAT_ASR
| THOP_SHAPE_PUSH_T1
| THOP_SHAPE_PUSH_T2
| THOP_SHAPE_POP_T1
| THOP_SHAPE_POP_T2
| THOP_SHAPE_LDM_T1
| THOP_SHAPE_LDM_T3
| THOP_SHAPE_STM_T1
| THOP_SHAPE_STM_T3
| THOP_SHAPE_LDMDB
| THOP_SHAPE_STMDB
| THOP_SHAPE_BX
| THOP_SHAPE_BL_T1
| THOP_SHAPE_BLX_REG
| THOP_SHAPE_B_COND_T16
| THOP_SHAPE_B_T3
| THOP_SHAPE_B_T4
| THOP_SHAPE_B_T2
| THOP_SHAPE_CBZ
| THOP_SHAPE_T16_CMP_IMM
| THOP_SHAPE_T32_CMP_IMM
| THOP_SHAPE_T16_CMP_REG
| THOP_SHAPE_T16_CMP_REG_T2
| THOP_SHAPE_T32_CMP_REG
| THOP_SHAPE_COPROC
| THOP_SHAPE_DSP_REG3
| THOP_SHAPE_PKH
| THOP_SHAPE_T16_EXTEND
| THOP_SHAPE_T32_EXTEND
| THOP_SHAPE_LDAEX
| THOP_SHAPE_STLEX
| THOP_SHAPE_LDR_LIT_T1
| THOP_SHAPE_LDR_LIT_T32
| THOP_SHAPE_LDRD
| THOP_SHAPE_LDREX
| THOP_SHAPE_STREX
| THOP_SHAPE_LDREXB
| THOP_SHAPE_STREXB
| THOP_SHAPE_T32_EXCLUSIVE
| THOP_SHAPE_T16_MEM_IMM4
| THOP_SHAPE_T16_MEM_IMM0
| THOP_SHAPE_T16_MEM_IMM1
| THOP_SHAPE_T16_MEM_SP_IMM4
| THOP_SHAPE_T32_MEM_POS_ANY_NOTPC
| THOP_SHAPE_T32_MEM_POS_NOSP_NOTPC
| THOP_SHAPE_T32_MEM_PC_POS
| THOP_SHAPE_T32_MEM_PC_NEG
| THOP_SHAPE_T32_MEM_IDX_ANY
| THOP_SHAPE_T32_MEM_IDX_NOSP
| THOP_SHAPE_T32_MEM_IDX_ANY_NOTPC
| THOP_SHAPE_T32_MEM_IDX_NOSP_NOTPC
| THOP_SHAPE_T16_MEM_REG
| THOP_SHAPE_T32_MEM_REG
| THOP_SHAPE_T32_MEM_UNPRIV
| THOP_SHAPE_MOV_REG_T1_HIGH
| THOP_SHAPE_MOV_REG_T1_SHIFT
| THOP_SHAPE_MOV_REG_T3
| THOP_SHAPE_MOV_IMM_T1
| THOP_SHAPE_MOV_IMM_T3
| THOP_SHAPE_MOV_IMM_T4
| THOP_SHAPE_MOVT
| THOP_SHAPE_MOV_REG_SHIFT_T1
| THOP_SHAPE_MOV_REG_SHIFT_T3
| THOP_SHAPE_MRS
| THOP_SHAPE_MSR
| THOP_SHAPE_MUL_T16
| THOP_SHAPE_MUL_T32
| THOP_SHAPE_MLA
| THOP_SHAPE_LONG_MUL
| THOP_SHAPE_LONG_MUL_DSP
| THOP_SHAPE_DIV
| THOP_SHAPE_MVN_REG_T1
| THOP_SHAPE_MVN_REG_T3
| THOP_SHAPE_MVN_IMM_T3
| THOP_SHAPE_T16_REV
| THOP_SHAPE_T32_REV
| THOP_SHAPE_T32_RBIT
| THOP_SHAPE_T16_SHIFT_IMM
| THOP_SHAPE_T32_SHIFT_IMM
| THOP_SHAPE_T16_SHIFT_REG
| THOP_SHAPE_T32_SHIFT_REG
| THOP_SHAPE_HINT_T16
| THOP_SHAPE_HINT_T32
| THOP_SHAPE_IMM8_T16
| THOP_SHAPE_UDF_T16
| THOP_SHAPE_UDF_T32
| THOP_SHAPE_CPS
| THOP_SHAPE_BARRIER
| THOP_SHAPE_NOARG_T32
| THOP_SHAPE_IT
| THOP_SHAPE_CLZ
| THOP_SHAPE_TBB
| THOP_SHAPE_TT
| THOP_SHAPE_VFP_SP
| THOP_SHAPE_VFP_DP
| THOP_SHAPE_VFP_DP_MOVE
| THOP_SHAPE_VMOVGPSP
| THOP_SHAPE_VMOV2GPDP
| THOP_SHAPE_VMRS
| THOP_SHAPE_VCVT_FD
| THOP_SHAPE_VCVT_DF
| THOP_SHAPE_VCVT_FP_INT_SP
| THOP_SHAPE_VCVT_FP_INT_DP.

Inductive thop_custom_id :=
| THOP_CUSTOM_NONE
| THOP_CUSTOM_bl_t1_emit
| THOP_CUSTOM_b_t3_emit
| THOP_CUSTOM_b_t4_emit
| THOP_CUSTOM_b_t2_emit
| THOP_CUSTOM_cbz_emit
| THOP_CUSTOM_cmp_reg_t2_custom_emit
| THOP_CUSTOM_coproc_cdp_emit
| THOP_CUSTOM_coproc_mcr_emit
| THOP_CUSTOM_coproc_mcrr_emit
| THOP_CUSTOM_pkhbt_emit
| THOP_CUSTOM_ldr_literal_emit
| THOP_CUSTOM_ldrd_imm_emit
| THOP_CUSTOM_mov_reg_t1_shift_emit
| THOP_CUSTOM_mov_imm_t1_emit
| THOP_CUSTOM_mov_reg_shift_t1_emit
| THOP_CUSTOM_mrs_emit
| THOP_CUSTOM_msr_emit
| THOP_CUSTOM_mul_t16_emit
| THOP_CUSTOM_long_mul_emit
| THOP_CUSTOM_mvn_imm_emit
| THOP_CUSTOM_shift_reg_t1_emit
| THOP_CUSTOM_clz_emit
| THOP_CUSTOM_tt_emit
| THOP_CUSTOM_vfp_arith3_emit
| THOP_CUSTOM_vfp_arith2_emit
| THOP_CUSTOM_vmov_reg_emit
| THOP_CUSTOM_vfp_pushpop_emit
| THOP_CUSTOM_vfp_ldst_emit
| THOP_CUSTOM_vmov_gp_sp_emit
| THOP_CUSTOM_vmov_2gp_dp_emit
| THOP_CUSTOM_vcvt_fd_emit
| THOP_CUSTOM_vcvt_df_emit
| THOP_CUSTOM_vcvt_fp_int_emit.

(** [(1u << t1) | (1u << t2) | ...] *)
Definition shift_mask (l : list thumb_shift_type) : Z :=
  fold_right Z.lor 0 (map (fun t => shl32 1 (shift_type_val t)) l).

Definition SHAPE_ADR_T1 : thop_variant_shape := shape_init [
  set_size THOP_VARIANT_T16;
  set_rd_place (bf 8 3);
  set_rd_con REG_LOW_ONLY;
  set_imm (mk_imm_spec IMM_RAW 8 2 false);
  set_imm_place (bf 0 8);
  set_feat (feats [feat_t16])].

Definition SHAPE_ADR_T3 : thop_variant_shape := shape_init [
  set_size THOP_VARIANT_T32;
  set_rd_place (bf 8 4);
  set_rd_con REG_NOT_PC;
  set_imm (mk_imm_spec IMM_PACK_3_8_1 12 0 false);
  set_feat (feats [feat_t32])].

Definition SHAPE_ADR_T4 : thop_variant_shape := shape_init [
  set_size THOP_VARIANT_T32;
  set_rd_place (bf 8 4);
  set_rd_con REG_NOT_PC;
  set_imm (mk_imm_spec IMM_PACK_3_8_1 12 0 true);
  set_feat (feats [feat_t32])].

Definition SHAPE_T16_IMM8 : thop_variant_shape := shape_init [
  set_size THOP_VARIANT_T16;
  set_rd_place (bf 8 3);
  set_rn_place (bf 8 3);
  set_rd_con (Z.lor REG_LOW_ONLY REG_EQ_RN);
  set_rn_con REG_LOW_ONLY;
  set_imm (mk_imm_spec IMM_RAW 8 0 false);
  set_imm_place (bf 0 8);
  set_implicit_s true;
  set_feat (feats [feat_t16])].

Definition SHAPE_T16_IMM3 : thop_variant_shape := shape_init [
  set_size THOP_VARIANT_T16;
  set_rd_place (bf 0 3);
  set_rn_place (bf 3 3);
  set_rd_con REG_LOW_ONLY;
  set_rn_con REG_LOW_ONLY;
  set_imm (mk_imm_spec IMM_RAW 3 0 false);
  set_imm_place (bf 6 3);
  set_implicit_s true;
  set_feat (feats [feat_t16])].

Definition SHAPE_T32_MOD_IMM : thop_variant_shape := shape_init [
  set_size THOP_VARIANT_T32;
  set_rd_place (bf 8 4);
  set_rn_place (bf 16 4);
  set_rd_con REG_NOT_PC;
  set_rn_con REG_NOT_PC;
  set_imm (mk_imm_spec IMM_PACK_CONST 12 0 false);
  set_has_s_bit true;
  set_feat (feats [feat_t32; feat_mod_imm])].

Definition SHAPE_T32_IMM12 : thop_variant_shape := shape_init [
  set_size THOP_VARIANT_T32;
  set_rd_place (bf 8 4);
  set_rn_place (bf 16 4);
  set_rd_con REG_NOT_PC;
  set_imm (mk_imm_spec IMM_PACK_3_8_1 12 0 false);
  set_feat (feats [feat_t32])].

Definition SHAPE_T16_ADD_SP_IMM : thop_variant_shape := shape_init [
  set_size THOP_VARIANT_T16;
  set_rd_con REG_SP_ONLY;
  set_rn_con REG_SP_ONLY;
  set_imm (mk_imm_spec IMM_RAW 7 2 false);
  set_imm_place (bf 0 7);
  set_feat (feats [feat_t16])].

Definition SHAPE_T16_ADD_SP_IMM8 : thop_variant_shape := shape_init [
  set_size THOP_VARIANT_T16;
  set_rd_place (bf 8 3);
  set_rd_con REG_LOW_ONLY;
  set_rn_con REG_SP_ONLY;
  set_imm (mk_imm_spec IMM_RAW 8 2 false);
  set_imm_place (bf 0 8);
  set_feat (feats [feat_t16])].

Definition SHAPE_T16_SUB_SP_IMM : thop_variant_shape := shape_init [
  set_size THOP_VARIANT_T16;
  set_rd_con REG_SP_ONLY;
  set_rn_con REG_SP_ONLY;
  set_imm (mk_imm_spec IMM_RAW 7 2 false);
  set_imm_place (bf 0 7);
  set_feat (feats [feat_t16])].

Definition SHAPE_T16_REG3 : thop_variant_shape := shape_init [
  set_size THOP_VARIANT_T16;
  set_rd_place (bf 0 3);
  set_rn_place (bf 3 3);
  set_rm_place (bf 6 3);
  set_rd_con REG_LOW_ONLY;
  set_rn_con REG_LOW_ONLY;
  set_rm_con REG_LOW_ONLY;
  set_implicit_s true;
  set_feat (feats [feat_t16])].

Definition SHAPE_T32_REG_SHIFT : thop_variant_shape := shape_init [
  set_size THOP_VARIANT_T32;
  set_rd_place (bf 8 4);
  set_rn_place (bf 16 4);
  set_rm_place (bf 0 4);
  set_rd_con REG_NOT_PC;
  set_rn_con REG_NOT_PC;
  set_rm_con (Z.lor REG_NOT_SP REG_NOT_PC);
  set_has_s_bit true;
  set_shift_type_bits (bf 4 2);
  set_shift_imm2_bits (bf 6 2);
  set_shift_imm3_bits (bf 12 3);
  set_feat (feats [feat_t32])].

Definition SHAPE_T16_ADD_SP_REG : thop_variant_shape := shape_init [
  set_size THOP_VARIANT_T16;
  set_rd_place (bf 0 3);
  set_has_rd_hi true;
  set_rn_place (bf 3 4);
  set_rd_con REG_EQ_RM;
  set_rn_con REG_SP_ONLY;
  set_feat (feats [feat_t16])].

Definition SHAPE_T16_ADD_T2 : thop_variant_shape := shape_init [
  set_size THOP_VARIANT_T16;
  set_rd_place (bf 0 3);
  set_has_rd_hi true;
  set_rn_place (bf 0 3);
  set_rm_place (bf 3 4);
  set_rd_con REG_EQ_RN;
  set_feat (feats [feat_t16])].

Definition SHAPE_T16_REG_RDN_RM : thop_variant_shape := shape_init [
  set_size THOP_VARIANT_T16;
  set_rd_place (bf 0 3);
  set_rm_place (bf 3 3);
  set_rd_con (Z.lor REG_LOW_ONLY REG_EQ_RN);
  set_rn_con REG_LOW_ONLY;
  set_rm_con REG_LOW_ONLY;
  set_implicit_s true;
  set_feat (feats [feat_t16])].

Definition SHAPE_T32_BFX : thop_variant_shape := shape_init [
  set_size THOP_VARIANT_T32;
  set_rd_place (bf 8 4);
  set_rn_place (bf 16 4);
  set_rd_con REG_NOT_PC;
  set_rn_con REG_ANY;
  set_imm (mk_imm_spec IMM_RAW 5 0 false);
  set_split_imm2_place (bf 6 2);
  set_split_imm3_place (bf 12 3);
  set_imm2_place (bf 0 5);
  set_feat (feats [feat_t32; feat_bfx])].

Definition SHAPE_T32_SSAT_LSL : thop_variant_shape := shape_init [
  set_size THOP_VARIANT_T32;
  set_rd_place (bf 8 4);
  set_rn_place (bf 16 4);
  set_rd_con REG_NOT_PC;
  set_shift_imm3_bits (bf 12 3);
  set_shift_imm2_bits (bf 6 2);
  set_shift_allowed (shift_mask [THUMB_SHIFT_NONE; THUMB_SHIFT_LSL]);
  set_imm2_place (bf 0 5);
  set_feat (feats [feat_t32; feat_sat])].

Definition SHAPE_T32_SSAT_ASR : thop_variant_shape := shape_init [
  set_size THOP_VARIANT_T32;
  set_rd_place (bf 8 4);
  set_rn_place (bf 16 4);
  set_rd_con REG_NOT_PC;
  set_shift_imm3_bits (bf 12 3);
  set_shift_imm2_bits (bf 6 2);
  set_shift_allowed (shift_mask [THUMB_SHIFT_ASR]);
  set_imm2_place (bf 0 5);
  set_feat (feats [feat_t32; feat_sat])].

Definition SHAPE_T32_USAT_LSL : thop_variant_shape := shape_init [
  set_size THOP_VARIANT_T32;
  set_rd_place (bf 8 4);
  set_rn_place (bf 16 4);
  set_rd_con REG_NOT_PC;
  set_shift_imm3_bits (bf 12 3);
  set_shift_imm2_bits (bf 6 2);
  set_shift_allowed (shift_mask [THUMB_SHIFT_NONE; THUMB_SHIFT_LSL]);
  set_imm2_place (bf 0 5);
  set_feat (feats [feat_t32; feat_sat])].

Definition SHAPE_T32_USAT_ASR : thop_variant_shape := shape_init [
  set_size THOP_VARIANT_T32;
  set_rd_place (bf 8 4);
  set_rn_place (bf 16 4);
  set_rd_con REG_NOT_PC;
  set_shift_imm3_bits (bf 12 3);
  set_shift_imm2_bits (bf 6 2);
  set_shift_allowed (shift_mask [THUMB_SHIFT_ASR]);
  set_imm2_place (bf 0 5);
  set_feat (feats [feat_t32; feat_sat])].

Definition SHAPE_PUSH_T1 : thop_variant_shape := shape_init [
  set_size THOP_VARIANT_T16;
  set_rm_raw_place (bf 0 8);
  set_imm (mk_imm_spec IMM_RAW 1 0 false);
  set_imm_place (bf 8 1);
  set_rm_con (Z.lor REG_LOW_REGSET REG_RM_BITS_NOT_LR_PC);
  set_feat (feats [feat_t16])].

Definition SHAPE_PUSH_T2 : thop_variant_shape := shape_init [
  set_size THOP_VARIANT_T32;
  set_rm_place (bf 0 13);
  set_imm (mk_imm_spec IMM_RAW 1 0 false);
  set_imm_place (bf 14 1);
  set_rm_con REG_RM_BITS_NOT_LR_PC;
  set_feat (feats [feat_t32])].

Definition SHAPE_POP_T1 : thop_variant_shape := shape_init [
  set_size THOP_VARIANT_T16;
  set_rm_raw_place (bf 0 8);
  set_imm (mk_imm_spec IMM_RAW 1 0 false);
  set_imm_place (bf 8 1);
  set_rm_con (Z.lor REG_LOW_REGSET REG_RM_BITS_NOT_LR_PC);
  set_feat (feats [feat_t16])].

Definition SHAPE_POP_T2 : thop_variant_shape := shape_init [
  set_size THOP_VARIANT_T32;
  set_rm_place (bf 0 15);
  set_imm (mk_imm_spec IMM_RAW 1 0 false);
  set_imm_place (bf 15 1);
  set_rm_con REG_RM_BIT_NOT_SP;
  set_feat (feats [feat_t32])].

Definition SHAPE_LDM_T1 : thop_variant_shape := shape_init [
  set_size THOP_VARIANT_T16;
  set_rd_place (bf 8 3);
  set_rd_con REG_LOW_ONLY;
  set_rm_raw_place (bf 0 8);
  set_rm_con REG_LOW_REGSET;
  set_feat (feats [feat_t16])].

Definition SHAPE_LDM_T3 : thop_variant_shape := shape_init [
  set_size THOP_VARIANT_T32;
  set_rd_place (bf 16 4);
  set_rm_place (bf 0 16);
  set_rm_con REG_RM_BIT_NOT_SP;
  set_imm (mk_imm_spec IMM_RAW 1 0 false);
  set_imm_place (bf 21 1);
  set_feat (feats [feat_t32])].

Definition SHAPE_STM_T1 : thop_variant_shape := shape_init [
  set_size THOP_VARIANT_T16;
  set_rd_place (bf 8 3);
  set_rd_con REG_LOW_ONLY;
  set_rm_raw_place (bf 0 8);
  set_rm_con REG_LOW_REGSET;
  set_feat (feats [feat_t16])].

Definition SHAPE_STM_T3 : thop_variant_shape := shape_init [
  set_size THOP_VARIANT_T32;
  set_rd_place (bf 16 4);
  set_rm_place (bf 0 15);
  set_rm_con REG_RM_BIT_NOT_SP;
  set_imm (mk_imm_spec IMM_RAW 1 0 false);
  set_imm_place (bf 21 1);
  set_feat (feats [feat_t32])].

Definition SHAPE_LDMDB : thop_variant_shape := shape_init [
  set_size THOP_VARIANT_T32;
  set_rd_place (bf 16 4);
  set_rm_place (bf 0 16);
  set_rm_con REG_RM_BIT_NOT_SP;
  set_imm (mk_imm_spec IMM_RAW 1 0 false);
  set_imm_place (bf 21 1);
  set_feat (feats [feat_t32])].

Definition SHAPE_STMDB : thop_variant_shape := shape_init [
  set_size THOP_VARIANT_T32;
  set_rd_place (bf 16 4);
  set_rm_place (bf 0 15);
  set_rm_con REG_RM_BIT_NOT_SP;
  set_imm (mk_imm_spec IMM_RAW 1 0 false);
  set_imm_place (bf 21 1);
  set_feat (feats [feat_t32])].

Definition SHAPE_BX : thop_variant_shape := shape_init [
  set_size THOP_VARIANT_T16;
  set_rm_place (bf 3 4);
  set_feat (feats [feat_t16])].

Definition SHAPE_BL_T1 : thop_variant_shape := shape_init [
  set_size THOP_VARIANT_T32;
  set_feat (feats [feat_t32])].

Definition SHAPE_BLX_REG : thop_variant_shape := shape_init [
  set_size THOP_VARIANT_T16;
  set_rm_place (bf 3 4);
  set_feat (feats [feat_t16])].

Definition SHAPE_B_COND_T16 : thop_variant_shape := shape_init [
  set_size THOP_VARIANT_T16;
  set_rd_place (bf 8 4);
  set_imm (mk_imm_spec IMM_RAW 8 0 false);
  set_imm_place (bf 0 8);
  set_feat (feats [feat_t16])].

Definition SHAPE_B_T3 : thop_variant_shape := shape_init [
  set_size THOP_VARIANT_T32;
  set_rd_place (bf 22 4);
  set_feat (feats [feat_t32])].

Definition SHAPE_B_T4 : thop_variant_shape := shape_init [
  set_size THOP_VARIANT_T32;
  set_feat (feats [feat_t32])].

Definition SHAPE_B_T2 : thop_variant_shape := shape_init [
  set_size THOP_VARIANT_T16;
  set_feat (feats [feat_t16])].

Definition SHAPE_CBZ : thop_variant_shape := shape_init [
  set_size THOP_VARIANT_T16;
  set_rd_place (bf 0 3);
  set_rd_con REG_LOW_ONLY;
  set_feat (feats [feat_t16; feat_cbz])].

Definition SHAPE_T16_CMP_IMM : thop_variant_shape := shape_init [
  set_size THOP_VARIANT_T16;
  set_rn_place (bf 8 3);
  set_rn_con REG_LOW_ONLY;
  set_imm (mk_imm_spec IMM_RAW 8 0 false);
  set_imm_place (bf 0 8);
  set_implicit_s true;
  set_feat (feats [feat_t16])].

Definition SHAPE_T32_CMP_IMM : thop_variant_shape := shape_init [
  set_size THOP_VARIANT_T32;
  set_rn_place (bf 16 4);
  set_rn_con REG_NOT_PC;
  set_imm (mk_imm_spec IMM_PACK_CONST 12 0 false);
  set_implicit_s true;
  set_feat (feats [feat_t32; feat_mod_imm])].

Definition SHAPE_T16_CMP_REG : thop_variant_shape := shape_init [
  set_size THOP_VARIANT_T16;
  set_rn_place (bf 0 3);
  set_rm_place (bf 3 3);
  set_rn_con REG_LOW_ONLY;
  set_rm_con REG_LOW_ONLY;
  set_implicit_s true;
  set_feat (feats [feat_t16])].

Definition SHAPE_T16_CMP_REG_T2 : thop_variant_shape := shape_init [
  set_size THOP_VARIANT_T16;
  set_rm_place (bf 3 3);
  set_rn_con REG_NOT_PC;
  set_rm_con REG_ANY;
  set_implicit_s true;
  set_feat (feats [feat_t16])].

Definition SHAPE_T32_CMP_REG : thop_variant_shape := shape_init [
  set_size THOP_VARIANT_T32;
  set_rn_place (bf 16 4);
  set_rm_place (bf 0 4);
  set_rn_con REG_NOT_PC;
  set_rm_con (Z.lor REG_NOT_SP REG_NOT_PC);
  set_shift_type_bits (bf 4 2);
  set_shift_imm2_bits (bf 6 2);
  set_shift_imm3_bits (bf 12 3);
  set_implicit_s true;
  set_feat (feats [feat_t32])].

Definition SHAPE_COPROC : thop_variant_shape := shape_init [
  set_size THOP_VARIANT_T32;
  set_feat (feats [feat_t32; feat_coproc])].

Definition SHAPE_DSP_REG3 : thop_variant_shape := shape_init [
  set_size THOP_VARIANT_T32;
  set_rd_place (bf 8 4);
  set_rn_place (bf 16 4);
  set_rm_place (bf 0 4);
  set_feat (feats [feat_t32; feat_dsp])].

Definition SHAPE_PKH : thop_variant_shape := shape_init [
  set_size THOP_VARIANT_T32;
  set_rd_place (bf 8 4);
  set_rn_place (bf 16 4);
  set_rm_place (bf 0 4);
  set_shift_allowed (shift_mask [THUMB_SHIFT_LSL; THUMB_SHIFT_ASR]);
  set_feat (feats [feat_t32; feat_dsp])].

Definition SHAPE_T16_EXTEND : thop_variant_shape := shape_init [
  set_size THOP_VARIANT_T16;
  set_rd_place (bf 0 3);
  set_rm_place (bf 3 3);
  set_rd_con REG_LOW_ONLY;
  set_rm_con REG_LOW_ONLY;
  set_imm (mk_imm_spec IMM_RAW 0 0 false);
  set_shift_allowed (shift_mask [THUMB_SHIFT_ROR]);
  set_feat (feats [feat_t16])].

Definition SHAPE_T32_EXTEND : thop_variant_shape := shape_init [
  set_size THOP_VARIANT_T32;
  set_rd_place (bf 8 4);
  set_rm_place (bf 0 4);
  set_ra_place (bf 16 4);
  set_rd_con REG_NOT_PC;
  set_imm (mk_imm_spec IMM_RAW 2 3 false);
  set_imm_place (bf 4 2);
  set_shift_allowed (shift_mask [THUMB_SHIFT_ROR]);
  set_feat (feats [feat_t32])].

Definition SHAPE_LDAEX : thop_variant_shape := shape_init [
  set_size THOP_VARIANT_T32;
  set_rd_place (bf 12 4);
  set_rn_place (bf 16 4);
  set_feat (feats [feat_t32; feat_ldaex])].

Definition SHAPE_STLEX : thop_variant_shape := shape_init [
  set_size THOP_VARIANT_T32;
  set_rd_place (bf 0 4);
  set_rn_place (bf 16 4);
  set_rm_place (bf 12 4);
  set_feat (feats [feat_t32; feat_ldaex])].

Definition SHAPE_LDR_LIT_T1 : thop_variant_shape := shape_init [
  set_size THOP_VARIANT_T16;
  set_rd_place (bf 8 3);
  set_rd_con REG_LOW_ONLY;
  set_imm (mk_imm_spec IMM_RAW 8 2 false);
  set_imm_place (bf 0 8);
  set_feat (feats [feat_t16])].

Definition SHAPE_LDR_LIT_T32 : thop_variant_shape := shape_init [
  set_size THOP_VARIANT_T32;
  set_rd_place (bf 12 4);
  set_rd_con REG_NOT_PC;
  set_feat (feats [feat_t32])].

Definition SHAPE_LDRD : thop_variant_shape := shape_init [
  set_size THOP_VARIANT_T32;
  set_rd_place (bf 12 4);
  set_rn_place (bf 16 4);
  set_rm_place (bf 8 4);
  set_imm (mk_imm_spec IMM_RAW 8 0 false);
  set_feat (feats [feat_t32])].

Definition SHAPE_LDREX : thop_variant_shape := shape_init [
  set_size THOP_VARIANT_T32;
  set_rd_place (bf 12 4);
  set_rn_place (bf 16 4);
  set_imm (mk_imm_spec IMM_RAW 8 0 false);
  set_imm_place (bf 0 8);
  set_feat (feats [feat_t32])].

Definition SHAPE_STREX : thop_variant_shape := shape_init [
  set_size THOP_VARIANT_T32;
  set_rd_place (bf 8 4);
  set_rn_place (bf 12 4);
  set_rm_place (bf 16 4);
  set_imm (mk_imm_spec IMM_RAW 8 0 false);
  set_imm_place (bf 0 8);
  set_feat (feats [feat_t32])].

Definition SHAPE_LDREXB : thop_variant_shape := shape_init [
  set_size THOP_VARIANT_T32;
  set_rd_place (bf 12 4);
  set_rn_place (bf 16 4);
  set_feat (feats [feat_t32])].

Definition SHAPE_STREXB : thop_variant_shape := shape_init [
  set_size THOP_VARIANT_T32;
  set_rd_place (bf 0 4);
  set_rn_place (bf 12 4);
  set_rm_place (bf 16 4);
  set_feat (feats [feat_t32])].

Definition SHAPE_T32_EXCLUSIVE : thop_variant_shape := shape_init [
  set_size THOP_VARIANT_T32;
  set_rd_place (bf 12 4);
  set_rn_place (bf 16 4);
  set_feat (feats [feat_t32])].

Definition SHAPE_T16_MEM_IMM4 : thop_variant_shape := shape_init [
  set_size THOP_VARIANT_T16;
  set_rd_place (bf 0 3);
  set_rn_place (bf 3 3);
  set_rd_con REG_LOW_ONLY;
  set_rn_con REG_LOW_ONLY;
  set_imm (mk_imm_spec IMM_RAW 5 2 false);
  set_imm_place (bf 6 5);
  set_puw_fixed 6;
  set_feat (feats [feat_t16])].

Definition SHAPE_T16_MEM_IMM0 : thop_variant_shape := shape_init [
  set_size THOP_VARIANT_T16;
  set_rd_place (bf 0 3);
  set_rn_place (bf 3 3);
  set_rd_con REG_LOW_ONLY;
  set_rn_con REG_LOW_ONLY;
  set_imm (mk_imm_spec IMM_RAW 5 0 false);
  set_imm_place (bf 6 5);
  set_puw_fixed 6;
  set_feat (feats [feat_t16])].

Definition SHAPE_T16_MEM_IMM1 : thop_variant_shape := shape_init [
  set_size THOP_VARIANT_T16;
  set_rd_place (bf 0 3);
  set_rn_place (bf 3 3);
  set_rd_con REG_LOW_ONLY;
  set_rn_con REG_LOW_ONLY;
  set_imm (mk_imm_spec IMM_RAW 5 1 false);
  set_imm_place (bf 6 5);
  set_puw_fixed 6;
  set_feat (feats [feat_t16])].

Definition SHAPE_T16_MEM_SP_IMM4 : thop_variant_shape := shape_init [
  set_size THOP_VARIANT_T16;
  set_rd_place (bf 8 3);
  set_rd_con REG_LOW_ONLY;
  set_rn_con REG_SP_ONLY;
  set_imm (mk_imm_spec IMM_RAW 8 2 false);
  set_imm_place (bf 0 8);
  set_puw_fixed 6;
  set_feat (feats [feat_t16])].

Definition SHAPE_T32_MEM_POS_ANY_NOTPC : thop_variant_shape := shape_init [
  set_size THOP_VARIANT_T32;
  set_rd_place (bf 12 4);
  set_rn_place (bf 16 4);
  set_rd_con REG_ANY;
  set_rn_con REG_NOT_PC;
  set_imm (mk_imm_spec IMM_RAW 12 0 false);
  set_imm_place (bf 0 12);
  set_puw_fixed 6;
  set_feat (feats [feat_t32])].

Definition SHAPE_T32_MEM_POS_NOSP_NOTPC : thop_variant_shape := shape_init [
  set_size THOP_VARIANT_T32;
  set_rd_place (bf 12 4);
  set_rn_place (bf 16 4);
  set_rd_con REG_NOT_SP;
  set_rn_con REG_NOT_PC;
  set_imm (mk_imm_spec IMM_RAW 12 0 false);
  set_imm_place (bf 0 12);
  set_puw_fixed 6;
  set_feat (feats [feat_t32])].

Definition SHAPE_T32_MEM_PC_POS : thop_variant_shape := shape_init [
  set_size THOP_VARIANT_T32;
  set_rd_place (bf 12 4);
  set_rn_place (bf 16 4);
  set_rd_con REG_ANY;
  set_rn_con REG_PC_ONLY;
  set_imm (mk_imm_spec IMM_RAW 12 0 false);
  set_imm_place (bf 0 12);
  set_puw_fixed 6;
  set_feat (feats [feat_t32])].

Definition SHAPE_T32_MEM_PC_NEG : thop_variant_shape := shape_init [
  set_size THOP_VARIANT_T32;
  set_rd_place (bf 12 4);
  set_rn_place (bf 16 4);
  set_rd_con REG_ANY;
  set_rn_con REG_PC_ONLY;
  set_imm (mk_imm_spec IMM_RAW 12 0 false);
  set_imm_place (bf 0 12);
  set_puw_fixed 4;
  set_feat (feats [feat_t32])].

Definition SHAPE_T32_MEM_IDX_ANY : thop_variant_shape := shape_init [
  set_size THOP_VARIANT_T32;
  set_rd_place (bf 12 4);
  set_rn_place (bf 16 4);
  set_rd_con REG_ANY;
  set_rn_con REG_ANY;
  set_imm (mk_imm_spec IMM_RAW 8 0 false);
  set_imm_place (bf 0 8);
  set_puw_bits (bf 8 3);
  set_feat (feats [feat_t32])].

Definition SHAPE_T32_MEM_IDX_NOSP : thop_variant_shape := shape_init [
  set_size THOP_VARIANT_T32;
  set_rd_place (bf 12 4);
  set_rn_place (bf 16 4);
  set_rd_con REG_NOT_SP;
  set_rn_con REG_ANY;
  set_imm (mk_imm_spec IMM_RAW 8 0 false);
  set_imm_place (bf 0 8);
  set_puw_bits (bf 8 3);
  set_feat (feats [feat_t32])].

Definition SHAPE_T32_MEM_IDX_ANY_NOTPC : thop_variant_shape := shape_init [
  set_size THOP_VARIANT_T32;
  set_rd_place (bf 12 4);
  set_rn_place (bf 16 4);
  set_rd_con REG_ANY;
  set_rn_con REG_NOT_PC;
  set_imm (mk_imm_spec IMM_RAW 8 0 false);
  set_imm_place (bf 0 8);
  set_puw_bits (bf 8 3);
  set_feat (feats [feat_t32])].

Definition SHAPE_T32_MEM_IDX_NOSP_NOTPC : thop_variant_shape := shape_init [
  set_size THOP_VARIANT_T32;
  set_rd_place (bf 12 4);
  set_rn_place (bf 16 4);
  set_rd_con REG_NOT_SP;
  set_rn_con REG_NOT_PC;
  set_imm (mk_imm_spec IMM_RAW 8 0 false);
  set_imm_place (bf 0 8);
  set_puw_bits (bf 8 3);
  set_feat (feats [feat_t32])].

Definition SHAPE_T16_MEM_REG : thop_variant_shape := shape_init [
  set_size THOP_VARIANT_T16;
  set_rd_place (bf 0 3);
  set_rn_place (bf 3 3);
  set_rm_place (bf 6 3);
  set_rd_con REG_LOW_ONLY;
  set_rn_con REG_LOW_ONLY;
  set_rm_con REG_LOW_ONLY;
  set_feat (feats [feat_t16])].

Definition SHAPE_T32_MEM_REG : thop_variant_shape := shape_init [
  set_size THOP_VARIANT_T32;
  set_rd_place (bf 12 4);
  set_rn_place (bf 16 4);
  set_rm_place (bf 0 4);
  set_rd_con REG_NOT_SP;
  set_rn_con REG_NOT_PC;
  set_rm_con (Z.lor REG_NOT_SP REG_NOT_PC);
  set_shift_imm2_bits (bf 4 2);
  set_shift_allowed (shift_mask [THUMB_SHIFT_LSL]);
  set_feat (feats [feat_t32])].

Definition SHAPE_T32_MEM_UNPRIV : thop_variant_shape := shape_init [
  set_size THOP_VARIANT_T32;
  set_rd_place (bf 12 4);
  set_rn_place (bf 16 4);
  set_imm (mk_imm_spec IMM_RAW 8 0 false);
  set_imm_place (bf 0 8);
  set_feat (feats [feat_t32])].

Definition SHAPE_MOV_REG_T1_HIGH : thop_variant_shape := shape_init [
  set_size THOP_VARIANT_T16;
  set_rd_place (bf 0 3);
  set_dn_rd_split (bf 0 3);
  set_rm_place (bf 3 4);
  set_rd_con REG_NOT_PC;
  set_rm_con REG_ANY;
  set_feat (feats [feat_t16])].

Definition SHAPE_MOV_REG_T1_SHIFT : thop_variant_shape := shape_init [
  set_size THOP_VARIANT_T16;
  set_shift_allowed (shift_mask [THUMB_SHIFT_LSL; THUMB_SHIFT_LSR; THUMB_SHIFT_ASR]);
  set_has_s_bit true;
  set_feat (feats [feat_t16])].

Definition SHAPE_MOV_REG_T3 : thop_variant_shape := shape_init [
  set_size THOP_VARIANT_T32;
  set_rd_place (bf 8 4);
  set_rn_place (bf 16 4);
  set_rm_place (bf 0 4);
  set_has_s_bit true;
  set_shift_type_bits (bf 4 2);
  set_shift_imm2_bits (bf 6 2);
  set_shift_imm3_bits (bf 12 3);
  set_shift_allowed (shift_mask [THUMB_SHIFT_LSL; THUMB_SHIFT_LSR; THUMB_SHIFT_ASR; THUMB_SHIFT_ROR; THUMB_SHIFT_RRX]);
  set_feat (feats [feat_t32])].

Definition SHAPE_MOV_IMM_T1 : thop_variant_shape := shape_init [
  set_size THOP_VARIANT_T16;
  set_implicit_s true;
  set_feat (feats [feat_t16])].

Definition SHAPE_MOV_IMM_T3 : thop_variant_shape := shape_init [
  set_size THOP_VARIANT_T32;
  set_rd_place (bf 8 4);
  set_rd_con (Z.lor REG_NOT_SP REG_NOT_PC);
  set_imm (mk_imm_spec IMM_PACK_CONST 0 0 false);
  set_has_s_bit true;
  set_feat (feats [feat_t32; feat_mod_imm])].

Definition SHAPE_MOV_IMM_T4 : thop_variant_shape := shape_init [
  set_size THOP_VARIANT_T32;
  set_rd_place (bf 8 4);
  set_rd_con (Z.lor REG_NOT_SP REG_NOT_PC);
  set_imm (mk_imm_spec IMM_PACK_3_8_1 0 0 false);
  set_feat (feats [feat_t32; feat_movw_movt])].

Definition SHAPE_MOVT : thop_variant_shape := shape_init [
  set_size THOP_VARIANT_T32;
  set_rd_place (bf 8 4);
  set_rd_con (Z.lor REG_NOT_SP REG_NOT_PC);
  set_imm (mk_imm_spec IMM_PACK_3_8_1 0 0 false);
  set_feat (feats [feat_t32; feat_movw_movt])].

Definition SHAPE_MOV_REG_SHIFT_T1 : thop_variant_shape := shape_init [
  set_size THOP_VARIANT_T16;
  set_rd_place (bf 0 3);
  set_rm_place (bf 0 3);
  set_ra_place (bf 3 3);
  set_rd_con (Z.lor REG_LOW_ONLY REG_EQ_RM);
  set_rm_con REG_LOW_ONLY;
  set_ra_con REG_LOW_ONLY;
  set_implicit_s true;
  set_shift_allowed (shift_mask [THUMB_SHIFT_LSL; THUMB_SHIFT_LSR; THUMB_SHIFT_ASR; THUMB_SHIFT_ROR]);
  set_feat (feats [feat_t16])].

Definition SHAPE_MOV_REG_SHIFT_T3 : thop_variant_shape := shape_init [
  set_size THOP_VARIANT_T32;
  set_rd_place (bf 8 4);
  set_rm_place (bf 16 4);
  set_ra_place (bf 0 4);
  set_has_s_bit true;
  set_shift_type_bits (bf 21 2);
  set_shift_allowed (shift_mask [THUMB_SHIFT_LSL; THUMB_SHIFT_LSR; THUMB_SHIFT_ASR; THUMB_SHIFT_ROR]);
  set_feat (feats [feat_t32])].

Definition SHAPE_MRS : thop_variant_shape := shape_init [
  set_size THOP_VARIANT_T32;
  set_rd_place (bf 8 4);
  set_rm_place (bf 0 8);
  set_feat (feats [feat_t32])].

Definition SHAPE_MSR : thop_variant_shape := shape_init [
  set_size THOP_VARIANT_T32;
  set_rd_place (bf 16 4);
  set_rm_place (bf 0 8);
  set_imm (mk_imm_spec IMM_RAW 2 0 false);
  set_imm2_place (bf 10 2);
  set_feat (feats [feat_t32])].

Definition SHAPE_MUL_T16 : thop_variant_shape := shape_init [
  set_size THOP_VARIANT_T16;
  set_rd_place (bf 0 3);
  set_rm_place (bf 3 3);
  set_implicit_s true;
  set_feat (feats [feat_t16])].

Definition SHAPE_MUL_T32 : thop_variant_shape := shape_init [
  set_size THOP_VARIANT_T32;
  set_rd_place (bf 8 4);
  set_rn_place (bf 16 4);
  set_rm_place (bf 0 4);
  set_feat (feats [feat_t32])].

Definition SHAPE_MLA : thop_variant_shape := shape_init [
  set_size THOP_VARIANT_T32;
  set_rd_place (bf 8 4);
  set_rn_place (bf 16 4);
  set_rm_place (bf 0 4);
  set_ra_place (bf 12 4);
  set_feat (feats [feat_t32])].

Definition SHAPE_LONG_MUL : thop_variant_shape := shape_init [
  set_size THOP_VARIANT_T32;
  set_rd_place (bf 8 4);
  set_rn_place (bf 0 4);
  set_rm_place (bf 16 4);
  set_ra_place (bf 12 4);
  set_feat (feats [feat_t32])].

Definition SHAPE_LONG_MUL_DSP : thop_variant_shape := shape_init [
  set_size THOP_VARIANT_T32;
  set_rd_place (bf 8 4);
  set_rn_place (bf 0 4);
  set_rm_place (bf 16 4);
  set_ra_place (bf 12 4);
  set_feat (feats [feat_t32; feat_dsp])].

Definition SHAPE_DIV : thop_variant_shape := shape_init [
  set_size THOP_VARIANT_T32;
  set_rd_place (bf 8 4);
  set_rn_place (bf 16 4);
  set_rm_place (bf 0 4);
  set_feat (feats [feat_t32; feat_div])].

Definition SHAPE_MVN_REG_T1 : thop_variant_shape := shape_init [
  set_size THOP_VARIANT_T16;
  set_rd_place (bf 0 3);
  set_rm_place (bf 3 3);
  set_rd_con (Z.lor REG_LOW_ONLY REG_EQ_RN);
  set_rn_con REG_LOW_ONLY;
  set_rm_con REG_LOW_ONLY;
  set_implicit_s true;
  set_feat (feats [feat_t16])].

Definition SHAPE_MVN_REG_T3 : thop_variant_shape := shape_init [
  set_size THOP_VARIANT_T32;
  set_rd_place (bf 8 4);
  set_rn_place (bf 16 4);
  set_rm_place (bf 0 4);
  set_rd_con REG_NOT_PC;
  set_rn_con REG_NOT_PC;
  set_rm_con (Z.lor REG_NOT_SP REG_NOT_PC);
  set_has_s_bit true;
  set_shift_type_bits (bf 4 2);
  set_shift_imm2_bits (bf 6 2);
  set_shift_imm3_bits (bf 12 3);
  set_feat (feats [feat_t32])].

Definition SHAPE_MVN_IMM_T3 : thop_variant_shape := shape_init [
  set_size THOP_VARIANT_T32;
  set_rd_place (bf 8 4);
  set_has_s_bit true;
  set_feat (feats [feat_t32])].

Definition SHAPE_T16_REV : thop_variant_shape := shape_init [
  set_size THOP_VARIANT_T16;
  set_rd_place (bf 0 3);
  set_rm_place (bf 3 3);
  set_rd_con REG_LOW_ONLY;
  set_rm_con REG_LOW_ONLY;
  set_feat (feats [feat_t16])].

Definition SHAPE_T32_REV : thop_variant_shape := shape_init [
  set_size THOP_VARIANT_T32;
  set_rd_place (bf 8 4);
  set_rm_place (bf 0 4);
  set_ra_place (bf 16 4);
  set_rd_con REG_NOT_PC;
  set_feat (feats [feat_t32])].

Definition SHAPE_T32_RBIT : thop_variant_shape := shape_init [
  set_size THOP_VARIANT_T32;
  set_rd_place (bf 8 4);
  set_rm_place (bf 0 4);
  set_ra_place (bf 16 4);
  set_rd_con REG_NOT_PC;
  set_feat (feats [feat_t32; feat_clz_rbit])].

Definition SHAPE_T16_SHIFT_IMM : thop_variant_shape := shape_init [
  set_size THOP_VARIANT_T16;
  set_rd_place (bf 0 3);
  set_rm_place (bf 3 3);
  set_rd_con REG_LOW_ONLY;
  set_rm_con REG_LOW_ONLY;
  set_imm (mk_imm_spec IMM_RAW 5 0 false);
  set_imm_place (bf 6 5);
  set_shift_type_bits (bf 11 2);
  set_implicit_s true;
  set_feat (feats [feat_t16])].

Definition SHAPE_T32_SHIFT_IMM : thop_variant_shape := shape_init [
  set_size THOP_VARIANT_T32;
  set_rd_place (bf 8 4);
  set_rm_place (bf 0 4);
  set_rd_con REG_NOT_PC;
  set_rm_con REG_NOT_PC;
  set_has_s_bit true;
  set_shift_imm3_bits (bf 12 3);
  set_shift_imm2_bits (bf 6 2);
  set_shift_type_bits (bf 4 2);
  set_feat (feats [feat_t32])].

Definition SHAPE_T16_SHIFT_REG : thop_variant_shape := shape_init [
  set_size THOP_VARIANT_T16;
  set_rd_place (bf 0 3);
  set_rm_place (bf 3 3);
  set_rd_con (Z.lor REG_LOW_ONLY REG_EQ_RN);
  set_rn_con REG_LOW_ONLY;
  set_rm_con REG_LOW_ONLY;
  set_implicit_s true;
  set_feat (feats [feat_t16])].

Definition SHAPE_T32_SHIFT_REG : thop_variant_shape := shape_init [
  set_size THOP_VARIANT_T32;
  set_rd_place (bf 8 4);
  set_rn_place (bf 16 4);
  set_rm_place (bf 0 4);
  set_rd_con REG_NOT_PC;
  set_rn_con REG_NOT_PC;
  set_rm_con (Z.lor REG_NOT_SP REG_NOT_PC);
  set_has_s_bit true;
  set_feat (feats [feat_t32])].

Definition SHAPE_HINT_T16 : thop_variant_shape := shape_init [
  set_size THOP_VARIANT_T16;
  set_imm (mk_imm_spec IMM_RAW 4 0 false);
  set_imm_place (bf 4 4);
  set_feat (feats [feat_t16])].

Definition SHAPE_HINT_T32 : thop_variant_shape := shape_init [
  set_size THOP_VARIANT_T32;
  set_imm (mk_imm_spec IMM_RAW 4 0 false);
  set_imm_place (bf 0 4);
  set_feat (feats [feat_t32])].

Definition SHAPE_IMM8_T16 : thop_variant_shape := shape_init [
  set_size THOP_VARIANT_T16;
  set_imm (mk_imm_spec IMM_RAW 8 0 false);
  set_imm_place (bf 0 8);
  set_feat (feats [feat_t16])].

Definition SHAPE_UDF_T16 : thop_variant_shape := shape_init [
  set_size THOP_VARIANT_T16;
  set_imm (mk_imm_spec IMM_RAW 8 0 false);
  set_imm_place (bf 0 8);
  set_feat (feats [feat_t16])].

Definition SHAPE_UDF_T32 : thop_variant_shape := shape_init [
  set_size THOP_VARIANT_T32;
  set_imm (mk_imm_spec IMM_RAW 12 0 false);
  set_imm_place (bf 0 12);
  set_imm2_place (bf 16 4);
  set_feat (feats [feat_t32])].

Definition SHAPE_CPS : thop_variant_shape := shape_init [
  set_size THOP_VARIANT_T16;
  set_rd_place (bf 4 1);
  set_imm (mk_imm_spec IMM_RAW 1 0 false);
  set_imm_place (bf 0 1);
  set_imm2_place (bf 1 1);
  set_feat (feats [feat_t16])].

Definition SHAPE_BARRIER : thop_variant_shape := shape_init [
  set_size THOP_VARIANT_T32;
  set_imm (mk_imm_spec IMM_RAW 4 0 false);
  set_imm_place (bf 0 4);
  set_feat (feats [feat_t32])].

Definition SHAPE_NOARG_T32 : thop_variant_shape := shape_init [
  set_size THOP_VARIANT_T32;
  set_feat (feats [feat_t32])].

Definition SHAPE_IT : thop_variant_shape := shape_init [
  set_size THOP_VARIANT_T16;
  set_rd_place (bf 4 4);
  set_imm (mk_imm_spec IMM_RAW 4 0 false);
  set_imm_place (bf 0 4);
  set_feat (feats [feat_t16])].

Definition SHAPE_CLZ : thop_variant_shape := shape_init [
  set_size THOP_VARIANT_T32;
  set_rd_place (bf 8 4);
  set_rm_place (bf 16 4);
  set_feat (feats [feat_t32; feat_clz_rbit])].

Definition SHAPE_TBB : thop_variant_shape := shape_init [
  set_size THOP_VARIANT_T32;
  set_rn_place (bf 16 4);
  set_rm_place (bf 0 4);
  set_feat (feats [feat_t32; feat_tbb_tbh])].

Definition SHAPE_TT : thop_variant_shape := shape_init [
  set_size THOP_VARIANT_T32;
  set_rd_place (bf 8 4);
  set_rn_place (bf 16 4);
  set_feat (feats [feat_t32])].

Definition SHAPE_VFP_SP : thop_variant_shape := shape_init [
  set_size THOP_VARIANT_T32;
  set_feat (feats [feat_t32; feat_vfp_sp])].

Definition SHAPE_VFP_DP : thop_variant_shape := shape_init [
  set_size THOP_VARIANT_T32;
  set_feat (feats [feat_t32; feat_vfp_dp])].

Definition SHAPE_VFP_DP_MOVE : thop_variant_shape := shape_init [
  set_size THOP_VARIANT_T32;
  set_feat (feats [feat_t32; feat_vfp_sp])].

Definition SHAPE_VMOVGPSP : thop_variant_shape := shape_init [
  set_size THOP_VARIANT_T32;
  set_rd_place (bf 12 4);
  set_imm2_place (bf 20 1);
  set_feat (feats [feat_t32; feat_vfp_sp])].

Definition SHAPE_VMOV2GPDP : thop_variant_shape := shape_init [
  set_size THOP_VARIANT_T32;
  set_rd_place (bf 12 4);
  set_rn_place (bf 16 4);
  set_imm2_place (bf 20 1);
  set_feat (feats [feat_t32; feat_vfp_sp])].

Definition SHAPE_VMRS : thop_variant_shape := shape_init [
  set_size THOP_VARIANT_T32;
  set_rd_place (bf 12 4);
  set_feat (feats [feat_t32; feat_vfp_sp])].

Definition SHAPE_VCVT_FD : thop_variant_shape := shape_init [
  set_size THOP_VARIANT_T32;
  set_feat (feats [feat_t32; feat_vfp_dp])].

Definition SHAPE_VCVT_DF : thop_variant_shape := shape_init [
  set_size THOP_VARIANT_T32;
  set_feat (feats [feat_t32; feat_vfp_dp])].

Definition SHAPE_VCVT_FP_INT_SP : thop_variant_shape := shape_init [
  set_size THOP_VARIANT_T32;
  set_imm (mk_imm_spec IMM_RAW 4 0 false);
  set_imm_place (bf 16 4);
  set_imm2_place (bf 7 1);
  set_puw_bits (bf 8 1);
  set_feat (feats [feat_t32; feat_vfp_sp])].

Definition SHAPE_VCVT_FP_INT_DP : thop_variant_shape := shape_init [
  set_size THOP_VARIANT_T32;
  set_imm (mk_imm_spec IMM_RAW 4 0 false);
  set_imm_place (bf 16 4);
  set_imm2_place (bf 7 1);
  set_puw_bits (bf 8 1);
  set_feat (feats [feat_t32; feat_vfp_dp])].

(** [thop_shapes[id]]; the terminator's entry is all zero. *)
Definition thop_shapes (id : thop_shape_id) : thop_variant_shape :=
  match id with
  | THOP_SHAPE_END => shape0
  | THOP_SHAPE_ADR_T1 => SHAPE_ADR_T1
  | THOP_SHAPE_ADR_T3 => SHAPE_ADR_T3
  | THOP_SHAPE_ADR_T4 => SHAPE_ADR_T4
  | THOP_SHAPE_T16_IMM8 => SHAPE_T16_IMM8
  | THOP_SHAPE_T16_IMM3 => SHAPE_T16_IMM3
  | THOP_SHAPE_T32_MOD_IMM => SHAPE_T32_MOD_IMM
  | THOP_SHAPE_T32_IMM12 => SHAPE_T32_IMM12
  | THOP_SHAPE_T16_ADD_SP_IMM => SHAPE_T16_ADD_SP_IMM
  | THOP_SHAPE_T16_ADD_SP_IMM8 => SHAPE_T16_ADD_SP_IMM8
  | THOP_SHAPE_T16_SUB_SP_IMM => SHAPE_T16_SUB_SP_IMM
  | THOP_SHAPE_T16_REG3 => SHAPE_T16_REG3
  | THOP_SHAPE_T32_REG_SHIFT => SHAPE_T32_REG_SHIFT
  | THOP_SHAPE_T16_ADD_SP_REG => SHAPE_T16_ADD_SP_REG
  | THOP_SHAPE_T16_ADD_T2 => SHAPE_T16_ADD_T2
  | THOP_SHAPE_T16_REG_RDN_RM => SHAPE_T16_REG_RDN_RM
  | THOP_SHAPE_T32_BFX => SHAPE_T32_BFX
  | THOP_SHAPE_T32_SSAT_LSL => SHAPE_T32_SSAT_LSL
  | THOP_SHAPE_T32_SSAT_ASR => SHAPE_T32_SSAT_ASR
  | THOP_SHAPE_T32_USAT_LSL => SHAPE_T32_USAT_LSL
  | THOP_SHAPE_T32_USAT_ASR => SHAPE_T32_USAT_ASR
  | THOP_SHAPE_PUSH_T1 => SHAPE_PUSH_T1
  | THOP_SHAPE_PUSH_T2 => SHAPE_PUSH_T2
  | THOP_SHAPE_POP_T1 => SHAPE_POP_T1
  | THOP_SHAPE_POP_T2 => SHAPE_POP_T2
  | THOP_SHAPE_LDM_T1 => SHAPE_LDM_T1
  | THOP_SHAPE_LDM_T3 => SHAPE_LDM_T3
  | THOP_SHAPE_STM_T1 => SHAPE_STM_T1
  | THOP_SHAPE_STM_T3 => SHAPE_STM_T3
  | THOP_SHAPE_LDMDB => SHAPE_LDMDB
  | THOP_SHAPE_STMDB => SHAPE_STMDB
  | THOP_SHAPE_BX => SHAPE_BX
  | THOP_SHAPE_BL_T1 => SHAPE_BL_T1
  | THOP_SHAPE_BLX_REG => SHAPE_BLX_REG
  | THOP_SHAPE_B_COND_T16 => SHAPE_B_COND_T16
  | THOP_SHAPE_B_T3 => SHAPE_B_T3
  | THOP_SHAPE_B_T4 => SHAPE_B_T4
  | THOP_SHAPE_B_T2 => SHAPE_B_T2
  | THOP_SHAPE_CBZ => SHAPE_CBZ
  | THOP_SHAPE_T16_CMP_IMM => SHAPE_T16_CMP_IMM
  | THOP_SHAPE_T32_CMP_IMM => SHAPE_T32_CMP_IMM
  | THOP_SHAPE_T16_CMP_REG => SHAPE_T16_CMP_REG
  | THOP_SHAPE_T16_CMP_REG_T2 => SHAPE_T16_CMP_REG_T2
  | THOP_SHAPE_T32_CMP_REG => SHAPE_T32_CMP_REG
  | THOP_SHAPE_COPROC => SHAPE_COPROC
  | THOP_SHAPE_DSP_REG3 => SHAPE_DSP_REG3
  | THOP_SHAPE_PKH => SHAPE_PKH
  | THOP_SHAPE_T16_EXTEND => SHAPE_T16_EXTEND
  | THOP_SHAPE_T32_EXTEND => SHAPE_T32_EXTEND
  | THOP_SHAPE_LDAEX => SHAPE_LDAEX
  | THOP_SHAPE_STLEX => SHAPE_STLEX
  | THOP_SHAPE_LDR_LIT_T1 => SHAPE_LDR_LIT_T1
  | THOP_SHAPE_LDR_LIT_T32 => SHAPE_LDR_LIT_T32
  | THOP_SHAPE_LDRD => SHAPE_LDRD
  | THOP_SHAPE_LDREX => SHAPE_LDREX
  | THOP_SHAPE_STREX => SHAPE_STREX
  | THOP_SHAPE_LDREXB => SHAPE_LDREXB
  | THOP_SHAPE_STREXB => SHAPE_STREXB
  | THOP_SHAPE_T32_EXCLUSIVE => SHAPE_T32_EXCLUSIVE
  | THOP_SHAPE_T16_MEM_IMM4 => SHAPE_T16_MEM_IMM4
  | THOP_SHAPE_T16_MEM_IMM0 => SHAPE_T16_MEM_IMM0
  | THOP_SHAPE_T16_MEM_IMM1 => SHAPE_T16_MEM_IMM1
  | THOP_SHAPE_T16_MEM_SP_IMM4 => SHAPE_T16_MEM_SP_IMM4
  | THOP_SHAPE_T32_MEM_POS_ANY_NOTPC => SHAPE_T32_MEM_POS_ANY_NOTPC
  | THOP_SHAPE_T32_MEM_POS_NOSP_NOTPC => SHAPE_T32_MEM_POS_NOSP_NOTPC
  | THOP_SHAPE_T32_MEM_PC_POS => SHAPE_T32_MEM_PC_POS
  | THOP_SHAPE_T32_MEM_PC_NEG => SHAPE_T32_MEM_PC_NEG
  | THOP_SHAPE_T32_MEM_IDX_ANY => SHAPE_T32_MEM_IDX_ANY
  | THOP_SHAPE_T32_MEM_IDX_NOSP => SHAPE_T32_MEM_IDX_NOSP
  | THOP_SHAPE_T32_MEM_IDX_ANY_NOTPC => SHAPE_T32_MEM_IDX_ANY_NOTPC
  | THOP_SHAPE_T32_MEM_IDX_NOSP_NOTPC => SHAPE_T32_MEM_IDX_NOSP_NOTPC
  | THOP_SHAPE_T16_MEM_REG => SHAPE_T16_MEM_REG
  | THOP_SHAPE_T32_MEM_REG => SHAPE_T32_MEM_REG
  | THOP_SHAPE_T32_MEM_UNPRIV => SHAPE_T32_MEM_UNPRIV
  | THOP_SHAPE_MOV_REG_T1_HIGH => SHAPE_MOV_REG_T1_HIGH
  | THOP_SHAPE_MOV_REG_T1_SHIFT => SHAPE_MOV_REG_T1_SHIFT
  | THOP_SHAPE_MOV_REG_T3 => SHAPE_MOV_REG_T3
  | THOP_SHAPE_MOV_IMM_T1 => SHAPE_MOV_IMM_T1
  | THOP_SHAPE_MOV_IMM_T3 => SHAPE_MOV_IMM_T3
  | THOP_SHAPE_MOV_IMM_T4 => SHAPE_MOV_IMM_T4
  | THOP_SHAPE_MOVT => SHAPE_MOVT
  | THOP_SHAPE_MOV_REG_SHIFT_T1 => SHAPE_MOV_REG_SHIFT_T1
  | THOP_SHAPE_MOV_REG_SHIFT_T3 => SHAPE_MOV_REG_SHIFT_T3
  | THOP_SHAPE_MRS => SHAPE_MRS
  | THOP_SHAPE_MSR => SHAPE_MSR
  | THOP_SHAPE_MUL_T16 => SHAPE_MUL_T16
  | THOP_SHAPE_MUL_T32 => SHAPE_MUL_T32
  | THOP_SHAPE_MLA => SHAPE_MLA
  | THOP_SHAPE_LONG_MUL => SHAPE_LONG_MUL
  | THOP_SHAPE_LONG_MUL_DSP => SHAPE_LONG_MUL_DSP
  | THOP_SHAPE_DIV => SHAPE_DIV
  | THOP_SHAPE_MVN_REG_T1 => SHAPE_MVN_REG_T1
  | THOP_SHAPE_MVN_REG_T3 => SHAPE_MVN_REG_T3
  | THOP_SHAPE_MVN_IMM_T3 => SHAPE_MVN_IMM_T3
  | THOP_SHAPE_T16_REV => SHAPE_T16_REV
  | THOP_SHAPE_T32_REV => SHAPE_T32_REV
  | THOP_SHAPE_T32_RBIT => SHAPE_T32_RBIT
  | THOP_SHAPE_T16_SHIFT_IMM => SHAPE_T16_SHIFT_IMM
  | THOP_SHAPE_T32_SHIFT_IMM => SHAPE_T32_SHIFT_IMM
  | THOP_SHAPE_T16_SHIFT_REG => SHAPE_T16_SHIFT_REG
  | THOP_SHAPE_T32_SHIFT_REG => SHAPE_T32_SHIFT_REG
  | THOP_SHAPE_HINT_T16 => SHAPE_HINT_T16
  | THOP_SHAPE_HINT_T32 => SHAPE_HINT_T32
  | THOP_SHAPE_IMM8_T16 => SHAPE_IMM8_T16
  | THOP_SHAPE_UDF_T16 => SHAPE_UDF_T16
  | THOP_SHAPE_UDF_T32 => SHAPE_UDF_T32
  | THOP_SHAPE_CPS => SHAPE_CPS
  | THOP_SHAPE_BARRIER => SHAPE_BARRIER
  | THOP_SHAPE_NOARG_T32 => SHAPE_NOARG_T32
  | THOP_SHAPE_IT => SHAPE_IT
  | THOP_SHAPE_CLZ => SHAPE_CLZ
  | THOP_SHAPE_TBB => SHAPE_TBB
  | THOP_SHAPE_TT => SHAPE_TT
  | THOP_SHAPE_VFP_SP => SHAPE_VFP_SP
  | THOP_SHAPE_VFP_DP => SHAPE_VFP_DP
  | THOP_SHAPE_VFP_DP_MOVE => SHAPE_VFP_DP_MOVE
  | THOP_SHAPE_VMOVGPSP => SHAPE_VMOVGPSP
  | THOP_SHAPE_VMOV2GPDP => SHAPE_VMOV2GPDP
  | THOP_SHAPE_VMRS => SHAPE_VMRS
  | THOP_SHAPE_VCVT_FD => SHAPE_VCVT_FD
  | THOP_SHAPE_VCVT_DF => SHAPE_VCVT_DF
  | THOP_SHAPE_VCVT_FP_INT_SP => SHAPE_VCVT_FP_INT_SP
  | THOP_SHAPE_VCVT_FP_INT_DP => SHAPE_VCVT_FP_INT_DP
  end.

(** ** Variants and tables *)

Record thop_variant := mk_variant {
  v_shape : thop_shape_id;
  v_base : Z;
  v_custom : thop_custom_id;
}.

(** [TH_TABLE(id, mnemonic, ...)]: the variants and the terminator. *)
Record thop_table := mk_table { t_name : string; t_variants : list thop_variant }.

Definition TH_TABLE (name : string) (vs : list thop_variant) : thop_table :=
  mk_table name (vs ++ [mk_variant THOP_SHAPE_END 0 THOP_CUSTOM_NONE]).

(** [v->shape != THOP_SHAPE_END] and [v->custom != 0] fail on these. *)
Definition is_end (v : thop_variant) : bool :=
  match v_shape v with THOP_SHAPE_END => true | _ => false end.
Definition is_custom_none (v : thop_variant) : bool :=
  match v_custom v with THOP_CUSTOM_NONE => true | _ => false end.

(** [{shape, base}] and [{shape, base, custom}] *)
Definition V (s : thop_shape_id) (base : Z) : thop_variant := mk_variant s base THOP_CUSTOM_NONE.
Definition VC (s : thop_shape_id) (base : Z) (c : thop_custom_id) : thop_variant := mk_variant s base c.
