(* ===== verification/ThumbPack.v ===== *)
(** * Immediate packers of the Thumb encoder ([thumb.c], utility functions)

    [th_packimm_*], the modified-immediate packer [th_pack_const] with its
    direct-mapped cache, the branch-offset helpers and the shift helpers.  The
    packer is checked against the architecture's [ThumbExpandImm], in both
    directions, and its cache is shown to be transparent. *)

From S2P Require Import Prelude BitReflect ArmDecode ThumbTypes.
Local Open Scope Z_scope.
Local Open Scope c_scope.

(** ** The encoder's state and monad *)

Record pack_entry := mk_entry { pe_imm : Z; pe_packed : Z; pe_valid : bool }.

Definition TH_PACK_CONST_CACHE_SIZE : Z := 64.

Record enc_state := mk_state {
  target_feat : Z;
  th_pack_const_cache : list pack_entry;
}.

(** Zero-initialised static storage. *)
Definition cache0 : list pack_entry :=
  replicate (Z.to_nat TH_PACK_CONST_CACHE_SIZE) (mk_entry 0 0 false).
Definition init_state (feat : Z) : enc_state := mk_state feat cache0.

(** What the encoding engine uses of its environment: the target's features,
    the internal-error exit, and the constant packer. *)
Class EncOps (M : Type -> Type) : Type := {
  get_feat : M Z;
  tcc_ice : forall {A}, M A;
  pack_const : Z -> M Z;
}.

(** The code's monad: state passing, [None] when the compiler stops with an
    internal error. *)
Definition Enc (A : Type) : Type := enc_state -> option (A * enc_state).

#[global] Instance Enc_ret : MRet Enc := fun A x st => Some (x, st).
#[global] Instance Enc_bind : MBind Enc := fun A B f m st =>
  match m st with
  | Some (x, st') => f x st'
  | None => None
  end.

(** The reference monad: no state, the packer computed afresh at each use. *)
Definition Pure (A : Type) : Type := Z -> option A.

#[global] Instance Pure_ret : MRet Pure := fun A x _ => Some x.
#[global] Instance Pure_bind : MBind Pure := fun A B f m feat =>
  match m feat with
  | Some x => f x feat
  | None => None
  end.

Lemma pure_bind_eq {A B} (m : Pure A) (f : A -> Pure B) feat :
  (m ≫= f) feat = match m feat with Some x => f x feat | None => None end.
Proof. reflexivity. Qed.

(** ** Scattered immediates *)

Definition th_packimm_10_11_0 (imm : Z) : Z :=
  let imm11 := (imm >>> 1) &&& 0x7ff in
  let imm10 := (imm >>> 12) &&& 0x3ff in
  let s := (imm >>> 24) &&& 1 in
  let j1 := (~~~ ((imm >>> 23) ^^^ s)) &&& 1 in
  let j2 := (~~~ ((imm >>> 22) ^^^ s)) &&& 1 in
  (s <<< 26) ||| (imm10 <<< 16) ||| (j1 <<< 13) ||| (j2 <<< 11) ||| imm11.

Definition th_packimm_3_8_1 (imm : Z) : Z :=
  let imm8 := imm &&& 0xff in
  let imm3 := (imm >>> 8) &&& 0x7 in
  let i := (imm >>> 11) &&& 1 in
  let imm4 := (imm >>> 12) &&& 0xf in
  (i <<< 26) ||| (imm4 <<< 16) ||| (imm3 <<< 12) ||| imm8.

(** ** Modified immediates *)

(** [for (i = 8, j = 0; i <= 0x1F; i++, j++)]; [0] when no rotation fits. *)
Fixpoint pack_const_loop (fuel : nat) (imm i j : Z) : Z :=
  match fuel with
  | O => 0
  | S fuel =>
      if Z.leb i 0x1F then
        let mask := 0xFF000000 >>> j in
        let one := 0x80000000 >>> j in
        if Z.eqb (imm &&& one) one && Z.eqb (imm &&& ~~~ mask) 0 then
          let _i := i >>> 4 in
          let imm3 := (i >>> 1) &&& 7 in
          let a := i &&& 1 in
          let bcdefgh := (imm >>> (24 - j)) &&& 0x7f in
          (_i <<< 26) ||| (imm3 <<< 12) ||| (a <<< 7) ||| bcdefgh
        else pack_const_loop fuel imm (i + 1) (j + 1)
      else 0
  end.

(** The computation behind the cache: 24 rotations, and the exit test. *)
Definition pack_const_compute (imm : Z) : Z :=
  if Z.eqb (imm &&& 0xffffff00) 0 then imm
  else if Z.eqb (imm &&& 0xff00ff00) 0 && Z.eqb (imm >>> 16) (imm &&& 0xff) then
    (1 <<< 12) ||| (imm &&& 0xff)
  else if Z.eqb (imm &&& 0x00ff00ff) 0 && Z.eqb ((imm >>> 16) &&& 0xff00) (imm &&& 0xff00) then
    (2 <<< 12) ||| ((imm >>> 8) &&& 0xff)
  else if Z.eqb (imm &&& 0xffff) ((imm >>> 16) &&& 0xffff)
          && Z.eqb ((imm >>> 8) &&& 0xff) (imm &&& 0xff) then
    (3 <<< 12) ||| (imm &&& 0xff)
  else pack_const_loop 25 imm 8 0.

Definition pack_const_index (imm : Z) : Z :=
  (imm ^^^ (imm >>> 9) ^^^ (imm >>> 17) ^^^ (imm >>> 25)) &&& (TH_PACK_CONST_CACHE_SIZE - 1).

(** [th_pack_const]: look in the cache, compute and fill on a miss. *)
Definition th_pack_const (imm : Z) : Enc Z := fun st =>
  let idx := Z.to_nat (pack_const_index imm) in
  e ← th_pack_const_cache st !! idx;
  if pe_valid e && Z.eqb (pe_imm e) imm then Some (pe_packed e, st)
  else
    let packed := pack_const_compute imm in
    Some (packed, mk_state (target_feat st)
                    (<[idx := mk_entry imm packed true]> (th_pack_const_cache st))).

#[global] Instance Enc_ops : EncOps Enc := {
  get_feat := (fun st => Some (target_feat st, st)) : Enc Z;
  tcc_ice := fun A => (fun _ => None) : Enc A;
  pack_const := th_pack_const;
}.

#[global] Instance Pure_ops : EncOps Pure := {
  get_feat := (fun feat => Some feat) : Pure Z;
  tcc_ice := fun A => (fun _ => None) : Pure A;
  pack_const := fun imm => (fun _ => Some (pack_const_compute imm)) : Pure Z;
}.

(** ** Branch offsets *)

Definition th_encbranch_b_t3 (imm : Z) : Z :=
  let s := (imm >>> 19) &&& 1 in
  let imm6 := (imm >>> 11) &&& 0x3f in
  let imm11 := imm &&& 0x7ff in
  let j2 := (imm >>> 18) &&& 1 in
  let j1 := (imm >>> 17) &&& 1 in
  let a := (s <<< 10) ||| imm6 in
  let b := (j1 <<< 13) ||| (j2 <<< 11) ||| imm11 in
  (a <<< 16) ||| b.

Definition th_encbranch (pos addr : Z) : Z := u32 (addr - pos - 4).

(** The [int] shift of a negative value is arithmetic. *)
Definition th_encbranch_8 (pos addr : Z) : option Z :=
  let addr := Z.shiftr (addr - pos - 4) 1 in
  if Z.ltb 127 addr || Z.ltb addr (-128) then None else Some (addr &&& 0xff).

Definition th_encbranch_11 (pos addr : Z) : option Z :=
  let addr := Z.shiftr (addr - pos - 4) 1 in
  if Z.ltb 1023 addr || Z.ltb addr (-1024) then None else Some (addr &&& 0x7ff).

Definition th_encbranch_20 (pos addr : Z) : Z := u32 (Z.shiftr (addr - pos - 4) 1).

(** ** Shifts *)

Definition th_shift_type_to_op (shift : thumb_shift) : option Z :=
  match sh_type shift with
  | THUMB_SHIFT_ASR => Some 4
  | THUMB_SHIFT_LSL => Some 2
  | THUMB_SHIFT_LSR => Some 3
  | THUMB_SHIFT_ROR => Some 7
  | _ => None
  end.

(** The boolean result and the shift as rewritten through the pointer. *)
Definition th_shift_imm_normalize (shift : thumb_shift) : bool * thumb_shift :=
  let as_lsl := mk_shift THUMB_SHIFT_LSL (sh_value shift) (sh_mode shift) in
  match sh_type shift with
  | THUMB_SHIFT_LSL => (Z.leb (sh_value shift) 31, shift)
  | THUMB_SHIFT_LSR | THUMB_SHIFT_ASR =>
      let shift' := if Z.eqb (sh_value shift) 0 then as_lsl else shift in
      (Z.leb (sh_value shift') 32, shift')
  | THUMB_SHIFT_ROR =>
      let shift' := if Z.eqb (sh_value shift) 0 then as_lsl else shift in
      (Z.leb (sh_value shift') 31, shift')
  | _ => (true, shift)
  end.

Definition th_shift_value_to_sr_type (shift : thumb_shift) : Z :=
  match sh_type shift with
  | THUMB_SHIFT_NONE | THUMB_SHIFT_LSL => 0
  | THUMB_SHIFT_LSR => 1
  | THUMB_SHIFT_ASR => 2
  | THUMB_SHIFT_ROR | THUMB_SHIFT_RRX => 3
  end.

Definition th_generic_op_reg_shift_with_status `{MRet M, EncOps M} (op rd rn rm : Z)
    (flags : thumb_flags_behaviour) (shift : thumb_shift) : M thumb_opcode :=
  let s := b2z (bool_decide (flags = FLAGS_BEHAVIOUR_SET)) in
  let sr := th_shift_value_to_sr_type shift in
  let imm2 := sh_value shift &&& 0x3 in
  let imm3 := (sh_value shift >>> 2) &&& 0x7 in
  if Z.ltb 15 rd || Z.ltb 15 rn || Z.ltb 15 rm then tcc_ice
  else mret (mk_opcode 4
         ((op <<< 16) ||| (rn <<< 16) ||| (rd <<< 8) ||| rm ||| (sr <<< 4) |||
          (imm2 <<< 6) ||| (imm3 <<< 12) ||| (s <<< 20))).

(** ** The packer against the architecture *)

(** What the packer writes: nothing outside [i], [imm3] and [imm8]. *)
Definition modimm_mask : Z := 0x040070ff.

(** [p] is a correct packing of [imm]. *)
Definition packs (imm p : Z) : Prop :=
  ThumbExpandImm (modimm_field p) = Some imm /\ Z.ldiff p modimm_mask = 0.

Definition packsb (imm p : Z) : bool :=
  bool_decide (ThumbExpandImm (modimm_field p) = Some imm) && Z.eqb (Z.ldiff p modimm_mask) 0.

Lemma packsb_sound imm p : packsb imm p = true -> packs imm p.
Proof.
  unfold packsb, packs. intros [H1%bool_decide_eq_true H2%Z.eqb_eq]%andb_prop. done.
Qed.

(** The rotated constant [v << (24 - j)] as the loop packs it at iteration [j]. *)
Definition rot_packed (j imm : Z) : Z :=
  let i := j + 8 in
  ((i >>> 4) <<< 26) ||| (((i >>> 1) &&& 7) <<< 12) ||| ((i &&& 1) <<< 7)
    ||| ((imm >>> (24 - j)) &&& 0x7f).

Lemma rot_packed_ok j v :
  0 <= j < 24 -> 128 <= v < 256 ->
  packs (Z.shiftl v (24 - j)) (rot_packed j (Z.shiftl v (24 - j))).
Proof.
  intros Hj Hv. apply packsb_sound.
  refine (forall_between_sound 128 256
            (fun v => packsb (Z.shiftl v (24 - j)) (rot_packed j (Z.shiftl v (24 - j)))) v _ Hv).
  refine (forall_below_sound 24
            (fun j => forall_between 128 256 (fun v =>
               packsb (Z.shiftl v (24 - j)) (rot_packed j (Z.shiftl v (24 - j))))) j _ Hj).
  vm_compute. reflexivity.
Qed.

(** A word with its top bit at [31 - j] and nothing outside the eight bits from
    there down is such a rotated constant. *)
Lemma rot_window j imm :
  0 <= j < 24 -> 0 <= imm < 2 ^ 32 ->
  imm &&& (0x80000000 >>> j) = 0x80000000 >>> j ->
  imm &&& ~~~ (0xFF000000 >>> j) = 0 ->
  exists v, 128 <= v < 256 /\ imm = Z.shiftl v (24 - j).
Proof.
  intros Hj Himm Hone Hmask. exists (slice imm (24 - j) 8).
  assert (Hs : Z.shiftl (slice imm (24 - j) 8) (24 - j)
               = Z.lxor imm (imm &&& ~~~ (0xFF000000 >>> j))).
  { clear Hone Hmask. unfold slice. enum_range j 0 24%nat; intros _; bit_solve. }
  assert (Ht : slice imm (24 - j) 8 &&& 0x80 = Z.shiftr (imm &&& (0x80000000 >>> j)) (24 - j)).
  { clear Hone Hmask Hs. unfold slice. enum_range j 0 24%nat; intros _; bit_solve. }
  rewrite Hmask, Z.lxor_0_r in Hs. split; [|done]. rewrite Hone in Ht.
  assert (Hc : Z.shiftr (0x80000000 >>> j) (24 - j) = 0x80).
  { clear -Hj. enum_range j 0 24%nat; intros _; reflexivity. }
  rewrite Hc in Ht. pose proof (slice_bound imm (24 - j) 8) as Hb.
  set (v := slice imm (24 - j) 8) in *.
  assert (Hv : (negb (Z.eqb (v &&& 0x80) 0x80) || Z.leb 128 v) = true).
  { refine (forall_below_sound 256 (fun v => negb (Z.eqb (v &&& 0x80) 0x80) || Z.leb 128 v) v _ _);
      [vm_compute; reflexivity|lia]. }
  rewrite Ht in Hv. simpl in Hv. apply Z.leb_le in Hv. lia.
Qed.

Lemma pack_loop_sound fuel imm j :
  0 <= imm < 2 ^ 32 -> 0 <= j ->
  let p := pack_const_loop fuel imm (j + 8) j in p = 0 \/ packs imm p.
Proof.
  intros Himm. revert j. induction fuel as [|fuel IH]; cbn [pack_const_loop]; intros j Hj; [by left|].
  destruct (Z.leb_spec (j + 8) 0x1F); [|by left].
  destruct (Z.eqb_spec (imm &&& (0x80000000 >>> j)) (0x80000000 >>> j)) as [Hone|]; simpl.
  2: { replace (j + 8 + 1) with (j + 1 + 8) by lia. apply IH. lia. }
  destruct (Z.eqb_spec (imm &&& ~~~ (0xFF000000 >>> j)) 0) as [Hmask|].
  2: { replace (j + 8 + 1) with (j + 1 + 8) by lia. apply IH. lia. }
  right. destruct (rot_window j imm) as (v & Hv & ->); [lia|done..|].
  apply rot_packed_ok; lia.
Qed.

(** The three replicated patterns, for every byte. *)
Lemma pack_pattern_ok b :
  1 <= b < 256 ->
  packs (Z.lor (Z.shiftl b 16) b) ((1 <<< 12) ||| b) /\
  packs (Z.lor (Z.shiftl b 24) (Z.shiftl b 8)) ((2 <<< 12) ||| b) /\
  packs (Z.lor (Z.lor (Z.shiftl b 24) (Z.shiftl b 16)) (Z.lor (Z.shiftl b 8) b)) ((3 <<< 12) ||| b).
Proof.
  intros Hb.
  split_and!; apply packsb_sound.
  - refine (forall_between_sound 1 256 (fun b => packsb (Z.lor (Z.shiftl b 16) b) ((1 <<< 12) ||| b)) b _ Hb).
    vm_compute. reflexivity.
  - refine (forall_between_sound 1 256
      (fun b => packsb (Z.lor (Z.shiftl b 24) (Z.shiftl b 8)) ((2 <<< 12) ||| b)) b _ Hb).
    vm_compute. reflexivity.
  - refine (forall_between_sound 1 256
      (fun b => packsb (Z.lor (Z.lor (Z.shiftl b 24) (Z.shiftl b 16)) (Z.lor (Z.shiftl b 8) b))
                  ((3 <<< 12) ||| b)) b _ Hb).
    vm_compute. reflexivity.
Qed.

Lemma pack_byte_ok b : 0 <= b < 256 -> packs b b.
Proof.
  intros Hb. apply packsb_sound.
  refine (forall_below_sound 256 (fun b => packsb b b) b _ Hb). vm_compute. reflexivity.
Qed.

(** The constant of each pattern is the replication of one byte. *)
Lemma pattern_00XY imm :
  0 <= imm < 2 ^ 32 -> imm &&& 0xff00ff00 = 0 -> imm >>> 16 = imm &&& 0xff ->
  imm = Z.lor (Z.shiftl (imm &&& 0xff) 16) (imm &&& 0xff).
Proof.
  intros Himm H1 H2.
  assert (E : imm = Z.lxor (imm &&& 0xff00ff00)
    (Z.lor (Z.shiftl ((imm >>> 16) &&& 0xff) 16) (imm &&& 0xff))) by bit_solve.
  rewrite H1, H2, Z.lxor_0_l in E. rewrite E at 1. f_equal. f_equal. bit_solve.
Qed.

Lemma pattern_XY00 imm :
  0 <= imm < 2 ^ 32 -> imm &&& 0x00ff00ff = 0 -> (imm >>> 16) &&& 0xff00 = imm &&& 0xff00 ->
  imm = Z.lor (Z.shiftl ((imm >>> 8) &&& 0xff) 24) (Z.shiftl ((imm >>> 8) &&& 0xff) 8).
Proof.
  intros Himm H1 H2.
  assert (E : imm = Z.lxor (imm &&& 0x00ff00ff)
    (Z.lor (Z.shiftl ((imm >>> 16) &&& 0xff00) 16) (imm &&& 0xff00))) by bit_solve.
  rewrite H1, H2, Z.lxor_0_l in E. rewrite E at 1. f_equal; bit_solve.
Qed.

Lemma pattern_XYXY imm :
  0 <= imm < 2 ^ 32 ->
  imm &&& 0xffff = (imm >>> 16) &&& 0xffff -> (imm >>> 8) &&& 0xff = imm &&& 0xff ->
  let b := imm &&& 0xff in
  imm = Z.lor (Z.lor (Z.shiftl b 24) (Z.shiftl b 16)) (Z.lor (Z.shiftl b 8) b).
Proof.
  intros Himm H1 H2 b.
  assert (E : imm = Z.lor (Z.shiftl ((imm >>> 16) &&& 0xffff) 16) (imm &&& 0xffff)) by bit_solve.
  assert (E2 : imm &&& 0xffff = Z.lor (Z.shiftl ((imm >>> 8) &&& 0xff) 8) (imm &&& 0xff)) by bit_solve.
  rewrite H2 in E2. fold b in E2. rewrite <-H1, E2 in E. rewrite E at 1.
  assert (0 <= b < 256) by (apply (land_ones_bound 8); lia). clearbody b. bit_solve.
Qed.

(** A non-zero packed value, or the one of zero, expands to the constant. *)
Lemma pack_compute_sound imm :
  0 <= imm < 2 ^ 32 ->
  pack_const_compute imm <> 0 \/ imm = 0 -> packs imm (pack_const_compute imm).
Proof.
  intros Himm. unfold pack_const_compute.
  assert (Hbyte : forall x, 0 <= x &&& 0xff < 256) by (intros; apply (land_ones_bound 8); lia).
  destruct (Z.eqb_spec (imm &&& 0xffffff00) 0) as [H0|H0].
  { intros _. apply pack_byte_ok. specialize (Hbyte imm).
    assert (imm = Z.lxor (imm &&& 0xff) (imm &&& 0xffffff00)) as E by bit_solve.
    rewrite H0, Z.lxor_0_r in E. lia. }
  assert (Hne : imm <> 0) by (intros ->; done).
  destruct (_ && _) eqn:H1.
  { intros _. apply andb_prop in H1 as [H1%Z.eqb_eq H2%Z.eqb_eq].
    pose proof (pattern_00XY imm Himm H1 H2) as E. clear H0 H1 H2. specialize (Hbyte imm).
    revert E Hbyte. generalize (imm &&& 0xff). intros b -> Hb.
    apply (pack_pattern_ok b). destruct (decide (b = 0)) as [->|]; [done|lia]. }
  clear H1. destruct (_ && _) eqn:H1.
  { intros _. apply andb_prop in H1 as [H1%Z.eqb_eq H2%Z.eqb_eq].
    pose proof (pattern_XY00 imm Himm H1 H2) as E. clear H0 H1 H2. specialize (Hbyte (imm >>> 8)).
    revert E Hbyte. generalize ((imm >>> 8) &&& 0xff). intros b -> Hb.
    apply (pack_pattern_ok b). destruct (decide (b = 0)) as [->|]; [done|lia]. }
  clear H1. destruct (_ && _) eqn:H1.
  { intros _. apply andb_prop in H1 as [H1%Z.eqb_eq H2%Z.eqb_eq].
    pose proof (pattern_XYXY imm Himm H1 H2) as E. clear H0 H1 H2. specialize (Hbyte imm).
    cbv zeta in E. revert E Hbyte. generalize (imm &&& 0xff). intros b -> Hb.
    apply (pack_pattern_ok b). destruct (decide (b = 0)) as [->|]; [done|lia]. }
  intros [Hp| ->]; [|done].
  destruct (pack_loop_sound 25 imm 0 Himm) as [E|]; [lia|done|done].
Qed.

(** Every expansion of a modified immediate is packed. *)
Lemma pack_compute_complete e v :
  0 <= e < 4096 -> ThumbExpandImm e = Some v -> pack_const_compute v <> 0 \/ v = 0.
Proof.
  intros He Hv.
  pose proof (forall_below_sound 4096 (fun e =>
    match ThumbExpandImm e with
    | Some v => truth (pack_const_compute v) || Z.eqb v 0
    | None => true
    end) e) as H.
  specialize (H ltac:(vm_compute; reflexivity) He). cbv beta in H. rewrite Hv in H.
  apply orb_prop in H as [H%truth_true | H%Z.eqb_eq]; auto.
Qed.

(** ** The cache *)

Definition entry_ok (e : pack_entry) : Prop :=
  pe_valid e = true -> pe_packed e = pack_const_compute (pe_imm e).

Definition state_ok (st : enc_state) : Prop :=
  Z.of_nat (length (th_pack_const_cache st)) = TH_PACK_CONST_CACHE_SIZE /\
  Forall entry_ok (th_pack_const_cache st).

Lemma init_state_ok feat : state_ok (init_state feat).
Proof. split; [done|]. by apply Forall_replicate. Qed.

Lemma pack_const_index_bound imm : 0 <= pack_const_index imm < TH_PACK_CONST_CACHE_SIZE.
Proof. apply (land_ones_bound 6). lia. Qed.

(** [m] returns [x]: same target, cache still sound. *)
Definition returns {A} (m : Enc A) (st : enc_state) (x : A) : Prop :=
  exists st', m st = Some (x, st') /\ state_ok st' /\ target_feat st' = target_feat st.

(** A computation of the code refines one of the reference monad: it stops where
    the reference stops and returns what it returns. *)
Definition refines {A} (m : Enc A) (r : Pure A) : Prop :=
  forall st, state_ok st ->
  match r (target_feat st) with
  | Some x => returns m st x
  | None => m st = None
  end.

Lemma th_pack_const_returns imm st :
  state_ok st -> returns (th_pack_const imm) st (pack_const_compute imm).
Proof.
  intros [Hlen Hok]. unfold returns, th_pack_const.
  pose proof (pack_const_index_bound imm) as Hidx.
  destruct (lookup_lt_is_Some_2 (th_pack_const_cache st) (Z.to_nat (pack_const_index imm)))
    as [e He]; [lia|].
  rewrite He. simpl. destruct (pe_valid e) eqn:Hv, (Z.eqb_spec (pe_imm e) imm) as [Hi|]; simpl.
  1: { exists st. split; [|done]. rewrite Forall_lookup in Hok.
       by rewrite (Hok _ _ He Hv), Hi. }
  all: eexists; split; [done|]; split; [|done]; split; simpl;
    [by rewrite length_insert|apply Forall_insert; [done|by intros _]].
Qed.

Create HintDb refine_enc.

Lemma refines_ret {A} (x : A) : refines (mret x) (mret x).
Proof. intros st Hst. by exists st. Qed.

Lemma refines_feat : refines get_feat get_feat.
Proof. intros st Hst. by exists st. Qed.

Lemma refines_ice {A} : refines (A := A) tcc_ice tcc_ice.
Proof. by intros st Hst. Qed.

Lemma refines_pack imm : refines (pack_const imm) (pack_const imm).
Proof. intros st Hst. by apply th_pack_const_returns. Qed.

Lemma refines_bind {A B} (m : Enc A) (r : Pure A) (k : A -> Enc B) (h : A -> Pure B) :
  refines m r -> (forall x, refines (k x) (h x)) -> refines (m ≫= k) (r ≫= h).
Proof.
  intros Hm Hk st Hst. specialize (Hm st Hst). unfold mbind, Enc_bind, Pure_bind.
  destruct (r (target_feat st)) as [x|].
  - destruct Hm as (st' & Hm & Hst' & Hf). specialize (Hk x st' Hst'). rewrite Hf in Hk.
    destruct (h x (target_feat st)) as [y|].
    + destruct Hk as (st'' & Hk & Hst'' & Hf'). exists st''. by rewrite Hm, Hk, Hf', Hf.
    + by rewrite Hm.
  - by rewrite Hm.
Qed.

#[export] Hint Resolve refines_ret refines_feat refines_ice refines_pack refines_bind : refine_enc.

(** Follows the structure of a computation written once for both monads. *)
Ltac refine_enc :=
  repeat match goal with
  | |- refines (if ?b then _ else _) _ => destruct b
  | |- refines (match ?x with _ => _ end) _ => destruct x
  | |- refines (_ ≫= _) _ => apply refines_bind; [|intros ?]
  | |- refines _ _ => solve [eauto with refine_enc]
  end.
