(* ===== verification/ThumbCustom.v ===== *)
(** * Custom emitters ([thop_customs_def.h] and the [*_emit] functions of [thop_*.c])

    Each emitter takes the variant's base word and the operands; size 0 rejects
    the variant.  [thop_call_custom] dispatches on the id. *)

From S2P Require Import Prelude BitReflect ArmDecode ThumbTypes ThumbShapes ThumbPack.
Local Open Scope Z_scope.
Local Open Scope c_scope.

(** ** Branches ([thop_branch.c]) *)

Definition bl_t1_emit (base : Z) (a : thop_args) : thumb_opcode :=
  let sval := s32 (a_imm a) in
  if truth (sval &&& 1) || Z.ltb sval (-16777216) || Z.ltb 16777214 sval then no_opcode
  else
    let val := a_imm a in
    let s := (val >>> 24) &&& 1 in
    let imm10 := (val >>> 12) &&& 0x3ff in
    let j1 := (~~~ ((val >>> 23) &&& 1) ^^^ s) &&& 1 in
    let j2 := (~~~ ((val >>> 22) &&& 1) ^^^ s) &&& 1 in
    let imm11 := (val >>> 1) &&& 0x7ff in
    let hi := 0xf000 ||| (s <<< 10) ||| imm10 in
    let lo := 0xd000 ||| (j1 <<< 13) ||| (j2 <<< 11) ||| imm11 in
    mk_opcode 4 ((hi <<< 16) ||| lo).

Definition b_t3_emit (base : Z) (a : thop_args) : thumb_opcode :=
  let imm := a_imm a in
  let s := (imm >>> 19) &&& 1 in
  let imm6 := (imm >>> 11) &&& 0x3f in
  let imm11 := imm &&& 0x7ff in
  let j2 := (imm >>> 18) &&& 1 in
  let j1 := (imm >>> 17) &&& 1 in
  let a_field := (s <<< 10) ||| imm6 in
  let b_field := (j1 <<< 13) ||| (j2 <<< 11) ||| imm11 in
  let enc := (a_field <<< 16) ||| b_field in
  mk_opcode 4 (0xf0008000 ||| (a_rd a <<< 22) ||| enc).

Definition b_t4_emit (base : Z) (a : thop_args) : thumb_opcode :=
  let sval := s32 (a_imm a) in
  if truth (sval &&& 1) || Z.ltb sval (-16777216) || Z.ltb 16777214 sval then no_opcode
  else
    let val := a_imm a in
    let s := (val >>> 24) &&& 1 in
    let imm10 := (val >>> 12) &&& 0x3ff in
    let j1 := (~~~ ((val >>> 23) &&& 1) ^^^ s) &&& 1 in
    let j2 := (~~~ ((val >>> 22) &&& 1) ^^^ s) &&& 1 in
    let imm11 := (val >>> 1) &&& 0x7ff in
    let hi := 0xf000 ||| (s <<< 10) ||| imm10 in
    let lo := 0x9000 ||| (j1 <<< 13) ||| (j2 <<< 11) ||| imm11 in
    mk_opcode 4 ((hi <<< 16) ||| lo).

Definition b_t2_emit (base : Z) (a : thop_args) : thumb_opcode :=
  let imm := s32 (a_imm a) in
  let i := Z.shiftr imm 1 in
  if Z.leb i 1023 && Z.leb (-1024) i && negb (truth (imm &&& 1)) then
    mk_opcode 2 (base ||| (i &&& 0x7ff))
  else no_opcode.

Definition cbz_emit (base : Z) (a : thop_args) : thumb_opcode :=
  let val := a_imm a in
  if Z.ltb 126 val || truth (val &&& 1) || Z.ltb 7 (a_rd a) then no_opcode
  else
    let i := (val >>> 5) &&& 1 in
    let imm5 := (val >>> 1) &&& 0x1f in
    mk_opcode 2 (base ||| (i <<< 9) ||| (imm5 <<< 3) ||| a_rd a).

(** ** Compare ([thop_cmp.c]) *)

Definition cmp_reg_t2_custom_emit (base : Z) (a : thop_args) : thumb_opcode :=
  let N := (a_rn a >>> 3) &&& 0x1 in
  mk_opcode 2 (base ||| (N <<< 7) ||| (a_rm a <<< 3) ||| (a_rn a &&& 0x7)).

(** ** Coprocessor ([thop_coproc.c]) *)

Definition coproc_cdp_emit (base : Z) (a : thop_args) : thumb_opcode :=
  mk_opcode 4 (base ||| ((a_ra a &&& 0xf) <<< 20) ||| ((a_rn a &&& 0xf) <<< 16) |||
    ((a_rd a &&& 0xf) <<< 12) ||| ((a_imm2 a &&& 0xf) <<< 8) ||| ((a_imm a &&& 0x7) <<< 5) |||
    (a_rm a &&& 0xf)).

Definition coproc_mcr_emit (base : Z) (a : thop_args) : thumb_opcode :=
  mk_opcode 4 (base ||| ((a_ra a &&& 0x7) <<< 21) ||| ((a_rn a &&& 0xf) <<< 16) |||
    ((a_rd a &&& 0xf) <<< 12) ||| ((a_imm2 a &&& 0xf) <<< 8) ||| ((a_imm a &&& 0x7) <<< 5) |||
    (a_rm a &&& 0xf)).

Definition coproc_mcrr_emit (base : Z) (a : thop_args) : thumb_opcode :=
  mk_opcode 4 (base ||| ((a_rn a &&& 0xf) <<< 16) ||| ((a_rd a &&& 0xf) <<< 12) |||
    ((a_imm2 a &&& 0xf) <<< 8) ||| ((a_ra a &&& 0xf) <<< 4) ||| (a_rm a &&& 0xf)).

(** ** DSP ([thop_dsp.c]) *)

Definition pkhbt_emit (base : Z) (a : thop_args) : thumb_opcode :=
  let shift_n := sh_value (a_shift a) in
  let tb := b2z (bool_decide (sh_type (a_shift a) = THUMB_SHIFT_ASR)) in
  mk_opcode 4 (base ||| (a_rd a <<< 8) ||| (a_rn a <<< 16) ||| (a_rm a <<< 0) |||
    ((shift_n &&& 3) <<< 6) ||| (((shift_n >>> 2) &&& 7) <<< 12) ||| (tb <<< 5)).

(** ** Literal and dual loads ([thop_ldr_literal.c], [thop_ldrd.c]) *)

Definition ldr_literal_emit (base : Z) (a : thop_args) : thumb_opcode :=
  let rt := a_rd a in
  let imm := a_imm a in
  let add := a_rn a in
  if Z.eqb rt R_PC then no_opcode
  else if Z.leb imm 0xfff then
    let ins := (0xf85f ||| ((add &&& 1) <<< 7)) <<< 16 in
    let ins := ins ||| (((rt &&& 0xf) <<< 12) ||| imm) in
    mk_opcode 4 ins
  else no_opcode.

Definition ldrd_imm_emit (base : Z) (a : thop_args) : thumb_opcode :=
  let imm := a_imm a in
  let index := b2z (truth (a_puw a &&& 0x4)) in
  let add := b2z (truth (a_puw a &&& 0x2)) in
  let wback := b2z (truth (a_puw a &&& 0x1)) in
  let rn := a_rn a in
  let rt := a_rd a in
  let rt2 := a_rm a in
  mk_opcode 4 (base ||| (add <<< 23) ||| (index <<< 24) ||| (wback <<< 21) |||
    (rn <<< 16) ||| (rt <<< 12) ||| (rt2 <<< 8) ||| (imm &&& 0xff)).

(** ** Moves ([thop_mov.c], [thop_mrs.c], [thop_mvn.c]) *)

Definition mov_reg_t1_shift_emit (base : Z) (a : thop_args) : thumb_opcode :=
  let shift := a_shift a in
  let set := bool_decide (a_flags a = FLAGS_BEHAVIOUR_SET) in
  if Z.ltb (a_rd a) 8 && Z.ltb (a_rm a) 8 &&
     negb (bool_decide (sh_type shift = THUMB_SHIFT_RRX)) &&
     negb (bool_decide (sh_type shift = THUMB_SHIFT_ROR)) &&
     ((set && negb (a_in_it_block a)) || (negb set && a_in_it_block a))
  then mk_opcode 2 (0x0000 ||| (th_shift_value_to_sr_type shift <<< 11) |||
         ((sh_value shift &&& 0x1f) <<< 6) ||| (a_rm a <<< 3) ||| a_rd a)
  else no_opcode.

Definition mov_imm_t1_emit (base : Z) (a : thop_args) : thumb_opcode :=
  if Z.leb (a_rd a) 7 && Z.leb (a_imm a) 255 &&
     negb (bool_decide (a_flags a = FLAGS_BEHAVIOUR_BLOCK))
  then mk_opcode 2 (base ||| (a_rd a <<< 8) ||| a_imm a)
  else no_opcode.

Definition mov_reg_shift_t1_emit `{MRet M, EncOps M} (base : Z) (a : thop_args) : M thumb_opcode :=
  if Z.eqb (a_rd a) (a_rm a) && Z.ltb (a_rd a) 8 && Z.ltb (a_ra a) 8 &&
     negb (bool_decide (a_enc a = ENFORCE_ENCODING_32BIT)) &&
     negb (bool_decide (sh_type (a_shift a) = THUMB_SHIFT_RRX))
  then
    match th_shift_type_to_op (a_shift a) with
    | Some op => mret (mk_opcode 2 (0x4000 ||| (a_ra a <<< 3) ||| (op <<< 6) ||| a_rd a))
    | None => tcc_ice
    end
  else mret no_opcode.

Definition mrs_emit (base : Z) (a : thop_args) : thumb_opcode :=
  let sysm := a_rm a in
  let rd := a_rd a in
  mk_opcode 4 (base ||| (rd <<< 8) ||| sysm).

Definition msr_emit (base : Z) (a : thop_args) : thumb_opcode :=
  let sysm := a_rm a in
  let rn := a_rd a in
  let mask := a_imm a in
  mk_opcode 4 (base ||| (rn <<< 16) ||| (mask <<< 10) ||| sysm).

Definition mvn_imm_emit `{MRet M, MBind M, EncOps M} (base : Z) (a : thop_args) : M thumb_opcode :=
  let S := b2z (bool_decide (a_flags a = FLAGS_BEHAVIOUR_SET)) in
  packed ← pack_const (a_imm a);
  if Z.eqb packed 0 && negb (Z.eqb (a_imm a) 0) then mret no_opcode
  else mret (mk_opcode 4 (base ||| (S <<< 20) ||| (a_rd a <<< 8) ||| packed)).

(** ** Multiply, shifts, CLZ, TT *)

Definition mul_t16_emit (base : Z) (a : thop_args) : thumb_opcode :=
  mk_opcode 2 (base ||| ((a_rd a &&& 7) <<< 0) ||| ((a_rm a &&& 7) <<< 3)).

Definition long_mul_emit (base : Z) (a : thop_args) : thumb_opcode :=
  mk_opcode 4 (base ||| (a_rd a <<< 8) ||| (a_rn a <<< 16) ||| (a_rm a <<< 0) ||| (a_ra a <<< 12)).

Definition shift_reg_t1_emit (base : Z) (a : thop_args) : thumb_opcode :=
  mk_opcode 2 (base ||| (a_rm a <<< 3) ||| (a_rd a &&& 0x7)).

Definition clz_emit (base : Z) (a : thop_args) : thumb_opcode :=
  mk_opcode 4 (base ||| (a_rm a <<< 16) ||| (a_rd a <<< 8) ||| a_rm a).

Definition tt_emit (base : Z) (a : thop_args) : thumb_opcode :=
  let op := base ||| (a_rn a <<< 16) ||| (a_rd a <<< 8) in
  let op := if truth (a_imm a) then op ||| 0x0080 else op in
  let op := if truth (a_imm2 a) then op ||| 0x0040 else op in
  mk_opcode 4 op.

(** ** VFP ([thop_vfp.c]) *)

(** The [D] and [Vd] halves of a single and of a double register number. *)
Definition vfp_pack_sp (reg : Z) : Z * Z := (reg &&& 1, (reg >>> 1) &&& 0xf).
Definition vfp_pack_dp (reg : Z) : Z * Z := ((reg >>> 4) &&& 1, reg &&& 0xf).

Definition vfp_arith3_emit (base : Z) (a : thop_args) : thumb_opcode :=
  let pack := if truth (base &&& (1 <<< 8)) then vfp_pack_dp else vfp_pack_sp in
  let '(D, Vd) := pack (a_rd a) in
  let '(N, Vn) := pack (a_rn a) in
  let '(M, Vm) := pack (a_rm a) in
  mk_opcode 4 (base ||| (D <<< 22) ||| (Vn <<< 16) ||| (Vd <<< 12) ||| (N <<< 7) ||| (M <<< 5) ||| Vm).

Definition vfp_arith2_emit (base : Z) (a : thop_args) : thumb_opcode :=
  let pack := if truth (base &&& (1 <<< 8)) then vfp_pack_dp else vfp_pack_sp in
  let '(D, Vd) := pack (a_rd a) in
  let '(M, Vm) := pack (a_rm a) in
  mk_opcode 4 (base ||| (D <<< 22) ||| (Vd <<< 12) ||| (M <<< 5) ||| Vm).

Definition vmov_reg_emit (base : Z) (a : thop_args) : thumb_opcode :=
  let pack := if truth (base &&& (1 <<< 8)) then vfp_pack_dp else vfp_pack_sp in
  let '(D, Vd) := pack (a_rd a) in
  let '(M, Vm) := pack (a_rm a) in
  mk_opcode 4 (base ||| (D <<< 22) ||| (Vd <<< 12) ||| (M <<< 5) ||| Vm).

(** The two loops over the 32 bits of the register list: the lowest set bit
    (0 when there is none) and the number of set bits. *)
Fixpoint first_set_loop (fuel : nat) (regs i : Z) : Z :=
  match fuel with
  | O => 0
  | S fuel =>
      if Z.ltb i 32 then
        if truth (regs &&& (1 <<< i)) then i else first_set_loop fuel regs (i + 1)
      else 0
  end.

Fixpoint count_set_loop (fuel : nat) (regs i count : Z) : Z :=
  match fuel with
  | O => count
  | S fuel =>
      if Z.ltb i 32 then
        count_set_loop fuel regs (i + 1) (if truth (regs &&& (1 <<< i)) then count + 1 else count)
      else count
  end.

Definition vfp_pushpop_emit (base : Z) (a : thop_args) : thumb_opcode :=
  let regs := a_imm a in
  let is_doubleword := (base >>> 8) &&& 1 in
  let first_register := first_set_loop 33 regs 0 in
  let register_count := count_set_loop 33 regs 0 0 in
  let '(D, Vd, register_count) :=
    if truth is_doubleword then
      ((first_register >>> 4) &&& 1, first_register &&& 0xf, Z.shiftl register_count 1)
    else (first_register &&& 1, (first_register >>> 1) &&& 0xf, register_count) in
  mk_opcode 4 (base ||| (D <<< 22) ||| (Vd <<< 12) ||| (register_count &&& 0xff)).

Definition vfp_ldst_emit (base : Z) (a : thop_args) : thumb_opcode :=
  let '(D, Vd) :=
    if truth (base &&& (1 <<< 8)) then vfp_pack_dp (a_rd a) else vfp_pack_sp (a_rd a) in
  let op := base ||| (D <<< 22) ||| (a_rn a <<< 16) ||| (Vd <<< 12) ||| (a_imm a &&& 0xff) in
  let op := if Z.eqb (a_imm2 a) 0 then op &&& ~~~ (1 <<< 23) else op in
  mk_opcode 4 op.

Definition vmov_gp_sp_emit (base : Z) (a : thop_args) : thumb_opcode :=
  let Vn := (a_rn a >>> 1) &&& 0xf in
  let N := a_rn a &&& 1 in
  mk_opcode 4 (base ||| (a_imm2 a <<< 20) ||| (a_rd a <<< 12) ||| (Vn <<< 16) ||| (N <<< 7)).

Definition vmov_2gp_dp_emit (base : Z) (a : thop_args) : thumb_opcode :=
  let M := (a_rm a >>> 4) &&& 1 in
  let Vm := a_rm a &&& 0xf in
  mk_opcode 4 (base ||| (a_imm2 a <<< 20) ||| (a_rn a <<< 16) ||| (a_rd a <<< 12) ||| (M <<< 5) ||| Vm).

Definition vcvt_fd_emit (base : Z) (a : thop_args) : thumb_opcode :=
  let D := (a_rd a >>> 4) &&& 1 in
  let Vd := a_rd a &&& 0xf in
  let M := a_rm a &&& 1 in
  let Vm := (a_rm a >>> 1) &&& 0xf in
  mk_opcode 4 (base ||| (D <<< 22) ||| (Vd <<< 12) ||| (M <<< 5) ||| Vm).

Definition vcvt_df_emit (base : Z) (a : thop_args) : thumb_opcode :=
  let D := a_rd a &&& 1 in
  let Vd := (a_rd a >>> 1) &&& 0xf in
  let M := (a_rm a >>> 4) &&& 1 in
  let Vm := a_rm a &&& 0xf in
  mk_opcode 4 (base ||| (D <<< 22) ||| (Vd <<< 12) ||| (M <<< 5) ||| Vm).

Definition vcvt_fp_int_emit (base : Z) (a : thop_args) : thumb_opcode :=
  let sz := (base >>> 8) &&& 1 in
  let is_fp_to_int := negb (Z.eqb (a_imm a) 0) in
  let op_bit := b2z is_fp_to_int ||| a_imm2 a in
  let '(D, Vd) :=
    if is_fp_to_int then vfp_pack_sp (a_rd a)
    else if Z.eqb sz 0 then vfp_pack_sp (a_rd a) else vfp_pack_dp (a_rd a) in
  let '(M, Vm) :=
    if is_fp_to_int && Z.eqb sz 1 then vfp_pack_dp (a_rm a) else vfp_pack_sp (a_rm a) in
  mk_opcode 4 (base ||| (D <<< 22) ||| (Vd <<< 12) ||| (a_imm a <<< 16) ||| (op_bit <<< 7) |||
    0x40 ||| (M <<< 5) ||| Vm).

(** ** Dispatch *)

Definition thop_call_custom `{MRet M, MBind M, EncOps M}
    (id : thop_custom_id) (base : Z) (a : thop_args) : M thumb_opcode :=
  match id with
  | THOP_CUSTOM_bl_t1_emit => mret (bl_t1_emit base a)
  | THOP_CUSTOM_b_t3_emit => mret (b_t3_emit base a)
  | THOP_CUSTOM_b_t4_emit => mret (b_t4_emit base a)
  | THOP_CUSTOM_b_t2_emit => mret (b_t2_emit base a)
  | THOP_CUSTOM_cbz_emit => mret (cbz_emit base a)
  | THOP_CUSTOM_cmp_reg_t2_custom_emit => mret (cmp_reg_t2_custom_emit base a)
  | THOP_CUSTOM_coproc_cdp_emit => mret (coproc_cdp_emit base a)
  | THOP_CUSTOM_coproc_mcr_emit => mret (coproc_mcr_emit base a)
  | THOP_CUSTOM_coproc_mcrr_emit => mret (coproc_mcrr_emit base a)
  | THOP_CUSTOM_pkhbt_emit => mret (pkhbt_emit base a)
  | THOP_CUSTOM_ldr_literal_emit => mret (ldr_literal_emit base a)
  | THOP_CUSTOM_ldrd_imm_emit => mret (ldrd_imm_emit base a)
  | THOP_CUSTOM_mov_reg_t1_shift_emit => mret (mov_reg_t1_shift_emit base a)
  | THOP_CUSTOM_mov_imm_t1_emit => mret (mov_imm_t1_emit base a)
  | THOP_CUSTOM_mov_reg_shift_t1_emit => mov_reg_shift_t1_emit base a
  | THOP_CUSTOM_mrs_emit => mret (mrs_emit base a)
  | THOP_CUSTOM_msr_emit => mret (msr_emit base a)
  | THOP_CUSTOM_mul_t16_emit => mret (mul_t16_emit base a)
  | THOP_CUSTOM_long_mul_emit => mret (long_mul_emit base a)
  | THOP_CUSTOM_mvn_imm_emit => mvn_imm_emit base a
  | THOP_CUSTOM_shift_reg_t1_emit => mret (shift_reg_t1_emit base a)
  | THOP_CUSTOM_clz_emit => mret (clz_emit base a)
  | THOP_CUSTOM_tt_emit => mret (tt_emit base a)
  | THOP_CUSTOM_vfp_arith3_emit => mret (vfp_arith3_emit base a)
  | THOP_CUSTOM_vfp_arith2_emit => mret (vfp_arith2_emit base a)
  | THOP_CUSTOM_vmov_reg_emit => mret (vmov_reg_emit base a)
  | THOP_CUSTOM_vfp_pushpop_emit => mret (vfp_pushpop_emit base a)
  | THOP_CUSTOM_vfp_ldst_emit => mret (vfp_ldst_emit base a)
  | THOP_CUSTOM_vmov_gp_sp_emit => mret (vmov_gp_sp_emit base a)
  | THOP_CUSTOM_vmov_2gp_dp_emit => mret (vmov_2gp_dp_emit base a)
  | THOP_CUSTOM_vcvt_fd_emit => mret (vcvt_fd_emit base a)
  | THOP_CUSTOM_vcvt_df_emit => mret (vcvt_df_emit base a)
  | THOP_CUSTOM_vcvt_fp_int_emit => mret (vcvt_fp_int_emit base a)
  | THOP_CUSTOM_NONE => mret no_opcode
  end.

Lemma refines_call_custom id base a :
  refines (thop_call_custom id base a) (thop_call_custom id base a).
Proof.
  destruct id; cbn [thop_call_custom]; unfold mov_reg_shift_t1_emit, mvn_imm_emit; refine_enc.
Qed.
#[export] Hint Resolve refines_call_custom : refine_enc.
