(* ===== verification/ThumbEngine.v ===== *)
(** * The encoding engine ([thop_emit_in] of [thumb.c], helpers of [thumb.h])

    The engine walks a table's variants and returns the first whose guards,
    immediate and register-list constraints hold.  It is written once over
    [EncOps] and used at two monads: [Enc], the code with its constant cache, and
    [Pure], the reference without one.  The theorems: the code refines the
    reference; what is returned comes from an admissible variant; nothing is
    returned only when every variant rejects; and the operand fields of a
    well-laid-out word read back as the operands. *)

From S2P Require Import Prelude BitReflect ArmDecode ThumbTypes ThumbShapes ThumbPack ThumbCustom.
Local Open Scope Z_scope.
Local Open Scope c_scope.

(** ** Helpers of [thumb.h] *)

Definition thop_reg_ok (reg con : Z) : bool :=
  if truth (con &&& REG_LOW_ONLY) && Z.ltb 7 reg then false
  else if truth (con &&& REG_NOT_SP) && Z.eqb reg 13 then false
  else if truth (con &&& REG_NOT_PC) && Z.eqb reg 15 then false
  else if truth (con &&& REG_NOT_LR) && Z.eqb reg 14 then false
  else if truth (con &&& REG_SP_ONLY) && negb (Z.eqb reg 13) then false
  else if truth (con &&& REG_PC_ONLY) && negb (Z.eqb reg 15) then false
  else true.

Definition thop_place (val : Z) (f : bitfield) : Z :=
  if Z.eqb (bf_width f) 0 then 0
  else (val &&& u32 ((1 <<< bf_width f) - 1)) <<< bf_shift f.

Definition thop_feat32_subset (sub sup : Z) : bool := Z.eqb (sub &&& u32 sup) sub.

Section Engine.
Context `{MRet M, MBind M, !EncOps M}.

(** [thop_try_imm]: the immediate's bits, [None] when it does not fit. *)
Definition thop_try_imm (s : thop_variant_shape) (imm : Z) : M (option Z) :=
  let spec := s_imm s in
  if bool_decide (is_kind spec = IMM_NONE) then mret (if Z.eqb imm 0 then Some 0 else None)
  else
    let simm := s32 imm in
    if is_is_signed spec && Z.leb 0 simm then mret None
    else
      let scaled := if is_is_signed spec then u32 (- simm) else imm in
      let mask := u32 ((1 <<< is_scale_log2 spec) - 1) in
      if Z.ltb 0 (is_scale_log2 spec) && truth (scaled &&& mask) then mret None
      else
        let scaled := if Z.ltb 0 (is_scale_log2 spec) then scaled >>> is_scale_log2 spec else scaled in
        match is_kind spec with
        | IMM_RAW =>
            if Z.leb (1 <<< is_width spec) scaled then mret None
            else mret (Some (thop_place scaled (s_imm_place s)))
        | IMM_PACK_CONST =>
            packed ← pack_const imm;
            mret (if negb (truth packed) && negb (Z.eqb imm 0) then None else Some packed)
        | IMM_PACK_3_8_1 =>
            if (if truth (is_width spec) then Z.leb (1 <<< is_width spec) scaled else Z.ltb 0xFFFF scaled)
            then mret None
            else mret (Some (th_packimm_3_8_1 scaled))
        | IMM_PACK_10_11_0 => mret (Some (th_packimm_10_11_0 imm))
        | _ => mret None
        end.

(** The guards before the immediate: features, forced size, registers, flags,
    shift, P/U/W. *)
Definition thop_guards (feat : Z) (s : thop_variant_shape) (a : thop_args) : bool :=
  let set := bool_decide (a_flags a = FLAGS_BEHAVIOUR_SET) in
  let block := bool_decide (a_flags a = FLAGS_BEHAVIOUR_BLOCK) in
  let used place con := truth (bf_width place) || truth con in
  if negb (thop_feat32_subset (s_feat s) feat) then false
  else if bool_decide (a_enc a = ENFORCE_ENCODING_16BIT)
          && negb (bool_decide (s_size s = THOP_VARIANT_T16)) then false
  else if bool_decide (a_enc a = ENFORCE_ENCODING_32BIT)
          && negb (bool_decide (s_size s = THOP_VARIANT_T32)) then false
  else if used (s_rd_place s) (s_rd_con s) && negb (thop_reg_ok (a_rd a) (s_rd_con s)) then false
  else if used (s_rn_place s) (s_rn_con s) && negb (thop_reg_ok (a_rn a) (s_rn_con s)) then false
  else if used (s_rm_place s) (s_rm_con s) && negb (thop_reg_ok (a_rm a) (s_rm_con s)) then false
  else if used (s_ra_place s) (s_ra_con s) && negb (thop_reg_ok (a_ra a) (s_ra_con s)) then false
  else if truth (s_rd_con s &&& REG_EQ_RN) && negb (Z.eqb (a_rd a) (a_rn a)) then false
  else if truth (s_rd_con s &&& REG_EQ_RM) && negb (Z.eqb (a_rd a) (a_rm a)) then false
  else if set && negb (s_has_s_bit s) && negb (s_implicit_s s) then false
  else if block && s_implicit_s s then false
  else if s_forbid_s_in_it s && a_in_it_block a && set then false
  else if s_implicit_s s && a_in_it_block a then false
  else if negb (bool_decide (sh_type (a_shift a) = THUMB_SHIFT_NONE)) &&
          (let has_shift_fields := truth (bf_width (s_shift_type_bits s)) ||
             truth (bf_width (s_shift_imm2_bits s)) || truth (bf_width (s_shift_imm3_bits s)) in
           (negb has_shift_fields && Z.eqb (s_shift_allowed s) 0) ||
           (negb (Z.eqb (s_shift_allowed s) 0) &&
            negb (truth (s_shift_allowed s &&& (1 <<< shift_type_val (sh_type (a_shift a)))))))
       then false
  else if Z.eqb (bf_width (s_puw_bits s)) 0 && negb (Z.eqb (s_puw_fixed s) 0) &&
          negb (Z.eqb (a_puw a) (s_puw_fixed s)) then false
  else true.

(** The register-list constraints on [rm]. *)
Definition thop_regset_ok (s : thop_variant_shape) (a : thop_args) : bool :=
  if truth (s_rm_con s &&& REG_LOW_REGSET) && truth (a_rm a &&& ~~~ 0xff) then false
  else if truth (s_rm_con s &&& REG_RM_BIT_NOT_SP) && truth (a_rm a &&& (1 <<< 13)) then false
  else if truth (s_rm_con s &&& REG_RM_BITS_NOT_LR_PC)
          && truth (a_rm a &&& ((1 <<< 14) ||| (1 <<< 15))) then false
  else true.

(** [if (c) op |= x;] *)
Definition or_if (c : bool) (x op : Z) : Z := if c then op ||| x else op.

(** The word of a variant encoded by its shape. *)
Definition thop_encode (s : thop_variant_shape) (base imm_bits : Z) (a : thop_args) : Z :=
  let rm_for_place :=
    if truth (bf_width (s_rm_raw_place s)) && truth (a_exclude_bit a)
    then a_rm a &&& ~~~ (1 <<< a_exclude_bit a) else a_rm a in
  let shift := a_shift a in
  let op := base in
  let op := op ||| thop_place (a_rd a) (s_rd_place s) in
  let op := or_if (s_has_rd_hi s) (thop_place (a_rd a >>> bf_width (s_rd_place s)) (bf 7 1)) op in
  let op := op ||| thop_place (a_rn a) (s_rn_place s) in
  let op := op ||| thop_place (a_rm a) (s_rm_place s) in
  let op := op ||| thop_place (a_ra a) (s_ra_place s) in
  let op := op ||| imm_bits in
  let dn := (a_rd a >>> 3) &&& 1 in
  let has_dn := truth (bf_width (s_dn_rd_split s)) in
  let op := or_if has_dn (thop_place dn (bf 7 1)) op in
  let op := or_if has_dn (thop_place (a_rd a &&& u32 ((1 <<< bf_width (s_dn_rd_split s)) - 1))
                            (s_dn_rd_split s)) op in
  let op := or_if (s_has_s_bit s && bool_decide (a_flags a = FLAGS_BEHAVIOUR_SET)) (1 <<< 20) op in
  let op := or_if (truth (bf_width (s_shift_type_bits s)))
              (thop_place (th_shift_value_to_sr_type shift) (s_shift_type_bits s)) op in
  let op := or_if (truth (bf_width (s_shift_imm2_bits s)))
              (thop_place (sh_value shift &&& 0x3) (s_shift_imm2_bits s)) op in
  let op := or_if (truth (bf_width (s_shift_imm3_bits s)))
              (thop_place ((sh_value shift >>> 2) &&& 0x7) (s_shift_imm3_bits s)) op in
  let op := or_if (truth (bf_width (s_imm2_place s))) (thop_place (a_imm2 a) (s_imm2_place s)) op in
  let op := or_if (truth (bf_width (s_split_imm2_place s)))
              (thop_place (a_imm a &&& 0x3) (s_split_imm2_place s)) op in
  let op := or_if (truth (bf_width (s_split_imm3_place s)))
              (thop_place ((a_imm a >>> 2) &&& 0x7) (s_split_imm3_place s)) op in
  let op := or_if (truth (bf_width (s_puw_bits s))) (thop_place (a_puw a &&& 0x7) (s_puw_bits s)) op in
  or_if (truth (bf_width (s_rm_raw_place s))) (thop_place rm_for_place (s_rm_raw_place s)) op.

(** One iteration of the loop: the opcode, or [None] to go on. *)
Definition thop_try_variant (shapes : thop_shape_id -> thop_variant_shape)
    (v : thop_variant) (a : thop_args) : M (option thumb_opcode) :=
  let s := shapes (v_shape v) in
  feat ← get_feat;
  if negb (thop_guards feat s a) then mret None
  else
    imm ← (if bool_decide (is_kind (s_imm s) = IMM_NONE) then mret (Some 0)
           else thop_try_imm s (a_imm a));
    match imm with
    | None => mret None
    | Some imm_bits =>
        if negb (thop_regset_ok s a) then mret None
        else if negb (is_custom_none v) then
          r ← thop_call_custom (v_custom v) (v_base v) a;
          mret (if truth (op_size r) then Some r else None)
        else mret (Some (mk_opcode (size_val (s_size s)) (thop_encode s (v_base v) imm_bits a)))
    end.

(** [thop_emit_error_in]: the diagnostics go to stderr; the result is empty.  (Describing the
    operands the source may pack a constant once more, which at most fills a cache entry
    with what it would hold anyway.) *)
Definition thop_emit_error_in : M thumb_opcode := mret no_opcode.

Fixpoint thop_emit_in (shapes : thop_shape_id -> thop_variant_shape)
    (table : list thop_variant) (a : thop_args) : M thumb_opcode :=
  match table with
  | [] => thop_emit_error_in
  | v :: table =>
      r ← thop_try_variant shapes v a;
      match r with
      | Some op => mret op
      | None => thop_emit_in shapes table a
      end
  end.

Definition thop_emit (table : list thop_variant) (a : thop_args) : M thumb_opcode :=
  thop_emit_in thop_shapes table a.

(** The variants before the terminator. *)
Fixpoint table_variants (vs : list thop_variant) : list thop_variant :=
  match vs with
  | [] => []
  | v :: vs => if is_end v then [] else v :: table_variants vs
  end.

Definition thop_emit_table (t : thop_table) (a : thop_args) : M thumb_opcode :=
  thop_emit (table_variants (t_variants t)) a.

End Engine.

(** ** The code refines the reference *)

Lemma refines_try_imm s imm : refines (thop_try_imm s imm) (thop_try_imm s imm).
Proof. unfold thop_try_imm. refine_enc. Qed.
#[export] Hint Resolve refines_try_imm : refine_enc.

Lemma refines_try_variant shapes v a :
  refines (thop_try_variant shapes v a) (thop_try_variant shapes v a).
Proof. unfold thop_try_variant. refine_enc. Qed.
#[export] Hint Resolve refines_try_variant : refine_enc.

Lemma refines_emit_in shapes table a :
  refines (thop_emit_in shapes table a) (thop_emit_in shapes table a).
Proof.
  induction table as [|v table IH]; cbn [thop_emit_in]; unfold thop_emit_error_in; refine_enc.
Qed.
#[export] Hint Resolve refines_emit_in : refine_enc.

Lemma refines_emit_table t a : refines (thop_emit_table t a) (thop_emit_table t a).
Proof. apply refines_emit_in. Qed.
#[export] Hint Resolve refines_emit_table : refine_enc.

(** ** What a returned opcode says *)

(** [v] yields [op] for the operands on a target with features [feat]; [v] is
    passed over. *)
Definition accepts (feat : Z) (v : thop_variant) (a : thop_args) (op : thumb_opcode) : Prop :=
  thop_try_variant (M := Pure) thop_shapes v a feat = Some (Some op).
Definition rejects (feat : Z) (v : thop_variant) (a : thop_args) : Prop :=
  thop_try_variant (M := Pure) thop_shapes v a feat = Some None.

(** The reference engine returns the first acceptance, or the empty opcode when
    every variant rejects. *)
Lemma emit_pure_inv feat table a op :
  thop_emit_in (M := Pure) thop_shapes table a feat = Some op ->
  (exists pre v post, table = pre ++ v :: post /\ Forall (fun w => rejects feat w a) pre /\
     accepts feat v a op) \/
  (op = no_opcode /\ Forall (fun w => rejects feat w a) table).
Proof.
  induction table as [|v table IH]; cbn [thop_emit_in].
  - intros [= <-]. by right.
  - unfold mbind, Pure_bind.
    destruct (thop_try_variant (M := Pure) thop_shapes v a feat) as [[o|]|] eqn:Hv; [| |done].
    + intros [= <-]. left. exists [], v, table. split_and!; [done|by constructor|done].
    + intros [(pre & w & post & -> & Hpre & Hw)|[-> Hall]]%IH.
      * left. exists (v :: pre), w, post. split_and!; [done|by constructor|done].
      * right. split; [done|by constructor].
Qed.

Lemma emit_table_returns t a st op st' :
  state_ok st -> thop_emit_table (M := Enc) t a st = Some (op, st') ->
  thop_emit_table (M := Pure) t a (target_feat st) = Some op /\
  state_ok st' /\ target_feat st' = target_feat st.
Proof.
  intros Hst Hrun. pose proof (refines_emit_table t a st Hst) as Href.
  destruct (thop_emit_table (M := Pure) t a (target_feat st)) as [o|].
  - destruct Href as (st'' & Hm & Hok & Hf). rewrite Hrun in Hm. by simplify_eq.
  - by rewrite Hrun in Href.
Qed.

(** The immediate's bits, as the loop body computes them. *)
Definition imm_bits (feat : Z) (s : thop_variant_shape) (a : thop_args) : option (option Z) :=
  if bool_decide (is_kind (s_imm s) = IMM_NONE) then Some (Some 0)
  else thop_try_imm (M := Pure) s (a_imm a) feat.

(** The loop body at the reference monad, without the monad. *)
Lemma try_variant_pure v a feat :
  let s := thop_shapes (v_shape v) in
  thop_try_variant (M := Pure) thop_shapes v a feat =
  if negb (thop_guards feat s a) then Some None
  else match imm_bits feat s a with
       | None => None
       | Some None => Some None
       | Some (Some bits) =>
           if negb (thop_regset_ok s a) then Some None
           else if is_custom_none v
           then Some (Some (mk_opcode (size_val (s_size s)) (thop_encode s (v_base v) bits a)))
           else match thop_call_custom (M := Pure) (v_custom v) (v_base v) a feat with
                | Some r => Some (if truth (op_size r) then Some r else None)
                | None => None
                end
       end.
Proof.
  intros s. unfold thop_try_variant. rewrite pure_bind_eq. cbn [get_feat Pure_ops].
  change (thop_shapes (v_shape v)) with s. unfold imm_bits.
  destruct (thop_guards feat s a); [|done]. cbn [negb]. rewrite pure_bind_eq.
  destruct (bool_decide _).
  - change ((mret (Some 0) : Pure (option Z)) feat) with (Some (Some 0)). cbv iota beta.
    destruct (thop_regset_ok s a); [|done]. cbn [negb].
    destruct (is_custom_none v); [done|]. cbn [negb]. rewrite pure_bind_eq. done.
  - destruct (thop_try_imm (M := Pure) s (a_imm a) feat) as [[bits|]|]; [|done..].
    destruct (thop_regset_ok s a); [|done]. cbn [negb].
    destruct (is_custom_none v); [done|]. cbn [negb]. rewrite pure_bind_eq. done.
Qed.

Lemma accepts_inv feat v a op :
  accepts feat v a op ->
  let s := thop_shapes (v_shape v) in
  thop_guards feat s a = true /\ thop_regset_ok s a = true /\
  exists bits, imm_bits feat s a = Some (Some bits) /\
  if is_custom_none v
  then op = mk_opcode (size_val (s_size s)) (thop_encode s (v_base v) bits a)
  else thop_call_custom (M := Pure) (v_custom v) (v_base v) a feat = Some op /\ op_size op <> 0.
Proof.
  unfold accepts. rewrite try_variant_pure. cbv zeta. set (s := thop_shapes (v_shape v)). intros H.
  destruct (thop_guards feat s a); [|done]. cbn [negb] in H.
  destruct (imm_bits feat s a) as [[bits|]|]; [|done..].
  destruct (thop_regset_ok s a); [|done]. cbn [negb] in H.
  split_and!; [done..|]. exists bits. split; [done|].
  destruct (is_custom_none v); [by simplify_eq|].
  destruct (thop_call_custom (M := Pure) _ _ _ feat) as [r|]; [|done].
  destruct (truth (op_size r)) eqn:Hs; simplify_eq. by apply truth_true in Hs.
Qed.

(** A variant encoded by its shape is passed over only for one of its conditions. *)
Lemma rejects_inv feat v a bits :
  rejects feat v a -> is_custom_none v = true ->
  let s := thop_shapes (v_shape v) in
  thop_guards feat s a = true -> thop_regset_ok s a = true ->
  imm_bits feat s a = Some (Some bits) -> False.
Proof.
  unfold rejects. rewrite try_variant_pure. cbv zeta. intros H Hc Hg Hr Hb.
  by rewrite Hg, Hb, Hr, Hc in H.
Qed.

(** ** The guards as facts *)

Record guard_facts (feat : Z) (s : thop_variant_shape) (a : thop_args) : Prop := {
  gf_feat : thop_feat32_subset (s_feat s) feat = true;
  gf_16 : a_enc a = ENFORCE_ENCODING_16BIT -> s_size s = THOP_VARIANT_T16;
  gf_32 : a_enc a = ENFORCE_ENCODING_32BIT -> s_size s = THOP_VARIANT_T32;
  gf_rd : truth (bf_width (s_rd_place s)) || truth (s_rd_con s) = true ->
          thop_reg_ok (a_rd a) (s_rd_con s) = true;
  gf_rn : truth (bf_width (s_rn_place s)) || truth (s_rn_con s) = true ->
          thop_reg_ok (a_rn a) (s_rn_con s) = true;
  gf_rm : truth (bf_width (s_rm_place s)) || truth (s_rm_con s) = true ->
          thop_reg_ok (a_rm a) (s_rm_con s) = true;
  gf_ra : truth (bf_width (s_ra_place s)) || truth (s_ra_con s) = true ->
          thop_reg_ok (a_ra a) (s_ra_con s) = true;
  gf_eq_rn : truth (s_rd_con s &&& REG_EQ_RN) = true -> a_rd a = a_rn a;
  gf_eq_rm : truth (s_rd_con s &&& REG_EQ_RM) = true -> a_rd a = a_rm a;
  gf_set : a_flags a = FLAGS_BEHAVIOUR_SET -> s_has_s_bit s || s_implicit_s s = true;
  gf_block : a_flags a = FLAGS_BEHAVIOUR_BLOCK -> s_implicit_s s = false;
  gf_it : s_implicit_s s = true -> a_in_it_block a = false;
  gf_shift : sh_type (a_shift a) <> THUMB_SHIFT_NONE ->
    (truth (bf_width (s_shift_type_bits s)) || truth (bf_width (s_shift_imm2_bits s)) ||
     truth (bf_width (s_shift_imm3_bits s)) = true \/ s_shift_allowed s <> 0) /\
    (s_shift_allowed s = 0 \/
     truth (s_shift_allowed s &&& (1 <<< shift_type_val (sh_type (a_shift a)))) = true);
  gf_puw : bf_width (s_puw_bits s) = 0 -> s_puw_fixed s <> 0 -> a_puw a = s_puw_fixed s;
}.

(** One guard passed: [if b then false else k] was true. *)
Lemma guard_step (b k : bool) : (if b then false else k) = true -> b = false /\ k = true.
Proof. by destruct b. Qed.

Lemma thop_guards_facts feat s a : thop_guards feat s a = true -> guard_facts feat s a.
Proof.
  unfold thop_guards. intros H.
  repeat match type of H with
  | (if _ then false else _) = true =>
      let G := fresh "G" in apply guard_step in H as [G H]
  end.
  apply negb_false_iff in G.
  constructor; [done|..].
  - intros E. rewrite (bool_decide_true (a_enc a = ENFORCE_ENCODING_16BIT)) in G0 by done.
    apply negb_false_iff in G0. by apply bool_decide_eq_true in G0.
  - intros E. rewrite (bool_decide_true (a_enc a = ENFORCE_ENCODING_32BIT)) in G1 by done.
    apply negb_false_iff in G1. by apply bool_decide_eq_true in G1.
  - intros E. rewrite E in G2. by apply negb_false_iff in G2.
  - intros E. rewrite E in G3. by apply negb_false_iff in G3.
  - intros E. rewrite E in G4. by apply negb_false_iff in G4.
  - intros E. rewrite E in G5. by apply negb_false_iff in G5.
  - intros E. rewrite E in G6. apply negb_false_iff in G6. by apply Z.eqb_eq in G6.
  - intros E. rewrite E in G7. apply negb_false_iff in G7. by apply Z.eqb_eq in G7.
  - intros E. rewrite bool_decide_true in G8 by done.
    by destruct (s_has_s_bit s), (s_implicit_s s).
  - intros E. by rewrite (bool_decide_true (a_flags a = FLAGS_BEHAVIOUR_BLOCK)) in G9 by done.
  - intros E. by rewrite E in G11.
  - intros E. rewrite bool_decide_false in G12 by done. simpl in G12.
    apply orb_false_iff in G12 as [Ga Gb]. split.
    + apply andb_false_iff in Ga as [Ga|Ga]; [left; by apply negb_false_iff in Ga|].
      right. by apply Z.eqb_neq in Ga.
    + apply andb_false_iff in Gb as [Gb|Gb]; apply negb_false_iff in Gb; [|by right].
      left. by apply Z.eqb_eq in Gb.
  - intros E E2. rewrite E in G13. apply Z.eqb_neq in E2. rewrite E2 in G13.
    apply negb_false_iff in G13. by apply Z.eqb_eq in G13.
Qed.

Record reg_facts (r con : Z) : Prop := {
  rf_low : truth (con &&& REG_LOW_ONLY) = true -> r <= 7;
  rf_not_sp : truth (con &&& REG_NOT_SP) = true -> r <> 13;
  rf_not_pc : truth (con &&& REG_NOT_PC) = true -> r <> 15;
  rf_sp : truth (con &&& REG_SP_ONLY) = true -> r = 13;
  rf_pc : truth (con &&& REG_PC_ONLY) = true -> r = 15;
}.

Lemma thop_reg_ok_facts r con : thop_reg_ok r con = true -> reg_facts r con.
Proof.
  unfold thop_reg_ok. intros H.
  repeat match type of H with
  | (if _ then false else _) = true =>
      let G := fresh "G" in apply guard_step in H as [G H]
  end.
  constructor; intros E.
  - rewrite E in G. simpl in G. lia.
  - rewrite E in G0. simpl in G0. lia.
  - rewrite E in G1. simpl in G1. lia.
  - rewrite E in G3. simpl in G3. lia.
  - rewrite E in G4. simpl in G4. lia.
Qed.

Lemma thop_place_eq v k w :
  0 < w < 32 -> thop_place v (bf k w) = Z.land (Z.shiftl (Z.land v (Z.ones w)) k) (Z.ones 32).
Proof.
  intros Hw. unfold thop_place, shl32; simpl.
  destruct (Z.eqb_spec w 0); [lia|]. unfold u32 at 1. do 3 f_equal.
  assert (Hp : 2 ^ w <= 2 ^ 31) by (apply Z.pow_le_mono_r; lia).
  assert (0 < 2 ^ w) by (apply Z.pow_pos_nonneg; lia).
  rewrite Z.shiftl_1_l, (u32_small (2 ^ w)), u32_small, Z.ones_equiv; lia.
Qed.

Lemma thop_place_0 v k : thop_place v (bf k 0) = 0.
Proof. done. Qed.
