(* ===== verification/ThumbOpsAlu.v ===== *)
(** * Data-processing instructions

    The tables and public wrappers of [thop_adr.c], [thop_alu_imm.c], [thop_alu_reg.c], [thop_bitfield.c],
    [thop_cmp.c], [thop_extend.c], [thop_mov.c], [thop_mvn.c], [thop_mul.c], [thop_rev.c],
    [thop_shift_imm.c] and [thop_shift_reg.c], one definition per [TH_TABLE],
    function-generating macro and function, over the monad of the engine. *)

From stdpp Require Import strings.
From S2P Require Import Prelude ThumbTypes ThumbShapes ThumbPack ThumbCustom ThumbEngine.
Local Open Scope Z_scope.
Local Open Scope c_scope.

Section Wrappers.
Context `{MRet M, MBind M, !EncOps M}.

(** ** [thop_adr.c] *)

Definition TH_ADR_IMM : thop_table := TH_TABLE "adr"
  [V THOP_SHAPE_ADR_T1 0xa000;
   V THOP_SHAPE_ADR_T3 0xf20f0000;
   V THOP_SHAPE_ADR_T4 0xf2af0000].

Definition th_adr_imm (rd imm : Z) (encoding : thumb_enforce_encoding) : M thumb_opcode :=
  thop_emit_table TH_ADR_IMM (mk_thop_args [with_rd rd; with_imm (u32 imm); with_enc encoding]).

(** ** [thop_alu_imm.c] *)

Definition THOP_ALU_IMM_FN (table_id : thop_table) (rd rn imm : Z) (flags : thumb_flags_behaviour) (enc : thumb_enforce_encoding) : M thumb_opcode :=
  thop_emit_table table_id (mk_thop_args [with_rd rd; with_rn rn; with_imm imm; with_flags
    flags; with_enc enc]).

Definition THOP_ALU_WIDE_FN (fn_name : string) (base32 rd rn imm : Z) : M thumb_opcode :=
  let _t := TH_TABLE fn_name [V THOP_SHAPE_T32_IMM12 base32] in
  thop_emit_table _t (mk_thop_args [with_rd rd; with_rn rn; with_imm imm; with_enc ENFORCE_ENCODING_32BIT]).

Definition TH_ADD_IMM : thop_table := TH_TABLE "add"
  [V THOP_SHAPE_T16_IMM8 0x3000;
   V THOP_SHAPE_T16_IMM3 0x1C00;
   V THOP_SHAPE_T16_ADD_SP_IMM 0xb000;
   V THOP_SHAPE_T16_ADD_SP_IMM8 0xa800;
   V THOP_SHAPE_T32_MOD_IMM 0xF1000000;
   V THOP_SHAPE_T32_IMM12 0xF2000000].

Definition th_add_imm := THOP_ALU_IMM_FN TH_ADD_IMM.

Definition th_addw := THOP_ALU_WIDE_FN "th_addw" 0xF2000000.

Definition TH_SUB_IMM : thop_table := TH_TABLE "sub"
  [V THOP_SHAPE_T16_IMM8 0x3800;
   V THOP_SHAPE_T16_IMM3 0x1E00;
   V THOP_SHAPE_T16_SUB_SP_IMM 0xb080;
   V THOP_SHAPE_T32_MOD_IMM 0xF1A00000;
   V THOP_SHAPE_T32_IMM12 0xF2A00000].

Definition th_sub_imm := THOP_ALU_IMM_FN TH_SUB_IMM.

Definition th_subw := THOP_ALU_WIDE_FN "th_subw" 0xF2A00000.

Definition TH_RSB_IMM : thop_table := TH_TABLE "rsb"
  [V THOP_SHAPE_T32_MOD_IMM 0xF1C00000].

Definition th_rsb_imm := THOP_ALU_IMM_FN TH_RSB_IMM.

Definition TH_ADC_IMM : thop_table := TH_TABLE "adc"
  [V THOP_SHAPE_T32_MOD_IMM 0xF1400000].

Definition th_adc_imm := THOP_ALU_IMM_FN TH_ADC_IMM.

Definition TH_SBC_IMM : thop_table := TH_TABLE "sbc"
  [V THOP_SHAPE_T32_MOD_IMM 0xF1600000].

Definition th_sbc_imm := THOP_ALU_IMM_FN TH_SBC_IMM.

Definition TH_AND_IMM : thop_table := TH_TABLE "and"
  [V THOP_SHAPE_T32_MOD_IMM 0xF0000000].

Definition th_and_imm := THOP_ALU_IMM_FN TH_AND_IMM.

Definition TH_BIC_IMM : thop_table := TH_TABLE "bic"
  [V THOP_SHAPE_T32_MOD_IMM 0xF0200000].

Definition th_bic_imm := THOP_ALU_IMM_FN TH_BIC_IMM.

Definition TH_ORR_IMM : thop_table := TH_TABLE "orr"
  [V THOP_SHAPE_T32_MOD_IMM 0xF0400000].

Definition th_orr_imm := THOP_ALU_IMM_FN TH_ORR_IMM.

Definition TH_ORN_IMM : thop_table := TH_TABLE "orn"
  [V THOP_SHAPE_T32_MOD_IMM 0xF0600000].

Definition th_orn_imm := THOP_ALU_IMM_FN TH_ORN_IMM.

Definition TH_EOR_IMM : thop_table := TH_TABLE "eor"
  [V THOP_SHAPE_T32_MOD_IMM 0xF0800000].

Definition th_eor_imm := THOP_ALU_IMM_FN TH_EOR_IMM.

(** ** [thop_alu_reg.c] *)

Definition thop_alu_reg (rd rn rm : Z) (flags : thumb_flags_behaviour) (shift : thumb_shift) (enc : thumb_enforce_encoding) (table : thop_table) : M thumb_opcode :=
  thop_emit_table table (mk_thop_args [with_rd rd; with_rn rn; with_rm rm; with_flags flags;
    with_shift shift; with_enc enc]).

Definition THOP_ALU_REG_FN (table_id : thop_table) (rd rn rm : Z) (flags : thumb_flags_behaviour) (shift : thumb_shift) (enc : thumb_enforce_encoding) : M thumb_opcode :=
  thop_alu_reg rd rn rm flags shift enc table_id.

Definition TH_ADD_REG : thop_table := TH_TABLE "add"
  [V THOP_SHAPE_T16_REG3 0x1800;
   V THOP_SHAPE_T16_ADD_SP_REG 0x4400;
   V THOP_SHAPE_T16_ADD_T2 0x4400;
   V THOP_SHAPE_T32_REG_SHIFT 0xEB000000].

Definition th_add_reg := THOP_ALU_REG_FN TH_ADD_REG.

Definition TH_SUB_REG : thop_table := TH_TABLE "sub"
  [V THOP_SHAPE_T16_REG3 0x1a00;
   V THOP_SHAPE_T32_REG_SHIFT 0xEBA00000].

Definition th_sub_reg := THOP_ALU_REG_FN TH_SUB_REG.

Definition TH_RSB_REG : thop_table := TH_TABLE "rsb"
  [V THOP_SHAPE_T32_REG_SHIFT 0xEBC00000].

Definition th_rsb_reg := THOP_ALU_REG_FN TH_RSB_REG.

Definition TH_ADC_REG : thop_table := TH_TABLE "adc"
  [V THOP_SHAPE_T16_REG_RDN_RM 0x4140;
   V THOP_SHAPE_T32_REG_SHIFT 0xEB400000].

Definition th_adc_reg := THOP_ALU_REG_FN TH_ADC_REG.

Definition TH_SBC_REG : thop_table := TH_TABLE "sbc"
  [V THOP_SHAPE_T16_REG_RDN_RM 0x4180;
   V THOP_SHAPE_T32_REG_SHIFT 0xEB600000].

Definition th_sbc_reg := THOP_ALU_REG_FN TH_SBC_REG.

Definition TH_AND_REG : thop_table := TH_TABLE "and"
  [V THOP_SHAPE_T16_REG_RDN_RM 0x4000;
   V THOP_SHAPE_T32_REG_SHIFT 0xEA000000].

Definition th_and_reg := THOP_ALU_REG_FN TH_AND_REG.

Definition TH_BIC_REG : thop_table := TH_TABLE "bic"
  [V THOP_SHAPE_T16_REG_RDN_RM 0x4380;
   V THOP_SHAPE_T32_REG_SHIFT 0xEA200000].

Definition th_bic_reg := THOP_ALU_REG_FN TH_BIC_REG.

Definition TH_ORR_REG : thop_table := TH_TABLE "orr"
  [V THOP_SHAPE_T16_REG_RDN_RM 0x4300;
   V THOP_SHAPE_T32_REG_SHIFT 0xEA400000].

Definition th_orr_reg := THOP_ALU_REG_FN TH_ORR_REG.

Definition TH_ORN_REG : thop_table := TH_TABLE "orn"
  [V THOP_SHAPE_T32_REG_SHIFT 0xEA600000].

Definition th_orn_reg := THOP_ALU_REG_FN TH_ORN_REG.

Definition TH_EOR_REG : thop_table := TH_TABLE "eor"
  [V THOP_SHAPE_T16_REG_RDN_RM 0x4040;
   V THOP_SHAPE_T32_REG_SHIFT 0xEA800000].

Definition th_eor_reg := THOP_ALU_REG_FN TH_EOR_REG.

(** ** [thop_bitfield.c] *)

Definition TH_BFC : thop_table := TH_TABLE "bfc"
  [V THOP_SHAPE_T32_BFX 0xf36f0000].

Definition TH_BFI : thop_table := TH_TABLE "bfi"
  [V THOP_SHAPE_T32_BFX 0xf3600000].

Definition TH_SBFX : thop_table := TH_TABLE "sbfx"
  [V THOP_SHAPE_T32_BFX 0xf3400000].

Definition TH_SSAT : thop_table := TH_TABLE "ssat"
  [V THOP_SHAPE_T32_SSAT_LSL 0xf3000000;
   V THOP_SHAPE_T32_SSAT_ASR 0xf3200000].

Definition TH_USAT : thop_table := TH_TABLE "usat"
  [V THOP_SHAPE_T32_USAT_LSL 0xf3800000;
   V THOP_SHAPE_T32_USAT_ASR 0xf3a00000].

Definition th_bfc (rd lsb width : Z) : M thumb_opcode :=
  thop_emit_table TH_BFC (mk_thop_args [with_rd rd; with_rn 0; with_imm lsb; with_imm2 (u32 (lsb
    + width - 1))]).

Definition th_bfi (rd rn lsb width : Z) : M thumb_opcode :=
  thop_emit_table TH_BFI (mk_thop_args [with_rd rd; with_rn rn; with_imm lsb; with_imm2 (u32
    (lsb + width - 1))]).

Definition th_sbfx (rd rn lsb width : Z) : M thumb_opcode :=
  thop_emit_table TH_SBFX (mk_thop_args [with_rd rd; with_rn rn; with_imm lsb; with_imm2 (u32
    (width - 1))]).

Definition th_ssat (rd imm rn : Z) (shift : thumb_shift) : M thumb_opcode :=
  thop_emit_table TH_SSAT (mk_thop_args [with_rd rd; with_rn rn; with_imm2 (u32 (imm - 1));
    with_shift shift]).

Definition th_usat (rd imm rn : Z) (shift : thumb_shift) : M thumb_opcode :=
  thop_emit_table TH_USAT (mk_thop_args [with_rd rd; with_rn rn; with_imm2 imm; with_shift
    shift]).

(** ** [thop_cmp.c] *)

Definition thop_cmp_imm (rn imm : Z) (flags : thumb_flags_behaviour) (enc : thumb_enforce_encoding) (table : thop_table) : M thumb_opcode :=
  thop_emit_table table (mk_thop_args [with_rd 0xf; with_rn rn; with_imm imm; with_flags flags;
    with_enc enc]).

Definition thop_cmp_reg (rn rm : Z) (flags : thumb_flags_behaviour) (shift : thumb_shift) (enc : thumb_enforce_encoding) (table : thop_table) : M thumb_opcode :=
  thop_emit_table table (mk_thop_args [with_rd 0xf; with_rn rn; with_rm rm; with_flags flags;
    with_shift shift; with_enc enc]).

Definition THOP_CMP_IMM_FN (table_id : thop_table) (rn imm : Z) (flags : thumb_flags_behaviour) (enc : thumb_enforce_encoding) : M thumb_opcode :=
  thop_cmp_imm rn imm flags enc table_id.

Definition THOP_CMP_REG_FN (table_id : thop_table) (rn rm : Z) (flags : thumb_flags_behaviour) (shift : thumb_shift) (enc : thumb_enforce_encoding) : M thumb_opcode :=
  thop_cmp_reg rn rm flags shift enc table_id.

Definition TH_CMP_IMM : thop_table := TH_TABLE "cmp"
  [V THOP_SHAPE_T16_CMP_IMM 0x2800;
   V THOP_SHAPE_T32_CMP_IMM 0xF1B00F00].

Definition th_cmp_imm := THOP_CMP_IMM_FN TH_CMP_IMM.

Definition TH_CMN_IMM : thop_table := TH_TABLE "cmn"
  [V THOP_SHAPE_T32_CMP_IMM 0xF1100F00].

Definition th_cmn_imm := THOP_CMP_IMM_FN TH_CMN_IMM.

Definition TH_TST_IMM : thop_table := TH_TABLE "tst"
  [V THOP_SHAPE_T32_CMP_IMM 0xF0100F00].

Definition th_tst_imm := THOP_CMP_IMM_FN TH_TST_IMM.

Definition TH_TEQ_IMM : thop_table := TH_TABLE "teq"
  [V THOP_SHAPE_T32_CMP_IMM 0xF0900F00].

Definition th_teq_imm := THOP_CMP_IMM_FN TH_TEQ_IMM.

Definition TH_CMP_REG : thop_table := TH_TABLE "cmp"
  [V THOP_SHAPE_T16_CMP_REG 0x4280;
   VC THOP_SHAPE_T16_CMP_REG_T2 0x4500 THOP_CUSTOM_cmp_reg_t2_custom_emit;
   V THOP_SHAPE_T32_CMP_REG 0xEBB00F00].

Definition th_cmp_reg (rd rn rm : Z) (flags : thumb_flags_behaviour) (shift : thumb_shift) (encoding : thumb_enforce_encoding) : M thumb_opcode :=
  thop_cmp_reg rn rm flags shift encoding TH_CMP_REG.

Definition TH_CMN_REG : thop_table := TH_TABLE "cmn"
  [V THOP_SHAPE_T16_CMP_REG 0x42C0;
   V THOP_SHAPE_T32_CMP_REG 0xEB100F00].

Definition th_cmn_reg := THOP_CMP_REG_FN TH_CMN_REG.

Definition TH_TST_REG : thop_table := TH_TABLE "tst"
  [V THOP_SHAPE_T16_CMP_REG 0x4200;
   V THOP_SHAPE_T32_CMP_REG 0xEA100F00].

Definition th_tst_reg := THOP_CMP_REG_FN TH_TST_REG.

Definition TH_TEQ_REG : thop_table := TH_TABLE "teq"
  [V THOP_SHAPE_T32_CMP_REG 0xEA900F00].

Definition th_teq_reg := THOP_CMP_REG_FN TH_TEQ_REG.

(** ** [thop_extend.c] *)

Definition thop_extend (rd rm : Z) (shift : thumb_shift) (enc : thumb_enforce_encoding) (table : thop_table) : M thumb_opcode :=
  thop_emit_table table (mk_thop_args [with_rd rd; with_rm rm; with_ra rm; with_imm (sh_value
    shift); with_shift shift; with_enc enc]).

Definition THOP_EXTEND_FN (table_id : thop_table) (rd rm : Z) (shift : thumb_shift) (enc : thumb_enforce_encoding) : M thumb_opcode :=
  thop_extend rd rm shift enc table_id.

Definition TH_SXTB : thop_table := TH_TABLE "sxtb"
  [V THOP_SHAPE_T16_EXTEND 0xb240;
   V THOP_SHAPE_T32_EXTEND 0xfa4ff080].

Definition th_sxtb := THOP_EXTEND_FN TH_SXTB.

Definition TH_SXTH : thop_table := TH_TABLE "sxth"
  [V THOP_SHAPE_T16_EXTEND 0xb200;
   V THOP_SHAPE_T32_EXTEND 0xfa0ff080].

Definition th_sxth := THOP_EXTEND_FN TH_SXTH.

Definition TH_UXTB : thop_table := TH_TABLE "uxtb"
  [V THOP_SHAPE_T16_EXTEND 0xb2c0;
   V THOP_SHAPE_T32_EXTEND 0xfa5ff080].

Definition th_uxtb := THOP_EXTEND_FN TH_UXTB.

Definition TH_UXTH : thop_table := TH_TABLE "uxth"
  [V THOP_SHAPE_T16_EXTEND 0xb280;
   V THOP_SHAPE_T32_EXTEND 0xfa1ff080].

Definition th_uxth := THOP_EXTEND_FN TH_UXTH.

(** ** [thop_mov.c] *)

Definition TH_MOV_REG : thop_table := TH_TABLE "mov"
  [V THOP_SHAPE_MOV_REG_T1_HIGH 0x4600;
   VC THOP_SHAPE_MOV_REG_T1_SHIFT 0 THOP_CUSTOM_mov_reg_t1_shift_emit;
   V THOP_SHAPE_MOV_REG_T3 0xea4f0000].

Definition TH_MOV_IMM : thop_table := TH_TABLE "mov"
  [VC THOP_SHAPE_MOV_IMM_T1 0x2000 THOP_CUSTOM_mov_imm_t1_emit;
   V THOP_SHAPE_MOV_IMM_T3 0xf04f0000;
   V THOP_SHAPE_MOV_IMM_T4 0xf2400000].

Definition th_mov_imm (rd imm : Z) (setflags : thumb_flags_behaviour) (encoding : thumb_enforce_encoding) : M thumb_opcode :=
  let rd := u16 rd in
  thop_emit_table TH_MOV_IMM (mk_thop_args [with_rd rd; with_imm imm; with_flags setflags;
    with_enc encoding]).

Definition TH_MOVT : thop_table := TH_TABLE "movt"
  [V THOP_SHAPE_MOVT 0xf2c00000].

Definition th_movt (rd imm16 : Z) : M thumb_opcode :=
  thop_emit_table TH_MOVT (mk_thop_args [with_rd rd; with_imm imm16]).

Definition TH_MOV_REG_SHIFT : thop_table := TH_TABLE "mov"
  [VC THOP_SHAPE_MOV_REG_SHIFT_T1 0 THOP_CUSTOM_mov_reg_shift_t1_emit;
   V THOP_SHAPE_MOV_REG_SHIFT_T3 0xfa00f000].

Definition th_mov_reg_shift (rd rm rs : Z) (flags : thumb_flags_behaviour) (shift : thumb_shift) (encoding : thumb_enforce_encoding) : M thumb_opcode :=
  thop_emit_table TH_MOV_REG_SHIFT (mk_thop_args [with_rd rd; with_rm rm; with_ra rs; with_flags
    flags; with_shift shift; with_enc encoding]).

Definition th_mov_reg (rd rm : Z) (flags : thumb_flags_behaviour) (shift : thumb_shift)
    (encoding : thumb_enforce_encoding) (in_it : bool) : M thumb_opcode :=
  if bool_decide (sh_mode shift = THUMB_SHIFT_REGISTER) && negb (bool_decide (sh_type shift = THUMB_SHIFT_NONE))
  then th_mov_reg_shift rd rm (sh_value shift) flags shift encoding
  else
    let '(ok, shift) := if bool_decide (sh_mode shift = THUMB_SHIFT_IMMEDIATE)
                        then th_shift_imm_normalize shift else (true, shift) in
    if negb ok then mret no_opcode
    else thop_emit_table TH_MOV_REG
           (mk_thop_args [with_rd rd; with_rm rm; with_flags flags; with_shift shift;
                          with_enc encoding; with_in_it_block in_it]).

(** ** [thop_mvn.c] *)

Definition TH_MVN_REG : thop_table := TH_TABLE "mvn"
  [V THOP_SHAPE_MVN_REG_T1 0x43c0;
   V THOP_SHAPE_MVN_REG_T3 0xea6f0000].

Definition thop_mvn_reg (rd rn rm : Z) (flags : thumb_flags_behaviour) (shift : thumb_shift) (enc : thumb_enforce_encoding) : M thumb_opcode :=
  thop_emit_table TH_MVN_REG (mk_thop_args [with_rd rd; with_rn rn; with_rm rm; with_flags
    flags; with_shift shift; with_enc enc]).

Definition th_mvn_reg (rd rn rm : Z) (flags : thumb_flags_behaviour) (shift : thumb_shift) (encoding : thumb_enforce_encoding) : M thumb_opcode :=
  thop_mvn_reg rd rn rm flags shift encoding.

Definition TH_MVN_IMM : thop_table := TH_TABLE "mvn"
  [VC THOP_SHAPE_MVN_IMM_T3 0xf06f0000 THOP_CUSTOM_mvn_imm_emit].

Definition th_mvn_imm (rd rm imm : Z) (flags : thumb_flags_behaviour) (encoding : thumb_enforce_encoding) : M thumb_opcode :=
  thop_emit_table TH_MVN_IMM (mk_thop_args [with_rd rd; with_imm imm; with_flags flags; with_enc
    encoding]).

(** ** [thop_mul.c] *)

Definition TH_MUL_T16 : thop_table := TH_TABLE "muls"
  [VC THOP_SHAPE_MUL_T16 0x4340 THOP_CUSTOM_mul_t16_emit].

Definition TH_MUL_T32 : thop_table := TH_TABLE "mul"
  [V THOP_SHAPE_MUL_T32 0xfb00f000].

Definition TH_MLA : thop_table := TH_TABLE "mla"
  [V THOP_SHAPE_MLA 0xfb000000].

Definition TH_MLS : thop_table := TH_TABLE "mls"
  [V THOP_SHAPE_MLA 0xfb000010].

Definition TH_UMULL : thop_table := TH_TABLE "umull"
  [VC THOP_SHAPE_LONG_MUL 0xfba00000 THOP_CUSTOM_long_mul_emit].

Definition TH_UMLAL : thop_table := TH_TABLE "umlal"
  [VC THOP_SHAPE_LONG_MUL 0xfbe00000 THOP_CUSTOM_long_mul_emit].

Definition TH_SMULL : thop_table := TH_TABLE "smull"
  [VC THOP_SHAPE_LONG_MUL 0xfb800000 THOP_CUSTOM_long_mul_emit].

Definition TH_SMLAL : thop_table := TH_TABLE "smlal"
  [VC THOP_SHAPE_LONG_MUL 0xfbc00000 THOP_CUSTOM_long_mul_emit].

Definition TH_UMAAL : thop_table := TH_TABLE "umaal"
  [VC THOP_SHAPE_LONG_MUL_DSP 0xfbe00060 THOP_CUSTOM_long_mul_emit].

Definition TH_UDIV : thop_table := TH_TABLE "udiv"
  [V THOP_SHAPE_DIV 0xfbb0f0f0].

Definition TH_SDIV : thop_table := TH_TABLE "sdiv"
  [V THOP_SHAPE_DIV 0xfb90f0f0].

Definition th_mul (rd rn rm : Z) (flags : thumb_flags_behaviour) (encoding : thumb_enforce_encoding) : M thumb_opcode :=
  let t16_possible := negb (bool_decide (encoding = ENFORCE_ENCODING_32BIT)) && Z.leb rd 7 && Z.leb rn 7
    && Z.leb rm 7 && negb (bool_decide (flags = FLAGS_BEHAVIOUR_BLOCK)) in
  if t16_possible && (Z.eqb rd rm || Z.eqb rd rn) then
    let other := if Z.eqb rd rm then rn else rm in
    thop_emit_table TH_MUL_T16 (mk_thop_args [with_rd rd; with_rm other; with_flags flags; with_enc encoding])
  else
    thop_emit_table TH_MUL_T32
      (mk_thop_args [with_rd rd; with_rm rm; with_rn rn; with_flags flags; with_enc encoding]).

Definition th_mla (rd rn rm ra : Z) : M thumb_opcode :=
  thop_emit_table TH_MLA (mk_thop_args [with_rd rd; with_rn rn; with_rm rm; with_ra ra]).

Definition th_mls (rd rn rm ra : Z) : M thumb_opcode :=
  thop_emit_table TH_MLS (mk_thop_args [with_rd rd; with_rn rn; with_rm rm; with_ra ra]).

Definition th_umull (rdlo rdhi rn rm : Z) : M thumb_opcode :=
  thop_emit_table TH_UMULL (mk_thop_args [with_rd rdhi; with_rn rn; with_rm rm; with_ra rdlo]).

Definition th_umlal (rdlo rdhi rn rm : Z) : M thumb_opcode :=
  thop_emit_table TH_UMLAL (mk_thop_args [with_rd rdhi; with_rn rn; with_rm rm; with_ra rdlo]).

Definition th_umaal (rdlo rdhi rn rm : Z) : M thumb_opcode :=
  thop_emit_table TH_UMAAL (mk_thop_args [with_rd rdhi; with_rn rn; with_rm rm; with_ra rdlo]).

Definition th_smull (rdlo rdhi rn rm : Z) : M thumb_opcode :=
  thop_emit_table TH_SMULL (mk_thop_args [with_rd rdhi; with_rn rn; with_rm rm; with_ra rdlo]).

Definition th_smlal (rdlo rdhi rn rm : Z) : M thumb_opcode :=
  thop_emit_table TH_SMLAL (mk_thop_args [with_rd rdhi; with_rn rn; with_rm rm; with_ra rdlo]).

Definition th_udiv (rd rn rm : Z) : M thumb_opcode :=
  let rd := u16 rd in
  let rn := u16 rn in
  let rm := u16 rm in
  thop_emit_table TH_UDIV (mk_thop_args [with_rd rd; with_rn rn; with_rm rm]).

Definition th_sdiv (rd rn rm : Z) : M thumb_opcode :=
  let rd := u16 rd in
  let rn := u16 rn in
  let rm := u16 rm in
  thop_emit_table TH_SDIV (mk_thop_args [with_rd rd; with_rn rn; with_rm rm]).

(** ** [thop_rev.c] *)

Definition thop_rev (rd rm : Z) (enc : thumb_enforce_encoding) (table : thop_table) : M thumb_opcode :=
  thop_emit_table table (mk_thop_args [with_rd rd; with_rm rm; with_ra rm; with_enc enc]).

Definition TH_REV : thop_table := TH_TABLE "rev"
  [V THOP_SHAPE_T16_REV 0xba00;
   V THOP_SHAPE_T32_REV 0xfa90f080].

Definition th_rev (rd rm : Z) (enc : thumb_enforce_encoding) : M thumb_opcode :=
  thop_rev rd rm enc TH_REV.

Definition TH_REV16 : thop_table := TH_TABLE "rev16"
  [V THOP_SHAPE_T16_REV 0xba40;
   V THOP_SHAPE_T32_REV 0xfa90f090].

Definition th_rev16 (rd rm : Z) (enc : thumb_enforce_encoding) : M thumb_opcode :=
  thop_rev rd rm enc TH_REV16.

Definition TH_REVSH : thop_table := TH_TABLE "revsh"
  [V THOP_SHAPE_T16_REV 0xbac0;
   V THOP_SHAPE_T32_REV 0xfa90f0b0].

Definition th_revsh (rd rm : Z) (enc : thumb_enforce_encoding) : M thumb_opcode :=
  thop_rev rd rm enc TH_REVSH.

Definition TH_RBIT : thop_table := TH_TABLE "rbit"
  [V THOP_SHAPE_T32_RBIT 0xfa90f0a0].

Definition th_rbit (rd rm : Z) : M thumb_opcode :=
  thop_rev rd rm ENFORCE_ENCODING_NONE TH_RBIT.

(** ** [thop_shift_imm.c] *)

Definition thop_shift_imm (rd rm imm : Z) (flags : thumb_flags_behaviour) (enc : thumb_enforce_encoding) (shift : thumb_shift) (table : thop_table) : M thumb_opcode :=
  thop_emit_table table (mk_thop_args [with_rd rd; with_rm rm; with_imm imm; with_flags flags;
    with_shift shift; with_enc enc]).

Definition THOP_SHIFT_IMM_FN (table_id : thop_table) (shift_type : thumb_shift_type)
    (rd rm imm : Z) (flags : thumb_flags_behaviour) (enc : thumb_enforce_encoding) : M thumb_opcode :=
  let shift := mk_shift shift_type imm THUMB_SHIFT_IMMEDIATE in
  let '(ok, shift) := th_shift_imm_normalize shift in
  if negb ok then mret no_opcode
  else thop_shift_imm rd rm (sh_value shift &&& 0x1f) flags enc shift table_id.

Definition TH_LSL_IMM : thop_table := TH_TABLE "lsl"
  [V THOP_SHAPE_T16_SHIFT_IMM 0x0000;
   V THOP_SHAPE_T32_SHIFT_IMM 0xEA4F0000].

Definition th_lsl_imm := THOP_SHIFT_IMM_FN TH_LSL_IMM THUMB_SHIFT_LSL.

Definition TH_LSR_IMM : thop_table := TH_TABLE "lsr"
  [V THOP_SHAPE_T16_SHIFT_IMM 0x0000;
   V THOP_SHAPE_T32_SHIFT_IMM 0xEA4F0000].

Definition th_lsr_imm := THOP_SHIFT_IMM_FN TH_LSR_IMM THUMB_SHIFT_LSR.

Definition TH_ASR_IMM : thop_table := TH_TABLE "asr"
  [V THOP_SHAPE_T16_SHIFT_IMM 0x0000;
   V THOP_SHAPE_T32_SHIFT_IMM 0xEA4F0000].

Definition th_asr_imm := THOP_SHIFT_IMM_FN TH_ASR_IMM THUMB_SHIFT_ASR.

Definition TH_ROR_IMM : thop_table := TH_TABLE "ror"
  [V THOP_SHAPE_T32_SHIFT_IMM 0xEA4F0000].

Definition th_ror_imm := THOP_SHIFT_IMM_FN TH_ROR_IMM THUMB_SHIFT_ROR.

(** ** [thop_shift_reg.c] *)

Definition thop_shift_reg (rd rn rm : Z) (flags : thumb_flags_behaviour) (enc : thumb_enforce_encoding) (table : thop_table) : M thumb_opcode :=
  thop_emit_table table (mk_thop_args [with_rd rd; with_rn rn; with_rm rm; with_flags flags;
    with_enc enc]).

Definition THOP_SHIFT_REG_FN (table_id : thop_table) (rd rn rm : Z) (flags : thumb_flags_behaviour) (shift : thumb_shift) (enc : thumb_enforce_encoding) : M thumb_opcode :=
  thop_shift_reg rd rn rm flags enc table_id.

Definition TH_LSL_REG : thop_table := TH_TABLE "lsl"
  [VC THOP_SHAPE_T16_SHIFT_REG 0x4080 THOP_CUSTOM_shift_reg_t1_emit;
   V THOP_SHAPE_T32_SHIFT_REG 0xFA00F000].

Definition th_lsl_reg := THOP_SHIFT_REG_FN TH_LSL_REG.

Definition TH_LSR_REG : thop_table := TH_TABLE "lsr"
  [VC THOP_SHAPE_T16_SHIFT_REG 0x40C0 THOP_CUSTOM_shift_reg_t1_emit;
   V THOP_SHAPE_T32_SHIFT_REG 0xFA20F000].

Definition th_lsr_reg := THOP_SHIFT_REG_FN TH_LSR_REG.

Definition TH_ASR_REG : thop_table := TH_TABLE "asr"
  [VC THOP_SHAPE_T16_SHIFT_REG 0x4100 THOP_CUSTOM_shift_reg_t1_emit;
   V THOP_SHAPE_T32_SHIFT_REG 0xFA40F000].

Definition th_asr_reg := THOP_SHIFT_REG_FN TH_ASR_REG.

Definition TH_ROR_REG : thop_table := TH_TABLE "ror"
  [V THOP_SHAPE_T32_SHIFT_REG 0xFA60F000].

Definition th_ror_reg := THOP_SHIFT_REG_FN TH_ROR_REG.

End Wrappers.

(** Every table of the file. *)
Definition tables_alu : list thop_table :=
  [TH_ADR_IMM; TH_ADD_IMM; TH_SUB_IMM; TH_RSB_IMM; TH_ADC_IMM; TH_SBC_IMM; TH_AND_IMM;
   TH_BIC_IMM; TH_ORR_IMM; TH_ORN_IMM; TH_EOR_IMM; TH_ADD_REG; TH_SUB_REG; TH_RSB_REG;
   TH_ADC_REG; TH_SBC_REG; TH_AND_REG; TH_BIC_REG; TH_ORR_REG; TH_ORN_REG; TH_EOR_REG; TH_BFC;
   TH_BFI; TH_SBFX; TH_SSAT; TH_USAT; TH_CMP_IMM; TH_CMN_IMM; TH_TST_IMM; TH_TEQ_IMM;
   TH_CMP_REG; TH_CMN_REG; TH_TST_REG; TH_TEQ_REG; TH_SXTB; TH_SXTH; TH_UXTB; TH_UXTH;
   TH_MOV_REG; TH_MOV_IMM; TH_MOVT; TH_MOV_REG_SHIFT; TH_MVN_REG; TH_MVN_IMM; TH_MUL_T16;
   TH_MUL_T32; TH_MLA; TH_MLS; TH_UMULL; TH_UMLAL; TH_SMULL; TH_SMLAL; TH_UMAAL; TH_UDIV;
   TH_SDIV; TH_REV; TH_REV16; TH_REVSH; TH_RBIT; TH_LSL_IMM; TH_LSR_IMM; TH_ASR_IMM;
   TH_ROR_IMM; TH_LSL_REG; TH_LSR_REG; TH_ASR_REG; TH_ROR_REG].
