(* ===== verification/ThumbOpsMem.v ===== *)
(** * Memory and branch instructions

    The tables and public wrappers of the [thop_mem_*.c], [thop_ld*.c], [thop_block.c], [thop_branch.c],
    [thop_pld.c] and [thop_tbb.c] files, one definition per [TH_TABLE],
    function-generating macro and function, over the monad of the engine. *)

From stdpp Require Import strings.
From S2P Require Import Prelude ThumbTypes ThumbShapes ThumbPack ThumbCustom ThumbEngine.
Local Open Scope Z_scope.
Local Open Scope c_scope.

Section Wrappers.
Context `{MRet M, MBind M, !EncOps M}.

(** ** [thop_mem_imm.c] *)

Definition TH_LDR_IMM : thop_table := TH_TABLE "ldr"
  [V THOP_SHAPE_T16_MEM_IMM4 0x6800;
   V THOP_SHAPE_T16_MEM_SP_IMM4 0x9800;
   V THOP_SHAPE_T32_MEM_POS_ANY_NOTPC 0xf8d00000;
   V THOP_SHAPE_T32_MEM_PC_POS 0xf8df0000;
   V THOP_SHAPE_T32_MEM_PC_NEG 0xf85f0000;
   V THOP_SHAPE_T32_MEM_IDX_ANY 0xf8500800].

Definition TH_LDRB_IMM : thop_table := TH_TABLE "ldrb"
  [V THOP_SHAPE_T16_MEM_IMM0 0x7800;
   V THOP_SHAPE_T32_MEM_POS_NOSP_NOTPC 0xf8900000;
   V THOP_SHAPE_T32_MEM_PC_POS 0xf89f0000;
   V THOP_SHAPE_T32_MEM_PC_NEG 0xf81f0000;
   V THOP_SHAPE_T32_MEM_IDX_NOSP 0xf8100800].

Definition TH_LDRH_IMM : thop_table := TH_TABLE "ldrh"
  [V THOP_SHAPE_T16_MEM_IMM1 0x8800;
   V THOP_SHAPE_T32_MEM_POS_NOSP_NOTPC 0xf8b00000;
   V THOP_SHAPE_T32_MEM_PC_POS 0xf8bf0000;
   V THOP_SHAPE_T32_MEM_PC_NEG 0xf83f0000;
   V THOP_SHAPE_T32_MEM_IDX_NOSP 0xf8300800].

Definition TH_LDRSB_IMM : thop_table := TH_TABLE "ldrsb"
  [V THOP_SHAPE_T32_MEM_POS_NOSP_NOTPC 0xf9900000;
   V THOP_SHAPE_T32_MEM_PC_POS 0xf99f0000;
   V THOP_SHAPE_T32_MEM_PC_NEG 0xf91f0000;
   V THOP_SHAPE_T32_MEM_IDX_NOSP 0xf9100800].

Definition TH_LDRSH_IMM : thop_table := TH_TABLE "ldrsh"
  [V THOP_SHAPE_T32_MEM_POS_NOSP_NOTPC 0xf9b00000;
   V THOP_SHAPE_T32_MEM_PC_POS 0xf9bf0000;
   V THOP_SHAPE_T32_MEM_PC_NEG 0xf93f0000;
   V THOP_SHAPE_T32_MEM_IDX_NOSP 0xf9300800].

Definition TH_STR_IMM : thop_table := TH_TABLE "str"
  [V THOP_SHAPE_T16_MEM_IMM4 0x6000;
   V THOP_SHAPE_T16_MEM_SP_IMM4 0x9000;
   V THOP_SHAPE_T32_MEM_POS_ANY_NOTPC 0xf8c00000;
   V THOP_SHAPE_T32_MEM_IDX_ANY_NOTPC 0xf8400800].

Definition TH_STRB_IMM : thop_table := TH_TABLE "strb"
  [V THOP_SHAPE_T16_MEM_IMM0 0x7000;
   V THOP_SHAPE_T32_MEM_POS_NOSP_NOTPC 0xf8800000;
   V THOP_SHAPE_T32_MEM_IDX_NOSP_NOTPC 0xf8000800].

Definition TH_STRH_IMM : thop_table := TH_TABLE "strh"
  [V THOP_SHAPE_T16_MEM_IMM1 0x8000;
   V THOP_SHAPE_T32_MEM_POS_NOSP_NOTPC 0xf8a00000;
   V THOP_SHAPE_T32_MEM_IDX_NOSP_NOTPC 0xf8200800].

Definition th_ldr_imm (rt rn imm puw : Z) (enc : thumb_enforce_encoding) : M thumb_opcode :=
  thop_emit_table TH_LDR_IMM (mk_thop_args [with_rd rt; with_rn rn; with_imm (u32 imm); with_puw
    (u8 puw); with_enc enc]).

Definition th_ldrb_imm (rt rn imm puw : Z) (enc : thumb_enforce_encoding) : M thumb_opcode :=
  thop_emit_table TH_LDRB_IMM (mk_thop_args [with_rd rt; with_rn rn; with_imm (u32 imm);
    with_puw (u8 puw); with_enc enc]).

Definition th_ldrh_imm (rt rn imm puw : Z) (enc : thumb_enforce_encoding) : M thumb_opcode :=
  thop_emit_table TH_LDRH_IMM (mk_thop_args [with_rd rt; with_rn rn; with_imm (u32 imm);
    with_puw (u8 puw); with_enc enc]).

Definition th_ldrsb_imm (rt rn imm puw : Z) (enc : thumb_enforce_encoding) : M thumb_opcode :=
  thop_emit_table TH_LDRSB_IMM (mk_thop_args [with_rd rt; with_rn rn; with_imm (u32 imm);
    with_puw (u8 puw); with_enc enc]).

Definition th_ldrsh_imm (rt rn imm puw : Z) (enc : thumb_enforce_encoding) : M thumb_opcode :=
  thop_emit_table TH_LDRSH_IMM (mk_thop_args [with_rd rt; with_rn rn; with_imm (u32 imm);
    with_puw (u8 puw); with_enc enc]).

Definition th_str_imm (rt rn imm puw : Z) (enc : thumb_enforce_encoding) : M thumb_opcode :=
  thop_emit_table TH_STR_IMM (mk_thop_args [with_rd rt; with_rn rn; with_imm (u32 imm); with_puw
    (u8 puw); with_enc enc]).

Definition th_strb_imm (rt rn imm puw : Z) (enc : thumb_enforce_encoding) : M thumb_opcode :=
  thop_emit_table TH_STRB_IMM (mk_thop_args [with_rd rt; with_rn rn; with_imm (u32 imm);
    with_puw (u8 puw); with_enc enc]).

Definition th_strh_imm (rt rn imm puw : Z) (enc : thumb_enforce_encoding) : M thumb_opcode :=
  thop_emit_table TH_STRH_IMM (mk_thop_args [with_rd rt; with_rn rn; with_imm (u32 imm);
    with_puw (u8 puw); with_enc enc]).

(** ** [thop_mem_reg.c] *)

Definition THOP_MEM_REG_FN (table_id : thop_table) (rt rn rm : Z) (shift : thumb_shift) (enc : thumb_enforce_encoding) : M thumb_opcode :=
  thop_emit_table table_id (mk_thop_args [with_rd rt; with_rn rn; with_rm rm; with_flags
    FLAGS_BEHAVIOUR_NOT_IMPORTANT; with_shift shift; with_enc enc]).

Definition TH_LDR_REG : thop_table := TH_TABLE "ldr"
  [V THOP_SHAPE_T16_MEM_REG 0x5800;
   V THOP_SHAPE_T32_MEM_REG 0xF8500000].

Definition th_ldr_reg := THOP_MEM_REG_FN TH_LDR_REG.

Definition TH_LDRB_REG : thop_table := TH_TABLE "ldrb"
  [V THOP_SHAPE_T16_MEM_REG 0x5C00;
   V THOP_SHAPE_T32_MEM_REG 0xF8100000].

Definition th_ldrb_reg := THOP_MEM_REG_FN TH_LDRB_REG.

Definition TH_LDRH_REG : thop_table := TH_TABLE "ldrh"
  [V THOP_SHAPE_T16_MEM_REG 0x5A00;
   V THOP_SHAPE_T32_MEM_REG 0xF8300000].

Definition th_ldrh_reg := THOP_MEM_REG_FN TH_LDRH_REG.

Definition TH_LDRSB_REG : thop_table := TH_TABLE "ldrsb"
  [V THOP_SHAPE_T16_MEM_REG 0x5600;
   V THOP_SHAPE_T32_MEM_REG 0xF9100000].

Definition th_ldrsb_reg := THOP_MEM_REG_FN TH_LDRSB_REG.

Definition TH_LDRSH_REG : thop_table := TH_TABLE "ldrsh"
  [V THOP_SHAPE_T16_MEM_REG 0x5E00;
   V THOP_SHAPE_T32_MEM_REG 0xF9300000].

Definition th_ldrsh_reg := THOP_MEM_REG_FN TH_LDRSH_REG.

Definition TH_STR_REG : thop_table := TH_TABLE "str"
  [V THOP_SHAPE_T16_MEM_REG 0x5000;
   V THOP_SHAPE_T32_MEM_REG 0xF8400000].

Definition th_str_reg := THOP_MEM_REG_FN TH_STR_REG.

Definition TH_STRB_REG : thop_table := TH_TABLE "strb"
  [V THOP_SHAPE_T16_MEM_REG 0x5400;
   V THOP_SHAPE_T32_MEM_REG 0xF8000000].

Definition th_strb_reg := THOP_MEM_REG_FN TH_STRB_REG.

Definition TH_STRH_REG : thop_table := TH_TABLE "strh"
  [V THOP_SHAPE_T16_MEM_REG 0x5200;
   V THOP_SHAPE_T32_MEM_REG 0xF8200000].

Definition th_strh_reg := THOP_MEM_REG_FN TH_STRH_REG.

(** ** [thop_mem_unpriv.c] *)

Definition THOP_MEM_UNPRIV_FN (table_id : thop_table) (rt rn imm : Z) : M thumb_opcode :=
  thop_emit_table table_id (mk_thop_args [with_rd rt; with_rn rn; with_imm (u32 imm)]).

Definition TH_LDRT : thop_table := TH_TABLE "ldrt"
  [V THOP_SHAPE_T32_MEM_UNPRIV 0xF8500E00].

Definition th_ldrt := THOP_MEM_UNPRIV_FN TH_LDRT.

Definition TH_LDRBT : thop_table := TH_TABLE "ldrbt"
  [V THOP_SHAPE_T32_MEM_UNPRIV 0xF8100E00].

Definition th_ldrbt := THOP_MEM_UNPRIV_FN TH_LDRBT.

Definition TH_LDRHT : thop_table := TH_TABLE "ldrht"
  [V THOP_SHAPE_T32_MEM_UNPRIV 0xF8300E00].

Definition th_ldrht := THOP_MEM_UNPRIV_FN TH_LDRHT.

Definition TH_LDRSBT : thop_table := TH_TABLE "ldrsbt"
  [V THOP_SHAPE_T32_MEM_UNPRIV 0xF9100E00].

Definition th_ldrsbt := THOP_MEM_UNPRIV_FN TH_LDRSBT.

Definition TH_LDRSHT : thop_table := TH_TABLE "ldrsht"
  [V THOP_SHAPE_T32_MEM_UNPRIV 0xF9300E00].

Definition th_ldrsht := THOP_MEM_UNPRIV_FN TH_LDRSHT.

Definition TH_STRT : thop_table := TH_TABLE "strt"
  [V THOP_SHAPE_T32_MEM_UNPRIV 0xF8400E00].

Definition th_strt := THOP_MEM_UNPRIV_FN TH_STRT.

Definition TH_STRBT : thop_table := TH_TABLE "strbt"
  [V THOP_SHAPE_T32_MEM_UNPRIV 0xF8000E00].

Definition th_strbt := THOP_MEM_UNPRIV_FN TH_STRBT.

Definition TH_STRHT : thop_table := TH_TABLE "strht"
  [V THOP_SHAPE_T32_MEM_UNPRIV 0xF8200E00].

Definition th_strht := THOP_MEM_UNPRIV_FN TH_STRHT.

(** ** [thop_mem_exclusive.c] *)

Definition thop_exclusive (rt rn : Z) (table : thop_table) : M thumb_opcode :=
  thop_emit_table table (mk_thop_args [with_rd rt; with_rn rn]).

Definition THOP_EXCLUSIVE_FN (table_id : thop_table) (rt rn : Z) : M thumb_opcode :=
  thop_exclusive rt rn table_id.

Definition TH_LDA : thop_table := TH_TABLE "lda"
  [V THOP_SHAPE_T32_EXCLUSIVE 0xE8D00FAF].

Definition th_lda := THOP_EXCLUSIVE_FN TH_LDA.

Definition TH_LDAB : thop_table := TH_TABLE "ldab"
  [V THOP_SHAPE_T32_EXCLUSIVE 0xE8D00F8F].

Definition th_ldab := THOP_EXCLUSIVE_FN TH_LDAB.

Definition TH_LDAH : thop_table := TH_TABLE "ldah"
  [V THOP_SHAPE_T32_EXCLUSIVE 0xE8D00F9F].

Definition th_ldah := THOP_EXCLUSIVE_FN TH_LDAH.

Definition TH_STL : thop_table := TH_TABLE "stl"
  [V THOP_SHAPE_T32_EXCLUSIVE 0xE8C00FAF].

Definition th_stl := THOP_EXCLUSIVE_FN TH_STL.

Definition TH_STLB : thop_table := TH_TABLE "stlb"
  [V THOP_SHAPE_T32_EXCLUSIVE 0xE8C00F8F].

Definition th_stlb := THOP_EXCLUSIVE_FN TH_STLB.

Definition TH_STLH : thop_table := TH_TABLE "stlh"
  [V THOP_SHAPE_T32_EXCLUSIVE 0xE8C00F9F].

Definition th_stlh := THOP_EXCLUSIVE_FN TH_STLH.

(** ** [thop_ldr_literal.c] *)

Definition TH_LDR_LITERAL : thop_table := TH_TABLE "ldr"
  [V THOP_SHAPE_LDR_LIT_T1 0x4800;
   VC THOP_SHAPE_LDR_LIT_T32 0 THOP_CUSTOM_ldr_literal_emit].

Definition th_ldr_literal (rt imm add : Z) : M thumb_opcode :=
  let rt := u16 rt in
  thop_emit_table TH_LDR_LITERAL (mk_thop_args [with_rd rt; with_imm imm; with_rn add]).

(** ** [thop_ldrd.c] *)

Definition TH_LDRD_IMM : thop_table := TH_TABLE "ldrd"
  [VC THOP_SHAPE_LDRD 0xe8500000 THOP_CUSTOM_ldrd_imm_emit].

Definition TH_STRD_IMM : thop_table := TH_TABLE "strd"
  [VC THOP_SHAPE_LDRD 0xe8400000 THOP_CUSTOM_ldrd_imm_emit].

Definition ldrd_args_ok (rt rt2 imm puw : Z) (is_load : bool) : bool :=
  if Z.ltb imm 0 || truth (imm &&& 3) || Z.ltb 1020 imm then false
  else if Z.eqb (puw &&& 0x5) 0 then false
  else if is_load && Z.eqb rt rt2 then false
  else true.

Definition th_ldrd_imm (rt rt2 rn imm puw : Z) : M thumb_opcode :=
  if negb (ldrd_args_ok rt rt2 imm puw true) then mret no_opcode
  else thop_emit_table TH_LDRD_IMM
         (mk_thop_args [with_rd rt; with_rm rt2; with_rn rn; with_imm (u32 (imm >>> 2)); with_puw (u8 puw)]).

Definition th_strd_imm (rt rt2 rn imm puw : Z) : M thumb_opcode :=
  if negb (ldrd_args_ok rt rt2 imm puw false) then mret no_opcode
  else thop_emit_table TH_STRD_IMM
         (mk_thop_args [with_rd rt; with_rm rt2; with_rn rn; with_imm (u32 (imm >>> 2)); with_puw (u8 puw)]).

(** ** [thop_ldrex.c] *)

Definition TH_LDREX : thop_table := TH_TABLE "ldrex"
  [V THOP_SHAPE_LDREX 0xe8500f00].

Definition TH_STREX : thop_table := TH_TABLE "strex"
  [V THOP_SHAPE_STREX 0xe8400000].

Definition TH_LDREXB : thop_table := TH_TABLE "ldrexb"
  [V THOP_SHAPE_LDREXB 0xe8d00f4f].

Definition TH_LDREXH : thop_table := TH_TABLE "ldrexh"
  [V THOP_SHAPE_LDREXB 0xe8d00f5f].

Definition TH_STREXB : thop_table := TH_TABLE "strexb"
  [V THOP_SHAPE_STREXB 0xe8c00f40].

Definition TH_STREXH : thop_table := TH_TABLE "strexh"
  [V THOP_SHAPE_STREXB 0xe8c00f50].

Definition th_ldrex (rt rn imm : Z) : M thumb_opcode :=
  thop_emit_table TH_LDREX (mk_thop_args [with_rd rt; with_rn rn; with_imm (u32 (imm >>> 2))]).

Definition th_strex (rd rt rn imm : Z) : M thumb_opcode :=
  thop_emit_table TH_STREX (mk_thop_args [with_rd rd; with_rn rt; with_rm rn; with_imm (u32 (imm
    >>> 2))]).

Definition th_ldrexb (rt rn : Z) : M thumb_opcode :=
  thop_emit_table TH_LDREXB (mk_thop_args [with_rd rt; with_rn rn]).

Definition th_ldrexh (rt rn : Z) : M thumb_opcode :=
  thop_emit_table TH_LDREXH (mk_thop_args [with_rd rt; with_rn rn]).

Definition th_strexb (rd rt rn : Z) : M thumb_opcode :=
  thop_emit_table TH_STREXB (mk_thop_args [with_rd rd; with_rn rt; with_rm rn]).

Definition th_strexh (rd rt rn : Z) : M thumb_opcode :=
  thop_emit_table TH_STREXH (mk_thop_args [with_rd rd; with_rn rt; with_rm rn]).

(** ** [thop_ldaex.c] *)

Definition TH_LDAEX : thop_table := TH_TABLE "ldaex"
  [V THOP_SHAPE_LDAEX 0xe8d00fef].

Definition TH_LDAEXB : thop_table := TH_TABLE "ldaexb"
  [V THOP_SHAPE_LDAEX 0xe8d00fcf].

Definition TH_LDAEXH : thop_table := TH_TABLE "ldaexh"
  [V THOP_SHAPE_LDAEX 0xe8d00fdf].

Definition TH_STLEX : thop_table := TH_TABLE "stlex"
  [V THOP_SHAPE_STLEX 0xe8c00fe0].

Definition TH_STLEXB : thop_table := TH_TABLE "stlexb"
  [V THOP_SHAPE_STLEX 0xe8c00fc0].

Definition TH_STLEXH : thop_table := TH_TABLE "stlexh"
  [V THOP_SHAPE_STLEX 0xe8c00fd0].

Definition th_ldaex (rt rn : Z) : M thumb_opcode :=
  thop_emit_table TH_LDAEX (mk_thop_args [with_rd rt; with_rn rn]).

Definition th_stlex (rd rt rn : Z) : M thumb_opcode :=
  thop_emit_table TH_STLEX (mk_thop_args [with_rd rd; with_rn rn; with_rm rt]).

Definition th_ldaexb (rt rn : Z) : M thumb_opcode :=
  thop_emit_table TH_LDAEXB (mk_thop_args [with_rd rt; with_rn rn]).

Definition th_ldaexh (rt rn : Z) : M thumb_opcode :=
  thop_emit_table TH_LDAEXH (mk_thop_args [with_rd rt; with_rn rn]).

Definition th_stlexb (rd rt rn : Z) : M thumb_opcode :=
  thop_emit_table TH_STLEXB (mk_thop_args [with_rd rd; with_rn rn; with_rm rt]).

Definition th_stlexh (rd rt rn : Z) : M thumb_opcode :=
  thop_emit_table TH_STLEXH (mk_thop_args [with_rd rd; with_rn rn; with_rm rt]).

(** ** [thop_block.c] *)

Definition TH_PUSH : thop_table := TH_TABLE "push"
  [V THOP_SHAPE_PUSH_T1 0xb400;
   V THOP_SHAPE_PUSH_T2 0xe92d0000].

Definition TH_POP : thop_table := TH_TABLE "pop"
  [V THOP_SHAPE_POP_T1 0xbc00;
   V THOP_SHAPE_POP_T2 0xe8bd0000].

Definition TH_LDM : thop_table := TH_TABLE "ldm"
  [V THOP_SHAPE_LDM_T1 0xc800;
   V THOP_SHAPE_LDM_T3 0xe8900000].

Definition TH_STM : thop_table := TH_TABLE "stm"
  [V THOP_SHAPE_STM_T1 0xc000;
   V THOP_SHAPE_STM_T3 0xe8800000].

Definition TH_LDMDB : thop_table := TH_TABLE "ldmdb"
  [V THOP_SHAPE_LDMDB 0xe9100000].

Definition TH_STMDB : thop_table := TH_TABLE "stmdb"
  [V THOP_SHAPE_STMDB 0xe9000000].

Definition th_push (regs : Z) : M thumb_opcode :=
  let lr := u8 ((regs >>> R_LR) &&& 1) in
  let regs := regs &&& ~~~ ((1 <<< R_LR) ||| (1 <<< R_PC)) in
  if negb (Z.eqb regs 0) && Z.eqb (regs &&& u32 (regs - 1)) 0 && Z.eqb lr 0 && truth (regs &&& ~~~ 0xff)
  then th_str_imm (ctz32 regs) R_SP 4 5 ENFORCE_ENCODING_32BIT
  else thop_emit_table TH_PUSH (mk_thop_args [with_rm regs; with_imm lr]).

Definition th_pop (regs : Z) : M thumb_opcode :=
  let regs := u16 regs in
  let pc := u8 ((regs >>> R_PC) &&& 1) in
  let regs := u16 (regs &&& ~~~ (1 <<< R_PC)) in
  if Z.eqb pc 0 && negb (Z.eqb regs 0) && Z.eqb (regs &&& (regs - 1)) 0 && truth (regs &&& ~~~ 0xff)
  then th_ldr_imm (ctz32 regs) R_SP 4 3 ENFORCE_ENCODING_32BIT
  else thop_emit_table TH_POP (mk_thop_args [with_rm regs; with_imm pc]).

Definition th_ldm (rn regset writeback : Z) (encoding : thumb_enforce_encoding) : M thumb_opcode :=
  if Z.eqb rn R_SP && truth writeback && negb (bool_decide (encoding = ENFORCE_ENCODING_32BIT))
  then th_pop regset
  else
    let in_list := (regset >>> rn) &&& 1 in
    if truth writeback && truth in_list then mret no_opcode
    else if negb (Bool.eqb (negb (truth writeback)) (negb (Z.eqb in_list 0))) then
      if bool_decide (encoding = ENFORCE_ENCODING_16BIT) then mret no_opcode
      else thop_emit_table TH_LDM
             (mk_thop_args [with_rd rn; with_rm regset; with_imm writeback; with_enc ENFORCE_ENCODING_32BIT])
    else thop_emit_table TH_LDM
           (mk_thop_args [with_rd rn; with_rm regset; with_imm writeback; with_enc encoding]).

Definition th_stm (rn regset writeback : Z) (encoding : thumb_enforce_encoding) : M thumb_opcode :=
  let in_list := (regset >>> rn) &&& 1 in
  let emit encoding := thop_emit_table TH_STM
    (mk_thop_args [with_rd rn; with_rm regset; with_imm writeback; with_enc encoding]) in
  if negb (truth writeback) then
    if bool_decide (encoding = ENFORCE_ENCODING_16BIT) then mret no_opcode
    else emit ENFORCE_ENCODING_32BIT
  else if truth in_list then
    let t16_ok := Z.leb rn 7 && Z.eqb (regset &&& ~~~ 0xff) 0
                  && Z.eqb (regset &&& u32 ((1 <<< rn) - 1)) 0 in
    if negb t16_ok || bool_decide (encoding = ENFORCE_ENCODING_32BIT) then mret no_opcode
    else emit encoding
  else emit encoding.

Definition th_ldmdb (rn reglist w : Z) : M thumb_opcode :=
  thop_emit_table TH_LDMDB (mk_thop_args [with_rd rn; with_rm reglist; with_imm w]).

Definition th_stmdb (rn reglist w : Z) (encoding : thumb_enforce_encoding) : M thumb_opcode :=
  thop_emit_table TH_STMDB (mk_thop_args [with_rd rn; with_rm reglist; with_imm w]).

(** ** [thop_branch.c] *)

Definition TH_BX : thop_table := TH_TABLE "bx"
  [V THOP_SHAPE_BX 0x4700].

Definition TH_BL_T1 : thop_table := TH_TABLE "bl"
  [VC THOP_SHAPE_BL_T1 0 THOP_CUSTOM_bl_t1_emit].

Definition TH_BLX_REG : thop_table := TH_TABLE "blx"
  [V THOP_SHAPE_BLX_REG 0x4780].

Definition TH_B_COND_T16 : thop_table := TH_TABLE "b"
  [V THOP_SHAPE_B_COND_T16 0xd000].

Definition TH_B_T3 : thop_table := TH_TABLE "b.w"
  [VC THOP_SHAPE_B_T3 0 THOP_CUSTOM_b_t3_emit].

Definition TH_B_T4 : thop_table := TH_TABLE "b.w"
  [VC THOP_SHAPE_B_T4 0 THOP_CUSTOM_b_t4_emit].

Definition TH_B_T2 : thop_table := TH_TABLE "b"
  [VC THOP_SHAPE_B_T2 0xe000 THOP_CUSTOM_b_t2_emit].

Definition TH_CBZ : thop_table := TH_TABLE "cbz"
  [VC THOP_SHAPE_CBZ 0xb100 THOP_CUSTOM_cbz_emit].

Definition TH_CBNZ : thop_table := TH_TABLE "cbnz"
  [VC THOP_SHAPE_CBZ 0xb900 THOP_CUSTOM_cbz_emit].

Definition th_bx_reg (rm : Z) : M thumb_opcode :=
  let rm := u16 rm in
  thop_emit_table TH_BX (mk_thop_args [with_rm rm]).

Definition th_bl_t1 (imm : Z) : M thumb_opcode :=
  thop_emit_table TH_BL_T1 (mk_thop_args [with_imm imm]).

Definition th_b_t1 (cond imm : Z) : M thumb_opcode :=
  thop_emit_table TH_B_COND_T16 (mk_thop_args [with_rd cond; with_imm (imm &&& 0xff)]).

Definition th_b_t3 (cond imm : Z) : M thumb_opcode :=
  thop_emit_table TH_B_T3 (mk_thop_args [with_rd cond; with_imm imm]).

Definition th_b_t4 (imm : Z) : M thumb_opcode :=
  thop_emit_table TH_B_T4 (mk_thop_args [with_imm (u32 imm)]).

Definition th_b_t2 (imm11 : Z) : M thumb_opcode :=
  thop_emit_table TH_B_T2 (mk_thop_args [with_imm (u32 imm11)]).

Definition th_blx_reg (rm : Z) : M thumb_opcode :=
  let rm := u16 rm in
  thop_emit_table TH_BLX_REG (mk_thop_args [with_rm rm]).

Definition th_cbz (rn imm nonzero : Z) : M thumb_opcode :=
  let rn := u16 rn in
  if truth nonzero then
    thop_emit_table TH_CBNZ (mk_thop_args [with_rd rn; with_imm imm])
  else
    thop_emit_table TH_CBZ (mk_thop_args [with_rd rn; with_imm imm]).

(** ** [thop_pld.c] *)

Definition th_pld_literal (imm : Z) : thumb_opcode :=
  let '(u, imm) := if Z.ltb imm 0 then (0, - imm) else (1, imm) in
  mk_opcode 4 (0xf81ff000 ||| (u <<< 23) ||| u32 imm).

Definition th_pld_imm (rn w imm : Z) : thumb_opcode :=
  if Z.leb 0 imm then mk_opcode 4 (0xf890f000 ||| (w <<< 22) ||| (rn <<< 16) ||| u32 imm)
  else
    let imm := - imm in
    mk_opcode 4 (0xf810fc00 ||| (w <<< 22) ||| (rn <<< 16) ||| u32 imm).

Definition th_pld_reg (rn rm w : Z) (shift : thumb_shift) : thumb_opcode :=
  mk_opcode 4 (0xf810f000 ||| (w <<< 22) ||| (rn <<< 16) ||| rm ||| (sh_value shift <<< 4)).

Definition th_pli_literal (imm : Z) : thumb_opcode :=
  let '(u, imm) := if Z.ltb imm 0 then (0, - imm) else (1, imm) in
  mk_opcode 4 (0xf91ff000 ||| (u <<< 23) ||| u32 imm).

Definition th_pli_imm (rn w imm : Z) : thumb_opcode :=
  if Z.leb 0 imm then mk_opcode 4 (0xf990f000 ||| (w <<< 22) ||| (rn <<< 16) ||| u32 imm)
  else
    let imm := - imm in
    mk_opcode 4 (0xf910fc00 ||| (w <<< 22) ||| (rn <<< 16) ||| u32 imm).

Definition th_pli_reg (rn rm w : Z) (shift : thumb_shift) : thumb_opcode :=
  mk_opcode 4 (0xf910f000 ||| (w <<< 22) ||| (rn <<< 16) ||| rm ||| (sh_value shift <<< 4)).

(** ** [thop_tbb.c] *)

Definition TH_TBB : thop_table := TH_TABLE "tbb"
  [V THOP_SHAPE_TBB 0xe8d0f000].

Definition TH_TBH : thop_table := TH_TABLE "tbh"
  [V THOP_SHAPE_TBB 0xe8d0f010].

Definition TH_TT : thop_table := TH_TABLE "tt"
  [VC THOP_SHAPE_TT 0xe840f000 THOP_CUSTOM_tt_emit].

Definition th_tbb (rn rm h : Z) : M thumb_opcode :=
  if truth h then
    thop_emit_table TH_TBH (mk_thop_args [with_rn rn; with_rm rm])
  else
    thop_emit_table TH_TBB (mk_thop_args [with_rn rn; with_rm rm]).

Definition th_tt (rd rn a t : Z) : M thumb_opcode :=
  thop_emit_table TH_TT (mk_thop_args [with_rd rd; with_rn rn; with_imm a; with_imm2 t]).

End Wrappers.

(** Every table of the file. *)
Definition tables_mem : list thop_table :=
  [TH_LDR_IMM; TH_LDRB_IMM; TH_LDRH_IMM; TH_LDRSB_IMM; TH_LDRSH_IMM; TH_STR_IMM; TH_STRB_IMM;
   TH_STRH_IMM; TH_LDR_REG; TH_LDRB_REG; TH_LDRH_REG; TH_LDRSB_REG; TH_LDRSH_REG; TH_STR_REG;
   TH_STRB_REG; TH_STRH_REG; TH_LDRT; TH_LDRBT; TH_LDRHT; TH_LDRSBT; TH_LDRSHT; TH_STRT;
   TH_STRBT; TH_STRHT; TH_LDA; TH_LDAB; TH_LDAH; TH_STL; TH_STLB; TH_STLH; TH_LDR_LITERAL;
   TH_LDRD_IMM; TH_STRD_IMM; TH_LDREX; TH_STREX; TH_LDREXB; TH_LDREXH; TH_STREXB; TH_STREXH;
   TH_LDAEX; TH_LDAEXB; TH_LDAEXH; TH_STLEX; TH_STLEXB; TH_STLEXH; TH_PUSH; TH_POP; TH_LDM;
   TH_STM; TH_LDMDB; TH_STMDB; TH_BX; TH_BL_T1; TH_BLX_REG; TH_B_COND_T16; TH_B_T3; TH_B_T4;
   TH_B_T2; TH_CBZ; TH_CBNZ; TH_TBB; TH_TBH; TH_TT].
