(* ===== verification/ThumbOpsSys.v ===== *)
(** * System, DSP, coprocessor and floating-point instructions

    The tables and public wrappers of [thop_system.c], [thop_mrs.c], [thop_dsp.c], [thop_coproc.c] and
    [thop_vfp.c], one definition per [TH_TABLE],
    function-generating macro and function, over the monad of the engine. *)

From stdpp Require Import strings.
From S2P Require Import Prelude ThumbTypes ThumbShapes ThumbPack ThumbCustom ThumbEngine.
Local Open Scope Z_scope.
Local Open Scope c_scope.

Section Wrappers.
Context `{MRet M, MBind M, !EncOps M}.

(** ** [thop_system.c] *)

Definition TH_NOP_T16 : thop_table := TH_TABLE "nop"
  [V THOP_SHAPE_HINT_T16 0xbf00].

Definition TH_NOP_T32 : thop_table := TH_TABLE "nop.w"
  [V THOP_SHAPE_HINT_T32 0xf3af8000].

Definition TH_SEV_T16 : thop_table := TH_TABLE "sev"
  [V THOP_SHAPE_HINT_T16 0xbf40].

Definition TH_SEV_T32 : thop_table := TH_TABLE "sev.w"
  [V THOP_SHAPE_HINT_T32 0xf3af8004].

Definition TH_WFE_T16 : thop_table := TH_TABLE "wfe"
  [V THOP_SHAPE_HINT_T16 0xbf20].

Definition TH_WFE_T32 : thop_table := TH_TABLE "wfe.w"
  [V THOP_SHAPE_HINT_T32 0xf3af8002].

Definition TH_WFI_T16 : thop_table := TH_TABLE "wfi"
  [V THOP_SHAPE_HINT_T16 0xbf30].

Definition TH_WFI_T32 : thop_table := TH_TABLE "wfi.w"
  [V THOP_SHAPE_HINT_T32 0xf3af8003].

Definition TH_YIELD_T16 : thop_table := TH_TABLE "yield"
  [V THOP_SHAPE_HINT_T16 0xbf10].

Definition TH_YIELD_T32 : thop_table := TH_TABLE "yield.w"
  [V THOP_SHAPE_HINT_T32 0xf3af8001].

Definition TH_SVC : thop_table := TH_TABLE "svc"
  [V THOP_SHAPE_IMM8_T16 0xdf00].

Definition TH_BKPT : thop_table := TH_TABLE "bkpt"
  [V THOP_SHAPE_IMM8_T16 0xbe00].

Definition TH_UDF_T16 : thop_table := TH_TABLE "udf"
  [V THOP_SHAPE_UDF_T16 0xde00].

Definition TH_UDF_T32 : thop_table := TH_TABLE "udf.w"
  [V THOP_SHAPE_UDF_T32 0xf7f0a000].

Definition TH_CPS : thop_table := TH_TABLE "cps"
  [V THOP_SHAPE_CPS 0xb660].

Definition TH_CLREX : thop_table := TH_TABLE "clrex"
  [V THOP_SHAPE_NOARG_T32 0xf3bf8f2f].

Definition TH_CSDB : thop_table := TH_TABLE "csdb"
  [V THOP_SHAPE_NOARG_T32 0xf3af8014].

Definition TH_DMB : thop_table := TH_TABLE "dmb"
  [V THOP_SHAPE_BARRIER 0xf3bf8f50].

Definition TH_DSB : thop_table := TH_TABLE "dsb"
  [V THOP_SHAPE_BARRIER 0xf3bf8f40].

Definition TH_ISB : thop_table := TH_TABLE "isb"
  [V THOP_SHAPE_BARRIER 0xf3bf8f60].

Definition TH_SSBB : thop_table := TH_TABLE "ssbb"
  [V THOP_SHAPE_NOARG_T32 0xf3bf8f40].

Definition TH_IT : thop_table := TH_TABLE "it"
  [V THOP_SHAPE_IT 0xbf00].

Definition TH_CLZ : thop_table := TH_TABLE "clz"
  [VC THOP_SHAPE_CLZ 0xfab0f080 THOP_CUSTOM_clz_emit].

Definition th_nop (encoding : thumb_enforce_encoding) : M thumb_opcode :=
  if bool_decide (encoding = ENFORCE_ENCODING_32BIT) then
    thop_emit_table TH_NOP_T32 (mk_thop_args [])
  else
    thop_emit_table TH_NOP_T16 (mk_thop_args []).

Definition th_sev (encoding : thumb_enforce_encoding) : M thumb_opcode :=
  if bool_decide (encoding = ENFORCE_ENCODING_32BIT) then
    thop_emit_table TH_SEV_T32 (mk_thop_args [])
  else
    thop_emit_table TH_SEV_T16 (mk_thop_args []).

Definition th_wfe (encoding : thumb_enforce_encoding) : M thumb_opcode :=
  if bool_decide (encoding = ENFORCE_ENCODING_32BIT) then
    thop_emit_table TH_WFE_T32 (mk_thop_args [])
  else
    thop_emit_table TH_WFE_T16 (mk_thop_args []).

Definition th_wfi (encoding : thumb_enforce_encoding) : M thumb_opcode :=
  if bool_decide (encoding = ENFORCE_ENCODING_32BIT) then
    thop_emit_table TH_WFI_T32 (mk_thop_args [])
  else
    thop_emit_table TH_WFI_T16 (mk_thop_args []).

Definition th_yield (encoding : thumb_enforce_encoding) : M thumb_opcode :=
  if bool_decide (encoding = ENFORCE_ENCODING_32BIT) then
    thop_emit_table TH_YIELD_T32 (mk_thop_args [])
  else
    thop_emit_table TH_YIELD_T16 (mk_thop_args []).

Definition th_svc (imm : Z) : M thumb_opcode :=
  thop_emit_table TH_SVC (mk_thop_args [with_imm imm]).

Definition th_bkpt (imm : Z) : M thumb_opcode :=
  thop_emit_table TH_BKPT (mk_thop_args [with_imm imm]).

Definition th_udf (imm : Z) (encoding : thumb_enforce_encoding) : M thumb_opcode :=
  if negb (bool_decide (encoding = ENFORCE_ENCODING_32BIT)) && Z.leb imm 0xff then
    thop_emit_table TH_UDF_T16 (mk_thop_args [with_imm imm])
  else
    thop_emit_table TH_UDF_T32 (mk_thop_args [with_imm (imm &&& 0xfff); with_imm2 ((imm >>> 12)
    &&& 0xf)]).

Definition th_cps (enable i f : Z) : M thumb_opcode :=
  thop_emit_table TH_CPS (mk_thop_args [with_rd enable; with_imm f; with_imm2 i]).

Definition th_clrex : M thumb_opcode :=
  thop_emit_table TH_CLREX (mk_thop_args []).

Definition th_csdb : M thumb_opcode :=
  thop_emit_table TH_CSDB (mk_thop_args []).

Definition th_dmb (option : Z) : M thumb_opcode :=
  thop_emit_table TH_DMB (mk_thop_args [with_imm option]).

Definition th_dsb (option : Z) : M thumb_opcode :=
  thop_emit_table TH_DSB (mk_thop_args [with_imm option]).

Definition th_isb (option : Z) : M thumb_opcode :=
  thop_emit_table TH_ISB (mk_thop_args [with_imm option]).

Definition th_ssbb : M thumb_opcode :=
  thop_emit_table TH_SSBB (mk_thop_args []).

Definition th_it (cond mask : Z) : M thumb_opcode :=
  let cond := u16 cond in
  let mask := u16 mask in
  thop_emit_table TH_IT (mk_thop_args [with_rd cond; with_imm mask]).

Definition th_clz (rd rm : Z) : M thumb_opcode :=
  thop_emit_table TH_CLZ (mk_thop_args [with_rd rd; with_rm rm]).

(** ** [thop_mrs.c] *)

Definition TH_MRS : thop_table := TH_TABLE "mrs"
  [VC THOP_SHAPE_MRS 0xf3ef8000 THOP_CUSTOM_mrs_emit].

Definition TH_MSR : thop_table := TH_TABLE "msr"
  [VC THOP_SHAPE_MSR 0xf3808000 THOP_CUSTOM_msr_emit].

Definition th_mrs (rd sysm : Z) : M thumb_opcode :=
  thop_emit_table TH_MRS (mk_thop_args [with_rd rd; with_rm sysm]).

Definition th_msr (specreg rn mask : Z) : M thumb_opcode :=
  thop_emit_table TH_MSR (mk_thop_args [with_rd rn; with_rm specreg; with_imm mask]).

(** ** [thop_dsp.c] *)

Definition TH_UADD8 : thop_table := TH_TABLE "uadd8"
  [V THOP_SHAPE_DSP_REG3 0xfa80f040].

Definition TH_USUB8 : thop_table := TH_TABLE "usub8"
  [V THOP_SHAPE_DSP_REG3 0xfac0f040].

Definition TH_SEL : thop_table := TH_TABLE "sel"
  [V THOP_SHAPE_DSP_REG3 0xfaa0f080].

Definition TH_PKHBT : thop_table := TH_TABLE "pkhbt"
  [VC THOP_SHAPE_PKH 0xeac00000 THOP_CUSTOM_pkhbt_emit].

Definition th_uadd8 (rd rn rm : Z) : M thumb_opcode :=
  let rd := u16 rd in
  let rn := u16 rn in
  let rm := u16 rm in
  thop_emit_table TH_UADD8 (mk_thop_args [with_rd rd; with_rn rn; with_rm rm]).

Definition th_usub8 (rd rn rm : Z) : M thumb_opcode :=
  let rd := u16 rd in
  let rn := u16 rn in
  let rm := u16 rm in
  thop_emit_table TH_USUB8 (mk_thop_args [with_rd rd; with_rn rn; with_rm rm]).

Definition th_sel (rd rn rm : Z) : M thumb_opcode :=
  let rd := u16 rd in
  let rn := u16 rn in
  let rm := u16 rm in
  thop_emit_table TH_SEL (mk_thop_args [with_rd rd; with_rn rn; with_rm rm]).

Definition th_pkhbt (rd rn rm : Z) (shift : thumb_shift) : M thumb_opcode :=
  thop_emit_table TH_PKHBT (mk_thop_args [with_rd rd; with_rn rn; with_rm rm; with_shift shift]).

(** ** [thop_coproc.c] *)

Definition TH_CDP : thop_table := TH_TABLE "cdp"
  [VC THOP_SHAPE_COPROC 0xee000000 THOP_CUSTOM_coproc_cdp_emit].

Definition TH_CDP2 : thop_table := TH_TABLE "cdp2"
  [VC THOP_SHAPE_COPROC 0xfe000000 THOP_CUSTOM_coproc_cdp_emit].

Definition TH_MCR : thop_table := TH_TABLE "mcr"
  [VC THOP_SHAPE_COPROC 0xee000010 THOP_CUSTOM_coproc_mcr_emit].

Definition TH_MCR2 : thop_table := TH_TABLE "mcr2"
  [VC THOP_SHAPE_COPROC 0xfe000010 THOP_CUSTOM_coproc_mcr_emit].

Definition TH_MRC : thop_table := TH_TABLE "mrc"
  [VC THOP_SHAPE_COPROC 0xee100010 THOP_CUSTOM_coproc_mcr_emit].

Definition TH_MRC2 : thop_table := TH_TABLE "mrc2"
  [VC THOP_SHAPE_COPROC 0xfe100010 THOP_CUSTOM_coproc_mcr_emit].

Definition TH_MCRR : thop_table := TH_TABLE "mcrr"
  [VC THOP_SHAPE_COPROC 0xec400000 THOP_CUSTOM_coproc_mcrr_emit].

Definition TH_MCRR2 : thop_table := TH_TABLE "mcrr2"
  [VC THOP_SHAPE_COPROC 0xfc400000 THOP_CUSTOM_coproc_mcrr_emit].

Definition TH_MRRC : thop_table := TH_TABLE "mrrc"
  [VC THOP_SHAPE_COPROC 0xec500000 THOP_CUSTOM_coproc_mcrr_emit].

Definition TH_MRRC2 : thop_table := TH_TABLE "mrrc2"
  [VC THOP_SHAPE_COPROC 0xfc500000 THOP_CUSTOM_coproc_mcrr_emit].

Definition th_cdp (coproc opc1 crd crn crm opc2 two : Z) : M thumb_opcode :=
  let t := if truth two then TH_CDP2 else TH_CDP in
  thop_emit_table t (mk_thop_args [with_rd crd; with_rn crn; with_rm crm; with_ra opc1; with_imm
    opc2; with_imm2 coproc]).

Definition th_mcr (coproc opc1 rt crn crm opc2 two : Z) : M thumb_opcode :=
  let t := if truth two then TH_MCR2 else TH_MCR in
  thop_emit_table t (mk_thop_args [with_rd rt; with_rn crn; with_rm crm; with_ra opc1; with_imm
    opc2; with_imm2 coproc]).

Definition th_mrc (coproc opc1 rt crn crm opc2 two : Z) : M thumb_opcode :=
  let t := if truth two then TH_MRC2 else TH_MRC in
  thop_emit_table t (mk_thop_args [with_rd rt; with_rn crn; with_rm crm; with_ra opc1; with_imm
    opc2; with_imm2 coproc]).

Definition th_mcrr (coproc opc1 rt rt2 crm two : Z) : M thumb_opcode :=
  let t := if truth two then TH_MCRR2 else TH_MCRR in
  thop_emit_table t (mk_thop_args [with_rd rt; with_rn rt2; with_rm crm; with_ra opc1; with_imm2
    coproc]).

Definition th_mrrc (coproc opc1 rt rt2 crm two : Z) : M thumb_opcode :=
  let t := if truth two then TH_MRRC2 else TH_MRRC in
  thop_emit_table t (mk_thop_args [with_rd rt; with_rn rt2; with_rm crm; with_ra opc1; with_imm2
    coproc]).

(** ** [thop_vfp.c] *)

Definition TH_VADD_F_SP : thop_table := TH_TABLE "vadd.f32"
  [VC THOP_SHAPE_VFP_SP 0xee300a00 THOP_CUSTOM_vfp_arith3_emit].

Definition TH_VADD_F_DP : thop_table := TH_TABLE "vadd.f64"
  [VC THOP_SHAPE_VFP_DP 0xee300b00 THOP_CUSTOM_vfp_arith3_emit].

Definition TH_VSUB_F_SP : thop_table := TH_TABLE "vsub.f32"
  [VC THOP_SHAPE_VFP_SP 0xee300a40 THOP_CUSTOM_vfp_arith3_emit].

Definition TH_VSUB_F_DP : thop_table := TH_TABLE "vsub.f64"
  [VC THOP_SHAPE_VFP_DP 0xee300b40 THOP_CUSTOM_vfp_arith3_emit].

Definition TH_VMUL_F_SP : thop_table := TH_TABLE "vmul.f32"
  [VC THOP_SHAPE_VFP_SP 0xee200a00 THOP_CUSTOM_vfp_arith3_emit].

Definition TH_VMUL_F_DP : thop_table := TH_TABLE "vmul.f64"
  [VC THOP_SHAPE_VFP_DP 0xee200b00 THOP_CUSTOM_vfp_arith3_emit].

Definition TH_VDIV_F_SP : thop_table := TH_TABLE "vdiv.f32"
  [VC THOP_SHAPE_VFP_SP 0xee800a00 THOP_CUSTOM_vfp_arith3_emit].

Definition TH_VDIV_F_DP : thop_table := TH_TABLE "vdiv.f64"
  [VC THOP_SHAPE_VFP_DP 0xee800b00 THOP_CUSTOM_vfp_arith3_emit].

Definition TH_VNEG_F_SP : thop_table := TH_TABLE "vneg.f32"
  [VC THOP_SHAPE_VFP_SP 0xeeb10a40 THOP_CUSTOM_vfp_arith2_emit].

Definition TH_VNEG_F_DP : thop_table := TH_TABLE "vneg.f64"
  [VC THOP_SHAPE_VFP_DP 0xeeb10b40 THOP_CUSTOM_vfp_arith2_emit].

Definition TH_VCMP_F_SP : thop_table := TH_TABLE "vcmp.f32"
  [VC THOP_SHAPE_VFP_SP 0xeeb40a40 THOP_CUSTOM_vfp_arith2_emit].

Definition TH_VCMP_F_DP : thop_table := TH_TABLE "vcmp.f64"
  [VC THOP_SHAPE_VFP_DP 0xeeb40b40 THOP_CUSTOM_vfp_arith2_emit].

Definition TH_VPUSH_SP : thop_table := TH_TABLE "vpush.f32"
  [VC THOP_SHAPE_VFP_SP 0xed2d0a00 THOP_CUSTOM_vfp_pushpop_emit].

Definition TH_VPUSH_DP : thop_table := TH_TABLE "vpush.f64"
  [VC THOP_SHAPE_VFP_SP 0xed2d0b00 THOP_CUSTOM_vfp_pushpop_emit].

Definition TH_VPOP_SP : thop_table := TH_TABLE "vpop.f32"
  [VC THOP_SHAPE_VFP_SP 0xecbd0a00 THOP_CUSTOM_vfp_pushpop_emit].

Definition TH_VPOP_DP : thop_table := TH_TABLE "vpop.f64"
  [VC THOP_SHAPE_VFP_SP 0xecbd0b00 THOP_CUSTOM_vfp_pushpop_emit].

Definition TH_VLDR_SP : thop_table := TH_TABLE "vldr.f32"
  [VC THOP_SHAPE_VFP_SP 0xed900a00 THOP_CUSTOM_vfp_ldst_emit].

Definition TH_VLDR_DP : thop_table := TH_TABLE "vldr.f64"
  [VC THOP_SHAPE_VFP_DP_MOVE 0xed900b00 THOP_CUSTOM_vfp_ldst_emit].

Definition TH_VSTR_SP : thop_table := TH_TABLE "vstr.f32"
  [VC THOP_SHAPE_VFP_SP 0xed800a00 THOP_CUSTOM_vfp_ldst_emit].

Definition TH_VSTR_DP : thop_table := TH_TABLE "vstr.f64"
  [VC THOP_SHAPE_VFP_DP_MOVE 0xed800b00 THOP_CUSTOM_vfp_ldst_emit].

Definition TH_VMOV_REG_SP : thop_table := TH_TABLE "vmov.f32"
  [VC THOP_SHAPE_VFP_SP 0xeeb00a40 THOP_CUSTOM_vmov_reg_emit].

Definition TH_VMOV_REG_DP : thop_table := TH_TABLE "vmov.f64"
  [VC THOP_SHAPE_VFP_DP 0xeeb00b40 THOP_CUSTOM_vmov_reg_emit].

Definition TH_VMOV_GP_SP : thop_table := TH_TABLE "vmov.gp_sp"
  [VC THOP_SHAPE_VMOVGPSP 0xee000a10 THOP_CUSTOM_vmov_gp_sp_emit].

Definition TH_VMOV_2GP_DP : thop_table := TH_TABLE "vmov.2gp_dp"
  [VC THOP_SHAPE_VMOV2GPDP 0xec400b10 THOP_CUSTOM_vmov_2gp_dp_emit].

Definition TH_VMRS : thop_table := TH_TABLE "vmrs"
  [V THOP_SHAPE_VMRS 0xeef10a10].

Definition TH_VCVT_FD : thop_table := TH_TABLE "vcvt.f64.f32"
  [VC THOP_SHAPE_VCVT_FD 0xeeb70ac0 THOP_CUSTOM_vcvt_fd_emit].

Definition TH_VCVT_DF : thop_table := TH_TABLE "vcvt.f32.f64"
  [VC THOP_SHAPE_VCVT_DF 0xeeb70bc0 THOP_CUSTOM_vcvt_df_emit].

Definition TH_VCVT_FP_INT_SP : thop_table := TH_TABLE "vcvt.fp_int.f32"
  [VC THOP_SHAPE_VCVT_FP_INT_SP 0xeeb80a40 THOP_CUSTOM_vcvt_fp_int_emit].

Definition TH_VCVT_FP_INT_DP : thop_table := TH_TABLE "vcvt.fp_int.f64"
  [VC THOP_SHAPE_VCVT_FP_INT_DP 0xeeb80b40 THOP_CUSTOM_vcvt_fp_int_emit].

Definition th_vadd_f (vd vn vm sz : Z) : M thumb_opcode :=
  if Z.eqb sz 0 then
    thop_emit_table TH_VADD_F_SP (mk_thop_args [with_rd vd; with_rn vn; with_rm vm])
  else
    thop_emit_table TH_VADD_F_DP (mk_thop_args [with_rd vd; with_rn vn; with_rm vm]).

Definition th_vsub_f (vd vn vm sz : Z) : M thumb_opcode :=
  if Z.eqb sz 0 then
    thop_emit_table TH_VSUB_F_SP (mk_thop_args [with_rd vd; with_rn vn; with_rm vm])
  else
    thop_emit_table TH_VSUB_F_DP (mk_thop_args [with_rd vd; with_rn vn; with_rm vm]).

Definition th_vmul_f (vd vn vm sz : Z) : M thumb_opcode :=
  if Z.eqb sz 0 then
    thop_emit_table TH_VMUL_F_SP (mk_thop_args [with_rd vd; with_rn vn; with_rm vm])
  else
    thop_emit_table TH_VMUL_F_DP (mk_thop_args [with_rd vd; with_rn vn; with_rm vm]).

Definition th_vdiv_f (vd vn vm sz : Z) : M thumb_opcode :=
  if Z.eqb sz 0 then
    thop_emit_table TH_VDIV_F_SP (mk_thop_args [with_rd vd; with_rn vn; with_rm vm])
  else
    thop_emit_table TH_VDIV_F_DP (mk_thop_args [with_rd vd; with_rn vn; with_rm vm]).

Definition th_vneg_f (vd vm sz : Z) : M thumb_opcode :=
  if Z.eqb sz 0 then
    thop_emit_table TH_VNEG_F_SP (mk_thop_args [with_rd vd; with_rm vm])
  else
    thop_emit_table TH_VNEG_F_DP (mk_thop_args [with_rd vd; with_rm vm]).

Definition th_vcmp_f (vd vm sz : Z) : M thumb_opcode :=
  if Z.eqb sz 0 then
    thop_emit_table TH_VCMP_F_SP (mk_thop_args [with_rd vd; with_rm vm])
  else
    thop_emit_table TH_VCMP_F_DP (mk_thop_args [with_rd vd; with_rm vm]).

Definition th_vpush (regs is_doubleword : Z) : M thumb_opcode :=
  if Z.eqb is_doubleword 0 then
    thop_emit_table TH_VPUSH_SP (mk_thop_args [with_imm regs])
  else
    thop_emit_table TH_VPUSH_DP (mk_thop_args [with_imm regs]).

Definition th_vpop (regs is_doubleword : Z) : M thumb_opcode :=
  if Z.eqb is_doubleword 0 then
    thop_emit_table TH_VPOP_SP (mk_thop_args [with_imm regs])
  else
    thop_emit_table TH_VPOP_DP (mk_thop_args [with_imm regs]).

Definition th_vldmstm (load decrement_before rn writeback regs is_doubleword : Z) : thumb_opcode :=
  let base := 0xec000a00 ||| (if truth is_doubleword then 0x100 else 0) |||
    (b2z (truth load) <<< 20) ||| (b2z (truth writeback) <<< 21) ||| ((rn &&& 0xf) <<< 16) |||
    (if truth decrement_before then 1 <<< 24 else 1 <<< 23) in
  vfp_pushpop_emit base (mk_thop_args [with_imm regs]).

Definition th_vldr (vd rn offset is_double : Z) : M thumb_opcode :=
  let u := if Z.leb 0 offset then 1 else 0 in
  let imm8 := (u32 (if Z.ltb offset 0 then - offset else offset) >>> 2) &&& 0xff in
  if Z.eqb is_double 0
  then thop_emit_table TH_VLDR_SP (mk_thop_args [with_rd vd; with_rn rn; with_imm imm8; with_imm2 u])
  else thop_emit_table TH_VLDR_DP (mk_thop_args [with_rd vd; with_rn rn; with_imm imm8; with_imm2 u]).

Definition th_vstr (vd rn offset is_double : Z) : M thumb_opcode :=
  let u := if Z.leb 0 offset then 1 else 0 in
  let imm8 := (u32 (if Z.ltb offset 0 then - offset else offset) >>> 2) &&& 0xff in
  if Z.eqb is_double 0
  then thop_emit_table TH_VSTR_SP (mk_thop_args [with_rd vd; with_rn rn; with_imm imm8; with_imm2 u])
  else thop_emit_table TH_VSTR_DP (mk_thop_args [with_rd vd; with_rn rn; with_imm imm8; with_imm2 u]).

Definition th_vmov_register (vd vm sz : Z) : M thumb_opcode :=
  let vd := u16 vd in
  let vm := u16 vm in
  if Z.eqb sz 0 then
    thop_emit_table TH_VMOV_REG_SP (mk_thop_args [with_rd vd; with_rm vm])
  else
    thop_emit_table TH_VMOV_REG_DP (mk_thop_args [with_rd vd; with_rm vm]).

Definition th_vmov_gp_sp (rt sn to_arm_register : Z) : M thumb_opcode :=
  let rt := u16 rt in
  let sn := u16 sn in
  let to_arm_register := u16 to_arm_register in
  thop_emit_table TH_VMOV_GP_SP (mk_thop_args [with_rd rt; with_rn sn; with_imm2
    to_arm_register]).

Definition th_vmov_2gp_dp (rt rt2 dm to_arm_register : Z) : M thumb_opcode :=
  let rt := u16 rt in
  let rt2 := u16 rt2 in
  let dm := u16 dm in
  let to_arm_register := u16 to_arm_register in
  thop_emit_table TH_VMOV_2GP_DP (mk_thop_args [with_rd rt; with_rn rt2; with_rm dm; with_imm2
    to_arm_register]).

Definition th_vmrs (rt : Z) : M thumb_opcode :=
  let rt := u16 rt in
  thop_emit_table TH_VMRS (mk_thop_args [with_rd rt]).

Definition th_vcvt_float_to_double (vd vm : Z) : M thumb_opcode :=
  thop_emit_table TH_VCVT_FD (mk_thop_args [with_rd vd; with_rm vm]).

Definition th_vcvt_double_to_float (vd vm : Z) : M thumb_opcode :=
  thop_emit_table TH_VCVT_DF (mk_thop_args [with_rd vd; with_rm vm]).

Definition th_vcvt_fp_int (vd vm opc is_double op : Z) : M thumb_opcode :=
  if Z.eqb is_double 0 then
    thop_emit_table TH_VCVT_FP_INT_SP (mk_thop_args [with_rd vd; with_rm vm; with_imm opc;
    with_imm2 op; with_puw 0])
  else
    thop_emit_table TH_VCVT_FP_INT_DP (mk_thop_args [with_rd vd; with_rm vm; with_imm opc;
    with_imm2 op; with_puw 1]).

Definition th_vcvt_convert (vd vm : Z) (dest_type src_type : string) : M thumb_opcode :=
  let eqs t s := bool_decide (t = s) in
  if (eqs dest_type "s32" || eqs dest_type "u32") && eqs src_type "f32" then
    let is_unsigned := eqs dest_type "u32" in
    th_vcvt_fp_int vd vm (if is_unsigned then 0x4 else 0x5) 0 1
  else if (eqs dest_type "s32" || eqs dest_type "u32") && eqs src_type "f64" then
    let is_unsigned := eqs dest_type "u32" in
    th_vcvt_fp_int vd vm (if is_unsigned then 0x4 else 0x5) 1 1
  else if (eqs dest_type "f32" || eqs dest_type "f64") && (eqs src_type "s32" || eqs src_type "u32") then
    let dst_is_double := eqs dest_type "f64" in
    let is_unsigned := eqs src_type "u32" in
    th_vcvt_fp_int vd vm 0 (b2z dst_is_double) (if is_unsigned then 0 else 1)
  else if eqs dest_type "f64" && eqs src_type "f32" then th_vcvt_float_to_double (Z.div vd 2) vm
  else if eqs dest_type "f32" && eqs src_type "f64" then th_vcvt_double_to_float vd (Z.div vm 2)
  else mret no_opcode.

End Wrappers.

(** Every table of the file. *)
Definition tables_sys : list thop_table :=
  [TH_NOP_T16; TH_NOP_T32; TH_SEV_T16; TH_SEV_T32; TH_WFE_T16; TH_WFE_T32; TH_WFI_T16;
   TH_WFI_T32; TH_YIELD_T16; TH_YIELD_T32; TH_SVC; TH_BKPT; TH_UDF_T16; TH_UDF_T32; TH_CPS;
   TH_CLREX; TH_CSDB; TH_DMB; TH_DSB; TH_ISB; TH_SSBB; TH_IT; TH_CLZ; TH_MRS; TH_MSR; TH_UADD8;
   TH_USUB8; TH_SEL; TH_PKHBT; TH_CDP; TH_CDP2; TH_MCR; TH_MCR2; TH_MRC; TH_MRC2; TH_MCRR;
   TH_MCRR2; TH_MRRC; TH_MRRC2; TH_VADD_F_SP; TH_VADD_F_DP; TH_VSUB_F_SP; TH_VSUB_F_DP;
   TH_VMUL_F_SP; TH_VMUL_F_DP; TH_VDIV_F_SP; TH_VDIV_F_DP; TH_VNEG_F_SP; TH_VNEG_F_DP;
   TH_VCMP_F_SP; TH_VCMP_F_DP; TH_VPUSH_SP; TH_VPUSH_DP; TH_VPOP_SP; TH_VPOP_DP; TH_VLDR_SP;
   TH_VLDR_DP; TH_VSTR_SP; TH_VSTR_DP; TH_VMOV_REG_SP; TH_VMOV_REG_DP; TH_VMOV_GP_SP;
   TH_VMOV_2GP_DP; TH_VMRS; TH_VCVT_FD; TH_VCVT_DF; TH_VCVT_FP_INT_SP; TH_VCVT_FP_INT_DP].
