(* ===== verification/ThumbDecode.v ===== *)
(** * Encoder correctness: the emitted words decode to the requested instructions *)

From S2P Require Import Prelude BitReflect ArmDecode ThumbTypes ThumbShapes ThumbPack ThumbCustom.
From S2P Require Import ThumbEngine ThumbOpsAlu ThumbOpsMem ThumbOpsSys.
Local Open Scope Z_scope.
Local Open Scope c_scope.

(** The code [m] produces the opcode [op] (of non-zero size) from state [st]. *)
Definition produces (m : Enc thumb_opcode) (st : enc_state) (op : thumb_opcode) : Prop :=
  op_size op <> 0 /\ exists st', m st = Some (op, st').

Definition decodes (op : thumb_opcode) (i : instr) : Prop :=
  decode (op_size op) (op_opcode op) = Some i.

Definition reg (r : Z) : Prop := 0 <= r < 16.

Lemma produces_intro m st op st' : op_size op <> 0 -> m st = Some (op, st') -> produces m st op.
Proof. intros Hs Hm. split; [done|by exists st']. Qed.

(** An encoder with every feature and an empty cache, and the evaluation of a call
    on it that leaves the cache alone. *)
Definition full_state : enc_state := init_state (Z.ones 32).

Ltac run_full := apply (produces_intro _ _ _ full_state); [vm_compute; congruence|vm_compute; reflexivity].

(** A produced opcode comes from a variant of the table. *)
Lemma produces_table t a st op :
  state_ok st -> produces (thop_emit_table t a) st op ->
  exists v, v ∈ table_variants (t_variants t) /\ accepts (target_feat st) v a op.
Proof.
  intros Hst (Hs & st' & Hrun).
  destruct (emit_table_returns t a st op st' Hst Hrun) as [Hp _].
  apply emit_pure_inv in Hp as [(pre & v & post & E & _ & Hv)|[-> _]]; [|done].
  exists v. split; [|done]. rewrite E. apply elem_of_app. right. apply list_elem_of_here.
Qed.

(** With its place: the variants before it were passed over. *)
Lemma produces_at t a st op :
  state_ok st -> produces (thop_emit_table t a) st op ->
  exists i v, table_variants (t_variants t) !! i = Some v /\ accepts (target_feat st) v a op /\
    forall j w, (j < i)%nat -> table_variants (t_variants t) !! j = Some w ->
      rejects (target_feat st) w a.
Proof.
  intros Hst (Hs & st' & Hrun).
  destruct (emit_table_returns t a st op st' Hst Hrun) as [Hp _].
  apply emit_pure_inv in Hp as [(pre & v & post & E & Hpre & Hv)|[-> _]]; [|done].
  exists (length pre), v. rewrite E. split_and!; [by apply list_lookup_middle|done|].
  intros j w Hj Hw. rewrite lookup_app_l in Hw by done. apply (Forall_lookup_1 _ _ _ _ Hpre Hw).
Qed.

(** ** The facts a variant's acceptance gives about the operands

    Stated over the shape's fields, so that for a concrete shape every condition
    is a closed boolean and what remains are plain facts about the operands. *)

Definition when (b : bool) (P : Prop) : Prop := if b then P else True.

Definition reg_fact (used : bool) (con r : Z) : Prop :=
  when used
    (when (truth (con &&& REG_LOW_ONLY)) (r <= 7) /\ when (truth (con &&& REG_NOT_SP)) (r <> 13) /\
     when (truth (con &&& REG_NOT_PC)) (r <> 15) /\ when (truth (con &&& REG_SP_ONLY)) (r = 13) /\
     when (truth (con &&& REG_PC_ONLY)) (r = 15)).

Definition flag_fact (has_s implicit : bool) (flags : thumb_flags_behaviour) : Prop :=
  match flags with
  | FLAGS_BEHAVIOUR_SET => has_s || implicit = true
  | FLAGS_BEHAVIOUR_BLOCK => implicit = false
  | FLAGS_BEHAVIOUR_NOT_IMPORTANT => True
  end.

Definition shift_fact (fields : bool) (allowed : Z) (t : thumb_shift_type) : Prop :=
  when (negb (fields || truth allowed)) (t = THUMB_SHIFT_NONE) /\
  when (truth allowed)
    (t = THUMB_SHIFT_NONE \/ truth (allowed &&& (1 <<< shift_type_val t)) = true).

Definition imm_fact (spec : imm_spec) (place : bitfield) (imm bits : Z) : Prop :=
  match spec with
  | mk_imm_spec kind width scale signed =>
      when (bool_decide (kind = IMM_NONE)) (bits = 0) /\
      when (negb (bool_decide (kind = IMM_NONE)))
       (when signed (s32 imm < 0) /\
        let m := if signed then u32 (- s32 imm) else imm in
        when (Z.ltb 0 scale) (m &&& u32 ((1 <<< scale) - 1) = 0) /\
        let m := if Z.ltb 0 scale then m >>> scale else m in
        when (bool_decide (kind = IMM_RAW)) (m < (1 <<< width) /\ bits = thop_place m place) /\
        when (bool_decide (kind = IMM_PACK_CONST))
          (bits = pack_const_compute imm /\ (bits = 0 -> imm = 0)) /\
        when (bool_decide (kind = IMM_PACK_3_8_1))
          (m < (if truth width then 1 <<< width else 0x10000) /\ bits = th_packimm_3_8_1 m) /\
        when (bool_decide (kind = IMM_PACK_10_11_0)) (bits = th_packimm_10_11_0 imm))
  end.

Definition variant_fact (s : thop_variant_shape) (a : thop_args) (bits : Z) : Prop :=
  reg_fact (truth (bf_width (s_rd_place s)) || truth (s_rd_con s)) (s_rd_con s) (a_rd a) /\
  reg_fact (truth (bf_width (s_rn_place s)) || truth (s_rn_con s)) (s_rn_con s) (a_rn a) /\
  reg_fact (truth (bf_width (s_rm_place s)) || truth (s_rm_con s)) (s_rm_con s) (a_rm a) /\
  reg_fact (truth (bf_width (s_ra_place s)) || truth (s_ra_con s)) (s_ra_con s) (a_ra a) /\
  when (truth (s_rd_con s &&& REG_EQ_RN)) (a_rd a = a_rn a) /\
  when (truth (s_rd_con s &&& REG_EQ_RM)) (a_rd a = a_rm a) /\
  flag_fact (s_has_s_bit s) (s_implicit_s s) (a_flags a) /\
  shift_fact (truth (bf_width (s_shift_type_bits s)) || truth (bf_width (s_shift_imm2_bits s)) ||
              truth (bf_width (s_shift_imm3_bits s))) (s_shift_allowed s) (sh_type (a_shift a)) /\
  when (Z.eqb (bf_width (s_puw_bits s)) 0 && truth (s_puw_fixed s)) (a_puw a = s_puw_fixed s) /\
  when (truth (s_rm_con s &&& REG_LOW_REGSET)) (a_rm a &&& ~~~ 0xff = 0) /\
  imm_fact (s_imm s) (s_imm_place s) (a_imm a) bits.

Lemma when_intro (b : bool) P : (b = true -> P) -> when b P.
Proof. destruct b; simpl; auto. Qed.

Lemma reg_fact_intro used con r :
  (used = true -> thop_reg_ok r con = true) -> reg_fact used con r.
Proof.
  intros H. apply when_intro. intros Hu. destruct (thop_reg_ok_facts r con (H Hu)).
  split_and!; by apply when_intro.
Qed.

Lemma imm_fact_intro feat s a bits :
  imm_bits feat s a = Some (Some bits) -> imm_fact (s_imm s) (s_imm_place s) (a_imm a) bits.
Proof.
  unfold imm_bits, thop_try_imm, imm_fact. destruct (s_imm s) as [kind width scale signed]; simpl.
  unfold mret, Pure_ret, mbind, Pure_bind. destruct (bool_decide (kind = IMM_NONE)) eqn:Hk; simpl.
  { by intros [= ->]. }
  destruct (signed && Z.leb 0 (s32 (a_imm a))) eqn:Hsg; [done|].
  set (m := if signed then _ else _).
  destruct (Z.ltb 0 scale && truth _) eqn:Hsc; [done|].
  set (m' := if Z.ltb 0 scale then _ else _). intros H.
  split; [done|]. split; [by destruct signed; simpl in *; [lia|]|].
  split; [by apply when_intro; intros E; rewrite E in Hsc; apply truth_false in Hsc|].
  destruct kind; simpl in *; try done.
  - destruct (Z.leb_spec (1 <<< width) m'); by simplify_eq.
  - destruct (negb (truth (pack_const_compute (a_imm a))) && negb (Z.eqb (a_imm a) 0)) eqn:E;
      simplify_eq. split_and!; try done. intros Hz. rewrite Hz in E. simpl in E. lia.
  - destruct (truth width).
    + destruct (Z.leb_spec (1 <<< width) m'); by simplify_eq.
    + destruct (Z.ltb_spec 0xFFFF m'); simplify_eq. split_and!; try done. lia.
  - by simplify_eq.
Qed.

Lemma variant_fact_intro feat s a bits :
  thop_guards feat s a = true -> thop_regset_ok s a = true ->
  imm_bits feat s a = Some (Some bits) -> variant_fact s a bits.
Proof.
  intros Hg Hr Hb. destruct (thop_guards_facts feat s a Hg).
  split_and!; try (by apply reg_fact_intro); try (by apply when_intro).
  - unfold flag_fact. destruct (a_flags a); auto.
  - destruct (decide (sh_type (a_shift a) = THUMB_SHIFT_NONE)) as [E|E];
      [split; apply when_intro; auto|].
    destruct (gf_shift E) as [H1 H2]. split; apply when_intro.
    + intros [H3 H4%truth_false]%negb_true_iff%orb_false_iff.
      destruct H1 as [H1|H1]; [congruence|done].
    + intros H3%truth_true. right. by destruct H2.
  - apply when_intro. intros [H1%Z.eqb_eq H2%truth_true]%andb_prop. auto.
  - apply when_intro. intros E. unfold thop_regset_ok in Hr. rewrite E in Hr.
    apply guard_step in Hr as [Hr _]. by apply truth_false in Hr.
  - by eapply imm_fact_intro.
Qed.

(** ** Automation: from a produced opcode to its instruction *)

(** A produced opcode comes from one of the table's variants. *)
Lemma accepts_fact feat v a op :
  accepts feat v a op -> is_custom_none v = true ->
  exists bits, variant_fact (thop_shapes (v_shape v)) a bits /\
    op = mk_opcode (size_val (s_size (thop_shapes (v_shape v))))
                   (thop_encode (thop_shapes (v_shape v)) (v_base v) bits a).
Proof.
  intros Hv Hc. apply accepts_inv in Hv as (Hg & Hr & bits & Hb & Hop). rewrite Hc in Hop.
  exists bits. split; [|done]. by eapply variant_fact_intro.
Qed.

Lemma accepts_custom_fact feat v a op :
  accepts feat v a op -> is_custom_none v = false ->
  exists bits, variant_fact (thop_shapes (v_shape v)) a bits /\
    thop_call_custom (M := Pure) (v_custom v) (v_base v) a feat = Some op /\ op_size op <> 0.
Proof.
  intros Hv Hc. apply accepts_inv in Hv as (Hg & Hr & bits & Hb & Hop). rewrite Hc in Hop.
  exists bits. split; [|done]. by eapply variant_fact_intro.
Qed.

(** Closed conditions are evaluated, and the facts they guard kept or dropped. *)
Ltac eval_bool b H :=
  lazymatch b with
  | true => fail
  | false => fail
  | _ =>
      let v := eval vm_compute in b in
      lazymatch v with
      | true => change b with true in H
      | false => change b with false in H
      end
  end.

Ltac eval_cond H :=
  repeat match type of H with
  | context [when ?b _] => eval_bool b H
  | context [or_if ?b _ _] => eval_bool b H
  | context [if ?b then _ else _] => eval_bool b H
  end;
  cbv beta iota delta [when or_if] in H.

Ltac destruct_facts H :=
  lazymatch type of H with
  | _ /\ _ => let H1 := fresh "F" in let H2 := fresh "F" in
              destruct H as [H1 H2]; destruct_facts H1; destruct_facts H2
  | True => clear H
  | @eq bool ?b ?c =>
      let b' := eval vm_compute in b in
      let c' := eval vm_compute in c in
      lazymatch constr:((b', c')) with
      | (true, true) => clear H
      | (false, false) => clear H
      | (true, false) => discriminate H
      | (false, true) => discriminate H
      end
  | _ => idtac
  end.

Ltac args_simpl H :=
  cbn [a_rd a_rn a_rm a_ra a_imm a_imm2 a_shift a_flags a_enc a_in_it_block a_puw a_exclude_bit
       mk_thop_args fold_left with_rd with_rn with_rm with_ra with_imm with_imm2 with_shift
       with_flags with_enc with_in_it_block with_puw with_exclude_bit args0 THUMB_SHIFT_DEFAULT
       sh_type sh_value sh_mode] in H.

Ltac shape_simpl H :=
  cbn [s_feat s_imm s_rd_place s_rn_place s_rm_place s_ra_place s_imm_place s_shift_type_bits
       s_shift_imm2_bits s_shift_imm3_bits s_imm2_place s_split_imm2_place s_split_imm3_place
       s_puw_bits s_rm_raw_place s_dn_rd_split s_rd_con s_rn_con s_rm_con s_ra_con s_size
       s_shift_allowed s_puw_fixed s_has_s_bit s_implicit_s s_forbid_s_in_it s_has_rd_hi
       bf_width bf_shift] in H.

(** The word of an accepted custom variant, emitter unfolded and its conditions
    turned into facts. *)
Ltac custom_word Hop Hs :=
  cbn [thop_call_custom v_custom VC] in Hop;
  unfold bl_t1_emit, b_t3_emit, b_t4_emit, b_t2_emit, cbz_emit, cmp_reg_t2_custom_emit,
    ldr_literal_emit, ldrd_imm_emit, mov_reg_t1_shift_emit, mov_imm_t1_emit,
    mov_reg_shift_t1_emit, th_shift_type_to_op, mvn_imm_emit, mul_t16_emit, long_mul_emit, shift_reg_t1_emit,
    clz_emit in Hop;
  unfold mret, Pure_ret, mbind, Pure_bind in Hop;
  cbn [pack_const Pure_ops] in Hop; cbv zeta in Hop; args_simpl Hop; unfold b2z in Hop;
  repeat match type of Hop with context [bool_decide ?P] => eval_bool (bool_decide P) Hop end;
  cbn [andb orb negb] in Hop; cbv iota in Hop;
  repeat match type of Hop with
  | context [if ?b then _ else _] =>
      let E := fresh "E" in destruct b eqn:E
  end;
  apply Some_inj in Hop; try (exfalso; rewrite <-Hop in Hs; apply Hs; reflexivity);
  symmetry in Hop; clear Hs.

(** The facts and the word of an accepted variant with a concrete shape. *)
Ltac accepted_custom Hv :=
  let bits := fresh "bits" in let Hf := fresh "Hf" in let Hop := fresh "Hop" in
  let Hs := fresh "Hs" in
  apply accepts_custom_fact in Hv; [|vm_compute; reflexivity];
  destruct Hv as (bits & Hf & Hop & Hs);
  cbn [v_shape v_base V VC] in Hf, Hop;
  lazymatch type of Hf with
  | context [thop_shapes ?x] =>
      let s := eval vm_compute in (thop_shapes x) in
      change (thop_shapes x) with s in Hf
  end;
  unfold variant_fact, reg_fact, flag_fact, shift_fact, imm_fact in Hf;
  shape_simpl Hf; args_simpl Hf; cbv zeta in Hf; eval_cond Hf; destruct_facts Hf;
  custom_word Hop Hs.

Ltac accepted Hv :=
  let bits := fresh "bits" in let Hf := fresh "Hf" in let Hop := fresh "Hop" in
  apply accepts_fact in Hv; [|vm_compute; reflexivity];
  destruct Hv as (bits & Hf & Hop);
  cbn [v_shape v_base V] in Hf, Hop;
  lazymatch type of Hop with
  | context [thop_encode (thop_shapes ?x) _ _ _] =>
      let s := eval vm_compute in (thop_shapes x) in
      change (thop_shapes x) with s in Hf, Hop
  end;
  unfold variant_fact, reg_fact, flag_fact, shift_fact, imm_fact in Hf;
  shape_simpl Hf; args_simpl Hf; cbv zeta in Hf; eval_cond Hf; destruct_facts Hf;
  unfold thop_encode in Hop; cbv zeta in Hop; shape_simpl Hop; args_simpl Hop; eval_cond Hop;
  repeat match type of Hop with
  | context [u32 ((1 <<< ?k) - 1)] =>
      let v := eval vm_compute in (u32 ((1 <<< k) - 1)) in
      change (u32 ((1 <<< k) - 1)) with v in Hop
  end;
  rewrite ?thop_place_0 in Hop; rewrite ?thop_place_eq in Hop by lia.

Definition flags_ok (flags : thumb_flags_behaviour) (s : bool) : Prop :=
  match flags with
  | FLAGS_BEHAVIOUR_SET => s = true
  | FLAGS_BEHAVIOUR_BLOCK => s = false
  | FLAGS_BEHAVIOUR_NOT_IMPORTANT => True
  end.

Ltac variants Hp :=
  let Hin := fresh "Hin" in let v := fresh "v" in let Hv := fresh "Hv" in
  apply produces_table in Hp; [|assumption];
  destruct Hp as (v & Hin & Hv);
  apply list_elem_of_In in Hin; cbn in Hin;
  repeat (destruct Hin as [<-|Hin]); [..|destruct Hin]; first [accepted Hv | accepted_custom Hv].


(** A scaled operand is the shift of its scaled value. *)
Lemma scaled_operand k x n :
  0 < k < 32 -> 0 <= x -> x &&& u32 ((1 <<< k) - 1) = 0 -> x >>> k < n ->
  exists q, 0 <= q < n /\ x = Z.shiftl q k.
Proof.
  intros Hk Hx Hm Hn. exists (x >>> k). split; [split; [by apply Z.shiftr_nonneg|done]|].
  assert (2 ^ k <= 2 ^ 31) by (apply Z.pow_le_mono_r; lia).
  assert (0 < 2 ^ k) by (apply Z.pow_pos_nonneg; lia).
  unfold shl32 in Hm. rewrite Z.shiftl_1_l, (u32_small (2 ^ k)), u32_small in Hm by lia.
  replace (2 ^ k - 1) with (Z.ones k) in Hm by (rewrite Z.ones_equiv; lia).
  rewrite Z.land_ones in Hm by lia.
  rewrite Z.shiftr_div_pow2, Z.shiftl_mul_pow2 by lia.
  rewrite (Z.div_mod x (2 ^ k)) at 1 by lia. lia.
Qed.

(** A packed constant is the scattering of a twelve-bit field that expands to it. *)
Definition scatter12 (f : Z) : Z :=
  Z.lor (Z.lor (Z.shiftl (slice f 11 1) 26) (Z.shiftl (slice f 8 3) 12)) (slice f 0 8).

Lemma packs_scatter imm p :
  packs imm p -> exists f, 0 <= f < 4096 /\ p = scatter12 f /\ ThumbExpandImm f = Some imm.
Proof.
  intros [He Hm].
  assert (Hp : p = Z.land p modimm_mask).
  { apply Z.bits_inj'. intros i Hi. apply (f_equal (fun z => Z.testbit z i)) in Hm.
    rewrite Z.ldiff_spec, Z.bits_0 in Hm. rewrite Z.land_spec.
    by destruct (Z.testbit p i), (Z.testbit modimm_mask i). }
  assert (Hb : 0 <= p < 2 ^ 32).
  { rewrite Hp. change modimm_mask with (Z.land modimm_mask (Z.ones 32)).
    rewrite Z.land_assoc. apply land_ones_bound. lia. }
  exists (modimm_field p). split; [|split; [|done]].
  - apply (lor_bound 12); [lia| |].
    + apply (lor_bound 12); [lia|..]; rewrite Z.shiftl_mul_pow2 by lia.
      * pose proof (slice_bound p 26 1). lia.
      * pose proof (slice_bound p 12 3). lia.
    + pose proof (slice_bound p 0 8). lia.
  - rewrite Hp at 1. unfold scatter12, modimm_field, slice, modimm_mask. bit_solve.
Qed.

Lemma packed_operand imm b :
  0 <= imm < 2 ^ 32 -> b = pack_const_compute imm -> (b = 0 -> imm = 0) ->
  exists f, 0 <= f < 4096 /\ b = scatter12 f /\ ThumbExpandImm f = Some imm.
Proof.
  intros Himm -> Hz. apply packs_scatter, pack_compute_sound; [done|].
  destruct (decide (pack_const_compute imm = 0)); auto.
Qed.

Lemma packed_custom imm :
  0 <= imm < 2 ^ 32 -> Z.eqb (pack_const_compute imm) 0 && negb (Z.eqb imm 0) = false ->
  exists f, 0 <= f < 4096 /\ pack_const_compute imm = scatter12 f /\ ThumbExpandImm f = Some imm.
Proof. intros Himm H. apply packed_operand; [done|done|]. intros Hz. rewrite Hz in H. simpl in H. lia. Qed.

(** Bounds as the bit procedure wants them: one range per variable. *)
Ltac tighten :=
  unfold reg in *;
  repeat match goal with
  | H : ?x < ?k, H0 : 0 <= ?x < _ |- _ =>
      let k' := eval vm_compute in k in
      assert (0 <= x < k') by (change k' with k; lia); clear H0 H
  | H : ?x <= ?k, H0 : 0 <= ?x < _ |- _ =>
      let k' := eval vm_compute in (k + 1) in
      assert (0 <= x < k') by lia; clear H0 H
  end.

(** The conditions of the custom emitters as facts. *)
Ltac bool_facts :=
  repeat match goal with
  | H : _ && _ = true |- _ => apply andb_prop in H; destruct H
  | H : _ || _ = false |- _ => apply orb_false_iff in H; destruct H
  | H : negb _ = true |- _ => apply negb_true_iff in H
  | H : negb _ = false |- _ => apply negb_false_iff in H
  | H : Z.leb _ _ = true |- _ => apply Z.leb_le in H
  | H : Z.leb _ _ = false |- _ => apply Z.leb_gt in H
  | H : Z.ltb _ _ = true |- _ => apply Z.ltb_lt in H
  | H : Z.ltb _ _ = false |- _ => apply Z.ltb_ge in H
  | H : Z.eqb _ _ = true |- _ => apply Z.eqb_eq in H
  | H : Z.eqb _ _ = false |- _ => apply Z.eqb_neq in H
  | H : bool_decide _ = true |- _ => apply bool_decide_eq_true in H
  | H : bool_decide _ = false |- _ => apply bool_decide_eq_false in H
  | H : truth _ = true |- _ => apply truth_true in H
  | H : truth _ = false |- _ => apply truth_false in H
  end.

(** Operand facts turned into equations on fresh variables. *)
Ltac operands :=
  bool_facts;
  repeat match goal with
  | H : ?x &&& u32 _ = 0, H' : ?x >>> ?k < ?n |- _ =>
      let q := fresh "q" in let Hq := fresh "Hq" in
      apply (scaled_operand k x n) in H; [|lia|lia|exact H'];
      destruct H as (q & Hq & ->); clear H';
      let n' := eval vm_compute in n in change n with n' in Hq
  | H : ?b = pack_const_compute ?imm, H' : ?b = 0 -> ?imm = 0 |- _ =>
      let f := fresh "f" in let Hf := fresh "Hf" in let He := fresh "He" in
      destruct (packed_operand imm b) as (f & Hf & -> & He); [lia|exact H|exact H'|];
      clear H H'
  | H : Z.eqb (pack_const_compute ?imm) 0 && negb (Z.eqb ?imm 0) = false |- _ =>
      let f := fresh "f" in let Hf := fresh "Hf" in let Hb := fresh "Hb" in let He := fresh "He" in
      destruct (packed_custom imm) as (f & Hf & Hb & He); [lia|exact H|];
      rewrite Hb in *; clear H Hb
  end;
  tighten; subst;
  repeat match goal with
  | H : 0 <= ?x < 1 |- _ => is_var x; assert (x = 0) by lia; clear H; subst x
  end;
  rewrite ?thop_place_0, ?thop_place_eq in * by lia.

Ltac bits :=
  unfold lo3, rn_, rd_, rt_, rm_, dn, imm5_, push_list, pop_list, modimm_field, imm16_field,
    scatter12, th_packimm_3_8_1, th_packimm_10_11_0, slice; cbv zeta; bit_solve.

Fixpoint find_encoding (tbl : list encoding) (base : Z) : nat :=
  match tbl with
  | [] => O
  | e :: tbl => if matches e base then O else S (find_encoding tbl base)
  end.

(** The fixed bits of a word: its value with every operand zero. *)
Ltac base_of w :=
  lazymatch w with
  | Z.lor ?a ?b => let x := base_of a in let y := base_of b in eval vm_compute in (Z.lor x y)
  | Z.land ?a ?b => let x := base_of a in let y := base_of b in eval vm_compute in (Z.land x y)
  | Z.shiftl ?a ?n => let x := base_of a in eval vm_compute in (Z.shiftl x n)
  | shl32 ?a ?n => let x := base_of a in eval vm_compute in (shl32 x n)
  | Z.ones ?n => eval vm_compute in (Z.ones n)
  | Z0 => constr:(w)
  | Zpos _ => constr:(w)
  | _ => constr:(0)
  end.

(** Reads the word of the goal [decodes (mk_opcode size w) i] with the encoding
    its fixed bits select. *)
Ltac read_word :=
  unfold decodes; cbn [op_size op_opcode size_val];
  lazymatch goal with
  | |- decode 2 ?w = _ =>
      let b := base_of w in
      let n := eval vm_compute in (find_encoding t16_table b) in
      let e := eval hnf in (nth n t16_table (mk_enc 0 0 (fun _ => None))) in
      rewrite (decode_t16 n e w eq_refl); [|cbn [e_mask e_pat]; bits]
  | |- decode 4 ?w = _ =>
      let b := base_of w in
      let n := eval vm_compute in (find_encoding t32_table b) in
      let e := eval hnf in (nth n t32_table (mk_enc 0 0 (fun _ => None))) in
      rewrite (decode_t32 n e w eq_refl); [|cbn [e_mask e_pat]; bits]
  end;
  cbn [e_sem].


Lemma testbit_slice w k : 0 <= k -> Z.testbit w k = Z.eqb (slice w k 1) 1.
Proof.
  intros Hk. unfold slice. rewrite Z.land_ones, Z.shiftr_div_pow2 by lia.
  change (2 ^ 1) with 2. rewrite Zmod_odd, <-Z.shiftr_div_pow2, <-Z.bit0_odd, Z.shiftr_spec by lia.
  rewrite Z.add_0_l. by destruct (Z.testbit w k).
Qed.


(** A field of the word is a constant or one of the operands. *)
Ltac word_bits t :=
  eval cbv beta zeta delta [lo3 rn_ rd_ rt_ rm_ dn imm5_ push_list pop_list modimm_field imm16_field
    scatter12 th_packimm_3_8_1 th_packimm_10_11_0 slice u8 u16 u32 u64 not32 shl32] in t.

Ltac read_fields :=
  cbv beta iota delta [s_ rn_ rd_ rt_ rm_ lo3 shift_]; rewrite ?testbit_slice by lia;
  repeat match goal with
  | |- context [modimm_field ?w] => bit_read (modimm_field w) word_bits
  | |- context [imm16_field ?w] => bit_read (imm16_field w) word_bits
  | |- context [imm5_ ?w] => bit_read (imm5_ w) word_bits
  | |- context [dn ?w] => bit_read (dn w) word_bits
  | |- context [push_list ?w] => bit_read (push_list w) word_bits
  | |- context [pop_list ?w] => bit_read (pop_list w) word_bits
  | |- context [slice ?w ?k ?l] => bit_read (slice w k l) word_bits
  end;
  repeat match goal with
  | H : ThumbExpandImm ?f = _ |- context [ThumbExpandImm ?f] => rewrite H
  | H : imm_shift ?t ?v = _ |- context [imm_shift ?t ?v] => rewrite H
  end.

Ltac settle :=
  unfold shift_, imm_shift, sh_none; rewrite ?Z.eqb_refl;
  repeat match goal with
  | |- context [Z.eqb ?x ?c] =>
      first [ is_Zconst x; let v := eval vm_compute in (Z.eqb x c) in change (Z.eqb x c) with v
            | replace (Z.eqb x c) with false by (symmetry; apply Z.eqb_neq; lia) ]
  end; cbn [andb orb negb].

Ltac decoded :=
  read_word; read_fields; settle;
  try lazymatch goal with |- Some _ = Some _ => reflexivity end.

(** The whole argument for one call whose flags are already cases. *)
Ltac decode_case Hp := variants Hp; operands; decoded.
Ltac decode_flags Hp := variants Hp; operands; eexists; (split; [|decoded]; done).
