(* ===== verification/ThumbDecodeData.v ===== *)
(** * Data processing: the emitted words are the requested instructions *)

From S2P Require Import Prelude BitReflect ArmDecode ThumbTypes ThumbShapes ThumbPack ThumbCustom.
From S2P Require Import ThumbEngine ThumbOpsAlu ThumbDecode ThumbOpsSys.
Local Open Scope Z_scope.
Local Open Scope c_scope.

(** ** Immediate operands *)

Definition th_alu_imm (op : alu_op) :
    Z -> Z -> Z -> thumb_flags_behaviour -> thumb_enforce_encoding -> Enc thumb_opcode :=
  match op with
  | ADD => th_add_imm | SUB => th_sub_imm | RSB => th_rsb_imm | ADC => th_adc_imm
  | SBC => th_sbc_imm | AND => th_and_imm | BIC => th_bic_imm | ORR => th_orr_imm
  | ORN => th_orn_imm | EOR => th_eor_imm
  end.

(** Every data-processing encoder with an immediate (ADD, SUB, RSB, ADC, SBC,
    AND, BIC, ORR, ORN, EOR) returns only words that the architecture reads back as the
    requested operation on the requested registers and immediate, with the flags set as
    asked (any choice when the caller does not care). *)
Theorem th_alu_imm_decodes o rd rn imm flags enc st op :
  state_ok st -> reg rd -> reg rn -> rn <> 15 -> 0 <= imm < 2 ^ 32 ->
  produces (th_alu_imm o rd rn imm flags enc) st op ->
  exists s, flags_ok flags s /\ decodes op (ALUi o s rd rn imm).
Proof.
  intros Hst Hrd Hrn Hpc Himm Hp. destruct flags, o; cbn [th_alu_imm] in Hp; decode_flags Hp.
Qed.

Lemma th_alu_imm_decodes_witness :
  exists s, flags_ok FLAGS_BEHAVIOUR_SET s /\ decodes (mk_opcode 2 0x1d48) (ALUi ADD s 0 1 5).
Proof. 
  apply (th_alu_imm_decodes ADD 0 1 5 FLAGS_BEHAVIOUR_SET ENFORCE_ENCODING_NONE full_state);
    [apply init_state_ok|unfold reg; lia|unfold reg; lia|lia|lia|run_full].
 Defined.

(** ADDW, SUBW: a plain twelve-bit immediate. *)
Theorem th_wide_decodes rd rn imm st op :
  state_ok st -> reg rd -> reg rn -> 0 <= imm < 2 ^ 32 ->
  (produces (th_addw rd rn imm) st op -> rn <> 15 -> decodes op (ALUi ADD false rd rn imm)) /\
  (produces (th_subw rd rn imm) st op -> rn <> 15 -> decodes op (ALUi SUB false rd rn imm)).
Proof.
  intros Hst Hrd Hrn Himm. split; intros Hp Hn; decode_case Hp.
Qed.

(** ** Comparisons *)

Definition th_cmp_fn_imm (op : cmp_op) :
    Z -> Z -> thumb_flags_behaviour -> thumb_enforce_encoding -> Enc thumb_opcode :=
  match op with
  | CMP => th_cmp_imm | CMN => th_cmn_imm | TST => th_tst_imm | TEQ => th_teq_imm
  end.

(** CMP, CMN, TST and TEQ with an immediate return only words that read back
    as the requested comparison. *)
Theorem th_cmp_imm_decodes o rn imm flags enc st op :
  state_ok st -> reg rn -> 0 <= imm < 2 ^ 32 ->
  produces (th_cmp_fn_imm o rn imm flags enc) st op -> decodes op (CMPi o rn imm).
Proof.
  intros Hst Hrn Himm Hp. destruct flags, o; cbn [th_cmp_fn_imm] in Hp; decode_case Hp.
Qed.

(** ** Register operands: the emitted words are the requested instructions *)

Local Open Scope Z_scope.
Local Open Scope c_scope.

(** ** Register operands *)

(** The shift an operand descriptor denotes, when the architecture has it: LSR
    and ASR by 1..32, LSL by 0..31, ROR by 1..31. *)
Definition shift_of (sh : thumb_shift) : option (srtype * Z) :=
  let v := sh_value sh in
  match sh_type sh with
  | THUMB_SHIFT_NONE => if Z.eqb v 0 then Some (LSL, 0) else None
  | THUMB_SHIFT_LSL => if Z.leb 0 v && Z.ltb v 32 then Some (LSL, v) else None
  | THUMB_SHIFT_LSR => if Z.leb 1 v && Z.leb v 32 then Some (LSR, v) else None
  | THUMB_SHIFT_ASR => if Z.leb 1 v && Z.leb v 32 then Some (ASR, v) else None
  | THUMB_SHIFT_ROR => if Z.leb 1 v && Z.ltb v 32 then Some (ROR, v) else None
  | THUMB_SHIFT_RRX => if Z.eqb v 0 then Some (RRX, 1) else None
  end.

Definition th_alu_reg (op : alu_op) :
    Z -> Z -> Z -> thumb_flags_behaviour -> thumb_shift -> thumb_enforce_encoding -> Enc thumb_opcode :=
  match op with
  | ADD => th_add_reg | SUB => th_sub_reg | RSB => th_rsb_reg | ADC => th_adc_reg
  | SBC => th_sbc_reg | AND => th_and_reg | BIC => th_bic_reg | ORR => th_orr_reg
  | ORN => th_orn_reg | EOR => th_eor_reg
  end.

(** What the two fields written for a valid shift decode to. *)
Record shift_facts (sh : thumb_shift) (k : srtype * Z) : Prop := {
  sf_type : 0 <= th_shift_value_to_sr_type sh < 4;
  sf_value : 0 <= sh_value sh < 64;
  sf_imm5 : 0 <= sh_value sh &&& 31 < 32;
  sf_decode : imm_shift (th_shift_value_to_sr_type sh) (sh_value sh &&& 31) = k;
  sf_none : sh_type sh = THUMB_SHIFT_NONE -> k = (LSL, 0);
}.

Lemma shift_of_facts sh k : shift_of sh = Some k -> shift_facts sh k.
Proof.
  assert (Hsmall : forall v, 0 <= v < 32 -> v &&& 31 = v).
  { intros v Hv. change 31 with (Z.ones 5). rewrite Z.land_ones by lia. apply Z.mod_small; lia. }
  destruct sh as [t v m]. unfold shift_of; simpl. intros H.
  assert (Hv : 0 <= v <= 32) by (destruct t; case_match; simplify_eq; lia).
  constructor; simpl; [by destruct t|lia|apply (land_ones_bound 5); lia| |by destruct t; case_match; simplify_eq].
  destruct (decide (v = 32)) as [->|]; [destruct t; simpl in *; by simplify_eq|].
  rewrite Hsmall by lia. unfold imm_shift.
  destruct t; simpl; case_match; simplify_eq; try done; try lia;
    (destruct (Z.eqb_spec v 0) as [->|]; simplify_eq; try done; lia).
Qed.

Ltac with_shift_facts Hk :=
  let H := fresh in pose proof (shift_of_facts _ _ Hk) as H; destruct H as [? ? ? ? Hnone].

Ltac no_shift :=
  try match goal with
  | H : sh_type ?s = THUMB_SHIFT_NONE, H' : sh_type ?s = THUMB_SHIFT_NONE -> _ |- _ =>
      rewrite (H' H)
  end.

(** The source operands in order, or swapped for an unshifted addition (the
    16-bit ADD Rdm, SP, Rdm adds SP to its own register). *)
Definition operands_ok (o : alu_op) (k : srtype * Z) (rn rm n m : Z) : Prop :=
  (n = rn /\ m = rm) \/ (o = ADD /\ k = (LSL, 0) /\ n = rm /\ m = rn).

(** Every data-processing encoder with a (shifted) register operand returns only
    words that read back as the requested operation, registers, shift and flags. *)
Theorem th_alu_reg_decodes o rd rn rm flags sh k enc st op :
  state_ok st -> reg rd -> reg rn -> reg rm -> shift_of sh = Some k ->
  produces (th_alu_reg o rd rn rm flags sh enc) st op ->
  exists s n m, flags_ok flags s /\ operands_ok o k rn rm n m /\ decodes op (ALUr o s rd n m k).
Proof.
  intros Hst Hrd Hrn Hrm Hk Hp. with_shift_facts Hk. clear Hk.
  destruct flags, o; cbn [th_alu_reg] in Hp.
  all: variants Hp; no_shift; operands; do 3 eexists; (split; [|split; [|decoded]]);
    first [done | by left | by right].
Qed.

Lemma th_alu_reg_decodes_witness :
  exists s n m, flags_ok FLAGS_BEHAVIOUR_BLOCK s /\
    operands_ok SUB (LSR, 32) 1 2 n m /\ decodes (mk_opcode 4 0xeba10012) (ALUr SUB s 0 n m (LSR, 32)).
Proof. 
  apply (th_alu_reg_decodes SUB 0 1 2 FLAGS_BEHAVIOUR_BLOCK
    (mk_shift THUMB_SHIFT_LSR 32 THUMB_SHIFT_IMMEDIATE) (LSR, 32) ENFORCE_ENCODING_NONE full_state);
    [apply init_state_ok|unfold reg; lia|unfold reg; lia|unfold reg; lia|reflexivity|run_full].
 Defined.

(** ** Comparisons *)

Definition th_cmp_fn_reg (op : cmp_op) (rn rm : Z) (flags : thumb_flags_behaviour)
    (sh : thumb_shift) (enc : thumb_enforce_encoding) : Enc thumb_opcode :=
  match op with
  | CMP => th_cmp_reg 0 rn rm flags sh enc
  | CMN => th_cmn_reg rn rm flags sh enc
  | TST => th_tst_reg rn rm flags sh enc
  | TEQ => th_teq_reg rn rm flags sh enc
  end.

Theorem th_cmp_reg_decodes o rn rm flags sh k enc st op :
  state_ok st -> reg rn -> reg rm -> shift_of sh = Some k ->
  produces (th_cmp_fn_reg o rn rm flags sh enc) st op -> decodes op (CMPr o rn rm k).
Proof.
  intros Hst Hrn Hrm Hk Hp. with_shift_facts Hk. clear Hk.
  destruct flags, o; cbn [th_cmp_fn_reg] in Hp; variants Hp; no_shift; operands; decoded.
Qed.

(** ** Moves, shifts, extensions and multiplications: the emitted words are the
      requested instructions *)

Local Open Scope Z_scope.
Local Open Scope c_scope.

(** ** Moves of immediates *)

(** [th_mov_imm] returns only words (MOVS, MOV.W or MOVW) that load exactly the
    requested 32-bit constant, and sets the flags only as asked. *)
Theorem th_mov_imm_decodes rd imm flags enc st op :
  state_ok st -> reg rd -> 0 <= imm < 2 ^ 32 ->
  produces (th_mov_imm rd imm flags enc) st op ->
  exists s, flags_ok flags s /\ decodes op (MOVi s rd imm).
Proof.
  intros Hst Hrd Himm Hp. unfold th_mov_imm in Hp. rewrite u16_small in Hp by (unfold reg in *; lia).
  destruct flags; decode_flags Hp.
Qed.

Lemma th_mov_imm_decodes_witness :
  exists s, flags_ok FLAGS_BEHAVIOUR_SET s /\ decodes (mk_opcode 2 0x2007) (MOVi s 0 7).
Proof.
  apply (th_mov_imm_decodes 0 7 FLAGS_BEHAVIOUR_SET ENFORCE_ENCODING_NONE full_state);
    [apply init_state_ok|unfold reg; lia|lia|run_full].
Defined.

Theorem th_movt_decodes rd imm st op :
  state_ok st -> reg rd -> 0 <= imm < 2 ^ 32 ->
  produces (th_movt rd imm) st op -> decodes op (MOVT rd imm).
Proof. intros Hst Hrd Himm Hp. decode_case Hp. Qed.

Theorem th_mvn_imm_decodes rd rm imm flags enc st op :
  state_ok st -> reg rd -> 0 <= imm < 2 ^ 32 ->
  produces (th_mvn_imm rd rm imm flags enc) st op ->
  exists s, flags_ok flags s /\ decodes op (MVNi s rd imm).
Proof. intros Hst Hrd Himm Hp. destruct flags; decode_flags Hp. Qed.

(** ** Moves and shifts of registers *)

Theorem th_mvn_reg_decodes rd rn rm flags sh k enc st op :
  state_ok st -> reg rd -> reg rn -> reg rm -> shift_of sh = Some k ->
  produces (th_mvn_reg rd rn rm flags sh enc) st op ->
  exists s, flags_ok flags s /\ decodes op (MVNr s rd rm k).
Proof.
  intros Hst Hrd Hrn Hrm Hk Hp. with_shift_facts Hk. clear Hk.
  destruct flags; variants Hp; no_shift; operands; eexists; (split; [|decoded]; done).
Qed.

(** A shift by zero is a plain move, whatever its kind. *)
Definition assembler_shift (sh : thumb_shift) : option (srtype * Z) :=
  match sh_type sh with
  | THUMB_SHIFT_NONE | THUMB_SHIFT_RRX => shift_of sh
  | _ => if Z.eqb (sh_value sh) 0 then Some (LSL, 0) else shift_of sh
  end.

Lemma normalize_shift sh :
  0 <= sh_value sh ->
  match assembler_shift sh with
  | Some k => exists sh', th_shift_imm_normalize sh = (true, sh') /\ shift_of sh' = Some k
  | None => (th_shift_imm_normalize sh).1 = false \/ sh_type sh = THUMB_SHIFT_NONE \/
            sh_type sh = THUMB_SHIFT_RRX
  end.
Proof.
  destruct sh as [t v m]; unfold assembler_shift, th_shift_imm_normalize, shift_of; simpl. intros Hv.
  destruct (Z.eqb_spec v 0) as [->|Hne]; [by destruct t; simpl; eauto|].
  destruct t; simpl; auto.
  all: destruct (_ && _) eqn:E;
    [eexists; split; [f_equal; lia|simpl; by rewrite E] | left; lia].
Qed.

(** The word of a 16-bit immediate shift, its kind an operand. *)
Lemma t16_shift_word t v rm rd :
  0 <= t < 3 -> 0 <= v < 32 -> 0 <= rm < 8 -> 0 <= rd < 8 ->
  decode 2 (0 ||| (t <<< 11) ||| (v <<< 6) ||| (rm <<< 3) ||| rd) =
  Some (MOVr true rd rm (imm_shift t v)).
Proof.
  intros Ht Hv Hrm Hrd.
  assert (t = 0 \/ t = 1 \/ t = 2) as [-> | [-> | ->]] by lia;
    read_word; read_fields; reflexivity.
Qed.

Lemma sr_type_lt3 sh :
  sh_type sh <> THUMB_SHIFT_RRX -> sh_type sh <> THUMB_SHIFT_ROR ->
  th_shift_value_to_sr_type sh < 3.
Proof. by destruct sh as [[] v m]. Qed.

Theorem th_mov_reg_decodes rd rm flags sh k enc st op :
  state_ok st -> reg rd -> reg rm -> 0 <= sh_value sh -> sh_mode sh = THUMB_SHIFT_IMMEDIATE ->
  assembler_shift sh = Some k ->
  produces (th_mov_reg rd rm flags sh enc false) st op ->
  exists s, flags_ok flags s /\ decodes op (MOVr s rd rm k).
Proof.
  intros Hst Hrd Hrm Hv Hm Hk Hp. unfold th_mov_reg in Hp. rewrite Hm in Hp. simpl in Hp.
  pose proof (normalize_shift sh Hv) as Hn. rewrite Hk in Hn. destruct Hn as (sh' & Hn & Hk').
  rewrite Hn in Hp. simpl in Hp. clear Hn Hk Hm Hv sh.
  with_shift_facts Hk'. clear Hk'.
  destruct flags; variants Hp; no_shift; operands; try done; try (eexists; split; [|decoded]; done).
  exists true. split; [done|]. apply t16_shift_word; [|done..]. split; [lia|by apply sr_type_lt3].
Qed.

Definition th_shift_imm (t : thumb_shift_type) (rd rm imm : Z) (flags : thumb_flags_behaviour)
    (enc : thumb_enforce_encoding) : Enc thumb_opcode :=
  match t with
  | THUMB_SHIFT_LSR => th_lsr_imm rd rm imm flags enc
  | THUMB_SHIFT_ASR => th_asr_imm rd rm imm flags enc
  | THUMB_SHIFT_ROR => th_ror_imm rd rm imm flags enc
  | _ => th_lsl_imm rd rm imm flags enc
  end.

(** What remains of [THOP_SHIFT_IMM_FN] once the shift is normalised. *)
Lemma shift_imm_emit_decodes table rd rm flags sh k enc st op :
  sh_type sh <> THUMB_SHIFT_RRX ->
  table ∈ [TH_LSL_IMM; TH_LSR_IMM; TH_ASR_IMM] /\ sh_type sh <> THUMB_SHIFT_ROR \/
  table = TH_ROR_IMM ->
  state_ok st -> reg rd -> reg rm -> shift_of sh = Some k ->
  produces (thop_shift_imm rd rm (sh_value sh &&& 0x1f) flags enc sh table) st op ->
  exists s, flags_ok flags s /\ decodes op (MOVr s rd rm k).
Proof.
  intros Hrrx Ht Hst Hrd Hrm Hk Hp. with_shift_facts Hk. clear Hk.
  rewrite !elem_of_cons, elem_of_nil in Ht.
  destruct Ht as [[[-> | [-> | [-> | []]]] Hror] | ->], flags; variants Hp; no_shift; operands;
    try (eexists; split; [|decoded]; done); try done.
  all: exists true; split; [done|]; unfold decodes; cbn [op_size op_opcode size_val];
    apply (eq_trans (y := decode 2 (0 ||| (th_shift_value_to_sr_type sh <<< 11) |||
             ((sh_value sh &&& 31) <<< 6) ||| (rm <<< 3) ||| rd)));
    [apply (f_equal (decode 2)); bits
    |apply t16_shift_word; [split; [lia|apply sr_type_lt3; auto]|lia..]].
Qed.

(** LSL, LSR, ASR and ROR by an immediate return only words that read back as the
    requested shift (a shift by zero as a plain move, LSR and ASR up to 32), whatever
    encoding is chosen. *)
Theorem th_shift_imm_decodes t rd rm imm flags k enc st op :
  t <> THUMB_SHIFT_NONE -> t <> THUMB_SHIFT_RRX ->
  state_ok st -> reg rd -> reg rm -> 0 <= imm ->
  assembler_shift (mk_shift t imm THUMB_SHIFT_IMMEDIATE) = Some k ->
  produces (th_shift_imm t rd rm imm flags enc) st op ->
  exists s, flags_ok flags s /\ decodes op (MOVr s rd rm k).
Proof.
  intros Ht1 Ht2 Hst Hrd Hrm Hi Hk Hp.
  pose proof (normalize_shift (mk_shift t imm THUMB_SHIFT_IMMEDIATE) Hi) as Hn.
  rewrite Hk in Hn. destruct Hn as (sh' & Hn & Hk').
  assert (Hty : sh_type sh' = t \/ sh_type sh' = THUMB_SHIFT_LSL).
  { revert Hn. unfold th_shift_imm_normalize; simpl. destruct t; try done; intros [= _ <-];
      destruct (Z.eqb imm 0); simpl; auto. }
  assert (Hrrx : sh_type sh' <> THUMB_SHIFT_RRX) by (destruct Hty as [E|E]; rewrite E; done).
  destruct t; try done; cbn [th_shift_imm] in Hp;
    unfold th_lsl_imm, th_lsr_imm, th_asr_imm, th_ror_imm, THOP_SHIFT_IMM_FN in Hp;
    rewrite Hn in Hp; cbn [negb] in Hp; eapply shift_imm_emit_decodes; try eassumption;
    try (by right); left; (split; [by rewrite !elem_of_cons; auto|]);
    destruct Hty as [E|E]; rewrite E; done.
Qed.

Lemma th_shift_imm_decodes_witness :
  exists s, flags_ok FLAGS_BEHAVIOUR_SET s /\ decodes (mk_opcode 2 0x0811) (MOVr s 1 2 (LSR, 32)).
Proof.
  apply (th_shift_imm_decodes THUMB_SHIFT_LSR 1 2 32 FLAGS_BEHAVIOUR_SET (LSR, 32)
    ENFORCE_ENCODING_NONE full_state);
    [done|done|apply init_state_ok|unfold reg; lia|unfold reg; lia|lia|reflexivity|run_full].
Defined.

Definition th_shift_reg (k : srtype) (rd rn rm : Z) (flags : thumb_flags_behaviour)
    (sh : thumb_shift) (enc : thumb_enforce_encoding) : Enc thumb_opcode :=
  match k with
  | LSL => th_lsl_reg rd rn rm flags sh enc
  | LSR => th_lsr_reg rd rn rm flags sh enc
  | ASR => th_asr_reg rd rn rm flags sh enc
  | _ => th_ror_reg rd rn rm flags sh enc
  end.

Theorem th_shift_reg_decodes k rd rn rm flags sh enc st op :
  k <> RRX -> state_ok st -> reg rd -> reg rn -> reg rm ->
  produces (th_shift_reg k rd rn rm flags sh enc) st op ->
  exists s, flags_ok flags s /\ decodes op (SHr k s rd rn rm).
Proof.
  intros Hk Hst Hrd Hrn Hrm Hp.
  destruct flags, k; try done; cbn [th_shift_reg] in Hp; decode_flags Hp.
Qed.

(** ** Extension, reversal, bit fields *)

Definition th_extend (e : ext_op) : Z -> Z -> thumb_shift -> thumb_enforce_encoding -> Enc thumb_opcode :=
  match e with SXTB => th_sxtb | SXTH => th_sxth | UXTB => th_uxtb | UXTH => th_uxth end.

Theorem th_extend_decodes e rd rm sh enc st op :
  state_ok st -> reg rd -> reg rm -> 0 <= sh_value sh < 2 ^ 32 ->
  produces (th_extend e rd rm sh enc) st op -> decodes op (EXT e rd rm (sh_value sh)).
Proof.
  intros Hst Hrd Hrm Hsh Hp. destruct sh as [t v m]; simpl in *.
  destruct e; cbn [th_extend] in Hp; decode_case Hp.
Qed.

Definition th_reverse (o : rev_op) (rd rm : Z) (enc : thumb_enforce_encoding) : Enc thumb_opcode :=
  match o with
  | REV => th_rev rd rm enc | REV16 => th_rev16 rd rm enc | REVSH => th_revsh rd rm enc
  | RBIT => th_rbit rd rm | CLZ => th_clz rd rm
  end.

Theorem th_reverse_decodes o rd rm enc st op :
  state_ok st -> reg rd -> reg rm ->
  produces (th_reverse o rd rm enc) st op -> decodes op (REVr o rd rm).
Proof.
  intros Hst Hrd Hrm Hp. destruct o; cbn [th_reverse] in Hp; decode_case Hp.
Qed.

(** The fields of BFI, BFC and SBFX: least significant bit, and the top bit or the
    width less one. *)
Theorem th_bitfield_decodes rd rn lsb width st op :
  state_ok st -> reg rd -> reg rn -> 0 <= lsb -> 1 <= width -> lsb + width <= 32 ->
  (produces (th_bfc rd lsb width) st op -> decodes op (BFC rd lsb (lsb + width - 1))) /\
  (produces (th_bfi rd rn lsb width) st op -> rn <> 15 ->
     decodes op (BFI rd rn lsb (lsb + width - 1))) /\
  (produces (th_sbfx rd rn lsb width) st op -> decodes op (SBFX rd rn lsb width)).
Proof.
  intros Hst Hrd Hrn Hl Hw Hlw.
  assert (Hmsb : 0 <= lsb + width - 1 < 32) by lia. assert (Hwm : 0 <= width - 1 < 32) by lia.
  assert (Hlsb : 0 <= lsb < 32) by lia.
  unfold th_bfc, th_bfi, th_sbfx. rewrite !u32_small by lia.
  assert (Hwe : width = width - 1 + 1) by lia.
  split_and!; [intros Hp|intros Hp Hn|intros Hp; rewrite Hwe]; clear Hwe Hl Hw Hlw;
    [generalize dependent (lsb + width - 1)|generalize dependent (lsb + width - 1)
    |generalize dependent (width - 1)]; intros m ? Hp; decode_case Hp.
Qed.

(** ** Multiplication and division *)

(** The product's operands in either order. *)
Theorem th_mul_decodes rd rn rm flags enc st op :
  state_ok st -> reg rd -> reg rn -> reg rm ->
  produces (th_mul rd rn rm flags enc) st op ->
  exists s n m, flags_ok flags s /\ (n = rn /\ m = rm \/ n = rm /\ m = rn) /\
    decodes op (MUL s rd n m).
Proof.
  intros Hst Hrd Hrn Hrm Hp. unfold th_mul in Hp.
  destruct (_ && (Z.eqb rd rm || Z.eqb rd rn)) eqn:E.
  - bool_facts. destruct (Z.eqb_spec rd rm) as [->|Hne].
    + destruct flags; try done; variants Hp; operands; do 3 eexists; (split; [|split; [|decoded]]); first [done | auto].
    + assert (rd = rn) as -> by lia.
      destruct flags; try done; variants Hp; operands; do 3 eexists; (split; [|split; [|decoded]]); first [done | auto].
  - destruct flags; variants Hp; operands; do 3 eexists; (split; [|split; [|decoded]]); first [done | auto].
Qed.

Theorem th_mla_decodes rd rn rm ra st op :
  state_ok st -> reg rd -> reg rn -> reg rm -> reg ra -> ra <> 15 ->
  (produces (th_mla rd rn rm ra) st op -> decodes op (MLA rd rn rm ra)) /\
  (produces (th_mls rd rn rm ra) st op -> decodes op (MLS rd rn rm ra)).
Proof. intros Hst Hrd Hrn Hrm Hra Hn. split; intros Hp; decode_case Hp. Qed.

Definition th_long_mul (o : lmul_op) : Z -> Z -> Z -> Z -> Enc thumb_opcode :=
  match o with
  | SMULL => th_smull | UMULL => th_umull | SMLAL => th_smlal | UMLAL => th_umlal | UMAAL => th_umaal
  end.

Theorem th_long_mul_decodes o rdlo rdhi rn rm st op :
  state_ok st -> reg rdlo -> reg rdhi -> reg rn -> reg rm ->
  produces (th_long_mul o rdlo rdhi rn rm) st op -> decodes op (LMUL o rdlo rdhi rn rm).
Proof.
  intros Hst Hlo Hhi Hrn Hrm Hp. destruct o; cbn [th_long_mul] in Hp; decode_case Hp.
Qed.

Theorem th_div_decodes rd rn rm st op :
  state_ok st -> reg rd -> reg rn -> reg rm ->
  (produces (th_sdiv rd rn rm) st op -> decodes op (DIV true rd rn rm)) /\
  (produces (th_udiv rd rn rm) st op -> decodes op (DIV false rd rn rm)).
Proof.
  intros Hst Hrd Hrn Hrm. unfold th_sdiv, th_udiv. unfold reg in *. rewrite !u16_small by lia.
  split; intros Hp; decode_case Hp.
Qed.
