(* ===== verification/ThumbDecodeBranch.v ===== *)
(** * Branches: exact ranges, and the offset the processor reads back *)

From S2P Require Import Prelude BitReflect ArmDecode ThumbTypes ThumbShapes ThumbPack ThumbCustom.
From S2P Require Import ThumbEngine ThumbOpsMem ThumbDecode.
Local Open Scope Z_scope.
Local Open Scope c_scope.

(** ** Tables with one variant *)

Lemma emit_single t v a st r :
  table_variants (t_variants t) = [v] -> state_ok st ->
  thop_try_variant (M := Pure) thop_shapes v a (target_feat st) = Some r ->
  returns (thop_emit_table t a) st (match r with Some op => op | None => no_opcode end).
Proof.
  intros Ht Hst Hv. pose proof (refines_emit_table t a st Hst) as H.
  assert (Hp : thop_emit_table (M := Pure) t a (target_feat st) =
               Some (match r with Some op => op | None => no_opcode end)).
  { unfold thop_emit_table, thop_emit. rewrite Ht. cbn [thop_emit_in].
    rewrite pure_bind_eq, Hv. by destruct r. }
  by rewrite Hp in H.
Qed.

(** A custom emitter that needs only features. *)
Lemma emit_custom t id base cid a st op :
  table_variants (t_variants t) = [VC id base cid] -> is_custom_none (VC id base cid) = false ->
  is_kind (s_imm (thop_shapes id)) = IMM_NONE -> thop_regset_ok (thop_shapes id) a = true ->
  thop_guards (target_feat st) (thop_shapes id) a = true ->
  thop_call_custom (M := Pure) cid base a (target_feat st) = Some op ->
  (op_size op = 0 -> op = no_opcode) ->
  state_ok st -> returns (thop_emit_table t a) st op.
Proof.
  intros Ht Hc Hk Hr Hg Hop Hz Hst.
  assert (E : op = match (if truth (op_size op) then Some op else None) with
                   | Some op => op | None => no_opcode end).
  { destruct (truth (op_size op)) eqn:E; [done|]. apply Hz. by apply truth_false in E. }
  rewrite E. apply (emit_single t (VC id base cid)); [done|done|].
  rewrite try_variant_pure. cbn [v_shape v_custom v_base VC]. unfold imm_bits.
  by rewrite Hg, bool_decide_true, Hr, Hc, Hop.
Qed.

(** ** Offsets *)

Lemma odd_land off : truth (off &&& 1) = Z.odd off.
Proof.
  change 1 with (Z.ones 1). rewrite Z.land_ones by lia. change (2 ^ 1) with 2.
  rewrite Zmod_odd. by destruct (Z.odd off).
Qed.

(** The bits of an even offset in range, read as a signed field. *)
Lemma even_field n off :
  1 < n <= 32 -> Z.odd off = false -> - 2 ^ (n - 1) <= off < 2 ^ (n - 1) ->
  sign_extend n (u32 off &&& Z.shiftl (Z.ones (n - 1)) 1) = off.
Proof.
  intros Hn Ho Hr. rewrite <-(sign_extend_mod n off) at 2 by lia. f_equal.
  rewrite <-Z.land_ones by lia. unfold u32.
  apply Z.bits_inj'. intros i Hi. rewrite !Z.land_spec, Z.shiftl_spec by lia.
  destruct (decide (i = 0)) as [->|].
  - rewrite Z.bit0_odd, Ho. done.
  - rewrite !Z.testbit_ones_nonneg by lia.
    destruct (Z.ltb_spec i n), (Z.ltb_spec (i - 1) (n - 1)), (Z.ltb_spec i 32); try lia;
      by rewrite ?andb_true_r, ?andb_false_r.
Qed.

(** The guards of a shape whose only condition is its features. *)
Ltac plain_guards H :=
  unfold thop_guards; cbv zeta; cbn [s_feat]; 
  lazymatch goal with |- context [thop_feat32_subset ?f ?feat] =>
    let f' := eval vm_compute in f in change (thop_feat32_subset f feat) with (thop_feat32_subset f' feat) end;
  lazymatch type of H with thop_feat32_subset ?g ?feat = true =>
    let g' := eval vm_compute in g in change (thop_feat32_subset g' feat = true) in H end;
  rewrite H; vm_compute; reflexivity.

Definition has_feat (st : enc_state) (f : Z) : Prop := thop_feat32_subset f (target_feat st) = true.

(** What a branch emitter with a range returns: the instruction, or nothing. *)
Definition branch_result (m : Enc thumb_opcode) (st : enc_state) (in_range : bool) (i : instr) : Prop :=
  exists op, returns m st op /\ if in_range then decodes op i else op = no_opcode.

(** ** BL and B.W: 25-bit signed even offsets *)

Definition range25 (off : Z) : bool :=
  Z.leb (-16777216) off && Z.leb off 16777214 && negb (Z.odd off).

Lemma word25 x lo :
  0 <= x < 2 ^ 32 -> lo = 0xd000 \/ lo = 0x9000 ->
  let s := (x >>> 24) &&& 1 in
  let imm10 := (x >>> 12) &&& 0x3ff in
  let j1 := (~~~ ((x >>> 23) &&& 1) ^^^ s) &&& 1 in
  let j2 := (~~~ ((x >>> 22) &&& 1) ^^^ s) &&& 1 in
  let imm11 := (x >>> 1) &&& 0x7ff in
  let w := ((0xf000 ||| (s <<< 10) ||| imm10) <<< 16) |||
           (lo ||| (j1 <<< 13) ||| (j2 <<< 11) ||| imm11) in
  b_t4_offset w = sign_extend 25 (x &&& Z.shiftl (Z.ones 24) 1) /\
  Z.land w 0xF800D000 = Z.lor 0xF0000000 lo.
Proof.
  intros Hx Hlo. cbv zeta. unfold b_t4_offset. split.
  - apply (f_equal (sign_extend 25)). destruct Hlo as [-> | ->]; unfold slice; bit_solve.
  - destruct Hlo as [-> | ->]; bit_solve.
Qed.

(** The two emitters share their conditions and their fields. *)
Lemma range25_spec off :
  - 2 ^ 31 <= off < 2 ^ 31 ->
  (truth (s32 (u32 off) &&& 1) || Z.ltb (s32 (u32 off)) (-16777216) ||
   Z.ltb 16777214 (s32 (u32 off))) = negb (range25 off).
Proof.
  intros Hoff. rewrite s32_u32, odd_land by done. unfold range25.
  destruct (Z.odd off), (Z.ltb_spec off (-16777216)), (Z.ltb_spec 16777214 off),
    (Z.leb_spec (-16777216) off), (Z.leb_spec off 16777214); try done; lia.
Qed.

Lemma range25_offset off :
  range25 off = true -> sign_extend 25 (u32 off &&& Z.shiftl (Z.ones 24) 1) = off.
Proof.
  unfold range25. intros [[H1%Z.leb_le H2%Z.leb_le]%andb_prop H3%negb_true_iff]%andb_prop.
  apply (even_field 25); [lia|done|lia].
Qed.

(** For every 32-bit signed offset, [th_bl_t1] on a target with Thumb-2 returns
    either the BL that reads back as that offset (exactly when it is even and within
    -2^24..2^24-2) or the empty opcode. *)
Theorem th_bl_t1_range off st :
  state_ok st -> has_feat st feat_t32 -> - 2 ^ 31 <= off < 2 ^ 31 ->
  branch_result (th_bl_t1 (u32 off)) st (range25 off) (BL off).
Proof.
  intros Hst Hf Hoff. unfold has_feat in Hf.
  exists (bl_t1_emit 0 (mk_thop_args [with_imm (u32 off)])). split.
  - eapply emit_custom; try done; [plain_guards Hf|].
    unfold bl_t1_emit. cbv zeta. by case_match.
  - unfold bl_t1_emit. cbn [a_imm mk_thop_args fold_left with_imm]. rewrite range25_spec by done.
    destruct (range25 off) eqn:Hr; [|done]. cbn [negb]. cbv zeta.
    destruct (word25 (u32 off) 0xd000) as [Ho Hm]; [apply u32_bound|by left|].
    cbv zeta in Ho, Hm. unfold decodes. cbn [op_size op_opcode].
    erewrite (decode_t32 (find_encoding t32_table 0xf000d000)); [|reflexivity|exact Hm].
    cbn [e_sem]. by rewrite Ho, range25_offset.
Qed.

Lemma th_bl_t1_range_witness :
  branch_result (th_bl_t1 (u32 (-4))) full_state true (BL (-4)).
Proof.
  apply (th_bl_t1_range (-4) full_state); [apply init_state_ok|reflexivity|lia].
Defined.

(** The same for the unconditional 32-bit branch. *)
Theorem th_b_t4_range off st :
  state_ok st -> has_feat st feat_t32 -> - 2 ^ 31 <= off < 2 ^ 31 ->
  branch_result (th_b_t4 off) st (range25 off) (Bi off).
Proof.
  intros Hst Hf Hoff. unfold has_feat in Hf.
  exists (b_t4_emit 0 (mk_thop_args [with_imm (u32 off)])). split.
  - eapply emit_custom; try done; [plain_guards Hf|].
    unfold b_t4_emit. cbv zeta. by case_match.
  - unfold b_t4_emit. cbn [a_imm mk_thop_args fold_left with_imm]. rewrite range25_spec by done.
    destruct (range25 off) eqn:Hr; [|done]. cbn [negb]. cbv zeta.
    destruct (word25 (u32 off) 0x9000) as [Ho Hm]; [apply u32_bound|by right|].
    cbv zeta in Ho, Hm. unfold decodes. cbn [op_size op_opcode].
    erewrite (decode_t32 (find_encoding t32_table 0xf0009000)); [|reflexivity|exact Hm].
    cbn [e_sem]. by rewrite Ho, range25_offset.
Qed.

Lemma th_b_t4_range_witness :
  branch_result (th_b_t4 16777216) full_state false (Bi 16777216).
Proof.
  apply (th_b_t4_range 16777216 full_state); [apply init_state_ok|reflexivity|lia].
Defined.

(** ** B (16 bits): 12-bit signed even offsets *)

Definition range12 (off : Z) : bool := Z.leb (-2048) off && Z.leb off 2046 && negb (Z.odd off).

Lemma range12_spec off :
  Z.leb (Z.shiftr off 1) 1023 && Z.leb (-1024) (Z.shiftr off 1) && negb (truth (off &&& 1)) =
  range12 off.
Proof.
  rewrite odd_land. unfold range12. pose proof (Z.div_mod off 2) as Hd.
  rewrite Z.shiftr_div_pow2 by lia. change (2 ^ 1) with 2.
  pose proof (Z.mod_pos_bound off 2). rewrite Zmod_odd in *.
  destruct (Z.odd off); simpl; [by rewrite !andb_false_r|]. rewrite !andb_true_r.
  destruct (Z.leb_spec (off / 2) 1023), (Z.leb_spec (-1024) (off / 2)),
    (Z.leb_spec (-2048) off), (Z.leb_spec off 2046); try done; lia.
Qed.

(** The low bits of a signed halfword offset, as bits of the unsigned word. *)
Lemma half_bits n off :
  0 <= n <= 31 -> Z.land (Z.shiftr off 1) (Z.ones n) = Z.land (Z.shiftr (u32 off) 1) (Z.ones n).
Proof.
  intros Hn. unfold u32. apply Z.bits_inj'. intros i Hi.
  rewrite !Z.land_spec, !Z.shiftr_spec, Z.land_spec, !Z.testbit_ones_nonneg by lia.
  destruct (Z.ltb_spec i n); [|by rewrite !andb_false_r].
  destruct (Z.ltb_spec (i + 1) 32); [by rewrite !andb_true_r|lia].
Qed.

(** For every 32-bit signed offset, the 16-bit unconditional branch is returned
    exactly when the offset is even and within -2048..2046, and reads back as it. *)
Theorem th_b_t2_range off st :
  state_ok st -> has_feat st feat_t16 -> - 2 ^ 31 <= off < 2 ^ 31 ->
  branch_result (th_b_t2 off) st (range12 off) (Bi off).
Proof.
  intros Hst Hf Hoff. unfold has_feat in Hf.
  exists (b_t2_emit 0xe000 (mk_thop_args [with_imm (u32 off)])). split.
  - eapply emit_custom; try done; [plain_guards Hf|].
    unfold b_t2_emit. cbv zeta. by case_match.
  - unfold b_t2_emit. cbn [a_imm mk_thop_args fold_left with_imm]. rewrite s32_u32 by done. cbv zeta.
    rewrite range12_spec. destruct (range12 off) eqn:Hr; [|done].
    change 0x7ff with (Z.ones 11). rewrite half_bits by lia.
    pose proof (u32_bound off) as Hb. unfold decodes; cbn [op_size op_opcode].
    erewrite (decode_t16 (find_encoding t16_table 0xe000)); [|reflexivity|cbn [e_mask e_pat]].
    + cbn [e_sem]. do 2 f_equal. unfold b_t2_offset.
      unfold range12 in Hr. bool_facts.
      rewrite <-(even_field 12 off) at 2 by (lia || done).
      apply (f_equal (sign_extend 12)). generalize dependent (u32 off). intros x Hx.
      unfold slice. bit_solve.
    + generalize dependent (u32 off). intros x Hx. bit_solve.
Qed.

Lemma th_b_t2_range_witness :
  branch_result (th_b_t2 (-2048)) full_state true (Bi (-2048)).
Proof.
  apply (th_b_t2_range (-2048) full_state); [apply init_state_ok|reflexivity|lia].
Defined.

(** ** Conditional branches: the argument is the halfword offset *)

Definition cond_ok (c : Z) : Prop := 0 <= c < 14.

Lemma even_shift off : Z.odd off = false -> Z.shiftl (Z.shiftr off 1) 1 = off.
Proof.
  intros Ho. rewrite Z.shiftr_div_pow2, Z.shiftl_mul_pow2 by lia. change (2 ^ 1) with 2.
  pose proof (Z.div_mod off 2). rewrite Zmod_odd, Ho in *. lia.
Qed.

(** Bits of the halfword offset as bits of the unsigned byte offset. *)
Lemma half_u32 off :
  u32 (Z.shiftr off 1) &&& Z.ones 20 = Z.land (Z.shiftr (u32 off) 1) (Z.ones 20).
Proof.
  rewrite <-half_bits by lia. unfold u32. rewrite <-Z.land_assoc. f_equal.
Qed.

Lemma b_t3_word c off :
  cond_ok c -> Z.odd off = false -> - 2 ^ 20 <= off < 2 ^ 20 ->
  decodes (b_t3_emit 0 (mk_thop_args [with_rd c; with_imm (u32 (Z.shiftr off 1))])) (Bcond c off).
Proof.
  intros Hc Ho Hr. unfold cond_ok, b_t3_emit, decodes in *.
  cbn [a_imm a_rd mk_thop_args fold_left with_rd with_imm op_size op_opcode]. cbv zeta.
  pose proof (half_u32 off) as Hh. pose proof (u32_bound off) as Hb.
  pose proof (u32_bound (Z.shiftr off 1)) as Hy.
  assert (E : Bcond c off = Bcond c (sign_extend 21 (u32 off &&& Z.shiftl (Z.ones (21 - 1)) 1)))
    by (f_equal; symmetry; apply even_field; [lia|done|done]).
  rewrite E. clear E.
  revert Hh Hb Hy. generalize (u32 (Z.shiftr off 1)) (u32 off). intros y x Hh Hx Hy.
  clear Ho Hr off.
  erewrite (decode_t32 (find_encoding t32_table 0xf0008000)); [|reflexivity|cbn [e_mask e_pat]; bit_solve].
  cbn [e_sem].
  match goal with |- context [slice ?w 22 4] =>
    replace (slice w 22 4) with c by (unfold slice; bit_solve) end.
  destruct (Z.ltb_spec c 14); [|lia]. do 2 f_equal. unfold b_t3_offset.
  apply (f_equal (sign_extend 21)).
  transitivity (Z.shiftl (y &&& Z.ones 20) 1); [unfold slice; bit_solve|].
  rewrite Hh. bit_solve.
Qed.

(** The conditional 32-bit branch, given the halfword offset, is always returned for
    even offsets within -2^20..2^20-2 and reads back as the condition and offset. *)
Theorem th_b_t3_decodes c off st :
  state_ok st -> has_feat st feat_t32 -> cond_ok c ->
  Z.odd off = false -> - 2 ^ 20 <= off < 2 ^ 20 ->
  branch_result (th_b_t3 c (u32 (Z.shiftr off 1))) st true (Bcond c off).
Proof.
  intros Hst Hf Hc Ho Hr. unfold has_feat in Hf.
  exists (b_t3_emit 0 (mk_thop_args [with_rd c; with_imm (u32 (Z.shiftr off 1))])).
  split; [|by apply b_t3_word].
  eapply emit_custom; try done. plain_guards Hf.
Qed.

Lemma th_b_t3_decodes_witness :
  branch_result (th_b_t3 1 (u32 (Z.shiftr (-1048576) 1))) full_state true (Bcond 1 (-1048576)).
Proof.
  apply (th_b_t3_decodes 1 (-1048576) full_state);
    [apply init_state_ok|reflexivity|unfold cond_ok; lia|reflexivity|lia].
Defined.

Lemma b_t1_word c y :
  0 <= c < 16 -> 0 <= y < 2 ^ 32 ->
  thop_encode (thop_shapes THOP_SHAPE_B_COND_T16) 0xd000 (thop_place (y &&& 0xff) (bf 0 8))
    (mk_thop_args [with_rd c; with_imm (y &&& 0xff)]) = 0xd000 ||| (c <<< 8) ||| (y &&& 0xff).
Proof.
  intros Hc Hy. remember (thop_encode _ _ _ _) as w eqn:Hw.
  let s := eval vm_compute in (thop_shapes THOP_SHAPE_B_COND_T16) in
    change (thop_shapes THOP_SHAPE_B_COND_T16) with s in Hw.
  unfold thop_encode in Hw; cbv zeta in Hw; shape_simpl Hw; args_simpl Hw; eval_cond Hw.
  rewrite ?thop_place_0, ?thop_place_eq in Hw by lia. subst w. bit_solve.
Qed.

Theorem th_b_t1_decodes c off st :
  state_ok st -> has_feat st feat_t16 -> cond_ok c ->
  Z.odd off = false -> - 2 ^ 8 <= off < 2 ^ 8 ->
  branch_result (th_b_t1 c (u32 (Z.shiftr off 1))) st true (Bcond c off).
Proof.
  intros Hst Hf Hc Ho Hr. unfold has_feat, cond_ok in *.
  exists (mk_opcode 2 (thop_encode (thop_shapes THOP_SHAPE_B_COND_T16) 0xd000
    (thop_place (u32 (Z.shiftr off 1) &&& 0xff) (bf 0 8))
    (mk_thop_args [with_rd c; with_imm (u32 (Z.shiftr off 1) &&& 0xff)]))).
  split.
  - apply (emit_single TH_B_COND_T16 (V THOP_SHAPE_B_COND_T16 0xd000) _ _ (Some _)); [done|done|].
    rewrite try_variant_pure. cbn [v_shape V].
    assert (Hg : thop_guards (target_feat st) (thop_shapes THOP_SHAPE_B_COND_T16)
      (mk_thop_args [with_rd c; with_imm (u32 (Z.shiftr off 1) &&& 0xff)]) = true)
      by plain_guards Hf.
    assert (Hi : imm_bits (target_feat st) (thop_shapes THOP_SHAPE_B_COND_T16)
      (mk_thop_args [with_rd c; with_imm (u32 (Z.shiftr off 1) &&& 0xff)]) =
      Some (Some (thop_place (u32 (Z.shiftr off 1) &&& 0xff) (bf 0 8)))).
    { unfold imm_bits, thop_try_imm, mret, Pure_ret. simpl.
      assert (E : Z.leb (1 <<< 8) (u32 (Z.shiftr off 1) &&& 255) = false).
      { change (1 <<< 8) with (2 ^ 8). pose proof (land_ones_bound 8 (u32 (Z.shiftr off 1))).
        change (Z.ones 8) with 255 in *. lia. }
      by rewrite E. }
    by rewrite Hg, Hi.
  - pose proof (half_u32 off) as Hh. pose proof (u32_bound off) as Hb.
    pose proof (u32_bound (Z.shiftr off 1)) as Hy.
    assert (E : Bcond c off = Bcond c (sign_extend 9 (u32 off &&& Z.shiftl (Z.ones (9 - 1)) 1)))
      by (f_equal; symmetry; apply even_field; [lia|done|done]).
    rewrite E. clear E.
    revert Hh Hb Hy. generalize (u32 (Z.shiftr off 1)) (u32 off). intros y x Hh Hx Hy.
    clear Ho Hr off.
    rewrite b_t1_word by lia. unfold decodes; cbn [op_size op_opcode].
    erewrite (decode_t16 (find_encoding t16_table 0xd000));
      [|reflexivity|cbn [e_mask e_pat]; bit_solve].
    cbn [e_sem].
    match goal with |- context [slice ?w 8 4] =>
      replace (slice w 8 4) with c by (unfold slice; bit_solve) end.
    destruct (Z.ltb_spec c 14); [|lia]. do 2 f_equal. unfold b_t1_offset.
    apply (f_equal (sign_extend 9)).
    transitivity (Z.shiftl (y &&& Z.ones 20) 1 &&& 0x1fe); [unfold slice; bit_solve|].
    rewrite Hh. bit_solve.
Qed.

(** ** Register branches and compare-and-branch *)

Theorem th_bx_decodes rm st op :
  state_ok st -> reg rm ->
  (produces (th_bx_reg rm) st op -> decodes op (BX rm)) /\
  (produces (th_blx_reg rm) st op -> decodes op (BLX rm)).
Proof.
  intros Hst Hrm. unfold th_bx_reg, th_blx_reg. unfold reg in *. rewrite !u16_small by lia.
  split; intros Hp; decode_case Hp.
Qed.

(** CBZ and CBNZ read back the offset below 32, the reach of the immediate's low
    five bits. *)
Theorem th_cbz_decodes rn off nz st op :
  state_ok st -> reg rn -> 0 <= off < 32 ->
  produces (th_cbz rn off nz) st op -> decodes op (CBZ (truth nz) rn off).
Proof.
  intros Hst Hrn Hoff Hp. unfold th_cbz in Hp. rewrite u16_small in Hp by (unfold reg in *; lia).
  destruct (truth nz); variants Hp; bool_facts;
    (destruct (scaled_operand 1 off 16) as (q & Hq & ->);
      [lia|lia|done|rewrite Z.shiftr_div_pow2 by lia; apply Z.div_lt_upper_bound; lia|]);
    operands; read_word; unfold cbz_offset; read_fields; reflexivity.
Qed.

(** Bit 5 of the offset is written to the place of bit 6: an offset of 32 is
    emitted as a branch by 96. *)
Theorem th_cbz_32_reads_96 :
  exists op st', th_cbz (M := Enc) 0 32 0 (init_state (feats [feat_t16; feat_t32; feat_cbz])) = Some (op, st') /\
    decodes op (CBZ false 0 96).
Proof.
  exists (mk_opcode 2 0xb380), (init_state (feats [feat_t16; feat_t32; feat_cbz])).
  split; vm_compute; reflexivity.
Qed.
