(* ===== verification/ThumbDecodeMem.v ===== *)
(** * Loads, stores and branches: the emitted words are the requested instructions *)

From S2P Require Import Prelude BitReflect ArmDecode ThumbTypes ThumbShapes ThumbPack ThumbCustom.
From S2P Require Import ThumbEngine ThumbOpsMem ThumbDecode.
Local Open Scope Z_scope.
Local Open Scope c_scope.

(** ** Base and offset *)

Definition th_ldst_imm (load : bool) (k : access) :
    option (Z -> Z -> Z -> Z -> thumb_enforce_encoding -> Enc thumb_opcode) :=
  match load, k with
  | true, A_word => Some th_ldr_imm | true, A_byte => Some th_ldrb_imm
  | true, A_half => Some th_ldrh_imm | true, A_sbyte => Some th_ldrsb_imm
  | true, A_shalf => Some th_ldrsh_imm
  | false, A_word => Some th_str_imm | false, A_byte => Some th_strb_imm
  | false, A_half => Some th_strh_imm
  | false, _ => None
  end.

Definition idx_shapes : list thop_shape_id :=
  [THOP_SHAPE_T32_MEM_IDX_ANY; THOP_SHAPE_T32_MEM_IDX_ANY_NOTPC;
   THOP_SHAPE_T32_MEM_IDX_NOSP; THOP_SHAPE_T32_MEM_IDX_NOSP_NOTPC].
Definition pos_shape_of (idx : thop_shape_id) : thop_shape_id :=
  match idx with
  | THOP_SHAPE_T32_MEM_IDX_NOSP | THOP_SHAPE_T32_MEM_IDX_NOSP_NOTPC =>
      THOP_SHAPE_T32_MEM_POS_NOSP_NOTPC
  | _ => THOP_SHAPE_T32_MEM_POS_ANY_NOTPC
  end.

(** The guards of the two forms agree on a plain positive offset. *)
Lemma pos_guards feat idx rt rn imm enc :
  idx ∈ idx_shapes -> rn <> 15 ->
  let a := mk_thop_args [with_rd rt; with_rn rn; with_imm imm; with_puw 6; with_enc enc] in
  thop_guards feat (thop_shapes idx) a = true ->
  thop_guards feat (thop_shapes (pos_shape_of idx)) a = true.
Proof.
  intros Hidx Hrn%Z.eqb_neq a. unfold idx_shapes in Hidx. rewrite !elem_of_cons, elem_of_nil in Hidx.
  destruct Hidx as [-> | [-> | [-> | [-> | []]]]]; cbn [pos_shape_of].
  all: unfold thop_guards, thop_reg_ok, a; cbv zeta;
    cbn [a_rd a_rn a_rm a_ra a_imm a_shift a_flags a_enc a_in_it_block a_puw mk_thop_args fold_left
         with_rd with_rn with_imm with_puw with_enc args0];
    rewrite Hrn; clear Hrn a;
    generalize (Z.eqb rt 13) (Z.eqb rt 14) (Z.eqb rt 15) (Z.eqb rn 13) (Z.eqb rn 14)
      (Z.ltb 7 rt) (Z.ltb 7 rn) (bool_decide (enc = ENFORCE_ENCODING_16BIT))
      (bool_decide (enc = ENFORCE_ENCODING_32BIT));
    unfold thop_feat32_subset;
    change (s_feat (thop_shapes THOP_SHAPE_T32_MEM_POS_ANY_NOTPC)) with 2;
    change (s_feat (thop_shapes THOP_SHAPE_T32_MEM_POS_NOSP_NOTPC)) with 2;
    change (s_feat (thop_shapes THOP_SHAPE_T32_MEM_IDX_ANY)) with 2;
    change (s_feat (thop_shapes THOP_SHAPE_T32_MEM_IDX_ANY_NOTPC)) with 2;
    change (s_feat (thop_shapes THOP_SHAPE_T32_MEM_IDX_NOSP)) with 2;
    change (s_feat (thop_shapes THOP_SHAPE_T32_MEM_IDX_NOSP_NOTPC)) with 2;
    generalize (Z.eqb (2 &&& u32 feat) 2); vm_compute; intros;
    repeat match goal with H : context [if ?b then _ else _] |- _ => destruct b end; done.
Qed.

(** A plain positive offset that fits the indexed form fits the twelve-bit form,
    which the tables try first. *)
Lemma pos_before_idx feat idx base base' rt rn imm enc op :
  idx ∈ idx_shapes -> rn <> 15 -> 0 <= imm ->
  let a := mk_thop_args [with_rd rt; with_rn rn; with_imm imm; with_puw 6; with_enc enc] in
  accepts feat (V idx base) a op -> rejects feat (V (pos_shape_of idx) base') a -> False.
Proof.
  intros Hidx Hrn Himm a Hacc Hrej.
  apply accepts_inv in Hacc as (Hg & _ & bits & Hb & _). cbn [v_shape V] in *.
  pose proof (pos_guards feat idx rt rn imm enc Hidx Hrn Hg) as Hg'. apply imm_fact_intro in Hb.
  assert (Hlt : imm < 256).
  { unfold idx_shapes in Hidx. rewrite !elem_of_cons, elem_of_nil in Hidx.
    destruct Hidx as [-> | [-> | [-> | [-> | []]]]]; by destruct Hb as (_ & _ & _ & (? & _) & _). }
  assert (E : Z.leb (1 <<< 12) imm = false) by (change (1 <<< 12) with 4096; lia).
  apply (rejects_inv _ _ _ (thop_place imm (bf 0 12)) Hrej); [done|exact Hg'|..];
    unfold idx_shapes in Hidx; rewrite !elem_of_cons, elem_of_nil in Hidx;
    destruct Hidx as [-> | [-> | [-> | [-> | []]]]]; try done;
    unfold imm_bits, thop_try_imm, mret, Pure_ret; simpl; by rewrite E.
Qed.

(** One table, its variants by place; the positive form, tried before the
    indexed one, is at place [p]. *)
Ltac not_idx Hv Hb p :=
  exfalso; refine (pos_before_idx _ _ _ _ _ _ _ _ _ _ _ _ Hv (Hb p _ _ _));
  [apply list_elem_of_In; cbn; tauto|assumption|lia|lia|reflexivity].

Ltac mem_variants Hp p :=
  let i := fresh "i" in let v := fresh "v" in let Hi := fresh "Hi" in let Hv := fresh "Hv" in
  let Hb := fresh "Hb" in
  apply produces_at in Hp; [|assumption]; destruct Hp as (i & v & Hi & Hv & Hb);
  repeat (destruct i as [|i]; [cbn in Hi; apply Some_inj in Hi as <-|]); [..|done];
  try (not_idx Hv Hb p);
  clear Hb; accepted Hv; try lia.

Lemma ldst_imm_sound load k f rt rn imm puw enc st op :
  th_ldst_imm load k = Some f ->
  state_ok st -> reg rt -> reg rn -> rn <> 15 -> 0 <= imm < 2 ^ 31 -> 0 <= puw < 8 ->
  Z.testbit puw 2 || Z.testbit puw 0 = true ->
  produces (f rt rn imm puw enc) st op ->
  decodes op (LDSTi load k rt rn imm (Z.testbit puw 2) (Z.testbit puw 1) (Z.testbit puw 0)).
Proof.
  intros Hf Hst Hrt Hrn Hpc Himm Hpuw Hw Hp.
  assert (Hpw : negb (Z.eqb ((puw >>> 2) &&& 1) 1) && negb (Z.eqb ((puw >>> 0) &&& 1) 1) = false).
  { rewrite !testbit_slice in Hw by lia. unfold slice in Hw. change (Z.ones 1) with 1 in Hw.
    by destruct (Z.eqb ((puw >>> 2) &&& 1) 1), (Z.eqb ((puw >>> 0) &&& 1) 1). }
  clear Hw.
  destruct (decide (puw = 6)) as [->|H6];
  destruct load, k; cbn in Hf; simplify_eq;
    unfold th_ldr_imm, th_ldrb_imm, th_ldrh_imm, th_ldrsb_imm, th_ldrsh_imm, th_str_imm,
      th_strb_imm, th_strh_imm in Hp; rewrite u32_small, u8_small in Hp by lia.
  1: { mem_variants Hp 2%nat; operands; decoded. }
  1-2: mem_variants Hp 1%nat; operands; decoded.
  1-2: mem_variants Hp 0%nat; operands; decoded.
  1: { mem_variants Hp 2%nat; operands; decoded. }
  1-2: mem_variants Hp 1%nat; operands; decoded.
  all: variants Hp; try lia; operands; decoded; by rewrite Hpw.
Qed.

(** The loads and stores with an immediate offset (word, byte, halfword, signed
    forms) return only words that read back as the requested access: register, base,
    offset, and the index, add and write-back bits; in particular a plain positive offset
    never falls through to the indexed form, where it would be an unprivileged access. *)
Theorem th_ldst_imm_decodes load k f rt rn imm puw enc st op :
  th_ldst_imm load k = Some f ->
  state_ok st -> reg rt -> reg rn -> rn <> 15 -> 0 <= imm < 2 ^ 31 -> 0 <= puw < 8 ->
  Z.testbit puw 2 || Z.testbit puw 0 = true ->
  produces (f rt rn imm puw enc) st op ->
  decodes op (LDSTi load k rt rn imm (Z.testbit puw 2) (Z.testbit puw 1) (Z.testbit puw 0)).
Proof. apply ldst_imm_sound. Qed.

Lemma th_ldst_imm_decodes_witness :
  decodes (mk_opcode 4 0xf85d1b04) (LDSTi true A_word 1 13 4 false true true).
Proof.
  apply (th_ldst_imm_decodes true A_word th_ldr_imm 1 13 4 3 ENFORCE_ENCODING_NONE full_state);
    [reflexivity|apply init_state_ok|unfold reg; lia|unfold reg; lia|lia|lia|lia|reflexivity|run_full].
Defined.

(** ** Base and register *)

Definition th_ldst_reg (load : bool) (k : access) :
    option (Z -> Z -> Z -> thumb_shift -> thumb_enforce_encoding -> Enc thumb_opcode) :=
  match load, k with
  | true, A_word => Some th_ldr_reg | true, A_byte => Some th_ldrb_reg
  | true, A_half => Some th_ldrh_reg | true, A_sbyte => Some th_ldrsb_reg
  | true, A_shalf => Some th_ldrsh_reg
  | false, A_word => Some th_str_reg | false, A_byte => Some th_strb_reg
  | false, A_half => Some th_strh_reg
  | false, _ => None
  end.

(** The loads and stores with a register offset return only words that read back as
    the requested access with the offset shifted left as asked. *)
Theorem th_ldst_reg_decodes load k f rt rn rm sh enc st op :
  th_ldst_reg load k = Some f ->
  state_ok st -> reg rt -> reg rn -> reg rm -> 0 <= sh_value sh < 4 ->
  (sh_type sh = THUMB_SHIFT_NONE -> sh_value sh = 0) ->
  produces (f rt rn rm sh enc) st op ->
  decodes op (LDSTr load k rt rn rm (sh_value sh)).
Proof.
  intros Hf Hst Hrt Hrn Hrm Hv Hnone Hp. destruct sh as [t v m]; cbn [sh_type sh_value] in *.
  destruct load, k; cbn in Hf; simplify_eq; variants Hp; operands;
    try (specialize (Hnone eq_refl); subst); decoded.
Qed.

Lemma th_ldst_reg_decodes_witness :
  decodes (mk_opcode 4 0xf8221033) (LDSTr false A_half 1 2 3 3).
Proof.
  apply (th_ldst_reg_decodes false A_half th_strh_reg 1 2 3
    (mk_shift THUMB_SHIFT_LSL 3 THUMB_SHIFT_IMMEDIATE) ENFORCE_ENCODING_NONE full_state);
    [reflexivity|apply init_state_ok|unfold reg; lia|unfold reg; lia|unfold reg; lia|simpl; lia|done|run_full].
Defined.

(** ** Doubleword transfers *)

(** An admissible offset is a multiple of four below 1024. *)
Lemma ldrd_offset imm :
  Z.ltb imm 0 || truth (imm &&& 3) || Z.ltb 1020 imm = false ->
  exists q, 0 <= q < 256 /\ imm = Z.shiftl q 2.
Proof.
  intros H. bool_facts. apply (scaled_operand 2); [lia|lia|done|].
  rewrite Z.shiftr_div_pow2 by lia. apply Z.div_lt_upper_bound; lia.
Qed.

(** The emitter's word, for either direction. *)
Lemma ldrd_word (load : bool) rt rt2 rn q puw :
  reg rt -> reg rt2 -> reg rn -> 0 <= q < 256 -> 0 <= puw < 8 -> Z.eqb (puw &&& 5) 0 = false ->
  let a := mk_thop_args [with_rd rt; with_rm rt2; with_rn rn; with_imm q; with_puw puw] in
  decodes (ldrd_imm_emit (if load then 0xe8500000 else 0xe8400000) a)
    (LDSTD load rt rt2 rn (Z.shiftl q 2) (Z.testbit puw 2) (Z.testbit puw 1) (Z.testbit puw 0)).
Proof.
  intros Hrt Hrt2 Hrn Hq Hpuw H5 a. unfold reg in *.
  assert (puw = 0 \/ puw = 1 \/ puw = 2 \/ puw = 3 \/ puw = 4 \/ puw = 5 \/ puw = 6 \/ puw = 7)
    as [-> | [-> | [-> | [-> | [-> | [-> | [-> | ->]]]]]]] by lia; try discriminate H5; clear H5 Hpuw;
    unfold ldrd_imm_emit, a;
    cbn [mk_thop_args fold_left with_rd with_rm with_rn with_imm with_puw args0
         a_rd a_rm a_rn a_imm a_puw];
    destruct load;
    repeat match goal with |- context [b2z ?b] =>
      let v := eval vm_compute in (b2z b) in change (b2z b) with v end; cbv zeta; decoded.
Qed.

Lemma ldrd_produces (load : bool) rt rt2 rn q puw st op :
  state_ok st -> reg rt -> reg rt2 -> reg rn -> 0 <= q < 256 -> 0 <= puw < 8 ->
  Z.eqb (puw &&& 5) 0 = false ->
  produces (thop_emit_table (if load then TH_LDRD_IMM else TH_STRD_IMM)
    (mk_thop_args [with_rd rt; with_rm rt2; with_rn rn; with_imm q; with_puw puw])) st op ->
  decodes op
    (LDSTD load rt rt2 rn (Z.shiftl q 2) (Z.testbit puw 2) (Z.testbit puw 1) (Z.testbit puw 0)).
Proof.
  intros Hst Hrt Hrt2 Hrn Hq Hpuw H5 Hp.
  apply produces_table in Hp as (v & Hin & Hv); [|done].
  assert (v = VC THOP_SHAPE_LDRD (if load then 0xe8500000 else 0xe8400000) THOP_CUSTOM_ldrd_imm_emit) as ->.
  { apply list_elem_of_In in Hin. by destruct load; cbn in Hin; destruct Hin as [<-|[]]. }
  apply accepts_custom_fact in Hv as (bits & _ & [= <-] & _); [|by destruct load].
  by apply ldrd_word.
Qed.

(** LDRD and STRD accept only offsets 0..1020 in steps of four with an index or
    write-back, LDRD only two distinct registers, and read back as requested. *)
Theorem th_ldstd_decodes rt rt2 rn imm puw st op :
  state_ok st -> reg rt -> reg rt2 -> reg rn -> - 2 ^ 31 <= imm < 2 ^ 31 -> 0 <= puw < 8 ->
  (produces (th_ldrd_imm rt rt2 rn imm puw) st op ->
   rt <> rt2 /\
   decodes op (LDSTD true rt rt2 rn imm (Z.testbit puw 2) (Z.testbit puw 1) (Z.testbit puw 0))) /\
  (produces (th_strd_imm rt rt2 rn imm puw) st op ->
   decodes op (LDSTD false rt rt2 rn imm (Z.testbit puw 2) (Z.testbit puw 1) (Z.testbit puw 0))).
Proof.
  intros Hst Hrt Hrt2 Hrn Himm Hpuw. unfold th_ldrd_imm, th_strd_imm, ldrd_args_ok.
  destruct (_ || _ || _) eqn:E1; [split; by intros [? [? [= <-]]]|].
  destruct (Z.eqb (puw &&& 0x5) 0) eqn:E2; [split; by intros [? [? [= <-]]]|].
  apply ldrd_offset in E1 as (q & Hq & ->).
  assert (Hs : Z.shiftr (Z.shiftl q 2) 2 = q) by (rewrite Z.shiftr_shiftl_l by lia; apply Z.shiftl_0_r).
  rewrite Hs, u32_small, u8_small by lia.
  split; intros Hp.
  - cbn [andb] in Hp. destruct (Z.eqb_spec rt rt2); [by destruct Hp as [? [? [= <-]]]|].
    split; [done|]. by apply (ldrd_produces true) in Hp.
  - cbn [andb] in Hp. by apply (ldrd_produces false) in Hp.
Qed.

Lemma th_ldstd_decodes_witness :
  (produces (th_ldrd_imm 2 3 1 8 6) full_state (mk_opcode 4 0xe9d12302) ->
   2 <> 3 /\ decodes (mk_opcode 4 0xe9d12302) (LDSTD true 2 3 1 8 true true false)) /\
  (produces (th_strd_imm 2 3 1 8 6) full_state (mk_opcode 4 0xe9d12302) ->
   decodes (mk_opcode 4 0xe9d12302) (LDSTD false 2 3 1 8 true true false)).
Proof.
  apply (th_ldstd_decodes 2 3 1 8 6 full_state); [apply init_state_ok|unfold reg; lia|unfold reg; lia|unfold reg; lia|lia|lia].
Defined.

(** ** Literal loads and block transfers: the emitted words are the requested
      instructions *)

Local Open Scope Z_scope.
Local Open Scope c_scope.

(** ** Literals *)

(** With [add] set the load is from [Align(PC, 4) + imm]. *)
Theorem th_ldr_literal_decodes rt imm st op :
  state_ok st -> reg rt -> 0 <= imm < 2 ^ 32 ->
  produces (th_ldr_literal rt imm 1) st op -> decodes op (LDRlit A_word rt imm).
Proof.
  intros Hst Hrt Himm Hp. unfold th_ldr_literal in Hp.
  rewrite u16_small in Hp by (unfold reg in *; lia).
  variants Hp; operands; decoded.
Qed.

(** ** Push and pop *)

(** A non-empty list with one register. *)
Lemma single_bit regs :
  0 <= regs < 2 ^ 16 -> regs <> 0 -> regs &&& (regs - 1) = 0 ->
  0 <= ctz32 regs < 16 /\ regs = Z.shiftl 1 (ctz32 regs).
Proof.
  intros Hr Hn Hs.
  assert (H : forall_bits 16 0 (fun r =>
    Z.eqb r 0 || negb (Z.eqb (r &&& (r - 1)) 0) ||
    (Z.leb 0 (ctz32 r) && Z.ltb (ctz32 r) 16 && Z.eqb r (Z.shiftl 1 (ctz32 r)))) = true)
    by (vm_compute; reflexivity).
  apply forall_bits_sound with (x := regs) in H; [|done]. cbv beta in H.
  apply Z.eqb_neq in Hn. rewrite Hs, Hn in H. simpl in H. bool_facts. lia.
Qed.

(** A read-back list [l] is the requested one when they differ only in bits known
    to be clear. *)
Lemma same_list regs l z1 z2 :
  l = Z.lxor regs (Z.lor z1 z2) -> z1 = 0 -> z2 = 0 -> l = regs.
Proof. intros -> -> ->. apply Z.lxor_0_r. Qed.

Ltac reg_list l regs :=
  let H := fresh in
  assert (H : l = regs);
  [ match goal with
    | H1 : ?a = 0 |- _ => apply (same_list regs l a 0); [bits|exact H1|reflexivity]
    | H1 : ?a = 0, H2 : ?b = 0 |- _ => apply (same_list regs l a b); [bits|exact H1|exact H2]
    end
  | rewrite H; clear H ].

Ltac block_word :=
  subst; rewrite ?thop_place_eq by lia; unfold R_LR, R_PC in *.

(** The lone high register, stored or loaded with write-back. *)
Lemma push_single r st op :
  state_ok st -> 0 <= r < 2 ^ 16 -> r <> 0 -> r &&& u32 (r - 1) = 0 ->
  (produces (th_str_imm (ctz32 r) R_SP 4 5 ENFORCE_ENCODING_32BIT) st op ->
   exists k, r = Z.shiftl 1 k /\ decodes op (LDSTi false A_word k 13 4 true false true)) /\
  (produces (th_ldr_imm (ctz32 r) R_SP 4 3 ENFORCE_ENCODING_32BIT) st op ->
   exists k, r = Z.shiftl 1 k /\ decodes op (LDSTi true A_word k 13 4 false true true)).
Proof.
  intros Hst Hr Hn Hs. rewrite u32_small in Hs by lia.
  destruct (single_bit r Hr Hn Hs) as [Hc He].
  split; intros Hp; exists (ctz32 r); (split; [done|]).
  - by apply (ldst_imm_sound false A_word th_str_imm _ _ 4 5) in Hp.
  - by apply (ldst_imm_sound true A_word th_ldr_imm _ _ 4 3) in Hp.
Qed.

(** PUSH of a list without SP and PC returns only words that read back as storing
    exactly that list below SP with write-back; a lone high register becomes the
    pre-indexed STR. *)
Theorem th_push_decodes regs st op :
  state_ok st -> 0 <= regs < 2 ^ 16 -> regs &&& 0xA000 = 0 ->
  produces (th_push regs) st op ->
  decodes op (LDSTM false true 13 true regs) \/
  exists r, regs = Z.shiftl 1 r /\ decodes op (LDSTi false A_word r 13 4 true false true).
Proof.
  intros Hst Hr Hx Hp. unfold th_push in Hp. cbv zeta in Hp.
  destruct (_ && _ && _ && _) eqn:E.
  - right. apply andb_prop in E as [E _]. apply andb_prop in E as [E Hlr%Z.eqb_eq].
    apply andb_prop in E as [Hn%negb_true_iff%Z.eqb_neq Hs%Z.eqb_eq].
    assert (Hreg : regs &&& ~~~ ((1 <<< R_LR) ||| (1 <<< R_PC)) = regs).
    { apply (same_list regs _ (Z.shiftl (u8 ((regs >>> R_LR) &&& 1)) 14) ((regs &&& 0xA000) &&& 0x8000));
        [unfold R_LR, R_PC; bit_solve|by rewrite Hlr|by rewrite Hx]. }
    rewrite Hreg in Hn, Hs, Hp. by destruct (push_single regs st op Hst Hr Hn Hs) as [H _]; apply H.
  - left. clear E. variants Hp; block_word; read_word.
    + match goal with |- context [push_list ?w] => reg_list (push_list w) regs end. done.
    + read_fields. settle.
      match goal with |- context [slice ?w 0 16] => reg_list (slice w 0 16) regs end. done.
Qed.

Lemma th_push_decodes_witness :
  decodes (mk_opcode 2 0xb5f0) (LDSTM false true 13 true 0x40f0) \/
  exists r, 0x40f0 = Z.shiftl 1 r /\ decodes (mk_opcode 2 0xb5f0) (LDSTi false A_word r 13 4 true false true).
Proof.
  apply (th_push_decodes 0x40f0 full_state); [apply init_state_ok|lia|reflexivity|run_full].
Defined.

(** POP of a list without SP returns only words that read back as loading exactly
    that list from SP with write-back; a lone high register becomes the post-indexed LDR. *)
Theorem th_pop_decodes regs st op :
  state_ok st -> 0 <= regs < 2 ^ 16 -> regs &&& 0x2000 = 0 ->
  produces (th_pop regs) st op ->
  decodes op (LDSTM true false 13 true regs) \/
  exists r, regs = Z.shiftl 1 r /\ decodes op (LDSTi true A_word r 13 4 false true true).
Proof.
  intros Hst Hr Hx Hp. unfold th_pop in Hp. cbv zeta in Hp.
  rewrite (u16_small regs) in Hp by done.
  destruct (_ && _ && _ && _) eqn:E.
  - right. apply andb_prop in E as [E _]. apply andb_prop in E as [E Hs%Z.eqb_eq].
    apply andb_prop in E as [Hpc%Z.eqb_eq Hn%negb_true_iff%Z.eqb_neq].
    assert (Hreg : u16 (regs &&& ~~~ (1 <<< R_PC)) = regs).
    { apply (same_list regs _ (Z.shiftl (u8 ((regs >>> R_PC) &&& 1)) 15) 0);
        [unfold R_PC; bit_solve|by rewrite Hpc|done]. }
    rewrite Hreg in Hn, Hs, Hp. rewrite <-(u32_small (regs - 1)) in Hs by lia.
    by destruct (push_single regs st op Hst Hr Hn Hs) as [_ H]; apply H.
  - left. clear E. variants Hp; block_word; read_word.
    + match goal with |- context [pop_list ?w] => reg_list (pop_list w) regs end. done.
    + read_fields. done.
Qed.

Lemma th_pop_decodes_witness :
  decodes (mk_opcode 2 0xbdf0) (LDSTM true false 13 true 0x80f0) \/
  exists r, 0x80f0 = Z.shiftl 1 r /\ decodes (mk_opcode 2 0xbdf0) (LDSTi true A_word r 13 4 false true true).
Proof.
  apply (th_pop_decodes 0x80f0 full_state); [apply init_state_ok|lia|reflexivity|run_full].
Defined.

(** ** Load and store multiple *)

Lemma in_list_testbit regs rn :
  0 <= rn -> Z.eqb ((regs >>> rn) &&& 1) 0 = negb (Z.testbit regs rn).
Proof.
  intros Hr. change 1 with (Z.ones 1).
  rewrite (testbit_slice regs rn) by lia. unfold slice.
  pose proof (land_ones_bound 1 (regs >>> rn)) as Hb. change (2 ^ 1) with 2 in Hb.
  destruct (Z.eqb_spec ((regs >>> rn) &&& Z.ones 1) 0), (Z.eqb_spec ((regs >>> rn) &&& Z.ones 1) 1);
    try done; lia.
Qed.

Lemma low_testbit w i n : 0 <= i < n -> Z.testbit w i = Z.testbit (slice w 0 n) i.
Proof.
  intros Hi. unfold slice. rewrite Z.shiftr_0_r, Z.land_spec, Z.testbit_ones_nonneg by lia.
  destruct (Z.ltb_spec i n); [by rewrite andb_true_r|lia].
Qed.

(** A list the 16-bit forms take is a byte. *)
Lemma low_regset regs : 0 <= regs < 2 ^ 16 -> regs &&& ~~~ 0xff = 0 -> 0 <= regs < 2 ^ 8.
Proof.
  intros Hr Hz. rewrite <-(same_list regs (regs &&& 0xff) (regs &&& ~~~ 0xff) 0);
    [apply (land_ones_bound 8); lia|bit_solve|done|done].
Qed.

Lemma produces_nothing st op : ~ produces (mret no_opcode) st op.
Proof. by intros [? [? [= <-]]]. Qed.

Lemma ldm_emit rn regs wb enc st op :
  state_ok st -> reg rn -> 0 <= regs < 2 ^ 16 ->
  enc = ENFORCE_ENCODING_32BIT \/ Z.testbit regs rn = negb wb ->
  produces (thop_emit_table TH_LDM
    (mk_thop_args [with_rd rn; with_rm regs; with_imm (b2z wb); with_enc enc])) st op ->
  decodes op (LDSTM true false rn wb regs).
Proof.
  intros Hst Hrn Hr Hwb Hp. unfold reg in *.
  apply produces_table in Hp as (v & Hin & Hv); [|done].
  apply list_elem_of_In in Hin; cbn in Hin. destruct Hin as [<-|[<-|[]]].
  - destruct Hwb as [-> | Hwb].
    { apply accepts_inv in Hv as (Hg & _). apply thop_guards_facts in Hg. discriminate (gf_32 _ _ _ Hg eq_refl). }
    accepted Hv. apply low_regset in F; [|done]. clear Hr. operands. read_word.
    rewrite (low_testbit _ _ 8) by (apply (slice_bound _ 8 3); lia). read_fields. by rewrite Hwb, negb_involutive.
  - destruct wb; cbn [b2z] in Hv; accepted Hv; operands; decoded.
Qed.

(** LDM returns only words that read back as the requested base, list and
    write-back (which the 16-bit form only implies), and never writes back a base that
    is in the list. *)
Theorem th_ldm_decodes rn regs wb enc st op :
  state_ok st -> reg rn -> rn <> 13 -> 0 <= regs < 2 ^ 16 ->
  produces (th_ldm rn regs (b2z wb) enc) st op ->
  decodes op (LDSTM true false rn wb regs) /\ (wb = true -> Z.testbit regs rn = false).
Proof.
  intros Hst Hrn Hsp Hr Hp. unfold th_ldm in Hp. pose proof Hrn as Hrn'. unfold reg in Hrn'.
  destruct (Z.eqb_spec rn R_SP) as [|_]; [unfold R_SP in *; lia|]. cbn [andb] in Hp. cbv zeta in Hp.
  unfold truth in Hp. rewrite in_list_testbit in Hp by lia. 
  destruct wb, (Z.testbit regs rn) eqn:Hb; cbn [negb andb b2z Z.eqb Bool.eqb] in Hp.
  all: try (by apply produces_nothing in Hp).
  all: try (destruct (bool_decide _) in Hp; [by apply produces_nothing in Hp|]).
  all: split; [|done]; eapply ldm_emit; try eassumption; auto.
Qed.

Lemma th_ldm_decodes_witness :
  decodes (mk_opcode 2 0xc906) (LDSTM true false 1 false 6) /\ (false = true -> Z.testbit 6 1 = false).
Proof.
  apply (th_ldm_decodes 1 6 false ENFORCE_ENCODING_NONE full_state);
    [apply init_state_ok|unfold reg; lia|lia|lia|run_full].
Defined.

Lemma stm_emit rn regs wb enc st op :
  state_ok st -> reg rn -> 0 <= regs < 2 ^ 16 -> regs &&& 0x8000 = 0 ->
  enc = ENFORCE_ENCODING_32BIT \/ wb = true ->
  produces (thop_emit_table TH_STM
    (mk_thop_args [with_rd rn; with_rm regs; with_imm (b2z wb); with_enc enc])) st op ->
  decodes op (LDSTM false false rn wb regs).
Proof.
  intros Hst Hrn Hr Hpc Hwb Hp. unfold reg in *.
  apply produces_table in Hp as (v & Hin & Hv); [|done].
  apply list_elem_of_In in Hin; cbn in Hin. destruct Hin as [<-|[<-|[]]].
  - destruct Hwb as [-> | ->].
    { apply accepts_inv in Hv as (Hg & _). apply thop_guards_facts in Hg.
      discriminate (gf_32 _ _ _ Hg eq_refl). }
    accepted Hv. apply low_regset in F; [|done]. clear Hr Hpc. operands. decoded.
  - destruct wb; cbn [b2z] in Hv; accepted Hv; block_word; read_word; read_fields; settle;
      match goal with |- context [slice ?w 0 16] => reg_list (slice w 0 16) regs end; done.
Qed.

(** STM of a list without PC returns only words that read back as the requested
    base, list and write-back; a written-back base in the list is its lowest register. *)
Theorem th_stm_decodes rn regs wb enc st op :
  state_ok st -> reg rn -> 0 <= regs < 2 ^ 16 -> regs &&& 0x8000 = 0 ->
  produces (th_stm rn regs (b2z wb) enc) st op ->
  decodes op (LDSTM false false rn wb regs) /\
  (wb = true -> Z.testbit regs rn = true -> regs &&& u32 ((1 <<< rn) - 1) = 0).
Proof.
  intros Hst Hrn Hr Hpc Hp. unfold th_stm in Hp. pose proof Hrn as Hrn'. unfold reg in Hrn'.
  cbv zeta in Hp. unfold truth in Hp. rewrite in_list_testbit in Hp by lia.
  destruct wb, (Z.testbit regs rn) eqn:Hb; cbn [negb andb b2z Z.eqb] in Hp.
  - destruct (_ || _) eqn:E; [by apply produces_nothing in Hp|]. bool_facts.
    split; [|done]. eapply stm_emit; try eassumption; auto.
  - split; [|done]. eapply stm_emit; try eassumption; auto.
  - destruct (bool_decide _) in Hp; [by apply produces_nothing in Hp|].
    split; [|done]. eapply stm_emit; try eassumption; auto.
  - destruct (bool_decide _) in Hp; [by apply produces_nothing in Hp|].
    split; [|done]. eapply stm_emit; try eassumption; auto.
Qed.

Lemma th_stm_decodes_witness :
  decodes (mk_opcode 2 0xc106) (LDSTM false false 1 true 6) /\
  (true = true -> Z.testbit 6 1 = true -> Z.land 6 (u32 ((1 <<< 1) - 1)) = 0).
Proof.
  apply (th_stm_decodes 1 6 true ENFORCE_ENCODING_NONE full_state);
    [apply init_state_ok|unfold reg; lia|lia|reflexivity|run_full].
Defined.


(** The 32-bit PUSH has no place for SP and [th_push] masks PC: both disappear from
    the list without an error. *)
Theorem th_push_drops_sp_pc :
  exists op st',
    th_push (M := Enc) 0xA300 (init_state (feats [feat_t16; feat_t32])) = Some (op, st') /\
    decodes op (LDSTM false true 13 true 0x0300).
Proof.
  exists (mk_opcode 4 0xe92d0300), (init_state (feats [feat_t16; feat_t32])).
  split; vm_compute; reflexivity.
Qed.
