(* ===== verification/ThumbFeat.v ===== *)
(** * Target features ([thumb.c], profiles and resolution)

    The core profiles, the FPU bundles and the resolution of [-march=], [-mfpu=]
    and extra feature bits into the feature set the encoder consults.  A feature
    set is the 64-bit integer its bit-fields pack into; [None] is the fatal
    [tcc_error].  The theorems: the loop over the extensions ends and computes the
    union of their features whatever their order, and every target the encoder can
    be given satisfies the invariants the resolver checks. *)

From Stdlib Require Import String Ascii.
From S2P Require Import Prelude ThumbTypes ThumbPack ThumbEngine.
Local Open Scope Z_scope.
Local Open Scope c_scope.

(** ** Profiles and FPU bundles *)

Definition THOP_PROFILE_ARMV6M_CORE : Z := feats [feat_t16].

Definition THOP_PROFILE_ARMV7M_CORE : Z :=
  feats [feat_t16; feat_t32; feat_it; feat_mod_imm; feat_movw_movt; feat_bfx; feat_clz_rbit;
         feat_tbb_tbh; feat_cbz; feat_sat; feat_div; feat_coproc].

Definition THOP_PROFILE_ARMV7EM_CORE : Z :=
  feats [feat_t16; feat_t32; feat_it; feat_mod_imm; feat_movw_movt; feat_bfx; feat_clz_rbit;
         feat_tbb_tbh; feat_cbz; feat_sat; feat_div; feat_dsp; feat_coproc].

Definition THOP_PROFILE_ARMV8M_BASE_CORE : Z :=
  feats [feat_t16; feat_movw_movt; feat_cbz; feat_ldaex].

Definition THOP_PROFILE_ARMV8M_MAIN_CORE : Z :=
  feats [feat_t16; feat_t32; feat_it; feat_mod_imm; feat_movw_movt; feat_bfx; feat_clz_rbit;
         feat_tbb_tbh; feat_cbz; feat_sat; feat_div; feat_dsp; feat_ldaex; feat_fp_armv8;
         feat_coproc].

Definition THOP_PROFILE_ARMV81M_MAIN_CORE : Z :=
  feats [feat_t16; feat_t32; feat_it; feat_mod_imm; feat_movw_movt; feat_bfx; feat_clz_rbit;
         feat_tbb_tbh; feat_cbz; feat_sat; feat_div; feat_dsp; feat_ldaex; feat_fp_armv8;
         feat_lob; feat_coproc].

Definition THOP_FPU_NONE : Z := feats [].
Definition THOP_FPU_VFPV4_SP_D16 : Z := feats [feat_vfp_sp].
Definition THOP_FPU_FPV5_SP_D16 : Z := feats [feat_vfp_sp; feat_fp_armv8].
Definition THOP_FPU_FPV5_D16 : Z := feats [feat_vfp_sp; feat_vfp_dp; feat_fp_armv8].
Definition THOP_FPU_FPV5_D32 : Z := feats [feat_vfp_sp; feat_vfp_dp; feat_fp_armv8; feat_fp_dp_d32].
Definition THOP_FPU_FP_ARMV8_FULL : Z :=
  feats [feat_vfp_sp; feat_vfp_dp; feat_fp_armv8; feat_fp_dp_d32; feat_fp16].

Definition thop_feat_or (a b : Z) : Z := a ||| b.

(** A named bit-field of a feature set. *)
Definition has (feat f : Z) : bool := truth (feat &&& f).

(** ** Resolution *)

(** [strchr(s, '+')]: the suffix from the first ['+']. *)
Fixpoint strchr_plus (s : string) : option string :=
  match s with
  | EmptyString => None
  | String c s' => if Ascii.eqb c "+"%char then Some s else strchr_plus s'
  end.

Definition archs : list (string * Z) :=
  [("armv6-m", THOP_PROFILE_ARMV6M_CORE);
   ("armv7-m", THOP_PROFILE_ARMV7M_CORE);
   ("armv7e-m", THOP_PROFILE_ARMV7EM_CORE);
   ("armv8-m.base", THOP_PROFILE_ARMV8M_BASE_CORE);
   ("armv8-m.main", THOP_PROFILE_ARMV8M_MAIN_CORE);
   ("armv8.1-m.main", THOP_PROFILE_ARMV81M_MAIN_CORE)]%string.

(** The first [archs] entry with the name's length and characters. *)
Fixpoint find_arch (l : list (string * Z)) (base : string) : option Z :=
  match l with
  | [] => None
  | (name, feat) :: l => if String.eqb name base then Some feat else find_arch l base
  end.

(** The bits an extension sets; [None] warns and sets nothing. *)
Definition ext_feat (ext : string) : option Z :=
  (if String.eqb ext "dsp" then Some feat_dsp
   else if String.eqb ext "fpu" then Some feat_vfp_sp
   else if String.eqb ext "fp" then Some feat_vfp_sp
   else if String.eqb ext "fp.dp" then Some (feat_vfp_sp ||| feat_vfp_dp)
   else if String.eqb ext "mve" then Some feat_mve_int
   else if String.eqb ext "mve.fp" then Some (feat_mve_int ||| feat_mve_fp)
   else if String.eqb ext "pacbti" then Some feat_pacbti
   else if String.eqb ext "sec" then Some feat_sec
   else if String.eqb ext "lob" then Some feat_lob
   else None)%string.

(** The text before [next] in [s], where [next] is a suffix of [s] or the end. *)
Definition upto (s : string) (next : option string) : string :=
  match next with
  | Some n => substring 0 (String.length s - String.length n) s
  | None => s
  end.

(** [while (plus && *plus == '+')]; the fuel bounds the extensions, [None] is its
    exhaustion. *)
Fixpoint march_exts (fuel : nat) (plus : option string) (feat : Z) : option Z :=
  match plus with
  | None => Some feat
  | Some EmptyString => Some feat
  | Some (String c ext) =>
      if negb (Ascii.eqb c "+"%char) then Some feat
      else
        match fuel with
        | O => None
        | S fuel =>
            let next := strchr_plus ext in
            let feat := match ext_feat (upto ext next) with
                        | Some f => feat ||| f
                        | None => feat
                        end in
            march_exts fuel next feat
        end
  end.

Definition thop_feats_from_march (s : option string) : option Z :=
  match s with
  | None => Some THOP_PROFILE_ARMV8M_MAIN_CORE
  | Some s =>
      let plus := strchr_plus s in
      match find_arch archs (upto s plus) with
      | None => None
      | Some feat => march_exts (String.length s) plus feat
      end
  end.

Definition thop_feats_from_mfpu (s : option string) : option Z :=
  match s with
  | None => Some THOP_FPU_NONE
  | Some s =>
      (if String.eqb s "none" then Some THOP_FPU_NONE
       else if String.eqb s "vfpv4-sp-d16" || String.eqb s "fpv4-sp-d16" then Some THOP_FPU_VFPV4_SP_D16
       else if String.eqb s "fpv5-sp-d16" then Some THOP_FPU_FPV5_SP_D16
       else if String.eqb s "rp2350" then Some THOP_FPU_FPV5_SP_D16
       else if String.eqb s "fpv5-d16" then Some THOP_FPU_FPV5_D16
       else if String.eqb s "fpv5-d32" then Some THOP_FPU_FPV5_D32
       else if String.eqb s "fp-armv8-full" then Some THOP_FPU_FP_ARMV8_FULL
       else None)%string
  end.

Definition thumb_resolve_features (march mfpu : option string) (extra_feat_bits : Z) : option Z :=
  match thop_feats_from_march march with
  | None => None
  | Some feat =>
      let feat := thop_feat_or feat extra_feat_bits in
      match (match mfpu with
             | Some _ => match thop_feats_from_mfpu mfpu with
                         | Some f => Some (thop_feat_or feat f)
                         | None => None
                         end
             | None => Some feat
             end) with
      | None => None
      | Some feat =>
          if has feat feat_mve_fp && negb (has feat feat_vfp_sp) then None
          else if (has feat feat_sec || has feat feat_sec_tt) &&
                  negb (has feat feat_t32 || has feat feat_movw_movt) then None
          else Some feat
      end
  end.

Definition thumb_resolve_fpu (mfpu : option string) : option Z := thop_feats_from_mfpu mfpu.

(** ** The extension loop computes the union of the extensions *)

(** The pieces of a string between its plus signs. *)
Fixpoint split_plus (s : string) : string * list string :=
  match s with
  | EmptyString => (EmptyString, [])
  | String c s' =>
      let '(w, ws) := split_plus s' in
      if Ascii.eqb c "+"%char then (EmptyString, w :: ws) else (String c w, ws)
  end.

Definition ext_bits (ext : string) : Z := match ext_feat ext with Some f => f | None => 0 end.
Definition union (fs : list Z) : Z := fold_right Z.lor 0 fs.

Lemma strchr_plus_split s :
  match strchr_plus s with
  | None => split_plus s = (s, [])
  | Some (String c rest) =>
      c = "+"%char /\ split_plus s = (upto s (strchr_plus s), let '(w, ws) := split_plus rest in w :: ws) /\
      (String.length rest < String.length s)%nat
  | Some EmptyString => False
  end.
Proof.
  induction s as [|c s IH]; [done|]. cbn [strchr_plus split_plus].
  destruct (Ascii.eqb_spec c "+"%char) as [->|Hc].
  - split_and!; [done| |simpl; lia]. unfold upto. rewrite Nat.sub_diag.
    destruct s; by destruct (split_plus _).
  - destruct (strchr_plus s) as [[|d rest]|] eqn:E; [done| |].
    + destruct IH as (-> & IH & Hl). rewrite IH. split_and!; [done| |simpl; lia].
      f_equal. unfold upto. cbn [String.length].
      replace (S (String.length s) - S (String.length rest))%nat with (S (String.length s - S (String.length rest)))%nat by lia.
      done.
    + by rewrite IH.
Qed.

Lemma upto_split s : (split_plus s).1 = upto s (strchr_plus s).
Proof.
  pose proof (strchr_plus_split s) as H. destruct (strchr_plus s) as [[|c rest]|] eqn:E; [done| |by rewrite H].
  destruct H as (_ & -> & _). done.
Qed.

(** With fuel for the rest of the string the loop ends with the union. *)
Lemma march_exts_union fuel s feat :
  (String.length s <= fuel)%nat ->
  march_exts fuel (strchr_plus s) feat = Some (feat ||| union (map ext_bits (split_plus s).2)).
Proof.
  revert s feat. induction fuel as [|fuel IH]; intros s feat Hl;
    pose proof (strchr_plus_split s) as H; destruct (strchr_plus s) as [[|c rest]|];
    try done; try (rewrite H; simpl; by rewrite Z.lor_0_r).
  - destruct H as (-> & _ & Hr). lia.
  - destruct H as (-> & -> & Hr). cbn [march_exts]. rewrite Ascii.eqb_refl. cbn [negb].
    rewrite IH by lia. rewrite <-upto_split.
    destruct (split_plus rest) as [w ws]. cbn [fst snd map union fold_right].
    f_equal. unfold ext_bits at 2. fold (union (map ext_bits ws)).
    destruct (ext_feat w); [by rewrite Z.lor_assoc|by rewrite Z.lor_0_l].
Qed.

Lemma march_eq s :
  thop_feats_from_march (Some s) =
  match find_arch archs (split_plus s).1 with
  | None => None
  | Some core => Some (core ||| union (map ext_bits (split_plus s).2))
  end.
Proof.
  unfold thop_feats_from_march. cbv zeta. rewrite upto_split.
  destruct (find_arch archs _); [|done]. by apply march_exts_union.
Qed.

Lemma union_perm fs gs : fs ≡ₚ gs -> union fs = union gs.
Proof.
  induction 1; simpl; [done|by f_equal| |by etrans].
  rewrite !Z.lor_assoc. f_equal. apply Z.lor_comm.
Qed.

(** A [-march=] string resolves exactly when the text before its first plus sign
    is a known architecture, and then to that architecture's profile joined with the
    features of every extension, unknown ones adding nothing; the loop over the
    extensions always ends, and the extensions' order and repetition do not matter. *)
Theorem march_resolves s :
  thop_feats_from_march (Some s) =
    match find_arch archs (split_plus s).1 with
    | None => None
    | Some core => Some (core ||| union (map ext_bits (split_plus s).2))
    end /\
  forall s', (split_plus s').1 = (split_plus s).1 -> (split_plus s').2 ≡ₚ (split_plus s).2 ->
    thop_feats_from_march (Some s') = thop_feats_from_march (Some s).
Proof.
  split; [apply march_eq|]. intros s' H1 H2. rewrite !march_eq, H1.
  destruct (find_arch archs _); [|done]. do 2 f_equal. apply union_perm. by rewrite H2.
Qed.

Lemma march_resolves_witness :
  thop_feats_from_march (Some "armv7-m+sec+dsp"%string) =
  thop_feats_from_march (Some "armv7-m+dsp+sec"%string).
Proof.
  apply (proj2 (march_resolves "armv7-m+dsp+sec")); [reflexivity|]. simpl. apply perm_swap.
Defined.

(** ** Invariants of a resolved target *)

Lemma has_lor a b f : has (a ||| b) f = has a f || has b f.
Proof.
  unfold has. rewrite Z.land_lor_distr_l. unfold truth.
  destruct (Z.eqb_spec (a &&& f) 0) as [Ha|Ha], (Z.eqb_spec (b &&& f) 0) as [Hb|Hb]; simpl.
  - by rewrite Ha, Hb.
  - apply negb_true_iff, Z.eqb_neq. intros H%Z.lor_eq_0_iff. by destruct H.
  - apply negb_true_iff, Z.eqb_neq. intros H%Z.lor_eq_0_iff. by destruct H.
  - apply negb_true_iff, Z.eqb_neq. intros H%Z.lor_eq_0_iff. by destruct H.
Qed.

Lemma arch_t16 base core : find_arch archs base = Some core -> has core feat_t16 = true.
Proof.
  unfold archs. cbn [find_arch]. repeat case_match; intros [= <-]; reflexivity.
Qed.

Lemma march_t16 march feat : thop_feats_from_march march = Some feat -> has feat feat_t16 = true.
Proof.
  destruct march as [s|]; [|by intros [= <-]]. rewrite march_eq.
  destruct (find_arch archs _) as [core|] eqn:E; [|done]. intros [= <-].
  rewrite has_lor. by rewrite (arch_t16 _ _ E).
Qed.

(** A resolved target has the 16-bit instructions, everything the architecture
    and the extra bits gave it, a single-precision FP unit when it has MVE floating
    point, and Thumb-2 or MOVW/MOVT when it has the security extension. *)
Theorem resolve_invariants march mfpu extra feat :
  thumb_resolve_features march mfpu extra = Some feat ->
  has feat feat_t16 = true /\
  (forall f, has extra f = true -> has feat f = true) /\
  (forall core f, thop_feats_from_march march = Some core -> has core f = true -> has feat f = true) /\
  (has feat feat_mve_fp = true -> has feat feat_vfp_sp = true) /\
  (has feat feat_sec = true \/ has feat feat_sec_tt = true ->
   has feat feat_t32 = true \/ has feat feat_movw_movt = true).
Proof.
  unfold thumb_resolve_features, thop_feat_or.
  destruct (thop_feats_from_march march) as [core|] eqn:Hm; [|done].
  destruct (match mfpu with Some _ => _ | None => _ end) as [f|] eqn:Hf; [|done].
  assert (Hin : forall g, has core g || has extra g = true -> has f g = true).
  { intros g Hg. rewrite <-has_lor in Hg. destruct mfpu; [|by simplify_eq].
    destruct (thop_feats_from_mfpu _); simplify_eq. by rewrite has_lor, Hg. }
  destruct (_ && _) eqn:H1; [done|]. destruct (_ && _) eqn:H2 in |- *; [done|]. intros [= <-].
  split_and!.
  - apply Hin. by rewrite (march_t16 _ _ Hm).
  - intros g Hg. apply Hin. by rewrite Hg, orb_true_r.
  - intros core' g [= <-] Hg. apply Hin. by rewrite Hg.
  - intros H. rewrite H in H1. by destruct (has f feat_vfp_sp).
  - intros H. destruct (has f feat_t32), (has f feat_movw_movt); auto.
    destruct (has f feat_sec), (has f feat_sec_tt); destruct H; done.
Qed.

Lemma resolve_invariants_witness :
  let feat := feats [feat_t16; feat_movw_movt; feat_cbz; feat_ldaex; feat_sec] in
  has feat feat_t16 = true /\
  (forall f, has 0 f = true -> has feat f = true) /\
  (forall core f, thop_feats_from_march (Some "armv8-m.base+sec"%string) = Some core ->
     has core f = true -> has feat f = true) /\
  (has feat feat_mve_fp = true -> has feat feat_vfp_sp = true) /\
  (has feat feat_sec = true \/ has feat feat_sec_tt = true ->
   has feat feat_t32 = true \/ has feat feat_movw_movt = true).
Proof. apply (resolve_invariants (Some "armv8-m.base+sec"%string) None 0). reflexivity. Defined.
