(* ===== verification/ThumbProps.v ===== *)
(** * Properties of the encoding engine over every table

    Sizes, features and forced encodings of what the engine returns, for all the
    tables of the encoder at once, and the contract of the constant packer. *)

From S2P Require Import Prelude BitReflect ArmDecode ThumbTypes ThumbShapes ThumbPack ThumbCustom.
From S2P Require Import ThumbEngine ThumbOpsAlu ThumbOpsMem ThumbOpsSys ThumbDecode.
Local Open Scope Z_scope.
Local Open Scope c_scope.

Definition all_tables : list thop_table := tables_alu ++ tables_mem ++ tables_sys.
Definition all_variants : list thop_variant :=
  concat (map (fun t => table_variants (t_variants t)) all_tables).

Lemma all_variants_in t v :
  t ∈ all_tables -> v ∈ table_variants (t_variants t) -> v ∈ all_variants.
Proof.
  intros Ht Hv. unfold all_variants. apply list_elem_of_In, in_concat.
  exists (table_variants (t_variants t)). split; [|by apply list_elem_of_In].
  apply in_map_iff. exists t. split; [done|by apply list_elem_of_In].
Qed.

Lemma all_variants_forall (P : thop_variant -> bool) t v :
  forallb P all_variants = true -> t ∈ all_tables -> v ∈ table_variants (t_variants t) -> P v = true.
Proof.
  intros H Ht Hv. rewrite forallb_forall in H. apply H, list_elem_of_In.
  by eapply all_variants_in.
Qed.

(** ** Sizes *)

(** The size of a custom emitter's word, when it accepts. *)
Definition custom_size (id : thop_custom_id) : Z :=
  match id with
  | THOP_CUSTOM_b_t2_emit | THOP_CUSTOM_cbz_emit | THOP_CUSTOM_cmp_reg_t2_custom_emit
  | THOP_CUSTOM_mov_reg_t1_shift_emit | THOP_CUSTOM_mov_imm_t1_emit
  | THOP_CUSTOM_mov_reg_shift_t1_emit | THOP_CUSTOM_mul_t16_emit
  | THOP_CUSTOM_shift_reg_t1_emit => 2
  | THOP_CUSTOM_NONE => 0
  | _ => 4
  end.

Lemma custom_size_ok id base a feat op :
  thop_call_custom (M := Pure) id base a feat = Some op -> op_size op <> 0 ->
  op_size op = custom_size id.
Proof.
  destruct id; cbn [thop_call_custom custom_size];
    unfold mov_reg_shift_t1_emit, mvn_imm_emit, mret, Pure_ret, mbind, Pure_bind;
    cbn [pack_const Pure_ops tcc_ice];
    try (intros [= <-]; intros; reflexivity);
    unfold bl_t1_emit, b_t4_emit, b_t2_emit, cbz_emit, ldr_literal_emit, mov_reg_t1_shift_emit,
      mov_imm_t1_emit, vfp_pushpop_emit, vfp_arith3_emit, vfp_arith2_emit, vmov_reg_emit,
      vfp_ldst_emit, vcvt_fp_int_emit, tt_emit;
    cbv zeta; try generalize (first_set_loop 33 (a_imm a) 0) (count_set_loop 33 (a_imm a) 0 0);
    repeat match goal with
    | |- context [if ?c then _ else _] => destruct c
    | |- context [let '(_, _) := ?p in _] => destruct p
    | |- context [match ?o with Some _ => _ | None => _ end] => destruct o
    end; intros; simplify_eq; first [reflexivity | done].
Qed.

Definition size_consistent (v : thop_variant) : bool :=
  let s := thop_shapes (v_shape v) in
  (if is_custom_none v then true else Z.eqb (custom_size (v_custom v)) (size_val (s_size s))) &&
  match s_size s with
  | THOP_VARIANT_T16 => thop_feat32_subset feat_t16 (s_feat s)
  | THOP_VARIANT_T32 => thop_feat32_subset feat_t32 (s_feat s)
  | THOP_VARIANT_NONE => false
  end.

Lemma all_size_consistent : forallb size_consistent all_variants = true.
Proof. vm_compute. reflexivity. Qed.

(** What an accepted variant says of the opcode's size. *)
Lemma accepts_size feat t v a op :
  t ∈ all_tables -> v ∈ table_variants (t_variants t) -> accepts feat v a op ->
  let s := thop_shapes (v_shape v) in
  op_size op = size_val (s_size s) /\ thop_guards feat s a = true /\ size_consistent v = true.
Proof.
  intros Ht Hv Ha s. pose proof (all_variants_forall _ t v all_size_consistent Ht Hv) as Hc.
  apply accepts_inv in Ha as (Hg & _ & bits & _ & Hop). split_and!; [|done|done].
  unfold size_consistent in Hc. apply andb_prop in Hc as [Hc _].
  destruct (is_custom_none v); [by subst op|]. destruct Hop as [Hcall Hne].
  apply custom_size_ok in Hcall; [|done]. apply Z.eqb_eq in Hc. by rewrite Hcall.
Qed.

Lemma subset_trans x y z :
  thop_feat32_subset x y = true -> thop_feat32_subset y z = true -> thop_feat32_subset x z = true.
Proof.
  unfold thop_feat32_subset. rewrite !Z.eqb_eq. intros H1 H2.
  apply Z.bits_inj'. intros i Hi. apply (f_equal (fun w => Z.testbit w i)) in H1, H2.
  unfold u32 in *. rewrite !Z.land_spec in *.
  destruct (Z.testbit x i), (Z.testbit y i), (Z.testbit z i), (Z.testbit (Z.ones 32) i); done.
Qed.

(** Whatever table and operands, the engine returns an opcode of size 0, 2 or 4;
    a 16-bit opcode only on a target with the 16-bit instructions and never when 32 bits
    are forced, a 32-bit one only on a target with Thumb-2 and never when 16 bits are
    forced. *)
Theorem emit_size_features t a st op st' :
  t ∈ all_tables -> state_ok st -> thop_emit_table (M := Enc) t a st = Some (op, st') ->
  (op_size op = 0 \/ op_size op = 2 \/ op_size op = 4) /\
  (op_size op = 2 -> thop_feat32_subset feat_t16 (target_feat st) = true /\
                     a_enc a <> ENFORCE_ENCODING_32BIT) /\
  (op_size op = 4 -> thop_feat32_subset feat_t32 (target_feat st) = true /\
                     a_enc a <> ENFORCE_ENCODING_16BIT).
Proof.
  intros Ht Hst Hrun. apply emit_table_returns in Hrun as [Hp _]; [|done].
  apply emit_pure_inv in Hp as [(pre & v & post & E & _ & Hv)|[-> _]]; [|by split; [left|]].
  assert (Hin : v ∈ table_variants (t_variants t))
    by (rewrite E; apply elem_of_app; right; apply list_elem_of_here).
  destruct (accepts_size _ t v a op Ht Hin Hv) as (Hs & Hg & Hc).
  apply thop_guards_facts in Hg. destruct Hg as [Hf H16 H32 _ _ _ _ _ _ _ _ _ _ _].
  unfold size_consistent in Hc. apply andb_prop in Hc as [_ Hc].
  rewrite Hs. destruct (s_size (thop_shapes (v_shape v))) eqn:Hz; [done|..]; cbn [size_val].
  - split_and!; [auto|intros _|done].
    split; [by eapply subset_trans|]. intros He. by specialize (H32 He).
  - split_and!; [auto|done|intros _].
    split; [by eapply subset_trans|]. intros He. by specialize (H16 He).
Qed.

Lemma emit_size_features_witness :
  let op := mk_opcode 2 0x1d48 in
  (op_size op = 0 \/ op_size op = 2 \/ op_size op = 4) /\
  (op_size op = 2 -> thop_feat32_subset feat_t16 (target_feat full_state) = true /\
                     ENFORCE_ENCODING_16BIT <> ENFORCE_ENCODING_32BIT) /\
  (op_size op = 4 -> thop_feat32_subset feat_t32 (target_feat full_state) = true /\
                     ENFORCE_ENCODING_16BIT <> ENFORCE_ENCODING_16BIT).
Proof.
  apply (emit_size_features TH_ADD_IMM (mk_thop_args [with_rd 0; with_rn 1; with_imm 5;
    with_flags FLAGS_BEHAVIOUR_SET; with_enc ENFORCE_ENCODING_16BIT]) full_state _ full_state).
  - apply elem_of_app. left. apply list_elem_of_In. simpl. tauto.
  - apply init_state_ok.
  - vm_compute. reflexivity.
Defined.

(** ** Words fit their size *)

(** A field lies in the low [w] bits. *)
Definition place_in (w : Z) (p : bitfield) : bool :=
  Z.eqb (bf_width p) 0 ||
  (Z.leb 0 (bf_shift p) && Z.ltb 0 (bf_width p) && Z.ltb (bf_width p) 32 &&
   Z.leb (bf_shift p + bf_width p) w).

Definition layout_ok (v : thop_variant) : bool :=
  let s := thop_shapes (v_shape v) in
  let w := 8 * size_val (s_size s) in
  let t32 := bool_decide (s_size s = THOP_VARIANT_T32) in
  Z.leb 0 (v_base v) && Z.ltb (v_base v) (2 ^ w) && Z.leb 16 w && Z.leb w 32 &&
  forallb (place_in w)
    [s_rd_place s; s_rn_place s; s_rm_place s; s_ra_place s; s_imm_place s; s_shift_type_bits s;
     s_shift_imm2_bits s; s_shift_imm3_bits s; s_imm2_place s; s_split_imm2_place s;
     s_split_imm3_place s; s_puw_bits s; s_rm_raw_place s; s_dn_rd_split s] &&
  (negb (s_has_s_bit s) || t32) &&
  match is_kind (s_imm s) with IMM_NONE | IMM_RAW => true | IMM_SIGNED_PUW => false | _ => t32 end.

Lemma all_layout_ok : forallb (fun v => negb (is_custom_none v) || layout_ok v) all_variants = true.
Proof. vm_compute. reflexivity. Qed.

Lemma place_bound w v p : 0 <= w -> place_in w p = true -> 0 <= thop_place v p < 2 ^ w.
Proof.
  destruct p as [k n]. unfold place_in; simpl. intros Hw H.
  destruct (Z.eqb_spec n 0) as [->|]; [rewrite thop_place_0; lia|]. simpl in H.
  apply andb_prop in H as [H H4]. apply andb_prop in H as [H H3]. apply andb_prop in H as [H1 H2].
  rewrite thop_place_eq by lia.
  pose proof (land_ones_bound n v) as Hb.
  assert (0 <= Z.shiftl (Z.land v (Z.ones n)) k < 2 ^ w) as Hs.
  { rewrite Z.shiftl_mul_pow2 by lia. split; [lia|].
    apply Z.lt_le_trans with (2 ^ n * 2 ^ k); [apply Z.mul_lt_mono_pos_r; lia|].
    rewrite <-Z.pow_add_r by lia. apply Z.pow_le_mono_r; lia. }
  split; [apply Z.land_nonneg; right; done|].
  eapply Z.le_lt_trans; [|apply Hs]. rewrite Z.land_ones by lia.
  apply Z.mod_le; lia.
Qed.

Lemma or_if_bound w c x op :
  0 <= w -> 0 <= op < 2 ^ w -> (c = true -> 0 <= x < 2 ^ w) -> 0 <= or_if c x op < 2 ^ w.
Proof. destruct c; simpl; intros; [apply lor_bound; auto|done]. Qed.

Lemma u32_or_bound w x y :
  0 <= w -> 0 <= x < 2 ^ w -> 0 <= y < 2 ^ w -> 0 <= x ||| y < 2 ^ w.
Proof. apply lor_bound. Qed.

Lemma pack_3_8_1_bound x : 0 <= th_packimm_3_8_1 x < 2 ^ 32.
Proof.
  unfold th_packimm_3_8_1. repeat apply lor_bound; try lia; try apply u32_bound.
  pose proof (land_ones_bound 8 x). change (Z.ones 8) with 255 in *. lia.
Qed.

Lemma pack_10_11_0_bound x : 0 <= th_packimm_10_11_0 x < 2 ^ 32.
Proof.
  unfold th_packimm_10_11_0. repeat apply lor_bound; try lia; try apply u32_bound.
  pose proof (land_ones_bound 11 (x >>> 1)). change (Z.ones 11) with 2047 in *. lia.
Qed.

Lemma scatter12_bound f : 0 <= f < 4096 -> 0 <= scatter12 f < 2 ^ 32.
Proof.
  intros Hf. replace (scatter12 f) with (Z.land (scatter12 f) (Z.ones 32)) by (unfold scatter12, slice; bit_solve).
  apply land_ones_bound. lia.
Qed.

(** The immediate's bits are within the word. *)
Lemma imm_bits_bound feat s a bits w :
  imm_bits feat s a = Some (Some bits) -> 0 <= a_imm a < 2 ^ 32 -> 0 <= w ->
  place_in w (s_imm_place s) = true ->
  match is_kind (s_imm s) with
  | IMM_NONE | IMM_RAW => true | IMM_SIGNED_PUW => false | _ => Z.eqb w 32
  end = true ->
  0 <= bits < 2 ^ w.
Proof.
  intros H Himm Hw Hp Hk. pose proof (place_bound w) as Hpb.
  apply imm_fact_intro in H. unfold imm_fact in H. destruct (s_imm s) as [kind wd sc sg]; simpl in *.
  destruct kind; simpl in *; destruct H as (H1 & H2).
  - subst. split; [lia|]. apply Z.pow_pos_nonneg; lia.
  - destruct H2 as (_ & _ & [_ ->] & _). by apply Hpb.
  - apply Z.eqb_eq in Hk as ->. destruct H2 as (_ & _ & _ & [Hb Hz] & _).
    destruct (packed_operand (a_imm a) bits) as (f & Hf & -> & _); [done..|]. by apply scatter12_bound.
  - apply Z.eqb_eq in Hk as ->. destruct H2 as (_ & _ & _ & _ & [_ ->] & _). apply pack_3_8_1_bound.
  - apply Z.eqb_eq in Hk as ->. destruct H2 as (_ & _ & _ & _ & _ & ->). apply pack_10_11_0_bound.
  - done.
Qed.

(** The word of an accepted variant encoded by its shape. *)
Lemma encode_bound v bits a w :
  layout_ok v = true -> w = 8 * size_val (s_size (thop_shapes (v_shape v))) ->
  0 <= bits < 2 ^ w -> 0 <= thop_encode (thop_shapes (v_shape v)) (v_base v) bits a < 2 ^ w.
Proof.
  intros Hl Hwe Hb. unfold layout_ok in Hl. rewrite <-Hwe in Hl.
  set (s := thop_shapes (v_shape v)) in *.
  repeat (apply andb_prop in Hl as [Hl ?]). cbn [forallb] in *.
  repeat match goal with H : _ && _ = true |- _ => apply andb_prop in H as [? ?] end.
  unfold thop_encode. cbv zeta.
  repeat first
    [ apply or_if_bound; [lia| |intros ?]
    | apply lor_bound; [lia| |] ];
    try (apply place_bound; [lia|assumption]); try assumption; try lia.
  all: try (apply place_bound; [lia|]; unfold place_in; simpl; lia).
  apply andb_prop in H19 as [Hs _]. rewrite Hs in H0. cbn [negb orb] in H0.
  apply bool_decide_eq_true in H0. rewrite Hwe, H0. by vm_compute.
Qed.

Definition plain_table (t : thop_table) : bool :=
  forallb is_custom_none (table_variants (t_variants t)).

(** In every table without custom emitters the opcode fits its size: the
    operands' fields, however large the operands, never leave the word. *)
Theorem emit_word_fits t a st op st' :
  t ∈ all_tables -> plain_table t = true -> state_ok st -> 0 <= a_imm a < 2 ^ 32 ->
  thop_emit_table (M := Enc) t a st = Some (op, st') ->
  0 <= op_opcode op < 2 ^ (8 * op_size op).
Proof.
  intros Ht Hpl Hst Himm Hrun. apply emit_table_returns in Hrun as [Hp _]; [|done].
  apply emit_pure_inv in Hp as [(pre & v & post & E & _ & Hv)|[-> _]]; [|by vm_compute].
  assert (Hin : v ∈ table_variants (t_variants t))
    by (rewrite E; apply elem_of_app; right; apply list_elem_of_here).
  pose proof (all_variants_forall _ t v all_layout_ok Ht Hin) as Hl. cbv beta in Hl.
  unfold plain_table in Hpl. rewrite forallb_forall in Hpl.
  specialize (Hpl v (proj1 (list_elem_of_In _ _) Hin)). rewrite Hpl in Hl. cbn [negb orb] in Hl.
  apply accepts_inv in Hv as (_ & _ & bits & Hb & Hop). rewrite Hpl in Hop. subst op.
  cbn [op_opcode op_size]. apply encode_bound; [done|done|].
  eapply imm_bits_bound; [exact Hb|done|..]; clear - Hl;
    unfold layout_ok in Hl; repeat (apply andb_prop in Hl as [Hl ?]); cbn [forallb] in *;
    repeat match goal with H : _ && _ = true |- _ => apply andb_prop in H as [? ?] end;
    try lia; try done.
  destruct (is_kind _); try done; apply bool_decide_eq_true in H; rewrite H; done.
Qed.

Lemma emit_word_fits_witness : 0 <= 0x1d48 < 2 ^ (8 * 2).
Proof.
  apply (emit_word_fits TH_ADD_IMM (mk_thop_args [with_rd 0; with_rn 1; with_imm 5;
    with_flags FLAGS_BEHAVIOUR_SET]) full_state (mk_opcode 2 0x1d48) full_state).
  - apply elem_of_app. left. apply list_elem_of_In. simpl. tauto.
  - reflexivity.
  - apply init_state_ok.
  - vm_compute. split; congruence.
  - vm_compute. reflexivity.
Defined.

(** ** The engine against its reference *)

(** C1: the engine with its constant cache behaves as the reference engine that packs
    afresh: from a state whose cache is sound it stops with an internal error exactly
    when the reference does, otherwise it returns the same opcode, keeps the target and
    leaves the cache sound. *)
Theorem emit_refines_reference t a st :
  state_ok st ->
  match thop_emit_table (M := Pure) t a (target_feat st) with
  | Some op => exists st', thop_emit_table (M := Enc) t a st = Some (op, st') /\
                 state_ok st' /\ target_feat st' = target_feat st
  | None => thop_emit_table (M := Enc) t a st = None
  end.
Proof. apply (refines_emit_table t a). Qed.

(** Adding 0x00ff00ff: the first emission fills an entry of the cache, from which the
    second, on the state it leaves, takes the packed constant. *)
Definition packed_add : thop_args := mk_thop_args [with_rd 0; with_rn 1; with_imm 0x00ff00ff; with_flags FLAGS_BEHAVIOUR_SET].
Definition packed_state : enc_state := match thop_emit_table (M := Enc) TH_ADD_IMM packed_add full_state with Some (_, st) => st | None => full_state end.

Lemma emit_refines_reference_witness :
  (exists e, th_pack_const_cache packed_state !! Z.to_nat (pack_const_index 0x00ff00ff) = Some e /\ e <> mk_entry 0 0 false) /\
  match thop_emit_table (M := Pure) TH_ADD_IMM packed_add (target_feat packed_state) with
  | Some op => exists st', thop_emit_table (M := Enc) TH_ADD_IMM packed_add packed_state = Some (op, st') /\
                 state_ok st' /\ target_feat st' = target_feat packed_state
  | None => False
  end.
Proof.
  split; [eexists; split; [vm_compute; reflexivity|discriminate]|].
  assert (Hok : state_ok packed_state).
  { pose proof (emit_refines_reference TH_ADD_IMM packed_add full_state (init_state_ok _)) as H.
    unfold packed_state. destruct (thop_emit_table (M := Pure) TH_ADD_IMM packed_add (target_feat full_state)).
    - destruct H as (st' & -> & Hok & _). exact Hok.
    - rewrite H. apply init_state_ok. }
  pose proof (emit_refines_reference TH_ADD_IMM packed_add packed_state Hok) as H.
  assert (exists op, thop_emit_table (M := Pure) TH_ADD_IMM packed_add (target_feat packed_state) = Some op) as [op E]
    by (eexists; vm_compute; reflexivity).
  rewrite E in H |- *. exact H.
Defined.

(** The engine returns the word of the first variant that accepts the operands,
    every earlier one having rejected them, and the empty opcode exactly when every
    variant rejects. *)
Theorem emit_first_match t a st op st' :
  state_ok st -> thop_emit_table (M := Enc) t a st = Some (op, st') ->
  let vs := table_variants (t_variants t) in
  (exists pre v post, vs = pre ++ v :: post /\
     Forall (fun w => rejects (target_feat st) w a) pre /\ accepts (target_feat st) v a op) \/
  (op = no_opcode /\ Forall (fun w => rejects (target_feat st) w a) vs).
Proof.
  intros Hst Hrun. apply emit_table_returns in Hrun as [Hp _]; [|done]. by apply emit_pure_inv in Hp.
Qed.

Lemma emit_first_match_witness :
  (exists pre v post,
     [V THOP_SHAPE_MOVT 0xf2c00000] = pre ++ v :: post /\
     Forall (fun w => rejects (Z.ones 32) w (mk_thop_args [with_rd 1; with_imm 2])) pre /\
     accepts (Z.ones 32) v (mk_thop_args [with_rd 1; with_imm 2]) (mk_opcode 4 0xf2c00102)) \/
  (mk_opcode 4 0xf2c00102 = no_opcode /\
   Forall (fun w => rejects (Z.ones 32) w (mk_thop_args [with_rd 1; with_imm 2]))
     [V THOP_SHAPE_MOVT 0xf2c00000]).
Proof.
  apply (emit_first_match TH_MOVT (mk_thop_args [with_rd 1; with_imm 2]) full_state _ full_state).
  - apply init_state_ok.
  - vm_compute. reflexivity.
Defined.

(** ** The constant packer *)

(** [imm] is a modified immediate of the architecture. *)
Definition encodable (imm : Z) : Prop := exists e, 0 <= e < 4096 /\ ThumbExpandImm e = Some imm.

(** On any sound cache [th_pack_const] returns, keeps the cache sound, and its
    result is a packing that expands back to the constant exactly when the architecture
    has one; otherwise it is 0. *)
Theorem th_pack_const_contract imm st :
  state_ok st -> 0 <= imm < 2 ^ 32 ->
  exists p st', th_pack_const imm st = Some (p, st') /\ state_ok st' /\
    target_feat st' = target_feat st /\
    (encodable imm -> packs imm p) /\ (~ encodable imm -> p = 0).
Proof.
  intros Hst Himm. destruct (th_pack_const_returns imm st Hst) as (st' & Hrun & Hok & Hf).
  exists (pack_const_compute imm), st'. split_and!; [done..| |].
  - intros (e & He & Hv). apply pack_compute_sound; [done|]. by eapply pack_compute_complete.
  - intros Hn. destruct (decide (pack_const_compute imm = 0)) as [|Hp]; [done|]. destruct Hn.
    destruct (packs_scatter imm (pack_const_compute imm)) as (f & Hf' & _ & Hexp).
    { apply pack_compute_sound; [done|by left]. }
    by exists f.
Qed.

Lemma th_pack_const_contract_witness :
  exists p st', th_pack_const 0xff00ff00 full_state = Some (p, st') /\ state_ok st' /\
    target_feat st' = target_feat full_state /\
    (encodable 0xff00ff00 -> packs 0xff00ff00 p) /\ (~ encodable 0xff00ff00 -> p = 0).
Proof. apply th_pack_const_contract; [apply init_state_ok|lia]. Defined.
