(* ===== verification/SortSpec.v ===== *)
(** * What a stable sort promises

    The order a comparison function defines, the stable merge of two sorted
    lists, and the specification [stable_sort_of]: a permutation that is sorted
    and keeps equal elements in their original order.  [memory/sort.c] is proved
    against these. *)

From Stdlib Require Import Sorting.Sorted.
From S2P Require Import Prelude.
From stdpp Require Import sets list.
Local Open Scope Z_scope.

(** The contract of a comparison function (C11 7.22.5): its result orders the
    elements, ties allowed. *)
Class CmpOk {A : Type} (cmp : A -> A -> Z) : Prop := {
  cmp_irrefl x : ~ cmp x x < 0;
  cmp_trans x y z : cmp x y < 0 -> cmp y z < 0 -> cmp x z < 0;
  cmp_ntrans x y z : ~ cmp y x < 0 -> ~ cmp z y < 0 -> ~ cmp z x < 0;
}.

Section spec.
Context {A : Type} (cmp : A -> A -> Z).

Definition cless (x y : A) : bool := Z.ltb (cmp x y) 0.
Definition cle (x y : A) : Prop := cless y x = false.
Definition eqv (x y : A) : bool := negb (cless x y) && negb (cless y x).

(** Left-biased merge: an element of the right list comes first only when it is
    strictly smaller. *)
Fixpoint smerge (l1 : list A) : list A -> list A :=
  fix merge_r (l2 : list A) : list A :=
    match l1, l2 with
    | [], _ => l2
    | _, [] => l1
    | x :: l1', y :: l2' => if cless y x then y :: merge_r l2' else x :: smerge l1' l2
    end.

Definition sorted : list A -> Prop := StronglySorted cle.

Definition stable_sort_of (l l' : list A) : Prop :=
  l' ≡ₚ l /\ sorted l' /\ forall x, filter (fun y => eqv x y = true) l' = filter (fun y => eqv x y = true) l.

(** ** Merge *)

Lemma merge_nil_l l : smerge [] l = l.
Proof. by destruct l. Qed.
Lemma merge_nil_r l : smerge l [] = l.
Proof. by destruct l. Qed.
Lemma merge_cons x l1 y l2 :
  smerge (x :: l1) (y :: l2) =
    if cless y x then y :: smerge (x :: l1) l2 else x :: smerge l1 (y :: l2).
Proof. done. Qed.

(** Induction along the recursion of [smerge]. *)
Lemma merge_ind (P : list A -> list A -> Prop) :
  (forall l, P [] l) -> (forall l, P l []) ->
  (forall x l1 y l2, cless y x = true -> P (x :: l1) l2 -> P (x :: l1) (y :: l2)) ->
  (forall x l1 y l2, cless y x = false -> P l1 (y :: l2) -> P (x :: l1) (y :: l2)) ->
  forall l1 l2, P l1 l2.
Proof.
  intros H0 H1 H2 H3. induction l1 as [|x l1 IH1]; [done|].
  induction l2 as [|y l2 IH2]; [done|]. destruct (cless y x) eqn:E; auto.
Qed.

Local Ltac merge_induction l1 l2 :=
  pattern l1, l2; apply merge_ind; clear l1 l2;
  [intros l | intros l | intros x l1 y l2 E IH | intros x l1 y l2 E IH].

Lemma merge_perm l1 l2 : smerge l1 l2 ≡ₚ l1 ++ l2.
Proof.
  merge_induction l1 l2.
  - by rewrite merge_nil_l.
  - by rewrite merge_nil_r, app_nil_r.
  - rewrite merge_cons, E, IH. by rewrite (Permutation_middle (x :: l1) l2 y).
  - by rewrite merge_cons, E, IH.
Qed.

Lemma merge_length l1 l2 : length (smerge l1 l2) = (length l1 + length l2)%nat.
Proof. by rewrite merge_perm, length_app. Qed.

Lemma sorted_cons x l : sorted (x :: l) <-> Forall (cle x) l /\ sorted l.
Proof. split; [intros H; by inversion H | by intros []; constructor]. Qed.

(** Merging in two halves: when everything of the low parts may precede everything
    of the high parts. *)
Definition before (l1 l2 : list A) : Prop := forall x y, x ∈ l1 -> y ∈ l2 -> cle x y.
Definition sbefore (l1 l2 : list A) : Prop := forall x y, x ∈ l1 -> y ∈ l2 -> cless x y = true.

Lemma merge_before l1 l2 : before l1 l2 -> smerge l1 l2 = l1 ++ l2.
Proof.
  revert l2. induction l1 as [|x l1 IH]; intros l2 H; [by rewrite merge_nil_l|].
  destruct l2 as [|y l2]; [by rewrite merge_nil_r, app_nil_r|].
  assert (cless y x = false) as E by (apply H; set_solver).
  rewrite merge_cons, E, IH; [done|]. intros ????; apply H; set_solver.
Qed.

Lemma merge_sbefore l1 l2 : sbefore l2 l1 -> smerge l1 l2 = l2 ++ l1.
Proof.
  induction l2 as [|y l2 IH]; intros H; [by rewrite merge_nil_r|].
  destruct l1 as [|x l1]; [by rewrite merge_nil_l, app_nil_r|].
  assert (cless y x = true) as E by (apply H; set_solver).
  rewrite merge_cons, E, IH; [done|]. intros ????; apply H; set_solver.
Qed.

Lemma merge_split p1 s1 p2 s2 :
  before p1 s2 -> sbefore p2 s1 ->
  smerge (p1 ++ s1) (p2 ++ s2) = smerge p1 p2 ++ smerge s1 s2.
Proof.
  intros H1 H2; revert H1 H2; merge_induction p1 p2; intros H1 H2.
  - rewrite merge_nil_l. simpl. induction l as [|y l IH]; [done|].
    destruct s1 as [|x s1]; [by rewrite !merge_nil_l|].
    assert (cless y x = true) as E by (apply H2; set_solver).
    simpl app. rewrite merge_cons, E, IH; [done|]. intros ????; apply H2; set_solver.
  - rewrite merge_nil_r. simpl. induction l as [|x l IH]; [done|].
    destruct s2 as [|y s2]; [by rewrite !merge_nil_r|].
    assert (cless y x = false) as E by (apply H1; set_solver).
    simpl app. rewrite merge_cons, E, IH; [done|]. intros ????; apply H1; set_solver.
  - simpl app. rewrite !merge_cons, E. simpl. f_equal. apply IH; [done|].
    intros ????; apply H2; set_solver.
  - simpl app. rewrite !merge_cons, E. simpl. f_equal. apply IH; [|done].
    intros ????; apply H1; set_solver.
Qed.

(** ** Merging sorted lists *)

Context {Hcmp : CmpOk cmp}.

Lemma lt_le x y : cless x y = true -> cle x y.
Proof.
  unfold cle, cless. rewrite Z.ltb_lt, Z.ltb_ge. intros H.
  destruct (decide (cmp y x < 0)) as [Hyx|]; [|lia].
  exfalso. apply (cmp_irrefl x). by apply (cmp_trans x y x).
Qed.

Lemma cle_refl x : cle x x.
Proof. unfold cle, cless. apply Z.ltb_ge. pose proof (cmp_irrefl x). lia. Qed.

Lemma le_trans x y z : cle x y -> cle y z -> cle x z.
Proof.
  unfold cle, cless. rewrite !Z.ltb_ge, <- !Z.nlt_ge. apply cmp_ntrans.
Qed.

Lemma lt_le_trans x y z : cless x y = true -> cle y z -> cless x z = true.
Proof.
  intros H1 H2. destruct (cless x z) eqn:Hxz; [done|].
  assert (cle y x) as H by (eapply le_trans; [exact H2|exact Hxz]).
  unfold cle in H. congruence.
Qed.

Lemma le_lt_trans x y z : cle x y -> cless y z = true -> cless x z = true.
Proof.
  intros H1 H2. destruct (cless x z) eqn:Hxz; [done|].
  assert (cle z y) as H by (eapply le_trans; [exact Hxz|exact H1]).
  unfold cle in H. congruence.
Qed.

Lemma merge_sorted l1 l2 : sorted l1 -> sorted l2 -> sorted (smerge l1 l2).
Proof.
  merge_induction l1 l2.
  - by rewrite merge_nil_l.
  - by rewrite merge_nil_r.
  - intros H1 [Hy H2]%sorted_cons. rewrite merge_cons, E. apply sorted_cons. split; [|auto].
    rewrite merge_perm. apply Forall_app. split; [|done].
    apply sorted_cons in H1 as [Hx _]. constructor; [by apply lt_le|].
    eapply Forall_impl; [exact Hx|]. intros z Hz. eapply le_trans; [by apply lt_le|done].
  - intros [Hx H1]%sorted_cons H2. rewrite merge_cons, E. apply sorted_cons. split; [|auto].
    rewrite merge_perm. apply Forall_app. split; [done|].
    apply sorted_cons in H2 as [Hy _]. constructor; [done|].
    eapply Forall_impl; [exact Hy|]. intros z Hz. eapply le_trans; [exact E|done].
Qed.

Lemma eqv_le x y : eqv x y = true -> cle x y /\ cle y x.
Proof. unfold eqv, cle. by destruct (cless x y), (cless y x). Qed.

Lemma eqv_ext x y z : eqv x y = true -> eqv x z = eqv y z.
Proof.
  intros [H1 H2]%eqv_le. unfold eqv. f_equal; f_equal; apply eq_true_iff_eq; split; intros H.
  - by apply (le_lt_trans y x z).
  - by apply (le_lt_trans x y z).
  - by apply (lt_le_trans z x y).
  - by apply (lt_le_trans z y x).
Qed.

(** When the head of the right list is below that of the left, nothing of the left
    list is equivalent to it. *)
Lemma filter_below x y l :
  cless y x = true -> sorted (x :: l) -> forall z, eqv z y = true ->
  filter (fun w => eqv z w = true) (x :: l) = [].
Proof.
  intros Hyx [Hx _]%sorted_cons z [Hzy Hyz]%eqv_le.
  assert (Forall (fun w => cless z w = true) (x :: l)) as H.
  { constructor; [by eapply le_lt_trans|]. eapply Forall_impl; [exact Hx|]. intros w Hw.
    eapply lt_le_trans; [|exact Hw]. by eapply le_lt_trans. }
  clear Hx. induction H as [|w ws Hw _ IH]; [done|].
  rewrite filter_cons_False; [done|]. intros [_ Hle]%eqv_le. unfold cle in Hle. congruence.
Qed.

Lemma merge_stable l1 l2 z :
  sorted l1 ->
  filter (fun w => eqv z w = true) (smerge l1 l2) = filter (fun w => eqv z w = true) (l1 ++ l2).
Proof.
  merge_induction l1 l2; intros Hs.
  - by rewrite merge_nil_l.
  - by rewrite merge_nil_r, app_nil_r.
  - rewrite merge_cons, E, filter_app, filter_cons, (filter_cons _ y l2), IH, filter_app by done.
    case_decide as Hz; [|done]. by rewrite (filter_below x y).
  - apply sorted_cons in Hs as [_ Hs]. rewrite merge_cons, E, <- app_comm_cons.
    by rewrite !filter_cons, IH.
Qed.

(** ** Stable sorts *)

Lemma stable_sort_refl l : (length l <= 1)%nat -> stable_sort_of l l.
Proof.
  intros H. split; [done|]. split; [|done].
  destruct l as [|x [|]]; [constructor| |simpl in H; lia]. apply sorted_cons. by repeat constructor.
Qed.

Lemma stable_sort_merge l1 l2 l1' l2' :
  stable_sort_of l1 l1' -> stable_sort_of l2 l2' -> stable_sort_of (l1 ++ l2) (smerge l1' l2').
Proof.
  intros (P1 & S1 & F1) (P2 & S2 & F2). split; [|split].
  - by rewrite merge_perm, P1, P2.
  - by apply merge_sorted.
  - intros x. by rewrite merge_stable, !filter_app, F1, F2.
Qed.

Lemma sorted_app l1 l2 : sorted (l1 ++ l2) -> sorted l1 /\ sorted l2 /\ before l1 l2.
Proof.
  induction l1 as [|x l1 IH]; simpl; intros H.
  - split; [constructor|]. split; [done|]. intros x y Hx. by apply elem_of_nil in Hx.
  - apply sorted_cons in H as [Hx H]. destruct (IH H) as (H1 & H2 & H3).
    rewrite Forall_app in Hx. split; [apply sorted_cons; tauto|]. split; [done|].
    intros a b [->|Ha]%elem_of_cons Hb; [|by apply H3].
    destruct Hx as [_ Hx]. rewrite Forall_forall in Hx. auto.
Qed.

Lemma sorted_lookup l i j x y :
  sorted l -> l !! i = Some x -> l !! j = Some y -> (i <= j)%nat -> cle x y.
Proof.
  intros Hs Hi Hj Hij. destruct (decide (i = j)) as [->|Hne]; [simplify_eq; apply cle_refl|].
  rewrite <- (take_drop j l) in Hs. apply sorted_app in Hs as (_ & _ & H). apply H.
  - apply list_elem_of_lookup. exists i. rewrite lookup_take_lt by lia. done.
  - apply list_elem_of_lookup. exists 0%nat. by rewrite lookup_drop, Nat.add_0_r.
Qed.

(** Splitting two sorted lists symmetrically: [start] elements of the first and
    [k - start] of the second are the smallest [k] when the last element taken from
    the one list may precede the first element left in the other. *)
Lemma sym_split_lists l1 l2 k start :
  sorted l1 -> sorted l2 -> (start <= length l1 -> start <= k -> k - start <= length l2 ->
  (forall i j x y, i + 1 = start -> i + j + 1 = k -> l1 !! i = Some x -> l2 !! j = Some y -> cle x y) ->
  (forall i j x y, i = start -> i + j + 1 = k -> l1 !! i = Some x -> l2 !! j = Some y -> cless y x = true) ->
  before (take start l1) (drop (k - start) l2) /\ sbefore (take (k - start) l2) (drop start l1))%nat.
Proof.
  intros Hs1 Hs2 H1 Hk H2 Hb Ha. split.
  - intros x y (i & Hi)%list_elem_of_lookup (j & Hj)%list_elem_of_lookup.
    apply lookup_take_Some in Hi as [Hx Hi]. rewrite lookup_drop in Hj.
    assert (k - start < length l2)%nat by (apply lookup_lt_Some in Hj; lia).
    destruct (lookup_lt_is_Some_2 l1 (start - 1)) as [x' Hx']; [lia|].
    destruct (lookup_lt_is_Some_2 l2 (k - start)) as [y' Hy']; [lia|].
    apply (le_trans x x' y); [|apply (le_trans x' y' y)].
    + apply (sorted_lookup l1 i (start - 1)); auto; lia.
    + apply (Hb (start - 1) (k - start))%nat; auto; lia.
    + apply (sorted_lookup l2 (k - start) (k - start + j)); auto; lia.
  - intros y x (j & Hj)%list_elem_of_lookup (i & Hi)%list_elem_of_lookup.
    apply lookup_take_Some in Hj as [Hy Hj]. rewrite lookup_drop in Hi.
    assert (start < length l1)%nat by (apply lookup_lt_Some in Hi; lia).
    destruct (lookup_lt_is_Some_2 l1 start) as [x' Hx']; [lia|].
    destruct (lookup_lt_is_Some_2 l2 (k - start - 1)) as [y' Hy']; [lia|].
    apply (le_lt_trans y y' x); [|apply (lt_le_trans y' x' x)].
    + apply (sorted_lookup l2 j (k - start - 1)); auto; lia.
    + apply (Ha start (k - start - 1))%nat; auto; lia.
    + apply (sorted_lookup l1 start (start + i)); auto; lia.
Qed.
End spec.

Global Arguments cless : simpl never.

(** ** Sorting by a key *)

Section key.
Context {A B : Type} (f : A -> B) (cmp : B -> B -> Z).

Definition by_key (x y : A) : Z := cmp (f x) (f y).

Lemma by_key_ok : CmpOk cmp -> CmpOk by_key.
Proof. intros H. split; unfold by_key; intros *; apply H. Qed.

Lemma filter_by_key e l :
  filter (fun y => eqv cmp e y = true) (map f l) = map f (filter (fun p => eqv cmp e (f p) = true) l).
Proof. induction l as [|p l IH]; simpl; [done|]. rewrite !filter_cons. by case_decide; simpl; rewrite IH. Qed.

(** A stable sort by a key is a stable sort of the keys. *)
Lemma stable_sort_map l l' : CmpOk cmp -> stable_sort_of by_key l l' -> stable_sort_of cmp (map f l) (map f l').
Proof.
  intros Hcmp (HP & HS & HF). split; [by rewrite HP|split].
  - clear HP HF. induction HS as [|x l' _ IH Hx]; [constructor|]. simpl. apply sorted_cons.
    split; [|done]. apply Forall_fmap. eapply Forall_impl; [exact Hx|]. done.
  - intros e. rewrite !filter_by_key. f_equal.
    destruct (decide (Exists (fun p => eqv cmp e (f p) = true) l)) as [Hex|Hex].
    + apply Exists_exists in Hex as (p & Hp & He).
      assert (forall ps : list A, filter (fun q => eqv cmp e (f q) = true) ps =
                         filter (fun q => eqv cmp (f p) (f q) = true) ps) as E.
      { intros ps. apply list_filter_iff. intros q. by rewrite (eqv_ext cmp e (f p)). }
      rewrite !E. exact (HF p).
    + apply not_Exists_Forall in Hex; [|apply _].
      assert (forall ps : list A, Forall (fun p => ~ eqv cmp e (f p) = true) ps ->
              filter (fun p => eqv cmp e (f p) = true) ps = []) as E.
      { induction 1; [done|]. by rewrite filter_cons_False. }
      rewrite !E; [done|done|by rewrite HP].
Qed.
End key.
