(* ===== verification/Sort.v ===== *)
(** * The in-place stable sort ([memory/sort.c])

    Insertion-sorted blocks merged by SymMerge.  The algorithm sees the array only
    through two operations, [tcc_sort_less] and [tcc_sort_swap_range]: they are the
    interface [SortArray], whose laws [SortArrayOk] are all the proofs below use.
    The array of elements and the array of pointers of [tcc_qsort] are two instances
    (file Qsort).  Loops carry fuel; the theorems show that the fuel their callers
    pass is enough. *)

From Stdlib Require Import Sorting.Sorted.
From S2P Require Import Prelude SortSpec.
From stdpp Require Import sets list.
Local Open Scope nat_scope.

(** What the algorithm uses of an array of [A]s represented by a state [T]. *)
Class SortArray (T A : Type) := {
  view : T -> list A;
  tcc_sort_less : T -> nat -> nat -> bool;
  tcc_sort_swap_range : T -> nat -> nat -> nat -> T;
}.

(** What it relies on: [less] compares, and [swap_range] exchanges two disjoint
    ranges of equal length, in whichever order they are named. *)
Class SortArrayOk {T A} `{!SortArray T A} (cmp : A -> A -> Z) (ok : T -> Prop) : Prop := {
  less_spec s i j x y :
    ok s -> view s !! i = Some x -> view s !! j = Some y -> tcc_sort_less s i j = cless cmp x y;
  swap_spec s p x q y r a b :
    ok s -> view s = p ++ x ++ q ++ y ++ r -> length x = length y ->
    (a = length p /\ b = length p + length x + length q \/
     b = length p /\ a = length p + length x + length q) ->
    ok (tcc_sort_swap_range s a b (length x)) /\
    view (tcc_sort_swap_range s a b (length x)) = p ++ y ++ q ++ x ++ r;
}.

Section sort.
Context {T A : Type} `{!SortArray T A}.

(** ** [tcc_sort_rotate] *)

Fixpoint rotate_loop (fuel : nat) (s : T) (m i j : nat) : T :=
  match fuel with
  | O => s
  | S fuel =>
      if i =? j then tcc_sort_swap_range s (m - i) m i
      else if j <? i then rotate_loop fuel (tcc_sort_swap_range s (m - i) m j) m (i - j) j
      else rotate_loop fuel (tcc_sort_swap_range s (m - i) (m + j - i) i) m i (j - i)
  end.

Definition tcc_sort_rotate (s : T) (a m b : nat) : T := rotate_loop (b - a) s m (m - a) (b - m).

(** ** [tcc_sort_sym_merge] *)

(** The binary searches: the first index in [i, j) where [test] fails. *)
Fixpoint bsearch (fuel : nat) (test : nat -> bool) (i j : nat) : nat :=
  match fuel with
  | O => i
  | S fuel =>
      if i <? j then
        let h := i + (j - i) / 2 in
        if test h then bsearch fuel test (h + 1) j else bsearch fuel test i h
      else i
  end.

(** [for (k = a; k + 1 < i; k++) swap(k, k + 1)]. *)
Fixpoint shift_up (fuel : nat) (s : T) (k i : nat) : T :=
  match fuel with
  | O => s
  | S fuel =>
      if k + 1 <? i then shift_up fuel (tcc_sort_swap_range s k (k + 1) 1) (k + 1) i else s
  end.

(** [for (k = m; k > i; k--) swap(k, k - 1)]. *)
Fixpoint shift_down (fuel : nat) (s : T) (k i : nat) : T :=
  match fuel with
  | O => s
  | S fuel =>
      if i <? k then shift_down fuel (tcc_sort_swap_range s k (k - 1) 1) (k - 1) i else s
  end.

(** The split SymMerge searches: position [c] of the left run against the mirrored
    position [n - 1 - c] of the right one. *)
Definition sym_split (s : T) (a m b : nat) : nat :=
  let mid := a + (b - a) / 2 in
  let n := mid + m in
  let '(start, r) := if mid <? m then (n - b, mid) else (a, m) in
  bsearch (r - start) (fun c => negb (tcc_sort_less s (n - 1 - c) c)) start r.

Fixpoint tcc_sort_sym_merge (fuel : nat) (s : T) (a m b : nat) : T :=
  match fuel with
  | O => s
  | S fuel =>
      if m - a =? 1 then
        let i := bsearch (b - m) (fun h => tcc_sort_less s h a) m b in
        shift_up (b - a) s a i
      else if b - m =? 1 then
        let i := bsearch (m - a) (fun h => negb (tcc_sort_less s m h)) a m in
        shift_down (b - a) s m i
      else
        let mid := a + (b - a) / 2 in
        let n := mid + m in
        let start := sym_split s a m b in
        let end_ := n - start in
        let s := if (start <? m) && (m <? end_) then tcc_sort_rotate s start m end_ else s in
        let s := if (a <? start) && (start <? mid) then tcc_sort_sym_merge fuel s a start mid else s in
        if (mid <? end_) && (end_ <? b) then tcc_sort_sym_merge fuel s mid end_ b else s
  end.

(** ** [tcc_sort_insertion] *)

(** [for (j = i; j > a && less(j, j - 1); j--) swap(j, j - 1)]. *)
Fixpoint insertion_inner (fuel : nat) (s : T) (a j : nat) : T :=
  match fuel with
  | O => s
  | S fuel =>
      if (a <? j) && tcc_sort_less s j (j - 1)
      then insertion_inner fuel (tcc_sort_swap_range s j (j - 1) 1) a (j - 1) else s
  end.

Fixpoint insertion_outer (fuel : nat) (s : T) (a i b : nat) : T :=
  match fuel with
  | O => s
  | S fuel =>
      if i <? b then insertion_outer fuel (insertion_inner (i - a) s a i) a (i + 1) b else s
  end.

Definition tcc_sort_insertion (s : T) (a b : nat) : T := insertion_outer (b - a) s a (a + 1) b.

(** ** The loops of [tcc_qsort] *)

Definition BLOCK : nat := 20.

Fixpoint insertion_blocks (fuel : nat) (s : T) (a n : nat) : T :=
  match fuel with
  | O => s
  | S fuel =>
      if a + BLOCK <=? n then insertion_blocks fuel (tcc_sort_insertion s a (a + BLOCK)) (a + BLOCK) n
      else if a <? n then tcc_sort_insertion s a n else s
  end.

Fixpoint merge_pass (fuel : nat) (s : T) (block a b n : nat) : T :=
  match fuel with
  | O => s
  | S fuel =>
      if b <=? n then merge_pass fuel (tcc_sort_sym_merge (b - a) s a (a + block) b) block b (b + 2 * block) n
      else if a + block <? n then tcc_sort_sym_merge (n - a) s a (a + block) n else s
  end.

Fixpoint merge_blocks (fuel : nat) (s : T) (block n : nat) : T :=
  match fuel with
  | O => s
  | S fuel =>
      if block <? n then merge_blocks fuel (merge_pass (n + 1) s block 0 (2 * block) n) (block * 2) n
      else s
  end.

Definition sort_array (s : T) (n : nat) : T :=
  merge_blocks n (insertion_blocks (n + 1) s 0 n) BLOCK n.

(** ** Correctness *)

Context (cmp : A -> A -> Z) {Hcmp : CmpOk cmp} (ok : T -> Prop) {HS : SortArrayOk cmp ok}.

(** The state's array is [pre ++ l ++ post]; an operation on the segment [l] says
    nothing of the rest and changes nothing of it. *)
Definition holds (s : T) (pre l post : list A) : Prop := ok s /\ view s = pre ++ l ++ post.

Lemma holds_eq s p l q p' l' q' :
  holds s p l q -> p ++ l ++ q = p' ++ l' ++ q' -> holds s p' l' q'.
Proof. intros [H1 H2] He. split; [done|]. by rewrite H2. Qed.

Local Ltac reshape H := refine (holds_eq _ _ _ _ _ _ _ H _); list_assoc.

Lemma holds_lookup s pre l post i : holds s pre l post -> i < length l ->
  view s !! (length pre + i) = l !! i.
Proof.
  intros [_ ->] Hi. rewrite lookup_app_r by lia. rewrite lookup_app_l by lia. f_equal. lia.
Qed.

(** [less] on two positions of the segment. *)
Lemma holds_less s pre l post i j x y :
  holds s pre l post -> l !! i = Some x -> l !! j = Some y ->
  tcc_sort_less s (length pre + i) (length pre + j) = cless cmp x y.
Proof.
  intros H Hi Hj. apply less_spec; [apply H| |].
  - by rewrite (holds_lookup s pre l post) by eauto using lookup_lt_Some.
  - by rewrite (holds_lookup s pre l post) by eauto using lookup_lt_Some.
Qed.

Lemma holds_swap s pre x q y post a b n :
  holds s pre (x ++ q ++ y) post -> length x = n -> length y = n ->
  (a = length pre /\ b = length pre + n + length q \/
   b = length pre /\ a = length pre + n + length q) ->
  holds (tcc_sort_swap_range s a b n) pre (y ++ q ++ x) post.
Proof.
  intros [Hok Hv] <- Hy Hab. unfold holds. rewrite <- !app_assoc in *. by apply swap_spec.
Qed.


Lemma rotate_loop_spec fuel s pre x y post m i j :
  holds s pre (x ++ y) post -> 0 < length x -> 0 < length y -> length x + length y <= fuel ->
  m = length pre + length x -> i = length x -> j = length y ->
  holds (rotate_loop fuel s m i j) pre (y ++ x) post.
Proof.
  revert s pre x y post i j. induction fuel as [|fuel IH]; intros s pre x y post i j H Hx Hy Hf Hm Hi Hj; [lia|].
  simpl. destruct (Nat.eqb_spec i j) as [He|He]; [|destruct (Nat.ltb_spec j i) as [Hl|Hl]].
  - apply (holds_swap s pre x [] y); simpl; [done|lia..].
  - destruct (list_split j x) as (x1 & x2 & -> & Hx1); [lia|]. rewrite length_app in *.
    assert (holds (tcc_sort_swap_range s (m - i) m j) pre (y ++ x2 ++ x1) post) as H'.
    { apply (holds_swap _ _ x1 x2 y); [by rewrite app_assoc|lia..]. }
    assert (holds (rotate_loop fuel (tcc_sort_swap_range s (m - i) m j) m (i - j) j) (pre ++ y) (x1 ++ x2) post) as H2.
    { apply IH; rewrite ?length_app; [reshape H'|lia..]. }
    reshape H2.
  - destruct (list_split (j - i) y) as (y1 & y2 & -> & Hy1); [lia|]. rewrite length_app in *.
    assert (holds (tcc_sort_swap_range s (m - i) (m + j - i) i) pre (y2 ++ y1 ++ x) post) as H'.
    { apply (holds_swap _ _ x y1 y2); [done|lia..]. }
    assert (holds (rotate_loop fuel (tcc_sort_swap_range s (m - i) (m + j - i) i) m i (j - i)) pre (y1 ++ y2) (x ++ post)) as H2.
    { apply IH; rewrite ?length_app; [reshape H'|lia..]. }
    reshape H2.
Qed.

Lemma rotate_spec s pre x y post a m b :
  holds s pre (x ++ y) post -> 0 < length x -> 0 < length y ->
  a = length pre -> m = a + length x -> b = m + length y ->
  holds (tcc_sort_rotate s a m b) pre (y ++ x) post.
Proof. intros H Hx Hy -> -> ->. apply rotate_loop_spec; [done|lia..]. Qed.

Lemma bsearch_spec fuel test i j :
  j - i <= fuel -> i <= j ->
  (forall h h', i <= h <= h' -> h' < j -> test h' = true -> test h = true) ->
  i <= bsearch fuel test i j <= j /\
  (forall h, i <= h < bsearch fuel test i j -> test h = true) /\
  (forall h, bsearch fuel test i j <= h < j -> test h = false).
Proof.
  revert i j. induction fuel as [|fuel IH]; intros i j Hf Hij Hmono; cbn [bsearch].
  { split; [lia|]. split; intros; lia. }
  destruct (Nat.ltb_spec i j) as [Hlt|]; [|split; [lia|]; split; intros; lia].
  assert (i <= i + (j - i) / 2 < j) as Hh.
  { assert ((j - i) / 2 < j - i) by (apply Nat.div_lt; lia). lia. }
  set (h := i + (j - i) / 2) in *. destruct (test h) eqn:Eh.
  - destruct (IH (h + 1) j) as (H1 & H2 & H3); [lia|lia|intros; eapply Hmono; eauto; lia|].
    split; [lia|]. split; [|done]. intros k Hk.
    destruct (decide (h + 1 <= k)); [apply H2; lia|]. apply (Hmono k h); [lia..|done].
  - destruct (IH i h) as (H1 & H2 & H3); [lia|lia|intros; eapply Hmono; eauto; lia|].
    split; [lia|]. split; [done|]. intros k Hk.
    destruct (decide (k < h)); [apply H3; lia|]. destruct (test k) eqn:Ek; [|done].
    rewrite <- Eh. symmetry. apply (Hmono h k); [lia..|done].
Qed.

Lemma shift_up_spec fuel s pre x l post k i :
  holds s pre (x :: l) post -> length l <= fuel -> k = length pre -> i = k + 1 + length l ->
  holds (shift_up fuel s k i) pre (l ++ [x]) post.
Proof.
  revert s pre l k. induction fuel as [|fuel IH]; intros s pre l k H Hf Hk Hi; simpl.
  { destruct l; [done|simpl in *; lia]. }
  destruct l as [|y l]; simpl in *.
  { by replace (k + 1 <? i) with false by (symmetry; apply Nat.ltb_ge; lia). }
  replace (k + 1 <? i) with true by (symmetry; apply Nat.ltb_lt; lia).
  assert (holds (tcc_sort_swap_range s k (k + 1) 1) pre ([y] ++ [] ++ [x]) (l ++ post)) as H'.
  { apply holds_swap; [reshape H|done|done|simpl; lia]. }
  assert (holds (shift_up fuel (tcc_sort_swap_range s k (k + 1) 1) (k + 1) i) (pre ++ [y]) (l ++ [x]) post) as H2.
  { apply IH; rewrite ?length_app; simpl; [reshape H'|lia..]. }
  reshape H2.
Qed.

Lemma shift_down_spec fuel s pre l x post k i :
  holds s pre (l ++ [x]) post -> length l <= fuel -> i = length pre -> k = i + length l ->
  holds (shift_down fuel s k i) pre (x :: l) post.
Proof.
  revert s l post k. induction fuel as [|fuel IH]; intros s l post k H Hf Hi Hk; simpl.
  { destruct l; [done|simpl in *; lia]. }
  destruct l as [|y l _] using rev_ind; simpl in *.
  { by replace (i <? k) with false by (symmetry; apply Nat.ltb_ge; lia). }
  rewrite length_app in *. simpl in *.
  replace (i <? k) with true by (symmetry; apply Nat.ltb_lt; lia).
  assert (holds (tcc_sort_swap_range s k (k - 1) 1) (pre ++ l) ([x] ++ [] ++ [y]) post) as H'.
  { apply holds_swap; [reshape H|done|done|rewrite length_app; simpl; lia]. }
  assert (holds (shift_down fuel (tcc_sort_swap_range s k (k - 1) 1) (k - 1) i) pre (x :: l) ([y] ++ post)) as H2.
  { apply IH; [reshape H'|lia..]. }
  reshape H2.
Qed.

(** *** Merging *)

Lemma sym_merge_one_l s pre x l post a m b :
  holds s pre (x :: l) post -> sorted cmp l -> a = length pre -> m = a + 1 -> b = m + length l ->
  holds (shift_up (b - a) s a (bsearch (b - m) (fun h => tcc_sort_less s h a) m b))
    pre (smerge cmp [x] l) post.
Proof.
  intros H Hs Ha Hm Hb.
  assert (forall k y, l !! k = Some y -> tcc_sort_less s (m + k) a = cless cmp y x) as Hless.
  { intros k y Hk. replace (m + k) with (length pre + S k) by lia.
    replace a with (length pre + 0) by lia. by apply (holds_less s pre (x :: l) post). }
  destruct (bsearch_spec (b - m) (fun h => tcc_sort_less s h a) m b) as (H1 & H2 & H3); [lia|lia| |].
  { intros h h' Hh Hh' Ht.
    destruct (lookup_lt_is_Some_2 l (h - m)) as [y Hy]; [lia|].
    destruct (lookup_lt_is_Some_2 l (h' - m)) as [y' Hy']; [lia|].
    replace h with (m + (h - m)) by lia. rewrite (Hless _ _ Hy).
    replace h' with (m + (h' - m)) in Ht by lia. rewrite (Hless _ _ Hy') in Ht.
    apply (le_lt_trans cmp _ y'); [|exact Ht].
    apply (sorted_lookup cmp l (h - m) (h' - m)); auto; lia. }
  set (i := bsearch _ _ _ _) in *.
  destruct (list_split (i - m) l) as (p2 & s2 & -> & Hp2); [lia|]. rewrite length_app in *.
  change [x] with ([] ++ [x]). rewrite merge_split, merge_nil_l, merge_before.
  - assert (holds (shift_up (b - a) s a i) pre (p2 ++ [x]) (s2 ++ post)) as H'.
    { apply shift_up_spec; [reshape H|lia..]. }
    reshape H'.
  - intros ? y ->%list_elem_of_singleton [k Hk]%list_elem_of_lookup.
    unfold cle. rewrite <- (Hless (length p2 + k)); [|by rewrite lookup_app_r, Nat.add_sub' by lia].
    apply H3. apply lookup_lt_Some in Hk. lia.
  - by intros ?? ?%elem_of_nil.
  - intros y ? [k Hk]%list_elem_of_lookup ->%list_elem_of_singleton.
    pose proof (lookup_lt_Some _ _ _ Hk). rewrite <- (Hless k); [|by rewrite lookup_app_l].
    apply H2. lia.
Qed.

Lemma sym_merge_one_r s pre l x post a m b :
  holds s pre (l ++ [x]) post -> sorted cmp l -> a = length pre -> m = a + length l -> b = m + 1 ->
  holds (shift_down (b - a) s m (bsearch (m - a) (fun h => negb (tcc_sort_less s m h)) a m))
    pre (smerge cmp l [x]) post.
Proof.
  intros H Hs Ha Hm Hb.
  assert (forall k y, l !! k = Some y -> tcc_sort_less s m (a + k) = cless cmp x y) as Hless.
  { intros k y Hk. subst a m. apply (holds_less s pre (l ++ [x]) post); [done| |].
    - by rewrite lookup_app_r, Nat.sub_diag.
    - by apply lookup_app_l_Some. }
  destruct (bsearch_spec (m - a) (fun h => negb (tcc_sort_less s m h)) a m) as (H1 & H2 & H3); [lia|lia| |].
  { intros h h' Hh Hh' Ht%negb_true_iff. apply negb_true_iff.
    destruct (lookup_lt_is_Some_2 l (h - a)) as [y Hy]; [lia|].
    destruct (lookup_lt_is_Some_2 l (h' - a)) as [y' Hy']; [lia|].
    replace h with (a + (h - a)) by lia. rewrite (Hless _ _ Hy).
    replace h' with (a + (h' - a)) in Ht by lia. rewrite (Hless _ _ Hy') in Ht.
    apply (le_trans cmp _ y'); [|exact Ht].
    apply (sorted_lookup cmp l (h - a) (h' - a)); auto; lia. }
  set (i := bsearch _ _ _ _) in *.
  destruct (list_split (i - a) l) as (p1 & s1 & -> & Hp1); [lia|]. rewrite length_app in *.
  change [x] with ([] ++ [x]). rewrite merge_split, merge_nil_r, merge_sbefore.
  - assert (holds (shift_down (b - a) s m i) (pre ++ p1) (x :: s1) post) as H'.
    { apply shift_down_spec; [reshape H|rewrite ?length_app; lia..]. }
    reshape H'.
  - intros ? y ->%list_elem_of_singleton [k Hk]%list_elem_of_lookup.
    rewrite <- (Hless (length p1 + k)); [|by rewrite lookup_app_r, Nat.add_sub' by lia].
    apply negb_false_iff, H3. apply lookup_lt_Some in Hk. lia.
  - intros y ? [k Hk]%list_elem_of_lookup ->%list_elem_of_singleton.
    pose proof (lookup_lt_Some _ _ _ Hk). unfold cle.
    rewrite <- (Hless k); [|by rewrite lookup_app_l]. apply negb_true_iff, H2. lia.
  - by intros ?? ?%elem_of_nil.
Qed.

Lemma half a b : a <= b -> a <= a + (b - a) / 2 <= b /\
  2 * (a + (b - a) / 2 - a) <= b - a <= 2 * (a + (b - a) / 2 - a) + 1.
Proof.
  intros. pose proof (Nat.div_mod_eq (b - a) 2). pose proof (Nat.mod_upper_bound (b - a) 2). lia.
Qed.

(** The range of the search, and its mirror image in the right run. *)
Lemma sym_range a m b mid lo hi :
  a <= m <= b -> mid = a + (b - a) / 2 ->
  (lo, hi) = (if mid <? m then (mid + m - b, mid) else (a, m)) ->
  a <= lo <= hi /\ hi <= m /\ hi <= mid /\ mid + m <= lo + b /\
  (lo = a \/ lo + b = mid + m) /\ (hi = m \/ hi = mid).
Proof.
  intros H Hmid He. destruct (half a b) as [? ?]; [lia|]. rewrite <- Hmid in *.
  destruct (Nat.ltb_spec mid m); injection He as -> ->; lia.
Qed.

Lemma sym_less s pre l1 l2 post a m n c i j x y :
  holds s pre (l1 ++ l2) post -> a = length pre -> m = a + length l1 ->
  l1 !! i = Some x -> l2 !! j = Some y -> c = a + i -> n = c + m + j + 1 ->
  tcc_sort_less s (n - 1 - c) c = cless cmp y x.
Proof.
  intros H Ha Hm Hx Hy -> ->.
  replace (a + i + m + j + 1 - 1 - (a + i)) with (length pre + (length l1 + j)) by lia.
  rewrite Ha. apply (holds_less s pre (l1 ++ l2) post); [done| |by apply lookup_app_l_Some].
  by rewrite lookup_app_r, Nat.add_sub' by lia.
Qed.

Lemma sym_mono s pre l1 l2 post a m b mid lo hi :
  holds s pre (l1 ++ l2) post -> sorted cmp l1 -> sorted cmp l2 ->
  a = length pre -> m = a + length l1 -> b = m + length l2 ->
  a <= lo -> hi <= m -> hi <= mid -> mid + m <= lo + b ->
  forall c c', lo <= c <= c' -> c' < hi ->
    negb (tcc_sort_less s (mid + m - 1 - c') c') = true ->
    negb (tcc_sort_less s (mid + m - 1 - c) c) = true.
Proof.
  intros H Hs1 Hs2 Ha Hm Hb Hlo Hhi Hmid Hn c c' Hc Hc' Ht%negb_true_iff. apply negb_true_iff.
  destruct (lookup_lt_is_Some_2 l1 (c - a)) as [x Hx]; [lia|].
  destruct (lookup_lt_is_Some_2 l2 (mid - c - 1)) as [y Hy]; [lia|].
  destruct (lookup_lt_is_Some_2 l1 (c' - a)) as [x' Hx']; [lia|].
  destruct (lookup_lt_is_Some_2 l2 (mid - c' - 1)) as [y' Hy']; [lia|].
  rewrite (sym_less s pre l1 l2 post a m _ _ _ _ x y H Ha Hm Hx Hy) by lia.
  rewrite (sym_less s pre l1 l2 post a m _ _ _ _ x' y' H Ha Hm Hx' Hy') in Ht by lia.
  apply (le_trans cmp x x' y); [|apply (le_trans cmp x' y' y); [exact Ht|]].
  - apply (sorted_lookup cmp l1 (c - a) (c' - a)); auto; lia.
  - apply (sorted_lookup cmp l2 (mid - c' - 1) (mid - c - 1)); auto; lia.
Qed.

Lemma sym_split_spec s pre l1 l2 post a m b mid start :
  holds s pre (l1 ++ l2) post -> sorted cmp l1 -> sorted cmp l2 ->
  a = length pre -> m = a + length l1 -> b = m + length l2 ->
  mid = a + (b - a) / 2 -> start = sym_split s a m b ->
  exists p1 s1 p2 s2, l1 = p1 ++ s1 /\ l2 = p2 ++ s2 /\
    before cmp p1 s2 /\ sbefore cmp p2 s1 /\ start = a + length p1 /\ mid = start + length p2.
Proof.
  intros H Hs1 Hs2 Ha Hm Hb Hmid Hst. unfold sym_split in Hst. rewrite <- Hmid in Hst.
  destruct (if mid <? m then _ else _) as [lo hi] eqn:Hr in Hst. symmetry in Hr.
  apply (sym_range a m b mid lo hi) in Hr; [|lia|done]. clear Hmid.
  destruct (bsearch_spec (hi - lo) (fun c => negb (tcc_sort_less s (mid + m - 1 - c) c)) lo hi)
    as (H1 & H2 & H3); [lia|lia|eapply sym_mono; eauto; lia|]. rewrite <- Hst in *. clear Hst.
  destruct (sym_split_lists cmp l1 l2 (mid - a) (start - a)) as [Hbef Hsbef]; [done|done|lia|lia|lia| | |].
  - intros i j x y Hi Hj Hx Hy. pose proof (lookup_lt_Some _ _ _ Hy). unfold cle.
    assert (tcc_sort_less s (mid + m - 1 - (start - 1)) (start - 1) = cless cmp y x) as <-.
    { eapply sym_less; eauto; lia. }
    apply negb_true_iff, H2. lia.
  - intros i j x y Hi Hj Hx Hy. pose proof (lookup_lt_Some _ _ _ Hx).
    assert (tcc_sort_less s (mid + m - 1 - start) start = cless cmp y x) as <-.
    { eapply sym_less; eauto; lia. }
    apply negb_false_iff, H3. lia.
  - exists (take (start - a) l1), (drop (start - a) l1),
      (take (mid - a - (start - a)) l2), (drop (mid - a - (start - a)) l2).
    rewrite !take_drop, !length_take_le by lia. repeat (split; [done|]). lia.
Qed.

(** A step skipped when one of its two runs is empty. *)
Lemma guarded_step (f : list A -> list A -> list A) s s' pre l1 l2 post c1 c2 :
  (forall l, f [] l = l) -> (forall l, f l [] = l) ->
  holds s pre (l1 ++ l2) post -> (c1 = true <-> 0 < length l1) -> (c2 = true <-> 0 < length l2) ->
  (0 < length l1 -> 0 < length l2 -> holds s' pre (f l1 l2) post) ->
  holds (if c1 && c2 then s' else s) pre (f l1 l2) post.
Proof.
  intros Hf1 Hf2 H H1 H2 Hs. destruct c1, c2; cbn [andb]; [apply Hs; tauto| | |].
  all: destruct l1 as [|x l1]; [by rewrite Hf1|]; destruct l2 as [|y l2]; [rewrite Hf2; by rewrite app_nil_r in H|].
  all: simpl in *; exfalso; intuition (discriminate || lia).
Qed.

Lemma sym_merge_spec fuel s pre l1 l2 post a m b :
  holds s pre (l1 ++ l2) post -> sorted cmp l1 -> sorted cmp l2 ->
  0 < length l1 -> 0 < length l2 -> length l1 + length l2 <= fuel ->
  a = length pre -> m = a + length l1 -> b = m + length l2 ->
  holds (tcc_sort_sym_merge fuel s a m b) pre (smerge cmp l1 l2) post.
Proof.
  revert s pre l1 l2 post a m b.
  induction fuel as [|fuel IH]; intros s pre l1 l2 post a m b H Hs1 Hs2 Hl1 Hl2 Hf Ha Hm Hb; [lia|].
  cbn [tcc_sort_sym_merge].
  destruct (Nat.eqb_spec (m - a) 1) as [E1|E1].
  { destruct l1 as [|x [|]]; simpl in *; [lia| |lia]. by apply sym_merge_one_l. }
  destruct (Nat.eqb_spec (b - m) 1) as [E2|E2].
  { destruct l2 as [|x [|]]; simpl in *; [lia| |lia]. by apply sym_merge_one_r. }
  destruct (half a b) as [_ Hhalf]; [lia|].
  destruct (sym_split_spec s pre l1 l2 post a m b (a + (b - a) / 2) (sym_split s a m b))
    as (p1 & s1 & p2 & s2 & -> & -> & Hbef & Hsbef & Hst & Hmid); [done..|].
  set (start := sym_split s a m b) in *. set (mid := a + (b - a) / 2) in *. clearbody start mid.
  rewrite !length_app in *. rewrite merge_split by done.
  apply sorted_app in Hs1 as (Hp1 & Hs1 & _). apply sorted_app in Hs2 as (Hp2 & Hs2 & _).
  replace (mid + m - start) with (m + length p2) by lia.
  set (s' := if (start <? m) && (m <? m + length p2) then _ else s).
  assert (holds s' (pre ++ p1) (p2 ++ s1) (s2 ++ post)) as H1.
  { apply (guarded_step (fun x y => y ++ x)); rewrite ?Nat.ltb_lt;
      [intros; apply app_nil_r|done|reshape H|lia|lia|].
    intros. apply rotate_spec; rewrite ?length_app; [reshape H|lia..]. }
  clearbody s'. clear H.
  set (s'' := if (a <? start) && (start <? mid) then _ else s').
  assert (holds s'' pre (smerge cmp p1 p2) (s1 ++ s2 ++ post)) as H2.
  { apply guarded_step; rewrite ?Nat.ltb_lt; [apply merge_nil_l|apply merge_nil_r|reshape H1|lia|lia|].
    intros. apply IH; [reshape H1|done|done|lia..]. }
  clearbody s''. clear H1.
  refine (holds_eq _ (pre ++ smerge cmp p1 p2) (smerge cmp s1 s2) post _ _ _ _ _); [|list_assoc].
  apply guarded_step; rewrite ?Nat.ltb_lt; [apply merge_nil_l|apply merge_nil_r|reshape H2|lia|lia|].
  intros. apply IH; rewrite ?length_app, ?merge_length; [reshape H2|done|done|lia..].
Qed.

(** *** Insertion *)

Lemma insertion_inner_spec fuel s pre l x r post a j :
  holds s pre (l ++ x :: r) post -> sorted cmp l -> length l <= fuel ->
  a = length pre -> j = a + length l ->
  holds (insertion_inner fuel s a j) pre (smerge cmp l [x] ++ r) post.
Proof.
  revert s l r j. induction fuel as [|fuel IH]; intros s l r j H Hs Hf Ha Hj.
  { destruct l; [done|simpl in *; lia]. }
  cbn [insertion_inner]. destruct l as [|y l _] using rev_ind; simpl in *.
  { by replace (a <? j) with false by (symmetry; apply Nat.ltb_ge; lia). }
  rewrite length_app in *. simpl in *.
  replace (a <? j) with true by (symmetry; apply Nat.ltb_lt; lia). simpl.
  assert (tcc_sort_less s j (j - 1) = cless cmp x y) as ->.
  { replace j with (length pre + (length l + 1)) by lia.
    replace (length pre + (length l + 1) - 1) with (length pre + length l) by lia.
    apply (holds_less s pre ((l ++ [y]) ++ x :: r) post); [done| |].
    - rewrite lookup_app_r; rewrite length_app; simpl; [|lia]. by rewrite Nat.sub_diag.
    - by rewrite <- app_assoc, lookup_app_r, Nat.sub_diag by lia. }
  destruct (cless cmp x y) eqn:E.
  - assert (holds (tcc_sort_swap_range s j (j - 1) 1) (pre ++ l) ([x] ++ [] ++ [y]) (r ++ post)) as H'.
    { apply holds_swap; [reshape H|done|done|rewrite length_app; simpl; lia]. }
    apply sorted_app in Hs as (Hs & _ & _).
    change [x] with ([x] ++ []). rewrite merge_split, (merge_nil_r _ [y]), <- app_assoc.
    + apply IH; [reshape H'|done|lia..].
    + by intros ??? ?%elem_of_nil.
    + by intros ?? ->%list_elem_of_singleton ->%list_elem_of_singleton.
  - rewrite merge_before; [reshape H|]. intros z ? Hz ->%list_elem_of_singleton.
    apply elem_of_app in Hz as [Hz| ->%list_elem_of_singleton]; [|done].
    apply sorted_app in Hs as (_ & _ & Hs).
    apply (le_trans cmp z y x); [|done]. apply Hs; [done|by left].
Qed.

Lemma insertion_outer_spec fuel s pre o l r post a i b :
  holds s pre (l ++ r) post -> stable_sort_of cmp o l -> length r <= fuel ->
  a = length pre -> i = a + length l -> b = i + length r ->
  exists l', stable_sort_of cmp (o ++ r) l' /\ holds (insertion_outer fuel s a i b) pre l' post.
Proof.
  revert s o l r i. induction fuel as [|fuel IH]; intros s o l r i H Ho Hf Ha Hi Hb.
  { destruct r; [|simpl in *; lia]. rewrite app_nil_r in *. eauto. }
  cbn [insertion_outer]. destruct r as [|x r]; simpl in *.
  { replace (i <? b) with false by (symmetry; apply Nat.ltb_ge; lia). rewrite app_nil_r in *. eauto. }
  replace (i <? b) with true by (symmetry; apply Nat.ltb_lt; lia).
  assert (holds (insertion_inner (i - a) s a i) pre (smerge cmp l [x] ++ r) post) as H'.
  { apply insertion_inner_spec; [done|apply Ho|lia..]. }
  replace (o ++ x :: r) with ((o ++ [x]) ++ r) by list_assoc.
  apply (IH _ _ (smerge cmp l [x])); [done| |rewrite ?merge_length; simpl; lia..].
  apply (stable_sort_merge cmp); [done|]. apply stable_sort_refl; simpl; lia.
Qed.

Lemma insertion_spec s pre l post a b :
  holds s pre l post -> a = length pre -> b = a + length l ->
  exists l', stable_sort_of cmp l l' /\ holds (tcc_sort_insertion s a b) pre l' post.
Proof.
  intros H Ha Hb. unfold tcc_sort_insertion. destruct l as [|x l]; simpl in *.
  - replace (b - a) with 0 by lia. exists []. split; [apply stable_sort_refl; simpl; lia|done].
  - apply (insertion_outer_spec _ _ _ [x] [x] l); [done|apply stable_sort_refl; simpl; lia|simpl; lia..].
Qed.

(** *** Runs *)

(** [l] is [o] with every run of [k] elements (the last one may be shorter) sorted. *)
Inductive runs (k : nat) : list A -> list A -> Prop :=
| runs_last o l : length o <= k -> stable_sort_of cmp o l -> runs k o l
| runs_cons o l o' l' :
    length o = k -> stable_sort_of cmp o l -> runs k o' l' -> runs k (o ++ o') (l ++ l').

Lemma stable_sort_length o l : stable_sort_of cmp o l -> length l = length o.
Proof. intros [H _]. by rewrite H. Qed.

Lemma runs_length k o l : runs k o l -> length l = length o.
Proof. induction 1; rewrite ?length_app; erewrite ?stable_sort_length by done; lia. Qed.

Lemma runs_split k o l : runs k o l -> k <= length l ->
  exists o1 l1 o2 l2, o = o1 ++ o2 /\ l = l1 ++ l2 /\ length l1 = k /\ length o1 = k /\
    stable_sort_of cmp o1 l1 /\ runs k o2 l2.
Proof.
  intros H Hk. destruct H as [o l Ho Hs|o l o' l' Ho Hs Hr].
  - pose proof (stable_sort_length _ _ Hs). exists o, l, [], [].
    rewrite !app_nil_r. repeat (split; [done || lia|]). apply runs_last; [simpl; lia|]. apply stable_sort_refl; simpl; lia.
  - exists o, l, o', l'. pose proof (stable_sort_length _ _ Hs). repeat (split; [done || lia|]). done.
Qed.

Lemma runs_short k o l : runs k o l -> length l <= k -> stable_sort_of cmp o l.
Proof.
  intros H Hk. destruct H as [|o l o' l' Ho Hs Hr]; [done|].
  apply runs_length in Hr. apply stable_sort_length in Hs as Hl. rewrite length_app in Hk.
  destruct l', o'; simpl in *; try lia. by rewrite !app_nil_r.
Qed.

Lemma insertion_blocks_spec fuel s pre l a n :
  holds s pre l [] -> length l < fuel -> a = length pre -> n = a + length l ->
  exists l', runs BLOCK l l' /\ holds (insertion_blocks fuel s a n) pre l' [].
Proof.
  revert s pre l a. induction fuel as [|fuel IH]; intros s pre l a H Hf Ha Hn; [lia|].
  cbn [insertion_blocks]. destruct (Nat.leb_spec (a + BLOCK) n) as [Hb|Hb].
  - destruct (list_split BLOCK l) as (l1 & l2 & -> & Hl1); [lia|]. rewrite length_app in *.
    destruct (insertion_spec s pre l1 l2 a (a + BLOCK)) as (l1' & Hs & H1); [reshape H|lia..|].
    pose proof (stable_sort_length _ _ Hs) as Hlen.
    destruct (IH (tcc_sort_insertion s a (a + BLOCK)) (pre ++ l1') l2 (a + BLOCK)) as (l2' & Hr & H2).
    { reshape H1. } { unfold BLOCK in *. lia. } { rewrite length_app. lia. } { lia. }
    exists (l1' ++ l2'). split; [by apply runs_cons|]. reshape H2.
  - destruct (Nat.ltb_spec a n) as [Hlt|Hge].
    + destruct (insertion_spec s pre l [] a n) as (l' & Hs & H1); [done..|].
      exists l'. split; [|done]. apply runs_last; [lia|done].
    + exists l. split; [|done]. apply runs_last; [lia|]. apply stable_sort_refl. lia.
Qed.

Lemma merge_pass_spec fuel s pre o l block a b n :
  holds s pre l [] -> runs block o l -> 0 < block -> length l < fuel ->
  a = length pre -> b = a + 2 * block -> n = a + length l ->
  exists l', runs (2 * block) o l' /\ holds (merge_pass fuel s block a b n) pre l' [].
Proof.
  revert s pre o l a b. induction fuel as [|fuel IH]; intros s pre o l a b H Hr Hk Hf Ha Hb Hn; [lia|].
  cbn [merge_pass]. destruct (Nat.leb_spec b n) as [Hle|Hlt].
  - destruct (runs_split _ _ _ Hr) as (o1 & l1 & o2 & l2 & -> & -> & Hl1 & Ho1 & Hs1 & Hr'); [lia|].
    rewrite length_app in *.
    destruct (runs_split _ _ _ Hr') as (o3 & l3 & o4 & l4 & -> & -> & Hl3 & Ho3 & Hs3 & Hr4); [lia|].
    rewrite length_app in *.
    assert (holds (tcc_sort_sym_merge (b - a) s a (a + block) b) pre (smerge cmp l1 l3) l4) as H1.
    { apply sym_merge_spec; [reshape H|apply Hs1|apply Hs3|lia..]. }
    destruct (IH (tcc_sort_sym_merge (b - a) s a (a + block) b) (pre ++ smerge cmp l1 l3) o4 l4 b (b + 2 * block))
      as (l' & Hr2 & H2); rewrite ?length_app, ?merge_length; [reshape H1|done|lia..|].
    exists (smerge cmp l1 l3 ++ l'). split; [|reshape H2].
    rewrite app_assoc. apply runs_cons; [rewrite length_app; lia| |done]. by apply stable_sort_merge.
  - destruct (Nat.ltb_spec (a + block) n) as [Hlt2|Hge].
    + destruct (runs_split _ _ _ Hr) as (o1 & l1 & o2 & l2 & -> & -> & Hl1 & Ho1 & Hs1 & Hr'); [lia|].
      rewrite length_app in *. pose proof (runs_length _ _ _ Hr').
      apply runs_short in Hr'; [|lia].
      exists (smerge cmp l1 l2). split.
      { apply runs_last; [rewrite length_app; lia|]. by apply stable_sort_merge. }
      apply sym_merge_spec; [done|apply Hs1|apply Hr'|lia..].
    + exists l. split; [|done]. pose proof (runs_length _ _ _ Hr).
      apply runs_last; [lia|]. apply (runs_short _ _ _ Hr). lia.
Qed.

Lemma merge_blocks_spec fuel s o l block n :
  holds s [] l [] -> runs block o l -> 0 < block -> n - block <= fuel -> n = length l ->
  exists l', stable_sort_of cmp o l' /\ holds (merge_blocks fuel s block n) [] l' [].
Proof.
  revert s l block. induction fuel as [|fuel IH]; intros s l block H Hr Hk Hf Hn.
  { exists l. split; [|done]. apply (runs_short _ _ _ Hr). lia. }
  cbn [merge_blocks]. destruct (Nat.ltb_spec block n) as [Hlt|Hge].
  - destruct (merge_pass_spec (n + 1) s [] o l block 0 (2 * block) n) as (l' & Hr' & H');
      [done|done|done|lia|done|done|done|].
    apply (IH _ l'); [done|by rewrite Nat.mul_comm|lia|lia|].
    rewrite Hn, (runs_length _ _ _ Hr). by rewrite (runs_length _ _ _ Hr').
  - exists l. split; [|done]. apply (runs_short _ _ _ Hr). lia.
Qed.

(** The array comes out stably sorted. *)
Lemma sort_array_spec s n :
  ok s -> n = length (view s) ->
  ok (sort_array s n) /\ stable_sort_of cmp (view s) (view (sort_array s n)).
Proof.
  intros Hok Hn.
  destruct (insertion_blocks_spec (n + 1) s [] (view s) 0 n) as (l1 & Hr & H1);
    [split; [done|by rewrite app_nil_r]|lia|done|done|].
  destruct (merge_blocks_spec n (insertion_blocks (n + 1) s 0 n) (view s) l1 BLOCK n) as (l2 & Hs & Hok2 & Hv);
    [done|done|unfold BLOCK; lia|lia|by rewrite (runs_length _ _ _ Hr)|].
  simpl in Hv. rewrite app_nil_r in Hv. unfold sort_array. by rewrite Hv.
Qed.
End sort.
