(* ===== verification/Qsort.v ===== *)
(** * [tcc_qsort] ([memory/sort.c])

    The two arrays the sort of file Sort runs on, the elements in memory and, for
    large elements, an array of pointers to them, each with its [less] and
    [swap_range]; the final pass that moves every element once along the cycles of the
    permutation; and the theorem that [tcc_qsort] sorts the memory stably.

    Memory is the list of its bytes; a pointer into it is a byte offset from [base]. *)

From Stdlib Require Import Sorting.Sorted.
From S2P Require Import Prelude SortSpec Sort.
From stdpp Require Import sets list gmap.
Local Open Scope nat_scope.

(** ** Memory *)

Definition mread (mem : list Z) (off n : nat) : list Z := take n (drop off mem).

(** [memcpy(mem + off, bs, length bs)], within bounds. *)
Definition mwrite (mem : list Z) (off : nat) (bs : list Z) : list Z :=
  take off mem ++ bs ++ drop (off + length bs) mem.

Lemma mread_app p x r off n : off = length p -> n = length x -> mread (p ++ x ++ r) off n = x.
Proof. intros -> ->. unfold mread. by rewrite drop_app_length, take_app_length. Qed.

Lemma mwrite_app p x r off bs :
  off = length p -> length bs = length x -> mwrite (p ++ x ++ r) off bs = p ++ bs ++ r.
Proof.
  intros -> Hl. unfold mwrite. rewrite take_app_length, Hl. f_equal. f_equal.
  by rewrite <- drop_drop, drop_app_length, drop_app_length.
Qed.

(** ** Elements in memory *)

Section direct.
Context (size : nat) (cmp : list Z -> list Z -> Z).

Definition elem (mem : list Z) (i : nat) : list Z := mread mem (i * size) size.

(** The chunked exchange through [char tmp[64]]. *)
Fixpoint swap_bytes (fuel : nat) (mem : list Z) (x y bytes : nat) : list Z :=
  match fuel with
  | O => mem
  | S fuel =>
      if bytes =? 0 then mem
      else
        let k := if bytes <? 64 then bytes else 64 in
        let tmp := mread mem x k in
        let mem := mwrite mem x (mread mem y k) in
        let mem := mwrite mem y tmp in
        swap_bytes fuel mem (x + k) (y + k) (bytes - k)
  end.

Definition direct : SortArray (list Z) (list Z) := {|
  view mem := map (elem mem) (seq 0 (length mem / size));
  tcc_sort_less mem i j := Z.ltb (cmp (elem mem i) (elem mem j)) 0;
  tcc_sort_swap_range mem a b n := swap_bytes (n * size + 1) mem (a * size) (b * size) (n * size);
|}.

(** A memory that holds a whole number of elements. *)
Definition direct_ok (mem : list Z) : Prop :=
  exists es, mem = concat es /\ Forall (fun e => length e = size) es.
End direct.

(** ** Pointers to the elements *)

Section indirect.
Context (size : nat) (cmp : list Z -> list Z -> Z) (mem : list Z).

Definition load (p : nat) : list Z := mread mem p size.
Definition cmp_ptr (p q : nat) : Z := cmp (load p) (load q).

Fixpoint swap_ptrs (p : list nat) (a b : nat) (n k : nat) : list nat :=
  match n with
  | O => p
  | S n =>
      let t := nth (a + k) p 0 in
      let p := <[a + k := nth (b + k) p 0]> p in
      let p := <[b + k := t]> p in
      swap_ptrs p a b n (k + 1)
  end.

Definition indirect : SortArray (list nat) nat := {|
  view p := p;
  tcc_sort_less p i j := Z.ltb (cmp (load (nth i p 0)) (load (nth j p 0))) 0;
  tcc_sort_swap_range p a b n := swap_ptrs p a b n 0;
|}.
End indirect.

(** ** Moving the elements *)

Section cycles.
Context (size : nat).

(** The loop over one cycle, [hold] being the element of [home]. *)
Fixpoint cycle_inner (fuel : nat) (mem : list Z) (order : list nat) (hold : list Z)
    (home b : nat) : list Z * list nat :=
  match fuel with
  | O => (mem, order)
  | S fuel =>
      let to := b * size in
      let from := nth b order 0 in
      let order := <[b := to]> order in
      if from =? home then (mwrite mem to hold, order)
      else cycle_inner fuel (mwrite mem to (mread mem from size)) order hold home (from / size)
  end.

Fixpoint cycle_outer (fuel : nat) (mem : list Z) (order : list nat) (a n : nat) : list Z :=
  match fuel with
  | O => mem
  | S fuel =>
      if a <? n then
        let home := a * size in
        if nth a order 0 =? home then cycle_outer fuel mem order (a + 1) n
        else
          let hold := mread mem home size in
          let '(mem, order) := cycle_inner n mem order hold home a in
          cycle_outer fuel mem order (a + 1) n
      else mem
  end.
End cycles.

(** ** [tcc_qsort] *)

(** [sizeof_ptr] is the size of a pointer of the host. *)
Definition tcc_qsort (sizeof_ptr : nat) (base : list Z) (n size : nat) (cmp : list Z -> list Z -> Z) : list Z :=
  if (2 * sizeof_ptr <? size) && (1 <? n) then
    let order := map (fun a => a * size) (seq 0 n) in
    let order := sort_array (SortArray0 := indirect size cmp base) order n in
    cycle_outer size n base order 0 n
  else sort_array (SortArray0 := direct size cmp) base n.

(** ** Proofs: elements in memory *)

Section direct_proofs.
Context (size : nat) (cmp : list Z -> list Z -> Z) (Hsize : 0 < size).

#[local] Abbreviation elements es := (Forall (fun e => length e = size) es).

Lemma concat_length (es : list (list Z)) : elements es -> length (concat es) = length es * size.
Proof. induction 1 as [|e es He _ IH]; simpl; [done|]. rewrite length_app. lia. Qed.

Lemma elem_concat es i e : elements es -> es !! i = Some e -> elem size (concat es) i = e.
Proof.
  intros Hes Hi. apply list_elem_of_split_length in Hi as (l1 & l2 & -> & ->).
  rewrite Forall_app, Forall_cons in Hes. destruct Hes as (H1 & He & H2).
  rewrite concat_app. simpl. apply mread_app; [by rewrite concat_length|done].
Qed.

Lemma view_concat es : elements es -> view (SortArray := direct size cmp) (concat es) = es.
Proof.
  intros Hes. simpl. rewrite concat_length, Nat.div_mul by (done || lia).
  apply list_eq. intros i. rewrite list_lookup_fmap.
  destruct (decide (i < length es)) as [Hi|Hi].
  - rewrite lookup_seq_lt by done. simpl. destruct (lookup_lt_is_Some_2 _ _ Hi) as [e He].
    by rewrite He, (elem_concat es i e).
  - rewrite lookup_seq_ge, lookup_ge_None_2 by lia. done.
Qed.

(** One exchange of [k] bytes, the ranges named in either order. *)
Lemma swap_chunk p x q y r a b k :
  length x = k -> length y = k ->
  (a = length p /\ b = length p + k + length q \/ b = length p /\ a = length p + k + length q) ->
  mwrite (mwrite (p ++ x ++ q ++ y ++ r) a (mread (p ++ x ++ q ++ y ++ r) b k)) b
    (mread (p ++ x ++ q ++ y ++ r) a k) = p ++ y ++ q ++ x ++ r.
Proof.
  intros Hx Hy Hab. rewrite !(app_assoc _ q), !(app_assoc p (_ ++ _)).
  assert (forall u v, length u = k -> length ((p ++ u ++ v)) = length p + k + length v) as Hlen.
  { intros. rewrite !length_app. lia. }
  destruct Hab as [[Ha Hb]|[Hb Ha]].
  - rewrite (mread_app (p ++ x ++ q) y r b k) by (rewrite ?Hlen; lia || done).
    replace ((p ++ x ++ q) ++ y ++ r) with (p ++ x ++ q ++ y ++ r) by list_assoc.
    rewrite (mread_app p x _ a k), (mwrite_app p x) by (lia || done).
    replace (p ++ y ++ q ++ y ++ r) with ((p ++ y ++ q) ++ y ++ r) by list_assoc.
    rewrite mwrite_app by (rewrite ?Hlen; lia || done). list_assoc.
  - rewrite (mread_app (p ++ x ++ q) y r a k) by (rewrite ?Hlen; lia || done).
    replace (mread ((p ++ x ++ q) ++ y ++ r) b k) with x
      by (rewrite <- !app_assoc; symmetry; apply mread_app; lia || done).
    rewrite mwrite_app by (rewrite ?Hlen; lia || done).
    rewrite <- !app_assoc, mwrite_app by (lia || done). list_assoc.
Qed.

Lemma swap_bytes_spec fuel p x q y r a b n :
  length x = n -> length y = n -> n < fuel ->
  (a = length p /\ b = length p + n + length q \/ b = length p /\ a = length p + n + length q) ->
  swap_bytes fuel (p ++ x ++ q ++ y ++ r) a b n = p ++ y ++ q ++ x ++ r.
Proof.
  revert p x q y r a b n. induction fuel as [|fuel IH]; intros p x q y r a b n Hx Hy Hf Hab; [lia|].
  cbn [swap_bytes]. destruct (Nat.eqb_spec n 0) as [->|Hn].
  { by apply nil_length_inv in Hx as ->, Hy as ->. }
  set (k := if n <? 64 then n else 64).
  assert (0 < k <= n) as Hk by (unfold k; destruct (Nat.ltb_spec n 64); lia). clearbody k.
  destruct (list_split k x) as (x1 & x2 & -> & Hx1); [lia|].
  destruct (list_split k y) as (y1 & y2 & -> & Hy1); [lia|]. rewrite length_app in *.
  replace (p ++ (x1 ++ x2) ++ q ++ (y1 ++ y2) ++ r) with (p ++ x1 ++ (x2 ++ q) ++ y1 ++ y2 ++ r) by list_assoc.
  rewrite swap_chunk by (rewrite ?length_app; lia).
  replace (p ++ y1 ++ (x2 ++ q) ++ x1 ++ y2 ++ r) with ((p ++ y1) ++ x2 ++ (q ++ x1) ++ y2 ++ r) by list_assoc.
  rewrite IH by (rewrite ?length_app; lia). list_assoc.
Qed.

Lemma direct_array_ok : SortArrayOk (SortArray0 := direct size cmp) cmp (direct_ok size).
Proof.
  split.
  - intros s i j x y (es & -> & Hes) Hi Hj. rewrite view_concat in Hi, Hj by done.
    simpl. unfold cless. by rewrite (elem_concat es i x), (elem_concat es j y).
  - intros s p x q y r a b (es & -> & Hes) Hv Hlen Hab. rewrite view_concat in Hv by done. subst es.
    assert (elements (p ++ y ++ q ++ x ++ r)) as Hes'.
    { rewrite !Forall_app in *. tauto. }
    assert (tcc_sort_swap_range (SortArray := direct size cmp) (concat (p ++ x ++ q ++ y ++ r)) a b (length x)
            = concat (p ++ y ++ q ++ x ++ r)) as ->.
    { rewrite !Forall_app in Hes. destruct Hes as (? & ? & ? & ? & ?). rewrite !concat_app. simpl.
      apply swap_bytes_spec; rewrite ?concat_length by done; nia. }
    split; [by eexists|]. by apply view_concat.
Qed.
End direct_proofs.

(** ** Proofs: pointers *)

Section indirect_proofs.
Context (size : nat) (cmp : list Z -> list Z -> Z) (mem : list Z).

Lemma insert_middle {A} (u : list A) x v i y : i = length u -> <[i := y]> (u ++ x :: v) = u ++ y :: v.
Proof. intros ->. by rewrite insert_app_r_alt, Nat.sub_diag by lia. Qed.

Lemma nth_middle_at (u : list nat) x v i : i = length u -> nth i (u ++ x :: v) 0 = x.
Proof. intros ->. apply nth_middle. Qed.

(** One exchange, the positions named in either order. *)
Lemma swap_ptr u x v y w i j :
  (i = length u /\ j = length u + 1 + length v \/ j = length u /\ i = length u + 1 + length v) ->
  <[j := nth i (u ++ x :: v ++ y :: w) 0]> (<[i := nth j (u ++ x :: v ++ y :: w) 0]> (u ++ x :: v ++ y :: w))
  = u ++ y :: v ++ x :: w.
Proof.
  assert (forall (z z' : nat), u ++ z :: v ++ z' :: w = (u ++ z :: v) ++ z' :: w) as E
    by (intros; list_assoc).
  assert (forall z, length (u ++ z :: v) = length u + 1 + length v) as L
    by (intros; rewrite length_app; simpl; lia).
  intros [[Hi Hj]|[Hj Hi]].
  - rewrite (nth_middle_at u x _ i), (E x y), (nth_middle_at _ y _ j) by (rewrite ?L; done).
    rewrite <- E, (insert_middle u x _ i), E, insert_middle, <- E by (rewrite ?L; done). done.
  - rewrite (nth_middle_at u x _ j), (E x y), (nth_middle_at _ y _ i) by (rewrite ?L; done).
    rewrite (insert_middle _ y _ i), <- E, insert_middle by (rewrite ?L; done). done.
Qed.

Lemma swap_ptrs_spec p x q y r a b n k :
  length x = n -> length y = n ->
  (a + k = length p /\ b + k = length p + n + length q \/
   b + k = length p /\ a + k = length p + n + length q) ->
  swap_ptrs (p ++ x ++ q ++ y ++ r) a b n k = p ++ y ++ q ++ x ++ r.
Proof.
  revert p x q y r k. induction n as [|n IH]; intros p x q y r k Hx Hy Hab.
  { by apply nil_length_inv in Hx as ->, Hy as ->. }
  destruct x as [|x0 x], y as [|y0 y]; simplify_eq/=.
  replace (x ++ q ++ y0 :: y ++ r) with ((x ++ q) ++ y0 :: y ++ r) by list_assoc.
  rewrite swap_ptr by (rewrite length_app; lia).
  replace (p ++ y0 :: (x ++ q) ++ x0 :: y ++ r) with ((p ++ [y0]) ++ x ++ (q ++ [x0]) ++ y ++ r) by list_assoc.
  rewrite IH; [list_assoc|done|done|]. rewrite !length_app. simpl. lia.
Qed.

Lemma indirect_array_ok :
  SortArrayOk (SortArray0 := indirect size cmp mem) (cmp_ptr size cmp mem) (fun _ => True).
Proof.
  split.
  - intros s i j x y _ Hi Hj. simpl in *.
    by rewrite (nth_lookup_Some _ _ _ _ Hi), (nth_lookup_Some _ _ _ _ Hj).
  - intros s p x q y r a b _ Hv Hlen Hab. simpl in *. split; [done|]. subst s.
    apply swap_ptrs_spec; [done|done|]. lia.
Qed.

#[export] Instance cmp_ptr_ok : CmpOk cmp -> CmpOk (cmp_ptr size cmp mem).
Proof. intros H. split; unfold cmp_ptr; intros *; apply H. Qed.

End indirect_proofs.

(** ** Proofs: cycles *)

Section cycles_proofs.
Context (size : nat) (Hsize : 0 < size).
#[local] Abbreviation elements es := (Forall (fun e => length e = size) es).

Lemma mwrite_concat (es : list (list Z)) i e :
  elements es -> length e = size -> i < length es ->
  mwrite (concat es) (i * size) e = concat (<[i := e]> es).
Proof.
  intros Hes He Hi. destruct (lookup_lt_is_Some_2 _ _ Hi) as [e0 H0].
  apply list_elem_of_split_length in H0 as (l1 & l2 & -> & ->).
  rewrite insert_app_r_alt, Nat.sub_diag by lia. simpl. rewrite !concat_app. simpl.
  rewrite Forall_app, Forall_cons in Hes. destruct Hes as (H1 & H2 & H3).
  apply mwrite_app; [by rewrite (concat_length size) | by rewrite He].
Qed.

Context (es0 : list (list Z)) (pi : list nat) (n : nat).
Context (Hes0 : elements es0) (Hn : length es0 = n) (Hpi : pi ≡ₚ seq 0 n).

(** Visited positions hold their final element and their own address, the others
    their original element and where their final one is. *)
Definition moved (V : gset nat) (es : list (list Z)) (ord : list nat) : Prop :=
  length es = n /\ length ord = n /\ elements es /\
  forall k p, pi !! k = Some p ->
    (k ∈ V -> ord !! k = Some k /\ es !! k = es0 !! p) /\
    (k ∉ V -> ord !! k = Some p /\ es !! k = es0 !! k).

(** Every visited position but [a] is the source of another visited one. *)
Definition from_within (V : gset nat) (a : nat) : Prop :=
  forall v, v ∈ V -> v <> a -> exists u, u ∈ V /\ pi !! u = Some v.

Definition in_range (V : gset nat) : Prop := forall v, v ∈ V -> v < n.

Lemma pi_length : length pi = n.
Proof. by rewrite Hpi, length_seq. Qed.

Lemma pi_inj u v w : pi !! u = Some w -> pi !! v = Some w -> u = v.
Proof. apply NoDup_lookup. rewrite Hpi. apply NoDup_seq. Qed.

Lemma pi_lt k p : pi !! k = Some p -> k < n /\ p < n.
Proof.
  intros H. split; [rewrite <- pi_length; by eapply lookup_lt_Some|].
  apply list_elem_of_lookup_2 in H. rewrite Hpi in H. apply elem_of_seq in H. lia.
Qed.

Lemma moved_step V es ord b p e :
  moved V es ord -> pi !! b = Some p -> b ∉ V -> es0 !! p = Some e ->
  moved ({[b]} ∪ V) (<[b := e]> es) (<[b := b]> ord).
Proof.
  intros (H1 & H2 & H3 & H4) Hb HV He. destruct (pi_lt _ _ Hb) as [Hbn Hpn].
  split; [by rewrite length_insert|]. split; [by rewrite length_insert|]. split.
  { apply Forall_insert; [done|]. rewrite Forall_lookup in Hes0. eauto. }
  intros k q Hk. destruct (decide (k = b)) as [->|Hne].
  - simplify_eq. rewrite !list_lookup_insert_eq by lia. rewrite He. split; [done|set_solver].
  - rewrite !list_lookup_insert_ne by done. destruct (H4 k q Hk) as [Hin Hout]. split; set_solver.
Qed.

Definition closed (V : gset nat) : Prop := forall v, v ∈ V -> exists u, u ∈ V /\ pi !! u = Some v.

Lemma in_range_size V : in_range V -> base.size V <= n.
Proof.
  intros H. rewrite <- (size_set_seq (C := gset nat) 0 n). apply subseteq_size.
  intros v Hv. apply elem_of_set_seq. specialize (H v Hv). lia.
Qed.

Lemma map_mul_lookup (ord : list nat) k p : ord !! k = Some p -> nth k (map (fun i => i * size) ord) 0 = p * size.
Proof. intros H. apply nth_lookup_Some. by rewrite list_lookup_fmap, H. Qed.

(** The walk along the cycle of [a] has reached [b]. *)
Definition reached (V : gset nat) (a b : nat) : Prop :=
  b ∉ V /\ (b = a \/ a ∈ V /\ exists u, u ∈ V /\ pi !! u = Some b).

Lemma from_within_step V a b : from_within V a -> reached V a b -> from_within ({[b]} ∪ V) a.
Proof.
  intros HW [_ Hba] v [->%elem_of_singleton|Hv]%elem_of_union Hva.
  - destruct Hba as [->|(_ & u & Hu & Hub)]; [done|]. exists u. set_solver.
  - destruct (HW v Hv Hva) as (u & Hu & Huv). exists u. set_solver.
Qed.

Lemma closed_step V a b : from_within V a -> reached V a b -> pi !! b = Some a -> closed ({[b]} ∪ V).
Proof.
  intros HW Hr Hb v Hv. destruct (decide (v = a)) as [->|Hva]; [exists b; set_solver|].
  by apply (from_within_step V a b).
Qed.

Lemma reached_step V a b p : from_within V a -> reached V a b -> pi !! b = Some p -> p <> a ->
  reached ({[b]} ∪ V) a p.
Proof.
  intros HW [HbV Hba] Hp Hpa. split.
  - intros [->%elem_of_singleton|HpV]%elem_of_union.
    + destruct Hba as [->|(_ & u & Hu & Hub)]; [done|]. by rewrite (pi_inj _ _ _ Hp Hub) in HbV.
    + destruct (HW p HpV Hpa) as (u & Hu & Hup). by rewrite (pi_inj _ _ _ Hp Hup) in HbV.
  - right. split; [destruct Hba as [->|[? _]]; set_solver|]. exists b. set_solver.
Qed.

(** What an unvisited position holds, as the code reads it. *)
Lemma moved_read V es ord b p :
  moved V es ord -> b ∉ V -> pi !! b = Some p ->
  nth b (map (fun i => i * size) ord) 0 = p * size /\
  exists e, es0 !! b = Some e /\ length e = size /\ mread (concat es) (b * size) size = e.
Proof.
  intros (Hle & Hlo & Hel & Hall) HbV Hp. destruct (Hall b p Hp) as [_ Hout]. destruct (Hout HbV) as [Ho He].
  split; [by apply map_mul_lookup|]. destruct (pi_lt _ _ Hp) as [Hbn _].
  destruct (lookup_lt_is_Some_2 es0 b) as [e Heb]; [lia|]. exists e. split; [done|].
  split; [rewrite Forall_lookup in Hes0; eauto|]. apply (elem_concat size Hsize es b e Hel). by rewrite He.
Qed.

Lemma map_mul_insert (ord : list nat) b :
  <[b := b * size]> (map (fun i => i * size) ord) = map (fun i => i * size) (<[b := b]> ord).
Proof. symmetry. apply (list_fmap_insert (fun i => i * size)). Qed.

Lemma cycle_inner_spec fuel V es ord a b hold :
  moved V es ord -> in_range V -> from_within V a -> b < n -> reached V a b ->
  es0 !! a = Some hold -> n - base.size V <= fuel ->
  exists V' es' ord',
    cycle_inner size fuel (concat es) (map (fun i => i * size) ord) hold (a * size) b =
      (concat es', map (fun i => i * size) ord') /\
    moved V' es' ord' /\ in_range V' /\ closed V' /\ V ⊆ V' /\ a ∈ V'.
Proof.
  revert V es ord b. induction fuel as [|fuel IH]; intros V es ord b HM HR HW Hb Hr Hhold Hf.
  all: assert (in_range ({[b]} ∪ V)) as HR' by (intros v [->%elem_of_singleton|]%elem_of_union; auto).
  all: pose proof (in_range_size _ HR') as Hsz; destruct (Hr) as [HbV _];
    rewrite size_union, size_singleton in Hsz by set_solver.
  { lia. }
  destruct (lookup_lt_is_Some_2 pi b) as [p Hp]; [by rewrite pi_length|].
  destruct (pi_lt _ _ Hp) as [_ Hpn]. destruct (moved_read V es ord b p HM HbV Hp) as [Hnth _].
  pose proof (HM) as (Hle & _ & Hel & _). cbn [cycle_inner]. rewrite Hnth, map_mul_insert.
  destruct (Nat.eqb_spec (p * size) (a * size)) as [Hpa|Hpa].
  - apply Nat.mul_cancel_r in Hpa as ->; [|lia].
    exists ({[b]} ∪ V), (<[b := hold]> es), (<[b := b]> ord).
    rewrite mwrite_concat by (done || lia || (rewrite Forall_lookup in Hes0; eauto)).
    split; [done|]. split; [by eapply moved_step|]. split; [done|]. split; [by apply (closed_step V a b)|].
    destruct Hr as [_ [->|[? _]]]; set_solver.
  - assert (p <> a) as Hpa' by (intros ->; done).
    pose proof (reached_step V a b p HW Hr Hp Hpa') as Hr'.
    destruct (lookup_lt_is_Some_2 pi p) as [q Hq]; [by rewrite pi_length|].
    destruct (moved_read V es ord p q HM) as (_ & e & He & Hlen & ->); [destruct Hr'; set_solver|done|].
    rewrite mwrite_concat, Nat.div_mul by (done || lia).
    destruct (IH ({[b]} ∪ V) (<[b := e]> es) (<[b := b]> ord) p) as (V' & es' & ord' & -> & ? & ? & ? & Hsub & ?);
      [by eapply moved_step|done|by apply from_within_step|done|done|done
      |rewrite size_union, size_singleton by set_solver; lia|].
    exists V', es', ord'. split; [done|]. repeat (split; [done|]). split; [|done].
    etrans; [|exact Hsub]. apply union_subseteq_r.
Qed.

Lemma cycle_outer_spec fuel V es ord a :
  moved V es ord -> in_range V -> closed V -> n - a <= fuel ->
  (forall k, k < a -> ord !! k = Some k) ->
  exists es', cycle_outer size fuel (concat es) (map (fun i => i * size) ord) a n = concat es' /\
    elements es' /\ length es' = n /\ forall k p, pi !! k = Some p -> es' !! k = es0 !! p.
Proof.
  assert (forall V es ord, moved V es ord -> (forall k, k < n -> ord !! k = Some k) ->
            forall k p, pi !! k = Some p -> es !! k = es0 !! p) as Hdone.
  { intros V0 es1 ord1 (_ & _ & _ & Hall) Hk k p Hp. destruct (pi_lt _ _ Hp) as [Hkn _].
    destruct (Hall k p Hp) as [Hin Hout]. destruct (decide (k ∈ V0)) as [HV|HV]; [by apply Hin|].
    destruct (Hout HV) as [Ho ->]. rewrite Hk in Ho by done. by simplify_eq. }
  revert V es ord a. induction fuel as [|fuel IH]; intros V es ord a HM HR HC Hf Hk.
  { exists es. split; [done|]. split; [apply HM|]. split; [apply HM|].
    eapply Hdone; [done|]. intros; apply Hk; lia. }
  cbn [cycle_outer]. destruct (Nat.ltb_spec a n) as [Ha|Ha].
  2:{ exists es. split; [done|]. split; [apply HM|]. split; [apply HM|].
      eapply Hdone; [done|]. intros; apply Hk; lia. }
  destruct (lookup_lt_is_Some_2 pi a) as [p Hp]; [by rewrite pi_length|].
  destruct (HM) as (Hle & Hlo & Hel & Hall). destruct (Hall a p Hp) as [Hin Hout].
  destruct (lookup_lt_is_Some_2 ord a) as [o Ho]; [lia|]. rewrite (map_mul_lookup _ _ _ Ho).
  destruct (Nat.eqb_spec (o * size) (a * size)) as [Hoa|Hoa].
  - apply Nat.mul_cancel_r in Hoa as ->; [|lia]. apply (IH V); [done..|lia|].
    intros k Hka. destruct (decide (k = a)) as [->|]; [done|]. apply Hk. lia.
  - assert (a ∉ V) as HaV. { intros HaV. destruct (Hin HaV). simplify_eq. }
    destruct (moved_read V es ord a p HM HaV Hp) as (_ & hold & Hh & _ & ->).
    destruct (cycle_inner_spec n V es ord a a hold) as (V' & es' & ord' & -> & HM' & HR' & HC' & Hsub & HaV');
      [done|done|intros v Hv _; by apply HC|done|by split; [|left]|done|lia|].
    apply (IH V'); [done..|lia|]. intros k Hka.
    destruct (lookup_lt_is_Some_2 pi k) as [pk Hpk]; [rewrite pi_length; lia|].
    destruct (decide (k ∈ V')) as [HkV|HkV].
    { destruct HM' as (_ & _ & _ & Hall'). by apply (Hall' k pk Hpk). }
    assert (k <> a) by (intros ->; done). assert (ord !! k = Some k) as Hok by (apply Hk; lia).
    assert (k ∉ V) as HkV0 by set_solver.
    destruct (Hall k pk Hpk) as [_ H0]. destruct (H0 HkV0) as [Hok' _]. simplify_eq.
    destruct HM' as (_ & _ & _ & Hall'). by apply (Hall' _ _ Hpk).
Qed.

Lemma cycle_outer_correct :
  cycle_outer size n (concat es0) (map (fun i => i * size) pi) 0 n =
  concat (map (load size (concat es0)) (map (fun i => i * size) pi)).
Proof.
  destruct (cycle_outer_spec n ∅ es0 pi 0) as (es' & -> & _ & Hl & H).
  - split; [done|]. split; [apply pi_length|]. split; [done|]. intros k p Hp. split; [set_solver|done].
  - intros v. set_solver.
  - intros v. set_solver.
  - lia.
  - lia.
  - f_equal. apply list_eq. intros k. rewrite !list_lookup_fmap.
    destruct (pi !! k) as [p|] eqn:Hp; simpl.
    + rewrite (H k p Hp). destruct (pi_lt _ _ Hp) as [_ Hpn].
      destruct (lookup_lt_is_Some_2 es0 p) as [e He]; [lia|]. rewrite He. f_equal. symmetry.
      by apply (elem_concat size Hsize es0 p e).
    + apply lookup_ge_None in Hp. rewrite pi_length in Hp. apply lookup_ge_None. lia.
Qed.
End cycles_proofs.

(** ** The theorem *)

Lemma tcc_qsort_sorts sizeof_ptr es size cmp :
  CmpOk cmp -> 0 < size -> Forall (fun e => length e = size) es ->
  exists es', tcc_qsort sizeof_ptr (concat es) (length es) size cmp = concat es' /\
    stable_sort_of cmp es es'.
Proof.
  intros Hcmp Hsize Hes. unfold tcc_qsort. destruct (_ && _).
  - destruct (sort_array_spec (SortArray0 := indirect size cmp (concat es)) (cmp_ptr size cmp (concat es))
      (fun _ => True) (HS := indirect_array_ok size cmp (concat es))
      (map (fun a => a * size) (seq 0 (length es))) (length es)) as [_ Hs].
    { done. } { simpl. by rewrite length_map, length_seq. }
    destruct Hs as [HP Hs']. pose proof (conj HP Hs' : stable_sort_of _ _ _) as Hs.
    simpl in HP. apply Permutation_map_inv in HP as (pi & Hpi & Hperm).
    pose proof (stable_sort_map (load size (concat es)) cmp _ _ Hcmp Hs) as Hst.
    simpl in Hpi, Hst. rewrite Hpi in *.
    rewrite (cycle_outer_correct size Hsize es pi (length es)) by done.
    eexists. split; [done|].
    replace es with (map (load size (concat es)) (map (fun a => a * size) (seq 0 (length es)))) at 1; [done|].
    transitivity (view (SortArray := direct size cmp) (concat es)); [|by apply view_concat]. simpl.
    rewrite (concat_length size), Nat.div_mul, map_map by (done || lia). done.
  - destruct (sort_array_spec (SortArray0 := direct size cmp) cmp (direct_ok size)
      (HS := direct_array_ok size cmp Hsize) (concat es) (length es)) as [(es' & Hes' & Hall) Hs].
    { by exists es. } { by rewrite view_concat. }
    exists es'. split; [done|]. by rewrite Hes', !view_concat in Hs.
Qed.

(** C11: for every comparison function that orders the elements, every element size and
    every array, [tcc_qsort] terminates with a permutation of the elements that is sorted
    and in which equal elements keep their order, whether it moves the elements
    themselves or sorts pointers and then moves each element once. *)
Theorem tcc_qsort_stable sizeof_ptr es size cmp :
  CmpOk cmp -> 0 < size -> Forall (fun e => length e = size) es ->
  exists es', tcc_qsort sizeof_ptr (concat es) (length es) size cmp = concat es' /\
    stable_sort_of cmp es es'.
Proof. apply tcc_qsort_sorts. Qed.

(** Comparing the first byte, as the callers' comparison functions compare a key. *)
Definition cmp_first (x y : list Z) : Z := (hd 0 x - hd 0 y)%Z.

Lemma cmp_first_ok : CmpOk cmp_first.
Proof. split; unfold cmp_first; intros; lia. Qed.

Lemma tcc_qsort_stable_witness :
  let small := [[3; 0]; [1; 1]; [3; 2]; [1; 3]]%Z in
  let large := map (fun k => [k mod 3; k] ++ replicate 10 0)%Z [7; 5; 2; 9; 4]%Z in
  (exists es', tcc_qsort 4 (concat small) 4 2 cmp_first = concat es' /\ stable_sort_of cmp_first small es') /\
  tcc_qsort 4 (concat small) 4 2 cmp_first = [1; 1; 1; 3; 3; 0; 3; 2]%Z /\
  (exists es', tcc_qsort 4 (concat large) 5 12 cmp_first = concat es' /\ stable_sort_of cmp_first large es') /\
  map (fun i => nth (12 * i + 1) (tcc_qsort 4 (concat large) 5 12 cmp_first) 0%Z) (seq 0 5) = [9; 7; 4; 5; 2]%Z.
Proof.
  split; [|split; [|split]].
  - apply tcc_qsort_stable; [exact cmp_first_ok|lia|repeat constructor].
  - vm_compute. reflexivity.
  - apply (tcc_qsort_stable 4 (map (fun k => [k mod 3; k] ++ replicate 10 0)%Z [7; 5; 2; 9; 4]%Z) 12);
      [exact cmp_first_ok|lia|repeat constructor].
  - vm_compute. reflexivity.
Defined.
