(* ===== verification/IntSort.v ===== *)
(** * Sorting an array of [int]s

    What the compiler's passes ask of [tcc_qsort] when they sort indices by a key,
    and the proof that [memory/sort.c] delivers it on four-byte elements. *)

From S2P Require Import Prelude BitReflect SortSpec Sort Qsort.
From stdpp Require Import list.
Local Open Scope Z_scope.
Local Open Scope c_scope.

Definition is_int (x : Z) : Prop := - 2 ^ 31 <= x < 2 ^ 31.

(** The contract: a stable sort. *)
Class IntSort := {
  qsort_int : (Z -> Z -> Z) -> list Z -> list Z;
  qsort_int_spec cmp l : CmpOk cmp -> Forall is_int l -> stable_sort_of cmp l (qsort_int cmp l)
}.

(** An [int] in memory, least significant byte first. *)
Definition int_bytes (x : Z) : list Z := [u8 x; u8 (u32 x >>> 8); u8 (u32 x >>> 16); u8 (u32 x >>> 24)].
Definition bytes_int (l : list Z) : Z :=
  s32 (nth 0 l 0 ||| Z.shiftl (nth 1 l 0) 8 ||| Z.shiftl (nth 2 l 0) 16 ||| Z.shiftl (nth 3 l 0) 24).

Lemma bytes_int_bytes x : is_int x -> bytes_int (int_bytes x) = x.
Proof.
  intros Hx. unfold bytes_int, int_bytes. cbn [nth].
  assert (E : u8 x ||| Z.shiftl (u8 (u32 x >>> 8)) 8 ||| Z.shiftl (u8 (u32 x >>> 16)) 16 ||| Z.shiftl (u8 (u32 x >>> 24)) 24 = u32 x).
  { assert (H8 : u8 x = u8 (u32 x)) by (unfold u8, u32; by rewrite <-Z.land_assoc). rewrite H8.
    pose proof (u32_bound x). generalize dependent (u32 x). intros v _ Hv. bit_solve. }
  rewrite E. by apply s32_u32.
Qed.

(** The elements of the array [mem]. *)
Definition ints (mem : list Z) (n : nat) : list Z := map (fun i => bytes_int (elem 4 mem i)) (seq 0 n).

Definition tcc_qsort_int (sizeof_ptr : nat) (cmp : Z -> Z -> Z) (l : list Z) : list Z :=
  ints (tcc_qsort sizeof_ptr (concat (map int_bytes l)) (length l) 4 (fun a b => cmp (bytes_int a) (bytes_int b))) (length l).

Lemma ints_concat es : Forall (fun e => length e = 4%nat) es -> ints (concat es) (length es) = map bytes_int es.
Proof.
  intros Hes. pose proof (view_concat 4 (fun _ _ => 0) ltac:(lia) es Hes) as Hv. cbn [view direct] in Hv.
  rewrite (Qsort.concat_length 4 ltac:(lia) es Hes), Nat.div_mul in Hv by lia.
  transitivity (map bytes_int (map (elem 4 (concat es)) (seq 0 (length es)))); [|by rewrite Hv].
  unfold ints. by rewrite map_map.
Qed.

#[export] Instance tcc_int_sort (sizeof_ptr : nat) : IntSort.
Proof.
  refine {| qsort_int := tcc_qsort_int sizeof_ptr |}. intros cmp l Hcmp Hl.
  destruct (tcc_qsort_sorts sizeof_ptr (map int_bytes l) 4 (SortSpec.by_key bytes_int cmp)) as (es' & He & Hs);
    [by apply by_key_ok|lia|by apply Forall_fmap, Forall_true|].
  unfold tcc_qsort_int. unfold by_key in He. rewrite length_map in He. rewrite He.
  pose proof Hs as (HP & _). assert (Hlen : length es' = length l) by (by rewrite HP, length_map).
  rewrite <-Hlen, ints_concat.
  - apply stable_sort_map in Hs; [|done]. rewrite map_map in Hs.
    assert (E : map (fun x => bytes_int (int_bytes x)) l = l).
    { clear - Hl. induction Hl as [|x l Hx _ IH]; cbn [map]; [done|]. by rewrite IH, bytes_int_bytes. }
    by rewrite E in Hs.
  - rewrite HP. by apply Forall_fmap, Forall_true.
Defined.
