(* ===== verification/HotArena.v ===== *)
(** * The hot arena ([memory/hot_arena.c], [memory/hot_arena.h])

    A best-fit allocator over one block of memory, whose physical blocks carry an
    8-byte header: the payload size with the in-use bit, and the payload size of the
    block before.  The state has the arena's record and the headers in memory, by
    address; an operation that reads a header where none was written is [None].

    The abstract view is the list of blocks, each a payload size and an in-use bit, that
    tile the arena ([arena_inv]).  The theorems: every operation preserves the
    invariant (tiling, back links, alignment, no two adjacent free blocks, the
    accounting of [used]), allocation is best fit, freeing and resizing change the block
    list as documented, and the walks never read a header that is not there. *)

From S2P Require Import Prelude BitReflect.
From stdpp Require Import gmap.
Local Open Scope Z_scope.
Local Open Scope c_scope.

(** ** Data *)

Record HotBlock := mk_hb { hb_size : Z; hb_prev : Z }.

Record HotArena := mk_arena {
  ha_base : Z;
  ha_end : Z;
  ha_used : Z;
  ha_peak : Z;
  ha_misses : Z;
  (** the headers in memory *)
  ha_mem : gmap Z HotBlock;
}.

Definition set_mem (m : gmap Z HotBlock) (a : HotArena) : HotArena :=
  mk_arena (ha_base a) (ha_end a) (ha_used a) (ha_peak a) (ha_misses a) m.
Definition store (b : Z) (h : HotBlock) (a : HotArena) : HotArena := set_mem (<[b := h]> (ha_mem a)) a.
Definition fetch (b : Z) (a : HotArena) : option HotBlock := ha_mem a !! b.

(** [sizeof(HotBlock)]. *)
Definition HB_HEADER : Z := 8.

Definition HB_SIZE (h : HotBlock) : Z := hb_size h &&& ~~~ 1.
Definition HB_USED (h : HotBlock) : Z := hb_size h &&& 1.
Definition HB_NEXT (b : Z) (h : HotBlock) : Z := b + HB_HEADER + HB_SIZE h.
Definition HB_PREV (b : Z) (h : HotBlock) : Z := b - hb_prev h - HB_HEADER.

Section arena.
(** [SIZE_MAX] is [2 ^ w - 1]. *)
Context (w : Z).

(** ** Operations *)

Definition hb_round (bytes : Z) : Z :=
  let up := (bytes + 7) mod 2 ^ w in Z.ldiff up 7.

Definition hb_link_next (a : HotArena) (b : Z) : option HotArena :=
  h ← fetch b a;
  let n := HB_NEXT b h in
  if n <? ha_end a then
    hn ← fetch n a;
    Some (store n (mk_hb (hb_size hn) (u32 (HB_SIZE h))) a)
  else Some a.

Definition hb_split (a : HotArena) (b size : Z) : option HotArena :=
  h ← fetch b a;
  let total := HB_SIZE h in
  if total <? size + HB_HEADER + 8 then Some a
  else
    let t := b + HB_HEADER + size in
    let a := store t (mk_hb (u32 (total - size - HB_HEADER)) (u32 size)) a in
    let a := store b (mk_hb (u32 size ||| HB_USED h) (hb_prev h)) a in
    hb_link_next a t.

Definition hb_merge_next (a : HotArena) (b : Z) : option HotArena :=
  h ← fetch b a;
  let n := HB_NEXT b h in
  if ha_end a <=? n then Some a
  else
    hn ← fetch n a;
    if truth (HB_USED hn) then Some a
    else
      let a := store b (mk_hb (u32 (HB_SIZE h + HB_SIZE hn + HB_HEADER) ||| HB_USED h) (hb_prev h)) a in
      hb_link_next a b.

Definition hot_arena_init (memory bytes : Z) : HotArena :=
  let bytes := Z.ldiff bytes 7 in
  mk_arena memory (memory + bytes) 0 0 0 {[ memory := mk_hb (u32 (bytes - HB_HEADER)) 0 ]}.

(** The walk of [hot_arena_alloc]: the smallest free block that fits, the first of
    them; [best] is the null pointer when there is none. *)
Fixpoint best_loop (fuel : nat) (a : HotArena) (n b : Z) (best : option Z) : option (option Z) :=
  match fuel with
  | O => None
  | S fuel =>
      if b <? ha_end a then
        h ← fetch b a;
        better ← match best with
                 | None => Some true
                 | Some bb => hb ← fetch bb a; Some (HB_SIZE h <? HB_SIZE hb)
                 end;
        best_loop fuel a n (HB_NEXT b h)
          (if negb (truth (HB_USED h)) && (n <=? HB_SIZE h) && better then Some b else best)
      else Some best
  end.

(** More steps than there can be blocks. *)
Definition walk_fuel (a : HotArena) : nat := S (Z.to_nat (ha_end a - ha_base a)).

Definition raise_peak (a : HotArena) : HotArena :=
  mk_arena (ha_base a) (ha_end a) (ha_used a)
    (if ha_peak a <? ha_used a then ha_used a else ha_peak a) (ha_misses a) (ha_mem a).
Definition set_used (u : Z) (a : HotArena) : HotArena :=
  mk_arena (ha_base a) (ha_end a) u (ha_peak a) (ha_misses a) (ha_mem a).
Definition add_miss (a : HotArena) : HotArena :=
  mk_arena (ha_base a) (ha_end a) (ha_used a) (ha_peak a) (u32 (ha_misses a + 1)) (ha_mem a).

(** The null pointer is 0. *)
Definition hot_arena_alloc (a : HotArena) (bytes : Z) : option (Z * HotArena) :=
  if (ha_base a =? 0) || (ha_end a - ha_base a <? bytes) then Some (0, a)
  else
    let n := hb_round (if bytes =? 0 then 1 else bytes) in
    best ← best_loop (walk_fuel a) a n (ha_base a) None;
    match best with
    | None => Some (0, add_miss a)
    | Some best =>
        a ← hb_split a best n;
        h ← fetch best a;
        let h := mk_hb (hb_size h ||| 1) (hb_prev h) in
        let a := store best h a in
        let a := set_used (ha_used a + (HB_SIZE h + HB_HEADER)) a in
        Some (best + HB_HEADER, raise_peak a)
    end.

Definition hot_arena_free (a : HotArena) (p : Z) : option HotArena :=
  let b := p - HB_HEADER in
  h ← fetch b a;
  let a := set_used (ha_used a - (HB_SIZE h + HB_HEADER)) a in
  let a := store b (mk_hb (hb_size h &&& ~~~ 1) (hb_prev h)) a in
  a ← hb_merge_next a b;
  h ← fetch b a;
  if truth (hb_prev h) then
    let q := HB_PREV b h in
    hq ← fetch q a;
    if negb (truth (HB_USED hq)) then hb_merge_next a q else Some a
  else Some a.

(** The second half of [hot_arena_resize]: cut the block to [n] bytes, join what is left with a
    free block after it, and account for the change from [old] bytes. *)
Definition resize_commit (a : HotArena) (b n old : Z) : option (Z * HotArena) :=
  a ← hb_split a b n;
  h ← fetch b a;
  let t := HB_NEXT b h in
  a ← (if t <? ha_end a then
         ht ← fetch t a;
         if negb (truth (HB_USED ht)) then hb_merge_next a t else Some a
       else Some a);
  h ← fetch b a;
  let a := set_used (ha_used a - old + HB_SIZE h) a in
  Some (1, raise_peak a).

Definition hot_arena_resize (a : HotArena) (p bytes : Z) : option (Z * HotArena) :=
  let b := p - HB_HEADER in
  h ← fetch b a;
  let n := hb_round (if bytes =? 0 then 1 else bytes) in
  let old := HB_SIZE h in
  grown ←
    (if old <? n then
       let next := HB_NEXT b h in
       if ha_end a <=? next then Some None
       else
         hn ← fetch next a;
         if truth (HB_USED hn) || (old + HB_SIZE hn + HB_HEADER <? n) then Some None
         else a ← hb_merge_next a b; Some (Some a)
     else Some (Some a));
  match grown with
  | None => Some (0, a)
  | Some a => resize_commit a b n old
  end.

Definition hot_arena_block_size (a : HotArena) (p : Z) : option Z :=
  h ← fetch (p - HB_HEADER) a; Some (HB_SIZE h).

Definition hot_arena_contains (a : HotArena) (p : Z) : bool :=
  truth (ha_base a) && (ha_base a <=? p) && (p <? ha_end a).
End arena.

(** ** The abstract view: a list of blocks *)

(** Payload size and in-use bit. *)
Abbreviation hblock := (Z * bool)%type.

(** The blocks from address [b] on, the one before having payload [prev]. *)
Fixpoint blocks_at (m : gmap Z HotBlock) (b prev : Z) (l : list hblock) : Prop :=
  match l with
  | [] => True
  | (s, u) :: l => m !! b = Some (mk_hb (s + b2z u) prev) /\ blocks_at m (b + 8 + s) s l
  end.

Fixpoint span (l : list hblock) : Z :=
  match l with [] => 0 | (s, _) :: l => 8 + s + span l end.

Fixpoint last_size (prev : Z) (l : list hblock) : Z :=
  match l with [] => prev | (s, _) :: l => last_size s l end.

Definition block_ok (b : hblock) : Prop := 8 <= b.1 /\ b.1 mod 8 = 0.

(** The blocks [l] tile the arena. *)
Definition tiles (a : HotArena) (l : list hblock) : Prop :=
  blocks_at (ha_mem a) (ha_base a) 0 l /\ Forall block_ok l /\
  ha_base a + span l = ha_end a /\ span l < 2 ^ 32.

Lemma span_app l1 l2 : span (l1 ++ l2) = span l1 + span l2.
Proof. induction l1 as [|[s u] l1 IH]; simpl; lia. Qed.

Lemma span_nonneg l : Forall block_ok l -> 0 <= span l.
Proof. induction 1 as [|[s u] l [H1 H2] _ IH]; simpl in *; lia. Qed.

Lemma blocks_at_app m b prev l1 l2 :
  blocks_at m b prev (l1 ++ l2) <->
  blocks_at m b prev l1 /\ blocks_at m (b + span l1) (last_size prev l1) l2.
Proof.
  revert b prev. induction l1 as [|[s u] l1 IH]; intros b prev; simpl.
  - rewrite Z.add_0_r. tauto.
  - rewrite IH, Z.add_assoc, (Z.add_assoc b 8 s). tauto.
Qed.

(** Blocks depend only on the memory they span. *)
Lemma blocks_at_frame m m' b prev l :
  Forall block_ok l -> (forall x, b <= x < b + span l -> m' !! x = m !! x) ->
  blocks_at m b prev l -> blocks_at m' b prev l.
Proof.
  intros Hl. revert b prev. induction Hl as [|[s u] l [Hs _] Hl IH]; intros b prev Hm; simpl; [done|].
  simpl in Hs, Hm. pose proof (span_nonneg l Hl). intros [H1 H2]. split.
  - rewrite Hm by lia. done.
  - apply IH; [|done]. intros x Hx. apply Hm. lia.
Qed.

#[local] Arguments b2z : simpl never.
#[local] Arguments HB_SIZE : simpl never.
#[local] Arguments HB_USED : simpl never.

(** ** Headers *)

Lemma even_mask x : 0 <= x < 2 ^ 32 -> x &&& ~~~ 1 = Z.shiftl (Z.shiftr x 1) 1.
Proof. intros. bit_solve. Qed.

Lemma shift_even x : x mod 2 = 0 -> Z.shiftl (Z.shiftr x 1) 1 = x.
Proof. intros. rewrite Z.shiftl_mul_pow2, Z.shiftr_div_pow2 by lia. change (2 ^ 1) with 2. lia_mod. Qed.

Lemma mod8_even s : s mod 8 = 0 -> s mod 2 = 0.
Proof. intros. lia_mod. Qed.

Lemma HB_SIZE_hdr s u p : 0 <= s < 2 ^ 32 -> s mod 8 = 0 -> HB_SIZE (mk_hb (s + b2z u) p) = s.
Proof.
  intros Hs Hm. apply mod8_even in Hm. unfold HB_SIZE. cbn [hb_size].
  rewrite even_mask by (destruct u; unfold b2z; lia_mod).
  rewrite <- (shift_even s) at 2 by done. f_equal. rewrite !Z.shiftr_div_pow2 by lia. change (2 ^ 1) with 2.
  destruct u; unfold b2z; lia_mod.
Qed.

Lemma HB_USED_hdr s u p : s mod 8 = 0 -> HB_USED (mk_hb (s + b2z u) p) = b2z u.
Proof.
  intros Hm. unfold HB_USED. cbn [hb_size]. change 1 with (Z.ones 1) at 1. rewrite Z.land_ones by lia.
  change (2 ^ 1) with 2. destruct u; unfold b2z; lia_mod.
Qed.

Lemma lor_bit s u : s mod 8 = 0 -> s ||| b2z u = s + b2z u.
Proof.
  intros Hm. symmetry. rewrite Z.add_nocarry_lxor, Z.lxor_lor; [done| |];
    (destruct u; [|apply Z.land_0_r]; change (b2z true) with (Z.ones 1); rewrite Z.land_ones by lia;
     change (2 ^ 1) with 2; lia_mod).
Qed.

Lemma truth_b2z u : truth (b2z u) = u.
Proof. by destruct u. Qed.

(** ** Primitive steps on the blocks *)

Lemma fetch_block a b m prev s u l :
  m = ha_mem a -> blocks_at m b prev ((s, u) :: l) -> fetch b a = Some (mk_hb (s + b2z u) prev).
Proof. intros -> [H _]. done. Qed.

(** Linking the block after [b] repairs the back link of the rest. *)
Lemma link_next_spec a b prev s u pv l :
  fetch b a = Some (mk_hb (s + b2z u) prev) -> block_ok (s, u) -> Forall block_ok l ->
  0 <= s < 2 ^ 32 -> blocks_at (ha_mem a) (b + 8 + s) pv l -> b + 8 + s + span l = ha_end a ->
  exists m', hb_link_next a b = Some (set_mem m' a) /\ blocks_at m' (b + 8 + s) s l /\
    forall x, x < b + 8 + s -> m' !! x = ha_mem a !! x.
Proof.
  intros Hb [_ Hs] Hl Hrange Hat Hend. cbn [fst] in Hs. unfold hb_link_next. rewrite Hb. simpl.
  unfold HB_NEXT. rewrite HB_SIZE_hdr by done. change HB_HEADER with 8.
  destruct l as [|[s' u'] l]; simpl in Hend.
  - rewrite (proj2 (Z.ltb_ge _ _)) by lia. exists (ha_mem a). split; [by destruct a|]. done.
  - inversion Hl as [|?? [Hs'1 Hs'2] Hl']; subst. simpl in Hs'1. pose proof (span_nonneg l Hl').
    rewrite (proj2 (Z.ltb_lt _ _)) by lia. destruct Hat as [H1 H2]. unfold fetch. rewrite H1. simpl.
    eexists. split; [reflexivity|]. rewrite u32_small by lia. split; [split|].
    + by rewrite lookup_insert_eq.
    + eapply blocks_at_frame; [done| |exact H2]. intros x Hx. by rewrite lookup_insert_ne by lia.
    + intros x Hx. by rewrite lookup_insert_ne by lia.
Qed.

Lemma tiles_cons_inv a l1 s u l2 :
  tiles a (l1 ++ (s, u) :: l2) ->
  blocks_at (ha_mem a) (ha_base a) 0 l1 /\
  fetch (ha_base a + span l1) a = Some (mk_hb (s + b2z u) (last_size 0 l1)) /\
  blocks_at (ha_mem a) (ha_base a + span l1 + 8 + s) s l2 /\
  Forall block_ok l1 /\ block_ok (s, u) /\ Forall block_ok l2 /\
  ha_base a + span l1 + 8 + s + span l2 = ha_end a /\
  0 <= s < 2 ^ 32 /\ 0 <= span l1 /\ 0 <= span l2 /\ span l1 + 8 + s + span l2 < 2 ^ 32.
Proof.
  intros (H1 & H2 & H3 & H4). apply blocks_at_app in H1 as [H1 [H5 H6]].
  rewrite Forall_app, Forall_cons in H2. destruct H2 as (Hl1 & Hb & Hl2).
  rewrite span_app in H3, H4. simpl in H3, H4.
  pose proof (span_nonneg l1 Hl1). pose proof (span_nonneg l2 Hl2). destruct (Hb) as [Hb1 _]. simpl in Hb1.
  repeat (split; [done || lia|]). lia.
Qed.

(** Replacing the memory of one block and of what follows it. *)
Lemma tiles_replace a m' l1 l' :
  blocks_at (ha_mem a) (ha_base a) 0 l1 -> Forall block_ok l1 -> Forall block_ok l' ->
  (forall x, x < ha_base a + span l1 -> m' !! x = ha_mem a !! x) ->
  blocks_at m' (ha_base a + span l1) (last_size 0 l1) l' ->
  ha_base a + span l1 + span l' = ha_end a -> span l1 + span l' < 2 ^ 32 ->
  tiles (set_mem m' a) (l1 ++ l').
Proof.
  intros H1 H2 H3 Hm H4 H5 H6. unfold tiles. cbn [ha_mem ha_base ha_end set_mem].
  rewrite span_app, Forall_app. split; [|split; [done|lia]].
  apply blocks_at_app. split; [|done]. eapply blocks_at_frame; [done| |done]. intros. apply Hm. lia.
Qed.

Definition merge_right (s : Z) (u : bool) (l : list hblock) : list hblock :=
  match l with
  | (s', false) :: l => (s + 8 + s', u) :: l
  | _ => (s, u) :: l
  end.

Lemma merge_next_spec a l1 s u l2 b :
  tiles a (l1 ++ (s, u) :: l2) -> b = ha_base a + span l1 ->
  exists m', hb_merge_next a b = Some (set_mem m' a) /\ tiles (set_mem m' a) (l1 ++ merge_right s u l2) /\
    forall x, x < b -> m' !! x = ha_mem a !! x.
Proof.
  intros Ht ->. pose proof (tiles_cons_inv _ _ _ _ _ Ht) as (H1 & Hb & H2 & Hl1 & Hsu & Hl2 & Hend & Hs & ? & ? & Htot).
  unfold hb_merge_next. rewrite Hb. simpl. unfold HB_NEXT. destruct (Hsu) as [Hs1 Hs2]. simpl in Hs1, Hs2.
  rewrite HB_SIZE_hdr, HB_USED_hdr by done. change HB_HEADER with 8.
  assert (forall l', l' = (s, u) :: l2 -> exists m', Some a = Some (set_mem m' a) /\ tiles (set_mem m' a) (l1 ++ l') /\
            forall x, x < ha_base a + span l1 -> m' !! x = ha_mem a !! x) as Hsame.
  { intros l' ->. exists (ha_mem a). assert (set_mem (ha_mem a) a = a) as -> by by destruct a. done. }
  destruct l2 as [|[s' u'] l2]; simpl in Hend.
  { rewrite (proj2 (Z.leb_le _ _)) by lia. by apply Hsame. }
  apply Forall_cons in Hl2 as [[Hs'1 Hs'2] Hl2]. simpl in Hs'1, Hs'2. pose proof (span_nonneg l2 Hl2).
  rewrite (proj2 (Z.leb_gt _ _)) by lia. destruct H2 as [Hn H2]. unfold fetch. rewrite Hn. simpl.
  simpl in Htot. rewrite HB_USED_hdr, truth_b2z by done. destruct u'; [by apply Hsame|].
  rewrite HB_SIZE_hdr by (done || lia). rewrite u32_small, lor_bit by (lia || lia_mod).
  replace (s + s' + 8 + b2z u) with (s + 8 + s' + b2z u) by lia.
  set (a1 := store _ _ a). pose proof (link_next_spec a1 (ha_base a + span l1) (last_size 0 l1) (s + 8 + s') u s' l2) as Hlink.
  destruct Hlink as (m' & -> & Hat & Hm').
  - unfold a1, store, fetch. simpl. by rewrite lookup_insert_eq.
  - split; simpl; [lia|]. lia_mod.
  - done.
  - lia.
  - unfold a1, store. simpl. eapply blocks_at_frame; [done| |].
    2:{ replace (ha_base a + span l1 + 8 + (s + 8 + s')) with (ha_base a + span l1 + 8 + s + 8 + s') by lia. exact H2. }
    intros x Hx. by rewrite lookup_insert_ne by lia.
  - simpl. lia.
  - exists m'. split; [done|].
    assert (forall x, x < ha_base a + span l1 -> m' !! x = ha_mem a !! x) as Hlow.
    { intros x Hx. rewrite Hm' by lia. unfold a1, store. simpl. by rewrite lookup_insert_ne by lia. }
    split; [|done]. apply tiles_replace; [done|done| |done| |simpl; lia|simpl; lia].
    + apply Forall_cons. split; [|done]. split; simpl; [lia|lia_mod].
    + split; [|done]. rewrite Hm' by lia. unfold a1, store. simpl. by rewrite lookup_insert_eq.
Qed.

Definition split_block (n s : Z) (u : bool) : list hblock :=
  if s <? n + 16 then [(s, u)] else [(n, u); (s - n - 8, false)].

Lemma set_mem_same a : set_mem (ha_mem a) a = a.
Proof. by destruct a. Qed.

Lemma split_spec a l1 s u l2 b n :
  tiles a (l1 ++ (s, u) :: l2) -> b = ha_base a + span l1 -> block_ok (n, u) ->
  exists m', hb_split a b n = Some (set_mem m' a) /\ tiles (set_mem m' a) (l1 ++ split_block n s u ++ l2).
Proof.
  intros Ht -> [Hn1 Hn2]. simpl in Hn1, Hn2.
  pose proof (tiles_cons_inv _ _ _ _ _ Ht) as (H1 & Hb & H2 & Hl1 & [Hs1 Hs2] & Hl2 & Hend & Hs & ? & ? & Htot).
  simpl in Hs1, Hs2. unfold hb_split. rewrite Hb. simpl.
  rewrite HB_SIZE_hdr, HB_USED_hdr by done. change HB_HEADER with 8. unfold split_block.
  replace (n + 8 + 8) with (n + 16) by lia. destruct (Z.ltb_spec s (n + 16)) as [Hlt|Hge].
  { exists (ha_mem a). by rewrite set_mem_same. }
  rewrite !u32_small, lor_bit by (done || lia).
  set (b := ha_base a + span l1) in *. set (a1 := store b _ _).
  assert (forall x, x < b -> ha_mem a1 !! x = ha_mem a !! x) as Hlow.
  { intros x Hx. unfold a1, store. simpl. by rewrite !lookup_insert_ne by lia. }
  destruct (link_next_spec a1 (b + 8 + n) n (s - n - 8) false s l2) as (m' & -> & Hat & Hm').
  - unfold a1, store, fetch. simpl. rewrite lookup_insert_ne, lookup_insert_eq by lia. by rewrite Z.add_0_r.
  - split; simpl; [lia|lia_mod].
  - done.
  - lia.
  - replace (b + 8 + n + 8 + (s - n - 8)) with (b + 8 + s) by lia.
    unfold a1, store. simpl. eapply blocks_at_frame; [done| |exact H2].
    intros x Hx. by rewrite !lookup_insert_ne by lia.
  - simpl. lia.
  - exists m'. split; [done|]. unfold b in *.
    cbn [app].
    apply tiles_replace; [done|done| | | |simpl; lia|simpl; lia].
    + apply Forall_cons. split; [done|]. apply Forall_cons. split; [split; simpl; [lia|lia_mod]|done].
    + intros x Hx. rewrite Hm' by lia. apply Hlow. lia.
    + split; [|split; [|done]].
      * rewrite Hm' by lia. unfold a1, store. simpl. by rewrite lookup_insert_eq.
      * rewrite Hm' by lia. unfold a1, store. simpl.
        rewrite lookup_insert_ne, lookup_insert_eq by lia. by rewrite Z.add_0_r.
Qed.

(** Setting or clearing the in-use bit. *)
Lemma mark_spec a l1 s u u' l2 b h :
  tiles a (l1 ++ (s, u) :: l2) -> b = ha_base a + span l1 -> h = mk_hb (s + b2z u') (last_size 0 l1) ->
  tiles (store b h a) (l1 ++ (s, u') :: l2).
Proof.
  intros Ht -> ->.
  pose proof (tiles_cons_inv _ _ _ _ _ Ht) as (H1 & Hb & H2 & Hl1 & Hsu & Hl2 & Hend & Hs & ? & ? & Htot).
  destruct (Hsu) as [Hs1 Hs2]. simpl in Hs1.
  apply tiles_replace; [done|done| | | |simpl; lia|simpl; lia].
  - by apply Forall_cons.
  - intros x Hx. by rewrite lookup_insert_ne by lia.
  - split; [by rewrite lookup_insert_eq|].
    eapply blocks_at_frame; [done| |exact H2]. intros x Hx. by rewrite lookup_insert_ne by lia.
Qed.

Lemma clear_bit s u : 0 <= s < 2 ^ 32 -> s mod 8 = 0 -> (s + b2z u) &&& ~~~ 1 = s + b2z false.
Proof. intros. rewrite Z.add_0_r. by apply (HB_SIZE_hdr s u 0). Qed.

Lemma set_bit s u : s mod 8 = 0 -> (s + b2z u) ||| 1 = s + b2z true.
Proof.
  intros Hs. rewrite <- (lor_bit s u), <- Z.lor_assoc, <- (lor_bit s true) by done. by destruct u.
Qed.

(** ** The invariant *)

Fixpoint coalesced (l : list hblock) : Prop :=
  match l with
  | (_, u1) :: ((_, u2) :: _) as l' => (u1 || u2 = true) /\ coalesced l'
  | _ => True
  end.

Fixpoint used_span (l : list hblock) : Z :=
  match l with [] => 0 | (s, u) :: l => (if u then s + 8 else 0) + used_span l end.

Definition arena_inv (a : HotArena) (l : list hblock) : Prop :=
  ha_base a <> 0 /\ ha_base a < ha_end a /\ tiles a l /\ coalesced l /\
  ha_used a = used_span l /\ ha_used a <= ha_peak a.

Lemma used_span_app l1 l2 : used_span (l1 ++ l2) = used_span l1 + used_span l2.
Proof. induction l1 as [|[s u] l1 IH]; simpl; lia. Qed.

Definition head_free (l : list hblock) : bool := match l with (_, false) :: _ => true | _ => false end.
Fixpoint last_free (l : list hblock) : bool :=
  match l with [] => false | [(_, u)] => negb u | _ :: l => last_free l end.

Lemma coalesced_cons s u l : coalesced ((s, u) :: l) <-> coalesced l /\ (u = false -> head_free l = false).
Proof. destruct l as [|[s' u'] l], u; simpl; try tauto; destruct u'; simpl; intuition congruence. Qed.

Lemma coalesced_app l1 l2 :
  coalesced (l1 ++ l2) <-> coalesced l1 /\ coalesced l2 /\ (last_free l1 = true -> head_free l2 = false).
Proof.
  induction l1 as [|[s u] l1 IH]; [simpl; intuition congruence|].
  rewrite <- app_comm_cons, !coalesced_cons, IH. destruct l1 as [|[s' u'] l1]; simpl in *.
  - destruct u; simpl; intuition congruence.
  - tauto.
Qed.

Lemma last_free_snoc l s u : last_free (l ++ [(s, u)]) = negb u.
Proof. induction l as [|[s' u'] l IH]; [done|]. simpl. destruct l; done. Qed.

Lemma head_free_merge_right s u l : head_free (merge_right s u l) = negb u.
Proof. unfold merge_right. by destruct l as [|[s' []] l], u. Qed.

Lemma merge_right_coalesced s u l : coalesced l -> coalesced (merge_right s u l).
Proof.
  unfold merge_right. destruct l as [|[s' []] l]; rewrite ?coalesced_cons; [done|done|]. intuition.
Qed.

Lemma used_merge_right s u l : used_span (merge_right s u l) = (if u then s + 8 else 0) + used_span l \/
  u = true /\ exists s' l', l = (s', false) :: l' /\ used_span (merge_right s u l) = s + s' + 16 + used_span l.
Proof.
  unfold merge_right. destruct l as [|[s' []] l], u; simpl; auto. right. split; [done|]. eexists _, _. split; [done|]. lia.
Qed.

(** *** [hot_arena_init] *)

Lemma init_ok memory bytes :
  memory <> 0 -> 16 <= bytes < 2 ^ 32 ->
  arena_inv (hot_arena_init memory bytes) [(bytes - bytes mod 8 - 8, false)].
Proof.
  intros Hm Hb. unfold hot_arena_init, arena_inv, tiles. simpl.
  assert (Z.ldiff bytes 7 = bytes - bytes mod 8) as ->.
  { change 7 with (Z.ones 3). rewrite Z.ldiff_ones_r, Z.shiftl_mul_pow2, Z.shiftr_div_pow2 by lia.
    change (2 ^ 3) with 8. lia_mod. }
  change HB_HEADER with 8. rewrite u32_small by lia_mod. rewrite Z.add_0_r, lookup_singleton_eq.
  repeat split; simpl; try lia_mod. repeat constructor; simpl; lia_mod.
Qed.

(** *** [hot_arena_alloc] *)

Definition fits (n : Z) (b : hblock) : Prop := b.2 = false /\ n <= b.1.

(** [(s, false)] between [p] and [q] is the first of the smallest blocks that fit. *)
Definition is_best (n : Z) (l p : list hblock) (s : Z) (q : list hblock) : Prop :=
  l = p ++ (s, false) :: q /\ n <= s /\
  (forall b, b ∈ p -> fits n b -> s < b.1) /\ (forall b, b ∈ q -> fits n b -> s <= b.1).

Definition best_of (base n : Z) (l : list hblock) (best : option Z) : Prop :=
  match best with
  | None => forall b, b ∈ l -> ~ fits n b
  | Some bb => exists p s q, is_best n l p s q /\ bb = base + span p
  end.

Lemma best_none base n l s u :
  best_of base n l None ->
  best_of base n (l ++ [(s, u)]) (if negb u && (n <=? s) then Some (base + span l) else None).
Proof.
  intros H. destruct (negb u && (n <=? s)) eqn:E.
  - apply andb_true_iff in E as [Hu%negb_true_iff Hs%Z.leb_le]. subst u. exists l, s, []. split; [|done].
    split; [done|]. split; [done|]. split; [|by intros b ?%elem_of_nil]. intros b Hb Hf. by destruct (H b).
  - intros b [Hb| ->%list_elem_of_singleton]%elem_of_app [Hf1 Hf2]; [by apply (H b Hb)|].
    simpl in Hf1, Hf2. subst u. simpl in E. apply Z.leb_gt in E. lia.
Qed.

Lemma best_some base n l s u p s0 q :
  is_best n l p s0 q ->
  best_of base n (l ++ [(s, u)])
    (if negb u && (n <=? s) && (s <? s0) then Some (base + span l) else Some (base + span p)).
Proof.
  intros (-> & Hs0 & Hp & Hq). destruct (negb u && (n <=? s) && (s <? s0)) eqn:E.
  - rewrite !andb_true_iff, negb_true_iff, Z.leb_le, Z.ltb_lt in E. destruct E as [[-> Hns] Hlt].
    exists (p ++ (s0, false) :: q), s, []. split; [|done]. split; [done|]. split; [done|].
    split; [|by intros b ?%elem_of_nil].
    intros b [Hb|[->|Hb]%elem_of_cons]%elem_of_app Hf; [|done|]; [specialize (Hp b Hb Hf)|specialize (Hq b Hb Hf)]; lia.
  - exists p, s0, (q ++ [(s, u)]). split; [|done]. split; [by rewrite <- app_assoc|]. split; [done|]. split; [done|].
    intros b [Hb| ->%list_elem_of_singleton]%elem_of_app Hf; [by apply Hq|].
    destruct Hf as [Hu Hn]. simpl in *. subst u. simpl in E.
    rewrite (proj2 (Z.leb_le _ _)) in E by lia. simpl in E. apply Z.ltb_ge in E. lia.
Qed.

Lemma best_loop_spec fuel a n l1 l2 best :
  tiles a (l1 ++ l2) -> best_of (ha_base a) n l1 best -> (length l2 < fuel)%nat ->
  exists best', best_loop fuel a n (ha_base a + span l1) best = Some best' /\
    best_of (ha_base a) n (l1 ++ l2) best'.
Proof.
  revert l1 l2 best. induction fuel as [|fuel IH]; intros l1 l2 best Ht Hbest Hf; [lia|].
  cbn [best_loop]. destruct l2 as [|[s u] l2].
  { rewrite app_nil_r in *. destruct (Ht) as (_ & _ & He & _).
    rewrite (proj2 (Z.ltb_ge _ _)) by lia. eauto. }
  pose proof (tiles_cons_inv _ _ _ _ _ Ht) as (H1 & Hb & H2 & Hl1 & [Hs1 Hs2] & Hl2 & Hend & Hs & ? & ? & Htot).
  simpl in Hs1, Hs2. rewrite (proj2 (Z.ltb_lt _ _)) by lia. rewrite Hb. simpl.
  unfold HB_NEXT. rewrite HB_SIZE_hdr, HB_USED_hdr, truth_b2z by done. change HB_HEADER with 8.
  replace (ha_base a + span l1 + 8 + s) with (ha_base a + span (l1 ++ [(s, u)])) by (rewrite span_app; simpl; lia).
  assert ((l1 ++ [(s, u)]) ++ l2 = l1 ++ (s, u) :: l2) as E by list_assoc. rewrite <- E in Ht |- *.
  destruct best as [bb|].
  - destruct Hbest as (p & s0 & q & Hbest & ->). destruct (Hbest) as (El1 & _).
    assert (fetch (ha_base a + span p) a = Some (mk_hb (s0 + b2z false) (last_size 0 p)) /\
            0 <= s0 < 2 ^ 32 /\ s0 mod 8 = 0) as (-> & Hr0 & Hm0).
    { assert (tiles a (p ++ (s0, false) :: q ++ (s, u) :: l2)) as Ht'
        by (rewrite E, El1, <- app_assoc in Ht; exact Ht).
      pose proof (tiles_cons_inv _ _ _ _ _ Ht') as (_ & -> & _ & _ & [_ ?] & _ & _ & ? & _). done. }
    simpl. rewrite HB_SIZE_hdr by done. apply IH; [done|by eapply best_some|simpl in Hf; lia].
  - simpl. rewrite andb_true_r. apply IH; [done|by apply best_none|simpl in Hf; lia].
Qed.

Lemma length_span l : Forall block_ok l -> Z.of_nat (length l) <= span l.
Proof. induction 1 as [|[s u] l [H1 H2] _ IH]; simpl in *; lia. Qed.

Section arena_proofs.
Context (w : Z) (Hw : 32 <= w).

Lemma hb_round_spec bytes : 0 < bytes -> bytes + 7 < 2 ^ w ->
  hb_round w bytes = bytes + (- bytes) mod 8 /\ bytes <= hb_round w bytes < bytes + 8 /\
  block_ok (hb_round w bytes, true).
Proof using Hw.
  intros H1 H2. unfold hb_round, block_ok. rewrite Z.mod_small by lia. change 7 with (Z.ones 3) at 2 4 6 8 10.
  assert (Z.ldiff (bytes + 7) (Z.ones 3) = bytes + (- bytes) mod 8) as E.
  { rewrite Z.ldiff_ones_r, Z.shiftl_mul_pow2, Z.shiftr_div_pow2 by lia. change (2 ^ 3) with 8. lia_mod. }
  simpl fst. rewrite !E. repeat split; lia_mod.
Qed.

Lemma span_mod8 l : Forall block_ok l -> span l mod 8 = 0.
Proof. induction 1 as [|[s u] l [H1 H2] _ IH]; simpl in *; [done|lia_mod]. Qed.

(** The request, rounded, fits the arithmetic of [size_t]. *)
Lemma request_spec a l bytes :
  tiles a l -> 0 <= bytes <= ha_end a - ha_base a ->
  let n := hb_round w (if bytes =? 0 then 1 else bytes) in bytes <= n /\ block_ok (n, true).
Proof using Hw.
  intros (_ & Hok & He & Hsp) Hb. pose proof (span_mod8 l Hok). pose proof (span_nonneg l Hok).
  assert (2 ^ 32 <= 2 ^ w) by (apply Z.pow_le_mono_r; lia).
  destruct (hb_round_spec (if bytes =? 0 then 1 else bytes)) as (_ & Hr1 & Hr2).
  - destruct (Z.eqb_spec bytes 0); lia.
  - destruct (Z.eqb_spec bytes 0); lia_mod.
  - split; [|done]. destruct (Z.eqb_spec bytes 0); lia.
Qed.

Lemma split_block_eq n s u :
  split_block n s u = (if s <? n + 16 then s else n, u) :: (if s <? n + 16 then [] else [(s - n - 8, false)]).
Proof. unfold split_block. by destruct (s <? n + 16). Qed.

Lemma split_coalesced n s l1 l2 :
  coalesced (l1 ++ (s, false) :: l2) -> coalesced (l1 ++ split_block n s true ++ l2).
Proof.
  rewrite !coalesced_app, coalesced_cons. intros (H1 & (H2 & H3) & H4).
  unfold split_block. destruct (s <? n + 16); simpl app; rewrite !coalesced_cons; simpl; intuition.
Qed.

Lemma peak_le x y : x <= (if y <? x then x else y).
Proof. destruct (Z.ltb_spec y x); lia. Qed.

(** The allocation either finds no block and changes nothing but the count of misses, or
    takes the best block, splitting it when the rest can be a block. *)
Lemma arena_alloc_spec a l bytes :
  arena_inv a l -> 0 <= bytes ->
  let n := hb_round w (if bytes =? 0 then 1 else bytes) in
  (exists a', hot_arena_alloc w a bytes = Some (0, a') /\ ha_base a' = ha_base a /\ arena_inv a' l /\
     (ha_end a - ha_base a < bytes \/ forall b, b ∈ l -> ~ fits n b)) \/
  (exists p s q a', is_best n l p s q /\ bytes <= n /\
     hot_arena_alloc w a bytes = Some (ha_base a + span p + 8, a') /\
     ha_base a' = ha_base a /\ arena_inv a' (p ++ split_block n s true ++ q)).
Proof using Hw.
  intros Hinv Hbytes n. pose proof (Hinv) as (Hbase & Hlt & Ht & Hco & Hused & Hpeak).
  unfold hot_arena_alloc. rewrite (proj2 (Z.eqb_neq _ _)) by done. simpl.
  destruct (Z.ltb_spec (ha_end a - ha_base a) bytes) as [Hbig|Hfit]; [left; exists a; auto|].
  destruct (request_spec a l bytes Ht) as [Hn Hnok]; [lia|]. fold n in Hn, Hnok |- *.
  pose proof (Ht) as (_ & Hok & He & _). pose proof (length_span l Hok).
  destruct (best_loop_spec (walk_fuel a) a n [] l None) as (best & Hl & Hbest);
    [done|by intros b ?%elem_of_nil|unfold walk_fuel; lia|].
  simpl in Hl. rewrite Z.add_0_r in Hl. rewrite Hl. simpl in Hbest |- *. destruct best as [bb|]; [|left; exists (add_miss a); auto].
  right. destruct Hbest as (p & s & q & Hbest & ->). destruct (Hbest) as (-> & _).
  destruct (split_spec a p s false q (ha_base a + span p) n) as (m' & -> & Ht1); [done|done|done|].
  rewrite split_block_eq, <- app_comm_cons in Ht1. simpl.
  pose proof (tiles_cons_inv _ _ _ _ _ Ht1) as (_ & Hb & _ & _ & [_ Hm] & _ & _ & Hr & _).
  cbn [ha_base set_mem] in Hb. rewrite Hb. cbn [mbind option_bind hb_size hb_prev].
  rewrite set_bit, HB_SIZE_hdr by done. change HB_HEADER with 8.
  exists p, s, q. eexists. split; [done|]. split; [done|]. split; [reflexivity|]. split; [done|].
  rewrite split_block_eq, <- app_comm_cons.
  assert (tiles (store (ha_base a + span p) (mk_hb ((if s <? n + 16 then s else n) + b2z true) (last_size 0 p)) (set_mem m' a))
            (p ++ (if s <? n + 16 then s else n, true) :: (if s <? n + 16 then [] else [(s - n - 8, false)]) ++ q)) as Ht2.
  { by eapply mark_spec. }
  split; [done|]. split; [done|]. split; [exact Ht2|]. split.
  { rewrite app_comm_cons, <- split_block_eq. by apply split_coalesced. }
  cbn [ha_used ha_peak raise_peak set_used store set_mem]. rewrite Hused, !used_span_app. simpl.
  rewrite used_span_app. split; [destruct (s <? n + 16); simpl; lia|].
  apply peak_le.
Qed.

(** *** [hot_arena_free] *)

(** The freed block joins the free blocks on either side. *)
Definition free_blocks (l1 : list hblock) (s : Z) (l2 : list hblock) : list hblock :=
  match last l1 with
  | Some (s1, false) => removelast l1 ++ merge_right s1 false (merge_right s false l2)
  | _ => l1 ++ merge_right s false l2
  end.

Lemma merge_right_shape s u l : exists s' l', merge_right s u l = (s', u) :: l'.
Proof. unfold merge_right. destruct l as [|[s' []] l]; eauto. Qed.

Lemma used_free_right s l : used_span (merge_right s false l) = used_span l.
Proof. unfold merge_right. by destruct l as [|[s' []] l]. Qed.

Lemma last_size_snoc prev l s u : last_size prev (l ++ [(s, u)]) = s.
Proof. revert prev. induction l as [|[s' u'] l IH]; simpl; [done|]. intros. apply IH. Qed.

Lemma arena_free_spec a l1 s l2 :
  arena_inv a (l1 ++ (s, true) :: l2) ->
  exists a', hot_arena_free a (ha_base a + span l1 + 8) = Some a' /\ ha_base a' = ha_base a /\
    arena_inv a' (free_blocks l1 s l2).
Proof.
  intros (Hbase & Hlt & Ht & Hco & Hused & Hpeak).
  pose proof (tiles_cons_inv _ _ _ _ _ Ht) as (_ & Hb & _ & Hl1 & [Hs1 Hs2] & _ & _ & Hr & _).
  simpl in Hs1, Hs2. unfold hot_arena_free. change HB_HEADER with 8.
  replace (ha_base a + span l1 + 8 - 8) with (ha_base a + span l1) by lia. rewrite Hb.
  cbn [mbind option_bind hb_size hb_prev]. rewrite HB_SIZE_hdr, clear_bit by done.
  set (a0 := store _ _ _).
  assert (tiles a0 (l1 ++ (s, false) :: l2)) as Ht0 by (eapply (mark_spec (set_used _ a)); [exact Ht|done|done]).
  destruct (merge_next_spec a0 l1 s false l2 (ha_base a + span l1)) as (m1 & -> & Ht1 & _); [done|done|].
  cbn [mbind option_bind]. rewrite coalesced_app, coalesced_cons in Hco. destruct Hco as (Hco1 & (Hco2 & _) & _).
  rewrite used_span_app in Hused. simpl in Hused.
  assert (forall m l', tiles (set_mem m a0) l' -> coalesced l' -> used_span l' = used_span l1 + used_span l2 ->
            arena_inv (set_mem m a0) l') as Hfin.
  { intros m l' HT HC HU. repeat (split; [done|]). cbn [ha_used ha_peak a0 set_used store set_mem]. lia. }
  pose proof (merge_right_coalesced s false l2 Hco2) as Hcor.
  pose proof (used_free_right s l2) as Hur. pose proof (head_free_merge_right s false l2) as Hhr.
  destruct (merge_right_shape s false l2) as (s' & l' & Em). unfold free_blocks. rewrite Em in *.
  pose proof (tiles_cons_inv _ _ _ _ _ Ht1) as (_ & Hb1 & _ & _ & _ & _ & _ & Hr' & _).
  cbn [ha_base set_mem a0 store set_used] in Hb1. rewrite Hb1. cbn [mbind option_bind hb_prev].
  destruct l1 as [|[s1 u1] l1 _] using rev_ind.
  { simpl. eexists. split; [reflexivity|]. split; [done|]. apply Hfin; [exact Ht1|done|done]. }
  rewrite last_size_snoc, last_snoc, removelast_last.
  apply Forall_app in Hl1 as [_ [[Hs11 _] _]%Forall_cons]. simpl in Hs11.
  assert (truth s1 = true) as -> by (apply truth_true; lia). unfold HB_PREV. cbn [hb_prev]. change HB_HEADER with 8.
  rewrite <- app_assoc in Ht1. cbn [app] in Ht1.
  replace (ha_base a + span (l1 ++ [(s1, u1)]) - s1 - 8) with (ha_base a + span l1) by (rewrite span_app; simpl; lia).
  pose proof (tiles_cons_inv _ _ _ _ _ Ht1) as (_ & Hq & _ & _ & [_ Hm1] & _ & _ & Hr1 & _).
  cbn [ha_base set_mem a0 store set_used] in Hq. rewrite Hq. cbn [mbind option_bind].
  rewrite HB_USED_hdr, truth_b2z by done. apply coalesced_app in Hco1 as (Hco1 & _ & Hlast).
  rewrite used_span_app in Hfin. simpl in Hfin. destruct u1; simpl.
  - eexists. split; [reflexivity|]. split; [done|]. rewrite <- app_assoc. cbn [app]. apply Hfin; [exact Ht1| |].
    + rewrite coalesced_app, coalesced_cons. intuition.
    + rewrite used_span_app. simpl in *. lia.
  - destruct (merge_next_spec (set_mem m1 a0) l1 s1 false ((s', false) :: l') (ha_base a + span l1)) as (m2 & -> & Ht2 & _);
      [done|done|].
    eexists. split; [reflexivity|]. split; [done|]. apply Hfin; [exact Ht2| |].
    + rewrite coalesced_app. split; [done|]. split; [exact (merge_right_coalesced s1 false _ Hcor)|].
      intros HF. specialize (Hlast HF). done.
    + rewrite used_span_app. pose proof (used_free_right s1 ((s', false) :: l')). simpl in *. lia.
Qed.

(** *** [hot_arena_resize] *)

(** The block and what follows it, after growing into a free neighbour if need be. *)
Definition grow (n s : Z) (l : list hblock) : option (Z * list hblock) :=
  if s <? n then
    match l with
    | (s', false) :: l => if s + s' + 8 <? n then None else Some (s + 8 + s', l)
    | _ => None
    end
  else Some (s, l).

Definition resize_blocks (n s : Z) (l : list hblock) : list hblock :=
  if s <? n + 16 then (s, true) :: l else (n, true) :: merge_right (s - n - 8) false l.

(** What was split off joins a free block after it. *)
Lemma resize_tail a l1 n s l :
  tiles a (l1 ++ split_block n s true ++ l) -> coalesced l ->
  exists h m', fetch (ha_base a + span l1) a = Some h /\
    (let t := HB_NEXT (ha_base a + span l1) h in
     if t <? ha_end a then
       ht ← fetch t a; if negb (truth (HB_USED ht)) then hb_merge_next a t else Some a
     else Some a) = Some (set_mem m' a) /\
    tiles (set_mem m' a) (l1 ++ resize_blocks n s l).
Proof.
  intros Ht Hco. unfold resize_blocks. rewrite split_block_eq, <- app_comm_cons in Ht.
  set (s2 := if s <? n + 16 then s else n) in *. set (rest := if s <? n + 16 then [] else _) in *.
  pose proof (tiles_cons_inv _ _ _ _ _ Ht) as (_ & Hb & _ & _ & [_ Hm] & _ & Hend & Hr & _). simpl in Hm.
  rewrite Hb. exists (mk_hb (s2 + b2z true) (last_size 0 l1)). cbn zeta. unfold HB_NEXT.
  rewrite HB_SIZE_hdr by done. change HB_HEADER with 8.
  assert (ha_base a + span l1 + 8 + s2 = ha_base a + span (l1 ++ [(s2, true)])) as Eb by (rewrite span_app; simpl; lia).
  assert ((if s <? n + 16 then (s, true) :: l else (n, true) :: merge_right (s - n - 8) false l) =
          (s2, true) :: match rest with [] => l | (r, _) :: _ => merge_right r false l end) as ->.
  { unfold s2, rest. by destruct (s <? n + 16). }
  assert (forall (x : hblock) l, l1 ++ x :: l = (l1 ++ [x]) ++ l) as Ea by (intros; list_assoc). rewrite Ea in Ht |- *.
  assert (rest = [] \/ exists r, rest = [(r, false)]) as Hrest.
  { unfold rest. destruct (s <? n + 16); eauto. }
  assert (tiles (set_mem (ha_mem a) a) ((l1 ++ [(s2, true)]) ++ rest ++ l)) as Hsame by by rewrite set_mem_same.
  clearbody rest s2.
  destruct Hrest as [-> |[r ->]]; cbn [app] in *.
  - destruct l as [|[s3 u3] l]; simpl in Hend.
    { rewrite (proj2 (Z.ltb_ge _ _)) by lia. exists (ha_mem a). by rewrite set_mem_same in *. }
    pose proof (tiles_cons_inv _ _ _ _ _ Ht) as (_ & Hb3 & _ & _ & [_ Hm3] & _ & _ & Hr3 & _ & ? & _). simpl in Hm3.
    rewrite (proj2 (Z.ltb_lt _ _)) by lia. rewrite Eb, Hb3. cbn [mbind option_bind].
    rewrite HB_USED_hdr, truth_b2z by done.
    destruct u3; simpl; [exists (ha_mem a); by rewrite set_mem_same in *|].
    destruct (merge_next_spec a (l1 ++ [(s2, true)]) s3 false l (ha_base a + span (l1 ++ [(s2, true)]))) as (m' & -> & Ht' & _);
      [done|done|]. exists m'. split; [done|]. split; [done|]. apply coalesced_cons in Hco as [_ Hh].
    unfold merge_right in Ht'. by destruct l as [|[s4 []] l]; [| |specialize (Hh eq_refl)].
  - pose proof (tiles_cons_inv _ _ _ _ _ Ht) as (_ & Hb3 & _ & _ & [Hm2 Hm3] & _ & _ & Hr3 & _ & ? & _).
    simpl in Hm2, Hm3, Hend. rewrite (proj2 (Z.ltb_lt _ _)) by lia. rewrite Eb, Hb3. cbn [mbind option_bind].
    rewrite HB_USED_hdr, truth_b2z by done. simpl.
    destruct (merge_next_spec a (l1 ++ [(s2, true)]) r false l (ha_base a + span (l1 ++ [(s2, true)]))) as (m' & -> & Ht' & _);
      [done|done|]. by exists m'.
Qed.

Lemma resize_commit_spec a m1 l1 s1 l old n :
  tiles (set_mem m1 a) (l1 ++ (s1, true) :: l) -> coalesced l1 -> coalesced l -> block_ok (n, true) ->
  ha_base a <> 0 -> ha_base a < ha_end a -> ha_used a = used_span l1 + (old + 8 + used_span l) ->
  exists a', resize_commit (set_mem m1 a) (ha_base a + span l1) n old = Some (1, a') /\
    ha_base a' = ha_base a /\ arena_inv a' (l1 ++ resize_blocks n s1 l).
Proof.
  intros Ht Hco1 Hco Hn Hbase Hlt Hused. unfold resize_commit.
  destruct (split_spec (set_mem m1 a) l1 s1 true l (ha_base a + span l1) n) as (m2 & -> & Ht2); [done..|].
  cbn [mbind option_bind]. destruct (resize_tail _ _ _ _ _ Ht2 Hco) as (h & m3 & Hb & Htail & Ht3).
  cbn [ha_base set_mem] in Hb, Htail. rewrite Hb. cbn [mbind option_bind]. cbn zeta in Htail. rewrite Htail.
  cbn [mbind option_bind].
  assert (coalesced (l1 ++ resize_blocks n s1 l) /\
          exists s2 X, resize_blocks n s1 l = (s2, true) :: X /\ used_span X = used_span l) as (Hco3 & s2 & X & EX & HX).
  { unfold resize_blocks. destruct (s1 <? n + 16).
    - rewrite coalesced_app, coalesced_cons. split; [intuition congruence|by eexists _, _].
    - rewrite coalesced_app, coalesced_cons. split; [pose proof (merge_right_coalesced (s1 - n - 8) false l Hco); intuition congruence|].
      eexists _, _. split; [done|]. apply used_free_right. }
  rewrite EX in *. pose proof (tiles_cons_inv _ _ _ _ _ Ht3) as (_ & Hb3 & _ & _ & [_ Hm] & _ & _ & Hr & _). simpl in Hm.
  cbn [ha_base set_mem] in Hb3. rewrite Hb3. cbn [mbind option_bind]. rewrite HB_SIZE_hdr by done.
  eexists. split; [reflexivity|]. split; [done|]. split; [done|]. split; [done|]. split; [exact Ht3|]. split; [done|].
  cbn [ha_used ha_peak raise_peak set_used store set_mem]. rewrite used_span_app. simpl. split; [lia|]. apply peak_le.
Qed.

(** Resizing in place either is impossible and changes nothing, or yields a block of at least
    the requested size. *)
Lemma arena_resize_spec a l1 s l2 bytes :
  arena_inv a (l1 ++ (s, true) :: l2) -> 0 <= bytes -> bytes + 7 < 2 ^ w ->
  let n := hb_round w (if bytes =? 0 then 1 else bytes) in
  match grow n s l2 with
  | None => hot_arena_resize w a (ha_base a + span l1 + 8) bytes = Some (0, a)
  | Some (s1, l2') =>
      exists a', hot_arena_resize w a (ha_base a + span l1 + 8) bytes = Some (1, a') /\
        ha_base a' = ha_base a /\ bytes <= n <= s1 /\ arena_inv a' (l1 ++ resize_blocks n s1 l2')
  end.
Proof using Hw.
  intros (Hbase & Hlt & Ht & Hco & Hused & Hpeak) Hb0 Hbw n.
  assert (bytes <= n /\ block_ok (n, true)) as [Hn Hnok].
  { assert (2 ^ 32 <= 2 ^ w) by (apply Z.pow_le_mono_r; lia).
    destruct (hb_round_spec (if bytes =? 0 then 1 else bytes)) as (_ & ? & ?);
      [destruct (Z.eqb_spec bytes 0); lia..|]. split; [|done]. unfold n. destruct (Z.eqb_spec bytes 0); lia. }
  pose proof (tiles_cons_inv _ _ _ _ _ Ht) as (_ & Hb & Hat2 & Hl1 & [Hs1 Hs2] & Hl2 & Hend & Hr & _ & _ & Htot).
  simpl in Hs1, Hs2. unfold hot_arena_resize. change HB_HEADER with 8. fold n.
  replace (ha_base a + span l1 + 8 - 8) with (ha_base a + span l1) by lia. rewrite Hb.
  cbn [mbind option_bind]. cbv zeta. unfold HB_NEXT. rewrite !HB_SIZE_hdr by done. change HB_HEADER with 8.
  rewrite coalesced_app, coalesced_cons in Hco. destruct Hco as (Hco1 & (Hco2 & _) & _).
  rewrite used_span_app in Hused. simpl in Hused. unfold grow.
  destruct (Z.ltb_spec s n) as [Hlt2|Hge].
  2:{ cbn [mbind option_bind]. rewrite <- (set_mem_same a) in Ht.
      destruct (resize_commit_spec a (ha_mem a) l1 s l2 s n) as (a' & Hc & ? & ?); [done..|].
      rewrite set_mem_same in Hc. exists a'. split; [done|]. split; [done|]. split; [lia|done]. }
  destruct l2 as [|[s' u'] l2]; simpl in Hend, Htot.
  { rewrite (proj2 (Z.leb_le _ _)) by lia. done. }
  apply Forall_cons in Hl2 as [[Hs'1 Hs'2] Hl2]. simpl in Hs'1, Hs'2. pose proof (span_nonneg l2 Hl2). pose proof (span_nonneg l1 Hl1).
  rewrite !(proj2 (Z.leb_gt _ _)) by lia. destruct Hat2 as [Hnx _].
  change (fetch (ha_base a + span l1 + 8 + s) a = Some (mk_hb (s' + b2z u') s)) in Hnx. rewrite !Hnx.
  cbn [mbind option_bind]. rewrite !HB_USED_hdr, !HB_SIZE_hdr, !truth_b2z by (done || lia).
  destruct u'; simpl; [done|]. destruct (Z.ltb_spec (s + s' + 8) n) as [Hsmall|Hfit]; [done|].
  destruct (merge_next_spec a l1 s true ((s', false) :: l2) (ha_base a + span l1)) as (m1 & -> & Ht1 & _); [done|done|].
  cbn [mbind option_bind]. apply coalesced_cons in Hco2 as [Hco2 _].
  destruct (resize_commit_spec a m1 l1 (s + 8 + s') l2 s n) as (a' & -> & ? & ?); [done..|].
  exists a'. split; [done|]. split; [done|]. split; [lia|done].
Qed.
End arena_proofs.
