(* ===== verification/HotArenaClient.v ===== *)
(** * Clients of the hot arena

    What a user of [hot_arena.c] may rely on, whatever sequence of allocations, frees and
    resizes it performs: the step relation [reach] of the arena with the pointers the client
    holds, and the properties of every reachable state. *)

From S2P Require Import Prelude HotArena.
From stdpp Require Import list gmap.
Local Open Scope Z_scope.

#[local] Arguments b2z : simpl never.

(** The payloads in use, with their addresses. *)
Fixpoint payloads (b : Z) (l : list hblock) : list (Z * Z) :=
  match l with
  | [] => []
  | (s, u) :: l => (if u : bool then [(b + 8, s)] else []) ++ payloads (b + 8 + s) l
  end.

Section client.
Context (w : Z) (Hw : 32 <= w).

(** An arena and the pointers its client holds. A request to resize is at most
    [SIZE_MAX - 7]: [hot_arena_resize] rounds it up in [size_t] without the test that protects
    [hot_arena_alloc], so that a larger one wraps to 0 ([resize_wraps] below), and the block of
    size 0 it leaves is one whose neighbour takes itself for the first of the arena. *)
Inductive reach : HotArena -> list Z -> Prop :=
| reach_init memory bytes :
    memory <> 0 -> 0 <= memory -> 16 <= bytes < 2 ^ 32 -> reach (hot_arena_init memory bytes) []
| reach_alloc a live bytes p a' :
    reach a live -> 0 <= bytes -> hot_arena_alloc w a bytes = Some (p, a') ->
    reach a' (if p =? 0 then live else p :: live)
| reach_free a l1 p l2 a' :
    reach a (l1 ++ p :: l2) -> hot_arena_free a p = Some a' -> reach a' (l1 ++ l2)
| reach_resize a live p bytes r a' :
    reach a live -> p ∈ live -> 0 <= bytes -> bytes + 7 < 2 ^ w ->
    hot_arena_resize w a p bytes = Some (r, a') -> reach a' live.

(** The blocks behind a reachable arena, their used payloads being what the client holds. *)
Definition client_inv (a : HotArena) (live : list Z) (l : list hblock) : Prop :=
  arena_inv a l /\ 0 < ha_base a /\ live ≡ₚ map fst (payloads (ha_base a) l).

Lemma payloads_app b l1 l2 : payloads b (l1 ++ l2) = payloads b l1 ++ payloads (b + span l1) l2.
Proof.
  revert b. induction l1 as [|[s u] l1 IH]; intros b; simpl; [by rewrite Z.add_0_r|].
  rewrite IH, app_assoc. do 2 f_equal. lia.
Qed.

Lemma payloads_in b l p s : (p, s) ∈ payloads b l ->
  exists l1 l2, l = l1 ++ (s, true) :: l2 /\ p = b + span l1 + 8.
Proof.
  revert b. induction l as [|[s' u] l IH]; intros b; simpl; [by intros ?%elem_of_nil|].
  rewrite elem_of_app. intros [H|H].
  - destruct u; [|by apply elem_of_nil in H]. apply list_elem_of_singleton in H. simplify_eq.
    exists [], l. simpl. split; [done|lia].
  - destruct (IH _ H) as (l1 & l2 & -> & ->). exists ((s', u) :: l1), l2. simpl. split; [done|lia].
Qed.

(** Replacing blocks by others of the same span leaves the other payloads where they are. *)
Lemma payloads_replace b l1 x y l2 :
  span x = span y ->
  payloads b (l1 ++ x ++ l2) = payloads b l1 ++ payloads (b + span l1) x ++ payloads (b + span l1 + span y) l2.
Proof. intros H. by rewrite !payloads_app, H. Qed.

Lemma span_split_block n s u : span (split_block n s u) = 8 + s.
Proof. unfold split_block. destruct (s <? n + 16); simpl; lia. Qed.

Lemma payloads_split_block b n s : exists s', payloads b (split_block n s true) = [(b + 8, s')].
Proof. unfold split_block. destruct (s <? n + 16); simpl; eauto. Qed.

Lemma payloads_merge_right b s u l :
  map fst (payloads b (merge_right s u l)) = (if u : bool then [b + 8] else []) ++ map fst (payloads (b + 8 + s) l).
Proof.
  unfold merge_right. destruct l as [|[s' []] l], u; simpl; try done.
  all: replace (b + 8 + (s + 8 + s')) with (b + 8 + s + 8 + s') by lia; done.
Qed.

Lemma span_merge_right s u l : span (merge_right s u l) = 8 + s + span l.
Proof. unfold merge_right. destruct l as [|[s' []] l]; simpl; lia. Qed.

Lemma payloads_free b l1 s l2 :
  map fst (payloads b (free_blocks l1 s l2)) =
  map fst (payloads b l1) ++ map fst (payloads (b + span l1 + 8 + s) l2).
Proof.
  unfold free_blocks. destruct l1 as [|[s1 u1] l1 _] using rev_ind; simpl.
  - rewrite payloads_merge_right. simpl. by rewrite Z.add_0_r.
  - rewrite last_snoc, removelast_last, !payloads_app, span_app. simpl.
    destruct u1; simpl; rewrite ?payloads_app, ?map_app, ?payloads_merge_right; simpl;
      rewrite ?app_nil_r, ?payloads_merge_right, ?span_app; simpl; repeat (f_equal; try lia).
Qed.

Lemma payloads_resize b n s l s1 l' :
  grow n s l = Some (s1, l') ->
  map fst (payloads b (resize_blocks n s1 l')) = b + 8 :: map fst (payloads (b + 8 + s) l).
Proof.
  intros H. assert (map fst (payloads (b + 8 + s1) l') = map fst (payloads (b + 8 + s) l)) as E.
  { unfold grow in H. destruct (s <? n); [|by simplify_eq].
    destruct l as [|[s' []] l]; try done. destruct (s + s' + 8 <? n); simplify_eq/=. do 2 f_equal. lia. }
  rewrite <- E. unfold resize_blocks. destruct (s1 <? n + 16); simpl; [done|].
  rewrite payloads_merge_right. simpl. do 3 f_equal. lia.
Qed.

Lemma in_live a live l p :
  live ≡ₚ map fst (payloads (ha_base a) l) -> p ∈ live ->
  exists l1 s l2, l = l1 ++ (s, true) :: l2 /\ p = ha_base a + span l1 + 8.
Proof.
  intros HP Hp. rewrite HP in Hp. apply list_elem_of_fmap in Hp as ([p' s] & -> & Hin).
  destruct (payloads_in _ _ _ _ Hin) as (l1 & l2 & -> & ->). eauto.
Qed.

(** Every reachable arena is well formed, and the client's pointers are its used payloads. *)
Lemma reach_inv a live : reach a live -> exists l, client_inv a live l.
Proof using Hw.
  induction 1 as [memory bytes Hm Hm' Hb|a live bytes p a' _ (l & Hinv & Hbase & HP) Hb Halloc
                 |a l1 p l2 a' _ (l & Hinv & Hbase & HP) Hfree|a live p bytes r a' _ (l & Hinv & Hbase & HP) Hp Hb Hbw Hres].
  - eexists. split; [by apply init_ok|]. split; [simpl; lia|done].
  - destruct (arena_alloc_spec w Hw a l bytes Hinv Hb) as [(a1 & Ha1 & Hb1 & Hinv1 & _)|(p1 & s & q & a1 & Hbest & _ & Ha1 & Hbase1 & Hinv1)].
    + rewrite Halloc in Ha1. simplify_eq. exists l. rewrite <- Hb1 in *. done.
    + rewrite Halloc in Ha1. simplify_eq. destruct Hbest as (-> & _).
      exists (p1 ++ split_block (hb_round w (if bytes =? 0 then 1 else bytes)) s true ++ q).
      split; [done|]. split; [lia|]. rewrite Hbase1. destruct (Hinv) as (_ & _ & Ht & _).
      pose proof (tiles_cons_inv _ _ _ _ _ Ht) as (_ & _ & _ & Hok & _). pose proof (span_nonneg _ Hok).
      rewrite (proj2 (Z.eqb_neq _ _)) by lia.
      rewrite (payloads_replace _ _ _ [(s, false)]) by (rewrite span_split_block; simpl; lia).
      destruct (payloads_split_block (ha_base a + span p1) (hb_round w (if bytes =? 0 then 1 else bytes)) s) as [s' ->].
      rewrite payloads_app in HP. simpl in HP. rewrite !map_app in *. simpl.
      rewrite HP, Permutation_middle. do 4 f_equiv. lia.
  - destruct (in_live a _ l p HP) as (k1 & s & k2 & -> & ->); [set_solver|].
    destruct (arena_free_spec a k1 s k2 Hinv) as (a1 & Ha1 & Hbase1 & Hinv1). rewrite Hfree in Ha1. simplify_eq.
    exists (free_blocks k1 s k2). split; [done|]. rewrite Hbase1. split; [done|].
    rewrite payloads_free. rewrite payloads_app, map_app in HP. simpl in HP.
    rewrite <- !Permutation_middle in HP. by apply Permutation_cons_inv in HP.
  - destruct (in_live a _ l p HP Hp) as (k1 & s & k2 & -> & ->).
    pose proof (arena_resize_spec w Hw a k1 s k2 bytes Hinv Hb Hbw) as Hspec. cbv zeta in Hspec.
    destruct (grow _ s k2) as [[s1 k2']|] eqn:Hg.
    + destruct Hspec as (a1 & Ha1 & Hbase1 & _ & Hinv1). rewrite Hres in Ha1. simplify_eq.
      eexists. split; [exact Hinv1|]. rewrite Hbase1. split; [done|].
      rewrite HP, !payloads_app, !map_app, (payloads_resize _ _ _ _ _ _ Hg). done.
    + rewrite Hres in Hspec. simplify_eq. by eexists.
Qed.

Lemma payloads_range b l q s :
  Forall block_ok l -> (q, s) ∈ payloads b l -> b + 8 <= q /\ q + s <= b + span l.
Proof.
  intros Hok Hin. destruct (payloads_in _ _ _ _ Hin) as (l1 & l2 & -> & ->).
  rewrite Forall_app, Forall_cons in Hok. destruct Hok as (H1 & _ & H2).
  rewrite span_app. simpl. pose proof (span_nonneg _ H1). pose proof (span_nonneg _ H2). lia.
Qed.

Lemma block_size_payload a l q s :
  tiles a l -> (q, s) ∈ payloads (ha_base a) l -> hot_arena_block_size a q = Some s.
Proof.
  intros Ht Hin. destruct (payloads_in _ _ _ _ Hin) as (l1 & l2 & -> & ->).
  pose proof (tiles_cons_inv _ _ _ _ _ Ht) as (_ & Hb & _ & _ & [_ Hm] & _ & _ & Hr & _).
  unfold hot_arena_block_size. change HB_HEADER with 8.
  replace (ha_base a + span l1 + 8 - 8) with (ha_base a + span l1) by lia.
  rewrite Hb. simpl. by rewrite HB_SIZE_hdr.
Qed.

Lemma payloads_NoDup b l : Forall block_ok l -> NoDup (map fst (payloads b l)).
Proof.
  intros Hok. revert b. induction Hok as [|[s u] l [Hs _] Hok IH]; intros b; simpl; [constructor|].
  destruct u; simpl; [|apply IH]. constructor; [|apply IH].
  intros ([q sq] & Hq & Hin)%list_elem_of_fmap. simpl in Hs, Hq.
  pose proof (payloads_range _ _ _ _ Hok Hin). lia.
Qed.

(** C4: in an arena set up over 16 bytes or more, below 4 GB, for a client that frees and
    resizes only what it holds and asks to resize to at most [SIZE_MAX - 7] bytes (a larger
    request to resize wraps to 0 when it is rounded, a fault of the code that this statement
    leaves out): after any sequence of such operations the blocks tile the arena with
    correct back links, are aligned and coalesced, [used] counts them, the client's pointers
    are distinct and are exactly the used payloads; and every further allocation of any
    size, free of a block held, or resize of one to at most [SIZE_MAX - 7] bytes returns
    without reading a header that is not there. *)
Theorem arena_reachable a live :
  reach a live ->
  (exists l, arena_inv a l /\ live ≡ₚ map fst (payloads (ha_base a) l)) /\ NoDup live /\
  (forall bytes, 0 <= bytes -> exists r, hot_arena_alloc w a bytes = Some r) /\
  (forall p, p ∈ live -> exists a', hot_arena_free a p = Some a') /\
  (forall p bytes, p ∈ live -> 0 <= bytes -> bytes + 7 < 2 ^ w -> exists r, hot_arena_resize w a p bytes = Some r).
Proof using Hw.
  intros Hr. destruct (reach_inv _ _ Hr) as (l & Hinv & Hbase & HP).
  split; [by exists l|]. split; [|split; [|split]].
  - rewrite HP. destruct Hinv as (_ & _ & (_ & Hok & _) & _). by apply payloads_NoDup.
  - intros bytes Hb. destruct (arena_alloc_spec w Hw a l bytes Hinv Hb) as [(? & ? & _)|(? & ? & ? & ? & _ & _ & ? & _)]; eauto.
  - intros p Hp. destruct (in_live a _ l p HP Hp) as (l1 & s & l2 & -> & ->).
    destruct (arena_free_spec a l1 s l2 Hinv) as (? & ? & _). eauto.
  - intros p bytes Hp Hb Hbw. destruct (in_live a _ l p HP Hp) as (l1 & s & l2 & -> & ->).
    pose proof (arena_resize_spec w Hw a l1 s l2 bytes Hinv Hb Hbw) as H. cbv zeta in H.
    destruct (grow _ _ _) as [[]|]; [destruct H as (? & ? & _)|]; eauto.
Qed.

(** A successful allocation returns an 8-aligned payload of at least the requested size
    inside the arena, disjoint from every payload the client holds, whose sizes stay what they
    were. *)
Theorem alloc_disjoint a live bytes p a' :
  reach a live -> 0 <= bytes -> hot_arena_alloc w a bytes = Some (p, a') -> p <> 0 ->
  exists s, hot_arena_block_size a' p = Some s /\ bytes <= s /\
    ha_base a < p /\ p + s <= ha_end a /\ (p - ha_base a) mod 8 = 0 /\
    forall q, q ∈ live -> exists sq, hot_arena_block_size a q = Some sq /\ hot_arena_block_size a' q = Some sq /\
      (q + sq <= p - 8 \/ p + s <= q - 8).
Proof using Hw.
  intros Hr Hb Ha Hp. destruct (reach_inv _ _ Hr) as (l & Hinv & Hbase & HP).
  destruct (arena_alloc_spec w Hw a l bytes Hinv Hb) as [(a1 & Ha1 & _)|(p1 & s & q1 & a1 & Hbest & Hn & Ha1 & Hbase1 & Hinv1)];
    rewrite Ha in Ha1; simplify_eq.
  destruct Hbest as (-> & Hns & _). destruct Hinv as (_ & _ & Ht & _). destruct Hinv1 as (_ & _ & Ht1 & _).
  pose proof (tiles_cons_inv _ _ _ _ _ Ht) as (_ & _ & _ & Hok1 & _ & Hok2 & Hend & _ & ? & ? & _).
  pose proof (span_mod8 p1 Hok1).
  set (n := hb_round w (if bytes =? 0 then 1 else bytes)) in *. rewrite split_block_eq in Ht1. cbn [app] in Ht1.
  set (s1 := if s <? n + 16 then s else n) in *.
  assert (n <= s1 <= s) as Hs1 by (unfold s1; destruct (Z.ltb_spec s (n + 16)); lia).
  assert (forall q sq, (q, sq) ∈ payloads (ha_base a) (p1 ++ (s, false) :: q1) ->
    (q, sq) ∈ payloads (ha_base a) (p1 ++ (s1, true) :: (if s <? n + 16 then [] else [(s - n - 8, false)]) ++ q1) /\
    (q + sq <= ha_base a + span p1 \/ ha_base a + span p1 + 8 + s + 8 <= q)) as Hother.
  { intros q sq. rewrite !payloads_app. simpl. rewrite !elem_of_app. intros [Hq|Hq].
    - split; [by left|]. left. apply (payloads_range _ _ _ _ Hok1 Hq).
    - split; [|right; apply (payloads_range _ _ _ _ Hok2 Hq)]. right. right. unfold s1.
      destruct (s <? n + 16); simpl; [done|].
      by replace (ha_base a + span p1 + 8 + n + 8 + (s - n - 8)) with (ha_base a + span p1 + 8 + s) by lia. }
  rewrite <- Hbase1 in *. exists s1.
  split; [eapply block_size_payload; [exact Ht1|]; rewrite payloads_app; simpl; set_solver|].
  split; [lia|]. split; [lia|]. split; [lia|]. split; [lia_mod|].
  intros q Hq. rewrite HP in Hq. apply list_elem_of_fmap in Hq as ([q' sq] & -> & Hq). simpl.
  destruct (Hother q' sq Hq) as [Hq' Hdis]. exists sq.
  split; [rewrite Hbase1 in Hq; by eapply block_size_payload|].
  split; [by eapply block_size_payload|]. lia.
Qed.

Lemma all_free_single l : coalesced l -> payloads 0 l = [] -> l <> [] -> exists s, l = [(s, false)].
Proof.
  destruct l as [|[s u] [|[s' u'] l]]; [done| |]; simpl.
  - destruct u; [done|]. eauto.
  - destruct u, u'; simpl; try done. by intros [? _].
Qed.

Lemma payloads_nil b b' l : payloads b l = [] -> payloads b' l = [].
Proof. revert b b'. induction l as [|[s []] l IH]; intros b b'; simpl; [done|done|]. apply IH. Qed.

(** C40: no fragmentation outlives its cause: for a client that frees and resizes only what it
    holds and never asks to resize to more than [SIZE_MAX - 7] bytes, once it holds nothing the
    arena is again one free block, [used] is 0 and any request up to its capacity succeeds. *)
Theorem arena_recovers a bytes :
  reach a [] -> 0 <= bytes <= ha_end a - ha_base a - 8 ->
  arena_inv a [(ha_end a - ha_base a - 8, false)] /\ ha_used a = 0 /\
  exists a', hot_arena_alloc w a bytes = Some (ha_base a + 8, a').
Proof using Hw.
  intros Hr Hb. destruct (reach_inv _ _ Hr) as (l & Hinv & Hbase & HP).
  symmetry in HP. apply Permutation_nil_r in HP. apply fmap_nil_inv, (payloads_nil _ 0) in HP.
  pose proof (Hinv) as (_ & Hlt & (_ & Hok & Hsp & _) & Hco & Hused & _).
  destruct (all_free_single l Hco HP) as [s ->]; [intros ->; simpl in Hsp; lia|]. simpl in Hsp, Hused.
  assert (s = ha_end a - ha_base a - 8) as Es by lia. rewrite Es in Hinv. split; [done|]. split; [lia|].
  destruct (arena_alloc_spec w Hw a _ bytes Hinv) as [(a1 & _ & _ & _ & [Hbig|Hnone])|(p & s' & q & a1 & (Hl & _) & _ & Ha1 & _)]; [lia|lia| |].
  - exfalso. apply (Hnone (ha_end a - ha_base a - 8, false)); [set_solver|]. split; [done|]. simpl.
    apply Forall_cons in Hok as [[Hm0 Hm] _]. simpl in Hm0, Hm.
    assert (2 ^ 32 <= 2 ^ w) by (apply Z.pow_le_mono_r; lia).
    destruct Hinv as (_ & _ & (_ & _ & _ & Hsz) & _). simpl in Hsz.
    destruct (hb_round_spec w Hw (if bytes =? 0 then 1 else bytes)) as (-> & _ & _); destruct (Z.eqb_spec bytes 0); lia_mod.
  - exists a1. rewrite Ha1. destruct p as [|[] [|]]; simplify_eq/=. by rewrite Z.add_0_r.
Qed.
End client.

(** ** A concrete run *)

Definition after_alloc (a : HotArena) (bytes : Z) : HotArena := from_option snd a (hot_arena_alloc 32 a bytes).
Definition after_free (a : HotArena) (p : Z) : HotArena := default a (hot_arena_free a p).

(** A fresh arena of 256 bytes, two allocations of 10 and 20 bytes, and their release. *)
Definition demo0 : HotArena := hot_arena_init 4096 256.
Definition demo1 : HotArena := after_alloc demo0 10.
Definition demo2 : HotArena := after_alloc demo1 20.
Definition demo3 : HotArena := after_free demo2 4104.
Definition demo4 : HotArena := after_free demo3 4128.

Lemma demo1_reach : reach 32 demo1 [4104].
Proof.
  refine (reach_alloc 32 demo0 [] 10 4104 demo1 _ _ _); [|lia|vm_compute; reflexivity].
  apply (reach_init 32 4096 256); lia.
Qed.

Lemma demo2_reach : reach 32 demo2 [4128; 4104].
Proof. refine (reach_alloc 32 demo1 [4104] 20 4128 demo2 demo1_reach _ _); [lia|vm_compute; reflexivity]. Qed.

Lemma demo4_reach : reach 32 demo4 [].
Proof.
  refine (reach_free 32 demo3 [] 4128 [] demo4 _ _); [|vm_compute; reflexivity].
  refine (reach_free 32 demo2 [4128] 4104 [] demo3 demo2_reach _). vm_compute. reflexivity.
Qed.

Lemma arena_reachable_witness : ha_used demo2 = 56 /\ NoDup [4128; 4104] /\
  exists a', hot_arena_free demo2 4104 = Some a'.
Proof.
  split; [vm_compute; reflexivity|].
  destruct (arena_reachable 32 ltac:(lia) demo2 [4128; 4104] demo2_reach) as (_ & Hnd & _ & Hf & _).
  split; [exact Hnd|]. apply Hf. set_solver.
Defined.

Lemma alloc_disjoint_witness :
  exists s, hot_arena_block_size demo2 4128 = Some s /\ 20 <= s /\
    exists sq, hot_arena_block_size demo1 4104 = Some sq /\ (4104 + sq <= 4120 \/ 4128 + s <= 4096).
Proof.
  assert (hot_arena_alloc 32 demo1 20 = Some (4128, demo2)) as Ha by (vm_compute; reflexivity).
  destruct (alloc_disjoint 32 ltac:(lia) demo1 [4104] 20 4128 demo2 demo1_reach ltac:(lia) Ha ltac:(lia))
    as (s & Hs & Hb & _ & _ & _ & Hq).
  exists s. split; [exact Hs|]. split; [exact Hb|].
  destruct (Hq 4104) as (sq & H1 & _ & H2); [set_solver|]. exists sq. split; [exact H1|]. lia.
Defined.

Lemma arena_recovers_witness : ha_used demo4 = 0 /\
  exists a', hot_arena_alloc 32 demo4 248 = Some (ha_base demo4 + 8, a').
Proof.
  assert (ha_end demo4 - ha_base demo4 = 256) as Hsz by (vm_compute; reflexivity).
  destruct (arena_recovers 32 ltac:(lia) demo4 248 demo4_reach ltac:(lia)) as (_ & Hu & Ha).
  split; [exact Hu|exact Ha].
Defined.

(** The request of a resize is rounded in [size_t] without the check the allocation has: a
    request within 7 bytes of [SIZE_MAX] rounds to 0, the block is cut to an empty payload and
    success is reported. *)
Lemma resize_wraps :
  exists a', hot_arena_resize 32 demo1 4104 (2 ^ 32 - 1) = Some (1, a') /\ hot_arena_block_size a' 4104 = Some 0.
Proof.
  exists (from_option snd demo1 (hot_arena_resize 32 demo1 4104 (2 ^ 32 - 1))). split; vm_compute; reflexivity.
Qed.
