(* ===== verification/Vector.v ===== *)
(** * Dynamic arrays ([memory/vector.c])

    The type-erased operations behind the [vector] macros.  A vector is its data block (none
    when the pointer is null), its size and its capacity; the block is the list of its
    [capacity] elements, those past [size] being whatever the memory holds.  The allocator
    [tcc_realloc] (which a host may replace, [tcc_set_realloc]) is a parameter that may fail.

    The theorem: with any allocator that keeps the common prefix, each operation implements
    the operation on lists, and reports failure exactly without having changed the contents. *)

From S2P Require Import Prelude.
From stdpp Require Import list.
Local Open Scope Z_scope.

Record vec (A : Type) := mk_vec { v_data : option (list A); v_size : Z; v_capacity : Z }.
Arguments mk_vec {A}.
Arguments v_data {A}.
Arguments v_size {A}.
Arguments v_capacity {A}.

Section vector.
(** The element type with its all-zero value and its size in bytes, and [SIZE_MAX]. *)
Context {A : Type} (zero : A) (element_size SIZE_MAX : Z).
(** [tcc_realloc(data, n * element_size)]: none on failure. *)
Context (realloc : option (list A) -> Z -> option (list A)).

Definition block_of (d : option (list A)) : list A := default [] d.

(** [memmove(data + dst, data + src, n)] and [memcpy(data + i, value, 1)] on elements. *)
Definition move (d : list A) (dst src n : Z) : list A :=
  take (Z.to_nat dst) d ++ take (Z.to_nat n) (drop (Z.to_nat src) d) ++ drop (Z.to_nat (dst + n)) d.
Definition put (d : list A) (i : Z) (x : A) : list A := <[Z.to_nat i := x]> d.
(** [memset(data + i, 0, n)]. *)
Definition clear (d : list A) (i n : Z) : list A :=
  take (Z.to_nat i) d ++ replicate (Z.to_nat n) zero ++ drop (Z.to_nat (i + n)) d.

(** [vector_init] and [vector_cleanup] (the block is freed). *)
Definition vector_init : vec A := mk_vec None 0 0.
Definition vector_cleanup (v : vec A) : vec A := vector_init.

(** Each operation returns the C result, 0 or -1, and the vector. *)
Definition tcc_vector_reserve_storage (v : vec A) (requested_capacity : Z) : Z * vec A :=
  if requested_capacity <=? v_capacity v then (0, v)
  else if SIZE_MAX / element_size <? requested_capacity then (-1, v)
  else
    match realloc (v_data v) requested_capacity with
    | None => (-1, v)
    | Some data => (0, mk_vec (Some data) (v_size v) requested_capacity)
    end.

(** The doubling loop. *)
Fixpoint grow_loop (fuel : nat) (new_capacity minimum_capacity : Z) : Z :=
  match fuel with
  | O => new_capacity
  | S fuel =>
      if new_capacity <? minimum_capacity then
        if SIZE_MAX / 2 <? new_capacity then minimum_capacity
        else grow_loop fuel (new_capacity * 2) minimum_capacity
      else new_capacity
  end.

Definition tcc_vector_grow_storage (v : vec A) (minimum_capacity : Z) : Z * vec A :=
  if minimum_capacity <=? v_capacity v then (0, v)
  else
    let new_capacity := if v_capacity v =? 0 then 4 else v_capacity v in
    let new_capacity := grow_loop (Z.to_nat minimum_capacity) new_capacity minimum_capacity in
    tcc_vector_reserve_storage v new_capacity.

Definition tcc_vector_resize_storage (v : vec A) (requested_size : Z) : Z * vec A :=
  let old_size := v_size v in
  if old_size <? requested_size then
    let '(r, v) := tcc_vector_grow_storage v requested_size in
    if truth r then (-1, v)
    else
      let data := clear (block_of (v_data v)) old_size (requested_size - old_size) in
      (0, mk_vec (Some data) requested_size (v_capacity v))
  else (0, mk_vec (v_data v) requested_size (v_capacity v)).

Definition tcc_vector_push_back_storage (v : vec A) (value : A) : Z * vec A :=
  if v_size v =? SIZE_MAX then (-1, v)
  else
    let '(r, v) := tcc_vector_grow_storage v (v_size v + 1) in
    if truth r then (-1, v)
    else (0, mk_vec (Some (put (block_of (v_data v)) (v_size v) value)) (v_size v + 1) (v_capacity v)).

(** The value popped, if any, is written through the pointer. *)
Definition tcc_vector_pop_back_storage (v : vec A) : Z * vec A * option A :=
  if v_size v =? 0 then (-1, v, None)
  else
    let size := v_size v - 1 in
    (0, mk_vec (v_data v) size (v_capacity v), block_of (v_data v) !! Z.to_nat size).

Definition tcc_vector_insert_storage (v : vec A) (index : Z) (value : A) : Z * vec A :=
  if (v_size v <? index) || (v_size v =? SIZE_MAX) then (-1, v)
  else
    let '(r, v) := tcc_vector_grow_storage v (v_size v + 1) in
    if truth r then (-1, v)
    else
      let data := move (block_of (v_data v)) (index + 1) index (v_size v - index) in
      (0, mk_vec (Some (put data index value)) (v_size v + 1) (v_capacity v)).

Definition tcc_vector_erase_storage (v : vec A) (index : Z) : Z * vec A :=
  if v_size v <=? index then (-1, v)
  else
    let data := move (block_of (v_data v)) index (index + 1) (v_size v - index - 1) in
    (0, mk_vec (Some data) (v_size v - 1) (v_capacity v)).

Definition tcc_vector_shrink_to_fit_storage (v : vec A) : Z * vec A :=
  if v_size v =? v_capacity v then (0, v)
  else if v_size v =? 0 then (0, mk_vec None (v_size v) 0) (* cleanup, null pointer *)
  else
    match realloc (v_data v) (v_size v) with
    | None => (-1, v)
    | Some data => (0, mk_vec (Some data) (v_size v) (v_size v))
    end.

(** ** Correctness *)

(** [realloc] fails or returns a block of the requested size with the common prefix. *)
Definition realloc_ok : Prop := forall d n d',
  0 < n -> realloc d n = Some d' ->
  Z.of_nat (length d') = n /\
  take (length (block_of d)) d' = take (Z.to_nat n) (block_of d).

Context (Hrealloc : realloc_ok) (Hes : 0 < element_size) (Hmax : 8 <= SIZE_MAX).

(** The vector [v] holds the list [l]. *)
Definition vec_rep (v : vec A) (l : list A) : Prop :=
  v_size v = Z.of_nat (length l) /\ Z.of_nat (length l) <= v_capacity v <= SIZE_MAX /\
  exists rest, block_of (v_data v) = l ++ rest /\
    Z.of_nat (length (l ++ rest)) = v_capacity v.

Lemma grow_loop_spec fuel c m :
  1 <= c -> m <= SIZE_MAX -> c <= SIZE_MAX -> m - c <= Z.of_nat fuel ->
  m <= grow_loop fuel c m <= SIZE_MAX /\ c <= grow_loop fuel c m.
Proof using Hmax.
  revert c. induction fuel as [|fuel IH]; intros c Hc Hm Hcm Hf; cbn [grow_loop]; [lia|].
  destruct (Z.ltb_spec c m) as [Hlt|]; [|lia]. destruct (Z.ltb_spec (SIZE_MAX / 2) c) as [Hbig|Hsmall]; [lia|].
  assert (c * 2 <= SIZE_MAX) by lia_mod. destruct (IH (c * 2)) as [? ?]; lia.
Qed.

(** Growing keeps the contents and makes room, or fails and changes nothing. *)
Lemma reserve_spec v l c :
  vec_rep v l -> c <= SIZE_MAX ->
  exists r v', tcc_vector_reserve_storage v c = (r, v') /\ (r = 0 \/ r = -1) /\
    (r = 0 -> vec_rep v' l /\ c <= v_capacity v') /\ (r = -1 -> v' = v).
Proof using Hrealloc.
  intros (Hs & Hc & rest & Hb & Hl) Hmaxc. unfold tcc_vector_reserve_storage.
  destruct (Z.leb_spec c (v_capacity v)) as [Hle|Hgt].
  { eexists _, _. split; [reflexivity|]. split; [by left|]. split; [|done]. intros _. split; [|done].
    split; [done|]. split; [done|]. eauto. }
  destruct (_ <? c); [eexists _, _; split; [reflexivity|]; split; [by right|done]|].
  destruct (realloc (v_data v) c) as [d|] eqn:Hd; [|eexists _, _; split; [reflexivity|]; split; [by right|done]].
  eexists _, _. split; [reflexivity|]. split; [by left|]. split; [|done]. intros _. split; [|simpl; lia].
  destruct (Hrealloc (v_data v) c d) as [Hlen Hpre]; [lia|done|].
  rewrite Hb, length_app in *.
  rewrite (take_ge (l ++ rest)) in Hpre by (rewrite length_app; lia).
  split; [done|]. split; [simpl; lia|]. simpl.
  exists (rest ++ drop (length l + length rest) d).
  rewrite app_assoc, <- Hpre, take_drop. split; [done|]. lia.
Qed.

Lemma grow_spec v l c :
  vec_rep v l -> c <= SIZE_MAX ->
  exists r v', tcc_vector_grow_storage v c = (r, v') /\ (r = 0 \/ r = -1) /\
    (r = 0 -> vec_rep v' l /\ c <= v_capacity v') /\ (r = -1 -> v' = v).
Proof using Hrealloc Hmax.
  intros Hv Hc. unfold tcc_vector_grow_storage. pose proof (Hv) as (_ & Hcap & _).
  destruct (Z.leb_spec c (v_capacity v)) as [Hle|Hgt].
  { eexists _, _. split; [reflexivity|]. split; [by left|]. split; [|done]. done. }
  set (c0 := if v_capacity v =? 0 then 4 else v_capacity v).
  assert (1 <= c0 <= SIZE_MAX) as Hc0 by (unfold c0; destruct (Z.eqb_spec (v_capacity v) 0); lia).
  destruct (grow_loop_spec (Z.to_nat c) c0 c) as [H1 H2]; [lia..|].
  destruct (reserve_spec v l (grow_loop (Z.to_nat c) c0 c) Hv) as (r & v' & -> & Hr & H0 & Hm); [lia|].
  exists r, v'. split; [done|]. split; [done|]. split; [|done]. intros ->. destruct (H0 eq_refl). split; [done|lia].
Qed.

(** An operation that may fail for lack of memory: the new contents, or no change. *)
Definition outcome (p : Z * vec A) (v : vec A) (l : list A) : Prop :=
  (p.1 = 0 /\ vec_rep p.2 l) \/ (p.1 = -1 /\ p.2 = v).

(** A vector with room for one more element. *)
Lemma rep_room v l : vec_rep v l -> v_size v + 1 <= v_capacity v ->
  exists y rest, block_of (v_data v) = l ++ y :: rest /\ Z.of_nat (length l) + 1 + Z.of_nat (length rest) = v_capacity v.
Proof.
  intros (Hs & Hc & rest & Hb & Hl) Hroom. rewrite length_app in Hl. destruct rest as [|y rest]; simpl in *; [lia|].
  exists y, rest. split; [done|lia].
Qed.

Lemma push_back_spec v l x :
  vec_rep v l -> outcome (tcc_vector_push_back_storage v x) v (l ++ [x]).
Proof using Hrealloc Hmax.
  intros Hv. unfold tcc_vector_push_back_storage, outcome. pose proof (Hv) as (Hs & Hc & _).
  destruct (Z.eqb_spec (v_size v) SIZE_MAX) as [|Hne]; [by right|].
  destruct (grow_spec v l (v_size v + 1) Hv) as (r & v' & -> & [-> | ->] & H0 & Hm); [lia| |right; by rewrite Hm].
  destruct (H0 eq_refl) as [Hv' Hroom]. pose proof (Hv') as (Hs' & Hc' & _). left. split; [done|]. simpl.
  destruct (rep_room v' l Hv') as (y & rest & Hb & Hl); [lia|].
  unfold vec_rep. simpl. rewrite length_app. simpl. split; [lia|]. split; [lia|].
  exists rest. rewrite Hs', Hb. unfold put. rewrite Nat2Z.id, insert_app_r_alt, Nat.sub_diag by lia. simpl.
  split; [list_assoc|]. rewrite !length_app. simpl. lia.
Qed.

Lemma insert_spec v l i x :
  vec_rep v l -> 0 <= i ->
  if v_size v <? i then tcc_vector_insert_storage v i x = (-1, v)
  else outcome (tcc_vector_insert_storage v i x) v (take (Z.to_nat i) l ++ x :: drop (Z.to_nat i) l).
Proof using Hrealloc Hmax.
  intros Hv Hi. unfold tcc_vector_insert_storage, outcome. pose proof (Hv) as (Hs & Hc & _).
  destruct (Z.ltb_spec (v_size v) i) as [|Hle]; [done|]. simpl.
  destruct (Z.eqb_spec (v_size v) SIZE_MAX) as [|Hne]; [by right|].
  destruct (grow_spec v l (v_size v + 1) Hv) as (r & v' & -> & [-> | ->] & H0 & Hm); [lia| |right; by rewrite Hm].
  destruct (H0 eq_refl) as [Hv' Hroom]. pose proof (Hv') as (Hs' & Hc' & _). left. split; [done|]. simpl.
  destruct (rep_room v' l Hv') as (y & rest & Hb & Hl); [lia|].
  destruct (list_split (Z.to_nat i) l) as (l1 & l2 & -> & Hl1); [lia|]. rewrite length_app in *.
  rewrite <- Hl1, take_app_length, drop_app_length.
  assert (put (move (block_of (v_data v')) (i + 1) i (v_size v' - i)) i x = l1 ++ x :: l2 ++ rest) as ->.
  { rewrite Hb. unfold move, put. replace (i + 1 + (v_size v' - i)) with (v_size v' + 1) by lia.
    replace (Z.to_nat (i + 1)) with (length l1 + 1)%nat by lia. replace (Z.to_nat i) with (length l1) by lia.
    replace (Z.to_nat (v_size v' - i)) with (length l2) by lia.
    replace (Z.to_nat (v_size v' + 1)) with (length l1 + length l2 + 1)%nat by lia.
    rewrite <- app_assoc, drop_app_length, take_app_length, take_app_add, <- drop_drop, <- drop_drop, drop_app_length, drop_app_length.
    destruct (l2 ++ y :: rest) as [|z zs] eqn:Ez; [by destruct l2|]. simpl. rewrite take_0, <- app_assoc. simpl.
    by rewrite insert_app_r_alt, Nat.sub_diag by lia. }
  unfold vec_rep. simpl. rewrite length_app. simpl. split; [lia|]. split; [lia|].
  exists rest. split; [list_assoc|]. rewrite !length_app. simpl. lia.
Qed.

Lemma erase_spec v l i :
  vec_rep v l -> 0 <= i ->
  if v_size v <=? i then tcc_vector_erase_storage v i = (-1, v)
  else exists v', tcc_vector_erase_storage v i = (0, v') /\ vec_rep v' (delete (Z.to_nat i) l).
Proof.
  intros (Hs & Hc & rest & Hb & Hl) Hi. unfold tcc_vector_erase_storage.
  destruct (Z.leb_spec (v_size v) i) as [|Hlt]; [done|]. eexists. split; [reflexivity|].
  destruct (list_split (Z.to_nat i) l) as (l1 & l2 & -> & Hl1); [lia|].
  destruct l2 as [|y l2]; rewrite !length_app in *; simpl in *; [lia|].
  rewrite <- Hl1, delete_middle.
  assert (move (block_of (v_data v)) i (i + 1) (v_size v - i - 1) = (l1 ++ l2) ++ drop (length l2) (y :: l2 ++ rest)) as Hm.
  { rewrite Hb. unfold move. replace (i + (v_size v - i - 1)) with (v_size v - 1) by lia.
    replace (Z.to_nat (i + 1)) with (length l1 + 1)%nat by lia. replace (Z.to_nat i) with (length l1) by lia.
    replace (Z.to_nat (v_size v - i - 1)) with (length l2) by lia.
    replace (Z.to_nat (v_size v - 1)) with (length l1 + length l2)%nat by lia.
    rewrite <- (app_assoc l1), take_app_length, <- !drop_drop, !drop_app_length, <- app_assoc. simpl. rewrite drop_0, take_app_length. done. }
  unfold vec_rep. simpl. rewrite Hm, length_app. split; [lia|]. split; [lia|].
  eexists. split; [reflexivity|]. rewrite !length_app, length_drop. simpl. rewrite length_app. lia.
Qed.

Lemma pop_back_spec v l :
  vec_rep v l ->
  match last l with
  | None => tcc_vector_pop_back_storage v = (-1, v, None)
  | Some x => exists v', tcc_vector_pop_back_storage v = (0, v', Some x) /\ vec_rep v' (removelast l)
  end.
Proof.
  intros (Hs & Hc & rest & Hb & Hl). unfold tcc_vector_pop_back_storage.
  destruct l as [|x l _] using rev_ind; [by rewrite Hs|]. rewrite last_snoc, removelast_last.
  rewrite !length_app in *. simpl in *. rewrite (proj2 (Z.eqb_neq _ _)) by lia. eexists. split.
  - rewrite Hb, <- app_assoc. replace (Z.to_nat (v_size v - 1)) with (length l) by lia. simpl.
    by rewrite list_lookup_middle.
  - unfold vec_rep. simpl. split; [lia|]. split; [lia|]. exists (x :: rest). rewrite Hb. split; [list_assoc|].
    rewrite length_app. simpl. lia.
Qed.

Lemma resize_storage_spec v l n :
  vec_rep v l -> 0 <= n <= SIZE_MAX ->
  outcome (tcc_vector_resize_storage v n) v
    (take (Z.to_nat n) l ++ replicate (Z.to_nat n - length l) zero).
Proof using Hrealloc Hmax.
  intros Hv Hn. unfold tcc_vector_resize_storage, outcome. pose proof (Hv) as (Hs & Hc & rest & Hb & Hl).
  destruct (Z.ltb_spec (v_size v) n) as [Hlt|Hge].
  - destruct (grow_spec v l n Hv) as (r & v' & -> & [-> | ->] & H0 & Hm); [lia| |right; by rewrite Hm].
    destruct (H0 eq_refl) as [(Hs' & Hc' & rest' & Hb' & Hl') Hroom]. left. split; [done|]. simpl.
    rewrite take_ge by lia. rewrite length_app in Hl'. unfold vec_rep. simpl. rewrite length_app, length_replicate.
    split; [lia|]. split; [lia|]. exists (drop (Z.to_nat n - length l) rest'). split.
    + rewrite Hb'. unfold clear. rewrite Hs. replace (Z.of_nat (length l) + (n - Z.of_nat (length l))) with n by lia.
      rewrite Nat2Z.id, take_app_length, <- app_assoc. do 2 f_equal; [f_equal; lia|].
      replace (Z.to_nat n) with (length l + (Z.to_nat n - length l))%nat at 1 by lia.
      by rewrite <- drop_drop, drop_app_length.
    + rewrite !length_app, length_replicate, length_drop. lia.
  - left. split; [done|]. simpl. replace (Z.to_nat n - length l)%nat with 0%nat by lia. simpl. rewrite app_nil_r.
    unfold vec_rep. simpl. rewrite length_take. split; [lia|]. split; [lia|].
    exists (drop (Z.to_nat n) l ++ rest). rewrite app_assoc, take_drop. done.
Qed.

Lemma shrink_spec v l :
  vec_rep v l -> outcome (tcc_vector_shrink_to_fit_storage v) v l.
Proof using Hrealloc Hmax.
  intros Hv. unfold tcc_vector_shrink_to_fit_storage, outcome. pose proof (Hv) as (Hs & Hc & rest & Hb & Hl).
  destruct (Z.eqb_spec (v_size v) (v_capacity v)) as [|Hne]; [by left|].
  destruct (Z.eqb_spec (v_size v) 0) as [He|Hne0].
  - left. split; [done|]. destruct l; simpl in *; [|lia]. unfold vec_rep. simpl. split; [lia|]. split; [lia|]. by exists [].
  - destruct (realloc (v_data v) (v_size v)) as [d|] eqn:Hd; [|by right]. left. split; [done|]. simpl.
    destruct (Hrealloc (v_data v) (v_size v) d) as [Hlen Hpre]; [lia|done|].
    rewrite Hb, Hs, Nat2Z.id, take_app_length, take_ge in Hpre by (rewrite length_app; lia).
    unfold vec_rep. simpl. subst d. split; [lia|]. split; [lia|]. exists []. rewrite app_nil_r. split; [done|lia].
Qed.

(** C32: with any allocator that keeps the common prefix, every vector operation implements the
    operation on lists: push, insert, resize and shrink give the new contents or report failure
    and leave the vector unchanged, pop and erase always succeed within bounds, and an index out
    of bounds is reported without change. *)
Theorem vector_implements_list v l i n x :
  vec_rep v l -> 0 <= i -> 0 <= n <= SIZE_MAX ->
  outcome (tcc_vector_push_back_storage v x) v (l ++ [x]) /\
  (if v_size v <? i then tcc_vector_insert_storage v i x = (-1, v)
   else outcome (tcc_vector_insert_storage v i x) v (take (Z.to_nat i) l ++ x :: drop (Z.to_nat i) l)) /\
  (if v_size v <=? i then tcc_vector_erase_storage v i = (-1, v)
   else exists v', tcc_vector_erase_storage v i = (0, v') /\ vec_rep v' (delete (Z.to_nat i) l)) /\
  match last l with
  | None => tcc_vector_pop_back_storage v = (-1, v, None)
  | Some y => exists v', tcc_vector_pop_back_storage v = (0, v', Some y) /\ vec_rep v' (removelast l)
  end /\
  outcome (tcc_vector_resize_storage v n) v (take (Z.to_nat n) l ++ replicate (Z.to_nat n - length l) zero) /\
  outcome (tcc_vector_shrink_to_fit_storage v) v l.
Proof using Hrealloc Hmax.
  intros Hv Hi Hn. split; [by apply push_back_spec|]. split; [by apply insert_spec|]. split; [by apply erase_spec|].
  split; [by apply pop_back_spec|]. split; [by apply resize_storage_spec|by apply shrink_spec].
Qed.
End vector.

(** An allocator that fails above 64 elements, and what it gives on a small vector. *)
Definition small_realloc (d : option (list Z)) (n : Z) : option (list Z) :=
  if n <=? 64 then
    let old := take (Z.to_nat n) (default [] d) in Some (old ++ replicate (Z.to_nat n - length old) 170)
  else None.

Lemma small_realloc_ok : realloc_ok small_realloc.
Proof.
  intros d n d' Hn. unfold small_realloc, block_of. destruct (n <=? 64); [|done]. intros [= <-].
  rewrite length_app, length_replicate, length_take. split; [lia|].
  destruct (decide (Z.to_nat n <= length (default [] d))%nat).
  - replace (Z.to_nat n - _)%nat with 0%nat by lia. simpl. rewrite app_nil_r.
    rewrite take_ge; [done|]. rewrite length_take. lia.
  - rewrite (take_ge (default [] d) (Z.to_nat n)) by lia. apply take_app_length.
Qed.

Lemma vector_implements_list_witness :
  let v := mk_vec (Some [5; 6; 7; 170]) 3 4 in
  vec_rep (2 ^ 32 - 1) v [5; 6; 7] /\
  tcc_vector_insert_storage 4 (2 ^ 32 - 1) small_realloc v 1 9 = (0, mk_vec (Some [5; 9; 6; 7]) 4 4) /\
  outcome (2 ^ 32 - 1) (tcc_vector_push_back_storage 4 (2 ^ 32 - 1) small_realloc v 8) v [5; 6; 7; 8] /\
  outcome (2 ^ 32 - 1) (tcc_vector_resize_storage 0 4 (2 ^ 32 - 1) small_realloc v 100) v
    ([5; 6; 7] ++ replicate 97 0).
Proof.
  assert (vec_rep (2 ^ 32 - 1) (mk_vec (Some [5; 6; 7; 170]) 3 4) [5; 6; 7]) as Hv.
  { split; [done|]. split; [simpl; lia|]. by exists [170]. }
  split; [exact Hv|]. split; [vm_compute; reflexivity|].
  destruct (vector_implements_list 0 4 (2 ^ 32 - 1) small_realloc small_realloc_ok ltac:(lia)
              (mk_vec (Some [5; 6; 7; 170]) 3 4) [5; 6; 7] 1 100 8 Hv ltac:(lia) ltac:(lia)) as (H1 & _ & _ & _ & H2 & _).
  split; [exact H1|exact H2].
Defined.
