(* ===== verification/UniquePtr.v ===== *)
(** * Scope-owned pointers ([memory/unique_ptr.c])

    An owner is a cell that holds a pointer, null when it owns nothing.  The state has the
    cells and the allocations that are live; freeing what is not live, in particular freeing
    twice, is [None].  The theorem: along any sequence of the operations, no two owners hold
    the same allocation, nothing is freed twice, and every live allocation still has an owner
    or was handed out by [release]. *)

From S2P Require Import Prelude.
From stdpp Require Import gmap.
Local Open Scope Z_scope.

Record owners := mk_owners { cells : gmap Z Z; heap : gset Z }.

Definition tcc_unique_ptr_load (st : owners) (owner : Z) : Z := default 0 (cells st !! owner).
Definition tcc_unique_ptr_store (st : owners) (owner value : Z) : owners :=
  mk_owners (<[owner := value]> (cells st)) (heap st).

(** [tcc_free]: freeing null does nothing. *)
Definition tcc_free (st : owners) (p : Z) : option owners :=
  if p =? 0 then Some st
  else if bool_decide (p ∈ heap st) then Some (mk_owners (cells st) (heap st ∖ {[p]})) else None.

Definition tcc_unique_ptr_release (st : owners) (owner : Z) : Z * owners :=
  let value := tcc_unique_ptr_load st owner in (value, tcc_unique_ptr_store st owner 0).

Definition tcc_unique_ptr_reset (st : owners) (owner value : Z) : option owners :=
  let old_value := tcc_unique_ptr_load st owner in
  if old_value =? value then Some st
  else tcc_free (tcc_unique_ptr_store st owner value) old_value.

Definition tcc_unique_ptr_move (st : owners) (destination source : Z) : option owners :=
  if destination =? source then Some st
  else
    let '(value, st) := tcc_unique_ptr_release st source in
    tcc_unique_ptr_reset st destination value.

Definition tcc_unique_ptr_cleanup (st : owners) (owner : Z) : option owners :=
  let '(value, st) := tcc_unique_ptr_release st owner in tcc_free st value.

(** ** The protocol *)

(** A client's steps; [loose] are the allocations it holds itself: fresh ones and those it
    took back with [release]. *)
Inductive owner_step : owners * gset Z -> option (owners * gset Z) -> Prop :=
| step_malloc st loose p :
    p <> 0 -> p ∉ heap st -> owner_step (st, loose) (Some (mk_owners (cells st) ({[p]} ∪ heap st), {[p]} ∪ loose))
| step_release st loose o :
    owner_step (st, loose)
      (let '(p, st') := tcc_unique_ptr_release st o in
       Some (st', if p =? 0 then loose else {[p]} ∪ loose))
| step_reset st loose o p :
    p = 0 \/ p ∈ loose ->
    owner_step (st, loose) (st' ← tcc_unique_ptr_reset st o p; Some (st', loose ∖ {[p]}))
| step_move st loose d s :
    owner_step (st, loose) (st' ← tcc_unique_ptr_move st d s; Some (st', loose))
| step_cleanup st loose o :
    owner_step (st, loose) (st' ← tcc_unique_ptr_cleanup st o; Some (st', loose)).

(** Every live allocation is loose or has exactly one owner. *)
Definition owner_inv (st : owners) (loose : gset Z) : Prop :=
  (forall o p, tcc_unique_ptr_load st o = p -> p <> 0 -> p ∈ heap st /\ p ∉ loose) /\
  (forall o o' p, tcc_unique_ptr_load st o = p -> tcc_unique_ptr_load st o' = p -> p <> 0 -> o = o') /\
  (forall p, p ∈ heap st -> p ∈ loose \/ exists o, tcc_unique_ptr_load st o = p) /\
  loose ⊆ heap st /\ 0 ∉ heap st.

Lemma load_store st o v o' :
  tcc_unique_ptr_load (tcc_unique_ptr_store st o v) o' = if decide (o = o') then v else tcc_unique_ptr_load st o'.
Proof.
  unfold tcc_unique_ptr_load, tcc_unique_ptr_store. simpl. case_decide as H; [subst; by rewrite lookup_insert_eq|].
  by rewrite lookup_insert_ne.
Qed.

Lemma load_free st p st' o : tcc_free st p = Some st' -> tcc_unique_ptr_load st' o = tcc_unique_ptr_load st o.
Proof. unfold tcc_free. destruct (p =? 0); [by intros [= <-]|]. case_bool_decide; [by intros [= <-]|done]. Qed.

(** Giving an owner's allocation back to the client. *)
Lemma release_inv st loose o p st' :
  owner_inv st loose -> tcc_unique_ptr_release st o = (p, st') ->
  owner_inv st' (if p =? 0 then loose else {[p]} ∪ loose) /\ (p = 0 \/ p ∈ heap st' /\ p ∉ loose) /\
  tcc_unique_ptr_load st' o = 0.
Proof.
  intros (H1 & H2 & H3 & H4 & H5) [= <- <-]. set (p := tcc_unique_ptr_load st o).
  split; [|split; [|rewrite load_store; by case_decide]].
  2:{ destruct (decide (p = 0)); [by left|]. right. by apply (H1 o). }
  split; [|split; [|split; [|split]]].
  - intros o' q. rewrite load_store. case_decide as Ho; [by intros <-|]. intros Hq Hq0.
    destruct (H1 _ _ Hq Hq0) as [? ?]. split; [done|]. destruct (Z.eqb_spec p 0); [done|].
    intros [->%elem_of_singleton|]%elem_of_union; [|done]. by apply Ho, (H2 o o' p).
  - intros o1 o2 q. rewrite !load_store. case_decide; case_decide; try (by intros; subst); try (by intros <-).
    intros Hq1 Hq2 Hq. by apply (H2 o1 o2 q).
  - intros q Hq. simpl in Hq. destruct (H3 q Hq) as [|[o' Ho']]; [left; destruct (p =? 0); set_solver|].
    destruct (decide (o = o')) as [<-|Hne].
    + left. unfold p. rewrite Ho'. rewrite (proj2 (Z.eqb_neq _ _)) by (intros ->; done). set_solver.
    + right. exists o'. rewrite load_store. by case_decide.
  - simpl. destruct (Z.eqb_spec p 0); [done|]. destruct (H1 o p eq_refl); [done|]. set_solver.
  - done.
Qed.

(** An empty owner takes a loose allocation. *)
Lemma store_inv st loose o p :
  owner_inv st loose -> tcc_unique_ptr_load st o = 0 -> p = 0 \/ p ∈ loose ->
  owner_inv (tcc_unique_ptr_store st o p) (loose ∖ {[p]}).
Proof.
  intros (H1 & H2 & H3 & H4 & H5) Ho Hp.
  assert (forall o', tcc_unique_ptr_load st o' = p -> p <> 0 -> False) as Hfresh.
  { intros o' Ho' Hne. destruct (H1 o' p Ho' Hne). destruct Hp; done. }
  split; [|split; [|split; [|split]]].
  - intros o' q. rewrite load_store. case_decide as E; [intros <- Hq; split; set_solver|].
    intros Hq Hq0. destruct (H1 _ _ Hq Hq0). split; [done|set_solver].
  - intros o1 o2 q. rewrite !load_store. case_decide; case_decide; try (by intros; subst).
    + intros <- Hq Hne. destruct (Hfresh _ Hq Hne).
    + intros Hq <- Hne. destruct (Hfresh _ Hq Hne).
    + apply H2.
  - intros q Hq. simpl in Hq. destruct (decide (q = p)) as [->|Hne].
    + right. exists o. rewrite load_store. by case_decide.
    + destruct (H3 q Hq) as [|[o' Ho']]; [left; set_solver|]. right. exists o'. rewrite load_store.
      case_decide as E; [|done]. subst o'. by rewrite Ho' in Ho; subst.
  - simpl. set_solver.
  - done.
Qed.

(** Freeing a loose allocation. *)
Lemma free_loose st loose p :
  owner_inv st loose -> p <> 0 -> p ∈ loose ->
  exists st', tcc_free st p = Some st' /\ owner_inv st' (loose ∖ {[p]}).
Proof.
  intros (H1 & H2 & H3 & H4 & H5) Hp Hin. unfold tcc_free. rewrite (proj2 (Z.eqb_neq _ _)) by done.
  rewrite bool_decide_eq_true_2 by set_solver. eexists. split; [done|].
  split; [|split; [|split; [|split]]]; simpl.
  - intros o q Hq Hq0. destruct (H1 o q Hq Hq0). split; set_solver.
  - intros o o' q Hq. by apply H2.
  - intros q [Hq Hqp]%elem_of_difference. destruct (H3 q Hq); [left; set_solver|by right].
  - set_solver.
  - set_solver.
Qed.

Lemma store_store st o v v' : tcc_unique_ptr_store (tcc_unique_ptr_store st o v) o v' = tcc_unique_ptr_store st o v'.
Proof. unfold tcc_unique_ptr_store. simpl. by rewrite insert_insert_eq. Qed.

Lemma reset_inv st loose o p :
  owner_inv st loose -> p = 0 \/ p ∈ loose ->
  exists st', tcc_unique_ptr_reset st o p = Some st' /\ owner_inv st' (loose ∖ {[p]}).
Proof.
  intros Hinv Hp. unfold tcc_unique_ptr_reset. pose proof (Hinv) as (H1 & _ & _ & H4 & H5).
  set (old := tcc_unique_ptr_load st o). destruct (Z.eqb_spec old p) as [He|Hne].
  - exists st. split; [done|]. assert (p = 0) as ->.
    { destruct Hp as [|Hp]; [done|]. destruct (decide (p = 0)); [done|]. by destruct (H1 o p He). }
    assert (loose ∖ {[0]} = loose) as -> by set_solver. done.
  - destruct (release_inv st loose o old (tcc_unique_ptr_store st o 0) Hinv) as (Hinv1 & Hold & Hl); [done|].
    rewrite <- (store_store st o 0 p). unfold tcc_free at 1. destruct (Z.eqb_spec old 0) as [H0|H0].
    + eexists. split; [done|]. by apply store_inv.
    + apply (store_inv _ _ o p) in Hinv1; [|done|set_solver].
      apply (free_loose _ _ old) in Hinv1 as (st' & Hf & Hinv'); [|done|set_solver].
      exists st'. unfold tcc_free in Hf. rewrite (proj2 (Z.eqb_neq _ _)) in Hf by done. split; [done|].
      replace (loose ∖ {[p]}) with (({[old]} ∪ loose) ∖ {[p]} ∖ {[old]}) by set_solver. done.
Qed.

Lemma move_inv st loose d s :
  owner_inv st loose -> exists st', tcc_unique_ptr_move st d s = Some st' /\ owner_inv st' loose.
Proof.
  intros Hinv. unfold tcc_unique_ptr_move. destruct (Z.eqb_spec d s) as [|Hne]; [by exists st|].
  destruct (tcc_unique_ptr_release st s) as [p st1] eqn:Hr.
  destruct (release_inv _ _ _ _ _ Hinv Hr) as (Hinv1 & Hp & _). pose proof (Hinv) as (_ & _ & _ & H4 & H5).
  destruct (reset_inv st1 _ d p Hinv1) as (st' & Hs & Hinv').
  { destruct (Z.eqb_spec p 0); [by left|right; set_solver]. }
  exists st'. split; [done|]. destruct (Z.eqb_spec p 0) as [->|].
  - by replace (loose ∖ {[0]}) with loose in Hinv' by set_solver.
  - replace (({[p]} ∪ loose) ∖ {[p]}) with loose in Hinv' by (destruct Hp; set_solver). done.
Qed.

Lemma cleanup_inv st loose o :
  owner_inv st loose -> exists st', tcc_unique_ptr_cleanup st o = Some st' /\ owner_inv st' loose /\
    tcc_unique_ptr_load st' o = 0.
Proof.
  intros Hinv. unfold tcc_unique_ptr_cleanup.
  destruct (tcc_unique_ptr_release st o) as [p st1] eqn:Hr.
  destruct (release_inv _ _ _ _ _ Hinv Hr) as (Hinv1 & Hp & Hl).
  destruct (Z.eqb_spec p 0) as [->|Hne].
  - exists st1. done.
  - destruct (free_loose st1 _ p Hinv1) as (st' & Hf & Hinv'); [done|set_solver|].
    exists st'. split; [done|]. split; [|by rewrite (load_free _ _ _ _ Hf)].
    replace (({[p]} ∪ loose) ∖ {[p]}) with loose in Hinv' by (destruct Hp; set_solver). done.
Qed.

(** From any state in which every live allocation has exactly one owner or is held by the
    client, every step a client can take succeeds, so nothing is freed twice or without being
    live, and leads to such a state again, so nothing leaks; a cleaned-up owner owns nothing. *)
Theorem owner_step_safe st loose r :
  owner_inv st loose -> owner_step (st, loose) r ->
  exists st' loose', r = Some (st', loose') /\ owner_inv st' loose'.
Proof.
  intros Hinv Hstep. inversion Hstep as [? ? p Hp Hn|? ? o|? ? o p Hp|? ? d s|? ? o]; subst.
  - eexists _, _. split; [done|]. destruct Hinv as (H1 & H2 & H3 & H4 & H5).
    split; [|split; [|split; [|split]]]; simpl.
    + intros o q Hq Hq0. destruct (H1 o q Hq Hq0). split; set_solver.
    + apply H2.
    + intros q [->%elem_of_singleton|Hq]%elem_of_union; [left; set_solver|].
      destruct (H3 q Hq); [left; set_solver|by right].
    + set_solver.
    + set_solver.
  - destruct (tcc_unique_ptr_release st o) as [p st1] eqn:Hr. eexists _, _. split; [done|].
    by eapply release_inv.
  - destruct (reset_inv st loose o p Hinv Hp) as (st' & -> & ?). simpl. eauto.
  - destruct (move_inv st loose d s Hinv) as (st' & -> & ?). simpl. eauto.
  - destruct (cleanup_inv st loose o Hinv) as (st' & -> & ? & _). simpl. eauto.
Qed.

Lemma owner_step_safe_witness :
  let st := mk_owners {[ 100 := 7; 104 := 0 ]} {[ 7; 9 ]} in
  exists st', tcc_unique_ptr_reset st 100 9 = Some st' /\ owner_inv st' ({[ 9 ]} ∖ {[ 9 ]}).
Proof.
  assert (owner_inv (mk_owners {[ 100 := 7; 104 := 0 ]} {[ 7; 9 ]}) {[ 9 ]}) as Hinv.
  { assert (forall o p, tcc_unique_ptr_load (mk_owners {[ 100 := 7; 104 := 0 ]} {[ 7; 9 ]}) o = p -> p <> 0 ->
              o = 100 /\ p = 7) as Hl.
    { intros o p <-. unfold tcc_unique_ptr_load. simpl.
      destruct (decide (o = 100)) as [->|H1]; [done|]. rewrite lookup_insert_ne by done.
      destruct (decide (o = 104)) as [->|H2]; [by rewrite lookup_singleton_eq|].
      by rewrite lookup_singleton_ne by done. }
    split; [|split; [|split; [|split]]]; simpl; [| | |set_solver|set_solver].
    - intros o p Ho Hp. destruct (Hl o p Ho Hp) as [-> ->]. split; set_solver.
    - intros o o' p Ho Ho' Hp. destruct (Hl o p Ho Hp), (Hl o' p Ho' Hp). congruence.
    - intros p Hp. assert (p = 7 \/ p = 9) as [-> | ->] by set_solver; [right; by exists 100|left; set_solver]. }
  set (st := mk_owners {[ 100 := 7; 104 := 0 ]} {[ 7; 9 ]}) in *. intros st0.
  assert (9 = 0 \/ 9 ∈ ({[ 9 ]} : gset Z)) as H9 by (right; set_solver).
  destruct (owner_step_safe st {[ 9 ]} _ Hinv (step_reset st {[ 9 ]} 100 9 H9)) as (st' & loose' & He & H).
  fold st in st0. subst st0. destruct (tcc_unique_ptr_reset st 100 9) as [st1|]; [|discriminate He].
  injection He as <- <-. exists st1. split; [reflexivity|exact H].
Defined.
