(* ===== verification/Bytes.v ===== *)
(** * Byte memory and the little-endian accessors of [tcctools.c]

    The buffers of the linker (section data, relocation targets) are bytes in one
    host memory, addressed by integers: two pointers into the same section alias,
    as they do in the source.  A [uint16_t] access through a cast pointer is the
    little-endian one (the code assumes a little-endian host). *)

From S2P Require Import Prelude BitReflect.
Local Open Scope Z_scope.
Local Open Scope c_scope.

Definition mem := Z -> Z.

(** Every cell holds a byte. *)
Definition mem_ok (m : mem) : Prop := forall a, 0 <= m a < 256.

Definition set_byte (m : mem) (p x : Z) : mem := fun a => if Z.eqb a p then u8 x else m a.

Definition read16le (m : mem) (p : Z) : Z := m p ||| Z.shiftl (m (p + 1)) 8.

Definition write16le (m : mem) (p x : Z) : mem :=
  set_byte (set_byte m p (x &&& 255)) (p + 1) ((x >>> 8) &&& 255).

Definition read32le (m : mem) (p : Z) : Z :=
  read16le m p ||| Z.shiftl (read16le m (p + 2)) 16.

Definition write32le (m : mem) (p x : Z) : mem :=
  write16le (write16le m p (u16 x)) (p + 2) (u16 (x >>> 16)).

Definition add32le (m : mem) (p x : Z) : mem := write32le m p (u32 (read32le m p + x)).

(** [m'] differs from [m] at most in the [n] bytes from [p]. *)
Definition only_changes (m m' : mem) (p n : Z) : Prop := forall a, ~ (p <= a < p + n) -> m' a = m a.

(** ** Bounds *)

Lemma set_byte_ok m p x : mem_ok m -> mem_ok (set_byte m p x).
Proof. intros Hm a. unfold set_byte. case_match; [apply u8_bound|apply Hm]. Qed.

Lemma write16_ok m p x : mem_ok m -> mem_ok (write16le m p x).
Proof. intros Hm. by do 2 apply set_byte_ok. Qed.

Lemma write32_ok m p x : mem_ok m -> mem_ok (write32le m p x).
Proof. intros Hm. by do 2 apply write16_ok. Qed.

Lemma add32_ok m p x : mem_ok m -> mem_ok (add32le m p x).
Proof. apply write32_ok. Qed.

Lemma read16_bound m p : mem_ok m -> 0 <= read16le m p < 2 ^ 16.
Proof.
  intros Hm. pose proof (Hm p). pose proof (Hm (p + 1)). unfold read16le.
  apply (lor_bound 16); [lia..|]. rewrite Z.shiftl_mul_pow2 by lia. lia.
Qed.

Lemma read32_bound m p : mem_ok m -> 0 <= read32le m p < 2 ^ 32.
Proof.
  intros Hm. pose proof (read16_bound m p Hm). pose proof (read16_bound m (p + 2) Hm).
  unfold read32le. apply (lor_bound 32); [lia..|]. rewrite Z.shiftl_mul_pow2 by lia. lia.
Qed.

(** ** Reading what was written *)

Lemma set_byte_same m p x : set_byte m p x p = u8 x.
Proof. unfold set_byte. by rewrite Z.eqb_refl. Qed.

Lemma set_byte_other m p x a : a <> p -> set_byte m p x a = m a.
Proof. unfold set_byte. intros ?%Z.eqb_neq. by case_match. Qed.

Lemma read16_ext m m' p : m' p = m p -> m' (p + 1) = m (p + 1) -> read16le m' p = read16le m p.
Proof. unfold read16le. by intros -> ->. Qed.

Lemma read32_ext m m' p :
  (forall a, p <= a < p + 4 -> m' a = m a) -> read32le m' p = read32le m p.
Proof. intros H. unfold read32le. by rewrite !(read16_ext m m') by (apply H; lia). Qed.

Lemma read16_write16 m p x : read16le (write16le m p x) p = u16 x.
Proof.
  unfold read16le, write16le. rewrite set_byte_same, set_byte_other, set_byte_same by lia.
  unfold u8, u16.
  apply Z.bits_inj'. intros i Hi. change 255 with (Z.ones 8).
  rewrite Z.lor_spec, !Z.land_spec, Z.shiftl_spec, !Z.land_spec by lia.
  rewrite (Z.testbit_ones_nonneg 8 i), (Z.testbit_ones_nonneg 16 i) by lia.
  destruct (decide (i < 8)).
  - rewrite !(Z.testbit_neg_r _ (i - 8)) by lia.
    destruct (Z.ltb_spec i 8), (Z.ltb_spec i 16); try lia. by destruct (Z.testbit x i).
  - rewrite Z.shiftr_spec, (Z.testbit_ones_nonneg 8 (i - 8)) by lia.
    replace (i - 8 + 8) with i by lia.
    destruct (Z.ltb_spec i 8), (Z.ltb_spec (i - 8) 8), (Z.ltb_spec i 16); try lia;
      by destruct (Z.testbit x i).
Qed.

Lemma write16_other m p x a : ~ (p <= a < p + 2) -> write16le m p x a = m a.
Proof. intros H. unfold write16le. by rewrite !set_byte_other by lia. Qed.

Lemma read16_write16_other m p q x :
  q + 2 <= p \/ p + 2 <= q -> read16le (write16le m p x) q = read16le m q.
Proof. intros H. apply read16_ext; apply write16_other; lia. Qed.

Lemma write32_other m p x a : ~ (p <= a < p + 4) -> write32le m p x a = m a.
Proof. intros H. unfold write32le. by rewrite !write16_other by lia. Qed.

Lemma read16_write32_lo m p x : read16le (write32le m p x) p = u16 x.
Proof.
  unfold write32le. rewrite read16_write16_other, read16_write16 by lia.
  unfold u16. by rewrite <-Z.land_assoc, Z.land_diag.
Qed.

Lemma read16_write32_hi m p x : read16le (write32le m p x) (p + 2) = u16 (x >>> 16).
Proof.
  unfold write32le. rewrite read16_write16. unfold u16. by rewrite <-Z.land_assoc, Z.land_diag.
Qed.

Lemma halves x : 0 <= x < 2 ^ 32 -> u16 x ||| Z.shiftl (u16 (x >>> 16)) 16 = x.
Proof. intros. bit_solve. Qed.

Lemma read32_write32 m p x : 0 <= x < 2 ^ 32 -> read32le (write32le m p x) p = x.
Proof.
  intros Hx. unfold read32le. rewrite read16_write32_lo, read16_write32_hi. by apply halves.
Qed.

Lemma read32_add32 m p x : read32le (add32le m p x) p = u32 (read32le m p + x).
Proof. apply read32_write32, u32_bound. Qed.

Lemma read32_other m m' p n q :
  only_changes m m' p n -> q + 4 <= p \/ p + n <= q -> read32le m' q = read32le m q.
Proof. intros H Hq. apply read32_ext. intros a Ha. apply H. lia. Qed.

Lemma read16_other m m' p n q :
  only_changes m m' p n -> q + 2 <= p \/ p + n <= q -> read16le m' q = read16le m q.
Proof. intros H Hq. apply read16_ext; apply H; lia. Qed.

(** ** Frames *)

Lemma only_changes_refl m p n : only_changes m m p n.
Proof. done. Qed.

Lemma only_changes_trans m1 m2 m3 p n :
  only_changes m1 m2 p n -> only_changes m2 m3 p n -> only_changes m1 m3 p n.
Proof. intros H1 H2 a Ha. by rewrite H2, H1. Qed.

Lemma only_changes_weaken m m' p n q k :
  only_changes m m' q k -> p <= q -> q + k <= p + n -> only_changes m m' p n.
Proof. intros H H1 H2 a Ha. apply H. lia. Qed.

Lemma write16_only m p x q n : p <= q -> q + 2 <= p + n -> only_changes m (write16le m q x) p n.
Proof. intros H1 H2 a Ha. apply write16_other. lia. Qed.

Lemma write32_only m p x q n : p <= q -> q + 4 <= p + n -> only_changes m (write32le m q x) p n.
Proof. intros H1 H2 a Ha. apply write32_other. lia. Qed.

Create HintDb bytes.
#[export] Hint Resolve set_byte_ok write16_ok write32_ok add32_ok read16_bound read32_bound
  only_changes_refl : bytes.
