(* ===== verification/ElfSym.v ===== *)
(** * The ELF symbol table and its hash ([tccelf_sym.c])

    A symbol table is an array of symbols with a System V hash section: bucket
    heads and, per symbol, the next symbol of its bucket, with the full hash values
    cached beside.  Names are strings (the string table's contents). *)

From S2P Require Import Prelude BitReflect.
From stdpp Require Import list strings.
From Stdlib Require Ascii.
Local Open Scope Z_scope.
Local Open Scope c_scope.

Record Sym := mk_sym {
  st_name : string;
  st_value : Z;
  st_size : Z;
  st_bind : Z;      (* ST_BIND(st_info) *)
  st_type : Z;      (* ST_TYPE(st_info) *)
  st_other : Z;
  st_shndx : Z
}.

#[global] Instance sym_eq_dec : EqDecision Sym.
Proof. solve_decision. Defined.

Definition SHN_UNDEF : Z := 0.
Definition SHN_LORESERVE : Z := 0xff00.
Definition SHN_ABS : Z := 0xfff1.
Definition SHN_COMMON : Z := 0xfff2.
Definition STB_LOCAL : Z := 0.
Definition STB_GLOBAL : Z := 1.
Definition STB_WEAK : Z := 2.
Definition STV_DEFAULT : Z := 0.
Definition STV_INTERNAL : Z := 1.
Definition STV_HIDDEN : Z := 2.
Definition ST_ASM_SET : Z := 0x04.
Definition ST_VISIBILITY (other : Z) : Z := other &&& 0x03.

Definition no_name : string := String.EmptyString.
Definition no_sym : Sym := mk_sym no_name 0 0 0 0 0 0.

(** [data] is the hash section as an [int] array: bucket count, chain count, the
    bucket heads, the chain; [hcache] is [hash_val_cache], absent at first. *)
Record SymTab := mk_symtab {
  syms : list Sym;
  hash_data : list Z;
  hcache : option (list Z);
  nb_hashed_syms : Z;
  is_dynsym : bool;         (* SHF_DYNSYM *)
  is_symtab : bool;         (* s == s1->symtab *)
  undef_sym_list : list Z;  (* s1->undef_sym_list, as filled through this table *)
  new_undef_sym : bool      (* s1->new_undef_sym *)
}.

Definition byte_of (c : Ascii.ascii) : Z := Z.of_N (Ascii.N_of_ascii c).

(** [elf_hash], on 32-bit words. *)
Definition hash_step (h : Z) (c : Ascii.ascii) : Z :=
  let h := u32 ((h <<< 4) + byte_of c) in
  let g := h &&& 0xf0000000 in
  let h := if truth g then h ^^^ (g >>> 24) else h in
  h &&& (~~~ g).

Fixpoint elf_hash_from (h : Z) (name : string) : Z :=
  match name with
  | String.EmptyString => h
  | String.String c name => elf_hash_from (hash_step h c) name
  end.

Definition elf_hash (name : string) : Z := elf_hash_from 0 name.

(** ** Building the hash *)

Definition is_local (s : Sym) : bool := Z.eqb (st_bind s) STB_LOCAL.

(** The loop of [rebuild_hash]: symbol [i] and the following, with the bucket
    heads, the chain and the cached hashes written so far. *)
Fixpoint rebuild_loop (nb : Z) (l : list Sym) (i : Z) (hash chain cache : list Z) : list Z * list Z * list Z :=
  match l with
  | [] => (hash, chain, cache)
  | sym :: l =>
      if negb (is_local sym) then
        let full_hash := elf_hash (st_name sym) in
        let h := full_hash mod nb in
        rebuild_loop nb l (i + 1) (set_int hash h i) (chain ++ [int_at hash h]) (cache ++ [full_hash])
      else rebuild_loop nb l (i + 1) hash (chain ++ [0]) (cache ++ [0])
  end.

(** [nb_buckets] is never 0 at the call in [put_elf_sym]; 0 keeps the count. *)
Definition rebuild_hash (t : SymTab) (nb_buckets : Z) : SymTab :=
  let nb := if Z.eqb nb_buckets 0 then int_at (hash_data t) 0 else nb_buckets in
  let nb_syms := Z.of_nat (length (syms t)) in
  let '(hash, chain, cache) := rebuild_loop nb (tail (syms t)) 1 (replicate (Z.to_nat nb) 0) [0] [0] in
  mk_symtab (syms t) ([nb; nb_syms] ++ hash ++ chain) (Some cache) (nb_hashed_syms t)
    (is_dynsym t) (is_symtab t) (undef_sym_list t) (new_undef_sym t).

(** A name whose first byte cannot start a symbol is dropped. *)
Definition checked_name (name : string) : string :=
  match name with
  | String.EmptyString => no_name
  | String.String c _ =>
      let first := byte_of c in
      if Z.ltb first 0x20 || (Z.ltb 0x7e first && Z.ltb first 0xc2) || Z.ltb 0xf4 first then no_name else name
  end.

(** [hash_val_cache[i] = h], growing by steps of 16. *)
Definition cache_store (cache : option (list Z)) (i h : Z) : list Z :=
  let c := default [] cache in
  let alloc := Z.of_nat (length c) in
  let c := if Z.leb alloc i then c ++ replicate (Z.to_nat (((i + 16) &&& Z.lnot 15) - alloc)) 0 else c in
  set_int c i h.

Definition put_elf_sym (t : SymTab) (value size bind type other shndx : Z) (name : string) : SymTab * Z :=
  let name := checked_name name in
  let sym := mk_sym name value size bind type other shndx in
  let sym_index := Z.of_nat (length (syms t)) in
  let ss := syms t ++ [sym] in
  let base := hash_data t in
  (* non-local undefined symbols of the main table are tracked *)
  let undef := if Z.eqb shndx SHN_UNDEF && negb (Z.eqb bind STB_LOCAL) && is_symtab t
               then undef_sym_list t ++ [sym_index] else undef_sym_list t in
  let mk ss base cache n := mk_symtab ss base cache n (is_dynsym t) (is_symtab t) undef (new_undef_sym t) in
  if negb (Z.eqb bind STB_LOCAL) then
    let nbuckets := int_at base 0 in
    let full_hash := elf_hash name in
    let h := full_hash mod nbuckets in
    let base := base ++ [int_at base (2 + h)] in
    let base := set_int base (2 + h) sym_index in
    let base := set_int base 1 (int_at base 1 + 1) in
    let n := nb_hashed_syms t + 1 in
    if Z.ltb (2 * nbuckets) n
    then (rebuild_hash (mk ss base (hcache t) n) (2 * nbuckets), sym_index)
    else (mk ss base (Some (cache_store (hcache t) sym_index full_hash)) n, sym_index)
  else
    let base := base ++ [0] in
    let base := set_int base 1 (int_at base 1 + 1) in
    (mk ss base (hcache t) (nb_hashed_syms t), sym_index).

(** ** Looking up *)

Definition sym_at (t : SymTab) (i : Z) : Sym := default no_sym (syms t !! Z.to_nat i).

(** The loop of [find_elf_sym_with_hash]; a chain has at most as many links as
    there are symbols. *)
Fixpoint find_loop (t : SymTab) (name : string) (full_hash nbuckets : Z) (fuel : nat) (sym_index : Z) : Z :=
  match fuel with
  | O => 0
  | S n =>
      if Z.eqb sym_index 0 then 0
      else
        let hit := match hcache t with None => true | Some c => Z.eqb (int_at c sym_index) full_hash end in
        if hit && bool_decide (name = st_name (sym_at t sym_index)) then sym_index
        else find_loop t name full_hash nbuckets n (int_at (hash_data t) (2 + nbuckets + sym_index))
  end.

Definition find_elf_sym_with_hash (t : SymTab) (name : string) (full_hash : Z) : Z :=
  let nbuckets := int_at (hash_data t) 0 in
  find_loop t name full_hash nbuckets (S (length (syms t)))
    (int_at (hash_data t) (2 + full_hash mod nbuckets)).

Definition find_elf_sym (t : SymTab) (name : string) : Z :=
  if Nat.leb (length (syms t)) 1 then 0 else find_elf_sym_with_hash t name (elf_hash name).

(** [init_symtab] with [nb] buckets; the main table is the one that is not a dynamic
    symbol table. *)
Definition init_symtab (nb : Z) (dyn : bool) : SymTab :=
  mk_symtab [no_sym] ([nb; 1] ++ replicate (Z.to_nat nb) 0 ++ [0]) None 0 dyn (negb dyn) [] false.

(** ** The hash invariant *)

Definition in_bucket (nb b : Z) (s : Sym) : bool :=
  negb (is_local s) && Z.eqb (elf_hash (st_name s) mod nb) b.

(** The last symbol before [k] that satisfies [P], or 0: the null symbol never does. *)
Fixpoint last_before (P : Sym -> bool) (ss : list Sym) (k : nat) : Z :=
  match k with
  | O => 0
  | S i =>
      match i, ss !! i with
      | S _, Some s => if P s then Z.of_nat i else last_before P ss i
      | _, _ => last_before P ss i
      end
  end.

Definition heads_ok (nb : Z) (ss : list Sym) (k : nat) (hash : list Z) : Prop :=
  forall b, 0 <= b < nb -> hash !! Z.to_nat b = Some (last_before (in_bucket nb b) ss k).

Definition chain_ok (nb : Z) (ss : list Sym) (chain : list Z) : Prop :=
  forall i s, (1 <= i)%nat -> (i < length chain)%nat -> ss !! i = Some s -> is_local s = false ->
    chain !! i = Some (last_before (in_bucket nb (elf_hash (st_name s) mod nb)) ss i).

Definition cache_ok (ss : list Sym) (cache : list Z) (k : nat) : Prop :=
  forall i s, (1 <= i < k)%nat -> ss !! i = Some s -> is_local s = false ->
    cache !! i = Some (elf_hash (st_name s)).

(** The table is well formed: the chains link each bucket's symbols from the last
    to the first, and the cache holds their hashes. *)
Record hash_ok (t : SymTab) : Prop := mk_hash_ok {
  hk_nb : Z;
  hk_hash : list Z;
  hk_chain : list Z;
  hk_data : hash_data t = [hk_nb; Z.of_nat (length (syms t))] ++ hk_hash ++ hk_chain;
  hk_pos : 0 < hk_nb;
  hk_hash_len : length hk_hash = Z.to_nat hk_nb;
  hk_chain_len : length hk_chain = length (syms t);
  hk_syms : (1 <= length (syms t))%nat;
  hk_heads : heads_ok hk_nb (syms t) (length (syms t)) hk_hash;
  hk_links : chain_ok hk_nb (syms t) hk_chain;
  hk_cache : cache_ok (syms t) (default [] (hcache t)) (length (syms t))
}.

Section LastBefore.
Context (P : Sym -> bool).

Lemma last_before_S ss i s :
  (1 <= i)%nat -> ss !! i = Some s ->
  last_before P ss (S i) = if P s then Z.of_nat i else last_before P ss i.
Proof. intros Hi Hs. destruct i as [|i]; [lia|]. cbn [last_before]. by rewrite Hs. Qed.

Lemma last_before_app ss l k : (k <= length ss)%nat -> last_before P (ss ++ l) k = last_before P ss k.
Proof.
  induction k as [|i IH]; intros Hk; [done|]. destruct i as [|i]; [done|].
  destruct (lookup_lt_is_Some_2 ss (S i)) as [s Hs]; [lia|].
  rewrite !(last_before_S _ (S i) s) by (lia || done || (by rewrite lookup_app_l by lia)).
  by rewrite IH by lia.
Qed.

Lemma last_before_spec ss k :
  let j := last_before P ss k in
  j = 0 \/ exists i s, j = Z.of_nat i /\ (1 <= i < k)%nat /\ ss !! i = Some s /\ P s = true.
Proof.
  induction k as [|i IH]; [by left|]. destruct i as [|i]; [by left|].
  cbv zeta in *. cbn [last_before]. destruct (ss !! S i) as [s|] eqn:Hs.
  - destruct (P s) eqn:Hp.
    + right. exists (S i), s. repeat split; (lia || done).
    + destruct IH as [IH|(j & r & H1 & H2 & H3)]; [by left|]. right. exists j, r. repeat split; (lia || done || apply H3).
  - destruct IH as [IH|(j & r & H1 & H2 & H3)]; [by left|]. right. exists j, r. repeat split; (lia || done || apply H3).
Qed.

(** A stronger condition is found along the weaker one's occurrences. *)
Lemma last_before_refine (Q : Sym -> bool) ss k :
  (forall s, Q s = true -> P s = true) ->
  let j := last_before P ss k in
  last_before Q ss k =
  if Z.eqb j 0 then 0
  else if Q (default no_sym (ss !! Z.to_nat j)) then j else last_before Q ss (Z.to_nat j).
Proof.
  intros HQP. cbv zeta. induction k as [|i IH]; [done|]. destruct i as [|i]; [done|].
  destruct (ss !! S i) as [s|] eqn:Hs; cbn [last_before] in *; rewrite Hs; [|done].
  destruct (P s) eqn:Hp.
  - rewrite (proj2 (Z.eqb_neq _ _)), Nat2Z.id, Hs by lia. done.
  - destruct (Q s) eqn:Hq; [by rewrite HQP in Hp|]. exact IH.
Qed.
End LastBefore.

(** ** Lookup is the last symbol of that name *)

Definition named (name : string) (s : Sym) : bool :=
  negb (is_local s) && bool_decide (st_name s = name).

Lemma named_bucket name nb s :
  named name s = true -> in_bucket nb (elf_hash name mod nb) s = true.
Proof.
  unfold named, in_bucket. intros [Hl Hn%bool_decide_eq_true]%andb_prop. rewrite Hl, Hn. apply Z.eqb_refl.
Qed.

Lemma find_loop_correct t name nb hash chain fuel k :
  hash_data t = [nb; Z.of_nat (length (syms t))] ++ hash ++ chain -> 0 < nb ->
  length hash = Z.to_nat nb -> length chain = length (syms t) -> chain_ok nb (syms t) chain ->
  cache_ok (syms t) (default [] (hcache t)) (length (syms t)) ->
  (k < fuel)%nat -> (k <= length (syms t))%nat ->
  find_loop t name (elf_hash name) nb fuel (last_before (in_bucket nb (elf_hash name mod nb)) (syms t) k) =
  last_before (named name) (syms t) k.
Proof.
  intros Hd Hnb Hh Hc Hch Hca. revert k. induction fuel as [|fuel IH]; intros k Hf Hk; [lia|].
  cbn [find_loop]. rewrite (last_before_refine (in_bucket nb (elf_hash name mod nb)) (named name) (syms t) k)
    by apply named_bucket.
  destruct (last_before_spec (in_bucket nb (elf_hash name mod nb)) (syms t) k) as [-> |(j & s & -> & Hj & Hs & Hp)]; [done|].
  rewrite (proj2 (Z.eqb_neq _ _)), Nat2Z.id by lia. unfold sym_at. rewrite Nat2Z.id, Hs.
  change (default no_sym (Some s)) with s.
  pose proof Hp as Hp'. apply andb_prop in Hp' as [Hl Hb%Z.eqb_eq].
  assert (Hhit : bool_decide (name = st_name s) = true ->
    match hcache t with None => true | Some c => Z.eqb (int_at c (Z.of_nat j)) (elf_hash name) end = true).
  { intros ->%bool_decide_eq_true. destruct (hcache t) as [c|]; [|done]. unfold int_at. change (default [] (Some c)) with c in Hca.
    rewrite Nat2Z.id, (Hca j s) by (lia || done || by apply negb_true_iff). apply Z.eqb_refl. }
  assert (Hq : named name s = bool_decide (st_name s = name)) by (unfold named; by rewrite Hl).
  rewrite Hq.
  rewrite (bool_decide_ext (name = st_name s) (st_name s = name)) in * by done.
  destruct (bool_decide (st_name s = name)) eqn:Hn; [by rewrite Hhit|]. rewrite andb_false_r.
  assert (Hnext : int_at (hash_data t) (2 + nb + Z.of_nat j) =
                  last_before (in_bucket nb (elf_hash name mod nb)) (syms t) j).
  { rewrite Hd, int_at_app by (cbn; lia). cbn [length]. rewrite int_at_app by lia.
    unfold int_at. rewrite Hh. replace (Z.to_nat _) with j by lia.
    rewrite (Hch j s) by (lia || done || by apply negb_true_iff). cbn [default]. by rewrite Hb. }
  rewrite Hnext. apply IH; lia.
Qed.

Lemma find_spec t name :
  hash_ok t -> find_elf_sym t name = last_before (named name) (syms t) (length (syms t)).
Proof.
  intros [nb hash chain Hd Hnb Hh Hc Hn Hheads Hch Hca]. unfold find_elf_sym.
  destruct (Nat.leb_spec (length (syms t)) 1) as [Hl|Hl].
  - destruct (syms t) as [|s [|]]; cbn in *; done || lia.
  - unfold find_elf_sym_with_hash.
    assert (Hb : 0 <= elf_hash name mod nb < nb) by (apply Z.mod_pos_bound; lia).
    assert (H0 : int_at (hash_data t) 0 = nb) by (by rewrite Hd). rewrite H0.
    assert (Hhead : int_at (hash_data t) (2 + elf_hash name mod nb) =
      last_before (in_bucket nb (elf_hash name mod nb)) (syms t) (length (syms t))).
    { rewrite Hd, int_at_app by (cbn; lia). cbn [length]. rewrite int_at_app_l by lia.
      unfold int_at. replace (2 + elf_hash name mod nb - Z.of_nat 2) with (elf_hash name mod nb) by lia.
      by rewrite Hheads. }
    rewrite Hhead. eapply find_loop_correct; try done. lia.
Qed.

(** ** Every operation keeps the table well formed *)

Section Steps.
Context (nb : Z) (Hnb : 0 < nb) (ss : list Sym) (i : nat) (s : Sym) (Hi : (1 <= i)%nat) (Hs : ss !! i = Some s).

Lemma heads_step hash :
  length hash = Z.to_nat nb -> heads_ok nb ss i hash ->
  heads_ok nb ss (S i) (if is_local s then hash else set_int hash (elf_hash (st_name s) mod nb) (Z.of_nat i)).
Proof.
  intros Hl Hh b Hb. rewrite (last_before_S _ ss i s Hi Hs). unfold in_bucket at 1.
  destruct (is_local s); cbn [negb andb]; [by apply Hh|].
  assert (Hm : 0 <= elf_hash (st_name s) mod nb < nb) by (apply Z.mod_pos_bound; lia).
  unfold set_int. destruct (Z.eqb_spec (elf_hash (st_name s) mod nb) b) as [<-|Hne].
  - apply list_lookup_insert_eq. lia.
  - rewrite list_lookup_insert_ne by lia. by apply Hh.
Qed.

Lemma chain_step chain x :
  length chain = i -> chain_ok nb ss chain ->
  (is_local s = false -> x = last_before (in_bucket nb (elf_hash (st_name s) mod nb)) ss i) ->
  chain_ok nb ss (chain ++ [x]).
Proof.
  intros Hl Hc Hx j r Hj1 Hj2 Hr Hloc. rewrite length_app in Hj2. cbn in Hj2.
  destruct (decide (j = i)) as [->|].
  - rewrite Hs in Hr. injection Hr as <-. rewrite lookup_app_r, Hl, Nat.sub_diag by lia. cbn. by rewrite Hx.
  - rewrite lookup_app_l by lia. apply Hc; (lia || done).
Qed.

Lemma cache_step cache x :
  (i <= length cache)%nat -> cache_ok ss cache i -> (is_local s = false -> x = elf_hash (st_name s)) ->
  cache_ok ss (take i cache ++ [x]) (S i).
Proof.
  intros Hl Hc Hx j r Hj Hr Hloc. destruct (decide (j = i)) as [->|].
  - rewrite Hs in Hr. injection Hr as <-. rewrite lookup_app_r, length_take by (rewrite length_take; lia).
    rewrite Nat.min_l, Nat.sub_diag by lia. cbn. by rewrite Hx.
  - rewrite lookup_app_l by (rewrite length_take; lia). rewrite lookup_take_lt by lia. apply Hc; (lia || done).
Qed.
End Steps.

Lemma heads_head nb ss k hash b : heads_ok nb ss k hash -> 0 <= b < nb -> int_at hash b = last_before (in_bucket nb b) ss k.
Proof. intros H Hb. unfold int_at. by rewrite H. Qed.

Lemma rebuild_loop_ok nb l pre hash chain cache :
  0 < nb -> (1 <= length pre)%nat -> length hash = Z.to_nat nb ->
  length chain = length pre -> length cache = length pre ->
  heads_ok nb (pre ++ l) (length pre) hash -> chain_ok nb (pre ++ l) chain ->
  cache_ok (pre ++ l) cache (length pre) ->
  let '(hash', chain', cache') := rebuild_loop nb l (Z.of_nat (length pre)) hash chain cache in
  length hash' = Z.to_nat nb /\ length chain' = length (pre ++ l) /\
  heads_ok nb (pre ++ l) (length (pre ++ l)) hash' /\ chain_ok nb (pre ++ l) chain' /\
  cache_ok (pre ++ l) cache' (length (pre ++ l)).
Proof.
  intros Hnb. revert pre hash chain cache. induction l as [|s l IH]; intros pre hash chain cache Hp Hh Hc Hk H1 H2 H3; cbn [rebuild_loop].
  - rewrite app_nil_r in *. done.
  - assert (Hs : (pre ++ s :: l) !! length pre = Some s) by (by rewrite list_lookup_middle).
    pose proof (heads_step nb Hnb _ _ s Hp Hs hash Hh H1) as H1'.
    pose proof (chain_step nb _ _ s Hp Hs chain) as H2'. pose proof (cache_step _ _ s Hp Hs cache) as H3'.
    specialize (IH (pre ++ [s])). rewrite <-!app_assoc in IH. cbn [app] in IH.
    replace (length (pre ++ [s])) with (S (length pre)) in IH by (rewrite length_app; cbn; lia).
    replace (Z.of_nat (length pre) + 1) with (Z.of_nat (S (length pre))) by lia.
    rewrite (take_ge cache) in H3' by lia.
    destruct (is_local s) eqn:Hloc; cbn [negb].
    + apply IH; rewrite ?length_app, ?set_int_length; cbn; try lia; [done|by apply H2'|apply H3'; (lia || done)].
    + assert (Hb : 0 <= elf_hash (st_name s) mod nb < nb) by (apply Z.mod_pos_bound; lia).
      apply IH; rewrite ?length_app, ?set_int_length; cbn; try lia; [done| |apply H3'; (lia || done)].
      apply H2'; [done|done|]. intros _. by apply heads_head.
Qed.

Lemma rebuild_ok t nb :
  0 < nb -> (1 <= length (syms t))%nat -> hash_ok (rebuild_hash t nb).
Proof.
  intros Hnb Hn. unfold rebuild_hash. rewrite (proj2 (Z.eqb_neq nb 0)) by lia.
  destruct (syms t) as [|s0 l] eqn:Es; [cbn in Hn; lia|]. cbn [tail].
  pose proof (rebuild_loop_ok nb l [s0] (replicate (Z.to_nat nb) 0) [0] [0] Hnb) as H.
  change (Z.of_nat (length [s0])) with 1 in H.
  destruct (rebuild_loop nb l 1 (replicate (Z.to_nat nb) 0) [0] [0]) as [[hash chain] cache].
  cbn [app] in H. destruct H as (H1 & H2 & H3 & H4 & H5).
  - cbn. lia.
  - apply length_replicate.
  - done.
  - done.
  - intros b Hb. apply lookup_replicate. cbn. split; [done|lia].
  - intros i s Hi1 Hi2. cbn in Hi2. lia.
  - intros i s Hi. cbn in Hi. lia.
  - apply (mk_hash_ok _ nb hash chain); cbn [hash_data syms hcache]; by rewrite ?Es.
Qed.

Lemma rebuild_same t nb : syms (rebuild_hash t nb) = syms t /\ is_dynsym (rebuild_hash t nb) = is_dynsym t.
Proof. unfold rebuild_hash. by destruct (rebuild_loop _ _ _ _ _ _) as [[? ?] ?]. Qed.

Lemma init_symtab_ok nb dyn : 0 < nb -> hash_ok (init_symtab nb dyn).
Proof.
  intros Hnb. apply (mk_hash_ok _ nb (replicate (Z.to_nat nb) 0) [0]); cbn [hash_data syms hcache init_symtab].
  - done.
  - done.
  - apply length_replicate.
  - done.
  - cbn. lia.
  - intros b Hb. apply lookup_replicate. cbn. split; [done|lia].
  - intros i s Hi1 Hi2. cbn in Hi2. lia.
  - intros i s Hi. cbn in Hi. lia.
Qed.

(** The hash section after a symbol is entered, in its parts. *)
Lemma put_data nb n hash chain h x :
  0 <= h < nb -> length hash = Z.to_nat nb ->
  let base := [nb; n] ++ hash ++ chain in
  set_int (set_int (base ++ [int_at base (2 + h)]) (2 + h) x) 1
    (int_at (set_int (base ++ [int_at base (2 + h)]) (2 + h) x) 1 + 1) =
  [nb; n + 1] ++ set_int hash h x ++ (chain ++ [int_at hash h]).
Proof.
  intros Hh Hl base.
  assert (E1 : int_at base (2 + h) = int_at hash h).
  { unfold base. rewrite int_at_app by (cbn; lia). cbn [length]. rewrite int_at_app_l by lia.
    f_equal. lia. }
  rewrite E1. unfold base. rewrite <-!app_assoc.
  assert (E2 : set_int ([nb; n] ++ hash ++ chain ++ [int_at hash h]) (2 + h) x =
               [nb; n] ++ set_int hash h x ++ chain ++ [int_at hash h]).
  { unfold set_int. rewrite insert_app_r_alt by (cbn; lia). f_equal. cbn [length].
    rewrite insert_app_l by lia. do 2 f_equal. lia. }
  rewrite E2. done.
Qed.

Lemma cache_store_ok ss cache n s full_hash :
  (1 <= n)%nat -> ss !! n = Some s -> cache_ok ss (default [] cache) n ->
  (is_local s = false -> full_hash = elf_hash (st_name s)) ->
  cache_ok ss (cache_store cache (Z.of_nat n) full_hash) (S n).
Proof.
  intros Hn Hs Hc Hh. unfold cache_store. cbv zeta. set (c := default [] cache) in *.
  rename Hc into Hc'. clearbody c. clear cache.
  set (c2 := if Z.leb _ _ then _ else c).
  assert (Hl : (n < length c2)%nat /\ forall j x, c !! j = Some x -> c2 !! j = Some x).
  { unfold c2. destruct (Z.leb_spec (Z.of_nat (length c)) (Z.of_nat n)).
    - split; [|intros j x Hx; by apply lookup_app_l_Some].
      rewrite length_app, length_replicate.
      assert ((Z.of_nat n + 16) &&& Z.lnot 15 > Z.of_nat n).
      { change (Z.lnot 15) with (Z.lnot (Z.ones 4)). rewrite <-Z.ldiff_land, Z.ldiff_ones_r by lia.
        rewrite Z.shiftl_mul_pow2, Z.shiftr_div_pow2 by lia. lia_mod. }
      lia.
    - split; [lia|done]. }
  destruct Hl as [Hl Hext]. clearbody c2. intros j r Hj Hr Hloc. unfold set_int. rewrite Nat2Z.id.
  destruct (decide (j = n)) as [->|].
  - rewrite Hs in Hr. injection Hr as <-. rewrite list_lookup_insert_eq by done. by rewrite Hh.
  - rewrite list_lookup_insert_ne by done. apply Hext, Hc'; (lia || done).
Qed.

Lemma cache_app ss l cache k : (k <= length ss)%nat -> cache_ok ss cache k -> cache_ok (ss ++ l) cache k.
Proof. intros Hk H j r Hj Hr Hl. rewrite lookup_app_l in Hr by lia. by apply H. Qed.

Lemma chain_app nb ss l chain :
  length chain = length ss -> chain_ok nb ss chain -> chain_ok nb (ss ++ l) chain.
Proof.
  intros Hl H j r Hj1 Hj2 Hr Hloc. rewrite lookup_app_l in Hr by lia.
  rewrite last_before_app by lia. by apply H.
Qed.

Lemma heads_app nb ss l hash : heads_ok nb ss (length ss) hash -> heads_ok nb (ss ++ l) (length ss) hash.
Proof. intros H b Hb. rewrite last_before_app by lia. by apply H. Qed.

Theorem put_elf_sym_ok t value size bind type other shndx name :
  hash_ok t ->
  let '(t', i) := put_elf_sym t value size bind type other shndx name in
  hash_ok t' /\ i = Z.of_nat (length (syms t)) /\ is_dynsym t' = is_dynsym t /\
  syms t' = syms t ++ [mk_sym (checked_name name) value size bind type other shndx].
Proof.
  intros [nb hash chain Hd Hnb Hh Hc Hn H1 H2 H3]. unfold put_elf_sym. cbv zeta.
  set (sym := mk_sym _ _ _ _ _ _ _). set (n := length (syms t)) in *.
  assert (Hs : (syms t ++ [sym]) !! n = Some sym) by (by apply list_lookup_middle).
  assert (Hlen : length (syms t ++ [sym]) = S n) by (rewrite length_app; cbn; lia).
  assert (Hz : Z.of_nat n + 1 = Z.of_nat (S n)) by lia.
  pose proof (heads_step nb Hnb _ n sym Hn Hs hash Hh (heads_app _ _ _ _ H1)) as G1.
  pose proof (chain_step nb _ n sym Hn Hs chain) as G2.
  pose proof (chain_app nb (syms t) [sym] chain Hc H2) as G2'.
  destruct (Z.eqb bind STB_LOCAL) eqn:Hb; cbn [negb].
  - split; [|done]. change (is_local sym) with (Z.eqb bind STB_LOCAL) in *. rewrite Hb in *.
    apply (mk_hash_ok _ nb hash (chain ++ [0])); cbn [hash_data syms hcache]; rewrite ?Hlen; try done.
    + rewrite Hd. cbn. by rewrite <-Hz, <-!app_assoc.
    + rewrite length_app. cbn. lia.
    + lia.
    + by apply G2.
    + intros j r Hj Hr Hloc. destruct (decide (j = n)) as [->|].
      * rewrite Hs in Hr. injection Hr as <-. unfold is_local in Hloc. cbn in Hloc. congruence.
      * rewrite lookup_app_l in Hr by lia. apply H3; (lia || done).
  - change (is_local sym) with (Z.eqb bind STB_LOCAL) in *. rewrite Hb in *.
    assert (H0 : int_at (hash_data t) 0 = nb) by (by rewrite Hd). rewrite H0.
    set (h := elf_hash (checked_name name) mod nb).
    assert (Hm : 0 <= h < nb) by (apply Z.mod_pos_bound; lia).
    rewrite Hd, put_data by done. fold n.
    destruct (Z.ltb (2 * nb) (nb_hashed_syms t + 1)).
    + destruct (rebuild_same (mk_symtab (syms t ++ [sym]) ([nb; Z.of_nat n + 1] ++ set_int hash h (Z.of_nat n) ++
        chain ++ [int_at hash h]) (hcache t) (nb_hashed_syms t + 1) (is_dynsym t) (is_symtab t)
        (if Z.eqb shndx SHN_UNDEF && true && is_symtab t then undef_sym_list t ++ [Z.of_nat n] else undef_sym_list t)
        (new_undef_sym t)) (2 * nb)) as [-> ->].
      split; [|done]. apply rebuild_ok; cbn [syms]; lia.
    + split; [|done].
      apply (mk_hash_ok _ nb (set_int hash h (Z.of_nat n)) (chain ++ [int_at hash h]));
        cbn [hash_data syms hcache]; rewrite ?Hlen; try done.
      * by rewrite Hz.
      * by rewrite set_int_length.
      * rewrite length_app. cbn. lia.
      * lia.
      * apply G2; [done|done|]. intros _. apply heads_head; [|done]. by apply heads_app.
      * apply (cache_store_ok _ _ _ sym); [done|done| |done]. apply cache_app; [done|]. exact H3.
Qed.
