(* ===== verification/ElfResolve.v ===== *)
(** * Symbol resolution: [set_elf_sym] as a map from names to symbols

    A definition or reference that meets a symbol of the same name is merged with
    it by binding, visibility and section.  With the hash table correct, the table
    behaves as a finite map from names to symbols. *)

From S2P Require Import Prelude BitReflect ElfSym.
From stdpp Require Import list strings.
Local Open Scope Z_scope.
Local Open Scope c_scope.

(** ** The code *)

Definition with_other (s : Sym) (other : Z) : Sym :=
  mk_sym (st_name s) (st_value s) (st_size s) (st_bind s) (st_type s) other (st_shndx s).

(** The most constraining visibility: 0 is the least, then 3, 2, 1. *)
Definition merge_vis (esym_vis sym_vis : Z) : Z :=
  if Z.eqb esym_vis STV_DEFAULT then sym_vis
  else if Z.eqb sym_vis STV_DEFAULT then esym_vis
  else if Z.ltb esym_vis sym_vis then esym_vis else sym_vis.

(** What the symbol becomes, and whether "defined twice" is reported. *)
Definition merge_sym (dynsym : bool) (bss_num : Z) (esym new : Sym) : Sym * bool :=
  let patch s := mk_sym (st_name s) (st_value new) (st_size new) (st_bind new) (st_type new) (st_other s) (st_shndx new) in
  let sym_vis := ST_VISIBILITY (st_other new) in
  if Z.eqb (st_value esym) (st_value new) && Z.eqb (st_size esym) (st_size new) &&
     (Z.eqb (st_bind esym) (st_bind new) && Z.eqb (st_type esym) (st_type new)) &&
     Z.eqb (st_other esym) (st_other new) && Z.eqb (st_shndx esym) (st_shndx new) then (esym, false)
  else if negb (Z.eqb (st_shndx esym) SHN_UNDEF) then
    let esym_bind := st_bind esym in
    let new_vis := merge_vis (ST_VISIBILITY (st_other esym)) sym_vis in
    let esym := with_other esym ((st_other esym &&& (~~~ 3)) ||| new_vis) in
    if Z.eqb (st_shndx new) SHN_UNDEF then (esym, false)
    else if Z.eqb (st_bind new) STB_GLOBAL && Z.eqb esym_bind STB_WEAK then (patch esym, false)
    else if Z.eqb (st_bind new) STB_WEAK && Z.eqb esym_bind STB_GLOBAL then (esym, false)
    else if Z.eqb (st_bind new) STB_WEAK && Z.eqb esym_bind STB_WEAK then (esym, false)
    else if Z.eqb sym_vis STV_HIDDEN || Z.eqb sym_vis STV_INTERNAL then (esym, false)
    else if (Z.eqb (st_shndx esym) SHN_COMMON || Z.eqb (st_shndx esym) bss_num) &&
            (Z.ltb (st_shndx new) SHN_LORESERVE && negb (Z.eqb (st_shndx new) bss_num)) then (patch esym, false)
    else if Z.eqb (st_shndx new) SHN_COMMON || Z.eqb (st_shndx new) bss_num then (esym, false)
    else if dynsym then (esym, false)
    else if truth (st_other esym &&& ST_ASM_SET) then (patch esym, false)
    else (esym, true)
  else (patch (with_other esym (st_other new)), false).

Definition upd_sym (t : SymTab) (i : Z) (s : Sym) : SymTab :=
  mk_symtab (<[Z.to_nat i := s]> (syms t)) (hash_data t) (hcache t) (nb_hashed_syms t) (is_dynsym t)
    (is_symtab t) (undef_sym_list t) (new_undef_sym t).

(** [if (shndx == SHN_UNDEF) s1->new_undef_sym = 1;] *)
Definition note_undef (t : SymTab) (shndx : Z) : SymTab :=
  mk_symtab (syms t) (hash_data t) (hcache t) (nb_hashed_syms t) (is_dynsym t) (is_symtab t) (undef_sym_list t)
    (Z.eqb shndx SHN_UNDEF || new_undef_sym t).

(** The table, the symbol's index, and whether an error is reported. *)
Definition set_elf_sym (bss_num : Z) (t : SymTab) (value size bind type other shndx : Z) (name : string)
    : SymTab * Z * bool :=
  let put := let '(t, i) := put_elf_sym t value size bind type other shndx name in (note_undef t shndx, i, false) in
  if negb (Z.eqb bind STB_LOCAL) then
    let sym_index := find_elf_sym_with_hash t name (elf_hash name) in
    if Z.eqb sym_index 0 then put
    else
      let '(s, err) := merge_sym (is_dynsym t) bss_num (sym_at t sym_index)
                         (mk_sym name value size bind type other shndx) in
      (upd_sym t sym_index s, sym_index, err)
  else put.

(** The compaction of the list of undefined symbols after an archive has been
    searched: those defined since are dropped, the order kept. *)
Definition compact_undef (t : SymTab) : SymTab :=
  mk_symtab (syms t) (hash_data t) (hcache t) (nb_hashed_syms t) (is_dynsym t) (is_symtab t)
    (filter (fun idx => st_shndx (sym_at t idx) = SHN_UNDEF) (undef_sym_list t)) (new_undef_sym t).

(** ** The table as a map *)

(** At most one non-local symbol has a given name. *)
Definition unique (t : SymTab) : Prop :=
  forall i j s r, (1 <= i)%nat -> (1 <= j)%nat -> syms t !! i = Some s -> syms t !! j = Some r ->
    is_local s = false -> is_local r = false -> st_name s = st_name r -> i = j.

Definition tab_ok (t : SymTab) : Prop := hash_ok t /\ unique t.

(** The symbol of a name. *)
Definition lookup_sym (t : SymTab) (name : string) : option Sym :=
  let i := find_elf_sym t name in if Z.eqb i 0 then None else Some (sym_at t i).

Lemma find_with_hash_spec t name :
  hash_ok t -> find_elf_sym_with_hash t name (elf_hash name) = find_elf_sym t name.
Proof.
  intros H. unfold find_elf_sym. destruct (Nat.leb_spec (length (syms t)) 1); [|done].
  destruct H as [nb hash chain Hd Hnb Hh Hc Hn Hheads Hch Hca]. unfold find_elf_sym_with_hash.
  assert (Hb : 0 <= elf_hash name mod nb < nb) by (apply Z.mod_pos_bound; lia).
  assert (Ez : int_at (hash_data t) 0 = nb) by (by rewrite Hd). rewrite Ez.
  assert (Hhead : int_at (hash_data t) (2 + elf_hash name mod nb) = 0).
  { rewrite Hd, int_at_app by (cbn; lia). cbn [length]. rewrite int_at_app_l by lia.
    unfold int_at. replace (2 + elf_hash name mod nb - Z.of_nat 2) with (elf_hash name mod nb) by lia.
    rewrite Hheads by done. by replace (length (syms t)) with 1%nat by lia. }
  by rewrite Hhead.
Qed.

(** [s] is the non-local symbol of that name, at index [i]. *)
Definition entry (t : SymTab) (name : string) (i : nat) (s : Sym) : Prop :=
  (1 <= i)%nat /\ syms t !! i = Some s /\ is_local s = false /\ st_name s = name.

Lemma entry_named t name i s : entry t name i s -> named name s = true.
Proof. intros (_ & _ & Hl & Hn). unfold named. rewrite Hl, Hn. by rewrite bool_decide_true. Qed.

Lemma last_before_found P ss k i s :
  (1 <= i < k)%nat -> ss !! i = Some s -> P s = true ->
  exists j r, last_before P ss k = Z.of_nat j /\ (i <= j < k)%nat /\ ss !! j = Some r /\ P r = true.
Proof.
  intros Hi Hs Hp. induction k as [|k IH]; [lia|]. destruct (decide (i = k)) as [->|].
  - exists k, s. rewrite (last_before_S P ss k s) by (lia || done). rewrite Hp. repeat split; (lia || done).
  - destruct k as [|k]; [lia|]. destruct IH as (j & r & Hj & H1 & H2 & H3); [lia|].
    cbn [last_before] in *. destruct (ss !! S k) as [q|] eqn:Hq; [destruct (P q) eqn:Hpq|].
    + exists (S k), q. repeat split; (lia || done).
    + exists j, r. repeat split; (lia || done).
    + exists j, r. repeat split; (lia || done).
Qed.

(** With unique names, lookup finds exactly the entry. *)
Lemma lookup_entry t name i s : tab_ok t -> entry t name i s -> find_elf_sym t name = Z.of_nat i.
Proof.
  intros [Hh Hu] He. pose proof He as (H1 & H2 & H3 & H4). rewrite (find_spec t name Hh).
  destruct (last_before_found (named name) (syms t) (length (syms t)) i s) as (j & r & -> & Hj & Hr & Hn);
    [split; [lia|by eapply lookup_lt_Some]|done|by eapply entry_named|].
  f_equal. unfold named in Hn. apply andb_prop in Hn as [Hl%negb_true_iff Hn%bool_decide_eq_true].
  symmetry. apply (Hu i j s r); try done; [lia|congruence].
Qed.

Lemma lookup_none t name : tab_ok t -> find_elf_sym t name = 0 -> forall i s, ~ entry t name i s.
Proof. intros Ht H0 i s He. rewrite (lookup_entry t name i s Ht He) in H0. destruct He. lia. Qed.

Lemma lookup_some t name :
  tab_ok t -> find_elf_sym t name <> 0 ->
  exists i s, find_elf_sym t name = Z.of_nat i /\ entry t name i s /\ sym_at t (Z.of_nat i) = s.
Proof.
  intros [Hh Hu] H0. rewrite (find_spec t name Hh) in *.
  destruct (last_before_spec (named name) (syms t) (length (syms t))) as [H|(i & s & H & Hi & Hs & Hn)]; [done|].
  exists i, s. split; [done|]. unfold named in Hn. apply andb_prop in Hn as [Hl%negb_true_iff Hn%bool_decide_eq_true].
  split; [repeat split; (lia || done)|]. unfold sym_at. by rewrite Nat2Z.id, Hs.
Qed.

Lemma lookup_sym_entry t name s :
  tab_ok t -> lookup_sym t name = Some s <-> exists i, entry t name i s.
Proof.
  intros Ht. unfold lookup_sym. split.
  - destruct (Z.eqb_spec (find_elf_sym t name) 0) as [|H0]; [done|].
    destruct (lookup_some t name Ht H0) as (i & r & -> & He & ->). intros [= ->]. by exists i.
  - intros [i He]. rewrite (lookup_entry t name i s Ht He). pose proof He as (H1 & H2 & _).
    rewrite (proj2 (Z.eqb_neq _ _)) by lia. unfold sym_at. by rewrite Nat2Z.id, H2.
Qed.

(** ** Updating a symbol in place *)

(** The hash depends on a symbol's name and on whether it is local. *)
Definition same_key (s r : Sym) : Prop := is_local s = is_local r /\ st_name s = st_name r.

Lemma last_before_ext P ss ss' k :
  (forall i, P <$> (ss !! i) = P <$> (ss' !! i)) -> last_before P ss k = last_before P ss' k.
Proof.
  intros H. induction k as [|i IH]; [done|]. destruct i as [|i]; [done|]. cbn [last_before] in *.
  specialize (H (S i)). destruct (ss !! S i), (ss' !! S i); try done. cbn in H. injection H as ->. by rewrite IH.
Qed.

Lemma upd_lookup t i s r j :
  syms t !! i = Some s -> same_key r s ->
  exists f, (forall x, same_key (f x) x) /\ syms (upd_sym t (Z.of_nat i) r) !! j = f <$> (syms t !! j).
Proof.
  intros Hs Hk. cbn [upd_sym syms]. rewrite Nat2Z.id. destruct (decide (j = i)) as [->|].
  - exists (fun x => if decide (x = s) then r else x). split; [intros x; case_decide; [by subst|done]|].
    rewrite list_lookup_insert_eq by (by eapply lookup_lt_Some). rewrite Hs. cbn. by rewrite decide_True.
  - exists id. split; [done|]. rewrite list_lookup_insert_ne by done. by destruct (syms t !! j).
Qed.

Lemma upd_last_before t i s r P k :
  syms t !! i = Some s -> same_key r s -> (forall x y, same_key x y -> P x = P y) ->
  last_before P (syms (upd_sym t (Z.of_nat i) r)) k = last_before P (syms t) k.
Proof.
  intros Hs Hk HP. apply last_before_ext. intros j.
  destruct (upd_lookup t i s r j Hs Hk) as (f & Hf & ->). destruct (syms t !! j); [|done]. cbn. f_equal. by apply HP.
Qed.

Lemma in_bucket_key nb b x y : same_key x y -> in_bucket nb b x = in_bucket nb b y.
Proof. intros [H1 H2]. unfold in_bucket. by rewrite H1, H2. Qed.

Lemma upd_hash_ok t i s r : hash_ok t -> syms t !! i = Some s -> same_key r s -> hash_ok (upd_sym t (Z.of_nat i) r).
Proof.
  intros [nb hash chain Hd Hnb Hh Hc Hn H1 H2 H3] Hs Hk.
  assert (Hl : length (syms (upd_sym t (Z.of_nat i) r)) = length (syms t)) by apply length_insert.
  apply (mk_hash_ok _ nb hash chain); rewrite ?Hl; try done.
  - intros b Hb. rewrite (upd_last_before t i s) by (done || apply in_bucket_key). by apply H1.
  - intros j q Hj1 Hj2 Hq Hloc. destruct (upd_lookup t i s r j Hs Hk) as (f & Hf & E). rewrite E in Hq.
    destruct (syms t !! j) as [x|] eqn:Hx; [|done]. injection Hq as <-. destruct (Hf x) as [E1 E2].
    rewrite (upd_last_before t i s) by (done || apply in_bucket_key). rewrite E2. apply H2; (done || congruence).
  - intros j q Hj Hq Hloc. destruct (upd_lookup t i s r j Hs Hk) as (f & Hf & E). rewrite E in Hq.
    destruct (syms t !! j) as [x|] eqn:Hx; [|done]. injection Hq as <-. destruct (Hf x) as [E1 E2].
    rewrite E2. apply H3; (done || congruence).
Qed.

Lemma upd_tab_ok t i s r : tab_ok t -> syms t !! i = Some s -> same_key r s -> tab_ok (upd_sym t (Z.of_nat i) r).
Proof.
  intros [Hh Hu] Hs Hk. split; [by eapply upd_hash_ok|]. intros j k x y Hj Hk' Hx Hy Hlx Hly Hn.
  destruct (upd_lookup t i s r j Hs Hk) as (f & Hf & E). rewrite E in Hx.
  destruct (upd_lookup t i s r k Hs Hk) as (g & Hg & E'). rewrite E' in Hy.
  destruct (syms t !! j) as [x'|] eqn:Hx'; [|done]. destruct (syms t !! k) as [y'|] eqn:Hy'; [|done].
  injection Hx as <-. injection Hy as <-. destruct (Hf x') as [F1 F2], (Hg y') as [G1 G2].
  apply (Hu j k x' y'); (done || congruence).
Qed.

(** ** Entering a symbol *)

Lemma put_tab_ok t value size bind type other shndx name :
  tab_ok t -> (bind = STB_LOCAL \/ forall i s, ~ entry t (checked_name name) i s) ->
  tab_ok (put_elf_sym t value size bind type other shndx name).1.
Proof.
  intros [Hh Hu] Hnew. pose proof (put_elf_sym_ok t value size bind type other shndx name Hh) as Hp.
  destruct (put_elf_sym t value size bind type other shndx name) as [t' i]. destruct Hp as (Hok & _ & _ & Hs).
  split; [done|]. cbn [fst]. intros j k x y Hj Hk Hx Hy Hlx Hly Hn. rewrite Hs in Hx, Hy.
  apply lookup_app_Some in Hx as [Hx|[Hxl Hx]]; apply lookup_app_Some in Hy as [Hy|[Hyl Hy]].
  - by apply (Hu j k x y).
  - apply list_lookup_singleton_Some in Hy as [Hk0 <-]. exfalso. destruct Hnew as [->|Hnew]; [done|].
    apply (Hnew j x). repeat split; (done || lia).
  - apply list_lookup_singleton_Some in Hx as [Hj0 <-]. exfalso. destruct Hnew as [->|Hnew]; [done|].
    apply (Hnew k y). repeat split; (done || lia).
  - apply list_lookup_singleton_Some in Hx as [Hj0 _]. apply list_lookup_singleton_Some in Hy as [Hk0 _]. lia.
Qed.

(** ** [set_elf_sym] is an insertion in the map *)

Lemma merge_key dyn bss esym new :
  is_local esym = false -> st_bind new <> STB_LOCAL -> same_key (merge_sym dyn bss esym new).1 esym.
Proof.
  intros Hl Hb%Z.eqb_neq. unfold merge_sym. cbv zeta. unfold same_key.
  repeat match goal with |- context [if ?b then _ else _] => destruct b end; cbn; rewrite ?Hl; done.
Qed.

Lemma upd_entry t i s r name j q :
  tab_ok t -> syms t !! i = Some s -> (1 <= i)%nat -> is_local s = false -> same_key r s ->
  entry (upd_sym t (Z.of_nat i) r) name j q <->
  if decide (name = st_name s) then j = i /\ q = r else entry t name j q.
Proof.
  intros Ht Hs Hi Hl [Hk1 Hk2]. unfold entry. cbn [upd_sym syms]. rewrite Nat2Z.id.
  destruct (decide (j = i)) as [->|Hne].
  - rewrite list_lookup_insert_eq by (by eapply lookup_lt_Some). split.
    + intros (_ & [= <-] & _ & Hn). by rewrite decide_True by congruence.
    + case_decide as Hn; [|intros (_ & Hq & _ & Hn'); congruence]. intros [_ ->]. repeat split; (done || congruence).
  - rewrite list_lookup_insert_ne by done. case_decide as Hn; [|done]. split; [|by intros [? _]].
    intros (Hj & Hq & Hlq & Hnq). destruct Hne. apply (proj2 Ht j i q s); (done || congruence).
Qed.

Lemma put_entry t value size bind type other shndx name n j q :
  tab_ok t -> bind <> STB_LOCAL -> checked_name name = name -> (forall i s, ~ entry t name i s) ->
  entry (put_elf_sym t value size bind type other shndx name).1 n j q <->
  if decide (n = name) then j = length (syms t) /\ q = mk_sym name value size bind type other shndx
  else entry t n j q.
Proof.
  intros [Hh Hu] Hb%Z.eqb_neq Hc Hno. pose proof (put_elf_sym_ok t value size bind type other shndx name Hh) as Hp.
  destruct (put_elf_sym t value size bind type other shndx name) as [t' i]. destruct Hp as (_ & _ & _ & Hs).
  rewrite Hc in Hs. unfold entry. cbn [fst]. rewrite Hs.
  assert (H1 : (1 <= length (syms t))%nat) by (by destruct Hh). split.
  - intros (Hj & [Hq|[Hjl Hq]]%lookup_app_Some & Hl & Hn).
    + case_decide as E; [|done]. subst n. exfalso. apply (Hno j q). done.
    + apply list_lookup_singleton_Some in Hq as [Hj0 <-]. cbn in Hn. rewrite decide_True by done. split; [lia|done].
  - case_decide as E.
    + intros [-> ->]. split; [done|]. rewrite list_lookup_middle by done. repeat split; (done || by subst).
    + intros (Hj & Hq & Hl & Hn). split; [done|]. by rewrite lookup_app_l by (by eapply lookup_lt_Some).
Qed.

(** What a name becomes when [new] is entered. *)
Definition resolve (dyn : bool) (bss : Z) (old : option Sym) (new : Sym) : Sym * bool :=
  match old with None => (new, false) | Some e => merge_sym dyn bss e new end.

Lemma note_hash_ok t x : hash_ok t -> hash_ok (note_undef t x).
Proof. intros [nb hash chain Hd Hnb Hh Hc Hn H1 H2 H3]. by apply (mk_hash_ok _ nb hash chain). Qed.

Lemma note_tab_ok t x : tab_ok t -> tab_ok (note_undef t x).
Proof. intros [Hh Hu]. split; [by apply note_hash_ok|exact Hu]. Qed.

(** Two tables with the same entries but one name's. *)
Lemma lookup_from_entries t t' name q :
  tab_ok t -> tab_ok t' -> (exists j, entry t' name j q) ->
  (forall n, n <> name -> forall j r, entry t' n j r <-> entry t n j r) ->
  forall n, lookup_sym t' n = if decide (n = name) then Some q else lookup_sym t n.
Proof.
  intros Ht Ht' Hq He n. case_decide as Hn; [subst; by apply lookup_sym_entry|].
  apply option_eq. intros r. rewrite !lookup_sym_entry by done. split; intros [j Hj]; exists j; by apply He.
Qed.

Lemma set_elf_sym_map bss t value size bind type other shndx name :
  tab_ok t -> bind <> STB_LOCAL -> checked_name name = name ->
  let '(s, e) := resolve (is_dynsym t) bss (lookup_sym t name) (mk_sym name value size bind type other shndx) in
  let '(t', i, err) := set_elf_sym bss t value size bind type other shndx name in
  tab_ok t' /\ is_dynsym t' = is_dynsym t /\ sym_at t' i = s /\ err = e /\
  forall n, lookup_sym t' n = if decide (n = name) then Some s else lookup_sym t n.
Proof.
  intros Ht Hb Hc. unfold set_elf_sym. rewrite (proj2 (Z.eqb_neq _ _) Hb). cbn [negb].
  rewrite find_with_hash_spec by apply Ht. unfold lookup_sym at 1.
  destruct (Z.eqb_spec (find_elf_sym t name) 0) as [H0|H0].
  - cbn [resolve]. pose proof (lookup_none t name Ht H0) as Hno.
    pose proof (fun n j q => put_entry t value size bind type other shndx name n j q Ht Hb Hc Hno) as He.
    pose proof (put_tab_ok t value size bind type other shndx name Ht) as Ht'. rewrite Hc in Ht'. specialize (Ht' (or_intror Hno)).
    pose proof (put_elf_sym_ok t value size bind type other shndx name (proj1 Ht)) as Hp. rewrite Hc in Hp.
    destruct (put_elf_sym t value size bind type other shndx name) as [t' i]. cbn [fst] in *.
    destruct Hp as (_ & -> & Hdyn & Hs). pose proof (note_tab_ok t' shndx Ht') as Ht2.
    split; [done|]. repeat split; [done| |].
    + unfold sym_at. cbn [note_undef syms]. by rewrite Nat2Z.id, Hs, list_lookup_middle.
    + apply (lookup_from_entries t (note_undef t' shndx)); [done|done|exists (length (syms t)); apply He; by rewrite decide_True|].
      intros n Hn j r. change (entry (note_undef t' shndx) n j r) with (entry t' n j r). rewrite He. by rewrite decide_False.
  - destruct (lookup_some t name Ht H0) as (i & s & -> & Hen & Hat). rewrite Hat. cbn [resolve].
    set (new := mk_sym name value size bind type other shndx).
    pose proof Hen as (Hi & Hs & Hl & Hn).
    pose proof (merge_key (is_dynsym t) bss s new Hl Hb) as Hk.
    destruct (merge_sym (is_dynsym t) bss s new) as [r err]. cbn [fst] in Hk.
    pose proof (upd_tab_ok t i s r Ht Hs Hk) as Ht'.
    repeat split; [apply Ht'|apply Ht'| |].
    + unfold sym_at. cbn. by rewrite !Nat2Z.id, list_lookup_insert_eq by (by eapply lookup_lt_Some).
    + apply (lookup_from_entries t); [done|done| |].
      * exists i. apply (upd_entry t i s r name i r); try done. by rewrite decide_True.
      * intros n Hne j q. rewrite (upd_entry t i s r n j q) by done. by rewrite decide_False by congruence.
Qed.

(** A name no symbol has is entered at the end of the table. *)
Lemma set_elf_sym_fresh bss t value size bind type other shndx name :
  hash_ok t -> bind <> STB_LOCAL -> checked_name name = name ->
  (forall i s, syms t !! i = Some s -> is_local s = false -> st_name s <> name) ->
  exists t', set_elf_sym bss t value size bind type other shndx name = (t', Z.of_nat (length (syms t)), false) /\
    hash_ok t' /\ syms t' = syms t ++ [mk_sym name value size bind type other shndx].
Proof.
  intros Hh Hb Hc Hfresh. unfold set_elf_sym. rewrite (proj2 (Z.eqb_neq _ _) Hb). cbn [negb].
  rewrite find_with_hash_spec, find_spec by done.
  assert (H0 : last_before (named name) (syms t) (length (syms t)) = 0).
  { destruct (last_before_spec (named name) (syms t) (length (syms t))) as [H|(i & s & _ & _ & Hs & Hn)]; [done|].
    apply andb_prop in Hn as [Hl%negb_true_iff Hn%bool_decide_eq_true]. by destruct (Hfresh i s Hs Hl). }
  rewrite H0. cbn [Z.eqb].
  pose proof (put_elf_sym_ok t value size bind type other shndx name Hh) as Hp. rewrite Hc in Hp.
  destruct (put_elf_sym t value size bind type other shndx name) as [t' i]. destruct Hp as (H1 & -> & _ & H3).
  exists (note_undef t' shndx). split; [done|]. split; [by apply note_hash_ok|done].
Qed.

(** ** Tables the linker builds *)

Inductive built (bss : Z) : SymTab -> Prop :=
| built_init nb dyn : 0 < nb -> built bss (init_symtab nb dyn)
| built_put t value size bind type other shndx name :
    built bss t -> built bss (put_elf_sym t value size bind type other shndx name).1
| built_set t value size bind type other shndx name :
    built bss t -> built bss (set_elf_sym bss t value size bind type other shndx name).1.1
| built_compact t : built bss t -> built bss (compact_undef t).

Lemma compact_hash_ok t : hash_ok t -> hash_ok (compact_undef t).
Proof. intros [nb hash chain Hd Hnb Hh Hc Hn H1 H2 H3]. by apply (mk_hash_ok _ nb hash chain). Qed.

Lemma built_hash_ok bss t : built bss t -> hash_ok t.
Proof.
  induction 1 as [nb dyn Hnb|t value size bind type other shndx name _ IH|t value size bind type other shndx name _ IH|t _ IH];
    [..|by apply compact_hash_ok].
  - by apply init_symtab_ok.
  - pose proof (put_elf_sym_ok t value size bind type other shndx name IH) as H.
    destruct (put_elf_sym _ _ _ _ _ _ _ _). by destruct H.
  - pose proof (put_elf_sym_ok t value size bind type other shndx name IH) as H.
    assert (Hput : hash_ok (put_elf_sym t value size bind type other shndx name).1)
      by (destruct (put_elf_sym _ _ _ _ _ _ _ _); by destruct H). clear H.
    unfold set_elf_sym. destruct (Z.eqb_spec bind STB_LOCAL) as [|Hb]; cbn [negb];
      [destruct (put_elf_sym _ _ _ _ _ _ _ _); by apply note_hash_ok|].
    destruct (Z.eqb _ 0) eqn:E; [destruct (put_elf_sym _ _ _ _ _ _ _ _); by apply note_hash_ok|].
    rewrite find_with_hash_spec, (find_spec t name IH) in * by done. apply Z.eqb_neq in E.
    destruct (last_before_spec (named name) (syms t) (length (syms t))) as [|(i & s & Hi & H1 & Hs & Hn)]; [done|].
    rewrite Hi in *. assert (Hat : sym_at t (Z.of_nat i) = s) by (unfold sym_at; by rewrite Nat2Z.id, Hs). rewrite Hat.
    apply andb_prop in Hn as [Hl%negb_true_iff _].
    pose proof (merge_key (is_dynsym t) bss s (mk_sym name value size bind type other shndx) Hl Hb) as Hk.
    destruct (merge_sym _ _ _ _) as [r err]. by eapply upd_hash_ok.
Qed.

(** In every symbol table the linker builds, whatever the sequence of symbols
    entered, replaced and rehashed, the hash lookup returns the last non-local symbol of
    the name, as a search of the whole table from its end would, and 0 when there is
    none. *)
Theorem find_elf_sym_is_last bss t name :
  built bss t -> find_elf_sym t name = last_before (named name) (syms t) (length (syms t)).
Proof. intros H. by eapply find_spec, built_hash_ok. Qed.

Definition demo_name : string := "main"%string.

Lemma find_elf_sym_is_last_witness :
  find_elf_sym (put_elf_sym (init_symtab 2 false) 16 4 STB_GLOBAL 2 0 1 demo_name).1 demo_name = 1.
Proof.
  rewrite (find_elf_sym_is_last 4); [vm_compute; reflexivity|]. apply built_put, built_init. lia.
Defined.

(** ** The list of undefined symbols *)

Definition undef_tracked (t : SymTab) : Prop :=
  is_symtab t = true -> forall i s, (1 <= i)%nat -> syms t !! i = Some s -> is_local s = false ->
    st_shndx s = SHN_UNDEF -> In (Z.of_nat i) (undef_sym_list t).

Lemma rebuild_lists t nb :
  is_symtab (rebuild_hash t nb) = is_symtab t /\ undef_sym_list (rebuild_hash t nb) = undef_sym_list t.
Proof. unfold rebuild_hash. by destruct (rebuild_loop _ _ _ _ _ _) as [[? ?] ?]. Qed.

Lemma put_lists t value size bind type other shndx name :
  let t' := (put_elf_sym t value size bind type other shndx name).1 in
  is_symtab t' = is_symtab t /\
  undef_sym_list t' = (if Z.eqb shndx SHN_UNDEF && negb (Z.eqb bind STB_LOCAL) && is_symtab t
                       then undef_sym_list t ++ [Z.of_nat (length (syms t))] else undef_sym_list t).
Proof.
  unfold put_elf_sym. cbv zeta. destruct (Z.eqb bind STB_LOCAL); cbn [negb]; [done|].
  destruct (Z.ltb _ _); [|done]. cbn [fst]. by rewrite (proj1 (rebuild_lists _ _)), (proj2 (rebuild_lists _ _)).
Qed.

(** A definition never becomes undefined again. *)
Lemma merge_undef dyn bss e new :
  st_shndx (merge_sym dyn bss e new).1 = SHN_UNDEF -> st_shndx e = SHN_UNDEF.
Proof.
  unfold merge_sym. cbv zeta. destruct (_ && _ && _ && _ && _); [done|].
  destruct (Z.eqb_spec (st_shndx e) SHN_UNDEF) as [|He]; cbn [negb]; [done|].
  destruct (Z.eqb_spec (st_shndx new) SHN_UNDEF) as [|Hn]; [done|].
  by repeat match goal with |- context [if ?b then _ else _] => destruct b end.
Qed.

Lemma put_tracked t value size bind type other shndx name :
  hash_ok t -> undef_tracked t -> undef_tracked (put_elf_sym t value size bind type other shndx name).1.
Proof.
  intros Hh Ht. pose proof (put_lists t value size bind type other shndx name) as [Hm Hu].
  pose proof (put_elf_sym_ok t value size bind type other shndx name Hh) as Hp.
  destruct (put_elf_sym t value size bind type other shndx name) as [t' k]. cbn [fst] in *.
  destruct Hp as (_ & _ & _ & Hs). intros H1 i s Hi Hl Hloc Hund. rewrite Hm in H1. rewrite H1, andb_true_r in Hu.
  rewrite Hu. clear Hu.
  rewrite Hs in Hl. apply lookup_app_Some in Hl as [Hl|[Hge Hl]].
  - specialize (Ht H1 i s Hi Hl Hloc Hund). destruct (_ && _); [apply in_or_app; by left|exact Ht].
  - apply list_lookup_singleton_Some in Hl as [Hz <-]. unfold is_local in Hloc. cbn in Hloc, Hund.
    rewrite Hloc, Hund. apply in_or_app. right. left. lia.
Qed.

Lemma compact_tracked t : undef_tracked t -> undef_tracked (compact_undef t).
Proof.
  intros Ht H1 i s Hi Hl Hloc Hund. cbn [compact_undef undef_sym_list].
  apply list_elem_of_In, list_elem_of_filter. split.
  - unfold sym_at. cbn in Hl. by rewrite Nat2Z.id, Hl.
  - apply list_elem_of_In. by apply (Ht H1 i s).
Qed.

Lemma set_tracked bss t value size bind type other shndx name :
  hash_ok t -> undef_tracked t -> undef_tracked (set_elf_sym bss t value size bind type other shndx name).1.1.
Proof.
  intros Hh Ht. pose proof (put_tracked t value size bind type other shndx name Hh Ht) as Hput.
  unfold set_elf_sym. destruct (Z.eqb_spec bind STB_LOCAL) as [|Hb]; cbn [negb];
    [by destruct (put_elf_sym _ _ _ _ _ _ _ _)|].
  destruct (Z.eqb _ 0) eqn:E; [by destruct (put_elf_sym _ _ _ _ _ _ _ _)|]. clear Hput.
  rewrite find_with_hash_spec, (find_spec t name Hh) in * by done. apply Z.eqb_neq in E.
  destruct (last_before_spec (named name) (syms t) (length (syms t))) as [|(k & r & Hk & H1 & Hr & Hn)]; [done|].
  rewrite Hk in *. assert (Hat : sym_at t (Z.of_nat k) = r) by (unfold sym_at; by rewrite Nat2Z.id, Hr). rewrite Hat.
  apply andb_prop in Hn as [Hrl%negb_true_iff _].
  pose proof (merge_undef (is_dynsym t) bss r (mk_sym name value size bind type other shndx)) as Hm.
  destruct (merge_sym _ _ _ _) as [q err]. cbn [fst] in Hm. intros G1 i s Hi Hl Hloc Hund.
  cbn [upd_sym syms undef_sym_list is_symtab fst] in *. rewrite Nat2Z.id in Hl.
  destruct (decide (i = k)) as [->|].
  - rewrite list_lookup_insert_eq in Hl by (by eapply lookup_lt_Some). injection Hl as ->.
    by apply (Ht G1 k r); [lia|done|done|apply Hm].
  - rewrite list_lookup_insert_ne in Hl by congruence. by apply (Ht G1 i s).
Qed.

(** In the main symbol table, whatever is entered, redefined, rehashed or compacted
    away, every non-local symbol still undefined is on the list of undefined symbols,
    the only symbols an archive is searched for. *)
Theorem undefined_symbols_tracked bss t i s :
  built bss t -> is_symtab t = true -> (1 <= i)%nat -> syms t !! i = Some s -> is_local s = false ->
  st_shndx s = SHN_UNDEF -> In (Z.of_nat i) (undef_sym_list t).
Proof.
  intros H H1 H2 H3 H4 H5. enough (Ht : undef_tracked t) by (by apply (Ht H1 i s)). clear - H.
  induction H as [nb dyn Hnb|t value size bind type other shndx name Hb IH|t value size bind type other shndx name Hb IH|t Hb IH].
  - intros _ [|i] s Hi Hs; [lia|done].
  - apply put_tracked; [by eapply built_hash_ok|done].
  - apply set_tracked; [by eapply built_hash_ok|done].
  - by apply compact_tracked.
Qed.

Definition demo_two : SymTab :=
  let t := (set_elf_sym 4 (init_symtab 2 false) 0 0 STB_GLOBAL 2 0 SHN_UNDEF "main"%string).1.1 in
  let t := (set_elf_sym 4 t 0 0 STB_GLOBAL 2 0 SHN_UNDEF "puts"%string).1.1 in
  compact_undef (set_elf_sym 4 t 64 4 STB_GLOBAL 2 0 1 "main"%string).1.1.

Lemma undefined_symbols_tracked_witness : undef_sym_list demo_two = [2] /\ In 2 (undef_sym_list demo_two).
Proof.
  split; [vm_compute; reflexivity|].
  apply (undefined_symbols_tracked 4 demo_two 2 (mk_sym "puts"%string 0 0 STB_GLOBAL 2 0 SHN_UNDEF));
    [|vm_compute; reflexivity|lia|vm_compute; reflexivity..].
  apply built_compact, built_set, built_set, built_set, built_init. lia.
Defined.

(** ** The map of a sequence of declarations *)

Definition enter (bss : Z) (t : SymTab) (s : Sym) : SymTab * Z * bool :=
  set_elf_sym bss t (st_value s) (st_size s) (st_bind s) (st_type s) (st_other s) (st_shndx s) (st_name s).

(** The table and the errors after a list of symbols. *)
Fixpoint enter_all (bss : Z) (t : SymTab) (l : list Sym) : SymTab * list bool :=
  match l with
  | [] => (t, [])
  | s :: l => let '(t, _, e) := enter bss t s in
              let '(t, es) := enter_all bss t l in (t, e :: es)
  end.

(** The abstract resolution: a finite map and a rule. *)
Fixpoint resolve_all (dyn : bool) (bss : Z) (m : string -> option Sym) (l : list Sym) : (string -> option Sym) * list bool :=
  match l with
  | [] => (m, [])
  | s :: l =>
      let '(r, e) := resolve dyn bss (m (st_name s)) s in
      let '(m, es) := resolve_all dyn bss (fun n => if decide (n = st_name s) then Some r else m n) l in (m, e :: es)
  end.

(** A symbol a file can declare for others: non-local, with a usable name. *)
Definition declarable (s : Sym) : Prop := st_bind s <> STB_LOCAL /\ checked_name (st_name s) = st_name s.

Lemma resolve_all_ext dyn bss m m' l :
  (forall n, m n = m' n) ->
  (forall n, (resolve_all dyn bss m l).1 n = (resolve_all dyn bss m' l).1 n) /\
  (resolve_all dyn bss m l).2 = (resolve_all dyn bss m' l).2.
Proof.
  revert m m'. induction l as [|s l IH]; intros m m' Hm; cbn [resolve_all]; [done|]. rewrite (Hm (st_name s)).
  destruct (resolve dyn bss (m' (st_name s)) s) as [r e].
  destruct (IH (fun n => if decide (n = st_name s) then Some r else m n)
               (fun n => if decide (n = st_name s) then Some r else m' n)) as [H1 H2];
    [intros n; by rewrite Hm|].
  destruct (resolve_all dyn bss _ l), (resolve_all dyn bss _ l); cbn in *. by rewrite H2.
Qed.

Lemma enter_all_map bss t l :
  tab_ok t -> Forall declarable l ->
  let '(t', es) := enter_all bss t l in
  let '(m, es') := resolve_all (is_dynsym t) bss (lookup_sym t) l in
  tab_ok t' /\ es = es' /\ forall n, lookup_sym t' n = m n.
Proof.
  intros Ht Hl. revert t Ht. induction Hl as [|s l [Hb Hc] Hl IH]; intros t Ht; cbn [enter_all resolve_all]; [done|].
  pose proof (set_elf_sym_map bss t (st_value s) (st_size s) (st_bind s) (st_type s) (st_other s) (st_shndx s)
    (st_name s) Ht Hb Hc) as H.
  replace (mk_sym (st_name s) (st_value s) (st_size s) (st_bind s) (st_type s) (st_other s) (st_shndx s)) with s in H
    by (by destruct s).
  unfold enter. destruct (resolve (is_dynsym t) bss (lookup_sym t (st_name s)) s) as [r e].
  destruct (set_elf_sym _ _ _ _ _ _ _ _ _) as [[t1 i] err]. destruct H as (Ht1 & Hd & _ & -> & Hlk).
  specialize (IH t1 Ht1). destruct (enter_all bss t1 l) as [t' es].
  pose proof (resolve_all_ext (is_dynsym t) bss (lookup_sym t1) (fun n => if decide (n = st_name s) then Some r else lookup_sym t n) l Hlk) as [H1 H2].
  rewrite Hd in IH. destruct (resolve_all _ _ (lookup_sym t1) l) as [m es1]. destruct (resolve_all _ _ _ l) as [m2 es2].
  cbn in H1, H2. destruct IH as (? & -> & Hn). repeat split; try apply H; [by rewrite H2|intros n; by rewrite Hn].
Qed.

Lemma init_tab_ok nb dyn : 0 < nb -> tab_ok (init_symtab nb dyn).
Proof.
  intros H. split; [by apply init_symtab_ok|]. intros i j s r Hi Hj Hs.
  apply list_lookup_singleton_Some in Hs as [-> _]. lia.
Qed.

(** C3: for every list of symbols declared by the inputs, the symbol table implements
    the abstract resolution: each name is bound to the symbol the merge rules give for
    the declarations of that name in order, no other name is affected, and the errors
    reported are those of the rules. *)
Theorem symbol_table_refines bss nb dyn l :
  0 < nb -> Forall declarable l ->
  let '(t, es) := enter_all bss (init_symtab nb dyn) l in
  let '(m, es') := resolve_all dyn bss (fun _ => None) l in
  es = es' /\ forall n, lookup_sym t n = m n.
Proof.
  intros Hnb Hl. pose proof (enter_all_map bss (init_symtab nb dyn) l (init_tab_ok nb dyn Hnb) Hl) as H.
  pose proof (resolve_all_ext dyn bss (lookup_sym (init_symtab nb dyn)) (fun _ => None) l) as [H1 H2].
  { intros n. unfold lookup_sym, find_elf_sym. done. }
  cbn [is_dynsym init_symtab] in H. destruct (enter_all _ _ l) as [t es].
  destruct (resolve_all dyn bss (lookup_sym _) l) as [m es1]. destruct (resolve_all dyn bss (fun _ => None) l) as [m2 es2].
  cbn in H1, H2. destruct H as (_ & -> & H). split; [done|]. intros n. by rewrite H.
Qed.

Definition demo_syms : list Sym :=
  [mk_sym demo_name 0 0 STB_GLOBAL 0 0 SHN_UNDEF; mk_sym demo_name 16 4 STB_WEAK 2 0 1; mk_sym demo_name 32 4 STB_GLOBAL 2 0 1].

Lemma symbol_table_refines_witness :
  lookup_sym (enter_all 4 (init_symtab 2 false) demo_syms).1 demo_name = Some (mk_sym demo_name 32 4 STB_GLOBAL 2 0 1).
Proof.
  pose proof (symbol_table_refines 4 2 false demo_syms) as H.
  destruct (enter_all 4 (init_symtab 2 false) demo_syms) as [t es] eqn:Et.
  destruct (resolve_all false 4 (fun _ => None) demo_syms) as [m es'] eqn:Em.
  destruct H as [_ H]; [lia| |].
  - repeat constructor; done.
  - cbn [fst]. rewrite H. injection Em as <- _. vm_compute. reflexivity.
Defined.

(** ** Strong definitions *)

(** A global definition in a section of its own, not made by an assembler [.set]. *)
Definition strong (bss : Z) (s : Sym) : Prop :=
  st_bind s = STB_GLOBAL /\ st_shndx s <> SHN_UNDEF /\ st_shndx s <> SHN_COMMON /\ st_shndx s <> bss /\
  Z.testbit (st_other s) 2 = false.

(** The part of a symbol that decides where it is. *)
Definition same_def (s r : Sym) : Prop :=
  st_value s = st_value r /\ st_size s = st_size r /\ st_shndx s = st_shndx r /\ st_bind s = st_bind r /\
  st_type s = st_type r.

(** A second definition that resolution must refuse. *)
Definition clashes (bss : Z) (old new : Sym) : Prop :=
  st_bind new = STB_GLOBAL /\ st_shndx new <> SHN_UNDEF /\ st_shndx new <> SHN_COMMON /\ st_shndx new <> bss /\
  ST_VISIBILITY (st_other new) <> STV_HIDDEN /\ ST_VISIBILITY (st_other new) <> STV_INTERNAL /\ ~ same_def old new.

Lemma vis_bit2 a b : Z.testbit (merge_vis (ST_VISIBILITY a) (ST_VISIBILITY b)) 2 = false.
Proof.
  unfold merge_vis, ST_VISIBILITY. repeat case_match; rewrite Z.land_spec, andb_false_r; done.
Qed.

Lemma other_bit2 o a b :
  Z.testbit ((o &&& (~~~ 3)) ||| merge_vis (ST_VISIBILITY a) (ST_VISIBILITY b)) 2 = Z.testbit o 2.
Proof. rewrite Z.lor_spec, vis_bit2, Z.land_spec, orb_false_r. apply andb_true_r. Qed.

Lemma asm_set_bit x : truth (x &&& ST_ASM_SET) = Z.testbit x 2.
Proof.
  unfold ST_ASM_SET. change 4 with (2 ^ 2). unfold truth. destruct (Z.testbit x 2) eqn:Hb.
  - apply negb_true_iff, Z.eqb_neq. intros E. apply (f_equal (fun z => Z.testbit z 2)) in E.
    rewrite Z.land_spec, Hb in E. done.
  - apply negb_false_iff, Z.eqb_eq, Z.bits_inj'. intros i Hi. rewrite Z.land_spec, Z.bits_0.
    destruct (decide (i = 2)) as [->|]; [by rewrite Hb|]. by rewrite Z.pow2_bits_false, andb_false_r by lia.
Qed.

(** Merging anything into a strong definition keeps it, and reports a clash. *)
Lemma merge_strong bss e new :
  strong bss e -> let '(r, err) := merge_sym false bss e new in
  strong bss r /\ same_def r e /\ st_name r = st_name e /\ (clashes bss e new -> err = true).
Proof.
  intros (H1 & H2 & H3 & H4 & H5). unfold merge_sym. cbv zeta.
  destruct (Z.eqb (st_value e) (st_value new) && _ && _ && _ && _) eqn:Heq.
  { split; [done|]. split; [done|]. split; [done|]. intros (_ & _ & _ & _ & _ & _ & Hd).
    destruct Hd. repeat (apply andb_prop in Heq; destruct Heq as [Heq ?]).
    repeat match goal with H : _ && _ = true |- _ => apply andb_prop in H; destruct H end.
    repeat match goal with H : Z.eqb _ _ = true |- _ => apply Z.eqb_eq in H end. done. }
  rewrite (proj2 (Z.eqb_neq _ _) H2). cbn [negb st_shndx with_other st_other].
  set (o := (st_other e &&& (~~~ 3)) ||| _).
  assert (Ho : Z.testbit o 2 = false) by (unfold o; by rewrite other_bit2).
  assert (Hk : strong bss (with_other e o) /\ same_def (with_other e o) e /\ st_name (with_other e o) = st_name e)
    by (unfold strong, same_def; cbn; done).
  rewrite H1, asm_set_bit, Ho. change (Z.eqb STB_GLOBAL STB_WEAK) with false. rewrite !andb_false_r.
  rewrite (proj2 (Z.eqb_neq _ _) H3), (proj2 (Z.eqb_neq _ _) H4). cbn [orb andb].
  repeat match goal with |- context [if ?b then _ else _] => destruct b eqn:? end;
    (split; [apply Hk|]); (split; [apply Hk|]); (split; [apply Hk|]);
    intros (C1 & C2 & C3 & C4 & C5 & C6 & _); try done; exfalso;
    repeat match goal with
    | H : _ || _ = true |- _ => apply orb_prop in H; destruct H
    | H : _ && _ = true |- _ => apply andb_prop in H; destruct H
    | H : Z.eqb _ _ = true |- _ => apply Z.eqb_eq in H
    end; try done. all: rewrite C1 in *; done.
Qed.

Lemma resolve_all_strong bss m l name e :
  m name = Some e -> strong bss e ->
  let '(m', es) := resolve_all false bss m l in
  exists e', m' name = Some e' /\ same_def e' e /\ strong bss e' /\
    ((exists d, In d l /\ st_name d = name /\ clashes bss e d) -> In true es).
Proof.
  revert m e. induction l as [|d l IH]; intros m e Hm He; cbn [resolve_all].
  - exists e. repeat split; try done; try apply He. by intros (d & [] & _).
  - set (x := resolve false bss (m (st_name d)) d).
    assert (Hx : exists e1 err, (fun n => if decide (n = st_name d) then Some x.1 else m n) name = Some e1 /\
      strong bss e1 /\ same_def e1 e /\ err = x.2 /\ (st_name d = name -> clashes bss e d -> err = true)).
    { destruct (decide (name = st_name d)) as [->|Hn].
      - unfold x. rewrite Hm. cbn [resolve]. pose proof (merge_strong bss e d He) as H.
        destruct (merge_sym false bss e d) as [r err]. destruct H as (H1 & H2 & H3 & H4).
        exists r, err. cbn [fst snd]. repeat split; try done; try apply H1; try apply H2.
      - exists e, x.2. repeat split; try done; try apply He. }
    destruct Hx as (e1 & err & Hm1 & Hs1 & Hd1 & -> & Herr).
    destruct x as [r e2] eqn:Ex. cbn [fst snd] in *.
    specialize (IH (fun n => if decide (n = st_name d) then Some r else m n) e1 Hm1 Hs1). destruct (resolve_all false bss _ l) as [m' es].
    destruct IH as (e' & H1 & H2 & H3 & H4). exists e'. split; [done|].
    assert (Hd : same_def e' e) by (unfold same_def in *; intuition congruence).
    split; [done|]. split; [done|]. intros (d' & [<-|Hin] & Hn & Hc).
    + left. by apply Herr.
    + right. apply H4. exists d'. repeat split; try done; try apply Hc.
      intros Hx. apply (proj2 (proj2 (proj2 (proj2 (proj2 (proj2 Hc)))))). unfold same_def in *. intuition congruence.
Qed.

(** Once the table has a strong definition of a name, no later declaration moves
    it: its value, size, section, binding and type stay, and if any later declaration
    of the name is a different strong definition that is not hidden, an error is
    reported. *)
Theorem strong_definition_stays bss t l name e :
  tab_ok t -> is_dynsym t = false -> Forall declarable l -> lookup_sym t name = Some e -> strong bss e ->
  let '(t', es) := enter_all bss t l in
  exists e', lookup_sym t' name = Some e' /\ same_def e' e /\
    ((exists d, In d l /\ st_name d = name /\ clashes bss e d) -> In true es).
Proof.
  intros Ht Hd Hl Hn He. pose proof (enter_all_map bss t l Ht Hl) as H. rewrite Hd in H.
  pose proof (resolve_all_strong bss (lookup_sym t) l name e Hn He) as G.
  destruct (enter_all bss t l) as [t' es], (resolve_all false bss (lookup_sym t) l) as [m es'].
  destruct H as (_ & -> & H), G as (e' & G1 & G2 & _ & G3). exists e'. by rewrite H.
Qed.

Lemma strong_definition_stays_witness :
  let t := (enter_all 4 (init_symtab 2 false) [mk_sym demo_name 32 4 STB_GLOBAL 2 0 1]).1 in
  In true (enter_all 4 t [mk_sym demo_name 64 4 STB_GLOBAL 2 0 1]).2.
Proof.
  intros t. pose proof (strong_definition_stays 4 t [mk_sym demo_name 64 4 STB_GLOBAL 2 0 1] demo_name
    (mk_sym demo_name 32 4 STB_GLOBAL 2 0 1)) as H.
  destruct (enter_all 4 t [mk_sym demo_name 64 4 STB_GLOBAL 2 0 1]) as [t' es]. cbn [snd].
  destruct H as (e' & _ & _ & H).
  - pose proof (enter_all_map 4 (init_symtab 2 false) [mk_sym demo_name 32 4 STB_GLOBAL 2 0 1]
      (init_tab_ok 2 false ltac:(lia))) as Hm. unfold t.
    destruct (enter_all 4 (init_symtab 2 false) _) as [t1 es1].
    destruct (resolve_all _ _ _ _) as [m1 es2]. destruct Hm as (Hm & _); [repeat constructor; done|exact Hm].
  - reflexivity.
  - repeat constructor; done.
  - vm_compute. reflexivity.
  - repeat split; done.
  - apply H. eexists. split; [by left|]. split; [done|]. repeat split; try done. intros (Hv & _). done.
Defined.
