(* ===== verification/ArmLink.v ===== *)
(** * The ARM linker backend: state, relocation classes, hot-text veneers

    The parts of [TCCState] that [arm-link.c] reads, the relocation types of
    [elf.h] with the two classifications the generic linker asks for
    ([code_reloc], [gotplt_entry_type]), and the instruction sequences the
    backend writes itself for a [--hot-text] call ([hot_text_fill_veneer]).

    [tcc_error_noabort] reports and continues, so the linker state carries the
    list of errors reported so far. *)

From S2P Require Import Prelude BitReflect Bytes ElfSym.
From stdpp Require Import list strings.
Local Open Scope Z_scope.
Local Open Scope c_scope.

(** ** ELF data *)

Record Section_ := mk_section {
  sh_addr : Z;       (* address in the image *)
  sh_num : Z;
  sh_size : Z;
  sec_data : Z;      (* host pointer to the contents *)
  data_offset : Z    (* bytes in use *)
}.

Definition undef_weak (sym : Sym) : bool :=
  Z.eqb (st_shndx sym) SHN_UNDEF && Z.eqb (st_bind sym) STB_WEAK.

Record sym_attr := mk_attr { got_offset : Z; plt_offset : Z; plt_sym : Z; dyn_index : Z }.

Definition TCC_OUTPUT_DLL : Z := 4.
Definition TCC_OUTPUT_DYN : Z := TCC_OUTPUT_DLL.

(** [section_ptr_add]: [size] more bytes in use; the pointer to them. *)
Definition section_ptr_add (s : Section_) (size : Z) : Section_ * Z :=
  (mk_section (sh_addr s) (sh_num s) (sh_size s) (sec_data s) (data_offset s + size),
   sec_data s + data_offset s).

(** ** Relocation types *)

Inductive reloc_type :=
| R_ARM_NONE | R_ARM_PC24 | R_ARM_ABS32 | R_ARM_REL32 | R_ARM_THM_PC22 | R_ARM_THM_PC8
| R_ARM_COPY | R_ARM_GLOB_DAT | R_ARM_JUMP_SLOT | R_ARM_RELATIVE | R_ARM_GOTOFF | R_ARM_GOTPC
| R_ARM_GOT32 | R_ARM_PLT32 | R_ARM_CALL | R_ARM_JUMP24 | R_ARM_THM_JUMP24 | R_ARM_TARGET1
| R_ARM_V4BX | R_ARM_TARGET2 | R_ARM_PREL31 | R_ARM_MOVW_ABS_NC | R_ARM_MOVT_ABS
| R_ARM_MOVW_PREL_NC | R_ARM_MOVT_PREL | R_ARM_THM_MOVW_ABS_NC | R_ARM_THM_MOVT_ABS
| R_ARM_THM_JUMP19 | R_ARM_THM_JUMP6 | R_ARM_THM_ALU_PREL_11_0 | R_ARM_THM_PC12 | R_ARM_GOT_PREL
| R_ARM_RODATA_OFF | R_ARM_GOT_SBREL12 | R_ARM_YASOS_LOCAL_CALL | R_ARM_YASOS_HOT_VENEER
| R_ARM_OTHER (n : Z).

#[global] Instance reloc_type_eq_dec : EqDecision reloc_type.
Proof. solve_decision. Defined.

Definition reloc_num (t : reloc_type) : Z :=
  match t with
  | R_ARM_NONE => 0 | R_ARM_PC24 => 1 | R_ARM_ABS32 => 2 | R_ARM_REL32 => 3
  | R_ARM_THM_PC22 => 10 | R_ARM_THM_PC8 => 11 | R_ARM_COPY => 20 | R_ARM_GLOB_DAT => 21
  | R_ARM_JUMP_SLOT => 22 | R_ARM_RELATIVE => 23 | R_ARM_GOTOFF => 24 | R_ARM_GOTPC => 25
  | R_ARM_GOT32 => 26 | R_ARM_PLT32 => 27 | R_ARM_CALL => 28 | R_ARM_JUMP24 => 29
  | R_ARM_THM_JUMP24 => 30 | R_ARM_TARGET1 => 38 | R_ARM_V4BX => 40 | R_ARM_TARGET2 => 41
  | R_ARM_PREL31 => 42 | R_ARM_MOVW_ABS_NC => 43 | R_ARM_MOVT_ABS => 44
  | R_ARM_MOVW_PREL_NC => 45 | R_ARM_MOVT_PREL => 46 | R_ARM_THM_MOVW_ABS_NC => 47
  | R_ARM_THM_MOVT_ABS => 48 | R_ARM_THM_JUMP19 => 51 | R_ARM_THM_JUMP6 => 52
  | R_ARM_THM_ALU_PREL_11_0 => 53 | R_ARM_THM_PC12 => 54 | R_ARM_GOT_PREL => 96
  | R_ARM_RODATA_OFF => 137 | R_ARM_GOT_SBREL12 => 138 | R_ARM_YASOS_LOCAL_CALL => 139
  | R_ARM_YASOS_HOT_VENEER => 140 | R_ARM_OTHER n => n
  end.

Record Rel := mk_rel { r_offset : Z; r_sym : Z; r_type : reloc_type }.

(** 1 for a code relocation, 0 for a data relocation, -1 for an unknown one. *)
Definition code_reloc (t : reloc_type) : Z :=
  match t with
  | R_ARM_YASOS_HOT_VENEER | R_ARM_MOVT_ABS | R_ARM_MOVW_ABS_NC | R_ARM_THM_MOVT_ABS
  | R_ARM_THM_MOVW_ABS_NC | R_ARM_ABS32 | R_ARM_REL32 | R_ARM_GOTPC | R_ARM_GOTOFF
  | R_ARM_RODATA_OFF | R_ARM_GOT32 | R_ARM_GOT_SBREL12 | R_ARM_GOT_PREL | R_ARM_COPY
  | R_ARM_GLOB_DAT | R_ARM_NONE | R_ARM_TARGET1 | R_ARM_MOVT_PREL | R_ARM_MOVW_PREL_NC => 0
  | R_ARM_PC24 | R_ARM_CALL | R_ARM_JUMP24 | R_ARM_PLT32 | R_ARM_THM_PC22 | R_ARM_THM_JUMP24
  | R_ARM_THM_JUMP19 | R_ARM_PREL31 | R_ARM_V4BX | R_ARM_JUMP_SLOT | R_ARM_THM_ALU_PREL_11_0
  | R_ARM_THM_JUMP6 | R_ARM_THM_PC12 | R_ARM_THM_PC8 | R_ARM_YASOS_LOCAL_CALL => 1
  | _ => -1
  end.

Inductive gotplt_entry :=
  NO_GOTPLT_ENTRY | BUILD_GOT_ONLY | AUTO_GOTPLT_ENTRY | ALWAYS_GOTPLT_ENTRY.

(** [None] stands for the -1 of an unknown type. *)
Definition gotplt_entry_type (t : reloc_type) : option gotplt_entry :=
  match t with
  | R_ARM_NONE | R_ARM_COPY | R_ARM_GLOB_DAT | R_ARM_JUMP_SLOT | R_ARM_YASOS_LOCAL_CALL =>
      Some NO_GOTPLT_ENTRY
  | R_ARM_PC24 | R_ARM_CALL | R_ARM_JUMP24 | R_ARM_PLT32 | R_ARM_YASOS_HOT_VENEER
  | R_ARM_THM_PC22 | R_ARM_THM_ALU_PREL_11_0 | R_ARM_THM_JUMP6 | R_ARM_THM_JUMP19
  | R_ARM_THM_JUMP24 | R_ARM_MOVT_ABS | R_ARM_MOVW_ABS_NC | R_ARM_THM_MOVT_ABS
  | R_ARM_THM_MOVW_ABS_NC | R_ARM_PREL31 | R_ARM_ABS32 | R_ARM_REL32 | R_ARM_V4BX
  | R_ARM_TARGET1 | R_ARM_MOVT_PREL | R_ARM_MOVW_PREL_NC | R_ARM_THM_PC12 | R_ARM_THM_PC8 =>
      Some AUTO_GOTPLT_ENTRY
  | R_ARM_GOTPC | R_ARM_GOTOFF | R_ARM_RODATA_OFF => Some BUILD_GOT_ONLY
  | R_ARM_GOT32 | R_ARM_GOT_SBREL12 | R_ARM_GOT_PREL => Some ALWAYS_GOTPLT_ENTRY
  | _ => None
  end.

(** ** The linker's state *)

(** The fields of [TCCState] the backend reads while relocating. *)
Record LinkEnv := mk_env {
  output_type : Z;
  got : option Section_;
  plt : option Section_;
  text_section : Section_;
  rodata_section : Section_;
  hot_text_start : Z;
  hot_text_end : Z;
  symtab : list Sym;
  sym_attrs : Z -> sym_attr     (* get_sym_attr(s1, index, 0) *)
}.

Inductive link_error :=
| Err_range (addr : Z) (t : reloc_type)     (* the operand cannot hold the offset *)
| Err_local_call (sym addr : Z)
| Err_not_rodata (sym : Z)
| Err_got_offset (sym off : Z)
| Err_veneer_import (off : Z)
| Err_veneer_reach (sym addr : Z)
| Err_hot_cross (t : reloc_type) (off sym : Z)
| Err_defined_twice (name : string).

(** What a relocation changes: the bytes, the errors, the output relocations
    ([qrel]). *)
Record LinkState := mk_st { st_mem : mem; errors : list link_error; qrel : list Rel }.

Definition with_mem (st : LinkState) (m : mem) : LinkState := mk_st m (errors st) (qrel st).
Definition tcc_error_noabort (st : LinkState) (e : link_error) : LinkState :=
  mk_st (st_mem st) (errors st ++ [e]) (qrel st).

Definition sh_addr_of (s : option Section_) : Z := from_option sh_addr 0 s.

(** [val >= plt->sh_addr && val < plt->sh_addr + plt->data_offset], false without
    a PLT; the sum is a 32-bit address. *)
Definition in_plt (env : LinkEnv) (val : Z) : bool :=
  match plt env with
  | None => false
  | Some p => Z.leb (sh_addr p) val && Z.ltb val (u32 (sh_addr p + data_offset p))
  end.

(** ** Hot-text veneers *)

Definition PTR_SIZE : Z := 4.
Definition HOT_VENEER_SIZE : Z := 20.
Definition HOT_GOT_SLOT_TEXT : Z := 4.
Definition HOT_GOT_SLOT_HOT : Z := 5.

Definition hot_text_pc_relative (t : reloc_type) : bool :=
  match t with
  | R_ARM_THM_JUMP19 | R_ARM_THM_JUMP6 | R_ARM_THM_PC12 | R_ARM_THM_PC8
  | R_ARM_THM_ALU_PREL_11_0 | R_ARM_MOVT_PREL | R_ARM_MOVW_PREL_NC | R_ARM_REL32
  | R_ARM_PREL31 => true
  | _ => false
  end.

Definition in_block (start stop a : Z) : bool := Z.leb start a && Z.ltb a stop.

Definition hot_text_in_block (env : LinkEnv) (a : Z) : bool :=
  in_block (hot_text_start env) (hot_text_end env) a.

(** The write cursor: the buffer and the pointer [p]. *)
Definition cursor : Type := mem * Z.

Definition hot_put16 (c : cursor) (v : Z) : cursor := (write16le c.1 c.2 (u16 v), c.2 + 2).

(** [while (!(v & (1u << top))) top--;] *)
Fixpoint hot_top (v : Z) (top : nat) : nat :=
  match top with
  | O => O
  | S t => if truth (v &&& (1 <<< Z.of_nat top)) then top else hot_top v t
  end.

Definition hot_put_add_ip (c : cursor) (v : Z) : cursor :=
  if Z.eqb v 0 then c
  else
    let top := Z.of_nat (hot_top v 31) in
    let n := 39 - top in
    let i := n >>> 4 in
    let imm3 := (n >>> 1) &&& 7 in
    let imm8 := ((n &&& 1) <<< 7) ||| ((v >>> (top - 7)) &&& 0x7f) in
    let c := hot_put16 c (0xf10c ||| (i <<< 10)) in
    hot_put16 c ((imm3 <<< 12) ||| (0xc <<< 8) ||| imm8).

(** [while (p < ptr + HOT_VENEER_SIZE) hot_put16(&p, 0xbf00);] *)
Fixpoint hot_pad (fuel : nat) (c : cursor) (stop : Z) : cursor :=
  match fuel with
  | O => c
  | S n => if Z.ltb c.2 stop then hot_pad n (hot_put16 c 0xbf00) stop else c
  end.

(** The stub of an import: what its PLT entry does, from the offset [off]. *)
Definition hot_put_import (c : cursor) (off : Z) : cursor :=
  let c := hot_put16 c (0xf240 ||| ((off >>> 1) &&& 0x400) ||| (off >>> 12)) in
  let c := hot_put16 c ((((off >>> 8) &&& 7) <<< 12) ||| (0xc <<< 8) ||| (off &&& 0xff)) in
  let c := hot_put16 c 0x44cc in
  let c := hot_put16 c 0xf8dc in
  let c := hot_put16 c 0x9004 in
  let c := hot_put16 c 0xf8dc in
  hot_put16 c 0xf000.

(** A jump to the base in GOT slot [slot] plus [off]. *)
Definition hot_put_jump (c : cursor) (slot off : Z) : cursor :=
  let c := hot_put16 c 0xf8d9 in
  let c := hot_put16 c (0xc000 ||| slot) in
  let c := hot_put16 c (0xf20c ||| ((off >>> 1) &&& 0x400)) in
  let c := hot_put16 c ((((off >>> 8) &&& 7) <<< 12) ||| (0xc <<< 8) ||| (off &&& 0xff)) in
  let c := hot_put_add_ip c (off &&& 0x000ff000) in
  let c := hot_put_add_ip c (off &&& 0x0ff00000) in
  hot_put16 c 0x4760.

Definition hot_text_fill_veneer (env : LinkEnv) (sym_index : Z) (st : LinkState)
    (ptr addr val : Z) : LinkState :=
  let text := sh_addr (text_section env) in
  let src_hot := hot_text_in_block env (u32 (addr - text)) in
  let finish st c := with_mem st (hot_pad 10 c (ptr + HOT_VENEER_SIZE)).1 in
  if src_hot && in_plt env val then
    let entry := (u32 (val - sh_addr_of (plt env))) &&& (~~~ 31) in
    let off := read32le (st_mem st) (from_option sec_data 0 (plt env) + entry + 28) in
    let st := if Z.ltb 0xffff off then tcc_error_noabort st (Err_veneer_import off) else st in
    finish st (hot_put_import (st_mem st, ptr) off)
  else
    let slot := (if src_hot then HOT_GOT_SLOT_TEXT else HOT_GOT_SLOT_HOT) * PTR_SIZE * 2 in
    let base := u32 (text + (if src_hot then 0 else hot_text_start env)) in
    let target := val &&& (~~~ 1) in
    let off := u32 (target - base) in
    if Z.ltb target base || Z.leb (1 <<< 28) off || truth (off &&& 1) ||
       (negb src_hot && negb (hot_text_in_block env (u32 (target - text)))) ||
       (src_hot && Z.leb (u32 (text + data_offset (text_section env))) target)
    then tcc_error_noabort st (Err_veneer_reach sym_index addr)
    else finish st (hot_put_jump (st_mem st, ptr) slot off).

(** The two reserved GOT slots hold raw offsets ([arm_hot_text_fill_got]). *)
Definition arm_hot_text_fill_got (env : LinkEnv) (m : mem) : mem :=
  match got env with
  | Some g =>
      if truth (hot_text_end env) then
        let text := sh_addr (text_section env) in
        let m := write32le m (sec_data g + HOT_GOT_SLOT_TEXT * PTR_SIZE * 2) (u32 (text + 1)) in
        write32le m (sec_data g + HOT_GOT_SLOT_HOT * PTR_SIZE * 2) (u32 (text + hot_text_start env))
      else m
  | None => m
  end.
