(* ===== verification/HotVeneer.v ===== *)
(** * The halfwords of a hot-text veneer

    The write cursor of [hot_put16] lays halfwords one after another; a veneer is
    a list of them, padded with NOPs to its fixed size. *)

From S2P Require Import Prelude BitReflect Bytes ArmDecode ElfSym ArmLink.
From stdpp Require Import list.
Local Open Scope Z_scope.
Local Open Scope c_scope.

Definition put_list (c : cursor) (ws : list Z) : cursor := fold_left hot_put16 ws c.

(** The halfwords [ws] are in memory from [p]. *)
Fixpoint halves_at (m : mem) (p : Z) (ws : list Z) : Prop :=
  match ws with
  | [] => True
  | w :: ws => read16le m p = u16 w /\ halves_at m (p + 2) ws
  end.

Lemma put_list_app c l k : put_list c (l ++ k) = put_list (put_list c l) k.
Proof. apply fold_left_app. Qed.

Lemma put_list_end c ws : (put_list c ws).2 = c.2 + 2 * Z.of_nat (length ws).
Proof.
  revert c. induction ws as [|w ws IH]; intros c; cbn [put_list fold_left length]; [lia|].
  fold (put_list (hot_put16 c w) ws). rewrite IH. cbn. lia.
Qed.

Lemma put_list_only c ws p n :
  p <= c.2 -> c.2 + 2 * Z.of_nat (length ws) <= p + n -> only_changes c.1 (put_list c ws).1 p n.
Proof.
  revert c. induction ws as [|w ws IH]; intros c H1 H2; [done|].
  cbn [put_list fold_left]. fold (put_list (hot_put16 c w) ws). cbn [length] in H2.
  eapply only_changes_trans; [|apply IH; cbn; lia].
  intros a Ha. cbn. apply write16_other. lia.
Qed.

Lemma put_list_at c ws : halves_at (put_list c ws).1 c.2 ws.
Proof.
  revert c. induction ws as [|w ws IH]; intros c; [done|].
  cbn [put_list fold_left halves_at]. fold (put_list (hot_put16 c w) ws). split; [|apply (IH (hot_put16 c w))].
  erewrite (read16_other (hot_put16 c w).1 _ (c.2 + 2) (2 * Z.of_nat (length ws))); [|apply put_list_only; cbn; lia|lia].
  cbn. rewrite read16_write16. unfold u16. by rewrite <-Z.land_assoc, Z.land_diag.
Qed.

(** Writing the same halfwords over memories that agree. *)
Lemma put_list_same m1 m2 q ws a :
  q <= a < q + 2 * Z.of_nat (length ws) -> (put_list (m1, q) ws).1 a = (put_list (m2, q) ws).1 a.
Proof.
  revert m1 m2 q. induction ws as [|w ws IH]; intros m1 m2 q Ha; cbn [length] in Ha; [lia|].
  cbn [put_list fold_left]. fold (put_list (hot_put16 (m1, q) w) ws) (put_list (hot_put16 (m2, q) w) ws).
  destruct (decide (a < q + 2)).
  - rewrite !(put_list_only _ ws (q + 2) (2 * Z.of_nat (length ws))) by (cbn; lia).
    cbn. unfold write16le, set_byte. repeat case_match; lia.
  - apply IH. cbn. lia.
Qed.

Lemma hot_pad_list fuel m p k :
  (k <= fuel)%nat -> hot_pad fuel (m, p) (p + 2 * Z.of_nat k) = put_list (m, p) (replicate k 0xbf00).
Proof.
  revert m p k. induction fuel as [|fuel IH]; intros m p k Hk; [by destruct k; [|lia]|].
  destruct k as [|k]; cbn [hot_pad replicate snd].
  - by rewrite (proj2 (Z.ltb_ge _ _)) by lia.
  - rewrite (proj2 (Z.ltb_lt _ _)) by lia. cbn [put_list fold_left].
    replace (p + 2 * Z.of_nat (S k)) with (p + 2 + 2 * Z.of_nat k) by lia.
    apply (IH _ (p + 2)). lia.
Qed.

(** ** The two sequences *)

Definition add_ip_words (v : Z) : list Z :=
  if Z.eqb v 0 then []
  else
    let top := Z.of_nat (hot_top v 31) in
    let n := 39 - top in
    [0xf10c ||| ((n >>> 4) <<< 10);
     (((n >>> 1) &&& 7) <<< 12) ||| (0xc <<< 8) ||| (((n &&& 1) <<< 7) ||| ((v >>> (top - 7)) &&& 0x7f))].

Definition import_words (off : Z) : list Z :=
  [0xf240 ||| ((off >>> 1) &&& 0x400) ||| (off >>> 12);
   (((off >>> 8) &&& 7) <<< 12) ||| (0xc <<< 8) ||| (off &&& 0xff);
   0x44cc; 0xf8dc; 0x9004; 0xf8dc; 0xf000].

Definition jump_words (slot off : Z) : list Z :=
  [0xf8d9; 0xc000 ||| slot; 0xf20c ||| ((off >>> 1) &&& 0x400);
   (((off >>> 8) &&& 7) <<< 12) ||| (0xc <<< 8) ||| (off &&& 0xff)] ++
  add_ip_words (off &&& 0x000ff000) ++ add_ip_words (off &&& 0x0ff00000) ++ [0x4760].

Lemma hot_put_add_ip_list c v : hot_put_add_ip c v = put_list c (add_ip_words v).
Proof. unfold hot_put_add_ip, add_ip_words. by destruct (Z.eqb v 0). Qed.

Lemma hot_put_jump_list c slot off : hot_put_jump c slot off = put_list c (jump_words slot off).
Proof.
  unfold hot_put_jump, jump_words. cbv zeta. by rewrite !hot_put_add_ip_list, !put_list_app.
Qed.

Definition pad20 (ws : list Z) : list Z := ws ++ replicate (10 - length ws) 0xbf00.

Lemma jump_words_length slot off : (length (jump_words slot off) <= 10)%nat.
Proof. unfold jump_words, add_ip_words. rewrite !length_app. repeat case_match; cbn; lia. Qed.

Lemma pad20_length ws : (length ws <= 10)%nat -> length (pad20 ws) = 10%nat.
Proof. intros H. unfold pad20. rewrite length_app, length_replicate. lia. Qed.

Lemma finish_list m ptr ws :
  (length ws <= 10)%nat ->
  hot_pad 10 (put_list (m, ptr) ws) (ptr + HOT_VENEER_SIZE) = put_list (m, ptr) (pad20 ws).
Proof.
  intros H. unfold pad20. rewrite put_list_app.
  pose proof (put_list_end (m, ptr) ws) as He. destruct (put_list (m, ptr) ws) as [m' p'].
  cbn [snd] in He. rewrite <-(hot_pad_list 10) by lia. f_equal. unfold HOT_VENEER_SIZE. lia.
Qed.

(** ** What filling a veneer does *)

Inductive veneer :=
| V_import (off : Z)      (* the PLT stub of an import, GOT offset [off] *)
| V_jump (slot off : Z)   (* to [off] beyond the base in GOT slot [slot] *)
| V_none.                 (* unreachable: an error *)

Definition veneer_words (v : veneer) : list Z :=
  match v with V_import off => pad20 (import_words off) | V_jump slot off => pad20 (jump_words slot off) | V_none => [] end.

Definition plt_entry (env : LinkEnv) (val : Z) : Z :=
  from_option sec_data 0 (plt env) + ((u32 (val - sh_addr_of (plt env))) &&& (~~~ 31)).

Definition hot_src (env : LinkEnv) (addr : Z) : bool :=
  hot_text_in_block env (u32 (addr - sh_addr (text_section env))).

Definition veneer_slot (env : LinkEnv) (addr : Z) : Z := if hot_src env addr then 32 else 40.
Definition veneer_base (env : LinkEnv) (addr : Z) : Z :=
  u32 (sh_addr (text_section env) + if hot_src env addr then 0 else hot_text_start env).

Definition veneer_off (env : LinkEnv) (addr val : Z) : Z := u32 ((val &&& (~~~ 1)) - veneer_base env addr).

(** The conditions under which no veneer reaches the target. *)
Definition veneer_unreachable (env : LinkEnv) (addr val : Z) : bool :=
  let text := sh_addr (text_section env) in
  let target := val &&& (~~~ 1) in
  let off := veneer_off env addr val in
  Z.ltb target (veneer_base env addr) || Z.leb (1 <<< 28) off || truth (off &&& 1) ||
  (negb (hot_src env addr) && negb (hot_text_in_block env (u32 (target - text)))) ||
  (hot_src env addr && Z.leb (u32 (text + data_offset (text_section env))) target).

Definition veneer_kind (env : LinkEnv) (m : mem) (addr val : Z) : veneer :=
  if hot_src env addr && in_plt env val then V_import (read32le m (plt_entry env val + 28))
  else if veneer_unreachable env addr val then V_none
  else V_jump (veneer_slot env addr) (veneer_off env addr val).

Definition veneer_errors (v : veneer) (sym_index addr : Z) : list link_error :=
  match v with
  | V_import off => if Z.ltb 0xffff off then [Err_veneer_import off] else []
  | V_jump _ _ => []
  | V_none => [Err_veneer_reach sym_index addr]
  end.

Lemma fill_veneer_eq env sym_index st ptr addr val :
  let v := veneer_kind env (st_mem st) addr val in
  hot_text_fill_veneer env sym_index st ptr addr val =
  mk_st (put_list (st_mem st, ptr) (veneer_words v)).1 (errors st ++ veneer_errors v sym_index addr) (qrel st).
Proof.
  cbv zeta. unfold hot_text_fill_veneer, veneer_kind, plt_entry. cbv zeta.
  fold (hot_src env addr). destruct (hot_src env addr && in_plt env val) eqn:Hp; cbn [veneer_words veneer_errors].
  - set (off := read32le _ _). change hot_put_import with (fun c off => put_list c (import_words off)).
    destruct (Z.ltb 0xffff off); cbn [st_mem with_mem tcc_error_noabort].
    all: rewrite finish_list by (cbn; lia); unfold with_mem; cbn; by rewrite ?app_nil_r.
  - fold (veneer_base env addr). fold (veneer_off env addr val). fold (veneer_unreachable env addr val).
    destruct (veneer_unreachable env addr val); cbn [veneer_words veneer_errors]; [done|].
    rewrite hot_put_jump_list, finish_list by apply jump_words_length.
    unfold with_mem. rewrite app_nil_r. unfold veneer_slot. by destruct (hot_src env addr).
Qed.

Lemma veneer_words_length v : (length (veneer_words v) <= 10)%nat.
Proof.
  destruct v; cbn [veneer_words]; [rewrite pad20_length; cbn; lia| |cbn; lia].
  rewrite pad20_length; [lia|apply jump_words_length].
Qed.

Lemma fill_veneer_only env sym_index st ptr addr val :
  only_changes (st_mem st) (st_mem (hot_text_fill_veneer env sym_index st ptr addr val)) ptr HOT_VENEER_SIZE.
Proof.
  rewrite fill_veneer_eq. cbn [st_mem]. pose proof (veneer_words_length (veneer_kind env (st_mem st) addr val)).
  apply put_list_only; cbn; [lia|]. unfold HOT_VENEER_SIZE. lia.
Qed.
