(* ===== verification/ArmReloc.v ===== *)
(** * Relocation of one field: [relocate] of [arm-link.c]

    One definition per case of the switch, then the dispatch and the loop over a
    section's relocations ([relocate_section] of [tccelf_reloc.c]).  [ptr] points
    at the field in the section's data, [addr] is its address in the image and
    [val] the symbol's value; addresses are 32-bit, [int] arithmetic wraps. *)

From S2P Require Import Prelude BitReflect Bytes ElfSym ArmLink.
From stdpp Require Import list strings.
From Stdlib Require String.
Local Open Scope Z_scope.
Local Open Scope c_scope.

(** The two halfwords of a 32-bit Thumb instruction, stored in order. *)
Definition write_halves (m : mem) (ptr hi lo : Z) : mem :=
  write16le (write16le m ptr (u16 hi)) (ptr + 2) (u16 lo).

Definition CONFIG_TCC_CPUVER : Z := 5.

(** ** ARM branches: R_ARM_PC24, R_ARM_CALL, R_ARM_JUMP24, R_ARM_PLT32 *)

Definition reloc_arm_branch (t : reloc_type) (st : LinkState) (ptr addr val : Z) : LinkState :=
  let x := read32le (st_mem st) ptr &&& 0xffffff in
  let st := with_mem st (write32le (st_mem st) ptr (read32le (st_mem st) ptr &&& 0xff000000)) in
  let x := if truth (x &&& 0x800000) then x - 0x1000000 else x in
  let x := Z.shiftl x 2 in
  let blx_avail := Z.leb 5 CONFIG_TCC_CPUVER in
  let is_thumb := val &&& 1 in
  let is_bl := Z.eqb (read32le (st_mem st) ptr >>> 24) 0xeb in
  let is_call := bool_decide (t = R_ARM_CALL) || (bool_decide (t = R_ARM_PC24) && is_bl) in
  let x := s32 (x + (val - addr)) in
  let h := x &&& 2 in
  let th_ko := truth (x &&& 3) && (negb blx_avail || negb is_call) in
  let st := if th_ko || Z.leb 0x2000000 x || Z.ltb x (-0x2000000)
            then tcc_error_noabort st (Err_range addr t) else st in
  let x := (x >>> 2) &&& 0xffffff in
  if truth is_thumb then
    let x := x ||| Z.shiftl h 24 in
    let st := with_mem st (write32le (st_mem st) ptr (0xfa <<< 24)) in
    with_mem st (write32le (st_mem st) ptr (read32le (st_mem st) ptr ||| x))
  else with_mem st (write32le (st_mem st) ptr (read32le (st_mem st) ptr ||| x)).

(** ** Thumb PC-relative operands *)

(** CBZ, CBNZ. *)
Definition reloc_thm_jump6 (t : reloc_type) (sym : Sym) (st : LinkState) (ptr addr val : Z) : LinkState :=
  if undef_weak sym then st
  else
    let orig := read16le (st_mem st) ptr in
    let x := s32 (val - addr - 4) in
    if Z.ltb x 0 || Z.ltb 126 x || truth (x &&& 1) then tcc_error_noabort st (Err_range addr t)
    else
      let x := x >>> 1 in
      let i := (x >>> 5) &&& 1 in
      let imm5 := x &&& 0x1f in
      with_mem st (write16le (st_mem st) ptr (u16 (orig ||| Z.shiftl i 9 ||| Z.shiftl imm5 3))).

(** ADR. *)
Definition reloc_thm_alu_prel (t : reloc_type) (sym : Sym) (st : LinkState) (ptr addr val : Z) : LinkState :=
  if undef_weak sym then st
  else
    let hi := read16le (st_mem st) ptr in
    let lo := read16le (st_mem st) (ptr + 2) in
    let i := (hi >>> 10) &&& 1 in
    let imm3 := (lo >>> 12) &&& 0x7 in
    let imm8 := lo &&& 0xff in
    let addend := Z.shiftl i 11 ||| Z.shiftl imm3 8 ||| imm8 in
    let addend := if truth (hi &&& 0x0080) then - addend else addend in
    let addr := addr &&& (~~~ 3) in
    let x := s32 (s32 val + addend - s32 addr - 4) in
    let s := if Z.ltb x 0 then 0xa else 0 in
    let x := if Z.ltb x 0 then s32 (- x) else x in
    if Z.ltb 0xfff x then tcc_error_noabort st (Err_range addr t)
    else
      let i := (x >>> 11) &&& 1 in
      let imm3 := (x >>> 8) &&& 0x7 in
      let imm8 := x &&& 0xff in
      with_mem st (write_halves (st_mem st) ptr
        (u16 ((hi &&& 0xfb0f) ||| Z.shiftl i 10) ||| Z.shiftl s 4)
        ((lo &&& 0x8f00) ||| Z.shiftl imm3 12 ||| imm8)).

(** LDR (literal). *)
Definition reloc_thm_pc12 (t : reloc_type) (sym : Sym) (st : LinkState) (ptr addr val : Z) : LinkState :=
  if undef_weak sym then st
  else
    let hi := read16le (st_mem st) ptr in
    let orig := read16le (st_mem st) (ptr + 2) in
    let addend := orig &&& 0xfff in
    let addend := if negb (truth (hi &&& 0x0080)) then - addend else addend in
    let addr := addr &&& (~~~ 3) in
    let x := s32 (s32 val + addend - s32 addr - 4) in
    if Z.ltb x (-0xfff) || Z.ltb 0xfff x then tcc_error_noabort st (Err_range addr t)
    else
      let hi := if Z.ltb x 0 then hi &&& 0xff7f else hi ||| 0x0080 in
      let x := if Z.ltb x 0 then - x else x in
      with_mem st (write_halves (st_mem st) ptr hi ((orig &&& 0xf000) ||| x)).

(** LDRD (literal). *)
Definition reloc_thm_pc8 (t : reloc_type) (sym : Sym) (st : LinkState) (ptr addr val : Z) : LinkState :=
  if undef_weak sym then st
  else
    let hi := read16le (st_mem st) ptr in
    let orig := read16le (st_mem st) (ptr + 2) in
    let addend := Z.shiftl (orig &&& 0xff) 2 in
    let addend := if negb (truth (hi &&& 0x0080)) then - addend else addend in
    let addr := addr &&& (~~~ 3) in
    let x := s32 (s32 val + addend - s32 addr - 4) in
    if Z.ltb x (-0x3fc) || Z.ltb 0x3fc x || truth (x &&& 3) then tcc_error_noabort st (Err_range addr t)
    else
      let hi := if Z.ltb x 0 then hi &&& 0xff7f else hi ||| 0x0080 in
      let x := if Z.ltb x 0 then - x else x in
      with_mem st (write_halves (st_mem st) ptr hi ((orig &&& 0xff00) ||| (x >>> 2))).

(** Conditional B.W: an offset out of range is reported and still encoded. *)
Definition reloc_thm_jump19 (t : reloc_type) (sym : Sym) (st : LinkState) (ptr addr val : Z) : LinkState :=
  if undef_weak sym then st
  else
    let hi := read16le (st_mem st) ptr in
    let lo := read16le (st_mem st) (ptr + 2) in
    let s := (hi >>> 10) &&& 1 in
    let j1 := (lo >>> 13) &&& 1 in
    let j2 := (lo >>> 11) &&& 1 in
    let imm6 := hi &&& 0x3f in
    let imm11 := lo &&& 0x7ff in
    let x := Z.shiftl s 20 ||| Z.shiftl j2 19 ||| Z.shiftl j1 18 ||| Z.shiftl imm6 12 ||| Z.shiftl imm11 1 in
    let x := if truth (x &&& 0x100000) then x - 0x200000 else x in
    let x := s32 (x + (val - addr)) in
    let st := if Z.leb 0x100000 x || Z.ltb x (-0x100000)
              then tcc_error_noabort st (Err_range addr t) else st in
    let s := (x >>> 20) &&& 1 in
    let j2 := (x >>> 19) &&& 1 in
    let j1 := (x >>> 18) &&& 1 in
    let imm6 := (x >>> 12) &&& 0x3f in
    let imm11 := (x >>> 1) &&& 0x7ff in
    with_mem st (write_halves (st_mem st) ptr
      ((hi &&& 0xfbc0) ||| Z.shiftl s 10 ||| imm6)
      ((lo &&& 0xd000) ||| Z.shiftl j1 13 ||| Z.shiftl j2 11 ||| imm11)).

(** BL and B.W. *)
Definition reloc_thm_branch (env : LinkEnv) (t : reloc_type) (sym : Sym) (st : LinkState)
    (ptr addr val : Z) : LinkState :=
  if undef_weak sym then st
  else
    let hi := read16le (st_mem st) ptr in
    let lo := read16le (st_mem st) (ptr + 2) in
    let s := (hi >>> 10) &&& 1 in
    let j1 := (lo >>> 13) &&& 1 in
    let j2 := (lo >>> 11) &&& 1 in
    let i1 := (j1 ^^^ s) ^^^ 1 in
    let i2 := (j2 ^^^ s) ^^^ 1 in
    let imm10 := hi &&& 0x3ff in
    let imm11 := lo &&& 0x7ff in
    let x := Z.shiftl s 24 ||| Z.shiftl i1 23 ||| Z.shiftl i2 22 ||| Z.shiftl imm10 12 ||| Z.shiftl imm11 1 in
    let x := if truth (x &&& 0x01000000) then x - 0x02000000 else x in
    let to_plt := in_plt env val in
    let is_call := bool_decide (t = R_ARM_THM_PC22) in
    let x := s32 (x + (val - addr)) in
    let blx_bit := if is_call then 0 else Z.shiftl 1 12 in
    let st := if Z.leb 0x1000000 x || Z.ltb x (-0x1000000)
              then if truth (val &&& 2) || negb to_plt
                   then tcc_error_noabort st (Err_range addr t) else st
              else st in
    let s := (x >>> 24) &&& 1 in
    let i1 := (x >>> 23) &&& 1 in
    let i2 := (x >>> 22) &&& 1 in
    let j1 := s ^^^ (i1 ^^^ 1) in
    let j2 := s ^^^ (i2 ^^^ 1) in
    let imm10 := (x >>> 12) &&& 0x3ff in
    let imm11 := (x >>> 1) &&& 0x7ff in
    with_mem st (write_halves (st_mem st) ptr
      ((hi &&& 0xf800) ||| Z.shiftl s 10 ||| imm10)
      ((lo &&& 0xd000) ||| Z.shiftl j1 13 ||| blx_bit ||| Z.shiftl j2 11 ||| imm11)).

(** A check on the BL beside it; patches nothing. *)
Definition reloc_local_call (env : LinkEnv) (sym : Sym) (sym_index : Z) (st : LinkState)
    (addr val : Z) : LinkState :=
  if undef_weak sym then st
  else if in_plt env val || Z.eqb (st_shndx sym) SHN_UNDEF
  then tcc_error_noabort st (Err_local_call sym_index addr)
  else st.

(** ** 16-bit halves of an address *)

Definition reloc_mov_abs (t : reloc_type) (st : LinkState) (ptr val : Z) : LinkState :=
  let insn := read32le (st_mem st) ptr in
  let addend := ((insn >>> 4) &&& 0xf000) ||| (insn &&& 0xfff) in
  let addend := if truth (addend &&& 0x8000) then u32 (addend - 0x10000) else addend in
  let val := u32 (val + addend) in
  let val := if bool_decide (t = R_ARM_MOVT_ABS) then val >>> 16 else val in
  with_mem st (write32le (st_mem st) ptr
    ((insn &&& 0xfff0f000) ||| ((val &&& 0xf000) <<< 4) ||| (val &&& 0xfff))).

Definition reloc_mov_prel (t : reloc_type) (st : LinkState) (ptr addr val : Z) : LinkState :=
  let insn := s32 (read32le (st_mem st) ptr) in
  let addend := ((insn >>> 4) &&& 0xf000) ||| (insn &&& 0xfff) in
  let addend := (addend ^^^ 0x8000) - 0x8000 in
  let val := u32 (val + (addend - addr)) in
  let val := if bool_decide (t = R_ARM_MOVT_PREL) then val >>> 16 else val in
  with_mem st (write32le (st_mem st) ptr
    (u32 insn &&& 0xfff0f000 ||| ((val &&& 0xf000) <<< 4) ||| (val &&& 0xfff))).

Definition reloc_thm_mov_abs (t : reloc_type) (st : LinkState) (ptr val : Z) : LinkState :=
  let insn := read32le (st_mem st) ptr in
  let addend := ((insn &&& 0xf) <<< 12) ||| (((insn >>> 10) &&& 1) <<< 11) |||
                (((insn >>> 28) &&& 7) <<< 8) ||| ((insn >>> 16) &&& 0xff) in
  let addend := if truth (addend &&& 0x8000) then u32 (addend - 0x10000) else addend in
  let val := u32 (val + addend) in
  let val := if bool_decide (t = R_ARM_THM_MOVT_ABS) then val >>> 16 else val in
  let x := ((val >>> 12) &&& 0xf) ||| (((val >>> 11) &&& 1) <<< 10) |||
           (((val >>> 8) &&& 7) <<< 28) ||| ((val &&& 0xff) <<< 16) in
  with_mem st (write32le (st_mem st) ptr ((insn &&& (~~~ 0x70ff040f)) ||| x)).

(** ** Data words *)

(** [x = (x * 2) / 2] sign-extends from bit 30: the product wraps. *)
Definition reloc_prel31 (t : reloc_type) (st : LinkState) (ptr addr val : Z) : LinkState :=
  let x := read32le (st_mem st) ptr &&& 0x7fffffff in
  let x := Z.quot (s32 (x * 2)) 2 in
  let x := s32 (x + (val - addr)) in
  let st := if truth ((x ^^^ (x >>> 1)) &&& 0x40000000)
            then tcc_error_noabort st (Err_range addr t) else st in
  with_mem st (write32le (st_mem st) ptr
    ((read32le (st_mem st) ptr &&& 0x80000000) ||| (x &&& 0x7fffffff))).

(** An output relocation takes the place of one already read. *)
Definition emit_qrel (st : LinkState) (r : Rel) : LinkState :=
  mk_st (st_mem st) (errors st) (qrel st ++ [r]).

Definition reloc_abs32 (env : LinkEnv) (sym : Sym) (rel : Rel) (st : LinkState) (ptr val : Z) : LinkState :=
  let store st := with_mem st (add32le (st_mem st) ptr val) in
  if truth (output_type env &&& TCC_OUTPUT_DYN) then
    let esym_index := dyn_index (sym_attrs env (r_sym rel)) in
    if truth esym_index then
      let st := emit_qrel st (mk_rel (r_offset rel) esym_index R_ARM_ABS32) in
      if negb (Z.eqb (st_shndx sym) SHN_ABS) then st else store st
    else store (emit_qrel st (mk_rel (r_offset rel) 0 R_ARM_RELATIVE))
  else store st.

Definition reloc_rodata_off (env : LinkEnv) (sym_index : Z) (st : LinkState) (ptr val : Z) : LinkState :=
  let ro := rodata_section env in
  if negb (Z.eqb val (sh_addr ro)) &&
     (Z.ltb val (sh_addr ro) || Z.leb (u32 (sh_addr ro + sh_size ro)) val)
  then tcc_error_noabort st (Err_not_rodata sym_index)
  else with_mem st (add32le (st_mem st) ptr (val - sh_addr ro)).

Definition reloc_got_sbrel12 (env : LinkEnv) (sym_index : Z) (st : LinkState) (ptr : Z) : LinkState :=
  let off := got_offset (sym_attrs env sym_index) in
  if Z.ltb 0xfff off then tcc_error_noabort st (Err_got_offset sym_index off)
  else with_mem st (write32le (st_mem st) ptr
         ((read32le (st_mem st) ptr &&& (~~~ (0xfff <<< 16))) ||| (off <<< 16))).

Definition reloc_v4bx (st : LinkState) (ptr : Z) : LinkState :=
  let w := read32le (st_mem st) ptr in
  if Z.eqb (0x0ffffff0 &&& w) 0x012FFF10
  then with_mem st (write32le (st_mem st) ptr (w ^^^ (0xE12FFF10 ^^^ 0xE1A0F000)))
  else st.

(** ** The dispatch *)

Definition env_sym (env : LinkEnv) (i : Z) : Sym := default no_sym (symtab env !! Z.to_nat i).

Definition relocate (env : LinkEnv) (rel : Rel) (t : reloc_type) (st : LinkState)
    (ptr addr val : Z) : LinkState :=
  let sym_index := r_sym rel in
  let sym := env_sym env sym_index in
  match t with
  | R_ARM_PC24 | R_ARM_CALL | R_ARM_JUMP24 | R_ARM_PLT32 => reloc_arm_branch t st ptr addr val
  | R_ARM_THM_JUMP6 => reloc_thm_jump6 t sym st ptr addr val
  | R_ARM_THM_ALU_PREL_11_0 => reloc_thm_alu_prel t sym st ptr addr val
  | R_ARM_THM_PC12 => reloc_thm_pc12 t sym st ptr addr val
  | R_ARM_THM_PC8 => reloc_thm_pc8 t sym st ptr addr val
  | R_ARM_THM_JUMP19 => reloc_thm_jump19 t sym st ptr addr val
  | R_ARM_THM_PC22 | R_ARM_THM_JUMP24 => reloc_thm_branch env t sym st ptr addr val
  | R_ARM_YASOS_HOT_VENEER => hot_text_fill_veneer env sym_index st ptr addr val
  | R_ARM_YASOS_LOCAL_CALL => reloc_local_call env sym sym_index st addr val
  | R_ARM_MOVT_ABS | R_ARM_MOVW_ABS_NC => reloc_mov_abs t st ptr val
  | R_ARM_MOVT_PREL | R_ARM_MOVW_PREL_NC => reloc_mov_prel t st ptr addr val
  | R_ARM_THM_MOVT_ABS | R_ARM_THM_MOVW_ABS_NC => reloc_thm_mov_abs t st ptr val
  | R_ARM_PREL31 => reloc_prel31 t st ptr addr val
  | R_ARM_ABS32 | R_ARM_TARGET1 => reloc_abs32 env sym rel st ptr val
  | R_ARM_REL32 => with_mem st (add32le (st_mem st) ptr (val - addr))
  | R_ARM_GOTPC => with_mem st (add32le (st_mem st) ptr (sh_addr_of (got env) - addr))
  | R_ARM_GOTOFF => with_mem st (add32le (st_mem st) ptr (val - sh_addr_of (got env)))
  | R_ARM_RODATA_OFF => reloc_rodata_off env sym_index st ptr val
  | R_ARM_GOT32 => with_mem st (write32le (st_mem st) ptr (got_offset (sym_attrs env sym_index)))
  | R_ARM_GOT_SBREL12 => reloc_got_sbrel12 env sym_index st ptr
  | R_ARM_GOT_PREL =>
      with_mem st (write32le (st_mem st) ptr
        (u32 (sh_addr_of (got env) + got_offset (sym_attrs env sym_index) - addr - 8)))
  | R_ARM_V4BX => reloc_v4bx st ptr
  | R_ARM_GLOB_DAT | R_ARM_JUMP_SLOT => with_mem st (write32le (st_mem st) ptr val)
  | R_ARM_COPY | R_ARM_NONE | R_ARM_RELATIVE | R_ARM_TARGET2 | R_ARM_OTHER _ => st
  end.

(** [relocate_section] on a section whose data is in memory: the relocations in
    order, DWARF references between debug sections relative to their section. *)
Record DwarfRange := mk_dw { dwlo : Z; dwhi : Z; sections_addr : Z -> Z }.

Definition in_dwarf (dw : DwarfRange) (n : Z) : bool := Z.leb (dwlo dw) n && Z.ltb n (dwhi dw).

Definition relocate_one (env : LinkEnv) (dw : DwarfRange) (s : Section_) (st : LinkState) (rel : Rel) : LinkState :=
  let ptr := sec_data s + r_offset rel in
  let sym := env_sym env (r_sym rel) in
  let tgt := st_value sym in
  if in_dwarf dw (sh_num s) && bool_decide (r_type rel = R_ARM_ABS32) && in_dwarf dw (st_shndx sym)
  then with_mem st (add32le (st_mem st) ptr (tgt - sections_addr dw (st_shndx sym)))
  else relocate env rel (r_type rel) st ptr (u32 (sh_addr s + r_offset rel)) tgt.

Definition relocate_section (env : LinkEnv) (dw : DwarfRange) (s : Section_) (rels : list Rel)
    (st : LinkState) : LinkState :=
  fold_left (relocate_one env dw s) rels (mk_st (st_mem st) (errors st) []).
