(* ===== verification/ArmRelocSpec.v ===== *)
(** * What a Thumb relocation must do

    A relocatable instruction is read with the reference decoder, its operand is
    the addend, and the relocated instruction is the same instruction with the
    displacement from its place to the symbol.  [thm_operand], [thm_disp],
    [thm_reach] and [thm_set] state this per relocation type, independently of
    the fields' layout. *)

From S2P Require Import Prelude BitReflect Bytes ArmDecode ThumbDecode ThumbDecodeBranch ElfSym.
From S2P Require Import ArmLink ArmReloc.
Local Open Scope Z_scope.
Local Open Scope c_scope.

Definition insn_at (m : mem) (p size : Z) : Z :=
  if Z.eqb size 2 then read16le m p else Z.shiftl (read16le m p) 16 ||| read16le m (p + 2).

Definition thm_size (t : reloc_type) : Z :=
  match t with R_ARM_THM_JUMP6 => 2 | _ => 4 end.

(** The addend an instruction carries, when the relocation type fits it. *)
Definition thm_operand (t : reloc_type) (i : instr) : option Z :=
  match t, i with
  | R_ARM_THM_PC22, BL a => Some a
  | R_ARM_THM_JUMP24, Bi a => Some a
  | R_ARM_THM_JUMP19, Bcond _ a => Some a
  | R_ARM_THM_JUMP6, CBZ _ _ a => if Z.eqb a 0 then Some 0 else None
  | R_ARM_THM_PC12, LDRlit _ _ a => Some a
  | R_ARM_THM_PC8, LDSTD true _ _ rn a true add false =>
      if Z.eqb rn 15 then Some (if add then a else - a) else None
  | R_ARM_THM_ALU_PREL_11_0, ADR _ a => Some a
  | _, _ => None
  end.

(** [S + A - P]; for the literal forms [P] is the word-aligned PC, for CBZ the PC. *)
Definition thm_disp (t : reloc_type) (a addr val : Z) : Z :=
  match t with
  | R_ARM_THM_PC12 | R_ARM_THM_PC8 | R_ARM_THM_ALU_PREL_11_0 => s32 (val + a - (4 * (addr / 4) + 4))
  | R_ARM_THM_JUMP6 => s32 (val - (addr + 4))
  | _ => s32 (val + a - addr)
  end.

(** The displacements the operand can hold; the Thumb bit of a function's address
    is not part of a branch offset. *)
Definition thm_reach (t : reloc_type) (x : Z) : bool :=
  match t with
  | R_ARM_THM_PC22 | R_ARM_THM_JUMP24 => Z.leb (- 2 ^ 24) x && Z.ltb x (2 ^ 24)
  | R_ARM_THM_JUMP19 => Z.leb (- 2 ^ 20) x && Z.ltb x (2 ^ 20)
  | R_ARM_THM_JUMP6 => Z.leb 0 x && Z.leb x 126 && Z.even x
  | R_ARM_THM_PC8 => Z.leb (-1020) x && Z.leb x 1020 && Z.eqb (x mod 4) 0
  | _ => Z.leb (-4095) x && Z.leb x 4095
  end.

Definition thm_set (i : instr) (x : Z) : instr :=
  match i with
  | BL _ => BL (2 * (x / 2))
  | Bi _ => Bi (2 * (x / 2))
  | Bcond c _ => Bcond c (2 * (x / 2))
  | CBZ nz rn _ => CBZ nz rn x
  | LDRlit k rt _ => LDRlit k rt x
  | LDSTD load rt rt2 rn _ index _ wback => LDSTD load rt rt2 rn (Z.abs x) index (Z.leb 0 x) wback
  | ADR rd _ => ADR rd x
  | _ => i
  end.

(** Whether the linker reports the relocation: out of reach, except that a branch
    into the PLT with bit 1 of its target clear is not checked. *)
Definition thm_reported (env : LinkEnv) (t : reloc_type) (x val : Z) : bool :=
  negb (thm_reach t x) &&
  match t with
  | R_ARM_THM_PC22 | R_ARM_THM_JUMP24 => Z.testbit val 1 || negb (in_plt env val)
  | _ => true
  end.

(** ** Reading a word back *)

(** A decoded word matches the encoding that gave it its meaning. *)
Lemma decode_in_inv tbl w i :
  decode_in tbl w = Some i -> exists e, In e tbl /\ Z.land w (e_mask e) = e_pat e /\ e_sem e w = Some i.
Proof.
  induction tbl as [|e tbl IH]; simpl; [done|]. destruct (matches e w) eqn:Hm.
  - intros H. exists e. split; [by left|]. by apply Z.eqb_eq in Hm.
  - intros H. destruct (IH H) as (f & Hin & Hf). exists f. split; [by right|done].
Qed.

(** The fixed bits of a halfword of a matching word. *)
Lemma fixed16 x mask pat :
  0 <= x < 2 ^ 16 -> 0 <= mask < 2 ^ 16 -> x &&& mask = pat ->
  x = pat ||| (x &&& (0xffff ^^^ mask)).
Proof. intros Hx Hm <-. bit_solve. Qed.

Lemma fixed_halves hi lo mask pat :
  0 <= hi < 2 ^ 16 -> 0 <= lo < 2 ^ 16 -> 0 <= mask < 2 ^ 32 -> 0 <= pat < 2 ^ 32 ->
  (Z.shiftl hi 16 ||| lo) &&& mask = pat ->
  hi = (pat >>> 16) ||| (hi &&& (0xffff ^^^ (mask >>> 16))) /\
  lo = (pat &&& 0xffff) ||| (lo &&& (0xffff ^^^ (mask &&& 0xffff))).
Proof. intros Hh Hl Hm Hp <-. split; bit_solve. Qed.

Lemma truth_bit x k : 0 <= k -> truth (x &&& 2 ^ k) = Z.testbit x k.
Proof.
  intros Hk. unfold truth. destruct (Z.testbit x k) eqn:Hb.
  - apply negb_true_iff, Z.eqb_neq. intros E. apply (f_equal (fun z => Z.testbit z k)) in E.
    rewrite Z.land_spec, Hb, Z.pow2_bits_true, Z.bits_0 in E by lia. done.
  - apply negb_false_iff, Z.eqb_eq, Z.bits_inj'. intros i Hi.
    rewrite Z.land_spec, Z.bits_0. destruct (decide (i = k)) as [->|]; [by rewrite Hb|].
    by rewrite Z.pow2_bits_false, andb_false_r by lia.
Qed.

(** Fields of a signed displacement are fields of its 32-bit pattern. *)
Lemma low_field x k m :
  Z.leb 0 k && Z.leb 0 m && Z.leb k 32 && Z.ltb m (2 ^ (32 - k)) = true ->
  (x >>> k) &&& m = (u32 x >>> k) &&& m.
Proof.
  intros H. bool_facts. apply Z.bits_inj'. intros i Hi. unfold u32.
  rewrite !Z.land_spec, !Z.shiftr_spec, Z.land_spec, !Z.testbit_ones_nonneg by lia.
  destruct (Z.ltb_spec (i + k) 32); [by rewrite andb_true_r|].
  rewrite (testbit_above (32 - k) m i) by lia. by rewrite !andb_false_r.
Qed.

(** A displacement in range, with the Thumb bit dropped. *)
Lemma signed_field n x :
  1 < n <= 32 -> - 2 ^ (n - 1) <= x < 2 ^ (n - 1) ->
  sign_extend n (u32 x &&& Z.shiftl (Z.ones (n - 1)) 1) = 2 * (x / 2).
Proof.
  intros Hn Hx.
  assert (Hp : 2 ^ (n - 1) = 2 * 2 ^ (n - 2)).
  { rewrite <-Z.pow_succ_r by lia. f_equal. lia. }
  assert (Ho : Z.odd (2 * (x / 2)) = false) by (rewrite Z.odd_mul; done).
  rewrite <-(even_field n (2 * (x / 2))) by (try done; pose proof (Z.div_mod x 2); pose proof (Z.mod_pos_bound x 2); lia).
  f_equal. apply Z.bits_inj'. intros i Hi.
  unfold u32. rewrite !Z.land_spec, Z.shiftl_spec by lia.
  destruct (decide (i = 0)) as [->|]; [by rewrite !andb_false_r|].
  destruct (Z.testbit (Z.ones (n - 1)) (i - 1)); [|by rewrite !andb_false_r]. rewrite !andb_true_r.
  f_equal. rewrite Z.mul_comm, <-(Z.shiftl_mul_pow2 _ 1), Z.shiftl_spec by lia.
  rewrite <-(Z.shiftr_div_pow2 _ 1), Z.shiftr_spec by lia. f_equal. lia.
Qed.

(** The cases of a decoded instruction: the encodings that can give it. *)
Ltac decode_cases H :=
  let e := fresh "e" in let Hin := fresh "Hin" in let Hm := fresh "Hm" in let Hs := fresh "Hs" in
  unfold decode in H; cbn [Z.eqb Pos.eqb] in H;
  apply decode_in_inv in H; destruct H as (e & Hin & Hm & Hs);
  cbv beta iota delta [t16_table t32_table In] in Hin;
  repeat (destruct Hin as [<-|Hin]); [..|destruct Hin];
  cbv beta iota delta [t16_shift t16_dp t16_ldst_reg t16_ldst_imm t16_ldst_sp t32_modimm t32_movimm
    t32_reg t32_movreg t32_shr t32_ext t32_rev t32_ldst12 t32_ldst8 t32_ldstm t32_ldstd t32_lmul
    e_mask e_pat e_sem] in Hm, Hs;
  try discriminate Hs;
  repeat match type of Hs with
  | context [match ?x with _ => _ end] =>
      lazymatch x with
      | context [match _ with _ => _ end] => fail
      | _ => let E := fresh "E" in destruct x eqn:E; try discriminate Hs
      end
  end.

Lemma decode_bl w a :
  decode 4 w = Some (BL a) -> w &&& 0xF800D000 = 0xF000D000 /\ a = b_t4_offset w.
Proof. intros H. decode_cases H. split; [exact Hm|congruence]. Qed.

Lemma decode_b w a :
  decode 4 w = Some (Bi a) -> w &&& 0xF800D000 = 0xF0009000 /\ a = b_t4_offset w.
Proof. intros H. decode_cases H. split; [exact Hm|congruence]. Qed.

Lemma decode_bcond w c a :
  decode 4 w = Some (Bcond c a) ->
  w &&& 0xF800D000 = 0xF0008000 /\ slice w 22 4 < 14 /\ c = slice w 22 4 /\ a = b_t3_offset w.
Proof. intros H. decode_cases H. apply Z.ltb_lt in E. split; [exact Hm|]. simplify_eq. done. Qed.

Lemma decode_cbz w nz rn a :
  decode 2 w = Some (CBZ nz rn a) ->
  w &&& 0xFD00 = (if nz then 0xB900 else 0xB100) /\ rn = lo3 w 0 /\ a = cbz_offset w.
Proof. intros H. decode_cases H; simplify_eq; done. Qed.

Lemma decode_adr w rd a :
  decode 4 w = Some (ADR rd a) ->
  rd = rd_ w /\ rn_ w = 15 /\
  ((w &&& 0xFBF08000 = 0xF2000000 /\ a = modimm_field w) \/
   (w &&& 0xFBF08000 = 0xF2A00000 /\ a = - modimm_field w)).
Proof. intros H. decode_cases H; simplify_eq; (split; [done|]); (split; [lia|]); [left|right]; done. Qed.

(** The literal loads: the first halfword without the direction bit. *)
Definition lit_hi (k : access) : Z :=
  match k with
  | A_word => 0xF85F | A_byte => 0xF81F | A_half => 0xF83F
  | A_sbyte => 0xF91F | A_shalf => 0xF93F
  end.

Lemma lit_bits w pat :
  0 <= w < 2 ^ 32 -> w &&& 0xFFF00000 = pat -> slice w 16 4 = 15 ->
  w &&& 0xFFFF0000 = pat ||| 0xF0000.
Proof.
  intros Hw <- Hr. transitivity ((w &&& 0xFFF00000) ||| Z.shiftl (slice w 16 4) 16).
  - unfold slice. bit_solve.
  - by rewrite Hr.
Qed.

Lemma decode_lit w k rt a :
  0 <= w < 2 ^ 32 -> decode 4 w = Some (LDRlit k rt a) ->
  rt = rt_ w /\
  ((w &&& 0xFFFF0000 = Z.shiftl (lit_hi k ||| 0x80) 16 /\ a = slice w 0 12) \/
   (w &&& 0xFFFF0000 = Z.shiftl (lit_hi k) 16 /\ a = - slice w 0 12)).
Proof.
  intros Hw H.
  decode_cases H; simplify_eq; (split; [done|]); [left|left|left|left|left|right|right|right|right|right];
    (split; [|done]); by apply (lit_bits w _ Hw Hm); apply Z.eqb_eq.
Qed.

Lemma decode_ldrd w rt rt2 a add :
  0 <= w < 2 ^ 32 -> decode 4 w = Some (LDSTD true rt rt2 15 a true add false) ->
  rt = rt_ w /\ rt2 = rd_ w /\ a = Z.shiftl (slice w 0 8) 2 /\
  w &&& 0xFFFF0000 = Z.shiftl (if add then 0xE9DF else 0xE95F) 16.
Proof.
  intros Hw H. decode_cases H.
  match type of Hs with Some (LDSTD _ _ _ ?rn _ ?p ?u ?wb) = _ =>
    assert (Hrn : rn = 15 /\ p = true /\ u = add /\ wb = false) by (repeat split; congruence);
    destruct Hrn as (Hrn & Hp & Hu & Hwb) end.
  assert (rt = rt_ w /\ rt2 = rd_ w /\ a = Z.shiftl (slice w 0 8) 2) as (-> & -> & ->)
    by (repeat split; congruence).
  do 3 (split; [done|]). rewrite testbit_slice in Hp, Hu, Hwb by lia.
  assert (Hw' : w &&& 0xFFFF0000 =
    (w &&& 0xFE500000) ||| Z.shiftl (slice w 24 1) 24 ||| Z.shiftl (slice w 23 1) 23 |||
    Z.shiftl (slice w 21 1) 21 ||| Z.shiftl (slice w 16 4) 16) by (unfold slice; bit_solve).
  rewrite Hw', Hm. apply Z.eqb_eq in Hp. unfold rn_ in Hrn. rewrite Hrn, Hp.
  pose proof (slice_bound w 23 1). pose proof (slice_bound w 21 1).
  assert (slice w 21 1 = 0) as -> by lia.
  destruct add; [assert (slice w 23 1 = 1) as -> by lia|assert (slice w 23 1 = 0) as -> by lia]; done.
Qed.
