(* ===== verification/ArmRelocThumb.v ===== *)
(** * The Thumb relocations implement their specification *)

From S2P Require Import Prelude BitReflect Bytes ArmDecode ThumbDecode ThumbDecodeBranch ElfSym.
From S2P Require Import ArmLink ArmReloc ArmRelocSpec.
From stdpp Require Import list.
From Stdlib Require String.
Local Open Scope Z_scope.
Local Open Scope c_scope.

(** ** The instruction in memory *)

Lemma insn4 m p : insn_at m p 4 = Z.shiftl (read16le m p) 16 ||| read16le m (p + 2).
Proof. done. Qed.

Lemma insn_write_halves m p hi lo :
  insn_at (write_halves m p hi lo) p 4 = Z.shiftl (u16 hi) 16 ||| u16 lo.
Proof.
  rewrite insn4. unfold write_halves. rewrite read16_write16_other, !read16_write16 by lia.
  unfold u16. by rewrite <-!Z.land_assoc, !Z.land_diag.
Qed.

Lemma write_halves_only m p hi lo : only_changes m (write_halves m p hi lo) p 4.
Proof.
  intros a Ha. unfold write_halves. by rewrite !write16_other by lia.
Qed.

Lemma insn4_bound hi lo :
  0 <= hi < 2 ^ 16 -> 0 <= lo < 2 ^ 16 -> 0 <= Z.shiftl hi 16 ||| lo < 2 ^ 32.
Proof. intros Hh Hl. apply (lor_bound 32); [lia| |lia]. rewrite Z.shiftl_mul_pow2 by lia. lia. Qed.

(** ** BL and B.W *)

Section Branch.
Context (hi lo : Z) (Hhi : 0 <= hi < 2 ^ 16) (Hlo : 0 <= lo < 2 ^ 16).

Lemma branch_addend :
  let s := (hi >>> 10) &&& 1 in
  let i1 := (((lo >>> 13) &&& 1) ^^^ s) ^^^ 1 in
  let i2 := (((lo >>> 11) &&& 1) ^^^ s) ^^^ 1 in
  let x := Z.shiftl s 24 ||| Z.shiftl i1 23 ||| Z.shiftl i2 22 |||
           Z.shiftl (hi &&& 0x3ff) 12 ||| Z.shiftl (lo &&& 0x7ff) 1 in
  (if truth (x &&& 0x01000000) then x - 0x02000000 else x) = b_t4_offset (Z.shiftl hi 16 ||| lo).
Proof.
  cbv zeta. unfold b_t4_offset, sign_extend. cbv zeta.
  change 0x01000000 with (2 ^ 24). rewrite truth_bit by lia. change (25 - 1) with 24.
  match goal with |- (if Z.testbit ?x _ then _ else _) = (if Z.testbit ?y _ then _ else _) =>
    replace y with x by (unfold slice; bit_solve) end.
  done.
Qed.

Lemma branch_word lo' x :
  lo' = 0xd000 \/ lo' = 0x9000 -> (Z.shiftl hi 16 ||| lo) &&& 0xF800D000 = Z.lor 0xF0000000 lo' ->
  let s := (x >>> 24) &&& 1 in
  let j1 := s ^^^ (((x >>> 23) &&& 1) ^^^ 1) in
  let j2 := s ^^^ (((x >>> 22) &&& 1) ^^^ 1) in
  let h := (hi &&& 0xf800) ||| Z.shiftl s 10 ||| ((x >>> 12) &&& 0x3ff) in
  let l b := (lo &&& 0xd000) ||| Z.shiftl j1 13 ||| b ||| Z.shiftl j2 11 ||| ((x >>> 1) &&& 0x7ff) in
  forall b, b = 0 \/ b = Z.shiftl 1 12 ->
  let w := Z.shiftl (u16 h) 16 ||| u16 (l b) in
  w &&& 0xF800D000 = Z.lor 0xF0000000 lo' /\
  b_t4_offset w = sign_extend 25 (u32 x &&& Z.shiftl (Z.ones 24) 1).
Proof.
  intros Hl Hm. cbv zeta. rewrite !(low_field x) by reflexivity.
  pose proof (u32_bound x) as Hx. revert Hx. generalize (u32 x). intros y Hy b Hb.
  destruct (fixed_halves hi lo 0xF800D000 (Z.lor 0xF0000000 lo')) as [Hh' Hl'];
    [done|done|lia|destruct Hl as [-> | ->]; vm_compute; by split|done|].
  clear Hm. rewrite Hh', Hl'.
  destruct Hl as [-> | ->], Hb as [-> | ->]; (split; [bit_solve|]); unfold b_t4_offset; cbv zeta;
    apply (f_equal (sign_extend 25)); unfold slice; bit_solve.
Qed.
End Branch.

(** ** What every Thumb relocation owes *)

(** The address an error names. *)
Definition thm_place (t : reloc_type) (addr : Z) : Z :=
  match t with
  | R_ARM_THM_PC12 | R_ARM_THM_PC8 | R_ARM_THM_ALU_PREL_11_0 => 4 * (addr / 4)
  | _ => addr
  end.

Definition reloc_ok (env : LinkEnv) (t : reloc_type) (i : instr) (a : Z) (st st' : LinkState)
    (ptr addr val : Z) : Prop :=
  let x := thm_disp t a addr val in
  errors st' = errors st ++ (if thm_reported env t x val then [Err_range (thm_place t addr) t] else []) /\
  (thm_reach t x = true ->
     decode (thm_size t) (insn_at (st_mem st') ptr (thm_size t)) = Some (thm_set i x)) /\
  only_changes (st_mem st) (st_mem st') ptr (thm_size t) /\
  qrel st' = qrel st.

(** Either the displacement fits and the field is written, or an error is added
    and nothing is. *)
Lemma reloc_ok_checked env t i a st ptr addr val m :
  (match t with R_ARM_THM_PC22 | R_ARM_THM_JUMP24 => False | _ => True end) ->
  (thm_reach t (thm_disp t a addr val) = true ->
     decode (thm_size t) (insn_at m ptr (thm_size t)) = Some (thm_set i (thm_disp t a addr val)) /\
     only_changes (st_mem st) m ptr (thm_size t)) ->
  reloc_ok env t i a st
    (if thm_reach t (thm_disp t a addr val) then with_mem st m
     else tcc_error_noabort st (Err_range (thm_place t addr) t)) ptr addr val.
Proof.
  intros Ht H. unfold reloc_ok, thm_reported. cbv zeta.
  assert (E : match t with
              | R_ARM_THM_PC22 | R_ARM_THM_JUMP24 => Z.testbit val 1 || negb (in_plt env val)
              | _ => true end = true) by (by destruct t).
  rewrite E, andb_true_r. destruct (thm_reach _ _).
  - rewrite app_nil_r. by destruct (H eq_refl).
  - done.
Qed.

Lemma reloc_branch_ok env t i a sym st ptr addr val :
  mem_ok (st_mem st) -> undef_weak sym = false ->
  t = R_ARM_THM_PC22 \/ t = R_ARM_THM_JUMP24 ->
  decode 4 (insn_at (st_mem st) ptr 4) = Some i -> thm_operand t i = Some a ->
  reloc_ok env t i a st (reloc_thm_branch env t sym st ptr addr val) ptr addr val.
Proof.
  intros Hm Hs Ht Hi Ha. unfold reloc_thm_branch. rewrite Hs. cbv zeta.
  pose proof (read16_bound (st_mem st) ptr Hm) as Hhi.
  pose proof (read16_bound (st_mem st) (ptr + 2) Hm) as Hlo.
  rewrite (branch_addend _ _ Hhi Hlo). rewrite insn4 in Hi.
  set (hi := read16le (st_mem st) ptr) in *. set (lo := read16le (st_mem st) (ptr + 2)) in *.
  assert (exists lo', (lo' = 0xd000 /\ i = BL a \/ lo' = 0x9000 /\ i = Bi a) /\
            (Z.shiftl hi 16 ||| lo) &&& 0xF800D000 = Z.lor 0xF0000000 lo' /\
            a = b_t4_offset (Z.shiftl hi 16 ||| lo)) as (lo' & Hl & Hw & <-).
  { destruct Ht as [-> | ->], i; try discriminate Ha; injection Ha as ->.
    - apply decode_bl in Hi as [Hi ->]. exists 0xd000. auto.
    - apply decode_b in Hi as [Hi ->]. exists 0x9000. auto. }
  assert (Hx : thm_disp t a addr val = s32 (a + (val - addr)))
    by (destruct Ht as [-> | ->]; cbn; f_equal; lia).
  unfold reloc_ok. rewrite Hx. generalize (s32 (a + (val - addr))). intros x.
  assert (Hr : Z.leb 0x1000000 x || Z.ltb x (-0x1000000) = negb (thm_reach t x)).
  { destruct Ht as [-> | ->]; cbn; destruct (Z.leb_spec 16777216 x), (Z.ltb_spec x (-16777216)),
      (Z.leb_spec (-16777216) x), (Z.ltb_spec x 16777216); try done; lia. }
  assert (Hp : thm_reported env t x val = negb (thm_reach t x) && (truth (val &&& 2) || negb (in_plt env val))).
  { unfold thm_reported. change 2 with (2 ^ 1). rewrite truth_bit by lia. by destruct Ht as [-> | ->]. }
  assert (Ht4 : thm_size t = 4 /\ thm_place t addr = addr) by (by destruct Ht as [-> | ->]).
  destruct Ht4 as [-> ->]. rewrite Hr, Hp. clear Hr Hp Hx.
  match goal with |- context [with_mem ?s _] => set (st1 := s) end.
  assert (H1 : st_mem st1 = st_mem st /\ qrel st1 = qrel st /\ errors st1 = errors st ++
    (if negb (thm_reach t x) && (truth (val &&& 2) || negb (in_plt env val)) then [Err_range addr t] else [])).
  { unfold st1. destruct (thm_reach t x); cbn [negb andb]; [by rewrite app_nil_r|].
    destruct (truth (val &&& 2) || negb (in_plt env val)); [done|by rewrite app_nil_r]. }
  destruct H1 as (H1 & H2 & H3). rewrite H1. clearbody st1.
  repeat split; [exact H3| |apply write_halves_only|exact H2].
  intros Hreach. cbn [st_mem with_mem]. rewrite insn_write_halves.
  destruct (branch_word hi lo Hhi Hlo lo' x) with (b := if bool_decide (t = R_ARM_THM_PC22) then 0 else Z.shiftl 1 12)
    as [Hw' Ho]; [tauto|done|case_bool_decide; auto|].
  assert (Hoff : sign_extend 25 (u32 x &&& Z.shiftl (Z.ones 24) 1) = 2 * (x / 2)).
  { apply (signed_field 25); [lia|]. destruct Ht as [-> | ->]; cbn in Hreach; bool_facts; lia. }
  cbv zeta in Hw', Ho. destruct Hl as [[-> ->]|[-> ->]].
  - erewrite (decode_t32 (find_encoding t32_table 0xf000d000)); [|reflexivity|exact Hw'].
    cbn [e_sem thm_set]. do 2 f_equal. etransitivity; [exact Ho|exact Hoff].
  - erewrite (decode_t32 (find_encoding t32_table 0xf0009000)); [|reflexivity|exact Hw'].
    cbn [e_sem thm_set]. do 2 f_equal. etransitivity; [exact Ho|exact Hoff].
Qed.

(** ** Conditional B.W *)

Section Cond.
Context (hi lo : Z) (Hhi : 0 <= hi < 2 ^ 16) (Hlo : 0 <= lo < 2 ^ 16).

Lemma cond_addend :
  let x := Z.shiftl ((hi >>> 10) &&& 1) 20 ||| Z.shiftl ((lo >>> 11) &&& 1) 19 |||
           Z.shiftl ((lo >>> 13) &&& 1) 18 ||| Z.shiftl (hi &&& 0x3f) 12 ||| Z.shiftl (lo &&& 0x7ff) 1 in
  (if truth (x &&& 0x100000) then x - 0x200000 else x) = b_t3_offset (Z.shiftl hi 16 ||| lo).
Proof.
  cbv zeta. unfold b_t3_offset, sign_extend.
  change 0x100000 with (2 ^ 20). rewrite truth_bit by lia. change (21 - 1) with 20.
  match goal with |- (if Z.testbit ?x _ then _ else _) = (if Z.testbit ?y _ then _ else _) =>
    replace y with x by (unfold slice; bit_solve) end.
  done.
Qed.

Lemma cond_word x :
  (Z.shiftl hi 16 ||| lo) &&& 0xF800D000 = 0xF0008000 ->
  let w := Z.shiftl (u16 ((hi &&& 0xfbc0) ||| Z.shiftl ((x >>> 20) &&& 1) 10 ||| ((x >>> 12) &&& 0x3f))) 16 |||
           u16 ((lo &&& 0xd000) ||| Z.shiftl ((x >>> 18) &&& 1) 13 ||| Z.shiftl ((x >>> 19) &&& 1) 11 |||
                ((x >>> 1) &&& 0x7ff)) in
  w &&& 0xF800D000 = 0xF0008000 /\ slice w 22 4 = slice (Z.shiftl hi 16 ||| lo) 22 4 /\
  b_t3_offset w = sign_extend 21 (u32 x &&& Z.shiftl (Z.ones 20) 1).
Proof.
  intros Hm. cbv zeta. rewrite !(low_field x) by reflexivity.
  pose proof (u32_bound x) as Hx. revert Hx. generalize (u32 x). intros y Hy.
  destruct (fixed_halves hi lo 0xF800D000 0xF0008000) as [Hh' Hl']; [done|done|lia|lia|done|].
  clear Hm. rewrite Hh', Hl'. split; [bit_solve|]. split; [unfold slice; bit_solve|].
  unfold b_t3_offset. apply (f_equal (sign_extend 21)). unfold slice. bit_solve.
Qed.
End Cond.

Lemma reloc_jump19_ok env i a sym st ptr addr val :
  mem_ok (st_mem st) -> undef_weak sym = false ->
  decode 4 (insn_at (st_mem st) ptr 4) = Some i -> thm_operand R_ARM_THM_JUMP19 i = Some a ->
  reloc_ok env R_ARM_THM_JUMP19 i a st
    (reloc_thm_jump19 R_ARM_THM_JUMP19 sym st ptr addr val) ptr addr val.
Proof.
  intros Hm Hs Hi Ha. unfold reloc_thm_jump19. rewrite Hs. cbv zeta.
  pose proof (read16_bound (st_mem st) ptr Hm) as Hhi.
  pose proof (read16_bound (st_mem st) (ptr + 2) Hm) as Hlo.
  rewrite (cond_addend _ _ Hhi Hlo). rewrite insn4 in Hi.
  set (hi := read16le (st_mem st) ptr) in *. set (lo := read16le (st_mem st) (ptr + 2)) in *.
  destruct i; try discriminate Ha. injection Ha as ->.
  apply decode_bcond in Hi as (Hw & Hc & -> & ->).
  unfold reloc_ok, thm_disp. set (a := b_t3_offset _) in *.
  replace (a + (val - addr)) with (val + a - addr) by lia.
  generalize (s32 (val + a - addr)). intros x.
  assert (Hr : Z.leb 0x100000 x || Z.ltb x (-0x100000) = negb (thm_reach R_ARM_THM_JUMP19 x)).
  { cbn. destruct (Z.leb_spec 1048576 x), (Z.ltb_spec x (-1048576)),
      (Z.leb_spec (-1048576) x), (Z.ltb_spec x 1048576); try done; lia. }
  rewrite Hr. unfold thm_reported. rewrite andb_true_r. cbn [thm_size thm_place].
  assert (Hd : thm_reach R_ARM_THM_JUMP19 x = true ->
    decode 4 (Z.shiftl (u16 ((hi &&& 0xfbc0) ||| Z.shiftl ((x >>> 20) &&& 1) 10 ||| ((x >>> 12) &&& 0x3f))) 16 |||
      u16 ((lo &&& 0xd000) ||| Z.shiftl ((x >>> 18) &&& 1) 13 ||| Z.shiftl ((x >>> 19) &&& 1) 11 |||
           ((x >>> 1) &&& 0x7ff))) = Some (Bcond (slice (Z.shiftl hi 16 ||| lo) 22 4) (2 * (x / 2)))).
  { intros Hreach. destruct (cond_word hi lo Hhi Hlo x Hw) as (Hw' & Hc' & Ho). cbv zeta in *.
    erewrite (decode_t32 (find_encoding t32_table 0xf0008000)); [|reflexivity|exact Hw'].
    cbn [e_sem]. rewrite Hc', (proj2 (Z.ltb_lt _ _) Hc), Ho. do 2 f_equal.
    apply (signed_field 21); [lia|]. cbn in Hreach. bool_facts. lia. }
  destruct (thm_reach R_ARM_THM_JUMP19 x); cbn [negb]; repeat split.
  all: try (by rewrite app_nil_r); try apply write_halves_only.
  all: intros Hreach; cbn [st_mem with_mem]; rewrite insn_write_halves; exact (Hd Hreach).
Qed.

(** ** CBZ, CBNZ *)

Lemma align4 addr : 0 <= addr < 2 ^ 32 -> addr &&& (~~~ 3) = 4 * (addr / 4).
Proof.
  intros Ha. transitivity (Z.shiftl (addr >>> 2) 2); [bit_solve|].
  rewrite Z.shiftl_mul_pow2, Z.shiftr_div_pow2 by lia. change (2 ^ 2) with 4. lia.
Qed.

Lemma reloc_jump6_ok env i a sym st ptr addr val :
  mem_ok (st_mem st) -> undef_weak sym = false ->
  decode 2 (insn_at (st_mem st) ptr 2) = Some i -> thm_operand R_ARM_THM_JUMP6 i = Some a ->
  reloc_ok env R_ARM_THM_JUMP6 i a st
    (reloc_thm_jump6 R_ARM_THM_JUMP6 sym st ptr addr val) ptr addr val.
Proof.
  intros Hm Hs Hi Ha. unfold reloc_thm_jump6. rewrite Hs. cbv zeta.
  pose proof (read16_bound (st_mem st) ptr Hm) as Hhi.
  unfold insn_at in Hi. cbn [Z.eqb Pos.eqb] in Hi.
  set (w := read16le (st_mem st) ptr) in *.
  destruct i; try discriminate Ha. cbn in Ha. destruct (Z.eqb_spec off 0) as [->|]; [|done].
  injection Ha as <-. apply decode_cbz in Hi as (Hw & -> & Hz).
  replace (val - addr - 4) with (val - (addr + 4)) by lia.
  pose proof (reloc_ok_checked env R_ARM_THM_JUMP6 (CBZ nonzero (lo3 w 0) 0) 0 st ptr addr val) as H.
  cbn [thm_disp] in H. revert H. generalize (s32 (val - (addr + 4))). intros x H.
  assert (Hr : Z.ltb x 0 || Z.ltb 126 x || truth (x &&& 1) = negb (thm_reach R_ARM_THM_JUMP6 x)).
  { rewrite odd_land, <-Z.negb_even. unfold thm_reach.
    destruct (Z.ltb_spec x 0), (Z.ltb_spec 126 x), (Z.leb_spec 0 x), (Z.leb_spec x 126), (Z.even x);
      try done; lia. }
  rewrite Hr.
  specialize (H (write16le (st_mem st) ptr
    (u16 (w ||| Z.shiftl (((x >>> 1) >>> 5) &&& 1) 9 ||| Z.shiftl ((x >>> 1) &&& 0x1f) 3)))).
  destruct (thm_reach R_ARM_THM_JUMP6 x) eqn:Hreach; cbn [negb]; apply H; try done.
  intros _. split; [|apply write16_only; cbn; lia].
  unfold thm_reach in Hreach. bool_facts. cbn [thm_size]. unfold insn_at. cbn [Z.eqb Pos.eqb].
  rewrite read16_write16.
  assert (exists q, 0 <= q < 64 /\ x = Z.shiftl q 1) as (q & Hq & ->).
  { exists (x / 2). rewrite Z.shiftl_mul_pow2 by lia. change (2 ^ 1) with 2.
    pose proof (Z.div_mod x 2). rewrite Zmod_even in *. destruct (Z.even x); [lia|done]. }
  assert (Hw0 : w = (if nonzero then 0xB900 else 0xB100) ||| (w &&& 0x7)).
  { symmetry in Hz. assert (Hz' : w &&& 0x2f8 = 0).
    { transitivity ((Z.shiftl (cbz_offset w >>> 6) 9) ||| Z.shiftl ((cbz_offset w >>> 1) &&& 0x1f) 3);
        [unfold cbz_offset, slice; bit_solve|by rewrite Hz]. }
    rewrite <-Hw. transitivity ((w &&& 0xFD00) ||| (w &&& 0x2f8) ||| (w &&& 7));
      [bit_solve|by rewrite Hz', Z.lor_0_r]. }
  assert (Hq' : Z.even (Z.shiftl q 1) = true) by done. clear - Hhi Hq Hw0.
  pose proof (land_ones_bound 3 w) as Hv. change (Z.ones 3) with 7 in Hv.
  assert (Hn : lo3 w 0 = w &&& 7) by (unfold lo3, slice; bit_solve).
  rewrite Hn. cbn [thm_set]. rewrite Hw0 at 1 2. generalize dependent (w &&& 7). intros v _ Hv _.
  specialize (Hv ltac:(lia)). change (2 ^ 3) with 8 in Hv. clear Hhi w.
  match goal with |- decode 2 ?t = _ =>
    replace t with ((if nonzero then 0xB900 else 0xB100) ||| Z.shiftl (q >>> 5) 9 |||
                    Z.shiftl (q &&& 0x1f) 3 ||| v) by (destruct nonzero; bit_solve) end.
  destruct nonzero.
  - erewrite (decode_t16 (find_encoding t16_table 0xb900)); [|reflexivity|cbn [e_mask e_pat]; bit_solve].
    cbn [e_sem]. do 2 f_equal; unfold lo3, cbz_offset, slice; bit_solve.
  - erewrite (decode_t16 (find_encoding t16_table 0xb100)); [|reflexivity|cbn [e_mask e_pat]; bit_solve].
    cbn [e_sem]. do 2 f_equal; unfold lo3, cbz_offset, slice; bit_solve.
Qed.

(** ** Literal loads and ADR *)

Lemma s32_wrap x : exists k, s32 x = x + k * 2 ^ 32.
Proof.
  unfold s32. rewrite u32_mod. pose proof (Z.div_mod x (2 ^ 32)).
  destruct (Z.ltb _ _); [exists (- (x / 2 ^ 32))|exists (- (x / 2 ^ 32) - 1)]; lia.
Qed.

Lemma s32_add_wrap x k : s32 (x + k * 2 ^ 32) = s32 x.
Proof. unfold s32. rewrite !u32_mod. by rewrite Z.mod_add by lia. Qed.

(** The displacement of the literal forms, as the code computes it. *)
Lemma literal_disp val a addr :
  0 <= addr < 2 ^ 32 ->
  s32 (s32 val + a - s32 (addr &&& (~~~ 3)) - 4) = s32 (val + a - (4 * (addr / 4) + 4)).
Proof.
  intros Ha. rewrite align4 by done. destruct (s32_wrap val) as [k ->], (s32_wrap (4 * (addr / 4))) as [j ->].
  rewrite <-(s32_add_wrap (val + a - (4 * (addr / 4) + 4)) (k - j)). f_equal. lia.
Qed.

Lemma bit7 x : truth (x &&& 0x80) = Z.testbit x 7.
Proof. apply (truth_bit x 7). lia. Qed.

(** The direction bit of a halfword whose other bits are fixed. *)
Lemma half_word hi lo pat :
  0 <= hi < 2 ^ 16 -> 0 <= lo < 2 ^ 16 ->
  (Z.shiftl hi 16 ||| lo) &&& 0xFFFF0000 = Z.shiftl pat 16 -> hi = pat.
Proof.
  intros Hh Hl H. apply (f_equal (fun z => Z.shiftr z 16)) in H.
  rewrite Z.shiftr_shiftl_l, Z.shiftl_0_r in H by lia. rewrite <-H. bit_solve.
Qed.

Lemma lit_decode k (up : bool) lo y :
  0 <= lo < 2 ^ 16 -> 0 <= y < 4096 ->
  decode 4 (Z.shiftl (u16 (lit_hi k ||| if up then 0x80 else 0)) 16 ||| u16 ((lo &&& 0xf000) ||| y)) =
  Some (LDRlit k (lo >>> 12) (if up then y else - y)).
Proof.
  intros Hl Hy. remember (lo >>> 12) as r eqn:Hr.
  assert (Hrb : 0 <= r < 16) by (rewrite Hr, Z.shiftr_div_pow2 by lia; change (2 ^ 12) with 4096; lia_mod).
  replace (lo &&& 0xf000) with (Z.shiftl r 12) by (rewrite Hr; bit_solve). clear Hr Hl lo.
  unfold u16. destruct k, up; cbn [lit_hi]; read_word; read_fields; settle; reflexivity.
Qed.

Lemma reloc_pc12_ok env i a sym st ptr addr val :
  mem_ok (st_mem st) -> undef_weak sym = false -> 0 <= addr < 2 ^ 32 ->
  decode 4 (insn_at (st_mem st) ptr 4) = Some i -> thm_operand R_ARM_THM_PC12 i = Some a ->
  reloc_ok env R_ARM_THM_PC12 i a st (reloc_thm_pc12 R_ARM_THM_PC12 sym st ptr addr val) ptr addr val.
Proof.
  intros Hm Hs Haddr Hi Ha. unfold reloc_thm_pc12. rewrite Hs. cbv zeta.
  pose proof (read16_bound (st_mem st) ptr Hm) as Hhi.
  pose proof (read16_bound (st_mem st) (ptr + 2) Hm) as Hlo.
  rewrite insn4 in Hi.
  set (hi := read16le (st_mem st) ptr) in *. set (lo := read16le (st_mem st) (ptr + 2)) in *.
  destruct i as [| | | | | | | | | | | | | | | | | | | | | | k rt off | | | | | | | | |]; try discriminate Ha.
  injection Ha as ->.
  apply decode_lit in Hi as (-> & Hi); [|by apply insn4_bound].
  assert (exists up : bool, hi = lit_hi k ||| (if up then 0x80 else 0) /\
            a = if up then lo &&& 0xfff else - (lo &&& 0xfff)) as (up & Eh & ->).
  { destruct Hi as [[Hw ->]|[Hw ->]]; apply half_word in Hw; try done.
    - exists true. split; [done|]. unfold slice. bit_solve.
    - exists false. split; [by rewrite Z.lor_0_r|]. f_equal. unfold slice. bit_solve. }
  assert (Hd : truth (hi &&& 0x80) = up) by (rewrite Eh; destruct k, up; reflexivity).
  rewrite Hd, literal_disp, align4 by done. clear Hd Hi.
  assert (E : (if negb up then - (lo &&& 0xfff) else lo &&& 0xfff) =
              (if up then lo &&& 0xfff else - (lo &&& 0xfff))) by (by destruct up).
  rewrite E. clear E. set (a := if up then _ else _).
  pose proof (reloc_ok_checked env R_ARM_THM_PC12
    (LDRlit k (rt_ (Z.shiftl hi 16 ||| lo)) a) a st ptr addr val) as H.
  cbn [thm_disp] in H. revert H. generalize (s32 (val + a - (4 * (addr / 4) + 4))). intros x H.
  assert (Hr : Z.ltb x (-0xfff) || Z.ltb 0xfff x = negb (thm_reach R_ARM_THM_PC12 x)).
  { unfold thm_reach. destruct (Z.ltb_spec x (-4095)), (Z.ltb_spec 4095 x),
      (Z.leb_spec (-4095) x), (Z.leb_spec x 4095); try done; lia. }
  rewrite Hr.
  specialize (H (write_halves (st_mem st) ptr (if Z.ltb x 0 then hi &&& 0xff7f else hi ||| 0x80)
    ((lo &&& 0xf000) ||| (if Z.ltb x 0 then - x else x)))).
  destruct (thm_reach R_ARM_THM_PC12 x) eqn:Hreach; cbn [negb]; apply H; try done.
  intros _. split; [|apply write_halves_only].
  cbn [thm_size thm_set]. rewrite insn_write_halves. unfold thm_reach in Hreach. bool_facts.
  assert (Hrt : rt_ (Z.shiftl hi 16 ||| lo) = lo >>> 12) by (unfold rt_, slice; bit_solve).
  rewrite Hrt. replace (if Z.ltb x 0 then hi &&& 0xff7f else hi ||| 0x80)
    with (lit_hi k ||| if Z.leb 0 x then 0x80 else 0)
    by (rewrite Eh; destruct (Z.ltb_spec x 0), (Z.leb_spec 0 x), k, up; try lia; reflexivity).
  rewrite lit_decode by (try done; destruct (Z.ltb_spec x 0); lia).
  do 2 f_equal. destruct (Z.ltb_spec x 0), (Z.leb_spec 0 x); lia.
Qed.

Lemma ldrd_decode (up : bool) lo y :
  0 <= lo < 2 ^ 16 -> 0 <= y < 256 ->
  decode 4 (Z.shiftl (u16 (0xE95F ||| if up then 0x80 else 0)) 16 ||| u16 ((lo &&& 0xff00) ||| y)) =
  Some (LDSTD true (lo >>> 12) ((lo >>> 8) &&& 15) 15 (Z.shiftl y 2) true up false).
Proof.
  intros Hl Hy. remember (lo >>> 12) as r eqn:Hr. remember ((lo >>> 8) &&& 15) as r2 eqn:Hr2.
  assert (Hrb : 0 <= r < 16) by (rewrite Hr, Z.shiftr_div_pow2 by lia; change (2 ^ 12) with 4096; lia_mod).
  assert (Hr2b : 0 <= r2 < 16) by (rewrite Hr2; apply (land_ones_bound 4); lia).
  replace (lo &&& 0xff00) with (Z.shiftl r 12 ||| Z.shiftl r2 8) by (rewrite Hr, Hr2; bit_solve).
  clear Hr Hr2 Hl lo. unfold u16. destruct up; read_word; read_fields; settle; reflexivity.
Qed.

Lemma mod4_land x : truth (x &&& 3) = negb (Z.eqb (x mod 4) 0).
Proof. change 3 with (Z.ones 2). by rewrite Z.land_ones by lia. Qed.

Lemma reloc_pc8_ok env i a sym st ptr addr val :
  mem_ok (st_mem st) -> undef_weak sym = false -> 0 <= addr < 2 ^ 32 ->
  decode 4 (insn_at (st_mem st) ptr 4) = Some i -> thm_operand R_ARM_THM_PC8 i = Some a ->
  reloc_ok env R_ARM_THM_PC8 i a st (reloc_thm_pc8 R_ARM_THM_PC8 sym st ptr addr val) ptr addr val.
Proof.
  intros Hm Hs Haddr Hi Ha. unfold reloc_thm_pc8. rewrite Hs. cbv zeta.
  pose proof (read16_bound (st_mem st) ptr Hm) as Hhi.
  pose proof (read16_bound (st_mem st) (ptr + 2) Hm) as Hlo.
  rewrite insn4 in Hi.
  set (hi := read16le (st_mem st) ptr) in *. set (lo := read16le (st_mem st) (ptr + 2)) in *.
  destruct i as [| | | | | | | | | | | | | | | | | | | | | | | | [] rt rt2 rn imm [] up [] | | | | | | |];
    try discriminate Ha.
  cbn in Ha. destruct (Z.eqb_spec rn 15) as [->|]; [|done]. injection Ha as <-.
  apply decode_ldrd in Hi as (-> & -> & -> & Hw); [|by apply insn4_bound].
  apply half_word in Hw; [|done..].
  assert (Eh : hi = 0xE95F ||| (if up then 0x80 else 0)) by (rewrite Hw; by destruct up). clear Hw.
  assert (Hd : truth (hi &&& 0x80) = up) by (rewrite Eh; by destruct up).
  rewrite Hd, literal_disp, align4 by done. clear Hd.
  set (imm := Z.shiftl (slice _ 0 8) 2).
  assert (E : (if negb up then - Z.shiftl (lo &&& 0xff) 2 else Z.shiftl (lo &&& 0xff) 2) =
              (if up then imm else - imm)).
  { assert (Z.shiftl (lo &&& 0xff) 2 = imm) as -> by (unfold imm, slice; bit_solve). by destruct up. }
  rewrite E. clear E. set (a := if up then imm else _).
  pose proof (reloc_ok_checked env R_ARM_THM_PC8
    (LDSTD true (rt_ (Z.shiftl hi 16 ||| lo)) (rd_ (Z.shiftl hi 16 ||| lo)) 15 imm true up false)
    a st ptr addr val) as H.
  cbn [thm_disp] in H. revert H. generalize (s32 (val + a - (4 * (addr / 4) + 4))). intros x H.
  assert (Hr : Z.ltb x (-0x3fc) || Z.ltb 0x3fc x || truth (x &&& 3) = negb (thm_reach R_ARM_THM_PC8 x)).
  { rewrite mod4_land. unfold thm_reach. destruct (Z.ltb_spec x (-1020)), (Z.ltb_spec 1020 x),
      (Z.leb_spec (-1020) x), (Z.leb_spec x 1020), (Z.eqb _ 0); try done; lia. }
  rewrite Hr.
  specialize (H (write_halves (st_mem st) ptr (if Z.ltb x 0 then hi &&& 0xff7f else hi ||| 0x80)
    ((lo &&& 0xff00) ||| ((if Z.ltb x 0 then - x else x) >>> 2)))).
  destruct (thm_reach R_ARM_THM_PC8 x) eqn:Hreach; cbn [negb]; apply H; try done.
  intros _. split; [|apply write_halves_only].
  cbn [thm_size thm_set]. rewrite insn_write_halves. unfold thm_reach in Hreach. bool_facts.
  assert (Hrt : rt_ (Z.shiftl hi 16 ||| lo) = lo >>> 12 /\ rd_ (Z.shiftl hi 16 ||| lo) = (lo >>> 8) &&& 15)
    by (unfold rt_, rd_, slice; split; bit_solve).
  destruct Hrt as [-> ->]. replace (if Z.ltb x 0 then hi &&& 0xff7f else hi ||| 0x80)
    with (0xE95F ||| if Z.leb 0 x then 0x80 else 0)
    by (rewrite Eh; destruct (Z.ltb_spec x 0), (Z.leb_spec 0 x), up; try lia; reflexivity).
  assert (Hx : (if Z.ltb x 0 then - x else x) >>> 2 = Z.abs x / 4).
  { rewrite Z.shiftr_div_pow2 by lia. f_equal. destruct (Z.ltb_spec x 0); lia. }
  rewrite Hx, ldrd_decode by lia_mod. do 2 f_equal.
  rewrite Z.shiftl_mul_pow2 by lia. change (2 ^ 2) with 4. lia_mod.
Qed.

Lemma adr_decode (down : bool) lo y :
  0 <= lo < 2 ^ 16 -> lo &&& 0x8000 = 0 -> 0 <= y < 4096 ->
  decode 4 (Z.shiftl (u16 (u16 (0xF20F ||| Z.shiftl ((y >>> 11) &&& 1) 10) ||| Z.shiftl (if down then 0xa else 0) 4)) 16 |||
            u16 ((lo &&& 0x8f00) ||| Z.shiftl ((y >>> 8) &&& 7) 12 ||| (y &&& 0xff))) =
  Some (ADR ((lo >>> 8) &&& 15) (if down then - y else y)).
Proof.
  intros Hl H15 Hy. remember ((lo >>> 8) &&& 15) as r eqn:Hr.
  assert (Hrb : 0 <= r < 16) by (rewrite Hr; apply (land_ones_bound 4); lia).
  replace (lo &&& 0x8f00) with (Z.shiftl r 8).
  2: { transitivity ((lo &&& 0x8000) ||| Z.shiftl ((lo >>> 8) &&& 15) 8); [|bit_solve].
       by rewrite H15, Z.lor_0_l, Hr. }
  clear Hr H15 Hl lo. unfold u16. destruct down; read_word; read_fields; settle; reflexivity.
Qed.

(** An ADR word: the register operand is the PC, the direction is bit 23. *)
Lemma adr_fields hi lo rd a :
  0 <= hi < 2 ^ 16 -> 0 <= lo < 2 ^ 16 ->
  decode 4 (Z.shiftl hi 16 ||| lo) = Some (ADR rd a) ->
  let field := Z.shiftl ((hi >>> 10) &&& 1) 11 ||| Z.shiftl ((lo >>> 12) &&& 0x7) 8 ||| (lo &&& 0xff) in
  hi &&& 0xfb0f = 0xF20F /\ lo &&& 0x8000 = 0 /\ rd = (lo >>> 8) &&& 15 /\
  (if truth (hi &&& 0x80) then - field else field) = a.
Proof.
  intros Hhi Hlo Hi. apply decode_adr in Hi as (-> & Hrn & Hw). cbv zeta.
  assert (Hf : Z.shiftl ((hi >>> 10) &&& 1) 11 ||| Z.shiftl ((lo >>> 12) &&& 0x7) 8 ||| (lo &&& 0xff) =
               modimm_field (Z.shiftl hi 16 ||| lo)) by (unfold modimm_field, slice; bit_solve).
  rewrite Hf. clear Hf.
  assert (Hh : hi &&& 0xf = 15) by (rewrite <-Hrn; unfold rn_, slice; bit_solve).
  assert (Hrd : rd_ (Z.shiftl hi 16 ||| lo) = (lo >>> 8) &&& 15) by (unfold rd_, slice; bit_solve).
  rewrite Hrd. set (w := Z.shiftl hi 16 ||| lo) in *.
  assert (H1 : hi &&& 0xfb0f = ((w &&& 0xFBF08000) >>> 16 &&& 0xfb00) ||| (hi &&& 0xf)) by (unfold w; bit_solve).
  assert (H2 : lo &&& 0x8000 = w &&& 0xFBF08000 &&& 0x8000) by (unfold w; bit_solve).
  assert (H3 : hi &&& 0x80 = ((w &&& 0xFBF08000) >>> 16) &&& 0x80) by (unfold w; bit_solve).
  rewrite H1, H2, H3, Hh. destruct Hw as [[-> ->]|[-> ->]]; done.
Qed.

Lemma reloc_alu_prel_ok env i a sym st ptr addr val :
  mem_ok (st_mem st) -> undef_weak sym = false -> 0 <= addr < 2 ^ 32 ->
  thm_disp R_ARM_THM_ALU_PREL_11_0 a addr val <> - 2 ^ 31 ->
  decode 4 (insn_at (st_mem st) ptr 4) = Some i -> thm_operand R_ARM_THM_ALU_PREL_11_0 i = Some a ->
  reloc_ok env R_ARM_THM_ALU_PREL_11_0 i a st
    (reloc_thm_alu_prel R_ARM_THM_ALU_PREL_11_0 sym st ptr addr val) ptr addr val.
Proof.
  intros Hm Hs Haddr Hmin Hi Ha. unfold reloc_thm_alu_prel. rewrite Hs. cbv zeta.
  pose proof (read16_bound (st_mem st) ptr Hm) as Hhi.
  pose proof (read16_bound (st_mem st) (ptr + 2) Hm) as Hlo.
  rewrite insn4 in Hi.
  set (hi := read16le (st_mem st) ptr) in *. set (lo := read16le (st_mem st) (ptr + 2)) in *.
  destruct i as [| | | | | | | | | | | | | | | | | | | | | | | rd off | | | | | | | |]; try discriminate Ha.
  injection Ha as ->.
  destruct (adr_fields hi lo rd a Hhi Hlo Hi) as (Eh & El & -> & Ea). cbv zeta in Ea. rewrite Ea, Eh.
  rewrite literal_disp, align4 by done.
  pose proof (reloc_ok_checked env R_ARM_THM_ALU_PREL_11_0 (ADR ((lo >>> 8) &&& 15) a) a st ptr addr val) as H.
  cbn [thm_disp] in H, Hmin. pose proof (s32_bound (val + a - (4 * (addr / 4) + 4))) as Hb.
  revert H Hmin Hb. generalize (s32 (val + a - (4 * (addr / 4) + 4))). intros x H Hmin Hb.
  assert (Habs : (if Z.ltb x 0 then s32 (- x) else x) = Z.abs x).
  { destruct (Z.ltb_spec x 0); [|lia]. rewrite s32_small; lia. }
  rewrite Habs.
  assert (Hr : Z.ltb 0xfff (Z.abs x) = negb (thm_reach R_ARM_THM_ALU_PREL_11_0 x)).
  { unfold thm_reach. destruct (Z.ltb_spec 4095 (Z.abs x)), (Z.leb_spec (-4095) x), (Z.leb_spec x 4095); try done; lia. }
  rewrite Hr.
  specialize (H (write_halves (st_mem st) ptr
    (u16 (0xF20F ||| Z.shiftl ((Z.abs x >>> 11) &&& 1) 10) ||| Z.shiftl (if Z.ltb x 0 then 0xa else 0) 4)
    ((lo &&& 0x8f00) ||| Z.shiftl ((Z.abs x >>> 8) &&& 7) 12 ||| (Z.abs x &&& 0xff)))).
  destruct (thm_reach R_ARM_THM_ALU_PREL_11_0 x) eqn:Hreach; cbn [negb]; apply H; try done.
  intros _. split; [|apply write_halves_only].
  cbn [thm_size thm_set]. rewrite insn_write_halves. unfold thm_reach in Hreach. bool_facts.
  rewrite adr_decode by (done || lia). do 2 f_equal. destruct (Z.ltb_spec x 0); lia.
Qed.

(** ** All of them *)

Definition thm_reloc (t : reloc_type) : Prop :=
  match t with
  | R_ARM_THM_PC22 | R_ARM_THM_JUMP24 | R_ARM_THM_JUMP19 | R_ARM_THM_JUMP6
  | R_ARM_THM_PC12 | R_ARM_THM_PC8 | R_ARM_THM_ALU_PREL_11_0 => True
  | _ => False
  end.

(** The branches whose range the linker does not check, against the comment above
    the check: those into the PLT whose target has bit 1 clear. *)
Definition unchecked (env : LinkEnv) (t : reloc_type) (val : Z) : Prop :=
  (t = R_ARM_THM_PC22 \/ t = R_ARM_THM_JUMP24) /\ in_plt env val = true /\ Z.testbit val 1 = false.

Lemma reported_cases env t x val :
  (thm_reach t x = true -> thm_reported env t x val = false) /\
  (thm_reach t x = false -> ~ unchecked env t val -> thm_reported env t x val = true) /\
  (thm_reach t x = false -> unchecked env t val -> thm_reported env t x val = false).
Proof.
  unfold thm_reported, unchecked. split; [by intros ->|].
  split; intros ->; cbn [negb andb].
  - intros H. destruct t; try done; destruct (in_plt env val), (Z.testbit val 1); try done; exfalso; tauto.
  - by intros ([-> | ->] & -> & ->).
Qed.

Lemma relocate_reloc_ok env rel t i a st ptr addr val :
  thm_reloc t -> mem_ok (st_mem st) -> undef_weak (env_sym env (r_sym rel)) = false ->
  0 <= addr < 2 ^ 32 ->
  (t = R_ARM_THM_ALU_PREL_11_0 -> thm_disp t a addr val <> - 2 ^ 31) ->
  decode (thm_size t) (insn_at (st_mem st) ptr (thm_size t)) = Some i -> thm_operand t i = Some a ->
  reloc_ok env t i a st (relocate env rel t st ptr addr val) ptr addr val.
Proof.
  intros Ht Hm Hs Haddr Hmin Hi Ha. destruct t; try destruct Ht; cbn [thm_size] in Hi; cbn [relocate].
  - apply reloc_branch_ok; auto.
  - by apply reloc_pc8_ok.
  - apply reloc_branch_ok; auto.
  - by apply reloc_jump19_ok.
  - by apply reloc_jump6_ok.
  - apply reloc_alu_prel_ok; auto.
  - by apply reloc_pc12_ok.
Qed.

Lemma relocate_weak env rel t st ptr addr val :
  thm_reloc t -> undef_weak (env_sym env (r_sym rel)) = true -> relocate env rel t st ptr addr val = st.
Proof.
  intros Ht Hs. destruct t; try destruct Ht; cbn [relocate];
    unfold reloc_thm_branch, reloc_thm_jump19, reloc_thm_jump6, reloc_thm_pc12, reloc_thm_pc8, reloc_thm_alu_prel; by rewrite Hs.
Qed.

(** C12: for each of the Thumb PC-relative relocations (BL, B.W, conditional B.W,
    CBZ/CBNZ, LDR and LDRD literal, ADR) on an instruction of its kind, [relocate] does
    nothing for an undefined weak symbol, and for any other symbol leaves the same
    instruction with the displacement from the place to the symbol plus the old operand
    whenever that displacement is encodable, with no error, and adds the range error when
    it is not. Two branch cases are the exception the code makes: a BL or B.W into the PLT
    whose target has bit 1 clear is never reported, although the comment above the check
    says an out of range call is an error. No byte outside the instruction and no dynamic
    relocation changes. The operand of a CBZ is taken to be 0 before relocation (the code
    ors the new one in), and the ADR displacement -2^31, whose negation in [int] is
    undefined, is left out. *)
Theorem relocate_thumb env rel t i a st ptr addr val :
  thm_reloc t -> mem_ok (st_mem st) -> 0 <= addr < 2 ^ 32 ->
  (t = R_ARM_THM_ALU_PREL_11_0 -> thm_disp t a addr val <> - 2 ^ 31) ->
  decode (thm_size t) (insn_at (st_mem st) ptr (thm_size t)) = Some i -> thm_operand t i = Some a ->
  let st' := relocate env rel t st ptr addr val in
  let x := thm_disp t a addr val in
  (undef_weak (env_sym env (r_sym rel)) = true -> st' = st) /\
  (undef_weak (env_sym env (r_sym rel)) = false ->
     (thm_reach t x = true ->
        errors st' = errors st /\
        decode (thm_size t) (insn_at (st_mem st') ptr (thm_size t)) = Some (thm_set i x)) /\
     (thm_reach t x = false -> ~ unchecked env t val ->
        errors st' = errors st ++ [Err_range (thm_place t addr) t]) /\
     (thm_reach t x = false -> unchecked env t val -> errors st' = errors st) /\
     only_changes (st_mem st) (st_mem st') ptr (thm_size t) /\
     qrel st' = qrel st).
Proof.
  intros Ht Hm Haddr Hmin Hi Ha. cbv zeta. split; [by apply relocate_weak|]. intros Hs.
  destruct (relocate_reloc_ok env rel t i a st ptr addr val Ht Hm Hs Haddr Hmin Hi Ha) as (He & Hd & Ho & Hq).
  destruct (reported_cases env t (thm_disp t a addr val) val) as (R1 & R2 & R3). rewrite He.
  split; [intros Hr; rewrite (R1 Hr), app_nil_r; auto|].
  split; [intros Hr Hu; by rewrite (R2 Hr Hu)|]. split; [intros Hr Hu; by rewrite (R3 Hr Hu), app_nil_r|done].
Qed.

Definition demo_env : LinkEnv :=
  mk_env 2 None None (mk_section 0x10000000 1 0 0 0) (mk_section 0 2 0 0 0) 0 0
    [mk_sym String.EmptyString 0 0 0 0 0 0; mk_sym String.EmptyString 0x10000101 0 1 0 0 1] (fun _ => mk_attr 0 0 0 0).

(** BL with the assembler's addend -4, as bytes f7 ff ff fe. *)
Definition demo_bl : mem :=
  fun a => if Z.eqb a 0 then 0xff else if Z.eqb a 1 then 0xf7 else if Z.eqb a 2 then 0xfe else 0xff.

Lemma relocate_thumb_witness :
  let st' := relocate demo_env (mk_rel 0 1 R_ARM_THM_PC22) R_ARM_THM_PC22 (mk_st demo_bl [] []) 0 0x10000000 0x10000101 in
  errors st' = [] /\ decode 4 (insn_at (st_mem st') 0 4) = Some (BL 0xfc).
Proof.
  apply (relocate_thumb demo_env (mk_rel 0 1 R_ARM_THM_PC22) R_ARM_THM_PC22 (BL (-4)) (-4) (mk_st demo_bl [] []) 0 0x10000000 0x10000101);
    [done| |lia|done|vm_compute; reflexivity|done|vm_compute; reflexivity|vm_compute; reflexivity].
  intros a. cbn. unfold demo_bl. repeat case_match; lia.
Defined.
