(* ===== verification/ArmRelocFrame.v ===== *)
(** * Relocations act on their own field

    The field of a relocation is the bytes it may read and write.  [relocate]
    changes no other byte and its effect is a function of the field alone, so the
    loop over a section's relocations is the pointwise application of each. *)

From S2P Require Import Prelude BitReflect Bytes ArmDecode ElfSym ArmLink HotVeneer.
From S2P Require Import ArmReloc.
From stdpp Require Import list.
From Stdlib Require String.
Local Open Scope Z_scope.
Local Open Scope c_scope.

Definition reloc_width (t : reloc_type) : Z :=
  match t with
  | R_ARM_THM_JUMP6 => 2
  | R_ARM_YASOS_HOT_VENEER => HOT_VENEER_SIZE
  | R_ARM_YASOS_LOCAL_CALL | R_ARM_COPY | R_ARM_NONE | R_ARM_RELATIVE | R_ARM_TARGET2
  | R_ARM_OTHER _ => 0
  | _ => 4
  end.

Definition agree (m1 m2 : mem) (p n : Z) : Prop := forall a, p <= a < p + n -> m1 a = m2 a.

(** Two runs add the same errors and output relocations and leave the same field. *)
Definition same_effect (p n : Z) (s1 s2 s1' s2' : LinkState) : Prop :=
  agree (st_mem s1') (st_mem s2') p n /\
  exists e q, errors s1' = errors s1 ++ e /\ errors s2' = errors s2 ++ e /\
              qrel s1' = qrel s1 ++ q /\ qrel s2' = qrel s2 ++ q.

Section Agree.
Context (m1 m2 : mem) (p : Z).

Lemma agree_read16 n q : agree m1 m2 p n -> p <= q -> q + 2 <= p + n -> read16le m1 q = read16le m2 q.
Proof. intros H H1 H2. apply read16_ext; apply H; lia. Qed.

Lemma agree_read32 n q : agree m1 m2 p n -> p <= q -> q + 4 <= p + n -> read32le m1 q = read32le m2 q.
Proof. intros H H1 H2. apply read32_ext. intros a Ha. apply H. lia. Qed.

Lemma agree_write16 n q x : agree m1 m2 p n -> agree (write16le m1 q x) (write16le m2 q x) p n.
Proof. intros H a Ha. unfold write16le, set_byte. by rewrite (H a Ha). Qed.

Lemma reread32 q x : read32le (write32le m1 q x) q = u16 x ||| Z.shiftl (u16 (x >>> 16)) 16.
Proof. unfold read32le. by rewrite read16_write32_lo, read16_write32_hi. Qed.
End Agree.

Lemma agree_write32 m1 m2 p n q x :
  agree m1 m2 p n -> agree (write32le m1 q x) (write32le m2 q x) p n.
Proof. intros H. by do 2 apply agree_write16. Qed.

Lemma agree_write_halves m1 m2 p n q hi lo :
  agree m1 m2 p n -> agree (write_halves m1 q hi lo) (write_halves m2 q hi lo) p n.
Proof. intros H. by do 2 apply agree_write16. Qed.

#[export] Hint Resolve agree_write16 agree_write32 agree_write_halves : bytes.

(** Splits the conditions both runs share, innermost first. *)
Ltac same_cases :=
  repeat match goal with
  | |- context [if ?b then _ else _] =>
      lazymatch b with context [if _ then _ else _] => fail | _ => destruct b end
  end.

Ltac same_effect_tac :=
  split; [cbn [st_mem with_mem tcc_error_noabort emit_qrel]; auto with bytes|];
  first [exists [], []; cbn; by rewrite !app_nil_r
        |eexists [_], []; cbn; by rewrite !app_nil_r
        |eexists [], [_]; cbn; by rewrite !app_nil_r].

Lemma relocate_local_plain env rel t s1 s2 ptr addr val :
  t <> R_ARM_YASOS_HOT_VENEER ->
  agree (st_mem s1) (st_mem s2) ptr (reloc_width t) ->
  same_effect ptr (reloc_width t) s1 s2
    (relocate env rel t s1 ptr addr val) (relocate env rel t s2 ptr addr val).
Proof.
  intros Ht H. destruct t; try done; cbn [relocate]; 
  unfold reloc_arm_branch, reloc_thm_jump6, reloc_thm_alu_prel, reloc_thm_pc12, reloc_thm_pc8,
    reloc_thm_jump19, reloc_thm_branch, reloc_local_call, reloc_mov_abs, reloc_mov_prel,
    reloc_thm_mov_abs, reloc_prel31, reloc_abs32, reloc_rodata_off, reloc_got_sbrel12, reloc_v4bx;
  cbv zeta; unfold add32le;
  rewrite ?(agree_read32 _ _ _ _ _ H), ?(agree_read16 _ _ _ _ _ H) by (cbn; lia);
  cbn [st_mem with_mem tcc_error_noabort emit_qrel];
  rewrite ?reread32;
  same_cases; cbn [st_mem with_mem tcc_error_noabort emit_qrel]; 
  rewrite ?reread32, ?(agree_read32 _ _ _ _ _ H) by (cbn; lia);
  same_effect_tac.
Qed.

(** ** Veneers also read the PLT *)

(** Entries of 32 bytes, inside the address space. *)
Definition plt_ok (env : LinkEnv) : Prop :=
  match plt env with
  | Some p => 0 <= sh_addr p /\ 0 <= data_offset p /\ sh_addr p + data_offset p < 2 ^ 32 /\
              data_offset p mod 32 = 0
  | None => True
  end.

Definition plt_agree (env : LinkEnv) (m1 m2 : mem) : Prop :=
  match plt env with Some p => agree m1 m2 (sec_data p) (data_offset p) | None => True end.

Lemma plt_entry_inside env p val :
  plt_ok env -> plt env = Some p -> in_plt env val = true ->
  sec_data p <= plt_entry env val /\ plt_entry env val + 32 <= sec_data p + data_offset p.
Proof.
  unfold plt_ok, in_plt, plt_entry, sh_addr_of. intros Hok Hp. rewrite Hp in *. cbn [from_option].
  intros [H1%Z.leb_le H2%Z.ltb_lt]%andb_prop. destruct Hok as (H3 & H4 & H5 & H6).
  rewrite u32_small in H2 by lia.
  assert (Hd : u32 (val - sh_addr p) &&& (~~~ 31) = 32 * ((val - sh_addr p) / 32)).
  { rewrite u32_small by lia. assert (0 <= val - sh_addr p < 2 ^ 32) as Hv by lia. revert Hv.
    generalize (val - sh_addr p). intros d Hd. transitivity (Z.shiftl (d >>> 5) 5); [bit_solve|].
    rewrite Z.shiftl_mul_pow2, Z.shiftr_div_pow2 by lia. change (2 ^ 5) with 32. lia. }
  rewrite Hd. lia_mod.
Qed.

Lemma veneer_kind_local env m1 m2 addr val :
  plt_ok env -> plt_agree env m1 m2 -> veneer_kind env m1 addr val = veneer_kind env m2 addr val.
Proof.
  intros Hok Ha. unfold veneer_kind. destruct (hot_src env addr && in_plt env val) eqn:E; [|done].
  apply andb_prop in E as [_ E]. unfold plt_agree in Ha.
  destruct (plt env) as [p|] eqn:Hp; [|by unfold in_plt in E; rewrite Hp in E].
  destruct (plt_entry_inside env p val Hok Hp E). f_equal.
  apply (agree_read32 _ _ _ _ _ Ha); lia.
Qed.

Lemma relocate_local env rel t s1 s2 ptr addr val :
  plt_ok env -> plt_agree env (st_mem s1) (st_mem s2) ->
  agree (st_mem s1) (st_mem s2) ptr (reloc_width t) ->
  same_effect ptr (reloc_width t) s1 s2
    (relocate env rel t s1 ptr addr val) (relocate env rel t s2 ptr addr val).
Proof.
  intros Hok Hp H. destruct (decide (t = R_ARM_YASOS_HOT_VENEER)) as [->|]; [|by apply relocate_local_plain].
  cbn [relocate]. rewrite !fill_veneer_eq, <-(veneer_kind_local env (st_mem s1) (st_mem s2)) by done.
  set (v := veneer_kind _ _ _ _). split; [|exists (veneer_errors v (r_sym rel) addr), []; by rewrite !app_nil_r].
  cbn [st_mem]. intros a Ha.
  destruct v; [apply put_list_same|apply put_list_same|by apply H]; cbn [veneer_words].
  - rewrite pad20_length by (cbn; lia). exact Ha.
  - rewrite pad20_length by apply jump_words_length. exact Ha.
Qed.

(** ** Nothing else changes *)

Lemma relocate_only env rel t st ptr addr val :
  only_changes (st_mem st) (st_mem (relocate env rel t st ptr addr val)) ptr (reloc_width t).
Proof.
  destruct t; cbn [relocate]; try done; try apply fill_veneer_only; intros a Ha;
  unfold reloc_arm_branch, reloc_thm_jump6, reloc_thm_alu_prel, reloc_thm_pc12, reloc_thm_pc8,
    reloc_thm_jump19, reloc_thm_branch, reloc_local_call, reloc_mov_abs, reloc_mov_prel,
    reloc_thm_mov_abs, reloc_prel31, reloc_abs32, reloc_rodata_off, reloc_got_sbrel12, reloc_v4bx;
  cbv zeta; unfold add32le, write_halves; cbn [reloc_width] in Ha;
  repeat case_match; cbn [st_mem with_mem tcc_error_noabort emit_qrel];
  rewrite ?write32_other, ?write16_other by lia; done.
Qed.

(** ** A section *)

Definition in_field (s : Section_) (r : Rel) (a : Z) : Prop :=
  sec_data s + r_offset r <= a < sec_data s + r_offset r + reloc_width (r_type r).

Definition fields_apart (s : Section_) (r1 r2 : Rel) : Prop := forall a, in_field s r1 a -> ~ in_field s r2 a.

(** No field lies in the PLT's own bytes. *)
Definition off_plt (env : LinkEnv) (s : Section_) (r : Rel) : Prop :=
  match plt env with
  | Some p => forall a, in_field s r a -> ~ (sec_data p <= a < sec_data p + data_offset p)
  | None => True
  end.

Section OneField.
Context (env : LinkEnv) (dw : DwarfRange) (s : Section_) (r : Rel).

Lemma one_only st a : ~ in_field s r a -> st_mem (relocate_one env dw s st r) a = st_mem st a.
Proof.
  intros Ha. unfold relocate_one. cbv zeta.
  destruct (in_dwarf dw (sh_num s) && bool_decide (r_type r = R_ARM_ABS32) && _) eqn:E.
  - apply andb_prop in E as [[_ E%bool_decide_eq_true]%andb_prop _].
    unfold in_field in Ha. rewrite E in Ha. apply write32_other. exact Ha.
  - by apply relocate_only.
Qed.

Lemma one_local s1 s2 :
  plt_ok env -> plt_agree env (st_mem s1) (st_mem s2) ->
  (forall a, in_field s r a -> st_mem s1 a = st_mem s2 a) ->
  same_effect (sec_data s + r_offset r) (reloc_width (r_type r)) s1 s2
    (relocate_one env dw s s1 r) (relocate_one env dw s s2 r).
Proof.
  intros Hok Hp H. change (agree (st_mem s1) (st_mem s2) (sec_data s + r_offset r) (reloc_width (r_type r))) in H.
  unfold relocate_one. cbv zeta. destruct (in_dwarf dw (sh_num s) && bool_decide (r_type r = R_ARM_ABS32) && _) eqn:E.
  - apply andb_prop in E as [[_ E%bool_decide_eq_true]%andb_prop _].
    unfold add32le. rewrite (agree_read32 _ (st_mem s2) _ _ _ H) by (rewrite ?E; cbn; lia).
    split; [cbn [st_mem with_mem]; by apply agree_write32|]. exists [], []. cbn. by rewrite !app_nil_r.
  - by apply relocate_local.
Qed.
End OneField.

(** What one relocation contributes, computed on the memory before the loop. *)
Definition alone (env : LinkEnv) (dw : DwarfRange) (s : Section_) (m : mem) (r : Rel) : LinkState :=
  relocate_one env dw s (mk_st m [] []) r.

Lemma relocate_fold env dw s m0 rels st :
  plt_ok env -> plt_agree env (st_mem st) m0 -> ForallOrdPairs (fields_apart s) rels ->
  Forall (off_plt env s) rels ->
  (forall r, In r rels -> forall a, in_field s r a -> st_mem st a = m0 a) ->
  let st' := fold_left (relocate_one env dw s) rels st in
  (forall r, In r rels -> forall a, in_field s r a -> st_mem st' a = st_mem (alone env dw s m0 r) a) /\
  (forall a, (forall r, In r rels -> ~ in_field s r a) -> st_mem st' a = st_mem st a) /\
  errors st' = errors st ++ concat (map (fun r => errors (alone env dw s m0 r)) rels) /\
  qrel st' = qrel st ++ concat (map (fun r => qrel (alone env dw s m0 r)) rels).
Proof.
  intros Hok Hp Hap. revert st Hp. induction Hap as [|r rels Hr Hap IH]; intros st Hp Hoff Hm; cbv zeta; cbn [fold_left].
  - repeat split; [done|cbn; by rewrite app_nil_r..].
  - apply Forall_cons in Hoff as [Hor Hoff].
    destruct (one_local env dw s r st (mk_st m0 [] []) Hok Hp (Hm r (or_introl eq_refl))) as (Hag & e & q & He & He0 & Hq & Hq0).
    cbn [errors qrel app] in He0, Hq0. fold (alone env dw s m0 r) in Hag, He0, Hq0.
    set (st1 := relocate_one env dw s st r) in *.
    assert (Hp1 : plt_agree env (st_mem st1) m0).
    { unfold plt_agree, off_plt in *. destruct (plt env) as [p|]; [|done]. intros a Ha.
      unfold st1. rewrite one_only; [by apply Hp|]. intros Hf. by apply (Hor a). }
    assert (Hm1 : forall r', In r' rels -> forall a, in_field s r' a -> st_mem st1 a = m0 a).
    { intros r' Hin a Ha. unfold st1. rewrite one_only; [apply (Hm r'); [by right|done]|].
      intros Hf. rewrite Forall_forall in Hr. apply (Hr r') in Hf; [done|by apply list_elem_of_In]. }
    destruct (IH st1 Hp1 Hoff Hm1) as (H1 & H2 & H3 & H4). repeat split.
    + intros r' [<-|Hin] a Ha; [|by apply H1]. rewrite H2; [by apply Hag|].
      intros r' Hin Hf. rewrite Forall_forall in Hr. apply (Hr r') in Ha; [done|by apply list_elem_of_In].
    + intros a Ha. rewrite H2 by (intros r' Hin; apply Ha; by right). apply one_only. apply Ha. by left.
    + rewrite H3, He. cbn [map concat]. by rewrite He0, app_assoc.
    + rewrite H4, Hq. cbn [map concat]. by rewrite Hq0, app_assoc.
Qed.

(** C33: relocating a section whose fields do not overlap (nor lie in the PLT) gives
    every field the bytes that relocating it alone in the original contents gives,
    leaves all other bytes as they were, and reports exactly the errors and output
    relocations of the individual relocations, in order. *)
Theorem relocate_section_pointwise env dw s rels st :
  plt_ok env -> ForallOrdPairs (fields_apart s) rels -> Forall (off_plt env s) rels ->
  let st' := relocate_section env dw s rels st in
  (forall r, In r rels -> forall a, in_field s r a -> st_mem st' a = st_mem (alone env dw s (st_mem st) r) a) /\
  (forall a, (forall r, In r rels -> ~ in_field s r a) -> st_mem st' a = st_mem st a) /\
  errors st' = errors st ++ concat (map (fun r => errors (alone env dw s (st_mem st) r)) rels) /\
  qrel st' = concat (map (fun r => qrel (alone env dw s (st_mem st) r)) rels).
Proof.
  intros Hok Hap Hoff. unfold relocate_section.
  destruct (relocate_fold env dw s (st_mem st) rels (mk_st (st_mem st) (errors st) [])) as (H1 & H2 & H3 & H4);
    [done| |done|done|done|].
  - unfold plt_agree. by destruct (plt env).
  - auto.
Qed.

Definition two_words : list Rel := [mk_rel 0 1 R_ARM_ABS32; mk_rel 4 1 R_ARM_REL32].
Definition demo_link : LinkEnv :=
  mk_env 2 None None (mk_section 0x10000000 1 0 0 0) (mk_section 0 2 0 0 0) 0 0
    [mk_sym String.EmptyString 0 0 0 0 0 0; mk_sym String.EmptyString 0x20000010 0 1 0 0 3] (fun _ => mk_attr 0 0 0 0).
Definition demo_dw : DwarfRange := mk_dw 0 0 (fun _ => 0).
Definition demo_text : Section_ := mk_section 0x10000000 1 0 0 8.

Lemma relocate_section_pointwise_witness :
  let st' := relocate_section demo_link demo_dw demo_text two_words (mk_st (fun _ => 0) [] []) in
  read32le (st_mem st') 0 = 0x20000010 /\ read32le (st_mem st') 4 = 0x1000000c /\
  forall a, ~ (0 <= a < 8) -> st_mem st' a = 0.
Proof.
  split; [vm_compute; reflexivity|]. split; [vm_compute; reflexivity|]. intros a Ha.
  destruct (relocate_section_pointwise demo_link demo_dw demo_text two_words (mk_st (fun _ => 0) [] []))
    as (_ & H & _).
  - done.
  - unfold fields_apart, in_field. repeat constructor; cbn; lia.
  - repeat constructor.
  - apply H. intros r [<-|[<-|[]]]; unfold in_field; cbn; lia.
Defined.
