(* ===== verification/ArmRelocData.v ===== *)
(** * Addresses in registers and in data words

    A MOVW/MOVT pair and the data words hold (a function of) the symbol's address;
    here is what the program that uses them computes. *)

From S2P Require Import Prelude BitReflect Bytes ArmDecode ThumbDecode ElfSym ArmLink.
From S2P Require Import ArmReloc ArmRelocSpec ArmRelocThumb ArmRelocFrame.
From stdpp Require Import list.
From Stdlib Require String.
Local Open Scope Z_scope.
Local Open Scope c_scope.

(** ** MOVW and MOVT *)

(** The sign-extended 16-bit addend the code reads, as an unsigned word. *)
Lemma sign_extend16 a :
  0 <= a < 2 ^ 16 -> exists k, (if truth (a &&& 0x8000) then u32 (a - 0x10000) else a) = sign_extend 16 a + k * 2 ^ 32.
Proof.
  intros Ha. change 0x8000 with (2 ^ 15). rewrite truth_bit by lia. unfold sign_extend. change (16 - 1) with 15.
  destruct (Z.testbit a 15); [|by exists 0; lia].
  rewrite u32_mod. exists (- ((a - 65536) / 2 ^ 32)). lia_mod.
Qed.

Section Mov.
Context (hi lo : Z) (Hhi : 0 <= hi < 2 ^ 16) (Hlo : 0 <= lo < 2 ^ 16).

(** The fields read from the little-endian word are those of the instruction. *)
Lemma mov_addend :
  let insn := hi ||| Z.shiftl lo 16 in
  ((insn &&& 0xf) <<< 12) ||| (((insn >>> 10) &&& 1) <<< 11) |||
  (((insn >>> 28) &&& 7) <<< 8) ||| ((insn >>> 16) &&& 0xff) = imm16_field (Z.shiftl hi 16 ||| lo).
Proof. cbv zeta. unfold imm16_field, modimm_field, slice. bit_solve. Qed.

Lemma mov_word v pat :
  0 <= v < 2 ^ 32 -> pat = 0xF2400000 \/ pat = 0xF2C00000 ->
  (Z.shiftl hi 16 ||| lo) &&& 0xFBF08000 = pat ->
  let insn := hi ||| Z.shiftl lo 16 in
  let x := ((v >>> 12) &&& 0xf) ||| (((v >>> 11) &&& 1) <<< 10) |||
           (((v >>> 8) &&& 7) <<< 28) ||| ((v &&& 0xff) <<< 16) in
  let r := (insn &&& (~~~ 0x70ff040f)) ||| x in
  let w := Z.shiftl (u16 r) 16 ||| u16 (r >>> 16) in
  w &&& 0xFBF08000 = pat /\ rd_ w = rd_ (Z.shiftl hi 16 ||| lo) /\ imm16_field w = v &&& 0xffff.
Proof.
  intros Hv Hp Hm. cbv zeta.
  destruct (fixed_halves hi lo 0xFBF08000 pat) as [Hh' Hl'];
    [done|done|lia|destruct Hp as [-> | ->]; lia|done|].
  clear Hm. rewrite Hh', Hl'. unfold rd_, imm16_field, modimm_field, slice.
  destruct Hp as [-> | ->]; repeat split; bit_solve.
Qed.
End Mov.

(** A MOVW (not the modified-immediate MOV) or MOVT at [p]. *)
Definition is_movw (w : Z) : Prop := w &&& 0xFBF08000 = 0xF2400000.
Definition is_movt (w : Z) : Prop := w &&& 0xFBF08000 = 0xF2C00000.

Lemma mov_reloc t st p val :
  mem_ok (st_mem st) -> 0 <= val < 2 ^ 32 ->
  let w := insn_at (st_mem st) p 4 in
  let w' := insn_at (st_mem (reloc_thm_mov_abs t st p val)) p 4 in
  let v := u32 (val + sign_extend 16 (imm16_field w)) in
  forall pat, pat = 0xF2400000 \/ pat = 0xF2C00000 -> w &&& 0xFBF08000 = pat ->
  w' &&& 0xFBF08000 = pat /\ rd_ w' = rd_ w /\
  imm16_field w' = (if bool_decide (t = R_ARM_THM_MOVT_ABS) then v >>> 16 else v) &&& 0xffff.
Proof.
  intros Hm Hval w w' v pat Hp Hw.
  pose proof (read16_bound (st_mem st) p Hm) as Hhi.
  pose proof (read16_bound (st_mem st) (p + 2) Hm) as Hlo.
  unfold w in Hw, v. unfold w', w, reloc_thm_mov_abs. cbv zeta. cbn [st_mem with_mem].
  rewrite insn4 in *. rewrite read16_write32_lo, read16_write32_hi. unfold read32le.
  set (hi := read16le (st_mem st) p) in *. set (lo := read16le (st_mem st) (p + 2)) in *.
  rewrite (mov_addend hi lo Hhi Hlo).
  assert (Ha : 0 <= imm16_field (Z.shiftl hi 16 ||| lo) < 2 ^ 16).
  { rewrite <-(mov_addend hi lo Hhi Hlo). cbv zeta.
    match goal with |- 0 <= ?x < _ => replace x with (x &&& Z.ones 16) by bit_solve end.
    apply land_ones_bound. lia. }
  destruct (sign_extend16 _ Ha) as [k ->].
  replace (u32 (val + (sign_extend 16 (imm16_field (Z.shiftl hi 16 ||| lo)) + k * 2 ^ 32))) with v
    by (unfold v; rewrite !u32_mod, Z.add_assoc, Z.mod_add by lia; done).
  pose proof (u32_bound (val + sign_extend 16 (imm16_field (Z.shiftl hi 16 ||| lo)))) as Hv.
  change (0 <= v < 2 ^ 32) in Hv. apply mov_word; try done. case_bool_decide; [|done].
  rewrite Z.shiftr_div_pow2 by lia.
  split; [apply Z.div_pos; lia|apply Z.div_lt_upper_bound; lia].
Qed.

Lemma movw_decodes w : is_movw w -> decode 4 w = Some (MOVi false (rd_ w) (imm16_field w)).
Proof. intros H. by erewrite (decode_t32 (find_encoding t32_table 0xf2400000)); [|reflexivity|exact H]. Qed.

Lemma movt_decodes w : is_movt w -> decode 4 w = Some (MOVT (rd_ w) (imm16_field w)).
Proof. intros H. by erewrite (decode_t32 (find_encoding t32_table 0xf2c00000)); [|reflexivity|exact H]. Qed.

(** Relocating a Thumb MOVW and MOVT that carry the same addend against one symbol
    gives instructions that load the two halves of the symbol's address plus that
    (sign-extended) addend into the original registers. *)
Theorem movw_movt_load_address env r1 r2 st p q val :
  mem_ok (st_mem st) -> 0 <= val < 2 ^ 32 -> p + 4 <= q \/ q + 4 <= p ->
  is_movw (insn_at (st_mem st) p 4) -> is_movt (insn_at (st_mem st) q 4) ->
  imm16_field (insn_at (st_mem st) q 4) = imm16_field (insn_at (st_mem st) p 4) ->
  let st1 := relocate env r1 R_ARM_THM_MOVW_ABS_NC st p p val in
  let st2 := relocate env r2 R_ARM_THM_MOVT_ABS st1 q q val in
  exists l h,
    decode 4 (insn_at (st_mem st2) p 4) = Some (MOVi false (rd_ (insn_at (st_mem st) p 4)) l) /\
    decode 4 (insn_at (st_mem st2) q 4) = Some (MOVT (rd_ (insn_at (st_mem st) q 4)) h) /\
    l + 2 ^ 16 * h = u32 (val + sign_extend 16 (imm16_field (insn_at (st_mem st) p 4))) /\
    errors st2 = errors st.
Proof.
  intros Hm Hval Hpq Hw Ht Ha st1 st2.
  destruct (mov_reloc R_ARM_THM_MOVW_ABS_NC st p val Hm Hval _ (or_introl eq_refl) Hw) as (Hw' & Hrd & Hi).
  change (reloc_thm_mov_abs R_ARM_THM_MOVW_ABS_NC st p val) with st1 in Hw', Hrd, Hi.
  assert (Hm1 : mem_ok (st_mem st1)) by (apply write32_ok; done).
  assert (Eq : insn_at (st_mem st1) q 4 = insn_at (st_mem st) q 4).
  { rewrite !insn4. by rewrite !(read16_other _ _ p 4 _ (relocate_only env r1 R_ARM_THM_MOVW_ABS_NC st p p val)) by lia. }
  rewrite <-Eq in Ht.
  destruct (mov_reloc R_ARM_THM_MOVT_ABS st1 q val Hm1 Hval _ (or_intror eq_refl) Ht) as (Ht' & Htrd & Hti).
  change (reloc_thm_mov_abs R_ARM_THM_MOVT_ABS st1 q val) with st2 in Ht', Htrd, Hti.
  assert (Ep : insn_at (st_mem st2) p 4 = insn_at (st_mem st1) p 4).
  { rewrite !insn4. by rewrite !(read16_other _ _ q 4 _ (relocate_only env r2 R_ARM_THM_MOVT_ABS st1 q q val)) by lia. }
  rewrite Ep, (movw_decodes _ Hw'), (movt_decodes _ Ht'), Hrd, Htrd, Eq. eexists _, _.
  do 2 (split; [reflexivity|]). split; [|done]. rewrite Hi, Hti, Eq, Ha. cbn [bool_decide].
  rewrite bool_decide_false, bool_decide_true by done. set (v := u32 _).
  pose proof (u32_bound (val + sign_extend 16 (imm16_field (insn_at (st_mem st) p 4)))) as Hv. fold v in Hv.
  change 0xffff with (Z.ones 16). rewrite !Z.land_ones, Z.shiftr_div_pow2 by lia. lia_mod.
Qed.

(** MOVW r0, #4; MOVT r0, #4. *)
Definition demo_mov : mem := fun a => nth (Z.to_nat a) [0x40; 0xf2; 0x04; 0x00; 0xc0; 0xf2; 0x04; 0x00] 0.

Lemma movw_movt_load_address_witness :
  exists l h, l + 2 ^ 16 * h = 0x20000014.
Proof.
  destruct (movw_movt_load_address demo_link (mk_rel 0 1 R_ARM_THM_MOVW_ABS_NC) (mk_rel 4 1 R_ARM_THM_MOVT_ABS)
    (mk_st demo_mov [] []) 0 4 0x20000010) as (l & h & _ & _ & H & _).
  - intros a. cbn. unfold demo_mov. destruct (Z.to_nat a) as [|[|[|[|[|[|[|[|n]]]]]]]]; cbn; try lia.
    destruct n; lia.
  - lia.
  - lia.
  - vm_compute. reflexivity.
  - vm_compute. reflexivity.
  - vm_compute. reflexivity.
  - exists l, h. rewrite H. vm_compute. reflexivity.
Defined.

(** ** Data words *)

(** The base the program adds to the word, and the address it then has: [old] is the
    addend in the word. *)
Definition data_ref (env : LinkEnv) (t : reloc_type) (rel : Rel) (addr val old : Z) : option (Z * Z) :=
  let got_addr := sh_addr_of (got env) in
  let slot := got_addr + got_offset (sym_attrs env (r_sym rel)) in
  match t with
  | R_ARM_ABS32 | R_ARM_TARGET1 =>
      if Z.testbit (output_type env) 2 then None else Some (0, val + old)
  | R_ARM_REL32 => Some (addr, val + old)
  | R_ARM_GOTPC => Some (addr, got_addr + old)
  | R_ARM_GOTOFF => Some (got_addr, val + old)
  | R_ARM_RODATA_OFF => Some (sh_addr (rodata_section env), val + old)
  | R_ARM_GOT32 => Some (got_addr, slot)
  | R_ARM_GOT_PREL => Some (addr + 8, slot)
  | _ => None
  end.

(** The symbol starts in [.rodata], or is its start (the section may be empty). *)
Definition in_rodata (env : LinkEnv) (val : Z) : Prop :=
  let ro := rodata_section env in
  val = sh_addr ro \/ sh_addr ro <= val < sh_addr ro + sh_size ro.

Lemma rodata_check env val :
  0 <= sh_addr (rodata_section env) -> 0 <= sh_size (rodata_section env) ->
  sh_addr (rodata_section env) + sh_size (rodata_section env) < 2 ^ 32 ->
  let ro := rodata_section env in
  negb (Z.eqb val (sh_addr ro)) && (Z.ltb val (sh_addr ro) || Z.leb (u32 (sh_addr ro + sh_size ro)) val) = false
  <-> in_rodata env val.
Proof.
  intros H1 H2 H3. cbv zeta. rewrite u32_small by lia. unfold in_rodata. cbv zeta.
  destruct (Z.eqb_spec val (sh_addr (rodata_section env))), (Z.ltb_spec val (sh_addr (rodata_section env))),
    (Z.leb_spec (sh_addr (rodata_section env) + sh_size (rodata_section env)) val); cbn; split; try done; lia.
Qed.

Lemma add32_ref st p base x target :
  (base + (read32le (st_mem st) p + x)) mod 2 ^ 32 = target mod 2 ^ 32 ->
  u32 (base + read32le (st_mem (with_mem st (add32le (st_mem st) p x))) p) = u32 target.
Proof.
  intros H. cbn [st_mem with_mem]. rewrite read32_add32, !u32_mod, Zplus_mod_idemp_r. exact H.
Qed.

(** After relocation, the base a program adds to a data word (nothing, the word's
    own address, the GOT or the start of [.rodata]) plus the word is the address of the
    symbol plus the addend (or of its GOT slot), modulo 2^32, and no error is reported;
    a [.rodata]-relative reference to a symbol outside [.rodata] is reported and leaves
    the memory unchanged. *)
Theorem data_word_reaches env rel t st ptr addr val base target :
  mem_ok (st_mem st) -> 0 <= got_offset (sym_attrs env (r_sym rel)) < 2 ^ 32 ->
  0 <= sh_addr (rodata_section env) -> 0 <= sh_size (rodata_section env) ->
  sh_addr (rodata_section env) + sh_size (rodata_section env) < 2 ^ 32 ->
  data_ref env t rel addr val (read32le (st_mem st) ptr) = Some (base, target) ->
  let st' := relocate env rel t st ptr addr val in
  (t = R_ARM_RODATA_OFF /\ ~ in_rodata env val /\ st' = tcc_error_noabort st (Err_not_rodata (r_sym rel))) \/
  ((t = R_ARM_RODATA_OFF -> in_rodata env val) /\
   u32 (base + read32le (st_mem st') ptr) = u32 target /\ errors st' = errors st /\ qrel st' = qrel st).
Proof.
  intros Hm Hg H1 H2 H3 Hr st'. destruct t; cbn [data_ref] in Hr; try discriminate Hr.
  all: unfold st'; cbn [relocate]; clear st'.
  all: try match goal with |- context [add32le _ _ _] =>
    injection Hr as <- <-; right; split; [done|]; split; [|done];
    apply add32_ref; apply (f_equal (fun z => z mod 2 ^ 32)); lia end.
  - destruct (Z.testbit (output_type env) 2) eqn:E; [done|]. injection Hr as <- <-.
    right. split; [done|]. unfold reloc_abs32, TCC_OUTPUT_DYN, TCC_OUTPUT_DLL.
    change 4 with (2 ^ 2). rewrite truth_bit, E by lia. split; [|done]. apply add32_ref. apply (f_equal (fun z => z mod 2 ^ 32)). lia.
  - injection Hr as <- <-. right. split; [done|]. cbn [st_mem with_mem].
    by rewrite read32_write32.
  - destruct (Z.testbit (output_type env) 2) eqn:E; [done|]. injection Hr as <- <-.
    right. split; [done|]. unfold reloc_abs32, TCC_OUTPUT_DYN, TCC_OUTPUT_DLL.
    change 4 with (2 ^ 2). rewrite truth_bit, E by lia. split; [|done]. apply add32_ref. apply (f_equal (fun z => z mod 2 ^ 32)). lia.
  - injection Hr as <- <-. right. split; [done|]. cbn [st_mem with_mem].
    rewrite read32_write32 by apply u32_bound. rewrite !u32_mod, Zplus_mod_idemp_r.
    split; [apply (f_equal (fun z => z mod 2 ^ 32)); lia|done].
  - injection Hr as <- <-. unfold reloc_rodata_off.
    pose proof (rodata_check env val H1 H2 H3) as Hc. cbv zeta in *.
    destruct (negb _ && _) eqn:E; [left|right].
    + split; [done|]. split; [|done]. intros Hi. apply Hc in Hi. done.
    + split; [intros _; by apply Hc|]. split; [|done]. apply add32_ref. apply (f_equal (fun z => z mod 2 ^ 32)). lia.
Qed.

Definition demo_ro : LinkEnv :=
  mk_env 2 None None (mk_section 0x10000000 1 0 0 0) (mk_section 0x1000 2 0x100 0 0x100) 0 0
    [mk_sym String.EmptyString 0 0 0 0 0 0; mk_sym String.EmptyString 0x1010 0 1 0 0 2] (fun _ => mk_attr 0 0 0 0).

Lemma data_word_reaches_witness :
  u32 (0x1000 + read32le (st_mem (relocate demo_ro (mk_rel 0 1 R_ARM_RODATA_OFF) R_ARM_RODATA_OFF
    (mk_st (fun _ => 0) [] []) 0 0x10000000 0x1010)) 0) = 0x1010.
Proof.
  destruct (data_word_reaches demo_ro (mk_rel 0 1 R_ARM_RODATA_OFF) R_ARM_RODATA_OFF (mk_st (fun _ => 0) [] [])
    0 0x10000000 0x1010 0x1000 0x1010) as [(_ & H & _)|(_ & H & _)].
  - intros a. cbn. lia.
  - cbn. lia.
  - cbn. lia.
  - cbn. lia.
  - cbn. lia.
  - vm_compute. reflexivity.
  - exfalso. apply H. unfold in_rodata. cbn. lia.
  - rewrite H. vm_compute. reflexivity.
Defined.

(** ** Exception tables and GOT loads *)

(** R_ARM_PREL31: the low 31 bits hold the signed displacement, reported when it
    does not fit; the top bit is kept. *)
Theorem prel31_displacement st ptr addr val :
  mem_ok (st_mem st) ->
  let a := sign_extend 31 (read32le (st_mem st) ptr &&& 0x7fffffff) in
  let x := s32 (a + (val - addr)) in
  let st' := reloc_prel31 R_ARM_PREL31 st ptr addr val in
  (- 2 ^ 30 <= x < 2 ^ 30 ->
     errors st' = errors st /\ sign_extend 31 (read32le (st_mem st') ptr &&& 0x7fffffff) = x) /\
  (~ (- 2 ^ 30 <= x < 2 ^ 30) -> errors st' = errors st ++ [Err_range addr R_ARM_PREL31]) /\
  read32le (st_mem st') ptr &&& 0x80000000 = read32le (st_mem st) ptr &&& 0x80000000.
Proof.
  intros Hm. cbv zeta. pose proof (read32_bound (st_mem st) ptr Hm) as Hw.
  unfold reloc_prel31. cbv zeta. set (w := read32le (st_mem st) ptr) in *.
  assert (Hse : Z.quot (s32 ((w &&& 0x7fffffff) * 2)) 2 = sign_extend 31 (w &&& 0x7fffffff)).
  { assert (Hb : 0 <= w &&& 0x7fffffff < 2 ^ 31) by (apply (land_ones_bound 31); lia).
    revert Hb. generalize (w &&& 0x7fffffff). intros v Hv. unfold sign_extend, s32. change (31 - 1) with 30.
    rewrite u32_small by lia. rewrite Z.testbit_odd, Z.shiftr_div_pow2 by lia.
    assert (Hd : v / 2 ^ 30 = 0 \/ v / 2 ^ 30 = 1) by lia_mod.
    destruct (Z.ltb_spec (v * 2) (2 ^ 31)); destruct Hd as [E|E]; rewrite E; cbn [Z.odd]; try (exfalso; lia_mod).
    - rewrite Z.quot_mul; lia.
    - replace (v * 2 - 2 ^ 32) with ((v - 2 ^ 31) * 2) by lia. rewrite Z.quot_mul; lia. }
  rewrite Hse. set (x := s32 _).
  assert (Hx : - 2 ^ 31 <= x < 2 ^ 31) by apply s32_bound. clearbody x.
  assert (Hc : truth ((x ^^^ (x >>> 1)) &&& 0x40000000) = negb (bool_decide (- 2 ^ 30 <= x < 2 ^ 30))).
  { change 0x40000000 with (2 ^ 30). rewrite truth_bit, Z.lxor_spec, Z.shiftr_spec by lia.
    change (30 + 1) with 31. rewrite !Z.testbit_odd, !Z.shiftr_div_pow2 by lia.
    destruct (decide (x < 0)); [replace (x / 2 ^ 31) with (-1) by lia_mod|replace (x / 2 ^ 31) with 0 by lia_mod].
    - destruct (decide (x < - 2 ^ 30)).
      + replace (x / 2 ^ 30) with (-2) by lia_mod. rewrite bool_decide_false by lia. done.
      + replace (x / 2 ^ 30) with (-1) by lia_mod. rewrite bool_decide_true by lia. done.
    - destruct (decide (x < 2 ^ 30)).
      + replace (x / 2 ^ 30) with 0 by lia_mod. rewrite bool_decide_true by lia. done.
      + replace (x / 2 ^ 30) with 1 by lia_mod. rewrite bool_decide_false by lia. done. }
  rewrite Hc.
  assert (Hlow : x &&& 0x7fffffff = u32 x &&& 0x7fffffff)
    by (unfold u32; rewrite <-Z.land_assoc; done).
  assert (Hr : forall m, read32le (write32le m ptr ((w &&& 0x80000000) ||| (x &&& 0x7fffffff))) ptr =
             (w &&& 0x80000000) ||| (u32 x &&& 0x7fffffff)).
  { intros m. rewrite Hlow. pose proof (u32_bound x) as Hu. revert Hu. generalize (u32 x). intros y Hy.
    rewrite read32_write32; [done|]. apply (lor_bound 32); [lia|..].
    - replace (w &&& 0x80000000) with ((w &&& 0x80000000) &&& Z.ones 32) by bit_solve. apply land_ones_bound. lia.
    - replace (y &&& 0x7fffffff) with ((y &&& 0x7fffffff) &&& Z.ones 32) by bit_solve. apply land_ones_bound. lia. }
  pose proof (u32_bound x) as Hu.
  assert (Hlo : ((w &&& 0x80000000) ||| (u32 x &&& 0x7fffffff)) &&& 0x7fffffff = x mod 2 ^ 31).
  { rewrite <-(Z.land_ones x 31) by lia. change (Z.ones 31) with 0x7fffffff. rewrite Hlow. revert Hu.
    generalize (u32 x). intros y Hy. bit_solve. }
  assert (Hhi : ((w &&& 0x80000000) ||| (u32 x &&& 0x7fffffff)) &&& 0x80000000 = w &&& 0x80000000).
  { revert Hu. generalize (u32 x). intros y Hy. bit_solve. }
  case_bool_decide as Hin; cbn [negb]; cbn [st_mem with_mem errors tcc_error_noabort]; fold w; rewrite !Hr, Hlo, Hhi.
  - repeat split; try done. by apply (sign_extend_mod 31).
  - repeat split; done.
Qed.
