(* ===== verification/ArmExec.v ===== *)
(** * Evaluating an encoder on given operands

    With its operands fixed, a table's choice depends only on which features the
    target has.  [emit_known] computes it from a set of features known to be
    present, and is what every target that has them emits. *)

From stdpp Require Import list.
From S2P Require Import Prelude BitReflect ArmDecode ThumbTypes ThumbShapes ThumbPack ThumbCustom.
From S2P Require Import ThumbEngine Bytes ArmLink HotVeneer ArmReloc ArmRelocSpec.
Local Open Scope Z_scope.
Local Open Scope c_scope.

Fixpoint emit_known (feats : Z) (table : list thop_variant) (a : thop_args) : option thumb_opcode :=
  match table with
  | [] => Some no_opcode
  | v :: table =>
      let s := thop_shapes (v_shape v) in
      if negb (is_custom_none v) then None
      else if negb (thop_feat32_subset (s_feat s) (s_feat s)) then None
      else if negb (thop_guards (s_feat s) s a) then emit_known feats table a
      else match imm_bits 0 s a with
           | None => None
           | Some None => emit_known feats table a
           | Some (Some bits) =>
               if negb (thop_regset_ok s a) then emit_known feats table a
               else if thop_feat32_subset (s_feat s) feats
               then Some (mk_opcode (size_val (s_size s)) (thop_encode s (v_base v) bits a))
               else None
           end
  end.

(** The feature test is the first guard. *)
Lemma guards_feat feat s a :
  thop_feat32_subset (s_feat s) (s_feat s) = true ->
  thop_guards feat s a = thop_feat32_subset (s_feat s) feat && thop_guards (s_feat s) s a.
Proof.
  intros H. unfold thop_guards. rewrite H. by destruct (thop_feat32_subset (s_feat s) feat).
Qed.

Lemma imm_bits_feat feat s a : imm_bits feat s a = imm_bits 0 s a.
Proof.
  unfold imm_bits. destruct (bool_decide _); [done|]. unfold thop_try_imm. cbv zeta.
  destruct (is_kind (s_imm s)); repeat match goal with
  | |- context [if ?b then _ else _] => lazymatch b with context [if _ then _ else _] => fail | _ => destruct b end
  end; reflexivity.
Qed.

Lemma feat_subset_trans a b c :
  thop_feat32_subset a b = true -> thop_feat32_subset b c = true -> thop_feat32_subset a c = true.
Proof.
  unfold thop_feat32_subset. rewrite !Z.eqb_eq. intros <- H.
  apply Z.bits_inj'. intros i Hi. apply (f_equal (fun z => Z.testbit z i)) in H. revert H.
  unfold u32. rewrite !Z.land_spec.
  destruct (Z.testbit a i), (Z.testbit b i), (Z.testbit (Z.ones 32) i), (Z.testbit c i); done.
Qed.

Lemma emit_known_pure feats table a feat op :
  thop_feat32_subset feats feat = true -> emit_known feats table a = Some op ->
  thop_emit_in (M := Pure) thop_shapes table a feat = Some op.
Proof.
  intros Hf. induction table as [|v table IH]; cbn [emit_known thop_emit_in]; [by intros [= <-]|].
  cbv zeta. destruct (is_custom_none v) eqn:Hc; [cbn [negb]|done].
  set (s := thop_shapes (v_shape v)). destruct (thop_feat32_subset (s_feat s) (s_feat s)) eqn:Hs; [cbn [negb]|done].
  rewrite pure_bind_eq, try_variant_pure. cbv zeta. fold s. rewrite (guards_feat feat _ _ Hs), (imm_bits_feat feat), Hc.
  destruct (thop_guards _ _ a) eqn:Hg; rewrite ?andb_true_r, ?andb_false_r; cbn [negb]; [|exact IH].
  destruct (imm_bits 0 _ a) as [[bits|]|]; [| |done].
  - destruct (thop_regset_ok _ a); cbn [negb].
    + destruct (thop_feat32_subset (s_feat s) feats) eqn:Hk; [|done].
      intros [= <-]. by rewrite (feat_subset_trans _ _ _ Hk Hf).
    + intros H. destruct (thop_feat32_subset (s_feat s) feat); cbn [negb andb]; by apply IH.
  - intros H. destruct (thop_feat32_subset (s_feat s) feat); cbn [negb andb]; by apply IH.
Qed.

(** Every target with the features emits the computed opcode. *)
Lemma emit_known_returns feats t a st op :
  state_ok st -> thop_feat32_subset feats (target_feat st) = true ->
  emit_known feats (table_variants (t_variants t)) a = Some op ->
  returns (thop_emit_table t a) st op.
Proof.
  intros Hst Hf Hk. pose proof (refines_emit_table t a st Hst) as H.
  pose proof (emit_known_pure _ _ _ _ _ Hf Hk) as Hp.
  change (thop_emit_table (M := Pure) t a (target_feat st) = Some op) in Hp. by rewrite Hp in H.
Qed.

(** ** Executing the linker's own code

    A reference processor for the instructions the linker writes itself (PLT stubs
    and veneers): registers, a program counter, the Z flag and byte memory.  The
    instruction at the program counter is fetched and read with the reference
    decoder.  A branch to an address without the Thumb bit faults, as does any
    instruction outside the modelled subset. *)

Local Open Scope Z_scope.
Local Open Scope c_scope.

Record cpu := mk_cpu { cr : Z -> Z; cpc : Z; cz : bool; cm : mem }.

(** R15 reads as the instruction's address plus 4. *)
Definition get_reg (s : cpu) (r : Z) : Z := if Z.eqb r 15 then cpc s + 4 else cr s r.
Definition set_reg (s : cpu) (r v : Z) : cpu :=
  mk_cpu (fun x => if Z.eqb x r then v else cr s x) (cpc s) (cz s) (cm s).
Definition set_pc (s : cpu) (a : Z) : cpu := mk_cpu (cr s) a (cz s) (cm s).
Definition set_z (s : cpu) (z : bool) : cpu := mk_cpu (cr s) (cpc s) z (cm s).

(** [BXWritePC]: bit 0 selects the Thumb state, the only one there is. *)
Definition branch_to (s : cpu) (v : Z) : option cpu := if Z.odd v then Some (set_pc s (v - 1)) else None.

Definition next (s : cpu) (size : Z) : cpu := set_pc s (cpc s + size).

Definition load_to (s : cpu) (size rt v : Z) : option cpu :=
  if Z.eqb rt 15 then branch_to s v else Some (next (set_reg s rt v) size).

Definition result_to (s : cpu) (size rd v : Z) : option cpu :=
  if Z.eqb rd 15 then None else Some (next (set_reg s rd (u32 v)) size).

Definition cond_holds (s : cpu) (c : Z) : option bool :=
  if Z.eqb c 0 then Some (cz s) else if Z.eqb c 1 then Some (negb (cz s)) else None.

Definition exec (i : instr) (size : Z) (s : cpu) : option cpu :=
  match i with
  | LDRlit A_word rt off => load_to s size rt (read32le (cm s) (u32 (4 * ((cpc s + 4) / 4) + off)))
  | LDSTi true A_word rt rn imm true up false =>
      load_to s size rt (read32le (cm s) (u32 (if up then get_reg s rn + imm else get_reg s rn - imm)))
  | ALUr ADD false rd rn rm (LSL, 0) => result_to s size rd (get_reg s rn + get_reg s rm)
  | ALUi ADD false rd rn imm => result_to s size rd (get_reg s rn + imm)
  | MOVi false rd imm => result_to s size rd imm
  | CMPi CMP rn imm => Some (next (set_z s (Z.eqb (get_reg s rn) imm)) size)
  | Bcond c off =>
      match cond_holds s c with
      | Some true => Some (set_pc s (u32 (cpc s + 4 + off)))
      | Some false => Some (next s size)
      | None => None
      end
  | BX rm => branch_to s (get_reg s rm)
  | _ => None
  end.

(** A first halfword of 0xE800 or more begins a 32-bit instruction. *)
Definition insn_size (hw : Z) : Z := if Z.leb 0x1d (hw >>> 11) then 4 else 2.

Definition step (s : cpu) : option cpu :=
  let size := insn_size (read16le (cm s) (cpc s)) in
  i ← decode size (insn_at (cm s) (cpc s) size);
  exec i size s.

Fixpoint run (n : nat) (s : cpu) : option cpu :=
  match n with
  | O => Some s
  | S n => s' ← step s; run n s'
  end.

(** ** Straight-line code *)

Lemma run_step n s s' : step s = Some s' -> run (S n) s = run n s'.
Proof. intros H. cbn [run]. by rewrite H. Qed.

Lemma step16 s hw i :
  read16le (cm s) (cpc s) = hw -> insn_size hw = 2 -> decode 2 hw = Some i -> step s = exec i 2 s.
Proof. intros H Hs Hd. unfold step. rewrite H, Hs. unfold insn_at. cbn [Z.eqb Pos.eqb]. by rewrite H, Hd. Qed.

Lemma step32 s hi lo i :
  read16le (cm s) (cpc s) = hi -> read16le (cm s) (cpc s + 2) = lo -> insn_size hi = 4 ->
  decode 4 (Z.shiftl hi 16 ||| lo) = Some i -> step s = exec i 4 s.
Proof.
  intros H1 H2 Hs Hd. unfold step. rewrite H1, Hs. unfold insn_at. cbn [Z.eqb Pos.eqb]. by rewrite H1, H2, Hd.
Qed.

(** Code in memory that the run does not change. *)
Lemma halves_lookup m p ws i w :
  halves_at m p ws -> ws !! i = Some w -> read16le m (p + 2 * Z.of_nat i) = u16 w.
Proof.
  revert p i. induction ws as [|x ws IH]; intros p i H Hi; [done|]. destruct H as [Hx H].
  destruct i as [|i]; cbn in Hi; [injection Hi as ->; by rewrite Z.add_0_r|].
  rewrite <-(IH (p + 2) i H Hi). f_equal. lia.
Qed.

Lemma halves_ext m m' p q ws :
  (forall j, 0 <= j < 2 * Z.of_nat (length ws) -> m' (q + j) = m (p + j)) ->
  halves_at m p ws -> halves_at m' q ws.
Proof.
  revert p q. induction ws as [|w ws IH]; intros p q Hj H; [done|]. destruct H as [Hw H].
  cbn [length] in Hj. split.
  - rewrite <-Hw. unfold read16le. rewrite <-(Z.add_0_r q), <-(Z.add_0_r p), !(Hj 0) by lia.
    replace (q + 0 + 1) with (q + 1) by lia. replace (p + 0 + 1) with (p + 1) by lia. by rewrite (Hj 1) by lia.
  - apply (IH (p + 2)); [|done]. intros j Hjj. rewrite <-!Z.add_assoc. apply Hj. lia.
Qed.
