(* ===== verification/HotExec.v ===== *)
(** * A hot-text veneer cpu_runs to its target *)

From S2P Require Import Prelude BitReflect Bytes ArmDecode ThumbDecode ThumbDecodeBranch ElfSym.
From S2P Require Import ArmLink HotVeneer ArmReloc ArmRelocSpec ArmExec.
From stdpp Require Import list.
From Stdlib Require String.
Local Open Scope Z_scope.
Local Open Scope c_scope.

(** ** The instructions of the sequences *)

(** MOVW ip, #off and ADDW ip, ip, #off. *)
Lemma movw_ip_word off :
  0 <= off < 2 ^ 16 ->
  decode 4 (Z.shiftl (u16 (0xf240 ||| ((off >>> 1) &&& 0x400) ||| (off >>> 12))) 16 |||
            u16 ((((off >>> 8) &&& 7) <<< 12) ||| (0xc <<< 8) ||| (off &&& 0xff))) = Some (MOVi false 12 off).
Proof. intros Hoff. unfold u16. read_word. read_fields. reflexivity. Qed.

Lemma addw_ip_word off :
  0 <= off < 2 ^ 32 ->
  decode 4 (Z.shiftl (u16 (0xf20c ||| ((off >>> 1) &&& 0x400))) 16 |||
            u16 ((((off >>> 8) &&& 7) <<< 12) ||| (0xc <<< 8) ||| (off &&& 0xff))) =
  Some (ALUi ADD false 12 12 (off &&& 0xfff)).
Proof.
  intros Hoff. remember (off &&& 0xfff) as y eqn:Ey.
  assert (Hy : 0 <= y < 4096) by (rewrite Ey; apply (land_ones_bound 12); lia).
  replace ((off >>> 1) &&& 0x400) with ((y >>> 1) &&& 0x400) by (rewrite Ey; bit_solve).
  replace ((off >>> 8) &&& 7) with ((y >>> 8) &&& 7) by (rewrite Ey; bit_solve).
  replace (off &&& 0xff) with (y &&& 0xff) by (rewrite Ey; bit_solve).
  clear Ey Hoff off. unfold u16. read_word. read_fields. settle. reflexivity.
Qed.

Lemma size_f0 hw : hw >>> 11 = 0x1e -> insn_size hw = 4.
Proof. intros H. unfold insn_size. by rewrite H. Qed.

(** ADD.W ip, ip, #v for an eight-bit window of the offset. *)
Definition add_ip_ok (sh b : Z) : bool :=
  match add_ip_words (Z.shiftl b sh) with
  | [hi; lo] => bool_decide (insn_size (u16 hi) = 4) &&
      match decode 4 (Z.shiftl (u16 hi) 16 ||| u16 lo) with
      | Some (ALUi ADD false 12 12 v) => Z.eqb v (Z.shiftl b sh)
      | _ => false
      end
  | _ => Z.eqb b 0
  end.

Lemma add_ip_all : forall_below 256 (add_ip_ok 12) && forall_below 256 (add_ip_ok 20) = true.
Proof. vm_compute. reflexivity. Qed.

Lemma add_ip_spec sh b :
  sh = 12 \/ sh = 20 -> 0 <= b < 256 ->
  (b = 0 /\ add_ip_words (Z.shiftl b sh) = []) \/
  exists hi lo, add_ip_words (Z.shiftl b sh) = [hi; lo] /\ insn_size (u16 hi) = 4 /\
    decode 4 (Z.shiftl (u16 hi) 16 ||| u16 lo) = Some (ALUi ADD false 12 12 (Z.shiftl b sh)).
Proof.
  intros Hsh Hb. pose proof add_ip_all as H. apply andb_prop in H as [H1 H2].
  assert (H : add_ip_ok sh b = true)
    by (destruct Hsh as [-> | ->]; [apply (forall_below_sound 256)|apply (forall_below_sound 256 (add_ip_ok 20))]; done).
  clear H1 H2. unfold add_ip_ok in H.
  destruct (add_ip_words (Z.shiftl b sh)) as [|hi [|lo [|]]] eqn:E; [left; split; [lia|done]|exfalso|right|exfalso].
  - unfold add_ip_words in E. by destruct (Z.eqb _ 0).
  - exists hi, lo. split; [done|]. apply andb_prop in H as [H1%bool_decide_eq_true H]. split; [done|].
    destruct (decode 4 _) as [i|] eqn:Ed; [|done]. destruct i as [op s rd rn imm| | | | | | | | | | | | | | | | | | | | | | | | | | | | | | |]; try done.
    destruct op, s; try done.
    destruct (decide (rd = 12)) as [->|]; [|by repeat case_match].
    destruct (decide (rn = 12)) as [->|]; [|by repeat case_match].
    apply Z.eqb_eq in H. by rewrite H.
  - unfold add_ip_words in E. by destruct (Z.eqb _ 0).
Qed.

(** The offset as the sum the veneer computes. *)
Lemma off_split off :
  0 <= off < 2 ^ 28 ->
  off = (off &&& 0xfff) + Z.shiftl ((off >>> 12) &&& 0xff) 12 + Z.shiftl (off >>> 20) 20 /\
  off &&& 0x000ff000 = Z.shiftl ((off >>> 12) &&& 0xff) 12 /\
  off &&& 0x0ff00000 = Z.shiftl (off >>> 20) 20 /\ 0 <= off >>> 20 < 256 /\
  0 <= (off >>> 12) &&& 0xff < 256.
Proof.
  intros H. repeat split; try bit_solve.
  - change 0xfff with (Z.ones 12). change 0xff with (Z.ones 8).
    rewrite !Z.land_ones, !Z.shiftl_mul_pow2, !Z.shiftr_div_pow2 by lia.
    change (2 ^ 12) with 4096. change (2 ^ 8) with 256. change (2 ^ 20) with 1048576.
    replace (off / 1048576) with (off / 4096 / 256) by (rewrite Z.div_div by lia; done).
    lia_mod.
  - apply Z.shiftr_nonneg. lia.
  - rewrite Z.shiftr_div_pow2 by lia. apply Z.div_lt_upper_bound; lia.
  - apply (land_ones_bound 8). lia.
  - apply (land_ones_bound 8). lia.
Qed.

(** ** Running them *)

Definition cpu_runs (s s' : cpu) : Prop := exists n, run n s = Some s'.

Lemma runs_refl s : cpu_runs s s.
Proof. by exists O. Qed.

Lemma runs_step s s1 s2 : step s = Some s1 -> cpu_runs s1 s2 -> cpu_runs s s2.
Proof. intros H [n Hn]. exists (S n). by rewrite (run_step n s s1 H). Qed.

Lemma runs_trans s1 s2 s3 : cpu_runs s1 s2 -> cpu_runs s2 s3 -> cpu_runs s1 s3.
Proof.
  intros [n Hn]. revert s1 Hn. induction n as [|n IH]; intros s1 Hn H; cbn [run] in Hn; [by simplify_eq|].
  destruct (step s1) as [s|] eqn:E; [|done]. eapply runs_step; [exact E|]. by apply (IH s).
Qed.

(** From [s0] the run has come to [pc] having changed only IP. *)
Definition at_ip (s0 s : cpu) (pc v : Z) : Prop :=
  cpc s = pc /\ cr s 12 = v /\ (forall r, r <> 12 -> cr s r = cr s0 r) /\ cm s = cm s0.

Lemma at_ip_set s0 s pc v w :
  at_ip s0 s pc v -> at_ip s0 (next (set_reg s 12 w) 4) (pc + 4) w.
Proof.
  intros (<- & _ & Hr & Hm). repeat split; try done. intros r Hne. cbn.
  rewrite (proj2 (Z.eqb_neq _ _) Hne). by apply Hr.
Qed.

(** One 32-bit instruction that leaves its result in IP. *)
Lemma run_ip s0 s pc v hi lo ws i w :
  at_ip s0 s pc v -> halves_at (cm s0) pc (hi :: lo :: ws) -> insn_size (u16 hi) = 4 ->
  decode 4 (Z.shiftl (u16 hi) 16 ||| u16 lo) = Some i ->
  exec i 4 s = Some (next (set_reg s 12 w) 4) ->
  exists s', step s = Some s' /\ at_ip s0 s' (pc + 4) w /\ halves_at (cm s0) (pc + 4) ws.
Proof.
  intros Hat (H1 & H2 & H3) Hs Hd He. exists (next (set_reg s 12 w) 4).
  destruct Hat as (Hpc & Hat). split; [|split].
  - rewrite <-He. destruct Hat as (_ & _ & Hm). eapply step32; [rewrite Hm, Hpc; exact H1|rewrite Hm, Hpc; exact H2|done|done].
  - eapply at_ip_set. by split.
  - by replace (pc + 4) with (pc + 2 + 2) by lia.
Qed.

Lemma run_add_ip s0 s pc v sh b ws :
  at_ip s0 s pc v -> halves_at (cm s0) pc (add_ip_words (Z.shiftl b sh) ++ ws) ->
  0 <= v < 2 ^ 32 -> sh = 12 \/ sh = 20 -> 0 <= b < 256 ->
  exists s' pc', cpu_runs s s' /\ at_ip s0 s' pc' (u32 (v + Z.shiftl b sh)) /\ halves_at (cm s0) pc' ws.
Proof.
  intros Hat H Hv Hsh Hb. destruct (add_ip_spec sh b Hsh Hb) as [[-> E]|(hi & lo & E & Hsz & Hd)]; rewrite E in H.
  - exists s, pc. split; [apply runs_refl|]. rewrite Z.shiftl_0_l, Z.add_0_r, u32_small by done. done.
  - destruct (run_ip s0 s pc v hi lo ws _ (u32 (v + Z.shiftl b sh)) Hat H Hsz Hd) as (s' & Hst & Hat' & H').
    + destruct Hat as (_ & Hv' & _). cbn. unfold get_reg. cbn. by rewrite Hv'.
    + exists s', (pc + 4). split; [|done]. eapply runs_step; [exact Hst|apply runs_refl].
Qed.

(** The jump veneer: from any address, with the base in its GOT slot. *)
Lemma jump_veneer_runs s slot off base :
  halves_at (cm s) (cpc s) (jump_words slot off) -> slot = 32 \/ slot = 40 -> 0 <= off < 2 ^ 28 ->
  Z.odd off = false -> Z.odd base = true -> 0 <= base -> base + off < 2 ^ 32 ->
  read32le (cm s) (u32 (cr s 9 + slot)) = base ->
  exists s', cpu_runs s s' /\ cpc s' = base - 1 + off /\ (forall r, r <> 12 -> cr s' r = cr s r) /\ cm s' = cm s.
Proof.
  intros H Hslot Hoff Ho Hb Hb0 Hsum Hread. destruct (off_split off Hoff) as (Esum & E1 & E2 & Hb2 & Hb1).
  unfold jump_words in H. rewrite E1, E2 in H. cbn [app] in H.
  set (b1 := (off >>> 12) &&& 0xff) in *. set (b2 := off >>> 20) in *.
  assert (Hlow : 0 <= off &&& 0xfff < 4096) by (apply (land_ones_bound 12); lia).
  assert (Hsh : 0 <= Z.shiftl b1 12 /\ 0 <= Z.shiftl b2 20) by (rewrite !Z.shiftl_nonneg; lia).
  destruct (run_ip s s (cpc s) (cr s 12) _ _ _ (LDSTi true A_word 12 9 slot true true false) base
    (conj eq_refl (conj eq_refl (conj (fun _ _ => eq_refl) eq_refl))) H) as (s1 & R1 & A1 & H1).
  { reflexivity. }
  { destruct Hslot as [-> | ->]; vm_compute; reflexivity. }
  { cbn. unfold load_to, get_reg. cbn. by rewrite Hread. }
  destruct (run_ip s s1 _ _ _ _ _ (ALUi ADD false 12 12 (off &&& 0xfff)) (u32 (base + (off &&& 0xfff))) A1 H1)
    as (s2 & R2 & A2 & H2).
  { apply size_f0. assert (0 <= off < 2 ^ 32) by lia. bit_solve. }
  { apply addw_ip_word. lia. }
  { destruct A1 as (_ & Ev & _). cbn. unfold get_reg. cbn. by rewrite Ev. }
  rewrite u32_small in A2 by lia.
  destruct (run_add_ip s s2 _ _ 12 b1 _ A2 H2) as (s3 & pc3 & R3 & A3 & H3); [lia|by left|exact Hb1|].
  rewrite u32_small in A3 by lia.
  destruct (run_add_ip s s3 _ _ 20 b2 _ A3 H3) as (s4 & pc4 & R4 & A4 & H4); [lia|by right|exact Hb2|].
  rewrite u32_small in A4 by lia.
  replace (base + (off &&& 0xfff) + Z.shiftl b1 12 + Z.shiftl b2 20) with (base + off) in A4 by lia.
  destruct A4 as (Hpc & Hip & Hr & Hm). destruct H4 as [H4 _].
  exists (set_pc s4 (base + off - 1)). split; [|cbn; repeat split; [lia|done|done]].
  eapply runs_step; [exact R1|]. eapply runs_step; [exact R2|]. eapply runs_trans; [exact R3|].
  eapply runs_trans; [exact R4|]. eapply runs_step; [|apply runs_refl].
  rewrite (step16 s4 0x4760 (BX 12)); [|by rewrite Hm, Hpc|reflexivity|vm_compute; reflexivity].
  cbn. unfold get_reg, branch_to. cbn. rewrite Hip, Z.odd_add, Hb, Ho. done.
Qed.

(** The import veneer: to the function in the GOT entry, with its module's R9. *)
Lemma import_veneer_runs s off f r9' :
  halves_at (cm s) (cpc s) (import_words off) -> 0 <= off < 2 ^ 16 ->
  read32le (cm s) (u32 (u32 (off + cr s 9) + 0)) = f -> Z.odd f = true ->
  read32le (cm s) (u32 (u32 (off + cr s 9) + 4)) = r9' ->
  exists s', cpu_runs s s' /\ cpc s' = f - 1 /\ cr s' 9 = r9' /\
    (forall r, r <> 12 -> r <> 9 -> cr s' r = cr s r) /\ cm s' = cm s.
Proof.
  intros H Hoff Hf Ho H9. unfold import_words in H.
  destruct (run_ip s s (cpc s) (cr s 12) _ _ _ (MOVi false 12 off) off
    (conj eq_refl (conj eq_refl (conj (fun _ _ => eq_refl) eq_refl))) H) as (s1 & R1 & A1 & H1).
  { apply size_f0. assert (0 <= off < 2 ^ 16) by lia. bit_solve. }
  { by apply movw_ip_word. }
  { cbn. unfold result_to. cbn. by rewrite u32_small by lia. }
  destruct A1 as (Hpc1 & Hip1 & Hr1 & Hm1). destruct H1 as (Ha & H1).
  set (s2 := next (set_reg s1 12 (u32 (off + cr s 9))) 2).
  assert (R2 : step s1 = Some s2).
  { rewrite (step16 s1 0x44cc (ALUr ADD false 12 12 9 (LSL, 0)));
      [|by rewrite Hm1, Hpc1|reflexivity|vm_compute; reflexivity].
    cbn. unfold result_to, get_reg, s2. cbn. by rewrite Hip1, Hr1. }
  destruct H1 as (Hb & Hc & Hd & He & _).
  set (s3 := next (set_reg s2 9 r9') 4).
  assert (R3 : step s2 = Some s3).
  { rewrite (step32 s2 0xf8dc 0x9004 (LDSTi true A_word 9 12 4 true true false));
      [|cbn; rewrite Hm1, Hpc1; exact Hb|cbn; rewrite Hm1, Hpc1; exact Hc|reflexivity|vm_compute; reflexivity].
    cbn. unfold load_to, get_reg. cbn. by rewrite Hm1, H9. }
  exists (set_pc s3 (f - 1)). split; [|cbn; repeat split].
  - eapply runs_step; [exact R1|]. eapply runs_step; [exact R2|]. eapply runs_step; [exact R3|].
    eapply runs_step; [|apply runs_refl].
    rewrite (step32 s3 0xf8dc 0xf000 (LDSTi true A_word 15 12 0 true true false));
      [|cbn; rewrite Hm1, Hpc1; etransitivity; [|exact Hd]; f_equal; lia|cbn; rewrite Hm1, Hpc1; etransitivity; [|exact He]; f_equal; lia|
       reflexivity|vm_compute; reflexivity].
    cbn. unfold load_to, get_reg, branch_to. cbn. by rewrite Hm1, Hf, Ho.
  - intros r H12 H9'. rewrite (proj2 (Z.eqb_neq _ _) H12), (proj2 (Z.eqb_neq _ _) H9'). by apply Hr1.
  - done.
Qed.

(** ** The linker's veneer *)

(** The bytes of the veneer at [ptr] are loaded where the processor is. *)
Definition loaded_at (m : mem) (ptr n : Z) (s : cpu) : Prop := forall j, 0 <= j < n -> cm s (cpc s + j) = m (ptr + j).

Lemma pad20_halves m p ws : halves_at m p (pad20 ws) -> halves_at m p ws.
Proof.
  unfold pad20. generalize (replicate (10 - length ws) 0xbf00). intros k. revert p.
  induction ws as [|w ws IH]; intros p; [done|]. cbn. intros [? ?]. split; [done|by apply IH].
Qed.

Lemma veneer_loaded env rel st ptr addr val s :
  loaded_at (st_mem (relocate env rel R_ARM_YASOS_HOT_VENEER st ptr addr val)) ptr HOT_VENEER_SIZE s ->
  halves_at (cm s) (cpc s) (veneer_words (veneer_kind env (st_mem st) addr val)).
Proof.
  cbn [relocate]. rewrite fill_veneer_eq. cbn [st_mem]. intros H.
  pose proof (veneer_words_length (veneer_kind env (st_mem st) addr val)) as Hl.
  eapply halves_ext; [|apply (put_list_at (st_mem st, ptr))].
  intros j Hj. apply H. unfold HOT_VENEER_SIZE. lia.
Qed.

(** The conditions of [veneer_unreachable] put the target in range. *)
Lemma reachable_off env addr val :
  0 <= val < 2 ^ 32 -> veneer_unreachable env addr val = false ->
  let off := veneer_off env addr val in
  0 <= off < 2 ^ 28 /\ Z.odd off = false /\ off = (val &&& (~~~ 1)) - veneer_base env addr.
Proof.
  intros Hval. unfold veneer_unreachable, veneer_off. cbv zeta. intros H.
  repeat (apply orb_false_iff in H; destruct H as [H ?]).
  rewrite odd_land in *. change (1 <<< 28) with (2 ^ 28) in *. bool_facts.
  assert (Ht : 0 <= val &&& (~~~ 1) < 2 ^ 32).
  { replace (val &&& (~~~ 1)) with ((val &&& (~~~ 1)) &&& Z.ones 32) by bit_solve. apply land_ones_bound. lia. }
  pose proof (u32_bound (sh_addr (text_section env) + if hot_src env addr then 0 else hot_text_start env)) as Hb.
  change (0 <= veneer_base env addr < 2 ^ 32) in Hb.
  rewrite u32_small in * by lia. split; [lia|done].
Qed.

(** C31: a hot-text veneer that the linker fills without an error, executed from
    wherever it is loaded with the module's R9, reaches its target: for a call out of
    the block to an import, the function in the import's GOT entry with that entry's
    R9; otherwise the run-time image of the target, the base read from the reserved
    GOT slot plus the target's link-time distance from the base.  Only IP (and, for an
    import, R9) changes. *)
Theorem hot_veneer_reaches env rel st ptr addr val s :
  0 <= val < 2 ^ 32 ->
  let st' := relocate env rel R_ARM_YASOS_HOT_VENEER st ptr addr val in
  errors st' = errors st -> loaded_at (st_mem st') ptr HOT_VENEER_SIZE s ->
  if hot_src env addr && in_plt env val then
    let off := read32le (st_mem st) (plt_entry env val + 28) in
    let entry := u32 (off + cr s 9) in
    0 <= off -> Z.odd (read32le (cm s) (u32 (entry + 0))) = true ->
    exists s', cpu_runs s s' /\ cpc s' = read32le (cm s) (u32 (entry + 0)) - 1 /\
      cr s' 9 = read32le (cm s) (u32 (entry + 4)) /\
      (forall r, r <> 12 -> r <> 9 -> cr s' r = cr s r) /\ cm s' = cm s
  else
    let base := read32le (cm s) (u32 (cr s 9 + veneer_slot env addr)) in
    let dist := (val &&& (~~~ 1)) - veneer_base env addr in
    Z.odd base = true -> 0 <= base -> base + dist < 2 ^ 32 ->
    exists s', cpu_runs s s' /\ cpc s' = base - 1 + dist /\ (forall r, r <> 12 -> cr s' r = cr s r) /\ cm s' = cm s.
Proof.
  intros Hval. cbv zeta. intros He Hl. apply veneer_loaded in Hl. cbn [relocate] in He.
  rewrite fill_veneer_eq in He. cbn [errors] in He.
  assert (Hn : veneer_errors (veneer_kind env (st_mem st) addr val) (r_sym rel) addr = [])
    by (apply (app_inv_head (errors st)); by rewrite He, app_nil_r).
  clear He. unfold veneer_kind in *. destruct (hot_src env addr && in_plt env val).
  - cbn [veneer_words veneer_errors] in *. apply pad20_halves in Hl. intros Hoff Ho.
    set (off := read32le _ _) in *. destruct (Z.ltb_spec 0xffff off); [done|].
    eapply import_veneer_runs; [exact Hl|lia|done|done|done].
  - destruct (veneer_unreachable env addr val) eqn:Hu; [done|].
    cbn [veneer_words] in Hl. apply pad20_halves in Hl. intros Hb Hb0 Hsum.
    destruct (reachable_off env addr val Hval Hu) as (H1 & H2 & H3). cbv zeta in *. rewrite <-H3 in *.
    eapply jump_veneer_runs; [exact Hl|unfold veneer_slot; case_match; auto|done..].
Qed.

(** A veneer in flash for a function of the block: .text at 0x1000, the block from
    0x1100 to 0x1200, running at 0x20000000. *)
Definition demo_hot : LinkEnv :=
  mk_env 4 None None (mk_section 0x1000 1 0x200 0 0x200) (mk_section 0 2 0 0 0) 0x100 0x200 [] (fun _ => mk_attr 0 0 0 0).
Definition demo_rel : Rel := mk_rel 0x40 1 R_ARM_YASOS_HOT_VENEER.
Definition demo_hot_st : LinkState := mk_st (fun _ => 0) [] [].
Definition demo_hot_out : LinkState :=
  relocate demo_hot demo_rel R_ARM_YASOS_HOT_VENEER demo_hot_st 0x40 0x1040 0x1121.
Definition demo_cpu : cpu :=
  mk_cpu (fun r => if Z.eqb r 9 then 0x3000 else 0) 0x2000 false
    (fun a => if Z.leb 0x2000 a && Z.ltb a 0x2014 then st_mem demo_hot_out (a - 0x2000 + 0x40)
              else if Z.eqb a 0x3028 then 1 else if Z.eqb a 0x302b then 0x20 else 0).

Lemma hot_veneer_reaches_witness : exists s', cpu_runs demo_cpu s' /\ cpc s' = 0x20000020.
Proof.
  pose proof (hot_veneer_reaches demo_hot demo_rel demo_hot_st 0x40 0x1040 0x1121 demo_cpu) as H.
  replace (hot_src demo_hot 0x1040 && in_plt demo_hot 0x1121) with false in H by (vm_compute; reflexivity).
  cbv zeta iota in H.
  replace (read32le (cm demo_cpu) (u32 (cr demo_cpu 9 + veneer_slot demo_hot 0x1040))) with 0x20000001 in H
    by (vm_compute; reflexivity).
  replace ((0x1121 &&& (~~~ 1)) - veneer_base demo_hot 0x1040) with 0x20 in H by (vm_compute; reflexivity).
  destruct H as (s' & Hr & Hpc & _); [lia|vm_compute; reflexivity| |reflexivity|lia|lia|by exists s'].
  intros j Hj. unfold HOT_VENEER_SIZE in Hj. cbn [cm cpc demo_cpu].
  rewrite (proj2 (Z.leb_le _ _)), (proj2 (Z.ltb_lt _ _)) by lia. cbn [andb].
  change (st_mem demo_hot_out (0x2000 + j - 0x2000 + 0x40) = st_mem demo_hot_out (0x40 + j)). f_equal. lia.
Defined.
