(* ===== verification/ArmPlt.v ===== *)
(** * The procedure linkage table

    [create_plt_entry] reserves 32 bytes per import and leaves the import's GOT
    offset in them; [relocate_plt] turns each entry into code.  The stub's
    instructions come from the Thumb encoders, so the loop cpu_runs in their monad. *)

From S2P Require Import Prelude BitReflect Bytes ArmDecode ThumbTypes ThumbShapes ThumbPack.
From S2P Require Import ThumbCustom ThumbEngine ThumbOpsAlu ThumbOpsMem ThumbDecode ArmExec ElfSym.
From S2P Require Import ArmLink HotVeneer ArmReloc ArmRelocSpec ArmRelocThumb HotExec.
From stdpp Require Import list.
Local Open Scope Z_scope.
Local Open Scope c_scope.

(** ** The code *)

Definition write_thumb_instruction (m : mem) (p : Z) (op : thumb_opcode) : mem :=
  if negb (Z.eqb (op_size op) 2) && negb (Z.eqb (op_size op) 4) then m
  else if Z.eqb (op_size op) 4
  then write16le (write16le m p (u16 (op_opcode op >>> 16))) (p + 2) (u16 (op_opcode op))
  else write16le m p (u16 (op_opcode op)).

Definition create_plt_entry (m : mem) (plt : Section_) (got_offset : Z) : mem * Section_ * Z :=
  let plt := if Z.eqb (data_offset plt) 0 then (section_ptr_add plt 32).1 else plt in
  let plt_offset := data_offset plt in
  let '(plt, p) := section_ptr_add plt 32 in
  (write32le m (p + 4) got_offset, plt, plt_offset).

Definition R9 : Z := 9.

Section Plt.
Context (text_and_data_separation got_addr : Z) (plt : Section_).

Definition plt_word (m : mem) (p : Z) : Z :=
  let off := read32le m (p + 4) in
  if negb (Z.eqb text_and_data_separation 1)
  then u32 (off + (got_addr - sh_addr plt - (p - sec_data plt) - 8)) else off.

(** One entry. *)
Definition plt_stub (m : mem) (p : Z) : Enc mem :=
  let m := write32le m (p + 28) (plt_word m p) in
  i ← th_ldr_imm R_IP R_PC 24 6 ENFORCE_ENCODING_NONE;
  let m := write_thumb_instruction m p i in
  i ← (if truth text_and_data_separation
       then th_add_reg R_IP R_IP R9 FLAGS_BEHAVIOUR_NOT_IMPORTANT THUMB_SHIFT_DEFAULT ENFORCE_ENCODING_NONE
       else th_add_reg R_IP R_IP R_PC FLAGS_BEHAVIOUR_NOT_IMPORTANT THUMB_SHIFT_DEFAULT ENFORCE_ENCODING_NONE);
  let m := write_thumb_instruction m (p + 4) i in
  i ← th_ldr_imm R9 R_IP 4 6 ENFORCE_ENCODING_NONE;
  let m := write_thumb_instruction m (p + 6) i in
  i ← th_ldr_imm R_IP R_IP 0 6 ENFORCE_ENCODING_NONE;
  let m := write_thumb_instruction m (p + 10) i in
  i ← th_cmp_imm R_IP 0 FLAGS_BEHAVIOUR_SET ENFORCE_ENCODING_32BIT;
  let m := write_thumb_instruction m (p + 14) i in
  i ← th_b_t1 1 0;
  let m := write_thumb_instruction m (p + 18) i in
  i ← th_bx_reg R_IP;
  mret (write_thumb_instruction m (p + 22) i).

(** [while (p < p_end)], at most one round per 32 bytes. *)
Fixpoint plt_loop (fuel : nat) (m : mem) (p p_end : Z) : Enc mem :=
  match fuel with
  | O => mret m
  | S n => if Z.ltb p p_end then m ← plt_stub m p; plt_loop n m (p + 32) p_end else mret m
  end.

(** Every GOT entry of an import starts as the address of the table. *)
Definition plt_got_init (m : mem) (got_data : Z) (rels : list Rel) : mem :=
  fold_left (fun m rel => write32le m (got_data + r_offset rel) (sh_addr plt)) rels m.

Definition relocate_plt (got_data : Z) (rels : list Rel) (m : mem) : Enc mem :=
  let p_end := sec_data plt + data_offset plt in
  m ← plt_loop (Z.to_nat (data_offset plt / 32)) m (sec_data plt + 32) p_end;
  mret (plt_got_init m got_data rels).
End Plt.

(** ** The stub *)

(** The features the encoders need: both instruction widths and modified
    immediates, which every ARMv7-M and ARMv8-M mainline target has. *)
Definition plt_feats : Z := feats [feat_t16; feat_t32; feat_mod_imm].

Definition stub_feat (st : enc_state) : Prop := thop_feat32_subset plt_feats (target_feat st) = true.

(** A stub's halfwords; the one at 20 is never written. *)
Definition stub_words (separate : bool) (gap : Z) : list Z :=
  [0xf8df; 0xc018; if separate then 0x44cc else 0x44fc; 0xf8dc; 0x9004; 0xf8dc; 0xc000;
   0xf1bc; 0x0f00; 0xd100; gap; 0x4760].

Lemma bind_returns {A B} (x : Enc A) (f : A -> Enc B) st a b :
  returns x st a -> (forall st', state_ok st' -> target_feat st' = target_feat st -> returns (f a) st' b) ->
  returns (x ≫= f) st b.
Proof.
  intros (st' & Hx & Hok & Hf) H. destruct (H st' Hok Hf) as (st'' & Hr & Hok' & Hf').
  exists st''. unfold mbind, Enc_bind. rewrite Hx. split; [done|]. split; [done|congruence].
Qed.

Lemma ret_returns {A} (a : A) st : state_ok st -> returns (mret a : Enc A) st a.
Proof. intros H. by exists st. Qed.

Ltac known := apply (emit_known_returns plt_feats); [done|done|vm_compute; reflexivity].
Ltac bind_known :=
  eapply bind_returns; [known|let st := fresh "st" in let H := fresh "Hst" in let Hf := fresh "Hf" in
    intros st H Hf; assert (stub_feat st) by (unfold stub_feat in *; congruence)].

(** The bytes the stub's stores leave: the word at 28, then the instructions in
    the order they are written. *)
Definition stub_mem (separate : bool) (m : mem) (p off : Z) : mem :=
  let m := write32le m (p + 28) off in
  let m := write_halves m p 0xf8df 0xc018 in
  let m := write16le m (p + 4) (if separate then 0x44cc else 0x44fc) in
  let m := write_halves m (p + 6) 0xf8dc 0x9004 in
  let m := write_halves m (p + 10) 0xf8dc 0xc000 in
  let m := write_halves m (p + 14) 0xf1bc 0x0f00 in
  let m := write16le m (p + 18) 0xd100 in
  write16le m (p + 22) 0x4760.

Lemma plt_stub_returns tds got_addr plt m p st :
  state_ok st -> stub_feat st ->
  returns (plt_stub tds got_addr plt m p) st (stub_mem (truth tds) m p (plt_word tds got_addr plt m p)).
Proof.
  intros Hst Hf. unfold plt_stub. cbv zeta. bind_known.
  eapply (bind_returns _ _ _ (mk_opcode 2 (if truth tds then 0x44cc else 0x44fc))).
  { destruct (truth tds); known. }
  intros st1 Hst1 Hf1. assert (stub_feat st1) by (unfold stub_feat in *; congruence).
  do 5 bind_known.
  unfold stub_mem. cbv zeta. destruct (truth tds); by apply ret_returns.
Qed.

(** Reads of the stores above: a halfword is the last one stored there. *)
Ltac read_stub :=
  repeat first
    [ rewrite read16_write16_other by lia
    | rewrite read16_write16 ].

Lemma stub_halves separate m p off :
  mem_ok m -> halves_at (stub_mem separate m p off) p (stub_words separate (read16le m (p + 20))).
Proof.
  intros Hm. unfold stub_mem, write_halves, write32le. cbv zeta. cbn [halves_at stub_words].
  rewrite <-!Z.add_assoc. cbn [Z.add Pos.add Pos.succ].
  repeat split; read_stub; try reflexivity; try (by destruct separate).
  by rewrite u16_small by (apply read16_bound; done).
Qed.

Lemma stub_literal separate m p off :
  0 <= off < 2 ^ 32 -> read32le (stub_mem separate m p off) (p + 28) = off.
Proof.
  intros Hoff. unfold stub_mem, write_halves. cbv zeta. unfold read32le.
  rewrite !read16_write16_other by lia. rewrite read16_write32_lo, read16_write32_hi. by apply halves.
Qed.

Lemma stub_only separate m p off : only_changes m (stub_mem separate m p off) p 32.
Proof.
  intros a Ha. unfold stub_mem, write_halves. cbv zeta. by rewrite !write16_other, write32_other by lia.
Qed.

Lemma stub_ok separate m p off : mem_ok m -> mem_ok (stub_mem separate m p off).
Proof. intros H. unfold stub_mem, write_halves. cbv zeta. auto 20 with bytes. Qed.

(** Two stubs from memories that agree on the entry. *)
Lemma stub_local separate m1 m2 p off a :
  (forall b, p <= b < p + 32 -> m1 b = m2 b) -> p <= a < p + 32 ->
  stub_mem separate m1 p off a = stub_mem separate m2 p off a.
Proof.
  intros H Ha. unfold stub_mem, write_halves, write32le, write16le, set_byte. cbv zeta.
  repeat case_match; auto.
Qed.

(** ** Running it *)

(** The halfword [H] is at the program counter. *)
Ltac here H := cbn; etransitivity; [|exact H]; f_equal; lia.

(** A stub loaded at a word-aligned address, with its slot address computed from
    the literal at 28, jumps to the function in the slot with the slot's R9. *)
Lemma stub_runs s separate gap slot f :
  halves_at (cm s) (cpc s) (stub_words separate gap) -> cpc s mod 4 = 0 -> 0 <= cpc s -> cpc s + 32 < 2 ^ 32 ->
  0 <= read32le (cm s) (cpc s + 28) < 2 ^ 32 ->
  slot = u32 (read32le (cm s) (cpc s + 28) + if separate then cr s 9 else cpc s + 8) ->
  read32le (cm s) (u32 (slot + 0)) = f -> Z.odd f = true ->
  exists s', cpu_runs s s' /\ cpc s' = f - 1 /\ cr s' 9 = read32le (cm s) (u32 (slot + 4)) /\
    (forall r, r <> 12 -> r <> 9 -> cr s' r = cr s r) /\ cm s' = cm s.
Proof.
  intros H Ha H0 Hw Hlit Hslot Hf Ho. set (off := read32le (cm s) (cpc s + 28)) in *.
  destruct H as (H1 & H2 & H3 & H4 & H5 & H6 & H7 & H8 & H9 & H10 & _ & H12 & _).
  replace (u16 (if separate then 0x44cc else 0x44fc)) with (if separate then 0x44cc else 0x44fc) in H3 by (by destruct separate).
  set (r9' := read32le (cm s) (u32 (slot + 4))).
  set (s1 := next (set_reg s 12 off) 4). set (s2 := next (set_reg s1 12 slot) 2).
  set (s3 := next (set_reg s2 9 r9') 4). set (s4 := next (set_reg s3 12 f) 4).
  set (s5 := next (set_z s4 false) 4). set (s6 := set_pc s5 (cpc s + 22)).
  assert (R1 : step s = Some s1).
  { rewrite (step32 s 0xf8df 0xc018 (LDRlit A_word 12 24)); [|done|done|reflexivity|vm_compute; reflexivity].
    cbn. unfold load_to. cbn. do 3 f_equal. unfold off. f_equal.
    rewrite u32_small by lia_mod. lia_mod. }
  assert (R2 : step s1 = Some s2).
  { rewrite (step16 s1 (if separate then 0x44cc else 0x44fc) (ALUr ADD false 12 12 (if separate then 9 else 15) (LSL, 0)));
      [|here H3|by destruct separate|destruct separate; vm_compute; reflexivity].
    cbn. unfold result_to. cbn. do 3 f_equal. rewrite Hslot. unfold get_reg, s1. cbn. f_equal.
    destruct separate; cbn; lia. }
  assert (R3 : step s2 = Some s3).
  { rewrite (step32 s2 0xf8dc 0x9004 (LDSTi true A_word 9 12 4 true true false));
      [|here H4|here H5|
       reflexivity|vm_compute; reflexivity]. reflexivity. }
  assert (R4 : step s3 = Some s4).
  { rewrite (step32 s3 0xf8dc 0xc000 (LDSTi true A_word 12 12 0 true true false));
      [|here H6|here H7|
       reflexivity|vm_compute; reflexivity]. cbn. unfold load_to, get_reg. cbn. by rewrite Hf. }
  assert (R5 : step s4 = Some s5).
  { rewrite (step32 s4 0xf1bc 0x0f00 (CMPi CMP 12 0));
      [|here H8|here H9|
       reflexivity|vm_compute; reflexivity]. cbn. unfold get_reg. cbn.
    by rewrite (proj2 (Z.eqb_neq f 0)) by (by intros ->). }
  assert (R6 : step s5 = Some s6).
  { rewrite (step16 s5 0xd100 (Bcond 1 0)); [|here H10|reflexivity|vm_compute; reflexivity].
    cbn. unfold s6. do 2 f_equal. rewrite u32_small; cbn; lia. }
  exists (set_pc s6 (f - 1)). split; [|cbn; repeat split].
  - do 6 (eapply runs_step; [eassumption|]). eapply runs_step; [|apply runs_refl].
    rewrite (step16 s6 0x4760 (BX 12)); [|here H12|reflexivity|vm_compute; reflexivity].
    cbn. unfold get_reg, branch_to. cbn. by rewrite Ho.
  - intros r Hr12 Hr9. by rewrite (proj2 (Z.eqb_neq _ _) Hr12), (proj2 (Z.eqb_neq _ _) Hr9).
Qed.

(** ** The whole table *)

Lemma plt_word_local tds got_addr plt m1 m2 p :
  (forall b, p <= b < p + 32 -> m1 b = m2 b) -> plt_word tds got_addr plt m1 p = plt_word tds got_addr plt m2 p.
Proof.
  intros H. unfold plt_word. cbv zeta. by rewrite (read32_ext m2 m1) by (intros a Ha; apply H; lia).
Qed.

Lemma plt_word_bound tds got_addr plt m p : mem_ok m -> 0 <= plt_word tds got_addr plt m p < 2 ^ 32.
Proof. intros Hm. unfold plt_word. cbv zeta. case_match; [apply u32_bound|by apply read32_bound]. Qed.

(** Each entry becomes the stub of its own GOT offset; nothing else changes. *)
Lemma plt_loop_returns tds got_addr plt n m p st :
  state_ok st -> stub_feat st -> mem_ok m ->
  exists m', returns (plt_loop tds got_addr plt n m p (p + 32 * Z.of_nat n)) st m' /\
    only_changes m m' p (32 * Z.of_nat n) /\ mem_ok m' /\
    forall i a, 0 <= i < Z.of_nat n -> p + 32 * i <= a < p + 32 * i + 32 ->
      m' a = stub_mem (truth tds) m (p + 32 * i) (plt_word tds got_addr plt m (p + 32 * i)) a.
Proof.
  revert m p st. induction n as [|n IH]; intros m p st Hst Hf Hm.
  - exists m. split; [by apply ret_returns|]. split; [done|]. split; [done|lia].
  - set (m1 := stub_mem (truth tds) m p (plt_word tds got_addr plt m p)).
    assert (Hm1 : mem_ok m1) by (by apply stub_ok).
    assert (Ho1 : only_changes m m1 p 32) by apply stub_only.
    destruct (plt_stub_returns tds got_addr plt m p st Hst Hf) as (st1 & Hr1 & Hok1 & Hf1).
    assert (Hs1 : stub_feat st1) by (unfold stub_feat in *; congruence).
    destruct (IH m1 (p + 32) st1 Hok1 Hs1 Hm1) as (m' & (st2 & Hr2 & Hok2 & Hf2) & Ho & Hok & Hi).
    replace (p + 32 + 32 * Z.of_nat n) with (p + 32 * Z.of_nat (S n)) in * by lia.
    exists m'. split; [|split; [|split; [done|]]].
    + exists st2. split; [|split; [done|congruence]]. cbn [plt_loop].
      rewrite (proj2 (Z.ltb_lt _ _)) by lia. unfold mbind, Enc_bind. by rewrite Hr1.
    + intros a Ha. rewrite Ho by lia. apply Ho1. lia.
    + intros i a Hin Ha. destruct (decide (i = 0)) as [->|].
      * rewrite Ho by lia. unfold m1. by replace (p + 32 * 0) with p by lia.
      * specialize (Hi (i - 1) a). replace (p + 32 + 32 * (i - 1)) with (p + 32 * i) in Hi by lia.
        assert (Hag : forall b, p + 32 * i <= b < p + 32 * i + 32 -> m1 b = m b) by (intros b Hb; apply Ho1; lia).
        rewrite Hi by lia. rewrite (plt_word_local _ _ _ m1 m) by done. by apply stub_local.
Qed.

(** One round more than needed changes nothing. *)
Lemma plt_loop_more tds got_addr plt n m p e st :
  e <= p + 32 * Z.of_nat n ->
  plt_loop tds got_addr plt (S n) m p e st = plt_loop tds got_addr plt n m p e st.
Proof.
  revert m p st. induction n as [|n IH]; intros m p st He.
  - cbn [plt_loop]. by rewrite (proj2 (Z.ltb_ge _ _)) by lia.
  - cbn [plt_loop]. destruct (Z.ltb p e); [|done]. unfold mbind, Enc_bind.
    destruct (plt_stub tds got_addr plt m p st) as [[m1 st1]|]; [|done].
    apply (IH m1 (p + 32) st1). lia.
Qed.

(** No GOT word of the table lies in the table. *)
Definition got_off_plt (plt : Section_) (got_data : Z) (rels : list Rel) : Prop :=
  Forall (fun r => got_data + r_offset r + 4 <= sec_data plt \/
                   sec_data plt + data_offset plt <= got_data + r_offset r) rels.

Lemma plt_got_init_other plt m got_data rels a :
  got_off_plt plt got_data rels -> sec_data plt <= a < sec_data plt + data_offset plt ->
  plt_got_init plt m got_data rels a = m a.
Proof.
  intros Hr Ha. unfold plt_got_init. revert m. induction Hr as [|r rels H Hr IH]; intros m; cbn; [done|].
  rewrite IH. apply write32_other. lia.
Qed.

Lemma relocate_plt_returns tds got_addr plt got_data rels m st n :
  state_ok st -> stub_feat st -> mem_ok m -> 0 <= n -> data_offset plt = 32 * (n + 1) ->
  got_off_plt plt got_data rels ->
  exists m', returns (relocate_plt tds got_addr plt got_data rels m) st m' /\
    forall i, 0 <= i < n -> let p := sec_data plt + 32 + 32 * i in
      halves_at m' p (stub_words (truth tds) (read16le m (p + 20))) /\
      read32le m' (p + 28) = plt_word tds got_addr plt m p.
Proof.
  intros Hst Hf Hm Hn Hd Hr.
  destruct (plt_loop_returns tds got_addr plt (Z.to_nat n) m (sec_data plt + 32) st Hst Hf Hm)
    as (m' & (st' & Hret & Hok' & Hf') & Ho & Hok & Hi).
  rewrite Z2Nat.id in * by lia.
  exists (plt_got_init plt m' got_data rels). split.
  - exists st'. split; [|done]. unfold relocate_plt. cbv zeta. rewrite Hd.
    assert (E : Z.to_nat (32 * (n + 1) / 32) = S (Z.to_nat n)) by lia_mod. rewrite E.
    replace (sec_data plt + 32 * (n + 1)) with (sec_data plt + 32 + 32 * n) by lia.
    unfold mbind at 1, Enc_bind at 1. rewrite plt_loop_more by lia. by rewrite Hret.
  - intros i Hin p.
    assert (Hag : forall j, 0 <= j < 32 -> plt_got_init plt m' got_data rels (p + j) =
      stub_mem (truth tds) m p (plt_word tds got_addr plt m p) (p + j)).
    { intros j Hj. rewrite plt_got_init_other by (done || unfold p; lia). apply (Hi i); unfold p; lia. }
    split.
    + eapply halves_ext; [|by apply (stub_halves (truth tds) m p (plt_word tds got_addr plt m p))].
      intros j Hj. apply Hag. cbn in Hj. lia.
    + rewrite <-(stub_literal (truth tds) m p (plt_word tds got_addr plt m p)) by (by apply plt_word_bound).
      apply read32_ext. intros a Ha. replace a with (p + (a - p)) by lia. apply Hag. lia.
Qed.

(** Entries are made one by one, each with its GOT offset in the second word. *)
Theorem create_plt_entry_spec m plt got_offset :
  0 <= data_offset plt -> data_offset plt mod 32 = 0 -> 0 <= got_offset < 2 ^ 32 ->
  let '(m', plt', off) := create_plt_entry m plt got_offset in
  data_offset plt' mod 32 = 0 /\ 32 <= off /\ data_offset plt' = off + 32 /\ data_offset plt <= off /\
  read32le m' (sec_data plt' + off + 4) = got_offset /\
  only_changes m m' (sec_data plt + off) 32.
Proof.
  intros H1 H2 H3. unfold create_plt_entry. cbv zeta.
  destruct (Z.eqb_spec (data_offset plt) 0); cbn; rewrite read32_write32 by done;
    repeat split; try (lia || lia_mod); intros a Ha; apply write32_other; lia.
Qed.

(** [relocate_plt] turns every entry of the table into code that, loaded at any
    word-aligned address, jumps to the function whose address is in the import's GOT
    entry, with R9 from the entry's second word, changing no other register than IP;
    the entry is found from R9 when text and data are separate, and otherwise at the
    GOT's distance from the table. *)
Theorem relocate_plt_stubs tds got_addr plt got_data rels m st n :
  state_ok st -> stub_feat st -> mem_ok m -> tds = 0 \/ tds = 1 ->
  0 <= n -> data_offset plt = 32 * (n + 1) -> got_off_plt plt got_data rels ->
  exists m', returns (relocate_plt tds got_addr plt got_data rels m) st m' /\
    forall i s, 0 <= i < n ->
      let p := sec_data plt + 32 + 32 * i in
      let image := sh_addr plt + 32 + 32 * i in
      let slot := u32 (read32le m (p + 4) + if truth tds then cr s 9 else got_addr + (cpc s - image)) in
      let f := read32le (cm s) (u32 (slot + 0)) in
      loaded_at m' p 32 s -> cpc s mod 4 = 0 -> 0 <= cpc s -> cpc s + 32 < 2 ^ 32 -> Z.odd f = true ->
      exists s', cpu_runs s s' /\ cpc s' = f - 1 /\ cr s' 9 = read32le (cm s) (u32 (slot + 4)) /\
        (forall r, r <> 12 -> r <> 9 -> cr s' r = cr s r) /\ cm s' = cm s.
Proof.
  intros Hst Hf Hm Ht Hn Hd Hr.
  destruct (relocate_plt_returns tds got_addr plt got_data rels m st n Hst Hf Hm Hn Hd Hr) as (m' & Hret & Hs).
  exists m'. split; [done|]. intros i s Hi p image slot f Hl Ha H0 Hw Ho.
  destruct (Hs i Hi) as [Hh Hlit]. fold p in Hh, Hlit.
  assert (Hc : read32le (cm s) (cpc s + 28) = plt_word tds got_addr plt m p).
  { rewrite <-Hlit. unfold read32le, read16le. by rewrite <-!Z.add_assoc, !Hl by lia. }
  eapply (stub_runs s (truth tds) (read16le m (p + 20)) slot f); try done.
  - eapply halves_ext; [|exact Hh]. intros j Hj. apply Hl. cbn in Hj. lia.
  - rewrite Hc. by apply plt_word_bound.
  - rewrite Hc. unfold slot, plt_word. cbv zeta. destruct Ht as [-> | ->]; cbn [Z.eqb Pos.eqb negb truth]; [|done].
    change (truth 0) with false. cbv iota.
    rewrite !u32_mod, Zplus_mod_idemp_l. apply (f_equal (fun z => z mod 2 ^ 32)). unfold image, p. lia.
Qed.

(** One import, GOT offset 24, separate text and data. *)
Definition demo_plt : Section_ := mk_section 0x4000 5 64 0 64.
Definition demo_plt_mem : mem := fun a => if Z.eqb a 36 then 24 else 0.

Lemma relocate_plt_stubs_witness :
  exists m' s s', returns (relocate_plt 1 0 demo_plt 1000 [mk_rel 24 1 R_ARM_JUMP_SLOT] demo_plt_mem) full_state m' /\
    cpu_runs s s' /\ cpc s' = 0x10000200 /\ cr s' 9 = 0x20000000.
Proof.
  destruct (relocate_plt_stubs 1 0 demo_plt 1000 [mk_rel 24 1 R_ARM_JUMP_SLOT] demo_plt_mem full_state 1)
    as (m' & Hret & H).
  - apply init_state_ok.
  - reflexivity.
  - intros a. unfold demo_plt_mem. case_match; lia.
  - by right.
  - lia.
  - reflexivity.
  - constructor; [right; cbn; lia|constructor].
  - set (s := mk_cpu (fun r => if Z.eqb r 9 then 0x9000 else 0) 0x8000 false
      (fun a => if Z.leb 0x8000 a && Z.ltb a 0x8020 then m' (a - 0x8000 + 32)
                else if Z.eqb a 0x9018 then 1 else if Z.eqb a 0x9019 then 2 else if Z.eqb a 0x901b then 0x10
                else if Z.eqb a 0x901f then 0x20 else 0)).
    destruct (H 0 s) as (s' & Hr & Hpc & H9 & _).
    + lia.
    + intros j Hj. cbn [cm cpc s]. unfold s. cbn [cm cpc].
      rewrite (proj2 (Z.leb_le _ _)), (proj2 (Z.ltb_lt _ _)) by lia. cbn [andb]. f_equal. cbn. lia.
    + reflexivity.
    + cbn. lia.
    + cbn. lia.
    + vm_compute. reflexivity.
    + exists m', s, s'. repeat split; [done|done|rewrite Hpc; vm_compute; reflexivity|rewrite H9; vm_compute; reflexivity].
Defined.
