(* ===== verification/HotText.v ===== *)
(** * Sorted name lists ([tccelf_load.c])

    The lists of function names given to the linker ([--hot-text], [--ram-text])
    are sorted with [strcmp] and searched by halving.  A name is the list of its
    bytes, without the terminating zero. *)

From stdpp Require Import list sorting.
From stdpp Require Import list strings pretty.
From Stdlib Require Ascii.
From S2P Require Import Prelude BitReflect Bytes ElfSym ElfResolve ArmLink.
Local Open Scope Z_scope.

(** C strings hold no zero byte. *)
Definition cstr (s : list Z) : Prop := Forall (fun c => 0 < c < 256) s.

Fixpoint strcmp (a b : list Z) : Z :=
  match a, b with
  | [], [] => 0
  | [], y :: _ => - y
  | x :: _, [] => x
  | x :: a, y :: b => if Z.eqb x y then strcmp a b else x - y
  end.

(** [strncmp], past the end of a string its zero byte. *)
Fixpoint strncmp (a b : list Z) (n : nat) : Z :=
  match n with
  | O => 0
  | S n =>
      let x := hd 0 a in
      let y := hd 0 b in
      if Z.eqb x y then if Z.eqb x 0 then 0 else strncmp (tail a) (tail b) n else x - y
  end.

(** [c] of the loop: [names[mid][len]] tells a longer name apart. *)
Definition name_cmp (name s : list Z) : Z :=
  let len := length name in
  let c := strncmp name s len in
  if Z.eqb c 0 then - nth len s 0 else c.

Fixpoint name_search (fuel : nat) (names : list (list Z)) (name : list Z) (lo hi : Z) : bool :=
  match fuel with
  | O => false
  | S n =>
      if Z.leb lo hi then
        let mid := (lo + hi) / 2 in
        let c := name_cmp name (default [] (names !! Z.to_nat mid)) in
        if Z.eqb c 0 then true
        else if Z.ltb c 0 then name_search n names name lo (mid - 1)
        else name_search n names name (mid + 1) hi
      else false
  end.

(** The interval shrinks at every turn: [count + 1] turns are enough. *)
Definition tcc_name_list_has (names : list (list Z)) (name : list Z) : bool :=
  name_search (S (length names)) names name 0 (Z.of_nat (length names) - 1).

(** ** Correctness *)

Lemma name_cmp_strcmp name s : cstr name -> cstr s -> name_cmp name s = strcmp name s.
Proof.
  intros Hn. revert s. induction Hn as [|x name Hx Hn IH]; intros s Hs.
  - destruct s; reflexivity.
  - destruct Hs as [|y s Hy Hs]; unfold name_cmp; cbn [length strncmp strcmp hd tail nth].
    + rewrite (proj2 (Z.eqb_neq x 0)) by lia. rewrite Z.sub_0_r. by rewrite (proj2 (Z.eqb_neq x 0)) by lia.
    + destruct (Z.eqb_spec x y) as [->|Hne].
      * rewrite (proj2 (Z.eqb_neq y 0)) by lia. specialize (IH s Hs). unfold name_cmp in IH. exact IH.
      * by rewrite (proj2 (Z.eqb_neq (x - y) 0)) by lia.
Qed.

Lemma strcmp_anti a b : strcmp b a = - strcmp a b.
Proof.
  revert b. induction a as [|x a IH]; intros [|y b]; cbn [strcmp]; try lia.
  rewrite (Z.eqb_sym y x). destruct (Z.eqb x y); [apply IH|lia].
Qed.

Lemma strcmp_eq a b : cstr a -> cstr b -> strcmp a b = 0 <-> a = b.
Proof.
  intros Ha. revert b. induction Ha as [|x a Hx Ha IH]; intros b Hb; destruct Hb as [|y b Hy Hb];
    cbn [strcmp]; try (split; [lia|discriminate]); [done|].
  destruct (Z.eqb_spec x y) as [->|Hne].
  - rewrite IH by done. split; [by intros ->|by intros [= ->]].
  - split; [lia|by intros [= -> ->]].
Qed.

Section Search.
Context (names : list (list Z)) (name : list Z).
Hypothesis Hsorted : forall i j a b, (i <= j)%nat -> names !! i = Some a -> names !! j = Some b -> strcmp a b <= 0.
Hypothesis Hnames : Forall cstr names.
Hypothesis Hname : cstr name.

Lemma name_search_spec fuel lo hi :
  0 <= lo -> hi < Z.of_nat (length names) -> lo <= hi + 1 -> hi - lo + 1 < Z.of_nat fuel ->
  name_search fuel names name lo hi = true <->
  exists i : nat, lo <= Z.of_nat i <= hi /\ names !! i = Some name.
Proof using Hsorted Hnames Hname.
  revert lo hi. induction fuel as [|n IH]; intros lo hi Hlo Hhi Hle Hf; [lia|]. cbn [name_search].
  destruct (Z.leb_spec lo hi) as [Hl|Hl]; [|split; [done|intros (i & Hi & _); lia]].
  assert (Hm : lo <= (lo + hi) / 2 <= hi) by (split; [apply Z.div_le_lower_bound|apply Z.div_le_upper_bound]; lia).
  set (mid := (lo + hi) / 2) in *. clearbody mid.
  destruct (lookup_lt_is_Some_2 names (Z.to_nat mid)) as [s Hs]; [lia|]. rewrite Hs.
  change (default [] (Some s)) with s.
  assert (Hc : cstr s) by (by eapply Forall_lookup_1 in Hnames).
  rewrite name_cmp_strcmp by done. destruct (Z.eqb_spec (strcmp name s) 0) as [H0|H0].
  - apply strcmp_eq in H0; [|done..]. subst s. split; [|done]. intros _. exists (Z.to_nat mid).
    split; [rewrite Z2Nat.id; lia|done].
  - assert (Hno : forall i : nat, names !! i = Some name ->
      (strcmp name s < 0 -> Z.of_nat i < mid) /\ (0 < strcmp name s -> mid < Z.of_nat i)).
    { intros i Hi. split; intros Hlt; apply Z.nle_gt; intros Hge.
      - pose proof (Hsorted (Z.to_nat mid) i s name ltac:(lia) Hs Hi) as G. rewrite strcmp_anti in G. lia.
      - pose proof (Hsorted i (Z.to_nat mid) name s ltac:(lia) Hi Hs) as G. lia. }
    destruct (Z.ltb_spec (strcmp name s) 0) as [Hlt|Hge]; rewrite IH by lia; clear IH;
      split; intros (i & Hi & Hx); exists i; (split; [|done]); destruct (Hno i Hx); lia.
Qed.
End Search.

(** Searching a sorted list finds exactly its members. *)
Theorem tcc_name_list_has_spec names name :
  StronglySorted (fun a b => strcmp a b <= 0) names -> Forall cstr names -> cstr name ->
  tcc_name_list_has names name = true <-> name ∈ names.
Proof.
  intros Hs Hn Hc. unfold tcc_name_list_has. rewrite name_search_spec; try done; try lia.
  - rewrite list_elem_of_lookup. split; intros [i Hi]; exists i; [apply Hi|].
    split; [apply lookup_lt_Some in Hi; lia|done].
  - clear Hn. induction Hs as [|x l Hs IH Hx]; intros i j a b Hij Ha Hb; [done|].
    destruct i as [|i], j as [|j]; cbn in Ha, Hb; try lia; try (injection Ha as <-).
    + injection Hb as <-. pose proof (strcmp_anti x x). lia.
    + by eapply Forall_lookup_1 in Hx; [|apply Hb].
    + apply (IH i j); (done || lia).
Qed.

(** ** Placing the veneers of the hot block ([arm-link.c])

    With [--hot-text] the listed functions form the last block of [.text], which the
    loader may run from RAM.  Before layout, every branch between the block and the
    rest is pointed at a veneer on its own side.  [arm_hot_text_veneer_bytes] tells
    beforehand how much [.text] grows; [arm_add_hot_text_veneers] appends the veneers,
    their relocations and symbols, and retargets the branches. *)

Local Open Scope Z_scope.
Local Open Scope c_scope.

(** ** The code *)

Definition name_bytes (s : string) : list Z := byte_of <$> String.list_ascii_of_string s.

Definition is_branch (t : reloc_type) : bool :=
  match t with R_ARM_THM_PC22 | R_ARM_THM_JUMP24 => true | _ => false end.

Section HotText.
(** [bss_section->sh_num], [text_section->sh_num], [hot_text_start] and the functions
    that may run the flash copy ([hot_text_flash_names]). *)
Context (bss_num text_num start : Z) (flash_names : list (list Z)).

(** What a branch from [src] to [sym] needs with the block ending at [stop]: 0
    nothing, otherwise the side that gets a veneer, 1 the block, 2 the rest. *)
Definition hot_text_branch_side (stop : Z) (sym : Sym) (src : Z) : Z :=
  let src_hot := in_block start stop src in
  let in_text := Z.eqb (st_shndx sym) text_num in
  if Z.eqb (st_shndx sym) SHN_UNDEF && Z.eqb (st_bind sym) STB_WEAK then 0
  else if negb in_text then if src_hot then 1 else 0
  else if Bool.eqb src_hot (in_block start stop (st_value sym &&& (~~~ 1))) then 0
  else if negb src_hot && negb (Nat.eqb (length flash_names) 0) &&
          tcc_name_list_has flash_names (name_bytes (st_name sym)) then 0
  else if src_hot then 1 else 2.

(** The loop of [arm_hot_text_veneer_bytes]: [seen] has a bit per side. *)
Fixpoint count_loop (stop : Z) (t : SymTab) (nb_syms : Z) (rels : list Rel) (seen : list Z) (n : Z) : Z :=
  match rels with
  | [] => n
  | rel :: rels =>
      let sym_index := r_sym rel in
      if negb (is_branch (r_type rel)) || Z.leb sym_index 0 || Z.leb nb_syms sym_index
      then count_loop stop t nb_syms rels seen n
      else
        let side := hot_text_branch_side stop (sym_at t sym_index) (r_offset rel) in
        if truth side && negb (truth (int_at seen sym_index &&& side))
        then count_loop stop t nb_syms rels (set_int seen sym_index (int_at seen sym_index ||| side)) (n + 1)
        else count_loop stop t nb_syms rels seen n
  end.

Definition arm_hot_text_veneer_bytes (stop : Z) (t : SymTab) (rels : list Rel) : Z :=
  if Z.eqb stop 0 then 0
  else count_loop stop t (Z.of_nat (length (syms t))) rels (replicate (length (syms t)) 0) 0 * HOT_VENEER_SIZE.

(** What the pass changes: the bytes and size of [.text], its relocations, the symbol
    table, the end of the block, the errors, and its two local variables. *)
Record HotPass := mk_hp {
  hp_mem : mem;
  hp_text : Section_;
  hp_rels : list Rel;
  hp_syms : SymTab;
  hp_end : Z;
  hp_errs : list link_error;
  n_veneers : Z;
  veneer_of : list Z
}.

(** [put_elf_reloc]: a symbol out of range is skipped. *)
Definition put_elf_reloc (t : SymTab) (rels : list Rel) (offset : Z) (type : reloc_type) (symbol : Z) : list Rel :=
  if Z.ltb symbol 0 || Z.leb (Z.of_nat (length (syms t))) symbol then rels
  else rels ++ [mk_rel offset symbol type].

Fixpoint zero_fill (m : mem) (p : Z) (n : nat) : mem :=
  match n with O => m | S n => zero_fill (set_byte m p 0) (p + 1) n end.

Definition veneer_name (n : Z) : string := ("__tcc_hot_veneer_" +:+ pretty n)%string.
Definition STT_FUNC : Z := 2.

(** A new veneer for [sym_index]. *)
Definition add_veneer (st : HotPass) (sym_index : Z) : HotPass :=
  let text := (section_ptr_add (hp_text st) (data_offset (hp_text st) &&& 1)).1 in
  let off := data_offset text in
  let '(text, p) := section_ptr_add text HOT_VENEER_SIZE in
  let m := zero_fill (hp_mem st) p (Z.to_nat HOT_VENEER_SIZE) in
  let rels := put_elf_reloc (hp_syms st) (hp_rels st) off R_ARM_YASOS_HOT_VENEER sym_index in
  let name := veneer_name (n_veneers st) in
  let '(t, v, err) := set_elf_sym bss_num (hp_syms st) (off ||| 1) HOT_VENEER_SIZE STB_GLOBAL STT_FUNC STV_HIDDEN
                        text_num name in
  mk_hp m text rels t (hp_end st) (hp_errs st ++ (if err then [Err_defined_twice name] else []))
    (n_veneers st + 1) (set_int (veneer_of st) sym_index v).

Definition retarget (st : HotPass) (k : nat) (sym_index : Z) (type : reloc_type) : HotPass :=
  let rel := default (mk_rel 0 0 R_ARM_NONE) (hp_rels st !! k) in
  mk_hp (hp_mem st) (hp_text st) (<[k := mk_rel (r_offset rel) (int_at (veneer_of st) sym_index) type]> (hp_rels st))
    (hp_syms st) (hp_end st) (hp_errs st) (n_veneers st) (veneer_of st).

Definition with_err (st : HotPass) (e : link_error) : HotPass :=
  mk_hp (hp_mem st) (hp_text st) (hp_rels st) (hp_syms st) (hp_end st) (hp_errs st ++ [e]) (n_veneers st) (veneer_of st).

(** Relocation [k] in the round of [side]; the sides are decided against the block as
    linked, which ends at [block_end]. *)
Definition hot_step (block_end nb_syms side : Z) (st : HotPass) (k : nat) : HotPass :=
  let rel := default (mk_rel 0 0 R_ARM_NONE) (hp_rels st !! k) in
  let type := r_type rel in
  let sym_index := r_sym rel in
  if Z.leb sym_index 0 || Z.leb nb_syms sym_index then st
  else
    let sym := sym_at (hp_syms st) sym_index in
    if negb (is_branch type) then
      if Z.eqb side 1 && hot_text_pc_relative type && negb (Z.eqb (st_shndx sym) SHN_UNDEF) &&
         negb (Bool.eqb (in_block start block_end (r_offset rel))
                 (Z.eqb (st_shndx sym) text_num && in_block start block_end (st_value sym &&& (~~~ 1))))
      then with_err st (Err_hot_cross type (r_offset rel) sym_index) else st
    else if negb (Z.eqb (hot_text_branch_side block_end sym (r_offset rel)) side) then st
    else
      let st := if Z.eqb (int_at (veneer_of st) sym_index) 0 then add_veneer st sym_index else st in
      retarget st k sym_index type.

Definition hot_round (block_end : Z) (nb_rels nb_syms : nat) (side : Z) (st : HotPass) : HotPass :=
  let st := mk_hp (hp_mem st) (hp_text st) (hp_rels st) (hp_syms st) (hp_end st) (hp_errs st) (n_veneers st)
              (replicate nb_syms 0) in
  let st := fold_left (hot_step block_end (Z.of_nat nb_syms) side) (seq 0 nb_rels) st in
  if Z.eqb side 1
  then mk_hp (hp_mem st) (hp_text st) (hp_rels st) (hp_syms st) (data_offset (hp_text st)) (hp_errs st) (n_veneers st)
         (veneer_of st)
  else st.

Definition arm_add_hot_text_veneers (st : HotPass) : HotPass :=
  if Z.eqb (hp_end st) 0 then st
  else
    let block_end := hp_end st in
    let nb_rels := length (hp_rels st) in
    let nb_syms := length (syms (hp_syms st)) in
    let st := mk_hp (hp_mem st) (hp_text st) (hp_rels st) (hp_syms st) (hp_end st) (hp_errs st) 0 (veneer_of st) in
    hot_round block_end nb_rels nb_syms 2 (hot_round block_end nb_rels nb_syms 1 st).
End HotText.
