(* ===== verification/HotTextSpec.v ===== *)
(** * The veneer pass leaves no branch across the hot block

    The pass is followed with a ghost list of the veneers made so far, a pair of the
    callee and the side each.  Veneer [j] sits [20 j] bytes after the aligned end of
    [.text], and its symbol and relocation follow those that were there. *)

From S2P Require Import Prelude BitReflect Bytes ElfSym ElfResolve ArmLink HotText.
From stdpp Require Import list strings pretty.
Local Open Scope Z_scope.
Local Open Scope c_scope.

Lemma veneer_name_inj i j : veneer_name i = veneer_name j -> i = j.
Proof. unfold veneer_name. intros H. apply (inj (String.append _)) in H. by apply (inj pretty) in H. Qed.

Lemma veneer_name_checked n : checked_name (veneer_name n) = veneer_name n.
Proof. reflexivity. Qed.

Section Pass.
Context (bss_num text_num start : Z) (flash_names : list (list Z)).
Context (t0 : SymTab) (rels0 : list Rel) (be d0 : Z).

Notation nb := (length (syms t0)).
Notation nbr := (length rels0).
Notation side_of := (hot_text_branch_side text_num start flash_names).

(** The side that needs a veneer for a relocation as it was, 0 for none. *)
Definition wants (r : Rel) : Z :=
  if negb (is_branch (r_type r)) || Z.leb (r_sym r) 0 || Z.leb (Z.of_nat nb) (r_sym r) then 0
  else side_of be (sym_at t0 (r_sym r)) (r_offset r).

Definition wanted (rels : list Rel) (c s : Z) : Prop := exists r, r ∈ rels /\ wants r = s /\ s <> 0 /\ r_sym r = c.

Lemma side_range stop sym src : side_of stop sym src = 0 \/ side_of stop sym src = 1 \/ side_of stop sym src = 2.
Proof.
  unfold hot_text_branch_side. cbv zeta.
  repeat match goal with |- context [if ?b then _ else _] => destruct b end; auto.
Qed.

Lemma wants_range r : wants r = 0 \/ wants r = 1 \/ wants r = 2.
Proof. unfold wants. destruct (_ || _); [by left|apply side_range]. Qed.

Lemma wants_sym r : wants r <> 0 ->
  is_branch (r_type r) = true /\ 0 < r_sym r < Z.of_nat nb /\ side_of be (sym_at t0 (r_sym r)) (r_offset r) = wants r.
Proof.
  unfold wants. destruct (is_branch (r_type r)); cbn [negb orb]; [|done].
  destruct (Z.leb_spec (r_sym r) 0); cbn [orb]; [done|]. destruct (Z.leb_spec (Z.of_nat nb) (r_sym r)); [done|].
  intros _. repeat split; lia.
Qed.

(** ** Counting the veneers *)

Definition seen_has (seen : list Z) (c s : Z) : Prop := int_at seen c &&& s <> 0.

Lemma seen_set seen c s c' s' :
  length seen = nb -> 0 <= c < Z.of_nat nb -> 0 <= c' -> (s = 1 \/ s = 2) -> (s' = 1 \/ s' = 2) ->
  seen_has (set_int seen c (int_at seen c ||| s)) c' s' <-> seen_has seen c' s' \/ (c' = c /\ s' = s).
Proof.
  intros Hl Hc Hc' Hs Hs'. unfold seen_has. destruct (decide (c' = c)) as [->|Hne].
  - assert (E : int_at (set_int seen c (int_at seen c ||| s)) c = (int_at seen c ||| s)).
    { unfold int_at, set_int. rewrite list_lookup_insert_eq by lia. done. }
    rewrite E, Z.land_lor_distr_l. destruct Hs as [->| ->], Hs' as [->| ->].
    + change (Z.land 1 1) with 1. split; [auto|]. intros _ H%Z.lor_eq_0_iff. lia.
    + change (Z.land 1 2) with 0. rewrite Z.lor_0_r. split; [auto|]. intros [|[_ ?]]; [done|lia].
    + change (Z.land 2 1) with 0. rewrite Z.lor_0_r. split; [auto|]. intros [|[_ ?]]; [done|lia].
    + change (Z.land 2 2) with 2. split; [auto|]. intros _ H%Z.lor_eq_0_iff. lia.
  - assert (E : int_at (set_int seen c (int_at seen c ||| s)) c' = int_at seen c').
    { unfold int_at, set_int. rewrite list_lookup_insert_ne by lia. done. }
    rewrite E. split; [auto|]. by intros [|[? _]].
Qed.

Lemma wanted_cons r rels c s :
  wanted (r :: rels) c s <-> (wants r = s /\ s <> 0 /\ r_sym r = c) \/ wanted rels c s.
Proof.
  unfold wanted. split.
  - intros (q & [->|Hq]%elem_of_cons & H); [by left|right; eauto].
  - intros [H|(q & Hq & H)]; [exists r|exists q]; (split; [|done]); apply elem_of_cons; auto.
Qed.

Lemma wanted_dom rels c s : wanted rels c s -> 0 < c < Z.of_nat nb /\ (s = 1 \/ s = 2).
Proof.
  intros (r & _ & <- & Hs & <-). destruct (wants_sym r Hs) as (_ & H & _). split; [done|].
  destruct (wants_range r) as [|]; [lia|done].
Qed.

Lemma count_skip r rels seen :
  (wants r = 0 \/ (wants r <> 0 /\ seen_has seen (r_sym r) (wants r))) ->
  forall n, count_loop text_num start flash_names be t0 (Z.of_nat nb) (r :: rels) seen n =
    count_loop text_num start flash_names be t0 (Z.of_nat nb) rels seen n.
Proof.
  intros H n. cbn [count_loop]. unfold wants, seen_has in H.
  destruct (_ || _ || _); [done|]. destruct H as [-> |[H1 H2]]; [done|].
  unfold truth at 1. rewrite (proj2 (Z.eqb_neq _ _) H1). unfold truth. by rewrite (proj2 (Z.eqb_neq _ _) H2).
Qed.

Lemma count_new r rels seen :
  wants r <> 0 -> ~ seen_has seen (r_sym r) (wants r) ->
  forall n, count_loop text_num start flash_names be t0 (Z.of_nat nb) (r :: rels) seen n =
    count_loop text_num start flash_names be t0 (Z.of_nat nb) rels
      (set_int seen (r_sym r) (int_at seen (r_sym r) ||| wants r)) (n + 1).
Proof.
  intros H1 H2 n. cbn [count_loop]. unfold wants, seen_has in *.
  destruct (_ || _ || _); [done|]. unfold truth at 1. rewrite (proj2 (Z.eqb_neq _ _) H1).
  unfold truth. destruct (Z.eqb_spec (int_at seen (r_sym r) &&& side_of be (sym_at t0 (r_sym r)) (r_offset r)) 0); [done|].
  done.
Qed.

Lemma count_spec rels seen n :
  length seen = nb ->
  exists ks, NoDup ks /\
    count_loop text_num start flash_names be t0 (Z.of_nat nb) rels seen n = n + Z.of_nat (length ks) /\
    forall c s, (c, s) ∈ ks <-> wanted rels c s /\ ~ seen_has seen c s.
Proof.
  revert seen n. induction rels as [|r rels IH]; intros seen n Hl.
  - exists []. split; [constructor|]. split; [cbn; lia|]. intros c s. split; [by intros ?%not_elem_of_nil|].
    intros [(r & Hr & _) _]. by apply not_elem_of_nil in Hr.
  - destruct (decide (wants r = 0)) as [H0|H0].
    { destruct (IH seen n Hl) as (ks & H1 & H2 & H3). exists ks. split; [done|].
      rewrite count_skip by auto. split; [done|]. intros c s. rewrite H3, wanted_cons. intuition congruence. }
    assert (Hd : {seen_has seen (r_sym r) (wants r)} + {~ seen_has seen (r_sym r) (wants r)})
      by (unfold seen_has; destruct (Z.eq_dec (int_at seen (r_sym r) &&& wants r) 0); [right; auto|by left]).
    destruct Hd as [Hs|Hs].
    { destruct (IH seen n Hl) as (ks & H1 & H2 & H3). exists ks. split; [done|].
      rewrite count_skip by auto. split; [done|]. intros c s. rewrite H3, wanted_cons.
      split; [tauto|]. intros [[(<- & _ & <-)|] ?]; [done|tauto]. }
    destruct (wants_sym r H0) as (_ & Hr & _).
    assert (Hw : wants r = 1 \/ wants r = 2) by (destruct (wants_range r); [done|done]).
    destruct (IH (set_int seen (r_sym r) (int_at seen (r_sym r) ||| wants r)) (n + 1)) as (ks & H1 & H2 & H3);
      [unfold set_int; by rewrite length_insert|].
    exists ((r_sym r, wants r) :: ks). split; [|split].
    + constructor; [|done]. rewrite H3. intros [Hx Hn]. apply Hn, seen_set; auto; lia.
    + rewrite count_new, H2 by done. cbn [length]. lia.
    + intros c s. rewrite elem_of_cons, H3, wanted_cons. split.
      * intros [[= -> ->]|[Hx Hn]]; [auto|]. split; [auto|]. intros Hy. apply Hn.
        destruct (wanted_dom rels c s Hx). apply seen_set; auto; lia.
      * intros [[(<- & _ & <-)|Hx] Hn]; [by left|]. destruct (decide ((c, s) = (r_sym r, wants r))); [by left|].
        right. split; [done|]. destruct (wanted_dom rels c s Hx). intros Hy. apply seen_set in Hy; auto; try lia.
        destruct Hy as [|[-> ->]]; done.
Qed.

(** ** The invariant of the pass *)

Hypothesis Hhash : hash_ok t0.
Hypothesis Hfresh : forall n s, s ∈ syms t0 -> st_name s <> veneer_name n.
Hypothesis Hd0 : 0 <= d0.

Definition base : Z := d0 + (d0 &&& 1).
Definition voff (j : nat) : Z := base + 20 * Z.of_nat j.

Definition vsym (j : nat) : Sym :=
  mk_sym (veneer_name (Z.of_nat j)) (voff j ||| 1) HOT_VENEER_SIZE STB_GLOBAL STT_FUNC STV_HIDDEN text_num.

(** The size of [.text] with [n] veneers. *)
Definition text_size (n : nat) : Z := match n with O => d0 | S _ => voff n end.

Definition handled (side : Z) (k i : nat) (r : Rel) : Prop :=
  wants r <> 0 /\ (wants r < side \/ (wants r = side /\ (i < k)%nat)).

(** Relocation [i] was [r] and is [q]: handled ones point at their veneer. *)
Definition rel_now (vs : list (Z * Z)) (side : Z) (k i : nat) (r q : Rel) : Prop :=
  (handled side k i r -> exists j, vs !! j = Some (r_sym r, wants r) /\
     q = mk_rel (r_offset r) (Z.of_nat nb + Z.of_nat j) (r_type r)) /\
  (~ handled side k i r -> q = r).

(** [veneer_of] in the round of [side]. *)
Definition veneers_of (vs : list (Z * Z)) (side : Z) (vof : list Z) : Prop :=
  length vof = nb /\ forall c, 0 < c < Z.of_nat nb ->
    (int_at vof c = 0 /\ (c, side) ∉ vs) \/
    exists j, vs !! j = Some (c, side) /\ int_at vof c = Z.of_nat nb + Z.of_nat j.

Record pass_inv (old : list (Z * Z)) (stop side : Z) (k : nat) (vs : list (Z * Z)) (st : HotPass) : Prop := mk_pass_inv {
  pi_hash : hash_ok (hp_syms st);
  pi_syms : syms (hp_syms st) = syms t0 ++ (vsym <$> seq 0 (length vs));
  pi_n : n_veneers st = Z.of_nat (length vs);
  pi_size : data_offset (hp_text st) = text_size (length vs);
  pi_len : length (hp_rels st) = (nbr + length vs)%nat;
  pi_rel : forall i r, rels0 !! i = Some r -> exists q, hp_rels st !! i = Some q /\ rel_now vs side k i r q;
  pi_new : forall j c s, vs !! j = Some (c, s) ->
    hp_rels st !! (nbr + j)%nat = Some (mk_rel (voff j) c R_ARM_YASOS_HOT_VENEER);
  pi_of : veneers_of vs side (veneer_of st);
  pi_nodup : NoDup vs;
  pi_wanted : forall c s, (c, s) ∈ vs -> wanted rels0 c s;
  pi_old : exists new, vs = old ++ new /\ Forall (fun v => v.2 = side) new;
  pi_end : hp_end st = stop
}.

Lemma base_even : (base &&& 1) = 0.
Proof.
  unfold base. rewrite (Z.land_ones _ 1) by lia. change (2 ^ 1) with 2.
  pose proof (Z.land_ones d0 1 ltac:(lia)) as H. change (Z.ones 1) with 1 in H. change (2 ^ 1) with 2 in H.
  rewrite H. rewrite Zplus_mod_idemp_r. replace (d0 + d0) with (d0 * 2) by lia. apply Z_mod_mult.
Qed.

Lemma text_size_align n : text_size n + (text_size n &&& 1) = voff n.
Proof.
  destruct n as [|n]; [unfold voff, base; cbn [text_size]; lia|]. cbn [text_size].
  assert (H : (voff (S n) &&& 1) = 0); [|lia].
  pose proof base_even as Hb. change 1 with (Z.ones 1) in *. rewrite Z.land_ones in * by lia.
  unfold voff. rewrite Z.add_mod, Hb by lia. replace (20 * Z.of_nat (S n)) with (10 * Z.of_nat (S n) * 2 ^ 1) by lia.
  by rewrite Z_mod_mult.
Qed.

Lemma fresh_name vs st old stop side k i s :
  pass_inv old stop side k vs st -> syms (hp_syms st) !! i = Some s -> st_name s <> veneer_name (Z.of_nat (length vs)).
Proof using Hfresh.
  intros I Hs. rewrite (pi_syms _ _ _ _ _ _ I) in Hs. apply lookup_app_Some in Hs as [Hs|[_ Hs]].
  - apply Hfresh. by eapply list_elem_of_lookup_2.
  - apply list_lookup_fmap_Some in Hs as (j & -> & Hj). apply lookup_seq in Hj as [-> Hj].
    cbn [vsym st_name]. intros H%veneer_name_inj. lia.
Qed.

Lemma sym_at_old vs st old stop side k c :
  pass_inv old stop side k vs st -> 0 < c < Z.of_nat nb -> sym_at (hp_syms st) c = sym_at t0 c.
Proof. intros I Hc. unfold sym_at. by rewrite (pi_syms _ _ _ _ _ _ I), lookup_app_l by lia. Qed.

Lemma seq_snoc n : seq 0 (S n) = seq 0 n ++ [n].
Proof. by rewrite seq_S. Qed.

Lemma veneers_of_add vs side vof c :
  veneers_of vs side vof -> 0 < c < Z.of_nat nb ->
  veneers_of (vs ++ [(c, side)]) side (set_int vof c (Z.of_nat nb + Z.of_nat (length vs))).
Proof.
  intros [Hl Hof] Hc. split; [unfold set_int; by rewrite length_insert|].
  intros c' Hc'. destruct (decide (c' = c)) as [->|Hne].
  - right. exists (length vs). split; [by apply list_lookup_middle|]. unfold int_at, set_int.
    by rewrite list_lookup_insert_eq by lia.
  - assert (E : int_at (set_int vof c (Z.of_nat nb + Z.of_nat (length vs))) c' = int_at vof c')
      by (unfold int_at, set_int; by rewrite list_lookup_insert_ne by lia).
    rewrite E. destruct (Hof c' Hc') as [[H1 H2]|(j & Hj & H2)].
    + left. split; [done|]. rewrite elem_of_app, list_elem_of_singleton. intros [|[= ?]]; done.
    + right. exists j. split; [by apply lookup_app_l_Some|done].
Qed.

(** A veneer for a callee that has none on this side. *)
Lemma add_veneer_inv vs st old stop side k c :
  pass_inv old stop side k vs st -> wanted rels0 c side -> (c, side) ∉ vs ->
  pass_inv old stop side k (vs ++ [(c, side)]) (add_veneer bss_num text_num st c).
Proof using Hfresh Hd0.
  intros I Hw Hnin. destruct (wanted_dom _ _ _ Hw) as [Hc _].
  unfold add_veneer, section_ptr_add. cbn [fst data_offset sec_data sh_addr sh_num sh_size]. cbv zeta.
  rewrite (pi_size _ _ _ _ _ _ I), text_size_align, (pi_n _ _ _ _ _ _ I).
  destruct (set_elf_sym_fresh bss_num (hp_syms st) (voff (length vs) ||| 1) HOT_VENEER_SIZE STB_GLOBAL STT_FUNC STV_HIDDEN
    text_num (veneer_name (Z.of_nat (length vs)))) as (t' & -> & Hh & Hs);
    [apply I|done|done|intros i s Hi _; by eapply fresh_name|].
  assert (Hls : length (syms (hp_syms st)) = (nb + length vs)%nat)
    by (by rewrite (pi_syms _ _ _ _ _ _ I), length_app, length_fmap, length_seq).
  assert (Hput : put_elf_reloc (hp_syms st) (hp_rels st) (voff (length vs)) R_ARM_YASOS_HOT_VENEER c =
    hp_rels st ++ [mk_rel (voff (length vs)) c R_ARM_YASOS_HOT_VENEER]).
  { unfold put_elf_reloc. rewrite (proj2 (Z.ltb_ge _ _)) by lia. by rewrite (proj2 (Z.leb_gt _ _)) by lia. }
  rewrite Hput. pose proof (pi_len _ _ _ _ _ _ I) as Hlen.
  assert (Hlv : length (vs ++ [(c, side)]) = S (length vs)) by (rewrite length_app; cbn; lia).
  constructor; cbn [hp_syms hp_text hp_rels n_veneers veneer_of hp_end data_offset]; rewrite ?Hlv.
  - done.
  - by rewrite Hs, (pi_syms _ _ _ _ _ _ I), seq_snoc, fmap_app, app_assoc.
  - lia.
  - unfold text_size, voff, HOT_VENEER_SIZE. lia.
  - rewrite length_app. cbn. lia.
  - intros i r Hr. destruct (pi_rel _ _ _ _ _ _ I i r Hr) as (q & Hq & H1 & H2). exists q.
    split; [by apply lookup_app_l_Some|]. split; [|done]. intros H. destruct (H1 H) as (j & Hj & ->).
    exists j. split; [by apply lookup_app_l_Some|done].
  - intros j c' s' Hj. apply lookup_app_Some in Hj as [Hj|[Hge Hj]].
    + apply lookup_app_l_Some. by apply (pi_new _ _ _ _ _ _ I j c' s').
    + apply list_lookup_singleton_Some in Hj as [Hz [= <- <-]]. replace j with (length vs) by lia.
      rewrite lookup_app_r by lia. by rewrite Hlen, Nat.sub_diag.
  - rewrite Hls, Nat2Z.inj_add. apply veneers_of_add; [apply I|lia].
  - apply NoDup_app. split; [apply I|]. split; [|apply NoDup_singleton].
    intros x Hx ->%list_elem_of_singleton. done.
  - intros c' s' [H|H%list_elem_of_singleton]%elem_of_app; [by apply (pi_wanted _ _ _ _ _ _ I)|]. by injection H as -> ->.
  - destruct (pi_old _ _ _ _ _ _ I) as (new & -> & Hf). exists (new ++ [(c, side)]). split; [by rewrite app_assoc|].
    apply Forall_app. split; [done|]. by constructor.
  - apply I.
Qed.

(** A round that goes past a relocation it leaves alone. *)
Lemma skip_inv vs st st' old stop side k :
  pass_inv old stop side k vs st -> (forall r, rels0 !! k = Some r -> wants r <> side \/ side = 0) ->
  hp_syms st' = hp_syms st -> n_veneers st' = n_veneers st -> hp_text st' = hp_text st -> hp_rels st' = hp_rels st ->
  veneer_of st' = veneer_of st -> hp_end st' = hp_end st ->
  pass_inv old stop side (S k) vs st'.
Proof.
  intros [I1 I2 I3 I4 I5 I6 I7 I8 I9 I10 I11 I12] Hk E1 E2 E3 E4 E5 E6.
  constructor; rewrite ?E1, ?E2, ?E3, ?E4, ?E5, ?E6; try done.
  intros i r Hr. destruct (I6 i r Hr) as (q & Hq & H1 & H2). exists q. split; [done|].
  assert (Hh : handled side (S k) i r <-> handled side k i r).
  { unfold handled. split; intros (G0 & G); (split; [done|]); destruct G as [G|[G1 G2]]; [by left| |by left|right; lia].
    destruct (decide (i = k)) as [->|]; [|right; lia]. destruct (Hk r Hr); [done|lia]. }
  split; rewrite Hh; done.
Qed.

(** Retargeting relocation [k] at its veneer [j]. *)
Lemma retarget_inv vs st old stop side k r :
  pass_inv old stop side k vs st -> rels0 !! k = Some r -> wants r = side -> side <> 0 -> (r_sym r, side) ∈ vs ->
  pass_inv old stop side (S k) vs (retarget st k (r_sym r) (r_type r)).
Proof.
  intros I Hk Hw Hs Hin. pose proof (lookup_lt_Some _ _ _ Hk) as Hlt.
  destruct (pi_rel _ _ _ _ _ _ I k r Hk) as (q0 & Hq0 & _ & Hun).
  assert (E0 : q0 = r) by (apply Hun; unfold handled; lia). subst q0.
  destruct (wants_sym r ltac:(lia)) as (_ & Hsym & _). destruct (pi_of _ _ _ _ _ _ I) as [_ Hof].
  destruct (Hof (r_sym r) Hsym) as [[_ H]|(j & Hj & Hv)]; [done|].
  unfold retarget. rewrite Hq0, Hv. change (default ?x (Some r)) with r.
  pose proof (pi_len _ _ _ _ _ _ I) as Hlen.
  destruct I as [I1 I2 I3 I4 I5 I6 I7 I8 I9 I10 I11 I12].
  constructor; cbn [hp_syms hp_text hp_rels n_veneers veneer_of hp_end]; try done; [by rewrite length_insert| |].
  - intros i x Hx. destruct (decide (i = k)) as [->|Hne].
    + rewrite Hk in Hx. injection Hx as <-. exists (mk_rel (r_offset r) (Z.of_nat nb + Z.of_nat j) (r_type r)).
      split; [by rewrite list_lookup_insert_eq by lia|]. split; [|intros []; unfold handled; lia].
      intros _. exists j. by rewrite Hw.
    + rewrite list_lookup_insert_ne by done. destruct (I6 i x Hx) as (q & Hq & H1 & H2). exists q. split; [done|].
      assert (Hh : handled side (S k) i x <-> handled side k i x) by (unfold handled; intuition lia).
      split; rewrite Hh; done.
  - intros j' c s Hj'. rewrite list_lookup_insert_ne by lia. by apply I7 with s.
Qed.

Lemma hot_step_inv vs st old stop side k :
  pass_inv old stop side k vs st -> (k < nbr)%nat -> side = 1 \/ side = 2 ->
  exists vs', pass_inv old stop side (S k) vs'
    (hot_step bss_num text_num start flash_names be (Z.of_nat nb) side st k).
Proof using Hfresh Hd0.
  intros I Hk Hs. destruct (lookup_lt_is_Some_2 rels0 k Hk) as [r Hr].
  destruct (pi_rel _ _ _ _ _ _ I k r Hr) as (q & Hq & H1 & H2).
  unfold hot_step. rewrite Hq. change (default ?x (Some q)) with q. cbv zeta.
  destruct (decide (wants r <> 0 /\ wants r < side)) as [Hh|Hh].
  { destruct H1 as (j & _ & ->); [unfold handled; tauto|]. cbn [r_sym].
    rewrite (proj2 (Z.leb_le (Z.of_nat nb) _)), orb_true_r by lia. exists vs. apply (skip_inv vs st); try done.
    intros x Hx. rewrite Hr in Hx. injection Hx as <-. lia. }
  assert (E : q = r) by (apply H2; unfold handled; lia). subst q. clear H1 H2.
  destruct (decide (wants r = side)) as [Hw|Hw].
  - destruct (wants_sym r ltac:(lia)) as (Hb & Hsym & Hside).
    rewrite (proj2 (Z.leb_gt _ _)), (proj2 (Z.leb_gt (Z.of_nat nb) _)) by lia. cbn [orb]. rewrite Hb. cbn [negb].
    rewrite (sym_at_old vs st old stop side k) by done. rewrite Hside, Hw, Z.eqb_refl. cbn [negb].
    assert (Hwd : wanted rels0 (r_sym r) side)
      by (exists r; split; [by eapply list_elem_of_lookup_2|split; [done|split; [lia|done]]]).
    destruct (pi_of _ _ _ _ _ _ I) as [_ Hof]. destruct (Hof (r_sym r) Hsym) as [[-> Hn]|(j & Hj & Hv)].
    + exists (vs ++ [(r_sym r, side)]). cbn [Z.eqb]. apply retarget_inv; try done; [by apply add_veneer_inv|lia|].
      apply elem_of_app. right. by apply list_elem_of_singleton.
    + rewrite Hv. rewrite (proj2 (Z.eqb_neq _ _)) by lia. exists vs. apply retarget_inv; try done; [lia|].
      by eapply list_elem_of_lookup_2.
  - assert (Hsk : forall st', hp_syms st' = hp_syms st -> n_veneers st' = n_veneers st -> hp_text st' = hp_text st ->
      hp_rels st' = hp_rels st -> veneer_of st' = veneer_of st -> hp_end st' = hp_end st ->
      exists vs', pass_inv old stop side (S k) vs' st').
    { intros st' *. exists vs. apply (skip_inv vs st); try done. intros x Hx. rewrite Hr in Hx. injection Hx as <-. auto. }
    unfold wants in Hw. destruct (Z.leb (r_sym r) 0) eqn:Ha; cbn [orb]; [by apply Hsk|].
    destruct (Z.leb (Z.of_nat nb) (r_sym r)) eqn:Hc; [by apply Hsk|]. cbn [orb] in Hw. rewrite !orb_false_r in Hw.
    destruct (is_branch (r_type r)); cbn [negb] in *; [|destruct (_ && _ && _ && _); by apply Hsk].
    rewrite (sym_at_old vs st old stop side k) by (done || lia).
    rewrite (proj2 (Z.eqb_neq _ _) Hw). by apply Hsk.
Qed.

Lemma hot_loop_inv old stop side n vs st :
  pass_inv old stop side 0 vs st -> (n <= nbr)%nat -> side = 1 \/ side = 2 ->
  exists vs', pass_inv old stop side n vs'
    (fold_left (hot_step bss_num text_num start flash_names be (Z.of_nat nb) side) (seq 0 n) st).
Proof using Hfresh Hd0.
  intros I Hn Hs. induction n as [|n IH]; [by exists vs|]. destruct IH as [vs' I']; [lia|].
  rewrite seq_snoc, fold_left_app. cbn [fold_left]. by eapply hot_step_inv.
Qed.

Lemma veneers_none vs side : Forall (fun v => v.2 <> side) vs -> veneers_of vs side (replicate nb 0).
Proof.
  intros Hf. split; [apply length_replicate|]. intros c Hc. left. split.
  - unfold int_at. rewrite lookup_replicate_2 by lia. done.
  - intros Hin. rewrite Forall_forall in Hf. by apply (Hf _ Hin).
Qed.

(** The state the pass starts from. *)
Definition starts (st : HotPass) : Prop :=
  hp_syms st = t0 /\ hp_rels st = rels0 /\ hp_end st = be /\ data_offset (hp_text st) = d0.

Lemma round1_inv st :
  starts st -> n_veneers st = 0 ->
  exists vs, pass_inv [] (text_size (length vs)) 1 nbr vs (hot_round bss_num text_num start flash_names be nbr nb 1 st).
Proof using Hhash Hfresh Hd0.
  intros (E1 & E2 & E3 & E4) En. unfold hot_round. cbv zeta.
  set (st1 := mk_hp (hp_mem st) _ _ _ _ _ _ (replicate nb 0)). destruct (hot_loop_inv [] be 1 nbr [] st1) as [vs I]; [|lia|auto|].
  - apply mk_pass_inv; unfold st1; cbn [hp_syms hp_text hp_rels n_veneers veneer_of hp_end data_offset length seq fmap list_fmap];
      rewrite ?E1, ?E2, ?E4; try done.
    + by rewrite app_nil_r.
    + intros i r Hr. exists r. split; [done|]. split; [|done]. intros [H0 [H|[_ H]]]; [|lia].
      pose proof (wants_range r). lia.
    + apply veneers_none. constructor.
    + constructor.
    + by intros c s ?%not_elem_of_nil.
    + exists []. split; [done|constructor].
  - exists vs. cbn [Z.eqb Pos.eqb]. destruct I as [I1 I2 I3 I4 I5 I6 I7 I8 I9 I10 I11 I12]. by constructor.
Qed.

Lemma round2_inv vs st :
  pass_inv [] (text_size (length vs)) 1 nbr vs st ->
  exists vs', pass_inv vs (text_size (length vs)) 2 nbr vs' (hot_round bss_num text_num start flash_names be nbr nb 2 st).
Proof using Hfresh Hd0.
  intros [I1 I2 I3 I4 I5 I6 I7 I8 I9 I10 I11 I12]. unfold hot_round. cbv zeta. cbn [Z.eqb Pos.eqb].
  destruct I11 as (new & -> & Hf). cbn [app] in *. apply (hot_loop_inv _ _ 2 nbr new); [|lia|auto].
  apply mk_pass_inv; try done.
  - intros i r Hr. destruct (I6 i r Hr) as (q & Hq & H1 & H2). exists q. split; [done|].
    pose proof (lookup_lt_Some _ _ _ Hr) as Hi. pose proof (wants_range r) as Hw.
    assert (Hh : handled 2 0 i r <-> handled 1 nbr i r) by (unfold handled; destruct Hw as [|[|]]; intuition lia). split; rewrite Hh; done.
  - apply veneers_none. eapply Forall_impl; [apply Hf|]. cbv beta. intros v ->. discriminate.
  - exists []. split; [by rewrite app_nil_r|constructor].
Qed.

(** What the pass leaves: the veneers of the block first, then those of the rest, one
    for every callee and side that needs one. *)
Lemma pass_result st :
  starts st -> be <> 0 ->
  exists vs1 vs2, let st' := arm_add_hot_text_veneers bss_num text_num start flash_names st in
    pass_inv vs1 (text_size (length vs1)) 2 nbr (vs1 ++ vs2) st' /\
    Forall (fun v => v.2 = 1) vs1 /\ Forall (fun v => v.2 = 2) vs2 /\
    forall c s, (c, s) ∈ vs1 ++ vs2 <-> wanted rels0 c s.
Proof using Hhash Hfresh Hd0.
  intros Hst Hbe. unfold arm_add_hot_text_veneers. pose proof Hst as (E1 & E2 & E3 & E4).
  rewrite E3, (proj2 (Z.eqb_neq _ _) Hbe), E1, E2. cbv zeta.
  set (st0 := mk_hp (hp_mem st) _ _ _ _ _ 0 (veneer_of st)). destruct (round1_inv st0) as [vs1 I1]; [by unfold st0, starts; cbn|done|].
  pose proof (pi_old _ _ _ _ _ _ I1) as (new & -> & Hf1). cbn [app] in *.
  destruct (round2_inv new _ I1) as [vs I2]. pose proof (pi_old _ _ _ _ _ _ I2) as (vs2 & -> & Hf2).
  exists new, vs2. split; [done|]. split; [done|]. split; [done|]. intros c s. split; [apply (pi_wanted _ _ _ _ _ _ I2)|].
  intros (r & Hr & <- & Hs & <-). apply list_elem_of_lookup in Hr as [i Hi].
  destruct (pi_rel _ _ _ _ _ _ I2 i r Hi) as (q & _ & H1 & _). pose proof (lookup_lt_Some _ _ _ Hi).
  pose proof (wants_range r). destruct H1 as (j & Hj & _); [unfold handled; lia|]. by eapply list_elem_of_lookup_2.
Qed.
End Pass.

(** ** What the pass guarantees *)

Section Guarantee.
Context (bss_num text_num start : Z) (flash_names : list (list Z)) (st : HotPass).

(** The block is the end of [.text]: relocations and symbols of the section lie before
    its end; no symbol has a veneer's name; the veneers fit 32-bit offsets. *)
Record hot_input : Prop := mk_hot_input {
  hi_hash : hash_ok (hp_syms st);
  hi_fresh : forall n s, s ∈ syms (hp_syms st) -> st_name s <> veneer_name n;
  hi_start : 0 <= start <= hp_end st;
  hi_end : hp_end st <= data_offset (hp_text st);
  hi_text : text_num <> SHN_UNDEF;
  hi_rels : forall r, r ∈ hp_rels st -> r_offset r < hp_end st;
  hi_syms : forall s, s ∈ syms (hp_syms st) -> st_shndx s = text_num -> (st_value s &&& (~~~ 1)) < hp_end st;
  hi_room : data_offset (hp_text st) + 20 * (Z.of_nat (length (hp_rels st)) + 1) < 2 ^ 32
}.

Hypothesis Hin : hot_input.
Notation d0 := (data_offset (hp_text st)).
Notation st' := (arm_add_hot_text_veneers bss_num text_num start flash_names st).
Notation side_of := (hot_text_branch_side text_num start flash_names).

Lemma d0_nonneg : 0 <= d0.
Proof. destruct Hin as [_ _ H1 H2 _ _ _ _]. lia. Qed.

Lemma base_bounds : d0 <= base d0 <= d0 + 1.
Proof.
  assert (H : (d0 &&& 1) = d0 mod 2) by (apply (Z.land_ones d0 1); lia).
  unfold base. rewrite H. pose proof (Z.mod_pos_bound d0 2 ltac:(lia)). lia.
Qed.

Lemma veneer_value n : voff d0 n < 2 ^ 32 -> ((voff d0 n ||| 1) &&& (~~~ 1)) = voff d0 n.
Proof.
  intros Hlt. pose proof d0_nonneg. pose proof base_bounds.
  pose proof (text_size_align d0 (S n)) as Ha. cbn [text_size] in Ha.
  assert (He : (voff d0 n &&& 1) = 0).
  { pose proof (text_size_align d0 n) as Hb. destruct n as [|n].
    - unfold voff. rewrite Z.mul_0_r, Z.add_0_r. apply base_even.
    - cbn [text_size] in Hb. lia. }
  assert (Hb : 0 <= voff d0 n < 2 ^ 32) by (unfold voff in *; lia).
  set (v := voff d0 n) in *. clearbody v. clear - He Hb.
  change (~~~ 1) with 0xfffffffe. rewrite Z.land_lor_distr_l. change (Z.land 1 0xfffffffe) with 0. rewrite Z.lor_0_r.
  apply Z.bits_inj'. intros i Hi. rewrite Z.land_spec. destruct (Z.eq_dec i 0) as [->|Hn].
  - rewrite andb_false_r. apply (f_equal (fun z => Z.testbit z 0)) in He. rewrite Z.land_spec, Z.bits_0 in He.
    change (Z.testbit 1 0) with true in He. by rewrite andb_true_r in He.
  - destruct (Z_lt_dec i 32).
    + change 0xfffffffe with (Z.ldiff (Z.ones 32) 1). rewrite Z.ldiff_spec, Z.ones_spec_low by lia.
      change 1 with (2 ^ 0). rewrite Z.pow2_bits_false by lia. by rewrite andb_true_r.
    + rewrite <-(Z.mod_small v (2 ^ 32)) by lia. by rewrite Z.mod_pow2_bits_high by lia.
Qed.

Lemma same_block stop a : hp_end st <= stop -> a < hp_end st -> in_block start stop a = in_block start (hp_end st) a.
Proof.
  intros H1 H2. unfold in_block. f_equal. rewrite (proj2 (Z.ltb_lt a stop)), (proj2 (Z.ltb_lt a (hp_end st))) by lia. done.
Qed.

Lemma side_src stop sym off :
  (side_of stop sym off = 1 -> in_block start stop off = true) /\ (side_of stop sym off = 2 -> in_block start stop off = false).
Proof.
  unfold hot_text_branch_side. cbv zeta. destruct (in_block start stop off);
    repeat match goal with |- context [if ?b then _ else _] => destruct b end; split; (done || lia).
Qed.

Notation wants0 := (wants text_num start flash_names (hp_syms st) (hp_end st)).
Notation wanted0 := (wanted text_num start flash_names (hp_syms st) (hp_end st) (hp_rels st)).

Lemma wanted_length (vs : list (Z * Z)) :
  NoDup vs -> (forall c s, (c, s) ∈ vs -> wanted0 c s) -> (length vs <= length (hp_rels st))%nat.
Proof.
  intros Hn Hw. rewrite <-(length_fmap (fun r => (r_sym r, wants0 r))).
  apply submseteq_length, NoDup_submseteq; [done|]. intros [c s] Hc.
  destruct (Hw c s Hc) as (r & Hr & <- & _ & <-). apply list_elem_of_fmap. by exists r.
Qed.

Lemma veneer_fits (vs : list (Z * Z)) j :
  NoDup vs -> (forall c s, (c, s) ∈ vs -> wanted0 c s) -> (j <= length vs)%nat -> voff d0 j < 2 ^ 32.
Proof.
  intros Hn Hw Hj. pose proof (wanted_length vs Hn Hw). pose proof base_bounds. pose proof (hi_room Hin).
  unfold voff. lia.
Qed.

(** The veneers of the block are inside it, the others behind it. *)
Lemma veneer_block (vs1 vs2 : list (Z * Z)) j c s :
  Forall (fun v => v.2 = 1) vs1 -> Forall (fun v => v.2 = 2) vs2 -> (vs1 ++ vs2) !! j = Some (c, s) ->
  in_block start (text_size d0 (length vs1)) (voff d0 j) = Z.eqb s 1.
Proof.
  intros H1 H2 Hj. pose proof base_bounds. destruct Hin as [_ _ G1 G2 _ _ _ _]. unfold in_block.
  rewrite (proj2 (Z.leb_le start (voff d0 j))) by (unfold voff; lia). cbn [andb].
  apply lookup_app_Some in Hj as [Hj|[Hge Hj]].
  - pose proof (lookup_lt_Some _ _ _ Hj). eapply Forall_lookup_1 in H1; [|done]. cbn in H1. subst s.
    apply Z.ltb_lt. destruct vs1; [done|]. cbn [length text_size]. unfold voff. cbn [length] in *. lia.
  - eapply Forall_lookup_1 in H2; [|done]. cbn in H2. subst s. cbn [Z.eqb Pos.eqb]. apply Z.ltb_ge.
    destruct vs1; cbn [length text_size] in *; unfold voff; lia.
Qed.

Lemma end_grows n : hp_end st <= text_size d0 n.
Proof.
  pose proof base_bounds. destruct Hin as [_ _ G1 G2 _ _ _ _]. destruct n; cbn [text_size]; unfold voff; lia.
Qed.

Section Result.
Context (vs1 vs2 : list (Z * Z)).
Hypothesis I : pass_inv text_num start flash_names (hp_syms st) (hp_rels st) (hp_end st) d0 vs1
  (text_size d0 (length vs1)) 2 (length (hp_rels st)) (vs1 ++ vs2) st'.
Hypothesis F1 : Forall (fun v => v.2 = 1) vs1.
Hypothesis F2 : Forall (fun v => v.2 = 2) vs2.

Lemma veneer_at j x : (vs1 ++ vs2) !! j = Some x ->
  sym_at (hp_syms st') (Z.of_nat (length (syms (hp_syms st))) + Z.of_nat j) = vsym text_num d0 j /\ voff d0 j < 2 ^ 32.
Proof using Hin I.
  intros Hj%lookup_lt_Some. split.
  - unfold sym_at. rewrite (pi_syms _ _ _ _ _ _ _ _ _ _ _ _ _ I), lookup_app_r by lia.
    replace (_ - _)%nat with j by lia. by rewrite list_lookup_fmap, lookup_seq_lt.
  - eapply (veneer_fits (vs1 ++ vs2)); [apply I|apply I|lia].
Qed.

Lemma veneer_side j r :
  (vs1 ++ vs2) !! j = Some (r_sym r, wants0 r) -> wants0 r <> 0 -> r_offset r < hp_end st ->
  in_block start (text_size d0 (length vs1)) (r_offset r) = in_block start (text_size d0 (length vs1)) (voff d0 j).
Proof using Hin I F1 F2.
  intros Hj Hw Hoff. destruct (veneer_at j _ Hj) as [_ Hv].
  rewrite (veneer_block vs1 vs2 j _ _ F1 F2 Hj), same_block by (done || apply end_grows).
  destruct (wants_sym _ _ _ _ _ _ Hw) as (_ & _ & Ew).
  destruct (side_src (hp_end st) (sym_at (hp_syms st) (r_sym r)) (r_offset r)) as [S1 S2]. rewrite Ew in S1, S2.
  destruct (wants_range text_num start flash_names (hp_syms st) (hp_end st) r) as [|[Ex|Ex]]; [done| |];
    rewrite Ex in *; [by apply S1|by apply S2].
Qed.
End Result.

Lemma pass_result_st :
  hp_end st <> 0 ->
  exists vs1 vs2, pass_inv text_num start flash_names (hp_syms st) (hp_rels st) (hp_end st) d0 vs1
    (text_size d0 (length vs1)) 2 (length (hp_rels st)) (vs1 ++ vs2) st' /\
    Forall (fun v => v.2 = 1) vs1 /\ Forall (fun v => v.2 = 2) vs2 /\ forall c s, (c, s) ∈ vs1 ++ vs2 <-> wanted0 c s.
Proof.
  intros Hne. apply (pass_result bss_num text_num start flash_names (hp_syms st) (hp_rels st) (hp_end st) d0
    (hi_hash Hin) (hi_fresh Hin) d0_nonneg st); done.
Qed.
End Guarantee.

(** ** When a branch may stay *)

(** The standard of comparison, in terms of the addresses: [hot] is the block as an
    interval, and a branch may keep its target when one of the following holds. *)
Definition hot (start stop a : Z) : Prop := start <= a < stop.

(** The address a function symbol stands for, without the Thumb bit. *)
Definition callee_address (s : Sym) : Z := st_value s &&& (~~~ 1).

Inductive may_stay (text_num start stop : Z) (flash_names : list (list Z)) (callee : Sym) (src : Z) : Prop :=
| stay_weak : st_shndx callee = SHN_UNDEF -> st_bind callee = STB_WEAK -> may_stay text_num start stop flash_names callee src
| stay_outside : st_shndx callee <> text_num -> ~ hot start stop src -> may_stay text_num start stop flash_names callee src
| stay_same : st_shndx callee = text_num -> (hot start stop src <-> hot start stop (callee_address callee)) ->
    may_stay text_num start stop flash_names callee src
| stay_flash : st_shndx callee = text_num -> ~ hot start stop src -> name_bytes (st_name callee) ∈ flash_names ->
    may_stay text_num start stop flash_names callee src.

Lemma in_block_hot start stop a : in_block start stop a = true <-> hot start stop a.
Proof. unfold in_block, hot. rewrite andb_true_iff. lia. Qed.

Lemma same_side start stop a b : in_block start stop a = in_block start stop b <-> (hot start stop a <-> hot start stop b).
Proof. rewrite <-!in_block_hot. destruct (in_block start stop a), (in_block start stop b); intuition congruence. Qed.

(** The list of flash names is sorted, as the search expects. *)
Definition flash_list (flash_names : list (list Z)) : Prop :=
  Sorted.StronglySorted (fun a b => strcmp a b <= 0) flash_names /\ Forall cstr flash_names.

Lemma branch_side_spec text_num start stop flash_names sym src :
  flash_list flash_names -> cstr (name_bytes (st_name sym)) -> text_num <> SHN_UNDEF ->
  hot_text_branch_side text_num start flash_names stop sym src = 0 <-> may_stay text_num start stop flash_names sym src.
Proof.
  intros [Hf Hc] Hn Ht. unfold hot_text_branch_side. cbv zeta.
  assert (Hs : in_block start stop src = false <-> ~ hot start stop src) by (rewrite <-in_block_hot; destruct (in_block _ _ src); intuition congruence).
  destruct (Z.eqb_spec (st_shndx sym) SHN_UNDEF) as [Hu|Hu]; [destruct (Z.eqb_spec (st_bind sym) STB_WEAK) as [Hw|Hw]|]; cbn [andb].
  { split; [intros _; by apply stay_weak|done]. }
  all: destruct (Z.eqb_spec (st_shndx sym) text_num) as [Hx|Hx]; cbn [negb]; try congruence.
  1, 3: destruct (in_block start stop src); [split; [done|]; intros [? ?|? G|? ?|? ?]; [congruence|by apply Hs in G|congruence..]
    |split; [intros _; apply stay_outside; [done|by apply Hs]|done]].
  fold (callee_address sym). destruct (Bool.eqb (in_block start stop src) (in_block start stop (callee_address sym))) eqn:E.
  { apply eqb_prop, same_side in E. split; [intros _; by apply stay_same|done]. }
  apply eqb_false_iff in E. rewrite same_side in E.
  assert (Hl : negb (Nat.eqb (length flash_names) 0) && tcc_name_list_has flash_names (name_bytes (st_name sym)) = true <-> name_bytes (st_name sym) ∈ flash_names).
  { rewrite <-(tcc_name_list_has_spec flash_names (name_bytes (st_name sym))) by done.
    destruct flash_names; [|done]. done. }
  rewrite <-andb_assoc. destruct (in_block start stop src); cbn [negb andb].
  - split; [done|]. intros [? ?|? ?|? ?|? G]; [congruence|congruence|tauto|by apply Hs in G].
  - destruct (_ && _); [split; [intros _; apply stay_flash; [done|by apply Hs|by apply Hl]|done]|].
    split; [done|]. intros [? ?|? ?|? ?|? ? G]; [congruence|congruence|tauto|by apply Hl in G].
Qed.

(** Without a block every branch may stay. *)
Lemma empty_stays text_num start flash_names sym src : 0 <= start -> may_stay text_num start 0 flash_names sym src.
Proof.
  intros Hs. assert (forall a, ~ hot start 0 a) as Hno by (unfold hot; lia).
  destruct (Z.eq_dec (st_shndx sym) text_num); [apply stay_same|apply stay_outside]; auto. split; intros H; by apply Hno in H.
Qed.

(** C2: the veneers for the hot block, which the loader may run far from the rest of
    [.text]. A branch (BL or B.W) may keep its target when the callee is weak and undefined,
    when it is not in [.text] and the caller is outside the block, when caller and callee
    are on the same side, or when the caller is outside the block and the callee is one of
    the functions listed to run their flash copy. The pass keeps the place and kind of every
    branch; one that may stay keeps its target, and every other one gets a target in [.text]
    on its own side of the block's new end, where a veneer relocation names the original
    callee; no caller changes sides. The list of flash names is sorted and made of C
    strings, as the search relies on; the block is the end of [.text], so that places and
    symbols of the section lie before its end, no symbol has the name of a veneer, and the
    veneers fit 32-bit offsets. *)
Theorem hot_text_no_crossing bss_num text_num start flash_names st i r :
  hot_input text_num start st -> flash_list flash_names -> hp_rels st !! i = Some r -> is_branch (r_type r) = true ->
  0 < r_sym r < Z.of_nat (length (syms (hp_syms st))) ->
  let callee := sym_at (hp_syms st) (r_sym r) in
  cstr (name_bytes (st_name callee)) ->
  let st' := arm_add_hot_text_veneers bss_num text_num start flash_names st in
  let stays := may_stay text_num start (hp_end st) flash_names callee (r_offset r) in
  exists q, hp_rels st' !! i = Some q /\ r_offset q = r_offset r /\ r_type q = r_type r /\
    (hot start (hp_end st') (r_offset r) <-> hot start (hp_end st) (r_offset r)) /\
    let target := sym_at (hp_syms st') (r_sym q) in
    (stays -> q = r /\ target = callee) /\
    (~ stays -> st_shndx target = text_num /\
       (hot start (hp_end st') (r_offset r) <-> hot start (hp_end st') (callee_address target)) /\
       mk_rel (callee_address target) (r_sym r) R_ARM_YASOS_HOT_VENEER ∈ hp_rels st').
Proof.
  intros Hin Hfl Hr Hb Hc callee Hcs st' stays. pose proof (hi_rels _ _ _ Hin r (list_elem_of_lookup_2 _ _ _ Hr)) as Hoff.
  destruct (decide (hp_end st = 0)) as [H0|H0].
  { assert (E : st' = st) by (unfold st', arm_add_hot_text_veneers; by rewrite H0). rewrite E. exists r.
    do 4 (split; [done|]). split; [done|]. intros []. unfold stays. rewrite H0. apply empty_stays, (hi_start _ _ _ Hin). }
  destruct (pass_result_st bss_num text_num start flash_names st Hin H0) as (vs1 & vs2 & I & F1 & F2 & Hw).
  fold st' in I. destruct (pi_rel _ _ _ _ _ _ _ _ _ _ _ _ _ I i r Hr) as (q & Hq & H1 & H2). exists q. split; [done|].
  rewrite (pi_end _ _ _ _ _ _ _ _ _ _ _ _ _ I). pose proof (lookup_lt_Some _ _ _ Hr) as Hi.
  assert (Hstay : wants text_num start flash_names (hp_syms st) (hp_end st) r = 0 <-> stays).
  { unfold stays. rewrite <-branch_side_spec by (done || apply (hi_text _ _ _ Hin)). unfold wants.
    rewrite Hb, (proj2 (Z.leb_gt (r_sym r) 0)), (proj2 (Z.leb_gt _ (r_sym r))) by lia. done. }
  assert (Hsame : hot start (text_size (data_offset (hp_text st)) (length vs1)) (r_offset r) <-> hot start (hp_end st) (r_offset r))
    by (pose proof (end_grows text_num start st Hin (length vs1)); unfold hot; lia).
  destruct (decide (wants text_num start flash_names (hp_syms st) (hp_end st) r = 0)) as [Hw0|Hw0].
  - rewrite H2 by (unfold handled; intros [? _]; done). do 3 (split; [done|]).
    rewrite (sym_at_old _ _ _ _ _ _ _ _ _ _ _ _ _ _ I Hc). split; [done|]. intros Hn. by apply Hstay in Hw0.
  - destruct H1 as (j & Hj & ->).
    { unfold handled. pose proof (wants_range text_num start flash_names (hp_syms st) (hp_end st) r). lia. }
    cbn [r_offset r_type r_sym]. do 3 (split; [done|]). split; [by intros H%Hstay|]. intros _.
    destruct (veneer_at bss_num _ _ _ _ Hin _ _ I j _ Hj) as [Hat Hv]. fold st' in Hat. rewrite Hat. cbn [vsym st_shndx].
    unfold callee_address. cbn [vsym st_value]. rewrite (veneer_value text_num start st Hin) by done. split; [done|]. split.
    + apply same_side, (veneer_side bss_num text_num start flash_names st Hin vs1 vs2 I F1 F2); done.
    + eapply list_elem_of_lookup_2, (pi_new _ _ _ _ _ _ _ _ _ _ _ _ _ I), Hj.
Qed.

(** [.text] grows by exactly the veneer bytes announced beforehand, plus one byte of
    alignment when its size was odd and there are veneers. *)
Theorem hot_text_growth bss_num text_num start flash_names st :
  hot_input text_num start st ->
  let st' := arm_add_hot_text_veneers bss_num text_num start flash_names st in
  let bytes := arm_hot_text_veneer_bytes text_num start flash_names (hp_end st) (hp_syms st) (hp_rels st) in
  let d0 := data_offset (hp_text st) in
  data_offset (hp_text st') = d0 + (if Z.eqb bytes 0 then 0 else (d0 &&& 1) + bytes).
Proof.
  intros Hin st' bytes d0. unfold bytes, arm_hot_text_veneer_bytes.
  destruct (Z.eqb_spec (hp_end st) 0) as [H0|H0].
  { assert (E : st' = st) by (unfold st', arm_add_hot_text_veneers; by rewrite H0). rewrite E. cbn [Z.eqb]. lia. }
  destruct (pass_result_st bss_num text_num start flash_names st Hin H0) as (vs1 & vs2 & I & F1 & F2 & Hw).
  destruct (count_spec text_num start flash_names (hp_syms st) (hp_end st) (hp_rels st)
    (replicate (length (syms (hp_syms st))) 0) 0) as (ks & Hn & -> & Hk); [apply length_replicate|].
  assert (Hp : Permutation ks (vs1 ++ vs2)).
  { apply NoDup_Permutation; [done|apply I|]. intros [c s]. rewrite Hk, Hw. split; [by intros [? _]|]. intros H.
    split; [done|]. unfold seen_has, int_at. destruct (wanted_dom _ _ _ _ _ _ _ _ H) as [Hc _].
    rewrite lookup_replicate_2 by lia. intros E. by apply E. }
  fold st' in I. rewrite (pi_size _ _ _ _ _ _ _ _ _ _ _ _ _ I), (Permutation_length Hp).
  destruct (length (vs1 ++ vs2)) as [|n]; cbn [text_size].
  - change (Z.eqb ((0 + Z.of_nat 0) * HOT_VENEER_SIZE) 0) with true. unfold d0. lia.
  - rewrite (proj2 (Z.eqb_neq _ _)) by (unfold HOT_VENEER_SIZE; lia). unfold voff, base, HOT_VENEER_SIZE. fold d0. lia.
Qed.

(** ** A small link *)

Definition demo_calls : list Rel :=
  [mk_rel 4 2 R_ARM_THM_PC22; mk_rel 36 1 R_ARM_THM_PC22; mk_rel 40 3 R_ARM_THM_PC22; mk_rel 8 2 R_ARM_THM_JUMP24].

Definition demo_hot_pass : HotPass :=
  let t := (set_elf_sym 9 (init_symtab 4 false) 1 8 STB_GLOBAL STT_FUNC 0 1 "cold"%string).1.1 in
  let t := (set_elf_sym 9 t 33 8 STB_GLOBAL STT_FUNC 0 1 "hot"%string).1.1 in
  let t := (set_elf_sym 9 t 0 0 STB_GLOBAL STT_FUNC 0 SHN_UNDEF "puts"%string).1.1 in
  mk_hp (fun _ => 0) (mk_section 0 1 0 0 64) demo_calls t 64 [] 0 [].

Lemma veneer_name_prefix n : exists s, veneer_name n = ("__tcc" +:+ s)%string.
Proof. unfold veneer_name. by exists ("_hot_veneer_" +:+ pretty n)%string. Qed.

Lemma demo_hot_pass_input : hot_input 1 32 demo_hot_pass.
Proof.
  assert (Hs : syms (hp_syms demo_hot_pass) = [no_sym; mk_sym "cold"%string 1 8 STB_GLOBAL STT_FUNC 0 1;
    mk_sym "hot"%string 33 8 STB_GLOBAL STT_FUNC 0 1; mk_sym "puts"%string 0 0 STB_GLOBAL STT_FUNC 0 SHN_UNDEF])
    by (vm_compute; reflexivity).
  assert (Hr : hp_rels demo_hot_pass = demo_calls) by reflexivity.
  assert (He : hp_end demo_hot_pass = 64) by reflexivity.
  constructor; rewrite ?Hs, ?Hr, ?He.
  - apply (built_hash_ok 9). repeat apply built_set. apply built_init. lia.
  - intros n s Hin. destruct (veneer_name_prefix n) as [q ->].
    repeat (apply elem_of_cons in Hin as [->|Hin]; [discriminate|]). destruct (not_elem_of_nil _ Hin).
  - lia.
  - vm_compute. discriminate.
  - discriminate.
  - intros r Hin. unfold demo_calls in Hin. repeat (apply elem_of_cons in Hin as [->|Hin]; [cbn; lia|]). destruct (not_elem_of_nil _ Hin).
  - intros s Hin _. repeat (apply elem_of_cons in Hin as [->|Hin]; [vm_compute; reflexivity|]). destruct (not_elem_of_nil _ Hin).
  - vm_compute. reflexivity.
Qed.

Lemma hot_text_no_crossing_witness :
  let st' := arm_add_hot_text_veneers 9 1 32 [] demo_hot_pass in
  (exists q, hp_rels st' !! 0%nat = Some q /\ r_sym q = 6) /\
  mk_rel 104 2 R_ARM_YASOS_HOT_VENEER ∈ hp_rels st'.
Proof.
  assert (Hfl : flash_list []) by (split; constructor).
  assert (Es : sym_at (hp_syms demo_hot_pass) 2 = mk_sym "hot"%string 33 8 STB_GLOBAL STT_FUNC 0 1) by (vm_compute; reflexivity).
  assert (Hcs : cstr (name_bytes (st_name (sym_at (hp_syms demo_hot_pass) 2)))) by (rewrite Es; repeat (constructor; [vm_compute; auto|]); constructor).
  pose proof (hot_text_no_crossing 9 1 32 [] demo_hot_pass 0 (mk_rel 4 2 R_ARM_THM_PC22) demo_hot_pass_input Hfl eq_refl eq_refl
    ltac:(vm_compute; auto) Hcs) as (q & Hq & _ & _ & _ & _ & H).
  assert (E : hp_rels (arm_add_hot_text_veneers 9 1 32 [] demo_hot_pass) !! 0%nat = Some (mk_rel 4 6 R_ARM_THM_PC22))
    by (vm_compute; reflexivity).
  rewrite E in Hq. injection Hq as <-. split; [by eexists; split; [apply E|]|].
  destruct H as (_ & _ & H).
  { assert (Ee : hp_end demo_hot_pass = 64) by reflexivity. cbn [r_sym r_offset]. rewrite Es, Ee.
    assert (Ea : callee_address (mk_sym "hot"%string 33 8 STB_GLOBAL STT_FUNC 0 1) = 32) by (vm_compute; reflexivity).
    intros [G ?|G ?|? G|? ? G]; [discriminate G|by apply G| |by apply not_elem_of_nil in G].
    rewrite Ea in G. unfold hot in G. lia. }
  assert (Ev : callee_address (sym_at (hp_syms (arm_add_hot_text_veneers 9 1 32 [] demo_hot_pass)) 6) = 104)
    by (vm_compute; reflexivity).
  cbn [r_sym] in H. rewrite Ev in H. exact H.
Defined.

Lemma hot_text_growth_witness : data_offset (hp_text (arm_add_hot_text_veneers 9 1 32 [] demo_hot_pass)) = 64 + 3 * 20.
Proof. rewrite (hot_text_growth 9 1 32 [] demo_hot_pass demo_hot_pass_input). vm_compute. reflexivity. Defined.
