(* ===== verification/LinearScan.v ===== *)
(** * The live intervals of the register allocator ([machine/tccls.c])

    After register allocation the code generator asks, per instruction, which core
    registers are live, who holds a register, whether a register is free for
    scratch, and packs the spill slots.  Queries come mostly in instruction order,
    so the state keeps a sweep over the intervals sorted by start; a backward query
    restarts it.

    Fields keep the widths of the C struct: registers are signed bytes, positions
    and stack locations unsigned 32-bit words. *)

From S2P Require Import Prelude BitReflect SortSpec IntSort.
From stdpp Require Import list.
Local Open Scope Z_scope.
Local Open Scope c_scope.

Definition s8 (x : Z) : Z := let y := u8 x in if Z.ltb y 128 then y else y - 256.

Definition LS_REG_TYPE_INT : Z := 0.
Definition LS_REG_TYPE_FLOAT : Z := 1.
Definition LS_REG_TYPE_DOUBLE : Z := 2.
Definition LS_REG_TYPE_LLONG : Z := 3.
Definition LS_REG_TYPE_DOUBLE_SOFT : Z := 4.
Definition LS_REG_TYPE_COMPLEX_FLOAT : Z := 5.
Definition LS_REG_TYPE_COMPLEX_DOUBLE : Z := 6.

Record LSLiveInterval := mk_iv {
  vreg : Z;
  stack_location : Z;
  iv_start : Z;
  iv_end : Z;
  r0 : Z;
  r1 : Z;
  crosses_call : Z;
  addrtaken : Z;
  reg_type : Z;
  lvalue : Z;
  co_member : Z;
  caller_save : Z
}.

Definition iv0 : LSLiveInterval := mk_iv 0 0 0 0 0 0 0 0 0 0 0 0.

(** An absent array is the C null pointer; [live_regs_by_instruction] carries its size,
    [live_sweep_active] its [live_sweep_active_count] entries in use. *)
Record LSLiveIntervalState := mk_ls {
  intervals : list LSLiveInterval;      (* intervals_size cells *)
  next_interval_index : Z;
  registers_map : Z;
  dirty_registers : Z;
  spare_scratch_regs : Z;
  caller_save_count : Z;
  caller_save_idx : option (list Z);
  float_registers_map : Z;
  dirty_float_registers : Z;
  live_regs_by_instruction : option (list Z);
  cached_instruction_idx : Z;
  cached_live_regs : Z;
  live_sweep_order : list Z;
  live_sweep_active : list Z;
  live_sweep_valid : bool;
  live_sweep_count : Z;
  live_sweep_pos : Z;
  live_sweep_last_idx : Z
}.

Definition interval (ls : LSLiveIntervalState) (i : Z) : LSLiveInterval := default iv0 (intervals ls !! Z.to_nat i).

(** The intervals in use. *)
Definition used (ls : LSLiveIntervalState) : list LSLiveInterval := take (Z.to_nat (next_interval_index ls)) (intervals ls).

Definition LS_LIVE_INTERVAL_INIT_SIZE : nat := 64.

(** [registers_map], [float_registers_map] and [caller_save_count] are left alone. *)
Definition tcc_ls_initialize (ls : LSLiveIntervalState) : LSLiveIntervalState :=
  mk_ls (replicate LS_LIVE_INTERVAL_INIT_SIZE iv0) 0 (registers_map ls) 0 0 (caller_save_count ls) None
    (float_registers_map ls) 0 None (-1) 0 [] [] false 0 0 (-1).

Definition tcc_ls_deinitialize (ls : LSLiveIntervalState) : LSLiveIntervalState :=
  mk_ls [] (next_interval_index ls) (registers_map ls) (dirty_registers ls) (spare_scratch_regs ls) (caller_save_count ls)
    None (float_registers_map ls) (dirty_float_registers ls) None (cached_instruction_idx ls) (cached_live_regs ls)
    [] [] false (live_sweep_count ls) (live_sweep_pos ls) (live_sweep_last_idx ls).

Definition tcc_ls_reset_scratch_cache (ls : LSLiveIntervalState) : LSLiveIntervalState :=
  mk_ls (intervals ls) (next_interval_index ls) (registers_map ls) (dirty_registers ls) (spare_scratch_regs ls)
    (caller_save_count ls) (caller_save_idx ls) (float_registers_map ls) (dirty_float_registers ls)
    (live_regs_by_instruction ls) (-1) 0 (live_sweep_order ls) (live_sweep_active ls) (live_sweep_valid ls)
    (live_sweep_count ls) (live_sweep_pos ls) (live_sweep_last_idx ls).

Definition tcc_ls_clear_live_intervals (ls : LSLiveIntervalState) : LSLiveIntervalState :=
  tcc_ls_reset_scratch_cache
    (mk_ls (intervals ls) 0 (registers_map ls) (dirty_registers ls) (spare_scratch_regs ls) 0 None
      (float_registers_map ls) (dirty_float_registers ls) None (cached_instruction_idx ls) (cached_live_regs ls)
      (live_sweep_order ls) (live_sweep_active ls) false (live_sweep_count ls) (live_sweep_pos ls) (live_sweep_last_idx ls)).

Definition with_intervals (ls : LSLiveIntervalState) (ivs : list LSLiveInterval) (next : Z) (valid : bool) : LSLiveIntervalState :=
  mk_ls ivs next (registers_map ls) (dirty_registers ls) (spare_scratch_regs ls) (caller_save_count ls) (caller_save_idx ls)
    (float_registers_map ls) (dirty_float_registers ls) (live_regs_by_instruction ls) (cached_instruction_idx ls)
    (cached_live_regs ls) (live_sweep_order ls) (live_sweep_active ls) valid (live_sweep_count ls) (live_sweep_pos ls)
    (live_sweep_last_idx ls).

(** The new cells hold nothing that is read. *)
Definition tcc_ls_reserve (ls : LSLiveIntervalState) (count : Z) : LSLiveIntervalState :=
  let size := Z.of_nat (length (intervals ls)) in
  if Z.leb count size then ls
  else with_intervals ls (intervals ls ++ replicate (Z.to_nat (count - size)) iv0) (next_interval_index ls) (live_sweep_valid ls).

Definition new_interval (v start stop crosses taken type lval precolored_reg : Z) : LSLiveInterval :=
  mk_iv (u32 v) 0 (u32 start) (u32 stop) (s8 precolored_reg) (-1) (u8 crosses) (u8 taken) (u8 type) (u8 lval) 0 0.

Definition tcc_ls_add_live_interval (ls : LSLiveIntervalState) (v start stop crosses taken type lval precolored_reg : Z)
    : LSLiveIntervalState :=
  let size := Z.of_nat (length (intervals ls)) in
  let ls := if Z.leb size (next_interval_index ls) then tcc_ls_reserve ls (2 * size) else ls in
  let n := next_interval_index ls in
  with_intervals ls (<[Z.to_nat n := new_interval v start stop crosses taken type lval precolored_reg]> (intervals ls))
    (n + 1) false.

(** ** Live registers *)

Definition core_type (iv : LSLiveInterval) : bool :=
  Z.eqb (reg_type iv) LS_REG_TYPE_INT || Z.eqb (reg_type iv) LS_REG_TYPE_LLONG.

Definition core_reg (r : Z) : bool := Z.leb 0 r && Z.ltb r 16.

Definition reg_bit (r : Z) : Z := if core_reg r then 1 <<< r else 0.

Definition ls_interval_live_mask (iv : LSLiveInterval) (idx : Z) : Z :=
  if negb (core_type iv) then 0
  else if Z.leb (iv_start iv) idx && Z.leb idx (iv_end iv) then reg_bit (r0 iv) ||| reg_bit (r1 iv) else 0.

Definition ls_sweep_cmp_start (ls : LSLiveIntervalState) (a b : Z) : Z :=
  let sa := iv_start (interval ls a) in
  let sb := iv_start (interval ls b) in
  if Z.ltb sa sb then -1 else b2z (Z.ltb sb sa).

Definition ls_sweep_has_core_reg (iv : LSLiveInterval) : bool :=
  core_type iv && (core_reg (r0 iv) || core_reg (r1 iv)).

Section Sweep.
Context `{IntSort}.

Definition with_sweep (ls : LSLiveIntervalState) (order active : list Z) (count pos last : Z) : LSLiveIntervalState :=
  mk_ls (intervals ls) (next_interval_index ls) (registers_map ls) (dirty_registers ls) (spare_scratch_regs ls)
    (caller_save_count ls) (caller_save_idx ls) (float_registers_map ls) (dirty_float_registers ls)
    (live_regs_by_instruction ls) (cached_instruction_idx ls) (cached_live_regs ls) order active true count pos last.

(** Sorting the intervals anew. *)
Definition sweep_rebuild (ls : LSLiveIntervalState) : LSLiveIntervalState :=
  if live_sweep_valid ls then ls
  else
    let n := next_interval_index ls in
    let order := qsort_int (ls_sweep_cmp_start ls) (seqZ 0 n) in
    with_sweep ls order [] n 0 (-1).

(** [while (pos < count && intervals[order[pos]].start <= idx)], on the rest of the
    order. *)
Fixpoint sweep_take (ls : LSLiveIntervalState) (idx : Z) (rest : list Z) (pos : Z) (active : list Z) : Z * list Z :=
  match rest with
  | [] => (pos, active)
  | ii :: rest =>
      if Z.leb (iv_start (interval ls ii)) idx then
        sweep_take ls idx rest (pos + 1)
          (if Z.leb idx (iv_end (interval ls ii)) && ls_sweep_has_core_reg (interval ls ii) then active ++ [ii] else active)
      else (pos, active)
  end.

Definition ls_sweep_advance (ls : LSLiveIntervalState) (idx : Z) : LSLiveIntervalState :=
  let ls := sweep_rebuild ls in
  let back := Z.ltb idx (live_sweep_last_idx ls) in
  let pos := if back then 0 else live_sweep_pos ls in
  let active := if back then [] else live_sweep_active ls in
  let rest := take (Z.to_nat (live_sweep_count ls - pos)) (drop (Z.to_nat pos) (live_sweep_order ls)) in
  let '(pos, active) := sweep_take ls idx rest pos active in
  let kept := filter (fun ii => Is_true (negb (Z.ltb (iv_end (interval ls ii)) idx))) active in
  with_sweep ls (live_sweep_order ls) kept (live_sweep_count ls) pos idx.

Definition or_masks (ls : LSLiveIntervalState) (idx : Z) (l : list Z) : Z :=
  fold_left (fun live_regs ii => live_regs ||| ls_interval_live_mask (interval ls ii) idx) l 0.

Definition tcc_ls_compute_live_regs (ls : LSLiveIntervalState) (instruction_idx : Z) : LSLiveIntervalState * Z :=
  if Z.ltb instruction_idx 0 then (ls, or_masks ls (u32 instruction_idx) (seqZ 0 (next_interval_index ls)))
  else
    let ls := ls_sweep_advance ls instruction_idx in
    (ls, or_masks ls instruction_idx (live_sweep_active ls)).

(** The conditions of [tcc_ls_find_int_reg_holder]. *)
Definition holds_int_reg (iv : LSLiveInterval) (r instruction_idx : Z) : bool :=
  Z.eqb (reg_type iv) LS_REG_TYPE_INT && Z.eqb (addrtaken iv) 0 && Z.eqb (stack_location iv) 0 &&
  negb (core_reg (r1 iv)) && Z.eqb (r0 iv) r &&
  Z.leb (s32 (iv_start iv)) instruction_idx && Z.leb instruction_idx (s32 (iv_end iv)).

Definition tcc_ls_find_int_reg_holder (ls : LSLiveIntervalState) (r instruction_idx : Z) : LSLiveIntervalState * Z :=
  if Z.leb 0 instruction_idx then
    let ls := ls_sweep_advance ls instruction_idx in
    (ls, fold_left (fun best ii => if holds_int_reg (interval ls ii) r instruction_idx &&
                                      (Z.ltb best 0 || Z.ltb ii best) then ii else best) (live_sweep_active ls) (-1))
  else (ls, -1).

(** ** Scratch registers *)

Definition PREG_NONE : Z := 0x1f.

Definition with_cache (ls : LSLiveIntervalState) (idx regs : Z) : LSLiveIntervalState :=
  mk_ls (intervals ls) (next_interval_index ls) (registers_map ls) (dirty_registers ls) (spare_scratch_regs ls)
    (caller_save_count ls) (caller_save_idx ls) (float_registers_map ls) (dirty_float_registers ls)
    (live_regs_by_instruction ls) idx regs (live_sweep_order ls) (live_sweep_active ls) (live_sweep_valid ls)
    (live_sweep_count ls) (live_sweep_pos ls) (live_sweep_last_idx ls).

(** The registers that are taken, and the state with its cache filled. *)
Definition scratch_live (ls : LSLiveIntervalState) (instruction_idx exclude_regs : Z) (is_leaf : bool)
    : LSLiveIntervalState * Z :=
  let live_regs := exclude_regs ||| (1 <<< 13) in
  let live_regs := if is_leaf then live_regs ||| (1 <<< 14) else live_regs in
  let live_regs := live_regs ||| (1 <<< 15) in
  let live_regs := match live_regs_by_instruction ls with
                   | Some l => if Z.leb 0 instruction_idx && Z.ltb instruction_idx (Z.of_nat (length l))
                               then live_regs ||| int_at l instruction_idx else live_regs
                   | None => live_regs
                   end in
  if Z.eqb (cached_instruction_idx ls) instruction_idx then (ls, live_regs ||| cached_live_regs ls)
  else
    let '(ls, computed) := tcc_ls_compute_live_regs ls instruction_idx in
    (with_cache ls instruction_idx computed, live_regs ||| computed).

Definition tcc_ls_find_free_scratch_reg (ls : LSLiveIntervalState) (instruction_idx exclude_regs : Z) (is_leaf : bool)
    : LSLiveIntervalState * Z :=
  let '(ls, live_regs) := scratch_live ls instruction_idx exclude_regs is_leaf in
  let avail_low := (~~~ live_regs) &&& 0xf in
  let spare := spare_scratch_regs ls &&& (~~~ live_regs) in
  (ls,
   if truth avail_low then ctz32 avail_low
   else if negb (truth (live_regs &&& (1 <<< 12))) then 12
   else if truth spare then ctz32 spare
   else if negb is_leaf && negb (truth (live_regs &&& (1 <<< 14))) then 14
   else PREG_NONE).
End Sweep.

(** ** Who else holds a register *)

(** [skip] is the index of the interval left out, negative for none. *)
Definition claims (iv : LSLiveInterval) (reg : Z) : bool :=
  Z.eqb (stack_location iv) 0 && (Z.eqb (r0 iv) reg || Z.eqb (r1 iv) reg).

Definition tcc_ls_reg_held_by_other (ls : LSLiveIntervalState) (reg pos skip : Z) : bool :=
  existsb (fun i => let iv := interval ls i in
             negb (Z.eqb i skip) && claims iv reg && Z.leb (iv_start iv) (u32 pos) && Z.leb (u32 pos) (iv_end iv))
    (seqZ 0 (next_interval_index ls)).

(** The loop that marks where claims begin and end. *)
Definition held_delta (ls : LSLiveIntervalState) (reg start stop skip : Z) (delta : list Z) (i : Z) : list Z :=
  let iv := interval ls i in
  if Z.eqb i skip || negb (claims iv reg) then delta
  else
    let lo := if Z.ltb start (iv_start iv) then iv_start iv else start in
    let hi := if Z.ltb (iv_end iv) stop then iv_end iv else stop in
    if Z.ltb hi lo then delta
    else
      let delta := set_int delta (lo - start) (int_at delta (lo - start) + 1) in
      set_int delta (hi - start + 1) (int_at delta (hi - start + 1) - 1).

(** The running sum. *)
Fixpoint held_sum (delta : list Z) (c : Z) : list bool :=
  match delta with
  | [] => []
  | d :: delta => let c := c + d in truth c :: held_sum delta c
  end.

Definition tcc_ls_reg_held_by_other_range (ls : LSLiveIntervalState) (reg start stop skip : Z) : list bool :=
  let len := if Z.leb 0 start && Z.leb start stop then stop - start + 1 else 0 in
  let delta := replicate (Z.to_nat (len + 1)) 0 in
  let delta := if Z.ltb 0 len
               then fold_left (held_delta ls reg start stop skip) (seqZ 0 (next_interval_index ls)) delta else delta in
  held_sum (take (Z.to_nat len) delta) 0.

(** ** Dirty registers *)

Definition callee_mask : Z := 0xff0.

Definition tcc_ls_recompute_dirty_registers (ls : LSLiveIntervalState) : LSLiveIntervalState :=
  match live_regs_by_instruction ls with
  | None | Some [] => ls
  | Some l =>
      let actually_used := fold_left Z.lor l 0 in
      let old_dirty := dirty_registers ls in
      let non_callee := Z.ldiff old_dirty callee_mask in
      let callee_dirty := old_dirty &&& callee_mask in
      let callee_used := actually_used &&& callee_mask in
      mk_ls (intervals ls) (next_interval_index ls) (registers_map ls)
        (non_callee ||| (callee_dirty &&& callee_used) ||| spare_scratch_regs ls) (spare_scratch_regs ls)
        (caller_save_count ls) (caller_save_idx ls) (float_registers_map ls) (dirty_float_registers ls)
        (live_regs_by_instruction ls) (cached_instruction_idx ls) (cached_live_regs ls) (live_sweep_order ls)
        (live_sweep_active ls) (live_sweep_valid ls) (live_sweep_count ls) (live_sweep_pos ls) (live_sweep_last_idx ls)
  end.
