(* ===== verification/LsSweep.v ===== *)
(** * The sweep answers as a scan of all intervals would

    Whatever intervals are added, whatever registers the code generator moves, and in
    whatever order positions are asked for, the sweep's active list holds the
    intervals that matter at the position. *)

From Stdlib Require Import Sorting.Sorted.
From S2P Require Import Prelude BitReflect SortSpec IntSort LinearScan.
From stdpp Require Import list sorting.
Local Open Scope Z_scope.
Local Open Scope c_scope.

(** ** Well-formed states *)

Record iv_ok (iv : LSLiveInterval) : Prop := mk_iv_ok {
  iv_start_ok : 0 <= iv_start iv < 2 ^ 31;     (* an instruction's index *)
  iv_end_ok : 0 <= iv_end iv < 2 ^ 32
}.

Definition ls_ok (ls : LSLiveIntervalState) : Prop :=
  0 <= next_interval_index ls <= Z.of_nat (length (intervals ls)) /\ next_interval_index ls < 2 ^ 31 /\
  Forall iv_ok (intervals ls).

Definition live_at (iv : LSLiveInterval) (idx : Z) : Prop := iv_start iv <= idx <= iv_end iv.

(** The sweep at position [live_sweep_last_idx]. *)
Record sweep_ok (ls : LSLiveIntervalState) : Prop := mk_sweep_ok {
  so_count : live_sweep_count ls = next_interval_index ls;
  so_perm : live_sweep_order ls ≡ₚ seqZ 0 (next_interval_index ls);
  so_sorted : StronglySorted (fun a b => iv_start (interval ls a) <= iv_start (interval ls b)) (live_sweep_order ls);
  so_pos : 0 <= live_sweep_pos ls <= next_interval_index ls;
  so_before : Forall (fun ii => iv_start (interval ls ii) <= live_sweep_last_idx ls)
                (take (Z.to_nat (live_sweep_pos ls)) (live_sweep_order ls));
  so_after : Forall (fun ii => live_sweep_last_idx ls < iv_start (interval ls ii))
               (drop (Z.to_nat (live_sweep_pos ls)) (live_sweep_order ls));
  so_active : forall ii, ii ∈ live_sweep_active ls ->
    0 <= ii < next_interval_index ls /\ live_at (interval ls ii) (live_sweep_last_idx ls);
  so_complete : forall ii, 0 <= ii < next_interval_index ls -> live_at (interval ls ii) (live_sweep_last_idx ls) ->
    ls_sweep_has_core_reg (interval ls ii) = true -> ii ∈ live_sweep_active ls;
  so_room : Z.of_nat (length (live_sweep_active ls)) <= live_sweep_pos ls
}.

Definition ls_inv (ls : LSLiveIntervalState) : Prop :=
  ls_ok ls /\ (live_sweep_valid ls = true -> sweep_ok ls).

Lemma interval_ok ls i : ls_ok ls -> iv_ok (interval ls i).
Proof.
  intros (_ & _ & Hf). unfold interval. destruct (intervals ls !! Z.to_nat i) as [iv|] eqn:E.
  - by eapply Forall_lookup_1 in Hf.
  - split; cbn; lia.
Qed.

(** ** Rebuilding *)

Lemma cmp_start_neg ls a b : ls_sweep_cmp_start ls a b < 0 <-> iv_start (interval ls a) < iv_start (interval ls b).
Proof.
  unfold ls_sweep_cmp_start, b2z. cbv zeta. destruct (Z.ltb_spec (iv_start (interval ls a)) (iv_start (interval ls b)));
    [lia|]. destruct (Z.ltb _ _); lia.
Qed.

#[export] Instance cmp_start_ok ls : CmpOk (ls_sweep_cmp_start ls).
Proof. split; intros *; rewrite !cmp_start_neg; lia. Qed.

Section Sweep.
Context `{IntSort}.

Lemma seqZ_ints n : n < 2 ^ 31 -> Forall is_int (seqZ 0 n).
Proof. intros Hn. apply Forall_forall. intros x Hx%elem_of_seqZ. unfold is_int. lia. Qed.

Lemma rebuild_inv ls : ls_inv ls -> ls_ok (sweep_rebuild ls) /\ sweep_ok (sweep_rebuild ls).
Proof.
  intros [Hok Hv]. unfold sweep_rebuild. destruct (live_sweep_valid ls); [by split; [|apply Hv]|].
  split; [exact Hok|]. pose proof Hok as (Hn & Hlt & Hf).
  pose proof (qsort_int_spec (ls_sweep_cmp_start ls) (seqZ 0 (next_interval_index ls)) _ (seqZ_ints _ Hlt)) as (HP & HS & _).
  apply mk_sweep_ok; cbn [with_sweep live_sweep_count live_sweep_order live_sweep_pos live_sweep_last_idx live_sweep_active
    next_interval_index].
  - done.
  - exact HP.
  - clear - HS. induction HS as [|x l HS IH Hx]; [constructor|]. constructor; [exact IH|].
    eapply Forall_impl; [exact Hx|]. intros y Hy. unfold cle, cless in Hy. apply Z.ltb_ge in Hy.
    pose proof (cmp_start_neg ls y x). change (interval (with_sweep _ _ _ _ _ _)) with (interval ls). lia.
  - lia.
  - constructor.
  - rewrite drop_0. apply Forall_forall. intros ii _. change (interval (with_sweep _ _ _ _ _ _)) with (interval ls).
    destruct (interval_ok ls ii Hok). lia.
  - by intros ii ?%not_elem_of_nil.
  - intros ii _ Hl. exfalso. change (interval (with_sweep _ _ _ _ _ _)) with (interval ls) in Hl.
    destruct (interval_ok ls ii Hok), Hl. lia.
  - cbn. lia.
Qed.

(** ** Advancing *)

Definition good (ls : LSLiveIntervalState) (idx ii : Z) : bool :=
  Z.leb idx (iv_end (interval ls ii)) && ls_sweep_has_core_reg (interval ls ii).

Lemma sweep_take_spec ls idx rest pos active :
  StronglySorted (fun a b => iv_start (interval ls a) <= iv_start (interval ls b)) rest ->
  exists k, (k <= length rest)%nat /\
    sweep_take ls idx rest pos active = (pos + Z.of_nat k, active ++ filter (fun ii => Is_true (good ls idx ii)) (take k rest)) /\
    Forall (fun ii => iv_start (interval ls ii) <= idx) (take k rest) /\
    Forall (fun ii => idx < iv_start (interval ls ii)) (drop k rest).
Proof.
  intros HS. revert pos active. induction HS as [|ii rest HS IH Hx]; intros pos active; cbn [sweep_take].
  - exists 0%nat. cbn. rewrite app_nil_r, Z.add_0_r. repeat split; constructor.
  - destruct (Z.leb_spec (iv_start (interval ls ii)) idx) as [Hle|Hgt].
    + fold (good ls idx ii). destruct (IH (pos + 1) (if good ls idx ii then active ++ [ii] else active)) as (k & Hk & -> & H1 & H2).
      exists (S k). cbn [length take drop]. split; [lia|]. split; [|split; [by constructor|done]].
      f_equal; [lia|]. rewrite filter_cons. destruct (good ls idx ii); cbn [Is_true].
      * rewrite decide_True by done. by rewrite <-app_assoc.
      * by rewrite decide_False by auto.
    + exists 0%nat. cbn [take drop length]. rewrite filter_nil, app_nil_r, Z.add_0_r. split; [lia|]. split; [done|].
      split; [constructor|]. constructor; [done|]. eapply Forall_impl; [exact Hx|]. cbv beta. intros y Hy. lia.
Qed.

(** What is before the sweep's position, at a later or restarted position. *)
Lemma resume_before ls idx :
  sweep_ok ls -> 0 <= idx ->
  let back := Z.ltb idx (live_sweep_last_idx ls) in
  let pos := if back then 0 else live_sweep_pos ls in
  let active := if back then [] else live_sweep_active ls in
  0 <= pos <= next_interval_index ls /\ Z.of_nat (length active) <= pos /\
  Forall (fun ii => iv_start (interval ls ii) <= idx) (take (Z.to_nat pos) (live_sweep_order ls)) /\
  (forall ii, ii ∈ active -> 0 <= ii < next_interval_index ls /\ iv_start (interval ls ii) <= idx) /\
  (forall ii, ii ∈ take (Z.to_nat pos) (live_sweep_order ls) -> 0 <= ii < next_interval_index ls ->
     live_at (interval ls ii) idx -> ls_sweep_has_core_reg (interval ls ii) = true -> ii ∈ active).
Proof.
  intros [H1 H2 H3 H4 H5 H6 H7 H8 H9] Hidx. cbv zeta. destruct (Z.ltb_spec idx (live_sweep_last_idx ls)) as [Hb|Hb].
  - split; [lia|]. split; [cbn; lia|]. split; [constructor|].
    split; [by intros ii ?%not_elem_of_nil|]. by intros ii ?%not_elem_of_nil.
  - split; [done|]. split; [done|]. split; [|split].
    + eapply Forall_impl; [exact H5|]. cbv beta. intros x Hx. lia.
    + intros ii Hii. destruct (H7 ii Hii) as [G1 [G2 G3]]. split; [done|lia].
    + intros ii Hii Hr [G1 G2] Hc. apply H8; [done| |done]. split; [|lia].
      rewrite Forall_forall in H5. by apply H5.
Qed.

Lemma with_sweep_interval ls order active count pos last i :
  interval (with_sweep ls order active count pos last) i = interval ls i.
Proof. done. Qed.

(** The state after the loops, from the position [pos] and the list [active] they
    start with. *)
Section Loops.
Context (ls : LSLiveIntervalState) (idx pos : Z) (active : list Z).
Notation n := (next_interval_index ls).
Notation order := (live_sweep_order ls).
Notation rest := (drop (Z.to_nat pos) order).

Hypothesis Hperm : order ≡ₚ seqZ 0 n.
Hypothesis Hcount : live_sweep_count ls = n.
Hypothesis Hsorted : StronglySorted (fun a b => iv_start (interval ls a) <= iv_start (interval ls b)) order.
Hypothesis Hpos : 0 <= pos <= n.
Hypothesis Hroom : Z.of_nat (length active) <= pos.
Hypothesis Hbefore : Forall (fun ii => iv_start (interval ls ii) <= idx) (take (Z.to_nat pos) order).
Hypothesis Hactive : forall ii, ii ∈ active -> 0 <= ii < n /\ iv_start (interval ls ii) <= idx.
Hypothesis Hcomplete : forall ii, ii ∈ take (Z.to_nat pos) order -> 0 <= ii < n ->
  live_at (interval ls ii) idx -> ls_sweep_has_core_reg (interval ls ii) = true -> ii ∈ active.

Lemma order_mem ii : ii ∈ order <-> 0 <= ii < n.
Proof using Hperm. clear - Hperm. rewrite Hperm, elem_of_seqZ. lia. Qed.

Lemma loops_ok k :
  (k <= length rest)%nat ->
  Forall (fun ii => iv_start (interval ls ii) <= idx) (take k rest) ->
  Forall (fun ii => idx < iv_start (interval ls ii)) (drop k rest) ->
  sweep_ok (with_sweep ls order
    (filter (fun ii => Is_true (negb (Z.ltb (iv_end (interval ls ii)) idx)))
       (active ++ filter (fun ii => Is_true (good ls idx ii)) (take k rest)))
    (live_sweep_count ls) (pos + Z.of_nat k) idx).
Proof using Hperm Hcount Hsorted Hpos Hroom Hbefore Hactive Hcomplete.
  intros Hk K1 K2. pose proof order_mem as Hmem.
  assert (Hlen : length order = Z.to_nat n) by (by rewrite Hperm, length_seqZ). rewrite length_drop in Hk.
  assert (Hsplit : take (Z.to_nat (pos + Z.of_nat k)) order = take (Z.to_nat pos) order ++ take k rest)
    by (rewrite Z2Nat.inj_add, Nat2Z.id by lia; by rewrite take_take_drop).
  assert (Hdrop : drop (Z.to_nat (pos + Z.of_nat k)) order = drop k rest)
    by (rewrite drop_drop; f_equal; lia).
  constructor; cbn [with_sweep live_sweep_count live_sweep_order live_sweep_pos live_sweep_last_idx live_sweep_active
    next_interval_index].
  - done.
  - done.
  - exact Hsorted.
  - lia.
  - rewrite Hsplit. apply Forall_app. by split.
  - by rewrite Hdrop.
  - intros ii Hii. apply list_elem_of_filter in Hii as [He Hii]. apply Is_true_true, negb_true_iff, Z.ltb_ge in He.
    change (interval (with_sweep _ _ _ _ _ _)) with (interval ls). unfold live_at.
    apply elem_of_app in Hii as [Hii|Hii].
    + destruct (Hactive ii Hii). split; [done|lia].
    + apply list_elem_of_filter in Hii as [_ Hii]. split.
      * apply Hmem. by apply (subseteq_drop (Z.to_nat pos)), (subseteq_take k).
      * rewrite Forall_forall in K1. specialize (K1 ii Hii). cbv beta in K1. lia.
  - intros ii Hr Hl Hc. change (interval (with_sweep _ _ _ _ _ _)) with (interval ls) in *.
    apply list_elem_of_filter. split; [apply Is_true_true, negb_true_iff, Z.ltb_ge, Hl|].
    apply Hmem in Hr as Ho. rewrite <-(take_drop (Z.to_nat (pos + Z.of_nat k)) order), Hsplit, Hdrop in Ho.
    apply elem_of_app in Ho as [[Ho|Ho]%elem_of_app|Ho]; apply elem_of_app.
    + left. by apply Hcomplete.
    + right. apply list_elem_of_filter. split; [|done]. apply Is_true_true. unfold good. rewrite Hc, andb_true_r.
      apply Z.leb_le, Hl.
    + rewrite Forall_forall in K2. specialize (K2 ii Ho). destruct Hl. cbv beta in K2. lia.
  - pose proof (length_filter (fun ii => Is_true (negb (Z.ltb (iv_end (interval ls ii)) idx)))
      (active ++ filter (fun ii => Is_true (good ls idx ii)) (take k rest))) as G1.
    pose proof (length_filter (fun ii => Is_true (good ls idx ii)) (take k rest)) as G2.
    rewrite length_app in G1. rewrite length_take in G2. lia.
Qed.
End Loops.

Lemma advance_inv ls idx :
  ls_inv ls -> 0 <= idx ->
  let ls' := ls_sweep_advance ls idx in
  ls_inv ls' /\ live_sweep_valid ls' = true /\ live_sweep_last_idx ls' = idx /\
  intervals ls' = intervals ls /\ next_interval_index ls' = next_interval_index ls.
Proof.
  intros Hinv Hidx. cbv zeta. destruct (rebuild_inv ls Hinv) as [Hok Hs].
  assert (Hsame : intervals (sweep_rebuild ls) = intervals ls /\ next_interval_index (sweep_rebuild ls) = next_interval_index ls)
    by (unfold sweep_rebuild; by destruct (live_sweep_valid ls)).
  unfold ls_sweep_advance. cbv zeta. destruct Hsame as [E1 E2]. rewrite <-E1, <-E2. clear E1 E2.
  generalize dependent (sweep_rebuild ls). clear ls Hinv. intros ls Hok Hs.
  destruct (resume_before ls idx Hs Hidx) as (P1 & P2 & P3 & P4 & P5). destruct Hs as [H1 H2 H3 _ _ _ _ _ _].
  set (pos := if Z.ltb idx (live_sweep_last_idx ls) then 0 else live_sweep_pos ls) in *.
  set (active := if Z.ltb idx (live_sweep_last_idx ls) then [] else live_sweep_active ls) in *. clearbody pos active.
  assert (Hlen : length (live_sweep_order ls) = Z.to_nat (next_interval_index ls)) by (by rewrite H2, length_seqZ).
  rewrite (take_ge (drop (Z.to_nat pos) (live_sweep_order ls))) by (rewrite length_drop; lia).
  pose proof H3 as HS. rewrite <-(take_drop (Z.to_nat pos) (live_sweep_order ls)) in HS.
  apply StronglySorted_app in HS as (_ & _ & HS).
  destruct (sweep_take_spec ls idx _ pos active HS) as (k & Hk & -> & K1 & K2).
  split; [|done]. split; [exact Hok|]. intros _. by apply loops_ok.
Qed.

(** ** Queries *)

(** The registers live at [idx], from all intervals. *)
Definition live_spec (ls : LSLiveIntervalState) (idx : Z) : Z :=
  foldr (fun iv m => ls_interval_live_mask iv idx ||| m) 0 (used ls).

Lemma used_intervals ls : ls_ok ls -> used ls = interval ls <$> seqZ 0 (next_interval_index ls).
Proof.
  intros (Hn & _). apply list_eq. intros i. unfold used. rewrite list_lookup_fmap.
  destruct (decide (Z.of_nat i < next_interval_index ls)) as [Hi|Hi].
  - rewrite lookup_take_lt, lookup_seqZ_lt by lia. cbn. unfold interval. replace (Z.to_nat (0 + Z.of_nat i)) with i by lia.
    destruct (lookup_lt_is_Some_2 (intervals ls) i) as [x Hx]; [lia|]. by rewrite Hx.
  - rewrite lookup_take_ge, lookup_seqZ_ge by lia. done.
Qed.

Lemma or_masks_bit ls idx l b :
  Z.testbit (or_masks ls idx l) b = existsb (fun ii => Z.testbit (ls_interval_live_mask (interval ls ii) idx) b) l.
Proof.
  unfold or_masks. assert (G : forall acc, Z.testbit (fold_left (fun m ii => m ||| ls_interval_live_mask (interval ls ii) idx) l acc) b
    = Z.testbit acc b || existsb (fun ii => Z.testbit (ls_interval_live_mask (interval ls ii) idx) b) l).
  { induction l as [|ii l IH]; intros acc; cbn [fold_left existsb]; [by rewrite orb_false_r|].
    by rewrite IH, Z.lor_spec, orb_assoc. }
  by rewrite G, Z.bits_0.
Qed.

Lemma live_spec_bit ls idx b :
  Z.testbit (live_spec ls idx) b = existsb (fun iv => Z.testbit (ls_interval_live_mask iv idx) b) (used ls).
Proof.
  unfold live_spec. induction (used ls) as [|iv l IH]; cbn [foldr existsb]; [apply Z.bits_0|]. by rewrite Z.lor_spec, IH.
Qed.

(** An interval with a bit in the mask is live and in a core register. *)
Lemma mask_live iv idx b :
  Z.testbit (ls_interval_live_mask iv idx) b = true -> live_at iv idx /\ ls_sweep_has_core_reg iv = true.
Proof.
  unfold ls_interval_live_mask, ls_sweep_has_core_reg, live_at. destruct (core_type iv); cbn [negb andb]; [|by rewrite Z.bits_0].
  destruct (Z.leb_spec (iv_start iv) idx), (Z.leb_spec idx (iv_end iv)); cbn [andb]; try (by rewrite Z.bits_0).
  rewrite Z.lor_spec. unfold reg_bit. destruct (core_reg (r0 iv)), (core_reg (r1 iv)); try (by split; [lia|]).
  by rewrite Z.bits_0.
Qed.

(** Any list of intervals that has those that matter gives the registers live. *)
Lemma or_masks_exact ls idx l :
  ls_ok ls -> (forall ii, ii ∈ l -> 0 <= ii < next_interval_index ls) ->
  (forall ii, 0 <= ii < next_interval_index ls -> live_at (interval ls ii) idx ->
     ls_sweep_has_core_reg (interval ls ii) = true -> ii ∈ l) ->
  or_masks ls idx l = live_spec ls idx.
Proof.
  intros Hok H1 H2. apply Z.bits_inj'. intros b _. rewrite or_masks_bit, live_spec_bit, used_intervals by done.
  apply eq_true_iff_eq. rewrite !existsb_exists. split.
  - intros (ii & Hii & Hb). exists (interval ls ii). split; [|done]. apply list_elem_of_In in Hii. apply list_elem_of_In, list_elem_of_fmap.
    exists ii. split; [done|]. apply elem_of_seqZ. specialize (H1 ii Hii). lia.
  - intros (iv & Hiv & Hb). apply list_elem_of_In, list_elem_of_fmap in Hiv as (ii & -> & Hii%elem_of_seqZ).
    destruct (mask_live _ _ _ Hb). exists ii. split; [|done]. apply list_elem_of_In, H2; (done || lia).
Qed.

Lemma compute_exact ls idx :
  ls_inv ls -> is_int idx ->
  let '(ls', m) := tcc_ls_compute_live_regs ls idx in
  m = live_spec ls (u32 idx) /\ ls_inv ls' /\ intervals ls' = intervals ls /\
  next_interval_index ls' = next_interval_index ls.
Proof.
  intros Hinv Hidx. unfold tcc_ls_compute_live_regs. destruct (Z.ltb_spec idx 0) as [Hn|Hn].
  - split; [|done]. apply or_masks_exact; [apply Hinv| |].
    + intros ii Hii%elem_of_seqZ. lia.
    + intros ii Hii _ _. apply elem_of_seqZ. lia.
  - cbv zeta. destruct (advance_inv ls idx Hinv Hn) as (Hinv' & Hv & Hl & E1 & E2).
    set (ls' := ls_sweep_advance ls idx) in *. split; [|done]. destruct Hinv' as [Hok Hs]. specialize (Hs Hv).
    rewrite (u32_small idx) by (unfold is_int in Hidx; lia).
    assert (E : live_spec ls idx = live_spec ls' idx) by (unfold live_spec, used; by rewrite E1, E2). rewrite E.
    apply or_masks_exact; [done| |].
    + intros ii Hii. by apply (so_active _ Hs).
    + intros ii Hr Hli Hc. apply (so_complete _ Hs); [done|by rewrite Hl|done].
Qed.

(** The lowest index an active list offers. *)
Definition is_lowest (P : Z -> bool) (n b : Z) : Prop :=
  (b = -1 /\ forall i, 0 <= i < n -> P i = false) \/
  (0 <= b < n /\ P b = true /\ forall i, 0 <= i < b -> P i = false).

Lemma best_lowest (P : Z -> bool) n l :
  (forall ii, ii ∈ l -> 0 <= ii < n) -> (forall ii, 0 <= ii < n -> P ii = true -> ii ∈ l) ->
  is_lowest P n (fold_left (fun best ii => if P ii && (Z.ltb best 0 || Z.ltb ii best) then ii else best) l (-1)).
Proof.
  intros H1 H2.
  assert (G : forall best, (forall ii, ii ∈ l -> 0 <= ii) -> (best = -1 \/ 0 <= best) ->
    let b := fold_left (fun best ii => if P ii && (Z.ltb best 0 || Z.ltb ii best) then ii else best) l best in
    ((b = best) \/ (b ∈ l /\ P b = true)) /\ (best < 0 \/ b <= best) /\
    (forall ii, ii ∈ l -> P ii = true -> 0 <= b <= ii)).
  { clear H1 H2. induction l as [|x l IH]; intros best Hp Hb; cbn [fold_left].
    - split; [by left|]. split; [lia|]. by intros ii ?%not_elem_of_nil.
    - specialize (IH (if P x && (Z.ltb best 0 || Z.ltb x best) then x else best)). cbv zeta in *.
      pose proof (Hp x (list_elem_of_here _ _)) as Hx.
      destruct IH as (G1 & G2 & G3); [intros ii Hii; apply Hp; by right|destruct (_ && _); lia|].
      set (b := fold_left _ l _) in *. clearbody b.
      destruct (P x) eqn:Px; cbn [andb] in *.
      + destruct (Z.ltb_spec best 0), (Z.ltb_spec x best); cbn [orb] in *;
          assert (0 <= b) by (destruct G1 as [->|[Hbl _]]; [lia|apply Hp; by right]);
          (split; [destruct G1 as [->|[? ?]]; rewrite ?elem_of_cons; auto|]); (split; [lia|]);
          intros ii [->|Hii]%elem_of_cons Pi; try (specialize (G3 ii Hii Pi)); lia.
      + split; [destruct G1 as [->|[? ?]]; rewrite ?elem_of_cons; auto|]. split; [done|].
        intros ii [->|Hii]%elem_of_cons Pi; [congruence|by apply G3]. }
  destruct (G (-1)) as (G1 & _ & G3); [intros ii Hii; apply H1 in Hii; lia|by left|]. cbv zeta in *.
  set (b := fold_left _ l _) in *. clearbody b. destruct G1 as [->|[Hb Pb]].
  - left. split; [done|]. intros i Hi. destruct (P i) eqn:Pi; [|done]. specialize (G3 i (H2 i Hi Pi) Pi). lia.
  - right. split; [by apply H1|]. split; [done|]. intros i Hi. destruct (P i) eqn:Pi; [|done].
    specialize (H1 b Hb). specialize (G3 i (H2 i ltac:(lia) Pi) Pi). lia.
Qed.

Lemma s32_of_index x : 0 <= x < 2 ^ 31 -> s32 x = x.
Proof. intros Hx. unfold s32. rewrite u32_small by lia. by rewrite (proj2 (Z.ltb_lt _ _)) by lia. Qed.

Lemma s32_nonneg x y : 0 <= x < 2 ^ 32 -> 0 <= y -> y <= s32 x -> s32 x = x.
Proof. intros Hx Hy. unfold s32. rewrite u32_small by lia. destruct (Z.ltb_spec x (2 ^ 31)); lia. Qed.

(** The holder of a core register is live and in a core register. *)
Lemma holder_live iv r idx :
  iv_ok iv -> core_reg r = true -> 0 <= idx -> holds_int_reg iv r idx = true ->
  live_at iv idx /\ ls_sweep_has_core_reg iv = true.
Proof.
  intros [H1 H2] Hr Hidx. unfold holds_int_reg. rewrite !andb_true_iff, !Z.eqb_eq, !Z.leb_le.
  intros ((((((Ht & _) & _) & _) & Hr0) & Hs) & He). rewrite s32_of_index in Hs by done.
  rewrite (s32_nonneg _ idx) in He by lia. split; [by split|].
  unfold ls_sweep_has_core_reg, core_type. by rewrite Ht, Hr0, Hr.
Qed.

Lemma holder_exact ls r idx :
  ls_inv ls -> 0 <= idx < 2 ^ 31 -> core_reg r = true ->
  let '(ls', b) := tcc_ls_find_int_reg_holder ls r idx in
  is_lowest (fun i => holds_int_reg (interval ls i) r idx) (next_interval_index ls) b /\ ls_inv ls' /\
  intervals ls' = intervals ls /\ next_interval_index ls' = next_interval_index ls.
Proof.
  intros Hinv Hidx Hr. unfold tcc_ls_find_int_reg_holder. rewrite (proj2 (Z.leb_le 0 idx)) by lia. cbv zeta.
  destruct (advance_inv ls idx Hinv ltac:(lia)) as (Hinv' & Hv & Hl & E1 & E2).
  set (ls' := ls_sweep_advance ls idx) in *. split; [|done]. pose proof Hinv' as [Hok Hs]. specialize (Hs Hv).
  assert (Ei : forall i, interval ls i = interval ls' i) by (intros i; unfold interval; by rewrite E1).
  rewrite <-E2. pose proof (best_lowest (fun i => holds_int_reg (interval ls' i) r idx) (next_interval_index ls')
    (live_sweep_active ls')) as B. unfold is_lowest in *. setoid_rewrite Ei. apply B.
  - intros ii Hii. by apply (so_active _ Hs).
  - intros ii Hr' Hh. destruct (holder_live (interval ls' ii) r idx) as [G1 G2]; [by apply interval_ok|done|lia|done|].
    apply (so_complete _ Hs); [done|by rewrite Hl|done].
Qed.

Lemma holder_neg ls r idx : idx < 0 -> tcc_ls_find_int_reg_holder ls r idx = (ls, -1).
Proof. intros Hi. unfold tcc_ls_find_int_reg_holder. by rewrite (proj2 (Z.leb_gt 0 idx)) by lia. Qed.
End Sweep.
