(* ===== verification/LsScratch.v ===== *)
(** * Live-register and scratch queries over a function's code generation

    The states a function's intervals go through: filled after register allocation,
    queried per instruction, and rewritten by passes that move intervals between
    registers or to memory.  A rewriting pass resets the scratch cache when it is
    done; until then the flag [dirty] is set. *)

From S2P Require Import Prelude BitReflect SortSpec Sort Qsort IntSort LinearScan LsSweep.
From stdpp Require Import list.
Local Open Scope Z_scope.
Local Open Scope c_scope.

Section Reach.
Context `{IntSort}.

(** A rewrite keeps the range and gives no register to an interval without. *)
Definition rewrites (old new : LSLiveInterval) : Prop :=
  iv_start new = iv_start old /\ iv_end new = iv_end old /\
  (ls_sweep_has_core_reg new = true -> ls_sweep_has_core_reg old = true).

Definition with_bitmap (ls : LSLiveIntervalState) (bitmap : option (list Z)) (spare dirty : Z) : LSLiveIntervalState :=
  mk_ls (intervals ls) (next_interval_index ls) (registers_map ls) dirty spare
    (caller_save_count ls) (caller_save_idx ls) (float_registers_map ls) (dirty_float_registers ls)
    bitmap (cached_instruction_idx ls) (cached_live_regs ls) (live_sweep_order ls) (live_sweep_active ls)
    (live_sweep_valid ls) (live_sweep_count ls) (live_sweep_pos ls) (live_sweep_last_idx ls).

Inductive ls_reach : bool -> LSLiveIntervalState -> Prop :=
| reach_init ls : ls_reach false (tcc_ls_initialize ls)
| reach_clear d ls : ls_reach d ls -> ls_reach false (tcc_ls_clear_live_intervals ls)
| reach_reset d ls : ls_reach d ls -> ls_reach false (tcc_ls_reset_scratch_cache ls)
| reach_reserve d ls count : ls_reach d ls -> ls_reach d (tcc_ls_reserve ls count)
| reach_add d ls v start stop crosses taken type lval reg :
    ls_reach d ls -> 0 <= start < 2 ^ 31 -> next_interval_index ls + 1 < 2 ^ 31 ->
    ls_reach true (tcc_ls_add_live_interval ls v start stop crosses taken type lval reg)
| reach_rewrite d ls ivs :
    ls_reach d ls -> Forall2 rewrites (intervals ls) ivs ->
    ls_reach true (with_intervals ls ivs (next_interval_index ls) (live_sweep_valid ls))
| reach_assign d ls ivs :      (* registers given anew, the sweep invalidated *)
    ls_reach d ls -> length ivs = length (intervals ls) -> Forall iv_ok ivs ->
    ls_reach true (with_intervals ls ivs (next_interval_index ls) false)
| reach_bitmap d ls bitmap spare dirty : ls_reach d ls -> ls_reach d (with_bitmap ls bitmap spare dirty)
| reach_dirty d ls : ls_reach d ls -> ls_reach d (tcc_ls_recompute_dirty_registers ls)
| reach_live d ls idx : ls_reach d ls -> is_int idx -> ls_reach d (tcc_ls_compute_live_regs ls idx).1
| reach_holder d ls r idx : ls_reach d ls -> is_int idx -> core_reg r = true ->
    ls_reach d (tcc_ls_find_int_reg_holder ls r idx).1
| reach_scratch d ls idx excl leaf : ls_reach d ls -> is_int idx ->
    ls_reach d (tcc_ls_find_free_scratch_reg ls idx excl leaf).1.

(** The cache, when it is for an instruction, is right. *)
Definition scratch_cache_ok (ls : LSLiveIntervalState) : Prop :=
  0 <= cached_instruction_idx ls -> cached_live_regs ls = live_spec ls (cached_instruction_idx ls).

Lemma sweep_ok_ext ls ls' :
  sweep_ok ls -> next_interval_index ls' = next_interval_index ls -> live_sweep_count ls' = live_sweep_count ls ->
  live_sweep_order ls' = live_sweep_order ls -> live_sweep_active ls' = live_sweep_active ls ->
  live_sweep_pos ls' = live_sweep_pos ls -> live_sweep_last_idx ls' = live_sweep_last_idx ls ->
  (forall i, 0 <= i < next_interval_index ls -> rewrites (interval ls i) (interval ls' i)) -> sweep_ok ls'.
Proof.
  intros [H1 H2 H3 H4 H5 H6 H7 H8 H9] E1 E2 E3 E4 E5 E6 Hr.
  assert (Hm : forall ii, ii ∈ live_sweep_order ls -> 0 <= ii < next_interval_index ls)
    by (intros ii Hii; rewrite H2 in Hii; apply elem_of_seqZ in Hii; lia).
  assert (Hst : forall ii, ii ∈ live_sweep_order ls -> iv_start (interval ls' ii) = iv_start (interval ls ii))
    by (intros ii Hii; apply (Hr ii (Hm ii Hii))).
  apply mk_sweep_ok; rewrite ?E1, ?E2, ?E3, ?E4, ?E5, ?E6; try done.
  - clear - H3 Hst. induction H3 as [|x l Hs IH Hx]; [constructor|]. constructor.
    + apply IH. intros ii Hii. apply Hst. by right.
    + apply Forall_forall. intros y Hy. rewrite Forall_forall in Hx. specialize (Hx y Hy). cbv beta in Hx.
      rewrite !Hst by (by left || by right). done.
  - apply Forall_forall. intros x Hx. rewrite Forall_forall in H5. rewrite Hst; [by apply H5|].
    by apply (subseteq_take (Z.to_nat (live_sweep_pos ls))).
  - apply Forall_forall. intros x Hx. rewrite Forall_forall in H6. rewrite Hst; [by apply H6|].
    by apply (subseteq_drop (Z.to_nat (live_sweep_pos ls))).
  - intros ii Hii. destruct (H7 ii Hii) as [G1 G2]. split; [done|]. destruct (Hr ii G1) as (R1 & R2 & _).
    unfold live_at. by rewrite R1, R2.
  - intros ii G1 G2 G3. destruct (Hr ii G1) as (R1 & R2 & R3). apply H8; [done| |by apply R3].
    unfold live_at in *. by rewrite <-R1, <-R2.
Qed.

Lemma rewrites_refl iv : rewrites iv iv.
Proof. done. Qed.

Lemma inv_same ls ls' :
  ls_inv ls -> intervals ls' = intervals ls -> next_interval_index ls' = next_interval_index ls ->
  live_sweep_valid ls' = live_sweep_valid ls -> live_sweep_count ls' = live_sweep_count ls ->
  live_sweep_order ls' = live_sweep_order ls -> live_sweep_active ls' = live_sweep_active ls ->
  live_sweep_pos ls' = live_sweep_pos ls -> live_sweep_last_idx ls' = live_sweep_last_idx ls -> ls_inv ls'.
Proof.
  intros [Hok Hs] E1 E2 E3 E4 E5 E6 E7 E8. split; [unfold ls_ok; by rewrite E1, E2|]. rewrite E3. intros Hv.
  apply (sweep_ok_ext ls); try done; [by apply Hs|]. intros i _. unfold interval. rewrite E1. apply rewrites_refl.
Qed.

Lemma inv_cleared ls : ls_ok ls -> live_sweep_valid ls = false -> ls_inv ls.
Proof. intros Hok Hv. split; [done|]. rewrite Hv. discriminate. Qed.

Lemma iv0_ok : iv_ok iv0.
Proof. split; cbn; lia. Qed.

Lemma reserve_same ls count :
  let ls' := tcc_ls_reserve ls count in
  exists k, intervals ls' = intervals ls ++ replicate k iv0 /\ next_interval_index ls' = next_interval_index ls /\
    live_sweep_valid ls' = live_sweep_valid ls /\ live_sweep_count ls' = live_sweep_count ls /\
    live_sweep_order ls' = live_sweep_order ls /\ live_sweep_active ls' = live_sweep_active ls /\
    live_sweep_pos ls' = live_sweep_pos ls /\ live_sweep_last_idx ls' = live_sweep_last_idx ls /\
    cached_instruction_idx ls' = cached_instruction_idx ls /\ cached_live_regs ls' = cached_live_regs ls /\
    (Z.of_nat (length (intervals ls)) <= count -> Z.of_nat (length (intervals ls')) = count).
Proof.
  unfold tcc_ls_reserve. cbv zeta. destruct (Z.leb_spec count (Z.of_nat (length (intervals ls)))).
  - exists 0%nat. cbn [replicate]. rewrite app_nil_r. repeat split; lia.
  - exists (Z.to_nat (count - Z.of_nat (length (intervals ls)))). repeat split.
    cbn [with_intervals intervals]. rewrite length_app, length_replicate. lia.
Qed.

Lemma interval_app ls ls' k i :
  intervals ls' = intervals ls ++ replicate k iv0 -> interval ls' i = interval ls i.
Proof.
  intros E. unfold interval. rewrite E. destruct (decide (Z.to_nat i < length (intervals ls))%nat).
  - by rewrite lookup_app_l.
  - rewrite lookup_app_r by lia. rewrite (lookup_ge_None_2 (intervals ls)) by lia.
    destruct (replicate k iv0 !! _) eqn:Ek; [|done]. by apply lookup_replicate in Ek as [-> _].
Qed.

Lemma reserve_inv ls count : ls_inv ls -> ls_inv (tcc_ls_reserve ls count).
Proof.
  intros [Hok Hs]. destruct (reserve_same ls count) as (k & E1 & E2 & E3 & E4 & E5 & E6 & E7 & E8 & _). split.
  - destruct Hok as (H1 & H2 & H3). unfold ls_ok. rewrite E1, E2, length_app. split; [lia|]. split; [done|].
    apply Forall_app. split; [done|]. apply Forall_replicate, iv0_ok.
  - rewrite E3. intros Hv. apply (sweep_ok_ext ls); try done; [by apply Hs|].
    intros i _. rewrite (interval_app ls _ k i E1). apply rewrites_refl.
Qed.

Lemma new_interval_ok v start stop crosses taken type lval reg :
  0 <= start < 2 ^ 31 -> iv_ok (new_interval v start stop crosses taken type lval reg).
Proof. intros Hs. split; cbn; [rewrite u32_small by lia; lia|apply u32_bound]. Qed.

Lemma add_inv ls v start stop crosses taken type lval reg :
  ls_inv ls -> intervals ls <> [] -> 0 <= start < 2 ^ 31 -> next_interval_index ls + 1 < 2 ^ 31 ->
  ls_inv (tcc_ls_add_live_interval ls v start stop crosses taken type lval reg).
Proof.
  intros Hinv Hne Hs Hn. apply inv_cleared; [|done]. unfold tcc_ls_add_live_interval. cbv zeta.
  set (ls1 := if Z.leb _ _ then _ else ls).
  assert (Hk : ls_ok ls1 /\ next_interval_index ls1 = next_interval_index ls /\
    next_interval_index ls < Z.of_nat (length (intervals ls1))).
  { unfold ls1. destruct (Z.leb_spec (Z.of_nat (length (intervals ls))) (next_interval_index ls)) as [Hle|Hlt].
    - destruct (reserve_same ls (2 * Z.of_nat (length (intervals ls)))) as (k & E1 & E2 & _ & _ & _ & _ & _ & _ & _ & _ & E3).
      split; [by apply reserve_inv|]. split; [done|]. destruct Hinv as [(H1 & _) _].
      rewrite E3 by lia. destruct (intervals ls); [done|]. cbn [length] in *. lia.
    - split; [apply Hinv|]. split; [done|lia]. }
  destruct Hk as ((G1 & G2 & G3) & E & Hlt). clearbody ls1. unfold ls_ok.
  cbn [with_intervals intervals next_interval_index]. rewrite length_insert, E. split; [lia|]. split; [lia|].
  apply Forall_insert; [done|by apply new_interval_ok].
Qed.

Lemma rewrite_inv ls ivs :
  ls_inv ls -> Forall2 rewrites (intervals ls) ivs ->
  ls_inv (with_intervals ls ivs (next_interval_index ls) (live_sweep_valid ls)).
Proof.
  intros [(H1 & H2 & H3) Hs] Hr. split.
  - unfold ls_ok. cbn [with_intervals intervals next_interval_index]. rewrite <-(Forall2_length _ _ _ Hr).
    split; [done|]. split; [done|]. clear - H3 Hr. induction Hr as [|x y l k [R1 [R2 _]] _ IH]; [constructor|].
    apply Forall_cons in H3 as [[Hx1 Hx2] H3]. constructor; [|by apply IH]. split; [by rewrite R1|by rewrite R2].
  - cbn [with_intervals live_sweep_valid]. intros Hv. apply (sweep_ok_ext ls); try done; [by apply Hs|].
    intros i Hi. unfold interval. cbn [with_intervals intervals].
    destruct (lookup_lt_is_Some_2 (intervals ls) (Z.to_nat i)) as [x Hx]; [lia|].
    destruct (Forall2_lookup_l _ _ _ _ _ Hr Hx) as (y & Hy & R). by rewrite Hx, Hy.
Qed.

Lemma scratch_inv ls idx excl leaf :
  ls_inv ls -> is_int idx ->
  let ls' := (tcc_ls_find_free_scratch_reg ls idx excl leaf).1 in
  ls_inv ls' /\ intervals ls' = intervals ls /\ next_interval_index ls' = next_interval_index ls /\
  (scratch_cache_ok ls -> scratch_cache_ok ls').
Proof.
  intros Hinv Hidx. unfold tcc_ls_find_free_scratch_reg, scratch_live. cbv zeta.
  destruct (Z.eqb_spec (cached_instruction_idx ls) idx) as [He|He]; [done|].
  pose proof (compute_exact ls idx Hinv Hidx) as Hc. destruct (tcc_ls_compute_live_regs ls idx) as [ls' m].
  destruct Hc as (-> & Hinv' & E1 & E2). cbn [fst]. split; [by apply (inv_same ls')|]. split; [done|]. split; [done|].
  intros _ Hi. cbn [with_cache cached_live_regs cached_instruction_idx] in *. rewrite u32_small by (unfold is_int in Hidx; lia).
  unfold live_spec, used. cbn [with_cache intervals next_interval_index]. by rewrite E1, E2.
Qed.

Lemma advance_cache ls idx :
  cached_instruction_idx (ls_sweep_advance ls idx) = cached_instruction_idx ls /\
  cached_live_regs (ls_sweep_advance ls idx) = cached_live_regs ls.
Proof.
  unfold ls_sweep_advance, sweep_rebuild. cbv zeta. destruct (live_sweep_valid ls); by destruct (sweep_take _ _ _ _ _).
Qed.

(** A query keeps the intervals and the cache. *)
Lemma cache_same ls ls' :
  scratch_cache_ok ls -> intervals ls' = intervals ls -> next_interval_index ls' = next_interval_index ls ->
  cached_instruction_idx ls' = cached_instruction_idx ls -> cached_live_regs ls' = cached_live_regs ls -> scratch_cache_ok ls'.
Proof. intros Hc E1 E2 E3 E4. unfold scratch_cache_ok, live_spec, used. rewrite E1, E2, E3, E4. exact Hc. Qed.

Definition reach_ok (d : bool) (ls : LSLiveIntervalState) : Prop :=
  ls_inv ls /\ intervals ls <> [] /\ (d = false -> scratch_cache_ok ls).

Lemma query_ok d ls ls' :
  reach_ok d ls -> ls_inv ls' -> intervals ls' = intervals ls -> next_interval_index ls' = next_interval_index ls ->
  cached_instruction_idx ls' = cached_instruction_idx ls -> cached_live_regs ls' = cached_live_regs ls -> reach_ok d ls'.
Proof.
  intros (_ & Hne & Hc) Hi E1 E2 E3 E4. split; [done|]. split; [by rewrite E1|]. intros Hd. by apply (cache_same ls); [apply Hc|..].
Qed.

Lemma live_ok d ls idx : reach_ok d ls -> is_int idx -> reach_ok d (tcc_ls_compute_live_regs ls idx).1.
Proof.
  intros Hr Hi. pose proof (compute_exact ls idx (proj1 Hr) Hi) as Hc.
  assert (E : cached_instruction_idx (tcc_ls_compute_live_regs ls idx).1 = cached_instruction_idx ls /\
    cached_live_regs (tcc_ls_compute_live_regs ls idx).1 = cached_live_regs ls)
    by (unfold tcc_ls_compute_live_regs; destruct (Z.ltb idx 0); [done|apply advance_cache]).
  destruct (tcc_ls_compute_live_regs ls idx) as [ls' m]. destruct Hc as (_ & Hinv & E1 & E2), E. by apply (query_ok d ls).
Qed.

Lemma holder_ok d ls r idx :
  reach_ok d ls -> is_int idx -> core_reg r = true -> reach_ok d (tcc_ls_find_int_reg_holder ls r idx).1.
Proof.
  intros Hr Hi Hreg. destruct (Z_lt_le_dec idx 0) as [Hn|Hn]; [by rewrite holder_neg|].
  pose proof (holder_exact ls r idx (proj1 Hr) ltac:(unfold is_int in Hi; lia) Hreg) as Hc.
  assert (E : cached_instruction_idx (tcc_ls_find_int_reg_holder ls r idx).1 = cached_instruction_idx ls /\
    cached_live_regs (tcc_ls_find_int_reg_holder ls r idx).1 = cached_live_regs ls)
    by (unfold tcc_ls_find_int_reg_holder; destruct (Z.leb 0 idx); [apply advance_cache|done]).
  destruct (tcc_ls_find_int_reg_holder ls r idx) as [ls' b].
  destruct Hc as (_ & Hinv & E1 & E2), E. by apply (query_ok d ls).
Qed.

Lemma ls_reach_inv d ls : ls_reach d ls -> reach_ok d ls.
Proof.
  induction 1 as [ls|d ls _ IH|d ls _ IH|d ls count _ IH|d ls v start stop crosses taken type lval reg _ IH Hs Hn|d ls ivs _ IH Hr|
    d ls ivs _ IH Hl Hf|d ls bitmap spare dirty _ IH|d ls _ IH|d ls idx _ IH Hi|d ls r idx _ IH Hi Hr|d ls idx excl leaf _ IH Hi].
  - split; [apply inv_cleared; [|done]|split; [done|intros _ Hc; cbn in Hc; lia]].
    split; [cbn; lia|]. split; [cbn; lia|]. apply Forall_replicate, iv0_ok.
  - destruct IH as ([(G1 & G2 & G3) _] & Hne & _). split; [|split; [done|intros _ Hc; cbn in Hc; lia]].
    apply inv_cleared; [|done]. split; [cbn; lia|]. split; [cbn; lia|done].
  - destruct IH as (Hinv & Hne & _). split; [by apply (inv_same ls)|]. split; [done|]. intros _ Hc. cbn in Hc. lia.
  - destruct IH as (Hinv & Hne & Hc). destruct (reserve_same ls count) as (k & E1 & E2 & _ & _ & _ & _ & _ & _ & E3 & E4 & _).
    split; [by apply reserve_inv|]. split; [rewrite E1; by destruct (intervals ls)|]. intros Hd Hi. specialize (Hc Hd).
    unfold scratch_cache_ok in Hc. rewrite E3, E4 in *. rewrite (Hc Hi). unfold live_spec, used. rewrite E1, E2.
    destruct Hinv as [(G1 & _) _]. by rewrite take_app_le by lia.
  - destruct IH as (Hinv & Hne & _). split; [by apply add_inv|]. split; [|done]. unfold tcc_ls_add_live_interval. cbv zeta.
    cbn [with_intervals intervals]. intros E%(f_equal length). rewrite length_insert in E. destruct (Z.leb _ _).
    + destruct (reserve_same ls (2 * Z.of_nat (length (intervals ls)))) as (k & E1 & _). rewrite E1, length_app in E.
      destruct (intervals ls); done.
    + by destruct (intervals ls).
  - destruct IH as (Hinv & Hne & _). split; [by apply rewrite_inv|]. split; [|done]. cbn. intros ->.
    apply Forall2_length in Hr. by destruct (intervals ls).
  - destruct IH as ([(G1 & G2 & G3) _] & Hne & _). split; [apply inv_cleared; [|done]|].
    + unfold ls_ok. cbn [with_intervals intervals next_interval_index]. rewrite Hl. split; [exact G1|]. by split.
    + split; [|done]. cbn. intros ->. by destruct (intervals ls).
  - by apply (query_ok d ls); [|apply (inv_same ls); [apply IH|done..]|..].
  - unfold tcc_ls_recompute_dirty_registers. destruct (live_regs_by_instruction ls) as [[|m l]|]; [done| |done].
    by apply (query_ok d ls); [|apply (inv_same ls); [apply IH|done..]|..].
  - by apply live_ok.
  - by apply holder_ok.
  - destruct IH as (Hinv & Hne & Hc). destruct (scratch_inv ls idx excl leaf Hinv Hi) as (G1 & G2 & G3 & G4).
    split; [done|]. split; [by rewrite G2|]. intros Hd. by apply G4, Hc.
Qed.
End Reach.

(** C23: in every state of a function's code generation and for every position, in
    whatever order positions are asked for and however intervals were moved between
    registers since, the sweep reports exactly the registers a scan of all intervals
    reports live, and as the holder of a register the lowest interval that qualifies. *)
Theorem sweep_queries_exact `{IntSort} d ls idx r :
  ls_reach d ls -> is_int idx -> core_reg r = true ->
  (tcc_ls_compute_live_regs ls idx).2 = live_spec ls (u32 idx) /\
  (0 <= idx -> is_lowest (fun i => holds_int_reg (interval ls i) r idx) (next_interval_index ls)
                 (tcc_ls_find_int_reg_holder ls r idx).2).
Proof.
  intros Hr Hi Hreg. destruct (ls_reach_inv d ls Hr) as (Hinv & _). split.
  - pose proof (compute_exact ls idx Hinv Hi) as Hc. destruct (tcc_ls_compute_live_regs ls idx). apply Hc.
  - intros Hn. pose proof (holder_exact ls r idx Hinv) as Hc. destruct (tcc_ls_find_int_reg_holder ls r idx).
    apply Hc; [unfold is_int in Hi; lia|done].
Qed.

(** ** Scratch registers *)

(** Some interval in use has register [r] at [idx]. *)
Definition reg_live (ls : LSLiveIntervalState) (idx r : Z) : Prop :=
  exists iv, iv ∈ used ls /\ core_type iv = true /\ live_at iv idx /\ (r0 iv = r \/ r1 iv = r).

Lemma reg_bit_testbit q r : 0 <= r < 16 -> Z.testbit (reg_bit q) r = Z.eqb q r.
Proof.
  intros Hr. unfold reg_bit, core_reg. destruct (Z.leb_spec 0 q), (Z.ltb_spec q 16); cbn [andb];
    try (rewrite Z.bits_0; symmetry; apply Z.eqb_neq; lia).
  unfold shl32. rewrite Z.shiftl_1_l, u32_small by (split; [lia|apply Z.pow_lt_mono_r; lia]).
  apply Z.pow2_bits_eqb. lia.
Qed.

Lemma live_spec_reg ls idx r : 0 <= r < 16 -> Z.testbit (live_spec ls idx) r = true <-> reg_live ls idx r.
Proof.
  intros Hr. rewrite live_spec_bit, existsb_exists. unfold reg_live. split; intros (iv & Hiv & Hx); exists iv.
  - apply list_elem_of_In in Hiv. split; [done|]. pose proof (mask_live _ _ _ Hx) as [Hl Hc].
    unfold ls_interval_live_mask in Hx. destruct (core_type iv); cbn [negb] in Hx; [|by rewrite Z.bits_0 in Hx].
    split; [done|]. split; [done|]. destruct (_ && _); [|by rewrite Z.bits_0 in Hx].
    rewrite Z.lor_spec, !reg_bit_testbit in Hx by done. apply orb_prop in Hx as [Hx|Hx]; apply Z.eqb_eq in Hx; auto.
  - destruct Hx as (Hc & [H1 H2] & Hreg). split; [by apply list_elem_of_In|]. unfold ls_interval_live_mask.
    rewrite Hc, (proj2 (Z.leb_le _ _) H1), (proj2 (Z.leb_le _ _) H2). cbn [negb andb].
    rewrite Z.lor_spec, !reg_bit_testbit by done. destruct Hreg as [->| ->]; rewrite Z.eqb_refl; [done|apply orb_true_r].
Qed.

(** The registers the search may not return. *)
Definition taken_reg (ls : LSLiveIntervalState) (idx excl : Z) (leaf : bool) (r : Z) : Prop :=
  Z.testbit excl r = true \/ r = 13 \/ r = 15 \/ (leaf = true /\ r = 14) \/ reg_live ls idx r \/
  exists l m, live_regs_by_instruction ls = Some l /\ l !! Z.to_nat idx = Some m /\ Z.testbit m r = true.

Lemma not32_testbit x r : 0 <= r < 32 -> Z.testbit (~~~ x) r = negb (Z.testbit x r).
Proof.
  intros Hr. unfold not32, u32. rewrite Z.lxor_spec, Z.land_spec, Z.ones_spec_low, andb_true_r by lia.
  by destruct (Z.testbit x r).
Qed.

Lemma shl_testbit k r : 0 <= k < 32 -> Z.testbit (1 <<< k) r = Z.eqb k r.
Proof.
  intros Hk. unfold shl32. rewrite Z.shiftl_1_l, u32_small by (split; [lia|apply Z.pow_lt_mono_r; lia]).
  apply Z.pow2_bits_eqb. lia.
Qed.

Lemma bit_clear x k : 0 <= k < 32 -> truth (x &&& (1 <<< k)) = Z.testbit x k.
Proof.
  intros Hk. destruct (Z.testbit x k) eqn:E.
  - apply truth_true. intros Hz. apply (f_equal (fun z => Z.testbit z k)) in Hz.
    by rewrite Z.land_spec, E, shl_testbit, Z.eqb_refl, Z.bits_0 in Hz.
  - apply truth_false, Z.bits_inj'. intros i _. rewrite Z.land_spec, shl_testbit, Z.bits_0 by done.
    destruct (Z.eqb_spec k i) as [->|]; [by rewrite E|apply andb_false_r].
Qed.

Section Scratch.
Context `{IntSort} (ls : LSLiveIntervalState) (idx excl : Z) (leaf : bool).
Hypothesis Hreach : ls_reach false ls.
Hypothesis Hidx : 0 <= idx < 2 ^ 31.

Lemma scratch_live_bits r :
  0 <= r < 16 -> Z.testbit (scratch_live ls idx excl leaf).2 r = true <-> taken_reg ls idx excl leaf r.
Proof using Hreach Hidx.
  intros Hr. destruct (ls_reach_inv false ls Hreach) as (Hinv & _ & Hc). specialize (Hc eq_refl).
  assert (E : exists live, (scratch_live ls idx excl leaf).2 =
    match live_regs_by_instruction ls with
    | Some l => if Z.leb 0 idx && Z.ltb idx (Z.of_nat (length l))
                then (if leaf then excl ||| (1 <<< 13) ||| (1 <<< 14) else excl ||| (1 <<< 13)) ||| (1 <<< 15) ||| int_at l idx
                else (if leaf then excl ||| (1 <<< 13) ||| (1 <<< 14) else excl ||| (1 <<< 13)) ||| (1 <<< 15)
    | None => (if leaf then excl ||| (1 <<< 13) ||| (1 <<< 14) else excl ||| (1 <<< 13)) ||| (1 <<< 15)
    end ||| live /\ live = live_spec ls idx).
  { unfold scratch_live. cbv zeta. destruct (Z.eqb_spec (cached_instruction_idx ls) idx) as [He|He].
    - eexists. split; [reflexivity|]. rewrite (Hc ltac:(lia)). by rewrite He.
    - pose proof (compute_exact ls idx Hinv ltac:(unfold is_int; lia)) as Hx.
      destruct (tcc_ls_compute_live_regs ls idx) as [ls' m]. destruct Hx as (-> & _).
      rewrite u32_small by lia. by eexists. }
  destruct E as (live & -> & ->). rewrite Z.lor_spec, orb_true_iff, (live_spec_reg ls idx r Hr).
  assert (Eb : Z.testbit ((if leaf then excl ||| (1 <<< 13) ||| (1 <<< 14) else excl ||| (1 <<< 13)) ||| (1 <<< 15)) r = true <->
    Z.testbit excl r = true \/ r = 13 \/ r = 15 \/ (leaf = true /\ r = 14)).
  { destruct leaf; rewrite !Z.lor_spec, !shl_testbit, !orb_true_iff, !Z.eqb_eq by lia; intuition congruence. }
  unfold taken_reg. destruct (live_regs_by_instruction ls) as [l|].
  - destruct (Z.leb_spec 0 idx), (Z.ltb_spec idx (Z.of_nat (length l))); cbn [andb]; try lia.
    + destruct (lookup_lt_is_Some_2 l (Z.to_nat idx)) as [m Hm]; [lia|].
      assert (Em : int_at l idx = m) by (unfold int_at; by rewrite Hm). rewrite Z.lor_spec, orb_true_iff, Eb, Em.
      split; [intros [[Hx|Hx]|Hx]; [tauto|do 5 right; by exists l, m|tauto]|].
      intros [|[|[|[|[|(l' & m' & [= <-] & Hl & Ht)]]]]]; [tauto..|].
      rewrite Hm in Hl. injection Hl as <-. tauto.
    + rewrite Eb. split; [tauto|]. intros [|[|[|[|[|(l' & m' & [= <-] & Hl & Ht)]]]]]; [tauto..|].
      apply lookup_lt_Some in Hl. lia.
  - rewrite Eb. split; [tauto|]. intros [|[|[|[|[|(l' & m' & [=] & _)]]]]]; tauto.
Qed.

Lemma scratch_spare : spare_scratch_regs (scratch_live ls idx excl leaf).1 = spare_scratch_regs ls.
Proof using.
  unfold scratch_live, tcc_ls_compute_live_regs, ls_sweep_advance, sweep_rebuild. cbv zeta.
  destruct (Z.eqb _ _); [done|]. destruct (Z.ltb idx 0); [done|].
  destruct (live_sweep_valid ls); by destruct (sweep_take _ _ _ _ _).
Qed.
End Scratch.

(** A search of a 16-bit mask. *)
Lemma mask_search x :
  0 <= x < 2 ^ 16 ->
  (truth x = true /\ 0 <= ctz32 x < 16 /\ Z.testbit x (ctz32 x) = true) \/
  (truth x = false /\ forall q, Z.testbit x q = false).
Proof.
  intros Hx. destruct (truth x) eqn:E.
  - apply truth_true in E. left. destruct (ctz_testbit x ltac:(lia)) as [H1 H2]. split; [done|]. split; [|done].
    split; [done|]. apply Z.nle_gt. intros Hge. rewrite (testbit_above 16 x) in H2 by lia. discriminate.
  - apply truth_false in E as ->. right. split; [done|]. apply Z.bits_0.
Qed.

Lemma land_bound16 a b : 0 <= b < 2 ^ 16 -> 0 <= Z.land a b < 2 ^ 16.
Proof.
  intros Hb. replace b with (Z.land b (Z.ones 16)) by (rewrite Z.land_ones, Z.mod_small by lia; done).
  rewrite Z.land_assoc. apply land_ones_bound. lia.
Qed.

(** The scratch register handed out is a core register that is not excluded, not
    SP, PC or (in a leaf) LR, and that no live interval and no bit of the precomputed map
    holds at the instruction, whether or not the cached mask was used; none is reported
    only when R0-R3, R12, LR and every spare register are taken. *)
Theorem scratch_reg_free `{IntSort} ls idx excl leaf :
  ls_reach false ls -> 0 <= idx < 2 ^ 31 -> 0 <= spare_scratch_regs ls < 2 ^ 16 ->
  let r := (tcc_ls_find_free_scratch_reg ls idx excl leaf).2 in
  let offered q := 0 <= q <= 3 \/ q = 12 \/ q = 14 \/ (0 <= q < 16 /\ Z.testbit (spare_scratch_regs ls) q = true) in
  (r <> PREG_NONE /\ 0 <= r < 16 /\ offered r /\ ~ taken_reg ls idx excl leaf r) \/
  (r = PREG_NONE /\ forall q, offered q -> taken_reg ls idx excl leaf q).
Proof.
  intros Hr Hi Hsp r offered.
  pose proof (scratch_live_bits ls idx excl leaf Hr Hi) as Hbits.
  pose proof (scratch_spare ls idx excl leaf) as Hspare. unfold r, tcc_ls_find_free_scratch_reg.
  destruct (scratch_live ls idx excl leaf) as [ls' live]. cbn [fst snd] in *. rewrite Hspare.
  set (low := (~~~ live) &&& 0xf). set (spare := spare_scratch_regs ls &&& (~~~ live)).
  assert (Hlow : forall q, 0 <= q < 16 -> Z.testbit low q = negb (Z.testbit live q) && Z.leb q 3).
  { intros q Hq. unfold low. rewrite Z.land_spec, not32_testbit by lia. f_equal. change 0xf with (Z.ones 4).
    destruct (Z.leb_spec q 3); [apply Z.ones_spec_low; lia|apply Z.ones_spec_high; lia]. }
  assert (Hsb : forall q, 0 <= q < 16 -> Z.testbit spare q = Z.testbit (spare_scratch_regs ls) q && negb (Z.testbit live q)).
  { intros q Hq. unfold spare. by rewrite Z.land_spec, not32_testbit by lia. }
  assert (Htk : forall q, 0 <= q < 16 -> Z.testbit live q = false -> ~ taken_reg ls idx excl leaf q)
    by (intros q Hq Hf; rewrite <-Hbits by done; congruence).
  assert (Htk' : forall q, 0 <= q < 16 -> Z.testbit live q = true -> taken_reg ls idx excl leaf q) by (intros; by apply Hbits).
  rewrite !bit_clear by lia. unfold PREG_NONE.
  destruct (mask_search low) as [(-> & Hc & Ht)|(-> & H1)]; [by apply land_bound16| |].
  { left. rewrite Hlow in Ht by done. apply andb_prop in Ht as [Ht%negb_true_iff Hle%Z.leb_le].
    split; [lia|]. split; [done|]. split; [left; lia|]. by apply Htk. }
  destruct (Z.testbit live 12) eqn:E12; cbn [negb]; [|left; split; [done|]; split; [done|]; split; [by right; left|by apply Htk]].
  destruct (mask_search spare) as [(-> & Hc & Ht)|(-> & H2)]; [unfold spare; rewrite Z.land_comm; by apply land_bound16| |].
  { left. rewrite Hsb in Ht by done. apply andb_prop in Ht as [Hs Ht%negb_true_iff].
    split; [lia|]. split; [done|]. split; [by right; right; right|by apply Htk]. }
  assert (Hrest : taken_reg ls idx excl leaf 14 -> forall q, offered q -> taken_reg ls idx excl leaf q).
  { intros H14 q [Hq|[->|[->|[Hq Hs]]]]; [|by apply Htk'|done|].
    - apply Htk'; [lia|]. specialize (H1 q). rewrite Hlow, (proj2 (Z.leb_le q 3)), andb_true_r in H1 by lia.
      by apply negb_false_iff.
    - apply Htk'; [lia|]. specialize (H2 q). rewrite Hsb, Hs in H2 by lia. by apply negb_false_iff. }
  destruct leaf; cbn [negb andb].
  { right. split; [done|]. apply Hrest. unfold taken_reg. tauto. }
  destruct (Z.testbit live 14) eqn:E14; cbn [negb].
  - right. split; [done|]. by apply Hrest, Htk'.
  - left. split; [done|]. split; [done|]. split; [by right; right; left|by apply Htk].
Qed.

(** ** A small function *)

#[local] Instance demo_sort : IntSort := tcc_int_sort 4.

Definition demo_empty : LSLiveIntervalState := mk_ls [] 0 0 0 0 0 None 0 0 None 0 0 [] [] false 0 0 0.

(** R0 and R1 held by an [int] and a [long long] that overlap at instruction 4. *)
Definition demo_ls : LSLiveIntervalState :=
  let ls := tcc_ls_initialize demo_empty in
  let ls := tcc_ls_add_live_interval ls 1 0 6 0 0 LS_REG_TYPE_INT 0 0 in
  let ls := tcc_ls_add_live_interval ls 2 4 9 0 0 LS_REG_TYPE_LLONG 0 1 in
  let ls := tcc_ls_add_live_interval ls 3 8 9 0 0 LS_REG_TYPE_INT 0 2 in
  tcc_ls_reset_scratch_cache ls.

Lemma demo_ls_reach : ls_reach false demo_ls.
Proof.
  unfold demo_ls. eapply reach_reset. eapply reach_add; [|lia|vm_compute; reflexivity].
  eapply reach_add; [|lia|vm_compute; reflexivity]. eapply reach_add; [|lia|vm_compute; reflexivity]. apply reach_init.
Qed.

Lemma sweep_queries_exact_witness :
  (tcc_ls_compute_live_regs demo_ls 4).2 = live_spec demo_ls 4 /\ live_spec demo_ls 4 = 3 /\
  is_lowest (fun i => holds_int_reg (interval demo_ls i) 0 4) 3 (tcc_ls_find_int_reg_holder demo_ls 0 4).2 /\
  (tcc_ls_find_int_reg_holder demo_ls 0 4).2 = 0.
Proof.
  destruct (sweep_queries_exact false demo_ls 4 0 demo_ls_reach ltac:(unfold is_int; lia) eq_refl) as [H1 H2].
  split; [exact H1|]. split; [vm_compute; reflexivity|]. split; [apply H2; lia|vm_compute; reflexivity].
Defined.

Lemma scratch_reg_free_witness :
  ~ taken_reg demo_ls 4 0 false 2 /\ (tcc_ls_find_free_scratch_reg demo_ls 4 0 false).2 = 2.
Proof.
  assert (E : (tcc_ls_find_free_scratch_reg demo_ls 4 0 false).2 = 2) by (vm_compute; reflexivity).
  split; [|exact E].
  destruct (scratch_reg_free demo_ls 4 0 false demo_ls_reach ltac:(lia) ltac:(vm_compute; split; [discriminate|reflexivity]))
    as [(_ & _ & _ & H)|(H & _)]; rewrite E in H; [exact H|discriminate H].
Defined.
