(* ===== verification/LsHeld.v ===== *)
(** * Releasing a register over a range ([tcc_ls_reg_held_by_other_range])

    The difference array gives, for a whole range at once, the answers
    [tcc_ls_reg_held_by_other] gives one position at a time. *)

From S2P Require Import Prelude BitReflect SortSpec Sort Qsort IntSort LinearScan LsSweep LsScratch.
From stdpp Require Import list.
Local Open Scope Z_scope.
Local Open Scope c_scope.

Definition sum (l : list Z) : Z := foldr Z.add 0 l.

(** The sum of the first [k + 1] cells. *)
Definition psum (l : list Z) (k : nat) : Z := sum (take (S k) l).

Lemma sum_app l1 l2 : sum (l1 ++ l2) = sum l1 + sum l2.
Proof. induction l1 as [|x l1 IH]; cbn [app sum foldr] in *; [done|]. unfold sum in *. lia. Qed.

Lemma psum_add l i d k :
  0 <= i < Z.of_nat (length l) ->
  psum (set_int l i (int_at l i + d)) k = psum l k + (if Z.leb i (Z.of_nat k) then d else 0).
Proof.
  intros Hi. destruct (lookup_lt_is_Some_2 l (Z.to_nat i)) as [x Hx]; [lia|].
  assert (E : int_at l i = x) by (unfold int_at; by rewrite Hx). rewrite E. unfold set_int, psum.
  destruct (Z.leb_spec i (Z.of_nat k)) as [Hle|Hgt].
  - rewrite take_insert_lt by lia. pose proof (take_drop_middle _ _ _ Hx) as Hs.
    assert (Ht : take (S k) l !! Z.to_nat i = Some x) by (rewrite lookup_take_lt by lia; done).
    rewrite <-(take_drop_middle _ _ _ Ht) at 2. rewrite insert_take_drop by (by eapply lookup_lt_Some).
    rewrite !sum_app. unfold sum. cbn [foldr]. lia.
  - rewrite take_insert_ge by lia. lia.
Qed.

Lemma held_sum_lookup l c k : (k < length l)%nat -> held_sum l c !! k = Some (truth (c + psum l k)).
Proof.
  revert c k. induction l as [|x l IH]; intros c k Hk; cbn [length] in Hk; [lia|]. cbn [held_sum].
  destruct k as [|k]; cbn [lookup list_lookup].
  - unfold psum, sum. cbn. by rewrite Z.add_0_r.
  - rewrite IH by lia. unfold psum, sum. cbn [take foldr]. by rewrite Z.add_assoc.
Qed.

Lemma held_sum_length l c : length (held_sum l c) = length l.
Proof. revert c. induction l as [|x l IH]; intros c; cbn [held_sum length]; [done|]. by rewrite IH. Qed.

Section Held.
Context (ls : LSLiveIntervalState) (reg start stop skip : Z).
Hypothesis Hok : ls_ok ls.
Hypothesis Hrange : 0 <= start <= stop /\ stop < 2 ^ 31.

(** Interval [i] is another claimant live at [k]. *)
Definition covers (i k : Z) : bool :=
  let iv := interval ls i in
  negb (Z.eqb i skip) && claims iv reg && Z.leb (iv_start iv) k && Z.leb k (iv_end iv).

Lemma held_delta_step delta i k :
  Z.of_nat (length delta) = stop - start + 2 -> start <= k <= stop ->
  length (held_delta ls reg start stop skip delta i) = length delta /\
  psum (held_delta ls reg start stop skip delta i) (Z.to_nat (k - start)) = psum delta (Z.to_nat (k - start)) + b2z (covers i k).
Proof using Hok Hrange.
  intros Hl Hk. unfold held_delta, covers. cbv zeta. destruct (Z.eqb i skip); cbn [orb negb andb]; [split; [done|cbn; lia]|].
  destruct (claims (interval ls i) reg); cbn [negb andb]; [|split; [done|cbn; lia]].
  destruct (interval_ok ls i Hok) as [H1 H2]. set (iv := interval ls i) in *.
  set (lo := if Z.ltb start (iv_start iv) then iv_start iv else start).
  set (hi := if Z.ltb (iv_end iv) stop then iv_end iv else stop).
  assert (Hlo : lo = Z.max start (iv_start iv)) by (unfold lo; destruct (Z.ltb_spec start (iv_start iv)); lia).
  assert (Hhi : hi = Z.min stop (iv_end iv)) by (unfold hi; destruct (Z.ltb_spec (iv_end iv) stop); lia).
  clearbody lo hi. destruct (Z.ltb_spec hi lo) as [Hlt|Hge].
  - split; [done|]. destruct (Z.leb_spec (iv_start iv) k), (Z.leb_spec k (iv_end iv)); cbn; lia.
  - split; [by rewrite !set_int_length|].
    match goal with |- context [int_at ?l ?i - 1] => change (int_at l i - 1) with (int_at l i + -1) end.
    rewrite (psum_add _ (hi - start + 1) (-1)) by (rewrite set_int_length; lia). rewrite psum_add by lia.
    rewrite Z2Nat.id by lia.
    destruct (Z.leb_spec (lo - start) (k - start)), (Z.leb_spec (hi - start + 1) (k - start)),
      (Z.leb_spec (iv_start iv) k), (Z.leb_spec k (iv_end iv)); cbn [andb b2z]; lia.
Qed.

Lemma held_fold l delta k :
  Z.of_nat (length delta) = stop - start + 2 -> start <= k <= stop ->
  let delta' := fold_left (held_delta ls reg start stop skip) l delta in
  length delta' = length delta /\
  psum delta' (Z.to_nat (k - start)) = psum delta (Z.to_nat (k - start)) + sum (map (fun i => b2z (covers i k)) l).
Proof using Hok Hrange.
  intros Hl Hk. revert delta Hl. induction l as [|i l IH]; intros delta Hl; cbn [fold_left map].
  - cbn. split; [done|lia].
  - destruct (held_delta_step delta i k Hl Hk) as [E1 E2]. destruct (IH (held_delta ls reg start stop skip delta i)) as [E3 E4];
      [by rewrite E1|]. cbv zeta in *. rewrite E3, E4, E1, E2. split; [done|]. unfold sum. cbn [foldr]. lia.
Qed.

Lemma count_truth (P : Z -> bool) l : truth (sum (map (fun i => b2z (P i)) l)) = existsb P l.
Proof.
  assert (Hn : forall l, 0 <= sum (map (fun i => b2z (P i)) l))
    by (intros l'; unfold sum; induction l' as [|x l' IH]; cbn; [lia|destruct (P x); cbn; lia]).
  induction l as [|x l IH]; cbn [map existsb]; [done|]. unfold sum in *. cbn [foldr]. specialize (Hn l).
  destruct (P x); cbn [b2z orb]; [apply truth_true; lia|]. by rewrite Z.add_0_l.
Qed.

Lemma psum_zeros n k : psum (replicate n 0) k = 0.
Proof.
  unfold psum, sum. rewrite take_replicate. induction (Init.Nat.min (S k) n) as [|m IH]; cbn; [done|]. exact IH.
Qed.

Lemma held_range_lookup k :
  start <= k <= stop ->
  tcc_ls_reg_held_by_other_range ls reg start stop skip !! Z.to_nat (k - start) =
  Some (tcc_ls_reg_held_by_other ls reg k skip).
Proof using Hok Hrange.
  intros Hk. unfold tcc_ls_reg_held_by_other_range. cbv zeta.
  rewrite (proj2 (Z.leb_le 0 start)), (proj2 (Z.leb_le start stop)) by lia. cbn [andb].
  rewrite (proj2 (Z.ltb_lt 0 _)) by lia.
  destruct (held_fold (seqZ 0 (next_interval_index ls)) (replicate (Z.to_nat (stop - start + 1 + 1)) 0) k) as [E1 E2];
    [rewrite length_replicate; lia|done|]. cbv zeta in *.
  set (delta := fold_left _ _ _) in *. rewrite length_replicate in E1. rewrite psum_zeros, Z.add_0_l in E2.
  rewrite held_sum_lookup by (rewrite length_take; lia). f_equal. rewrite Z.add_0_l.
  assert (Et : psum (take (Z.to_nat (stop - start + 1)) delta) (Z.to_nat (k - start)) = psum delta (Z.to_nat (k - start)))
    by (unfold psum; by rewrite take_take, Nat.min_l by lia).
  rewrite Et, E2, count_truth. unfold tcc_ls_reg_held_by_other, covers. by rewrite u32_small by lia.
Qed.
End Held.

(** The array returned for a range has, for every position of the range, the answer
    the single query gives there; it is empty when the range is. *)
Theorem held_range_pointwise `{IntSort} d ls reg start stop skip :
  ls_reach d ls -> stop < 2 ^ 31 ->
  let held := tcc_ls_reg_held_by_other_range ls reg start stop skip in
  Z.of_nat (length held) = (if Z.leb 0 start && Z.leb start stop then stop - start + 1 else 0) /\
  forall k, 0 <= start <= k -> k <= stop ->
    held !! Z.to_nat (k - start) = Some (tcc_ls_reg_held_by_other ls reg k skip).
Proof.
  intros Hr Hs. destruct (ls_reach_inv d ls Hr) as ([Hok _] & _). cbv zeta. split.
  - destruct (Z.leb_spec 0 start), (Z.leb_spec start stop); cbn [andb];
      try (unfold tcc_ls_reg_held_by_other_range; cbv zeta;
           match goal with |- context [Z.leb 0 start] => destruct (Z.leb_spec 0 start), (Z.leb_spec start stop); cbn [andb]; try lia end;
           cbn; done).
    unfold tcc_ls_reg_held_by_other_range. cbv zeta. rewrite (proj2 (Z.leb_le 0 start)), (proj2 (Z.leb_le start stop)) by lia.
    cbn [andb]. rewrite (proj2 (Z.ltb_lt 0 _)) by lia.
    destruct (held_fold ls reg start stop skip Hok ltac:(lia) (seqZ 0 (next_interval_index ls))
      (replicate (Z.to_nat (stop - start + 1 + 1)) 0) start) as [E _]; [rewrite length_replicate; lia|lia|].
    cbv zeta in E. rewrite held_sum_length, length_take, E, length_replicate. lia.
  - intros k Hk1 Hk2. apply held_range_lookup; [done|lia|lia].
Qed.

Lemma held_range_pointwise_witness :
  tcc_ls_reg_held_by_other_range demo_ls 1 2 6 (-1) = [false; false; true; true; true] /\
  tcc_ls_reg_held_by_other_range demo_ls 1 2 6 (-1) !! 2%nat = Some (tcc_ls_reg_held_by_other demo_ls 1 4 (-1)).
Proof.
  split; [vm_compute; reflexivity|].
  destruct (held_range_pointwise (H := tcc_int_sort 4) false demo_ls 1 2 6 (-1) demo_ls_reach ltac:(lia)) as [_ H].
  apply (H 4); lia.
Defined.
