(* ===== verification/SpillSlots.v ===== *)
(** * Packing the spill slots ([tcc_ls_compact_stack_locations_weighted])

    The distinct stack locations of the intervals are collected through an
    open-addressed hash table, laid out downwards from the spill base, coldest first
    when weights are given, and written back. *)

From S2P Require Import Prelude BitReflect SortSpec IntSort LinearScan.
From stdpp Require Import list.
Local Open Scope Z_scope.
Local Open Scope c_scope.

Definition tcc_ls_reg_type_stack_size (type : Z) : Z :=
  if Z.eqb type LS_REG_TYPE_LLONG || Z.eqb type LS_REG_TYPE_DOUBLE || Z.eqb type LS_REG_TYPE_DOUBLE_SOFT ||
     Z.eqb type LS_REG_TYPE_COMPLEX_FLOAT then 8
  else if Z.eqb type LS_REG_TYPE_COMPLEX_DOUBLE then 16
  else 4.

Record SlotMapEntry := mk_slot { old_offset : Z; slot_size : Z; new_offset : Z; weight : Z }.

Definition slot0 : SlotMapEntry := mk_slot 0 4 0 0.
Definition slot_at (map : list SlotMapEntry) (j : Z) : SlotMapEntry := default slot0 (map !! Z.to_nat j).

(** The products are 64-bit and cannot overflow. *)
Definition slot_cold_first (map : list SlotMapEntry) (i j : Z) : Z :=
  let x := slot_at map i in
  let y := slot_at map j in
  let lx := weight x * slot_size y in
  let ly := weight y * slot_size x in
  if negb (Z.eqb lx ly) then if Z.ltb lx ly then -1 else 1
  else if Z.ltb i j then -1 else b2z (Z.ltb j i).

(** [while (ht_size < (unsigned)n * 2) ht_size <<= 1;] *)
Fixpoint grow_ht (fuel : nat) (ht_size n : Z) : Z :=
  match fuel with
  | O => ht_size
  | S f => if Z.ltb ht_size (u32 (n * 2)) then grow_ht f (ht_size <<< 1) n else ht_size
  end.

Definition SLOT_HASH (ht_size off : Z) : Z := u32 (u32 off * 2654435761) &&& (ht_size - 1).

(** [while (ht[h] >= 0 && map[ht[h]].old_offset != off) h = (h + 1) & (ht_size - 1);] *)
Fixpoint slot_probe (fuel : nat) (ht : list Z) (map : list SlotMapEntry) (ht_size off h : Z) : Z :=
  match fuel with
  | O => h
  | S f => if Z.leb 0 (int_at ht h) && negb (Z.eqb (old_offset (slot_at map (int_at ht h))) off)
           then slot_probe f ht map ht_size off ((h + 1) &&& (ht_size - 1)) else h
  end.

Definition slot_find (ht : list Z) (map : list SlotMapEntry) (off : Z) : Z :=
  let ht_size := Z.of_nat (length ht) in
  slot_probe (length ht) ht map ht_size off (SLOT_HASH ht_size off).

Definition grow_slot (e : SlotMapEntry) (size : Z) (w : option Z) : SlotMapEntry :=
  mk_slot (old_offset e) (if Z.ltb (slot_size e) size then size else slot_size e) (new_offset e)
    (match w with Some w => u32 (weight e + w) | None => weight e end).

(** Pass 1, interval [i]. *)
Definition collect_step (ls : LSLiveIntervalState) (weights : option (list Z)) (st : list SlotMapEntry * list Z) (i : Z)
    : list SlotMapEntry * list Z :=
  let '(map, ht) := st in
  let it := interval ls i in
  if Z.eqb (stack_location it) 0 then st
  else
    let size := tcc_ls_reg_type_stack_size (reg_type it) in
    let off := s32 (stack_location it) in
    let h := slot_find ht map off in
    let '(map, ht) := if Z.ltb (int_at ht h) 0
                      then (map ++ [mk_slot off size 0 0], set_int ht h (Z.of_nat (length map))) else (map, ht) in
    let j := int_at ht h in
    (<[Z.to_nat j := grow_slot (slot_at map j) size (option_map (fun ws => int_at ws i) weights)]> map, ht).

(** Pass 2, one slot: the next offset below [loc]. *)
Definition assign_step (st : Z * list SlotMapEntry) (j : Z) : Z * list SlotMapEntry :=
  let '(loc, map) := st in
  let e := slot_at map j in
  let size := slot_size e in
  let loc := Z.land (loc - size) (- size) in
  let loc := if Z.eqb loc 0 then - size else loc in
  (loc, <[Z.to_nat j := mk_slot (old_offset e) size loc (weight e)]> map).

Definition set_location (it : LSLiveInterval) (loc : Z) : LSLiveInterval :=
  mk_iv (vreg it) loc (iv_start it) (iv_end it) (r0 it) (r1 it) (crosses_call it) (addrtaken it) (reg_type it) (lvalue it)
    (co_member it) (caller_save it).

(** Pass 3, one interval. *)
Definition rewrite_slot (ht : list Z) (map : list SlotMapEntry) (it : LSLiveInterval) : LSLiveInterval :=
  if Z.eqb (stack_location it) 0 then it
  else
    let h := slot_find ht map (s32 (stack_location it)) in
    if Z.leb 0 (int_at ht h) then set_location it (u32 (new_offset (slot_at map (int_at ht h)))) else it.

Section Compact.
Context `{IntSort}.

Definition slot_order (map : list SlotMapEntry) (weights : option (list Z)) : list Z :=
  let order := seqZ 0 (Z.of_nat (length map)) in
  match weights with Some _ => qsort_int (slot_cold_first map) order | None => order end.

Definition tcc_ls_compact_stack_locations_weighted (ls : LSLiveIntervalState) (spill_base : Z) (weights : option (list Z))
    : LSLiveIntervalState :=
  let spill_base := if Z.ltb 0 spill_base then 0 else spill_base in
  let n := next_interval_index ls in
  if Z.eqb n 0 then ls
  else
    let ht := replicate (Z.to_nat (grow_ht 32 16 n)) (-1) in
    let '(map, ht) := fold_left (collect_step ls weights) (seqZ 0 n) ([], ht) in
    let '(_, map) := fold_left assign_step (slot_order map weights) (spill_base, map) in
    let ivs := (rewrite_slot ht map <$> take (Z.to_nat n) (intervals ls)) ++ drop (Z.to_nat n) (intervals ls) in
    with_intervals ls ivs n (live_sweep_valid ls).

Definition tcc_ls_compact_stack_locations (ls : LSLiveIntervalState) (spill_base : Z) : LSLiveIntervalState :=
  tcc_ls_compact_stack_locations_weighted ls spill_base None.
End Compact.

(** ** The hash table *)

(** The table is right for the offsets [olds]: each offset's index is reached from its
    hash through occupied slots, and no index is in two slots. *)
Section Table.
Context (k : Z).
Hypothesis Hk : 0 <= k < 32.
Notation size := (2 ^ k).

Definition slot_pos (off d : Z) : Z := (SLOT_HASH size off + d) mod size.

Record table_ok (ht : list Z) (olds : list Z) : Prop := mk_table_ok {
  to_length : Z.of_nat (length ht) = size;
  to_range : forall h j, int_at ht h = j -> 0 <= h < size -> j = -1 \/ 0 <= j < Z.of_nat (length olds);
  to_inj : forall h h', 0 <= h < size -> 0 <= h' < size -> 0 <= int_at ht h -> int_at ht h = int_at ht h' -> h = h';
  to_reach : forall (j : nat) off, olds !! j = Some off -> exists d, 0 <= d < size /\
    int_at ht (slot_pos off d) = Z.of_nat j /\ forall d', 0 <= d' < d -> 0 <= int_at ht (slot_pos off d')
}.

Lemma size_pos : 0 < size.
Proof using Hk. apply Z.pow_pos_nonneg; lia. Qed.

Lemma slot_pos_range off d : 0 <= slot_pos off d < size.
Proof using Hk. apply Z.mod_pos_bound, size_pos. Qed.

Lemma land_size x : x &&& (size - 1) = x mod size.
Proof using Hk. rewrite <-Z.land_ones by lia. by rewrite Z.ones_equiv, Z.sub_1_r. Qed.

Lemma slot_hash_range off : 0 <= SLOT_HASH size off < size.
Proof using Hk. unfold SLOT_HASH. rewrite land_size. apply Z.mod_pos_bound, size_pos. Qed.

Lemma slot_pos_0 off : slot_pos off 0 = SLOT_HASH size off.
Proof using Hk. unfold slot_pos. rewrite Z.add_0_r. apply Z.mod_small, slot_hash_range. Qed.

Lemma slot_pos_next off d : ((slot_pos off d + 1) &&& (size - 1)) = slot_pos off (d + 1).
Proof using Hk. rewrite land_size. unfold slot_pos. rewrite Zplus_mod_idemp_l. f_equal. lia. Qed.

(** The probe stops at the first slot that is empty or holds the offset. *)
Definition stops (ht : list Z) (map : list SlotMapEntry) (off h : Z) : Prop :=
  int_at ht h < 0 \/ old_offset (slot_at map (int_at ht h)) = off.

Lemma probe_spec ht map off fuel d :
  0 <= d -> (exists d', d <= d' < d + Z.of_nat fuel /\ stops ht map off (slot_pos off d')) ->
  exists d', d <= d' /\ slot_probe fuel ht map size off (slot_pos off d) = slot_pos off d' /\
    stops ht map off (slot_pos off d') /\ forall e, d <= e < d' -> ~ stops ht map off (slot_pos off e).
Proof using Hk.
  revert d. induction fuel as [|fuel IH]; intros d Hd (d' & Hd' & Hs); [lia|]. cbn [slot_probe].
  assert (Hdec : {stops ht map off (slot_pos off d)} + {~ stops ht map off (slot_pos off d)}).
  { unfold stops. destruct (Z_lt_dec (int_at ht (slot_pos off d)) 0); [left; auto|].
    destruct (Z.eq_dec (old_offset (slot_at map (int_at ht (slot_pos off d)))) off); [left; auto|right; tauto]. }
  destruct Hdec as [Hst|Hst].
  - exists d. split; [lia|]. split; [|split; [done|lia]]. destruct Hst as [Hst|Hst].
    + by rewrite (proj2 (Z.leb_gt 0 _)) by lia.
    + rewrite Hst, Z.eqb_refl. by rewrite andb_false_r.
  - assert (Hc : Z.leb 0 (int_at ht (slot_pos off d)) && negb (Z.eqb (old_offset (slot_at map (int_at ht (slot_pos off d)))) off) = true).
    { unfold stops in Hst. apply andb_true_intro. split; [apply Z.leb_le; lia|]. apply negb_true_iff, Z.eqb_neq. tauto. }
    rewrite Hc, slot_pos_next. destruct (decide (d' = d)) as [->|]; [done|].
    destruct (IH (d + 1)) as (e & He & E & H1 & H2); [lia|exists d'; split; [lia|done]|].
    exists e. split; [lia|]. split; [done|]. split; [done|]. intros x Hx.
    destruct (decide (x = d)) as [->|]; [done|]. apply H2. lia.
Qed.

Section Find.
Context (ht : list Z) (map : list SlotMapEntry).
Hypothesis Hht : table_ok ht (old_offset <$> map).

Lemma slot_lookup j : 0 <= j < Z.of_nat (length map) ->
  (old_offset <$> map) !! Z.to_nat j = Some (old_offset (slot_at map j)).
Proof.
  intros Hj. rewrite list_lookup_fmap. unfold slot_at. destruct (lookup_lt_is_Some_2 map (Z.to_nat j)) as [e He]; [lia|].
  by rewrite He.
Qed.

Lemma find_probe off d :
  0 <= d < size -> stops ht map off (slot_pos off d) ->
  exists d', 0 <= d' <= d /\ slot_find ht map off = slot_pos off d' /\ stops ht map off (slot_pos off d') /\
    forall e, 0 <= e < d' -> ~ stops ht map off (slot_pos off e).
Proof using Hk Hht.
  intros Hd Hs. unfold slot_find. cbv zeta. rewrite (to_length _ _ Hht), <-slot_pos_0.
  destruct (probe_spec ht map off (length ht) 0) as (d' & H1 & H2 & H3 & H4); [lia| |].
  - exists d. rewrite (to_length _ _ Hht). split; [lia|done].
  - exists d'. split; [|done]. split; [done|]. apply Z.nlt_ge. intros Hlt. apply (H4 d); [lia|done].
Qed.

Lemma find_known off (j : nat) :
  NoDup (old_offset <$> map) -> (old_offset <$> map) !! j = Some off -> int_at ht (slot_find ht map off) = Z.of_nat j.
Proof using Hk Hht.
  intros Hn Hj. destruct (to_reach _ _ Hht j off Hj) as (d & Hd & Ht & Hbefore).
  assert (Hjl : (j < length map)%nat) by (apply lookup_lt_Some in Hj; by rewrite length_fmap in Hj).
  destruct (find_probe off d Hd) as (d' & Hd' & -> & Hs & _).
  { right. rewrite Ht. pose proof (slot_lookup (Z.of_nat j) ltac:(lia)) as E. rewrite Nat2Z.id, Hj in E. by injection E. }
  assert (Hnn : 0 <= int_at ht (slot_pos off d')) by (destruct (decide (d' = d)) as [->|]; [lia|apply Hbefore; lia]).
  destruct Hs as [Hs|Hs]; [lia|]. set (j' := int_at ht (slot_pos off d')) in *.
  destruct (to_range _ _ Hht (slot_pos off d') j' eq_refl (slot_pos_range off d')) as [|Hr]; [lia|]. rewrite length_fmap in Hr.
  pose proof (slot_lookup j' Hr) as E. rewrite Hs in E. pose proof (NoDup_lookup _ _ _ _ Hn E Hj). lia.
Qed.

(** A table with fewer offsets than slots has an empty slot. *)
Lemma empty_slot : Z.of_nat (length map) < size -> exists h, 0 <= h < size /\ int_at ht h < 0.
Proof using Hk Hht.
  intros Hlt. destruct (decide (Exists (fun h => int_at ht h < 0) (seqZ 0 size))) as [He|He].
  - apply Exists_exists in He as (h & Hh%elem_of_seqZ & Hx). exists h. split; [lia|done].
  - exfalso. apply not_Exists_Forall in He; [|apply _].
    assert (Hnn : forall x, x ∈ seqZ 0 size -> 0 <= int_at ht x)
      by (intros x Hx; rewrite Forall_forall in He; specialize (He x Hx); cbn in He; lia).
    assert (Hsub : (length (int_at ht <$> seqZ 0 size) <= length (seqZ 0 (Z.of_nat (length map))))%nat).
    { apply submseteq_length, NoDup_submseteq.
      - apply NoDup_fmap_2_strong; [|apply NoDup_seqZ]. intros x y Hx Hy E.
        apply (to_inj _ _ Hht); [apply elem_of_seqZ in Hx; lia|apply elem_of_seqZ in Hy; lia|by apply Hnn|done].
      - intros v (h & -> & Hh)%list_elem_of_fmap. specialize (Hnn h Hh). apply elem_of_seqZ in Hh.
        apply elem_of_seqZ. destruct (to_range _ _ Hht h _ eq_refl ltac:(lia)) as [E|E]; [lia|]. rewrite length_fmap in E. lia. }
    rewrite length_fmap, !length_seqZ in Hsub. pose proof size_pos. lia.
Qed.

Lemma find_new off :
  off ∉ old_offset <$> map -> Z.of_nat (length map) < size ->
  exists d, 0 <= d < size /\ slot_find ht map off = slot_pos off d /\ int_at ht (slot_pos off d) = -1 /\
    forall e, 0 <= e < d -> 0 <= int_at ht (slot_pos off e).
Proof using Hk Hht.
  intros Hnin Hlt. destruct (empty_slot Hlt) as (h & Hh & Hneg).
  assert (Hpos : slot_pos off ((h - SLOT_HASH size off) mod size) = h).
  { unfold slot_pos. rewrite Zplus_mod_idemp_r. replace (_ + (h - _)) with h by lia. by apply Z.mod_small. }
  pose proof (Z.mod_pos_bound (h - SLOT_HASH size off) size size_pos) as Hb.
  destruct (find_probe off ((h - SLOT_HASH size off) mod size) Hb) as (d & Hd & E & Hs & Hmin); [left; by rewrite Hpos|].
  assert (Hno : forall e, 0 <= int_at ht (slot_pos off e) -> old_offset (slot_at map (int_at ht (slot_pos off e))) <> off).
  { intros e He Ho. apply Hnin. destruct (to_range _ _ Hht (slot_pos off e) _ eq_refl (slot_pos_range off e)) as [|Hr]; [lia|].
    rewrite length_fmap in Hr. pose proof (slot_lookup _ Hr) as El. rewrite Ho in El. by eapply list_elem_of_lookup_2. }
  exists d. split; [lia|]. split; [done|].
  assert (Hneg' : int_at ht (slot_pos off d) < 0).
  { apply Z.nle_gt. intros Hge. destruct Hs as [Hs|Hs]; [lia|]. by apply (Hno d). }
  split.
  - destruct (to_range _ _ Hht (slot_pos off d) _ eq_refl (slot_pos_range off d)); lia.
  - intros e He. apply Z.nlt_ge. intros Hx. apply (Hmin e He). by left.
Qed.

Lemma insert_ok off :
  off ∉ old_offset <$> map -> Z.of_nat (length map) < size ->
  int_at ht (slot_find ht map off) = -1 /\ 0 <= slot_find ht map off < size /\
  table_ok (set_int ht (slot_find ht map off) (Z.of_nat (length map))) ((old_offset <$> map) ++ [off]).
Proof using Hk Hht.
  intros Hnin Hlt. destruct (find_new off Hnin Hlt) as (d & Hd & -> & Hempty & Hbefore).
  set (h := slot_pos off d) in *. pose proof (slot_pos_range off d : 0 <= h < size) as Hh.
  pose proof (to_length _ _ Hht) as Hl. split; [done|]. split; [done|].
  assert (Hsame : forall x, 0 <= x < size -> x <> h -> int_at (set_int ht h (Z.of_nat (length map))) x = int_at ht x)
    by (intros x Hx Hne; apply int_at_set_ne; lia).
  assert (Hset : int_at (set_int ht h (Z.of_nat (length map))) h = Z.of_nat (length map)) by (apply int_at_set; lia).
  assert (Hold : forall x, 0 <= x < size -> 0 <= int_at ht x < Z.of_nat (length map) \/ int_at ht x = -1).
  { intros x Hx. destruct (to_range _ _ Hht x _ eq_refl Hx) as [|E]; [by right|]. rewrite length_fmap in E. by left. }
  assert (Hkeep : forall x, 0 <= x < size -> 0 <= int_at ht x -> int_at (set_int ht h (Z.of_nat (length map))) x = int_at ht x)
    by (intros x Hx Hn; apply Hsame; [done|]; intros ->; lia).
  constructor.
  - by rewrite set_int_length.
  - intros x j <- Hx. rewrite length_app, length_fmap. cbn [length]. destruct (decide (x = h)) as [->|Hne]; [rewrite Hset; lia|].
    rewrite Hsame by done. destruct (Hold x Hx); lia.
  - intros x y Hx Hy Hn E. destruct (decide (x = h)) as [->|Hnx], (decide (y = h)) as [->|Hny]; [done| | |].
    + rewrite Hset, Hsame in E by done. destruct (Hold y Hy); lia.
    + rewrite Hset, Hsame in E by done. destruct (Hold x Hx); lia.
    + rewrite !Hsame in * by done. by apply (to_inj _ _ Hht).
  - intros j o Hj. apply lookup_app_Some in Hj as [Hj|[Hge Hj]].
    + destruct (to_reach _ _ Hht j o Hj) as (e & He & Ht & Hb). exists e. split; [done|]. split.
      * rewrite Hkeep; [done|apply slot_pos_range|lia].
      * intros e' He'. rewrite Hkeep; [by apply Hb|apply slot_pos_range|by apply Hb].
    + apply list_lookup_singleton_Some in Hj as [Hz <-]. rewrite length_fmap in *. exists d. split; [done|]. split.
      * fold h. rewrite Hset. lia.
      * intros e' He'. rewrite Hkeep; [by apply Hbefore|apply slot_pos_range|by apply Hbefore].
Qed.
End Find.

Lemma empty_ok : table_ok (replicate (Z.to_nat size) (-1)) [].
Proof using Hk.
  pose proof size_pos. assert (Hr : forall h, 0 <= h < size -> int_at (replicate (Z.to_nat size) (-1)) h = -1)
    by (intros h Hh; unfold int_at; by rewrite lookup_replicate_2 by lia).
  constructor.
  - rewrite length_replicate. lia.
  - intros h j <- Hh. left. by apply Hr.
  - intros h h' Hh _ Hn. rewrite Hr in Hn by done. lia.
  - intros j off Hj. by rewrite lookup_nil in Hj.
Qed.
End Table.
