(* ===== verification/SpillLayout.v ===== *)
(** * Packed spill slots are disjoint, aligned and shared as before *)

From S2P Require Import Prelude BitReflect SortSpec Sort Qsort IntSort LinearScan LsSweep LsScratch SpillSlots.
From stdpp Require Import list.
Local Open Scope Z_scope.
Local Open Scope c_scope.

Lemma grow_ht_spec fuel a n :
  0 <= a <= 31 -> 0 <= n < 2 ^ 30 -> 31 - a <= Z.of_nat fuel ->
  exists k, a <= k < 32 /\ grow_ht fuel (2 ^ a) n = 2 ^ k /\ 2 * n <= 2 ^ k.
Proof.
  revert a. induction fuel as [|fuel IH]; intros a Ha Hn Hf; cbn [grow_ht].
  - exists a. split; [lia|]. split; [done|]. replace a with 31 by lia. lia.
  - rewrite u32_small by lia. destruct (Z.ltb_spec (2 ^ a) (n * 2)) as [Hlt|Hge].
    + assert (Ha' : a < 31) by (destruct (decide (a = 31)) as [->|]; lia).
      assert (E : (2 ^ a) <<< 1 = 2 ^ (a + 1)).
      { unfold shl32. rewrite Z.shiftl_mul_pow2, <-Z.pow_add_r by lia. apply u32_small. split; [apply Z.pow_nonneg; lia|].
        apply Z.pow_lt_mono_r; lia. }
      rewrite E. destruct (IH (a + 1)) as (k & Hk & E' & H2); [lia..|]. exists k. split; [lia|done].
    + exists a. split; [lia|]. split; [done|lia].
Qed.

(** ** Pass 1 *)

Definition slot_size_ok (x : Z) : Prop := x = 4 \/ x = 8 \/ x = 16.

Lemma stack_size_ok t : slot_size_ok (tcc_ls_reg_type_stack_size t).
Proof. unfold tcc_ls_reg_type_stack_size, slot_size_ok. destruct (_ || _); [auto|]. destruct (Z.eqb _ _); auto. Qed.

Section Collect.
Context (ls : LSLiveIntervalState) (weights : option (list Z)) (k : Z).
Hypothesis Hk : 0 <= k < 32.

Definition spilled (i : Z) : Prop := stack_location (interval ls i) <> 0.
Definition offset_of (i : Z) : Z := s32 (stack_location (interval ls i)).
Definition size_of (i : Z) : Z := tcc_ls_reg_type_stack_size (reg_type (interval ls i)).

Record collected (n : Z) (map : list SlotMapEntry) (ht : list Z) : Prop := mk_collected {
  co_table : table_ok k ht (old_offset <$> map);
  co_nodup : NoDup (old_offset <$> map);
  co_length : Z.of_nat (length map) <= n;
  co_sizes : Forall (fun e => slot_size_ok (slot_size e)) map;
  co_slot : forall i, 0 <= i < n -> spilled i ->
    exists j e, map !! j = Some e /\ old_offset e = offset_of i /\ size_of i <= slot_size e;
  co_only : forall e, e ∈ map -> exists i, 0 <= i < n /\ spilled i /\ old_offset e = offset_of i
}.

(** Updating an entry in place. *)
Lemma grow_collected n map ht (j : nat) e i w :
  collected n map ht -> map !! j = Some e -> old_offset e = offset_of i -> spilled i -> 0 <= i <= n ->
  (i = n \/ size_of i <= slot_size e) ->
  collected (Z.max n (i + 1)) (<[j := grow_slot e (size_of i) w]> map) ht.
Proof.
  intros [H1 H2 H3 H4 H5 H6] Hj Ho Hsp Hi Hn. pose proof (lookup_lt_Some _ _ _ Hj) as Hjl.
  assert (Eo : old_offset <$> <[j := grow_slot e (size_of i) w]> map = old_offset <$> map).
  { rewrite list_fmap_insert. apply list_insert_id. rewrite list_lookup_fmap, Hj. done. }
  assert (Hg : slot_size e <= slot_size (grow_slot e (size_of i) w) /\ size_of i <= slot_size (grow_slot e (size_of i) w) /\
    slot_size_ok (slot_size (grow_slot e (size_of i) w))).
  { pose proof (stack_size_ok (reg_type (interval ls i))) as Hs. fold (size_of i) in Hs.
    eapply Forall_lookup_1 in H4; [|done]. cbv beta in H4. cbn [grow_slot slot_size].
    destruct (Z.ltb_spec (slot_size e) (size_of i)); (split; [lia|split; [lia|done]]). }
  destruct Hg as (G1 & G2 & G3). constructor; rewrite ?Eo; [done|done|rewrite length_insert; lia| | |].
  - by apply Forall_insert.
  - intros x Hx Hxs. destruct (decide (x = n)) as [->|Hxn].
    + assert (i = n) as -> by lia. exists j, (grow_slot e (size_of n) w).
      split; [by rewrite list_lookup_insert_eq by lia|]. split; [done|done].
    + destruct (H5 x ltac:(lia) Hxs) as (jx & ex & Hjx & Hox & Hsx). destruct (decide (jx = j)) as [->|Hne].
      * rewrite Hj in Hjx. injection Hjx as <-. exists j, (grow_slot e (size_of i) w).
        split; [by rewrite list_lookup_insert_eq by lia|]. split; [done|lia].
      * exists jx, ex. by rewrite list_lookup_insert_ne by congruence.
  - intros x Hx. apply list_elem_of_lookup in Hx as [jx Hjx]. destruct (decide (jx = j)) as [->|Hne].
    + rewrite list_lookup_insert_eq in Hjx by lia. injection Hjx as <-. exists i. split; [lia|done].
    + rewrite list_lookup_insert_ne in Hjx by congruence. destruct (H6 x) as (i' & Hi' & G); [by eapply list_elem_of_lookup_2|].
      exists i'. split; [lia|done].
Qed.

Lemma collect_inv n map ht :
  collected n map ht -> 0 <= n -> Z.of_nat (length map) < 2 ^ k ->
  let '(map', ht') := collect_step ls weights (map, ht) n in collected (n + 1) map' ht'.
Proof using Hk.
  intros C Hn Hroom. pose proof C as [H1 H2 H3 H4 H5 H6]. unfold collect_step. cbv zeta.
  destruct (Z.eqb_spec (stack_location (interval ls n)) 0) as [H0|H0].
  { constructor; try done; [lia| |].
    - intros i Hi Hs. destruct (decide (i = n)) as [->|]; [done|]. apply H5; [lia|done].
    - intros e He. destruct (H6 e He) as (i & Hi & G). exists i. split; [lia|done]. }
  fold (offset_of n) (size_of n). destruct (decide (offset_of n ∈ old_offset <$> map)) as [Hin|Hnin].
  - apply list_elem_of_lookup in Hin as [j Hj]. rewrite (find_known k Hk ht map H1 _ j H2 Hj).
    rewrite (proj2 (Z.ltb_ge _ _)) by lia. rewrite (find_known k Hk ht map H1 _ j H2 Hj), Nat2Z.id.
    rewrite list_lookup_fmap in Hj. destruct (map !! j) as [e|] eqn:He; [|done]. injection Hj as Ho.
    assert (Es : slot_at map (Z.of_nat j) = e) by (unfold slot_at; by rewrite Nat2Z.id, He). rewrite Es.
    replace (n + 1) with (Z.max n (n + 1)) by lia. apply grow_collected; try done; lia || auto.
  - destruct (insert_ok k Hk ht map H1 _ Hnin Hroom) as (E & Hrange & Hok). rewrite E. cbn [Z.ltb Z.compare].
    rewrite int_at_set by (rewrite (to_length _ _ _ H1); done). rewrite Nat2Z.id.
    assert (Es : slot_at (map ++ [mk_slot (offset_of n) (size_of n) 0 0]) (Z.of_nat (length map)) = mk_slot (offset_of n) (size_of n) 0 0)
      by (unfold slot_at; by rewrite Nat2Z.id, list_lookup_middle).
    rewrite Es. rewrite insert_app_r_alt, Nat.sub_diag by lia. cbn [insert list_insert].
    set (e := grow_slot _ _ _). assert (Ee : old_offset e = offset_of n /\ slot_size e = size_of n).
    { unfold e. cbn. rewrite Z.ltb_irrefl. done. }
    destruct Ee as [Eo Ez]. constructor.
    + rewrite fmap_app. cbn [fmap list_fmap]. by rewrite Eo.
    + rewrite fmap_app. cbn [fmap list_fmap]. rewrite Eo. apply NoDup_app. split; [done|]. split; [|apply NoDup_singleton].
      intros x Hx ->%list_elem_of_singleton. done.
    + rewrite length_app. cbn [length]. lia.
    + apply Forall_app. split; [done|]. constructor; [|constructor]. rewrite Ez. apply stack_size_ok.
    + intros i Hi Hs. destruct (decide (i = n)) as [->|].
      * exists (length map), e. split; [by apply list_lookup_middle|]. split; [done|lia].
      * destruct (H5 i ltac:(lia) Hs) as (j & x & Hj & G). exists j, x. split; [by apply lookup_app_l_Some|done].
    + intros x [Hx|Hx%list_elem_of_singleton]%elem_of_app.
      * destruct (H6 x Hx) as (i & Hi & G). exists i. split; [lia|done].
      * subst x. exists n. split; [lia|done].
Qed.

Lemma collect_all n :
  0 <= n -> 2 * n <= 2 ^ k ->
  let '(map, ht) := fold_left (collect_step ls weights) (seqZ 0 n) ([], replicate (Z.to_nat (2 ^ k)) (-1)) in
  collected n map ht.
Proof using Hk.
  intros Hn. pattern n. apply natlike_ind; [| |done].
  - intros _. rewrite seqZ_nil by lia. cbn [fold_left]. constructor; cbn [fmap list_fmap length].
    + by apply empty_ok.
    + constructor.
    + lia.
    + constructor.
    + intros i Hi. lia.
    + by intros e ?%not_elem_of_nil.
  - clear n Hn. intros n Hn IH Hroom. rewrite <-Z.add_1_r, seqZ_app, fold_left_app by lia.
    specialize (IH ltac:(lia)). destruct (fold_left _ (seqZ 0 n) _) as [map ht]. cbn [fold_left seqZ].
    change (seqZ (0 + n) 1) with [0 + n]. rewrite Z.add_0_l. cbn [fold_left].
    pose proof (co_length _ _ _ IH). pose proof (Z.pow_pos_nonneg 2 k).
    pose proof (collect_inv n map ht IH Hn ltac:(lia)) as G. exact G.
Qed.
End Collect.

(** ** Pass 2 *)

Lemma land_align x k : 0 <= k -> Z.land x (- 2 ^ k) = x - x mod 2 ^ k.
Proof.
  intros Hk. replace (- 2 ^ k) with (Z.lnot (Z.ones k)) by (rewrite Z.ones_equiv; unfold Z.lnot; lia).
  rewrite <-Z.ldiff_land, Z.ldiff_ones_r, Z.shiftl_mul_pow2, Z.shiftr_div_pow2 by done.
  pose proof (Z.div_mod x (2 ^ k) ltac:(apply Z.pow_nonzero; lia)). lia.
Qed.

(** The next offset: aligned, below, and close. *)
Lemma next_offset loc size :
  slot_size_ok size -> loc <= 0 ->
  let l := Z.land (loc - size) (- size) in
  let l' := if Z.eqb l 0 then - size else l in
  l' mod size = 0 /\ l' + size <= loc /\ loc - 31 <= l' /\ l' < 0.
Proof.
  intros Hs Hl. cbv zeta.
  assert (Hk : exists k, 0 <= k /\ size = 2 ^ k) by (destruct Hs as [->|[->| ->]]; [exists 2|exists 3|exists 4]; done).
  destruct Hk as (k & Hk & E). assert (Ha : Z.land (loc - size) (- size) = (loc - size) - (loc - size) mod size)
    by (rewrite E; by apply land_align).
  rewrite Ha. assert (Hp : 0 < size) by (unfold slot_size_ok in Hs; lia).
  pose proof (Z.mod_pos_bound (loc - size) size Hp) as Hb.
  rewrite (proj2 (Z.eqb_neq _ _)) by lia. split; [|unfold slot_size_ok in Hs; lia].
  rewrite Zminus_mod_idemp_r, Z.sub_diag. apply Zmod_0_l.
Qed.

Definition same_slot (e e' : SlotMapEntry) : Prop := old_offset e' = old_offset e /\ slot_size e' = slot_size e.

(** Slot [j] lies in [lo, hi), aligned. *)
Definition placed (map : list SlotMapEntry) (lo hi : Z) (j : Z) : Prop :=
  let e := slot_at map j in lo <= new_offset e /\ new_offset e + slot_size e <= hi /\ new_offset e mod slot_size e = 0.

Definition apart (map : list SlotMapEntry) (i j : Z) : Prop :=
  let x := slot_at map i in let y := slot_at map j in
  new_offset x + slot_size x <= new_offset y \/ new_offset y + slot_size y <= new_offset x.

Lemma slot_at_insert map j e : 0 <= j < Z.of_nat (length map) -> slot_at (<[Z.to_nat j := e]> map) j = e.
Proof. intros Hj. unfold slot_at. by rewrite list_lookup_insert_eq by lia. Qed.

Lemma slot_at_insert_ne map i j e : 0 <= i -> 0 <= j -> i <> j -> slot_at (<[Z.to_nat j := e]> map) i = slot_at map i.
Proof. intros Hi Hj Hn. unfold slot_at. by rewrite list_lookup_insert_ne by lia. Qed.

Lemma assign_all l loc map :
  NoDup l -> Forall (fun j => 0 <= j < Z.of_nat (length map)) l -> Forall (fun e => slot_size_ok (slot_size e)) map -> loc <= 0 ->
  let '(loc', map') := fold_left assign_step l (loc, map) in
  loc - 31 * Z.of_nat (length l) <= loc' <= loc /\
  length map' = length map /\
  (forall j, 0 <= j -> same_slot (slot_at map j) (slot_at map' j)) /\
  (forall j, 0 <= j -> j ∉ l -> slot_at map' j = slot_at map j) /\
  (forall j, j ∈ l -> placed map' loc' loc j) /\
  (forall i j, i ∈ l -> j ∈ l -> i <> j -> apart map' i j).
Proof.
  intros Hn. revert loc map. induction Hn as [|j l Hj Hn IH]; intros loc map Hr Hs Hl; cbn [fold_left].
  { split; [cbn; lia|]. split; [done|]. split; [done|]. split; [done|]. split; [by intros ? ?%not_elem_of_nil|by intros ? ? ?%not_elem_of_nil]. }
  apply Forall_cons in Hr as [Hj0 Hr]. unfold assign_step at 2. cbv zeta.
  assert (Hsz : slot_size_ok (slot_size (slot_at map j))).
  { unfold slot_at. destruct (lookup_lt_is_Some_2 map (Z.to_nat j)) as [e He]; [lia|]. rewrite He. by eapply Forall_lookup_1 in Hs. }
  destruct (next_offset loc _ Hsz Hl) as (N1 & N2 & N3 & N4). cbv zeta in *.
  set (loc1 := if Z.eqb _ 0 then _ else _) in *. clearbody loc1.
  set (e1 := mk_slot (old_offset (slot_at map j)) (slot_size (slot_at map j)) loc1 (weight (slot_at map j))).
  set (map1 := <[Z.to_nat j := e1]> map).
  specialize (IH loc1 map1). destruct (fold_left assign_step l (loc1, map1)) as [loc' map'].
  destruct IH as (I1 & I2 & I3 & I4 & I5 & I6);
    [unfold map1; by rewrite length_insert|by apply Forall_insert|lia|].
  assert (E1 : slot_at map1 j = e1) by (by apply slot_at_insert).
  assert (E2 : forall i, 0 <= i -> i <> j -> slot_at map1 i = slot_at map i) by (intros i Hi Hne; apply slot_at_insert_ne; lia).
  assert (Ej : slot_at map' j = e1) by (rewrite I4; [done|lia|done]).
  assert (Hl0 : forall i, i ∈ l -> 0 <= i) by (intros i Hi; rewrite Forall_forall in Hr; specialize (Hr i Hi); cbv beta in Hr; lia).
  pose proof Hsz as Hz. unfold slot_size_ok in Hz.
  split; [cbn [length]; lia|]. split; [rewrite I2; apply length_insert|].
  split; [|split; [|split]].
  - intros i Hi. specialize (I3 i Hi). destruct (decide (i = j)) as [->|Hne]; [by rewrite Ej|by rewrite E2 in I3].
  - intros i Hi Hin. apply not_elem_of_cons in Hin as [H1 H2]. by rewrite I4, E2.
  - intros i [->|Hi]%elem_of_cons.
    + unfold placed. rewrite Ej. cbn [e1 new_offset slot_size]. lia.
    + destruct (I5 i Hi) as (P1 & P2 & P3). unfold placed. cbv zeta. split; [done|]. split; [unfold slot_size_ok in Hsz; lia|done].
  - assert (Hbelow : forall i, i ∈ l -> apart map' i j).
    { intros i Hi. destruct (I5 i Hi) as (P1 & P2 & P3). unfold apart. rewrite Ej. cbn [e1 new_offset slot_size]. lia. }
    intros x y [->|Hx]%elem_of_cons [->|Hy]%elem_of_cons Hne; [done| |by apply Hbelow|by apply I6].
    unfold apart. destruct (Hbelow y Hy); auto.
Qed.

(** ** The order of the slots *)

Lemma cold_first_neg map i j :
  slot_cold_first map i j < 0 <->
  weight (slot_at map i) * slot_size (slot_at map j) < weight (slot_at map j) * slot_size (slot_at map i) \/
  (weight (slot_at map i) * slot_size (slot_at map j) = weight (slot_at map j) * slot_size (slot_at map i) /\ i < j).
Proof.
  unfold slot_cold_first. cbv zeta. destruct (Z.eqb_spec (weight (slot_at map i) * slot_size (slot_at map j))
    (weight (slot_at map j) * slot_size (slot_at map i))) as [E|E]; cbn [negb].
  - destruct (Z.ltb_spec i j); [lia|]. unfold b2z. destruct (Z.ltb j i); lia.
  - destruct (Z.ltb_spec (weight (slot_at map i) * slot_size (slot_at map j))
      (weight (slot_at map j) * slot_size (slot_at map i))); lia.
Qed.

(** Comparing per byte is a total order when sizes are positive. *)
Lemma cold_first_ok map : Forall (fun e => slot_size_ok (slot_size e)) map -> CmpOk (slot_cold_first map).
Proof.
  intros Hs. assert (Hp : forall j, 0 < slot_size (slot_at map j)).
  { intros j. unfold slot_at. destruct (map !! Z.to_nat j) as [e|] eqn:E; [|cbn; lia].
    eapply Forall_lookup_1 in Hs; [|done]. unfold slot_size_ok in Hs. cbn. lia. }
  split; intros *; rewrite !cold_first_neg.
  - lia.
  - pose proof (Hp x). pose proof (Hp y). pose proof (Hp z). nia.
  - pose proof (Hp x). pose proof (Hp y). pose proof (Hp z). nia.
Qed.

(** ** The three passes *)

Section Compact.
Context `{IntSort} (ls : LSLiveIntervalState) (spill_base : Z) (weights : option (list Z)).
Notation n := (next_interval_index ls).
Notation ls' := (tcc_ls_compact_stack_locations_weighted ls spill_base weights).

Hypothesis Hok : ls_ok ls.
Hypothesis Hn : n * 32 <= 2 ^ 30.
Hypothesis Hbase : - 2 ^ 30 <= spill_base.

Lemma order_perm map : Z.of_nat (length map) < 2 ^ 31 -> Forall (fun e => slot_size_ok (slot_size e)) map ->
  slot_order map weights ≡ₚ seqZ 0 (Z.of_nat (length map)).
Proof using.
  intros Hl Hs. unfold slot_order. destruct weights as [ws|]; [|done].
  destruct (qsort_int_spec (slot_cold_first map) (seqZ 0 (Z.of_nat (length map)))) as [HP _]; [by apply cold_first_ok|by apply seqZ_ints|done].
Qed.

Lemma same_olds map map' :
  length map' = length map -> (forall j, 0 <= j -> same_slot (slot_at map j) (slot_at map' j)) ->
  old_offset <$> map' = old_offset <$> map.
Proof using.
  intros Hl Hsame. apply list_eq. intros j. rewrite !list_lookup_fmap. specialize (Hsame (Z.of_nat j) ltac:(lia)).
  unfold slot_at in Hsame. rewrite Nat2Z.id in Hsame. destruct (decide (j < length map)%nat) as [Hj|Hj].
  - destruct (lookup_lt_is_Some_2 map j Hj) as [x Hx]. destruct (lookup_lt_is_Some_2 map' j) as [y Hy]; [lia|].
    rewrite Hx, Hy in *. destruct Hsame as [E _]. cbn in *. by rewrite E.
  - by rewrite !lookup_ge_None_2 by lia.
Qed.

(** The table and the laid-out slots after the second pass. *)
Record laid_out (k : Z) (map : list SlotMapEntry) (ht : list Z) : Prop := mk_laid_out {
  lo_k : 0 <= k < 32;
  lo_table : table_ok k ht (old_offset <$> map);
  lo_nodup : NoDup (old_offset <$> map);
  lo_slot : forall i, 0 <= i < n -> spilled ls i ->
    exists j, (old_offset <$> map) !! j = Some (offset_of ls i) /\ size_of ls i <= slot_size (slot_at map (Z.of_nat j)) /\
      slot_size_ok (slot_size (slot_at map (Z.of_nat j))) /\ placed map (- 2 ^ 31) (Z.min 0 spill_base) (Z.of_nat j);
  lo_apart : forall i j : nat, (i < length map)%nat -> (j < length map)%nat -> i <> j -> apart map (Z.of_nat i) (Z.of_nat j)
}.

Lemma assigned_laid_out k map0 ht map lo :
  0 <= k < 32 -> collected ls k n map0 ht ->
  fold_left assign_step (slot_order map0 weights) (Z.min 0 spill_base, map0) = (lo, map) -> laid_out k map ht.
Proof using Hok Hn Hbase.
  intros Hk C Hfold. destruct Hok as (Hn0 & Hn31 & _). destruct C as [C1 C2 C3 C4 C5 C6].
  pose proof (order_perm map0 ltac:(lia) C4) as Hperm.
  pose proof (assign_all (slot_order map0 weights) (Z.min 0 spill_base) map0) as A. rewrite Hfold in A.
  destruct A as (A1 & A2 & A3 & A4 & A5 & A6).
  { rewrite Hperm. apply NoDup_seqZ. } { rewrite Hperm. apply Forall_forall. intros x Hx%elem_of_seqZ. lia. } { done. } { lia. }
  assert (Hin : forall j : nat, (j < length map0)%nat -> Z.of_nat j ∈ slot_order map0 weights)
    by (intros j Hj; rewrite Hperm; apply elem_of_seqZ; lia).
  assert (Ho : old_offset <$> map = old_offset <$> map0) by (by apply same_olds).
  assert (Hlen : length (slot_order map0 weights) = length map0) by (rewrite Hperm, length_seqZ; lia).
  constructor; rewrite ?Ho; try done.
  - intros i Hi Hs. destruct (C5 i Hi Hs) as (j & e & Hj & He & Hsz). exists j.
    assert (Es : slot_at map0 (Z.of_nat j) = e) by (unfold slot_at; by rewrite Nat2Z.id, Hj).
    destruct (A3 (Z.of_nat j) ltac:(lia)) as [E1 E2]. rewrite Es in E1, E2.
    split; [by rewrite list_lookup_fmap, Hj; cbn; rewrite He|]. rewrite E2. split; [done|].
    split; [by eapply Forall_lookup_1 in C4|]. pose proof (lookup_lt_Some _ _ _ Hj) as Hjl.
    destruct (A5 (Z.of_nat j) (Hin j Hjl)) as (P1 & P2 & P3). split; [|done]. rewrite Hlen in A1. lia.
  - intros i j Hi Hj Hne. rewrite A2 in Hi, Hj. apply A6; [by apply Hin|by apply Hin|lia].
Qed.

Lemma compact_eq :
  n <> 0 -> exists k map ht, laid_out k map ht /\
    ls' = with_intervals ls ((rewrite_slot ht map <$> take (Z.to_nat n) (intervals ls)) ++ drop (Z.to_nat n) (intervals ls)) n
            (live_sweep_valid ls).
Proof using Hok Hn Hbase.
  intros Hne. pose proof Hok as (Hn0 & Hn31 & _). unfold tcc_ls_compact_stack_locations_weighted. cbv zeta.
  rewrite (proj2 (Z.eqb_neq _ _) Hne).
  destruct (grow_ht_spec 32 4 n) as (k & Hk & Eg & Hroom); [lia..|]. change (2 ^ 4) with 16 in Eg. rewrite Eg.
  pose proof (collect_all ls weights k ltac:(lia) n ltac:(lia) Hroom) as C.
  destruct (fold_left (collect_step ls weights) _ _) as [map0 ht].
  assert (Eb : (if Z.ltb 0 spill_base then 0 else spill_base) = Z.min 0 spill_base) by (destruct (Z.ltb_spec 0 spill_base); lia).
  rewrite Eb. destruct (fold_left assign_step _ _) as [lo map] eqn:Hf. exists k, map, ht. split; [|done].
  apply (assigned_laid_out k map0 ht map lo); (lia || done).
Qed.

Lemma compact_interval ht map i :
  ls' = with_intervals ls ((rewrite_slot ht map <$> take (Z.to_nat n) (intervals ls)) ++ drop (Z.to_nat n) (intervals ls)) n
          (live_sweep_valid ls) ->
  0 <= i < n -> interval ls' i = rewrite_slot ht map (interval ls i).
Proof using Hok.
  intros E Hi. destruct Hok as (Hn0 & _). rewrite E. unfold interval. cbn [with_intervals intervals].
  rewrite lookup_app_l by (rewrite length_fmap, length_take; lia).
  rewrite list_lookup_fmap, lookup_take_lt by lia.
  destruct (lookup_lt_is_Some_2 (intervals ls) (Z.to_nat i)) as [x Hx]; [lia|]. by rewrite Hx.
Qed.

Lemma rewrite_spilled k map ht i (j : nat) :
  laid_out k map ht -> spilled ls i -> (old_offset <$> map) !! j = Some (offset_of ls i) ->
  rewrite_slot ht map (interval ls i) = set_location (interval ls i) (u32 (new_offset (slot_at map (Z.of_nat j)))).
Proof using.
  intros L Hs Hj. unfold rewrite_slot. rewrite (proj2 (Z.eqb_neq _ _) Hs). cbv zeta. fold (offset_of ls i).
  rewrite (find_known k (lo_k _ _ _ L) ht map (lo_table _ _ _ L) _ j (lo_nodup _ _ _ L) Hj).
  by rewrite (proj2 (Z.leb_le _ _)) by lia.
Qed.
End Compact.

Lemma align_weaken x a b : slot_size_ok a -> slot_size_ok b -> a <= b -> x mod b = 0 -> x mod a = 0.
Proof. intros [->|[->| ->]] [->|[->| ->]] Hle Hx; lia_mod. Qed.

Lemma s32_inj x y : 0 <= x < 2 ^ 32 -> 0 <= y < 2 ^ 32 -> s32 x = s32 y -> x = y.
Proof. intros Hx Hy E. apply (f_equal u32) in E. by rewrite !u32_s32, !u32_small in E. Qed.

Lemma compact_rewrites ls ht map :
  Forall2 rewrites (intervals ls)
    ((rewrite_slot ht map <$> take (Z.to_nat (next_interval_index ls)) (intervals ls)) ++ drop (Z.to_nat (next_interval_index ls)) (intervals ls)).
Proof.
  rewrite <-(take_drop (Z.to_nat (next_interval_index ls)) (intervals ls)) at 1. apply Forall2_app.
  - apply Forall2_fmap_r, Forall_Forall2_diag, Forall_true. intros it. cbn [compose]. unfold rewrite_slot.
    destruct (Z.eqb (stack_location it) 0); [apply rewrites_refl|]. cbv zeta.
    destruct (Z.leb 0 _); [done|apply rewrites_refl].
  - apply Forall_Forall2_diag, Forall_true. intros it. apply rewrites_refl.
Qed.

(** C26: packing keeps the intervals' registers and ranges and moves every spilled one to
    a slot below the spill base, aligned to its size; intervals that shared a location
    still share one, and intervals that did not get memory that does not overlap,
    whatever the sizes, the weights and the collisions in the hash table. *)
Theorem compact_slots_sound `{IntSort} d ls spill_base weights :
  ls_reach d ls -> (forall i, 0 <= i < next_interval_index ls -> 0 <= stack_location (interval ls i) < 2 ^ 32) ->
  next_interval_index ls * 32 <= 2 ^ 30 -> - 2 ^ 30 <= spill_base ->
  let ls' := tcc_ls_compact_stack_locations_weighted ls spill_base weights in
  let loc i := s32 (stack_location (interval ls' i)) in
  (exists d', ls_reach d' ls') /\
  forall i, 0 <= i < next_interval_index ls ->
    (~ spilled ls i -> interval ls' i = interval ls i) /\
    (spilled ls i -> interval ls' i = set_location (interval ls i) (u32 (loc i)) /\ loc i mod size_of ls i = 0 /\
       loc i + size_of ls i <= Z.min 0 spill_base) /\
    forall j, 0 <= j < next_interval_index ls -> spilled ls i -> spilled ls j ->
      (stack_location (interval ls i) = stack_location (interval ls j) -> loc i = loc j) /\
      (stack_location (interval ls i) <> stack_location (interval ls j) ->
         loc i + size_of ls i <= loc j \/ loc j + size_of ls j <= loc i).
Proof.
  intros Hr Hloc Hn Hb. destruct (ls_reach_inv d ls Hr) as ([Hok _] & _). cbv zeta.
  destruct (decide (next_interval_index ls = 0)) as [E0|E0].
  { unfold tcc_ls_compact_stack_locations_weighted. cbv zeta. rewrite E0, Z.eqb_refl. split; [by exists d|]. intros i Hi. lia. }
  destruct (compact_eq ls spill_base weights Hok Hn Hb E0) as (k & map & ht & L & E). split.
  { exists true. rewrite E. by eapply reach_rewrite, compact_rewrites. }
  assert (Hiv : forall i, 0 <= i < next_interval_index ls ->
    interval (tcc_ls_compact_stack_locations_weighted ls spill_base weights) i = rewrite_slot ht map (interval ls i))
    by (intros i Hi; by apply compact_interval).
  set (ls' := tcc_ls_compact_stack_locations_weighted ls spill_base weights) in *. clearbody ls'.
  assert (Hslot : forall i, 0 <= i < next_interval_index ls -> spilled ls i -> exists j : nat,
    (old_offset <$> map) !! j = Some (offset_of ls i) /\ size_of ls i <= slot_size (slot_at map (Z.of_nat j)) /\
    slot_size_ok (slot_size (slot_at map (Z.of_nat j))) /\ placed map (- 2 ^ 31) (Z.min 0 spill_base) (Z.of_nat j) /\
    interval ls' i = set_location (interval ls i) (u32 (new_offset (slot_at map (Z.of_nat j)))) /\
    s32 (stack_location (interval ls' i)) = new_offset (slot_at map (Z.of_nat j))).
  { intros i Hi Hs. destruct (lo_slot _ _ _ _ _ L i Hi Hs) as (j & Hj & H1 & H2 & H3). exists j.
    assert (Hw : interval ls' i = set_location (interval ls i) (u32 (new_offset (slot_at map (Z.of_nat j)))))
      by (rewrite Hiv by done; by apply (rewrite_spilled ls spill_base k)).
    repeat (split; [done|]). rewrite Hw. cbn [set_location stack_location]. apply s32_u32.
    destruct H3 as (P1 & P2 & _). cbv zeta in *. unfold slot_size_ok in H2. lia. }
  intros i Hi. split; [|split].
  - intros Hs. rewrite Hiv by done. unfold rewrite_slot, spilled in *. by destruct (Z.eqb_spec (stack_location (interval ls i)) 0).
  - intros Hs. destruct (Hslot i Hi Hs) as (j & _ & H1 & H2 & (P1 & P2 & P3) & Hw & ->). split; [done|].
    split; [by eapply align_weaken; [apply stack_size_ok|apply H2|..]|lia].
  - intros i' Hi' Hs Hs'. destruct (Hslot i Hi Hs) as (j & Hj & H1 & H2 & _ & _ & ->).
    destruct (Hslot i' Hi' Hs') as (j' & Hj' & H1' & H2' & _ & _ & ->). split; intros Heq.
    + assert (Eo : offset_of ls i = offset_of ls i') by (unfold offset_of; by rewrite Heq). rewrite Eo in Hj.
      by rewrite (NoDup_lookup _ _ _ _ (lo_nodup _ _ _ _ _ L) Hj Hj').
    + assert (Hne : j <> j').
      { intros ->. rewrite Hj in Hj'. injection Hj' as Eo. apply Heq. by apply s32_inj; [apply Hloc|apply Hloc|]. }
      pose proof (lookup_lt_Some _ _ _ Hj) as L1. pose proof (lookup_lt_Some _ _ _ Hj') as L2. rewrite length_fmap in L1, L2.
      pose proof (lo_apart _ _ _ _ _ L j j' L1 L2 Hne) as Ha. unfold apart in Ha. cbv zeta in Ha. lia.
Qed.

(** Three spills, two of them of different size in one slot. *)
Definition spill_at (i : nat) (loc : Z) (ivs : list LSLiveInterval) : list LSLiveInterval :=
  alter (fun it => set_location it (u32 loc)) i ivs.

Definition demo_spills : LSLiveIntervalState :=
  with_intervals demo_ls (spill_at 2 (-64) (spill_at 1 (-100) (spill_at 0 (-100) (intervals demo_ls))))
    (next_interval_index demo_ls) false.

Lemma spill_at_ok i loc ivs : Forall iv_ok ivs -> Forall iv_ok (spill_at i loc ivs).
Proof. intros Hf. apply Forall_alter; [done|]. intros iv _ [H1 H2]. by split. Qed.

Lemma demo_spills_reach : ls_reach (H := tcc_int_sort 4) true demo_spills.
Proof.
  destruct (ls_reach_inv _ _ demo_ls_reach) as ([(_ & _ & Hf) _] & _).
  apply (reach_assign (H := tcc_int_sort 4) false demo_ls); [exact demo_ls_reach|unfold spill_at; by rewrite !length_alter|].
  by repeat apply spill_at_ok.
Qed.

Lemma compact_slots_sound_witness :
  let ls' := tcc_ls_compact_stack_locations_weighted (H := tcc_int_sort 4) demo_spills (-4) (Some [5; 1; 9]) in
  map (fun i => s32 (stack_location (interval ls' i))) [0; 1; 2] = [-16; -16; -20] /\
  s32 (stack_location (interval ls' 0)) = s32 (stack_location (interval ls' 1)).
Proof.
  cbv zeta. split; [vm_compute; reflexivity|].
  destruct (compact_slots_sound (H := tcc_int_sort 4) true demo_spills (-4) (Some [5; 1; 9]) demo_spills_reach) as [_ Hc].
  - intros i Hi. assert (E : i = 0 \/ i = 1 \/ i = 2) by (change (next_interval_index demo_spills) with 3 in Hi; lia).
    destruct E as [->|[->| ->]]; vm_compute; (split; [discriminate|reflexivity]).
  - vm_compute. discriminate.
  - lia.
  - destruct (Hc 0) as (_ & _ & H0); [change (next_interval_index demo_spills) with 3; lia|].
    destruct (H0 1) as [H1 _]; [change (next_interval_index demo_spills) with 3; lia|vm_compute; discriminate|vm_compute; discriminate|].
    apply H1. vm_compute. reflexivity.
Defined.
