(* ===== verification/FpSpec.v ===== *)
(** * Binary floating-point numbers and correct rounding, over the integers

    The reference the soft-float runtime ([src/lib/fp/soft/]) is proved against.
    A format has [p] fraction bits and [w] exponent bits.  The magnitude part of
    an encoding (everything but the sign bit) is a number [R] between 0 and
    [fp_inf]; the encodings of the finite magnitudes increase with their values,
    so the magnitude [R] stands for the integer [mag_val R] in units of the
    least subnormal.  Rounding to nearest, ties to even, of an exact rational
    [n / d] (in the same unit) is then the encoding whose value is nearest, the
    infinity being read as the first power of two that is too large: this one
    definition covers gradual underflow, carries into the next binade and
    overflow to infinity. *)

From S2P Require Import Prelude.
Local Open Scope Z_scope.

(** The value of a magnitude encoding, in units of the least subnormal. *)
Definition mag_val (p R : Z) : Z :=
  if R / 2 ^ p =? 0 then R mod 2 ^ p else (R mod 2 ^ p + 2 ^ p) * 2 ^ (R / 2 ^ p - 1).

(** The magnitude encoding of infinity. *)
Definition fp_inf (p w : Z) : Z := (2 ^ w - 1) * 2 ^ p.

(** [R] is [n / d] rounded to nearest, ties to even. *)
Definition nearest_even (p w n d R : Z) : Prop :=
  0 <= R <= fp_inf p w /\
  forall S, 0 <= S <= fp_inf p w ->
    Z.abs (n - d * mag_val p R) <= Z.abs (n - d * mag_val p S) /\
    (Z.abs (n - d * mag_val p R) = Z.abs (n - d * mag_val p S) -> S = R \/ Z.even R = true).

(** What an encoding stands for. *)
Inductive fp_class : Type :=
| FNaN
| FInf (s : bool)
| FFin (s : bool) (m : Z).

Definition fp_sign (p w bits : Z) : bool := Z.testbit bits (p + w).
Definition fp_mag (p w bits : Z) : Z := bits mod 2 ^ (p + w).
Definition fp_make (p w : Z) (s : bool) (R : Z) : Z := (if s then 2 ^ (p + w) else 0) + R.

Definition classify (p w bits : Z) : fp_class :=
  let R := fp_mag p w bits in
  if fp_inf p w <? R then FNaN
  else if R =? fp_inf p w then FInf (fp_sign p w bits)
  else FFin (fp_sign p w bits) (mag_val p R).

(** [bits] encodes the rounding of the signed rational [(-1)^s n / d]. *)
Definition rounds_to (p w : Z) (s : bool) (n d bits : Z) : Prop :=
  exists R, bits = fp_make p w s R /\ nearest_even p w n d R.

Definition signed (s : bool) (m : Z) : Z := if s then - m else m.

(** A NaN encoding of the format, quiet or signalling: the code returns the NaN operand
    as it is. *)
Definition nan_result (p w r : Z) : Prop := 0 <= r < 2 ^ (p + w + 1) /\ classify p w r = FNaN.

(** The IEEE 754 results of the arithmetic operations.  [d] is the number of
    least subnormals in 1.0: the product and the quotient of two magnitudes in
    units of the least subnormal have to be scaled by it. *)
Definition fp_one (p w : Z) : Z := 2 ^ (2 ^ (w - 1) - 2 + p).

Definition add_result (p w : Z) (a b : fp_class) (r : Z) : Prop :=
  match a, b with
  | FNaN, _ | _, FNaN => nan_result p w r
  | FInf sa, FInf sb => if eqb sa sb then r = fp_make p w sa (fp_inf p w) else nan_result p w r
  | FInf s, FFin _ _ | FFin _ _, FInf s => r = fp_make p w s (fp_inf p w)
  | FFin sa ma, FFin sb mb =>
      let v := signed sa ma + signed sb mb in
      if v =? 0 then r = fp_make p w (eqb sa sb && sa) 0 else rounds_to p w (v <? 0) (Z.abs v) 1 r
  end.

Definition neg_class (c : fp_class) : fp_class :=
  match c with
  | FNaN => FNaN
  | FInf s => FInf (negb s)
  | FFin s m => FFin (negb s) m
  end.

Definition add_spec (p w a b r : Z) : Prop := add_result p w (classify p w a) (classify p w b) r.
Definition sub_spec (p w a b r : Z) : Prop := add_result p w (classify p w a) (neg_class (classify p w b)) r.

Definition mul_spec (p w a b r : Z) : Prop :=
  match classify p w a, classify p w b with
  | FNaN, _ | _, FNaN => nan_result p w r
  | FInf sa, FInf sb => r = fp_make p w (xorb sa sb) (fp_inf p w)
  | FInf sa, FFin sb m | FFin sa m, FInf sb =>
      if m =? 0 then nan_result p w r else r = fp_make p w (xorb sa sb) (fp_inf p w)
  | FFin sa ma, FFin sb mb => rounds_to p w (xorb sa sb) (ma * mb) (fp_one p w) r
  end.

Definition div_spec (p w a b r : Z) : Prop :=
  match classify p w a, classify p w b with
  | FNaN, _ | _, FNaN => nan_result p w r
  | FInf _, FInf _ => nan_result p w r
  | FInf sa, FFin sb _ => r = fp_make p w (xorb sa sb) (fp_inf p w)
  | FFin sa _, FInf sb => r = fp_make p w (xorb sa sb) 0
  | FFin sa ma, FFin sb mb =>
      if mb =? 0 then
        if ma =? 0 then nan_result p w r else r = fp_make p w (xorb sa sb) (fp_inf p w)
      else rounds_to p w (xorb sa sb) (ma * fp_one p w) mb r
  end.

(** ** Facts about powers of two *)

Lemma pow2_pos k : 0 <= k -> 0 < 2 ^ k.
Proof. intros. apply Z.pow_pos_nonneg; lia. Qed.

Lemma pow2_S k : 0 <= k -> 2 ^ (k + 1) = 2 * 2 ^ k.
Proof. intros. rewrite Z.pow_add_r by lia. lia. Qed.

(** ** The comparison of [n / d] with [x * 2^k] *)

Definition vcmp (n d k x : Z) : comparison := (n * 2 ^ Z.max 0 (- k) ?= d * x * 2 ^ Z.max 0 k).

Lemma compare_scale_pow a b j : 0 <= j -> (a * 2 ^ j ?= b * 2 ^ j) = (a ?= b).
Proof.
  intros Hj. pose proof (pow2_pos j Hj).
  destruct (Z.compare_spec a b); [apply Z.compare_eq_iff|apply Z.compare_lt_iff|apply Z.compare_gt_iff]; nia.
Qed.

Lemma vcmp_shift n d k x j : 0 <= j -> vcmp n d k (x * 2 ^ j) = vcmp n d (k + j) x.
Proof.
  intros Hj. unfold vcmp.
  set (c := Z.max 0 (- k) - Z.max 0 (- (k + j))).
  rewrite <- (compare_scale_pow (n * 2 ^ Z.max 0 (- (k + j))) _ c) by (unfold c; lia).
  f_equal.
  - rewrite <- Z.mul_assoc, <- Z.pow_add_r by (unfold c; lia). do 2 f_equal. unfold c; lia.
  - rewrite <- !Z.mul_assoc, <- !Z.pow_add_r by (unfold c; lia). do 3 f_equal. unfold c; lia.
Qed.

(** With [n / d = m * 2^k] comparisons reduce to those of [m]. *)
Lemma vcmp_exact n d k m x : 0 < d -> vcmp n d k m = Eq -> vcmp n d k x = (m ?= x).
Proof.
  unfold vcmp. intros Hd H. apply Z.compare_eq in H. rewrite H.
  rewrite compare_scale_pow by lia.
  destruct (Z.compare_spec m x); [apply Z.compare_eq_iff|apply Z.compare_lt_iff|apply Z.compare_gt_iff]; nia.
Qed.

Lemma vcmp_nonneg n d k x : 0 <= k -> vcmp n d k x = (n ?= d * x * 2 ^ k).
Proof. intros. unfold vcmp. rewrite (Z.max_l 0 (- k)), (Z.max_r 0 k) by lia. f_equal. lia. Qed.

(** ** Values increase with encodings *)

Section Format.
Context (p w : Z) (Hp : 1 <= p).

Lemma mag_val_at E r : 1 <= E -> 0 <= r <= 2 ^ (p + 1) -> E = 1 \/ 2 ^ p <= r ->
  mag_val p ((E - 1) * 2 ^ p + r) = r * 2 ^ (E - 1).
Proof using Hp.
  intros HE Hr Hn. rewrite pow2_S in Hr by lia. pose proof (pow2_pos p ltac:(lia)) as H2. unfold mag_val.
  destruct (Z.lt_ge_cases r (2 ^ p)) as [Hlt|Hge]; [|destruct (Z.lt_ge_cases r (2 * 2 ^ p)) as [Hlt|Hge2]].
  - assert (E = 1) as -> by lia. rewrite Z.div_small, Z.mod_small by lia. cbn. lia.
  - replace ((E - 1) * 2 ^ p + r) with ((r - 2 ^ p) + E * 2 ^ p) by ring.
    rewrite Z.div_add, Z.mod_add, Z.div_small, Z.mod_small by lia.
    replace (0 + E =? 0) with false by lia. rewrite Z.add_0_l. ring.
  - assert (r = 2 * 2 ^ p) as -> by lia.
    replace ((E - 1) * 2 ^ p + 2 * 2 ^ p) with (0 + (E + 1) * 2 ^ p) by ring.
    rewrite Z.div_add, Z.mod_add, Z.div_0_l, Z.mod_0_l by lia.
    replace (0 + (E + 1) =? 0) with false by lia.
    replace (0 + (E + 1) - 1) with (E - 1 + 1) by lia. rewrite pow2_S by lia. ring.
Qed.

(** Every encoding is at some exponent [E] with a significand [r]. *)
Lemma mag_split R : 0 <= R ->
  exists E r, 1 <= E /\ 0 <= r < 2 ^ (p + 1) /\ (E = 1 \/ 2 ^ p <= r) /\ R = (E - 1) * 2 ^ p + r.
Proof using Hp.
  intros HR. pose proof (pow2_pos p ltac:(lia)). rewrite pow2_S by lia.
  pose proof (Z.mod_pos_bound R (2 ^ p) ltac:(lia)). pose proof (Z.div_mod R (2 ^ p) ltac:(lia)).
  pose proof (Z.div_pos R (2 ^ p) ltac:(lia) ltac:(lia)).
  destruct (Z.eq_dec (R / 2 ^ p) 0) as [E0|E0].
  - exists 1, R. rewrite E0 in *. lia.
  - exists (R / 2 ^ p), (R mod 2 ^ p + 2 ^ p). repeat split; nia.
Qed.

Lemma mag_val_step R : 0 <= R -> 0 <= mag_val p R < mag_val p (R + 1).
Proof using Hp.
  intros HR. destruct (mag_split R HR) as (E & r & HE & Hr & Hn & ->).
  rewrite <- Z.add_assoc. rewrite !mag_val_at by lia. pose proof (pow2_pos (E - 1) ltac:(lia)). nia.
Qed.

Lemma mag_val_lt R S : 0 <= R < S -> mag_val p R < mag_val p S.
Proof using Hp.
  intros [HR HS]. replace S with (R + (S - R)) by lia.
  assert (forall k, 0 <= k -> mag_val p R < mag_val p (R + (k + 1))) as H.
  { apply natlike_ind; [apply mag_val_step; lia|].
    intros k Hk IH. pose proof (mag_val_step (R + (k + 1)) ltac:(lia)).
    replace (R + (Z.succ k + 1)) with (R + (k + 1) + 1) by lia. lia. }
  specialize (H (S - R - 1) ltac:(lia)). replace (S - R - 1 + 1) with (S - R) in H by lia. exact H.
Qed.

Lemma mag_val_nonneg R : 0 <= R -> 0 <= mag_val p R.
Proof using Hp. intros H. apply (mag_val_step R H). Qed.

Lemma mag_val_le R S : 0 <= R <= S -> mag_val p R <= mag_val p S.
Proof using Hp. intros. destruct (Z.eq_dec R S) as [->|]; [lia|]. pose proof (mag_val_lt R S). lia. Qed.

Lemma mag_val_0 : mag_val p 0 = 0.
Proof using Hp. unfold mag_val. pose proof (pow2_pos p ltac:(lia)). rewrite Z.div_0_l, Z.mod_0_l by lia. reflexivity. Qed.

(** ** Rounding is decided by the two neighbours *)

(** [2n/d] is not above the midpoint over [R] (nor below the one under it); on
    a midpoint [R] is even. *)
Definition below_mid (n d R : Z) : Prop :=
  2 * n <= d * (mag_val p R + mag_val p (R + 1)) /\
  (2 * n = d * (mag_val p R + mag_val p (R + 1)) -> Z.even R = true).
Definition above_mid (n d R : Z) : Prop :=
  d * (mag_val p (R - 1) + mag_val p R) <= 2 * n /\
  (d * (mag_val p (R - 1) + mag_val p R) = 2 * n -> Z.even R = true).

Lemma nearest_local n d R : 0 < d -> 0 <= R <= fp_inf p w ->
  (R < fp_inf p w -> below_mid n d R) -> (0 < R -> above_mid n d R) -> nearest_even p w n d R.
Proof using Hp.
  intros Hd HR Hup Hlo. split; [exact HR|]. intros S HS.
  destruct (Z.lt_trichotomy S R) as [Hlt|[->|Hgt]]; [|split; [lia|auto]|].
  - destruct (Hlo ltac:(lia)) as [H1 H2].
    pose proof (mag_val_le S (R - 1) ltac:(lia)) as Hm. pose proof (mag_val_lt (R - 1) R ltac:(lia)) as Hs.
    assert (d * mag_val p S <= d * mag_val p (R - 1) < d * mag_val p R) by nia.
    split; [lia|]. intros. right. apply H2. lia.
  - destruct (Hup ltac:(lia)) as [H1 H2].
    pose proof (mag_val_le (R + 1) S ltac:(lia)) as Hm. pose proof (mag_val_lt R (R + 1) ltac:(lia)) as Hs.
    assert (d * mag_val p R < d * mag_val p (R + 1) <= d * mag_val p S) by nia.
    split; [lia|]. intros. right. apply H2. lia.
Qed.

(** The rounding of a rational is unique: the specification is a function. *)
Lemma nearest_unique n d R S : 0 < d -> nearest_even p w n d R -> nearest_even p w n d S -> R = S.
Proof using Hp.
  intros Hd [HR H1] [HS H2].
  destruct (H1 S HS) as [L1 T1], (H2 R HR) as [L2 T2].
  destruct (Z.eq_dec R S) as [|Hne]; [auto|]. exfalso.
  destruct (T1 ltac:(lia)) as [|ER]; [lia|]. destruct (T2 ltac:(lia)) as [|ES]; [lia|].
  set (M := Z.min R S + 1).
  assert (exists X, (X = R \/ X = S) /\ Z.even X = true /\ X + 1 = M) as (X & HX & EX & HM).
  { destruct (Z.min_spec R S) as [[_ E]|[_ E]]; [exists R|exists S]; unfold M; rewrite E; auto. }
  assert (Z.even M = false) as EM by (rewrite <- HM, Z.even_add, EX; reflexivity).
  assert (M <> Z.max R S) as Hmax.
  { intros E. destruct (Z.max_spec R S) as [[_ F]|[_ F]]; rewrite F in E; congruence. }
  assert (Z.min R S < M < Z.max R S) as HMb by (unfold M in *; lia).
  pose proof (mag_val_lt (Z.min R S) M ltac:(lia)) as B1. pose proof (mag_val_lt M (Z.max R S) ltac:(lia)) as B2.
  destruct (H1 M ltac:(lia)) as [L3 _], (H2 M ltac:(lia)) as [L4 _].
  destruct (Z.min_spec R S) as [[O E]|[O E]]; rewrite E in *; [rewrite (Z.max_r R S) in * by lia|rewrite (Z.max_l R S) in * by lia];
    set (a := d * mag_val p R) in *; set (b := d * mag_val p S) in *; set (c := d * mag_val p M) in *;
    assert (a < c < b \/ b < c < a) by (subst a b c; nia); lia.
Qed.

(** A representable value rounds to itself. *)
Lemma nearest_self d R : 0 < d -> 0 <= R <= fp_inf p w -> nearest_even p w (d * mag_val p R) d R.
Proof using Hp.
  intros Hd HR. apply nearest_local; auto.
  - intros _. pose proof (mag_val_step R ltac:(lia)). split; [nia|]. intros; exfalso; nia.
  - intros H0. pose proof (mag_val_lt (R - 1) R ltac:(lia)). split; [nia|]. intros; exfalso; nia.
Qed.

(** ** Rounding a significand with three extra bits *)

Definition rne8 (m : Z) : Z :=
  let q := m / 8 in
  let r := m mod 8 in
  if (4 <? r) || ((r =? 4) && Z.odd q) then q + 1 else q.

Lemma rne8_spec m :
  4 * (2 * rne8 m - 1) <= m <= 4 * (2 * rne8 m + 1) /\
  (m = 4 * (2 * rne8 m - 1) \/ m = 4 * (2 * rne8 m + 1) -> Z.even (rne8 m) = true).
Proof using.
  clear. unfold rne8. pose proof (Z.div_mod m 8 ltac:(lia)). pose proof (Z.mod_pos_bound m 8 ltac:(lia)).
  destruct (Z.ltb_spec 4 (m mod 8)); cbn [orb].
  { split; [lia|]. intros [|]; lia. }
  destruct (Z.eqb_spec (m mod 8) 4); cbn [andb].
  - rewrite <- Z.negb_even. destruct (Z.even (m / 8)) eqn:E; cbn [negb].
    + split; [lia|auto].
    + split; [lia|]. intros _. rewrite Z.even_add, E. reflexivity.
  - split; [lia|]. intros [|]; lia.
Qed.

Lemma rne8_bounds m : 0 <= m < 2 ^ (p + 4) -> 0 <= rne8 m <= 2 ^ (p + 1).
Proof using Hp.
  intros Hm. replace (p + 4) with (p + 1 + 3) in Hm by lia. rewrite Z.pow_add_r in Hm by lia.
  change (2 ^ 3) with 8 in Hm. pose proof (proj1 (rne8_spec m)). lia.
Qed.

Lemma rne8_normal m : 2 ^ (p + 3) <= m -> 2 ^ p <= rne8 m.
Proof using Hp.
  rewrite Z.pow_add_r by lia. change (2 ^ 3) with 8. intros. pose proof (proj1 (rne8_spec m)). lia.
Qed.

(** The magnitude encoding of a rounded significand at exponent [E]. *)
Definition pack (E m : Z) : Z := Z.min (fp_inf p w) ((E - 1) * 2 ^ p + rne8 m).

Context (n d : Z).

(** ** Rounding at a known exponent *)

(** [r] is [n / d] rounded to a multiple of the unit [2^(E-1)], ties to even. *)
Definition unit_round (E r : Z) : Prop :=
  (2 * r - 1) * d * 2 ^ (E - 1) <= 2 * n <= (2 * r + 1) * d * 2 ^ (E - 1) /\
  (2 * n = (2 * r - 1) * d * 2 ^ (E - 1) \/ 2 * n = (2 * r + 1) * d * 2 ^ (E - 1) -> Z.even r = true).

(** [n / d] is in the binade of exponent [E] (or below it, for the lowest one). *)
Definition in_binade (E : Z) : Prop :=
  1 <= E /\ (E = 1 \/ 2 ^ p * d * 2 ^ (E - 1) <= n) /\ n < 2 ^ (p + 1) * d * 2 ^ (E - 1).

Context (Hw : 2 <= w) (Hd : 0 < d) (Hn : 0 <= n).

Lemma fp_inf_pos : 0 < fp_inf p w.
Proof using Hp Hw.
  unfold fp_inf. pose proof (pow2_pos p ltac:(lia)).
  pose proof (Z.pow_le_mono_r 2 1 w ltac:(lia) ltac:(lia)). nia.
Qed.

Section Unit.
Context (E r : Z) (HB : in_binade E) (HU : unit_round E r).

Lemma unit_bounds : 0 <= r <= 2 ^ (p + 1) /\ (E = 1 \/ 2 ^ p <= r).
Proof using Hp Hd Hn HB HU.
  clear Hw. destruct HB as (HE & HL & HH), HU as [[H1 H2] _]. pose proof (pow2_pos (E - 1) ltac:(lia)).
  assert (0 < d * 2 ^ (E - 1)) by nia. set (x := d * 2 ^ (E - 1)) in *.
  rewrite <- !Z.mul_assoc in *. fold x in HL, HH, H1, H2. repeat split; [nia|nia|]. destruct HL as [|HL]; [auto|right; nia].
Qed.

Let R := (E - 1) * 2 ^ p + r.

Lemma unit_val : mag_val p R = r * 2 ^ (E - 1).
Proof using Hp Hd Hn HB HU. clear Hw. pose proof unit_bounds as [? ?]. destruct HB as (HE & _). apply mag_val_at; auto. Qed.

Lemma unit_even : Z.even R = Z.even r.
Proof using Hp.
  clear -Hp. subst R. rewrite Z.even_add, Z.even_mul, (Z.even_pow 2 p) by lia. rewrite orb_true_r. destruct (Z.even r); reflexivity.
Qed.

Lemma unit_below : below_mid n d R.
Proof using Hp Hd Hn HB HU.
  clear Hw. pose proof unit_bounds as [Hr Hrn]. destruct HB as (HE & HL & HH), HU as [[H1 H2] H3]. unfold below_mid. rewrite unit_val, unit_even.
  pose proof (pow2_pos (E - 1) ltac:(lia)) as PE. pose proof (pow2_pos p ltac:(lia)) as P2.
  destruct (Z.eq_dec r (2 ^ (p + 1))) as [Er|Er].
  - assert (mag_val p R < mag_val p (R + 1)) as Hlt by (apply mag_val_lt; subst R; nia). rewrite unit_val in Hlt.
    split; [nia|]. intros; exfalso; nia.
  - assert (mag_val p (R + 1) = (r + 1) * 2 ^ (E - 1)) as -> by (subst R; rewrite <- Z.add_assoc; apply mag_val_at; lia).
    split; [lia|]. intros Eq. apply H3. lia.
Qed.

Lemma unit_above : 0 < R -> above_mid n d R.
Proof using Hp Hd Hn HB HU.
  clear Hw. intros HR. pose proof unit_bounds as [Hr Hrn]. destruct HB as (HE & HL & HH), HU as [[H1 H2] H3]. unfold above_mid. rewrite unit_val, unit_even.
  pose proof (pow2_pos (E - 1) ltac:(lia)) as PE. pose proof (pow2_pos p ltac:(lia)) as P2.
  destruct (Z.eq_dec E 1) as [E1|E1]; [|destruct (Z.eq_dec r (2 ^ p)) as [Er|Er]].
  - assert (mag_val p (R - 1) = (r - 1) * 2 ^ (E - 1)) as ->.
    { subst R. rewrite <- Z.add_sub_assoc. apply mag_val_at; [lia| |auto]. rewrite E1 in HR. lia. }
    split; [lia|]. intros Eq. apply H3. lia.
  - assert (mag_val p (R - 1) < mag_val p R) as Hlt by (apply mag_val_lt; lia). rewrite unit_val in Hlt.
    split; [nia|]. intros; exfalso; nia.
  - assert (mag_val p (R - 1) = (r - 1) * 2 ^ (E - 1)) as -> by (subst R; rewrite <- Z.add_sub_assoc; apply mag_val_at; lia).
    split; [lia|]. intros Eq. apply H3. lia.
Qed.

Lemma unit_overflow : fp_inf p w < R -> above_mid n d (fp_inf p w).
Proof using Hp Hw Hd Hn HB HU.
  intros Hover. pose proof unit_bounds as [Hr Hrn]. destruct HB as (HE & HL & HH).
  pose proof (pow2_pos p ltac:(lia)) as P2. pose proof fp_inf_pos as Pinf.
  pose proof (Z.pow_le_mono_r 2 2 w ltac:(lia) ltac:(lia)) as W4. change (2 ^ 2) with 4 in W4.
  assert (2 ^ w - 2 <= E - 1) as HEw by (subst R; unfold fp_inf in Hover; rewrite pow2_S in Hr by lia; nia).
  assert (mag_val p (fp_inf p w) = 2 ^ p * 2 ^ (2 ^ w - 2)) as Vinf.
  { unfold fp_inf. replace ((2 ^ w - 1) * 2 ^ p) with ((2 ^ w - 1 - 1) * 2 ^ p + 2 ^ p) by ring.
    rewrite mag_val_at; [do 2 f_equal; lia|lia| |right; lia]. rewrite pow2_S by lia. lia. }
  pose proof (mag_val_lt (fp_inf p w - 1) (fp_inf p w) ltac:(lia)) as Hlt.
  assert (2 ^ (2 ^ w - 2) <= 2 ^ (E - 1)) as Hpow by (apply Z.pow_le_mono_r; lia).
  assert (d * mag_val p (fp_inf p w) <= n) by (rewrite Vinf; destruct HL; [lia|nia]).
  unfold above_mid. split; [nia|]. intros; exfalso; nia.
Qed.

Lemma unit_nearest : nearest_even p w n d (Z.min (fp_inf p w) R).
Proof using Hp Hw Hd Hn HB HU.
  pose proof fp_inf_pos as Pinf. pose proof unit_bounds as [Hr _]. destruct HB as (HE & _).
  assert (0 <= R) by (subst R; pose proof (pow2_pos p ltac:(lia)); nia).
  destruct (Z.le_gt_cases R (fp_inf p w)) as [Hfit|Hover].
  - rewrite Z.min_r by lia. apply nearest_local; [exact Hd|lia|intros _; apply unit_below|apply unit_above].
  - rewrite Z.min_l by lia. apply nearest_local; [exact Hd|lia|lia|]. intros _. apply unit_overflow. lia.
Qed.

End Unit.

(** [m] stands for [n / d] to within what rounding needs: it is on the same
    side of every half of the last place. *)
Definition halfway (E m : Z) : Prop := forall t, (2 * n ?= t * d * 2 ^ (E - 1)) = (m ?= 4 * t).

Lemma halves_le E m t : halfway E m -> m <= 4 * t -> 2 * n <= t * d * 2 ^ (E - 1).
Proof using. clear. intros H Hm. specialize (H t). destruct (Z.compare_spec m (4 * t)); rewrite ?Z.compare_lt_iff, ?Z.compare_eq_iff in H; lia. Qed.
Lemma halves_ge E m t : halfway E m -> 4 * t <= m -> t * d * 2 ^ (E - 1) <= 2 * n.
Proof using. clear. intros H Hm. specialize (H t). destruct (Z.compare_spec m (4 * t)); rewrite ?Z.compare_gt_iff, ?Z.compare_eq_iff in H; lia. Qed.
Lemma halves_eq E m t : halfway E m -> 2 * n = t * d * 2 ^ (E - 1) -> m = 4 * t.
Proof using. clear. intros H Hm. specialize (H t). rewrite Hm, Z.compare_refl in H. symmetry in H. apply Z.compare_eq in H. exact H. Qed.

Lemma pack_nearest E m : 1 <= E -> 0 <= m < 2 ^ (p + 4) -> E = 1 \/ 2 ^ (p + 3) <= m ->
  halfway E m -> nearest_even p w n d (pack E m).
Proof using Hp Hw Hd Hn.
  intros HE Hm Hnorm Hh. apply unit_nearest.
  - split; [exact HE|]. split.
    + destruct Hnorm as [|Hnorm]; [auto|right]. rewrite Z.pow_add_r in Hnorm by lia.
      pose proof (halves_ge _ _ (2 ^ p * 2) Hh ltac:(lia)). lia.
    + replace (p + 4) with (p + 1 + 3) in Hm by lia. rewrite (Z.pow_add_r 2 (p + 1) 3) in Hm by lia.
      destruct (Z.eq_dec (2 * n) (2 ^ (p + 1) * 2 * d * 2 ^ (E - 1))) as [Eq|Ne].
      * apply (halves_eq _ _ _ Hh) in Eq. lia.
      * pose proof (halves_le _ _ (2 ^ (p + 1) * 2) Hh ltac:(lia)). lia.
  - destruct (rne8_spec m) as [[H1 H2] H3]. split.
    + split; [apply (halves_ge _ _ _ Hh)|apply (halves_le _ _ _ Hh)]; lia.
    + intros Ht. apply H3. destruct Ht as [Ht|Ht]; apply (halves_eq _ _ _ Hh) in Ht; lia.
Qed.

End Format.

(** ** Results are encodings of the format *)

Lemma rounds_range p w s n d r : 1 <= p -> 2 <= w -> rounds_to p w s n d r -> 0 <= r < 2 ^ (p + w + 1).
Proof.
  intros Hp Hw (R & -> & [HR _]). unfold fp_make, fp_inf in *. rewrite pow2_S, Z.pow_add_r by lia.
  pose proof (pow2_pos p ltac:(lia)). pose proof (pow2_pos w ltac:(lia)). destruct s; nia.
Qed.

Lemma make_range p w s R : 1 <= p -> 2 <= w -> 0 <= R <= fp_inf p w -> 0 <= fp_make p w s R < 2 ^ (p + w + 1).
Proof.
  intros Hp Hw HR. unfold fp_make, fp_inf in *. rewrite pow2_S, Z.pow_add_r by lia.
  pose proof (pow2_pos p ltac:(lia)). pose proof (pow2_pos w ltac:(lia)). destruct s; nia.
Qed.

Section Range.
Context (p w : Z) (Hp : 1 <= p) (Hw : 2 <= w).

Lemma special_range s : 0 <= fp_make p w s 0 < 2 ^ (p + w + 1) /\ 0 <= fp_make p w s (fp_inf p w) < 2 ^ (p + w + 1).
Proof using Hp Hw. pose proof (fp_inf_pos p w Hp Hw). split; apply make_range; auto; lia. Qed.

Lemma add_result_range a b r : add_result p w a b r -> 0 <= r < 2 ^ (p + w + 1).
Proof using Hp Hw.
  unfold add_result. destruct a as [|sa|sa ma], b as [|sb|sb mb]; try (intros [H _]; exact H); try (intros ->; apply special_range).
  - destruct (eqb sa sb); [intros ->; apply special_range|intros [H _]; exact H].
  - cbv zeta. destruct (_ =? 0); [intros ->; apply special_range|apply rounds_range; auto].
Qed.

Lemma mul_spec_range a b r : mul_spec p w a b r -> 0 <= r < 2 ^ (p + w + 1).
Proof using Hp Hw.
  unfold mul_spec. destruct (classify p w a) as [|sa|sa ma], (classify p w b) as [|sb|sb mb];
    try (intros [H _]; exact H); try (intros ->; apply special_range); try (apply rounds_range; auto);
    (destruct (_ =? 0); [intros [H _]; exact H|intros ->; apply special_range]).
Qed.

Lemma div_spec_range a b r : div_spec p w a b r -> 0 <= r < 2 ^ (p + w + 1).
Proof using Hp Hw.
  unfold div_spec. destruct (classify p w a) as [|sa|sa ma], (classify p w b) as [|sb|sb mb];
    try (intros [H _]; exact H); try (intros ->; apply special_range).
  destruct (mb =? 0); [destruct (ma =? 0); [intros [H _]; exact H|intros ->; apply special_range]|apply rounds_range; auto].
Qed.

End Range.
