(* ===== verification/SoftRound.v ===== *)
(** * The rounding cores round to nearest, ties to even

    Arithmetic readings of the bit operations of the soft-float runtime, the
    invariant a significand with a sticky bit keeps with the exact value it
    stands for, and the proof that [sfp_round_pack_float] and
    [sfp_round_pack_double] return the nearest encoding. *)

From S2P Require Import Prelude.
From S2P Require Import FpSpec.
From S2P Require Import SoftCommon.
Local Open Scope Z_scope.
Local Open Scope c_scope.

(** ** Bit operations as arithmetic *)

Lemma u64_mod x : u64 x = x mod 2 ^ 64.
Proof. unfold u64. apply Z.land_ones. lia. Qed.

Lemma u64_small x : 0 <= x < 2 ^ 64 -> u64 x = x.
Proof. intros. rewrite u64_mod. apply Z.mod_small. lia. Qed.

Lemma shl32_mul x k : 0 <= k -> 0 <= x * 2 ^ k < 2 ^ 32 -> x <<< k = x * 2 ^ k.
Proof. intros. unfold shl32. rewrite Z.shiftl_mul_pow2 by lia. apply u32_small. lia. Qed.

Lemma shl64_mul x k : 0 <= k -> 0 <= x * 2 ^ k < 2 ^ 64 -> shl64 x k = x * 2 ^ k.
Proof. intros. unfold shl64. rewrite Z.shiftl_mul_pow2 by lia. apply u64_small. lia. Qed.

Lemma land_mask x k : 0 <= k -> Z.land x (2 ^ k - 1) = x mod 2 ^ k.
Proof. intros. rewrite <- Z.land_ones by lia. unfold Z.ones. rewrite Z.shiftl_1_l. reflexivity. Qed.

(** Disjoint fields: [|] is addition. *)
Lemma land_fields a b k : 0 <= k -> 0 <= b < 2 ^ k -> Z.land (a * 2 ^ k) b = 0.
Proof.
  intros Hk Hb. apply Z.bits_inj'. intros i Hi. rewrite Z.land_spec, Z.bits_0.
  destruct (Z.lt_ge_cases i k).
  - rewrite Z.mul_pow2_bits_low by lia. reflexivity.
  - rewrite (testbit_above k b i) by lia. apply andb_false_r.
Qed.

Lemma lor_fields a b k : 0 <= k -> 0 <= b < 2 ^ k -> Z.lor (a * 2 ^ k) b = a * 2 ^ k + b.
Proof.
  intros Hk Hb. pose proof (land_fields a b k Hk Hb).
  rewrite <- Z.lxor_lor, <- Z.add_nocarry_lxor by assumption. reflexivity.
Qed.

(** Setting the implicit bit over a fraction. *)
Lemma lor_implicit k m : 0 <= k -> 0 <= m < 2 ^ k -> Z.lor m (2 ^ k) = m + 2 ^ k.
Proof. intros. rewrite Z.lor_comm. rewrite <- (Z.mul_1_l (2 ^ k)). rewrite lor_fields by lia. lia. Qed.

Lemma truth_testbit x k : 0 <= k -> truth (Z.land x (2 ^ k)) = Z.testbit x k.
Proof.
  intros Hk. destruct (Z.testbit x k) eqn:E.
  - apply truth_true. intros H. assert (Z.testbit (Z.land x (2 ^ k)) k = false) as F by (rewrite H; apply Z.bits_0).
    rewrite Z.land_spec, E, Z.pow2_bits_true in F by lia. discriminate F.
  - apply truth_false. apply Z.bits_inj'. intros i Hi. rewrite Z.land_spec, Z.bits_0.
    destruct (Z.eq_dec i k) as [->|]; [rewrite E; reflexivity|].
    rewrite Z.pow2_bits_false by lia. apply andb_false_r.
Qed.

Lemma testbit_top r k : 0 <= k -> 0 <= r <= 2 ^ k -> Z.testbit r k = (r =? 2 ^ k).
Proof.
  intros Hk Hr. destruct (Z.eqb_spec r (2 ^ k)) as [->|]; [apply Z.pow2_bits_true; lia|].
  apply (testbit_above k); lia.
Qed.

Lemma testbit_odd r k : 0 <= k -> Z.testbit r k = Z.odd (r / 2 ^ k).
Proof. intros. rewrite <- Z.shiftr_div_pow2 by lia. rewrite <- Z.bit0_odd, Z.shiftr_spec by lia. reflexivity. Qed.

(** ** Sticky shifts *)

Definition sticky (m s : Z) : Z := Z.lor (m / 2 ^ s) (b2z (negb (m mod 2 ^ s =? 0))).

Lemma lor_1 x : Z.lor x 1 = if Z.even x then x + 1 else x.
Proof.
  destruct (Z.even x) eqn:E.
  - apply Z.even_spec in E. destruct E as [k ->]. rewrite Z.mul_comm. change 2 with (2 ^ 1). apply lor_fields; lia.
  - rewrite <- Z.negb_odd in E. apply negb_false_iff, Z.odd_spec in E. destruct E as [k ->].
    rewrite Z.mul_comm. change 2 with (2 ^ 1). rewrite <- (lor_fields k 1 1) by lia.
    rewrite <- Z.lor_assoc. reflexivity.
Qed.

(** A quotient with its inexactness in the lowest bit keeps every comparison
    with an even number. *)
Lemma quot_cmp N B q r t : 0 <= r < B -> N = q * B + r ->
  (Z.lor q (b2z (negb (r =? 0))) ?= 2 * t) = (N ?= 2 * t * B).
Proof.
  intros Hr ->. destruct (Z.eqb_spec r 0) as [->|Hne]; cbn [negb b2z].
  - rewrite Z.lor_0_r, Z.add_0_r.
    destruct (Z.compare_spec q (2 * t)); symmetry; [apply Z.compare_eq_iff|apply Z.compare_lt_iff|apply Z.compare_gt_iff]; nia.
  - rewrite lor_1. destruct (Z.even q) eqn:E.
    + apply Z.even_spec in E. destruct E as [k ->].
      destruct (Z.compare_spec (2 * k + 1) (2 * t)); [lia| |]; symmetry; [apply Z.compare_lt_iff|apply Z.compare_gt_iff]; nia.
    + rewrite <- Z.negb_odd in E. apply negb_false_iff, Z.odd_spec in E. destruct E as [k ->].
      destruct (Z.compare_spec (2 * k + 1) (2 * t)); [lia| |]; symmetry; [apply Z.compare_lt_iff|apply Z.compare_gt_iff]; nia.
Qed.

Lemma sticky_bound m s j : 0 <= s -> 1 <= j -> 0 <= m < 2 ^ (j + s) -> 0 <= sticky m s < 2 ^ j.
Proof.
  intros Hs Hj Hm. rewrite Z.pow_add_r in Hm by lia. pose proof (pow2_pos s Hs). unfold sticky.
  apply lor_bound; [lia| |].
  - split; [apply Z.div_pos; lia|apply Z.div_lt_upper_bound; lia].
  - pose proof (Z.pow_le_mono_r 2 1 j ltac:(lia) ltac:(lia)). destruct (m mod 2 ^ s =? 0); cbn [b2z negb]; lia.
Qed.

Lemma sticky_lower m s j : 0 <= s -> 0 <= j -> 2 ^ (j + s) <= m -> 2 ^ j <= sticky m s.
Proof.
  intros Hs Hj Hm. rewrite Z.pow_add_r in Hm by lia. pose proof (pow2_pos s Hs).
  assert (2 ^ j <= m / 2 ^ s) by (apply Z.div_le_lower_bound; lia).
  unfold sticky. destruct (m mod 2 ^ s =? 0); cbn [b2z negb]; [rewrite Z.lor_0_r; lia|].
  rewrite lor_1. destruct (Z.even _); lia.
Qed.

(** A sticky shift keeps every comparison with an even number. *)
Lemma sticky_cmp m s t : 0 <= s -> (sticky m s ?= 2 * t) = (m ?= 2 * t * 2 ^ s).
Proof.
  intros Hs. pose proof (pow2_pos s Hs) as P. apply quot_cmp; [apply Z.mod_pos_bound; lia|].
  pose proof (Z.div_mod m (2 ^ s)). lia.
Qed.

Lemma sticky32_eq m s : 0 <= m < 2 ^ 32 -> 0 <= s -> sfp_shr_sticky32 m s = sticky m s.
Proof.
  intros Hm Hs. unfold sfp_shr_sticky32, sticky. destruct (Z.leb_spec s 0).
  - assert (s = 0) as -> by lia. rewrite Z.div_1_r, Z.mod_1_r, Z.lor_0_r. reflexivity.
  - destruct (Z.leb_spec 32 s).
    + pose proof (Z.pow_le_mono_r 2 32 s ltac:(lia) ltac:(lia)).
      rewrite Z.div_small, Z.mod_small, Z.lor_0_l by lia. reflexivity.
    + pose proof (pow2_pos s Hs). pose proof (Z.pow_lt_mono_r 2 s 32 ltac:(lia) ltac:(lia) ltac:(lia)).
      rewrite shl32_mul, u32_small, Z.mul_1_l, land_mask, Z.shiftr_div_pow2 by lia. reflexivity.
Qed.

Lemma sticky64_eq m s : 0 <= m < 2 ^ 64 -> 0 <= s -> sfp_shr_sticky64 m s = sticky m s.
Proof.
  intros Hm Hs. unfold sfp_shr_sticky64, sticky. destruct (Z.leb_spec s 0).
  - assert (s = 0) as -> by lia. rewrite Z.div_1_r, Z.mod_1_r, Z.lor_0_r. reflexivity.
  - destruct (Z.leb_spec 64 s).
    + pose proof (Z.pow_le_mono_r 2 64 s ltac:(lia) ltac:(lia)).
      rewrite Z.div_small, Z.mod_small, Z.lor_0_l by lia. reflexivity.
    + pose proof (pow2_pos s Hs). pose proof (Z.pow_lt_mono_r 2 s 64 ltac:(lia) ltac:(lia) ltac:(lia)).
      rewrite shl64_mul, u64_small, Z.mul_1_l, land_mask, Z.shiftr_div_pow2 by lia. reflexivity.
Qed.

(** ** What a significand stands for *)

(** [n / d = m * 2^k]. *)
Definition exact (n d k m : Z) : Prop := vcmp n d k m = Eq.

(** [n / d] and [m * 2^k] are on the same side of every multiple of [g * 2^k]. *)
Definition agrees (n d g k m : Z) : Prop := forall t, vcmp n d k (g * t) = (m ?= g * t).

(** The input the rounding cores accept: an exact significand, one whose lowest
    bit is sticky and that loses at most one bit to normalization, or one that
    is not below its final position and whose two lowest bits are sticky. *)
Definition kept (p n d k m : Z) : Prop :=
  exact n d k m \/ (2 ^ (p + 2) <= m /\ agrees n d 2 k m) \/ (2 ^ (p + 3) <= m /\ agrees n d 4 k m).

Section Normalize.
Context (n d : Z) (Hd : 0 < d).

Lemma exact_agrees g k m : exact n d k m -> agrees n d g k m.
Proof using Hd. intros H t. apply vcmp_exact; auto. Qed.

Lemma exact_up k m : exact n d k m -> exact n d (k - 1) (m * 2 ^ 1).
Proof using. unfold exact. rewrite vcmp_shift by lia. intros <-. f_equal. lia. Qed.

Lemma agrees_up g k m : agrees n d g k m -> agrees n d (2 * g) (k - 1) (m * 2 ^ 1).
Proof using.
  clear Hd. intros H t. replace (2 * g * t) with (g * t * 2 ^ 1) by lia.
  rewrite vcmp_shift, compare_scale_pow by lia. rewrite <- H. f_equal. lia.
Qed.

Lemma agrees_down g k m s : 0 <= s -> agrees n d (2 * g) k m -> agrees n d (2 * g) (k + s) (sticky m s).
Proof using.
  clear Hd. intros Hs H t. replace (2 * g * t) with (2 * (g * t)) by lia. rewrite <- vcmp_shift, sticky_cmp by lia.
  replace (2 * (g * t) * 2 ^ s) with (2 * g * (t * 2 ^ s)) by lia. apply H.
Qed.

Lemma agrees_weaken g j k m : agrees n d g k m -> agrees n d (j * g) k m.
Proof using. intros H t. replace (j * g * t) with (g * (j * t)) by lia. apply H. Qed.

Lemma agrees_halves E m : 1 <= E -> agrees n d 4 (E - 4) m -> halfway n d E m.
Proof using.
  clear Hd. intros HE H t. rewrite <- H. replace (4 * t) with (t * 2 ^ 2) by lia. rewrite vcmp_shift by lia.
  unfold vcmp. destruct (Z.eq_dec E 1) as [->|].
  - change (Z.max 0 (- (1 - 4 + 2))) with 1. change (Z.max 0 (1 - 4 + 2)) with 0. change (2 ^ (1 - 1)) with 1. f_equal; lia.
  - rewrite (Z.max_l 0), (Z.max_r 0) by lia.
    rewrite <- (compare_scale_pow (n * 2 ^ 0) _ 1) by lia. f_equal; [lia|].
    replace (E - 1) with (E - 4 + 2 + 1) by lia. rewrite pow2_S by lia. lia.
Qed.

Context (p : Z) (Hp : 1 <= p).

(** One step of the loop that shifts a wide significand down. *)
Lemma good_down k m : 2 ^ (p + 4) <= m -> kept p n d k m -> kept p n d (k + 1) (sticky m 1).
Proof using Hd Hp.
  intros Hm H. right. right. split.
  - apply sticky_lower; [lia..|]. replace (p + 3 + 1) with (p + 4) by lia. exact Hm.
  - apply (agrees_down 2); [lia|]. destruct H as [H|[[_ H]|[_ H]]]; [apply exact_agrees, H|apply (agrees_weaken 2 2), H|exact H].
Qed.

Lemma down_loop fuel : forall m e, 0 <= m < 2 ^ (p + 4 + Z.of_nat fuel) -> 0 < m -> kept p n d (e - 4) m ->
  let '(m', e') := sig_loop (fun m => 2 ^ (p + 4) <=? m) (fun m => sticky m 1) 1 fuel m e in
  0 < m' < 2 ^ (p + 4) /\ kept p n d (e' - 4) m' /\ e <= e'.
Proof using Hd Hp.
  induction fuel as [|fuel IH]; intros m e Hm H0 Hg; cbn [sig_loop].
  - replace (p + 4 + Z.of_nat 0) with (p + 4) in Hm by lia. repeat split; auto; lia.
  - destruct (Z.leb_spec (2 ^ (p + 4)) m) as [Hle|Hlt]; [|repeat split; auto; lia].
    assert (0 <= sticky m 1 < 2 ^ (p + 4 + Z.of_nat fuel)).
    { apply sticky_bound; [lia|lia|]. replace (p + 4 + Z.of_nat fuel + 1) with (p + 4 + Z.of_nat (S fuel)) by lia. lia. }
    assert (0 < sticky m 1) by (assert (2 ^ 0 <= sticky m 1); [apply sticky_lower; [lia..|]|]; pose proof (Z.pow_le_mono_r 2 (0 + 1) (p + 4) ltac:(lia) ltac:(lia)); lia).
    specialize (IH (sticky m 1) (e + 1) ltac:(auto) ltac:(auto)).
    destruct (sig_loop _ _ 1 fuel _ _) as [m' e'].
    destruct IH as (? & ? & ?); [|repeat split; auto; lia].
    replace (e + 1 - 4) with (e - 4 + 1) by lia. apply good_down; auto.
Qed.

(** The loop that shifts a narrow significand up, on an exact one and in general. *)
Lemma up_loop_exact fuel : forall m e, 0 < m < 2 ^ (p + 4) -> 2 ^ (p + 3) <= m * 2 ^ Z.of_nat fuel -> exact n d (e - 4) m ->
  let '(m', e') := sig_loop (fun m => m <? 2 ^ (p + 3)) (fun m => m * 2 ^ 1) (-1) fuel m e in
  2 ^ (p + 3) <= m' < 2 ^ (p + 4) /\ exact n d (e' - 4) m'.
Proof using Hp.
  clear Hd. induction fuel as [|fuel IH]; intros m e Hm Hf Hx; cbn [sig_loop].
  - split; [lia|auto].
  - destruct (Z.ltb_spec m (2 ^ (p + 3))); [|split; [lia|auto]].
    apply IH.
    + replace (p + 4) with (p + 3 + 1) by lia. rewrite pow2_S by lia. lia.
    + replace (Z.of_nat (S fuel)) with (1 + Z.of_nat fuel) in Hf by lia. rewrite (Z.pow_add_r 2 1), Z.mul_assoc in Hf by lia. exact Hf.
    + replace (e + -1 - 4) with (e - 4 - 1) by lia. apply exact_up, Hx.
Qed.

Lemma up_loop fuel m e : 0 < m < 2 ^ (p + 4) -> p + 3 <= Z.of_nat fuel -> kept p n d (e - 4) m ->
  let '(m', e') := sig_loop (fun m => m <? 2 ^ (p + 3)) (fun m => m * 2 ^ 1) (-1) fuel m e in
  2 ^ (p + 3) <= m' < 2 ^ (p + 4) /\ agrees n d 4 (e' - 4) m'.
Proof using Hd Hp.
  intros Hm Hf [Hx|[[Hl Ha]|[Hl Ha]]].
  - pose proof (up_loop_exact fuel m e Hm) as H.
    destruct (sig_loop _ _ _ fuel m e) as [m' e']. destruct H as [H1 H2]; [|exact Hx|].
    + pose proof (Z.pow_le_mono_r 2 (p + 3) (Z.of_nat fuel) ltac:(lia) ltac:(lia)). nia.
    + split; [exact H1|]. apply exact_agrees, H2.
  - destruct fuel as [|[|fuel]]; [lia|lia|]. cbn [sig_loop].
    replace (p + 3) with (p + 2 + 1) by lia. rewrite (pow2_S (p + 2)) by lia.
    destruct (Z.ltb_spec m (2 * 2 ^ (p + 2))); [|split; [lia|apply (agrees_weaken 2 2), Ha]].
    replace (m * 2 ^ 1 <? 2 * 2 ^ (p + 2)) with false by lia.
    replace (p + 4) with (p + 2 + 1 + 1) by lia. rewrite !pow2_S by lia. split; [lia|].
    replace (e + -1 - 4) with (e - 4 - 1) by lia. apply (agrees_up 2), Ha.
  - destruct fuel as [|fuel]; [lia|]. cbn [sig_loop]. replace (m <? 2 ^ (p + 3)) with false by lia. split; [lia|exact Ha].
Qed.

End Normalize.

(** ** The tail of the rounding cores *)

Lemma sig_loop_ext (P : Z -> Prop) cond step cond' step' delta :
  (forall m, P m -> cond m = cond' m) ->
  (forall m, P m -> cond m = true -> step m = step' m /\ P (step m)) ->
  forall fuel m e, P m -> sig_loop cond step delta fuel m e = sig_loop cond' step' delta fuel m e.
Proof.
  intros Hc Hs. induction fuel as [|fuel IH]; intros m e Hm; cbn [sig_loop]; [reflexivity|].
  rewrite <- (Hc m Hm). destruct (cond m) eqn:E; [|reflexivity].
  destruct (Hs m Hm E) as [E1 HP]. rewrite <- E1. apply IH, HP.
Qed.

(** Rounding at the three extra bits, as the code writes it. *)
Lemma round_step (wrap : Z -> Z) m : 0 <= m -> (forall x, 0 <= x <= m + 8 -> wrap x = x) ->
  (if (4 <? m &&& 7) || ((m &&& 7 =? 4) && truth (m &&& 8)) then wrap (m + 8) else m) >>> 3 = rne8 m.
Proof.
  intros Hm Hw. change 7 with (2 ^ 3 - 1). change (m &&& 8) with (m &&& 2 ^ 3).
  rewrite land_mask, truth_testbit, testbit_odd by lia. change (2 ^ 3) with 8. unfold rne8.
  destruct ((4 <? m mod 8) || ((m mod 8 =? 4) && Z.odd (m / 8))).
  - rewrite Hw, Z.shiftr_div_pow2 by lia. change (2 ^ 3) with 8. change 8 with (1 * 8) at 1.
    rewrite Z.div_add by lia. reflexivity.
  - apply Z.shiftr_div_pow2. lia.
Qed.

(** The carry into the next binade and the overflow test. *)
Definition round_tail (p w : Z) (make : Z -> Z -> Z) (exp r : Z) : Z :=
  let '(mant, exp) :=
    if exp =? 0 then (r, if truth (r &&& 2 ^ p) then 1 else exp)
    else if truth (r &&& 2 ^ (p + 1)) then (r >>> 1, exp + 1) else (r, exp) in
  if 2 ^ w - 1 <=? exp then make (2 ^ w - 1) 0 else make exp mant.

Lemma round_tail_pack p w make base exp r : 1 <= p -> 2 <= w ->
  (forall e m, 0 <= e <= 2 ^ w - 1 -> make e m = base + (e * 2 ^ p + m mod 2 ^ p)) ->
  (exp = 0 /\ 0 <= r <= 2 ^ p) \/ (1 <= exp /\ 2 ^ p <= r <= 2 ^ (p + 1)) ->
  round_tail p w make exp r = base + Z.min (fp_inf p w) ((Z.max 1 exp - 1) * 2 ^ p + r).
Proof.
  intros Hp Hw Hmk Hr. unfold round_tail, fp_inf. pose proof (pow2_pos p ltac:(lia)) as P.
  pose proof (Z.pow_le_mono_r 2 2 w ltac:(lia) ltac:(lia)) as W. change (2 ^ 2) with 4 in W.
  rewrite !truth_testbit by lia. rewrite (pow2_S p) in Hr by lia. destruct (Z.eqb_spec exp 0) as [->|Hne].
  - assert (0 <= r <= 2 ^ p) as Hr' by lia. rewrite testbit_top by lia.
    destruct (Z.eqb_spec r (2 ^ p)) as [->|Hr2].
    + replace (2 ^ w - 1 <=? 1) with false by lia. rewrite Hmk by lia. rewrite Z.mod_same by lia. nia.
    + replace (2 ^ w - 1 <=? 0) with false by lia. rewrite Hmk by lia. rewrite Z.mod_small by lia. nia.
  - assert (2 ^ p <= r <= 2 * 2 ^ p) as Hr' by lia. rewrite testbit_top by (rewrite ?pow2_S; lia). rewrite pow2_S by lia.
    rewrite (Z.max_r 1 exp) by lia.
    destruct (Z.eqb_spec r (2 * 2 ^ p)) as [->|Hr2].
    + rewrite Z.shiftr_div_pow2 by lia. change (2 ^ 1) with 2. rewrite (Z.mul_comm 2), Z.div_mul by lia.
      destruct (Z.leb_spec (2 ^ w - 1) (exp + 1)); rewrite Hmk by lia.
      * rewrite Z.mod_0_l by lia. nia.
      * rewrite Z.mod_same by lia. nia.
    + destruct (Z.leb_spec (2 ^ w - 1) exp); rewrite Hmk by lia.
      * rewrite Z.mod_0_l by lia. nia.
      * replace (r mod 2 ^ p) with (r - 2 ^ p); [nia|].
        replace r with (r - 2 ^ p + 1 * 2 ^ p) at 2 by lia. rewrite Z.mod_add, Z.mod_small by lia. reflexivity.
Qed.

(** Denormalizing below the smallest exponent, then rounding and packing. *)
Lemma denormalize_nearest p w n d make base m e : 1 <= p -> 2 <= w -> 0 < d -> 0 <= n ->
  (forall e m, 0 <= e <= 2 ^ w - 1 -> make e m = base + (e * 2 ^ p + m mod 2 ^ p)) ->
  2 ^ (p + 3) <= m < 2 ^ (p + 4) -> agrees n d 4 (e - 4) m ->
  let '(m', e') := if e <=? 0 then (sticky m (1 - e), 0) else (m, e) in
  0 <= m' < 2 ^ (p + 4) /\ exists R, round_tail p w make e' (rne8 m') = base + R /\ nearest_even p w n d R.
Proof.
  intros Hp Hw Hd Hn Hmk Hm Ha. destruct (Z.leb_spec e 0) as [He|He].
  - assert (0 <= sticky m (1 - e) < 2 ^ (p + 3)) as Hs.
    { apply sticky_bound; [lia|lia|]. pose proof (Z.pow_le_mono_r 2 (p + 4) (p + 3 + (1 - e)) ltac:(lia) ltac:(lia)). lia. }
    assert (2 ^ (p + 4) = 2 * 2 ^ (p + 3)) as E4 by (replace (p + 4) with (p + 3 + 1) by lia; apply pow2_S; lia).
    split; [lia|]. exists (pack p w 1 (sticky m (1 - e))). split.
    + rewrite (round_tail_pack p w make base); [reflexivity|auto..|]. left. split; [reflexivity|].
      pose proof (rne8_spec (sticky m (1 - e))). rewrite Z.pow_add_r in Hs by lia. lia.
    + apply pack_nearest; auto; try lia. apply agrees_halves; [lia|].
      replace (1 - 4) with (e - 4 + (1 - e)) by lia. apply (agrees_down n d 2); [lia|exact Ha].
  - split; [pose proof (pow2_pos (p + 3)); lia|]. exists (pack p w e m). split.
    + rewrite (round_tail_pack p w make base); [rewrite Z.max_r by lia; reflexivity|auto..|].
      right. split; [lia|]. split; [apply rne8_normal; lia|apply rne8_bounds; pose proof (pow2_pos (p + 3)); lia].
    + pose proof (pow2_pos (p + 3) ltac:(lia)). apply pack_nearest; try assumption; try lia. apply agrees_halves; [lia|exact Ha].
Qed.

(** ** The two cores *)

Lemma nearest_zero p w d : 1 <= p -> 2 <= w -> 0 < d -> nearest_even p w 0 d 0.
Proof.
  intros Hp Hw Hd. pose proof (nearest_self p w Hp d 0 Hd) as H. rewrite mag_val_0, Z.mul_0_r in H by auto.
  apply H. pose proof (fp_inf_pos p w Hp Hw). lia.
Qed.

Lemma good_zero p n d k : 0 <= p -> kept p n d k 0 -> n = 0.
Proof.
  intros Hp [H|[[H _]|[H _]]]; [|pose proof (pow2_pos (p + 2)); lia|pose proof (pow2_pos (p + 3)); lia].
  unfold exact, vcmp in H. apply Z.compare_eq in H. rewrite Z.mul_0_r in H.
  pose proof (pow2_pos (Z.max 0 (- k))). nia.
Qed.

Lemma make_float_eq sign exp mant : sign = 0 \/ sign = 1 -> 0 <= exp <= 255 ->
  make_float sign exp mant = sign * 2 ^ 31 + (exp * 2 ^ 23 + mant mod 2 ^ 23).
Proof.
  intros Hs He. unfold make_float. rewrite (u32_small sign), (u32_small exp), !shl32_mul by (destruct Hs; subst; lia).
  change FLOAT_MANT_MASK with (2 ^ 23 - 1). rewrite land_mask by lia.
  pose proof (Z.mod_pos_bound mant (2 ^ 23) ltac:(lia)).
  rewrite <- Z.lor_assoc, (lor_fields exp) by lia. rewrite lor_fields by lia. reflexivity.
Qed.

Lemma make_double_eq sign exp mant : sign = 0 \/ sign = 1 -> 0 <= exp <= 2047 ->
  make_double sign exp mant = sign * 2 ^ 63 + (exp * 2 ^ 52 + mant mod 2 ^ 52).
Proof.
  intros Hs He. unfold make_double. change 1 with (2 ^ 1 - 1) at 1. change 0x7FF with (2 ^ 11 - 1).
  change DOUBLE_MANT_MASK with (2 ^ 52 - 1). rewrite !land_mask, (Z.mod_small sign), (Z.mod_small exp) by (destruct Hs; subst; lia).
  rewrite !shl64_mul by (destruct Hs; subst; lia).
  pose proof (Z.mod_pos_bound mant (2 ^ 52) ltac:(lia)).
  rewrite <- Z.lor_assoc, (lor_fields exp) by lia. rewrite lor_fields by lia. reflexivity.
Qed.

Lemma fp_make_float sign R : sign = 0 \/ sign = 1 -> sign * 2 ^ 31 + R = fp_make 23 8 (truth sign) R.
Proof. intros [->| ->]; reflexivity. Qed.

Lemma fp_make_double sign R : sign = 0 \/ sign = 1 -> sign * 2 ^ 63 + R = fp_make 52 11 (truth sign) R.
Proof. intros [->| ->]; reflexivity. Qed.

Lemma round_pack_float_rounds sign exp mant n d : sign = 0 \/ sign = 1 -> 0 <= mant < 2 ^ 32 -> 0 < d -> 0 <= n ->
  kept 23 n d (exp - 4) mant -> rounds_to 23 8 (truth sign) n d (sfp_round_pack_float sign exp mant).
Proof.
  intros Hs Hm Hd Hn Hg. unfold sfp_round_pack_float. destruct (Z.eqb_spec mant 0) as [->|H0].
  { apply good_zero in Hg; [|lia]. subst n. exists 0. split; [|apply nearest_zero; lia].
    rewrite make_float_eq by lia. rewrite <- fp_make_float by exact Hs. reflexivity. }
  rewrite (sig_loop_ext (fun m => 0 <= m < 2 ^ 32) _ _ (fun m => 2 ^ (23 + 4) <=? m) (fun m => sticky m 1)); [|reflexivity| |lia].
  2:{ intros m Pm _. rewrite sticky32_eq by lia. split; [reflexivity|]. apply sticky_bound; [lia..|].
      pose proof (Z.pow_lt_mono_r 2 32 (32 + 1) ltac:(lia) ltac:(lia) ltac:(lia)). lia. }
  pose proof (down_loop n d Hd 23 ltac:(lia) 32 mant exp) as D.
  destruct (sig_loop _ _ 1 32 mant exp) as [m1 e1].
  destruct D as (Hm1 & Hg1 & _); [split; [lia|]; pose proof (Z.pow_lt_mono_r 2 32 (23 + 4 + Z.of_nat 32)); lia|lia|exact Hg|].
  rewrite (sig_loop_ext (fun m => 0 <= m < 2 ^ 32) _ _ (fun m => m <? 2 ^ (23 + 3)) (fun m => m * 2 ^ 1)); [|reflexivity| |lia].
  2:{ intros m Pm Hc. apply Z.ltb_lt in Hc. change FLOAT_NORM_BIT with (2 ^ 26) in Hc. rewrite shl32_mul by lia. lia. }
  pose proof (up_loop n d Hd 23 ltac:(lia) 32 m1 e1 Hm1 ltac:(lia) Hg1) as U.
  destruct (sig_loop _ _ (-1) 32 m1 e1) as [m2 e2]. destruct U as [Hm2 Ha2].
  pose proof (denormalize_nearest 23 8 n d (make_float sign) (sign * 2 ^ 31) m2 e2) as T.
  destruct (Z.leb_spec e2 0) as [He|He].
  - rewrite sticky32_eq by lia.
    destruct T as (Hb & R & ER & HR); try assumption; try lia. { intros; apply make_float_eq; [exact Hs|lia]. }
    exists R. split; [|exact HR]. rewrite <- fp_make_float, <- ER by exact Hs.
    rewrite <- (round_step u32 (sticky m2 (1 - e2))); [reflexivity|lia|intros; apply u32_small; lia].
  - destruct T as (Hb & R & ER & HR); try assumption; try lia. { intros; apply make_float_eq; [exact Hs|lia]. }
    exists R. split; [|exact HR]. rewrite <- fp_make_float, <- ER by exact Hs.
    rewrite <- (round_step u32 m2); [reflexivity|lia|intros; apply u32_small; lia].
Qed.

Lemma step1_sticky m : (m >>> 1) ||| (m &&& 1) = sticky m 1.
Proof.
  unfold sticky. rewrite Z.shiftr_div_pow2 by lia. change (m &&& 1) with (m &&& (2 ^ 1 - 1)). rewrite land_mask by lia.
  change (2 ^ 1) with 2. f_equal. pose proof (Z.mod_pos_bound m 2 ltac:(lia)).
  destruct (Z.eqb_spec (m mod 2) 0); cbn [negb b2z]; lia.
Qed.

Lemma round_pack_double_rounds sign exp mant n d : sign = 0 \/ sign = 1 -> 0 <= mant < 2 ^ 64 -> 0 < d -> 0 <= n ->
  kept 52 n d (exp - 4) mant -> rounds_to 52 11 (truth sign) n d (sfp_round_pack_double sign exp mant).
Proof.
  intros Hs Hm Hd Hn Hg. unfold sfp_round_pack_double. destruct (Z.eqb_spec mant 0) as [->|H0].
  { apply good_zero in Hg; [|lia]. subst n. exists 0. split; [|apply nearest_zero; lia].
    rewrite make_double_eq by lia. rewrite <- fp_make_double by exact Hs. reflexivity. }
  rewrite (sig_loop_ext (fun m => 0 <= m < 2 ^ 64) _ _ (fun m => 2 ^ (52 + 4) <=? m) (fun m => sticky m 1)); [|reflexivity| |lia].
  2:{ intros m Pm _. assert ((m >>> 1) ||| (m &&& 1) = sticky m 1) as -> by apply step1_sticky. split; [reflexivity|]. apply sticky_bound; [lia..|].
      pose proof (Z.pow_lt_mono_r 2 64 (64 + 1) ltac:(lia) ltac:(lia) ltac:(lia)). lia. }
  pose proof (down_loop n d Hd 52 ltac:(lia) 64 mant exp) as D.
  destruct (sig_loop _ _ 1 64 mant exp) as [m1 e1].
  destruct D as (Hm1 & Hg1 & _); [split; [lia|]; pose proof (Z.pow_lt_mono_r 2 64 (52 + 4 + Z.of_nat 64)); lia|lia|exact Hg|].
  rewrite (sig_loop_ext (fun m => 0 <= m < 2 ^ 64) _ _ (fun m => m <? 2 ^ (52 + 3)) (fun m => m * 2 ^ 1)); [|reflexivity| |lia].
  2:{ intros m Pm Hc. apply Z.ltb_lt in Hc. change DOUBLE_NORM_BIT with (2 ^ 55) in Hc. rewrite shl64_mul by lia. lia. }
  pose proof (up_loop n d Hd 52 ltac:(lia) 64 m1 e1 Hm1 ltac:(lia) Hg1) as U.
  destruct (sig_loop _ _ (-1) 64 m1 e1) as [m2 e2]. destruct U as [Hm2 Ha2].
  pose proof (denormalize_nearest 52 11 n d (make_double sign) (sign * 2 ^ 63) m2 e2) as T.
  destruct (Z.leb_spec e2 0) as [He|He].
  - rewrite sticky64_eq by lia.
    destruct T as (Hb & R & ER & HR); try assumption; try lia. { intros; apply make_double_eq; [exact Hs|lia]. }
    exists R. split; [|exact HR]. rewrite <- fp_make_double, <- ER by exact Hs.
    rewrite <- (round_step u64 (sticky m2 (1 - e2))); [reflexivity|lia|intros; apply u64_small; lia].
  - destruct T as (Hb & R & ER & HR); try assumption; try lia. { intros; apply make_double_eq; [exact Hs|lia]. }
    exists R. split; [|exact HR]. rewrite <- fp_make_double, <- ER by exact Hs.
    rewrite <- (round_step u64 m2); [reflexivity|lia|intros; apply u64_small; lia].
Qed.

(** ** What the cores promise *)

(** For every sign, exponent and significand, [sfp_round_pack_float] and
    [sfp_round_pack_double] return the encoding nearest to
    [mant * 2^(exp-4)] least subnormals, ties to even: whatever the position of
    the leading bit, through gradual underflow, the carry into the next binade
    and overflow to infinity. *)
Theorem round_pack_nearest sign exp mant : sign = 0 \/ sign = 1 ->
  let n := mant * 2 ^ Z.max 0 (exp - 4) in
  let d := 2 ^ Z.max 0 (- (exp - 4)) in
  (0 <= mant < 2 ^ 32 -> rounds_to 23 8 (truth sign) n d (sfp_round_pack_float sign exp mant)) /\
  (0 <= mant < 2 ^ 64 -> rounds_to 52 11 (truth sign) n d (sfp_round_pack_double sign exp mant)).
Proof.
  intros Hs n d. pose proof (pow2_pos (Z.max 0 (exp - 4)) ltac:(lia)). assert (0 < d) as Hd by (apply pow2_pos; lia).
  assert (exact n d (exp - 4) mant) as X by (unfold exact, vcmp; apply Z.compare_eq_iff; subst n d; ring).
  split; intros Hm; [apply round_pack_float_rounds|apply round_pack_double_rounds]; auto; try (subst n; nia); left; exact X.
Qed.

Lemma round_pack_nearest_witness :
  (0 <= 0xFFFFFFF < 2 ^ 32 -> rounds_to 23 8 false (0xFFFFFFF * 2 ^ Z.max 0 (200 - 4)) (2 ^ Z.max 0 (- (200 - 4))) (sfp_round_pack_float 0 200 0xFFFFFFF)) /\
  (0 <= 0xFFFFFFF < 2 ^ 64 -> rounds_to 52 11 false (0xFFFFFFF * 2 ^ Z.max 0 (200 - 4)) (2 ^ Z.max 0 (- (200 - 4))) (sfp_round_pack_double 0 200 0xFFFFFFF)).
Proof. exact (round_pack_nearest 0 200 0xFFFFFFF (or_introl eq_refl)). Defined.
