(* ===== verification/SoftUnpack.v ===== *)
(** * Operands of the soft-float runtime as exact values

    How the fields the routines extract determine the value of an encoding, the
    leading-zero counts, and the relation between the aligned sum, the product
    and the quotient of two significands and the exact results they stand for.
    Everything is generic in the format, so the single- and double-precision
    routines share it. *)

From S2P Require Import Prelude.
From S2P Require Import FpSpec.
From S2P Require Import SoftCommon.
From S2P Require Import SoftRound.
Local Open Scope Z_scope.
Local Open Scope c_scope.

(** ** Fields *)

(** [bits] has sign [s], exponent field [e] and fraction [m]. *)
Definition fields (p w bits s e m : Z) : Prop :=
  bits = s * 2 ^ (p + w) + (e * 2 ^ p + m) /\ (s = 0 \/ s = 1) /\ 0 <= e < 2 ^ w /\ 0 <= m < 2 ^ p.

(** The value of a finite encoding. *)
Definition fin_val (p e m : Z) : Z := if e =? 0 then m else (m + 2 ^ p) * 2 ^ (e - 1).

Section Fields.
Context (p w : Z) (Hp : 1 <= p) (Hw : 2 <= w).

Lemma fields_mag bits s e m : fields p w bits s e m -> fp_mag p w bits = e * 2 ^ p + m /\ fp_sign p w bits = truth s.
Proof using Hp Hw.
  intros (-> & Hs & He & Hm). unfold fp_mag, fp_sign. pose proof (pow2_pos p ltac:(lia)). pose proof (pow2_pos w ltac:(lia)).
  assert (0 <= e * 2 ^ p + m < 2 ^ (p + w)) as Hb by (rewrite Z.pow_add_r by lia; nia).
  split.
  - rewrite Z.add_comm, Z.mod_add, Z.mod_small by lia. reflexivity.
  - rewrite testbit_odd by lia. rewrite Z.div_add_l, Z.div_small by lia. destruct Hs as [-> | ->]; reflexivity.
Qed.

Lemma fields_bound bits s e m : fields p w bits s e m -> 0 <= e * 2 ^ p + m < 2 ^ (p + w).
Proof using Hp Hw. intros (_ & Hs & He & Hm). rewrite Z.pow_add_r by lia. nia. Qed.

Lemma fields_div bits s e m : fields p w bits s e m -> (e * 2 ^ p + m) / 2 ^ p = e /\ (e * 2 ^ p + m) mod 2 ^ p = m.
Proof using Hp Hw.
  intros (_ & Hs & He & Hm). pose proof (pow2_pos p ltac:(lia)). rewrite Z.add_comm, Z.div_add, Z.mod_add by lia.
  rewrite Z.div_small, Z.mod_small by lia. lia.
Qed.

Lemma classify_fields bits s e m : fields p w bits s e m ->
  classify p w bits =
    if e =? 2 ^ w - 1 then (if m =? 0 then FInf (truth s) else FNaN) else FFin (truth s) (fin_val p e m).
Proof using Hp Hw.
  intros H. unfold classify. destruct (fields_mag _ _ _ _ H) as [-> ->].
  pose proof (fields_div _ _ _ _ H) as [D M]. destruct H as (_ & Hs & He & Hm). unfold fp_inf, fin_val, mag_val.
  rewrite D, M. pose proof (pow2_pos p ltac:(lia)).
  destruct (Z.eqb_spec e (2 ^ w - 1)) as [->|Hne].
  - destruct (Z.eqb_spec m 0) as [->|Hm0].
    + rewrite Z.add_0_r, Z.ltb_irrefl, Z.eqb_refl. reflexivity.
    + replace ((2 ^ w - 1) * 2 ^ p <? (2 ^ w - 1) * 2 ^ p + m) with true by lia. reflexivity.
  - replace ((2 ^ w - 1) * 2 ^ p <? e * 2 ^ p + m) with false by nia.
    replace (e * 2 ^ p + m =? (2 ^ w - 1) * 2 ^ p) with false by nia. reflexivity.
Qed.

(** A finite encoding is the rounding of its own value. *)
Lemma rounds_self bits s e m : fields p w bits s e m -> e <> 2 ^ w - 1 -> rounds_to p w (truth s) (fin_val p e m) 1 bits.
Proof using Hp Hw.
  intros H Hne. exists (e * 2 ^ p + m). pose proof (fields_bound _ _ _ _ H) as Hb.
  pose proof (fields_div _ _ _ _ H) as [D M].
  destruct H as (-> & Hs & He & Hm). split.
  - unfold fp_make. destruct Hs as [-> | ->]; cbn [truth Z.eqb negb]; lia.
  - replace (fin_val p e m) with (1 * mag_val p (e * 2 ^ p + m)).
    + apply nearest_self; [lia..|]. unfold fp_inf. pose proof (pow2_pos p ltac:(lia)). nia.
    + unfold mag_val. rewrite D, M, Z.mul_1_l. reflexivity.
Qed.

(** The unpacked operand: significand [M] at effective exponent [E]. *)
Definition unpacked (e m M E : Z) : Prop :=
  1 <= E <= Z.max 1 e /\ 0 <= M < 2 ^ (p + 1) /\ (E = 1 \/ 2 ^ p <= M) /\ fin_val p e m = M * 2 ^ (E - 1).

Lemma unpack_ok e m : 0 <= e -> 0 <= m < 2 ^ p ->
  let '(M, E) := if negb (e =? 0) then (m ||| 2 ^ p, e) else (m, 1) in unpacked e m M E.
Proof using Hp.
  clear Hw. intros He Hm. unfold unpacked, fin_val. rewrite pow2_S by lia. pose proof (pow2_pos p ltac:(lia)).
  destruct (Z.eqb_spec e 0) as [->|]; cbn [negb].
  - repeat split; lia.
  - rewrite lor_implicit by lia. repeat split; lia.
Qed.

Lemma fin_val_zero e m : 0 <= e -> 0 <= m < 2 ^ p -> (fin_val p e m =? 0) = (e =? 0) && (m =? 0).
Proof using Hp.
  clear Hw. intros He Hm. unfold fin_val. pose proof (pow2_pos p ltac:(lia)). destruct (Z.eqb_spec e 0) as [->|]; [reflexivity|].
  cbn [andb]. pose proof (pow2_pos (e - 1) ltac:(lia)). nia.
Qed.

End Fields.

Lemma float_fields bits : 0 <= bits < 2 ^ 32 -> fields 23 8 bits (float_sign bits) (float_exp bits) (float_mant bits).
Proof.
  intros Hb. unfold fields, float_sign, float_exp, float_mant, FLOAT_MANT_MASK.
  change 1 with (2 ^ 1 - 1) at 1 2 3. change 0xFF with (2 ^ 8 - 1). change 0x007FFFFF with (2 ^ 23 - 1).
  rewrite !land_mask, !Z.shiftr_div_pow2 by lia. lia_mod.
Qed.

Lemma double_fields bits : 0 <= bits < 2 ^ 64 -> fields 52 11 bits (double_sign bits) (double_exp bits) (double_mant bits).
Proof.
  intros Hb. unfold fields, double_sign, double_exp, double_mant, DOUBLE_MANT_MASK.
  change 1 with (2 ^ 1 - 1) at 1 2 3. change 0x7FF with (2 ^ 11 - 1). change 0x000FFFFFFFFFFFFF with (2 ^ 52 - 1).
  rewrite !land_mask, !Z.shiftr_div_pow2 by lia. lia_mod.
Qed.

(** ** Leading zeros *)

Lemma land_high x k : 0 <= k <= 32 -> 0 <= x < 2 ^ 32 -> (x &&& (2 ^ 32 - 2 ^ k) =? 0) = (x <? 2 ^ k).
Proof.
  intros Hk Hx. assert (x &&& (2 ^ 32 - 2 ^ k) = x / 2 ^ k * 2 ^ k) as ->.
  - replace (2 ^ 32 - 2 ^ k) with (Z.shiftl (Z.ones (32 - k)) k).
    + rewrite <- Z.shiftl_mul_pow2, <- Z.shiftr_div_pow2 by lia. apply Z.bits_inj'. intros i Hi.
      rewrite Z.land_spec. destruct (Z.lt_ge_cases i k).
      * rewrite !Z.shiftl_spec_low by lia. apply andb_false_r.
      * rewrite !Z.shiftl_spec, Z.shiftr_spec by lia. replace (i - k + k) with i by lia.
        destruct (Z.lt_ge_cases i 32).
        -- rewrite Z.ones_spec_low by lia. apply andb_true_r.
        -- rewrite (testbit_above 32) by lia. reflexivity.
    + rewrite Z.shiftl_mul_pow2 by lia. rewrite Z.ones_equiv. unfold Z.pred.
      rewrite Z.mul_add_distr_r, <- Z.pow_add_r by lia. replace (32 - k + k) with 32 by lia. lia.
  - pose proof (pow2_pos k ltac:(lia)). pose proof (Z.div_mod x (2 ^ k) ltac:(lia)).
    pose proof (Z.mod_pos_bound x (2 ^ k) ltac:(lia)). pose proof (Z.div_pos x (2 ^ k) ltac:(lia) ltac:(lia)).
    destruct (Z.ltb_spec x (2 ^ k)); [rewrite Z.div_small by lia; reflexivity|]. nia.
Qed.

(** One stage of the binary search: the leading bit moves up, the count follows. *)
Lemma clz_stage n x j : 0 <= j < 32 -> 0 < x < 2 ^ 32 ->
  let '(n', x') := if x &&& (2 ^ 32 - 2 ^ (32 - j)) =? 0 then (n + j, x <<< j) else (n, x) in
  0 < x' < 2 ^ 32 /\ n' + (31 - Z.log2 x') = n + (31 - Z.log2 x) /\ (2 ^ (32 - j) <= x' \/ x' = x * 2 ^ j).
Proof.
  intros Hj Hx. rewrite land_high by lia. destruct (Z.ltb_spec x (2 ^ (32 - j))) as [H|H]; [|lia].
  assert (2 ^ 32 = 2 ^ (32 - j) * 2 ^ j) as E by (rewrite <- Z.pow_add_r by lia; f_equal; lia).
  pose proof (pow2_pos j ltac:(lia)). rewrite shl32_mul by nia.
  rewrite Z.log2_mul_pow2 by lia. split; [nia|]. split; [lia|auto].
Qed.

Lemma clz32_log2 x : 0 < x < 2 ^ 32 -> clz32 x = 31 - Z.log2 x.
Proof.
  intros Hx. unfold clz32. replace (x =? 0) with false by lia.
  pose proof (clz_stage 0 x 16 ltac:(lia) Hx) as S1. cbv zeta in S1. change (2 ^ 32 - 2 ^ (32 - 16)) with 0xFFFF0000 in S1.
  change (0 + 16) with 16 in S1. destruct (if x &&& 0xFFFF0000 =? 0 then (16, x <<< 16) else (0, x)) as [n1 x1]. destruct S1 as (B1 & E1 & L1).
  pose proof (clz_stage n1 x1 8 ltac:(lia) B1) as S2. change (2 ^ 32 - 2 ^ (32 - 8)) with 0xFF000000 in S2.
  destruct (if x1 &&& 0xFF000000 =? 0 then (n1 + 8, x1 <<< 8) else (n1, x1)) as [n2 x2]. destruct S2 as (B2 & E2 & L2).
  pose proof (clz_stage n2 x2 4 ltac:(lia) B2) as S3. change (2 ^ 32 - 2 ^ (32 - 4)) with 0xF0000000 in S3.
  destruct (if x2 &&& 0xF0000000 =? 0 then (n2 + 4, x2 <<< 4) else (n2, x2)) as [n3 x3]. destruct S3 as (B3 & E3 & L3).
  pose proof (clz_stage n3 x3 2 ltac:(lia) B3) as S4. change (2 ^ 32 - 2 ^ (32 - 2)) with 0xC0000000 in S4.
  destruct (if x3 &&& 0xC0000000 =? 0 then (n3 + 2, x3 <<< 2) else (n3, x3)) as [n4 x4]. destruct S4 as (B4 & E4 & L4).
  assert (2 ^ 30 <= x4) as L by lia.
  change 0x80000000 with (2 ^ 32 - 2 ^ 31). rewrite land_high by lia.
  destruct (Z.ltb_spec x4 (2 ^ 31)).
  - assert (Z.log2 x4 = 30) by (apply Z.log2_unique; lia). lia.
  - assert (Z.log2 x4 = 31) by (apply Z.log2_unique; lia). lia.
Qed.

Lemma clz64_log2 x : 0 < x < 2 ^ 64 -> clz64 x = 63 - Z.log2 x.
Proof.
  intros Hx. unfold clz64. rewrite Z.shiftr_div_pow2 by lia.
  assert (0 <= x / 2 ^ 32 < 2 ^ 32) by lia_mod. rewrite (u32_small (x / 2 ^ 32)) by lia.
  destruct (Z.eqb_spec (x / 2 ^ 32) 0) as [E|E]; cbn [negb].
  - assert (x < 2 ^ 32) by lia_mod. rewrite u32_small, clz32_log2 by lia. lia.
  - rewrite clz32_log2 by lia. rewrite <- Z.shiftr_div_pow2, Z.log2_shiftr by lia.
    assert (32 <= Z.log2 x); [|lia]. apply Z.log2_le_pow2; [lia|]. lia_mod.
Qed.

(** ** Aligned significands *)

(** Any way of clearing the power of two gives the same comparison. *)
Lemma vcmp_of n d k x i j : 0 <= i -> 0 <= j -> k = j - i -> vcmp n d k x = (n * 2 ^ i ?= d * x * 2 ^ j).
Proof.
  intros Hi Hj ->. unfold vcmp. set (c := i - Z.max 0 (- (j - i))).
  rewrite <- (compare_scale_pow (n * 2 ^ Z.max 0 (- (j - i))) _ c) by (unfold c; lia).
  rewrite <- !Z.mul_assoc, <- !Z.pow_add_r by (unfold c; lia). do 3 f_equal; unfold c; try lia. f_equal. f_equal. lia.
Qed.

Lemma compare_add_l a b c : (a + b ?= c) = (b ?= c - a).
Proof. destruct (Z.compare_spec b (c - a)); [apply Z.compare_eq_iff|apply Z.compare_lt_iff|apply Z.compare_gt_iff]; lia. Qed.

Lemma compare_sub_r a b c : (a - b ?= c) = (a - c ?= b).
Proof. destruct (Z.compare_spec (a - c) b); [apply Z.compare_eq_iff|apply Z.compare_lt_iff|apply Z.compare_gt_iff]; lia. Qed.

Lemma pow_grs p : 0 <= p -> 2 ^ (p + 4) = 2 ^ (p + 1) * 8.
Proof. intros. replace (p + 4) with (p + 1 + 3) by lia. rewrite (Z.pow_add_r 2 (p + 1) 3) by lia. reflexivity. Qed.

Section Align.
Context (p : Z) (Hp : 1 <= p).
Context (Ma Ea Mb Eb : Z) (HMa : 0 <= Ma < 2 ^ (p + 1)) (HMb : 0 <= Mb < 2 ^ (p + 1)).
Context (HE : 1 <= Eb <= Ea) (Hnorm : Ea = Eb \/ 2 ^ p <= Ma).

(** The operand with the larger exponent, the other one, and its alignment. *)
Let va := Ma * 2 ^ (Ea - 1).
Let vb := Mb * 2 ^ (Eb - 1).
Let A := Ma * 8.
Let st := sticky (Mb * 8) (Ea - Eb).

Lemma align_pow : 2 ^ (Ea - 1) = 2 ^ (Ea - Eb) * 2 ^ (Eb - 1).
Proof using HE. clear -HE. rewrite <- Z.pow_add_r by lia. f_equal. lia. Qed.

(** Comparisons of the exact sum and difference, scaled to the smaller exponent. *)
Lemma align_cmp v x c : v * 8 = c * 2 ^ (Eb - 1) -> vcmp v 1 (Ea - 4) x = (c ?= x * 2 ^ (Ea - Eb)).
Proof using HE.
  clear -HE. intros Hv. rewrite (vcmp_of _ _ _ _ 3 (Ea - 1)) by lia. change (2 ^ 3) with 8. rewrite Hv, align_pow, Z.mul_1_l.
  rewrite Z.mul_assoc. apply compare_scale_pow. lia.
Qed.

Lemma sum_scaled : (va + vb) * 8 = (A * 2 ^ (Ea - Eb) + Mb * 8) * 2 ^ (Eb - 1).
Proof using HE. clear -HE. subst va vb A. rewrite align_pow. ring. Qed.
Lemma diff_scaled : (va - vb) * 8 = (A * 2 ^ (Ea - Eb) - Mb * 8) * 2 ^ (Eb - 1).
Proof using HE. clear -HE. subst va vb A. rewrite align_pow. ring. Qed.

Lemma sum_agrees : agrees (va + vb) 1 2 (Ea - 4) (A + st).
Proof using HE.
  clear -HE. intros t. rewrite (align_cmp _ _ _ sum_scaled), !compare_add_l.
  replace (2 * t * 2 ^ (Ea - Eb) - A * 2 ^ (Ea - Eb)) with (2 * (t - Ma * 4) * 2 ^ (Ea - Eb)) by (subst A; ring).
  rewrite <- sticky_cmp by lia. f_equal. subst A. ring.
Qed.

Lemma diff_agrees : agrees (va - vb) 1 2 (Ea - 4) (A - st).
Proof using HE.
  clear -HE. intros t. rewrite (align_cmp _ _ _ diff_scaled), (compare_sub_r _ (Mb * 8)), (compare_sub_r A).
  replace (A * 2 ^ (Ea - Eb) - 2 * t * 2 ^ (Ea - Eb)) with (2 * (Ma * 4 - t) * 2 ^ (Ea - Eb)) by (subst A; ring).
  rewrite (Z.compare_antisym (Mb * 8)), (Z.compare_antisym st). rewrite <- sticky_cmp by lia. do 2 f_equal. subst A. ring.
Qed.

(** Either nothing was shifted out, or the larger operand dominates. *)
Lemma align_exact : st * 2 ^ (Ea - Eb) = Mb * 8 \/ (2 ^ (p + 3) <= A /\ 0 <= st < 2 ^ p).
Proof using Hp HMa HMb HE Hnorm.
  subst st A. destruct (Z.le_gt_cases (Ea - Eb) 3) as [Hle|Hgt].
  - left. set (s := Ea - Eb) in *. assert (8 = 2 ^ (3 - s) * 2 ^ s) as E8 by (rewrite <- Z.pow_add_r by lia; replace (3 - s + s) with 3 by lia; reflexivity).
    pose proof (pow2_pos s ltac:(lia)). unfold sticky. rewrite E8, Z.mul_assoc, Z.div_mul, Z.mod_mul by lia.
    cbn [Z.eqb negb b2z]. rewrite Z.lor_0_r. reflexivity.
  - right. split.
    + rewrite Z.pow_add_r by lia. lia.
    + apply sticky_bound; [lia..|]. pose proof (Z.pow_le_mono_r 2 (p + 4) (p + (Ea - Eb)) ltac:(lia) ltac:(lia)).
      pose proof (pow_grs p ltac:(lia)). lia.
Qed.

Lemma sum_good : kept p (va + vb) 1 (Ea - 4) (A + st).
Proof using Hp HMa HMb HE Hnorm.
  destruct align_exact as [E|[HA Hst]].
  - left. unfold exact. rewrite (align_cmp _ _ _ sum_scaled). apply Z.compare_eq_iff. lia.
  - right. left. split; [|exact sum_agrees]. replace (p + 3) with (p + 2 + 1) in HA by lia. rewrite pow2_S in HA by lia.
    pose proof (pow2_pos (p + 2) ltac:(lia)). lia.
Qed.

Lemma diff_good : kept p (va - vb) 1 (Ea - 4) (A - st).
Proof using Hp HMa HMb HE Hnorm.
  destruct align_exact as [E|[HA Hst]].
  - left. unfold exact. rewrite (align_cmp _ _ _ diff_scaled). apply Z.compare_eq_iff. lia.
  - right. left. split; [|exact diff_agrees]. rewrite (Z.pow_add_r 2 p 3) in HA by lia. rewrite (Z.pow_add_r 2 p 2) by lia. lia.
Qed.

(** The significands compare as the values. *)
Lemma diff_cmp : (A ?= st) = (va ?= vb).
Proof using HE.
  clear -HE. pose proof (diff_agrees 0) as H. rewrite Z.mul_0_r, (compare_sub_r A), Z.sub_0_r in H. rewrite <- H.
  rewrite (vcmp_of _ _ _ _ 3 (Ea - 1)) by lia. rewrite Z.mul_0_r, Z.mul_0_l. replace 0 with (0 * 2 ^ 3) at 1 by lia.
  rewrite compare_scale_pow by lia. rewrite (compare_sub_r va), Z.sub_0_r. reflexivity.
Qed.

Lemma align_st_bound : 0 <= st < 2 ^ (p + 4).
Proof using HMb HE Hp.
  clear -HMb HE Hp. subst st. apply sticky_bound; [lia..|].
  pose proof (Z.pow_le_mono_r 2 (p + 4) (p + 4 + (Ea - Eb)) ltac:(lia) ltac:(lia)).
  pose proof (pow_grs p ltac:(lia)). lia.
Qed.

(** A normalized operand with the larger exponent is the larger value. *)
Lemma align_dominates : Eb < Ea -> vb < va.
Proof using Hp HMb HE Hnorm.
  clear HMa. intros Hlt. subst va vb. rewrite align_pow. pose proof (pow2_pos (Eb - 1) ltac:(lia)).
  assert (2 <= 2 ^ (Ea - Eb)) by (change 2 with (2 ^ 1) at 1; apply Z.pow_le_mono_r; lia).
  rewrite pow2_S in HMb by lia. rewrite Z.mul_assoc. apply Z.mul_lt_mono_pos_r; [lia|]. nia.
Qed.

End Align.

(** ** The shared shape of the two additions *)

Section AddFinite.
Context (p w : Z) (Hp : 1 <= p).

(** The rounding core of the format. *)
Context (round_pack : Z -> Z -> Z -> Z).
Definition rounding_core : Prop :=
  forall sign exp mant n d, sign = 0 \/ sign = 1 -> 0 <= mant < 2 ^ (p + 5) -> 0 < d -> 0 <= n ->
    kept p n d (exp - 4) mant -> rounds_to p w (truth sign) n d (round_pack sign exp mant).

(** Alignment, and the addition or subtraction of the aligned significands. *)
Definition align (A Ea B Eb : Z) : Z * Z * Z :=
  if 0 <? Ea - Eb then (A, sticky B (Ea - Eb), Ea)
  else if Ea - Eb <? 0 then (sticky A (- (Ea - Eb)), B, Eb) else (A, B, Ea).
Definition add_aligned (sa sb A B E : Z) : Z :=
  if sa =? sb then round_pack sa E (A + B)
  else
    let '(mant, sign) := if B <=? A then (A - B, sa) else (B - A, sb) in
    if mant =? 0 then 0 else round_pack sign E mant.

(** What two aligned significands know about the values they stand for. *)
Definition aligned (va vb A B E : Z) : Prop :=
  0 <= A < 2 ^ (p + 4) /\ 0 <= B < 2 ^ (p + 4) /\ (A ?= B) = (va ?= vb) /\ kept p (va + vb) 1 (E - 4) (A + B) /\
  (vb <= va -> kept p (va - vb) 1 (E - 4) (A - B)) /\ (va <= vb -> kept p (vb - va) 1 (E - 4) (B - A)).

Lemma align_aligned ea ma Ma Ea eb mb Mb Eb : unpacked p ea ma Ma Ea -> unpacked p eb mb Mb Eb ->
  let '(A, B, E) := align (Ma * 8) Ea (Mb * 8) Eb in aligned (fin_val p ea ma) (fin_val p eb mb) A B E.
Proof using Hp.
  intros (HEa & HMa & Na & ->) (HEb & HMb & Nb & ->). unfold align. pose proof (pow_grs p ltac:(lia)) as P4.
  destruct (Z.ltb_spec 0 (Ea - Eb)) as [Hgt|Hle]; [|destruct (Z.ltb_spec (Ea - Eb) 0) as [Hlt|Heq]]; unfold aligned.
  - assert (1 <= Eb <= Ea) as HE by lia. assert (Ea = Eb \/ 2 ^ p <= Ma) as HN by lia.
    pose proof (align_st_bound p Hp Ea Mb Eb HMb HE) as Bst. pose proof (diff_cmp Ma Ea Mb Eb HE) as C.
    repeat split; try lia; [exact C|apply sum_good; auto|intros; apply diff_good; auto|].
    pose proof (align_dominates p Hp Ma Ea Mb Eb HMb HE HN). lia.
  - assert (1 <= Ea <= Eb) as HE by lia. assert (Eb = Ea \/ 2 ^ p <= Mb) as HN by lia.
    replace (- (Ea - Eb)) with (Eb - Ea) by lia.
    pose proof (align_st_bound p Hp Eb Ma Ea HMa HE) as Bst. pose proof (diff_cmp Mb Eb Ma Ea HE) as C.
    repeat split; try lia; [rewrite Z.compare_antisym, C, <- Z.compare_antisym; reflexivity| | |intros; apply diff_good; auto].
    + rewrite (Z.add_comm (Ma * _)), (Z.add_comm (sticky _ _)). apply sum_good; auto.
    + pose proof (align_dominates p Hp Mb Eb Ma Ea HMa HE HN). lia.
  - assert (Eb = Ea) as -> by lia. assert (1 <= Ea <= Ea) as HE by lia.
    assert (forall m, sticky m (Ea - Ea) = m) as S0.
    { intros m. unfold sticky. rewrite Z.sub_diag, Z.div_1_r, Z.mod_1_r. apply Z.lor_0_r. }
    pose proof (diff_cmp Ma Ea Mb Ea HE) as C. pose proof (sum_good p Hp Ma Ea Mb Ea HMa HMb HE ltac:(auto)) as G1.
    pose proof (diff_good p Hp Ma Ea Mb Ea HMa HMb HE ltac:(auto)) as G2. pose proof (diff_good p Hp Mb Ea Ma Ea HMb HMa HE ltac:(auto)) as G3.
    rewrite S0 in C, G1, G2, G3. repeat split; auto; lia.
Qed.

(** The sum of two non-zero finite operands. *)
Lemma add_aligned_spec sa sb va vb A B E : rounding_core -> sa = 0 \/ sa = 1 -> sb = 0 \/ sb = 1 -> 0 < va -> 0 < vb ->
  aligned va vb A B E ->
  let v := signed (truth sa) va + signed (truth sb) vb in
  if v =? 0 then add_aligned sa sb A B E = fp_make p w (eqb (truth sa) (truth sb) && truth sa) 0
  else rounds_to p w (v <? 0) (Z.abs v) 1 (add_aligned sa sb A B E).
Proof using Hp.
  intros HR Hsa Hsb Pa Pb (BA & BB & C & G1 & G2 & G3). unfold add_aligned.
  assert (2 ^ (p + 5) = 2 * 2 ^ (p + 4)) as P5 by (replace (p + 5) with (p + 4 + 1) by lia; apply pow2_S; lia).
  assert (truth sa = truth sb <-> sa = sb) as Ht by (destruct Hsa as [-> | ->], Hsb as [-> | ->]; cbn; split; congruence).
  destruct (Z.eqb_spec sa sb) as [<-|Hne].
  - set (v := signed _ _ + signed _ _).
    assert (Z.abs v = va + vb /\ (v <? 0) = truth sa) as [-> ->].
    { subst v. destruct Hsa as [-> | ->]; cbn [truth Z.eqb negb signed]; split; lia. }
    replace (v =? 0) with false; [|subst v; destruct Hsa as [-> | ->]; cbn [truth Z.eqb negb signed]; lia].
    apply HR; auto; lia.
  - assert (forall x y : Z, signed (truth sa) x + signed (truth sb) y = if truth sa then y - x else x - y) as Hv.
    { intros. destruct Hsa as [-> | ->], Hsb as [-> | ->]; cbn [truth Z.eqb negb signed]; lia. }
    assert (truth sb = negb (truth sa)) as Hn by (destruct Hsa as [-> | ->], Hsb as [-> | ->]; cbn; congruence).
    rewrite Hv. destruct (Z.leb_spec B A) as [HBA|HBA].
    + assert (vb <= va) as Hva by (apply Z.compare_ge_iff; rewrite <- C; apply Z.compare_ge_iff; exact HBA).
      destruct (Z.eqb_spec (A - B) 0) as [E0|E0].
      * assert (A = B) as -> by lia. rewrite Z.compare_refl in C. symmetry in C. apply Z.compare_eq in C. subst vb.
        replace ((if truth sa then _ else _) =? 0) with true by (destruct (truth sa); lia).
        rewrite Hn. destruct (truth sa); reflexivity.
      * assert (va <> vb) by (intros ->; rewrite Z.compare_refl in C; apply Z.compare_eq in C; lia).
        specialize (HR sa E (A - B) (va - vb) 1 Hsa ltac:(lia) ltac:(lia) ltac:(lia) (G2 Hva)).
        replace ((if truth sa then _ else _) =? 0) with false by (destruct (truth sa); lia).
        replace ((if truth sa then _ else _) <? 0) with (truth sa) by (destruct (truth sa); lia).
        replace (Z.abs _) with (va - vb) by (destruct (truth sa); lia). exact HR.
    + assert (va < vb) as Hva by (apply (proj1 (Z.compare_lt_iff va vb)); rewrite <- C; exact HBA).
      replace (B - A =? 0) with false by lia.
      specialize (HR sb E (B - A) (vb - va) 1 Hsb ltac:(lia) ltac:(lia) ltac:(lia) (G3 ltac:(lia))).
      replace ((if truth sa then _ else _) =? 0) with false by (destruct (truth sa); lia).
      replace ((if truth sa then _ else _) <? 0) with (truth sb) by (rewrite Hn; destruct (truth sa); cbn [negb]; lia).
      replace (Z.abs _) with (vb - va) by (destruct (truth sa); lia). exact HR.
Qed.

End AddFinite.

(** ** Special operands *)

Lemma fields_make p w bits s e m : fields p w bits s e m -> bits = fp_make p w (truth s) (e * 2 ^ p + m).
Proof. intros (-> & [-> | ->] & _); unfold fp_make; cbn [truth Z.eqb negb]; lia. Qed.

Lemma fields_inf p w bits s : fields p w bits s (2 ^ w - 1) 0 -> bits = fp_make p w (truth s) (fp_inf p w).
Proof. intros H. rewrite (fields_make _ _ _ _ _ _ H). rewrite Z.add_0_r. reflexivity. Qed.

Lemma xor_sign s t : s = 0 \/ s = 1 -> t = 0 \/ t = 1 ->
  (Z.lxor s t = 0 \/ Z.lxor s t = 1) /\ truth (Z.lxor s t) = xorb (truth s) (truth t).
Proof. intros [-> | ->] [-> | ->]; cbn; auto. Qed.

Lemma sign_eqb s t : s = 0 \/ s = 1 -> t = 0 \/ t = 1 -> (s =? t) = eqb (truth s) (truth t).
Proof. intros [-> | ->] [-> | ->]; reflexivity. Qed.

Lemma fin_val_nonneg p e m : 0 <= p -> 0 <= e -> 0 <= m < 2 ^ p -> 0 <= fin_val p e m.
Proof. intros. unfold fin_val. destruct (Z.eqb_spec e 0); [lia|]. pose proof (pow2_pos (e - 1)). nia. Qed.

Lemma signed_zero (s : bool) : signed s 0 = 0.
Proof. destruct s; reflexivity. Qed.

(** The sum with a zero operand is the other operand. *)
Lemma rounds_signed p w s v r (P : Prop) : 0 < v -> rounds_to p w s v 1 r ->
  if signed s v =? 0 then P else rounds_to p w (signed s v <? 0) (Z.abs (signed s v)) 1 r.
Proof.
  intros Hv H. replace (signed s v =? 0) with false by (destruct s; cbn [signed]; lia).
  replace (signed s v <? 0) with s by (destruct s; cbn [signed]; lia).
  replace (Z.abs (signed s v)) with v by (destruct s; cbn [signed]; lia). exact H.
Qed.

(** Flipping the sign bit negates. *)
Lemma fields_neg p w bits s e m : 1 <= p -> 2 <= w -> fields p w bits s e m ->
  fields p w (bits ^^^ 2 ^ (p + w)) (1 - s) e m.
Proof.
  intros Hp Hw H. pose proof (fields_bound p w Hp Hw _ _ _ _ H) as Hb. destruct H as (-> & Hs & He & Hm).
  split; [|split; [lia|auto]].
  assert (forall R, 0 <= R < 2 ^ (p + w) -> R ^^^ 2 ^ (p + w) = 2 ^ (p + w) + R) as HX.
  { intros R HR. pose proof (land_fields 1 R (p + w) ltac:(lia) HR) as HL. rewrite Z.mul_1_l in HL.
    rewrite Z.lxor_comm, <- Z.add_nocarry_lxor by exact HL. reflexivity. }
  destruct Hs as [-> | ->].
  - rewrite Z.mul_0_l, Z.add_0_l, HX by lia. lia.
  - rewrite Z.mul_1_l at 1. rewrite <- HX, Z.lxor_assoc, Z.lxor_nilpotent, Z.lxor_0_r by lia. lia.
Qed.

Lemma classify_neg p w bits s e m : 1 <= p -> 2 <= w -> fields p w bits s e m ->
  classify p w (bits ^^^ 2 ^ (p + w)) = neg_class (classify p w bits).
Proof.
  intros Hp Hw H. rewrite (classify_fields p w Hp Hw _ _ _ _ (fields_neg p w _ _ _ _ Hp Hw H)).
  rewrite (classify_fields p w Hp Hw _ _ _ _ H). destruct H as (_ & Hs & _).
  assert (truth (1 - s) = negb (truth s)) as -> by (destruct Hs as [-> | ->]; reflexivity).
  destruct (e =? 2 ^ w - 1); [destruct (m =? 0)|]; reflexivity.
Qed.

Lemma fields_range p w bits s e m : 1 <= p -> 2 <= w -> fields p w bits s e m -> 0 <= bits < 2 ^ (p + w + 1).
Proof.
  intros Hp Hw H. pose proof (fields_bound p w Hp Hw _ _ _ _ H) as Hb. destruct H as (-> & Hs & _).
  rewrite pow2_S by lia. destruct Hs as [-> | ->]; lia.
Qed.

(** ** Products and quotients *)

Lemma exact_mul_pow n d k m j : 0 <= j -> exact n d k m -> exact n d (k - j) (m * 2 ^ j).
Proof. intros Hj H. unfold exact. rewrite vcmp_shift by lia. replace (k - j + j) with k by lia. exact H. Qed.

(** The product of the significands is exact at the sum of the exponents. *)
Lemma product_exact va vb Ma Ea Mb Eb s : 0 <= s -> 1 <= Ea -> 1 <= Eb ->
  va = Ma * 2 ^ (Ea - 1) -> vb = Mb * 2 ^ (Eb - 1) ->
  exact (va * vb) (2 ^ s) (Ea + Eb - 2 - s) (Ma * Mb).
Proof.
  intros Hs HEa HEb -> ->. unfold exact. rewrite (vcmp_of _ _ _ _ s (Ea + Eb - 2)) by lia. apply Z.compare_eq_iff.
  replace (Ea + Eb - 2) with (Ea - 1 + (Eb - 1)) by lia. rewrite Z.pow_add_r by lia. ring.
Qed.

(** Scaling a significand to a fixed position: up exactly, or down by a sticky bit. *)
Lemma scale_agrees n d k m j : 0 < d -> exact n d k m -> 0 <= m ->
  agrees n d 2 (k - j) (if 0 <? j then m * 2 ^ j else sticky m (- j)).
Proof.
  intros Hd H Hm. destruct (Z.ltb_spec 0 j).
  - apply exact_agrees; [exact Hd|]. apply exact_mul_pow; [lia|exact H].
  - replace (k - j) with (k + - j) by lia. apply (agrees_down n d 1); [lia|]. apply exact_agrees; auto.
Qed.

(** A normalized operand: significand [M] at an exponent [E] that may be below 1. *)
Definition normalized (p v M E : Z) : Prop :=
  2 ^ p <= M < 2 ^ (p + 1) /\ exists j, 0 <= j /\ 1 <= E + j /\ v * 2 ^ j = M * 2 ^ (E - 1 + j).

(** Comparisons with the exact quotient are comparisons of the significands. *)
Lemma quotient_vcmp p va vb Ma Ea Mb Eb S k c x : normalized p va Ma Ea -> normalized p vb Mb Eb ->
  0 <= S -> 0 <= c -> k = Ea - Eb + S - c -> vcmp (va * 2 ^ S) vb k x = (Ma * 2 ^ c ?= Mb * x).
Proof.
  intros (_ & ja & Hja & HEa & Va) (_ & jb & Hjb & HEb & Vb) HS Hc Hk.
  set (z := k + ja - jb). set (u := Z.max 0 (- z)). set (v := Z.max 0 z).
  rewrite (vcmp_of _ _ _ _ (ja + u) (jb + v)) by (subst u v z; lia).
  assert (va * 2 ^ S * 2 ^ (ja + u) = Ma * 2 ^ c * 2 ^ (Eb - 1 + jb + v)) as ->.
  { rewrite (Z.pow_add_r 2 ja u) by lia. replace (va * 2 ^ S * (2 ^ ja * 2 ^ u)) with (va * 2 ^ ja * (2 ^ S * 2 ^ u)) by ring.
    rewrite Va, <- !Z.mul_assoc, <- !Z.pow_add_r by lia. do 2 f_equal. subst u v z. lia. }
  assert (vb * x * 2 ^ (jb + v) = Mb * x * 2 ^ (Eb - 1 + jb + v)) as ->.
  { rewrite (Z.pow_add_r 2 jb v) by lia. replace (vb * x * (2 ^ jb * 2 ^ v)) with (vb * 2 ^ jb * (x * 2 ^ v)) by ring.
    rewrite Vb, (Z.pow_add_r 2 (Eb - 1 + jb) v) by lia. ring. }
  apply compare_scale_pow. lia.
Qed.

(** A quotient with its remainder in the sticky bit agrees with the exact one. *)
Lemma quotient_agrees p va vb Ma Ea Mb Eb S k c D B q r : normalized p va Ma Ea -> normalized p vb Mb Eb ->
  0 <= S -> 0 <= c -> k = Ea - Eb + S - c -> D = Ma * 2 ^ c * B -> D = q * (Mb * B) + r -> 0 < B -> 0 <= r < Mb * B ->
  agrees (va * 2 ^ S) vb 2 k (q ||| b2z (negb (r =? 0))).
Proof.
  intros Na Nb HS Hc Hk HD1 HD2 HB Hr t. rewrite (quotient_vcmp p va vb Ma Ea Mb Eb S k c) by auto.
  rewrite (quot_cmp D (Mb * B) q r) by lia. rewrite HD1.
  destruct (Z.compare_spec (Ma * 2 ^ c) (Mb * (2 * t))); symmetry;
    [apply Z.compare_eq_iff|apply Z.compare_lt_iff|apply Z.compare_gt_iff]; nia.
Qed.

(** The product of two normalized significands is exact. *)
Lemma product_exact_norm p va vb Ma Ea Mb Eb S : normalized p va Ma Ea -> normalized p vb Mb Eb -> 0 <= S ->
  exact (va * vb) (2 ^ S) (Ea + Eb - 2 - S) (Ma * Mb).
Proof.
  intros (_ & ja & Hja & HEa & Va) (_ & jb & Hjb & HEb & Vb) HS. unfold exact.
  rewrite (vcmp_of _ _ _ _ (ja + jb + S) (Ea - 1 + ja + (Eb - 1 + jb))) by lia. apply Z.compare_eq_iff.
  rewrite !(Z.pow_add_r 2 (ja + jb)), (Z.pow_add_r 2 ja jb) by lia.
  replace (va * vb * (2 ^ ja * 2 ^ jb * 2 ^ S)) with (va * 2 ^ ja * (vb * 2 ^ jb) * 2 ^ S) by ring.
  rewrite Va, Vb, (Z.pow_add_r 2 (Ea - 1 + ja)) by lia. ring.
Qed.

(** The loop that shifts a subnormal significand up to the implicit bit. *)
Lemma normalize_loop p step fuel m : 1 <= p -> (forall x, 0 <= x < 2 ^ p -> step x = x * 2 ^ 1) ->
  0 < m < 2 ^ p -> p <= Z.of_nat fuel ->
  let '(M, E) := sig_loop (fun m => negb (truth (m &&& 2 ^ p))) step (-1) fuel m 1 in normalized p m M E.
Proof.
  intros Hp Hstep Hm Hfuel. unfold normalized. rewrite pow2_S by lia.
  assert (forall fuel M E j, 0 <= j -> E = 1 - j -> M = m * 2 ^ j -> 0 < M < 2 * 2 ^ p -> 2 ^ p <= M * 2 ^ Z.of_nat fuel ->
    let '(M', E') := sig_loop (fun m => negb (truth (m &&& 2 ^ p))) step (-1) fuel M E in
    2 ^ p <= M' < 2 * 2 ^ p /\ exists j, 0 <= j /\ 1 <= E' + j /\ m * 2 ^ j = M' * 2 ^ (E' - 1 + j)) as L.
  { clear fuel Hfuel. induction fuel as [|fuel IH]; intros M E j Hj HE HM HB Hf; cbn [sig_loop].
    - change (2 ^ Z.of_nat 0) with 1 in Hf. split; [lia|]. exists j. subst. replace (1 - j - 1 + j) with 0 by lia. lia.
    - rewrite truth_testbit, testbit_odd by lia. pose proof (pow2_pos p ltac:(lia)). destruct (Z.lt_ge_cases M (2 ^ p)) as [Hlt|Hge].
      + rewrite Z.div_small by lia. cbn [Z.odd negb]. rewrite Hstep by lia. apply (IH _ _ (j + 1)); [lia|lia| |lia|].
        * subst M. rewrite pow2_S by lia. lia.
        * replace (Z.of_nat (S fuel)) with (Z.of_nat fuel + 1) in Hf by lia. rewrite (pow2_S (Z.of_nat fuel)) in Hf by lia. lia.
      + replace (M / 2 ^ p) with 1 by (apply (Z.div_unique M (2 ^ p) 1 (M - 2 ^ p)); lia). cbn [Z.odd negb].
        split; [lia|]. exists j. subst. replace (1 - j - 1 + j) with 0 by lia. lia. }
  apply (L fuel m 1 0); try lia. pose proof (Z.pow_le_mono_r 2 p (Z.of_nat fuel) ltac:(lia) ltac:(lia)). nia.
Qed.

Lemma normalize_ok p step fuel e m : 1 <= p -> (forall x, 0 <= x < 2 ^ p -> step x = x * 2 ^ 1) -> p <= Z.of_nat fuel ->
  0 <= e -> 0 <= m < 2 ^ p -> 0 < fin_val p e m ->
  let '(M, E) := if negb (e =? 0) then (m ||| 2 ^ p, e)
                 else sig_loop (fun m => negb (truth (m &&& 2 ^ p))) step (-1) fuel m 1 in
  normalized p (fin_val p e m) M E.
Proof.
  intros Hp Hstep Hfuel He Hm Hv. unfold fin_val in *. destruct (Z.eqb_spec e 0) as [->|Hne]; cbn [negb].
  - apply normalize_loop; auto; lia.
  - rewrite lor_implicit by lia. split; [rewrite pow2_S by lia; lia|]. exists 0. split; [lia|]. split; [lia|].
    rewrite Z.add_0_r. lia.
Qed.

Lemma rounds_zero p w s d : 1 <= p -> 2 <= w -> 0 < d -> rounds_to p w s 0 d (fp_make p w s 0).
Proof. intros. exists 0. split; [reflexivity|]. apply nearest_zero; auto. Qed.
