(* ===== verification/SoftFloat.v ===== *)
(** * Single-precision arithmetic of the soft-float runtime

    [__aeabi_fadd], [__aeabi_fsub] ([src/lib/fp/soft/fadd.c]), [__aeabi_fmul]
    ([fmul.c]) and [__aeabi_fdiv] ([fdiv.c]), branch by branch, and the proofs
    that each returns the correctly rounded IEEE 754 result. *)

From S2P Require Import Prelude.
From S2P Require Import FpSpec.
From S2P Require Import SoftCommon.
From S2P Require Import SoftRound.
From S2P Require Import SoftUnpack.
Local Open Scope Z_scope.
Local Open Scope c_scope.

(** ** The operations *)

(** The default quiet NaN. *)
Definition FLOAT_QNAN : Z := 0x7FC00000.

(** The implicit bit of a normal number; a subnormal has effective exponent 1. *)
Definition implicit_f (exp mant : Z) : Z * Z :=
  if negb (exp =? 0) then (mant ||| FLOAT_IMPLICIT_BIT, exp) else (mant, 1).

Definition aeabi_fadd (a_bits b_bits : Z) : Z :=
  let a_sign := float_sign a_bits in
  let b_sign := float_sign b_bits in
  let a_exp := float_exp a_bits in
  let b_exp := float_exp b_bits in
  let a_mant := float_mant a_bits in
  let b_mant := float_mant b_bits in
  if is_nan_f a_bits then a_bits
  else if is_nan_f b_bits then b_bits
  else if is_inf_f a_bits then
    if is_inf_f b_bits && negb (a_sign =? b_sign) then FLOAT_QNAN else a_bits
  else if is_inf_f b_bits then b_bits
  else if is_zero_f a_bits && is_zero_f b_bits then
    if truth a_sign && truth b_sign then FLOAT_SIGN_BIT else 0
  else if is_zero_f a_bits then b_bits
  else if is_zero_f b_bits then a_bits
  else
    let '(a_mant, a_exp) := implicit_f a_exp a_mant in
    let '(b_mant, b_exp) := implicit_f b_exp b_mant in
    let a_mant := a_mant <<< SFP_GRS in
    let b_mant := b_mant <<< SFP_GRS in
    let exp_diff := a_exp - b_exp in
    let '(a_mant, b_mant, result_exp) :=
      if 0 <? exp_diff then (a_mant, sfp_shr_sticky32 b_mant exp_diff, a_exp)
      else if exp_diff <? 0 then (sfp_shr_sticky32 a_mant (- exp_diff), b_mant, b_exp)
      else (a_mant, b_mant, a_exp) in
    if a_sign =? b_sign then sfp_round_pack_float a_sign result_exp (u32 (a_mant + b_mant))
    else
      let '(result_mant, result_sign) :=
        if b_mant <=? a_mant then (u32 (a_mant - b_mant), a_sign) else (u32 (b_mant - a_mant), b_sign) in
      if result_mant =? 0 then 0 else sfp_round_pack_float result_sign result_exp result_mant.

Definition aeabi_fsub (a b : Z) : Z := aeabi_fadd a (b ^^^ FLOAT_SIGN_BIT).

Definition aeabi_fmul (a_bits b_bits : Z) : Z :=
  let a_sign := float_sign a_bits in
  let b_sign := float_sign b_bits in
  let a_exp := float_exp a_bits in
  let b_exp := float_exp b_bits in
  let a_mant := float_mant a_bits in
  let b_mant := float_mant b_bits in
  let result_sign := a_sign ^^^ b_sign in
  if is_nan_f a_bits then a_bits
  else if is_nan_f b_bits then b_bits
  else if is_inf_f a_bits then
    if is_zero_f b_bits then FLOAT_QNAN else make_float result_sign 0xFF 0
  else if is_inf_f b_bits then
    if is_zero_f a_bits then FLOAT_QNAN else make_float result_sign 0xFF 0
  else if is_zero_f a_bits || is_zero_f b_bits then make_float result_sign 0 0
  else
    let '(a_mant, a_exp) := implicit_f a_exp a_mant in
    let '(b_mant, b_exp) := implicit_f b_exp b_mant in
    let product := u64 (a_mant * b_mant) in
    let result_exp := a_exp + b_exp - FLOAT_EXP_BIAS in
    let lead := 63 - clz64 product in
    let adj := 46 - lead in
    let product :=
      if 0 <? adj then shl64 product adj
      else if adj <? 0 then sfp_shr_sticky64 product (- adj) else product in
    let result_exp := result_exp - adj in
    let result_mant := u32 (sfp_shr_sticky64 product (46 - (23 + SFP_GRS))) in
    sfp_round_pack_float result_sign result_exp result_mant.

(** [while (!(mant & FLOAT_IMPLICIT_BIT)) { mant <<= 1; exp--; }] from the
    effective exponent 1, for a subnormal. *)
Definition normalize_f (exp mant : Z) : Z * Z :=
  if negb (exp =? 0) then (mant ||| FLOAT_IMPLICIT_BIT, exp)
  else sig_loop (fun m => negb (truth (m &&& FLOAT_IMPLICIT_BIT))) (fun m => m <<< 1) (-1) 32 mant 1.

(** The restoring division loop: [(quotient, dividend)] after [n] iterations. *)
Fixpoint restoring (n : nat) (quotient dividend divisor : Z) : Z * Z :=
  match n with
  | O => (quotient, dividend)
  | S n =>
      let quotient := shl64 quotient 1 in
      let '(quotient, dividend) :=
        if divisor <=? dividend then (quotient ||| 1, dividend - divisor) else (quotient, dividend) in
      restoring n quotient (shl64 dividend 1) divisor
  end.

Definition aeabi_fdiv (a_bits b_bits : Z) : Z :=
  let a_sign := float_sign a_bits in
  let b_sign := float_sign b_bits in
  let a_exp := float_exp a_bits in
  let b_exp := float_exp b_bits in
  let a_mant := float_mant a_bits in
  let b_mant := float_mant b_bits in
  let result_sign := a_sign ^^^ b_sign in
  if is_nan_f a_bits then a_bits
  else if is_nan_f b_bits then b_bits
  else if is_inf_f a_bits then
    if is_inf_f b_bits then FLOAT_QNAN else make_float result_sign 0xFF 0
  else if is_inf_f b_bits then make_float result_sign 0 0
  else if is_zero_f b_bits then
    if is_zero_f a_bits then FLOAT_QNAN else make_float result_sign 0xFF 0
  else if is_zero_f a_bits then make_float result_sign 0 0
  else
    let '(a_mant, a_exp) := normalize_f a_exp a_mant in
    let '(b_mant, b_exp) := normalize_f b_exp b_mant in
    let result_exp := a_exp - b_exp + FLOAT_EXP_BIAS in
    let '(dividend, result_exp) :=
      if a_mant <? b_mant then (shl64 a_mant 1, result_exp - 1) else (a_mant, result_exp) in
    let '(quotient, dividend) := restoring (24 + Z.to_nat SFP_GRS) 0 dividend b_mant in
    let quotient := quotient ||| b2z (negb (dividend =? 0)) in
    sfp_round_pack_float result_sign result_exp (u32 quotient).

Example fadd_example : aeabi_fadd 0x3F800000 0x40000000 = 0x40400000. (* 1 + 2 = 3 *)
Proof. reflexivity. Qed.
Example fmul_example : aeabi_fmul 0x00000001 0x7F7FFFFF = 0x34FFFFFF. (* least subnormal times greatest *)
Proof. reflexivity. Qed.
Example fdiv_example : aeabi_fdiv 0x3F800000 0x40400000 = 0x3EAAAAAB. (* 1 / 3 *)
Proof. vm_compute. reflexivity. Qed.

(** ** Correctness *)

Lemma float_core : rounding_core 23 8 sfp_round_pack_float.
Proof. intros sign exp mant n d Hs Hm Hd Hn Hg. apply round_pack_float_rounds; auto. change (2 ^ (23 + 5)) with (2 ^ 28) in Hm. lia. Qed.

(** The cases of two operands, by their fields. *)
Lemma float_class bits : 0 <= bits < 2 ^ 32 ->
  classify 23 8 bits =
    if is_nan_f bits then FNaN
    else if is_inf_f bits then FInf (truth (float_sign bits))
    else FFin (truth (float_sign bits)) (fin_val 23 (float_exp bits) (float_mant bits)).
Proof.
  intros Hb. rewrite (classify_fields 23 8 ltac:(lia) ltac:(lia) _ _ _ _ (float_fields bits Hb)).
  unfold is_nan_f, is_inf_f. change (2 ^ 8 - 1) with 0xFF.
  destruct (float_exp bits =? 0xFF); cbn [andb]; [|reflexivity]. destruct (float_mant bits =? 0); reflexivity.
Qed.

Lemma float_inf bits : 0 <= bits < 2 ^ 32 -> is_inf_f bits = true ->
  bits = fp_make 23 8 (truth (float_sign bits)) (fp_inf 23 8).
Proof.
  intros Hb Hi. unfold is_inf_f in Hi. apply andb_prop in Hi. destruct Hi as [He Hm].
  apply Z.eqb_eq in He, Hm. pose proof (float_fields bits Hb) as H. rewrite He, Hm in H. apply fields_inf, H.
Qed.

Lemma float_zero bits : 0 <= bits < 2 ^ 32 -> is_zero_f bits = (fin_val 23 (float_exp bits) (float_mant bits) =? 0).
Proof. intros Hb. destruct (float_fields bits Hb) as (_ & _ & He & Hm). rewrite fin_val_zero by lia. reflexivity. Qed.

Lemma float_self bits : 0 <= bits < 2 ^ 32 -> is_nan_f bits = false -> is_inf_f bits = false ->
  rounds_to 23 8 (truth (float_sign bits)) (fin_val 23 (float_exp bits) (float_mant bits)) 1 bits.
Proof.
  intros Hb Hn Hi. apply rounds_self; [lia|lia|apply float_fields; exact Hb|]. unfold is_nan_f, is_inf_f in Hn, Hi.
  change (2 ^ 8 - 1) with 0xFF. intros E. rewrite E in *. cbn [Z.eqb Pos.eqb andb] in *. destruct (float_mant bits =? 0); discriminate.
Qed.

Lemma float_implicit bits : 0 <= bits < 2 ^ 32 ->
  let '(M, E) := implicit_f (float_exp bits) (float_mant bits) in
  unpacked 23 (float_exp bits) (float_mant bits) M E.
Proof. intros Hb. destruct (float_fields bits Hb) as (_ & _ & He & Hm). exact (unpack_ok 23 ltac:(lia) _ _ (proj1 He) Hm). Qed.

Lemma float_qnan : nan_result 23 8 FLOAT_QNAN.
Proof. split; [split; [discriminate|reflexivity]|reflexivity]. Qed.

Lemma align_f A Ea B Eb : 0 <= A < 2 ^ 32 -> 0 <= B < 2 ^ 32 ->
  (if 0 <? Ea - Eb then (A, sfp_shr_sticky32 B (Ea - Eb), Ea)
   else if Ea - Eb <? 0 then (sfp_shr_sticky32 A (- (Ea - Eb)), B, Eb) else (A, B, Ea)) = align A Ea B Eb.
Proof.
  intros HA HB. unfold align. destruct (Z.ltb_spec 0 (Ea - Eb)); [rewrite sticky32_eq by lia; reflexivity|].
  destruct (Z.ltb_spec (Ea - Eb) 0); [rewrite sticky32_eq by lia|]; reflexivity.
Qed.

Lemma fadd_correct a b : 0 <= a < 2 ^ 32 -> 0 <= b < 2 ^ 32 -> add_spec 23 8 a b (aeabi_fadd a b).
Proof.
  intros Ha Hb. unfold add_spec, add_result. rewrite (float_class a Ha), (float_class b Hb). unfold aeabi_fadd.
  destruct (is_nan_f a) eqn:Na. { split; [exact Ha|]. rewrite (float_class a Ha), Na. reflexivity. }
  destruct (is_nan_f b) eqn:Nb. { destruct (is_inf_f a); (split; [exact Hb|]); rewrite (float_class b Hb), Nb; reflexivity. }
  destruct (float_fields a Ha) as (_ & Sa & Ea & Ma), (float_fields b Hb) as (_ & Sb & Eb & Mb).
  destruct (is_inf_f a) eqn:Ia; [destruct (is_inf_f b) eqn:Ib|destruct (is_inf_f b) eqn:Ib]; cbn [andb].
  - rewrite <- sign_eqb by auto. destruct (float_sign a =? float_sign b); cbn [negb]; [apply float_inf; auto|exact float_qnan].
  - apply float_inf; auto.
  - apply float_inf; auto.
  - rewrite !float_zero by auto.
    pose proof (float_self a Ha Na Ia) as Fa. pose proof (float_self b Hb Nb Ib) as Fb.
    pose proof (fin_val_nonneg 23 _ _ ltac:(lia) (proj1 Ea) Ma) as Va. pose proof (fin_val_nonneg 23 _ _ ltac:(lia) (proj1 Eb) Mb) as Vb.
    pose proof (float_implicit a Ha) as Ua. pose proof (float_implicit b Hb) as Ub.
    destruct (implicit_f (float_exp a) (float_mant a)) as [M1 E1], (implicit_f (float_exp b) (float_mant b)) as [M2 E2].
    set (va := fin_val 23 (float_exp a) (float_mant a)) in *. set (vb := fin_val 23 (float_exp b) (float_mant b)) in *.
    cbv zeta. destruct (Z.eqb_spec va 0) as [Za|Za]; [|destruct (Z.eqb_spec vb 0) as [Zb|Zb]]; cbn [andb].
    + rewrite Za, signed_zero, Z.add_0_l. destruct (Z.eqb_spec vb 0) as [Zb|Zb].
      * rewrite Zb, signed_zero. cbn [Z.eqb]. destruct Sa as [-> | ->], Sb as [-> | ->]; reflexivity.
      * apply rounds_signed; [lia|exact Fb].
    + rewrite Zb, signed_zero, Z.add_0_r. apply rounds_signed; [lia|exact Fa].
    + pose proof (align_aligned 23 ltac:(lia) _ _ _ _ _ _ _ _ Ua Ub) as HA. fold va vb in HA.
      destruct Ua as (_ & B1 & _), Ub as (_ & B2 & _).
      rewrite !shl32_mul by (unfold SFP_GRS; lia). change (2 ^ SFP_GRS) with 8.
      rewrite align_f by lia. destruct (align (M1 * 8) E1 (M2 * 8) E2) as [[A B] E].
      pose proof HA as (BA & BB & _). change (2 ^ (23 + 4)) with (2 ^ 27) in BA, BB.
      rewrite (u32_small (A + B)) by lia.
      assert (0 < va) as Pa by lia. assert (0 < vb) as Pb by lia.
      pose proof (add_aligned_spec 23 8 ltac:(lia) _ _ _ _ _ A B E float_core Sa Sb Pa Pb HA) as R.
      cbv zeta in R. unfold add_aligned in R.
      destruct (Z.leb_spec B A); [rewrite u32_small by lia|rewrite (u32_small (B - A)) by lia]; exact R.
Qed.

Lemma fsub_correct a b : 0 <= a < 2 ^ 32 -> 0 <= b < 2 ^ 32 -> sub_spec 23 8 a b (aeabi_fsub a b).
Proof.
  intros Ha Hb. unfold sub_spec, aeabi_fsub. change FLOAT_SIGN_BIT with (2 ^ (23 + 8)).
  pose proof (float_fields b Hb) as F. rewrite <- (classify_neg 23 8 _ _ _ _ ltac:(lia) ltac:(lia) F).
  apply fadd_correct; [exact Ha|].
  pose proof (fields_range 23 8 _ _ _ _ ltac:(lia) ltac:(lia) (fields_neg 23 8 _ _ _ _ ltac:(lia) ltac:(lia) F)) as R.
  exact R.
Qed.

(** The scaling of the product to 46 bits. *)
Lemma fmul_scale P : 0 < P < 2 ^ 48 ->
  let adj := 46 - (63 - clz64 P) in
  (if 0 <? adj then shl64 P adj else if adj <? 0 then sfp_shr_sticky64 P (- adj) else P) =
    (if 0 <? adj then P * 2 ^ adj else sticky P (- adj)) /\
  2 ^ 46 <= (if 0 <? adj then P * 2 ^ adj else sticky P (- adj)) < 2 ^ 47.
Proof.
  intros HP. cbv zeta. rewrite clz64_log2 by lia. replace (46 - (63 - (63 - Z.log2 P))) with (46 - Z.log2 P) by lia.
  pose proof (Z.log2_spec P ltac:(lia)) as [L1 L2]. rewrite <- Z.add_1_r in L2. pose proof (Z.log2_nonneg P) as L0.
  assert (Z.log2 P < 48) as L3 by (apply Z.log2_lt_pow2; lia). set (l := Z.log2 P) in *.
  destruct (Z.ltb_spec 0 (46 - l)) as [Hl|Hl].
  - assert (2 ^ 46 = 2 ^ l * 2 ^ (46 - l)) as E by (rewrite <- Z.pow_add_r by lia; f_equal; lia).
    rewrite pow2_S in L2 by lia. pose proof (pow2_pos (46 - l) ltac:(lia)).
    assert (2 ^ 46 <= P * 2 ^ (46 - l) < 2 ^ 47) as B by (change (2 ^ 47) with (2 * 2 ^ 46); rewrite E; nia).
    rewrite shl64_mul by lia. auto.
  - assert (2 ^ 46 <= sticky P (- (46 - l)) < 2 ^ 47) as B.
    { split; [apply sticky_lower; [lia..|]; replace (46 + - (46 - l)) with l by lia; lia|].
      apply sticky_bound; [lia..|]. replace (47 + - (46 - l)) with (l + 1) by lia. lia. }
    split; [|exact B]. destruct (Z.ltb_spec (46 - l) 0); [apply sticky64_eq; lia|].
    replace (46 - l) with 0 by lia. rewrite <- sticky64_eq by lia. reflexivity.
Qed.

Lemma fmul_finite sign va vb Ma Ea Mb Eb : sign = 0 \/ sign = 1 -> 0 < Ma < 2 ^ 24 -> 0 < Mb < 2 ^ 24 -> 1 <= Ea -> 1 <= Eb ->
  va = Ma * 2 ^ (Ea - 1) -> vb = Mb * 2 ^ (Eb - 1) ->
  let P := u64 (Ma * Mb) in
  let adj := 46 - (63 - clz64 P) in
  let P := if 0 <? adj then shl64 P adj else if adj <? 0 then sfp_shr_sticky64 P (- adj) else P in
  rounds_to 23 8 (truth sign) (va * vb) (fp_one 23 8)
    (sfp_round_pack_float sign (Ea + Eb - FLOAT_EXP_BIAS - adj) (u32 (sfp_shr_sticky64 P (46 - (23 + SFP_GRS))))).
Proof.
  intros Hs HMa HMb HEa HEb Hva Hvb. cbv zeta. rewrite (u64_small (Ma * Mb)) by nia.
  set (P := Ma * Mb). assert (0 < P < 2 ^ 48) as HP by (subst P; nia).
  pose proof (fmul_scale P HP) as [E B]. cbv zeta in E, B. set (adj := 46 - (63 - clz64 P)) in *. rewrite E.
  set (Q := if 0 <? adj then P * 2 ^ adj else sticky P (- adj)) in *. change (46 - (23 + SFP_GRS)) with 20.
  rewrite (sticky64_eq Q 20) by lia.
  assert (2 ^ 26 <= sticky Q 20 < 2 ^ 27) as BQ by (split; [apply sticky_lower; lia|apply sticky_bound; lia]).
  rewrite u32_small by lia. apply round_pack_float_rounds; [exact Hs|lia|reflexivity| |].
  - subst va vb. pose proof (pow2_pos (Ea - 1) ltac:(lia)). pose proof (pow2_pos (Eb - 1) ltac:(lia)). nia.
  - right. left. split; [change (2 ^ (23 + 2)) with (2 ^ 25); lia|].
    pose proof (product_exact va vb Ma Ea Mb Eb 149 ltac:(lia) HEa HEb Hva Hvb) as X. fold P in X.
    change (fp_one 23 8) with (2 ^ 149).
    replace (Ea + Eb - FLOAT_EXP_BIAS - adj - 4) with (Ea + Eb - 2 - 149 - adj + 20) by (unfold FLOAT_EXP_BIAS; lia).
    apply (agrees_down _ _ 1); [lia|]. apply scale_agrees; [reflexivity|exact X|lia].
Qed.

Lemma make_float_inf s : s = 0 \/ s = 1 -> make_float s 0xFF 0 = fp_make 23 8 (truth s) (fp_inf 23 8).
Proof. intros [-> | ->]; reflexivity. Qed.

Lemma make_float_zero s : s = 0 \/ s = 1 -> make_float s 0 0 = fp_make 23 8 (truth s) 0.
Proof. intros [-> | ->]; reflexivity. Qed.

Lemma fmul_correct a b : 0 <= a < 2 ^ 32 -> 0 <= b < 2 ^ 32 -> mul_spec 23 8 a b (aeabi_fmul a b).
Proof.
  intros Ha Hb. unfold mul_spec. rewrite (float_class a Ha), (float_class b Hb). unfold aeabi_fmul.
  destruct (float_fields a Ha) as (_ & Sa & Ea & Ma), (float_fields b Hb) as (_ & Sb & Eb & Mb).
  destruct (xor_sign _ _ Sa Sb) as [Sx Ex].
  destruct (is_nan_f a) eqn:Na. { split; [exact Ha|]. rewrite (float_class a Ha), Na. reflexivity. }
  destruct (is_nan_f b) eqn:Nb. { destruct (is_inf_f a); (split; [exact Hb|]); rewrite (float_class b Hb), Nb; reflexivity. }
  rewrite !float_zero by auto.
  destruct (is_inf_f a) eqn:Ia; [destruct (is_inf_f b) eqn:Ib|destruct (is_inf_f b) eqn:Ib]; cbv iota beta; rewrite <- Ex.
  - assert (fin_val 23 (float_exp b) (float_mant b) =? 0 = false) as ->; [|apply make_float_inf, Sx].
    rewrite <- float_zero by auto. unfold is_inf_f, is_zero_f in *. apply andb_prop in Ib as [E _]. apply Z.eqb_eq in E.
    rewrite E. reflexivity.
  - destruct (fin_val 23 (float_exp b) (float_mant b) =? 0); [exact float_qnan|apply make_float_inf, Sx].
  - destruct (fin_val 23 (float_exp a) (float_mant a) =? 0); [exact float_qnan|apply make_float_inf, Sx].
  - pose proof (float_implicit a Ha) as Ua. pose proof (float_implicit b Hb) as Ub.
    destruct (implicit_f (float_exp a) (float_mant a)) as [M1 E1], (implicit_f (float_exp b) (float_mant b)) as [M2 E2].
    set (va := fin_val 23 (float_exp a) (float_mant a)) in *. set (vb := fin_val 23 (float_exp b) (float_mant b)) in *.
    destruct Ua as (B1 & B2 & _ & Va), Ub as (B3 & B4 & _ & Vb). fold va in Va. fold vb in Vb.
    destruct (Z.eqb_spec va 0) as [Za|Za]; [|destruct (Z.eqb_spec vb 0) as [Zb|Zb]]; cbn [orb].
    + rewrite Za, Z.mul_0_l, make_float_zero by auto. apply rounds_zero; [lia|lia|reflexivity].
    + rewrite Zb, Z.mul_0_r, make_float_zero by auto. apply rounds_zero; [lia|lia|reflexivity].
    + assert (M1 <> 0) by (intros ->; lia). assert (M2 <> 0) by (intros ->; lia).
      change (2 ^ (23 + 1)) with (2 ^ 24) in *.
      apply (fmul_finite (float_sign a ^^^ float_sign b) va vb M1 E1 M2 E2); auto; lia.
Qed.

(** ** Division *)

(** The normalization of a subnormal operand ends with the implicit bit set. *)
Lemma normalize_f_ok e m : 0 <= e -> 0 <= m < 2 ^ 23 -> 0 < fin_val 23 e m ->
  let '(M, E) := normalize_f e m in normalized 23 (fin_val 23 e m) M E.
Proof. apply (normalize_ok 23 _ 32); [lia|intros; apply shl32_mul; lia|lia]. Qed.

(** The restoring loop divides. *)
Lemma restoring_spec n : forall q r D B, 0 < B < 2 ^ 60 -> 0 <= r < 2 * B -> 0 <= q -> (q + 1) * 2 ^ Z.of_nat n <= 2 ^ 60 ->
  D = 2 * q * B + r ->
  let '(q', r') := restoring n q r B in
  0 <= r' < 2 * B /\ D * 2 ^ Z.of_nat n = 2 * q' * B + r' /\ q * 2 ^ Z.of_nat n <= q' < (q + 1) * 2 ^ Z.of_nat n.
Proof.
  induction n as [|n IH]; intros q r D B HB Hr Hq Hn HD; cbn [restoring].
  - change (2 ^ Z.of_nat 0) with 1. lia.
  - replace (Z.of_nat (S n)) with (Z.of_nat n + 1) in * by lia. rewrite pow2_S in * by lia.
    pose proof (pow2_pos (Z.of_nat n) ltac:(lia)) as P. rewrite (shl64_mul q) by nia. change (2 ^ 1) with 2.
    destruct (Z.leb_spec B r) as [Hle|Hlt].
    + rewrite lor_1. rewrite Z.even_mul, orb_true_r. rewrite (shl64_mul (r - B)) by lia. change (2 ^ 1) with 2.
      specialize (IH (q * 2 + 1) ((r - B) * 2) (D * 2) B HB ltac:(lia) ltac:(lia) ltac:(nia) ltac:(lia)).
      destruct (restoring n (q * 2 + 1) ((r - B) * 2) B) as [q' r']. nia.
    + rewrite (shl64_mul r) by lia. change (2 ^ 1) with 2.
      specialize (IH (q * 2) (r * 2) (D * 2) B HB ltac:(lia) ltac:(lia) ltac:(nia) ltac:(lia)).
      destruct (restoring n (q * 2) (r * 2) B) as [q' r']. nia.
Qed.

Lemma fdiv_finite sign va vb Ma Ea Mb Eb : sign = 0 \/ sign = 1 -> 0 <= va -> 0 < vb ->
  normalized 23 va Ma Ea -> normalized 23 vb Mb Eb ->
  let result_exp := Ea - Eb + FLOAT_EXP_BIAS in
  let '(dividend, result_exp) := if Ma <? Mb then (shl64 Ma 1, result_exp - 1) else (Ma, result_exp) in
  let '(quotient, dividend) := restoring (24 + Z.to_nat SFP_GRS) 0 dividend Mb in
  rounds_to 23 8 (truth sign) (va * fp_one 23 8) vb
    (sfp_round_pack_float sign result_exp (u32 (quotient ||| b2z (negb (dividend =? 0))))).
Proof.
  intros Hs Hva Hvb Na Nb. cbv zeta. pose proof Na as [BA _]. pose proof Nb as [BB _]. change (2 ^ (23 + 1)) with (2 ^ 24) in *.
  set (de := if Ma <? Mb then _ else _).
  assert (exists c, 0 <= c <= 1 /\ de = (Ma * 2 ^ c, Ea - Eb + FLOAT_EXP_BIAS - c) /\ Mb <= Ma * 2 ^ c < 2 * Mb) as (c & Hc & -> & HD).
  { subst de. destruct (Z.ltb_spec Ma Mb); [exists 1; rewrite shl64_mul by lia|exists 0; rewrite Z.mul_1_r, Z.sub_0_r]; (split; [lia|]; split; [reflexivity|lia]). }
  change (24 + Z.to_nat SFP_GRS)%nat with 27%nat. set (D := Ma * 2 ^ c) in *.
  pose proof (restoring_spec 27 0 D D Mb ltac:(lia) ltac:(lia) ltac:(lia) ltac:(lia) ltac:(lia)) as R.
  destruct (restoring 27 0 D Mb) as [q r]. destruct R as (Hr & HDq & Hq). change (2 ^ Z.of_nat 27) with (2 ^ 27) in *.
  assert (2 ^ 26 <= q < 2 ^ 27) as Bq by nia.
  set (m := q ||| b2z (negb (r =? 0))).
  assert (2 ^ 26 <= m < 2 ^ 27) as Bm.
  { assert (0 <= m < 2 ^ 27) by (apply lor_bound; [lia..|destruct (r =? 0); cbn; lia]).
    subst m. destruct (r =? 0); cbn [negb b2z] in *; [rewrite Z.lor_0_r in *; lia|]. rewrite lor_1 in *. destruct (Z.even q); lia. }
  rewrite u32_small by lia. apply round_pack_float_rounds; [exact Hs|lia|exact Hvb| |].
  - change (fp_one 23 8) with (2 ^ 149). lia.
  - right. left. split; [change (2 ^ (23 + 2)) with (2 ^ 25); lia|]. change (fp_one 23 8) with (2 ^ 149).
    apply (quotient_agrees 23 va vb Ma Ea Mb Eb 149 _ (26 + c) (D * 2 ^ 27) 2 q r); auto; try lia.
    + unfold FLOAT_EXP_BIAS. lia.
    + subst D. rewrite (Z.pow_add_r 2 26 c) by lia. lia.
Qed.

Lemma fdiv_correct a b : 0 <= a < 2 ^ 32 -> 0 <= b < 2 ^ 32 -> div_spec 23 8 a b (aeabi_fdiv a b).
Proof.
  intros Ha Hb. unfold div_spec. rewrite (float_class a Ha), (float_class b Hb). unfold aeabi_fdiv.
  destruct (float_fields a Ha) as (_ & Sa & Ea & Ma), (float_fields b Hb) as (_ & Sb & Eb & Mb).
  destruct (xor_sign _ _ Sa Sb) as [Sx Ex].
  destruct (is_nan_f a) eqn:Na. { split; [exact Ha|]. rewrite (float_class a Ha), Na. reflexivity. }
  destruct (is_nan_f b) eqn:Nb. { destruct (is_inf_f a); (split; [exact Hb|]); rewrite (float_class b Hb), Nb; reflexivity. }
  rewrite !float_zero by auto.
  destruct (is_inf_f a) eqn:Ia; [destruct (is_inf_f b) eqn:Ib|destruct (is_inf_f b) eqn:Ib]; cbv iota beta; rewrite <- ?Ex.
  - exact float_qnan.
  - apply make_float_inf, Sx.
  - apply make_float_zero, Sx.
  - pose proof (normalize_f_ok _ _ (proj1 Ea) Ma) as Ua. pose proof (normalize_f_ok _ _ (proj1 Eb) Mb) as Ub.
    pose proof (fin_val_nonneg 23 _ _ ltac:(lia) (proj1 Ea) Ma) as Va. pose proof (fin_val_nonneg 23 _ _ ltac:(lia) (proj1 Eb) Mb) as Vb.
    destruct (normalize_f (float_exp a) (float_mant a)) as [M1 E1], (normalize_f (float_exp b) (float_mant b)) as [M2 E2].
    set (va := fin_val 23 (float_exp a) (float_mant a)) in *. set (vb := fin_val 23 (float_exp b) (float_mant b)) in *.
    destruct (Z.eqb_spec vb 0) as [Zb|Zb]; [|destruct (Z.eqb_spec va 0) as [Za|Za]].
    + destruct (va =? 0); [exact float_qnan|apply make_float_inf, Sx].
    + rewrite Za, Z.mul_0_l, make_float_zero by auto. apply rounds_zero; lia.
    + pose proof (fdiv_finite (float_sign a ^^^ float_sign b) va vb M1 E1 M2 E2 Sx Va ltac:(lia) (Ua ltac:(lia)) (Ub ltac:(lia))) as R.
      cbv zeta in R. destruct (if M1 <? M2 then _ else _) as [D e]. destruct (restoring _ 0 D M2) as [q r]. exact R.
Qed.

(** ** The contract of the single-precision routines *)

(** C13: for all operands, [__aeabi_fadd] and [__aeabi_fsub] return the IEEE 754
    sum and difference: the exact result rounded to nearest, ties to even, for
    finite operands (subnormal operands and results, overflow to infinity and
    the sign of an exact zero included), the infinity or NaN the standard asks
    for otherwise. *)
Theorem fadd_fsub_rounded a b : 0 <= a < 2 ^ 32 -> 0 <= b < 2 ^ 32 ->
  add_spec 23 8 a b (aeabi_fadd a b) /\ sub_spec 23 8 a b (aeabi_fsub a b).
Proof. intros Ha Hb. split; [apply fadd_correct|apply fsub_correct]; assumption. Qed.

Lemma fadd_fsub_rounded_witness :
  add_spec 23 8 0x3F800000 0x00000001 0x3F800000 /\ sub_spec 23 8 0x3F800000 0x00000001 0x3F800000.
Proof. exact (fadd_fsub_rounded 0x3F800000 0x00000001 ltac:(lia) ltac:(lia)). Defined.

(** For all operands, [__aeabi_fmul] returns the IEEE 754 product: the exact
    product rounded to nearest, ties to even, for finite operands, and the
    infinities, zeros and NaNs of the standard otherwise. *)
Theorem fmul_rounded a b : 0 <= a < 2 ^ 32 -> 0 <= b < 2 ^ 32 -> mul_spec 23 8 a b (aeabi_fmul a b).
Proof. exact (fmul_correct a b). Qed.

Lemma fmul_rounded_witness : mul_spec 23 8 0x00000001 0x7F7FFFFF 0x34FFFFFF.
Proof. exact (fmul_rounded 0x00000001 0x7F7FFFFF ltac:(lia) ltac:(lia)). Defined.

(** C39: For all operands, [__aeabi_fdiv] returns the IEEE 754 quotient: the
    exact quotient rounded to nearest, ties to even, for finite operands, an
    infinity for a non-zero number divided by zero, a NaN for 0/0 and for the
    quotient of infinities. *)
Theorem fdiv_rounded a b : 0 <= a < 2 ^ 32 -> 0 <= b < 2 ^ 32 -> div_spec 23 8 a b (aeabi_fdiv a b).
Proof. exact (fdiv_correct a b). Qed.

Lemma fdiv_rounded_witness : div_spec 23 8 0x3F800000 0x40400000 (aeabi_fdiv 0x3F800000 0x40400000).
Proof. exact (fdiv_rounded 0x3F800000 0x40400000 ltac:(lia) ltac:(lia)). Defined.
