(* ===== verification/SoftDouble.v ===== *)
(** * Double-precision arithmetic of the soft-float runtime

    [__aeabi_dadd], [__aeabi_dsub], [__aeabi_dneg] ([src/lib/fp/soft/dadd.c]),
    [__aeabi_dmul] with its 64x64-bit multiplication ([dmul.c]) and
    [__aeabi_ddiv] with its two-digit long division ([ddiv.c]), branch by
    branch. *)

From S2P Require Import Prelude.
From S2P Require Import FpSpec.
From S2P Require Import SoftCommon.
Local Open Scope Z_scope.
Local Open Scope c_scope.

(** ** Addition *)

(** The default quiet NaN. *)
Definition DOUBLE_QNAN : Z := 0x7FF8000000000000.

(** The implicit bit of a normal number; a subnormal has effective exponent 1. *)
Definition implicit_d (exp mant : Z) : Z * Z :=
  if negb (exp =? 0) then (mant ||| DOUBLE_IMPLICIT_BIT, exp) else (mant, 1).

(** The alignment shift, the sticky bit found by shifting the kept bits off the top. *)
Definition align_shift_d (m n : Z) : Z :=
  if n <? 64 then (m >>> n) ||| b2z (negb (shl64 m (64 - n) =? 0)) else b2z (negb (m =? 0)).

(** From the alignment on: non-zero finite operands. *)
Definition dadd_finite (a_sign a_exp a_mant b_sign b_exp b_mant : Z) : Z :=
  let '(a_mant, a_exp) := implicit_d a_exp a_mant in
  let '(b_mant, b_exp) := implicit_d b_exp b_mant in
  let exp_diff := a_exp - b_exp in
  let a_mant := shl64 a_mant 3 in
  let b_mant := shl64 b_mant 3 in
  let '(a_mant, b_mant, result_exp) :=
    if 0 <? exp_diff then (a_mant, align_shift_d b_mant exp_diff, a_exp)
    else if exp_diff <? 0 then (align_shift_d a_mant (- exp_diff), b_mant, b_exp)
    else (a_mant, b_mant, a_exp) in
  if a_sign =? b_sign then sfp_round_pack_double a_sign result_exp (u64 (a_mant + b_mant))
  else
    let '(result_mant, result_sign) :=
      if b_mant <=? a_mant then (u64 (a_mant - b_mant), a_sign) else (u64 (b_mant - a_mant), b_sign) in
    if result_mant =? 0 then 0 else sfp_round_pack_double result_sign result_exp result_mant.

Definition aeabi_dadd (a_bits b_bits : Z) : Z :=
  let a_sign := double_sign a_bits in
  let b_sign := double_sign b_bits in
  let a_exp := double_exp a_bits in
  let b_exp := double_exp b_bits in
  let a_mant := double_mant a_bits in
  let b_mant := double_mant b_bits in
  if a_exp =? 0x7FF then
    if negb (a_mant =? 0) then a_bits
    else if b_exp =? 0x7FF then
      if negb (b_mant =? 0) then b_bits
      else if negb (a_sign =? b_sign) then DOUBLE_QNAN else a_bits
    else a_bits
  else if b_exp =? 0x7FF then b_bits
  else if (a_exp =? 0) && (a_mant =? 0) then
    if (b_exp =? 0) && (b_mant =? 0) then (if truth a_sign && truth b_sign then DOUBLE_SIGN_BIT else 0) else b_bits
  else if (b_exp =? 0) && (b_mant =? 0) then a_bits
  else dadd_finite a_sign a_exp a_mant b_sign b_exp b_mant.

Definition aeabi_dneg (a : Z) : Z := a ^^^ DOUBLE_SIGN_BIT.
Definition aeabi_dsub (a b : Z) : Z := aeabi_dadd a (b ^^^ DOUBLE_SIGN_BIT).

(** ** Multiplication *)

(** The 128-bit product as [(hi, lo)]. *)
Definition mul64wide (a b : Z) : Z * Z :=
  let a0 := u32 a in
  let a1 := u32 (a >>> 32) in
  let b0 := u32 b in
  let b1 := u32 (b >>> 32) in
  let p00 := u64 (a0 * b0) in
  let p01 := u64 (a0 * b1) in
  let p10 := u64 (a1 * b0) in
  let p11 := u64 (a1 * b1) in
  let mid := u64 (u32 (p00 >>> 32) + u32 p01 + u32 p10) in
  let lo := shl64 (u32 mid) 32 ||| u32 p00 in
  let hi := u64 (p11 + u32 (p01 >>> 32) + u32 (p10 >>> 32) + u32 (mid >>> 32)) in
  (hi, lo).

(** [while (!(mant & DOUBLE_IMPLICIT_BIT)) { mant <<= 1; exp--; }] from the
    effective exponent 1, for a subnormal. *)
Definition normalize_d (exp mant : Z) : Z * Z :=
  if negb (exp =? 0) then (mant ||| DOUBLE_IMPLICIT_BIT, exp)
  else sig_loop (fun m => negb (truth (m &&& DOUBLE_IMPLICIT_BIT))) (fun m => shl64 m 1) (-1) 64 mant 1.

(** The significand of the product with its guard and sticky bits, and whether
    the product reached bit 105. *)
Definition dmul_significand (prod_hi prod_lo : Z) : Z * Z :=
  let wide := truth (u32 (prod_hi >>> 32) &&& (1 <<< 9)) in
  let prod_lo_lo := u32 prod_lo in
  let prod_lo_hi := u32 (prod_lo >>> 32) in
  let prod_hi_lo := u32 prod_hi in
  let prod_hi_hi := u32 (prod_hi >>> 32) in
  let shift := if wide then 53 else 52 in
  let '(mant_lo32, mant_hi32, guard, sticky) :=
    if shift =? 52 then
      ((prod_hi_lo <<< 12) ||| (prod_lo_hi >>> 20),
       (prod_hi_hi <<< 12) ||| (prod_hi_lo >>> 20),
       (prod_lo_hi >>> 19) &&& 1,
       b2z (negb (prod_lo_lo =? 0) || negb (prod_lo_hi &&& ((1 <<< 19) - 1) =? 0)))
    else
      ((prod_hi_lo <<< 11) ||| (prod_lo_hi >>> 21),
       (prod_hi_hi <<< 11) ||| (prod_hi_lo >>> 21),
       (prod_lo_hi >>> 20) &&& 1,
       b2z (negb (prod_lo_lo =? 0) || negb (prod_lo_hi &&& ((1 <<< 20) - 1) =? 0))) in
  let mant := shl64 mant_hi32 32 ||| mant_lo32 in
  let mant_grs :=
    shl64 mant SFP_GRS ||| shl64 (b2z (negb (guard =? 0))) (SFP_GRS - 1) ||| b2z (negb (sticky =? 0)) in
  (mant_grs, b2z wide).

(** The general path: non-zero finite operands. *)
Definition dmul_general (result_sign a_exp a_mant b_exp b_mant : Z) : Z :=
  let '(a_mant, a_exp) := normalize_d a_exp a_mant in
  let '(b_mant, b_exp) := normalize_d b_exp b_mant in
  let result_exp := a_exp + b_exp - DOUBLE_EXP_BIAS in
  let '(prod_hi, prod_lo) := mul64wide a_mant b_mant in
  let '(mant_grs, wide) := dmul_significand prod_hi prod_lo in
  sfp_round_pack_double result_sign (result_exp + wide) mant_grs.

(** The power-of-two shortcut, when the result is a normal number. *)
Definition dmul_pow2 (result_sign a_exp a_mant b_exp b_mant : Z) : option Z :=
  if negb (a_exp =? 0) && negb (b_exp =? 0) then
    let exp := a_exp + b_exp - DOUBLE_EXP_BIAS in
    if (0 <? exp) && (exp <? 0x7FF) then
      if a_mant =? 0 then Some (make_double result_sign exp b_mant)
      else if b_mant =? 0 then Some (make_double result_sign exp a_mant) else None
    else None
  else None.

Definition aeabi_dmul (a_bits b_bits : Z) : Z :=
  let a_sign := double_sign a_bits in
  let b_sign := double_sign b_bits in
  let a_exp := double_exp a_bits in
  let b_exp := double_exp b_bits in
  let a_mant := double_mant a_bits in
  let b_mant := double_mant b_bits in
  let result_sign := a_sign ^^^ b_sign in
  if a_exp =? 0x7FF then
    if negb (a_mant =? 0) then a_bits
    else if (b_exp =? 0x7FF) && negb (b_mant =? 0) then b_bits
    else if (b_exp =? 0) && (b_mant =? 0) then DOUBLE_QNAN
    else make_double result_sign 0x7FF 0
  else if b_exp =? 0x7FF then
    if negb (b_mant =? 0) then b_bits
    else if (a_exp =? 0) && (a_mant =? 0) then DOUBLE_QNAN
    else make_double result_sign 0x7FF 0
  else if ((a_exp =? 0) && (a_mant =? 0)) || ((b_exp =? 0) && (b_mant =? 0)) then make_double result_sign 0 0
  else
    match dmul_pow2 result_sign a_exp a_mant b_exp b_mant with
    | Some r => r
    | None => dmul_general result_sign a_exp a_mant b_exp b_mant
    end.

(** ** Division *)

(** The correction loop of [sfp_divlu32]: [while (q >= b || q * vn0 > b * rhat + un)]
    [{ q--; rhat += vn1; if (rhat >= b) break; }] with [b = 65536]. *)
Fixpoint divlu_adjust (fuel : nat) (q rhat vn1 vn0 un : Z) : Z :=
  match fuel with
  | O => q
  | S fuel =>
      if (65536 <=? q) || (u32 (65536 * rhat + un) <? u32 (q * vn0)) then
        let q := u32 (q - 1) in
        let rhat := u32 (rhat + vn1) in
        if 65536 <=? rhat then q else divlu_adjust fuel q rhat vn1 vn0 un
      else q
  end.

(** 64 by 32 bits: [(quotient, remainder)]. *)
Definition sfp_divlu32 (u1 u0 v : Z) : Z * Z :=
  let b := 65536 in
  let vn1 := v >>> 16 in
  let vn0 := v &&& 0xFFFF in
  let un1 := u0 >>> 16 in
  let un0 := u0 &&& 0xFFFF in
  let q1 := u1 / vn1 in
  let q1 := divlu_adjust 3 q1 (u32 (u1 - q1 * vn1)) vn1 vn0 un1 in
  let un21 := u32 (u1 * b + un1 - q1 * v) in
  let q0 := un21 / vn1 in
  let q0 := divlu_adjust 3 q0 (u32 (un21 - q0 * vn1)) vn1 vn0 un0 in
  (u32 (q1 * b + q0), u32 (un21 * b + un0 - q0 * v)).

(** The correction loop of [SFP_DIVSTEP]. *)
Fixpoint divstep_adjust (fuel : nat) (qh rh v1 v0 w0 : Z) : Z :=
  match fuel with
  | O => qh
  | S fuel =>
      if (rh <? 2 ^ 32) && ((shl64 rh 32 ||| w0) <? u64 (qh * v0))
      then divstep_adjust fuel (u32 (qh - 1)) (u64 (rh + v1)) v1 v0 w0 else qh
  end.

Definition s64_neg (x : Z) : Z := b2z (x <? 0).

(** One digit step on the window [(w2:w1:w0)]: the new window and the digit. *)
Definition SFP_DIVSTEP (v1 v0 w2 w1 w0 : Z) : Z * Z * Z * Z :=
  let '(qh, rh) :=
    if v1 <=? w2 then (0xFFFFFFFF, u64 (shl64 (u32 (w2 - v1)) 32 + w1 + v1)) else sfp_divlu32 w2 w1 v1 in
  let qh := divstep_adjust 3 qh rh v1 v0 w0 in
  let p0 := u64 (qh * v0) in
  let p1 := u64 (qh * v1 + (p0 >>> 32)) in
  let t0 := w0 - u32 p0 in
  let t1 := w1 - u32 p1 - s64_neg t0 in
  let t2 := w2 - u32 (p1 >>> 32) - s64_neg t1 in
  let '(w2, w1, w0) := (u32 t2, u32 t1, u32 t0) in
  if t2 <? 0 then
    let s0 := u64 (w0 + v0) in
    let s1 := u64 (w1 + v1 + (s0 >>> 32)) in
    (u32 (w2 + (s1 >>> 32)), u32 s1, u32 s0, u32 (qh - 1))
  else (w2, w1, w0, qh).

Definition sfp_div_sig64 (dividend divisor : Z) : Z :=
  let d := shl64 divisor 11 in
  let v1 := u32 (d >>> 32) in
  let v0 := u32 d in
  let w3 := u32 (shl64 dividend 2 >>> 32) in
  let w2 := u32 (shl64 dividend 2) in
  let '(w3, w2, w1, q1) := SFP_DIVSTEP v1 v0 w3 w2 0 in
  let '(w2, w1, w0, q0) := SFP_DIVSTEP v1 v0 w2 w1 0 in
  (shl64 q1 32 ||| q0) ||| b2z (negb (w1 ||| w0 =? 0)).

Definition aeabi_ddiv (a_bits b_bits : Z) : Z :=
  let a_sign := double_sign a_bits in
  let b_sign := double_sign b_bits in
  let a_exp := double_exp a_bits in
  let b_exp := double_exp b_bits in
  let a_mant := double_mant a_bits in
  let b_mant := double_mant b_bits in
  let result_sign := a_sign ^^^ b_sign in
  if a_exp =? 0x7FF then
    if negb (a_mant =? 0) then a_bits
    else if b_exp =? 0x7FF then (if negb (b_mant =? 0) then b_bits else DOUBLE_QNAN)
    else make_double result_sign 0x7FF 0
  else if b_exp =? 0x7FF then (if negb (b_mant =? 0) then b_bits else make_double result_sign 0 0)
  else if (b_exp =? 0) && (b_mant =? 0) then
    if (a_exp =? 0) && (a_mant =? 0) then DOUBLE_QNAN else make_double result_sign 0x7FF 0
  else
    let '(b_mant, b_exp) := normalize_d b_exp b_mant in
    if (a_exp =? 0) && (a_mant =? 0) then make_double result_sign 0 0
    else
      let '(a_mant, a_exp) := normalize_d a_exp a_mant in
      let result_exp := a_exp - b_exp + DOUBLE_EXP_BIAS in
      let '(dividend, result_exp) :=
        if a_mant <? b_mant then (shl64 a_mant 1, result_exp - 1) else (a_mant, result_exp) in
      sfp_round_pack_double result_sign result_exp (sfp_div_sig64 dividend b_mant).

Example dadd_example : aeabi_dadd 0x3FF0000000000000 0xC340000000000000 = 0xC33FFFFFFFFFFFFF. (* 1 + -2^53 *)
Proof. vm_compute. reflexivity. Qed.
Example dmul_example : aeabi_dmul 0x3FB999999999999A 0x4008000000000000 = 0x3FD3333333333334. (* 0.1 * 3 *)
Proof. vm_compute. reflexivity. Qed.
Example ddiv_example : aeabi_ddiv 0x3FF0000000000000 0x4008000000000000 = 0x3FD5555555555555. (* 1 / 3 *)
Proof. vm_compute. reflexivity. Qed.
Example ddiv_subnormal : aeabi_ddiv 0x0000000000000003 0x4000000000000000 = 0x0000000000000002.
Proof. vm_compute. reflexivity. Qed.
