(* ===== verification/SoftDoubleArith.v ===== *)
(** * The double-precision addition, subtraction and negation are correct *)

From S2P Require Import Prelude.
From S2P Require Import FpSpec.
From S2P Require Import SoftCommon.
From S2P Require Import SoftRound.
From S2P Require Import SoftUnpack.
From S2P Require Import SoftDouble.
Local Open Scope Z_scope.
Local Open Scope c_scope.

Lemma double_core : rounding_core 52 11 sfp_round_pack_double.
Proof. intros sign exp mant n d Hs Hm Hd Hn Hg. apply round_pack_double_rounds; auto. change (2 ^ (52 + 5)) with (2 ^ 57) in Hm. lia. Qed.

Lemma double_qnan : nan_result 52 11 DOUBLE_QNAN.
Proof. split; [split; [discriminate|reflexivity]|reflexivity]. Qed.

(** The class of an operand by its extracted fields. *)
Lemma double_class bits : 0 <= bits < 2 ^ 64 ->
  classify 52 11 bits =
    if double_exp bits =? 0x7FF then (if double_mant bits =? 0 then FInf (truth (double_sign bits)) else FNaN)
    else FFin (truth (double_sign bits)) (fin_val 52 (double_exp bits) (double_mant bits)).
Proof. intros Hb. exact (classify_fields 52 11 ltac:(lia) ltac:(lia) _ _ _ _ (double_fields bits Hb)). Qed.

Lemma double_inf bits : 0 <= bits < 2 ^ 64 -> double_exp bits = 0x7FF -> double_mant bits = 0 ->
  bits = fp_make 52 11 (truth (double_sign bits)) (fp_inf 52 11).
Proof. intros Hb He Hm. pose proof (double_fields bits Hb) as H. rewrite He, Hm in H. apply fields_inf, H. Qed.

Lemma double_nan bits : 0 <= bits < 2 ^ 64 -> double_exp bits = 0x7FF -> double_mant bits <> 0 -> nan_result 52 11 bits.
Proof.
  intros Hb He Hm. split; [exact Hb|]. rewrite (double_class bits Hb), He. cbn [Z.eqb Pos.eqb].
  destruct (Z.eqb_spec (double_mant bits) 0); [lia|reflexivity].
Qed.

Lemma double_self bits : 0 <= bits < 2 ^ 64 -> double_exp bits <> 0x7FF ->
  rounds_to 52 11 (truth (double_sign bits)) (fin_val 52 (double_exp bits) (double_mant bits)) 1 bits.
Proof. intros Hb Hn. apply rounds_self; [lia|lia|apply double_fields; exact Hb|exact Hn]. Qed.

Lemma align_shift_sticky m n : 0 <= m < 2 ^ 64 -> 0 < n -> align_shift_d m n = sticky m n.
Proof.
  intros Hm Hn. rewrite <- sticky64_eq by lia. unfold align_shift_d, sfp_shr_sticky64.
  replace (n <=? 0) with false by lia. destruct (Z.leb_spec 64 n); [replace (n <? 64) with false by lia; reflexivity|].
  replace (n <? 64) with true by lia. do 3 f_equal.
  pose proof (pow2_pos n ltac:(lia)). pose proof (Z.pow_lt_mono_r 2 n 64 ltac:(lia) ltac:(lia) ltac:(lia)).
  rewrite (shl64_mul 1), (u64_small (1 * 2 ^ n - 1)), Z.mul_1_l, land_mask by lia.
  unfold shl64. rewrite u64_mod, Z.shiftl_mul_pow2 by lia.
  assert (2 ^ 64 = 2 ^ n * 2 ^ (64 - n)) as -> by (rewrite <- Z.pow_add_r by lia; f_equal; lia).
  pose proof (pow2_pos (64 - n) ltac:(lia)). rewrite Z.mul_mod_distr_r by lia.
  destruct (Z.eqb_spec (m mod 2 ^ n) 0) as [->|]; [reflexivity|]. nia.
Qed.

Lemma align_d A Ea B Eb : 0 <= A < 2 ^ 64 -> 0 <= B < 2 ^ 64 ->
  (if 0 <? Ea - Eb then (A, align_shift_d B (Ea - Eb), Ea)
   else if Ea - Eb <? 0 then (align_shift_d A (- (Ea - Eb)), B, Eb) else (A, B, Ea)) = align A Ea B Eb.
Proof.
  intros HA HB. unfold align. destruct (Z.ltb_spec 0 (Ea - Eb)); [rewrite align_shift_sticky by lia; reflexivity|].
  destruct (Z.ltb_spec (Ea - Eb) 0); [rewrite align_shift_sticky by lia|]; reflexivity.
Qed.

Lemma dadd_finite_spec sa sb ea ma eb mb : sa = 0 \/ sa = 1 -> sb = 0 \/ sb = 1 ->
  0 <= ea -> 0 <= eb -> 0 <= ma < 2 ^ 52 -> 0 <= mb < 2 ^ 52 -> 0 < fin_val 52 ea ma -> 0 < fin_val 52 eb mb ->
  let v := signed (truth sa) (fin_val 52 ea ma) + signed (truth sb) (fin_val 52 eb mb) in
  if v =? 0 then dadd_finite sa ea ma sb eb mb = fp_make 52 11 (eqb (truth sa) (truth sb) && truth sa) 0
  else rounds_to 52 11 (v <? 0) (Z.abs v) 1 (dadd_finite sa ea ma sb eb mb).
Proof.
  intros Sa Sb Ea Eb Ma Mb Pa Pb. unfold dadd_finite.
  pose proof (unpack_ok 52 ltac:(lia) _ _ Ea Ma : let '(M, E) := implicit_d ea ma in unpacked 52 ea ma M E) as Ua.
  pose proof (unpack_ok 52 ltac:(lia) _ _ Eb Mb : let '(M, E) := implicit_d eb mb in unpacked 52 eb mb M E) as Ub.
  destruct (implicit_d ea ma) as [M1 E1], (implicit_d eb mb) as [M2 E2].
  pose proof (align_aligned 52 ltac:(lia) _ _ _ _ _ _ _ _ Ua Ub) as HA.
  destruct Ua as (_ & B1 & _), Ub as (_ & B2 & _). change (2 ^ (52 + 1)) with (2 ^ 53) in *.
  rewrite !shl64_mul by lia. change (2 ^ 3) with 8. cbv zeta. rewrite align_d by lia.
  destruct (align (M1 * 8) E1 (M2 * 8) E2) as [[A B] E].
  pose proof HA as (BA & BB & _). change (2 ^ (52 + 4)) with (2 ^ 56) in BA, BB. rewrite (u64_small (A + B)) by lia.
  pose proof (add_aligned_spec 52 11 ltac:(lia) _ _ _ _ _ A B E double_core Sa Sb Pa Pb HA) as R. cbv zeta in R. unfold add_aligned in R.
  destruct (Z.leb_spec B A); [rewrite u64_small by lia|rewrite (u64_small (B - A)) by lia]; exact R.
Qed.

Lemma dadd_correct a b : 0 <= a < 2 ^ 64 -> 0 <= b < 2 ^ 64 -> add_spec 52 11 a b (aeabi_dadd a b).
Proof.
  intros Ha Hb. unfold add_spec, add_result. rewrite (double_class a Ha), (double_class b Hb). unfold aeabi_dadd.
  destruct (double_fields a Ha) as (_ & Sa & Ea & Ma), (double_fields b Hb) as (_ & Sb & Eb & Mb).
  destruct (Z.eqb_spec (double_exp a) 0x7FF) as [Xa|Xa].
  - destruct (Z.eqb_spec (double_mant a) 0) as [Za|Za]; cbn [negb].
    + destruct (Z.eqb_spec (double_exp b) 0x7FF) as [Xb|Xb]; [|apply double_inf; auto].
      destruct (Z.eqb_spec (double_mant b) 0) as [Zb|Zb]; cbn [negb].
      * rewrite <- sign_eqb by auto. destruct (double_sign a =? double_sign b); cbn [negb]; [apply double_inf; auto|exact double_qnan].
      * apply double_nan; auto.
    + apply double_nan; auto.
  - destruct (Z.eqb_spec (double_exp b) 0x7FF) as [Xb|Xb].
    + destruct (Z.eqb_spec (double_mant b) 0) as [Zb|Zb]; [apply double_inf; auto|apply double_nan; auto].
    + pose proof (fin_val_nonneg 52 _ _ ltac:(lia) (proj1 Ea) Ma) as Va. pose proof (fin_val_nonneg 52 _ _ ltac:(lia) (proj1 Eb) Mb) as Vb.
      pose proof (dadd_finite_spec _ _ _ _ _ _ Sa Sb (proj1 Ea) (proj1 Eb) Ma Mb) as R.
      rewrite <- (fin_val_zero 52 ltac:(lia) (double_exp a)), <- (fin_val_zero 52 ltac:(lia) (double_exp b)) by lia. pose proof (double_self a Ha Xa) as Fa. pose proof (double_self b Hb Xb) as Fb.
      set (va := fin_val 52 (double_exp a) (double_mant a)) in *. set (vb := fin_val 52 (double_exp b) (double_mant b)) in *.
      cbv zeta. destruct (Z.eqb_spec va 0) as [Za|Za]; [|destruct (Z.eqb_spec vb 0) as [Zb|Zb]].
      * rewrite Za, signed_zero, Z.add_0_l. destruct (Z.eqb_spec vb 0) as [Zb|Zb].
        -- rewrite Zb, signed_zero. cbn [Z.eqb]. destruct Sa as [-> | ->], Sb as [-> | ->]; reflexivity.
        -- apply rounds_signed; [lia|exact Fb].
      * rewrite Zb, signed_zero, Z.add_0_r. apply rounds_signed; [lia|exact Fa].
      * apply R; lia.
Qed.

Lemma double_neg_range b : 0 <= b < 2 ^ 64 -> 0 <= b ^^^ 2 ^ (52 + 11) < 2 ^ 64.
Proof.
  intros Hb. pose proof (double_fields b Hb) as F.
  exact (fields_range 52 11 _ _ _ _ ltac:(lia) ltac:(lia) (fields_neg 52 11 _ _ _ _ ltac:(lia) ltac:(lia) F)).
Qed.

Lemma dneg_class a : 0 <= a < 2 ^ 64 -> classify 52 11 (aeabi_dneg a) = neg_class (classify 52 11 a).
Proof. intros Ha. exact (classify_neg 52 11 _ _ _ _ ltac:(lia) ltac:(lia) (double_fields a Ha)). Qed.

Lemma dsub_correct a b : 0 <= a < 2 ^ 64 -> 0 <= b < 2 ^ 64 -> sub_spec 52 11 a b (aeabi_dsub a b).
Proof.
  intros Ha Hb. unfold sub_spec, aeabi_dsub. rewrite <- (dneg_class b Hb). apply dadd_correct; [exact Ha|].
  exact (double_neg_range b Hb).
Qed.

(** ** The contract *)

(** C36: for all operands, [__aeabi_dadd] and [__aeabi_dsub] return the IEEE 754
    sum and difference of two doubles, correctly rounded, with the special
    operands and the signs of zero of the standard; [__aeabi_dneg] negates. *)
Theorem dadd_dsub_rounded a b : 0 <= a < 2 ^ 64 -> 0 <= b < 2 ^ 64 ->
  add_spec 52 11 a b (aeabi_dadd a b) /\ sub_spec 52 11 a b (aeabi_dsub a b) /\
  classify 52 11 (aeabi_dneg a) = neg_class (classify 52 11 a).
Proof. intros Ha Hb. split; [apply dadd_correct; assumption|]. split; [apply dsub_correct; assumption|apply dneg_class; assumption]. Qed.

Lemma dadd_dsub_rounded_witness :
  let a := 0x3FF0000000000000 in
  let b := 0xC340000000000000 in
  add_spec 52 11 a b (aeabi_dadd a b) /\ sub_spec 52 11 a b (aeabi_dsub a b) /\
  classify 52 11 (aeabi_dneg a) = neg_class (classify 52 11 a).
Proof. exact (dadd_dsub_rounded 0x3FF0000000000000 0xC340000000000000 ltac:(lia) ltac:(lia)). Defined.

(** ** The double-precision multiplication is correct *)

Local Open Scope Z_scope.
Local Open Scope c_scope.

(** ** 64x64-bit multiplication from 32-bit halves *)

Lemma half_words x : 0 <= x < 2 ^ 64 ->
  u32 (x >>> 32) = x / 2 ^ 32 /\ u32 x = x mod 2 ^ 32 /\
  0 <= x / 2 ^ 32 < 2 ^ 32 /\ 0 <= x mod 2 ^ 32 < 2 ^ 32 /\ x = x / 2 ^ 32 * 2 ^ 32 + x mod 2 ^ 32.
Proof.
  intros Hx. rewrite Z.shiftr_div_pow2 by lia. assert (0 <= x / 2 ^ 32 < 2 ^ 32) by lia_mod.
  rewrite (u32_small (x / 2 ^ 32)), u32_mod by lia. repeat split; lia_mod.
Qed.

Lemma mul_bound a b : 0 <= a < 2 ^ 32 -> 0 <= b < 2 ^ 32 -> 0 <= a * b <= (2 ^ 32 - 1) * (2 ^ 32 - 1).
Proof. intros. nia. Qed.

Lemma mul64wide_spec a b : 0 <= a < 2 ^ 64 -> 0 <= b < 2 ^ 64 ->
  let '(hi, lo) := mul64wide a b in 0 <= hi < 2 ^ 64 /\ 0 <= lo < 2 ^ 64 /\ hi * 2 ^ 64 + lo = a * b.
Proof.
  intros Ha Hb. unfold mul64wide. cbv zeta.
  destruct (half_words a Ha) as (-> & -> & A1 & A0 & EA), (half_words b Hb) as (-> & -> & B1 & B0 & EB).
  set (a1 := a / 2 ^ 32) in *. set (a0 := a mod 2 ^ 32) in *. set (b1 := b / 2 ^ 32) in *. set (b0 := b mod 2 ^ 32) in *.
  pose proof (mul_bound a0 b0 A0 B0) as P0. pose proof (mul_bound a0 b1 A0 B1) as P1.
  pose proof (mul_bound a1 b0 A1 B0) as P2. pose proof (mul_bound a1 b1 A1 B1) as P3.
  rewrite (u64_small (a0 * b0)), (u64_small (a0 * b1)), (u64_small (a1 * b0)), (u64_small (a1 * b1)) by lia.
  assert (a * b = a1 * b1 * 2 ^ 64 + (a0 * b1 + a1 * b0) * 2 ^ 32 + a0 * b0) as -> by (rewrite EA, EB; ring).
  destruct (half_words (a0 * b0) ltac:(lia)) as (-> & -> & H0 & L0 & E0).
  destruct (half_words (a0 * b1) ltac:(lia)) as (-> & -> & H1 & L1 & E1).
  destruct (half_words (a1 * b0) ltac:(lia)) as (-> & -> & H2 & L2 & E2).
  set (h0 := a0 * b0 / 2 ^ 32) in *. set (l0 := (a0 * b0) mod 2 ^ 32) in *.
  set (h1 := a0 * b1 / 2 ^ 32) in *. set (l1 := (a0 * b1) mod 2 ^ 32) in *.
  set (h2 := a1 * b0 / 2 ^ 32) in *. set (l2 := (a1 * b0) mod 2 ^ 32) in *.
  rewrite (u64_small (h0 + l1 + l2)) by lia. set (mid := h0 + l1 + l2).
  destruct (half_words mid ltac:(subst mid; lia)) as (-> & -> & Hm & Lm & Em).
  set (mh := mid / 2 ^ 32) in *. set (ml := mid mod 2 ^ 32) in *.
  rewrite shl64_mul, lor_fields by lia. rewrite u64_small by (subst mid; lia). subst mid. lia.
Qed.

(** ** The significand of the product *)

(** [mant_grs] is the product with everything below the guard bit in the sticky
    bit: it compares with multiples of four as the product does. *)
Lemma grs_cmp P s t : 0 <= P -> 1 <= s ->
  let q := P / 2 ^ s in
  (q / 2 * 8 + q mod 2 * 4 + b2z (negb (P mod 2 ^ s =? 0)) ?= 4 * t) = (P ?= t * 2 ^ s).
Proof.
  intros HP Hs q. pose proof (pow2_pos s ltac:(lia)). pose proof (Z.div_mod P (2 ^ s) ltac:(lia)) as D. fold q in D.
  pose proof (Z.mod_pos_bound P (2 ^ s) ltac:(lia)). pose proof (Z.div_mod q 2 ltac:(lia)).
  set (b := b2z (negb (P mod 2 ^ s =? 0))).
  assert ((b = 0 /\ P mod 2 ^ s = 0) \/ (b = 1 /\ P mod 2 ^ s <> 0)) as Hb.
  { subst b. destruct (Z.eqb_spec (P mod 2 ^ s) 0); cbn; lia. }
  destruct (Z.compare_spec (q / 2 * 8 + q mod 2 * 4 + b) (4 * t)); symmetry;
    [apply Z.compare_eq_iff|apply Z.compare_lt_iff|apply Z.compare_gt_iff].
  - assert (b = 0) by lia. nia.
  - assert (q < t) by lia. nia.
  - assert (t <= q) by lia. destruct (Z.eq_dec t q); [|nia]. subst t. nia.
Qed.

(** The pieces the code assembles: [c] bits of each word move up. *)
Lemma shl_trunc hl c : 0 <= c <= 32 -> 0 <= hl -> hl <<< c = hl mod 2 ^ (32 - c) * 2 ^ c.
Proof.
  intros Hc Hh. unfold shl32. rewrite u32_mod, Z.shiftl_mul_pow2 by lia.
  assert (2 ^ 32 = 2 ^ (32 - c) * 2 ^ c) as -> by (rewrite <- Z.pow_add_r by lia; f_equal; lia).
  apply Z.mul_mod_distr_r; apply Z.pow_nonzero; lia.
Qed.

Lemma join_word hl lh c : 0 <= c <= 32 -> 0 <= hl < 2 ^ 32 -> 0 <= lh < 2 ^ 32 ->
  (hl <<< c) ||| (lh >>> (32 - c)) = hl mod 2 ^ (32 - c) * 2 ^ c + lh / 2 ^ (32 - c) /\
  0 <= hl mod 2 ^ (32 - c) * 2 ^ c + lh / 2 ^ (32 - c) < 2 ^ 32.
Proof.
  intros Hc Hh Hl. rewrite shl_trunc, Z.shiftr_div_pow2 by lia.
  assert (2 ^ 32 = 2 ^ (32 - c) * 2 ^ c) as E by (rewrite <- Z.pow_add_r by lia; f_equal; lia).
  pose proof (pow2_pos (32 - c) ltac:(lia)). pose proof (pow2_pos c ltac:(lia)).
  assert (0 <= lh / 2 ^ (32 - c) < 2 ^ c) by (split; [apply Z.div_pos; lia|apply Z.div_lt_upper_bound; lia]).
  pose proof (Z.mod_pos_bound hl (2 ^ (32 - c)) ltac:(lia)).
  split; [apply lor_fields; lia|nia].
Qed.

Definition grs_of (P s : Z) : Z := P / 2 ^ s / 2 * 8 + P / 2 ^ s mod 2 * 4 + b2z (negb (P mod 2 ^ s =? 0)).

(** Assembling the significand and its guard and sticky bits. *)
Lemma grs_assemble hh hl lh ll c : c = 11 \/ c = 12 ->
  0 <= hh < 2 ^ 10 -> 0 <= hl < 2 ^ 32 -> 0 <= lh < 2 ^ 32 -> 0 <= ll < 2 ^ 32 ->
  let mant := shl64 ((hh <<< c) ||| (hl >>> (32 - c))) 32 ||| ((hl <<< c) ||| (lh >>> (32 - c))) in
  let guard := (lh >>> (31 - c)) &&& 1 in
  let sticky := b2z (negb (ll =? 0) || negb (lh &&& (2 ^ (31 - c) - 1) =? 0)) in
  let P := (hh * 2 ^ 32 + hl) * 2 ^ 64 + (lh * 2 ^ 32 + ll) in
  P < 2 ^ (117 - c) ->
  shl64 mant SFP_GRS ||| shl64 (b2z (negb (guard =? 0))) (SFP_GRS - 1) ||| b2z (negb (sticky =? 0)) = grs_of P (63 - c).
Proof.
  intros Hc Bhh Bhl Blh Bll. cbv zeta. intros HP. unfold grs_of.
  set (P := (hh * 2 ^ 32 + hl) * 2 ^ 64 + (lh * 2 ^ 32 + ll)) in *.
  destruct (join_word hh hl c ltac:(lia) ltac:(lia) Bhl) as [-> J1].
  destruct (join_word hl lh c ltac:(lia) Bhl Blh) as [-> J2].
  set (mh := hh mod 2 ^ (32 - c) * 2 ^ c + hl / 2 ^ (32 - c)) in *.
  set (ml := hl mod 2 ^ (32 - c) * 2 ^ c + lh / 2 ^ (32 - c)) in *.
  rewrite (shl64_mul mh), lor_fields by lia.
  assert (mh * 2 ^ 32 + ml = P / 2 ^ (63 - c) / 2) as ->.
  { subst mh ml P. destruct Hc as [-> | ->]; lia_mod. }
  assert (0 <= P / 2 ^ (63 - c) / 2 < 2 ^ 53) as BM.
  { subst P. destruct Hc as [-> | ->]; lia_mod. }
  change ((lh >>> (31 - c)) &&& 1) with ((lh >>> (31 - c)) &&& (2 ^ 1 - 1)). rewrite !land_mask, Z.shiftr_div_pow2 by lia.
  assert (lh / 2 ^ (31 - c) mod 2 ^ 1 = P / 2 ^ (63 - c) mod 2) as ->.
  { subst P. destruct Hc as [-> | ->]; lia_mod. }
  assert (b2z (negb (ll =? 0) || negb (lh mod 2 ^ (31 - c) =? 0)) = b2z (negb (P mod 2 ^ (63 - c) =? 0))) as ->.
  { f_equal. rewrite <- negb_andb. f_equal. apply eq_true_iff_eq. rewrite andb_true_iff, !Z.eqb_eq.
    subst P. destruct Hc as [-> | ->]; lia_mod. }
  set (M := P / 2 ^ (63 - c) / 2) in *. pose proof (Z.mod_pos_bound (P / 2 ^ (63 - c)) 2 ltac:(lia)) as BG.
  set (G := P / 2 ^ (63 - c) mod 2) in *. set (S := b2z (negb (P mod 2 ^ (63 - c) =? 0))).
  assert (0 <= S <= 1) as BS by (subst S; destruct (P mod 2 ^ (63 - c) =? 0); cbn; lia).
  assert (b2z (negb (G =? 0)) = G) as -> by (destruct (Z.eqb_spec G 0); cbn; lia).
  assert (b2z (negb (S =? 0)) = S) as -> by (destruct (Z.eqb_spec S 0); cbn; lia).
  change SFP_GRS with 3. change (3 - 1) with 2. rewrite !shl64_mul by lia.
  rewrite <- Z.lor_assoc, (lor_fields G S 2), lor_fields by lia. lia.
Qed.

Lemma dmul_significand_spec hi lo : 0 <= lo < 2 ^ 64 -> 2 ^ 104 <= hi * 2 ^ 64 + lo < 2 ^ 106 ->
  let P := hi * 2 ^ 64 + lo in
  exists wd, (wd = 0 \/ wd = 1) /\ 2 ^ (104 + wd) <= P < 2 ^ (105 + wd) /\ dmul_significand hi lo = (grs_of P (51 + wd), wd).
Proof.
  intros Hlo HP. cbv zeta. set (P := hi * 2 ^ 64 + lo) in *. assert (0 <= hi < 2 ^ 42) as Hhi by (subst P; lia).
  unfold dmul_significand. destruct (half_words hi ltac:(lia)) as (-> & -> & H1 & H2 & EH).
  destruct (half_words lo Hlo) as (-> & -> & L1 & L2 & EL).
  set (hh := hi / 2 ^ 32) in *. set (hl := hi mod 2 ^ 32) in *. set (lh := lo / 2 ^ 32) in *. set (ll := lo mod 2 ^ 32) in *.
  change (1 <<< 9) with (2 ^ 9). change ((1 <<< 19) - 1) with (2 ^ (31 - 12) - 1). change ((1 <<< 20) - 1) with (2 ^ (31 - 11) - 1).
  assert (P = (hh * 2 ^ 32 + hl) * 2 ^ 64 + (lh * 2 ^ 32 + ll)) as EP by (subst P; lia).
  rewrite truth_testbit, testbit_odd by lia. assert (0 <= hh < 2 ^ 10) as Bhh by lia.
  destruct (Z.lt_ge_cases P (2 ^ 105)) as [Hn|Hw].
  - replace (hh / 2 ^ 9) with 0 by (rewrite Z.div_small; lia). cbn [Z.odd]. exists 0. split; [auto|]. split; [cbn; lia|].
    change (52 =? 52) with true. cbv iota beta zeta. f_equal.
    change (51 + 0) with (63 - 12). rewrite EP. apply (grs_assemble hh hl lh ll 12); auto. cbn [Z.sub]. lia.
  - replace (hh / 2 ^ 9) with 1 by lia_mod. cbn [Z.odd]. exists 1. split; [auto|]. split; [cbn; lia|].
    change (53 =? 52) with false. cbv iota beta zeta. f_equal.
    change (51 + 1) with (63 - 11). rewrite EP. apply (grs_assemble hh hl lh ll 11); auto. cbn [Z.sub]. lia.
Qed.

(** Normalization, at double precision. *)
Lemma normalize_d_ok e m : 0 <= e -> 0 <= m < 2 ^ 52 -> 0 < fin_val 52 e m ->
  let '(M, E) := normalize_d e m in normalized 52 (fin_val 52 e m) M E.
Proof. apply (normalize_ok 52 _ 64); [lia|intros; apply shl64_mul; lia|lia]. Qed.

Lemma grs_bounds P wd : wd = 0 \/ wd = 1 -> 2 ^ (104 + wd) <= P < 2 ^ (105 + wd) -> 2 ^ 55 <= grs_of P (51 + wd) < 2 ^ 56.
Proof.
  intros Hwd HP. unfold grs_of. assert (0 <= b2z (negb (P mod 2 ^ (51 + wd) =? 0)) <= 1) by (destruct (_ =? _); cbn; lia).
  assert (2 ^ 53 <= P / 2 ^ (51 + wd) < 2 ^ 54) by (destruct Hwd as [-> | ->]; lia_mod). lia_mod.
Qed.

Lemma dmul_general_rounds sign ea ma eb mb : sign = 0 \/ sign = 1 -> 0 <= ea -> 0 <= eb -> 0 <= ma < 2 ^ 52 -> 0 <= mb < 2 ^ 52 ->
  0 < fin_val 52 ea ma -> 0 < fin_val 52 eb mb ->
  rounds_to 52 11 (truth sign) (fin_val 52 ea ma * fin_val 52 eb mb) (fp_one 52 11) (dmul_general sign ea ma eb mb).
Proof.
  intros Hs Ea Eb Ma Mb Va Vb. unfold dmul_general.
  pose proof (normalize_d_ok _ _ Ea Ma Va) as Na. pose proof (normalize_d_ok _ _ Eb Mb Vb) as Nb.
  destruct (normalize_d ea ma) as [M1 E1], (normalize_d eb mb) as [M2 E2].
  set (va := fin_val 52 ea ma) in *. set (vb := fin_val 52 eb mb) in *.
  pose proof Na as [B1 _]. pose proof Nb as [B2 _]. change (2 ^ (52 + 1)) with (2 ^ 53) in *.
  pose proof (mul64wide_spec M1 M2 ltac:(lia) ltac:(lia)) as W. destruct (mul64wide M1 M2) as [hi lo]. destruct W as (_ & Blo & EP).
  assert (2 ^ 104 <= hi * 2 ^ 64 + lo < 2 ^ 106) as BP by (rewrite EP; nia).
  destruct (dmul_significand_spec hi lo Blo BP) as (wd & Hwd & BW & ->). rewrite EP in *.
  pose proof (grs_bounds (M1 * M2) wd Hwd BW) as BG.
  apply round_pack_double_rounds; [exact Hs|lia|apply pow2_pos; lia|nia|].
  right. right. split; [change (2 ^ (52 + 3)) with (2 ^ 55); lia|]. intros t.
  pose proof (product_exact_norm 52 va vb M1 E1 M2 E2 1074 Na Nb ltac:(lia)) as X.
  change (fp_one 52 11) with (2 ^ 1074).
  replace (4 * t) with (t * 2 ^ 2) by lia. rewrite vcmp_shift by lia.
  replace (E1 + E2 - DOUBLE_EXP_BIAS + wd - 4 + 2) with (E1 + E2 - 2 - 1074 + (51 + wd)) by (unfold DOUBLE_EXP_BIAS; lia).
  rewrite <- vcmp_shift by lia. rewrite (vcmp_exact _ _ _ _ _ (pow2_pos 1074 ltac:(lia)) X).
  rewrite Z.mul_comm with (n := t) (m := 2 ^ 2). symmetry. apply grs_cmp; lia.
Qed.

(** The power-of-two shortcut is exact. *)
Lemma dmul_pow2_rounds sign ea ma eb mb r : sign = 0 \/ sign = 1 -> 0 <= ea -> 0 <= eb -> 0 <= ma < 2 ^ 52 -> 0 <= mb < 2 ^ 52 ->
  dmul_pow2 sign ea ma eb mb = Some r ->
  rounds_to 52 11 (truth sign) (fin_val 52 ea ma * fin_val 52 eb mb) (fp_one 52 11) r.
Proof.
  intros Hs Ea Eb Ma Mb H. unfold dmul_pow2 in H.
  destruct (Z.eqb_spec ea 0) as [|Na]; [discriminate H|]. destruct (Z.eqb_spec eb 0) as [|Nb]; [discriminate H|]. cbn [negb andb] in H.
  set (e := ea + eb - DOUBLE_EXP_BIAS) in *.
  destruct ((0 <? e) && (e <? 0x7FF)) eqn:Er; [|discriminate H]. apply andb_prop in Er. destruct Er as [E1 E2].
  apply Z.ltb_lt in E1, E2.
  assert (exists m, 0 <= m < 2 ^ 52 /\ r = make_double sign e m /\ (ma + 2 ^ 52) * (mb + 2 ^ 52) = 2 ^ 52 * (m + 2 ^ 52)) as (m & Bm & -> & Em).
  { destruct (Z.eqb_spec ma 0); [|destruct (Z.eqb_spec mb 0); [|discriminate H]]; injection H as <-; [exists mb|exists ma]; (split; [lia|]; split; [reflexivity|nia]). }
  exists (e * 2 ^ 52 + m). rewrite make_double_eq, Z.mod_small by lia. split; [apply fp_make_double, Hs|].
  replace (fin_val 52 ea ma * fin_val 52 eb mb) with (fp_one 52 11 * mag_val 52 (e * 2 ^ 52 + m)).
  - apply nearest_self; [lia|apply pow2_pos; lia|]. unfold fp_inf. lia.
  - replace (e * 2 ^ 52 + m) with ((e - 1) * 2 ^ 52 + (m + 2 ^ 52)) by lia. rewrite mag_val_at by lia.
    unfold fin_val. rewrite (proj2 (Z.eqb_neq _ _) Na), (proj2 (Z.eqb_neq _ _) Nb).
    replace ((ma + 2 ^ 52) * 2 ^ (ea - 1) * ((mb + 2 ^ 52) * 2 ^ (eb - 1))) with ((ma + 2 ^ 52) * (mb + 2 ^ 52) * (2 ^ (ea - 1) * 2 ^ (eb - 1))) by ring.
    rewrite Em. replace (2 ^ 52 * (m + 2 ^ 52) * (2 ^ (ea - 1) * 2 ^ (eb - 1))) with ((m + 2 ^ 52) * (2 ^ 52 * (2 ^ (ea - 1) * 2 ^ (eb - 1)))) by ring.
    replace (fp_one 52 11 * ((m + 2 ^ 52) * 2 ^ (e - 1))) with ((m + 2 ^ 52) * (fp_one 52 11 * 2 ^ (e - 1))) by ring.
    f_equal. change (fp_one 52 11) with (2 ^ 1074). rewrite <- !Z.pow_add_r by lia. f_equal. subst e. unfold DOUBLE_EXP_BIAS. lia.
Qed.

Lemma make_double_inf s : s = 0 \/ s = 1 -> make_double s 0x7FF 0 = fp_make 52 11 (truth s) (fp_inf 52 11).
Proof. intros [-> | ->]; reflexivity. Qed.

Lemma make_double_zero s : s = 0 \/ s = 1 -> make_double s 0 0 = fp_make 52 11 (truth s) 0.
Proof. intros [-> | ->]; reflexivity. Qed.

Lemma dmul_correct a b : 0 <= a < 2 ^ 64 -> 0 <= b < 2 ^ 64 -> mul_spec 52 11 a b (aeabi_dmul a b).
Proof.
  intros Ha Hb. unfold mul_spec. rewrite (double_class a Ha), (double_class b Hb). unfold aeabi_dmul.
  destruct (double_fields a Ha) as (_ & Sa & Ea & Ma), (double_fields b Hb) as (_ & Sb & Eb & Mb).
  destruct (xor_sign _ _ Sa Sb) as [Sx Ex].
  rewrite <- (fin_val_zero 52 ltac:(lia) (double_exp a)), <- (fin_val_zero 52 ltac:(lia) (double_exp b)) by lia.
  destruct (Z.eqb_spec (double_exp a) 0x7FF) as [Xa|Xa].
  - destruct (Z.eqb_spec (double_mant a) 0) as [Za|Za]; cbn [negb]; [|apply double_nan; auto].
    destruct (Z.eqb_spec (double_exp b) 0x7FF) as [Xb|Xb]; cbn [andb].
    + destruct (Z.eqb_spec (double_mant b) 0) as [Zb|Zb]; cbn [negb]; [|apply double_nan; auto].
      rewrite fin_val_zero, Xb by lia. cbn [Z.eqb andb]. rewrite <- Ex. apply make_double_inf, Sx.
    + rewrite <- Ex. destruct (fin_val _ _ _ =? 0); [exact double_qnan|apply make_double_inf, Sx].
  - destruct (Z.eqb_spec (double_exp b) 0x7FF) as [Xb|Xb].
    + destruct (Z.eqb_spec (double_mant b) 0) as [Zb|Zb]; cbn [negb]; [|apply double_nan; auto].
      rewrite <- Ex. destruct (fin_val _ _ _ =? 0); [exact double_qnan|apply make_double_inf, Sx].
    + rewrite <- Ex. pose proof (fin_val_nonneg 52 _ _ ltac:(lia) (proj1 Ea) Ma) as Va. pose proof (fin_val_nonneg 52 _ _ ltac:(lia) (proj1 Eb) Mb) as Vb.
      pose proof (dmul_general_rounds _ _ _ _ _ Sx (proj1 Ea) (proj1 Eb) Ma Mb) as R.
      pose proof (fun r => dmul_pow2_rounds _ _ _ _ _ r Sx (proj1 Ea) (proj1 Eb) Ma Mb) as R2.
      set (va := fin_val 52 (double_exp a) (double_mant a)) in *. set (vb := fin_val 52 (double_exp b) (double_mant b)) in *.
      destruct (Z.eqb_spec va 0) as [Za|Za]; [|destruct (Z.eqb_spec vb 0) as [Zb|Zb]]; cbn [orb].
      * rewrite Za, Z.mul_0_l, make_double_zero by auto. apply rounds_zero; [lia|lia|apply pow2_pos; lia].
      * rewrite Zb, Z.mul_0_r, make_double_zero by auto. apply rounds_zero; [lia|lia|apply pow2_pos; lia].
      * destruct (dmul_pow2 _ _ _ _ _); [apply R2; reflexivity|apply R; lia].
Qed.

(** ** The contract *)

(** C22: for all operands, [__aeabi_dmul] returns the IEEE 754 product of two
    doubles, correctly rounded: the 106-bit product is assembled exactly from
    32-bit pieces, the power-of-two shortcut gives the same encoding, and the
    special operands give the standard's results. *)
Theorem dmul_rounded a b : 0 <= a < 2 ^ 64 -> 0 <= b < 2 ^ 64 -> mul_spec 52 11 a b (aeabi_dmul a b).
Proof. exact (dmul_correct a b). Qed.

Lemma dmul_rounded_witness :
  mul_spec 52 11 0x3FB999999999999A 0x4008000000000000 (aeabi_dmul 0x3FB999999999999A 0x4008000000000000).
Proof. exact (dmul_rounded 0x3FB999999999999A 0x4008000000000000 ltac:(lia) ltac:(lia)). Defined.
