(* ===== verification/SoftDoubleDiv.v ===== *)
(** * Multi-digit division

    The quotient digit estimates of the runtime library (Knuth's algorithm D
    with two-digit divisors): the correction loops of [sfp_divlu32] and
    [SFP_DIVSTEP] ([src/lib/fp/soft/ddiv.c]) end with the exact digit, so
    [sfp_divlu32] is the 64 by 32 bit division, a digit step is a division of
    its window, and [sfp_div_sig64] is the quotient the packer needs. *)

From S2P Require Import Prelude.
From S2P Require Import FpSpec.
From S2P Require Import SoftCommon.
From S2P Require Import SoftRound.
From S2P Require Import SoftDouble.
From S2P Require Import SoftDoubleArith.
From S2P Require Import SoftUnpack.
From S2P Require Import SoftFloat.
Local Open Scope Z_scope.
Local Open Scope c_scope.

(** ** Quotients *)

Lemma quot_le N D q : 0 < D -> q * D <= N -> q <= N / D.
Proof. intros. apply Z.div_le_lower_bound; lia. Qed.

Lemma quot_lt N D q : 0 < D -> N < q * D -> N / D < q.
Proof. intros. apply Z.div_lt_upper_bound; lia. Qed.

(** Dropping the low digit of the divisor over-estimates. *)
Lemma estimate_over u un b vh vl : 0 < b -> 0 < vh -> 0 <= vl -> 0 <= un < b -> 0 <= u ->
  (u * b + un) / (vh * b + vl) <= u / vh.
Proof.
  intros Hb Hv Hl Hun Hu. set (Q := (u * b + un) / (vh * b + vl)).
  assert (0 < vh * b + vl) by nia. assert (Q * (vh * b + vl) <= u * b + un) as HQ.
  { subst Q. rewrite Z.mul_comm. apply Z.mul_div_le. lia. }
  assert (0 <= Q) by (apply Z.div_pos; nia). apply quot_le; [lia|].
  assert (Q * vh * b < (u + 1) * b) by nia. assert (Q * vh < u + 1) by nia. lia.
Qed.

(** ** The 64 by 32 bit division *)

Section Digit.
Context (u un v : Z) (Hv : 2 ^ 31 <= v < 2 ^ 32) (Hu : 0 <= u < v) (Hun : 0 <= un < 2 ^ 16).
Let vn1 := v / 2 ^ 16.
Let vn0 := v mod 2 ^ 16.
Let T := u * 2 ^ 16 + un.

Lemma vn_facts : v = vn1 * 2 ^ 16 + vn0 /\ 2 ^ 15 <= vn1 < 2 ^ 16 /\ 0 <= vn0 < 2 ^ 16.
Proof using Hv. clear -Hv. subst vn1 vn0. lia_mod. Qed.

Lemma digit_bound : 0 <= T / v < 2 ^ 16.
Proof using Hv Hu Hun. clear -Hv Hu Hun. subst T. split; [apply Z.div_pos; lia|apply quot_lt; lia]. Qed.

(** The correction loop ends with the exact digit. *)
Lemma adjust_digit fuel : forall q rhat, rhat = u - q * vn1 -> T / v <= q <= 2 ^ 16 + 1 -> 0 <= rhat < 2 ^ 16 ->
  2 ^ 16 <= rhat + Z.of_nat fuel * vn1 -> divlu_adjust fuel q rhat vn1 vn0 un = T / v.
Proof using Hv Hu Hun.
  pose proof vn_facts as (EV & B1 & B0). pose proof digit_bound as BD.
  induction fuel as [|fuel IH]; intros q rhat Hr Hq Br Hf; cbn [divlu_adjust]; [lia|].
  destruct (Z.leb_spec 65536 q) as [Hb|Hb]; cbn [orb].
  - rewrite (u32_small (q - 1)), (u32_small (rhat + vn1)) by lia.
    destruct (Z.leb_spec 65536 (rhat + vn1)) as [Hx|Hx].
    + assert (q - 1 <= T / v); [|lia]. apply quot_le; [lia|]. rewrite EV. subst T. nia.
    + apply IH; lia.
  - rewrite (u32_small (65536 * rhat + un)), (u32_small (q * vn0)) by nia.
    destruct (Z.ltb_spec (65536 * rhat + un) (q * vn0)) as [Hc|Hc].
    + assert (T / v < q) by (apply quot_lt; [lia|]; rewrite EV; subst T; nia).
      rewrite (u32_small (q - 1)), (u32_small (rhat + vn1)) by lia.
      destruct (Z.leb_spec 65536 (rhat + vn1)) as [Hx|Hx].
      * assert (q - 1 <= T / v); [|lia]. apply quot_le; [lia|]. rewrite EV. subst T. nia.
      * apply IH; lia.
    + assert (q <= T / v); [|lia]. apply quot_le; [lia|]. rewrite EV. subst T. nia.
Qed.

Lemma estimate_digit : divlu_adjust 3 (u / vn1) (u32 (u - u / vn1 * vn1)) vn1 vn0 un = T / v.
Proof using Hv Hu Hun.
  pose proof vn_facts as (EV & B1 & B0). pose proof (Z.div_mod u vn1 ltac:(lia)) as D. pose proof (Z.mod_pos_bound u vn1 ltac:(lia)) as M.
  rewrite u32_small by lia. apply adjust_digit; try lia. split.
  - subst T. rewrite EV. apply estimate_over; lia.
  - assert (u / vn1 < 2 ^ 16 + 2); [|lia]. apply quot_lt; [lia|]. rewrite EV in Hu. nia.
Qed.

(** The partial remainder, computed modulo [2^32]. *)
Lemma digit_rem : u32 (u * 65536 + un - T / v * v) = T mod v.
Proof using Hv Hu Hun.
  pose proof (Z.div_mod T v ltac:(lia)) as D. pose proof (Z.mod_pos_bound T v ltac:(lia)) as M.
  replace (u * 65536 + un - T / v * v) with (T mod v); [apply u32_small; lia|]. subst T. lia.
Qed.

End Digit.

Lemma divlu32_spec u1 u0 v : 2 ^ 31 <= v < 2 ^ 32 -> 0 <= u1 < v -> 0 <= u0 < 2 ^ 32 ->
  sfp_divlu32 u1 u0 v = ((u1 * 2 ^ 32 + u0) / v, (u1 * 2 ^ 32 + u0) mod v).
Proof.
  intros Hv Hu Hu0. unfold sfp_divlu32. cbv zeta. change 0xFFFF with (2 ^ 16 - 1).
  rewrite !land_mask, !Z.shiftr_div_pow2 by lia.
  set (un1 := u0 / 2 ^ 16). set (un0 := u0 mod 2 ^ 16).
  assert (0 <= un1 < 2 ^ 16 /\ 0 <= un0 < 2 ^ 16 /\ u0 = un1 * 2 ^ 16 + un0) as (B1 & B0 & E0) by (subst un1 un0; lia_mod).
  rewrite (estimate_digit u1 un1 v Hv Hu B1), (digit_rem u1 un1 v Hv Hu B1).
  set (T1 := u1 * 2 ^ 16 + un1). pose proof (Z.div_mod T1 v ltac:(lia)) as D1. pose proof (Z.mod_pos_bound T1 v ltac:(lia)) as M1.
  pose proof (digit_bound u1 un1 v Hv Hu B1) as Q1. fold T1 in Q1.
  rewrite (estimate_digit (T1 mod v) un0 v Hv M1 B0), (digit_rem (T1 mod v) un0 v Hv M1 B0).
  set (T0 := T1 mod v * 2 ^ 16 + un0). pose proof (Z.div_mod T0 v ltac:(lia)) as D0. pose proof (Z.mod_pos_bound T0 v ltac:(lia)) as M0.
  pose proof (digit_bound (T1 mod v) un0 v Hv M1 B0) as Q0. fold T0 in Q0.
  assert (u1 * 2 ^ 32 + u0 = (T1 / v * 65536 + T0 / v) * v + T0 mod v) as E by (subst T0 T1; lia).
  rewrite u32_small by lia. f_equal.
  - apply (Z.div_unique _ _ _ (T0 mod v)); lia.
  - apply (Z.mod_unique _ _ (T1 / v * 65536 + T0 / v)); lia.
Qed.

(** ** A digit step on a three-digit window *)

Section Step.
Context (v1 v0 w2 w1 w0 : Z) (Hv1 : 2 ^ 31 <= v1 < 2 ^ 32) (Hv0 : 0 <= v0 < 2 ^ 32).
Context (Hw2 : 0 <= w2 < 2 ^ 32) (Hw1 : 0 <= w1 < 2 ^ 32) (Hw0 : 0 <= w0 < 2 ^ 32).
Let V := v1 * 2 ^ 32 + v0.
Let U := w2 * 2 ^ 32 + w1.
Let W := U * 2 ^ 32 + w0.
Context (Hfit : U < V).

Lemma step_digit_bound : 0 <= W / V < 2 ^ 32.
Proof using Hv1 Hv0 Hw2 Hw1 Hw0 Hfit. split; [apply Z.div_pos|apply quot_lt]; subst U V W; lia. Qed.

Lemma adjust_step fuel : forall qh rh, rh = U - qh * v1 -> W / V <= qh < 2 ^ 32 -> 0 <= rh < 2 ^ 34 ->
  2 ^ 32 <= rh + Z.of_nat fuel * v1 -> divstep_adjust fuel qh rh v1 v0 w0 = W / V.
Proof using Hv1 Hv0 Hw2 Hw1 Hw0 Hfit.
  pose proof step_digit_bound as BD.
  assert (forall q r, r = U - q * v1 -> q * v0 <= r * 2 ^ 32 + w0 -> q <= W / V) as Hok.
  { intros q r Hr H. apply quot_le; [subst V; lia|]. subst V W. nia. }
  induction fuel as [|fuel IH]; intros qh rh Hr Hq Br Hf; cbn [divstep_adjust].
  - assert (qh <= W / V); [|lia]. apply (Hok _ rh Hr). nia.
  - destruct (Z.ltb_spec rh (2 ^ 32)) as [Hlt|Hge]; cbn [andb].
    + rewrite shl64_mul, lor_fields, u64_small by nia. destruct (Z.ltb_spec (rh * 2 ^ 32 + w0) (qh * v0)) as [Hc|Hc].
      * assert (W / V < qh) by (apply quot_lt; [subst V; lia|]; subst V W; nia).
        rewrite (u32_small (qh - 1)), (u64_small (rh + v1)) by lia. apply IH; lia.
      * assert (qh <= W / V); [|lia]. apply (Hok _ rh Hr). lia.
    + assert (qh <= W / V); [|lia]. apply (Hok _ rh Hr). nia.
Qed.

(** The estimate, clamped or divided, and its correction. *)
Lemma step_digit :
  (let '(qh, rh) := if v1 <=? w2 then (0xFFFFFFFF, u64 (shl64 (u32 (w2 - v1)) 32 + w1 + v1)) else sfp_divlu32 w2 w1 v1 in
   divstep_adjust 3 qh rh v1 v0 w0) = W / V.
Proof using Hv1 Hv0 Hw2 Hw1 Hw0 Hfit.
  pose proof step_digit_bound as BD. destruct (Z.leb_spec v1 w2) as [Hc|Hc].
  - assert (w2 = v1) as E by (subst U V; lia). replace (w2 - v1) with 0 by lia. change (shl64 (u32 0) 32) with 0.
    rewrite u64_small by lia. apply adjust_step; subst U; lia.
  - rewrite divlu32_spec by lia. fold U. pose proof (Z.div_mod U v1 ltac:(lia)) as D. pose proof (Z.mod_pos_bound U v1 ltac:(lia)) as M.
    assert (0 <= U) by (subst U; lia).
    apply adjust_step; [lia| |lia|lia]. split.
    + subst W V. apply estimate_over; lia.
    + apply quot_lt; [lia|]. subst U. nia.
Qed.

(** The window subtraction with its borrow chain. *)
Lemma step_subtract q : 0 <= q < 2 ^ 32 -> 0 <= W - q * V < V ->
  let p0 := u64 (q * v0) in
  let p1 := u64 (q * v1 + (p0 >>> 32)) in
  let t0 := w0 - u32 p0 in
  let t1 := w1 - u32 p1 - s64_neg t0 in
  let t2 := w2 - u32 (p1 >>> 32) - s64_neg t1 in
  t2 = 0 /\ u32 t1 * 2 ^ 32 + u32 t0 = W - q * V.
Proof using Hv1 Hv0 Hw2 Hw1 Hw0.
  clear Hfit. intros Hq HR. cbv zeta.
  pose proof (mul_bound q v0 Hq Hv0) as P0. pose proof (mul_bound q v1 Hq ltac:(lia)) as P1.
  rewrite (u64_small (q * v0)) by lia. destruct (half_words (q * v0) ltac:(lia)) as (_ & -> & H0 & L0 & E0).
  rewrite (Z.shiftr_div_pow2 (q * v0)) by lia. set (p0h := q * v0 / 2 ^ 32) in *. set (p0l := (q * v0) mod 2 ^ 32) in *.
  rewrite (u64_small (q * v1 + p0h)) by lia.
  destruct (half_words (q * v1 + p0h) ltac:(lia)) as (-> & -> & H1 & L1 & E1).
  set (p1h := (q * v1 + p0h) / 2 ^ 32) in *. set (p1l := (q * v1 + p0h) mod 2 ^ 32) in *.
  assert (W - q * V = (w2 - p1h) * 2 ^ 64 + (w1 - p1l) * 2 ^ 32 + (w0 - p0l)) as EW by (subst W V U; lia).
  assert (forall x, - 2 ^ 32 <= x < 2 ^ 32 -> u32 x = x + s64_neg x * 2 ^ 32) as HU.
  { intros x Hx. unfold s64_neg. destruct (Z.ltb_spec x 0); cbn [b2z]; [|rewrite u32_small; lia].
    rewrite u32_mod. replace x with (x + 2 ^ 32 + -1 * 2 ^ 32) at 1 by lia. rewrite Z.mod_add, Z.mod_small by lia. lia. }
  assert (forall x, 0 <= s64_neg x <= 1) as HB by (intros; unfold s64_neg; destruct (_ <? _); cbn; lia).
  pose proof (HB (w0 - p0l)) as Hs0. rewrite (HU (w0 - p0l)) by lia. set (s0 := s64_neg (w0 - p0l)) in *.
  pose proof (HB (w1 - p1l - s0)) as Hs1. rewrite (HU (w1 - p1l - s0)) by lia.
  pose proof (HU (w0 - p0l) ltac:(lia)) as U0. fold s0 in U0. pose proof (HU (w1 - p1l - s0) ltac:(lia)) as U1. set (s1 := s64_neg (w1 - p1l - s0)) in *.
  pose proof (u32_bound (w0 - p0l)). pose proof (u32_bound (w1 - p1l - s0)).
  assert (V < 2 ^ 64) by (subst V; lia). lia.
Qed.

Lemma divstep_spec : exists r1 r0, SFP_DIVSTEP v1 v0 w2 w1 w0 = (0, r1, r0, W / V) /\
  0 <= r1 < 2 ^ 32 /\ 0 <= r0 < 2 ^ 32 /\ r1 * 2 ^ 32 + r0 = W mod V.
Proof using Hv1 Hv0 Hw2 Hw1 Hw0 Hfit.
  pose proof step_digit as SD. pose proof step_digit_bound as BD. unfold SFP_DIVSTEP.
  destruct (if v1 <=? w2 then _ else _) as [qh rh]. rewrite SD.
  assert (0 < V) as PV by (subst V; lia). pose proof (Z.div_mod W V ltac:(lia)) as D. pose proof (Z.mod_pos_bound W V PV) as M.
  destruct (step_subtract (W / V) BD ltac:(lia)) as [T2 HR]. cbv zeta in T2, HR |- *. rewrite T2.
  change (0 <? 0) with false. cbv iota. change (u32 0) with 0.
  eexists _, _. split; [reflexivity|]. split; [apply u32_bound|]. split; [apply u32_bound|]. rewrite HR. lia.
Qed.

End Step.

(** ** The significand quotient *)

Lemma div_sig64_spec dividend divisor : 0 <= dividend < 2 ^ 54 -> 2 ^ 52 <= divisor < 2 ^ 53 ->
  exists q r, dividend * 2 ^ 66 = q * (divisor * 2 ^ 11) + r /\ 0 <= r < divisor * 2 ^ 11 /\ 0 <= q < 2 ^ 64 /\
    sfp_div_sig64 dividend divisor = q ||| b2z (negb (r =? 0)).
Proof.
  intros Hn Hd. unfold sfp_div_sig64. cbv zeta. rewrite !shl64_mul by lia. change (2 ^ 2) with 4.
  destruct (half_words (divisor * 2 ^ 11) ltac:(lia)) as (-> & -> & D1 & D0 & ED).
  destruct (half_words (dividend * 4) ltac:(lia)) as (-> & -> & N1 & N0 & EN).
  set (v1 := divisor * 2 ^ 11 / 2 ^ 32) in *. set (v0 := (divisor * 2 ^ 11) mod 2 ^ 32) in *.
  set (w3 := dividend * 4 / 2 ^ 32) in *. set (w2 := (dividend * 4) mod 2 ^ 32) in *.
  assert (2 ^ 31 <= v1 < 2 ^ 32) as BV by lia. set (D := divisor * 2 ^ 11) in *.
  destruct (divstep_spec v1 v0 w3 w2 0 BV D0 N1 N0 ltac:(lia) ltac:(lia)) as (r1 & r0 & -> & BR1 & BR0 & ER).
  pose proof (step_digit_bound v1 v0 w3 w2 0 BV D0 N1 N0 ltac:(lia) ltac:(lia)) as BQ1.
  rewrite <- ED, <- EN, Z.add_0_r in *. set (W1 := dividend * 4 * 2 ^ 32) in *.
  pose proof (Z.div_mod W1 D ltac:(lia)) as DM1. pose proof (Z.mod_pos_bound W1 D ltac:(lia)) as MB1.
  destruct (divstep_spec v1 v0 r1 r0 0 BV D0 BR1 BR0 ltac:(lia) ltac:(lia)) as (s1 & s0 & -> & BS1 & BS0 & ES).
  pose proof (step_digit_bound v1 v0 r1 r0 0 BV D0 BR1 BR0 ltac:(lia) ltac:(lia)) as BQ0.
  rewrite <- ED, ER, Z.add_0_r in *. set (W0 := W1 mod D * 2 ^ 32) in *.
  pose proof (Z.div_mod W0 D ltac:(lia)) as DM0. pose proof (Z.mod_pos_bound W0 D ltac:(lia)) as MB0.
  exists (W1 / D * 2 ^ 32 + W0 / D), (W0 mod D). split; [subst W0 W1; lia|]. split; [lia|]. split; [lia|].
  rewrite shl64_mul, lor_fields by lia. do 3 f_equal.
  apply eq_true_iff_eq. rewrite !Z.eqb_eq, <- ES. rewrite Z.lor_eq_0_iff. lia.
Qed.

(** ** The double-precision division is correct *)

Local Open Scope Z_scope.
Local Open Scope c_scope.

Lemma ddiv_finite sign va vb Ma Ea Mb Eb : sign = 0 \/ sign = 1 -> 0 <= va -> 0 < vb ->
  normalized 52 va Ma Ea -> normalized 52 vb Mb Eb ->
  let result_exp := Ea - Eb + DOUBLE_EXP_BIAS in
  let '(dividend, result_exp) := if Ma <? Mb then (shl64 Ma 1, result_exp - 1) else (Ma, result_exp) in
  rounds_to 52 11 (truth sign) (va * fp_one 52 11) vb (sfp_round_pack_double sign result_exp (sfp_div_sig64 dividend Mb)).
Proof.
  intros Hs Hva Hvb Na Nb. cbv zeta. pose proof Na as [BA _]. pose proof Nb as [BB _]. change (2 ^ (52 + 1)) with (2 ^ 53) in *.
  set (de := if Ma <? Mb then _ else _).
  assert (exists c, 0 <= c <= 1 /\ de = (Ma * 2 ^ c, Ea - Eb + DOUBLE_EXP_BIAS - c) /\ Mb <= Ma * 2 ^ c < 2 * Mb) as (c & Hc & -> & HD).
  { subst de. destruct (Z.ltb_spec Ma Mb); [exists 1; rewrite shl64_mul by lia|exists 0; rewrite Z.mul_1_r, Z.sub_0_r]; (split; [lia|]; split; [reflexivity|lia]). }
  set (D := Ma * 2 ^ c) in *.
  destruct (div_sig64_spec D Mb ltac:(lia) BB) as (q & r & EQ & Hr & Bq & ->).
  assert (2 ^ 55 <= q < 2 ^ 56) as Bq2 by nia.
  set (m := q ||| b2z (negb (r =? 0))).
  assert (2 ^ 55 <= m < 2 ^ 56) as Bm.
  { assert (0 <= m < 2 ^ 56) by (apply lor_bound; [lia..|destruct (r =? 0); cbn; lia]).
    subst m. destruct (r =? 0); cbn [negb b2z] in *; [rewrite Z.lor_0_r in *; lia|]. rewrite lor_1 in *. destruct (Z.even q); lia. }
  pose proof (pow2_pos 1074 ltac:(lia)) as P1074. change (fp_one 52 11) with (2 ^ 1074).
  apply round_pack_double_rounds; [exact Hs|lia|exact Hvb|nia|].
  right. left. split; [change (2 ^ (52 + 2)) with (2 ^ 54); lia|].
  apply (quotient_agrees 52 va vb Ma Ea Mb Eb 1074 _ (55 + c) (D * 2 ^ 66) (2 ^ 11) q r); auto; try lia.
  - unfold DOUBLE_EXP_BIAS. lia.
  - subst D. rewrite (Z.pow_add_r 2 55 c) by lia. lia.
Qed.

Lemma ddiv_correct a b : 0 <= a < 2 ^ 64 -> 0 <= b < 2 ^ 64 -> div_spec 52 11 a b (aeabi_ddiv a b).
Proof.
  intros Ha Hb. unfold div_spec. rewrite (double_class a Ha), (double_class b Hb). unfold aeabi_ddiv.
  destruct (double_fields a Ha) as (_ & Sa & Ea & Ma), (double_fields b Hb) as (_ & Sb & Eb & Mb).
  destruct (xor_sign _ _ Sa Sb) as [Sx Ex].
  rewrite <- (fin_val_zero 52 ltac:(lia) (double_exp a)), <- (fin_val_zero 52 ltac:(lia) (double_exp b)) by lia.
  destruct (Z.eqb_spec (double_exp a) 0x7FF) as [Xa|Xa].
  - destruct (Z.eqb_spec (double_mant a) 0) as [Za|Za]; cbn [negb]; [|apply double_nan; auto].
    destruct (Z.eqb_spec (double_exp b) 0x7FF) as [Xb|Xb].
    + destruct (Z.eqb_spec (double_mant b) 0) as [Zb|Zb]; cbn [negb]; [exact double_qnan|apply double_nan; auto].
    + rewrite <- Ex. apply make_double_inf, Sx.
  - destruct (Z.eqb_spec (double_exp b) 0x7FF) as [Xb|Xb].
    + destruct (Z.eqb_spec (double_mant b) 0) as [Zb|Zb]; cbn [negb]; [|apply double_nan; auto].
      rewrite <- Ex. apply make_double_zero, Sx.
    + rewrite <- Ex. pose proof (fin_val_nonneg 52 _ _ ltac:(lia) (proj1 Ea) Ma) as Va. pose proof (fin_val_nonneg 52 _ _ ltac:(lia) (proj1 Eb) Mb) as Vb.
      pose proof (normalize_d_ok _ _ (proj1 Ea) Ma) as Ua. pose proof (normalize_d_ok _ _ (proj1 Eb) Mb) as Ub.
      destruct (normalize_d (double_exp a) (double_mant a)) as [M1 E1], (normalize_d (double_exp b) (double_mant b)) as [M2 E2].
      set (va := fin_val 52 (double_exp a) (double_mant a)) in *. set (vb := fin_val 52 (double_exp b) (double_mant b)) in *.
      destruct (Z.eqb_spec vb 0) as [Zb|Zb]; [|destruct (Z.eqb_spec va 0) as [Za|Za]].
      * destruct (va =? 0); [exact double_qnan|apply make_double_inf, Sx].
      * rewrite Za, Z.mul_0_l, make_double_zero by auto. apply rounds_zero; lia.
      * pose proof (ddiv_finite (double_sign a ^^^ double_sign b) va vb M1 E1 M2 E2 Sx Va ltac:(lia) (Ua ltac:(lia)) (Ub ltac:(lia))) as R.
        cbv zeta in R. destruct (if M1 <? M2 then _ else _) as [D e]. exact R.
Qed.

(** ** The contracts *)

(** C14: for all operands, [__aeabi_ddiv] returns the IEEE 754 quotient of two
    doubles, correctly rounded, with the standard's results for zero and
    infinite operands and NaNs. *)
Theorem ddiv_rounded a b : 0 <= a < 2 ^ 64 -> 0 <= b < 2 ^ 64 -> div_spec 52 11 a b (aeabi_ddiv a b).
Proof. exact (ddiv_correct a b). Qed.

Lemma ddiv_rounded_witness :
  div_spec 52 11 0x3FF0000000000000 0x4008000000000000 (aeabi_ddiv 0x3FF0000000000000 0x4008000000000000).
Proof. exact (ddiv_rounded 0x3FF0000000000000 0x4008000000000000 ltac:(lia) ltac:(lia)). Defined.

(** Division by [B] and by [B * k] with the remainder in the sticky bit agree. *)
Lemma sticky_quot_unique N B k q r q' r' : 0 < B -> 0 < k -> N = q * B + r -> 0 <= r < B -> N * k = q' * (B * k) + r' -> 0 <= r' < B * k ->
  q = q' /\ (r =? 0) = (r' =? 0).
Proof.
  intros HB Hk E Hr E' Hr'. assert (r' = (q - q') * (B * k) + r * k) by (subst N; lia).
  assert (q = q') as -> by nia. split; [reflexivity|]. replace r' with (r * k) by lia. destruct (Z.eqb_spec r 0); nia.
Qed.

(** The two-digit division [sfp_div_sig64] returns, for every normalized
    divisor and every dividend aligned with it, exactly the bits of the 56-step
    restoring loop it replaced. *)
Theorem div_sig64_is_restoring dividend divisor : 2 ^ 52 <= divisor < 2 ^ 53 -> divisor <= dividend < 2 * divisor ->
  sfp_div_sig64 dividend divisor =
    (let '(quotient, remainder) := restoring 56 0 dividend divisor in quotient ||| b2z (negb (remainder =? 0))).
Proof.
  intros Hd Hn. destruct (div_sig64_spec dividend divisor ltac:(lia) Hd) as (q & r & E & Hr & _ & ->).
  pose proof (restoring_spec 56 0 dividend dividend divisor ltac:(lia) ltac:(lia) ltac:(lia) ltac:(lia) ltac:(lia)) as R.
  destruct (restoring 56 0 dividend divisor) as [q' r']. destruct R as (Hr' & E' & _). change (2 ^ Z.of_nat 56) with (2 ^ 56) in E'.
  destruct (sticky_quot_unique (dividend * 2 ^ 56) (2 * divisor) (2 ^ 10) q' r' q r) as [-> ->]; lia.
Qed.

Lemma div_sig64_is_restoring_witness :
  sfp_div_sig64 0x18000000000001 0x10000000000003 =
    (let '(quotient, remainder) := restoring 56 0 0x18000000000001 0x10000000000003 in quotient ||| b2z (negb (remainder =? 0))).
Proof. exact (div_sig64_is_restoring 0x18000000000001 0x10000000000003 ltac:(lia) ltac:(lia)). Defined.
