(* ===== verification/SoftCmp.v ===== *)
(** * Comparisons of the soft-float runtime

    [fcmp_core] and the [__aeabi_fcmp*] predicates ([src/lib/fp/soft/fcmp.c]),
    [dcmp_core] and the [__aeabi_dcmp*] predicates ([dcmp.c]), against the order
    of the values the encodings stand for. *)

From S2P Require Import Prelude.
From S2P Require Import FpSpec.
From S2P Require Import SoftCommon.
From S2P Require Import SoftRound.
From S2P Require Import SoftUnpack.
Local Open Scope Z_scope.
Local Open Scope c_scope.

(** ** The operations *)

Definition not64 (x : Z) : Z := Z.lxor (u64 x) (Z.ones 64).

Definition fcmp_core (a_bits b_bits : Z) : Z :=
  if is_nan_f a_bits || is_nan_f b_bits then 2
  else if is_zero_f a_bits && is_zero_f b_bits then 0
  else
    let a_sign := float_sign a_bits in
    let b_sign := float_sign b_bits in
    if negb (a_sign =? b_sign) then (if truth a_sign then -1 else 1)
    else
      let a_mag := a_bits &&& ~~~ FLOAT_SIGN_BIT in
      let b_mag := b_bits &&& ~~~ FLOAT_SIGN_BIT in
      if a_mag =? b_mag then 0
      else
        let mag_cmp := if b_mag <? a_mag then 1 else -1 in
        if truth a_sign then - mag_cmp else mag_cmp.

Definition aeabi_fcmpeq (a b : Z) : Z := if fcmp_core a b =? 0 then 1 else 0.
Definition aeabi_fcmplt (a b : Z) : Z := if fcmp_core a b =? -1 then 1 else 0.
Definition aeabi_fcmple (a b : Z) : Z := let r := fcmp_core a b in if (r =? -1) || (r =? 0) then 1 else 0.
Definition aeabi_fcmpgt (a b : Z) : Z := if fcmp_core a b =? 1 then 1 else 0.
Definition aeabi_fcmpge (a b : Z) : Z := let r := fcmp_core a b in if (r =? 1) || (r =? 0) then 1 else 0.
Definition aeabi_fcmpun (a b : Z) : Z := if fcmp_core a b =? 2 then 1 else 0.

Definition dcmp_core (a_bits b_bits : Z) : Z :=
  if is_nan_bits a_bits || is_nan_bits b_bits then 2
  else if is_zero_bits a_bits && is_zero_bits b_bits then 0
  else
    let a_sign := double_sign a_bits in
    let b_sign := double_sign b_bits in
    if negb (a_sign =? b_sign) then (if truth a_sign then -1 else 1)
    else
      let a_mag := a_bits &&& not64 DOUBLE_SIGN_BIT in
      let b_mag := b_bits &&& not64 DOUBLE_SIGN_BIT in
      if a_mag =? b_mag then 0
      else
        let mag_cmp := if b_mag <? a_mag then 1 else -1 in
        if truth a_sign then - mag_cmp else mag_cmp.

Definition aeabi_dcmpeq (a b : Z) : Z := if dcmp_core a b =? 0 then 1 else 0.
Definition aeabi_dcmplt (a b : Z) : Z := if dcmp_core a b =? -1 then 1 else 0.
Definition aeabi_dcmple (a b : Z) : Z := let r := dcmp_core a b in if (r =? -1) || (r =? 0) then 1 else 0.
Definition aeabi_dcmpgt (a b : Z) : Z := if dcmp_core a b =? 1 then 1 else 0.
Definition aeabi_dcmpge (a b : Z) : Z := let r := dcmp_core a b in if (r =? 1) || (r =? 0) then 1 else 0.
Definition aeabi_dcmpun (a b : Z) : Z := if dcmp_core a b =? 2 then 1 else 0.

(** ** The order of the values *)

(** [None] for an unordered pair; infinities are beyond every finite value. *)
Definition fp_compare (a b : fp_class) : option comparison :=
  match a, b with
  | FNaN, _ | _, FNaN => None
  | FInf sa, FInf sb => Some (match sa, sb with true, false => Lt | false, true => Gt | _, _ => Eq end)
  | FInf s, FFin _ _ => Some (if s then Lt else Gt)
  | FFin _ _, FInf s => Some (if s then Gt else Lt)
  | FFin sa ma, FFin sb mb => Some (signed sa ma ?= signed sb mb)
  end.

Definition cmp_code (c : option comparison) : Z :=
  match c with None => 2 | Some Lt => -1 | Some Eq => 0 | Some Gt => 1 end.

(** The comparison both cores perform, on fields. *)
Definition cmp_fields (w sa ea ma sb eb mb Ra Rb : Z) : Z :=
  if ((ea =? 2 ^ w - 1) && negb (ma =? 0)) || ((eb =? 2 ^ w - 1) && negb (mb =? 0)) then 2
  else if ((ea =? 0) && (ma =? 0)) && ((eb =? 0) && (mb =? 0)) then 0
  else if negb (sa =? sb) then (if truth sa then -1 else 1)
  else if Ra =? Rb then 0
  else
    let mag_cmp := if Rb <? Ra then 1 else -1 in
    if truth sa then - mag_cmp else mag_cmp.

Section Compare.
Context (p w : Z) (Hp : 1 <= p) (Hw : 2 <= w).

Lemma fin_val_mag bits s e m : fields p w bits s e m -> mag_val p (e * 2 ^ p + m) = fin_val p e m.
Proof using Hp Hw. intros H. unfold mag_val, fin_val. destruct (fields_div p w Hp Hw _ _ _ _ H) as [-> ->]. reflexivity. Qed.

(** Same-sign magnitudes compare as their encodings. *)
Lemma mag_code (s : bool) Ra Rb : 0 <= Ra -> 0 <= Rb -> Ra <> Rb ->
  (if s then - (if Rb <? Ra then 1 else -1) else (if Rb <? Ra then 1 else -1)) =
  cmp_code (Some (signed s (mag_val p Ra) ?= signed s (mag_val p Rb))).
Proof using Hp.
  clear Hw. intros Ha Hb Hne. destruct (Z.ltb_spec Rb Ra).
  - pose proof (mag_val_lt p Hp Rb Ra ltac:(lia)). destruct s; cbn [signed].
    + rewrite (proj2 (Z.compare_lt_iff _ _)) by lia. reflexivity.
    + rewrite (proj2 (Z.compare_gt_iff _ _)) by lia. reflexivity.
  - pose proof (mag_val_lt p Hp Ra Rb ltac:(lia)). destruct s; cbn [signed].
    + rewrite (proj2 (Z.compare_gt_iff _ _)) by lia. reflexivity.
    + rewrite (proj2 (Z.compare_lt_iff _ _)) by lia. reflexivity.
Qed.

Lemma cmp_fields_spec a b sa ea ma sb eb mb : fields p w a sa ea ma -> fields p w b sb eb mb ->
  cmp_fields w sa ea ma sb eb mb (ea * 2 ^ p + ma) (eb * 2 ^ p + mb) = cmp_code (fp_compare (classify p w a) (classify p w b)).
Proof using Hp Hw.
  intros Fa Fb. rewrite (classify_fields p w Hp Hw _ _ _ _ Fa), (classify_fields p w Hp Hw _ _ _ _ Fb).
  pose proof (fin_val_mag _ _ _ _ Fa) as Va. pose proof (fin_val_mag _ _ _ _ Fb) as Vb.
  destruct Fa as (_ & Sa & Ea & Ma), Fb as (_ & Sb & Eb & Mb). unfold cmp_fields.
  pose proof (pow2_pos p ltac:(lia)) as P2.
  pose proof (fin_val_zero p Hp ea ma ltac:(lia) Ma) as Za. pose proof (fin_val_zero p Hp eb mb ltac:(lia) Mb) as Zb.
  pose proof (fin_val_nonneg p ea ma ltac:(lia) ltac:(lia) Ma) as Pa. pose proof (fin_val_nonneg p eb mb ltac:(lia) ltac:(lia) Mb) as Pb.
  pose proof (Z.pow_le_mono_r 2 2 w ltac:(lia) ltac:(lia)) as W4. change (2 ^ 2) with 4 in W4.
  destruct (Z.eqb_spec ea (2 ^ w - 1)) as [Xa|Xa]; destruct (Z.eqb_spec eb (2 ^ w - 1)) as [Xb|Xb]; cbn [andb orb].
  - destruct (Z.eqb_spec ma 0) as [Ya|Ya]; cbn [negb orb]; [|reflexivity].
    destruct (Z.eqb_spec mb 0) as [Yb|Yb]; cbn [negb orb]; [|reflexivity].
    replace (ea =? 0) with false by lia. cbn [andb]. subst. rewrite Z.eqb_refl.
    destruct Sa as [-> | ->], Sb as [-> | ->]; reflexivity.
  - rewrite orb_false_r. destruct (Z.eqb_spec ma 0) as [Ya|Ya]; cbn [negb]; [|reflexivity].
    replace (ea =? 0) with false by lia. cbn [andb].
    replace (ea * 2 ^ p + ma =? eb * 2 ^ p + mb) with false by nia. replace (eb * 2 ^ p + mb <? ea * 2 ^ p + ma) with true by nia.
    destruct Sa as [-> | ->], Sb as [-> | ->]; reflexivity.
  - destruct (Z.eqb_spec mb 0) as [Yb|Yb]; cbn [negb]; [|reflexivity].
    replace (eb =? 0) with false by lia. rewrite !andb_false_r.
    replace (ea * 2 ^ p + ma =? eb * 2 ^ p + mb) with false by nia. replace (eb * 2 ^ p + mb <? ea * 2 ^ p + ma) with false by nia.
    destruct Sa as [-> | ->], Sb as [-> | ->]; reflexivity.
  - rewrite <- Za, <- Zb. cbn [fp_compare].
    destruct ((fin_val p ea ma =? 0) && (fin_val p eb mb =? 0)) eqn:Z0.
    { apply andb_prop in Z0. destruct Z0 as [Z1 Z2]. apply Z.eqb_eq in Z1, Z2. rewrite Z1, Z2, !signed_zero. reflexivity. }
    rewrite sign_eqb by auto. destruct (eqb (truth sa) (truth sb)) eqn:Es; cbn [negb].
    + apply eqb_prop in Es. rewrite <- Es, <- Va, <- Vb. destruct (Z.eqb_spec (ea * 2 ^ p + ma) (eb * 2 ^ p + mb)) as [->|Ne].
      * rewrite Z.compare_refl. reflexivity.
      * apply mag_code; nia.
    + assert (0 < fin_val p ea ma \/ 0 < fin_val p eb mb) as Hpos by lia.
      destruct (truth sa), (truth sb); try discriminate Es; cbn [signed].
      * rewrite (proj2 (Z.compare_lt_iff _ _)) by lia. reflexivity.
      * rewrite (proj2 (Z.compare_gt_iff _ _)) by lia. reflexivity.
Qed.

End Compare.

Lemma land_low_mask x k : 0 <= k -> 0 <= x -> x &&& Z.lxor (2 ^ k) (Z.ones (k + 1)) = x mod 2 ^ k.
Proof.
  intros Hk Hx. rewrite <- Z.land_ones by lia. f_equal. apply Z.bits_inj'. intros i Hi. rewrite Z.lxor_spec.
  destruct (Z.lt_trichotomy i k) as [H|[->|H]].
  - rewrite Z.pow2_bits_false, !Z.ones_spec_low by lia. reflexivity.
  - rewrite Z.pow2_bits_true, Z.ones_spec_low, Z.ones_spec_high by lia. reflexivity.
  - rewrite Z.pow2_bits_false, !Z.ones_spec_high by lia. reflexivity.
Qed.

Lemma fcmp_core_spec a b : 0 <= a < 2 ^ 32 -> 0 <= b < 2 ^ 32 ->
  fcmp_core a b = cmp_code (fp_compare (classify 23 8 a) (classify 23 8 b)).
Proof.
  intros Ha Hb. pose proof (float_fields a Ha) as Fa. pose proof (float_fields b Hb) as Fb.
  rewrite <- (cmp_fields_spec 23 8 ltac:(lia) ltac:(lia) a b _ _ _ _ _ _ Fa Fb).
  unfold fcmp_core. change (~~~ FLOAT_SIGN_BIT) with (Z.lxor (2 ^ 31) (Z.ones (31 + 1))). rewrite !land_low_mask by lia.
  destruct (fields_mag 23 8 ltac:(lia) ltac:(lia) _ _ _ _ Fa) as [Ma _], (fields_mag 23 8 ltac:(lia) ltac:(lia) _ _ _ _ Fb) as [Mb _].
  unfold fp_mag in Ma, Mb. change (23 + 8) with 31 in Ma, Mb. rewrite Ma, Mb. reflexivity.
Qed.

Lemma dcmp_core_spec a b : 0 <= a < 2 ^ 64 -> 0 <= b < 2 ^ 64 ->
  dcmp_core a b = cmp_code (fp_compare (classify 52 11 a) (classify 52 11 b)).
Proof.
  intros Ha Hb. pose proof (double_fields a Ha) as Fa. pose proof (double_fields b Hb) as Fb.
  rewrite <- (cmp_fields_spec 52 11 ltac:(lia) ltac:(lia) a b _ _ _ _ _ _ Fa Fb).
  unfold dcmp_core. change (not64 DOUBLE_SIGN_BIT) with (Z.lxor (2 ^ 63) (Z.ones (63 + 1))). rewrite !land_low_mask by lia.
  destruct (fields_mag 52 11 ltac:(lia) ltac:(lia) _ _ _ _ Fa) as [Ma _], (fields_mag 52 11 ltac:(lia) ltac:(lia) _ _ _ _ Fb) as [Mb _].
  unfold fp_mag in Ma, Mb. change (52 + 11) with 63 in Ma, Mb. rewrite Ma, Mb. reflexivity.
Qed.

(** ** The contract *)

(** The predicates read the code of the core. *)
Definition among (c : option comparison) (codes : list comparison) : Z :=
  match c with None => 0 | Some x => if existsb (fun y => match x, y with Lt, Lt | Eq, Eq | Gt, Gt => true | _, _ => false end) codes then 1 else 0 end.

(** For all operands, each single- and double-precision comparison returns
    1 exactly when the values are in its relation: zeros of both signs are
    equal, infinities are beyond all finite numbers, and with a NaN operand only
    the unordered test holds. *)
Theorem comparisons_exact a b c d : 0 <= a < 2 ^ 32 -> 0 <= b < 2 ^ 32 -> 0 <= c < 2 ^ 64 -> 0 <= d < 2 ^ 64 ->
  let f := fp_compare (classify 23 8 a) (classify 23 8 b) in
  let g := fp_compare (classify 52 11 c) (classify 52 11 d) in
  (aeabi_fcmpeq a b = among f [Eq] /\ aeabi_fcmplt a b = among f [Lt] /\ aeabi_fcmple a b = among f [Lt; Eq] /\
   aeabi_fcmpgt a b = among f [Gt] /\ aeabi_fcmpge a b = among f [Gt; Eq] /\ aeabi_fcmpun a b = 1 - among f [Lt; Eq; Gt]) /\
  (aeabi_dcmpeq c d = among g [Eq] /\ aeabi_dcmplt c d = among g [Lt] /\ aeabi_dcmple c d = among g [Lt; Eq] /\
   aeabi_dcmpgt c d = among g [Gt] /\ aeabi_dcmpge c d = among g [Gt; Eq] /\ aeabi_dcmpun c d = 1 - among g [Lt; Eq; Gt]).
Proof.
  intros Ha Hb Hc Hd. cbv zeta. unfold aeabi_fcmpeq, aeabi_fcmplt, aeabi_fcmple, aeabi_fcmpgt, aeabi_fcmpge, aeabi_fcmpun.
  unfold aeabi_dcmpeq, aeabi_dcmplt, aeabi_dcmple, aeabi_dcmpgt, aeabi_dcmpge, aeabi_dcmpun.
  rewrite (fcmp_core_spec a b Ha Hb), (dcmp_core_spec c d Hc Hd).
  split; [destruct (fp_compare (classify 23 8 a) _) as [[]|]|destruct (fp_compare (classify 52 11 c) _) as [[]|]]; repeat split.
Qed.

Lemma comparisons_exact_witness : aeabi_fcmple 0x80000000 0x00000000 = 1 /\ aeabi_dcmpun 0x7FF8000000000000 0 = 1.
Proof.
  destruct (comparisons_exact 0x80000000 0x00000000 0x7FF8000000000000 0 ltac:(lia) ltac:(lia) ltac:(lia) ltac:(lia)) as [(_ & _ & F & _) (_ & _ & _ & _ & _ & G)].
  split; [exact F|exact G].
Defined.
