(* ===== verification/EabiInt.v ===== *)
(** * Integer routines of the ARM EABI runtime

    The integer part of [src/lib/armeabi.c]: 32-bit division by the restoring
    loop, the 64-bit division helpers on 32-bit halves, 64-bit comparisons and
    shifts, the leading-zero counts.  A 64-bit value is its pair of 32-bit
    words, as in the source, or its 64-bit encoding where the source uses a
    union. *)

From S2P Require Import Prelude.
From S2P Require Import SoftCommon.
Local Open Scope Z_scope.
Local Open Scope c_scope.

(** The signed reading of a 64-bit encoding. *)
Definition s64 (x : Z) : Z := if u64 x <? 2 ^ 63 then u64 x else u64 x - 2 ^ 64.

(** ** 32-bit division *)

(** The loop [for (int i = 31; i >= 0; --i)], with [n] iterations left. *)
Fixpoint uidiv_loop (n : nat) (numerator denominator q r : Z) : Z :=
  match n with
  | O => q
  | S i =>
      let r := (r <<< 1) ||| ((numerator >>> Z.of_nat i) &&& 1) in
      if negb (r <? denominator)
      then uidiv_loop i numerator denominator (q ||| (1 <<< Z.of_nat i)) (u32 (r - denominator))
      else uidiv_loop i numerator denominator q r
  end.

Definition aeabi_uidiv (numerator denominator : Z) : Z :=
  if denominator =? 0 then 0 else uidiv_loop 32 numerator denominator 0 0.

Definition aeabi_idiv (numerator denominator : Z) : Z :=
  if denominator =? 0 then 0
  else
    let '(neg, un) := if numerator <? 0 then (1, u32 (- numerator)) else (0, u32 numerator) in
    let '(neg, ud) := if denominator <? 0 then (neg ^^^ 1, u32 (- denominator)) else (neg, u32 denominator) in
    let q := aeabi_uidiv un ud in
    if truth neg then s32 (- s32 q) else s32 q.

(** ** 64-bit division on 32-bit halves *)

(** The inlined normalization: the shift and the shifted divisor. *)
Definition ul_normalize (v : Z) : Z * Z :=
  let '(s, v) := if v &&& 0xFFFF0000 =? 0 then (16, v <<< 16) else (0, v) in
  let '(s, v) := if v &&& 0xFF000000 =? 0 then (s + 8, v <<< 8) else (s, v) in
  let '(s, v) := if v &&& 0xF0000000 =? 0 then (s + 4, v <<< 4) else (s, v) in
  let '(s, v) := if v &&& 0xC0000000 =? 0 then (s + 2, v <<< 2) else (s, v) in
  if v &&& 0x80000000 =? 0 then (s + 1, v <<< 1) else (s, v).

(** [while (q > 0xFFFF || q * vn0 > ((rhat << 16) | un)) { q--; rhat += vn1; if (rhat > 0xFFFF) break; }] *)
Fixpoint ul_adjust (fuel : nat) (q rhat vn1 vn0 un : Z) : Z :=
  match fuel with
  | O => q
  | S fuel =>
      if (0xFFFF <? q) || (((rhat <<< 16) ||| un) <? u32 (q * vn0)) then
        let q := u32 (q - 1) in
        let rhat := u32 (rhat + vn1) in
        if 0xFFFF <? rhat then q else ul_adjust fuel q rhat vn1 vn0 un
      else q
  end.

(** The inlined two-digit step on [(un32:un10)]: both digits and the remainder. *)
Definition ul_two_digits (un32 un10 v : Z) : Z * Z * Z :=
  let vn1 := v >>> 16 in
  let vn0 := v &&& 0xFFFF in
  let un1 := un10 >>> 16 in
  let un0 := un10 &&& 0xFFFF in
  let q1 := un32 / vn1 in
  let q1 := ul_adjust 3 q1 (u32 (un32 - q1 * vn1)) vn1 vn0 un1 in
  let un21 := u32 ((un32 <<< 16) + un1 - q1 * v) in
  let q0 := un21 / vn1 in
  let q0 := ul_adjust 3 q0 (u32 (un21 - q0 * vn1)) vn1 vn0 un0 in
  (q1, q0, u32 ((un21 <<< 16) + un0 - q0 * v)).

(** [d] fits 32 bits. *)
Definition uldivmod_narrow (n_lo n_hi d_lo : Z) : Z * Z * Z * Z :=
  let '(qh, k) := if d_lo <=? n_hi then (n_hi / d_lo, u32 (n_hi - n_hi / d_lo * d_lo)) else (0, n_hi) in
  let '(s, v) := ul_normalize d_lo in
  let un32 := if truth s then (k <<< s) ||| (n_lo >>> (32 - s)) else k in
  let un10 := n_lo <<< s in
  let '(q1, q0, rem) := ul_two_digits un32 un10 v in
  ((q1 <<< 16) ||| q0, qh, rem >>> s, 0).

(** The 32x32 to 64 bit product from 16-bit halves: [(p_lo, p_hi)]. *)
Definition mul32wide (q0 d_lo : Z) : Z * Z :=
  let al := q0 &&& 0xFFFF in
  let ah := q0 >>> 16 in
  let bl := d_lo &&& 0xFFFF in
  let bh := d_lo >>> 16 in
  let ll := u32 (al * bl) in
  let lh := u32 (al * bh) in
  let hl := u32 (ah * bl) in
  let hh := u32 (ah * bh) in
  let mid := u32 ((ll >>> 16) + (lh &&& 0xFFFF) + (hl &&& 0xFFFF)) in
  ((ll &&& 0xFFFF) ||| (mid <<< 16), u32 (hh + (lh >>> 16) + (hl >>> 16) + (mid >>> 16))).

(** [d >= 2^32 <= n]: estimate from [n / 2] over the top word of [d], correct up. *)
Definition uldivmod_wide (n_lo n_hi d_lo d_hi : Z) : Z * Z * Z * Z :=
  let '(s, v) := ul_normalize d_hi in
  let v := if truth s then v ||| (d_lo >>> (32 - s)) else v in
  let u1 := n_hi >>> 1 in
  let u0 := (n_lo >>> 1) ||| (n_hi <<< 31) in
  let '(q1, q0, _) := ul_two_digits u1 u0 v in
  let q0 := ((q1 <<< 16) ||| q0) >>> (31 - s) in
  let q0 := if negb (q0 =? 0) then u32 (q0 - 1) else q0 in
  let '(p_lo, p_hi) := mul32wide q0 d_lo in
  let p_hi := u32 (p_hi + u32 (q0 * d_hi)) in
  let rem_lo := u32 (n_lo - p_lo) in
  let rem_hi := u32 (n_hi - p_hi - b2z (n_lo <? p_lo)) in
  if (d_hi <? rem_hi) || ((rem_hi =? d_hi) && (d_lo <=? rem_lo))
  then (u32 (q0 + 1), 0, u32 (rem_lo - d_lo), u32 (rem_hi - d_hi - b2z (rem_lo <? d_lo)))
  else (q0, 0, rem_lo, rem_hi).

(** The stored results [(q_lo, q_hi, r_lo, r_hi)]. *)
Definition uldivmod_helper (n_lo n_hi d_lo d_hi : Z) : Z * Z * Z * Z :=
  if negb (d_lo ||| d_hi =? 0) then
    if d_hi =? 0 then uldivmod_narrow n_lo n_hi d_lo
    else if (n_hi <? d_hi) || ((n_hi =? d_hi) && (n_lo <? d_lo)) then (0, 0, n_lo, n_hi)
    else uldivmod_wide n_lo n_hi d_lo d_hi
  else (0, 0, 0, 0).

Definition u64_neg (lo hi : Z) : Z * Z :=
  let lo := u32 (~~~ lo + 1) in
  (lo, u32 (~~~ hi + b2z (lo =? 0))).

(** [n_hi] and [d_hi] are signed. *)
Definition ldivmod_helper (n_lo n_hi d_lo d_hi : Z) : Z * Z * Z * Z :=
  let '(q_neg, r_neg, un_lo, un_hi) :=
    if n_hi <? 0 then let '(lo, hi) := u64_neg n_lo (u32 n_hi) in (1, 1, lo, hi) else (0, 0, n_lo, u32 n_hi) in
  let '(q_neg, ud_lo, ud_hi) :=
    if d_hi <? 0 then let '(lo, hi) := u64_neg d_lo (u32 d_hi) in (q_neg ^^^ 1, lo, hi) else (q_neg, d_lo, u32 d_hi) in
  let '(q_lo, q_hi, r_lo, r_hi) := uldivmod_helper un_lo un_hi ud_lo ud_hi in
  let '(q_lo, q_hi) := if truth q_neg then u64_neg q_lo q_hi else (q_lo, q_hi) in
  let '(r_lo, r_hi) := if truth r_neg then u64_neg r_lo r_hi else (r_lo, r_hi) in
  (q_lo, q_hi, r_lo, r_hi).

(** ** 64-bit comparisons *)

Definition aeabi_lcmp (a_lo a_hi b_lo b_hi : Z) : Z :=
  if a_hi <? b_hi then -1 else if b_hi <? a_hi then 1
  else if a_lo <? b_lo then -1 else if b_lo <? a_lo then 1 else 0.

Definition aeabi_ulcmp (a_lo a_hi b_lo b_hi : Z) : Z :=
  if a_hi <? b_hi then -1 else if b_hi <? a_hi then 1
  else if a_lo <? b_lo then -1 else if b_lo <? a_lo then 1 else 0.

(** ** Bits and shifts *)

Fixpoint clz_loop (fuel : nat) (v bit n : Z) : Z :=
  match fuel with
  | O => n
  | S fuel => if v &&& bit =? 0 then clz_loop fuel v (bit >>> 1) (n + 1) else n
  end.

Definition aeabi_clz (x : Z) : Z :=
  let v := u32 x in
  if v =? 0 then 32 else clz_loop 32 v 0x80000000 0.

(** The words of a [DWunion] and back. *)
Definition dw_low (a : Z) : Z := u32 a.
Definition dw_high (a : Z) : Z := u32 (a >>> 32).
Definition dw_make (low high : Z) : Z := Z.shiftl high 32 ||| low.

Definition aeabi_llsr (a b : Z) : Z :=
  let low := dw_low a in
  let high := dw_high a in
  if 32 <=? b then dw_make (high >>> (b - 32)) 0
  else if negb (b =? 0) then dw_make ((low >>> b) ||| (high <<< (32 - b))) (high >>> b)
  else dw_make low high.

Definition aeabi_llsl (a b : Z) : Z :=
  let low := dw_low a in
  let high := dw_high a in
  if 32 <=? b then dw_make 0 (low <<< (b - 32))
  else if negb (b =? 0) then dw_make (low <<< b) ((high <<< b) ||| (low >>> (32 - b)))
  else dw_make low high.

Definition aeabi_lasr (a b : Z) : Z :=
  let low := dw_low a in
  let high := dw_high a in
  if 32 <=? b then dw_make (u32 (s32 high >>> (b - 32))) (u32 (s32 high >>> 31))
  else if negb (b =? 0) then dw_make ((low >>> b) ||| (high <<< (32 - b))) (u32 (s32 high >>> b))
  else dw_make low high.

Example uldivmod_example : uldivmod_helper 0x89ABCDEF 0x1234567 0x10 0x1 = (0x1234567, 0x0, 0x7777777F, 0x0).
Proof. vm_compute. reflexivity. Qed.
Example uidiv_example : aeabi_uidiv 0xFFFFFFFF 0x80000001 = 1.
Proof. vm_compute. reflexivity. Qed.
