(* ===== verification/EabiDiv.v ===== *)
(** * The division and shift routines compute quotients, remainders and shifts *)

From S2P Require Import Prelude.
From S2P Require Import FpSpec.
From S2P Require Import SoftCommon.
From S2P Require Import SoftRound.
From S2P Require Import SoftUnpack.
From S2P Require Import SoftDouble.
From S2P Require Import SoftDoubleArith.
From S2P Require Import SoftDoubleDiv.
From S2P Require Import EabiInt.
Local Open Scope Z_scope.
Local Open Scope c_scope.

(** ** The restoring loop *)

(** With [n] bits left the accumulators divide the bits consumed so far. *)
Lemma uidiv_loop_spec num den : 0 <= num < 2 ^ 32 -> 0 < den < 2 ^ 32 -> forall n q r, (n <= 32)%nat ->
  q = num / 2 ^ Z.of_nat n / den * 2 ^ Z.of_nat n -> r = num / 2 ^ Z.of_nat n mod den ->
  uidiv_loop n num den q r = num / den.
Proof.
  intros Hnum Hden. induction n as [|i IH]; intros q r Hn Hq Hr; cbn [uidiv_loop].
  - subst q. change (2 ^ Z.of_nat 0) with 1. rewrite Z.div_1_r. lia.
  - replace (Z.of_nat (S i)) with (Z.of_nat i + 1) in * by lia. pose proof (pow2_pos (Z.of_nat i) ltac:(lia)) as P.
    set (k := Z.of_nat i) in *. set (X := num / 2 ^ k).
    assert (num / 2 ^ (k + 1) = X / 2) as EX by (subst X; rewrite pow2_S, Z.mul_comm, Z.div_div by lia; reflexivity).
    assert (0 <= X) by (apply Z.div_pos; lia).
    assert (r * 2 < 2 ^ 32) as Br.
    { subst r. rewrite EX. assert (X / 2 mod den <= X / 2) by (apply Z.mod_le; [apply Z.div_pos; lia|lia]).
      assert (X <= num) by (apply Z.div_le_upper_bound; [lia|nia]). pose proof (Z.mul_div_le X 2). lia. }
    pose proof (Z.mod_pos_bound (X / 2) den ltac:(lia)) as Mb. rewrite EX in Hr, Hq. rewrite <- Hr in Mb.
    rewrite shl32_mul by lia. change (num >>> k &&& 1) with (num >>> k &&& (2 ^ 1 - 1)).
    rewrite land_mask, Z.shiftr_div_pow2 by lia. fold X. rewrite lor_fields by (first [lia|apply Z.mod_pos_bound; lia]). change (2 ^ 1) with 2.
    pose proof (Z.div_mod X 2 ltac:(lia)) as D2. pose proof (Z.mod_pos_bound X 2 ltac:(lia)) as M2.
    pose proof (Z.div_mod (X / 2) den ltac:(lia)) as Dd. rewrite <- Hr in Dd.
    set (q' := X / 2 / den) in *. set (bit := X mod 2) in *.
    assert (X = (2 * q') * den + (r * 2 + bit)) as EX2 by lia.
    rewrite pow2_S in Hq by lia.
    destruct (Z.ltb_spec (r * 2 + bit) den) as [Hlt|Hge]; cbn [negb].
    + apply IH; [lia| |].
      * fold X. rewrite <- (Z.div_unique X den (2 * q') (r * 2 + bit)) by lia. lia.
      * fold X. apply (Z.mod_unique X den (2 * q')); lia.
    + rewrite u32_small by lia. apply IH; [lia| |].
      * fold X. rewrite <- (Z.div_unique X den (2 * q' + 1) (r * 2 + bit - den)) by lia.
        assert (2 ^ k < 2 ^ 32) by (apply Z.pow_lt_mono_r; lia). rewrite shl32_mul by lia.
        replace q with (q' * 2 ^ (k + 1)) by (rewrite pow2_S by lia; lia). rewrite Z.mul_1_l, lor_fields; [rewrite pow2_S by lia; lia|lia|rewrite pow2_S by lia; lia].
      * fold X. apply (Z.mod_unique X den (2 * q' + 1)); lia.
Qed.

Lemma uidiv_spec num den : 0 <= num < 2 ^ 32 -> 0 < den < 2 ^ 32 -> aeabi_uidiv num den = num / den.
Proof.
  intros Hn Hd. unfold aeabi_uidiv. replace (den =? 0) with false by lia.
  apply uidiv_loop_spec; auto; change (2 ^ Z.of_nat 32) with (2 ^ 32); rewrite (Z.div_small num) by lia.
  - rewrite Z.div_0_l by lia. reflexivity.
  - rewrite Z.mod_0_l by lia. reflexivity.
Qed.

(** The signed quotient truncates towards zero and wraps at [INT_MIN / -1]. *)
Lemma idiv_spec num den : - 2 ^ 31 <= num < 2 ^ 31 -> - 2 ^ 31 <= den < 2 ^ 31 -> den <> 0 ->
  aeabi_idiv num den = s32 (Z.quot num den).
Proof.
  intros Hn Hd H0. unfold aeabi_idiv. replace (den =? 0) with false by lia.
  assert (forall x, - 2 ^ 31 <= x < 2 ^ 31 -> (if x <? 0 then u32 (- x) else u32 x) = Z.abs x) as HA.
  { intros x Hx. destruct (Z.ltb_spec x 0); rewrite u32_small; lia. }
  pose proof (HA num Hn) as An. pose proof (HA den Hd) as Ad.
  assert (forall q, 0 <= q <= 2 ^ 31 -> s32 (- s32 q) = s32 (- q)) as Hneg.
  { intros q Hq. destruct (Z.eq_dec q (2 ^ 31)) as [->|]; [reflexivity|].
    unfold s32 at 2. rewrite u32_small by lia. replace (q <? 2 ^ 31) with true by lia. reflexivity. }
  pose proof (uidiv_spec (Z.abs num) (Z.abs den) ltac:(lia) ltac:(lia)) as U.
  assert (0 <= Z.abs num / Z.abs den <= 2 ^ 31) as BQ.
  { split; [apply Z.div_pos; lia|]. apply Z.div_le_upper_bound; [lia|]. nia. }
  rewrite (Z.quot_div num den) by lia.
  destruct (Z.ltb_spec num 0) as [Sn|Sn], (Z.ltb_spec den 0) as [Sd|Sd]; rewrite An, Ad, U.
  - change (1 ^^^ 1) with 0. cbn [truth Z.eqb negb]. rewrite !Z.sgn_neg by lia. f_equal; lia.
  - cbn [truth Z.eqb negb]. rewrite Hneg by lia. rewrite (Z.sgn_neg num), (Z.sgn_pos den) by lia. f_equal; lia.
  - change (0 ^^^ 1) with 1. cbn [truth Z.eqb negb]. rewrite Hneg by lia.
    destruct (Z.eq_dec num 0) as [->|]; [rewrite Z.div_0_l by lia; reflexivity|]. rewrite (Z.sgn_pos num), (Z.sgn_neg den) by lia. f_equal; lia.
  - cbn [truth Z.eqb negb]. destruct (Z.eq_dec num 0) as [->|]; [rewrite Z.div_0_l by lia; reflexivity|].
    rewrite !Z.sgn_pos by lia. f_equal; lia.
Qed.

(** ** Normalization and the two-digit step *)

Lemma norm_stage v s x j : 0 <= j < 32 -> 0 < x < 2 ^ 32 -> 0 <= s -> x = v * 2 ^ s ->
  let '(s', x') := if x &&& (2 ^ 32 - 2 ^ (32 - j)) =? 0 then (s + j, x <<< j) else (s, x) in
  0 < x' < 2 ^ 32 /\ x' = v * 2 ^ s' /\ s <= s' <= s + j /\ (2 ^ (32 - j) <= x' \/ x' = x * 2 ^ j).
Proof.
  intros Hj Hx Hs E. rewrite land_high by lia. destruct (Z.ltb_spec x (2 ^ (32 - j))) as [H|H]; [|lia].
  assert (2 ^ 32 = 2 ^ (32 - j) * 2 ^ j) as E2 by (rewrite <- Z.pow_add_r by lia; f_equal; lia).
  pose proof (pow2_pos j ltac:(lia)). rewrite shl32_mul by nia. split; [nia|]. split; [|lia].
  rewrite Z.pow_add_r by lia. subst x. ring.
Qed.

Lemma ul_normalize_spec v : 0 < v < 2 ^ 32 ->
  let '(s, v') := ul_normalize v in 0 <= s <= 31 /\ v' = v * 2 ^ s /\ 2 ^ 31 <= v' < 2 ^ 32.
Proof.
  intros Hv. unfold ul_normalize.
  pose proof (norm_stage v 0 v 16 ltac:(lia) Hv ltac:(lia) ltac:(lia)) as S1. change (2 ^ 32 - 2 ^ (32 - 16)) with 0xFFFF0000 in S1. change (0 + 16) with 16 in S1.
  destruct (if v &&& 0xFFFF0000 =? 0 then (16, v <<< 16) else (0, v)) as [s1 x1]. destruct S1 as (B1 & E1 & R1 & L1).
  pose proof (norm_stage v s1 x1 8 ltac:(lia) B1 ltac:(lia) E1) as S2. change (2 ^ 32 - 2 ^ (32 - 8)) with 0xFF000000 in S2.
  destruct (if x1 &&& 0xFF000000 =? 0 then (s1 + 8, x1 <<< 8) else (s1, x1)) as [s2 x2]. destruct S2 as (B2 & E2 & R2 & L2).
  pose proof (norm_stage v s2 x2 4 ltac:(lia) B2 ltac:(lia) E2) as S3. change (2 ^ 32 - 2 ^ (32 - 4)) with 0xF0000000 in S3.
  destruct (if x2 &&& 0xF0000000 =? 0 then (s2 + 4, x2 <<< 4) else (s2, x2)) as [s3 x3]. destruct S3 as (B3 & E3 & R3 & L3).
  pose proof (norm_stage v s3 x3 2 ltac:(lia) B3 ltac:(lia) E3) as S4. change (2 ^ 32 - 2 ^ (32 - 2)) with 0xC0000000 in S4.
  destruct (if x3 &&& 0xC0000000 =? 0 then (s3 + 2, x3 <<< 2) else (s3, x3)) as [s4 x4]. destruct S4 as (B4 & E4 & R4 & L4).
  pose proof (norm_stage v s4 x4 1 ltac:(lia) B4 ltac:(lia) E4) as S5. change (2 ^ 32 - 2 ^ (32 - 1)) with 0x80000000 in S5.
  destruct (if x4 &&& 0x80000000 =? 0 then (s4 + 1, x4 <<< 1) else (s4, x4)) as [s5 x5]. destruct S5 as (B5 & E5 & R5 & L5).
  split; [lia|]. split; [exact E5|]. lia.
Qed.

(** The loop is the one of [sfp_divlu32], written with shifts. *)
Lemma ul_adjust_eq fuel : forall q rhat vn1 vn0 un, 0 <= rhat < 2 ^ 16 -> 0 <= vn1 < 2 ^ 16 -> 0 <= un < 2 ^ 16 ->
  ul_adjust fuel q rhat vn1 vn0 un = divlu_adjust fuel q rhat vn1 vn0 un.
Proof.
  induction fuel as [|fuel IH]; intros q rhat vn1 vn0 un Hr H1 Hu; cbn [ul_adjust divlu_adjust]; [reflexivity|].
  rewrite shl32_mul, lor_fields, (u32_small (65536 * rhat + un)) by lia.
  replace (0xFFFF <? q) with (65536 <=? q) by lia. replace (rhat * 2 ^ 16 + un) with (65536 * rhat + un) by lia.
  destruct (_ || _); [|reflexivity]. rewrite (u32_small (rhat + vn1)) by lia.
  replace (0xFFFF <? rhat + vn1) with (65536 <=? rhat + vn1) by lia.
  destruct (Z.leb_spec 65536 (rhat + vn1)); [reflexivity|]. apply IH; lia.
Qed.

(** The step divides [(un32:un10)] by a normalized divisor. *)
Lemma ul_two_digits_spec u1 u0 v : 2 ^ 31 <= v < 2 ^ 32 -> 0 <= u1 < v -> 0 <= u0 < 2 ^ 32 ->
  exists q1 q0, ul_two_digits u1 u0 v = (q1, q0, (u1 * 2 ^ 32 + u0) mod v) /\
    0 <= q1 < 2 ^ 16 /\ 0 <= q0 < 2 ^ 16 /\ q1 * 2 ^ 16 + q0 = (u1 * 2 ^ 32 + u0) / v.
Proof.
  intros Hv Hu Hu0. unfold ul_two_digits. cbv zeta. change 0xFFFF with (2 ^ 16 - 1).
  rewrite !land_mask, !Z.shiftr_div_pow2 by lia.
  set (un1 := u0 / 2 ^ 16). set (un0 := u0 mod 2 ^ 16).
  assert (0 <= un1 < 2 ^ 16 /\ 0 <= un0 < 2 ^ 16 /\ u0 = un1 * 2 ^ 16 + un0) as (B1 & B0 & E0) by (subst un1 un0; lia_mod).
  pose proof (vn_facts v Hv) as (EV & V1 & V0).
  assert (forall x, u32 ((x <<< 16) + un1 - (x * 2 ^ 16 + un1) / v * v) = u32 (x * 65536 + un1 - (x * 2 ^ 16 + un1) / v * v)) as HS1.
  { intros x. rewrite !u32_mod. unfold shl32. rewrite u32_mod, Z.shiftl_mul_pow2 by lia.
    rewrite <- !Z.add_sub_assoc. rewrite Z.add_mod_idemp_l by lia. reflexivity. }
  assert (forall x, u32 ((x <<< 16) + un0 - (x * 2 ^ 16 + un0) / v * v) = u32 (x * 65536 + un0 - (x * 2 ^ 16 + un0) / v * v)) as HS0.
  { intros x. rewrite !u32_mod. unfold shl32. rewrite u32_mod, Z.shiftl_mul_pow2 by lia.
    rewrite <- !Z.add_sub_assoc. rewrite Z.add_mod_idemp_l by lia. reflexivity. }
  pose proof (Z.mod_pos_bound u1 (v / 2 ^ 16) ltac:(lia)) as MU.
  rewrite ul_adjust_eq by (rewrite ?u32_small; pose proof (Z.div_mod u1 (v / 2 ^ 16)); lia).
  rewrite (estimate_digit u1 un1 v Hv Hu B1), HS1, (digit_rem u1 un1 v Hv Hu B1).
  set (T1 := u1 * 2 ^ 16 + un1). pose proof (Z.div_mod T1 v ltac:(lia)) as D1. pose proof (Z.mod_pos_bound T1 v ltac:(lia)) as M1.
  pose proof (digit_bound u1 un1 v Hv Hu B1) as Q1. fold T1 in Q1.
  pose proof (Z.mod_pos_bound (T1 mod v) (v / 2 ^ 16) ltac:(lia)) as MU2.
  rewrite ul_adjust_eq by (rewrite ?u32_small; pose proof (Z.div_mod (T1 mod v) (v / 2 ^ 16)); lia).
  rewrite (estimate_digit (T1 mod v) un0 v Hv M1 B0), HS0, (digit_rem (T1 mod v) un0 v Hv M1 B0).
  set (T0 := T1 mod v * 2 ^ 16 + un0). pose proof (Z.div_mod T0 v ltac:(lia)) as D0. pose proof (Z.mod_pos_bound T0 v ltac:(lia)) as M0.
  pose proof (digit_bound (T1 mod v) un0 v Hv M1 B0) as Q0. fold T0 in Q0.
  assert (u1 * 2 ^ 32 + u0 = (T1 / v * 2 ^ 16 + T0 / v) * v + T0 mod v) as E by (subst T0 T1; lia).
  exists (T1 / v), (T0 / v). split; [|split; [exact Q1|split; [exact Q0|]]].
  - f_equal. apply (Z.mod_unique _ _ (T1 / v * 2 ^ 16 + T0 / v)); lia.
  - apply (Z.div_unique _ _ _ (T0 mod v)); lia.
Qed.

(** ** 64-bit quotient and remainder *)

(** What the helpers store: both words of [N / D] and of [N mod D]. *)
Definition divmod_words (N D : Z) (res : Z * Z * Z * Z) : Prop :=
  let '(q_lo, q_hi, r_lo, r_hi) := res in
  0 <= q_lo < 2 ^ 32 /\ 0 <= q_hi < 2 ^ 32 /\ 0 <= r_lo < 2 ^ 32 /\ 0 <= r_hi < 2 ^ 32 /\
  q_hi * 2 ^ 32 + q_lo = N / D /\ r_hi * 2 ^ 32 + r_lo = N mod D.

(** A double word shifted left by less than a word. *)
Lemma shift_pair k n s : 0 <= s <= 31 -> 0 <= k -> k * 2 ^ s < 2 ^ 32 -> 0 <= n < 2 ^ 32 ->
  (if truth s then (k <<< s) ||| (n >>> (32 - s)) else k) * 2 ^ 32 + (n <<< s) = (k * 2 ^ 32 + n) * 2 ^ s /\ 0 <= n <<< s < 2 ^ 32.
Proof.
  intros Hs Hk Hks Hn. split; [|apply u32_bound].
  rewrite (shl_trunc n) by lia. destruct (Z.eq_dec s 0) as [->|Hne].
  - cbn [truth Z.eqb negb]. change (32 - 0) with 32. rewrite Z.mod_small by lia. lia.
  - rewrite (proj2 (truth_true s) Hne). rewrite shl32_mul, Z.shiftr_div_pow2 by lia.
    assert (2 ^ 32 = 2 ^ (32 - s) * 2 ^ s) as E by (rewrite <- Z.pow_add_r by lia; f_equal; lia).
    pose proof (pow2_pos (32 - s) ltac:(lia)) as P1. pose proof (pow2_pos s ltac:(lia)) as P2.
    assert (0 <= n / 2 ^ (32 - s) < 2 ^ s) as B by (split; [apply Z.div_pos; lia|apply Z.div_lt_upper_bound; lia]).
    rewrite lor_fields by lia. pose proof (Z.div_mod n (2 ^ (32 - s)) ltac:(lia)) as D.
    set (h := n / 2 ^ (32 - s)) in *. set (l := n mod 2 ^ (32 - s)) in *. rewrite D, E. ring.
Qed.

Lemma uldivmod_narrow_spec n_lo n_hi d : 0 <= n_lo < 2 ^ 32 -> 0 <= n_hi < 2 ^ 32 -> 0 < d < 2 ^ 32 ->
  divmod_words (n_hi * 2 ^ 32 + n_lo) d (uldivmod_narrow n_lo n_hi d).
Proof.
  intros Hl Hh Hd. unfold uldivmod_narrow.
  assert ((if d <=? n_hi then (n_hi / d, u32 (n_hi - n_hi / d * d)) else (0, n_hi)) = (n_hi / d, n_hi mod d)) as ->.
  { pose proof (Z.div_mod n_hi d ltac:(lia)). pose proof (Z.mod_pos_bound n_hi d ltac:(lia)).
    destruct (Z.leb_spec d n_hi); [|rewrite Z.div_small, Z.mod_small by lia; reflexivity].
    replace (n_hi - n_hi / d * d) with (n_hi mod d) by lia. rewrite u32_small by lia. reflexivity. }
  pose proof (Z.div_mod n_hi d ltac:(lia)) as DH. pose proof (Z.mod_pos_bound n_hi d ltac:(lia)) as MH.
  assert (0 <= n_hi / d < 2 ^ 32) as BH by (split; [apply Z.div_pos; lia|apply Z.div_lt_upper_bound; nia]).
  set (k := n_hi mod d) in *. set (qh := n_hi / d) in *.
  pose proof (ul_normalize_spec d Hd) as NS. destruct (ul_normalize d) as [s v]. destruct NS as (Bs & EV & BV).
  pose proof (pow2_pos s ltac:(lia)) as P. destruct (shift_pair k n_lo s Bs ltac:(lia) ltac:(nia) Hl) as [EP BP].
  set (u1 := if truth s then _ else _) in *. set (u0 := n_lo <<< s) in *. set (X := k * 2 ^ 32 + n_lo) in *.
  assert (0 <= u1 < v) as Bu by (subst X; nia).
  destruct (ul_two_digits_spec u1 u0 v BV Bu BP) as (q1 & q0 & -> & B1 & B0 & EQ). rewrite EP in EQ |- *.
  rewrite EV, Z.div_mul_cancel_r in EQ by lia. rewrite EV, Z.mul_mod_distr_r, Z.shiftr_div_pow2, Z.div_mul by lia.
  rewrite shl32_mul, lor_fields, EQ by lia.
  pose proof (Z.div_mod X d ltac:(lia)) as DX. pose proof (Z.mod_pos_bound X d ltac:(lia)) as MX.
  assert (n_hi * 2 ^ 32 + n_lo = (qh * 2 ^ 32 + X / d) * d + X mod d) as E by (subst X; lia).
  unfold divmod_words. repeat split; try lia.
  - apply (Z.div_unique _ _ _ (X mod d)); lia.
  - apply (Z.mod_unique _ _ (qh * 2 ^ 32 + X / d)); lia.
Qed.

Lemma mul32wide_spec a b : 0 <= a < 2 ^ 32 -> 0 <= b < 2 ^ 32 ->
  let '(p_lo, p_hi) := mul32wide a b in 0 <= p_lo < 2 ^ 32 /\ 0 <= p_hi < 2 ^ 32 /\ p_hi * 2 ^ 32 + p_lo = a * b.
Proof.
  intros Ha Hb. unfold mul32wide. cbv zeta. change 0xFFFF with (2 ^ 16 - 1).
  rewrite !land_mask, (Z.shiftr_div_pow2 a), (Z.shiftr_div_pow2 b) by lia.
  set (al := a mod 2 ^ 16). set (ah := a / 2 ^ 16). set (bl := b mod 2 ^ 16). set (bh := b / 2 ^ 16).
  assert (0 <= al < 2 ^ 16 /\ 0 <= ah < 2 ^ 16 /\ a = ah * 2 ^ 16 + al) as (A0 & A1 & EA) by (subst al ah; lia_mod).
  assert (0 <= bl < 2 ^ 16 /\ 0 <= bh < 2 ^ 16 /\ b = bh * 2 ^ 16 + bl) as (B0 & B1 & EB) by (subst bl bh; lia_mod).
  assert (forall x y, 0 <= x < 2 ^ 16 -> 0 <= y < 2 ^ 16 -> 0 <= x * y <= (2 ^ 16 - 1) * (2 ^ 16 - 1)) as HM by (intros; nia).
  pose proof (HM al bl A0 B0) as P0. pose proof (HM al bh A0 B1) as P1. pose proof (HM ah bl A1 B0) as P2. pose proof (HM ah bh A1 B1) as P3.
  assert (a * b = ah * bh * 2 ^ 32 + (al * bh + ah * bl) * 2 ^ 16 + al * bl) as -> by (rewrite EA, EB; ring).
  clear HM EA EB. set (ll := al * bl) in *. set (lh := al * bh) in *. set (hl := ah * bl) in *. set (hh := ah * bh) in *.
  rewrite !(u32_small ll), !(u32_small lh), !(u32_small hl), (u32_small hh) by lia. rewrite !Z.shiftr_div_pow2 by lia.
  assert (forall x, 0 <= x <= (2 ^ 16 - 1) * (2 ^ 16 - 1) -> 0 <= x / 2 ^ 16 < 2 ^ 16 /\ 0 <= x mod 2 ^ 16 < 2 ^ 16 /\ x = x / 2 ^ 16 * 2 ^ 16 + x mod 2 ^ 16) as HD by (intros; lia_mod).
  destruct (HD ll P0) as (L1 & L2 & EL), (HD lh P1) as (L3 & L4 & ELH), (HD hl P2) as (L5 & L6 & EHL).
  set (mid := ll / 2 ^ 16 + lh mod 2 ^ 16 + hl mod 2 ^ 16). rewrite (u32_small mid) by (subst mid; lia).
  assert (0 <= mid / 2 ^ 16 < 4 /\ mid = mid / 2 ^ 16 * 2 ^ 16 + mid mod 2 ^ 16 /\ 0 <= mid mod 2 ^ 16 < 2 ^ 16) as (M1 & EM & M2) by (subst mid; lia_mod).
  rewrite (shl_trunc mid) by lia. change (32 - 16) with 16. rewrite Z.lor_comm, lor_fields by lia.
  rewrite u32_small by lia. subst mid. lia.
Qed.

(** Comparison of double words by their halves. *)
Lemma pair_leb a_lo a_hi b_lo b_hi : 0 <= a_lo < 2 ^ 32 -> 0 <= b_lo < 2 ^ 32 ->
  (b_hi <? a_hi) || ((a_hi =? b_hi) && (b_lo <=? a_lo)) = (b_hi * 2 ^ 32 + b_lo <=? a_hi * 2 ^ 32 + a_lo).
Proof.
  intros Ha Hb. destruct (Z.ltb_spec b_hi a_hi); cbn [orb]; [lia|]. destruct (Z.eqb_spec a_hi b_hi); cbn [andb]; lia.
Qed.

(** Word subtraction with its borrow. *)
Lemma sub_borrow a b : 0 <= a < 2 ^ 32 -> 0 <= b < 2 ^ 32 -> u32 (a - b) = a - b + b2z (a <? b) * 2 ^ 32.
Proof.
  intros Ha Hb. destruct (Z.ltb_spec a b); cbn [b2z]; [|rewrite u32_small; lia].
  rewrite u32_mod. replace (a - b) with (a - b + 2 ^ 32 + -1 * 2 ^ 32) at 1 by lia. rewrite Z.mod_add, Z.mod_small by lia. lia.
Qed.

(** The estimate from the top word of the divisor is the quotient or one more. *)
Lemma top_estimate N D v s : 0 <= s <= 31 -> 0 <= N < 2 ^ 64 -> 2 ^ 31 <= v -> v * 2 ^ (32 - s) <= D < (v + 1) * 2 ^ (32 - s) ->
  N / D <= N / (v * 2 ^ (32 - s)) <= N / D + 1.
Proof.
  intros Hs HN Hv HD. pose proof (pow2_pos (32 - s) ltac:(lia)) as P. set (x := 2 ^ (32 - s)) in *. set (D' := v * x) in *.
  assert (0 < D') as PD by (subst D'; nia).
  split; [apply quot_le; [lia|]; pose proof (Z.mul_div_le N D ltac:(lia)); pose proof (Z.div_pos N D ltac:(lia) ltac:(lia)); nia|].
  set (q := N / D'). assert (q * D' <= N) as HQ by (subst q; rewrite Z.mul_comm; apply Z.mul_div_le; lia).
  enough ((q - 1) * D <= N) as HE by (apply quot_le in HE; lia).
  destruct (Z.le_gt_cases q 1) as [|Hq]; [nia|].
  pose proof (pow2_pos s ltac:(lia)) as Ps. assert (x * 2 ^ s = 2 ^ 32) as Ex by (subst x; rewrite <- Z.pow_add_r by lia; f_equal; lia).
  assert (q <= 2 ^ (s + 1) - 1) as Bq.
  { assert (q < 2 ^ (s + 1)); [|lia]. apply quot_lt; [lia|]. rewrite pow2_S by lia. subst D'. nia. }
  rewrite pow2_S in Bq by lia.
  assert ((q - 1) * (x - 1) <= D') as Hprod.
  { assert ((q - 1) * (x - 1) <= (2 * 2 ^ s - 2) * (x - 1)) by nia.
    assert ((2 * 2 ^ s - 2) * (x - 1) = 2 * 2 ^ 32 - 2 * x - 2 * 2 ^ s + 2) as E by (rewrite <- Ex; ring).
    assert (2 ^ 31 * x <= D') by (subst D'; nia).
    destruct (Z.eq_dec s 31) as [->|]; [subst x; change (2 ^ (32 - 31)) with 2 in *; lia|].
    assert (4 <= x) by (subst x; change 4 with (2 ^ 2); apply Z.pow_le_mono_r; lia). lia. }
  assert (D - D' <= x - 1) by (subst D'; lia). nia.
Qed.

(** The window of the estimate: [n / 2] over the normalized top word. *)
Lemma wide_estimate n_lo n_hi d_lo d_hi : 0 <= n_lo < 2 ^ 32 -> 0 <= n_hi < 2 ^ 32 -> 0 <= d_lo < 2 ^ 32 -> 0 < d_hi < 2 ^ 32 ->
  let N := n_hi * 2 ^ 32 + n_lo in
  let D := d_hi * 2 ^ 32 + d_lo in
  let '(s, v) := ul_normalize d_hi in
  let v := if truth s then v ||| (d_lo >>> (32 - s)) else v in
  let '(q1, q0, _) := ul_two_digits (n_hi >>> 1) ((n_lo >>> 1) ||| (n_hi <<< 31)) v in
  N / D <= ((q1 <<< 16) ||| q0) >>> (31 - s) <= N / D + 1.
Proof.
  intros Hnl Hnh Hdl Hdh. cbv zeta. pose proof (ul_normalize_spec d_hi Hdh) as NS.
  destruct (ul_normalize d_hi) as [s v]. destruct NS as (Bs & EV & BV). pose proof (pow2_pos s ltac:(lia)) as P.
  destruct (shift_pair d_hi d_lo s Bs ltac:(lia) ltac:(lia) Hdl) as [EP BP].
  set (v' := if truth s then v ||| _ else v).
  assert (v' = if truth s then (d_hi <<< s) ||| (d_lo >>> (32 - s)) else d_hi) as EV'.
  { subst v' v. destruct (truth s) eqn:Ts; [rewrite shl32_mul by lia; reflexivity|]. apply truth_false in Ts. subst s. lia. }
  rewrite <- EV' in EP. set (D := d_hi * 2 ^ 32 + d_lo) in *.
  assert (2 ^ (32 - s) * 2 ^ s = 2 ^ 32) as E by (rewrite <- Z.pow_add_r by lia; f_equal; lia).
  assert (2 ^ 31 <= v' < 2 ^ 32) as BV'.
  { assert (d_hi + 1 <= 2 ^ (32 - s)) by nia. assert ((d_hi + 1) * 2 ^ s <= 2 ^ 32) by nia. subst D. nia. }
  assert (v' * 2 ^ (32 - s) <= D < (v' + 1) * 2 ^ (32 - s)) as HD by nia.
  assert ((n_lo >>> 1) ||| (n_hi <<< 31) = n_hi mod 2 * 2 ^ 31 + n_lo / 2) as ->.
  { rewrite shl_trunc, Z.shiftr_div_pow2 by lia. change (32 - 31) with 1. change (2 ^ 1) with 2. rewrite Z.lor_comm, lor_fields; lia_mod. }
  rewrite Z.shiftr_div_pow2 by lia. change (2 ^ 1) with 2. set (N := n_hi * 2 ^ 32 + n_lo).
  destruct (ul_two_digits_spec (n_hi / 2) (n_hi mod 2 * 2 ^ 31 + n_lo / 2) v' BV' ltac:(lia_mod) ltac:(lia_mod)) as (q1 & q0 & -> & B1 & B0 & EQ).
  replace (n_hi / 2 * 2 ^ 32 + (n_hi mod 2 * 2 ^ 31 + n_lo / 2)) with (N / 2) in EQ by (subst N; lia_mod).
  rewrite shl32_mul, lor_fields, EQ, Z.shiftr_div_pow2 by lia.
  pose proof (pow2_pos (31 - s) ltac:(lia)) as P31. rewrite !Z.div_div by lia.
  replace (2 * (v' * 2 ^ (31 - s))) with (v' * 2 ^ (32 - s)) by (replace (32 - s) with (31 - s + 1) by lia; rewrite pow2_S by lia; ring).
  apply top_estimate; try lia; subst N; lia.
Qed.

Lemma uldivmod_wide_spec n_lo n_hi d_lo d_hi : 0 <= n_lo < 2 ^ 32 -> 0 <= n_hi < 2 ^ 32 -> 0 <= d_lo < 2 ^ 32 -> 0 < d_hi < 2 ^ 32 ->
  d_hi * 2 ^ 32 + d_lo <= n_hi * 2 ^ 32 + n_lo ->
  divmod_words (n_hi * 2 ^ 32 + n_lo) (d_hi * 2 ^ 32 + d_lo) (uldivmod_wide n_lo n_hi d_lo d_hi).
Proof.
  intros Hnl Hnh Hdl Hdh Hge. unfold uldivmod_wide. pose proof (wide_estimate n_lo n_hi d_lo d_hi Hnl Hnh Hdl Hdh) as W.
  cbv zeta in W. destruct (ul_normalize d_hi) as [s v].
  destruct (ul_two_digits _ _ _) as [[q1 q0] rr]. set (e := ((q1 <<< 16) ||| q0) >>> (31 - s)) in *.
  set (N := n_hi * 2 ^ 32 + n_lo) in *. set (D := d_hi * 2 ^ 32 + d_lo) in *.
  assert (2 ^ 32 <= D) as BD by (subst D; lia). assert (0 <= N < 2 ^ 64) as BN by (subst N; lia).
  pose proof (Z.div_mod N D ltac:(lia)) as DN. pose proof (Z.mod_pos_bound N D ltac:(lia)) as MN.
  assert (1 <= N / D) as Q1 by (apply quot_le; lia). assert (N / D < 2 ^ 32) as Q2 by (apply quot_lt; lia).
  replace (e =? 0) with false by lia. cbn [negb]. rewrite (u32_small (e - 1)) by lia. set (q := e - 1).
  assert (0 <= q < 2 ^ 32) as Bq by (subst q; lia).
  pose proof (mul32wide_spec q d_lo Bq Hdl) as MW. destruct (mul32wide q d_lo) as [p_lo p_hi]. destruct MW as (BPl & BPh & EPr).
  assert (q * D <= N) as HqD by (subst q; nia).
  assert (0 <= q * d_hi + p_hi < 2 ^ 32) as BPH by (subst D; nia).
  rewrite (u32_small (q * d_hi)), (u32_small (p_hi + q * d_hi)) by lia.
  assert (N - q * D = (n_hi - (p_hi + q * d_hi)) * 2 ^ 32 + (n_lo - p_lo)) as ER by (subst N D; lia).
  assert (N - q * D = N mod D + (N / D - q) * D) as ER2 by lia.
  pose proof (sub_borrow n_lo p_lo Hnl BPl) as El.
  pose proof (u32_bound (n_lo - p_lo)) as Bl. set (b := b2z (n_lo <? p_lo)) in *.
  rewrite (u32_small (n_hi - (p_hi + q * d_hi) - b)) by nia.
  set (rl := u32 (n_lo - p_lo)) in *. set (rh := n_hi - (p_hi + q * d_hi) - b) in *.
  assert (rh * 2 ^ 32 + rl = N - q * D) as ERR by (subst rh; lia).
  assert (N / D = q \/ N / D = q + 1) as Hq by (subst q; lia).
  rewrite (pair_leb rl rh d_lo d_hi) by lia. fold D. destruct (Z.leb_spec D (rh * 2 ^ 32 + rl)) as [HgeD|HltD].
  - assert (N / D = q + 1) as Hq1 by nia.
    pose proof (sub_borrow rl d_lo Bl Hdl) as El2.
    pose proof (u32_bound (rl - d_lo)) as Bl2. set (b2 := b2z (rl <? d_lo)) in *.
    assert ((rh - d_hi - b2) * 2 ^ 32 + u32 (rl - d_lo) = N mod D) as EF by (subst D; nia).
    unfold divmod_words. rewrite (u32_small (q + 1)), (u32_small (rh - d_hi - b2)) by (subst D; lia). repeat split; subst D; lia.
  - assert (N / D = q) as Hq0 by nia. unfold divmod_words. repeat split; subst D; lia.
Qed.

Lemma uldivmod_spec n_lo n_hi d_lo d_hi : 0 <= n_lo < 2 ^ 32 -> 0 <= n_hi < 2 ^ 32 -> 0 <= d_lo < 2 ^ 32 -> 0 <= d_hi < 2 ^ 32 ->
  0 < d_hi * 2 ^ 32 + d_lo ->
  divmod_words (n_hi * 2 ^ 32 + n_lo) (d_hi * 2 ^ 32 + d_lo) (uldivmod_helper n_lo n_hi d_lo d_hi).
Proof.
  intros Hnl Hnh Hdl Hdh Hpos. unfold uldivmod_helper.
  replace (d_lo ||| d_hi =? 0) with false.
  2:{ symmetry. apply Z.eqb_neq. rewrite Z.lor_eq_0_iff. lia. }
  cbn [negb]. destruct (Z.eqb_spec d_hi 0) as [->|Hd].
  - rewrite Z.mul_0_l, Z.add_0_l in *. apply uldivmod_narrow_spec; lia.
  - assert ((n_hi <? d_hi) || ((n_hi =? d_hi) && (n_lo <? d_lo)) = (n_hi * 2 ^ 32 + n_lo <? d_hi * 2 ^ 32 + d_lo)) as ->.
    { destruct (Z.ltb_spec n_hi d_hi); cbn [orb]; [lia|]. destruct (Z.eqb_spec n_hi d_hi); cbn [andb]; lia. }
    destruct (Z.ltb_spec (n_hi * 2 ^ 32 + n_lo) (d_hi * 2 ^ 32 + d_lo)).
    + unfold divmod_words. rewrite Z.div_small, Z.mod_small by lia. lia.
    + apply uldivmod_wide_spec; lia.
Qed.

(** ** Signed 64-bit division *)

(** Two's complement of a pair of words. *)
Lemma u64_neg_spec lo hi : 0 <= lo < 2 ^ 32 -> 0 <= hi < 2 ^ 32 ->
  let '(lo', hi') := u64_neg lo hi in
  0 <= lo' < 2 ^ 32 /\ 0 <= hi' < 2 ^ 32 /\ hi' * 2 ^ 32 + lo' = u64 (- (hi * 2 ^ 32 + lo)).
Proof.
  intros Hl Hh. unfold u64_neg.
  assert (forall x, 0 <= x < 2 ^ 32 -> ~~~ x = 2 ^ 32 - 1 - x) as HN.
  { intros x Hx. unfold not32. rewrite u32_small by lia. assert (Z.lxor x (Z.ones 32) + x = Z.ones 32) as E; [|change (Z.ones 32) with (2 ^ 32 - 1) in *; lia].
    rewrite Z.add_nocarry_lxor, Z.lxor_assoc, (Z.lxor_comm _ x), <- Z.lxor_assoc, Z.lxor_nilpotent, Z.lxor_0_l; [reflexivity|].
    apply Z.bits_inj'. intros i Hi. rewrite Z.land_spec, Z.lxor_spec, Z.bits_0. destruct (Z.lt_ge_cases i 32).
    - rewrite Z.ones_spec_low by lia. destruct (Z.testbit x i); reflexivity.
    - rewrite (testbit_above 32 x) by lia. apply andb_false_r. }
  rewrite !HN by lia. cbv zeta. pose proof (u32_bound (2 ^ 32 - 1 - lo + 1)) as B1.
  pose proof (u32_bound (2 ^ 32 - 1 - hi + b2z (u32 (2 ^ 32 - 1 - lo + 1) =? 0))) as B2. split; [exact B1|]. split; [exact B2|].
  rewrite u64_mod. destruct (Z.eq_dec lo 0) as [->|Hne].
  - change (u32 (2 ^ 32 - 1 - 0 + 1)) with 0. cbn [Z.eqb b2z]. destruct (Z.eq_dec hi 0) as [->|Hne2]; [reflexivity|].
    rewrite u32_small by lia. apply (Z.mod_unique _ _ (-1)); lia.
  - rewrite (u32_small (2 ^ 32 - 1 - lo + 1)) by lia. replace (2 ^ 32 - 1 - lo + 1 =? 0) with false by lia. cbn [b2z].
    rewrite u32_small by lia. apply (Z.mod_unique _ _ (-1)); lia.
Qed.

(** The magnitude of a signed double word. *)
Lemma abs_pair lo hi : 0 <= lo < 2 ^ 32 -> - 2 ^ 31 <= hi < 2 ^ 31 ->
  let '(lo', hi') := if hi <? 0 then u64_neg lo (u32 hi) else (lo, u32 hi) in
  0 <= lo' < 2 ^ 32 /\ 0 <= hi' < 2 ^ 32 /\ hi' * 2 ^ 32 + lo' = Z.abs (hi * 2 ^ 32 + lo).
Proof.
  intros Hl Hh. destruct (Z.ltb_spec hi 0) as [Hn|Hn].
  - assert (u32 hi = hi + 2 ^ 32) as E.
    { rewrite u32_mod. replace hi with (hi + 2 ^ 32 + -1 * 2 ^ 32) at 1 by lia. rewrite Z.mod_add, Z.mod_small by lia. reflexivity. }
    rewrite E. pose proof (u64_neg_spec lo (hi + 2 ^ 32) Hl ltac:(lia)) as H. destruct (u64_neg lo (hi + 2 ^ 32)) as [lo' hi'].
    destruct H as (B1 & B2 & EQ). split; [exact B1|]. split; [exact B2|]. rewrite EQ, u64_mod.
    symmetry. apply (Z.mod_unique _ _ (-1)); lia.
  - rewrite u32_small by lia. lia.
Qed.

Definition pair_val (lo hi : Z) : Z := hi * 2 ^ 32 + lo.

(** Applying a sign to a pair of words. *)
Lemma sign_pair (b : bool) lo hi : 0 <= lo < 2 ^ 32 -> 0 <= hi < 2 ^ 32 ->
  let '(lo', hi') := if b then u64_neg lo hi else (lo, hi) in
  0 <= lo' < 2 ^ 32 /\ 0 <= hi' < 2 ^ 32 /\ pair_val lo' hi' = u64 (if b then - pair_val lo hi else pair_val lo hi).
Proof.
  intros Hl Hh. unfold pair_val. destruct b; [apply u64_neg_spec; auto|]. rewrite u64_small by lia. lia.
Qed.

(** Truncating division by magnitudes and signs. *)
Lemma quot_by_abs N D : D <> 0 ->
  Z.quot N D = if xorb (N <? 0) (D <? 0) then - (Z.abs N / Z.abs D) else Z.abs N / Z.abs D.
Proof.
  intros H0. rewrite Z.quot_div by exact H0. assert (N = 0 -> Z.abs N / Z.abs D = 0) as Z0 by (intros ->; apply Z.div_0_l; lia).
  set (x := Z.abs N / Z.abs D) in *. clearbody x. destruct (Z.ltb_spec N 0), (Z.ltb_spec D 0); cbn [xorb]; nia.
Qed.

Lemma rem_by_abs N D : D <> 0 -> Z.rem N D = if N <? 0 then - (Z.abs N mod Z.abs D) else Z.abs N mod Z.abs D.
Proof.
  intros H0. rewrite Z.rem_mod by exact H0. assert (N = 0 -> Z.abs N mod Z.abs D = 0) as Z0 by (intros ->; apply Z.mod_0_l; lia).
  set (x := Z.abs N mod Z.abs D) in *. clearbody x. destruct (Z.ltb_spec N 0); nia.
Qed.

Lemma ldivmod_spec n_lo n_hi d_lo d_hi : 0 <= n_lo < 2 ^ 32 -> - 2 ^ 31 <= n_hi < 2 ^ 31 ->
  0 <= d_lo < 2 ^ 32 -> - 2 ^ 31 <= d_hi < 2 ^ 31 -> pair_val d_lo d_hi <> 0 ->
  let '(q_lo, q_hi, r_lo, r_hi) := ldivmod_helper n_lo n_hi d_lo d_hi in
  0 <= q_lo < 2 ^ 32 /\ 0 <= q_hi < 2 ^ 32 /\ 0 <= r_lo < 2 ^ 32 /\ 0 <= r_hi < 2 ^ 32 /\
  pair_val q_lo q_hi = u64 (Z.quot (pair_val n_lo n_hi) (pair_val d_lo d_hi)) /\
  pair_val r_lo r_hi = u64 (Z.rem (pair_val n_lo n_hi) (pair_val d_lo d_hi)).
Proof.
  intros Hnl Hnh Hdl Hdh H0. unfold ldivmod_helper.
  pose proof (abs_pair n_lo n_hi Hnl Hnh) as AN. pose proof (abs_pair d_lo d_hi Hdl Hdh) as AD.
  fold (pair_val n_lo n_hi) in AN. fold (pair_val d_lo d_hi) in AD.
  set (N := pair_val n_lo n_hi) in *. set (D := pair_val d_lo d_hi) in *.
  set (nn := if n_hi <? 0 then _ else _).
  assert (exists un_lo un_hi, nn = (b2z (N <? 0), b2z (N <? 0), un_lo, un_hi) /\ 0 <= un_lo < 2 ^ 32 /\ 0 <= un_hi < 2 ^ 32 /\ pair_val un_lo un_hi = Z.abs N) as (un_lo & un_hi & -> & B1 & B2 & EN).
  { subst nn. replace (N <? 0) with (n_hi <? 0) by (subst N; unfold pair_val; lia).
    destruct (n_hi <? 0); [destruct (u64_neg n_lo (u32 n_hi)) as [lo hi]; exists lo, hi|exists n_lo, (u32 n_hi)]; (split; [reflexivity|exact AN]). }
  cbv beta iota.
  set (dd := if d_hi <? 0 then _ else _).
  assert (exists ud_lo ud_hi, dd = (b2z (xorb (N <? 0) (D <? 0)), ud_lo, ud_hi) /\ 0 <= ud_lo < 2 ^ 32 /\ 0 <= ud_hi < 2 ^ 32 /\ pair_val ud_lo ud_hi = Z.abs D) as (ud_lo & ud_hi & -> & B3 & B4 & ED).
  { subst dd. replace (D <? 0) with (d_hi <? 0) by (subst D; unfold pair_val; lia).
    destruct (d_hi <? 0); [destruct (u64_neg d_lo (u32 d_hi)) as [lo hi]; exists lo, hi|exists d_lo, (u32 d_hi)]; (split; [destruct (N <? 0); reflexivity|exact AD]). }
  pose proof (uldivmod_spec un_lo un_hi ud_lo ud_hi B1 B2 B3 B4) as US. fold (pair_val un_lo un_hi) (pair_val ud_lo ud_hi) in US. rewrite EN, ED in US.
  specialize (US ltac:(lia)). destruct (uldivmod_helper un_lo un_hi ud_lo ud_hi) as [[[ql qh] rl] rh].
  destruct US as (Bql & Bqh & Brl & Brh & EQ & ER). fold (pair_val ql qh) in EQ. fold (pair_val rl rh) in ER.
  assert (forall b, truth (b2z b) = b) as HT by (intros []; reflexivity). rewrite !HT.
  pose proof (sign_pair (xorb (N <? 0) (D <? 0)) ql qh Bql Bqh) as SQ. pose proof (sign_pair (N <? 0) rl rh Brl Brh) as SR.
  destruct (if xorb (N <? 0) (D <? 0) then u64_neg ql qh else (ql, qh)) as [ql' qh'].
  destruct (if N <? 0 then u64_neg rl rh else (rl, rh)) as [rl' rh'].
  destruct SQ as (Q1 & Q2 & Q3), SR as (R1 & R2 & R3). repeat split; try lia.
  - rewrite Q3, EQ, quot_by_abs by exact H0. reflexivity.
  - rewrite R3, ER, rem_by_abs by exact H0. reflexivity.
Qed.

(** Only one quotient of two signed words does not fit a signed word. *)
Lemma quot_fits n d k : 0 < k -> - k <= n < k -> d <> 0 -> n <> - k \/ d <> -1 -> - k <= Z.quot n d < k.
Proof.
  intros Hk Hn H0 Hx. rewrite (quot_by_abs n d H0).
  assert (0 <= Z.abs n / Z.abs d <= Z.abs n) by (split; [apply Z.div_pos; lia|apply Z.div_le_upper_bound; nia]).
  assert (2 <= Z.abs d -> Z.abs n / Z.abs d < k) by (intros; apply Z.div_lt_upper_bound; nia).
  destruct (Z.ltb_spec n 0), (Z.ltb_spec d 0); cbn [xorb]; lia.
Qed.

(** ** The contracts *)

(** The 32-bit divisions return the truncated quotient; a zero divisor is
    answered with zero, and the one quotient that does not fit, the least
    integer over minus one, wraps around to itself. *)
Theorem division32 n d un ud : - 2 ^ 31 <= n < 2 ^ 31 -> - 2 ^ 31 <= d < 2 ^ 31 -> 0 <= un < 2 ^ 32 -> 0 <= ud < 2 ^ 32 ->
  (aeabi_uidiv un 0 = 0 /\ aeabi_idiv n 0 = 0) /\ (ud <> 0 -> aeabi_uidiv un ud = un / ud) /\
  (d <> 0 -> aeabi_idiv n d = if (n =? - 2 ^ 31) && (d =? -1) then - 2 ^ 31 else Z.quot n d).
Proof.
  intros Hn Hd Hun Hud. split; [split; reflexivity|]. split; intros H0; [apply uidiv_spec; lia|]. rewrite idiv_spec by assumption.
  destruct ((n =? - 2 ^ 31) && (d =? -1)) eqn:E; [replace n with (- 2 ^ 31) by lia; replace d with (-1) by lia; reflexivity|].
  apply s32_small, quot_fits; [lia..|]. rewrite andb_false_iff, !Z.eqb_neq in E. lia.
Qed.

Lemma division32_witness : aeabi_idiv (- 2 ^ 31) (-1) = - 2 ^ 31 /\ aeabi_uidiv 0xFFFFFFFF 10 = 429496729.
Proof. destruct (division32 (- 2 ^ 31) (-1) 0xFFFFFFFF 10 ltac:(lia) ltac:(lia) ltac:(lia) ltac:(lia)) as (_ & U & I). split; [exact (I ltac:(lia))|exact (U ltac:(lia))]. Defined.

(** C37: the 64-bit division helpers, working on 32-bit words only, store the
    quotient and the remainder of the 64-bit operands: floor division for the
    unsigned helper, truncated division modulo 2^64 for the signed one.  With a
    zero divisor every word stored is zero. *)
Theorem division64 n_lo n_hi d_lo d_hi : 0 <= n_lo < 2 ^ 32 -> 0 <= d_lo < 2 ^ 32 ->
  (0 <= n_hi < 2 ^ 32 -> 0 <= d_hi < 2 ^ 32 -> pair_val d_lo d_hi <> 0 ->
    divmod_words (pair_val n_lo n_hi) (pair_val d_lo d_hi) (uldivmod_helper n_lo n_hi d_lo d_hi)) /\
  (- 2 ^ 31 <= n_hi < 2 ^ 31 -> - 2 ^ 31 <= d_hi < 2 ^ 31 -> pair_val d_lo d_hi <> 0 ->
    let '(q_lo, q_hi, r_lo, r_hi) := ldivmod_helper n_lo n_hi d_lo d_hi in
    pair_val q_lo q_hi = u64 (Z.quot (pair_val n_lo n_hi) (pair_val d_lo d_hi)) /\
    pair_val r_lo r_hi = u64 (Z.rem (pair_val n_lo n_hi) (pair_val d_lo d_hi))) /\
  uldivmod_helper n_lo n_hi 0 0 = (0, 0, 0, 0) /\ ldivmod_helper n_lo n_hi 0 0 = (0, 0, 0, 0).
Proof.
  intros Hnl Hdl. split; [|split; [|split; [reflexivity|]]].
  - intros Hnh Hdh H0. apply uldivmod_spec; try assumption. unfold pair_val in H0. lia.
  - intros Hnh Hdh H0. pose proof (ldivmod_spec n_lo n_hi d_lo d_hi Hnl Hnh Hdl Hdh H0) as L.
    destruct (ldivmod_helper n_lo n_hi d_lo d_hi) as [[[q_lo q_hi] r_lo] r_hi]. exact (proj2 (proj2 (proj2 (proj2 L)))).
  - unfold ldivmod_helper. destruct (n_hi <? 0); [destruct (u64_neg n_lo (u32 n_hi))|]; reflexivity.
Qed.

Lemma division64_witness :
  divmod_words (2 ^ 64 - 1) (2 ^ 32 + 1) (uldivmod_helper 0xFFFFFFFF 0xFFFFFFFF 1 1) /\
  ldivmod_helper 0 (- 2 ^ 31) 0xFFFFFFFF (-1) = (0, 2 ^ 31, 0, 0).
Proof.
  destruct (division64 0xFFFFFFFF 0xFFFFFFFF 1 1 ltac:(lia) ltac:(lia)) as (U & _).
  split; [exact (U ltac:(lia) ltac:(lia) ltac:(cbv; discriminate))|vm_compute; reflexivity].
Defined.
