(* ===== verification/EabiShift.v ===== *)
(** * The 64-bit shifts, comparisons and leading-zero counts *)

From S2P Require Import Prelude.
From S2P Require Import FpSpec.
From S2P Require Import SoftCommon.
From S2P Require Import SoftRound.
From S2P Require Import SoftUnpack.
From S2P Require Import SoftDoubleArith.
From S2P Require Import EabiInt.
From S2P Require Import EabiDiv.
Local Open Scope Z_scope.
Local Open Scope c_scope.

Lemma dw_make_add low high : 0 <= low < 2 ^ 32 -> dw_make low high = pair_val low high.
Proof. intros Hl. unfold dw_make, pair_val. rewrite Z.shiftl_mul_pow2, lor_fields by lia. reflexivity. Qed.

Lemma dw_words a : 0 <= a < 2 ^ 64 ->
  0 <= dw_low a < 2 ^ 32 /\ 0 <= dw_high a < 2 ^ 32 /\ a = dw_high a * 2 ^ 32 + dw_low a.
Proof. intros Ha. unfold dw_low, dw_high. destruct (half_words a Ha) as (-> & -> & H1 & H2 & E). auto. Qed.

(** A right shift of a pair by less than a word. *)
Lemma shift_right_pair H l b : 0 < b < 32 -> 0 <= l < 2 ^ 32 ->
  (H * 2 ^ 32 + l) / 2 ^ b = H / 2 ^ b * 2 ^ 32 + (H mod 2 ^ b * 2 ^ (32 - b) + l / 2 ^ b).
Proof.
  intros Hb Hl. pose proof (pow2_pos b ltac:(lia)) as P. pose proof (pow2_pos (32 - b) ltac:(lia)) as P2.
  assert (2 ^ 32 = 2 ^ (32 - b) * 2 ^ b) as E by (rewrite <- Z.pow_add_r by lia; f_equal; lia).
  pose proof (Z.div_mod H (2 ^ b) ltac:(lia)) as D. pose proof (Z.div_mod l (2 ^ b) ltac:(lia)) as DL.
  pose proof (Z.mod_pos_bound l (2 ^ b) ltac:(lia)) as ML.
  symmetry. apply (Z.div_unique _ _ _ (l mod 2 ^ b)); [lia|].
  rewrite D at 1. rewrite DL at 1. set (h := H / 2 ^ b) in *. set (m := H mod 2 ^ b) in *. rewrite E. ring.
Qed.

Lemma llsr_spec a b : 0 <= a < 2 ^ 64 -> 0 <= b < 64 -> aeabi_llsr a b = a / 2 ^ b.
Proof.
  intros Ha Hb. unfold aeabi_llsr. destruct (dw_words a Ha) as (Bl & Bh & E).
  set (l := dw_low a) in *. set (h := dw_high a) in *. cbv zeta. destruct (Z.leb_spec 32 b) as [H|H].
  - rewrite Z.shiftr_div_pow2 by lia. pose proof (pow2_pos (b - 32) ltac:(lia)).
    rewrite dw_make_add by (split; [apply Z.div_pos; lia|apply Z.div_lt_upper_bound; nia]).
    unfold pair_val. replace (2 ^ b) with (2 ^ 32 * 2 ^ (b - 32)) by (rewrite <- Z.pow_add_r by lia; f_equal; lia).
    rewrite <- Z.div_div by lia. replace (a / 2 ^ 32) with h; [lia|]. apply (Z.div_unique a (2 ^ 32) h l); lia.
  - destruct (Z.eqb_spec b 0) as [->|Hne]; cbn [negb].
    + rewrite dw_make_add by lia. unfold pair_val. rewrite Z.div_1_r. lia.
    + rewrite Z.lor_comm. replace (l >>> b) with (l >>> (32 - (32 - b))) by (f_equal; lia).
      destruct (join_word h l (32 - b) ltac:(lia) Bh Bl) as [-> J]. replace (32 - (32 - b)) with b in * by lia.
      rewrite dw_make_add by exact J. unfold pair_val. rewrite Z.shiftr_div_pow2 by lia. rewrite E, shift_right_pair by lia. reflexivity.
Qed.

Lemma llsl_spec a b : 0 <= a < 2 ^ 64 -> 0 <= b < 64 -> aeabi_llsl a b = u64 (a * 2 ^ b).
Proof.
  intros Ha Hb. unfold aeabi_llsl. destruct (dw_words a Ha) as (Bl & Bh & E).
  set (l := dw_low a) in *. set (h := dw_high a) in *. cbv zeta. destruct (Z.leb_spec 32 b) as [H|H].
  - rewrite dw_make_add by lia. rewrite shl_trunc by lia. unfold pair_val. rewrite u64_mod.
    pose proof (pow2_pos (b - 32) ltac:(lia)). pose proof (pow2_pos (64 - b) ltac:(lia)).
    replace (32 - (b - 32)) with (64 - b) by lia.
    assert (2 ^ b = 2 ^ 32 * 2 ^ (b - 32)) as EB by (rewrite <- Z.pow_add_r by lia; f_equal; lia).
    assert (2 ^ 32 = 2 ^ (64 - b) * 2 ^ (b - 32)) as E2 by (rewrite <- Z.pow_add_r by lia; f_equal; lia).
    pose proof (Z.div_mod l (2 ^ (64 - b)) ltac:(lia)) as DL. pose proof (Z.mod_pos_bound l (2 ^ (64 - b)) ltac:(lia)) as ML.
    apply (Z.mod_unique _ _ (h * 2 ^ (b - 32) + l / 2 ^ (64 - b))); [left; change (2 ^ 64) with (2 ^ 32 * 2 ^ 32); nia|].
    rewrite E, EB. change (2 ^ 64) with (2 ^ 32 * 2 ^ 32). rewrite DL at 1.
    set (m := l mod 2 ^ (64 - b)) in *. set (k := l / 2 ^ (64 - b)) in *. set (x := 2 ^ (b - 32)) in *. set (y := 2 ^ (64 - b)) in *.
    replace ((h * 2 ^ 32 + (y * k + m)) * (2 ^ 32 * x)) with (h * x * (2 ^ 32 * 2 ^ 32) + (k * 2 ^ 32) * (y * x) + m * x * 2 ^ 32) by ring.
    rewrite <- E2. ring.
  - destruct (Z.eqb_spec b 0) as [->|Hne]; cbn [negb].
    + rewrite dw_make_add by lia. unfold pair_val. rewrite Z.mul_1_r, u64_small by lia. lia.
    + destruct (join_word h l b ltac:(lia) Bh Bl) as [-> J].
      rewrite dw_make_add by apply u32_bound. unfold pair_val. rewrite (shl_trunc l) by lia. rewrite u64_mod.
      pose proof (pow2_pos b ltac:(lia)). pose proof (pow2_pos (32 - b) ltac:(lia)).
      assert (2 ^ 32 = 2 ^ (32 - b) * 2 ^ b) as E2 by (rewrite <- Z.pow_add_r by lia; f_equal; lia).
      pose proof (Z.div_mod l (2 ^ (32 - b)) ltac:(lia)) as DL. pose proof (Z.mod_pos_bound l (2 ^ (32 - b)) ltac:(lia)) as ML.
      pose proof (Z.div_mod h (2 ^ (32 - b)) ltac:(lia)) as DH.
      apply (Z.mod_unique _ _ (h / 2 ^ (32 - b))); [left; change (2 ^ 64) with (2 ^ 32 * 2 ^ 32); nia|].
      rewrite E. change (2 ^ 64) with (2 ^ 32 * 2 ^ 32). rewrite DL at 1. rewrite DH at 1.
      set (m := l mod 2 ^ (32 - b)) in *. set (k := l / 2 ^ (32 - b)) in *. set (hm := h mod 2 ^ (32 - b)) in *. set (hk := h / 2 ^ (32 - b)) in *.
      rewrite E2. ring.
Qed.

(** The signed value of an encoding is that of its high word. *)
Lemma s64_words a : 0 <= a < 2 ^ 64 -> s64 a = s32 (dw_high a) * 2 ^ 32 + dw_low a.
Proof.
  intros Ha. destruct (dw_words a Ha) as (Bl & Bh & E). unfold s64, s32. rewrite u64_small, u32_small by lia.
  destruct (Z.ltb_spec a (2 ^ 63)), (Z.ltb_spec (dw_high a) (2 ^ 31)); lia.
Qed.

Lemma s32_mod_pow x b : 0 <= b <= 32 -> s32 x mod 2 ^ b = u32 x mod 2 ^ b.
Proof.
  intros Hb. unfold s32. destruct (u32 x <? 2 ^ 31); [reflexivity|].
  replace (2 ^ 32) with (2 ^ (32 - b) * 2 ^ b) by (rewrite <- Z.pow_add_r by lia; f_equal; lia).
  pose proof (pow2_pos b ltac:(lia)). rewrite <- Z.add_opp_r, <- Z.mul_opp_l, Z.mod_add by lia. reflexivity.
Qed.

Lemma lasr_spec a b : 0 <= a < 2 ^ 64 -> 0 <= b < 64 -> aeabi_lasr a b = u64 (s64 a / 2 ^ b).
Proof.
  intros Ha Hb. rewrite s64_words by exact Ha. unfold aeabi_lasr. destruct (dw_words a Ha) as (Bl & Bh & E).
  set (l := dw_low a) in *. set (h := dw_high a) in *. cbv zeta. pose proof (s32_bound h) as BS.
  assert (forall x m, 0 <= m < 2 ^ 32 -> u64 (x * 2 ^ 32 + m) = pair_val m (u32 x)) as HU.
  { intros x m Hm. unfold pair_val. rewrite u64_mod, u32_mod. symmetry.
    apply (Z.mod_unique _ _ (x / 2 ^ 32)); [left|]; pose proof (Z.mod_pos_bound x (2 ^ 32) ltac:(lia)); pose proof (Z.div_mod x (2 ^ 32)); lia. }
  destruct (Z.leb_spec 32 b) as [H|H].
  - rewrite dw_make_add by apply u32_bound. rewrite !Z.shiftr_div_pow2 by lia.
    replace (2 ^ b) with (2 ^ 32 * 2 ^ (b - 32)) by (rewrite <- Z.pow_add_r by lia; f_equal; lia).
    pose proof (pow2_pos (b - 32) ltac:(lia)). rewrite <- Z.div_div by lia. rewrite Z.div_add_l, (Z.div_small l), Z.add_0_r by lia.
    set (x := s32 h / 2 ^ (b - 32)).
    assert (- 2 ^ 31 <= x < 2 ^ 31) as Bx by (subst x; split; [apply Z.div_le_lower_bound; nia|apply Z.div_lt_upper_bound; nia]).
    assert (s32 h / 2 ^ 31 = if x <? 0 then -1 else 0) as ->.
    { destruct (Z.lt_ge_cases (s32 h) 0) as [Hn|Hn].
      - assert (x < 0) by (subst x; apply Z.div_lt_upper_bound; lia). replace (x <? 0) with true by lia.
        symmetry. apply (Z.div_unique _ _ _ (s32 h + 2 ^ 31)); lia.
      - assert (0 <= x) by (subst x; apply Z.div_pos; lia). replace (x <? 0) with false by lia. apply Z.div_small. lia. }
    unfold pair_val. rewrite u64_mod. destruct (Z.ltb_spec x 0).
    + change (u32 (-1)) with (2 ^ 32 - 1). replace (u32 x) with (x + 2 ^ 32).
      * apply (Z.mod_unique _ _ (-1)); lia.
      * rewrite u32_mod. apply (Z.mod_unique _ _ (-1)); lia.
    + change (u32 0) with 0. rewrite u32_small, Z.mod_small by lia. lia.
  - destruct (Z.eqb_spec b 0) as [->|Hne]; cbn [negb].
    + rewrite Z.div_1_r, HU, u32_s32, (u32_small h) by lia. apply dw_make_add. lia.
    + rewrite Z.lor_comm. replace (l >>> b) with (l >>> (32 - (32 - b))) by (f_equal; lia).
      destruct (join_word h l (32 - b) ltac:(lia) Bh Bl) as [-> J]. replace (32 - (32 - b)) with b in * by lia.
      rewrite dw_make_add by exact J. rewrite shift_right_pair, s32_mod_pow, (u32_small h), HU by lia.
      rewrite Z.shiftr_div_pow2 by lia. reflexivity.
Qed.

(** ** Comparisons *)

Definition cmp_sign (c : comparison) : Z := match c with Lt => -1 | Eq => 0 | Gt => 1 end.

Lemma pair_compare a_lo a_hi b_lo b_hi : 0 <= a_lo < 2 ^ 32 -> 0 <= b_lo < 2 ^ 32 ->
  aeabi_lcmp a_lo a_hi b_lo b_hi = cmp_sign (pair_val a_lo a_hi ?= pair_val b_lo b_hi).
Proof.
  intros Ha Hb. unfold aeabi_lcmp, pair_val. set (x := a_hi * 2 ^ 32 + a_lo). set (y := b_hi * 2 ^ 32 + b_lo).
  destruct (Z.ltb_spec a_hi b_hi); [rewrite (proj2 (Z.compare_lt_iff x y)) by lia; reflexivity|].
  destruct (Z.ltb_spec b_hi a_hi); [rewrite (proj2 (Z.compare_gt_iff x y)) by lia; reflexivity|].
  destruct (Z.ltb_spec a_lo b_lo); [rewrite (proj2 (Z.compare_lt_iff x y)) by lia; reflexivity|].
  destruct (Z.ltb_spec b_lo a_lo); [rewrite (proj2 (Z.compare_gt_iff x y)) by lia; reflexivity|].
  rewrite (proj2 (Z.compare_eq_iff x y)) by lia. reflexivity.
Qed.

(** ** Leading zeros by a moving bit *)

Lemma clz_loop_spec v : 0 < v < 2 ^ 32 -> forall fuel k n, 0 <= k < Z.of_nat fuel -> v < 2 ^ (k + 1) ->
  clz_loop fuel v (2 ^ k) n = n + (k - Z.log2 v).
Proof.
  intros Hv. induction fuel as [|fuel IH]; intros k n Hk Hb; [lia|]. cbn [clz_loop].
  pose proof (truth_testbit v k ltac:(lia)) as T. unfold truth in T. rewrite pow2_S in Hb by lia.
  destruct (Z.eqb_spec (v &&& 2 ^ k) 0) as [E|E]; cbn [negb] in T.
  - assert (v < 2 ^ k) as Hlt.
    { destruct (Z.lt_ge_cases v (2 ^ k)); [assumption|]. rewrite testbit_odd in T by lia.
      replace (v / 2 ^ k) with 1 in T by (apply (Z.div_unique _ _ _ (v - 2 ^ k)); lia). discriminate T. }
    destruct (Z.eq_dec k 0) as [->|]; [cbn in Hlt; lia|].
    rewrite Z.shiftr_div_pow2 by lia. replace (2 ^ k / 2 ^ 1) with (2 ^ (k - 1)) by (rewrite <- Z.pow_sub_r by lia; reflexivity).
    rewrite IH by (rewrite ?Z.sub_add; lia). lia.
  - assert (2 ^ k <= v) as Hle.
    { destruct (Z.le_gt_cases (2 ^ k) v); [assumption|]. rewrite (testbit_above k) in T by lia. discriminate T. }
    replace (Z.log2 v) with k; [lia|]. symmetry. apply Z.log2_unique; [lia|]. rewrite <- Z.add_1_r, pow2_S by lia. lia.
Qed.

Lemma clz_spec x : 0 < u32 x -> aeabi_clz x = 31 - Z.log2 (u32 x).
Proof.
  intros Hx. unfold aeabi_clz. replace (u32 x =? 0) with false by lia. pose proof (u32_bound x).
  change 0x80000000 with (2 ^ 31). rewrite clz_loop_spec; [lia|lia|lia|]. change (2 ^ (31 + 1)) with (2 ^ 32). lia.
Qed.

(** ** The contract *)

(** The 64-bit shifts on word pairs return the quotient, the product modulo
    2^64 and the signed quotient by the power of two for every count from 0 to
    63; the comparisons order word pairs as the numbers they encode, signed or
    unsigned; [__aeabi_clz] counts the leading zeros, 32 of them in 0. *)
Theorem shift_compare_count a b x a_lo a_hi b_lo b_hi :
  0 <= a < 2 ^ 64 -> 0 <= b < 64 -> 0 <= a_lo < 2 ^ 32 -> 0 <= b_lo < 2 ^ 32 ->
  (aeabi_llsr a b = a / 2 ^ b /\ aeabi_llsl a b = u64 (a * 2 ^ b) /\ aeabi_lasr a b = u64 (s64 a / 2 ^ b)) /\
  (aeabi_lcmp a_lo a_hi b_lo b_hi = cmp_sign (pair_val a_lo a_hi ?= pair_val b_lo b_hi) /\
   aeabi_ulcmp a_lo a_hi b_lo b_hi = cmp_sign (pair_val a_lo a_hi ?= pair_val b_lo b_hi)) /\
  aeabi_clz x = if u32 x =? 0 then 32 else 31 - Z.log2 (u32 x).
Proof.
  intros Ha Hb Hal Hbl. split; [split; [apply llsr_spec|split; [apply llsl_spec|apply lasr_spec]]; assumption|].
  split; [split; apply pair_compare; assumption|]. destruct (Z.eqb_spec (u32 x) 0) as [E|E]; [unfold aeabi_clz; rewrite E; reflexivity|].
  apply clz_spec. pose proof (u32_bound x). lia.
Qed.

Lemma shift_compare_count_witness : aeabi_lasr (2 ^ 63) 40 = u64 (- 2 ^ 23) /\ aeabi_lcmp 0xFFFFFFFF (-1) 0 0 = -1 /\ aeabi_clz (-1) = 0.
Proof.
  destruct (shift_compare_count (2 ^ 63) 40 (-1) 0xFFFFFFFF (-1) 0 0 ltac:(lia) ltac:(lia) ltac:(lia) ltac:(lia)) as ((_ & _ & S) & (C & _) & Z).
  split; [rewrite S; reflexivity|split; [exact C|exact Z]].
Defined.
