(* ===== verification/SoftConv.v ===== *)
(** * Conversions of the runtime library

    Float and double to 32-bit integers and back ([src/lib/fp/soft/conv.c],
    [dconv.c]), to 64-bit integers ([conv64.c]), 64-bit integers to float and
    double ([src/lib/armeabi.c]), widening and narrowing ([dconv.c]). *)

From S2P Require Import Prelude.
From S2P Require Import SoftCommon.
From S2P Require Import EabiInt.
Local Open Scope Z_scope.
Local Open Scope c_scope.

(** ** Float to integer *)

Definition aeabi_f2iz (bits : Z) : Z :=
  let sign := float_sign bits in
  let exp := float_exp bits in
  let mant := float_mant bits in
  if exp =? 0xFF then 0
  else if exp =? 0 then 0
  else
    let mant := mant ||| FLOAT_IMPLICIT_BIT in
    let actual_exp := exp - FLOAT_EXP_BIAS in
    if actual_exp <? 0 then 0
    else if 31 <=? actual_exp then (if truth sign then s32 0x80000000 else 0x7FFFFFFF)
    else
      let shift := actual_exp - 23 in
      let result := if 0 <=? shift then mant <<< shift else mant >>> (- shift) in
      if truth sign then s32 (- s32 result) else s32 result.

Definition aeabi_f2uiz (bits : Z) : Z :=
  let sign := float_sign bits in
  let exp := float_exp bits in
  let mant := float_mant bits in
  if truth sign then 0
  else if exp =? 0xFF then 0
  else if exp =? 0 then 0
  else
    let mant := mant ||| FLOAT_IMPLICIT_BIT in
    let actual_exp := exp - FLOAT_EXP_BIAS in
    if actual_exp <? 0 then 0
    else if 32 <=? actual_exp then 0xFFFFFFFF
    else
      let shift := actual_exp - 23 in
      if 0 <=? shift then mant <<< shift else mant >>> (- shift).

Definition aeabi_f2ulz (bits : Z) : Z :=
  let sign := float_sign bits in
  let exp := float_exp bits in
  let mant := float_mant bits in
  if truth sign then 0
  else if exp =? 0xFF then 0
  else if exp =? 0 then 0
  else
    let mant := mant ||| FLOAT_IMPLICIT_BIT in
    let actual_exp := exp - FLOAT_EXP_BIAS in
    if actual_exp <? 0 then 0
    else if 64 <=? actual_exp then Z.ones 64
    else
      let shift := actual_exp - 23 in
      if 0 <=? shift then (if 64 <=? shift then Z.ones 64 else shl64 mant shift) else mant >>> (- shift).

Definition aeabi_f2lz (bits : Z) : Z :=
  let sign := float_sign bits in
  let exp := float_exp bits in
  let mant := float_mant bits in
  if exp =? 0xFF then 0
  else if exp =? 0 then 0
  else
    let mant := mant ||| FLOAT_IMPLICIT_BIT in
    let actual_exp := exp - FLOAT_EXP_BIAS in
    if actual_exp <? 0 then 0
    else if 63 <=? actual_exp then (if truth sign then s64 0x8000000000000000 else s64 0x7FFFFFFFFFFFFFFF)
    else
      let shift := actual_exp - 23 in
      let magnitude := if 0 <=? shift then shl64 mant shift else mant >>> (- shift) in
      if truth sign then s64 (- s64 magnitude) else s64 magnitude.

(** ** Double to integer *)

Definition aeabi_d2iz (bits : Z) : Z :=
  let sign := double_sign bits in
  let exp := double_exp bits in
  let mant := double_mant bits in
  if exp =? 0x7FF then 0
  else if exp =? 0 then 0
  else
    let mant := mant ||| DOUBLE_IMPLICIT_BIT in
    let actual_exp := exp - DOUBLE_EXP_BIAS in
    if actual_exp <? 0 then 0
    else if 31 <=? actual_exp then (if truth sign then s32 0x80000000 else 0x7FFFFFFF)
    else
      let shift := actual_exp - 52 in
      let result := if 0 <=? shift then u32 (aeabi_llsl mant shift) else u32 (aeabi_llsr mant (- shift)) in
      if truth sign then s32 (- s32 result) else s32 result.

Definition aeabi_d2uiz (bits : Z) : Z :=
  let sign := double_sign bits in
  let exp := double_exp bits in
  let mant := double_mant bits in
  if truth sign then 0
  else if exp =? 0x7FF then 0
  else if exp =? 0 then 0
  else
    let mant := mant ||| DOUBLE_IMPLICIT_BIT in
    let actual_exp := exp - DOUBLE_EXP_BIAS in
    if actual_exp <? 0 then 0
    else if 32 <=? actual_exp then 0xFFFFFFFF
    else
      let shift := actual_exp - 52 in
      if 0 <=? shift then u32 (aeabi_llsl mant shift) else u32 (aeabi_llsr mant (- shift)).

Definition aeabi_d2ulz (bits : Z) : Z :=
  let sign := double_sign bits in
  let exp := double_exp bits in
  let mant := double_mant bits in
  if truth sign then 0
  else if exp =? 0x7FF then 0
  else if exp =? 0 then 0
  else
    let mant := mant ||| DOUBLE_IMPLICIT_BIT in
    let actual_exp := exp - DOUBLE_EXP_BIAS in
    if actual_exp <? 0 then 0
    else if 64 <=? actual_exp then Z.ones 64
    else
      let shift := actual_exp - 52 in
      if 0 <=? shift then (if 64 <=? shift then Z.ones 64 else aeabi_llsl mant shift) else aeabi_llsr mant (- shift).

Definition aeabi_d2lz (bits : Z) : Z :=
  let sign := double_sign bits in
  let exp := double_exp bits in
  let mant := double_mant bits in
  if exp =? 0x7FF then 0
  else if exp =? 0 then 0
  else
    let mant := mant ||| DOUBLE_IMPLICIT_BIT in
    let actual_exp := exp - DOUBLE_EXP_BIAS in
    if actual_exp <? 0 then 0
    else if 63 <=? actual_exp then (if truth sign then s64 0x8000000000000000 else s64 0x7FFFFFFFFFFFFFFF)
    else
      let shift := actual_exp - 52 in
      let magnitude := if 0 <=? shift then aeabi_llsl mant shift else aeabi_llsr mant (- shift) in
      if truth sign then s64 (- s64 magnitude) else s64 magnitude.

(** ** Integer to float and double *)

(** The alignment and rounding shared by the two 32-bit conversions. *)
Definition round_int_f (sign abs_a : Z) : Z :=
  let leading_zeros := clz32 abs_a in
  let msb_pos := 31 - leading_zeros in
  let shift := (23 + SFP_GRS) - msb_pos in
  let mant := if 0 <=? shift then abs_a <<< shift else sfp_shr_sticky32 abs_a (- shift) in
  sfp_round_pack_float sign (FLOAT_EXP_BIAS + msb_pos) mant.

Definition aeabi_i2f (a : Z) : Z :=
  if a =? 0 then 0
  else
    let '(sign, abs_a) := if a <? 0 then (1, u32 (0 - u32 a)) else (0, u32 a) in
    round_int_f sign abs_a.

Definition aeabi_ui2f (a : Z) : Z := if a =? 0 then 0 else round_int_f 0 a.

(** The exact placement of a 32-bit magnitude in a double. *)
Definition place_int_d (sign abs_a : Z) : Z :=
  let leading_zeros := clz32 abs_a in
  let msb_pos := 31 - leading_zeros in
  let exp := DOUBLE_EXP_BIAS + msb_pos in
  let mant := aeabi_llsl abs_a (52 - msb_pos) in
  let mant := mant &&& DOUBLE_MANT_MASK in
  make_double sign exp mant.

(** [-a] overflows for [INT_MIN]; the wrapped value is what the targets compute. *)
Definition aeabi_i2d (a : Z) : Z :=
  if a =? 0 then 0
  else
    let '(sign, abs_a) := if a <? 0 then (1, u32 (- a)) else (0, u32 a) in
    place_int_d sign abs_a.

Definition aeabi_ui2d (a : Z) : Z := if a =? 0 then 0 else place_int_d 0 a.

(** ** 64-bit integer to float and double *)

Definition armeabi_clz32 (x : Z) : Z :=
  if x =? 0 then 32
  else
    let '(n, x) := if x &&& 0xFFFF0000 =? 0 then (16, x <<< 16) else (0, x) in
    let '(n, x) := if x &&& 0xFF000000 =? 0 then (n + 8, x <<< 8) else (n, x) in
    let '(n, x) := if x &&& 0xF0000000 =? 0 then (n + 4, x <<< 4) else (n, x) in
    let '(n, x) := if x &&& 0xC0000000 =? 0 then (n + 2, x <<< 2) else (n, x) in
    if x &&& 0x80000000 =? 0 then n + 1 else n.

Definition armeabi_msb64 (a : Z) : Z :=
  let hi := u32 (a >>> 32) in
  if negb (hi =? 0) then 63 - armeabi_clz32 hi else 31 - armeabi_clz32 (u32 a).

(** The body of [__aeabi_ul2f] and [__aeabi_l2f] on a non-zero magnitude. *)
Definition round_mag_f (sign mag : Z) : Z :=
  let msb := armeabi_msb64 mag in
  let exp := 127 + msb in
  if msb <=? 23 then
    let mant := (u32 mag <<< (23 - msb)) &&& 0x7FFFFF in
    sign ||| (u32 exp <<< 23) ||| mant
  else
    let shift := msb - 23 in
    let mant := u32 (mag >>> shift) in
    let dropped_mask := u64 (shl64 1 shift - 1) in
    let dropped := mag &&& dropped_mask in
    let half := shl64 1 (shift - 1) in
    let '(mant, exp) :=
      if (half <? dropped) || ((dropped =? half) && truth (mant &&& 1)) then
        let mant := u32 (mant + 1) in
        if mant =? (1 <<< 24) then (1 <<< 23, exp + 1) else (mant, exp)
      else (mant, exp) in
    let mant := mant &&& 0x7FFFFF in
    sign ||| (u32 exp <<< 23) ||| mant.

Definition aeabi_ul2f (a : Z) : Z := if a =? 0 then 0 else round_mag_f 0 a.

Definition aeabi_l2f (a : Z) : Z :=
  if a =? 0 then 0
  else
    let '(sign, mag) := if a <? 0 then (0x80000000, u64 (- u64 a)) else (0, u64 a) in
    round_mag_f sign mag.

(** The body of [__aeabi_ul2d] and [__aeabi_l2d] on a non-zero magnitude. *)
Definition round_mag_d (sign mag : Z) : Z :=
  let msb := armeabi_msb64 mag in
  let exp := 1023 + msb in
  if msb <=? 52 then
    let mant := shl64 mag (52 - msb) &&& 0xFFFFFFFFFFFFF in
    sign ||| shl64 exp 52 ||| mant
  else
    let shift := msb - 52 in
    let mant := mag >>> shift in
    let dropped_mask := u64 (shl64 1 shift - 1) in
    let dropped := mag &&& dropped_mask in
    let half := shl64 1 (shift - 1) in
    let '(mant, exp) :=
      if (half <? dropped) || ((dropped =? half) && truth (mant &&& 1)) then
        let mant := u64 (mant + 1) in
        if mant =? shl64 1 53 then (shl64 1 52, exp + 1) else (mant, exp)
      else (mant, exp) in
    let mant := mant &&& 0xFFFFFFFFFFFFF in
    sign ||| shl64 exp 52 ||| mant.

Definition aeabi_ul2d (a : Z) : Z := if a =? 0 then 0 else round_mag_d 0 a.

Definition aeabi_l2d (a : Z) : Z :=
  if a =? 0 then 0
  else
    let '(sign, mag) := if a <? 0 then (0x8000000000000000, u64 (- u64 a)) else (0, u64 a) in
    round_mag_d sign mag.

(** ** Widening and narrowing *)

(** The words of the result, [hi] first in the code. *)
Definition aeabi_f2d_bits (bits : Z) : Z :=
  let sign := (bits >>> 31) &&& 1 in
  let exp := (bits >>> 23) &&& 0xFF in
  let mant := bits &&& FLOAT_MANT_MASK in
  if exp =? 0xFF then
    dw_make (mant <<< 29) ((u32 sign <<< 31) ||| 0x7FF00000 ||| (mant >>> 3))
  else if (exp =? 0) && (mant =? 0) then dw_make 0 (u32 sign <<< 31)
  else if exp =? 0 then
    let msb_pos := 31 - clz32 mant in
    let sub_exp := DOUBLE_EXP_BIAS - FLOAT_EXP_BIAS + 1 + msb_pos - 23 in
    let dmant := aeabi_llsl mant (52 - msb_pos) &&& DOUBLE_MANT_MASK in
    dw_make (u32 dmant) ((u32 sign <<< 31) ||| (u32 sub_exp <<< 20) ||| u32 (dmant >>> 32))
  else
    let new_exp := exp - FLOAT_EXP_BIAS + DOUBLE_EXP_BIAS in
    dw_make (mant <<< 29) ((u32 sign <<< 31) ||| (u32 new_exp <<< 20) ||| (mant >>> 3)).

Definition aeabi_d2f (bits : Z) : Z :=
  let sign := double_sign bits in
  let exp := double_exp bits in
  let mant := double_mant bits in
  if exp =? 0x7FF then (u32 sign <<< 31) ||| 0x7F800000 ||| (u32 (aeabi_llsr mant 29) &&& FLOAT_MANT_MASK)
  else if (exp =? 0) && (mant =? 0) then u32 sign <<< 31
  else
    let '(sig, src_exp) := if negb (exp =? 0) then (mant ||| DOUBLE_IMPLICIT_BIT, exp) else (mant, 1) in
    let new_exp := src_exp - DOUBLE_EXP_BIAS + FLOAT_EXP_BIAS in
    let new_mant := u32 (sfp_shr_sticky64 sig (52 - (23 + SFP_GRS))) in
    sfp_round_pack_float sign new_exp new_mant.

Example i2f_max : aeabi_i2f 2147483647 = 0x4F000000.
Proof. vm_compute. reflexivity. Qed.
Example l2d_min : aeabi_l2d (- 2 ^ 63) = 0xC3E0000000000000.
Proof. vm_compute. reflexivity. Qed.
Example f2d_subnormal : aeabi_f2d_bits 1 = 0x36A0000000000000.
Proof. vm_compute. reflexivity. Qed.
Example d2f_third : aeabi_d2f 0x3FD5555555555555 = 0x3EAAAAAB.
Proof. vm_compute. reflexivity. Qed.
