(* ===== verification/SoftConvInt.v ===== *)
(** * Conversions to integers truncate and saturate *)

From S2P Require Import Prelude.
From S2P Require Import FpSpec.
From S2P Require Import SoftCommon.
From S2P Require Import SoftRound.
From S2P Require Import SoftUnpack.
From S2P Require Import SoftFloat.
From S2P Require Import SoftDoubleArith.
From S2P Require Import EabiInt.
From S2P Require Import EabiDiv.
From S2P Require Import EabiShift.
From S2P Require Import SoftConv.
Local Open Scope Z_scope.
Local Open Scope c_scope.

(** The value truncated towards zero and clamped to the integer type; NaNs and
    infinities convert to 0. *)
Definition clamp (lo hi x : Z) : Z := Z.max lo (Z.min hi x).

Definition to_int (p w lo hi : Z) (c : fp_class) : Z :=
  match c with
  | FNaN | FInf _ => 0
  | FFin s m => clamp lo hi (signed s (m / fp_one p w))
  end.

(** ** The integer part of a finite value *)

Definition bias (w : Z) : Z := 2 ^ (w - 1) - 1.

(** A number at unbiased exponent [x >= 0] has integer part in [[2^x, 2^(x+1))]. *)
Definition int_part (p M x : Z) : Z := if 0 <=? x - p then M * 2 ^ (x - p) else M / 2 ^ (- (x - p)).

Section Trunc.
Context (p w : Z) (Hp : 1 <= p) (Hw : 2 <= w).

Lemma fp_one_pow : fp_one p w = 2 ^ (bias w - 1 + p) /\ 1 <= bias w.
Proof using Hp Hw.
  unfold fp_one, bias. pose proof (Z.pow_le_mono_r 2 1 (w - 1) ltac:(lia) ltac:(lia)). split; [f_equal; lia|lia].
Qed.

Lemma trunc_subnormal m : 0 <= m < 2 ^ p -> fin_val p 0 m / fp_one p w = 0.
Proof using Hp Hw.
  intros Hm. cbn. destruct fp_one_pow as [-> Hb]. apply Z.div_small.
  pose proof (Z.pow_le_mono_r 2 p (bias w - 1 + p) ltac:(lia) ltac:(lia)). lia.
Qed.

Lemma trunc_small e m : 1 <= e -> 0 <= m < 2 ^ p -> e - bias w < 0 -> fin_val p e m / fp_one p w = 0.
Proof using Hp Hw.
  intros He Hm Hx. unfold fin_val. replace (e =? 0) with false by lia. destruct fp_one_pow as [-> Hb]. apply Z.div_small.
  pose proof (pow2_pos (e - 1) ltac:(lia)). split; [nia|].
  assert (2 ^ (bias w - 1 + p) = 2 ^ (p + 1) * 2 ^ (e - 1) * 2 ^ (bias w - e - 1)) as ->.
  { rewrite <- !Z.pow_add_r by lia. f_equal. lia. }
  pose proof (pow2_pos (bias w - e - 1) ltac:(lia)). rewrite pow2_S by lia. nia.
Qed.

Lemma trunc_normal e m : 1 <= e -> 0 <= m < 2 ^ p -> 0 <= e - bias w ->
  fin_val p e m / fp_one p w = int_part p (m + 2 ^ p) (e - bias w) /\
  2 ^ (e - bias w) <= fin_val p e m / fp_one p w < 2 ^ (e - bias w + 1).
Proof using Hp Hw.
  intros He Hm Hx. unfold fin_val. replace (e =? 0) with false by lia. destruct fp_one_pow as [-> Hb].
  set (x := e - bias w) in *. set (M := m + 2 ^ p). assert (2 ^ p <= M < 2 * 2 ^ p) as BM by (subst M; lia).
  assert (M * 2 ^ (e - 1) / 2 ^ (bias w - 1 + p) = int_part p M x) as E.
  { unfold int_part. destruct (Z.leb_spec 0 (x - p)).
    - replace (2 ^ (e - 1)) with (2 ^ (x - p) * 2 ^ (bias w - 1 + p)) by (rewrite <- Z.pow_add_r by lia; f_equal; lia).
      rewrite Z.mul_assoc. apply Z.div_mul. apply Z.pow_nonzero; lia.
    - replace (2 ^ (bias w - 1 + p)) with (2 ^ (- (x - p)) * 2 ^ (e - 1)) by (rewrite <- Z.pow_add_r by lia; f_equal; lia).
      apply Z.div_mul_cancel_r; apply Z.pow_nonzero; lia. }
  rewrite E. split; [reflexivity|]. unfold int_part. rewrite pow2_S by lia. destruct (Z.leb_spec 0 (x - p)).
  - replace (2 ^ x) with (2 ^ p * 2 ^ (x - p)) by (rewrite <- Z.pow_add_r by lia; f_equal; lia).
    pose proof (pow2_pos (x - p) ltac:(lia)). nia.
  - assert (2 ^ p = 2 ^ x * 2 ^ (- (x - p))) as EP by (rewrite <- Z.pow_add_r by lia; f_equal; lia).
    pose proof (pow2_pos (- (x - p)) ltac:(lia)). split; [apply Z.div_le_lower_bound|apply Z.div_lt_upper_bound]; lia.
Qed.

(** Saturation: out of range exactly from exponent [k] on. *)
Lemma clamp_signed s k t x : 0 <= k -> 2 ^ x <= t < 2 ^ (x + 1) -> 0 <= x ->
  clamp (- 2 ^ k) (2 ^ k - 1) (signed s t) = if k <=? x then (if s then - 2 ^ k else 2 ^ k - 1) else signed s t.
Proof using.
  clear. intros Hk Ht Hx. unfold clamp. destruct (Z.leb_spec k x).
  - pose proof (Z.pow_le_mono_r 2 k x ltac:(lia) ltac:(lia)). destruct s; cbn [signed]; lia.
  - pose proof (Z.pow_le_mono_r 2 (x + 1) k ltac:(lia) ltac:(lia)). pose proof (pow2_pos x ltac:(lia)). destruct s; cbn [signed]; lia.
Qed.

Lemma clamp_unsigned s k t x : 0 <= k -> 2 ^ x <= t < 2 ^ (x + 1) -> 0 <= x ->
  clamp 0 (2 ^ k - 1) (signed s t) = if s then 0 else if k <=? x then 2 ^ k - 1 else t.
Proof using.
  clear. intros Hk Ht Hx. unfold clamp. pose proof (pow2_pos x ltac:(lia)). pose proof (pow2_pos k ltac:(lia)).
  destruct s; cbn [signed]; [lia|]. destruct (Z.leb_spec k x).
  - pose proof (Z.pow_le_mono_r 2 k x ltac:(lia) ltac:(lia)). lia.
  - pose proof (Z.pow_le_mono_r 2 (x + 1) k ltac:(lia) ltac:(lia)). lia.
Qed.

End Trunc.

Lemma clamp_0 lo hi s : lo <= 0 <= hi -> clamp lo hi (signed s 0) = 0.
Proof. intros. unfold clamp. destruct s; cbn [signed]; lia. Qed.

(** ** The shape of the signed and unsigned conversions *)

Definition conv_signed (k emax eb p sign exp mant : Z) (place out : Z -> Z -> Z) : Z :=
  if exp =? emax then 0
  else if exp =? 0 then 0
  else if exp - eb <? 0 then 0
  else if k <=? exp - eb then (if truth sign then - 2 ^ k else 2 ^ k - 1)
  else out sign (place (mant ||| 2 ^ p) (exp - eb - p)).

Definition conv_unsigned (k emax eb p sign exp mant : Z) (place : Z -> Z -> Z) : Z :=
  if truth sign then 0
  else if exp =? emax then 0
  else if exp =? 0 then 0
  else if exp - eb <? 0 then 0
  else if k <=? exp - eb then 2 ^ k - 1
  else place (mant ||| 2 ^ p) (exp - eb - p).

(** [place M shift] puts the significand at its integer position. *)
Definition places (k p : Z) (place : Z -> Z -> Z) : Prop :=
  forall M x, 2 ^ p <= M < 2 ^ (p + 1) -> 0 <= x < k -> int_part p M x < 2 ^ k -> place M (x - p) = int_part p M x.

(** [out s r] applies the sign to a magnitude that fits. *)
Definition outputs (k : Z) (out : Z -> Z -> Z) : Prop := forall s r, 0 <= r < 2 ^ k -> out s r = signed (truth s) r.

Lemma conv_signed_spec p w k bits s e m place out : 1 <= p -> 2 <= w -> 0 <= k -> fields p w bits s e m -> places k p place -> outputs k out ->
  conv_signed k (2 ^ w - 1) (bias w) p s e m place out = to_int p w (- 2 ^ k) (2 ^ k - 1) (classify p w bits).
Proof.
  intros Hp Hw Hk F HP HO. rewrite (classify_fields p w Hp Hw _ _ _ _ F). destruct F as (_ & Hs & He & Hm). unfold conv_signed.
  pose proof (pow2_pos k Hk) as Pk. destruct (e =? 2 ^ w - 1); [destruct (m =? 0); reflexivity|]. cbn [to_int].
  destruct (Z.eqb_spec e 0) as [->|Hne]; [rewrite trunc_subnormal, clamp_0 by lia; reflexivity|].
  destruct (Z.ltb_spec (e - bias w) 0) as [Hx|Hx]; [rewrite trunc_small, clamp_0 by lia; reflexivity|].
  destruct (trunc_normal p w Hp Hw e m ltac:(lia) Hm Hx) as [E B].
  rewrite (clamp_signed _ _ _ (e - bias w)) by lia. destruct (Z.leb_spec k (e - bias w)) as [Hge|Hlt]; [reflexivity|].
  pose proof (Z.pow_le_mono_r 2 (e - bias w + 1) k ltac:(lia) ltac:(lia)) as Pk2. pose proof (pow2_pos (e - bias w) Hx).
  rewrite lor_implicit, HP by (rewrite ?pow2_S, <- ?E; lia). rewrite <- E. apply HO. lia.
Qed.

Lemma conv_unsigned_spec p w k bits s e m place : 1 <= p -> 2 <= w -> 0 <= k -> fields p w bits s e m -> places k p place ->
  conv_unsigned k (2 ^ w - 1) (bias w) p s e m place = to_int p w 0 (2 ^ k - 1) (classify p w bits).
Proof.
  intros Hp Hw Hk F HP. rewrite (classify_fields p w Hp Hw _ _ _ _ F). destruct F as (_ & Hs & He & Hm). unfold conv_unsigned.
  pose proof (pow2_pos k Hk) as Pk. destruct (e =? 2 ^ w - 1); [destruct (m =? 0), (truth s); reflexivity|]. cbn [to_int].
  destruct (Z.eqb_spec e 0) as [->|Hne]; [rewrite trunc_subnormal, clamp_0 by lia; destruct (truth s); reflexivity|].
  destruct (Z.ltb_spec (e - bias w) 0) as [Hx|Hx]; [rewrite trunc_small, clamp_0 by lia; destruct (truth s); reflexivity|].
  destruct (trunc_normal p w Hp Hw e m ltac:(lia) Hm Hx) as [E B].
  rewrite (clamp_unsigned _ _ _ (e - bias w)) by lia. destruct (truth s); [reflexivity|].
  destruct (Z.leb_spec k (e - bias w)) as [Hge|Hlt]; [reflexivity|].
  pose proof (Z.pow_le_mono_r 2 (e - bias w + 1) k ltac:(lia) ltac:(lia)) as Pk2.
  rewrite lor_implicit, HP by (rewrite ?pow2_S, <- ?E; lia). symmetry. exact E.
Qed.

(** ** The conversions *)

Definition out32 (sign r : Z) : Z := if truth sign then s32 (- s32 r) else s32 r.
Definition out64 (sign r : Z) : Z := if truth sign then s64 (- s64 r) else s64 r.

Lemma s64_small x : - 2 ^ 63 <= x < 2 ^ 63 -> s64 x = x.
Proof.
  intros Hx. unfold s64. rewrite u64_mod. destruct (Z.lt_ge_cases x 0).
  - replace x with (x + 2 ^ 64 + -1 * 2 ^ 64) by lia. rewrite Z.mod_add, Z.mod_small by lia.
    replace (x + 2 ^ 64 <? 2 ^ 63) with false by lia. lia.
  - rewrite Z.mod_small by lia. replace (x <? 2 ^ 63) with true by lia. reflexivity.
Qed.

Lemma out32_ok : outputs 31 out32.
Proof. intros s r Hr. unfold out32. rewrite (s32_small r) by lia. destruct (truth s); [rewrite s32_small by lia|]; reflexivity. Qed.
Lemma out64_ok : outputs 63 out64.
Proof. intros s r Hr. unfold out64. rewrite (s64_small r) by lia. destruct (truth s); [rewrite s64_small by lia|]; reflexivity. Qed.

(** The three ways the routines place the significand. *)
Lemma place_shl32 k p : 1 <= p < 32 -> k <= 32 -> places k p (fun M sh => if 0 <=? sh then M <<< sh else M >>> (- sh)).
Proof.
  intros Hp Hk M x HM Hx Hi. unfold int_part in *. cbv beta. destruct (Z.leb_spec 0 (x - p)); [|apply Z.shiftr_div_pow2; lia].
  pose proof (Z.pow_le_mono_r 2 k 32 ltac:(lia) ltac:(lia)). pose proof (pow2_pos (x - p) ltac:(lia)). pose proof (pow2_pos p ltac:(lia)).
  apply shl32_mul; nia.
Qed.

Lemma place_shl64 k p : 1 <= p < 64 -> k <= 64 -> places k p (fun M sh => if 0 <=? sh then shl64 M sh else M >>> (- sh)).
Proof.
  intros Hp Hk M x HM Hx Hi. unfold int_part in *. cbv beta. destruct (Z.leb_spec 0 (x - p)); [|apply Z.shiftr_div_pow2; lia].
  pose proof (Z.pow_le_mono_r 2 k 64 ltac:(lia) ltac:(lia)). pose proof (pow2_pos (x - p) ltac:(lia)). pose proof (pow2_pos p ltac:(lia)).
  apply shl64_mul; nia.
Qed.

Lemma place_call k p : 1 <= p < 63 -> k <= 64 -> places k p (fun M sh => if 0 <=? sh then aeabi_llsl M sh else aeabi_llsr M (- sh)).
Proof.
  intros Hp Hk M x HM Hx Hi. unfold int_part in *. cbv beta. pose proof (pow2_pos p ltac:(lia)).
  pose proof (Z.pow_le_mono_r 2 (p + 1) 64 ltac:(lia) ltac:(lia)). destruct (Z.leb_spec 0 (x - p)); [|apply llsr_spec; lia].
  pose proof (Z.pow_le_mono_r 2 k 64 ltac:(lia) ltac:(lia)). pose proof (pow2_pos (x - p) ltac:(lia)).
  rewrite llsl_spec by lia. apply u64_small. nia.
Qed.

Lemma place_trunc k p : 1 <= p < 63 -> k <= 32 ->
  places k p (fun M sh => if 0 <=? sh then u32 (aeabi_llsl M sh) else u32 (aeabi_llsr M (- sh))).
Proof.
  intros Hp Hk M x HM Hx Hi. pose proof (place_call k p Hp ltac:(lia) M x HM Hx Hi) as E. cbv beta in *.
  assert (0 <= int_part p M x < 2 ^ 32) as B.
  { pose proof (Z.pow_le_mono_r 2 k 32 ltac:(lia) ltac:(lia)). pose proof (pow2_pos p ltac:(lia)). split; [|lia]. unfold int_part.
    destruct (Z.leb_spec 0 (x - p)); [pose proof (pow2_pos (x - p)); nia|apply Z.div_pos; [lia|apply pow2_pos; lia]]. }
  destruct (0 <=? x - p); rewrite E; apply u32_small, B.
Qed.

Lemma f2iz_spec a : 0 <= a < 2 ^ 32 -> aeabi_f2iz a = to_int 23 8 (- 2 ^ 31) (2 ^ 31 - 1) (classify 23 8 a).
Proof.
  intros Ha. rewrite <- (conv_signed_spec 23 8 31 a _ _ _ _ out32 ltac:(lia) ltac:(lia) ltac:(lia) (float_fields a Ha) (place_shl32 31 23 ltac:(lia) ltac:(lia)) out32_ok).
  reflexivity.
Qed.

Lemma f2uiz_spec a : 0 <= a < 2 ^ 32 -> aeabi_f2uiz a = to_int 23 8 0 (2 ^ 32 - 1) (classify 23 8 a).
Proof.
  intros Ha. rewrite <- (conv_unsigned_spec 23 8 32 a _ _ _ _ ltac:(lia) ltac:(lia) ltac:(lia) (float_fields a Ha) (place_shl32 32 23 ltac:(lia) ltac:(lia))).
  reflexivity.
Qed.

Lemma f2lz_spec a : 0 <= a < 2 ^ 32 -> aeabi_f2lz a = to_int 23 8 (- 2 ^ 63) (2 ^ 63 - 1) (classify 23 8 a).
Proof.
  intros Ha. rewrite <- (conv_signed_spec 23 8 63 a _ _ _ _ out64 ltac:(lia) ltac:(lia) ltac:(lia) (float_fields a Ha) (place_shl64 63 23 ltac:(lia) ltac:(lia)) out64_ok).
  reflexivity.
Qed.

Lemma d2iz_spec a : 0 <= a < 2 ^ 64 -> aeabi_d2iz a = to_int 52 11 (- 2 ^ 31) (2 ^ 31 - 1) (classify 52 11 a).
Proof.
  intros Ha. rewrite <- (conv_signed_spec 52 11 31 a _ _ _ _ out32 ltac:(lia) ltac:(lia) ltac:(lia) (double_fields a Ha) (place_trunc 31 52 ltac:(lia) ltac:(lia)) out32_ok).
  reflexivity.
Qed.

Lemma d2uiz_spec a : 0 <= a < 2 ^ 64 -> aeabi_d2uiz a = to_int 52 11 0 (2 ^ 32 - 1) (classify 52 11 a).
Proof.
  intros Ha. rewrite <- (conv_unsigned_spec 52 11 32 a _ _ _ _ ltac:(lia) ltac:(lia) ltac:(lia) (double_fields a Ha) (place_trunc 32 52 ltac:(lia) ltac:(lia))).
  reflexivity.
Qed.

Lemma d2lz_spec a : 0 <= a < 2 ^ 64 -> aeabi_d2lz a = to_int 52 11 (- 2 ^ 63) (2 ^ 63 - 1) (classify 52 11 a).
Proof.
  intros Ha. rewrite <- (conv_signed_spec 52 11 63 a _ _ _ _ out64 ltac:(lia) ltac:(lia) ltac:(lia) (double_fields a Ha) (place_call 63 52 ltac:(lia) ltac:(lia)) out64_ok).
  reflexivity.
Qed.

(** The guarded placements of the unsigned 64-bit conversions: the inner guard never fires. *)
Lemma place_guard k p (shl shr : Z -> Z -> Z) (c : Z) : 1 <= p -> k <= 64 ->
  places k p (fun M sh => if 0 <=? sh then shl M sh else shr M (- sh)) ->
  places k p (fun M sh => if 0 <=? sh then (if 64 <=? sh then c else shl M sh) else shr M (- sh)).
Proof. intros Hp Hk HP M x HM Hx Hi. cbv beta. replace (64 <=? x - p) with false by lia. exact (HP M x HM Hx Hi). Qed.

Lemma f2ulz_spec a : 0 <= a < 2 ^ 32 -> aeabi_f2ulz a = to_int 23 8 0 (2 ^ 64 - 1) (classify 23 8 a).
Proof.
  intros Ha. rewrite <- (conv_unsigned_spec 23 8 64 a _ _ _ _ ltac:(lia) ltac:(lia) ltac:(lia) (float_fields a Ha)
    (place_guard 64 23 shl64 Z.shiftr (Z.ones 64) ltac:(lia) ltac:(lia) (place_shl64 64 23 ltac:(lia) ltac:(lia)))).
  reflexivity.
Qed.

Lemma d2ulz_spec a : 0 <= a < 2 ^ 64 -> aeabi_d2ulz a = to_int 52 11 0 (2 ^ 64 - 1) (classify 52 11 a).
Proof.
  intros Ha. rewrite <- (conv_unsigned_spec 52 11 64 a _ _ _ _ ltac:(lia) ltac:(lia) ltac:(lia) (double_fields a Ha)
    (place_guard 64 52 aeabi_llsl aeabi_llsr (Z.ones 64) ltac:(lia) ltac:(lia) (place_call 64 52 ltac:(lia) ltac:(lia)))).
  reflexivity.
Qed.

(** ** The contract *)

(** Every conversion of a float or a double to an integer returns the value
    truncated towards zero when the type holds it, the nearest bound of the type
    when it does not, and 0 for NaNs and infinities; in particular a negative
    value gives 0 in an unsigned type. *)
Theorem to_int_saturates a b : 0 <= a < 2 ^ 32 -> 0 <= b < 2 ^ 64 ->
  let f lo hi := to_int 23 8 lo hi (classify 23 8 a) in
  let d lo hi := to_int 52 11 lo hi (classify 52 11 b) in
  (aeabi_f2iz a = f (- 2 ^ 31) (2 ^ 31 - 1) /\ aeabi_f2uiz a = f 0 (2 ^ 32 - 1) /\
   aeabi_f2lz a = f (- 2 ^ 63) (2 ^ 63 - 1) /\ aeabi_f2ulz a = f 0 (2 ^ 64 - 1)) /\
  (aeabi_d2iz b = d (- 2 ^ 31) (2 ^ 31 - 1) /\ aeabi_d2uiz b = d 0 (2 ^ 32 - 1) /\
   aeabi_d2lz b = d (- 2 ^ 63) (2 ^ 63 - 1) /\ aeabi_d2ulz b = d 0 (2 ^ 64 - 1)).
Proof.
  intros Ha Hb. cbv zeta.
  rewrite (f2iz_spec a Ha), (f2uiz_spec a Ha), (f2lz_spec a Ha), (f2ulz_spec a Ha), (d2iz_spec b Hb), (d2uiz_spec b Hb), (d2lz_spec b Hb), (d2ulz_spec b Hb).
  repeat split.
Qed.

Lemma to_int_saturates_witness : aeabi_f2iz 0xC0200000 = -2 /\ aeabi_d2uiz 0x41F0000000000000 = 2 ^ 32 - 1.
Proof.
  destruct (to_int_saturates 0xC0200000 0x41F0000000000000 ltac:(lia) ltac:(lia)) as [(F & _) (_ & D & _)].
  split; [rewrite F|rewrite D]; vm_compute; reflexivity.
Defined.
