(* ===== verification/SoftConvFp.v ===== *)
(** * Conversions from integers, widening and narrowing *)

From S2P Require Import Prelude.
From S2P Require Import FpSpec.
From S2P Require Import SoftCommon.
From S2P Require Import SoftRound.
From S2P Require Import SoftUnpack.
From S2P Require Import SoftFloat.
From S2P Require Import SoftDoubleArith.
From S2P Require Import EabiInt.
From S2P Require Import EabiDiv.
From S2P Require Import EabiShift.
From S2P Require Import SoftConv.
Local Open Scope Z_scope.
Local Open Scope c_scope.

(** ** 32-bit integers *)

Lemma sticky_0 m : sticky m 0 = m.
Proof. unfold sticky. rewrite Z.div_1_r, Z.mod_1_r. apply Z.lor_0_r. Qed.

Lemma exact_int x s : 0 <= s -> exact (x * 2 ^ s) 1 s x.
Proof. intros Hs. unfold exact. rewrite vcmp_nonneg by lia. apply Z.compare_eq_iff. lia. Qed.

Lemma log2_range x k : 0 < x < 2 ^ k -> 0 <= Z.log2 x < k /\ 2 ^ Z.log2 x <= x < 2 ^ (Z.log2 x + 1).
Proof.
  intros Hx. pose proof (Z.log2_spec x ltac:(lia)) as [L1 L2]. rewrite <- Z.add_1_r in L2. pose proof (Z.log2_nonneg x).
  assert (0 <= k) by (destruct (Z.le_gt_cases 0 k); [assumption|rewrite Z.pow_neg_r in Hx; lia]).
  assert (Z.log2 x < k) by (apply Z.log2_lt_pow2; lia). lia.
Qed.

Lemma round_int_f_rounds sign x : sign = 0 \/ sign = 1 -> 0 < x < 2 ^ 32 ->
  rounds_to 23 8 (truth sign) (x * fp_one 23 8) 1 (round_int_f sign x).
Proof.
  intros Hs Hx. unfold round_int_f. rewrite clz32_log2 by lia. cbv zeta. replace (31 - (31 - Z.log2 x)) with (Z.log2 x) by lia.
  destruct (log2_range x 32 Hx) as (L0 & L1 & L2). set (l := Z.log2 x) in *. change (23 + SFP_GRS) with 26.
  set (mant := if 0 <=? 26 - l then _ else _).
  assert (mant = (if 0 <? 26 - l then x * 2 ^ (26 - l) else sticky x (- (26 - l))) /\ 2 ^ 26 <= mant < 2 ^ 27) as [E B].
  { subst mant. rewrite pow2_S in L2 by lia. destruct (Z.leb_spec 0 (26 - l)).
    - assert (2 ^ 26 = 2 ^ l * 2 ^ (26 - l)) as EP by (rewrite <- Z.pow_add_r by lia; f_equal; lia).
      pose proof (pow2_pos (26 - l) ltac:(lia)). assert (2 ^ 26 <= x * 2 ^ (26 - l) < 2 * 2 ^ 26) by nia.
      rewrite shl32_mul by lia. split; [|lia]. destruct (Z.ltb_spec 0 (26 - l)); [reflexivity|].
      replace (26 - l) with 0 by lia. rewrite sticky_0. lia.
    - replace (0 <? 26 - l) with false by lia. rewrite sticky32_eq by lia. split; [reflexivity|].
      split; [apply sticky_lower; [lia..|]; replace (26 + - (26 - l)) with l by lia; lia|].
      apply sticky_bound; [lia..|]. replace (27 + - (26 - l)) with (l + 1) by lia. rewrite pow2_S by lia. lia. }
  change (fp_one 23 8) with (2 ^ 149). apply round_pack_float_rounds; [exact Hs|lia|lia|lia|].
  right. left. split; [change (2 ^ (23 + 2)) with (2 ^ 25); lia|]. rewrite E.
  replace (FLOAT_EXP_BIAS + l - 4) with (149 - (26 - l)) by (unfold FLOAT_EXP_BIAS; lia).
  apply scale_agrees; [lia|apply exact_int; lia|lia].
Qed.

Lemma i2f_spec a : - 2 ^ 31 <= a < 2 ^ 31 -> rounds_to 23 8 (a <? 0) (Z.abs a * fp_one 23 8) 1 (aeabi_i2f a).
Proof.
  intros Ha. unfold aeabi_i2f. destruct (Z.eqb_spec a 0) as [->|Hne]; [apply (rounds_zero 23 8 false 1); lia|].
  destruct (Z.ltb_spec a 0) as [Hn|Hn].
  - replace (u32 (0 - u32 a)) with (Z.abs a); [apply (round_int_f_rounds 1); lia|].
    rewrite !u32_mod. rewrite Zminus_mod_idemp_r. rewrite Z.mod_small; lia.
  - rewrite u32_small by lia. replace (Z.abs a) with a by lia. apply (round_int_f_rounds 0); lia.
Qed.

Lemma ui2f_spec a : 0 <= a < 2 ^ 32 -> rounds_to 23 8 false (a * fp_one 23 8) 1 (aeabi_ui2f a).
Proof.
  intros Ha. unfold aeabi_ui2f. destruct (Z.eqb_spec a 0) as [->|Hne]; [apply (rounds_zero 23 8 false 1); lia|].
  apply (round_int_f_rounds 0); lia.
Qed.

(** A magnitude below [2^53] fits a double exactly. *)
Lemma place_exact_d s x l : s = 0 \/ s = 1 -> l = Z.log2 x -> 0 < x < 2 ^ 53 ->
  classify 52 11 (make_double s (1023 + l) (x * 2 ^ (52 - l))) = FFin (truth s) (x * fp_one 52 11).
Proof.
  intros Hs Hl Hx. destruct (log2_range x 53 Hx) as (L0 & L1 & L2). rewrite <- Hl in *. rewrite pow2_S in L2 by lia.
  rewrite make_double_eq by lia. set (M := x * 2 ^ (52 - l)).
  assert (2 ^ 52 = 2 ^ l * 2 ^ (52 - l)) as EP by (rewrite <- Z.pow_add_r by lia; f_equal; lia).
  pose proof (pow2_pos (52 - l) ltac:(lia)). assert (2 ^ 52 <= M < 2 * 2 ^ 52) as BM by (subst M; nia).
  assert (M mod 2 ^ 52 = M - 2 ^ 52) as -> by (symmetry; apply (Z.mod_unique _ _ 1); lia).
  rewrite (classify_fields 52 11 ltac:(lia) ltac:(lia) _ s (1023 + l) (M - 2 ^ 52)).
  - replace (1023 + l =? 2 ^ 11 - 1) with false by lia. f_equal. unfold fin_val. replace (1023 + l =? 0) with false by lia.
    rewrite Z.sub_add. change (fp_one 52 11) with (2 ^ 1074). subst M. rewrite <- Z.mul_assoc, <- Z.pow_add_r by lia. do 2 f_equal. lia.
  - split; [reflexivity|]. split; [exact Hs|]. lia.
Qed.

Lemma place_int_d_exact sign x : sign = 0 \/ sign = 1 -> 0 < x < 2 ^ 32 ->
  classify 52 11 (place_int_d sign x) = FFin (truth sign) (x * fp_one 52 11).
Proof.
  intros Hs Hx. unfold place_int_d. rewrite clz32_log2 by lia. cbv zeta. replace (31 - (31 - Z.log2 x)) with (Z.log2 x) by lia.
  destruct (log2_range x 32 Hx) as (L0 & L1 & L2). pose proof (Z.pow_lt_mono_r 2 32 53 ltac:(lia) ltac:(lia) ltac:(lia)).
  rewrite <- (place_exact_d sign x (Z.log2 x)) by (auto; lia). set (l := Z.log2 x) in *. rewrite pow2_S in L2 by lia.
  assert (2 ^ 52 = 2 ^ l * 2 ^ (52 - l)) as EP by (rewrite <- Z.pow_add_r by lia; f_equal; lia).
  pose proof (pow2_pos (52 - l) ltac:(lia)).
  rewrite llsl_spec, u64_small by nia. f_equal. rewrite !make_double_eq by (unfold DOUBLE_EXP_BIAS; lia).
  change DOUBLE_MANT_MASK with (2 ^ 52 - 1). rewrite land_mask, Z.mod_mod by lia. reflexivity.
Qed.

Lemma i2d_spec a : - 2 ^ 31 <= a < 2 ^ 31 -> classify 52 11 (aeabi_i2d a) = FFin (a <? 0) (Z.abs a * fp_one 52 11).
Proof.
  intros Ha. unfold aeabi_i2d. destruct (Z.eqb_spec a 0) as [->|Hne]; [reflexivity|].
  destruct (Z.ltb_spec a 0) as [Hn|Hn].
  - rewrite u32_small by lia. replace (- a) with (Z.abs a) by lia. apply (place_int_d_exact 1); lia.
  - rewrite u32_small by lia. replace (Z.abs a) with a by lia. apply (place_int_d_exact 0); lia.
Qed.

Lemma ui2d_spec a : 0 <= a < 2 ^ 32 -> classify 52 11 (aeabi_ui2d a) = FFin false (a * fp_one 52 11).
Proof.
  intros Ha. unfold aeabi_ui2d. destruct (Z.eqb_spec a 0) as [->|Hne]; [reflexivity|]. apply (place_int_d_exact 0); lia.
Qed.

(** ** 64-bit integers *)

Lemma msb64_log2 a : 0 < a < 2 ^ 64 -> armeabi_msb64 a = Z.log2 a.
Proof.
  intros Ha. pose proof (clz64_log2 a Ha) as H. unfold clz64 in H. unfold armeabi_msb64.
  change armeabi_clz32 with clz32. destruct (negb (u32 (a >>> 32) =? 0)); lia.
Qed.

(** Dropping [s] bits with rounding to nearest, ties to even, as the code does. *)
Definition round_drop (a s : Z) : Z :=
  let q := a / 2 ^ s in
  let dropped := a mod 2 ^ s in
  if (2 ^ (s - 1) <? dropped) || ((dropped =? 2 ^ (s - 1)) && Z.odd q) then q + 1 else q.

Lemma round_drop_unit a s B E : 1 <= s -> 0 <= B -> E - 1 = B + s -> unit_round (a * 2 ^ B) 1 E (round_drop a s).
Proof.
  intros Hs HB HE. unfold unit_round, round_drop. rewrite HE, Z.pow_add_r by lia. pose proof (pow2_pos B HB) as PB.
  assert (2 ^ s = 2 * 2 ^ (s - 1)) as Es by (replace s with (s - 1 + 1) at 1 by lia; apply pow2_S; lia).
  pose proof (pow2_pos (s - 1) ltac:(lia)) as Ph. set (h := 2 ^ (s - 1)) in *.
  pose proof (Z.div_mod a (2 ^ s) ltac:(lia)) as D. pose proof (Z.mod_pos_bound a (2 ^ s) ltac:(lia)) as M.
  rewrite <- Z.negb_even. set (q := a / 2 ^ s) in *. set (r := a mod 2 ^ s) in *. rewrite Es in *.
  assert (forall x, ((2 * x - 1) * 1 * (2 ^ B * (2 * h)) <= 2 * (a * 2 ^ B) <= (2 * x + 1) * 1 * (2 ^ B * (2 * h)) <-> (2 * x - 1) * h <= a <= (2 * x + 1) * h) /\
    (2 * (a * 2 ^ B) = (2 * x - 1) * 1 * (2 ^ B * (2 * h)) <-> a = (2 * x - 1) * h) /\ (2 * (a * 2 ^ B) = (2 * x + 1) * 1 * (2 ^ B * (2 * h)) <-> a = (2 * x + 1) * h)) as HX by (intros; nia).
  set (x := if _ || _ then q + 1 else q). destruct (HX x) as (H1 & H2 & H3). rewrite H1, H2, H3. clear H1 H2 H3 HX. subst x.
  destruct (Z.ltb_spec h r) as [Hh|Hh]; cbn [orb]; [split; [nia|]; intros [|]; exfalso; nia|].
  destruct (Z.eqb_spec r h) as [He|He]; cbn [andb]; [|split; [nia|]; intros [|]; exfalso; nia].
  destruct (Z.even q) eqn:Eq; cbn [negb]; (split; [nia|]); [auto|]. intros _. rewrite Z.even_add, Eq. reflexivity.
Qed.

(** The encoding both 64-bit conversions assemble, over the format. *)
Definition int64_mag (p eb a : Z) : Z :=
  let l := Z.log2 a in
  if l <=? p then (eb + l) * 2 ^ p + (a * 2 ^ (p - l) - 2 ^ p) else (eb + l - 1) * 2 ^ p + round_drop a (l - p).

Lemma round_drop_bounds p a : 0 <= p -> 0 < a -> p < Z.log2 a -> 2 ^ p <= round_drop a (Z.log2 a - p) <= 2 ^ (p + 1).
Proof.
  intros Hp Ha Hl. pose proof (Z.log2_spec a Ha) as [L1 L2]. rewrite <- Z.add_1_r in L2. set (l := Z.log2 a) in *.
  pose proof (pow2_pos (l - p) ltac:(lia)) as P. unfold round_drop.
  assert (2 ^ p <= a / 2 ^ (l - p) < 2 ^ (p + 1)) as B.
  { split; [apply Z.div_le_lower_bound; [lia|]; rewrite <- Z.pow_add_r by lia; replace (l - p + p) with l by lia; lia|].
    apply Z.div_lt_upper_bound; [lia|]. rewrite <- Z.pow_add_r by lia. replace (l - p + (p + 1)) with (l + 1) by lia. lia. }
  destruct (_ || _); lia.
Qed.

Lemma int64_mag_nearest p w a : 1 <= p -> 2 <= w -> 0 < a < 2 ^ 64 -> 64 < 2 ^ (w - 1) - 1 ->
  nearest_even p w (a * fp_one p w) 1 (int64_mag p (2 ^ (w - 1) - 1) a).
Proof.
  intros Hp Hw Ha Hb. destruct (log2_range a 64 Ha) as (L0 & L1 & L2). unfold int64_mag, fp_one.
  set (l := Z.log2 a) in *. set (eb := 2 ^ (w - 1) - 1) in *. assert (2 ^ (w - 1) - 2 + p = eb - 1 + p) as EB by (subst eb; lia). rewrite EB.
  assert (2 ^ w - 1 = 2 * eb + 1) as EW by (subst eb; replace w with (w - 1 + 1) at 1 by lia; rewrite pow2_S by lia; lia).
  pose proof (pow2_pos p ltac:(lia)) as P2. rewrite pow2_S in L2 by lia. destruct (Z.leb_spec l p) as [Hl|Hl].
  - assert (2 ^ p = 2 ^ l * 2 ^ (p - l)) as EP by (rewrite <- Z.pow_add_r by lia; f_equal; lia).
    pose proof (pow2_pos (p - l) ltac:(lia)). set (M := a * 2 ^ (p - l)). assert (2 ^ p <= M < 2 * 2 ^ p) as BM by (subst M; nia).
    replace ((eb + l) * 2 ^ p + (M - 2 ^ p)) with ((eb + l - 1) * 2 ^ p + M) by ring.
    replace (a * 2 ^ (eb - 1 + p)) with (1 * mag_val p ((eb + l - 1) * 2 ^ p + M)).
    + apply nearest_self; [lia|lia|]. unfold fp_inf. rewrite EW. nia.
    + rewrite mag_val_at by (rewrite ?pow2_S; lia). subst M. rewrite Z.mul_1_l, <- Z.mul_assoc, <- Z.pow_add_r by lia. do 2 f_equal. lia.
  - pose proof (round_drop_bounds p a ltac:(lia) ltac:(lia) Hl) as BR. fold l in BR.
    pose proof (round_drop_unit a (l - p) (eb - 1 + p) (eb + l) ltac:(lia) ltac:(lia) ltac:(lia)) as HU.
    assert (0 <= a * 2 ^ (eb - 1 + p)) as Hnn by (pose proof (pow2_pos (eb - 1 + p)); nia).
    pose proof (unit_nearest p w Hp (a * 2 ^ (eb - 1 + p)) 1 Hw ltac:(lia) Hnn (eb + l) (round_drop a (l - p))) as HN.
    rewrite Z.min_r in HN; [apply HN; [|exact HU]|].
    + pose proof (pow2_pos (eb - 1 + p) ltac:(lia)) as PB.
      assert (2 ^ p * 2 ^ (eb + l - 1) = 2 ^ l * 2 ^ (eb - 1 + p)) as E1 by (rewrite <- !Z.pow_add_r by lia; f_equal; lia).
      split; [lia|]. rewrite (pow2_S p) by lia. split; [right; nia|nia].
    + unfold fp_inf. rewrite EW. rewrite pow2_S in BR by lia. nia.
Qed.

(** The condition and the increment, with the carry into the next binade. *)
Lemma round_bits_mag p a make : 1 <= p <= 60 -> 0 < a < 2 ^ 64 -> p < Z.log2 a ->
  (forall e m, make e m = e * 2 ^ p + m mod 2 ^ p) -> forall eb,
  (let r := round_drop a (Z.log2 a - p) in
   if r =? 2 ^ (p + 1) then make (eb + Z.log2 a + 1) (2 ^ p) else make (eb + Z.log2 a) r) = int64_mag p eb a.
Proof.
  intros Hp Ha Hl Hmk eb. cbv zeta. unfold int64_mag. replace (Z.log2 a <=? p) with false by lia.
  pose proof (round_drop_bounds p a ltac:(lia) ltac:(lia) Hl) as B. set (r := round_drop _ _) in *. pose proof (pow2_pos p ltac:(lia)) as P.
  rewrite pow2_S in * by lia. destruct (Z.eqb_spec r (2 * 2 ^ p)) as [->|Hne]; rewrite Hmk.
  - rewrite Z.mod_same by lia. ring.
  - replace (r mod 2 ^ p) with (r - 2 ^ p) by (apply (Z.mod_unique _ _ 1); lia). ring.
Qed.

(** The dropped bits and the half the code compares them with. *)
Lemma drop_parts a s : 0 <= a < 2 ^ 64 -> 1 <= s < 64 ->
  a &&& u64 (shl64 1 s - 1) = a mod 2 ^ s /\ shl64 1 (s - 1) = 2 ^ (s - 1).
Proof.
  intros Ha Hs. pose proof (Z.pow_lt_mono_r 2 s 64 ltac:(lia) ltac:(lia) ltac:(lia)). pose proof (pow2_pos s ltac:(lia)).
  pose proof (pow2_pos (s - 1) ltac:(lia)). pose proof (Z.pow_lt_mono_r 2 (s - 1) 64 ltac:(lia) ltac:(lia) ltac:(lia)).
  rewrite !shl64_mul, u64_small, !Z.mul_1_l, land_mask by lia. auto.
Qed.

Lemma sign_field k s x : 0 <= k -> 0 <= x < 2 ^ k -> Z.lor ((if (s : bool) then 2 ^ k else 0)) x = (if s then 2 ^ k else 0) + x.
Proof. intros Hk Hx. destruct s; [|apply Z.lor_0_l]. rewrite <- (Z.mul_1_l (2 ^ k)). apply lor_fields; lia. Qed.

Lemma assemble_f (s : bool) e m : 0 <= e < 256 ->
  ((if s then 2 ^ 31 else 0) ||| (u32 e <<< 23)) ||| (m &&& 0x7FFFFF) = (if s then 2 ^ 31 else 0) + (e * 2 ^ 23 + m mod 2 ^ 23).
Proof.
  intros He. rewrite (u32_small e), shl32_mul by lia. change 0x7FFFFF with (2 ^ 23 - 1). rewrite land_mask by lia.
  pose proof (Z.mod_pos_bound m (2 ^ 23) ltac:(lia)). rewrite <- Z.lor_assoc, lor_fields by lia. apply sign_field; lia.
Qed.

Lemma assemble_d (s : bool) e m : 0 <= e < 2048 ->
  ((if s then 2 ^ 63 else 0) ||| shl64 e 52) ||| (m &&& 0xFFFFFFFFFFFFF) = (if s then 2 ^ 63 else 0) + (e * 2 ^ 52 + m mod 2 ^ 52).
Proof.
  intros He. rewrite shl64_mul by lia. change 0xFFFFFFFFFFFFF with (2 ^ 52 - 1). rewrite land_mask by lia.
  pose proof (Z.mod_pos_bound m (2 ^ 52) ltac:(lia)). rewrite <- Z.lor_assoc, lor_fields by lia. apply sign_field; lia.
Qed.

Lemma round_mag_f_eq (s : bool) a : 0 < a < 2 ^ 64 ->
  round_mag_f (if s then 2 ^ 31 else 0) a = (if s then 2 ^ 31 else 0) + int64_mag 23 127 a.
Proof.
  intros Ha. unfold round_mag_f. rewrite msb64_log2 by exact Ha. cbv zeta. destruct (log2_range a 64 Ha) as (L0 & L1 & L2).
  destruct (Z.leb_spec (Z.log2 a) 23) as [Hl|Hl].
  - unfold int64_mag. replace (Z.log2 a <=? 23) with true by lia. set (l := Z.log2 a) in *. rewrite pow2_S in L2 by lia.
    assert (2 ^ 23 = 2 ^ l * 2 ^ (23 - l)) as EP by (rewrite <- Z.pow_add_r by lia; f_equal; lia).
    pose proof (pow2_pos (23 - l) ltac:(lia)). assert (2 ^ 23 <= a * 2 ^ (23 - l) < 2 * 2 ^ 23) as BM by nia.
    assert (a < 2 ^ 24) by nia. rewrite (u32_small a), (shl32_mul a) by lia. rewrite assemble_f by lia.
    do 2 f_equal. symmetry. apply (Z.mod_unique _ _ 1); lia.
  - rewrite <- (round_bits_mag 23 a (fun e m => e * 2 ^ 23 + m mod 2 ^ 23) ltac:(lia) Ha Hl ltac:(reflexivity) 127). cbv zeta.
    set (l := Z.log2 a) in *. destruct (drop_parts a (l - 23) ltac:(lia) ltac:(lia)) as [-> ->].
    pose proof (round_drop_bounds 23 a ltac:(lia) ltac:(lia) Hl) as BR. fold l in BR. change (2 ^ (23 + 1)) with (2 ^ 24) in *.
    rewrite Z.shiftr_div_pow2 by lia. pose proof (pow2_pos (l - 23) ltac:(lia)) as P.
    assert (0 <= a / 2 ^ (l - 23) < 2 ^ 24) as BQ.
    { split; [apply Z.div_pos; lia|]. apply Z.div_lt_upper_bound; [lia|]. rewrite <- Z.pow_add_r by lia. replace (l - 23 + 24) with (l + 1) by lia. lia. }
    rewrite (u32_small (a / _)) by lia. change (a / 2 ^ (l - 23) &&& 1) with (a / 2 ^ (l - 23) &&& 2 ^ 0).
    rewrite truth_testbit, Z.bit0_odd by lia. unfold round_drop in *. change (1 <<< 24) with (2 ^ 24). change (1 <<< 23) with (2 ^ 23).
    destruct ((2 ^ (l - 23 - 1) <? _) || _).
    + rewrite (u32_small (a / 2 ^ (l - 23) + 1)) by lia. destruct (a / 2 ^ (l - 23) + 1 =? 2 ^ 24); rewrite assemble_f by lia; reflexivity.
    + replace (a / 2 ^ (l - 23) =? 2 ^ 24) with false by lia. rewrite assemble_f by lia. reflexivity.
Qed.

Lemma round_mag_d_eq (s : bool) a : 0 < a < 2 ^ 64 ->
  round_mag_d (if s then 2 ^ 63 else 0) a = (if s then 2 ^ 63 else 0) + int64_mag 52 1023 a.
Proof.
  intros Ha. unfold round_mag_d. rewrite msb64_log2 by exact Ha. cbv zeta. destruct (log2_range a 64 Ha) as (L0 & L1 & L2).
  destruct (Z.leb_spec (Z.log2 a) 52) as [Hl|Hl].
  - unfold int64_mag. replace (Z.log2 a <=? 52) with true by lia. set (l := Z.log2 a) in *. rewrite pow2_S in L2 by lia.
    assert (2 ^ 52 = 2 ^ l * 2 ^ (52 - l)) as EP by (rewrite <- Z.pow_add_r by lia; f_equal; lia).
    pose proof (pow2_pos (52 - l) ltac:(lia)). assert (2 ^ 52 <= a * 2 ^ (52 - l) < 2 * 2 ^ 52) as BM by nia.
    rewrite (shl64_mul a) by lia. rewrite assemble_d by lia. do 2 f_equal. symmetry. apply (Z.mod_unique _ _ 1); lia.
  - rewrite <- (round_bits_mag 52 a (fun e m => e * 2 ^ 52 + m mod 2 ^ 52) ltac:(lia) Ha Hl ltac:(reflexivity) 1023). cbv zeta.
    set (l := Z.log2 a) in *. destruct (drop_parts a (l - 52) ltac:(lia) ltac:(lia)) as [-> ->].
    pose proof (round_drop_bounds 52 a ltac:(lia) ltac:(lia) Hl) as BR. fold l in BR. change (2 ^ (52 + 1)) with (2 ^ 53) in *.
    rewrite Z.shiftr_div_pow2 by lia. pose proof (pow2_pos (l - 52) ltac:(lia)) as P.
    assert (0 <= a / 2 ^ (l - 52) < 2 ^ 53) as BQ.
    { split; [apply Z.div_pos; lia|]. apply Z.div_lt_upper_bound; [lia|]. rewrite <- Z.pow_add_r by lia. replace (l - 52 + 53) with (l + 1) by lia. lia. }
    change (a / 2 ^ (l - 52) &&& 1) with (a / 2 ^ (l - 52) &&& 2 ^ 0).
    rewrite truth_testbit, Z.bit0_odd by lia. unfold round_drop in *. change (shl64 1 53) with (2 ^ 53). change (shl64 1 52) with (2 ^ 52).
    destruct ((2 ^ (l - 52 - 1) <? _) || _).
    + rewrite (u64_small (a / 2 ^ (l - 52) + 1)) by lia. destruct (a / 2 ^ (l - 52) + 1 =? 2 ^ 53); rewrite assemble_d by lia; reflexivity.
    + replace (a / 2 ^ (l - 52) =? 2 ^ 53) with false by lia. rewrite assemble_d by lia. reflexivity.
Qed.

Lemma neg64_abs a : - 2 ^ 63 <= a < 0 -> u64 (- u64 a) = Z.abs a.
Proof. intros Ha. rewrite !u64_mod. rewrite <- (Z.sub_0_l (a mod _)), Zminus_mod_idemp_r. rewrite Z.mod_small; lia. Qed.

Lemma l2f_spec a : - 2 ^ 63 <= a < 2 ^ 63 -> rounds_to 23 8 (a <? 0) (Z.abs a * fp_one 23 8) 1 (aeabi_l2f a).
Proof.
  intros Ha. unfold aeabi_l2f. destruct (Z.eqb_spec a 0) as [->|Hne]; [apply (rounds_zero 23 8 false 1); lia|].
  exists (int64_mag 23 127 (Z.abs a)). split; [|apply (int64_mag_nearest 23 8); lia].
  destruct (Z.ltb_spec a 0).
  - rewrite neg64_abs by lia. apply (round_mag_f_eq true); lia.
  - rewrite u64_small by lia. replace (Z.abs a) with a by lia. apply (round_mag_f_eq false); lia.
Qed.

Lemma ul2f_spec a : 0 <= a < 2 ^ 64 -> rounds_to 23 8 false (a * fp_one 23 8) 1 (aeabi_ul2f a).
Proof.
  intros Ha. unfold aeabi_ul2f. destruct (Z.eqb_spec a 0) as [->|Hne]; [apply (rounds_zero 23 8 false 1); lia|].
  exists (int64_mag 23 127 a). split; [apply (round_mag_f_eq false); lia|apply (int64_mag_nearest 23 8); lia].
Qed.

Lemma l2d_spec a : - 2 ^ 63 <= a < 2 ^ 63 -> rounds_to 52 11 (a <? 0) (Z.abs a * fp_one 52 11) 1 (aeabi_l2d a).
Proof.
  intros Ha. unfold aeabi_l2d. destruct (Z.eqb_spec a 0) as [->|Hne]; [apply (rounds_zero 52 11 false 1); lia|].
  exists (int64_mag 52 1023 (Z.abs a)). split; [|apply (int64_mag_nearest 52 11); lia].
  destruct (Z.ltb_spec a 0).
  - rewrite neg64_abs by lia. apply (round_mag_d_eq true); lia.
  - rewrite u64_small by lia. replace (Z.abs a) with a by lia. apply (round_mag_d_eq false); lia.
Qed.

Lemma ul2d_spec a : 0 <= a < 2 ^ 64 -> rounds_to 52 11 false (a * fp_one 52 11) 1 (aeabi_ul2d a).
Proof.
  intros Ha. unfold aeabi_ul2d. destruct (Z.eqb_spec a 0) as [->|Hne]; [apply (rounds_zero 52 11 false 1); lia|].
  exists (int64_mag 52 1023 a). split; [apply (round_mag_d_eq false); lia|apply (int64_mag_nearest 52 11); lia].
Qed.

(** ** The contract *)

(** Every integer converts to the nearest float or double, ties to even,
    with its own sign; a 32-bit integer converts to a double exactly.  The
    extreme values of each type are included. *)
Theorem from_int_rounds a b : - 2 ^ 63 <= a < 2 ^ 63 -> 0 <= b < 2 ^ 64 ->
  let rounded p w x r := rounds_to p w (x <? 0) (Z.abs x * fp_one p w) 1 r in
  (rounded 23 8 a (aeabi_l2f a) /\ rounded 52 11 a (aeabi_l2d a) /\ rounded 23 8 b (aeabi_ul2f b) /\ rounded 52 11 b (aeabi_ul2d b)) /\
  (- 2 ^ 31 <= a < 2 ^ 31 -> rounded 23 8 a (aeabi_i2f a) /\ classify 52 11 (aeabi_i2d a) = FFin (a <? 0) (Z.abs a * fp_one 52 11)) /\
  (b < 2 ^ 32 -> rounded 23 8 b (aeabi_ui2f b) /\ classify 52 11 (aeabi_ui2d b) = FFin false (b * fp_one 52 11)).
Proof.
  intros Ha Hb. cbv beta zeta. replace (b <? 0) with false by lia. replace (Z.abs b) with b by lia.
  split; [split; [apply l2f_spec|split; [apply l2d_spec|split; [apply ul2f_spec|apply ul2d_spec]]]; assumption|].
  split; intros H; [split; [apply i2f_spec|apply i2d_spec]; exact H|split; [apply ui2f_spec|apply ui2d_spec]; lia].
Qed.

Lemma from_int_rounds_witness :
  rounds_to 23 8 true (2 ^ 31 * fp_one 23 8) 1 (aeabi_i2f (- 2 ^ 31)) /\ rounds_to 52 11 false ((2 ^ 64 - 1) * fp_one 52 11) 1 (aeabi_ul2d (2 ^ 64 - 1)).
Proof.
  destruct (from_int_rounds (- 2 ^ 31) (2 ^ 64 - 1) ltac:(lia) ltac:(lia)) as ((_ & _ & _ & D) & I & _).
  split; [exact (proj1 (I ltac:(lia)))|exact D].
Defined.
