(* ===== verification/SoftConvWidth.v ===== *)
(** * Widening is exact, narrowing rounds *)

From S2P Require Import Prelude.
From S2P Require Import FpSpec.
From S2P Require Import SoftCommon.
From S2P Require Import SoftRound.
From S2P Require Import SoftUnpack.
From S2P Require Import SoftFloat.
From S2P Require Import SoftDoubleArith.
From S2P Require Import EabiInt.
From S2P Require Import EabiDiv.
From S2P Require Import EabiShift.
From S2P Require Import SoftCmp.
From S2P Require Import SoftConv.
From S2P Require Import SoftConvFp.
Local Open Scope Z_scope.
Local Open Scope c_scope.

(** The same value in the units of the wider format. *)
Definition widen (c : fp_class) : fp_class :=
  match c with
  | FNaN => FNaN
  | FInf s => FInf s
  | FFin s m => FFin s (m * 2 ^ 925)
  end.

(** ** Widening *)

(** The two result words hold sign, exponent and the 52-bit fraction. *)
Lemma f2d_words s e m : s = 0 \/ s = 1 -> 0 <= e < 2048 -> 0 <= m < 2 ^ 23 ->
  fields 52 11 (dw_make (m <<< 29) ((u32 s <<< 31) ||| (u32 e <<< 20) ||| (m >>> 3))) s e (m * 2 ^ 29).
Proof.
  intros Hs He Hm. rewrite (u32_small s), (u32_small e) by (destruct Hs; lia).
  rewrite (shl32_mul s), (shl32_mul e), shl_trunc, Z.shiftr_div_pow2 by (destruct Hs; lia).
  change (32 - 29) with 3. change (2 ^ 3) with 8.
  pose proof (Z.div_mod m 8 ltac:(lia)). pose proof (Z.mod_pos_bound m 8 ltac:(lia)).
  assert (0 <= m / 8 < 2 ^ 20) by (split; [apply Z.div_pos; lia|apply Z.div_lt_upper_bound; lia]).
  rewrite <- Z.lor_assoc, (lor_fields e), lor_fields by lia. rewrite dw_make_add by lia. unfold pair_val, fields.
  split; [|lia]. change (2 ^ (52 + 11)) with (2 ^ 63). lia.
Qed.

(** A normal number keeps its fraction, its exponent is rebased. *)
Lemma f2d_normal s e m : s = 0 \/ s = 1 -> 0 < e < 0xFF -> 0 <= m < 2 ^ 23 ->
  fin_val 52 (e + 896) (m * 2 ^ 29) = fin_val 23 e m * 2 ^ 925.
Proof.
  intros Hs He Hm. unfold fin_val. replace (e + 896 =? 0) with false by lia. replace (e =? 0) with false by lia.
  replace (m * 2 ^ 29 + 2 ^ 52) with ((m + 2 ^ 23) * 2 ^ 29) by lia. rewrite <- !Z.mul_assoc, <- !Z.pow_add_r by lia. do 2 f_equal. lia.
Qed.

(** A subnormal number is normalized: its leading bit becomes the hidden one. *)
Lemma f2d_subnormal_fields s m : s = 0 \/ s = 1 -> 0 < m < 2 ^ 23 ->
  let l := 31 - clz32 m in
  let d := aeabi_llsl m (52 - l) &&& DOUBLE_MANT_MASK in
  exists e' m', fields 52 11 (dw_make (u32 d) ((u32 s <<< 31) ||| (u32 (897 + l - 23) <<< 20) ||| u32 (d >>> 32))) s e' m' /\
    e' < 0x7FF /\ fin_val 52 e' m' = m * 2 ^ 925.
Proof.
  intros Hs Hm. cbv zeta. rewrite clz32_log2 by lia. replace (31 - (31 - Z.log2 m)) with (Z.log2 m) by lia.
  destruct (log2_range m 23 ltac:(lia)) as (L0 & L1 & L2). set (l := Z.log2 m) in *. rewrite pow2_S in L2 by lia.
  assert (2 ^ 52 = 2 ^ l * 2 ^ (52 - l)) as EP by (rewrite <- Z.pow_add_r by lia; f_equal; lia).
  pose proof (pow2_pos (52 - l) ltac:(lia)). rewrite llsl_spec, u64_small by nia.
  change DOUBLE_MANT_MASK with (2 ^ 52 - 1). rewrite land_mask by lia.
  set (M := m * 2 ^ (52 - l)). assert (2 ^ 52 <= M < 2 * 2 ^ 52) as BM by (subst M; nia).
  replace (M mod 2 ^ 52) with (M - 2 ^ 52) by (apply (Z.mod_unique _ _ 1); lia).
  destruct (half_words (M - 2 ^ 52) ltac:(lia)) as (-> & -> & H1 & H2 & EM).
  replace (897 + l - 23) with (874 + l) by lia.
  rewrite (u32_small s), (u32_small (874 + l)), (shl32_mul s), (shl32_mul (874 + l)) by (destruct Hs; lia).
  assert (0 <= (M - 2 ^ 52) / 2 ^ 32 < 2 ^ 20) by lia_mod.
  rewrite <- Z.lor_assoc, (lor_fields (874 + l)), lor_fields by lia. rewrite dw_make_add by lia.
  exists (874 + l), (M - 2 ^ 52). unfold fields, pair_val. change (2 ^ (52 + 11)) with (2 ^ 63).
  split; [split; [lia|]; split; [exact Hs|lia]|]. split; [lia|]. unfold fin_val. replace (874 + l =? 0) with false by lia.
  rewrite Z.sub_add. subst M. rewrite <- Z.mul_assoc, <- Z.pow_add_r by lia. do 2 f_equal. lia.
Qed.

(** The fields of the widened encoding. *)
Lemma f2d_fields a : 0 <= a < 2 ^ 32 ->
  exists e m, fields 52 11 (aeabi_f2d_bits a) (float_sign a) e m /\
    if float_exp a =? 0xFF then e = 0x7FF /\ m = float_mant a * 2 ^ 29
    else e < 0x7FF /\ fin_val 52 e m = fin_val 23 (float_exp a) (float_mant a) * 2 ^ 925.
Proof.
  intros Ha. destruct (float_fields a Ha) as (_ & Hs & He & Hm).
  unfold aeabi_f2d_bits. fold (float_sign a) (float_exp a) (float_mant a). cbv zeta.
  set (s := float_sign a) in *. set (e := float_exp a) in *. set (m := float_mant a) in *.
  destruct (Z.eqb_spec e 0xFF) as [E|E].
  - exists 0x7FF, (m * 2 ^ 29). split; [exact (f2d_words s 0x7FF m Hs ltac:(lia) Hm)|split; reflexivity].
  - destruct (Z.eqb_spec e 0) as [E0|E0]; cbn [andb]; [destruct (Z.eqb_spec m 0) as [M0|M0]|].
    + exists 0, 0. rewrite E0, M0. split; [|split; [lia|reflexivity]]. unfold fields. destruct Hs as [-> | ->]; vm_compute; intuition congruence.
    + rewrite E0. exact (f2d_subnormal_fields s m Hs ltac:(lia)).
    + change FLOAT_EXP_BIAS with 127. change DOUBLE_EXP_BIAS with 1023. replace (e - 127 + 1023) with (e + 896) by lia.
      exists (e + 896), (m * 2 ^ 29). split; [apply f2d_words; [exact Hs|lia|exact Hm]|]. split; [lia|apply (f2d_normal s); [exact Hs|lia|exact Hm]].
Qed.

Lemma f2d_spec a : 0 <= a < 2 ^ 32 -> classify 52 11 (aeabi_f2d_bits a) = widen (classify 23 8 a).
Proof.
  intros Ha. rewrite (classify_fields 23 8 ltac:(lia) ltac:(lia) _ _ _ _ (float_fields a Ha)).
  destruct (f2d_fields a Ha) as (e & m & F & H). rewrite (classify_fields 52 11 ltac:(lia) ltac:(lia) _ _ _ _ F).
  change (2 ^ 8 - 1) with 0xFF. change (2 ^ 11 - 1) with 0x7FF. destruct (float_exp a =? 0xFF).
  - destruct H as [-> ->]. change (0x7FF =? 0x7FF) with true. cbv iota. replace (float_mant a * 2 ^ 29 =? 0) with (float_mant a =? 0) by lia.
    destruct (float_mant a =? 0); reflexivity.
  - destruct H as [He ->]. replace (e =? 0x7FF) with false by lia. reflexivity.
Qed.

(** ** Narrowing *)

(** A value below half the least subnormal rounds to zero. *)
Lemma tiny_zero p w n d R : 1 <= p -> 2 <= w -> 0 < d -> 0 <= n -> 2 * n < d -> nearest_even p w n d R <-> R = 0.
Proof.
  intros Hp Hw Hd Hn Ht.
  assert (nearest_even p w n d 0) as H0.
  { pose proof (fp_inf_pos p w Hp Hw). apply nearest_local; [exact Hp|exact Hd|lia| |lia]. intros _. unfold below_mid.
    rewrite mag_val_0 by exact Hp. pose proof (mag_val_step p Hp 0 ltac:(lia)) as M. rewrite mag_val_0 in M by exact Hp.
    split; [nia|]. intros; reflexivity. }
  split; [|intros ->; exact H0]. intros H. apply (nearest_unique p w Hp n d); auto.
Qed.

(** A subnormal double is far below the range of the narrow format. *)
Lemma narrow_tiny sign sig : sign = 0 \/ sign = 1 -> 0 < sig < 2 ^ 52 ->
  rounds_to 23 8 (truth sign) sig (2 ^ 925) (sfp_round_pack_float sign (-895) (u32 (sfp_shr_sticky64 sig 26))).
Proof.
  intros Hs Hsig. rewrite sticky64_eq by lia. pose proof (sticky_bound sig 26 26 ltac:(lia) ltac:(lia) ltac:(lia)) as B.
  set (m := sticky sig 26) in *. rewrite u32_small by lia.
  destruct (round_pack_float_rounds sign (-895) m m (2 ^ 899) Hs ltac:(lia) (pow2_pos 899 ltac:(lia)) ltac:(lia)) as (R & ER & HR).
  - left. unfold exact. rewrite (vcmp_of _ _ _ _ 899 0) by lia. apply Z.compare_eq_iff. lia.
  - assert (2 * m < 2 ^ 899) by (pose proof (Z.pow_lt_mono_r 2 27 899 ltac:(lia) ltac:(lia) ltac:(lia)); lia).
    apply (tiny_zero 23 8) in HR; [|lia|lia|apply pow2_pos; lia|lia|lia]. subst R.
    exists 0. split; [exact ER|]. apply tiny_zero; [lia|lia|apply pow2_pos; lia|lia| |reflexivity].
    pose proof (Z.pow_lt_mono_r 2 53 925 ltac:(lia) ltac:(lia) ltac:(lia)). lia.
Qed.

Lemma narrow_normal sign e m : sign = 0 \/ sign = 1 -> 1 <= e -> 0 <= m < 2 ^ 52 ->
  rounds_to 23 8 (truth sign) (fin_val 52 e m) (2 ^ 925)
    (sfp_round_pack_float sign (e - 896) (u32 (sfp_shr_sticky64 (m + 2 ^ 52) 26))).
Proof.
  intros Hs He Hm. rewrite sticky64_eq by lia.
  assert (2 ^ 26 <= sticky (m + 2 ^ 52) 26 < 2 ^ 27) as B by (split; [apply sticky_lower; lia|apply sticky_bound; lia]).
  rewrite u32_small by lia. pose proof (pow2_pos (e - 1) ltac:(lia)) as P.
  apply round_pack_float_rounds; [exact Hs|lia|apply pow2_pos; lia|apply fin_val_nonneg; lia|].
  right. left. split; [change (2 ^ (23 + 2)) with (2 ^ 25); lia|].
  replace (e - 896 - 4) with (e - 1 - 925 + 26) by lia. apply (agrees_down _ _ 1); [lia|]. apply exact_agrees; [apply pow2_pos; lia|].
  unfold exact, fin_val. replace (e =? 0) with false by lia. rewrite (vcmp_of _ _ _ _ 925 (e - 1)) by lia. apply Z.compare_eq_iff. ring.
Qed.

(** The narrowed encoding of an infinity or NaN keeps the top 23 bits of the payload. *)
Lemma narrow_special s m : s = 0 \/ s = 1 -> 0 <= m < 2 ^ 52 ->
  fields 23 8 ((u32 s <<< 31) ||| 0x7F800000 ||| (u32 (aeabi_llsr m 29) &&& FLOAT_MANT_MASK)) s 0xFF (m / 2 ^ 29).
Proof.
  intros Hs Hm. rewrite llsr_spec by lia. assert (0 <= m / 2 ^ 29 < 2 ^ 23) by (split; [apply Z.div_pos; lia|apply Z.div_lt_upper_bound; lia]).
  rewrite (u32_small (m / _)), (u32_small s), shl32_mul by (destruct Hs; lia). change FLOAT_MANT_MASK with (2 ^ 23 - 1).
  rewrite land_mask, Z.mod_small by lia. change 0x7F800000 with (0xFF * 2 ^ 23).
  rewrite <- Z.lor_assoc, (lor_fields 0xFF), lor_fields by lia. unfold fields. change (2 ^ (23 + 8)) with (2 ^ 31). lia.
Qed.

(** What narrowing returns: the rounded value of a finite double, the infinity
    of an infinity, and for a NaN an encoding whose fraction is the payload
    without its low 29 bits. *)
Definition narrow_spec (a r : Z) : Prop :=
  match classify 52 11 a with
  | FNaN => classify 23 8 r = if double_mant a <? 2 ^ 29 then FInf (fp_sign 52 11 a) else FNaN
  | FInf s => r = fp_make 23 8 s (fp_inf 23 8)
  | FFin s m => rounds_to 23 8 s m (2 ^ 925) r
  end.

Lemma d2f_spec a : 0 <= a < 2 ^ 64 -> narrow_spec a (aeabi_d2f a).
Proof.
  intros Ha. unfold narrow_spec. rewrite (double_class a Ha). pose proof (double_fields a Ha) as F.
  destruct (fields_mag 52 11 ltac:(lia) ltac:(lia) _ _ _ _ F) as [_ SF]. destruct F as (_ & Hs & He & Hm). unfold aeabi_d2f. cbv zeta.
  set (s := double_sign a) in *. set (e := double_exp a) in *. set (m := double_mant a) in *.
  destruct (Z.eqb_spec e 0x7FF) as [E|E].
  - pose proof (narrow_special s m Hs Hm) as F. destruct (Z.eqb_spec m 0) as [M0|M0].
    + rewrite M0 in F |- *. apply (fields_inf 23 8), F.
    + rewrite (classify_fields 23 8 ltac:(lia) ltac:(lia) _ _ _ _ F). change (0xFF =? 2 ^ 8 - 1) with true. cbv iota. rewrite SF.
      destruct (Z.ltb_spec m (2 ^ 29)) as [Hlt|Hge]; [rewrite Z.div_small by lia; reflexivity|].
      assert (1 <= m / 2 ^ 29) by (apply Z.div_le_lower_bound; lia). replace (m / 2 ^ 29 =? 0) with false by lia. reflexivity.
  - destruct (Z.eqb_spec e 0) as [E0|E0]; cbn [andb negb]; [destruct (Z.eqb_spec m 0) as [M0|M0]|].
    + rewrite E0, M0. cbn. destruct Hs as [-> | ->]; apply rounds_zero; solve [lia|apply pow2_pos; lia].
    + change (1 - DOUBLE_EXP_BIAS + FLOAT_EXP_BIAS) with (-895). change (52 - (23 + SFP_GRS)) with 26.
      unfold fin_val. rewrite E0. cbn [Z.eqb]. apply narrow_tiny; [exact Hs|lia].
    + change DOUBLE_IMPLICIT_BIT with (2 ^ 52). rewrite lor_implicit by lia. change (52 - (23 + SFP_GRS)) with 26.
      replace (e - DOUBLE_EXP_BIAS + FLOAT_EXP_BIAS) with (e - 896) by (unfold DOUBLE_EXP_BIAS, FLOAT_EXP_BIAS; lia).
      apply narrow_normal; [exact Hs|lia|exact Hm].
Qed.

(** ** The contracts *)

(** [__aeabi_d2f] returns the float nearest to a finite double, ties to
    even (zeros, subnormal and overflowing results included), and the infinity
    of an infinity.  For a NaN it keeps the sign and the top bits of the
    payload, so that a NaN whose payload is in the low 29 bits becomes an
    infinity. *)
Theorem narrowing_rounds a : 0 <= a < 2 ^ 64 -> narrow_spec a (aeabi_d2f a).
Proof. exact (d2f_spec a). Qed.

Lemma narrowing_rounds_witness : classify 52 11 0x7FF0000000000001 = FNaN /\ classify 23 8 (aeabi_d2f 0x7FF0000000000001) = FInf false.
Proof. split; [reflexivity|exact (narrowing_rounds 0x7FF0000000000001 ltac:(lia))]. Defined.

(** The three fields determine the encoding and are determined by it. *)
Lemma fields_inj p w bits s e m s' e' m' : 1 <= p -> 2 <= w -> fields p w bits s e m -> fields p w bits s' e' m' -> s = s' /\ e = e' /\ m = m'.
Proof.
  intros Hp Hw F F'. destruct (fields_mag p w Hp Hw _ _ _ _ F) as [G _], (fields_mag p w Hp Hw _ _ _ _ F') as [G' _].
  destruct (fields_div p w Hp Hw _ _ _ _ F) as [D M], (fields_div p w Hp Hw _ _ _ _ F') as [D' M'].
  rewrite <- G in D, M. rewrite <- G' in D', M'. subst. pose proof (pow2_pos (p + w) ltac:(lia)).
  destruct F as (E & _), F' as (E' & _). split; [nia|split; congruence].
Qed.

(** A double whose value is that of a float narrows to that float. *)
Lemma narrow_exact s e m r : fields 23 8 (fp_make 23 8 (truth s) (e * 2 ^ 23 + m)) s e m -> e <> 0xFF ->
  rounds_to 23 8 (truth s) (fin_val 23 e m * 2 ^ 925) (2 ^ 925) r -> r = fp_make 23 8 (truth s) (e * 2 ^ 23 + m).
Proof.
  intros F He (R & -> & HR). f_equal. apply (nearest_unique 23 8 ltac:(lia) _ _ _ _ (pow2_pos 925 ltac:(lia)) HR).
  rewrite <- (fin_val_mag 23 8 ltac:(lia) ltac:(lia) _ _ _ _ F), Z.mul_comm.
  apply nearest_self; [lia|apply pow2_pos; lia|]. destruct F as (_ & _ & He' & Hm). change (fp_inf 23 8) with (0xFF * 2 ^ 23). lia.
Qed.

(** C38: widening a float gives a double of the same class and value, and
    narrowing that double gives the float back, bit for bit: for every zero,
    subnormal, normal number, infinity and NaN. *)
Theorem widen_narrow_roundtrip a : 0 <= a < 2 ^ 32 ->
  classify 52 11 (aeabi_f2d_bits a) = widen (classify 23 8 a) /\ aeabi_d2f (aeabi_f2d_bits a) = a.
Proof.
  intros Ha. split; [exact (f2d_spec a Ha)|]. pose proof (float_fields a Ha) as F.
  destruct (f2d_fields a Ha) as (e & m & F2 & H). pose proof (fields_range 52 11 _ _ _ _ ltac:(lia) ltac:(lia) F2) as HR.
  change (52 + 11 + 1) with 64 in HR. destruct (fields_inj 52 11 _ _ _ _ _ _ _ ltac:(lia) ltac:(lia) (double_fields _ HR) F2) as (Es & Ee & Em).
  pose proof (d2f_spec _ HR) as D. unfold narrow_spec in D. rewrite (f2d_spec a Ha) in D.
  rewrite (classify_fields 23 8 ltac:(lia) ltac:(lia) _ _ _ _ F) in D. change (2 ^ 8 - 1) with 0xFF in D.
  destruct (Z.eqb_spec (float_exp a) 0xFF) as [E|E].
  - destruct H as [-> ->]. unfold aeabi_d2f. rewrite Es, Ee, Em. change (0x7FF =? 0x7FF) with true. cbv iota zeta.
    destruct F as (Ea & Hs & He & Hm). pose proof (narrow_special _ (float_mant a * 2 ^ 29) Hs ltac:(lia)) as N.
    rewrite Z.div_mul in N by lia. destruct N as [-> _]. rewrite <- E. symmetry. exact Ea.
  - cbn [widen] in D. pose proof (fields_make _ _ _ _ _ _ F) as EM.
    etransitivity; [|symmetry; exact EM]. apply narrow_exact; [rewrite <- EM; exact F|exact E|exact D].
Qed.

Lemma widen_narrow_roundtrip_witness : aeabi_d2f (aeabi_f2d_bits 0x7F800001) = 0x7F800001 /\ aeabi_d2f (aeabi_f2d_bits 1) = 1.
Proof. split; [exact (proj2 (widen_narrow_roundtrip 0x7F800001 ltac:(lia)))|exact (proj2 (widen_narrow_roundtrip 1 ltac:(lia)))]. Defined.
