(* ===== verification/EabiMem.v ===== *)
(** * Memory routines of the ARM EABI runtime

    The copy and fill loops of [src/lib/armeabi.c], on a byte-addressed memory
    with 32-bit pointers and little-endian words.  Overlapping operands alias
    the same memory: each load sees the stores before it. *)

From S2P Require Import Prelude.
From S2P Require Import SoftCommon.
From S2P Require Import SoftRound.
Local Open Scope Z_scope.
Local Open Scope c_scope.

(** ** Memory *)

Definition memory : Type := Z -> Z.

Definition store_byte (m : memory) (d v : Z) : memory := fun a => if a =? d then v &&& 0xFF else m a.

Definition load_word (m : memory) (s : Z) : Z := m s ||| (m (s + 1) <<< 8) ||| (m (s + 2) <<< 16) ||| (m (s + 3) <<< 24).

Definition store_word (m : memory) (d v : Z) : memory :=
  store_byte (store_byte (store_byte (store_byte m d v) (d + 1) (v >>> 8)) (d + 2) (v >>> 16)) (d + 3) (v >>> 24).

(** Every cell holds a byte. *)
Definition bytes (m : memory) : Prop := forall a, 0 <= m a < 256.

(** ** The loops *)

(** [while (n >= sizeof(unsigned long)) { *dw++ = *sw++; n -= 4; }] *)
Fixpoint copy_words (n : nat) (m : memory) (d s : Z) : memory * Z * Z * nat :=
  match n with
  | S (S (S (S n'))) => copy_words n' (store_word m d (load_word m s)) (u32 (d + 4)) (u32 (s + 4))
  | _ => (m, d, s, n)
  end.

(** [while (n--) *d++ = *s++;] *)
Fixpoint copy_bytes (n : nat) (m : memory) (d s : Z) : memory :=
  match n with
  | O => m
  | S n' => copy_bytes n' (store_byte m d (m s)) (u32 (d + 1)) (u32 (s + 1))
  end.

(** [while (n--) *--d = *--s;] *)
Fixpoint copy_back (n : nat) (m : memory) (d s : Z) : memory :=
  match n with
  | O => m
  | S n' => let d := u32 (d - 1) in let s := u32 (s - 1) in copy_back n' (store_byte m d (m s)) d s
  end.

Definition aeabi_memcpy_impl (m : memory) (dest src : Z) (n : nat) : memory :=
  if (n =? 0)%nat || (dest =? src) then m
  else
    let '(m, d, s, n) := if (dest ||| src) &&& (4 - 1) =? 0 then copy_words n m dest src else (m, dest, src, n) in
    copy_bytes n m d s.

Definition aeabi_memmove_impl (m : memory) (dest src : Z) (n : nat) : memory :=
  if (n =? 0)%nat || (dest =? src) then m
  else if (dest <? src) || (u32 (src + Z.of_nat n) <=? dest) then aeabi_memcpy_impl m dest src n
  else copy_back n m (u32 (dest + Z.of_nat n)) (u32 (src + Z.of_nat n)).

Fixpoint fill_words (n : nat) (m : memory) (d pattern : Z) : memory * Z * nat :=
  match n with
  | S (S (S (S n'))) => fill_words n' (store_word m d pattern) (u32 (d + 4)) pattern
  | _ => (m, d, n)
  end.

Fixpoint fill_bytes (n : nat) (m : memory) (d byte : Z) : memory :=
  match n with
  | O => m
  | S n' => fill_bytes n' (store_byte m d byte) (u32 (d + 1)) byte
  end.

(** [for (i = 0; i < sizeof(unsigned long); ++i) pattern = (pattern << 8) | byte;] *)
Fixpoint byte_pattern (i : nat) (byte pattern : Z) : Z :=
  match i with
  | O => pattern
  | S i => byte_pattern i byte ((pattern <<< 8) ||| byte)
  end.

Definition aeabi_memset (m : memory) (dest : Z) (n : nat) (c : Z) : memory :=
  let byte := c &&& 0xFF in
  if (n =? 0)%nat then m
  else
    let '(m, d, n) := if dest &&& (4 - 1) =? 0 then fill_words n m dest (byte_pattern 4 byte 0) else (m, dest, n) in
    fill_bytes n m d byte.

Definition aeabi_memclr (m : memory) (dest : Z) (n : nat) : memory := aeabi_memset m dest n 0.

(** ** What they promise *)

(** The [n] bytes at [s] as they were, at [d]; nothing else changes. *)
Definition copied (m : memory) (d s n : Z) (m' : memory) : Prop :=
  forall a, m' a = if (d <=? a) && (a <? d + n) then m (a - d + s) else m a.

Definition filled (m : memory) (d n v : Z) (m' : memory) : Prop :=
  forall a, m' a = if (d <=? a) && (a <? d + n) then v else m a.

(** ** Words and bytes *)

Lemma byte_id m s : bytes m -> m s &&& 0xFF = m s.
Proof. intros H. pose proof (H s). change 0xFF with (2 ^ 8 - 1). rewrite land_mask by lia. apply Z.mod_small. lia. Qed.

Lemma store_byte_bytes m d v : bytes m -> bytes (store_byte m d v).
Proof.
  intros H a. unfold store_byte. destruct (a =? d); [|apply H]. change 0xFF with (2 ^ 8 - 1). rewrite land_mask by lia. apply Z.mod_pos_bound. lia.
Qed.
#[local] Hint Resolve store_byte_bytes : core.

Lemma store_word_bytes m d v : bytes m -> bytes (store_word m d v).
Proof. intros H. unfold store_word. auto. Qed.
#[local] Hint Resolve store_word_bytes : core.

(** Byte [i] of a word assembled from four bytes. *)
Lemma word_byte b0 b1 b2 b3 : 0 <= b0 < 256 -> 0 <= b1 < 256 -> 0 <= b2 < 256 -> 0 <= b3 < 256 ->
  let w := b0 ||| (b1 <<< 8) ||| (b2 <<< 16) ||| (b3 <<< 24) in
  w &&& 0xFF = b0 /\ (w >>> 8) &&& 0xFF = b1 /\ (w >>> 16) &&& 0xFF = b2 /\ (w >>> 24) &&& 0xFF = b3.
Proof.
  intros H0 H1 H2 H3. cbv zeta. rewrite !shl32_mul by lia. change 0xFF with (2 ^ 8 - 1). rewrite !land_mask, !Z.shiftr_div_pow2 by lia.
  rewrite (Z.lor_comm b0), lor_fields by lia. rewrite (Z.lor_comm (_ + _)), lor_fields by lia. rewrite Z.lor_comm, lor_fields by lia. lia_mod.
Qed.

(** A store of four known bytes. *)
Lemma store_word_at m d w a :
  store_word m d w a =
    if a =? d + 3 then (w >>> 24) &&& 0xFF else if a =? d + 2 then (w >>> 16) &&& 0xFF
    else if a =? d + 1 then (w >>> 8) &&& 0xFF else if a =? d then w &&& 0xFF else m a.
Proof. reflexivity. Qed.

(** Storing a loaded word copies four bytes. *)
Lemma copy_word m d s : bytes m -> copied m d s 4 (store_word m d (load_word m s)).
Proof.
  intros H a. rewrite store_word_at. unfold load_word.
  destruct (word_byte (m s) (m (s + 1)) (m (s + 2)) (m (s + 3)) (H _) (H _) (H _) (H _)) as (-> & -> & -> & ->).
  destruct (Z.eqb_spec a (d + 3)) as [->|]; [replace ((_ <=? _) && _) with true by lia; f_equal; lia|].
  destruct (Z.eqb_spec a (d + 2)) as [->|]; [replace ((_ <=? _) && _) with true by lia; f_equal; lia|].
  destruct (Z.eqb_spec a (d + 1)) as [->|]; [replace ((_ <=? _) && _) with true by lia; f_equal; lia|].
  destruct (Z.eqb_spec a d) as [->|]; [replace ((_ <=? _) && _) with true by lia; f_equal; lia|].
  replace ((d <=? a) && (a <? d + 4)) with false by lia. reflexivity.
Qed.

Lemma copy_byte m d s : bytes m -> copied m d s 1 (store_byte m d (m s)).
Proof.
  intros H a. unfold store_byte. rewrite byte_id by exact H. destruct (Z.eqb_spec a d) as [->|].
  - replace ((d <=? d) && _) with true by lia. f_equal. lia.
  - replace ((d <=? a) && _) with false by lia. reflexivity.
Qed.

(** ** Composing the steps *)

(** Splitting the guards of [copied] and [filled]. *)
Ltac split_ranges :=
  repeat match goal with
  | |- context [?x <=? ?y] => destruct (Z.leb_spec x y); cbn [andb]
  | |- context [?x <? ?y] => destruct (Z.ltb_spec x y); cbn [andb]
  end.

(** A forward copy never loads what it has stored when the destination is
    below the source or past its end. *)
Lemma copied_forward m m1 m2 d s k n : 0 <= k -> 0 <= n -> d <= s \/ s + (k + n) <= d ->
  copied m d s k m1 -> copied m1 (d + k) (s + k) n m2 -> copied m d s (k + n) m2.
Proof. intros Hk Hn Hs H1 H2 a. rewrite H2, !H1. split_ranges; try lia; f_equal; lia. Qed.

(** A backward copy is safe when the destination is above the source. *)
Lemma copied_backward m m1 m2 d s n : 0 <= n -> s <= d ->
  copied m (d + n) (s + n) 1 m1 -> copied m1 d s n m2 -> copied m d s (n + 1) m2.
Proof. intros Hn Hs H1 H2 a. rewrite H2, !H1. split_ranges; try lia; f_equal; lia. Qed.

Lemma copied_none m d s : copied m d s 0 m.
Proof. intros a. split_ranges; try lia; reflexivity. Qed.

Lemma copied_same m d n : copied m d d n m.
Proof. intros a. split_ranges; try reflexivity. f_equal. lia. Qed.

Lemma filled_join m m1 m2 d v k n : 0 <= k -> 0 <= n -> filled m d k v m1 -> filled m1 (d + k) n v m2 -> filled m d (k + n) v m2.
Proof. intros Hk Hn H1 H2 a. rewrite H2, H1. split_ranges; try lia; reflexivity. Qed.

Lemma filled_none m d v : filled m d 0 v m.
Proof. intros a. split_ranges; try lia; reflexivity. Qed.

(** Induction by four, then by one. *)
Lemma nat_ind4 (P : nat -> Prop) : P 0%nat -> P 1%nat -> P 2%nat -> P 3%nat -> (forall n, P n -> P (S (S (S (S n))))) -> forall n, P n.
Proof.
  intros H0 H1 H2 H3 HS n. assert (P n /\ P (S n) /\ P (S (S n)) /\ P (S (S (S n)))) as H; [|apply H].
  induction n as [|n (A & B & C & D)]; auto.
Qed.

(** Pointers of a copy that stays inside the address space. *)
Definition in_space (d : Z) (n : nat) : Prop := 0 <= d /\ d + Z.of_nat n < 2 ^ 32.

Lemma copy_bytes_spec n : forall m d s, bytes m -> in_space d n -> in_space s n -> d <= s \/ s + Z.of_nat n <= d ->
  copied m d s (Z.of_nat n) (copy_bytes n m d s).
Proof.
  unfold in_space. induction n as [|n IH]; intros m d s Hm Hd Hs Ho; cbn [copy_bytes]; [apply copied_none|].
  rewrite (u32_small (d + 1)), (u32_small (s + 1)) by lia. replace (Z.of_nat (S n)) with (1 + Z.of_nat n) by lia.
  eapply copied_forward; [lia|lia|lia|apply copy_byte, Hm|]. apply IH; auto; lia.
Qed.

(** The word loop copies a multiple of four and leaves fewer than four bytes. *)
Lemma copy_words_spec n : forall m d s, bytes m -> in_space d n -> in_space s n -> d <= s \/ s + Z.of_nat n <= d ->
  exists k m' r, copy_words n m d s = (m', d + k, s + k, r) /\ 0 <= k /\ Z.of_nat n = k + Z.of_nat r /\ (r < 4)%nat /\
    bytes m' /\ copied m d s k m'.
Proof.
  unfold in_space. induction n as [| | | |n IH] using nat_ind4; intros m d s Hm Hd Hs Ho; cbn [copy_words];
    [exists 0, m; eexists; rewrite !Z.add_0_r; split; [reflexivity|]; repeat split; solve [lia|assumption|apply copied_none|apply Hm]..|].
  rewrite (u32_small (d + 4)), (u32_small (s + 4)) by lia.
  destruct (IH (store_word m d (load_word m s)) (d + 4) (s + 4)) as (k & m' & r & -> & Hk & Hn & Hr & Hb & Hc); [auto|lia..|].
  exists (4 + k), m', r. rewrite !Z.add_assoc. split; [reflexivity|]. repeat split; [lia|lia|exact Hr|apply Hb|apply Hb|].
  eapply copied_forward; [lia|lia|lia|apply copy_word, Hm|exact Hc].
Qed.

Lemma memcpy_spec m d s n : bytes m -> in_space d n -> in_space s n -> d <= s \/ s + Z.of_nat n <= d ->
  copied m d s (Z.of_nat n) (aeabi_memcpy_impl m d s n).
Proof.
  intros Hm Hd Hs Ho. unfold aeabi_memcpy_impl. destruct (Nat.eqb_spec n 0) as [->|Hn]; [apply copied_none|].
  destruct (Z.eqb_spec d s) as [->|He]; [apply copied_same|]. cbn [orb].
  destruct ((d ||| s) &&& (4 - 1) =? 0); [|apply copy_bytes_spec; assumption].
  destruct (copy_words_spec n m d s Hm Hd Hs Ho) as (k & m' & r & -> & Hk & En & Hr & Hb & Hc). rewrite En.
  unfold in_space in *. eapply copied_forward; [lia|lia|lia|exact Hc|]. apply copy_bytes_spec; unfold in_space; auto; lia.
Qed.

Lemma copy_back_spec n : forall m d s, bytes m -> in_space d n -> in_space s n -> s <= d ->
  copied m d s (Z.of_nat n) (copy_back n m (d + Z.of_nat n) (s + Z.of_nat n)).
Proof.
  unfold in_space. induction n as [|n IH]; intros m d s Hm Hd Hs Ho; cbn [copy_back]; [apply copied_none|]. cbv zeta.
  replace (d + Z.of_nat (S n) - 1) with (d + Z.of_nat n) by lia. replace (s + Z.of_nat (S n) - 1) with (s + Z.of_nat n) by lia.
  rewrite (u32_small (d + _)), (u32_small (s + _)) by lia. replace (Z.of_nat (S n)) with (Z.of_nat n + 1) by lia.
  eapply copied_backward; [lia|exact Ho|apply copy_byte, Hm|]. apply IH; auto; lia.
Qed.

Lemma fill_bytes_spec v n : 0 <= v < 256 -> forall m d, in_space d n -> filled m d (Z.of_nat n) v (fill_bytes n m d v).
Proof.
  unfold in_space. intros Hv. induction n as [|n IH]; intros m d Hd; cbn [fill_bytes]; [apply filled_none|].
  rewrite u32_small by lia. replace (Z.of_nat (S n)) with (1 + Z.of_nat n) by lia. eapply filled_join; [lia|lia| |apply IH; lia].
  intros a. unfold store_byte. pose proof (byte_id (fun _ => v) 0 (fun _ => Hv)) as E. cbn beta in E. rewrite E.
  destruct (Z.eqb_spec a d); split_ranges; try lia; reflexivity.
Qed.

Lemma pattern_bytes v : 0 <= v < 256 -> byte_pattern 4 v 0 = v ||| (v <<< 8) ||| (v <<< 16) ||| (v <<< 24).
Proof.
  intros Hv. cbn [byte_pattern]. change (0 <<< 8) with 0. rewrite Z.lor_0_l.
  rewrite (shl32_mul v 8), (shl32_mul v 16), (shl32_mul v 24) by lia. rewrite (lor_fields v v 8) by lia.
  rewrite (shl32_mul (v * 2 ^ 8 + v)) by lia. rewrite (lor_fields (v * 2 ^ 8 + v) v 8) by lia.
  rewrite shl32_mul by lia. rewrite (lor_fields ((v * 2 ^ 8 + v) * 2 ^ 8 + v) v 8) by lia.
  rewrite (Z.lor_comm v), (lor_fields v v 8) by lia. rewrite (Z.lor_comm (_ + _)), (lor_fields v _ 16) by lia.
  rewrite Z.lor_comm, lor_fields by lia. lia.
Qed.

Lemma fill_word m d v : 0 <= v < 256 -> filled m d 4 v (store_word m d (byte_pattern 4 v 0)).
Proof.
  intros Hv a. rewrite store_word_at, pattern_bytes by exact Hv. destruct (word_byte v v v v Hv Hv Hv Hv) as (-> & -> & -> & ->).
  destruct (Z.eqb_spec a (d + 3)), (Z.eqb_spec a (d + 2)), (Z.eqb_spec a (d + 1)), (Z.eqb_spec a d); split_ranges; try lia; reflexivity.
Qed.

Lemma fill_words_spec v n : 0 <= v < 256 -> forall m d, in_space d n ->
  exists k m' r, fill_words n m d (byte_pattern 4 v 0) = (m', d + k, r) /\ 0 <= k /\ Z.of_nat n = k + Z.of_nat r /\ filled m d k v m'.
Proof.
  unfold in_space. intros Hv. induction n as [| | | |n IH] using nat_ind4; intros m d Hd; cbn [fill_words];
    [exists 0, m; eexists; rewrite Z.add_0_r; split; [reflexivity|]; repeat split; solve [lia|apply filled_none]..|].
  rewrite (u32_small (d + 4)) by lia. destruct (IH (store_word m d (byte_pattern 4 v 0)) (d + 4)) as (k & m' & r & -> & Hk & Hn & Hf); [lia|].
  exists (4 + k), m', r. rewrite Z.add_assoc. split; [reflexivity|]. split; [lia|]. split; [lia|]. eapply filled_join; [lia|lia|apply fill_word, Hv|exact Hf].
Qed.

(** ** The contract *)

(** [__aeabi_memmove] leaves at the destination the bytes the source held
    before the call, whatever the overlap and alignment, and changes no other
    byte; [__aeabi_memset] fills exactly its range with the low byte of its
    argument. *)
Theorem memory_routines m d s n c : bytes m -> in_space d n -> in_space s n ->
  copied m d s (Z.of_nat n) (aeabi_memmove_impl m d s n) /\ filled m d (Z.of_nat n) (c mod 256) (aeabi_memset m d n c).
Proof.
  intros Hm Hd Hs. split.
  - unfold aeabi_memmove_impl. destruct (Nat.eqb_spec n 0) as [->|Hn]; [apply copied_none|].
    destruct (Z.eqb_spec d s) as [->|He]; [apply copied_same|]. cbn [orb]. pose proof Hd as [? ?]. pose proof Hs as [? ?].
    rewrite (u32_small (s + _)), (u32_small (d + _)) by lia.
    destruct (Z.ltb_spec d s), (Z.leb_spec (s + Z.of_nat n) d); cbn [orb]; first [apply memcpy_spec; solve [assumption|lia]|apply copy_back_spec; solve [assumption|lia]].
  - unfold aeabi_memset. change 0xFF with (2 ^ 8 - 1). rewrite land_mask by lia. change (2 ^ 8) with 256.
    pose proof (Z.mod_pos_bound c 256 ltac:(lia)) as Hv. destruct (Nat.eqb_spec n 0) as [->|Hn]; [apply filled_none|].
    destruct (d &&& (4 - 1) =? 0); [|apply fill_bytes_spec; assumption].
    destruct (fill_words_spec (c mod 256) n Hv m d Hd) as (k & m' & r & -> & Hk & En & Hf). rewrite En.
    eapply filled_join; [lia|lia|exact Hf|]. unfold in_space in Hd. apply fill_bytes_spec; unfold in_space; [exact Hv|lia].
Qed.

(** An overlapping move up by two, over the bytes 0 .. 255. *)
Lemma memory_routines_witness : aeabi_memmove_impl (fun a => a mod 256) 2 0 9 10 = 8 /\ aeabi_memset (fun a => a mod 256) 4 7 (-1) 10 = 255.
Proof.
  assert (bytes (fun a => a mod 256)) as H by (intros a; apply Z.mod_pos_bound; reflexivity).
  split; [exact (proj1 (memory_routines _ 2 0 9 0 H ltac:(split; cbn; lia) ltac:(split; cbn; lia)) 10)|].
  exact (proj2 (memory_routines _ 4 0 7 (-1) H ltac:(split; cbn; lia) ltac:(split; cbn; lia)) 10).
Defined.
