(* ===== verification/Cfg.v ===== *)
(** * Control-flow graph and dominator tree

    [src/source/ir/cfg.c].  An instruction is its opcode with the operands the
    file reads: the jump target, the table of a switch, the labels of an asm
    goto, and whether the callee is known not to return.  The scratch arrays
    of the passes are functions from indices, each cell written before it is
    read; the slices of the edge store are lists.  Block and instruction
    indices are [int]s, -1 where the source uses it for "none". *)

From S2P Require Import Prelude.
Local Open Scope Z_scope.
Local Open Scope c_scope.

(** ** The intermediate code, as far as the graph reads it *)

Inductive TccIrOp :=
| OP_JUMP | OP_JUMPIF | OP_INLINE_ASM | OP_SWITCH_TABLE | OP_SWITCH_LOAD | OP_RETURNVALUE | OP_RETURNVOID
| OP_IJUMP | OP_TRAP | OP_FUNCCALLVAL | OP_FUNCCALLVOID | OP_OTHER (code : Z).

Record IRQuad := {
  q_op : TccIrOp;
  q_dest_imm : Z;              (* tcc_ir_op_dest_imm *)
  q_src2_imm : Z;              (* tcc_ir_op_src2_imm *)
  q_labels : list Z;           (* the targets of the labels of an inline asm *)
  q_noreturn : bool            (* tcc_ir_callee_is_noreturn(tcc_ir_op_src1_sym) *)
}.

Record TCCIRSwitchTable := { st_targets : list Z; st_default_target : Z }.

Record TCCIRState := { compact_instructions : list IRQuad; switch_tables : list TCCIRSwitchTable }.

Definition next_instruction_index (ir : TCCIRState) : Z := Z.of_nat (length (compact_instructions ir)).

Definition tcc_ir_cfg_instr_ends_flow (q : IRQuad) : bool :=
  match q_op q with
  | OP_TRAP => true
  | OP_FUNCCALLVAL | OP_FUNCCALLVOID => q_noreturn q
  | _ => false
  end.

(** The targets [tcc_ir_asm_goto_target(ir, q, 0)], [1], ... up to the first negative one. *)
Fixpoint until_negative (l : list Z) : list Z :=
  match l with
  | [] => []
  | t :: l => if t <? 0 then [] else t :: until_negative l
  end.

Definition asm_goto_targets (q : IRQuad) : list Z :=
  match q_op q with OP_INLINE_ASM => until_negative (q_labels q) | _ => [] end.

Definition switch_table (ir : TCCIRState) (q : IRQuad) : option TCCIRSwitchTable :=
  let table_id := q_src2_imm q in
  if table_id <? 0 then None else switch_tables ir !! Z.to_nat table_id.

(** ** The graph *)

Record IRBasicBlock := {
  start_idx : Z; end_idx : Z; succs : list Z; preds : list Z; idom : Z; rpo_number : Z;
  dom_frontier : list Z; dom_children : list Z
}.

Definition num_succs (bb : IRBasicBlock) : Z := Z.of_nat (length (succs bb)).
Definition num_preds (bb : IRBasicBlock) : Z := Z.of_nat (length (preds bb)).

Definition no_block : IRBasicBlock :=
  {| start_idx := 0; end_idx := 0; succs := []; preds := []; idom := -1; rpo_number := -1; dom_frontier := []; dom_children := [] |}.

Record IRCFG := {
  blocks : list IRBasicBlock; instr_to_block : list Z; rpo_order : list Z;
  dom_tin : Z -> Z; dom_tout : Z -> Z; dom_dfs_count : Z
}.

Definition num_blocks (cfg : IRCFG) : Z := Z.of_nat (length (blocks cfg)).
Definition num_instrs (cfg : IRCFG) : Z := Z.of_nat (length (instr_to_block cfg)).
Definition rpo_count (cfg : IRCFG) : Z := Z.of_nat (length (rpo_order cfg)).

Definition block_at (bs : list IRBasicBlock) (b : Z) : IRBasicBlock := nth (Z.to_nat b) bs no_block.

(** [blocks[b].field = ...] *)
Definition set_block (bs : list IRBasicBlock) (b : Z) (f : IRBasicBlock -> IRBasicBlock) : list IRBasicBlock :=
  <[Z.to_nat b := f (block_at bs b)]> bs.

Definition set_end (e : Z) (bb : IRBasicBlock) : IRBasicBlock :=
  {| start_idx := start_idx bb; end_idx := e; succs := succs bb; preds := preds bb; idom := idom bb; rpo_number := rpo_number bb;
     dom_frontier := dom_frontier bb; dom_children := dom_children bb |}.
Definition add_succ (s : Z) (bb : IRBasicBlock) : IRBasicBlock :=
  {| start_idx := start_idx bb; end_idx := end_idx bb; succs := succs bb ++ [s]; preds := preds bb; idom := idom bb; rpo_number := rpo_number bb;
     dom_frontier := dom_frontier bb; dom_children := dom_children bb |}.
Definition add_pred (p : Z) (bb : IRBasicBlock) : IRBasicBlock :=
  {| start_idx := start_idx bb; end_idx := end_idx bb; succs := succs bb; preds := preds bb ++ [p]; idom := idom bb; rpo_number := rpo_number bb;
     dom_frontier := dom_frontier bb; dom_children := dom_children bb |}.
Definition set_idom (d : Z) (bb : IRBasicBlock) : IRBasicBlock :=
  {| start_idx := start_idx bb; end_idx := end_idx bb; succs := succs bb; preds := preds bb; idom := d; rpo_number := rpo_number bb;
     dom_frontier := dom_frontier bb; dom_children := dom_children bb |}.
Definition set_rpo (r : Z) (bb : IRBasicBlock) : IRBasicBlock :=
  {| start_idx := start_idx bb; end_idx := end_idx bb; succs := succs bb; preds := preds bb; idom := idom bb; rpo_number := r;
     dom_frontier := dom_frontier bb; dom_children := dom_children bb |}.
Definition add_df (d : Z) (bb : IRBasicBlock) : IRBasicBlock :=
  {| start_idx := start_idx bb; end_idx := end_idx bb; succs := succs bb; preds := preds bb; idom := idom bb; rpo_number := rpo_number bb;
     dom_frontier := dom_frontier bb ++ [d]; dom_children := dom_children bb |}.
Definition add_child (c : Z) (bb : IRBasicBlock) : IRBasicBlock :=
  {| start_idx := start_idx bb; end_idx := end_idx bb; succs := succs bb; preds := preds bb; idom := idom bb; rpo_number := rpo_number bb;
     dom_frontier := dom_frontier bb; dom_children := dom_children bb ++ [c] |}.
Definition clear_dom (bb : IRBasicBlock) : IRBasicBlock :=
  {| start_idx := start_idx bb; end_idx := end_idx bb; succs := succs bb; preds := preds bb; idom := idom bb; rpo_number := rpo_number bb;
     dom_frontier := []; dom_children := [] |}.

Definition with_blocks (cfg : IRCFG) (bs : list IRBasicBlock) : IRCFG :=
  {| blocks := bs; instr_to_block := instr_to_block cfg; rpo_order := rpo_order cfg; dom_tin := dom_tin cfg; dom_tout := dom_tout cfg; dom_dfs_count := dom_dfs_count cfg |}.

(** [a[i] = v] on a scratch array. *)
Definition aset (a : Z -> Z) (i v : Z) : Z -> Z := fun j => if j =? i then v else a j.

(** ** Construction *)

(** The entries of [is_leader] instruction [i] sets. *)
Definition leader_marks (ir : TCCIRState) (i : Z) (q : IRQuad) : list Z :=
  asm_goto_targets q ++
  match q_op q with OP_JUMP | OP_JUMPIF => [q_dest_imm q] | _ => [] end ++
  match q_op q with
  | OP_SWITCH_TABLE => match switch_table ir q with Some t => st_targets t ++ [st_default_target t] | None => [] end
  | _ => []
  end ++
  (if match q_op q with
      | OP_JUMP | OP_JUMPIF | OP_RETURNVALUE | OP_RETURNVOID | OP_IJUMP | OP_SWITCH_TABLE => true
      | OP_INLINE_ASM => negb (Nat.eqb (length (asm_goto_targets q)) 0)
      | _ => false
      end || tcc_ir_cfg_instr_ends_flow q
   then [i + 1] else []).

Definition set_leader (n : Z) (f : Z -> bool) (t : Z) : Z -> bool :=
  if (0 <=? t) && (t <? n) then fun j => (j =? t) || f j else f.

Fixpoint find_leaders (ir : TCCIRState) (i : Z) (l : list IRQuad) (f : Z -> bool) : Z -> bool :=
  match l with
  | [] => f
  | q :: l => find_leaders ir (i + 1) l (fold_left (set_leader (next_instruction_index ir)) (leader_marks ir i q) f)
  end.

Definition is_leader (ir : TCCIRState) : Z -> bool := find_leaders ir 0 (compact_instructions ir) (fun j => j =? 0).

Definition new_block (i : Z) : IRBasicBlock :=
  {| start_idx := i; end_idx := 0; succs := []; preds := []; idom := -1; rpo_number := -1; dom_frontier := []; dom_children := [] |}.

(** The loop that creates the blocks: [k] instructions left, from [i] on. *)
Fixpoint make_blocks (leader : Z -> bool) (k : nat) (i : Z) (bs : list IRBasicBlock) (i2b : list Z) : list IRBasicBlock * list Z :=
  match k with
  | O => (bs, i2b)
  | S k =>
      let bi := Z.of_nat (length bs) - 1 in
      let bs := if leader i then (if 0 <=? bi then set_block bs bi (set_end i) else bs) ++ [new_block i] else bs in
      make_blocks leader k (i + 1) bs (i2b ++ [Z.of_nat (length bs) - 1])
  end.

(** The targets [cfg_build_edges] visits for block [b], in order; the flag says
    that they come from a switch table. *)
Definition in_code (n t : Z) : bool := (0 <=? t) && (t <? n).

Definition block_edges (ir : TCCIRState) (cfg : IRCFG) (b : Z) : list Z * bool :=
  let n := num_instrs cfg in
  let to t := nth (Z.to_nat t) (instr_to_block cfg) 0 in
  let next := if b + 1 <? num_blocks cfg then [b + 1] else [] in
  let bb := block_at (blocks cfg) b in
  let last := end_idx bb - 1 in
  if last <? start_idx bb then ([], false)
  else
    match compact_instructions ir !! Z.to_nat last with
    | None => ([], false)
    | Some q =>
        match q_op q with
        | OP_JUMP => (if in_code n (q_dest_imm q) then [to (q_dest_imm q)] else [], false)
        | OP_JUMPIF => ((if in_code n (q_dest_imm q) then [to (q_dest_imm q)] else []) ++ next, false)
        | OP_INLINE_ASM => (map to (List.filter (fun t => t <? n) (asm_goto_targets q)) ++ next, false)
        | OP_SWITCH_TABLE =>
            (match switch_table ir q with Some t => map to (List.filter (in_code n) (st_targets t)) | None => [] end, true)
        | OP_RETURNVALUE | OP_RETURNVOID | OP_IJUMP => ([], false)
        | _ => (if tcc_ir_cfg_instr_ends_flow q then [] else next, false)
        end
    end.

(** The counting pass: the sizes of the slices, [(num_succs, num_preds)] per block. The
    counters are of type [ir_block_idx_t], whose largest value is [max]: [int16_t] or
    [int], as [TCC_IR_MAX_BLOCKS] is 0x7FFF or 0x7FFFFFFF. Duplicates are counted, so that
    a large switch table can pass it; [None] stands for a counter that would wrap to a
    negative number, after which the slices are too small. *)
Definition count_edge (max b : Z) (cnt : option ((Z -> Z) * (Z -> Z))) (to : Z) : option ((Z -> Z) * (Z -> Z)) :=
  match cnt with
  | Some (ns, np) => if (ns b <? max) && (np to <? max) then Some (aset ns b (ns b + 1), aset np to (np to + 1)) else None
  | None => None
  end.

Definition count_edges (max : Z) (ir : TCCIRState) (cfg : IRCFG) : option ((Z -> Z) * (Z -> Z)) :=
  fold_left (fun cnt b => fold_left (count_edge max b) (fst (block_edges ir cfg b)) cnt) (seqZ 0 (num_blocks cfg)) (Some (fun _ => 0, fun _ => 0)).

(** The filling pass. *)
Definition cfg_add_edge (bs : list IRBasicBlock) (from to : Z) : list IRBasicBlock :=
  let bs := if existsb (Z.eqb to) (succs (block_at bs from)) then bs else set_block bs from (add_succ to) in
  set_block bs to (add_pred from).

Definition switch_edge (b : Z) (st : list IRBasicBlock * (Z -> Z)) (to : Z) : list IRBasicBlock * (Z -> Z) :=
  let '(bs, seen) := st in
  let '(bs, seen) := if negb (seen to =? b) then (set_block bs b (add_succ to), aset seen to b) else (bs, seen) in
  (set_block bs to (add_pred b), seen).

Definition fill_block (ir : TCCIRState) (cfg : IRCFG) (st : list IRBasicBlock * (Z -> Z)) (b : Z) : list IRBasicBlock * (Z -> Z) :=
  let '(bs, seen) := st in
  let '(es, is_switch) := block_edges ir cfg b in
  if is_switch then fold_left (switch_edge b) es (bs, seen)
  else (fold_left (fun bs to => cfg_add_edge bs b to) es bs, seen).

Definition fill_edges (ir : TCCIRState) (cfg : IRCFG) : list IRBasicBlock :=
  fst (fold_left (fill_block ir cfg) (seqZ 0 (num_blocks cfg)) (blocks cfg, fun _ => -1)).

(** [BuildTooLarge] is the error the code raises; [BuildOverflow] is the counter of the
    counting pass wrapping, which it does not notice. *)
Inductive build_result := BuildNone | BuildTooLarge | BuildOverflow | BuildOk (cfg : IRCFG).

Definition cfg_shape (ir : TCCIRState) : IRCFG :=
  let n := next_instruction_index ir in
  let '(bs, i2b) := make_blocks (is_leader ir) (Z.to_nat n) 0 [] [] in
  let bs := set_block bs (Z.of_nat (length bs) - 1) (set_end n) in
  {| blocks := bs; instr_to_block := i2b; rpo_order := []; dom_tin := fun _ => 0; dom_tout := fun _ => 0; dom_dfs_count := 0 |}.

(** [max_blocks] and [max_instrs] are [TCC_IR_MAX_BLOCKS], which is also the largest
    [ir_block_idx_t], and [TCC_IR_ORIG_INDEX_MAX] of the build. *)
Definition tcc_ir_cfg_build (max_blocks max_instrs : Z) (ir : TCCIRState) : build_result :=
  let n := next_instruction_index ir in
  if n =? 0 then BuildNone
  else
    let nb := Z.of_nat (length (List.filter (is_leader ir) (seqZ 0 n))) in
    if (max_blocks <? nb) || (max_instrs <? n) then BuildTooLarge
    else
      let cfg := cfg_shape ir in
      match count_edges max_blocks ir cfg with
      | Some _ => BuildOk (with_blocks cfg (fill_edges ir cfg))
      | None => BuildOverflow
      end.

(** ** Depth-first search

    The explicit-stack loop of [tcc_ir_cfg_compute_rpo] and of the numbering in
    [tcc_ir_cfg_compute_dominators]: a frame is a block and the index of its next
    successor; [fresh] tests the mark of a block, [enter] and [leave] are what the
    loop does when it pushes and pops one. *)

Section Dfs.
Context {St : Type} (nb : Z) (succs_of : Z -> list Z) (fresh : St -> Z -> bool) (enter : St -> Z -> Z -> St) (leave : St -> Z -> St).

Fixpoint dfs_loop (fuel : nat) (st : St) (stack : list (Z * nat)) : option St :=
  match stack with
  | [] => Some st
  | (b, ci) :: rest =>
      match fuel with
      | O => None
      | S fuel =>
          match succs_of b !! ci with
          | Some s =>
              if (0 <=? s) && (s <? nb) && fresh st s then dfs_loop fuel (enter st b s) ((s, O) :: (b, S ci) :: rest)
              else dfs_loop fuel st ((b, S ci) :: rest)
          | None => dfs_loop fuel (leave st b) rest
          end
      end
  end.
End Dfs.

(** Each iteration takes an edge or pops a block. *)
Definition dfs_fuel (cfg : IRCFG) : nat := list_sum (map (fun bb => S (length (succs bb))) (blocks cfg)).

Definition succs_at (cfg : IRCFG) (b : Z) : list Z := succs (block_at (blocks cfg) b).

(** [(visited, postorder)] *)
Definition rpo_state : Type := (Z -> bool) * list Z.

Definition rpo_search (cfg : IRCFG) : option rpo_state :=
  dfs_loop (num_blocks cfg) (succs_at cfg) (fun st s => negb (fst st s))
    (fun st _ s => (fun j => (j =? s) || fst st j, snd st))
    (fun st b => (fst st, snd st ++ [b]))
    (dfs_fuel cfg) (fun j => j =? 0, []) [(0, O)].

(** The loop that numbers the blocks. *)
Fixpoint number_rpo (i : Z) (order : list Z) (bs : list IRBasicBlock) : list IRBasicBlock :=
  match order with
  | [] => bs
  | b :: order => number_rpo (i + 1) order (set_block bs b (set_rpo i))
  end.

Definition tcc_ir_cfg_compute_rpo (cfg : IRCFG) : option IRCFG :=
  if num_blocks cfg =? 0 then Some cfg
  else
    match rpo_search cfg with
    | None => None
    | Some (_, postorder) =>
        let order := rev postorder in
        Some {| blocks := number_rpo 0 order (blocks cfg); instr_to_block := instr_to_block cfg; rpo_order := order;
                dom_tin := dom_tin cfg; dom_tout := dom_tout cfg; dom_dfs_count := dom_dfs_count cfg |}
    end.

(** ** Dominators *)

Record dom_state := { ds_pre : Z -> Z; ds_vertex : Z -> Z; ds_parent : Z -> Z; ds_np : Z }.

Definition dom_enter (st : dom_state) (b s : Z) : dom_state :=
  {| ds_pre := aset (ds_pre st) s (ds_np st); ds_vertex := aset (ds_vertex st) (ds_np st) s;
     ds_parent := aset (ds_parent st) (ds_np st) (ds_pre st b); ds_np := ds_np st + 1 |}.

Definition dom_search (cfg : IRCFG) : option dom_state :=
  dfs_loop (num_blocks cfg) (succs_at cfg) (fun st s => ds_pre st s <? 0) dom_enter (fun st _ => st)
    (dfs_fuel cfg) {| ds_pre := fun j => if j =? 0 then 0 else -1; ds_vertex := fun _ => 0; ds_parent := fun _ => 0; ds_np := 1 |} [(0, O)].

(** [while (ancestor[ancestor[u]] >= 0) { stk[sp++] = u; u = ancestor[u]; }] *)
Fixpoint eval_climb (fuel : nat) (ancestor : Z -> Z) (u : Z) (stk : list Z) : list Z :=
  match fuel with
  | O => stk
  | S fuel => if 0 <=? ancestor (ancestor u) then eval_climb fuel ancestor (ancestor u) (u :: stk) else stk
  end.

(** The unwinding, top of the stack first. *)
Fixpoint eval_unwind (stk : list Z) (semi : Z -> Z) (ancestor label : Z -> Z) : (Z -> Z) * (Z -> Z) :=
  match stk with
  | [] => (ancestor, label)
  | x :: stk =>
      let a := ancestor x in
      let label := if semi (label a) <? semi (label x) then aset label x (label a) else label in
      eval_unwind stk semi (aset ancestor x (ancestor a)) label
  end.

(** [np] bounds the climb: an ancestor has a smaller number.  The result with the updated arrays. *)
Definition cfg_snca_eval (np : Z) (v : Z) (ancestor label semi : Z -> Z) : Z * ((Z -> Z) * (Z -> Z)) :=
  if ancestor v <? 0 then (v, (ancestor, label))
  else
    let '(ancestor, label) := eval_unwind (eval_climb (Z.to_nat np) ancestor v []) semi ancestor label in
    (label v, (ancestor, label)).

(** [(semi, (ancestor, label))] *)
Definition snca_state : Type := (Z -> Z) * ((Z -> Z) * (Z -> Z)).

Definition semi_pred (nb np : Z) (pre : Z -> Z) (w : Z) (st : snca_state) (p : Z) : snca_state :=
  let '(semi, (ancestor, label)) := st in
  if (p <? 0) || (nb <=? p) || (pre p <? 0) then st
  else
    let '(u, al) := cfg_snca_eval np (pre p) ancestor label semi in
    (if semi u <? semi w then aset semi w (semi u) else semi, al).

Definition semi_vertex (cfg : IRCFG) (d : dom_state) (st : snca_state) (w : Z) : snca_state :=
  let '(semi, (ancestor, label)) :=
    fold_left (semi_pred (num_blocks cfg) (ds_np d) (ds_pre d) w) (preds (block_at (blocks cfg) (ds_vertex d w))) st in
  (semi, (aset ancestor w (ds_parent d w), label)).

(** [for (w = np - 1; w >= 1; w--)] *)
Definition semidominators (cfg : IRCFG) (d : dom_state) : snca_state :=
  fold_left (semi_vertex cfg d) (rev (seqZ 1 (ds_np d - 1))) (fun i => i, (fun _ => -1, fun i => i)).

(** [while (a > semi[w]) a = idom_pre[a];] *)
Fixpoint nca_climb (fuel : nat) (bound : Z) (idom_pre : Z -> Z) (a : Z) : Z :=
  match fuel with
  | O => a
  | S fuel => if bound <? a then nca_climb fuel bound idom_pre (idom_pre a) else a
  end.

Definition idom_vertex (d : dom_state) (semi : Z -> Z) (st : (Z -> Z) * list IRBasicBlock) (w : Z) : (Z -> Z) * list IRBasicBlock :=
  let '(idom_pre, bs) := st in
  let a := nca_climb (Z.to_nat (ds_np d)) (semi w) idom_pre (ds_parent d w) in
  (aset idom_pre w a, set_block bs (ds_vertex d w) (set_idom (ds_vertex d a))).

Definition dominator_tree (cfg : IRCFG) (d : dom_state) : list IRBasicBlock :=
  let '(semi, (ancestor, _)) := semidominators cfg d in
  snd (fold_left (idom_vertex d semi) (seqZ 1 (ds_np d - 1)) (aset ancestor 0 0, blocks cfg)).

(** ** Stamps over the dominator tree *)

Definition tree_child (cfg : IRCFG) (b : Z) : bool :=
  let p := idom (block_at (blocks cfg) b) in negb (b =? 0) && (0 <=? p) && negb (p =? b).

Definition child_counts (cfg : IRCFG) : Z -> Z :=
  fold_left (fun ccount b =>
    if tree_child cfg b then let p := idom (block_at (blocks cfg) b) in aset ccount p (ccount p + 1) else ccount)
    (rpo_order cfg) (fun _ => 0).

Definition child_starts (cfg : IRCFG) : Z -> Z :=
  fold_left (fun cstart i => aset cstart (i + 1) (cstart i + child_counts cfg i)) (seqZ 0 (num_blocks cfg)) (fun _ => 0).

(** [chld[nxt[p]++] = b] for the blocks in reverse postorder: [(chld, nxt)]. *)
Definition child_fill (cfg : IRCFG) : (Z -> Z) * (Z -> Z) :=
  fold_left (fun st b =>
    if tree_child cfg b then
      let p := idom (block_at (blocks cfg) b) in (aset (fst st) (snd st p) b, aset (snd st) p (snd st p + 1))
    else st)
    (rpo_order cfg) (fun _ => 0, child_starts cfg).

Record stamp_state := { ss_nxt : Z -> Z; ss_tin : Z -> Z; ss_tout : Z -> Z; ss_clock : Z }.

Fixpoint stamp_loop (fuel : nat) (cstart chld : Z -> Z) (st : stamp_state) (stack : list Z) : option stamp_state :=
  match stack with
  | [] => Some st
  | b :: rest =>
      match fuel with
      | O => None
      | S fuel =>
          if ss_nxt st b <? cstart (b + 1) then
            let c := chld (ss_nxt st b) in
            stamp_loop fuel cstart chld
              {| ss_nxt := aset (ss_nxt st) b (ss_nxt st b + 1); ss_tin := aset (ss_tin st) c (ss_clock st); ss_tout := ss_tout st; ss_clock := ss_clock st + 1 |}
              (c :: stack)
          else
            stamp_loop fuel cstart chld
              {| ss_nxt := ss_nxt st; ss_tin := ss_tin st; ss_tout := aset (ss_tout st) b (ss_clock st); ss_clock := ss_clock st + 1 |}
              rest
      end
  end.

(** Two stamps per block. *)
Definition stamp_tree (cfg : IRCFG) : option IRCFG :=
  let none := fun _ : Z => -1 in
  let cstart := child_starts cfg in
  match
    (if 0 <? rpo_count cfg
     then stamp_loop (2 * length (blocks cfg)) cstart (fst (child_fill cfg)) {| ss_nxt := cstart; ss_tin := aset none 0 0; ss_tout := none; ss_clock := 1 |} [0]
     else Some {| ss_nxt := cstart; ss_tin := none; ss_tout := none; ss_clock := 0 |})
  with
  | None => None
  | Some st =>
      Some {| blocks := blocks cfg; instr_to_block := instr_to_block cfg; rpo_order := rpo_order cfg;
              dom_tin := ss_tin st; dom_tout := ss_tout st; dom_dfs_count := num_blocks cfg |}
  end.

Definition tcc_ir_cfg_compute_dominators (cfg : IRCFG) : option IRCFG :=
  if num_blocks cfg =? 0 then Some cfg
  else
    match tcc_ir_cfg_compute_rpo cfg with
    | None => None
    | Some cfg =>
        let cfg := with_blocks cfg (set_block (blocks cfg) 0 (set_idom 0)) in
        if 1 <? num_blocks cfg then
          match dom_search cfg with
          | None => None
          | Some d => stamp_tree (with_blocks cfg (dominator_tree cfg d))
          end
        else stamp_tree cfg
    end.

(** The chain walk, for a graph without stamps. *)
Fixpoint dominates_walk (fuel : nat) (bs : list IRBasicBlock) (a b : Z) : bool :=
  match fuel with
  | O => false
  | S fuel =>
      if b <? 0 then false
      else if b =? a then true
      else if b =? idom (block_at bs b) then b =? a
      else dominates_walk fuel bs a (idom (block_at bs b))
  end.

Definition tcc_ir_cfg_dominates (cfg : IRCFG) (a b : Z) : bool :=
  let nb := num_blocks cfg in
  if (a <? 0) || (b <? 0) || (nb <=? a) || (nb <=? b) then false
  else if a =? b then true
  else if (a <? dom_dfs_count cfg) && (b <? dom_dfs_count cfg) then
    if (dom_tin cfg a <? 0) || (dom_tin cfg b <? 0) then false
    else (dom_tin cfg a <? dom_tin cfg b) && (dom_tout cfg b <? dom_tout cfg a)
  else dominates_walk (length (blocks cfg)) (blocks cfg) a b.

(** ** Dominance frontiers *)

(** [while (runner != bb->idom && steps < nb)]: [(last_df, blocks)]. *)
Fixpoint df_runner (fuel : nat) (b stop : Z) (runner : Z) (last_df : Z -> Z) (bs : list IRBasicBlock) : (Z -> Z) * list IRBasicBlock :=
  match fuel with
  | O => (last_df, bs)
  | S fuel =>
      if runner =? stop then (last_df, bs)
      else if last_df runner =? b then (last_df, bs)
      else
        let last_df := aset last_df runner b in
        let up := idom (block_at bs runner) in
        let bs := set_block bs runner (add_df b) in
        if runner =? up then (last_df, bs)
        else if up <? 0 then (last_df, bs)
        else df_runner fuel b stop up last_df bs
  end.

Definition df_pred (nb b : Z) (st : (Z -> Z) * list IRBasicBlock) (runner : Z) : (Z -> Z) * list IRBasicBlock :=
  let '(last_df, bs) := st in
  if (runner <? 0) || (idom (block_at bs runner) <? 0) then st
  else df_runner (Z.to_nat nb) b (idom (block_at bs b)) runner last_df bs.

Definition df_block (nb : Z) (st : (Z -> Z) * list IRBasicBlock) (b : Z) : (Z -> Z) * list IRBasicBlock :=
  let bb := block_at (snd st) b in
  if num_preds bb <? 2 then st
  else if idom bb <? 0 then st
  else fold_left (df_pred nb b) (preds bb) st.

Definition cfg_df_walk (nb : Z) (bs : list IRBasicBlock) : list IRBasicBlock :=
  snd (fold_left (df_block nb) (seqZ 0 nb) (fun _ => -1, bs)).

Definition child_block (bs : list IRBasicBlock) (b : Z) : list IRBasicBlock :=
  let d := idom (block_at bs b) in
  if (0 <=? d) && negb (d =? b) then set_block bs d (add_child b) else bs.

Definition tcc_ir_cfg_compute_dom_frontiers (cfg : IRCFG) : IRCFG :=
  if num_blocks cfg =? 0 then cfg
  else
    let nb := num_blocks cfg in
    let bs := map clear_dom (blocks cfg) in
    let bs := fold_left child_block (seqZ 1 (nb - 1)) bs in
    with_blocks cfg (cfg_df_walk nb bs).

(** ** Cycles *)

Definition tcc_ir_cfg_flat_has_backedge (ir : TCCIRState) : bool :=
  existsb (fun iq => let '(i, q) := iq in
    existsb (fun t => t <=? i) (asm_goto_targets q) ||
    match q_op q with
    | OP_IJUMP | OP_SWITCH_TABLE | OP_SWITCH_LOAD => true
    | OP_JUMP | OP_JUMPIF => (0 <=? q_dest_imm q) && (q_dest_imm q <=? i)
    | _ => false
    end)
  (combine (seqZ 0 (next_instruction_index ir)) (compact_instructions ir)).

(** [(indegree, queue)], the queue being the cells [queued_block] up to [tail]. *)
Definition indegrees (cfg : IRCFG) : Z -> Z :=
  fold_left (fun f b => fold_left (fun f s => aset f s (f s + 1)) (succs_at cfg b) f) (seqZ 0 (num_blocks cfg)) (fun _ => 0).

Definition drop_edge (st : (Z -> Z) * list Z) (s : Z) : (Z -> Z) * list Z :=
  let '(indegree, queue) := st in
  let indegree := aset indegree s (indegree s - 1) in
  (indegree, if indegree s =? 0 then queue ++ [s] else queue).

Fixpoint cycle_loop (fuel : nat) (cfg : IRCFG) (head : nat) (st : (Z -> Z) * list Z) : list Z :=
  match fuel with
  | O => snd st
  | S fuel =>
      match snd st !! head with
      | None => snd st
      | Some b => cycle_loop fuel cfg (S head) (fold_left drop_edge (succs_at cfg b) st)
      end
  end.

Definition cycle_queue (cfg : IRCFG) : list Z :=
  let indegree := indegrees cfg in
  cycle_loop (length (blocks cfg)) cfg 0 (indegree, List.filter (fun b => indegree b =? 0) (seqZ 0 (num_blocks cfg))).

(** The graph part of [tcc_ir_cfg_has_cycle]. *)
Definition cfg_cyclic (cfg : IRCFG) : bool := negb (Z.of_nat (length (cycle_queue cfg)) =? num_blocks cfg).

Definition tcc_ir_cfg_has_cycle (max_blocks max_instrs : Z) (ir : TCCIRState) : option bool :=
  if negb (tcc_ir_cfg_flat_has_backedge ir) then Some false
  else if existsb (fun q => match q_op q with OP_IJUMP | OP_SWITCH_TABLE | OP_SWITCH_LOAD => true | _ => false end) (compact_instructions ir) then Some true
  else
    match tcc_ir_cfg_build max_blocks max_instrs ir with
    | BuildNone => Some false
    | BuildTooLarge | BuildOverflow => None
    | BuildOk cfg => Some (cfg_cyclic cfg)
    end.

(** ** An example: a loop with a diamond in its body *)

Definition jump (t : Z) : IRQuad := {| q_op := OP_JUMP; q_dest_imm := t; q_src2_imm := 0; q_labels := []; q_noreturn := false |}.
Definition jumpif (t : Z) : IRQuad := {| q_op := OP_JUMPIF; q_dest_imm := t; q_src2_imm := 0; q_labels := []; q_noreturn := false |}.
Definition work : IRQuad := {| q_op := OP_OTHER 0; q_dest_imm := 0; q_src2_imm := 0; q_labels := []; q_noreturn := false |}.
Definition ret : IRQuad := {| q_op := OP_RETURNVOID; q_dest_imm := 0; q_src2_imm := 0; q_labels := []; q_noreturn := false |}.

(** 0: work; 1: if -> 7; 2: if -> 5; 3: work; 4: -> 6; 5: work; 6: -> 1; 7: ret *)
Definition loop_ir : TCCIRState := {| compact_instructions := [work; jumpif 7; jumpif 5; work; jump 6; work; jump 1; ret]; switch_tables := [] |}.

Definition loop_cfg : IRCFG := match tcc_ir_cfg_build (2 ^ 31 - 1) (2 ^ 31 - 1) loop_ir with BuildOk c => c | _ => cfg_shape loop_ir end.

Example loop_edges : map succs (blocks loop_cfg) = [[1]; [6; 2]; [4; 3]; [5]; [5]; [1]; []].
Proof. vm_compute. reflexivity. Qed.
Example loop_idoms : option_map (fun c => map idom (blocks c)) (tcc_ir_cfg_compute_dominators loop_cfg) = Some [0; 0; 1; 2; 2; 2; 1].
Proof. vm_compute. reflexivity. Qed.
Example loop_frontiers :
  option_map (fun c => map dom_frontier (blocks (tcc_ir_cfg_compute_dom_frontiers c))) (tcc_ir_cfg_compute_dominators loop_cfg)
  = Some [[]; [1]; [1]; [5]; [5]; [1]; []].
Proof. vm_compute. reflexivity. Qed.
Example loop_is_cyclic : tcc_ir_cfg_has_cycle (2 ^ 31 - 1) (2 ^ 31 - 1) loop_ir = Some true.
Proof. vm_compute. reflexivity. Qed.
