(* ===== verification/CfgPaths.v ===== *)
(** * Paths, dominance and depth-first trees

    The graph theory behind [cfg.c], on vertices that are integers: walks through
    vertices with a property, dominance as the absence of a walk that avoids a
    vertex, and the two facts about depth-first numberings that semidominators
    rest on. *)

From S2P Require Import Prelude.
Local Open Scope Z_scope.

Section Walks.
Context (E : Z -> Z -> Prop).

(** A walk whose vertices, both ends included, satisfy [P]. *)
Inductive walk (P : Z -> Prop) (x : Z) : Z -> Prop :=
| walk_refl : P x -> walk P x x
| walk_snoc y z : walk P x y -> E y z -> P z -> walk P x z.

(** The vertices of a path from [x], the last one first. *)
Inductive path (x : Z) : Z -> list Z -> Prop :=
| path_nil : path x x [x]
| path_snoc y z l : path x y l -> E y z -> path x z (z :: l).

Lemma walk_start P x y : walk P x y -> P x.
Proof. induction 1; auto. Qed.

Lemma walk_end P x y : walk P x y -> P y.
Proof. destruct 1; auto. Qed.

Lemma walk_weaken (P Q : Z -> Prop) x y : (forall v, P v -> Q v) -> walk P x y -> walk Q x y.
Proof. intros H W. induction W as [|y z W IH HE HP]; [apply walk_refl; auto|]. eapply walk_snoc; eauto. Qed.

Lemma walk_app P x y z : walk P x y -> walk P y z -> walk P x z.
Proof. intros W1 W2. induction W2 as [|y' z W2 IH HE HP]; [exact W1|]. eapply walk_snoc; eauto. Qed.

Lemma walk_edge P x y : P x -> P y -> E x y -> walk P x y.
Proof. intros. eapply walk_snoc; [apply walk_refl| |]; assumption. Qed.

Lemma walk_cons P x y z : P x -> E x y -> walk P y z -> walk P x z.
Proof. intros Hx HE W. apply (walk_app P x y z); [|exact W]. apply walk_edge; auto. apply walk_start in W. exact W. Qed.

Lemma path_end x y l : path x y l -> y ∈ l.
Proof. destruct 1; left. Qed.

Lemma path_walk P x y l : path x y l -> (forall v, v ∈ l -> P v) -> walk P x y.
Proof.
  intros H. induction H as [|y z l H IH HE]; intros HP; [apply walk_refl, HP; left|].
  eapply walk_snoc; [apply IH; intros; apply HP; right; assumption|exact HE|apply HP; left].
Qed.

Lemma walk_path P x y : walk P x y -> exists l, path x y l /\ forall v, v ∈ l -> P v.
Proof.
  induction 1 as [HP|y z W IH HE HP].
  - exists [x]. split; [constructor|]. intros v Hv. apply list_elem_of_singleton in Hv. congruence.
  - destruct IH as (l & Hl & HPl). exists (z :: l). split; [econstructor; eauto|].
    intros v Hv. apply elem_of_cons in Hv as [->|Hv]; auto.
Qed.

Definition reaches (x y : Z) : Prop := walk (fun _ => True) x y.

(** ** Dominance *)

(** [d] is on every walk from [r] to [v]. *)
Definition dom (r d v : Z) : Prop := ~ walk (fun u => u <> d) r v.

Lemma dom_refl r d : dom r d d.
Proof. intros W. apply walk_end in W. exact (W eq_refl). Qed.

(** Either a walk avoids [a] or a prefix of it ends at [a]. *)
Lemma walk_split P a x y : walk P x y -> walk (fun u => P u /\ u <> a) x y \/ walk P x a.
Proof.
  induction 1 as [HP|y z W IH HE HP].
  - destruct (Z.eq_dec x a) as [->|Hne]; [right; apply walk_refl, HP|left; apply walk_refl; auto].
  - destruct IH as [IH|IH]; [|right; exact IH]. destruct (Z.eq_dec z a) as [->|Hne].
    + right. eapply walk_snoc; eauto.
    + left. eapply walk_snoc; eauto.
Qed.

Lemma dom_trans r a b c : dom r a b -> dom r b c -> dom r a c.
Proof.
  intros H1 H2 W. destruct (walk_split _ b _ _ W) as [W'|W']; [|exact (H1 W')].
  apply H2. eapply walk_weaken; [|exact W']. intros v [_ H]. exact H.
Qed.

(** A dominator of a vertex other than itself dominates its predecessors. *)
Lemma dom_pred r d p w : E p w -> d <> w -> dom r d w -> dom r d p.
Proof. intros HE Hd H W. apply H. eapply walk_snoc; eauto. Qed.

Lemma dom_on_paths r d v : dom r d v <-> forall l, path r v l -> d ∈ l.
Proof.
  split.
  - intros H l Hl. destruct (decide (d ∈ l)) as [Hin|Hnin]; [exact Hin|]. exfalso. apply H.
    eapply path_walk; [exact Hl|]. intros u Hu ->. exact (Hnin Hu).
  - intros H W. apply walk_path in W as (l & Hl & Hv). exact (Hv d (H l Hl) eq_refl).
Qed.

End Walks.

(** ** Depth-first trees *)

(** Ancestors, itself included, by parent pointers. *)
Inductive anc (parent : Z -> Z) (u : Z) : Z -> Prop :=
| anc_refl : anc parent u u
| anc_up w : 1 <= w -> anc parent u (parent w) -> anc parent u w.

(** What a depth-first numbering of the vertices reachable from 0 provides. *)
Record dfs_tree (np : Z) (E : Z -> Z -> Prop) (parent : Z -> Z) : Prop := {
  dt_root : 1 <= np;
  dt_range i j : E i j -> 0 <= i < np /\ 0 <= j < np;
  dt_parent w : 1 <= w < np -> 0 <= parent w < w /\ E (parent w) w;
  dt_interval u y z : 0 <= u -> y < np -> anc parent u y -> u <= z <= y -> anc parent u z;
  dt_forward y z : E y z -> y < z -> anc parent y z
}.

Section Tree.
Context (np : Z) (E : Z -> Z -> Prop) (parent : Z -> Z) (T : dfs_tree np E parent).

Lemma anc_le u w : w < np -> anc parent u w -> u <= w.
Proof using T. intros Hw H. induction H as [|w H1 H IH]; [lia|]. pose proof (dt_parent _ _ _ T w). lia. Qed.

Lemma anc_trans u v w : anc parent u v -> anc parent v w -> anc parent u w.
Proof using. intros H1 H2. induction H2; [exact H1|]. apply anc_up; assumption. Qed.

Lemma anc_root w : 0 <= w < np -> anc parent 0 w.
Proof using T.
  intros Hw. assert (forall n : nat, forall w, 0 <= w < np -> w <= Z.of_nat n -> anc parent 0 w) as H.
  - clear w Hw. induction n as [|n IH]; intros w Hw Hn; [replace w with 0 by lia; apply anc_refl|].
    destruct (Z.eq_dec w 0) as [->|Hne]; [apply anc_refl|]. pose proof (dt_parent _ _ _ T w ltac:(lia)) as [Hp _].
    apply anc_up; [lia|]. apply IH; lia.
  - apply (H (Z.to_nat w)); lia.
Qed.

(** The tree path, whose vertices lie between its ends. *)
Lemma anc_walk u w : 0 <= u -> w < np -> anc parent u w -> walk E (fun v => u <= v <= w) u w.
Proof using T.
  intros Hu Hw H. induction H as [|w H1 H IH]; [apply walk_refl; lia|].
  pose proof (dt_parent _ _ _ T w ltac:(lia)) as [Hp HE]. pose proof (anc_le u (parent w) ltac:(lia) H).
  eapply walk_snoc; [|exact HE|lia]. eapply walk_weaken; [|apply IH; lia]. cbn. lia.
Qed.

(** A walk that stays at or above its start stays below it in the tree. *)
Lemma stay u p : 0 <= u -> walk E (fun v => u <= v) u p -> anc parent u p.
Proof using T.
  intros Hu W. induction W as [|y z W IH HE Hz]; [apply anc_refl|]. destruct (dt_range _ _ _ T _ _ HE).
  destruct (Z.le_gt_cases z y).
  - apply (dt_interval _ _ _ T u y); auto; lia.
  - eapply anc_trans; [exact IH|]. apply (dt_forward _ _ _ T); auto; lia.
Qed.

Lemma anc_between u a x : 0 <= u -> x < np -> anc parent u x -> u <= a <= x -> anc parent u a.
Proof using T. intros. eapply (dt_interval _ _ _ T); eauto. Qed.

Lemma dom_le d w : 0 <= w < np -> dom E 0 d w -> d <= w.
Proof using T.
  intros Hw H. destruct (Z.le_gt_cases d w); [assumption|]. exfalso. apply H.
  eapply walk_weaken; [|exact (anc_walk 0 w ltac:(lia) ltac:(lia) (anc_root w Hw))]. cbn. lia.
Qed.

(** ** Semidominators *)

(** A walk from [x] to [w] whose inner vertices come after [w]. *)
Definition semi_path (x w : Z) : Prop :=
  E x w \/ exists y z, E x y /\ walk E (fun v => w < v) y z /\ E z w.

(** The least start of such a walk below [w]. *)
Definition is_semi (semi : Z -> Z) (w : Z) : Prop :=
  0 <= semi w < w /\ semi_path (semi w) w /\ forall x, x < w -> semi_path x w -> semi w <= x.

(** A walk to [w] enters it for the first time after a vertex below [w]. *)
Lemma last_below P w z : 0 < w -> walk E P 0 z ->
  (exists x, x < w /\ walk E P 0 x /\ semi_path x w) \/ z < w \/
  (w < z /\ exists x y, x < w /\ walk E P 0 x /\ E x y /\ walk E (fun v => w < v) y z).
Proof using.
  intros Hw W. induction W as [HP|y z W IH HE HP]; [lia|].
  destruct IH as [IH|[IH|(Hy & x & y' & Hx & Wx & Exy & Wy)]]; [left; exact IH| |].
  - destruct (Z.lt_trichotomy z w) as [Hz|[->|Hz]]; [lia| |].
    + left. exists y. split; [exact IH|]. split; [exact W|left; exact HE].
    + right. right. split; [exact Hz|]. exists y, z. repeat split; auto. apply walk_refl. exact Hz.
  - destruct (Z.lt_trichotomy z w) as [Hz|[->|Hz]]; [lia| |].
    + left. exists x. split; [exact Hx|]. split; [exact Wx|]. right. exists y', y. auto.
    + right. right. split; [exact Hz|]. exists x, y'. repeat split; auto. eapply walk_snoc; eauto.
Qed.

Lemma enters_below P w : 0 < w -> walk E P 0 w -> exists x, x < w /\ walk E P 0 x /\ semi_path x w.
Proof using. intros Hw W. destruct (last_below P w w Hw W) as [H|[H|[H _]]]; [exact H|lia|lia]. Qed.

(** Semidominating walks start at ancestors. *)
Lemma semi_path_anc x w : 0 <= x < w -> semi_path x w -> anc parent x w.
Proof using T.
  intros Hx H. apply stay; [lia|]. destruct H as [HE|(y & z & Exy & W & Ezw)].
  - apply walk_edge; auto; lia.
  - eapply walk_cons; [lia|exact Exy|]. eapply walk_snoc; [|exact Ezw|lia]. eapply walk_weaken; [|exact W]. cbn. lia.
Qed.

Lemma semi_path_walk d x w : 0 <= x < d -> d < w -> semi_path x w -> walk E (fun v => v <> d) x w.
Proof using.
  intros Hx Hd [HE|(y & z & Exy & W & Ezw)]; [apply walk_edge; auto; lia|].
  eapply walk_cons; [lia|exact Exy|]. eapply walk_snoc; [|exact Ezw|lia]. eapply walk_weaken; [|exact W]. cbn. lia.
Qed.

(** A dominator of the parent that is not above the semidominator dominates the vertex. *)
Lemma dom_of_parent semi d w : 1 <= w < np -> is_semi semi w -> 0 <= d <= semi w -> dom E 0 d (parent w) -> dom E 0 d w.
Proof using T.
  intros Hw (Hs & _ & Hmin) Hd Hp W. destruct (enters_below _ w ltac:(lia) W) as (x & Hx & Wx & Sx).
  specialize (Hmin x Hx Sx). pose proof (walk_end _ _ _ _ Wx) as Hxd. cbn in Hxd.
  pose proof (semi_path_anc x w ltac:(lia) Sx) as Ax. pose proof (dt_parent _ _ _ T w Hw) as [Hpw _].
  assert (anc parent x (parent w)) as Ap by (inversion Ax; [lia|assumption]).
  apply Hp. eapply walk_app; [exact Wx|]. eapply walk_weaken; [|exact (anc_walk x (parent w) ltac:(lia) ltac:(lia) Ap)]. cbn. lia.
Qed.

(** A proper dominator dominates the parent and is not above the semidominator. *)
Lemma dom_to_parent semi d w : 1 <= w < np -> is_semi semi w -> 0 <= d -> d <> w -> dom E 0 d w -> dom E 0 d (parent w) /\ d <= semi w.
Proof using T.
  intros Hw (Hs & Sp & _) Hd0 Hd H. pose proof (dt_parent _ _ _ T w Hw) as [Hpw HE]. split; [eapply dom_pred; eauto|].
  pose proof (dom_le d w ltac:(lia) H) as Hle. destruct (Z.le_gt_cases d (semi w)); [assumption|]. exfalso. apply H.
  eapply walk_app; [|exact (semi_path_walk d (semi w) w ltac:(lia) ltac:(lia) Sp)].
  eapply walk_weaken; [|exact (anc_walk 0 (semi w) ltac:(lia) ltac:(lia) (anc_root (semi w) ltac:(lia)))]. cbn. lia.
Qed.

(** ** The immediate dominator *)

(** The proper dominators of [w] are the dominators of [a]. *)
Definition is_idom (a w : Z) : Prop := 0 <= a < w /\ forall d, 0 <= d -> (dom E 0 d w /\ d <> w <-> dom E 0 d a).

(** What the climb looks for: the first dominator of the parent not above the semidominator. *)
Lemma idom_from_semi semi a w : 1 <= w < np -> is_semi semi w -> 0 <= a <= semi w -> dom E 0 a (parent w) ->
  (forall d, 0 <= d <= semi w -> dom E 0 d (parent w) -> dom E 0 d a) -> is_idom a w.
Proof using T.
  intros Hw Hsemi Ha Hdom Hmax. pose proof Hsemi as (Hs & _). split; [lia|]. intros d Hd. split.
  - intros [H Hne]. destruct (dom_to_parent semi d w Hw Hsemi Hd Hne H) as [Hp Hle]. apply Hmax; auto.
  - intros H. pose proof (dom_le d a ltac:(lia) H). split; [|lia]. eapply dom_trans; [exact H|]. eapply dom_of_parent; eauto.
Qed.

(** ** The least vertex of a walk *)

Lemma walk_min P y z : walk E P y z ->
  exists u, P u /\ walk E (fun v => u <= v) y z /\ walk E (fun v => u <= v) u z /\
    (y = u \/ exists z', walk E (fun v => u < v) y z' /\ E z' u).
Proof using.
  induction 1 as [HP|z0 z W IH HE HP].
  - exists y. split; [exact HP|]. split; [apply walk_refl; lia|]. split; [apply walk_refl; lia|left; reflexivity].
  - destruct IH as (u & Pu & W1 & W2 & Hu). destruct (Z.le_gt_cases u z).
    + exists u. split; [exact Pu|]. split; [eapply walk_snoc; eauto|]. split; [eapply walk_snoc; eauto|exact Hu].
    + exists z. split; [exact HP|]. split; [eapply walk_snoc; [|exact HE|lia]; eapply walk_weaken; [|exact W1]; cbn; lia|].
      split; [apply walk_refl; lia|]. right. exists z0. split; [|exact HE]. eapply walk_weaken; [|exact W1]. cbn. lia.
Qed.

(** A semidominating walk through [z]: an ancestor of [z] has the same start. *)
Lemma semi_path_through w x y z : E x y -> walk E (fun v => w < v) y z -> 0 <= w ->
  exists u, w < u /\ anc parent u z /\ semi_path x u.
Proof using T.
  intros Exy W Hw. destruct (walk_min _ _ _ W) as (u & Hu & _ & W2 & Hy). exists u. split; [exact Hu|].
  split; [apply stay; [lia|exact W2]|]. destruct Hy as [->|(z' & Wz & Ez)]; [left; exact Exy|right; eauto].
Qed.

(** The start of a walk to an ancestor of a predecessor is the start of one to [w]. *)
Lemma semi_path_extend w u p s : 0 <= w < u -> p < np -> anc parent u p -> E p w -> semi_path s u -> semi_path s w.
Proof using T.
  intros Hu Hp Ha HE Hs. right.
  assert (walk E (fun v => w < v) u p) as Wt by (eapply walk_weaken; [|exact (anc_walk u p ltac:(lia) Hp Ha)]; cbn; lia).
  destruct Hs as [Hs|(y & z & Hy & W & Hz)]; [exists u, p; auto|].
  exists y, p. split; [exact Hy|]. split; [|exact HE]. eapply walk_app; [|exact Wt].
  eapply walk_snoc; [|exact Hz|lia]. eapply walk_weaken; [|exact W]. cbn. lia.
Qed.

End Tree.
