(* ===== verification/CfgSemi.v ===== *)
(** * Semidominators by path compression

    [cfg_snca_eval] keeps a forest of compressed paths whose labels are minima of
    [semi] over the paths; with it the loop of [tcc_ir_cfg_compute_dominators]
    computes the semidominators, and the climb over [idom_pre] the dominator tree,
    in the numbering of a depth-first search. *)

From S2P Require Import Prelude.
From S2P Require Import Cfg.
From S2P Require Import CfgPaths.
Local Open Scope Z_scope.

Lemma aset_eq a i v : aset a i v i = v.
Proof. unfold aset. rewrite Z.eqb_refl. reflexivity. Qed.

Lemma aset_ne a i j v : j <> i -> aset a i v j = a j.
Proof. intros H. unfold aset. replace (j =? i) with false by lia. reflexivity. Qed.

Lemma last_cons (x : Z) stk y : List.last (x :: stk) y = List.last stk x.
Proof. revert x y. induction stk as [|z stk IH]; intros x y; [reflexivity|]. transitivity (List.last (z :: stk) y); [reflexivity|]. rewrite !IH. reflexivity. Qed.

Section Forest.
Context (np : Z) (E : Z -> Z -> Prop) (parent : Z -> Z) (T : dfs_tree np E parent).

(** The vertices above [w] are linked; a linked vertex points to an ancestor, all
    vertices passed over are linked, and its label has the least [semi] of them. *)
Definition linked (w : Z) (semi ancestor label : Z -> Z) (v : Z) : Prop :=
  0 <= ancestor v < v /\ anc parent (ancestor v) v /\ ancestor v < label v /\ anc parent (label v) v /\
  forall u, anc parent u v -> ancestor v < u -> w < u /\ semi (label v) <= semi u.

Definition forest (w : Z) (semi ancestor label : Z -> Z) : Prop :=
  forall v, 0 <= v < np -> (v <= w -> ancestor v < 0 /\ label v = v) /\ (w < v -> linked w semi ancestor label v).

Lemma linked_label w semi ancestor label v : v < np -> linked w semi ancestor label v -> w < label v <= v.
Proof using T.
  intros Hv (H1 & H2 & H3 & H4 & H5). pose proof (anc_le np E parent T (label v) v Hv H4). destruct (H5 (label v) H4 H3). lia.
Qed.

(** One compression step. *)
Lemma compress_linked w semi ancestor label x : forest w semi ancestor label -> 0 <= w -> w < x < np -> w < ancestor x ->
  let a := ancestor x in
  linked w semi (aset ancestor x (ancestor a)) (if semi (label a) <? semi (label x) then aset label x (label a) else label) x.
Proof using T.
  intros F Hw0 Hx Ha. cbv zeta. destruct (F x ltac:(lia)) as [_ Lx]. destruct (Lx ltac:(lia)) as (X1 & X2 & X3 & X4 & X5).
  destruct (F (ancestor x) ltac:(lia)) as [_ La]. destruct (La Ha) as (A1 & A2 & A3 & A4 & A5).
  set (a := ancestor x) in *. pose proof (anc_le np E parent T (label a) a ltac:(lia) A4).
  assert (forall u, anc parent u x -> ancestor a < u -> w < u /\ (semi (label a) <= semi u \/ semi (label x) <= semi u)) as HU.
  { intros u Hu Hlt. destruct (Z.le_gt_cases u a) as [Hle|Hgt]; [|destruct (X5 u Hu Hgt); auto].
    assert (anc parent u a) as Hua by (apply (anc_between np E parent T u a x); auto; lia).
    destruct (A5 u Hua Hlt). auto. }
  assert (anc parent (ancestor a) x) as AX by (apply (anc_trans parent _ a); assumption).
  unfold linked. rewrite aset_eq. split; [lia|]. split; [exact AX|]. destruct (Z.ltb_spec (semi (label a)) (semi (label x))) as [Hlt|Hge].
  - rewrite aset_eq. split; [lia|]. split; [apply (anc_trans parent _ a); assumption|].
    intros u Hu Hgt. destruct (HU u Hu Hgt) as [? [|]]; lia.
  - split; [lia|]. split; [exact X4|]. intros u Hu Hgt. destruct (HU u Hu Hgt) as [? [|]]; lia.
Qed.

Lemma compress_forest w semi ancestor label x : forest w semi ancestor label -> 0 <= w -> w < x < np -> w < ancestor x ->
  let a := ancestor x in
  forest w semi (aset ancestor x (ancestor a)) (if semi (label a) <? semi (label x) then aset label x (label a) else label).
Proof using T.
  intros F Hw0 Hx Ha a v Hv. destruct (Z.eq_dec v x) as [->|Hne].
  - split; [lia|]. intros _. exact (compress_linked w semi ancestor label x F Hw0 Hx Ha).
  - assert ((if semi (label a) <? semi (label x) then aset label x (label a) else label) v = label v) as EL
      by (destruct (_ <? _); [apply aset_ne; exact Hne|reflexivity]).
    unfold linked. rewrite EL, aset_ne by exact Hne. exact (F v Hv).
Qed.

(** The stack of a climb: each vertex points to the one above it. *)
Fixpoint chained (w : Z) (ancestor : Z -> Z) (y : Z) (stk : list Z) : Prop :=
  match stk with
  | [] => True
  | x :: stk => ancestor x = y /\ y < x < np /\ chained w ancestor x stk
  end.

Lemma chained_aset w ancestor y x v stk : x <= y -> chained w ancestor y stk -> chained w (aset ancestor x v) y stk.
Proof using. revert y. induction stk as [|z stk IH]; cbn [chained]; [auto|]. intros y Hx (H1 & H2 & H3). rewrite aset_ne by lia. split; [exact H1|]. split; [exact H2|]. apply IH; [lia|exact H3]. Qed.

Lemma unwind_forest w semi stk : forall y ancestor label, 0 <= w -> w < y < np -> forest w semi ancestor label -> ancestor y <= w -> chained w ancestor y stk ->
  let '(ancestor', label') := eval_unwind stk semi ancestor label in
  forest w semi ancestor' label' /\ ancestor' (List.last stk y) <= w.
Proof using T.
  induction stk as [|x stk IH]; intros y ancestor label Hw Hy F Hr Hc; cbn [eval_unwind]; [split; assumption|].
  cbn [chained] in Hc. destruct Hc as (Ex & Hx & Hc). cbv zeta.
  pose proof (compress_forest w semi ancestor label x F Hw ltac:(lia) ltac:(lia)) as F'. cbv zeta in F'. rewrite Ex in *.
  rewrite last_cons.
  apply (IH x); [exact Hw|lia|exact F'|rewrite aset_eq; exact Hr|apply chained_aset; [lia|exact Hc]].
Qed.

Lemma climb_chained w semi ancestor label v : forest w semi ancestor label -> 0 <= w -> forall fuel u stk, w < u < np -> (Z.to_nat u <= fuel)%nat ->
  chained w ancestor u stk -> List.last stk u = v ->
  exists y, w < y < np /\ ancestor y <= w /\ chained w ancestor y (eval_climb fuel ancestor u stk) /\ List.last (eval_climb fuel ancestor u stk) y = v.
Proof using T.
  intros F Hw. induction fuel as [|fuel IH]; intros u stk Hu Hf Hc Hl; [lia|]. cbn [eval_climb].
  destruct (F u ltac:(lia)) as [_ Lu]. destruct (Lu ltac:(lia)) as (U1 & _).
  destruct (F (ancestor u) ltac:(lia)) as [A1 A2].
  destruct (Z.leb_spec 0 (ancestor (ancestor u))) as [H|H].
  - assert (w < ancestor u) as Ha by (destruct (Z.le_gt_cases (ancestor u) w) as [Hle|]; [destruct (A1 Hle); lia|lia]).
    apply IH; [lia|lia|cbn [chained]; repeat split; solve [lia|exact Hc]|].
    rewrite last_cons. exact Hl.
  - exists u. split; [lia|]. split; [|split; assumption]. destruct (Z.le_gt_cases (ancestor u) w); [assumption|].
    destruct (A2 ltac:(lia)) as (B1 & _). lia.
Qed.

(** [cfg_snca_eval] returns a linked ancestor with the least [semi]. *)
Lemma eval_spec w semi ancestor label p : 0 <= w -> 0 <= p < np -> forest w semi ancestor label ->
  let '(u, (ancestor', label')) := cfg_snca_eval np p ancestor label semi in
  forest w semi ancestor' label' /\
  (p <= w -> u = p) /\ (w < p -> w < u /\ anc parent u p /\ forall x, anc parent x p -> w < x -> semi u <= semi x).
Proof using T.
  intros Hw Hp F. unfold cfg_snca_eval. destruct (F p Hp) as [Hroot Hlink]. destruct (Z.ltb_spec (ancestor p) 0) as [H|H].
  - split; [exact F|]. split; [reflexivity|]. intros Hlt. destruct (Hlink Hlt) as (H1 & _). lia.
  - assert (w < p) as Hlt by (destruct (Z.le_gt_cases p w) as [Hle|]; [destruct (Hroot Hle); lia|lia]).
    destruct (climb_chained w semi ancestor label p F Hw (Z.to_nat np) p [] ltac:(lia) ltac:(lia) I eq_refl) as (y & Hy & Hr & Hc & Hl).
    pose proof (unwind_forest w semi _ y ancestor label Hw Hy F Hr Hc) as U. destruct (eval_unwind _ _ _ _) as [ancestor' label'].
    destruct U as [F' Hr']. rewrite Hl in Hr'. split; [exact F'|]. split; [lia|]. intros _.
    destruct (F' p Hp) as [_ L']. pose proof (L' Hlt) as L. pose proof (linked_label w semi ancestor' label' p ltac:(lia) L) as Hu.
    destruct L as (L1 & L2 & L3 & L4 & L5). split; [lia|]. split; [exact L4|]. intros x Hx Hxw. apply L5; [exact Hx|lia].
Qed.

End Forest.

(** ** The loop over the vertices *)

Section Semi.
Context (cfg : IRCFG) (d : dom_state) (E : Z -> Z -> Prop).
Notation np := (ds_np d).
Notation parent := (ds_parent d).
Context (T : dfs_tree np E parent).
(** The predecessor list of a vertex, in the numbering. *)
Context (preds_ok : forall w i, 1 <= w < np -> 0 <= i ->
  (E i w <-> exists p, p ∈ preds (block_at (blocks cfg) (ds_vertex d w)) /\ 0 <= p < num_blocks cfg /\ ds_pre d p = i)).

Lemma forest_ext w semi semi' ancestor label : (forall v, w < v -> semi' v = semi v) ->
  forest np parent w semi ancestor label -> forest np parent w semi' ancestor label.
Proof using T.
  intros He F v Hv. destruct (F v Hv) as [H1 H2]. split; [exact H1|]. intros Hlt. pose proof (H2 Hlt) as L.
  pose proof (linked_label np E parent T w semi ancestor label v ltac:(lia) L) as Hl. destruct L as (L1 & L2 & L3 & L4 & L5).
  split; [exact L1|]. split; [exact L2|]. split; [exact L3|]. split; [exact L4|].
  intros u Hu Hlu. destruct (L5 u Hu Hlu). rewrite !He by lia. lia.
Qed.

(** What a processed predecessor, numbered [i], contributes to [semi w]. *)
Definition covered (semi : Z -> Z) (w i : Z) : Prop :=
  (i < w -> semi w <= i) /\ (w < i -> forall x, anc parent x i -> w < x -> semi w <= semi x).

(** The state while [w] is processed; [done] are the numbers of the predecessors seen. *)
Definition semi_inv (w : Z) (done : list Z) (st : snca_state) : Prop :=
  let '(semi, (ancestor, label)) := st in
  forest np parent w semi ancestor label /\ (forall v, w < v < np -> is_semi E semi v) /\ (forall v, 0 <= v < w -> semi v = v) /\
  semi w <= w /\ (semi w < w -> 0 <= semi w /\ semi_path E (semi w) w) /\ forall i, i ∈ done -> covered semi w i.

Lemma covered_less w i semi c : c <= semi w -> covered semi w i -> covered (aset semi w c) w i.
Proof using.
  intros Hc [C1 C2]. unfold covered. rewrite aset_eq. split; [intros H; specialize (C1 H); lia|].
  intros H x Hx Hwx. rewrite aset_ne by lia. specialize (C2 H x Hx Hwx). lia.
Qed.

(** Replacing [semi w] by a smaller candidate. *)
Lemma semi_inv_min w done semi al c i : 0 <= w < np -> semi_inv w done (semi, al) -> 0 <= c <= w -> (c < w -> semi_path E c w) ->
  (i < w -> c <= i) -> (w < i -> forall x, anc parent x i -> w < x -> c <= semi x) ->
  semi_inv w (i :: done) (if c <? semi w then aset semi w c else semi, al).
Proof using T.
  intros Hw H Hc Hp Hi1 Hi2. destruct al as [ancestor label]. destruct H as (F & Hs & Hid & Hle & Hsp & Hcov). unfold semi_inv.
  assert (forall v, v <> w -> (if c <? semi w then aset semi w c else semi) v = semi v) as Ene
    by (intros v Hv; destruct (_ <? _); [apply aset_ne; exact Hv|reflexivity]).
  split; [apply (forest_ext w semi); [intros; apply Ene; lia|exact F]|].
  split; [intros v Hv; unfold is_semi; rewrite Ene by lia; apply Hs; exact Hv|]. split; [intros v Hv; rewrite Ene by lia; apply Hid; exact Hv|].
  destruct (Z.ltb_spec c (semi w)) as [Hlt|Hge].
  - rewrite aset_eq. split; [lia|]. split; [intros H; split; [lia|apply Hp; exact H]|]. intros j Hj. apply elem_of_cons in Hj as [->|Hj].
    + unfold covered. rewrite aset_eq. split; [exact Hi1|]. intros H x Hx Hwx. rewrite aset_ne by lia. auto.
    + apply covered_less; [lia|auto].
  - split; [exact Hle|]. split; [exact Hsp|]. intros j Hj. apply elem_of_cons in Hj as [->|Hj]; [|auto].
    split; [intros H; specialize (Hi1 H); lia|]. intros H x Hx Hwx. specialize (Hi2 H x Hx Hwx). lia.
Qed.

Lemma semi_pred_inv w done st p : 1 <= w < np -> p ∈ preds (block_at (blocks cfg) (ds_vertex d w)) -> semi_inv w done st ->
  let guard := (p <? 0) || (num_blocks cfg <=? p) || (ds_pre d p <? 0) in
  semi_inv w (if guard then done else ds_pre d p :: done) (semi_pred (num_blocks cfg) np (ds_pre d) w st p).
Proof using T preds_ok.
  intros Hw Hin H. cbv zeta. unfold semi_pred. destruct st as [semi [ancestor label]].
  destruct ((p <? 0) || (num_blocks cfg <=? p) || (ds_pre d p <? 0)) eqn:G; [exact H|].
  set (i := ds_pre d p). assert (0 <= i) as Hi0 by (subst i; lia).
  assert (E i w) as HE by (apply preds_ok; [exact Hw|lia|exists p; split; [exact Hin|split; [lia|reflexivity]]]).
  destruct (dt_range _ _ _ T _ _ HE) as [Hi _]. pose proof H as (F & Hs & Hid & Hle & _).
  pose proof (eval_spec np E parent T w semi ancestor label i ltac:(lia) Hi F) as V.
  destruct (cfg_snca_eval np i ancestor label semi) as [u [ancestor' label']]. destruct V as (F' & V1 & V2).
  assert (semi_inv w done (semi, (ancestor', label'))) as H' by (destruct H as (_ & H); split; assumption).
  destruct (Z.lt_trichotomy i w) as [Hlt|[Heq|Hgt]].
  - rewrite (V1 ltac:(lia)), (Hid i ltac:(lia)). apply semi_inv_min; [lia|exact H'|lia|intros; left; exact HE|lia|lia].
  - rewrite (V1 ltac:(lia)), Heq, Z.ltb_irrefl. destruct H' as (A & B & C & D & G1 & G2). split; [exact A|]. split; [exact B|]. split; [exact C|].
    split; [exact D|]. split; [exact G1|]. intros j Hj. apply elem_of_cons in Hj as [->|Hj]; [split; lia|auto].
  - destruct (V2 Hgt) as (Hu & Au & Hmin). pose proof (anc_le np E parent T u i ltac:(lia) Au) as Hui. destruct (Hs u ltac:(lia)) as (S1 & S2 & _).
    assert (semi_path E (semi u) w) as SP by (apply (semi_path_extend np E parent T w u i); auto; lia).
    destruct (Z.le_gt_cases (semi u) w) as [Hc|Hc].
    + apply semi_inv_min; [lia|exact H'|lia|intros; exact SP|lia|intros _; exact Hmin].
    + replace (semi u <? semi w) with false by lia. destruct H' as (A & B & C & D & G1 & G2). split; [exact A|]. split; [exact B|]. split; [exact C|].
      split; [exact D|]. split; [exact G1|]. intros j Hj. apply elem_of_cons in Hj as [->|Hj]; [|auto].
      split; [lia|]. intros _ x Hx Hwx. specialize (Hmin x Hx Hwx). lia.
Qed.

Lemma semi_preds_inv w : 1 <= w < np -> forall l done st, (forall p, p ∈ l -> p ∈ preds (block_at (blocks cfg) (ds_vertex d w))) -> semi_inv w done st ->
  exists done', semi_inv w done' (fold_left (semi_pred (num_blocks cfg) np (ds_pre d) w) l st) /\ (forall i, i ∈ done -> i ∈ done') /\
    forall p, p ∈ l -> 0 <= p < num_blocks cfg -> 0 <= ds_pre d p -> ds_pre d p ∈ done'.
Proof using T preds_ok.
  intros Hw. induction l as [|p l IH]; intros done st Hl H; cbn [fold_left].
  - exists done. split; [exact H|]. split; [auto|]. intros p Hp. apply elem_of_nil in Hp. contradiction.
  - pose proof (semi_pred_inv w done st p Hw (Hl p ltac:(left)) H) as H1. cbv zeta in H1.
    destruct (IH _ _ (fun q Hq => Hl q (list_elem_of_further _ _ _ Hq)) H1) as (done' & D1 & D2 & D3). exists done'. split; [exact D1|].
    split; [intros i Hi; apply D2; destruct (_ || _); [exact Hi|right; exact Hi]|].
    intros q Hq Hr Hpre. apply elem_of_cons in Hq as [->|Hq]; [|auto]. apply D2. replace ((p <? 0) || _ || _) with false by lia. left.
Qed.

(** Linking [w] after its predecessors. *)
Lemma link_forest w semi ancestor label : 1 <= w < np -> forest np parent w semi ancestor label ->
  forest np parent (w - 1) semi (aset ancestor w (parent w)) label.
Proof using T.
  intros Hw F v Hv. destruct (F v Hv) as [F1 F2]. destruct (Z.eq_dec v w) as [->|Hne].
  - split; [lia|]. intros _. destruct (F1 ltac:(lia)) as [_ Hl]. destruct (dt_parent _ _ _ T w Hw) as [Hp HE]. unfold linked. rewrite aset_eq, Hl.
    split; [exact Hp|]. split; [apply anc_up; [lia|apply anc_refl]|]. split; [lia|]. split; [apply anc_refl|].
    intros u Hu Hlt. inversion Hu as [|? _ Hu']; subst; [lia|]. pose proof (anc_le np E parent T u (parent w) ltac:(lia) Hu'). lia.
  - unfold linked. rewrite aset_ne by exact Hne. split; [intros; apply F1; lia|]. intros Hlt.
    destruct (F2 ltac:(lia)) as (L1 & L2 & L3 & L4 & L5). split; [exact L1|]. split; [exact L2|]. split; [exact L3|]. split; [exact L4|].
    intros u Hu Hlu. destruct (L5 u Hu Hlu). lia.
Qed.

(** Between two vertices: everything above [w] is final. *)
Definition semi_done (w : Z) (st : snca_state) : Prop :=
  let '(semi, (ancestor, label)) := st in
  forest np parent w semi ancestor label /\ (forall v, w < v < np -> is_semi E semi v) /\ forall v, 0 <= v <= w -> semi v = v.

Lemma semi_vertex_done w st : 1 <= w < np -> semi_done w st -> semi_done (w - 1) (semi_vertex cfg d st w).
Proof using T preds_ok.
  intros Hw H. unfold semi_vertex. set (ps := preds _).
  assert (semi_inv w [] st) as H0.
  { destruct st as [semi [ancestor label]]. destruct H as (F & Hs & Hid). split; [exact F|]. split; [exact Hs|].
    split; [intros; apply Hid; lia|]. rewrite Hid by lia. split; [lia|]. split; [lia|]. intros i Hi. apply elem_of_nil in Hi. contradiction. }
  destruct (semi_preds_inv w Hw ps [] st (fun p Hp => Hp) H0) as (done & H1 & _ & H3).
  destruct (fold_left _ ps st) as [semi [ancestor label]]. destruct H1 as (F & Hs & Hid & Hle & Hsp & Hcov).
  assert (forall i, E i w -> covered semi w i) as Hall.
  { intros i HE. destruct (dt_range _ _ _ T _ _ HE). apply preds_ok in HE as (p & Hp & Hr & <-); [|exact Hw|lia]. apply Hcov, H3; auto. lia. }
  destruct (dt_parent _ _ _ T w Hw) as [Hp HE]. pose proof (proj1 (Hall _ HE) ltac:(lia)) as Hsw.
  split; [apply link_forest; assumption|]. split; [|intros; apply Hid; lia].
  intros v Hv. destruct (Z.eq_dec v w) as [->|]; [|apply Hs; lia]. destruct (Hsp ltac:(lia)) as [S1 S2]. split; [lia|]. split; [exact S2|].
  intros x Hx [HEx|(y & z & Exy & W & Ezw)]; [apply (Hall x HEx); exact Hx|].
  destruct (dt_range _ _ _ T _ _ Exy). pose proof (walk_end _ _ _ _ W) as Hz. cbn in Hz.
  destruct (semi_path_through np E parent T w x y z Exy W ltac:(lia)) as (u & Hu & Au & Su).
  destruct (dt_range _ _ _ T _ _ Ezw). pose proof (anc_le np E parent T u z ltac:(lia) Au).
  pose proof (proj2 (Hall z Ezw) Hz u Au Hu). destruct (Hs u ltac:(lia)) as (_ & _ & M). specialize (M x ltac:(lia) Su). lia.
Qed.

Lemma seqZ_snoc m (n : nat) : seqZ m (Z.of_nat (S n)) = seqZ m (Z.of_nat n) ++ [m + Z.of_nat n].
Proof using.
  rewrite Nat2Z.inj_succ, <- Z.add_1_r, seqZ_app by lia. reflexivity.
Qed.

Lemma semi_loop (n : nat) : Z.of_nat n < np -> forall st, semi_done (Z.of_nat n) st ->
  semi_done 0 (fold_left (semi_vertex cfg d) (rev (seqZ 1 (Z.of_nat n))) st).
Proof using T preds_ok.
  induction n as [|n IH]; intros Hn st H; [exact H|]. rewrite seqZ_snoc, rev_app_distr. cbn [rev app fold_left].
  apply IH; [lia|]. replace (1 + Z.of_nat n) with (Z.of_nat (S n)) by lia.
  replace (Z.of_nat n) with (Z.of_nat (S n) - 1) by lia. apply semi_vertex_done; [lia|exact H].
Qed.

(** The first array of [semidominators] holds the semidominators. *)
Lemma semidominators_spec : forall w, 1 <= w < np -> is_semi E (fst (semidominators cfg d)) w.
Proof using T preds_ok.
  intros w Hw. unfold semidominators. pose proof (dt_root _ _ _ T) as Hnp.
  assert (semi_done 0 (fold_left (semi_vertex cfg d) (rev (seqZ 1 (np - 1))) (fun i => i, (fun _ => -1, fun i => i)))) as H.
  - replace (np - 1) with (Z.of_nat (Z.to_nat (np - 1))) by lia. apply semi_loop; [lia|]. rewrite Z2Nat.id by lia.
    split; [|split; [lia|auto]]. intros v Hv. split; [auto with lia|lia].
  - destruct (fold_left _ _ _) as [semi [ancestor label]]. destruct H as (_ & Hs & _). cbn [fst]. apply Hs. lia.
Qed.

(** ** The climb *)

Lemma nca_climb_spec semi idom_pre w : 1 <= w < np -> is_semi E semi w ->
  (forall v, 1 <= v < w -> is_idom E (idom_pre v) v) ->
  forall fuel a, (Z.to_nat a < fuel)%nat -> 0 <= a < w -> dom E 0 a (parent w) ->
  (forall x, 0 <= x <= semi w -> dom E 0 x (parent w) -> dom E 0 x a) ->
  is_idom E (nca_climb fuel (semi w) idom_pre a) w.
Proof using T.
  intros Hw Hsemi Hid. induction fuel as [|fuel IH]; intros a Hf Ha Hdom Hmax; [lia|]. cbn [nca_climb].
  pose proof Hsemi as (Hs & _). destruct (Z.ltb_spec (semi w) a) as [Hlt|Hge].
  - destruct (Hid a ltac:(lia)) as [Hr Hi]. apply IH; [lia|lia| |].
    + eapply dom_trans; [|exact Hdom]. apply Hi; [lia|apply dom_refl].
    + intros x Hx Hp. apply Hi; [lia|]. split; [apply Hmax; assumption|lia].
  - apply (idom_from_semi np E parent T semi); auto; lia.
Qed.

End Semi.
