(* ===== verification/CfgDfs.v ===== *)
(** * The depth-first searches

    Termination of the explicit-stack loop within its fuel, an induction principle
    for its invariants, and what the two searches of [cfg.c] compute. *)

From Stdlib Require Import Sorting.Sorted.
From S2P Require Import Prelude.
From S2P Require Import Cfg.
From S2P Require Import CfgPaths.
From S2P Require Import CfgSemi.
Local Open Scope Z_scope.

(** ** The loop *)

Section Loop.
Context {St : Type} (nb : Z) (succs_of : Z -> list Z) (fresh : St -> Z -> bool) (enter : St -> Z -> Z -> St) (leave : St -> Z -> St).

(** Entering a block marks it and nothing else. *)
Definition marks (st : St) (b s : Z) : Prop := forall x, fresh (enter st b s) x = fresh st x && negb (x =? s).

Definition frame_left (f : Z * nat) : nat := S (length (succs_of (fst f))) - snd f.
Definition fresh_left (st : St) (b : Z) : nat := if fresh st b then S (length (succs_of b)) else 0.
Definition dfs_measure (st : St) (stack : list (Z * nat)) : nat :=
  (list_sum (map (fresh_left st) (seqZ 0 nb)) + list_sum (map frame_left stack))%nat.

Lemma fresh_sum st b s l : marks st b s -> NoDup l -> s ∈ l -> fresh st s = true ->
  list_sum (map (fresh_left st) l) = (S (length (succs_of s)) + list_sum (map (fresh_left (enter st b s)) l))%nat.
Proof using.
  intros fresh_enter Hnd Hin Hf. induction Hnd as [|x l Hx Hnd IH]; [apply elem_of_nil in Hin; contradiction|]. cbn [map list_sum foldr].
  assert (forall y, y <> s -> fresh_left (enter st b s) y = fresh_left st y) as Hne
    by (intros y Hy; unfold fresh_left; rewrite fresh_enter; replace (y =? s) with false by lia; rewrite andb_true_r; reflexivity).
  destruct (Z.eq_dec x s) as [->|Hxs].
  - assert (map (fresh_left (enter st b s)) l = map (fresh_left st) l) as ->.
    { apply map_ext_in. intros y Hy. apply Hne. intros ->. apply Hx. apply list_elem_of_In. exact Hy. }
    unfold fresh_left at 1 3. rewrite fresh_enter, Hf, Z.eqb_refl. cbn. lia.
  - rewrite (Hne x Hxs). apply elem_of_cons in Hin as [->|Hin]; [congruence|]. pose proof (IH Hin). unfold list_sum in *. lia.
Qed.

(** An invariant of the three kinds of iteration holds when the loop ends, and it
    ends within the measure. *)
Lemma dfs_ind (I : St -> list (Z * nat) -> Prop) :
  (forall st b ci s rest, I st ((b, ci) :: rest) -> succs_of b !! ci = Some s -> 0 <= s < nb -> fresh st s = true ->
     marks st b s /\ I (enter st b s) ((s, O) :: (b, S ci) :: rest)) ->
  (forall st b ci s rest, I st ((b, ci) :: rest) -> succs_of b !! ci = Some s -> (0 <= s < nb -> fresh st s = false) -> I st ((b, S ci) :: rest)) ->
  (forall st b ci rest, I st ((b, ci) :: rest) -> length (succs_of b) = ci ->
     (forall x, fresh (leave st b) x = fresh st x) /\ I (leave st b) rest) ->
  forall fuel st stack, I st stack -> Forall (fun f => (snd f <= length (succs_of (fst f)))%nat) stack -> (dfs_measure st stack <= fuel)%nat ->
  exists st', dfs_loop nb succs_of fresh enter leave fuel st stack = Some st' /\ I st' [].
Proof using.
  intros Henter Hskip Hleave. induction fuel as [|fuel IH]; intros st stack HI Hci Hm.
  - destruct stack as [|[b ci] rest]; [exists st; split; [reflexivity|exact HI]|]. exfalso.
    inversion Hci as [|? ? H1 H2]; subst. cbn [fst snd] in H1. unfold dfs_measure in Hm. cbn [map list_sum foldr] in Hm.
    unfold frame_left at 1 in Hm. cbn [fst snd] in Hm. unfold list_sum in Hm. lia.
  - destruct stack as [|[b ci] rest]; [exists st; split; [reflexivity|exact HI]|]. cbn [dfs_loop].
    inversion Hci as [|? ? H1 H2]; subst. cbn in H1. destruct (succs_of b !! ci) as [s|] eqn:Es.
    + pose proof (lookup_lt_Some _ _ _ Es) as Hlt. destruct (((0 <=? s) && (s <? nb)) && fresh st s) eqn:G.
      * apply andb_true_iff in G as [G1 G2]. destruct (Henter st b ci s rest HI Es ltac:(lia) G2) as [Hmk HI'].
        apply IH; [exact HI'| |].
        -- constructor; [cbn; lia|]. constructor; [cbn; lia|exact H2].
        -- unfold dfs_measure in *. rewrite (fresh_sum st b s) in Hm; [|exact Hmk|apply NoDup_seqZ|apply elem_of_seqZ; lia|exact G2].
           cbn [map list_sum foldr] in *. unfold frame_left in *. cbn [fst snd] in *. unfold list_sum in *. lia.
      * apply IH; [eapply Hskip; [exact HI|exact Es|]; intros Hs; apply andb_false_iff in G as [G|G]; [lia|exact G]| |].
        -- constructor; [cbn; lia|exact H2].
        -- unfold dfs_measure in *. cbn [map list_sum foldr] in *. unfold frame_left in *. cbn [fst snd] in *. unfold list_sum in *. lia.
    + apply lookup_ge_None in Es. destruct (Hleave st b ci rest HI ltac:(lia)) as [fresh_leave HI']. apply IH; [exact HI'|exact H2|].
      unfold dfs_measure in *. cbn [map list_sum foldr] in Hm. unfold frame_left at 1 in Hm. cbn [fst snd] in Hm.
      assert (map (fresh_left (leave st b)) (seqZ 0 nb) = map (fresh_left st) (seqZ 0 nb)) as ->
        by (apply map_ext; intros x; unfold fresh_left; rewrite fresh_leave; reflexivity).
      unfold list_sum in *. lia.
Qed.

End Loop.

(** ** Edges between blocks *)

Definition edge (cfg : IRCFG) (b c : Z) : Prop := 0 <= b < num_blocks cfg /\ 0 <= c < num_blocks cfg /\ c ∈ succs_at cfg b.

Definition reachable (cfg : IRCFG) (b : Z) : Prop := reaches (edge cfg) 0 b.

Lemma fuel_blocks bs : forall k, list_sum (map (fun b => S (length (succs (block_at (k ++ bs) b)))) (seqZ (Z.of_nat (length k)) (Z.of_nat (length bs)))) =
  list_sum (map (fun bb => S (length (succs bb))) bs).
Proof.
  induction bs as [|bb bs IH]; intros k; [reflexivity|]. cbn [length]. rewrite seqZ_cons by lia. cbn [map list_sum foldr].
  replace (Z.pred (Z.of_nat (S (length bs)))) with (Z.of_nat (length bs)) by lia.
  assert (block_at (k ++ bb :: bs) (Z.of_nat (length k)) = bb) as -> by (unfold block_at; rewrite Nat2Z.id, app_nth2, Nat.sub_diag by lia; reflexivity).
  specialize (IH (k ++ [bb])). rewrite length_app in IH. cbn [length] in IH. rewrite <- app_assoc in IH. cbn [app] in IH.
  replace (Z.of_nat (length k + 1)) with (Z.succ (Z.of_nat (length k))) in IH by lia. unfold list_sum in *. lia.
Qed.

(** The fuel covers every block and edge, the entry being on the stack at the start. *)
Lemma dfs_fuel_enough {St} cfg (fresh : St -> Z -> bool) st : 1 <= num_blocks cfg -> (forall b, fresh st b = negb (b =? 0)) ->
  (dfs_measure (num_blocks cfg) (succs_at cfg) fresh st [(0%Z, O)] <= dfs_fuel cfg)%nat.
Proof.
  intros Hnb Hf. unfold dfs_measure, dfs_fuel. rewrite <- (fuel_blocks (blocks cfg) []). cbn [app length]. change (Z.of_nat 0) with 0.
  fold (num_blocks cfg). rewrite (seqZ_cons 0 (num_blocks cfg)) by lia. cbn [map list_sum foldr].
  assert (map (fresh_left (succs_at cfg) fresh st) (seqZ (Z.succ 0) (Z.pred (num_blocks cfg))) =
          map (fun b => S (length (succs (block_at (blocks cfg) b)))) (seqZ (Z.succ 0) (Z.pred (num_blocks cfg)))) as ->.
  { apply map_ext_in. intros b Hb. apply list_elem_of_In, elem_of_seqZ in Hb. unfold fresh_left. rewrite Hf.
    replace (b =? 0) with false by lia. reflexivity. }
  unfold fresh_left, frame_left. rewrite Hf. cbn [Z.eqb negb fst snd]. fold (succs_at cfg 0). unfold list_sum. lia.
Qed.

(** ** The numbering *)

Section Numbering.
Context (cfg : IRCFG) (Hnb : 1 <= num_blocks cfg).
Notation nb := (num_blocks cfg).

(** Edges in the numbering. *)
Definition num_edge (st : dom_state) (i j : Z) : Prop := 0 <= i < ds_np st /\ 0 <= j < ds_np st /\ ds_vertex st j ∈ succs_at cfg (ds_vertex st i).

Record numbered (st : dom_state) : Prop := {
  nm_np : 1 <= ds_np st;
  nm_entry : ds_pre st 0 = 0 /\ ds_vertex st 0 = 0;
  nm_vertex i : 0 <= i < ds_np st -> 0 <= ds_vertex st i < nb /\ ds_pre st (ds_vertex st i) = i;
  nm_pre b : 0 <= ds_pre st b -> ds_pre st b < ds_np st /\ ds_vertex st (ds_pre st b) = b;
  nm_parent w : 1 <= w < ds_np st -> 0 <= ds_parent st w < w /\ ds_vertex st w ∈ succs_at cfg (ds_vertex st (ds_parent st w));
  nm_interval u y z : 0 <= u -> y < ds_np st -> anc (ds_parent st) u y -> u <= z <= y -> anc (ds_parent st) u z;
  nm_forward y z : num_edge st y z -> y < z -> anc (ds_parent st) y z
}.

(** A frame on the stack: everything numbered since is below it, its visited successors are numbered. *)
Definition frame_ok (st : dom_state) (f : Z * nat) : Prop :=
  0 <= ds_pre st (fst f) /\ (forall z, ds_pre st (fst f) <= z < ds_np st -> anc (ds_parent st) (ds_pre st (fst f)) z) /\
  forall j s, (j < snd f)%nat -> succs_at cfg (fst f) !! j = Some s -> 0 <= s < nb -> 0 <= ds_pre st s.

Definition dom_inv (st : dom_state) (stack : list (Z * nat)) : Prop :=
  numbered st /\ Forall (frame_ok st) stack /\ StronglySorted (fun f g => ds_pre st (fst g) < ds_pre st (fst f)) stack /\
  forall b, 0 <= ds_pre st b -> (forall ci, (b, ci) ∉ stack) -> forall s, s ∈ succs_at cfg b -> 0 <= s < nb -> 0 <= ds_pre st s.

(** Ancestors of numbered vertices do not change when the next vertex is numbered. *)
Lemma anc_aset parent n p u w : (forall v, 1 <= v < n -> parent v < v) -> w < n -> anc (aset parent n p) u w <-> anc parent u w.
Proof using.
  intros Hp Hw. split; intros H; induction H as [|w H1 H IH]; try apply anc_refl.
  - rewrite aset_ne in H, IH by lia. apply anc_up; [exact H1|]. apply IH. pose proof (Hp w). lia.
  - apply anc_up; [exact H1|]. rewrite aset_ne by lia. apply IH. pose proof (Hp w). lia.
Qed.

Section Enter.
Context (st : dom_state) (N : numbered st) (b s : Z) (Hb : 0 <= ds_pre st b) (Hs : 0 <= s < nb) (Hfresh : ds_pre st s < 0) (Hedge : s ∈ succs_at cfg b).
(** Everything numbered after [b] is below it. *)
Context (Hbelow : forall z, ds_pre st b <= z < ds_np st -> anc (ds_parent st) (ds_pre st b) z).
Notation n := (ds_np st).
Notation st' := (dom_enter st b s).

Lemma enter_parent v : 1 <= v < n -> ds_parent st v < v.
Proof using N. intros Hv. apply (nm_parent _ N v Hv). Qed.

Lemma enter_anc u w : w < n -> anc (ds_parent st') u w <-> anc (ds_parent st) u w.
Proof using N. intros Hw. apply anc_aset; [exact enter_parent|exact Hw]. Qed.

Lemma enter_anc_new u : anc (ds_parent st) u (ds_pre st b) -> anc (ds_parent st') u n.
Proof using N Hb.
  intros H. destruct (nm_pre _ N b Hb) as [Hlt _]. pose proof (nm_np _ N). apply anc_up; [lia|]. cbn [dom_enter ds_parent]. rewrite aset_eq. apply enter_anc; assumption.
Qed.

Lemma enter_anc_inv u : u < n -> anc (ds_parent st') u n -> anc (ds_parent st) u (ds_pre st b).
Proof using N Hb.
  intros Hu H. inversion H as [|w H1 H2]; subst; [lia|]. cbn [dom_enter ds_parent] in H2. rewrite aset_eq in H2.
  destruct (nm_pre _ N b Hb). apply enter_anc in H2; assumption.
Qed.

Lemma enter_pre_old x : 0 <= ds_pre st x -> ds_pre st' x = ds_pre st x.
Proof using Hfresh. intros Hx. cbn. apply aset_ne. intros ->. lia. Qed.

Lemma enter_vertex_old i : 0 <= i < n -> ds_vertex st' i = ds_vertex st i.
Proof using. intros Hi. cbn. apply aset_ne. lia. Qed.

Lemma enter_anc_below z : ds_pre st b <= z < n + 1 -> anc (ds_parent st') (ds_pre st b) z.
Proof using N Hb Hbelow.
  intros Hz. destruct (Z.eq_dec z n) as [->|]; [apply enter_anc_new, anc_refl|]. apply enter_anc; [lia|]. apply Hbelow. lia.
Qed.

Lemma enter_interval u y z : 0 <= u -> y < n + 1 -> anc (ds_parent st') u y -> u <= z <= y -> anc (ds_parent st') u z.
Proof using N Hb Hbelow.
  intros Hu Hy Ha Hz. destruct (Z.eq_dec y n) as [->|Hne].
  - destruct (Z.eq_dec z n) as [->|Hzn]; [exact Ha|]. pose proof (enter_anc_inv u ltac:(lia) Ha) as Hub. destruct (nm_pre _ N b Hb) as [Hlt _].
    destruct (Z.le_gt_cases z (ds_pre st b)).
    + apply enter_anc; [lia|]. apply (nm_interval _ N u (ds_pre st b)); auto; lia.
    + eapply anc_trans; [apply enter_anc; [exact Hlt|exact Hub]|]. apply enter_anc_below. lia.
  - apply enter_anc; [lia|]. apply (nm_interval _ N u y); auto; [lia|]. apply enter_anc in Ha; [exact Ha|lia].
Qed.

Lemma enter_numbered : (forall y, 0 <= y < n -> s ∈ succs_at cfg (ds_vertex st y) -> anc (ds_parent st) y (ds_pre st b)) -> numbered st'.
Proof using N Hb Hs Hfresh Hedge Hbelow.
  intros Hstack. destruct (nm_pre _ N b Hb) as [Hlt Hvb]. pose proof (nm_np _ N) as Hn. destruct (nm_entry _ N) as [P0 V0].
  assert (forall i, 0 <= i < n -> ds_vertex st i <> s) as Hvs by (intros i Hi <-; destruct (nm_vertex _ N i Hi); lia).
  constructor; [cbn; lia| | | | |exact enter_interval|].
  - rewrite enter_pre_old, enter_vertex_old by lia. auto.
  - intros i Hi. cbn [dom_enter ds_np] in Hi. destruct (Z.eq_dec i n) as [->|Hne].
    + cbn. rewrite !aset_eq. auto.
    + rewrite enter_vertex_old by lia. destruct (nm_vertex _ N i ltac:(lia)) as [H1 H2]. rewrite enter_pre_old by lia. auto.
  - intros x Hx. cbn [dom_enter ds_np]. destruct (Z.eq_dec x s) as [->|Hne].
    + cbn. rewrite !aset_eq. split; [lia|reflexivity].
    + assert (ds_pre st' x = ds_pre st x) as Ex by (cbn; apply aset_ne; exact Hne). rewrite Ex in Hx |- *. destruct (nm_pre _ N x Hx) as [H1 H2].
      rewrite enter_vertex_old by lia. split; [lia|exact H2].
  - intros w Hw. cbn [dom_enter ds_np] in Hw. destruct (Z.eq_dec w n) as [->|Hne].
    + cbn [dom_enter ds_parent ds_vertex]. rewrite !aset_eq. rewrite aset_ne by lia. rewrite Hvb. split; [lia|exact Hedge].
    + destruct (nm_parent _ N w ltac:(lia)) as [H1 H2]. cbn [dom_enter ds_parent]. rewrite aset_ne by lia. rewrite !enter_vertex_old by lia. auto.
  - intros y z (Hy & Hz & He) Hyz. cbn [dom_enter ds_np] in Hy, Hz. rewrite (enter_vertex_old y) in He by lia. destruct (Z.eq_dec z n) as [->|Hne].
    + cbn [dom_enter ds_vertex] in He. rewrite aset_eq in He. apply enter_anc_new, Hstack; [lia|exact He].
    + rewrite (enter_vertex_old z) in He by lia. apply enter_anc; [lia|]. apply (nm_forward _ N); [split; [lia|split; [lia|exact He]]|exact Hyz].
Qed.

End Enter.

Lemma frame_enter st b s f : numbered st -> 0 <= ds_pre st b -> ds_pre st s < 0 -> frame_ok st f -> ds_pre st (fst f) <= ds_pre st b ->
  frame_ok (dom_enter st b s) f.
Proof using.
  intros N Hb Hfresh (H1 & H2 & H3) Hle. destruct (nm_pre _ N b Hb) as [Hlt _]. unfold frame_ok. rewrite (enter_pre_old st b s Hfresh (fst f) H1). split; [exact H1|]. split.
  - intros z Hz. cbn [dom_enter ds_np] in Hz. destruct (Z.eq_dec z (ds_np st)) as [->|].
    + apply (enter_anc_new st N b s Hb). apply H2. lia.
    + apply (enter_anc st N b s); [lia|]. apply H2. lia.
  - intros j x Hj Hx Hr. pose proof (H3 j x Hj Hx Hr). rewrite (enter_pre_old st b s Hfresh); assumption.
Qed.

Lemma dom_inv_enter st b ci s rest : dom_inv st ((b, ci) :: rest) -> succs_at cfg b !! ci = Some s -> 0 <= s < nb -> (ds_pre st s <? 0) = true ->
  dom_inv (dom_enter st b s) ((s, O) :: (b, S ci) :: rest).
Proof using.
  intros (N & F & So & D) Hs Hr Hfr. assert (ds_pre st s < 0) as Hfresh by lia. inversion F as [|? ? Fb Fr]; subst. inversion So as [|? ? Sr Sb]; subst.
  pose proof Fb as (Hb & Hbelow & Hdone). cbn [fst snd] in *. destruct (nm_pre _ N b Hb) as [Hlt _]. pose proof (nm_np _ N) as Hn.
  assert (s ∈ succs_at cfg b) as Hedge by (apply list_elem_of_lookup; eauto).
  assert (forall g, g ∈ rest -> ds_pre st (fst g) < ds_pre st b) as Hbel by (intros g Hg; exact (proj1 (list.Forall_forall _ _) Sb g Hg)).
  assert (forall y, 0 <= y < ds_np st -> s ∈ succs_at cfg (ds_vertex st y) -> anc (ds_parent st) y (ds_pre st b)) as Hstack.
  { intros y Hy Hsy. destruct (nm_vertex _ N y Hy) as [_ Py]. destruct (decide (Exists (fun f => fst f = ds_vertex st y) ((b, ci) :: rest))) as [Hex|Hnex].
    - apply list.Exists_exists in Hex as (g & Hg & Eg). pose proof (proj1 (list.Forall_forall _ _) F g Hg) as (_ & Gb & _). rewrite Eg, Py in Gb. apply Gb.
      apply elem_of_cons in Hg as [->|Hg]; [cbn [fst] in Eg; rewrite <- Eg in Py; lia|]. specialize (Hbel g Hg). rewrite Eg, Py in Hbel. lia.
    - exfalso. pose proof (D (ds_vertex st y) ltac:(lia)) as Dy. enough (0 <= ds_pre st s) by lia. apply Dy; [|exact Hsy|exact Hr].
      intros k Hk. apply Hnex, list.Exists_exists. exists (ds_vertex st y, k). auto. }
  split; [apply (enter_numbered st N b s Hb Hr Hfresh Hedge Hbelow Hstack)|]. split; [|split].
  - constructor; [|constructor].
    + unfold frame_ok. cbn [fst snd dom_enter ds_pre ds_np]. rewrite aset_eq. split; [lia|]. split; [|intros; lia].
      intros z Hz. replace z with (ds_np st) by lia. apply anc_refl.
    + destruct (frame_enter st b s (b, ci) N Hb Hfresh Fb ltac:(cbn [fst]; lia)) as (A & B & C). split; [exact A|]. split; [exact B|].
      cbn [fst snd] in *. intros j x Hj Hx Hrx. destruct (Nat.eq_dec j ci) as [->|]; [|apply (C j); auto; lia].
      rewrite Hs in Hx. injection Hx as <-. cbn [dom_enter ds_pre]. rewrite aset_eq. lia.
    + apply list.Forall_forall. intros g Hg. pose proof (proj1 (list.Forall_forall _ _) Fr g Hg) as Fg. specialize (Hbel g Hg). apply frame_enter; auto. lia.
  - assert (forall f, f ∈ (b, S ci) :: rest -> ds_pre (dom_enter st b s) (fst f) = ds_pre st (fst f) /\ ds_pre st (fst f) < ds_np st) as Hold.
    { intros f Hf. assert (0 <= ds_pre st (fst f)) as H0 by (apply elem_of_cons in Hf as [->|Hf]; [exact Hb|exact (proj1 (proj1 (list.Forall_forall _ _) Fr f Hf))]).
      split; [apply enter_pre_old; assumption|apply (nm_pre _ N); exact H0]. }
    constructor; [|apply list.Forall_forall; intros f Hf; destruct (Hold f Hf) as [-> ?]; cbn [fst dom_enter ds_pre]; rewrite aset_eq; lia].
    constructor.
    + clear -Sr Hold. induction Sr as [|f l Sl IH Hf]; constructor; [apply IH; intros g Hg; apply Hold; apply elem_of_cons in Hg as [->|Hg]; [left|right; right; exact Hg]|].
      apply list.Forall_forall. intros g Hg. rewrite (proj1 (Hold g ltac:(right; right; exact Hg))), (proj1 (Hold f ltac:(right; left))).
      exact (proj1 (list.Forall_forall _ _) Hf g Hg).
    + apply list.Forall_forall. intros g Hg. rewrite (proj1 (Hold g ltac:(right; exact Hg))). rewrite (proj1 (Hold (b, S ci) ltac:(left))). exact (Hbel g Hg).
  - intros x Hx Hnin y Hy Hry. destruct (Z.eq_dec x s) as [->|Hxs]; [exfalso; apply (Hnin O); left|].
    assert (ds_pre (dom_enter st b s) x = ds_pre st x) as Ex by (cbn; apply aset_ne; exact Hxs). rewrite Ex in Hx.
    assert (x <> b) as Hxb by (intros ->; apply (Hnin (S ci)); right; left).
    enough (0 <= ds_pre st y) by (rewrite enter_pre_old; assumption).
    apply (D x Hx); [|exact Hy|exact Hry]. intros k Hk. apply elem_of_cons in Hk as [Hk|Hk]; [congruence|]. apply (Hnin k). right. right. exact Hk.
Qed.

Lemma dom_inv_skip st b ci s rest : dom_inv st ((b, ci) :: rest) -> succs_at cfg b !! ci = Some s -> (0 <= s < nb -> (ds_pre st s <? 0) = false) ->
  dom_inv st ((b, S ci) :: rest).
Proof using.
  intros (N & F & So & D) Hs Hfr. inversion F as [|? ? (A & B & C) Fr]; subst. split; [exact N|]. split; [|split].
  - constructor; [|exact Fr]. split; [exact A|]. split; [exact B|]. cbn [fst snd] in *. intros j x Hj Hx Hr.
    destruct (Nat.eq_dec j ci) as [->|]; [|apply (C j); auto; lia]. rewrite Hs in Hx. injection Hx as <-. specialize (Hfr Hr). lia.
  - inversion So; subst. constructor; assumption.
  - intros x Hx Hnin. apply (D x Hx). intros k Hk. apply elem_of_cons in Hk as [Hk|Hk]; [|apply (Hnin k); right; exact Hk].
    injection Hk as -> ->. apply (Hnin (S ci)). left.
Qed.

Lemma dom_inv_leave st b ci rest : dom_inv st ((b, ci) :: rest) -> length (succs_at cfg b) = ci -> dom_inv st rest.
Proof using.
  intros (N & F & So & D) Hci. inversion F as [|? ? (A & B & C) Fr]; subst. inversion So; subst. split; [exact N|]. split; [exact Fr|]. split; [assumption|].
  intros x Hx Hnin y Hy Hr. destruct (Z.eq_dec x b) as [->|Hne].
  - apply list_elem_of_lookup in Hy as [j Hj]. cbn [fst snd] in C. apply (C j y); auto. apply lookup_lt_Some in Hj. exact Hj.
  - apply (D x Hx); [|exact Hy|exact Hr]. intros k Hk. apply elem_of_cons in Hk as [Hk|Hk]; [congruence|exact (Hnin k Hk)].
Qed.

Lemma dom_search_done : exists d, dom_search cfg = Some d /\ dom_inv d [].
Proof using Hnb.
  unfold dom_search. apply (dfs_ind nb (succs_at cfg) (fun st s => ds_pre st s <? 0) dom_enter (fun st _ => st) dom_inv).
  - intros st b ci s rest HI Hs Hr Hf. split; [|apply (dom_inv_enter st b ci s rest); assumption]. intros x. cbn [dom_enter ds_pre].
    pose proof (nm_np _ (proj1 HI)). destruct (Z.eq_dec x s) as [->|Hne].
    + rewrite aset_eq, Z.eqb_refl. cbn [negb]. rewrite andb_false_r. lia.
    + rewrite aset_ne by exact Hne. replace (x =? s) with false by lia. rewrite andb_true_r. reflexivity.
  - intros st b ci s rest HI Hs Hf. apply (dom_inv_skip st b ci s rest); assumption.
  - intros st b ci rest HI Hci. split; [reflexivity|]. apply (dom_inv_leave st b ci rest); assumption.
  - split; [|split; [|split]].
    + constructor; cbn [ds_np ds_pre ds_vertex ds_parent]; [lia|split; reflexivity| | |lia| |].
      * intros i Hi. replace i with 0 by lia. split; [lia|reflexivity].
      * intros b Hb. destruct (Z.eqb_spec b 0) as [E|E]; [rewrite E; split; [lia|reflexivity]|lia].
      * intros u y z Hu Hy Ha Hz. assert (z = y) as -> by lia. exact Ha.
      * intros y z (Hy & Hz & _) Hyz. cbn in Hy, Hz. lia.
    + constructor; [|constructor]. split; [cbn; lia|]. split; [|intros; cbn in *; lia]. cbn. intros z Hz. replace z with 0 by lia. apply anc_refl.
    + constructor; constructor.
    + cbn [ds_pre]. intros b Hb Hnin. destruct (Z.eqb_spec b 0) as [E|E]; [|lia]. exfalso. apply (Hnin O). rewrite E. left.
  - constructor; [cbn; lia|constructor].
  - apply dfs_fuel_enough; [exact Hnb|]. intros b. cbn [ds_pre]. destruct (b =? 0); reflexivity.
Qed.

End Numbering.

(** ** What the numbering provides *)

Section Numbered.
Context (cfg : IRCFG) (Hnb : 1 <= num_blocks cfg) (d : dom_state) (D : dom_inv cfg d []).

Lemma numbered_tree : dfs_tree (ds_np d) (num_edge cfg d) (ds_parent d).
Proof using D.
  destruct D as (N & _). constructor.
  - exact (nm_np _ _ N).
  - intros i j (Hi & Hj & _). auto.
  - intros w Hw. destruct (nm_parent _ _ N w Hw) as [H1 H2]. split; [exact H1|]. split; [lia|]. split; [lia|exact H2].
  - exact (nm_interval _ _ N).
  - exact (nm_forward _ _ N).
Qed.

Lemma numbered_closed b c : 0 <= ds_pre d b -> edge cfg b c -> 0 <= ds_pre d c.
Proof using D.
  destruct D as (_ & _ & _ & C). intros Hb (_ & Hc & Hin). apply (C b Hb); [|exact Hin|exact Hc]. intros ci Hci. apply elem_of_nil in Hci. exact Hci.
Qed.

(** Walks from the entry, in blocks and in numbers. *)
Lemma walk_numbers P b : walk (edge cfg) P 0 b -> 0 <= ds_pre d b /\ walk (num_edge cfg d) (fun i => P (ds_vertex d i)) 0 (ds_pre d b).
Proof using D.
  destruct D as (N & _). destruct (nm_entry _ _ N) as [P0 V0]. intros W. induction W as [HP|b c W IH HE HP].
  - split; [lia|]. rewrite P0. apply walk_refl. rewrite V0. exact HP.
  - destruct IH as [Hb IH]. pose proof (numbered_closed b c Hb HE) as Hc. split; [exact Hc|].
    destruct (nm_pre _ _ N b Hb) as [B1 B2], (nm_pre _ _ N c Hc) as [C1 C2]. eapply walk_snoc; [exact IH| |rewrite C2; exact HP].
    split; [lia|]. split; [lia|]. rewrite B2, C2. apply HE.
Qed.

Lemma walk_blocks P i : walk (num_edge cfg d) (fun i => P (ds_vertex d i)) 0 i -> walk (edge cfg) P 0 (ds_vertex d i).
Proof using D.
  destruct D as (N & _). destruct (nm_entry _ _ N) as [P0 V0]. intros W. induction W as [HP|i j W IH HE HP].
  - rewrite V0 in *. apply walk_refl. exact HP.
  - eapply walk_snoc; [exact IH| |exact HP]. destruct HE as (Hi & Hj & He). destruct (nm_vertex _ _ N i Hi), (nm_vertex _ _ N j Hj). split; [lia|]. split; [lia|exact He].
Qed.

Lemma reachable_numbered b : reachable cfg b <-> 0 <= ds_pre d b.
Proof using D.
  split; [intros W; exact (proj1 (walk_numbers _ b W))|]. intros Hb. pose proof D as (N & _). destruct (nm_pre _ _ N b Hb) as [B1 B2].
  unfold reachable, reaches. rewrite <- B2. apply walk_blocks.
  eapply walk_weaken; [|exact (anc_walk _ _ _ numbered_tree 0 (ds_pre d b) ltac:(lia) B1 (anc_root _ _ _ numbered_tree (ds_pre d b) ltac:(lia)))]. auto.
Qed.

Lemma walk_in_range P i : walk (num_edge cfg d) P 0 i -> walk (num_edge cfg d) (fun j => P j /\ 0 <= j < ds_np d) 0 i.
Proof using D.
  destruct D as (N & _). pose proof (nm_np _ _ N). intros W. induction W as [HP|i j W IH HE HP]; [apply walk_refl; split; [exact HP|lia]|].
  eapply walk_snoc; [exact IH|exact HE|]. split; [exact HP|]. apply HE.
Qed.

Lemma dom_numbers a b : reachable cfg a -> reachable cfg b -> dom (edge cfg) 0 a b <-> dom (num_edge cfg d) 0 (ds_pre d a) (ds_pre d b).
Proof using D.
  intros Ha Hb. apply reachable_numbered in Ha, Hb. pose proof D as (N & _). destruct (nm_pre _ _ N a Ha) as [A1 A2], (nm_pre _ _ N b Hb) as [B1 B2].
  split; intros H W; apply H.
  - rewrite <- B2. apply walk_blocks. eapply walk_weaken; [|exact (walk_in_range _ _ W)]. cbn. intros i [Hi Hr] E.
    destruct (nm_vertex _ _ N i Hr) as [_ Pi]. rewrite E in Pi. congruence.
  - destruct (walk_numbers _ b W) as [_ W']. eapply walk_weaken; [|exact W']. cbn. intros i Hi ->. apply Hi. exact A2.
Qed.

End Numbered.

(** ** Reverse postorder *)

Section Rpo.
Context (cfg : IRCFG) (Hnb : 1 <= num_blocks cfg).
Notation nb := (num_blocks cfg).

(** An edge from a finished block leads to a block finished before or to one that reaches it. *)
Definition post_ok (post : list Z) : Prop :=
  forall l1 u l2 v, post = l1 ++ u :: l2 -> edge cfg u v -> v ∈ l1 \/ reaches (edge cfg) v u.

Record rpo_inv (st : rpo_state) (stack : list (Z * nat)) : Prop := {
  ri_seen b : fst st b = true <-> b ∈ snd st \/ b ∈ map fst stack;
  ri_reach b : fst st b = true -> 0 <= b < nb /\ reachable cfg b;
  ri_nodup : NoDup (snd st ++ map fst stack);
  ri_frames b ci j s : (b, ci) ∈ stack -> (j < ci)%nat -> succs_at cfg b !! j = Some s -> 0 <= s < nb -> fst st s = true;
  ri_chain : StronglySorted (fun f g => reaches (edge cfg) (fst g) (fst f)) stack;
  ri_post : post_ok (snd st);
  ri_closed u v : u ∈ snd st -> edge cfg u v -> fst st v = true;
  ri_entry : exists l, snd st ++ map fst stack = l ++ [0]
}.

Lemma rpo_inv_enter st b ci s rest : rpo_inv st ((b, ci) :: rest) -> succs_at cfg b !! ci = Some s -> 0 <= s < nb -> fst st s = false ->
  rpo_inv (fun j => (j =? s) || fst st j, snd st) ((s, O) :: (b, S ci) :: rest).
Proof using.
  intros I Hs Hr Hf.
  pose proof (ri_reach _ _ I b (proj2 (ri_seen _ _ I b) ltac:(right; left))) as [Hb Rb].
  assert (edge cfg b s) as HE by (split; [exact Hb|split; [exact Hr|apply list_elem_of_lookup; eauto]]).
  assert (s ∉ snd st ++ b :: map fst rest) as Hnin.
  { intros H. apply elem_of_app in H. apply (ri_seen _ _ I) in H. congruence. }
  constructor; cbn [fst snd map].
  - intros x. rewrite orb_true_iff, Z.eqb_eq, (ri_seen _ _ I x). cbn [map fst]. rewrite !elem_of_cons. tauto.
  - intros x Hx. apply orb_true_iff in Hx as [Hx|Hx]; [|exact (ri_reach _ _ I x Hx)]. apply Z.eqb_eq in Hx as ->. split; [exact Hr|].
    eapply walk_snoc; [exact Rb|exact HE|exact Logic.I].
  - apply (NoDup_Permutation_proper (s :: snd st ++ b :: map fst rest)); [apply Permutation_middle|].
    constructor; [exact Hnin|exact (ri_nodup _ _ I)].
  - intros x k j y Hx Hj Hy Hry. apply orb_true_iff. apply elem_of_cons in Hx as [Hx|Hx]; [injection Hx as -> ->; lia|].
    apply elem_of_cons in Hx as [Hx|Hx].
    + injection Hx as -> ->. destruct (Nat.eq_dec j ci) as [->|]; [left; rewrite Hs in Hy; injection Hy as <-; apply Z.eqb_refl|].
      right. apply (ri_frames _ _ I b ci j); [left|lia|exact Hy|exact Hry].
    + right. apply (ri_frames _ _ I x k j); [right; exact Hx|exact Hj|exact Hy|exact Hry].
  - pose proof (ri_chain _ _ I) as C. inversion C as [|? ? C1 C2]; subst. constructor; [constructor; [exact C1|exact C2]|].
    constructor; [apply walk_edge; auto; exact Logic.I|]. apply list.Forall_forall. intros g Hg.
    eapply walk_snoc; [exact (proj1 (list.Forall_forall _ _) C2 g Hg)|exact HE|exact Logic.I].
  - exact (ri_post _ _ I).
  - intros u v Hu HEu. apply orb_true_iff. right. exact (ri_closed _ _ I u v Hu HEu).
  - destruct (ri_entry _ _ I) as [l Hl]. cbn [map fst] in Hl.
    assert (exists l', b :: map fst rest = l' ++ [0]) as [l' Hl'].
    { destruct (exists_last (l := b :: map fst rest) ltac:(discriminate)) as (l' & z & Ez). exists l'. rewrite Ez in Hl |- *.
      rewrite app_assoc in Hl. apply app_inj_tail in Hl as [_ ->]. reflexivity. }
    exists (snd st ++ s :: l'). rewrite Hl'. rewrite <- app_assoc. reflexivity.
Qed.

Lemma rpo_inv_skip st b ci s rest : rpo_inv st ((b, ci) :: rest) -> succs_at cfg b !! ci = Some s -> (0 <= s < nb -> fst st s = true) ->
  rpo_inv st ((b, S ci) :: rest).
Proof using.
  intros I Hs Hf. constructor; cbn [map fst].
  - exact (ri_seen _ _ I).
  - exact (ri_reach _ _ I).
  - exact (ri_nodup _ _ I).
  - intros x k j y Hx Hj Hy Hry. apply elem_of_cons in Hx as [Hx|Hx].
    + injection Hx as -> ->. destruct (Nat.eq_dec j ci) as [->|]; [rewrite Hs in Hy; injection Hy as <-; auto|].
      apply (ri_frames _ _ I b ci j); [left|lia|exact Hy|exact Hry].
    + apply (ri_frames _ _ I x k j); [right; exact Hx|exact Hj|exact Hy|exact Hry].
  - pose proof (ri_chain _ _ I) as C. inversion C; subst. constructor; assumption.
  - exact (ri_post _ _ I).
  - exact (ri_closed _ _ I).
  - exact (ri_entry _ _ I).
Qed.

Lemma rpo_inv_leave st b ci rest : rpo_inv st ((b, ci) :: rest) -> length (succs_at cfg b) = ci -> rpo_inv (fst st, snd st ++ [b]) rest.
Proof using.
  intros I Hci. pose proof (ri_chain _ _ I) as C. inversion C as [|? ? C1 C2]; subst.
  assert (forall v, edge cfg b v -> fst st v = true) as Hall.
  { intros v (_ & Hv & Hin). apply list_elem_of_lookup in Hin as [j Hj]. apply (ri_frames _ _ I b (length (succs_at cfg b)) j); [left| |exact Hj|exact Hv].
    apply lookup_lt_Some in Hj. exact Hj. }
  constructor; cbn [fst snd].
  - intros x. rewrite (ri_seen _ _ I x). cbn [map fst]. rewrite elem_of_app, !elem_of_cons, elem_of_nil. tauto.
  - exact (ri_reach _ _ I).
  - rewrite <- app_assoc. exact (ri_nodup _ _ I).
  - intros x k j y Hx. apply (ri_frames _ _ I x k j). right. exact Hx.
  - exact C1.
  - intros l1 u l2 v Heq HE. destruct (exists_last (l := u :: l2) ltac:(discriminate)) as (l' & z & Ez). rewrite Ez, app_assoc in Heq.
    apply app_inj_tail in Heq as [Heq <-]. destruct l' as [|u' l'].
    + cbn in Ez. injection Ez as -> ->. rewrite app_nil_r in Heq. subst l1. pose proof (Hall v HE) as Hv. apply (ri_seen _ _ I) in Hv as [Hv|Hv]; [left; exact Hv|right].
      cbn [map fst] in Hv. apply elem_of_cons in Hv as [->|Hv]; [apply walk_refl; exact Logic.I|].
      apply list_elem_of_fmap in Hv as (g & -> & Hg). exact (proj1 (list.Forall_forall _ _) C2 g Hg).
    + cbn in Ez. injection Ez as <- Ez. exact (ri_post _ _ I l1 u l' v Heq HE).
  - intros u v Hu HE. apply elem_of_app in Hu as [Hu|Hu]; [exact (ri_closed _ _ I u v Hu HE)|]. apply list_elem_of_singleton in Hu as ->. exact (Hall v HE).
  - destruct (ri_entry _ _ I) as [l Hl]. exists l. rewrite <- Hl. cbn [map fst]. rewrite <- app_assoc. reflexivity.
Qed.

Lemma rpo_search_done : exists st, rpo_search cfg = Some st /\ rpo_inv st [].
Proof using Hnb.
  unfold rpo_search.
  apply (dfs_ind nb (succs_at cfg) (fun (st : rpo_state) s => negb (fst st s)) (fun st _ s => (fun j => (j =? s) || fst st j, snd st)) (fun st b => (fst st, snd st ++ [b])) rpo_inv).
  - intros st b ci s rest HI Hs Hr Hf. apply negb_true_iff in Hf. split; [|apply (rpo_inv_enter st b ci s rest); assumption].
    intros x. cbn [fst]. destruct (x =? s), (fst st x); reflexivity.
  - intros st b ci s rest HI Hs Hf. apply (rpo_inv_skip st b ci s rest); [assumption..|]. intros Hr. apply negb_false_iff. exact (Hf Hr).
  - intros st b ci rest HI Hci. split; [reflexivity|]. apply (rpo_inv_leave st b ci rest); assumption.
  - constructor; cbn [fst snd map].
    + intros b. rewrite Z.eqb_eq, elem_of_nil, list_elem_of_singleton. tauto.
    + intros b Hb. apply Z.eqb_eq in Hb as ->. split; [lia|]. apply walk_refl. exact Logic.I.
    + apply NoDup_singleton.
    + intros b ci j s Hin Hj. apply list_elem_of_singleton in Hin. injection Hin as -> ->. lia.
    + constructor; constructor.
    + intros l1 u l2 v H. destruct l1; discriminate.
    + intros u v Hu. apply elem_of_nil in Hu. contradiction.
    + exists []. reflexivity.
  - constructor; [cbn; lia|constructor].
  - apply dfs_fuel_enough; [exact Hnb|]. reflexivity.
Qed.

(** The reverse postorder: each reachable block once, the entry first, and an edge
    that does not go forward closes a cycle. *)
Record is_rpo (order : list Z) : Prop := {
  ro_blocks b : b ∈ order <-> reachable cfg b;
  ro_nodup : NoDup order;
  ro_head : order !! O = Some 0;
  ro_forward i j u v : order !! i = Some u -> order !! j = Some v -> edge cfg u v -> (i < j)%nat \/ reaches (edge cfg) v u
}.

End Rpo.
