(* ===== verification/CfgStamp.v ===== *)
(** * Stamps over a tree given by parent pointers

    The arrays of children and the stamping search of
    [tcc_ir_cfg_compute_dominators]: the stamps of a block enclose exactly those
    of its descendants. *)

From S2P Require Import Prelude.
From S2P Require Import Cfg.
From S2P Require Import CfgSemi.
Local Open Scope Z_scope.

(** ** Children *)

Section Children.
Context (cfg : IRCFG).
Notation nb := (num_blocks cfg).
Notation up b := (idom (block_at (blocks cfg) b)).

Definition child_of (p b : Z) : bool := tree_child cfg b && (up b =? p).
Definition children_in (l : list Z) (p : Z) : list Z := List.filter (child_of p) l.
Notation children := (children_in (rpo_order cfg)).

Lemma children_app l1 l2 p : children_in (l1 ++ l2) p = children_in l1 p ++ children_in l2 p.
Proof using. apply filter_app. Qed.

Lemma children_cons b l p : children_in (b :: l) p = if child_of p b then b :: children_in l p else children_in l p.
Proof using. reflexivity. Qed.

Lemma children_one b p : children_in [b] p = if child_of p b then [b] else [].
Proof using. reflexivity. Qed.

Lemma counts_spec l : forall f p,
  fold_left (fun ccount b => if tree_child cfg b then let p := up b in aset ccount p (ccount p + 1) else ccount) l f p =
  f p + Z.of_nat (length (children_in l p)).
Proof using.
  induction l as [|b l IH]; intros f p; cbn [fold_left]; [cbn; lia|]. rewrite IH, children_cons. unfold child_of.
  destruct (tree_child cfg b); cbn [andb]; [|reflexivity]. cbv zeta. destruct (Z.eqb_spec (up b) p) as [<-|Hne].
  - rewrite aset_eq. cbn [length]. lia.
  - rewrite aset_ne by congruence. reflexivity.
Qed.

Lemma child_counts_spec p : child_counts cfg p = Z.of_nat (length (children p)).
Proof using. unfold child_counts. rewrite counts_spec. lia. Qed.

Lemma starts_fold (n : nat) f : forall i, 0 <= i < Z.of_nat n ->
  let starts := fold_left (fun cstart i => aset cstart (i + 1) (cstart i + child_counts cfg i)) (seqZ 0 (Z.of_nat n)) f in
  starts (i + 1) = starts i + child_counts cfg i.
Proof using.
  induction n as [|n IH]; intros i Hi; [lia|]. cbv zeta in *. rewrite seqZ_snoc, fold_left_app. cbn [fold_left].
  destruct (Z.eq_dec i (0 + Z.of_nat n)) as [->|Hne].
  - rewrite aset_eq, aset_ne by lia. reflexivity.
  - rewrite !aset_ne by lia. apply IH. lia.
Qed.

Lemma child_starts_step p : 0 <= p < nb -> child_starts cfg (p + 1) = child_starts cfg p + Z.of_nat (length (children p)).
Proof using.
  intros Hp. rewrite <- child_counts_spec. unfold child_starts, num_blocks in *. apply (starts_fold (length (blocks cfg)) (fun _ => 0)). lia.
Qed.

Lemma child_starts_mono p q : 0 <= p <= q -> q <= nb -> child_starts cfg p <= child_starts cfg q.
Proof using.
  intros [Hp Hq] Hn. replace q with (p + Z.of_nat (Z.to_nat (q - p))) in * by lia. generalize dependent (Z.to_nat (q - p)). clear q.
  induction n as [|n IH]; intros Hpn Hn; [rewrite Z.add_0_r; lia|]. replace (p + Z.of_nat (S n)) with (p + Z.of_nat n + 1) by lia.
  rewrite child_starts_step by lia. pose proof (IH ltac:(lia) ltac:(lia)). lia.
Qed.

(** The segment of [p] in [chld] and its cursor, after the blocks [l]. *)
Definition filled_in (l : list Z) (st : (Z -> Z) * (Z -> Z)) : Prop :=
  forall p, 0 <= p < nb -> snd st p = child_starts cfg p + Z.of_nat (length (children_in l p)) /\
    forall k c, children_in l p !! k = Some c -> fst st (child_starts cfg p + Z.of_nat k) = c.

Lemma fill_step l b st : (forall p, (length (children_in (l ++ [b]) p) <= length (children p))%nat) ->
  (tree_child cfg b = true -> 0 <= up b < nb) -> filled_in l st ->
  filled_in (l ++ [b]) (if tree_child cfg b then let p := up b in (aset (fst st) (snd st p) b, aset (snd st) p (snd st p + 1)) else st).
Proof using.
  intros Hle Hr H p Hp. destruct (H p Hp) as [H1 H2]. pose proof (Hle p) as Hlp. rewrite children_app, children_one in *. unfold child_of in *.
  destruct (tree_child cfg b) eqn:Et; cbn [andb] in *; [|rewrite app_nil_r; auto]. cbv zeta. cbn [fst snd].
  specialize (Hr eq_refl). destruct (Z.eqb_spec (up b) p) as [<-|Hne].
  - rewrite aset_eq, length_app. cbn [length]. split; [lia|]. intros k c Hk. rewrite length_app in Hlp.
    destruct (Nat.lt_ge_cases k (length (children_in l (up b)))) as [Hlt|Hge].
    + rewrite lookup_app_l in Hk by exact Hlt. rewrite aset_ne by lia. apply H2, Hk.
    + rewrite lookup_app_r in Hk by exact Hge. destruct (k - length (children_in l (up b)))%nat eqn:Ek; [|discriminate]. injection Hk as <-.
      replace (child_starts cfg (up b) + Z.of_nat k) with (snd st (up b)) by lia. apply aset_eq.
  - rewrite app_nil_r in *. rewrite aset_ne by congruence. split; [exact H1|]. intros k c Hk. rewrite aset_ne; [apply H2, Hk|].
    pose proof (lookup_lt_Some _ _ _ Hk) as Hlt. destruct (H (up b) Hr) as [E1 _]. rewrite E1.
    pose proof (child_starts_step p Hp). pose proof (child_starts_step (up b) Hr). pose proof (Hle (up b)) as Hlu. rewrite children_app, children_one, length_app in Hlu.
    unfold child_of in Hlu. rewrite Et, Z.eqb_refl in Hlu. cbn [andb length] in Hlu.
    destruct (Z.lt_ge_cases p (up b)).
    + pose proof (child_starts_mono (p + 1) (up b) ltac:(lia) ltac:(lia)). lia.
    + pose proof (child_starts_mono (up b + 1) p ltac:(lia) ltac:(lia)). lia.
Qed.

Lemma child_fill_spec : (forall b, b ∈ rpo_order cfg -> tree_child cfg b = true -> 0 <= up b < nb) ->
  forall p k c, 0 <= p < nb -> children p !! k = Some c -> fst (child_fill cfg) (child_starts cfg p + Z.of_nat k) = c.
Proof using.
  intros Hr p k c Hp Hk. enough (filled_in (rpo_order cfg) (child_fill cfg)) as H by (apply H; assumption).
  unfold child_fill. remember (fun _ : Z => 0, child_starts cfg) as st0.
  assert (forall l1 l2 st, rpo_order cfg = l1 ++ l2 -> filled_in l1 st ->
    filled_in (l1 ++ l2) (fold_left (fun st b => if tree_child cfg b then let p := up b in (aset (fst st) (snd st p) b, aset (snd st) p (snd st p + 1)) else st) l2 st)) as Hfold.
  - intros l1 l2. revert l1. induction l2 as [|b l2 IH]; intros l1 st Hl H; cbn [fold_left]; [rewrite app_nil_r; exact H|].
    change (l1 ++ b :: l2) with (l1 ++ [b] ++ l2) in *. rewrite app_assoc in *. apply IH; [exact Hl|]. apply fill_step; [|apply Hr; rewrite Hl, !elem_of_app; left; right; left|exact H].
    intros q. rewrite Hl, !children_app, !length_app. lia.
  - apply (Hfold [] (rpo_order cfg) st0 eq_refl). subst st0. intros q Hq. cbn. split; [lia|]. intros j x Hj. discriminate.
Qed.

End Children.

(** ** The tree *)

(** The blocks of the order form a tree with root 0, each parent of smaller rank. *)
Record idom_tree (cfg : IRCFG) (rank : Z -> Z) : Prop := {
  it_root : 0 ∈ rpo_order cfg;
  it_nodup : NoDup (rpo_order cfg);
  it_range b : b ∈ rpo_order cfg -> 0 <= b < num_blocks cfg;
  it_rank b : b ∈ rpo_order cfg -> 0 <= rank b;
  it_up b : b ∈ rpo_order cfg -> b <> 0 -> idom (block_at (blocks cfg) b) ∈ rpo_order cfg /\ rank (idom (block_at (blocks cfg) b)) < rank b
}.

(** Ancestors in that tree, itself included. *)
Inductive tanc (cfg : IRCFG) (a : Z) : Z -> Prop :=
| tanc_refl : tanc cfg a a
| tanc_up b : b <> 0 -> tanc cfg a (idom (block_at (blocks cfg) b)) -> tanc cfg a b.

Section Stamps.
Context (cfg : IRCFG) (rank : Z -> Z) (T : idom_tree cfg rank).
Notation up b := (idom (block_at (blocks cfg) b)).
Notation node b := (b ∈ rpo_order cfg).
Notation children := (children_in cfg (rpo_order cfg)).
Notation cstart := (child_starts cfg).

Lemma node_child b : node b -> b <> 0 -> tree_child cfg b = true.
Proof using T.
  intros Hb H0. destruct (it_up _ _ T b Hb H0) as [Hu Hr]. pose proof (it_range _ _ T _ Hu). unfold tree_child.
  assert (up b <> b) by (intros E; rewrite E in Hr; lia). lia.
Qed.

Lemma children_spec p c : c ∈ children p <-> node c /\ c <> 0 /\ up c = p.
Proof using T.
  unfold children_in. rewrite list_elem_of_In, filter_In, <- list_elem_of_In. unfold child_of. rewrite andb_true_iff, Z.eqb_eq. split.
  - intros (Hn & Hc & Hu). unfold tree_child in Hc. split; [exact Hn|]. split; [lia|exact Hu].
  - intros (Hn & H0 & Hu). split; [exact Hn|]. split; [apply node_child; assumption|exact Hu].
Qed.

Lemma tanc_rank a b : node b -> tanc cfg a b -> node a /\ (a = b \/ rank a < rank b).
Proof using T.
  intros Hb H. induction H as [|b H0 H IH]; [auto|]. destruct (it_up _ _ T b Hb H0) as [Hu Hr]. destruct (IH Hu) as [Ha [->|Hlt]]; split; auto; right; lia.
Qed.

Lemma tanc_anti a b : node a -> node b -> tanc cfg a b -> tanc cfg b a -> a = b.
Proof using T. intros Ha Hb H1 H2. destruct (tanc_rank _ _ Hb H1) as [_ [|]], (tanc_rank _ _ Ha H2) as [_ [|]]; auto; lia. Qed.

(** Ancestry is decided by climbing. *)
Lemma tanc_dec a b : node b -> tanc cfg a b \/ ~ tanc cfg a b.
Proof using T.
  assert (forall n b, node b -> rank b < Z.of_nat n -> tanc cfg a b \/ ~ tanc cfg a b) as H.
  - induction n as [|n IH]; intros x Nx Hr; [pose proof (it_rank _ _ T x Nx); lia|]. destruct (Z.eq_dec a x) as [->|Hne]; [left; apply tanc_refl|].
    destruct (Z.eq_dec x 0) as [->|H0]; [right; intros H; inversion H; congruence|]. destruct (it_up _ _ T x Nx H0) as [Nu Hu].
    destruct (IH _ Nu ltac:(lia)) as [Ht|Hn]; [left; apply tanc_up; assumption|right]. intros Ht. inversion Ht; [congruence|contradiction].
  - intros Nb. apply (H (Z.to_nat (rank b + 1)) b Nb). pose proof (it_rank _ _ T b Nb). lia.
Qed.

Lemma tanc_trans a b c : tanc cfg a b -> tanc cfg b c -> tanc cfg a c.
Proof using. intros H1 H2. induction H2; [exact H1|]. apply tanc_up; assumption. Qed.

(** Two ancestors of a block are comparable. *)
Lemma tanc_linear a b c : tanc cfg a c -> tanc cfg b c -> tanc cfg a b \/ tanc cfg b a.
Proof using.
  intros Ha. revert b. induction Ha as [|c H0 Ha IH]; intros b Hb; [right; exact Hb|]. inversion Hb as [|? H1 Hb']; subst; [left; apply tanc_up; assumption|]. apply IH. exact Hb'.
Qed.

(** The state of the search.  A block is entered when it has its first stamp and
    left when it has the second. *)
Definition nested (st : stamp_state) (a b : Z) : Prop :=
  (tanc cfg a b -> ss_tin st a < ss_tin st b /\ (0 <= ss_tout st a -> 0 <= ss_tout st b < ss_tout st a)) /\
  (~ tanc cfg a b -> ~ tanc cfg b a -> (0 <= ss_tout st a < ss_tin st b) \/ (0 <= ss_tout st b < ss_tin st a)).

(** The stack: a chain of parents down to the root. *)
Fixpoint tree_stack (stack : list Z) : Prop :=
  match stack with
  | [] => True
  | b :: rest => match rest with [] => b = 0 | p :: _ => b <> 0 /\ up b = p end /\ tree_stack rest
  end.

Record stamp_inv (st : stamp_state) (stack : list Z) : Prop := {
  si_clock b : ss_tin st b < ss_clock st /\ ss_tout st b < ss_clock st;
  si_entered b : 0 <= ss_tin st b -> node b /\ (b <> 0 -> 0 <= ss_tin st (up b));
  si_stack b : b ∈ stack <-> 0 <= ss_tin st b /\ ss_tout st b < 0;
  si_tout b : 0 <= ss_tout st b -> 0 <= ss_tin st b < ss_tout st b;
  si_chain : tree_stack stack;
  si_stack_nodup : NoDup stack;
  si_cursor b : node b -> exists k, ss_nxt st b = cstart b + Z.of_nat k /\ (k <= length (children b))%nat /\
      (forall j c, children b !! j = Some c -> 0 <= ss_tin st c <-> (j < k)%nat) /\ (0 <= ss_tout st b -> k = length (children b));
  si_nested a b : 0 <= ss_tin st a -> 0 <= ss_tin st b -> a <> b -> nested st a b;
  si_root : 0 <= ss_tin st 0;
  si_clock0 : 0 <= ss_clock st
}.

(** Everything on the stack is an ancestor of its top. *)
Lemma stack_tanc stack : tree_stack stack -> forall b rest a, stack = b :: rest -> a ∈ stack -> tanc cfg a b.
Proof using.
  induction stack as [|x stack IH]; intros Hc b rest a Heq Ha; [discriminate|]. injection Heq as -> ->. destruct Hc as [Hx Hc].
  apply elem_of_cons in Ha as [->|Ha]; [apply tanc_refl|]. destruct rest as [|p rest]; [apply elem_of_nil in Ha; contradiction|].
  destruct Hx as [H0 Hu]. apply tanc_up; [exact H0|]. rewrite Hu. exact (IH Hc p rest a eq_refl Ha).
Qed.

(** And all ancestors of the top are on it. *)
Lemma tanc_stack stack : tree_stack stack -> forall b rest a, stack = b :: rest -> tanc cfg a b -> a <> b -> a ∈ rest \/ tanc cfg a 0.
Proof using.
  induction stack as [|x stack IH]; intros Hc b rest a Heq Ha Hne; [discriminate|]. injection Heq as -> ->. destruct Hc as [Hx Hc].
  inversion Ha as [|? H0 Ha']; subst; [congruence|]. destruct rest as [|p rest]; [congruence|]. destruct Hx as [_ Hu]. rewrite Hu in Ha'.
  destruct (Z.eq_dec a p) as [->|Hap]; [left; left|]. destruct (IH Hc p rest a eq_refl Ha' Hap) as [H|H]; [left; right; exact H|right; exact H].
Qed.

Lemma tanc_zero a : tanc cfg a 0 -> a = 0.
Proof using. inversion 1; [reflexivity|congruence]. Qed.

Lemma zero_in_stack stack : tree_stack stack -> stack <> [] -> 0 ∈ stack.
Proof using.
  induction stack as [|b stack IH]; intros Hc Hne; [congruence|]. destruct Hc as [Hb Hc]. destruct stack as [|p stack]; [subst b; left|]. right. apply IH; [exact Hc|discriminate].
Qed.

Lemma stack_ancestors stack b rest a : tree_stack stack -> stack = b :: rest -> tanc cfg a b <-> a ∈ stack.
Proof using.
  intros Hc Heq. split; [|apply (stack_tanc stack Hc b rest a Heq)]. intros Ha. destruct (Z.eq_dec a b) as [->|Hne]; [rewrite Heq; left|].
  destruct (tanc_stack stack Hc b rest a Heq Ha Hne) as [H|H]; [rewrite Heq; right; exact H|]. apply tanc_zero in H as ->. apply zero_in_stack; [exact Hc|congruence].
Qed.

Lemma entered_anc st stack a b : stamp_inv st stack -> 0 <= ss_tin st b -> tanc cfg a b -> 0 <= ss_tin st a.
Proof using. intros I Hb H. induction H as [|b H0 H IH]; [exact Hb|]. apply IH. apply (si_entered _ _ I b Hb). exact H0. Qed.

(** A block entered but not an ancestor of the top has been left. *)
Lemma left_of_top st b rest x : stamp_inv st (b :: rest) -> 0 <= ss_tin st x -> ~ tanc cfg x b -> 0 <= ss_tout st x.
Proof using.
  intros I Hx Hn. destruct (Z.le_gt_cases 0 (ss_tout st x)); [assumption|]. exfalso. apply Hn.
  apply (stack_ancestors (b :: rest) b rest x (si_chain _ _ I) eq_refl). apply (si_stack _ _ I). lia.
Qed.

Lemma top_not_left st b rest x : stamp_inv st (b :: rest) -> tanc cfg x b -> ss_tout st x < 0.
Proof using. intros I H. apply (stack_ancestors (b :: rest) b rest x (si_chain _ _ I) eq_refl) in H. apply (si_stack _ _ I) in H. lia. Qed.

Lemma children_inj b i j c : children b !! i = Some c -> children b !! j = Some c -> i = j.
Proof using T.
  intros Hi Hj. assert (NoDup (children b)) as Hnd by (unfold children_in; apply NoDup_ListNoDup, List.NoDup_filter, NoDup_ListNoDup, (it_nodup _ _ T)).
  exact (NoDup_lookup _ _ _ _ Hnd Hi Hj).
Qed.

Section Enter.
Context (st : stamp_state) (b : Z) (rest : list Z) (I : stamp_inv st (b :: rest)) (c : Z) (k : nat).
Context (Hk : ss_nxt st b = cstart b + Z.of_nat k) (Hc : children b !! k = Some c).
Notation st' := {| ss_nxt := aset (ss_nxt st) b (ss_nxt st b + 1); ss_tin := aset (ss_tin st) c (ss_clock st); ss_tout := ss_tout st; ss_clock := ss_clock st + 1 |}.

Lemma enter_child : node c /\ c <> 0 /\ up c = b.
Proof using T Hc. apply children_spec. apply list_elem_of_lookup. eauto. Qed.

Lemma enter_top : 0 <= ss_tin st b /\ ss_tout st b < 0.
Proof using I. apply (si_stack _ _ I). left. Qed.

Lemma enter_fresh : ss_tin st c < 0 /\ ss_tout st c < 0.
Proof using T I Hk Hc.
  pose proof enter_top as [Hb _]. destruct (si_entered _ _ I b Hb) as [Nb _]. destruct (si_cursor _ _ I b Nb) as (k' & E & _ & Hj & _).
  assert (k' = k) as -> by lia. assert (ss_tin st c < 0) as Hlt by (destruct (Z.lt_ge_cases (ss_tin st c) 0) as [|Hge]; [assumption|]; apply (Hj k c Hc) in Hge; lia).
  split; [exact Hlt|]. destruct (Z.lt_ge_cases (ss_tout st c) 0) as [|Hge]; [assumption|]. apply (si_tout _ _ I) in Hge. lia.
Qed.

Lemma enter_nested x y : 0 <= ss_tin st' x -> 0 <= ss_tin st' y -> x <> y -> nested st' x y.
Proof using T I Hk Hc.
  destruct enter_child as (Nc & C0 & Uc). destruct enter_fresh as [Fc Gc]. intros Hx Hy Hne. cbn [ss_tin] in Hx, Hy. unfold nested. cbn [ss_tin ss_tout].
  assert (forall z, z <> c -> 0 <= ss_tin st z -> ~ tanc cfg c z) as Hdown by (intros z Hz Ez H; pose proof (entered_anc st _ c z I Ez H); lia).
  assert (forall z, z <> c -> tanc cfg z c -> tanc cfg z b) as Hup by (intros z Hz H; inversion H as [|? _ H']; [congruence|rewrite Uc in H'; exact H']).
  assert (forall z, z <> c -> 0 <= ss_tin st z -> ~ tanc cfg z c -> 0 <= ss_tout st z < ss_clock st) as Hleft.
  { intros z Hz Ez Hn. split; [|apply (si_clock _ _ I)]. apply (left_of_top st b rest z I Ez). intros H. apply Hn. apply tanc_up; [exact C0|]. rewrite Uc. exact H. }
  destruct (Z.eq_dec x c) as [->|Hxc]; [|destruct (Z.eq_dec y c) as [->|Hyc]].
  - rewrite (aset_ne _ c y) in Hy |- * by congruence. rewrite aset_eq. split; [intros H; destruct (Hdown y ltac:(congruence) Hy H)|]. intros _ Hn. right. apply Hleft; auto.
  - rewrite (aset_ne _ c x) in Hx |- * by assumption. rewrite aset_eq. split.
    + intros H. split; [apply (si_clock _ _ I)|]. intros Ht. pose proof (top_not_left st b rest x I (Hup x Hxc H)). lia.
    + intros Hn _. left. apply Hleft; auto.
  - rewrite !aset_ne in * by assumption. exact (si_nested _ _ I x y Hx Hy Hne).
Qed.

Lemma enter_cursor x : node x -> exists j, ss_nxt st' x = cstart x + Z.of_nat j /\ (j <= length (children x))%nat /\
  (forall i y, children x !! i = Some y -> 0 <= ss_tin st' y <-> (i < j)%nat) /\ (0 <= ss_tout st' x -> j = length (children x)).
Proof using T I Hk Hc.
  intros Nx. destruct (si_cursor _ _ I x Nx) as (j & E & Hle & Hj & Hout). cbn [ss_nxt ss_tin ss_tout].
  destruct enter_child as (Nc & C0 & Uc). pose proof enter_top as [Hb Hob]. pose proof (si_clock0 _ _ I). destruct (Z.eq_dec x b) as [->|Hne].
  - assert (j = k) as -> by lia. pose proof (lookup_lt_Some _ _ _ Hc). exists (S k). rewrite aset_eq. split; [lia|]. split; [lia|]. split; [|lia].
    intros i y Hi. destruct (Z.eq_dec y c) as [->|Hyc].
    + rewrite aset_eq. pose proof (children_inj b i k c Hi Hc). lia.
    + rewrite aset_ne by exact Hyc. rewrite (Hj i y Hi). assert (i <> k) by (intros ->; congruence). lia.
  - exists j. rewrite aset_ne by exact Hne. split; [exact E|]. split; [exact Hle|]. split; [|exact Hout]. intros i y Hi.
    assert (y <> c) as Hyc by (intros ->; assert (c ∈ children x) as Hin by (apply list_elem_of_lookup; eauto); apply children_spec in Hin as (_ & _ & Hu); congruence).
    rewrite aset_ne by exact Hyc. apply Hj. exact Hi.
Qed.

Lemma enter_inv : stamp_inv st' (c :: b :: rest).
Proof using T I Hk Hc.
  destruct enter_child as (Nc & C0 & Uc). pose proof enter_top as [Hb Hob]. destruct enter_fresh as [Fc Gc]. pose proof (si_clock0 _ _ I) as Hcl.
  constructor; [| | | | | |exact enter_cursor|exact enter_nested| |]; cbn [ss_tin ss_tout ss_clock].
  - intros x. pose proof (si_clock _ _ I x). destruct (Z.eq_dec x c) as [->|Hne]; [rewrite aset_eq|rewrite aset_ne by exact Hne]; lia.
  - intros x Hx. assert (forall z, 0 <= ss_tin st z -> 0 <= aset (ss_tin st) c (ss_clock st) z) as Hmono
      by (intros z Hz; destruct (Z.eq_dec z c) as [->|Hne]; [rewrite aset_eq; exact Hcl|rewrite aset_ne by exact Hne; exact Hz]).
    destruct (Z.eq_dec x c) as [->|Hne]; [split; [exact Nc|]; intros _; apply Hmono; rewrite Uc; exact Hb|].
    rewrite aset_ne in Hx by exact Hne. destruct (si_entered _ _ I x Hx) as [Nx Ux]. split; [exact Nx|]. intros H0. apply Hmono, Ux, H0.
  - intros x. rewrite elem_of_cons, (si_stack _ _ I x). destruct (Z.eq_dec x c) as [->|Hne]; [rewrite aset_eq|rewrite aset_ne by exact Hne]; intuition lia.
  - intros x Hx. pose proof (si_tout _ _ I x Hx). rewrite aset_ne; [assumption|]. intros ->. lia.
  - split; [split; assumption|exact (si_chain _ _ I)].
  - constructor; [|exact (si_stack_nodup _ _ I)]. intros H. apply (si_stack _ _ I) in H. lia.
  - pose proof (si_root _ _ I). destruct (Z.eq_dec 0 c) as [<-|Hne]; [rewrite aset_eq|rewrite aset_ne by exact Hne]; lia.
  - lia.
Qed.

End Enter.

Lemma leave_inv st b rest : stamp_inv st (b :: rest) -> cstart (b + 1) <= ss_nxt st b ->
  stamp_inv {| ss_nxt := ss_nxt st; ss_tin := ss_tin st; ss_tout := aset (ss_tout st) b (ss_clock st); ss_clock := ss_clock st + 1 |} rest.
Proof using T.
  intros I Hge. pose proof (si_clock0 _ _ I) as Hcl. destruct (proj1 (si_stack _ _ I b) ltac:(left)) as [Hb Hob]. destruct (si_entered _ _ I b Hb) as [Nb _].
  pose proof (child_starts_step cfg b (it_range _ _ T b Nb)) as Hst. pose proof (si_stack_nodup _ _ I) as Hnd. inversion Hnd as [|? ? Hnin Hnd']; subst.
  constructor; cbn [ss_tin ss_tout ss_clock ss_nxt].
  - intros x. pose proof (si_clock _ _ I x). destruct (Z.eq_dec x b) as [->|Hne]; [rewrite aset_eq|rewrite aset_ne by exact Hne]; lia.
  - exact (si_entered _ _ I).
  - intros x. pose proof (si_stack _ _ I x) as Hx. rewrite elem_of_cons in Hx. destruct (Z.eq_dec x b) as [->|Hne].
    + rewrite aset_eq. split; [intros H; contradiction|lia].
    + rewrite aset_ne by exact Hne. rewrite <- Hx. intuition congruence.
  - intros x Hx. pose proof (si_clock _ _ I x). destruct (Z.eq_dec x b) as [->|Hne]; [rewrite aset_eq; lia|rewrite aset_ne in * by exact Hne; apply (si_tout _ _ I x Hx)].
  - exact (proj2 (si_chain _ _ I)).
  - exact Hnd'.
  - intros x Nx. destruct (si_cursor _ _ I x Nx) as (k & E & Hle & Hj & Hout). exists k. split; [exact E|]. split; [exact Hle|]. split; [exact Hj|].
    destruct (Z.eq_dec x b) as [->|Hne]; [lia|]. rewrite aset_ne by exact Hne. exact Hout.
  - intros x y Hx Hy Hne. destruct (si_nested _ _ I x y Hx Hy Hne) as [N1 N2]. unfold nested. cbn [ss_tin ss_tout].
    destruct (Z.eq_dec x b) as [->|Hxb]; [|destruct (Z.eq_dec y b) as [->|Hyb]].
    + rewrite aset_eq, aset_ne by congruence. split.
      * intros H. split; [apply (N1 H)|]. intros _. split; [|apply (si_clock _ _ I)]. apply (left_of_top st b rest y I Hy). intros H'.
        apply Hne, (tanc_anti b y); auto. exact (proj1 (si_entered _ _ I y Hy)).
      * intros H1 H2. destruct (N2 H1 H2) as [|]; [lia|right; assumption].
    + rewrite aset_eq, aset_ne by exact Hxb. split.
      * intros H. split; [apply (N1 H)|]. intros Ht. pose proof (top_not_left st b rest x I H). lia.
      * intros H1 H2. destruct (N2 H1 H2) as [|]; [left; assumption|lia].
    + rewrite !aset_ne by assumption. split; assumption.
  - exact (si_root _ _ I).
  - lia.
Qed.

(** ** The loop ends with every block stamped *)

Definition unentered (st : stamp_state) : nat := length (List.filter (fun b => ss_tin st b <? 0) (rpo_order cfg)).

Lemma filter_aset (f : Z -> Z) c v l : NoDup l -> c ∈ l -> f c < 0 -> 0 <= v ->
  length (List.filter (fun b => f b <? 0) l) = S (length (List.filter (fun b => aset f c v b <? 0) l)).
Proof using.
  intros Hnd Hin Hf Hv. induction Hnd as [|x l Hx Hnd IH]; [apply elem_of_nil in Hin; contradiction|]. cbn [List.filter]. destruct (Z.eq_dec x c) as [->|Hne].
  - rewrite aset_eq. replace (f c <? 0) with true by lia. replace (v <? 0) with false by lia. cbn [length]. do 2 f_equal.
    apply List.filter_ext_in. intros y Hy. rewrite aset_ne; [reflexivity|]. intros ->. apply Hx. apply list_elem_of_In. exact Hy.
  - rewrite aset_ne by exact Hne. apply elem_of_cons in Hin as [->|Hin]; [congruence|]. specialize (IH Hin). destruct (f x <? 0); cbn [length]; lia.
Qed.

Lemma stamp_loop_done fuel : forall st stack, stamp_inv st stack -> (2 * unentered st + length stack <= fuel)%nat ->
  exists st', stamp_loop fuel cstart (fst (child_fill cfg)) st stack = Some st' /\ stamp_inv st' [].
Proof using T.
  induction fuel as [|fuel IH]; intros st stack I Hm; (destruct stack as [|b rest]; [exists st; split; [reflexivity|exact I]|]); [cbn in Hm; lia|]. cbn [stamp_loop].
  destruct (proj1 (si_stack _ _ I b) ltac:(left)) as [Hb Hob]. destruct (si_entered _ _ I b Hb) as [Nb _]. pose proof (it_range _ _ T b Nb) as Rb.
  pose proof (child_starts_step cfg b Rb) as Hst. destruct (Z.ltb_spec (ss_nxt st b) (cstart (b + 1))) as [Hlt|Hge].
  - destruct (si_cursor _ _ I b Nb) as (k & E & Hle & Hj & Hout). destruct (lookup_lt_is_Some_2 (children b) k ltac:(lia)) as [c Hc].
    assert (fst (child_fill cfg) (ss_nxt st b) = c) as ->.
    { rewrite E. apply child_fill_spec; [|exact Rb|exact Hc]. intros x Hx Ht. unfold tree_child in Ht. apply (it_range _ _ T). apply (it_up _ _ T); [exact Hx|lia]. }
    apply IH; [apply (enter_inv st b rest I c k E Hc)|]. destruct (enter_fresh st b rest I c k E Hc) as [Fc _]. destruct (enter_child b c k Hc) as (Nc & _).
    pose proof (filter_aset (ss_tin st) c (ss_clock st) (rpo_order cfg) (it_nodup _ _ T) Nc Fc (si_clock0 _ _ I)) as Hf.
    unfold unentered in *. cbn [ss_tin length] in *. lia.
  - apply IH; [apply leave_inv; assumption|]. unfold unentered in *. cbn [ss_tin length] in *. lia.
Qed.

Lemma stamp_init : stamp_inv {| ss_nxt := cstart; ss_tin := aset (fun _ => -1) 0 0; ss_tout := fun _ => -1; ss_clock := 1 |} [0].
Proof using T.
  assert (forall b, 0 <= aset (fun _ : Z => -1) 0 0 b -> b = 0) as H0 by (intros b; unfold aset; destruct (Z.eqb_spec b 0); lia).
  constructor; cbn [ss_tin ss_tout ss_clock ss_nxt].
  - intros b. unfold aset. destruct (b =? 0); lia.
  - intros b Hb. apply H0 in Hb as ->. split; [exact (it_root _ _ T)|congruence].
  - intros b. rewrite list_elem_of_singleton. split; [intros ->; rewrite aset_eq; lia|intros [H _]; exact (H0 b H)].
  - lia.
  - split; [reflexivity|exact Logic.I].
  - apply NoDup_singleton.
  - intros b Nb. exists O. split; [lia|]. split; [lia|]. split; [|lia]. intros j c Hj. split; [|lia]. intros Hc. apply H0 in Hc as ->.
    assert (0 ∈ children b) as Hin by (apply list_elem_of_lookup; eauto). apply children_spec in Hin as (_ & H & _). congruence.
  - intros a b Ha Hb Hne. apply H0 in Ha, Hb. congruence.
  - rewrite aset_eq. lia.
  - lia.
Qed.

(** At the end every block of the tree has both stamps. *)
Lemma stamp_all st : stamp_inv st [] -> forall b, node b -> 0 <= ss_tin st b < ss_tout st b.
Proof using T.
  intros I. assert (forall b, 0 <= ss_tin st b -> 0 <= ss_tout st b) as Hl.
  { intros b Hb. destruct (Z.le_gt_cases 0 (ss_tout st b)); [assumption|]. assert (b ∈ []) as H' by (apply (si_stack _ _ I); lia). apply elem_of_nil in H'. contradiction. }
  assert (forall n b, node b -> rank b < Z.of_nat n -> 0 <= ss_tin st b) as H.
  { induction n as [|n IH]; intros b Nb Hr; [pose proof (it_rank _ _ T b Nb); lia|]. destruct (Z.eq_dec b 0) as [->|H0]; [exact (si_root _ _ I)|].
    destruct (it_up _ _ T b Nb H0) as [Nu Hu]. pose proof (IH _ Nu ltac:(lia)) as Eu. destruct (si_cursor _ _ I _ Nu) as (k & _ & _ & Hj & Hout).
    specialize (Hout (Hl _ Eu)). assert (b ∈ children (up b)) as Hin by (apply children_spec; auto). apply list_elem_of_lookup in Hin as [j Hb].
    apply (Hj j b Hb). rewrite Hout. exact (lookup_lt_Some _ _ _ Hb). }
  intros b Nb. pose proof (it_rank _ _ T b Nb). pose proof (H (Z.to_nat (rank b + 1)) b Nb ltac:(lia)) as Hb. pose proof (si_tout _ _ I b (Hl b Hb)). lia.
Qed.

(** The stamps of [b] lie inside those of [a] exactly when [a] is a proper ancestor. *)
Theorem stamps_nest st a b : stamp_inv st [] -> node a -> node b -> a <> b ->
  (ss_tin st a < ss_tin st b /\ ss_tout st b < ss_tout st a) <-> tanc cfg a b.
Proof using T.
  intros I Ha Hb Hne. pose proof (stamp_all st I a Ha). pose proof (stamp_all st I b Hb). destruct (si_nested _ _ I a b ltac:(lia) ltac:(lia) Hne) as [N1 N2].
  destruct (si_nested _ _ I b a ltac:(lia) ltac:(lia) ltac:(congruence)) as [N3 N4]. split; [|intros Ht; destruct (N1 Ht); lia].
  intros [H1 H2]. destruct (tanc_dec a b Hb) as [Ht|Hn]; [exact Ht|]. exfalso. destruct (tanc_dec b a Ha) as [Ht|Hn']; [destruct (N3 Ht); lia|].
  destruct (N2 Hn Hn'); lia.
Qed.

End Stamps.
