(* ===== verification/CfgDom.v ===== *)
(** * The dominator tree is the dominator tree

    The pieces put together: what [tcc_ir_cfg_compute_rpo],
    [tcc_ir_cfg_compute_dominators] and [tcc_ir_cfg_dominates] compute on every
    well-formed graph. *)

From Stdlib Require Import Sorting.Sorted.
From S2P Require Import Prelude.
From S2P Require Import Cfg.
From S2P Require Import CfgPaths.
From S2P Require Import CfgSemi.
From S2P Require Import CfgDfs.
From S2P Require Import CfgStamp.
Local Open Scope Z_scope.

(** ** Updating a block *)

Lemma set_block_length bs b f : length (set_block bs b f) = length bs.
Proof. apply length_insert. Qed.

Lemma set_block_eq bs b f : 0 <= b < Z.of_nat (length bs) -> block_at (set_block bs b f) b = f (block_at bs b).
Proof.
  intros Hb. unfold block_at at 1, set_block. rewrite nth_lookup, list_lookup_insert_eq by lia. reflexivity.
Qed.

Lemma set_block_ne bs b c f : 0 <= b -> 0 <= c -> b <> c -> block_at (set_block bs b f) c = block_at bs c.
Proof. intros Hb Hc Hne. unfold block_at at 1, set_block. rewrite nth_lookup, list_lookup_insert_ne by lia. unfold block_at. rewrite nth_lookup. reflexivity. Qed.

(** Graphs with the same edges. *)
Definition same_graph (cfg cfg' : IRCFG) : Prop :=
  length (blocks cfg') = length (blocks cfg) /\
  forall b, 0 <= b -> succs (block_at (blocks cfg') b) = succs (block_at (blocks cfg) b) /\ preds (block_at (blocks cfg') b) = preds (block_at (blocks cfg) b).

Lemma same_graph_trans a b c : same_graph a b -> same_graph b c -> same_graph a c.
Proof. intros [L1 H1] [L2 H2]. split; [congruence|]. intros x Hx. destruct (H1 x Hx), (H2 x Hx). split; congruence. Qed.

Lemma same_edge cfg cfg' b c : same_graph cfg cfg' -> edge cfg b c <-> edge cfg' b c.
Proof.
  intros [L H]. unfold edge, succs_at, num_blocks. rewrite L. split; intros (Hb & Hc & Hin); (split; [exact Hb|]; split; [exact Hc|]);
    [rewrite (proj1 (H b ltac:(lia)))|rewrite <- (proj1 (H b ltac:(lia)))]; exact Hin.
Qed.

Lemma walk_mono (E E' : Z -> Z -> Prop) P x y : (forall a b, E a b -> E' a b) -> walk E P x y -> walk E' P x y.
Proof. intros H W. induction W as [|y z W IH HE HP]; [apply walk_refl; assumption|]. eapply walk_snoc; eauto. Qed.

Lemma same_walk cfg cfg' P x y : same_graph cfg cfg' -> walk (edge cfg) P x y <-> walk (edge cfg') P x y.
Proof. intros H. split; apply walk_mono; intros a b; apply (same_edge cfg cfg' a b H). Qed.

Lemma same_dom cfg cfg' a b : same_graph cfg cfg' -> dom (edge cfg) 0 a b <-> dom (edge cfg') 0 a b.
Proof. intros H. unfold dom. rewrite (same_walk cfg cfg' _ 0 b H). reflexivity. Qed.

(** Predecessors are the sources of the edges. *)
Definition wf_cfg (cfg : IRCFG) : Prop :=
  (forall b p, 0 <= b < num_blocks cfg -> p ∈ preds (block_at (blocks cfg) b) <-> edge cfg p b) /\
  forall b s, 0 <= b < num_blocks cfg -> s ∈ succs_at cfg b -> 0 <= s < num_blocks cfg.

Lemma same_wf cfg cfg' : same_graph cfg cfg' -> wf_cfg cfg -> wf_cfg cfg'.
Proof.
  intros S [W1 W2]. pose proof S as [L H]. split.
  - intros b p Hb. unfold num_blocks in Hb. rewrite L in Hb. rewrite (proj2 (H b ltac:(lia))), (W1 b p Hb). apply same_edge. exact S.
  - intros b s. unfold num_blocks, succs_at. rewrite L. intros Hb. rewrite (proj1 (H b ltac:(lia))). apply W2. exact Hb.
Qed.

(** ** Reverse postorder *)

Lemma number_rpo_spec order : forall i bs, NoDup order -> (forall b, b ∈ order -> 0 <= b < Z.of_nat (length bs)) ->
  length (number_rpo i order bs) = length bs /\
  forall c, 0 <= c -> block_at (number_rpo i order bs) c =
    match list_find (fun b => b = c) order with Some (j, _) => set_rpo (i + Z.of_nat j) (block_at bs c) | None => block_at bs c end.
Proof.
  induction order as [|b order IH]; intros i bs Hnd Hr; cbn [number_rpo]; [split; reflexivity|]. inversion Hnd as [|? ? Hnin Hnd']; subst.
  destruct (IH (i + 1) (set_block bs b (set_rpo i)) Hnd') as [L B]; [intros c Hc; rewrite set_block_length; apply Hr; right; exact Hc|].
  rewrite set_block_length in L. split; [exact L|]. intros c Hc. rewrite (B c Hc). cbn [list_find]. pose proof (Hr b ltac:(left)) as Rb. destruct (decide (b = c)) as [->|Hne].
  - assert (list_find (fun x => x = c) order = None) as -> by (apply list_find_None, list.Forall_forall; intros x Hx ->; contradiction).
    rewrite set_block_eq by lia. f_equal. lia.
  - rewrite set_block_ne by lia. destruct (list_find (fun x => x = c) order) as [[j y]|]; cbn; [f_equal; lia|reflexivity].
Qed.

Lemma rpo_spec cfg : 1 <= num_blocks cfg ->
  exists cfg', tcc_ir_cfg_compute_rpo cfg = Some cfg' /\ same_graph cfg cfg' /\ is_rpo cfg (rpo_order cfg') /\
    (forall i b, rpo_order cfg' !! i = Some b -> rpo_number (block_at (blocks cfg') b) = Z.of_nat i) /\
    forall b, 0 <= b -> idom (block_at (blocks cfg') b) = idom (block_at (blocks cfg) b).
Proof.
  intros Hnb. unfold tcc_ir_cfg_compute_rpo. replace (num_blocks cfg =? 0) with false by lia.
  destruct (rpo_search_done cfg Hnb) as ([vis post] & -> & I). eexists. split; [reflexivity|]. cbn [rpo_order blocks].
  pose proof (ri_nodup _ _ _ I) as Hnd. cbn [snd map] in Hnd. rewrite app_nil_r in Hnd.
  assert (forall b, vis b = true <-> b ∈ post) as Hseen by (intros b; rewrite (ri_seen _ _ _ I b); cbn [snd map]; rewrite elem_of_nil; tauto).
  assert (NoDup (rev post)) as Hndr by (apply NoDup_ListNoDup, List.NoDup_rev, NoDup_ListNoDup; exact Hnd).
  assert (forall b, b ∈ rev post <-> b ∈ post) as Hrev by (intros b; rewrite !list_elem_of_In; symmetry; apply in_rev).
  assert (forall b, b ∈ rev post -> 0 <= b < Z.of_nat (length (blocks cfg))) as Hr by (intros b Hb; apply Hrev, Hseen, (ri_reach _ _ _ I) in Hb; apply Hb).
  destruct (number_rpo_spec (rev post) 0 (blocks cfg) Hndr Hr) as [L B]. split; [|split; [|split]].
  - split; [exact L|]. intros b Hb. cbn [blocks]. rewrite (B b Hb). destruct (list_find _ _) as [[j y]|]; split; reflexivity.
  - constructor.
    + intros b. rewrite Hrev, <- Hseen. split; [intros H; apply (ri_reach _ _ _ I b H)|]. intros W. induction W as [_|b c W IH HE _].
      * apply Hseen. destruct (ri_entry _ _ _ I) as [l Hl]. cbn [snd map] in Hl. rewrite app_nil_r in Hl. rewrite Hl. apply elem_of_app. right. left.
      * apply Hseen in IH. exact (ri_closed _ _ _ I b c IH HE).
    + exact Hndr.
    + destruct (ri_entry _ _ _ I) as [l Hl]. cbn [snd map] in Hl. rewrite app_nil_r in Hl. rewrite Hl, rev_app_distr. reflexivity.
    + intros i j u v Hi Hj HE. apply list_elem_of_split_length in Hi as (l1 & l2 & Hi & Li). assert (post = rev l2 ++ u :: rev l1) as Hp
        by (rewrite <- (rev_involutive post), Hi, rev_app_distr; cbn; rewrite <- app_assoc; reflexivity).
      destruct (ri_post _ _ _ I (rev l2) u (rev l1) v Hp HE) as [Hv|Hv]; [left|right; exact Hv].
      assert (v ∈ l2) as Hv2 by (apply list_elem_of_In, in_rev, list_elem_of_In; exact Hv). apply list_elem_of_lookup in Hv2 as [k Hk].
      assert (rev post !! (length l1 + S k)%nat = Some v) as Hk' by (rewrite Hi, lookup_app_r by lia; replace (length l1 + S k - length l1)%nat with (S k) by lia; exact Hk).
      pose proof (NoDup_lookup _ _ _ _ Hndr Hj Hk'). lia.
  - intros i b Hi. pose proof (list_elem_of_lookup_2 _ _ _ Hi) as Hin. pose proof (Hr b Hin) as Rb. rewrite (B b ltac:(lia)).
    destruct (list_find (fun x => x = b) (rev post)) as [[j y]|] eqn:Ef.
    + apply list_find_Some in Ef as (Hj & -> & _). pose proof (NoDup_lookup _ _ _ _ Hndr Hj Hi). cbn [set_rpo rpo_number]. lia.
    + apply list_find_None in Ef. exact (False_ind _ (proj1 (list.Forall_forall _ _) Ef b Hin eq_refl)).
  - intros b Hb. rewrite (B b Hb). destruct (list_find _ _) as [[j y]|]; reflexivity.
Qed.

(** ** The dominator tree *)

Section Tree.
Context (cfg : IRCFG) (W : wf_cfg cfg) (d : dom_state) (D : dom_inv cfg d []).
Notation np := (ds_np d).
Notation vertex := (ds_vertex d).
Notation pre := (ds_pre d).
Notation E := (num_edge cfg d).

Lemma preds_numbers w i : 1 <= w < np -> 0 <= i ->
  (E i w <-> exists p, p ∈ preds (block_at (blocks cfg) (vertex w)) /\ 0 <= p < num_blocks cfg /\ pre p = i).
Proof using W D.
  intros Hw Hi. destruct W as [W1 _]. pose proof D as (N & _). destruct (nm_vertex _ _ N w ltac:(lia)) as [Rw Pw]. split.
  - intros (Ri & _ & He). destruct (nm_vertex _ _ N i Ri) as [Rv Pv]. exists (vertex i). split; [|split; [exact Rv|exact Pv]].
    apply (W1 _ _ Rw). split; [exact Rv|]. split; [exact Rw|exact He].
  - intros (p & Hp & Rp & <-). apply (W1 _ _ Rw) in Hp as (_ & _ & He). destruct (nm_pre _ _ N p Hi) as [H1 H2]. split; [lia|]. split; [lia|]. rewrite H2. exact He.
Qed.

(** What a block keeps while the immediate dominators are stored. *)
Definition same_but_idom (bs bs' : list IRBasicBlock) : Prop :=
  length bs' = length bs /\ forall b, 0 <= b -> exists x, block_at bs' b = set_idom x (block_at bs b).

Lemma same_but_idom_refl bs : same_but_idom bs bs.
Proof using. split; [reflexivity|]. intros b _. exists (idom (block_at bs b)). destruct (block_at bs b); reflexivity. Qed.

Lemma same_but_idom_set bs bs' b x : 0 <= b -> same_but_idom bs bs' -> same_but_idom bs (set_block bs' b (set_idom x)).
Proof using.
  intros Hb [L H]. split; [rewrite set_block_length; exact L|]. intros c Hc. destruct (H c Hc) as [y Hy]. destruct (Z.eq_dec b c) as [->|Hne].
  - destruct (Z.lt_ge_cases c (Z.of_nat (length bs'))) as [Hlt|Hge].
    + exists x. rewrite set_block_eq by lia. rewrite Hy. reflexivity.
    + exists y. unfold set_block. rewrite list_insert_ge by lia. exact Hy.
  - exists y. rewrite set_block_ne by lia. exact Hy.
Qed.

(** After the vertices up to [n]. *)
Definition idom_upto (semi : Z -> Z) (n : Z) (st : (Z -> Z) * list IRBasicBlock) : Prop :=
  let '(ip, bs) := st in
  (forall w, 1 <= w <= n -> is_idom E (ip w) w /\ idom (block_at bs (vertex w)) = vertex (ip w)) /\ same_but_idom (blocks cfg) bs /\
  forall b, 0 <= b -> (forall w, 1 <= w <= n -> vertex w <> b) -> idom (block_at bs b) = idom (block_at (blocks cfg) b).

Lemma idom_vertex_step semi n st : (forall w, 1 <= w < np -> is_semi E semi w) -> 0 <= n -> n + 1 < np -> idom_upto semi n st ->
  idom_upto semi (n + 1) (idom_vertex d semi st (n + 1)).
Proof using D.
  intros Hsemi Hn Hlt H. destruct st as [ip bs]. destruct H as (H1 & H2 & H3). unfold idom_vertex. set (w := n + 1) in *.
  pose proof (numbered_tree cfg d D) as T. destruct (dt_parent _ _ _ T w ltac:(lia)) as [Hp _]. pose proof D as (N & _).
  assert (is_idom E (nca_climb (Z.to_nat np) (semi w) ip (ds_parent d w)) w) as HI.
  { apply (nca_climb_spec d E T); [lia|apply Hsemi; lia| |lia|lia|apply dom_refl|auto]. intros v Hv. apply H1. lia. }
  set (a := nca_climb _ _ _ _) in *. destruct (nm_vertex _ _ N w ltac:(lia)) as [Rw Pw]. pose proof H2 as [L _].
  assert (forall v, 1 <= v <= n -> vertex v <> vertex w) as Hinj
    by (intros v Hv Hx; destruct (nm_vertex _ _ N v ltac:(lia)) as [_ Pv]; rewrite Hx in Pv; lia).
  split; [|split].
  - intros v Hv. destruct (Z.eq_dec v w) as [->|Hne].
    + rewrite aset_eq. split; [exact HI|]. rewrite set_block_eq by (unfold num_blocks in Rw; lia). reflexivity.
    + rewrite aset_ne by exact Hne. destruct (nm_vertex _ _ N v ltac:(lia)) as [Rv _]. rewrite set_block_ne; [apply H1; lia|lia|lia|]. pose proof (Hinj v ltac:(lia)). congruence.
  - apply same_but_idom_set; [lia|exact H2].
  - intros b Hb Hnot. rewrite set_block_ne; [apply H3; [exact Hb|intros v Hv; apply Hnot; lia]|lia|exact Hb|apply Hnot; lia].
Qed.

Lemma dominator_tree_spec :
  (forall b, 0 <= pre b -> b <> 0 -> exists a, is_idom E a (pre b) /\ idom (block_at (dominator_tree cfg d) b) = vertex a) /\
  same_but_idom (blocks cfg) (dominator_tree cfg d) /\
  forall b, 0 <= b -> b = 0 \/ pre b < 0 -> idom (block_at (dominator_tree cfg d) b) = idom (block_at (blocks cfg) b).
Proof using W D.
  unfold dominator_tree. pose proof (semidominators_spec cfg d E (numbered_tree cfg d D) preds_numbers) as Hsemi. pose proof D as (N & _).
  destruct (semidominators cfg d) as [semi [ancestor label]]. cbn [fst] in Hsemi.
  assert (forall n : nat, Z.of_nat n < np -> idom_upto semi (Z.of_nat n) (fold_left (idom_vertex d semi) (seqZ 1 (Z.of_nat n)) (aset ancestor 0 0, blocks cfg))) as H.
  { induction n as [|n IH]; intros Hn.
    - split; [lia|]. split; [apply same_but_idom_refl|reflexivity].
    - rewrite seqZ_snoc, fold_left_app. cbn [fold_left]. replace (Z.of_nat (S n)) with (Z.of_nat n + 1) in * by lia. rewrite (Z.add_comm 1). apply idom_vertex_step; [exact Hsemi|lia|lia|apply IH; lia]. }
  pose proof (nm_np _ _ N) as Hnp. specialize (H (Z.to_nat (np - 1)) ltac:(lia)). rewrite Z2Nat.id in H by lia.
  destruct (fold_left _ _ _) as [ip bs]. destruct H as (H1 & H2 & H3). cbn [snd]. destruct (nm_entry _ _ N) as [P0 V0]. split; [|split; [exact H2|]].
  - intros b Hb H0. destruct (nm_pre _ _ N b Hb) as [Hlt Hv]. assert (pre b <> 0) as Hne by (intros Hz; rewrite Hz in Hv; congruence).
    destruct (H1 (pre b) ltac:(lia)) as [A B]. exists (ip (pre b)). rewrite Hv in B. auto.
  - intros b Hb Hor. apply H3; [exact Hb|]. intros w Hw <-. destruct (nm_vertex _ _ N w ltac:(lia)) as [_ Pw]. destruct Hor as [Hz|Hz]; [rewrite Hz in Pw; lia|lia].
Qed.

End Tree.

(** ** In blocks *)

Lemma dom_reachable cfg x b : reachable cfg b -> dom (edge cfg) 0 x b -> reachable cfg x.
Proof.
  intros R H. destruct (walk_split _ _ x _ _ R) as [W|W]; [|exact W]. exfalso. apply H. eapply walk_weaken; [|exact W]. intros v [_ Hv]. exact Hv.
Qed.

Lemma reachable_range cfg b : 1 <= num_blocks cfg -> reachable cfg b -> 0 <= b < num_blocks cfg.
Proof. intros Hnb R. destruct R as [|y b R HE _]; [lia|]. apply HE. Qed.

(** [a] is the immediate dominator of [b]. *)
Definition immediate (cfg : IRCFG) (a b : Z) : Prop :=
  reachable cfg a /\ forall x, dom (edge cfg) 0 x b /\ x <> b <-> dom (edge cfg) 0 x a.

Lemma idom_blocks cfg d b i : dom_inv cfg d [] -> reachable cfg b -> is_idom (num_edge cfg d) i (ds_pre d b) ->
  immediate cfg (ds_vertex d i) b /\ ds_pre d (ds_vertex d i) = i.
Proof.
  intros D Rb [Hr Hi]. pose proof D as (N & _). pose proof (proj1 (reachable_numbered cfg d D b) Rb) as Hb. destruct (nm_pre _ _ N b Hb) as [Hlt Hv].
  destruct (nm_vertex _ _ N i ltac:(lia)) as [Ri Pi]. assert (reachable cfg (ds_vertex d i)) as Ra by (apply (reachable_numbered cfg d D); lia).
  split; [|exact Pi]. split; [exact Ra|]. intros x. split.
  - intros [Hx Hne]. pose proof (dom_reachable cfg x b Rb Hx) as Rx. pose proof (proj1 (reachable_numbered cfg d D x) Rx) as H0.
    apply (dom_numbers cfg d D); [exact Rx|exact Ra|]. rewrite Pi. apply Hi; [exact H0|]. split; [apply (dom_numbers cfg d D); assumption|].
    intros Heq. apply Hne. destruct (nm_pre _ _ N x H0) as [_ Hvx]. congruence.
  - intros Hx. pose proof (dom_reachable cfg x _ Ra Hx) as Rx. pose proof (proj1 (reachable_numbered cfg d D x) Rx) as H0.
    apply (dom_numbers cfg d D) in Hx; [|exact Rx|exact Ra]. rewrite Pi in Hx. apply Hi in Hx as [Hx Hne]; [|exact H0]. split; [apply (dom_numbers cfg d D); assumption|].
    intros ->. congruence.
Qed.

(** The tree of the stored immediate dominators, with the preorder numbers as rank. *)
Definition idoms_ok (cfg : IRCFG) (rank : Z -> Z) : Prop :=
  idom (block_at (blocks cfg) 0) = 0 /\ (forall b, reachable cfg b -> 0 <= rank b) /\
  forall b, reachable cfg b -> b <> 0 -> immediate cfg (idom (block_at (blocks cfg) b)) b /\ rank (idom (block_at (blocks cfg) b)) < rank b.

Lemma idoms_tree cfg rank : 1 <= num_blocks cfg -> idoms_ok cfg rank -> is_rpo cfg (rpo_order cfg) -> idom_tree cfg rank.
Proof.
  intros Hnb (_ & Hrank & Hid) R. constructor.
  - apply (ro_blocks _ _ R). apply walk_refl. exact I.
  - exact (ro_nodup _ _ R).
  - intros b Hb. apply (ro_blocks _ _ R) in Hb. apply reachable_range; assumption.
  - intros b Hb. apply Hrank, (ro_blocks _ _ R), Hb.
  - intros b Hb H0. apply (ro_blocks _ _ R) in Hb. destruct (Hid b Hb H0) as [[Ra _] Hlt]. split; [apply (ro_blocks _ _ R); exact Ra|exact Hlt].
Qed.

(** Dominance is ancestry in the tree. *)
Lemma dom_tanc cfg rank a b : idoms_ok cfg rank -> reachable cfg b -> dom (edge cfg) 0 a b <-> tanc cfg a b.
Proof.
  intros (H0 & Hrank & Hid). enough (forall n b, reachable cfg b -> rank b < Z.of_nat n -> dom (edge cfg) 0 a b <-> tanc cfg a b) as H
    by (intros Rb; apply (H (Z.to_nat (rank b + 1)) b Rb); pose proof (Hrank b Rb); lia).
  clear b. induction n as [|n IH]; intros b Rb Hr; [pose proof (Hrank b Rb); lia|]. destruct (Z.eq_dec b 0) as [->|Hb].
  - split.
    + intros H. destruct (Z.eq_dec a 0) as [->|Hne]; [apply tanc_refl|]. exfalso. apply H. apply walk_refl. congruence.
    + intros H. apply tanc_zero in H as ->. apply dom_refl.
  - destruct (Hid b Rb Hb) as [[Ru Hu] Hlt]. specialize (IH _ Ru ltac:(lia)). split.
    + intros H. destruct (Z.eq_dec a b) as [->|Hne]; [apply tanc_refl|]. apply tanc_up; [exact Hb|]. apply IH, Hu. auto.
    + intros H. inversion H as [|? _ H']; subst; [apply dom_refl|]. apply IH, Hu in H'. apply H'.
Qed.

(** ** The whole computation *)

Lemma idoms_single cfg : num_blocks cfg = 1 -> idom (block_at (blocks cfg) 0) = 0 -> idoms_ok cfg (fun _ => 0).
Proof.
  intros H1 H0. split; [exact H0|]. split; [lia|]. intros b Rb Hb. apply reachable_range in Rb; lia.
Qed.

Lemma idoms_search cfg d : wf_cfg cfg -> dom_inv cfg d [] -> 1 <= num_blocks cfg -> idom (block_at (blocks cfg) 0) = 0 ->
  let cfg' := with_blocks cfg (dominator_tree cfg d) in same_graph cfg cfg' /\ idoms_ok cfg' (ds_pre d).
Proof.
  intros W D Hnb H0. destruct (dominator_tree_spec cfg W d D) as (T1 & [L T2] & T3). cbv zeta.
  assert (same_graph cfg (with_blocks cfg (dominator_tree cfg d))) as S.
  { split; [exact L|]. intros b Hb. destruct (T2 b Hb) as [x Hx]. cbn [with_blocks blocks]. rewrite Hx. split; reflexivity. }
  split; [exact S|]. split; [cbn [with_blocks blocks]; rewrite T3; [exact H0|lia|left; reflexivity]|].
  assert (forall b, reachable (with_blocks cfg (dominator_tree cfg d)) b <-> reachable cfg b) as HR by (intros b; symmetry; apply (same_walk _ _ _ 0 b S)).
  split; [intros b Rb; apply HR in Rb; apply (reachable_numbered cfg d D); exact Rb|]. intros b Rb Hb. apply HR in Rb. cbn [with_blocks blocks].
  destruct (T1 b (proj1 (reachable_numbered cfg d D b) Rb) Hb) as (i & HI & ->). destruct (idom_blocks cfg d b i D Rb HI) as [[Ra Hx] Pi].
  rewrite Pi. split; [|apply HI]. split; [apply HR; exact Ra|]. intros x. rewrite <- !(same_dom _ _ x _ S). apply Hx.
Qed.

(** The stamped graph. *)
Definition stamped (cfg : IRCFG) : Prop :=
  dom_dfs_count cfg = num_blocks cfg /\
  (forall b, 0 <= dom_tin cfg b <-> reachable cfg b) /\
  forall a b, reachable cfg a -> reachable cfg b -> a <> b ->
    (dom_tin cfg a < dom_tin cfg b /\ dom_tout cfg b < dom_tout cfg a) <-> dom (edge cfg) 0 a b.

Lemma rpo_length cfg rank : idom_tree cfg rank -> (length (rpo_order cfg) <= length (blocks cfg))%nat.
Proof.
  intros T. assert (rpo_order cfg ⊆+ seqZ 0 (num_blocks cfg)) as HS
    by (apply NoDup_submseteq; [exact (it_nodup _ _ T)|]; intros b Hb; apply elem_of_seqZ; pose proof (it_range _ _ T b Hb); lia).
  apply submseteq_length in HS. rewrite length_seqZ in HS. unfold num_blocks in HS. lia.
Qed.

Lemma stamp_tree_spec cfg rank : 1 <= num_blocks cfg -> idoms_ok cfg rank -> is_rpo cfg (rpo_order cfg) ->
  exists cfg', stamp_tree cfg = Some cfg' /\ blocks cfg' = blocks cfg /\ rpo_order cfg' = rpo_order cfg /\ stamped cfg'.
Proof.
  intros Hnb HI R. pose proof (idoms_tree cfg rank Hnb HI R) as T. unfold stamp_tree.
  assert (0 <? rpo_count cfg = true) as -> by (pose proof (lookup_lt_Some _ _ _ (ro_head _ _ R)); unfold rpo_count; lia).
  destruct (stamp_loop_done cfg rank T (2 * length (blocks cfg)) _ _ (stamp_init cfg rank T)) as (st & -> & SI).
  - unfold unentered. cbn [ss_tin length].
    pose proof (filter_aset (fun _ => -1) 0 0 (rpo_order cfg) (ro_nodup _ _ R) (it_root _ _ T) ltac:(lia) ltac:(lia)) as F.
    pose proof (List.filter_length_le (fun _ : Z => (-1 <? 0)%Z) (rpo_order cfg)) as HF. pose proof (rpo_length cfg rank T) as HS. lia.
  - eexists. split; [reflexivity|]. split; [reflexivity|]. split; [reflexivity|]. split; [reflexivity|]. cbn [dom_tin dom_tout].
    assert (forall b, b ∈ rpo_order cfg <-> reachable cfg b) as HR by (exact (ro_blocks _ _ R)). split.
    + intros b. change (reachable _ b) with (reachable cfg b). rewrite <- HR. split; [intros Hb; apply (si_entered _ _ _ SI b Hb)|intros Hb; apply (stamp_all cfg rank T st SI b Hb)].
    + intros a b Ra Rb Hne. change (reachable cfg a) in Ra. change (reachable cfg b) in Rb. rewrite (stamps_nest cfg rank T st a b SI); [|apply HR; assumption..|exact Hne].
      symmetry. exact (dom_tanc cfg rank a b HI Rb).
Qed.

Lemma is_rpo_same cfg cfg' order : same_graph cfg cfg' -> is_rpo cfg order -> is_rpo cfg' order.
Proof.
  intros S R. constructor.
  - intros b. rewrite (ro_blocks _ _ R b). exact (same_walk cfg cfg' _ 0 b S).
  - exact (ro_nodup _ _ R).
  - exact (ro_head _ _ R).
  - intros i j u v Hi Hj HE. apply (same_edge cfg cfg' u v S) in HE. destruct (ro_forward _ _ R i j u v Hi Hj HE) as [H|H]; [left; exact H|right].
    apply (same_walk cfg cfg' _ v u S). exact H.
Qed.

Lemma same_graph_idom0 cfg : same_graph cfg (with_blocks cfg (set_block (blocks cfg) 0 (set_idom 0))).
Proof.
  destruct (same_but_idom_set (blocks cfg) (blocks cfg) 0 0 ltac:(lia) (same_but_idom_refl (blocks cfg))) as [L H].
  split; [exact L|]. intros b Hb. cbn [with_blocks blocks]. destruct (H b Hb) as [x ->]. split; reflexivity.
Qed.

(** What the passes after the order compute, before the stamps. *)
Lemma idoms_spec cfg : wf_cfg cfg -> 1 <= num_blocks cfg -> idom (block_at (blocks cfg) 0) = 0 ->
  exists cfg' rank,
    (if 1 <? num_blocks cfg then match dom_search cfg with None => None | Some d => stamp_tree (with_blocks cfg (dominator_tree cfg d)) end else stamp_tree cfg)
      = stamp_tree cfg' /\ same_graph cfg cfg' /\ rpo_order cfg' = rpo_order cfg /\ idoms_ok cfg' rank /\
    forall b, 0 <= b -> ~ reachable cfg b -> idom (block_at (blocks cfg') b) = idom (block_at (blocks cfg) b).
Proof.
  intros W Hnb H0. destruct (1 <? num_blocks cfg) eqn:E1.
  - destruct (dom_search_done cfg Hnb) as (d & -> & D). destruct (idoms_search cfg d W D Hnb H0) as [S I].
    exists (with_blocks cfg (dominator_tree cfg d)), (ds_pre d). split; [reflexivity|]. split; [exact S|]. split; [reflexivity|]. split; [exact I|].
    intros b Hb Hn. apply (dominator_tree_spec cfg W d D); [exact Hb|]. right. rewrite (reachable_numbered cfg d D b) in Hn. lia.
  - exists cfg, (fun _ => 0). split; [reflexivity|]. split; [split; [reflexivity|]; intros; split; reflexivity|]. split; [reflexivity|].
    split; [apply idoms_single; [lia|exact H0]|]. reflexivity.
Qed.

Lemma compute_dominators_spec cfg : wf_cfg cfg -> 1 <= num_blocks cfg ->
  exists cfg' rank, tcc_ir_cfg_compute_dominators cfg = Some cfg' /\ same_graph cfg cfg' /\ is_rpo cfg' (rpo_order cfg') /\ idoms_ok cfg' rank /\ stamped cfg' /\
    forall b, 0 <= b -> ~ reachable cfg b -> idom (block_at (blocks cfg') b) = idom (block_at (blocks cfg) b).
Proof.
  intros W Hnb. unfold tcc_ir_cfg_compute_dominators. replace (num_blocks cfg =? 0) with false by lia.
  destruct (rpo_spec cfg Hnb) as (c1 & -> & S1 & R1 & _ & K1). cbv zeta.
  set (c2 := with_blocks c1 (set_block (blocks c1) 0 (set_idom 0))).
  assert (same_graph cfg c2) as S2 by (exact (same_graph_trans _ _ _ S1 (same_graph_idom0 c1))).
  assert (num_blocks c1 = num_blocks cfg) as N1 by (unfold num_blocks; destruct S1 as [-> _]; reflexivity).
  assert (num_blocks c2 = num_blocks cfg) as N2 by (unfold num_blocks; destruct S2 as [-> _]; reflexivity).
  destruct (idoms_spec c2 (same_wf _ _ S2 W)) as (c3 & rank & -> & S3 & O3 & I3 & K3);
    [lia|unfold c2; cbn [with_blocks blocks]; rewrite set_block_eq by (unfold num_blocks in *; lia); reflexivity|].
  assert (same_graph cfg c3) as S03 by (exact (same_graph_trans _ _ _ S2 S3)).
  assert (num_blocks c3 = num_blocks cfg) as N3 by (unfold num_blocks; destruct S03 as [-> _]; reflexivity).
  assert (is_rpo c3 (rpo_order c3)) as R3 by (rewrite O3; exact (is_rpo_same _ _ _ S03 R1)).
  destruct (stamp_tree_spec c3 rank ltac:(lia) I3 R3) as (c4 & -> & B4 & O4 & T4). exists c4, rank.
  assert (same_graph c3 c4) as S4 by (split; rewrite B4; [reflexivity|split; reflexivity]).
  split; [reflexivity|]. split; [exact (same_graph_trans _ _ _ S03 S4)|]. split; [rewrite O4; exact (is_rpo_same _ _ _ S4 R3)|].
  split; [|split; [exact T4|]].
  - destruct I3 as (A & B & C). split; [rewrite B4; exact A|].
    assert (forall b, reachable c4 b -> reachable c3 b) as HR by (intros b Hb; exact (proj2 (same_walk c3 c4 _ 0 b S4) Hb)).
    split; [intros b Hb; apply B, HR; exact Hb|]. intros b Hb Hne. rewrite B4. destruct (C b (HR b Hb) Hne) as [[Ra Hx] Hlt]. split; [|exact Hlt].
    split; [exact (proj1 (same_walk c3 c4 _ 0 _ S4) Ra)|]. intros x. rewrite <- !(same_dom c3 c4 _ _ S4). apply Hx.
  - intros b Hb Hn. rewrite B4, (K3 b Hb); [|intros Hr; apply Hn; exact (proj2 (same_walk cfg c2 _ 0 b S2) Hr)].
    unfold c2. cbn [with_blocks blocks]. rewrite set_block_ne; [exact (K1 b Hb)|lia|exact Hb|]. intros <-. apply Hn. apply walk_refl. exact I.
Qed.

(** ** The query *)

Lemma same_num_blocks cfg cfg' : same_graph cfg cfg' -> num_blocks cfg' = num_blocks cfg.
Proof. intros [L _]. unfold num_blocks. rewrite L. reflexivity. Qed.

Lemma dominates_range cfg a b : tcc_ir_cfg_dominates cfg a b = true -> 0 <= a < num_blocks cfg /\ 0 <= b < num_blocks cfg.
Proof.
  unfold tcc_ir_cfg_dominates. destruct ((a <? 0) || (b <? 0) || (num_blocks cfg <=? a) || (num_blocks cfg <=? b)) eqn:E; [discriminate|]. lia.
Qed.

Lemma dominates_stamped cfg cfg' : same_graph cfg cfg' -> stamped cfg' -> forall a b, 0 <= a < num_blocks cfg -> 0 <= b < num_blocks cfg ->
  tcc_ir_cfg_dominates cfg' a b = true <-> a = b \/ reachable cfg b /\ dom (edge cfg) 0 a b.
Proof.
  intros S (T1 & T2 & T3) a b Ha Hb. pose proof (same_num_blocks _ _ S) as N. unfold tcc_ir_cfg_dominates. rewrite N, T1, N, (same_dom cfg cfg' a b S).
  assert (reachable cfg b <-> reachable cfg' b) as HR by (exact (same_walk cfg cfg' _ 0 b S)). rewrite HR.
  replace ((a <? 0) || (b <? 0) || (num_blocks cfg <=? a) || (num_blocks cfg <=? b)) with false by lia.
  destruct (Z.eqb_spec a b) as [Hab|Hab]; [split; [intros _; left; exact Hab|reflexivity]|].
  assert ((a <? num_blocks cfg) && (b <? num_blocks cfg) = true) as -> by lia.
  destruct ((dom_tin cfg' a <? 0) || (dom_tin cfg' b <? 0)) eqn:Et.
  - split; [discriminate|]. intros [?|[Rb Hd]]; [contradiction|]. pose proof (dom_reachable cfg' a b Rb Hd) as Ra. apply T2 in Ra, Rb. lia.
  - assert (reachable cfg' a /\ reachable cfg' b) as [Ra Rb] by (split; apply T2; lia). rewrite andb_true_iff, !Z.ltb_lt, (T3 a b Ra Rb Hab).
    split; [intros H; right; split; assumption|]. intros [?|[_ Hd]]; [contradiction|exact Hd].
Qed.

(** ** A decision procedure for well-formed graphs *)

Definition wf_cfgb (cfg : IRCFG) : bool :=
  let bs := seqZ 0 (num_blocks cfg) in
  forallb (fun b => forallb (fun p => bool_decide (p ∈ bs /\ b ∈ succs_at cfg p)) (preds (block_at (blocks cfg) b)) &&
                    forallb (fun s => bool_decide (s ∈ bs /\ b ∈ preds (block_at (blocks cfg) s))) (succs_at cfg b)) bs.

Lemma wf_cfgb_ok cfg : wf_cfgb cfg = true -> wf_cfg cfg.
Proof.
  unfold wf_cfgb. intros H. rewrite forallb_forall in H.
  assert (forall b, 0 <= b < num_blocks cfg -> In b (seqZ 0 (num_blocks cfg))) as HB by (intros b Hb; apply list_elem_of_In, elem_of_seqZ; lia).
  assert (forall b s, 0 <= b < num_blocks cfg -> s ∈ succs_at cfg b -> 0 <= s < num_blocks cfg /\ b ∈ preds (block_at (blocks cfg) s)) as HS.
  { intros b s Hb Hs. pose proof (H b (HB b Hb)) as Hx. apply andb_true_iff in Hx as [_ Hx]. rewrite forallb_forall in Hx.
    specialize (Hx s (proj1 (list_elem_of_In _ _) Hs)). apply bool_decide_eq_true in Hx as [Hx1 Hx2]. apply elem_of_seqZ in Hx1. split; [lia|exact Hx2]. }
  split; [|intros b s Hb Hs; apply (HS b s Hb Hs)]. intros b p Hb. split.
  - intros Hp. pose proof (H b (HB b Hb)) as Hx. apply andb_true_iff in Hx as [Hx _]. rewrite forallb_forall in Hx.
    specialize (Hx p (proj1 (list_elem_of_In _ _) Hp)). apply bool_decide_eq_true in Hx as [Hx1 Hx2]. apply elem_of_seqZ in Hx1. split; [lia|]. split; [exact Hb|exact Hx2].
  - intros (Hp & _ & Hs). apply (HS p b Hp Hs).
Qed.

(** ** The claims *)

(** C34: [tcc_ir_cfg_compute_rpo] ends and lists exactly the blocks reachable
    from the entry, each once and the entry first, in an order in which an edge
    to an earlier block always closes a cycle; [rpo_number] is the position in
    that order. *)
Theorem rpo_order_exact cfg : 1 <= num_blocks cfg ->
  exists cfg', tcc_ir_cfg_compute_rpo cfg = Some cfg' /\
    (forall b, b ∈ rpo_order cfg' <-> reaches (edge cfg) 0 b) /\ NoDup (rpo_order cfg') /\ rpo_order cfg' !! O = Some 0 /\
    (forall i j u v, rpo_order cfg' !! i = Some u -> rpo_order cfg' !! j = Some v -> edge cfg u v -> (i < j)%nat \/ reaches (edge cfg) v u) /\
    (forall i b, rpo_order cfg' !! i = Some b -> rpo_number (block_at (blocks cfg') b) = Z.of_nat i) /\
    forall b, 0 <= b -> succs (block_at (blocks cfg') b) = succs (block_at (blocks cfg) b) /\ preds (block_at (blocks cfg') b) = preds (block_at (blocks cfg) b).
Proof.
  intros Hnb. destruct (rpo_spec cfg Hnb) as (c & E & [_ S] & [A B C D] & N & _). exists c. auto 10.
Qed.

(** C10: [tcc_ir_cfg_compute_dominators] ends, keeps the edges, and stores the
    immediate dominators: the dominators of [idom b] are exactly the
    dominators of [b] other than [b] itself, for every reachable block but the
    entry, whose [idom] is itself; blocks that cannot be reached keep the value
    they had. *)
Theorem dominators_exact cfg : wf_cfg cfg -> 1 <= num_blocks cfg ->
  exists cfg', tcc_ir_cfg_compute_dominators cfg = Some cfg' /\ same_graph cfg cfg' /\
    idom (block_at (blocks cfg') 0) = 0 /\
    (forall b, reachable cfg b -> b <> 0 ->
       reachable cfg (idom (block_at (blocks cfg') b)) /\
       forall x, dom (edge cfg) 0 x (idom (block_at (blocks cfg') b)) <-> dom (edge cfg) 0 x b /\ x <> b) /\
    forall b, 0 <= b -> ~ reachable cfg b -> idom (block_at (blocks cfg') b) = idom (block_at (blocks cfg) b).
Proof.
  intros W Hnb. destruct (compute_dominators_spec cfg W Hnb) as (c & rank & E & S & _ & (H0 & _ & HI) & _ & HU). exists c.
  split; [exact E|]. split; [exact S|]. split; [exact H0|]. split; [|exact HU]. intros b Rb Hb.
  destruct (HI b (proj1 (same_walk cfg c _ 0 b S) Rb) Hb) as [[Ra Hx] _]. split; [exact (proj2 (same_walk cfg c _ 0 _ S) Ra)|].
  intros x. rewrite !(same_dom cfg c x _ S). symmetry. apply Hx.
Qed.

(** On a graph with dominators, [tcc_ir_cfg_dominates a b] is dominance:
    it answers yes exactly when the blocks are the same or [b] is reachable and
    [a] is on every path from the entry to [b]; indices out of range get no. *)
Theorem dominates_exact cfg cfg' a b : wf_cfg cfg -> 1 <= num_blocks cfg -> tcc_ir_cfg_compute_dominators cfg = Some cfg' ->
  tcc_ir_cfg_dominates cfg' a b = true <->
  0 <= a < num_blocks cfg /\ 0 <= b < num_blocks cfg /\
  (a = b \/ reachable cfg b /\ forall l, path (edge cfg) 0 b l -> a ∈ l).
Proof.
  intros W Hnb E. destruct (compute_dominators_spec cfg W Hnb) as (c & rank & E' & S & _ & _ & T & _). rewrite E in E'. injection E' as <-.
  rewrite <- (dom_on_paths (edge cfg) 0 a b). destruct (tcc_ir_cfg_dominates cfg' a b) eqn:Ed.
  - split; [intros _|reflexivity]. destruct (dominates_range cfg' a b Ed) as [Ha Hb]. rewrite (same_num_blocks _ _ S) in Ha, Hb.
    split; [exact Ha|]. split; [exact Hb|]. apply (dominates_stamped cfg cfg' S T a b Ha Hb). exact Ed.
  - split; [discriminate|]. intros (Ha & Hb & H). apply (dominates_stamped cfg cfg' S T a b Ha Hb) in H. congruence.
Qed.

(** ** On the loop *)

Definition loop_doms : IRCFG := match tcc_ir_cfg_compute_dominators loop_cfg with Some c => c | None => loop_cfg end.

Lemma loop_wf : wf_cfg loop_cfg.
Proof. apply wf_cfgb_ok. vm_compute. reflexivity. Qed.

Lemma loop_reaches_body : reachable loop_cfg 5.
Proof.
  assert (forall b c, In c (succs_at loop_cfg b) -> 0 <= b < 7 -> 0 <= c < 7 -> edge loop_cfg b c) as He
    by (intros b c Hin Hb Hc; split; [exact Hb|]; split; [exact Hc|]; apply list_elem_of_In; exact Hin).
  apply walk_snoc with 3; [|apply He; [vm_compute; auto|lia..]|exact I]. apply walk_snoc with 2; [|apply He; [vm_compute; auto|lia..]|exact I].
  apply walk_snoc with 1; [|apply He; [vm_compute; auto|lia..]|exact I]. apply walk_snoc with 0; [|apply He; [vm_compute; auto|lia..]|exact I].
  apply walk_refl. exact I.
Qed.

Lemma rpo_order_exact_witness : exists cfg', tcc_ir_cfg_compute_rpo loop_cfg = Some cfg' /\ NoDup (rpo_order cfg') /\ forall b, b ∈ rpo_order cfg' <-> reaches (edge loop_cfg) 0 b.
Proof.
  destruct (rpo_order_exact loop_cfg) as (c & E & H1 & H2 & _); [vm_compute; discriminate|]. exists c. auto.
Defined.

Lemma dominators_exact_witness : exists cfg', tcc_ir_cfg_compute_dominators loop_cfg = Some cfg' /\
  forall x, dom (edge loop_cfg) 0 x (idom (block_at (blocks cfg') 5)) <-> dom (edge loop_cfg) 0 x 5 /\ x <> 5.
Proof.
  destruct (dominators_exact loop_cfg loop_wf) as (c & E & _ & _ & H & _); [vm_compute; discriminate|]. exists c. split; [exact E|].
  apply (H 5 loop_reaches_body). lia.
Defined.

(** The branch dominates the join, one of its arms does not. *)
Lemma dominates_exact_witness :
  (forall l, path (edge loop_cfg) 0 5 l -> 2 ∈ l) /\ ~ (forall l, path (edge loop_cfg) 0 5 l -> 3 ∈ l).
Proof.
  assert (tcc_ir_cfg_compute_dominators loop_cfg = Some loop_doms) as E by (vm_compute; reflexivity).
  assert (1 <= num_blocks loop_cfg) as Hnb by (vm_compute; discriminate). split.
  - destruct (proj1 (dominates_exact loop_cfg loop_doms 2 5 loop_wf Hnb E) ltac:(vm_compute; reflexivity)) as (_ & _ & [H|[_ H]]); [lia|exact H].
  - intros H. pose proof (proj2 (dominates_exact loop_cfg loop_doms 3 5 loop_wf Hnb E)) as Hx. assert (tcc_ir_cfg_dominates loop_doms 3 5 = false) as F by (vm_compute; reflexivity).
    rewrite F in Hx. discriminate Hx. split; [vm_compute; intuition congruence|]. split; [vm_compute; intuition congruence|]. right. split; [exact loop_reaches_body|exact H].
Defined.
