(* ===== verification/CfgBlocks.v ===== *)
(** * The blocks of the graph

    What the first half of [tcc_ir_cfg_build] computes: which instructions lead
    a block, and that the blocks cut the code at the leaders. *)

From S2P Require Import Prelude.
From S2P Require Import Cfg.
From S2P Require Import CfgSemi.
From S2P Require Import CfgDom.
From S2P Require Import CfgDfs.
Local Open Scope Z_scope.

(** ** Leaders *)

Lemma set_leader_true n f t j : set_leader n f t j = true <-> f j = true \/ (j = t /\ 0 <= t < n).
Proof.
  unfold set_leader. destruct ((0 <=? t) && (t <? n)) eqn:E.
  - rewrite orb_true_iff, Z.eqb_eq. assert (0 <= t < n) by lia. tauto.
  - assert (~ 0 <= t < n) by lia. tauto.
Qed.

Lemma set_leaders_true n marks : forall f j, fold_left (set_leader n) marks f j = true <-> f j = true \/ (j ∈ marks /\ 0 <= j < n).
Proof.
  induction marks as [|t marks IH]; intros f j; cbn [fold_left]; [rewrite elem_of_nil; tauto|].
  rewrite IH, set_leader_true, elem_of_cons. intuition congruence.
Qed.

Lemma find_leaders_true ir l : forall i f j, find_leaders ir i l f j = true <->
  f j = true \/ (0 <= j < next_instruction_index ir /\ exists k q, l !! k = Some q /\ j ∈ leader_marks ir (i + Z.of_nat k) q).
Proof.
  induction l as [|q l IH]; intros i f j; cbn [find_leaders].
  - split; [auto|]. intros [H|(_ & k & q & H & _)]; [exact H|discriminate].
  - rewrite IH, set_leaders_true. split.
    + intros [[H|[H Hj]]|(Hj & k & r & Hk & H)]; [auto| |].
      * right. split; [exact Hj|]. exists O, q. rewrite Z.add_0_r. auto.
      * right. split; [exact Hj|]. exists (S k), r. replace (i + Z.of_nat (S k)) with (i + 1 + Z.of_nat k) by lia. auto.
    + intros [H|(Hj & [|k] & r & Hk & H)]; [auto| |].
      * left. right. injection Hk as <-. rewrite Z.add_0_r in H. auto.
      * right. split; [exact Hj|]. exists k, r. replace (i + Z.of_nat (S k)) with (i + 1 + Z.of_nat k) in H by lia. auto.
Qed.

(** Instruction [i] of the code. *)
Definition ir_at (ir : TCCIRState) (i : Z) (q : IRQuad) : Prop := 0 <= i /\ compact_instructions ir !! Z.to_nat i = Some q.

Lemma is_leader_true ir j : is_leader ir j = true <-> j = 0 \/ (0 <= j < next_instruction_index ir /\ exists i q, ir_at ir i q /\ j ∈ leader_marks ir i q).
Proof.
  unfold is_leader. rewrite find_leaders_true, Z.eqb_eq. split; (intros [H|(Hj & H)]; [left; exact H|right; split; [exact Hj|]]).
  - destruct H as (k & q & Hk & H). exists (Z.of_nat k), q. split; [split; [lia|rewrite Nat2Z.id; exact Hk]|exact H].
  - destruct H as (i & q & [Hi Hq] & H). exists (Z.to_nat i), q. split; [exact Hq|]. rewrite Z2Nat.id by lia. exact H.
Qed.

(** ** Blocks *)

Section Shape.
Context (leader : Z -> bool) (Hzero : leader 0 = true).

(** The leaders below [i]. *)
Definition leaders_below (i : Z) : list Z := List.filter leader (seqZ 0 i).

Lemma starts_next i : 0 <= i -> leaders_below (i + 1) = leaders_below i ++ (if leader i then [i] else []).
Proof using.
  intros Hi. unfold leaders_below. replace (i + 1) with (Z.of_nat (S (Z.to_nat i))) by lia. rewrite seqZ_snoc, List.filter_app, Z2Nat.id by lia.
  reflexivity.
Qed.

Lemma starts_elem i t : t ∈ leaders_below i <-> 0 <= t < i /\ leader t = true.
Proof using. unfold leaders_below. rewrite list_elem_of_In, filter_In, <- list_elem_of_In, elem_of_seqZ. intuition lia. Qed.

Lemma starts_sorted i j k s t : (j < k)%nat -> leaders_below i !! j = Some s -> leaders_below i !! k = Some t -> s < t.
Proof using.
  intros Hjk. destruct (Z.le_gt_cases i 0) as [Hi|Hi].
  - unfold leaders_below. rewrite (seqZ_nil 0 i) by lia. discriminate.
  - enough (forall n : nat, leaders_below (Z.of_nat n) !! j = Some s -> leaders_below (Z.of_nat n) !! k = Some t -> s < t) as H
      by (specialize (H (Z.to_nat i)); rewrite Z2Nat.id in H by lia; exact H).
    induction n as [|n IH]; [discriminate|]. replace (Z.of_nat (S n)) with (Z.of_nat n + 1) by lia. rewrite starts_next by lia.
    destruct (leader (Z.of_nat n)); cbv iota; [|rewrite app_nil_r; exact IH]. intros Hs Ht. apply lookup_app_Some in Ht as [Ht|[Hge Ht]].
    + apply IH; [|exact Ht]. apply lookup_lt_Some in Ht. rewrite lookup_app_l in Hs by lia. exact Hs.
    + assert (k - length (leaders_below (Z.of_nat n)) = 0)%nat as Hk by (apply lookup_lt_Some in Ht; cbn in Ht; lia). rewrite Hk in Ht. injection Ht as <-.
      rewrite lookup_app_l in Hs by lia. apply list_elem_of_lookup_2, starts_elem in Hs. lia.
Qed.

(** The blocks after the instructions below [i]. *)
Record shaped (bs : list IRBasicBlock) (i2b : list Z) (i : Z) : Prop := {
  sh_starts : map start_idx bs = leaders_below i;
  sh_i2b : i2b = map (fun t => Z.of_nat (length (leaders_below (t + 1))) - 1) (seqZ 0 i);
  sh_ends b : 0 <= b -> b + 1 < Z.of_nat (length bs) -> end_idx (block_at bs b) = start_idx (block_at bs (b + 1));
  sh_fresh bb : bb ∈ bs -> succs bb = [] /\ preds bb = [] /\ idom bb = -1 /\ rpo_number bb = -1 /\ dom_frontier bb = [] /\ dom_children bb = []
}.

Lemma block_at_app_l bs cs b : 0 <= b < Z.of_nat (length bs) -> block_at (bs ++ cs) b = block_at bs b.
Proof using. intros Hb. unfold block_at. apply app_nth1. lia. Qed.

Lemma block_at_lookup bs b : 0 <= b < Z.of_nat (length bs) -> bs !! Z.to_nat b = Some (block_at bs b).
Proof using. intros Hb. unfold block_at. destruct (lookup_lt_is_Some_2 bs (Z.to_nat b) ltac:(lia)) as [x Hx]. rewrite (nth_lookup_Some _ _ _ _ Hx). exact Hx. Qed.

Lemma map_start_end bs b e : map start_idx (set_block bs b (set_end e)) = map start_idx bs.
Proof using.
  unfold set_block. destruct (Nat.lt_ge_cases (Z.to_nat b) (length bs)) as [Hlt|Hge]; [|rewrite list_insert_ge by lia; reflexivity].
  unfold block_at. destruct (lookup_lt_is_Some_2 bs (Z.to_nat b) Hlt) as [x Hx]. rewrite (nth_lookup_Some _ _ _ _ Hx).
  change (start_idx <$> <[Z.to_nat b := set_end e x]> bs = start_idx <$> bs). rewrite list_fmap_insert. apply list_insert_id. rewrite list_lookup_fmap, Hx. reflexivity.
Qed.

Lemma set_end_fresh bs b e bb : bb ∈ set_block bs b (set_end e) -> exists bb', (bb' ∈ bs \/ bb' = no_block) /\ (bb = bb' \/ bb = set_end e bb').
Proof using.
  unfold set_block. intros H. apply list_elem_of_lookup in H as [k Hk]. apply list_lookup_insert_Some in Hk as [(<- & <- & Hk)|(_ & Hk)].
  - exists (block_at bs b). split; [|right; reflexivity]. left. unfold block_at. destruct (lookup_lt_is_Some_2 bs _ Hk) as [x Hx].
    rewrite (nth_lookup_Some _ _ _ _ Hx). apply list_elem_of_lookup_2 in Hx. exact Hx.
  - exists bb. split; [left; apply list_elem_of_lookup_2 in Hk; exact Hk|left; reflexivity].
Qed.

Lemma shaped_step bs i2b i : 0 <= i -> shaped bs i2b i ->
  let bi := Z.of_nat (length bs) - 1 in
  let bs' := if leader i then (if 0 <=? bi then set_block bs bi (set_end i) else bs) ++ [new_block i] else bs in
  shaped bs' (i2b ++ [Z.of_nat (length bs') - 1]) (i + 1).
Proof using.
  intros Hi [S1 S2 S3 S4]. cbv zeta.
  set (cs := if 0 <=? Z.of_nat (length bs) - 1 then set_block bs (Z.of_nat (length bs) - 1) (set_end i) else bs).
  assert (map start_idx cs = map start_idx bs) as Hcs by (unfold cs; destruct (0 <=? _); [apply map_start_end|reflexivity]).
  assert (length cs = length bs) as Lcs by (unfold cs; destruct (0 <=? _); [apply set_block_length|reflexivity]).
  assert (map start_idx (if leader i then cs ++ [new_block i] else bs) = leaders_below (i + 1)) as Hm.
  { rewrite starts_next by exact Hi. destruct (leader i); [rewrite map_app, Hcs, S1; reflexivity|rewrite S1, app_nil_r; reflexivity]. }
  constructor; [exact Hm| | |].
  - replace (i + 1) with (Z.of_nat (S (Z.to_nat i))) by lia. rewrite seqZ_snoc, map_app, Z2Nat.id, <- S2 by lia. f_equal. cbn [map].
    rewrite Z.add_0_l, <- Hm, length_map. reflexivity.
  - destruct (leader i); [|exact S3]. intros b Hb Hlt. rewrite length_app, Lcs in Hlt. cbn [length] in Hlt.
    destruct (Z.eq_dec (b + 1) (Z.of_nat (length bs))) as [He|He].
    + rewrite block_at_app_l by lia. unfold cs. replace (0 <=? Z.of_nat (length bs) - 1) with true by lia.
      replace (Z.of_nat (length bs) - 1) with b by lia. rewrite set_block_eq by lia. cbn [set_end end_idx].
      unfold block_at. rewrite app_nth2 by (rewrite set_block_length; lia). rewrite set_block_length. replace (Z.to_nat (b + 1) - length bs)%nat with O by lia. reflexivity.
    + rewrite !block_at_app_l by lia. assert (start_idx (block_at cs (b + 1)) = start_idx (block_at bs (b + 1))) as ->.
      { unfold cs. replace (0 <=? Z.of_nat (length bs) - 1) with true by lia. destruct (Z.eq_dec (Z.of_nat (length bs) - 1) (b + 1)) as [E|E];
          [rewrite E, set_block_eq by lia; reflexivity|rewrite set_block_ne by lia; reflexivity]. }
      rewrite <- (S3 b Hb) by lia. unfold cs. replace (0 <=? Z.of_nat (length bs) - 1) with true by lia. rewrite set_block_ne by lia. reflexivity.
  - intros bb Hbb. destruct (leader i); [|apply S4; exact Hbb]. apply elem_of_app in Hbb as [Hbb|Hbb].
    + unfold cs in Hbb. destruct (0 <=? _); [|apply S4; exact Hbb]. apply set_end_fresh in Hbb as (b' & [Hb'| ->] & [->| ->]); try exact (S4 _ Hb'); repeat split.
    + apply list_elem_of_singleton in Hbb as ->. repeat split.
Qed.

Lemma make_blocks_shaped k : forall i bs i2b, 0 <= i -> shaped bs i2b i ->
  let '(bs', i2b') := make_blocks leader k i bs i2b in shaped bs' i2b' (i + Z.of_nat k).
Proof using.
  induction k as [|k IH]; intros i bs i2b Hi H; cbn [make_blocks]; [rewrite Z.add_0_r; exact H|].
  replace (i + Z.of_nat (S k)) with (i + 1 + Z.of_nat k) by lia. apply IH; [lia|]. exact (shaped_step bs i2b i Hi H).
Qed.
End Shape.

Definition start (cfg : IRCFG) (b : Z) : Z := start_idx (block_at (blocks cfg) b).
Definition stop (cfg : IRCFG) (b : Z) : Z := end_idx (block_at (blocks cfg) b).
Definition instr_block (cfg : IRCFG) (t : Z) : Z := nth (Z.to_nat t) (instr_to_block cfg) 0.

(** The blocks cut the [n] instructions at the leaders. *)
Record well_cut (leader : Z -> bool) (n : Z) (cfg : IRCFG) : Prop := {
  wc_nonempty : 1 <= num_blocks cfg;
  wc_instrs : num_instrs cfg = n;
  wc_entry : start cfg 0 = 0;
  wc_range b : 0 <= b < num_blocks cfg -> 0 <= start cfg b < stop cfg b /\ stop cfg b <= n;
  wc_next b : 0 <= b < num_blocks cfg -> stop cfg b = if b + 1 <? num_blocks cfg then start cfg (b + 1) else n;
  wc_block t : 0 <= t < n -> 0 <= instr_block cfg t < num_blocks cfg /\ start cfg (instr_block cfg t) <= t < stop cfg (instr_block cfg t);
  wc_unique t b : 0 <= b < num_blocks cfg -> start cfg b <= t < stop cfg b -> instr_block cfg t = b;
  wc_leader t : 0 <= t < n -> leader t = true <-> start cfg (instr_block cfg t) = t
}.

Section Cut.
Context (leader : Z -> bool) (Hzero : leader 0 = true) (n : Z) (Hn : 1 <= n) (cfg : IRCFG).
Context (Hstarts : map start_idx (blocks cfg) = leaders_below leader n).
Context (Hi2b : instr_to_block cfg = map (fun t => Z.of_nat (length (leaders_below leader (t + 1))) - 1) (seqZ 0 n)).
Context (Hstops : forall b, 0 <= b < num_blocks cfg -> stop cfg b = if b + 1 <? num_blocks cfg then start cfg (b + 1) else n).

Lemma start_lookup b : 0 <= b < num_blocks cfg -> leaders_below leader n !! Z.to_nat b = Some (start cfg b).
Proof using Hstarts.
  intros Hb. rewrite <- Hstarts. change (map start_idx (blocks cfg)) with (start_idx <$> blocks cfg). rewrite list_lookup_fmap, block_at_lookup by exact Hb. reflexivity.
Qed.

Lemma blocks_starts : num_blocks cfg = Z.of_nat (length (leaders_below leader n)).
Proof using Hstarts. rewrite <- Hstarts, length_map. reflexivity. Qed.

Lemma start_mono a b : 0 <= a -> a < b -> b < num_blocks cfg -> start cfg a < start cfg b.
Proof using Hstarts.
  intros Ha Hlt Hb. apply (starts_sorted leader n (Z.to_nat a) (Z.to_nat b)); [lia|apply start_lookup; lia..].
Qed.

Lemma block_of_count t : 0 <= t < n -> instr_block cfg t = Z.of_nat (length (leaders_below leader (t + 1))) - 1.
Proof using Hi2b.
  intros Ht. unfold instr_block. rewrite Hi2b. set (f := fun t => _). assert (seqZ 0 n !! Z.to_nat t = Some t) as Hl by (apply lookup_seqZ; lia).
  apply nth_lookup_Some. change (map f (seqZ 0 n)) with (f <$> seqZ 0 n). rewrite list_lookup_fmap, Hl. reflexivity.
Qed.

(** The leaders up to [t] are the first ones. *)
Lemma starts_prefix t : 0 <= t < n -> exists rest, leaders_below leader n = leaders_below leader (t + 1) ++ rest /\ forall s, s ∈ rest -> t < s.
Proof using.
  intros Ht. unfold leaders_below. exists (List.filter leader (seqZ (t + 1) (n - (t + 1)))). split.
  - rewrite <- List.filter_app. f_equal. replace n with (t + 1 + (n - (t + 1))) at 1 by lia. rewrite seqZ_app by lia. reflexivity.
  - intros s. rewrite list_elem_of_In, filter_In, <- list_elem_of_In, elem_of_seqZ. lia.
Qed.

Lemma zero_start t : 0 <= t -> leaders_below leader (t + 1) !! O = Some 0.
Proof using Hzero.
  intros Ht. unfold leaders_below. rewrite seqZ_cons by lia. cbn [List.filter]. rewrite Hzero. reflexivity.
Qed.

Lemma block_of_bounds t : 0 <= t < n -> 0 <= instr_block cfg t < num_blocks cfg /\ start cfg (instr_block cfg t) <= t < stop cfg (instr_block cfg t).
Proof using Hzero Hstarts Hi2b Hstops.
  intros Ht. destruct (starts_prefix t Ht) as (rest & Hrest & Hgt). pose proof (lookup_lt_Some _ _ _ (zero_start t ltac:(lia))) as Hpos.
  pose proof (block_of_count t Ht) as Hb. set (b := instr_block cfg t) in *. pose proof blocks_starts as HN. rewrite Hrest, length_app in HN.
  assert (0 <= b < num_blocks cfg) as Rb by lia. split; [exact Rb|]. split.
  - pose proof (start_lookup b Rb) as H. rewrite Hrest, lookup_app_l in H by lia. apply list_elem_of_lookup_2, starts_elem in H. lia.
  - rewrite Hstops by exact Rb. destruct (b + 1 <? num_blocks cfg) eqn:E; [|lia]. apply Hgt.
    pose proof (start_lookup (b + 1) ltac:(lia)) as H. rewrite Hrest, lookup_app_r in H by lia. apply list_elem_of_lookup_2 in H. exact H.
Qed.

Lemma block_start b : 0 <= b < num_blocks cfg -> 0 <= start cfg b < n /\ leader (start cfg b) = true.
Proof using Hstarts. intros Hb. apply starts_elem, (list_elem_of_lookup_2 _ _ _ (start_lookup b Hb)). Qed.

Lemma cut_well : well_cut leader n cfg.
Proof using Hzero Hn Hstarts Hi2b Hstops.
  assert (forall b, 0 <= b < num_blocks cfg -> 0 <= start cfg b < stop cfg b /\ stop cfg b <= n) as HR.
  { intros b Hb. rewrite Hstops by exact Hb. pose proof (block_start b Hb). destruct (b + 1 <? num_blocks cfg) eqn:E; [|lia].
    pose proof (start_mono b (b + 1) ltac:(lia) ltac:(lia) ltac:(lia)). pose proof (block_start (b + 1) ltac:(lia)). lia. }
  assert (forall t b, 0 <= b < num_blocks cfg -> start cfg b <= t < stop cfg b -> instr_block cfg t = b) as HU.
  { intros t b Hb Ht. pose proof (HR b Hb). destruct (block_of_bounds t ltac:(lia)) as [Rb' Ht']. set (b' := instr_block cfg t) in *.
    assert (forall x y, 0 <= x -> x < y -> y < num_blocks cfg -> stop cfg x <= start cfg y) as Hsep.
    { intros x y H0 Hxy Hy. rewrite Hstops by lia. replace (x + 1 <? num_blocks cfg) with true by lia.
      destruct (Z.eq_dec (x + 1) y) as [<-|Hne]; [lia|]. pose proof (start_mono (x + 1) y ltac:(lia) ltac:(lia) Hy). lia. }
    destruct (Z.lt_trichotomy b' b) as [Hlt|[He|Hlt]]; [|exact He|].
    - pose proof (Hsep b' b ltac:(lia) Hlt ltac:(lia)). lia.
    - pose proof (Hsep b b' ltac:(lia) Hlt ltac:(lia)). lia. }
  assert (1 <= num_blocks cfg) as H1 by (destruct (block_of_bounds 0 ltac:(lia)); lia).
  constructor; [exact H1| | |exact HR|exact Hstops|exact block_of_bounds|exact HU|].
  - unfold num_instrs. rewrite Hi2b, length_map, length_seqZ. lia.
  - pose proof (start_lookup 0 ltac:(lia)) as H. destruct (starts_prefix 0 ltac:(lia)) as (rest & Hr & _).
    rewrite Hr, lookup_app_l in H by exact (lookup_lt_Some _ _ _ (zero_start 0 ltac:(lia))). change (Z.to_nat 0) with O in H.
    rewrite (zero_start 0) in H by lia. congruence.
  - intros t Ht. destruct (block_of_bounds t Ht) as [Rb Hb]. split; [|intros <-; apply block_start; exact Rb]. intros Hl.
    pose proof (start_lookup _ Rb) as H. destruct (starts_prefix t Ht) as (rest & Hrest & _). pose proof (block_of_count t Ht) as Hc.
    pose proof (starts_next leader t ltac:(lia)) as Hx. rewrite Hl in Hx. rewrite Hx, length_app in Hc. cbn [length] in Hc.
    rewrite Hrest, Hx, <- app_assoc, lookup_app_r in H by lia. replace (Z.to_nat (instr_block cfg t) - length (leaders_below leader t))%nat with O in H by lia.
    cbn in H. congruence.
Qed.
End Cut.

Lemma cfg_shape_cut ir : 1 <= next_instruction_index ir ->
  well_cut (is_leader ir) (next_instruction_index ir) (cfg_shape ir) /\
  (forall bb, bb ∈ blocks (cfg_shape ir) -> succs bb = [] /\ preds bb = [] /\ idom bb = -1 /\ rpo_number bb = -1 /\ dom_frontier bb = [] /\ dom_children bb = []) /\
  num_blocks (cfg_shape ir) = Z.of_nat (length (List.filter (is_leader ir) (seqZ 0 (next_instruction_index ir)))).
Proof.
  intros Hn. set (n := next_instruction_index ir) in *. assert (is_leader ir 0 = true) as Hz by (apply is_leader_true; left; reflexivity).
  pose proof (make_blocks_shaped (is_leader ir) (Z.to_nat n) 0 [] [] ltac:(lia)) as H. unfold cfg_shape. fold n.
  destruct (make_blocks (is_leader ir) (Z.to_nat n) 0 [] []) as [bs i2b]. rewrite Z.add_0_l, Z2Nat.id in H by lia.
  destruct H as [S1 S2 S3 S4]; [constructor; [reflexivity..|cbn; lia|intros bb Hbb; apply elem_of_nil in Hbb; contradiction]|].
  set (bs' := set_block bs (Z.of_nat (length bs) - 1) (set_end n)).
  assert (map start_idx bs' = leaders_below (is_leader ir) n) as Hs by (unfold bs'; rewrite map_start_end; exact S1).
  assert (length bs' = length bs) as Hlen by (unfold bs'; apply set_block_length).
  split; [|split].
  - apply cut_well; [exact Hz|exact Hn|exact Hs|exact S2|]. unfold num_blocks, stop, start. cbn [blocks]. rewrite Hlen. intros b Hb. unfold bs'.
    destruct (b + 1 <? Z.of_nat (length bs)) eqn:E.
    + rewrite set_block_ne by lia. rewrite S3 by lia. destruct (Z.eq_dec (Z.of_nat (length bs) - 1) (b + 1)) as [E'|E'];
        [rewrite E', set_block_eq by lia; reflexivity|rewrite set_block_ne by lia; reflexivity].
    + replace (Z.of_nat (length bs) - 1) with b by lia. rewrite set_block_eq by lia. reflexivity.
  - cbn [blocks]. intros bb Hbb. apply set_end_fresh in Hbb as (b' & [Hb'| ->] & [->| ->]); try exact (S4 _ Hb'); repeat split.
  - unfold num_blocks. cbn [blocks]. rewrite <- (length_map start_idx), Hs. reflexivity.
Qed.

(** ** The edges of the graph

    What the counting and the filling pass of [cfg_build_edges] do: the
    successors stored are the targets without repetitions, the predecessors are
    the sources, and both fit the slices the counts reserved. *)

Local Open Scope Z_scope.

(** ** Lists of edges *)

(** A successor is stored unless it is there. *)
Definition add_new (l : list Z) (t : Z) : list Z := if existsb (Z.eqb t) l then l else l ++ [t].

Lemma existsb_elem t l : existsb (Z.eqb t) l = true <-> t ∈ l.
Proof.
  rewrite existsb_exists. setoid_rewrite Z.eqb_eq. rewrite list_elem_of_In. split; [intros (x & H & ->); exact H|]. intros H. exists t. auto.
Qed.

Lemma add_new_elem l t x : x ∈ add_new l t <-> x ∈ l \/ x = t.
Proof.
  unfold add_new. destruct (existsb (Z.eqb t) l) eqn:E; [apply existsb_elem in E|rewrite elem_of_app, list_elem_of_singleton; tauto].
  split; [auto|]. intros [H| ->]; assumption.
Qed.

Lemma add_new_all ts : forall l x, x ∈ fold_left add_new ts l <-> x ∈ l \/ x ∈ ts.
Proof.
  induction ts as [|t ts IH]; intros l x; cbn [fold_left]; [rewrite elem_of_nil; tauto|]. rewrite IH, add_new_elem, elem_of_cons. tauto.
Qed.

Lemma add_new_nodup ts : forall l, NoDup l -> NoDup (fold_left add_new ts l).
Proof.
  induction ts as [|t ts IH]; intros l Hl; cbn [fold_left]; [exact Hl|]. apply IH. unfold add_new. destruct (existsb (Z.eqb t) l) eqn:E; [exact Hl|].
  apply list.NoDup_app. split; [exact Hl|]. split; [|apply NoDup_singleton]. intros x Hx Hin. apply list_elem_of_singleton in Hin as ->. apply existsb_elem in Hx. congruence.
Qed.

Lemma add_new_length ts : forall l, (length (fold_left add_new ts l) <= length l + length ts)%nat.
Proof.
  induction ts as [|t ts IH]; intros l; cbn [fold_left length]; [lia|]. specialize (IH (add_new l t)).
  assert (length (add_new l t) <= length l + 1)%nat by (unfold add_new; destruct (existsb _ _); [lia|]; rewrite length_app; cbn; lia). lia.
Qed.

(** Two nested loops are one over the pairs. *)
Definition pairs (g : Z -> list Z) (l : list Z) : list (Z * Z) := flat_map (fun b => map (pair b) (g b)) l.

Lemma pairs_elem g l b t : (b, t) ∈ pairs g l <-> b ∈ l /\ t ∈ g b.
Proof.
  unfold pairs. rewrite list_elem_of_In, in_flat_map, list_elem_of_In, list_elem_of_In. split.
  - intros (x & Hx & H). apply in_map_iff in H as (y & H & Hy). injection H as -> ->. auto.
  - intros [Hb Ht]. exists b. split; [exact Hb|]. apply in_map_iff. exists t. auto.
Qed.

Lemma nested_fold {A} (f : Z -> A -> Z -> A) g l : forall a,
  fold_left (fun a b => fold_left (f b) (g b) a) l a = fold_left (fun a p => f (fst p) a (snd p)) (pairs g l) a.
Proof.
  induction l as [|b l IH]; intros a; [reflexivity|]. unfold pairs. cbn [flat_map fold_left]. rewrite fold_left_app, IH. unfold pairs. f_equal.
  generalize (g b) as ts. intros ts. revert a. induction ts as [|t ts IHt]; intros a; [reflexivity|]. cbn [map fold_left fst snd]. apply IHt.
Qed.

Definition targets (c : Z) (es : list (Z * Z)) : list Z := map snd (List.filter (fun e => fst e =? c) es).
Definition sources (c : Z) (es : list (Z * Z)) : list Z := map fst (List.filter (fun e => snd e =? c) es).

Lemma targets_elem c es t : t ∈ targets c es <-> (c, t) ∈ es.
Proof.
  unfold targets. rewrite !list_elem_of_In, in_map_iff. setoid_rewrite filter_In. split.
  - intros ([x y] & <- & H & Hc). apply Z.eqb_eq in Hc. cbn in *. subst x. exact H.
  - intros H. exists (c, t). split; [reflexivity|]. split; [exact H|]. apply Z.eqb_refl.
Qed.

Lemma sources_elem c es p : p ∈ sources c es <-> (p, c) ∈ es.
Proof.
  unfold sources. rewrite !list_elem_of_In, in_map_iff. setoid_rewrite filter_In. split.
  - intros ([x y] & <- & H & Hc). apply Z.eqb_eq in Hc. cbn in *. subst y. exact H.
  - intros H. exists (p, c). split; [reflexivity|]. split; [exact H|]. apply Z.eqb_refl.
Qed.

(** ** Storing them *)

Definition with_edges (ss ps : list Z) (bb : IRBasicBlock) : IRBasicBlock :=
  {| start_idx := start_idx bb; end_idx := end_idx bb; succs := ss; preds := ps; idom := idom bb; rpo_number := rpo_number bb;
     dom_frontier := dom_frontier bb; dom_children := dom_children bb |}.

Lemma with_edges_id bb : with_edges (succs bb) (preds bb) bb = bb.
Proof. destruct bb; reflexivity. Qed.

Definition add_edges (bs : list IRBasicBlock) (es : list (Z * Z)) : list IRBasicBlock := fold_left (fun bs e => cfg_add_edge bs (fst e) (snd e)) es bs.

Definition in_blocks (bs : list IRBasicBlock) (b : Z) : Prop := 0 <= b < Z.of_nat (length bs).

Lemma add_edge_length bs b t : length (cfg_add_edge bs b t) = length bs.
Proof. unfold cfg_add_edge. rewrite set_block_length. destruct (existsb _ _); [reflexivity|apply set_block_length]. Qed.

Lemma set_block_if bs b f c : in_blocks bs b -> 0 <= c -> block_at (set_block bs b f) c = if b =? c then f (block_at bs c) else block_at bs c.
Proof. unfold in_blocks. intros Hb Hc. destruct (Z.eqb_spec b c) as [<-|Hne]; [apply set_block_eq; exact Hb|apply set_block_ne; lia]. Qed.

Lemma add_edge_at bs b t c : in_blocks bs b -> in_blocks bs t -> 0 <= c -> block_at (cfg_add_edge bs b t) c =
  with_edges (if b =? c then add_new (succs (block_at bs c)) t else succs (block_at bs c))
             (preds (block_at bs c) ++ if t =? c then [b] else []) (block_at bs c).
Proof.
  intros Hb Ht Hc. unfold cfg_add_edge, add_new.
  assert (forall bs', length bs' = length bs -> block_at (set_block bs' t (add_pred b)) c = if t =? c then add_pred b (block_at bs' c) else block_at bs' c) as Hp
    by (intros bs' L; apply set_block_if; [unfold in_blocks; rewrite L; exact Ht|exact Hc]).
  destruct (existsb (Z.eqb t) (succs (block_at bs b))) eqn:E.
  - rewrite Hp by reflexivity. destruct (Z.eqb_spec b c) as [<-|Hne]; [rewrite E|]; destruct (t =? _); rewrite ?app_nil_r; first [reflexivity|symmetry; apply with_edges_id].
  - rewrite Hp by apply set_block_length. rewrite set_block_if by assumption.
    destruct (Z.eqb_spec b c) as [<-|Hne]; [rewrite E|]; destruct (t =? _); rewrite ?app_nil_r; first [reflexivity|symmetry; apply with_edges_id].
Qed.

Lemma add_edges_at es : forall bs, (forall b t, (b, t) ∈ es -> in_blocks bs b /\ in_blocks bs t) ->
  length (add_edges bs es) = length bs /\ forall c, 0 <= c -> block_at (add_edges bs es) c =
    with_edges (fold_left add_new (targets c es) (succs (block_at bs c))) (preds (block_at bs c) ++ sources c es) (block_at bs c).
Proof.
  induction es as [|[b t] es IH]; intros bs Hr.
  - split; [reflexivity|]. intros c _. cbn [add_edges targets sources fold_left List.filter map]. rewrite app_nil_r. symmetry. apply with_edges_id.
  - destruct (Hr b t ltac:(left)) as [Hb Ht]. unfold add_edges. cbn [fold_left fst snd]. fold (add_edges (cfg_add_edge bs b t) es).
    destruct (IH (cfg_add_edge bs b t)) as [L B].
    + intros b' t' H. unfold in_blocks. rewrite add_edge_length. apply Hr. right. exact H.
    + rewrite add_edge_length in L. split; [exact L|]. intros c Hc. rewrite B, add_edge_at by assumption. unfold targets, sources. cbn [List.filter fst snd].
      destruct (b =? c), (t =? c); cbn [map fold_left fst snd with_edges succs preds start_idx end_idx idom rpo_number dom_frontier dom_children];
        unfold with_edges; cbn; rewrite <- ?app_assoc; reflexivity.
Qed.

(** ** The seen marks *)

(** [seen[to] == b] finds what the scan of the successors finds. *)
Lemma switch_edges_scan b ts : forall bs seen, in_blocks bs b -> (forall t, t ∈ ts -> in_blocks bs t) ->
  (forall t, seen t = b <-> t ∈ succs (block_at bs b)) -> (forall t, seen t <= b) ->
  exists seen', fold_left (switch_edge b) ts (bs, seen) = (fold_left (fun bs t => cfg_add_edge bs b t) ts bs, seen') /\ forall t, seen' t <= b.
Proof.
  induction ts as [|t ts IH]; intros bs seen Hb Ht Hs Hle; cbn [fold_left]; [exists seen; auto|].
  assert (in_blocks bs t) as Rt by (apply Ht; left).
  assert (switch_edge b (bs, seen) t = (cfg_add_edge bs b t, if seen t =? b then seen else aset seen t b)) as ->.
  { unfold switch_edge, cfg_add_edge. destruct (Z.eqb_spec (seen t) b) as [E|E]; cbn [negb].
    - apply Hs, existsb_elem in E. rewrite E. reflexivity.
    - destruct (existsb (Z.eqb t) (succs (block_at bs b))) eqn:Ex; [apply existsb_elem, Hs in Ex; contradiction|reflexivity]. }
  apply IH.
  - unfold in_blocks. rewrite add_edge_length. exact Hb.
  - intros x Hx. unfold in_blocks. rewrite add_edge_length. apply Ht. right. exact Hx.
  - intros x. rewrite add_edge_at by (unfold in_blocks in *; auto; lia). rewrite Z.eqb_refl. cbn [with_edges succs]. rewrite add_new_elem, <- Hs.
    destruct (Z.eqb_spec (seen t) b) as [E|E]; [split; [auto|intros [H| ->]; assumption]|]. unfold aset. destruct (Z.eqb_spec x t) as [->|Hne]; [tauto|]. tauto.
  - intros x. destruct (seen t =? b); [apply Hle|]. unfold aset. destruct (x =? t); [lia|apply Hle].
Qed.

Section Fill.
Context (ir : TCCIRState) (cfg : IRCFG).
Definition edges (b : Z) : list Z := fst (block_edges ir cfg b).
Definition edge_list : list (Z * Z) := pairs edges (seqZ 0 (num_blocks cfg)).
Context (Hrange : forall b t, 0 <= b < num_blocks cfg -> t ∈ edges b -> 0 <= t < num_blocks cfg).
Context (Hempty : forall b, 0 <= b < num_blocks cfg -> succs (block_at (blocks cfg) b) = [] /\ preds (block_at (blocks cfg) b) = []).

Lemma edge_list_elem b t : (b, t) ∈ edge_list <-> 0 <= b < num_blocks cfg /\ t ∈ edges b.
Proof using. unfold edge_list. rewrite pairs_elem, elem_of_seqZ. intuition lia. Qed.

(** Filling is adding the edges with the scan. *)
Lemma fill_edges_scan : fill_edges ir cfg = add_edges (blocks cfg) edge_list.
Proof using Hrange Hempty.
  unfold fill_edges.
  enough (forall n : nat, Z.of_nat n <= num_blocks cfg -> exists seen,
    fold_left (fill_block ir cfg) (seqZ 0 (Z.of_nat n)) (blocks cfg, fun _ => -1) = (add_edges (blocks cfg) (pairs edges (seqZ 0 (Z.of_nat n))), seen) /\
    forall t, seen t < Z.of_nat n) as H.
  { destruct (H (Z.to_nat (num_blocks cfg))) as (seen & E & _); [unfold num_blocks; lia|]. rewrite Z2Nat.id in E by (unfold num_blocks; lia). rewrite E. reflexivity. }
  induction n as [|n IH]; intros Hn; [exists (fun _ => -1); split; [reflexivity|intros; lia]|].
  destruct IH as (seen & E & Hs); [lia|]. rewrite seqZ_snoc, fold_left_app, E. cbn [fold_left]. rewrite Z.add_0_l.
  assert (add_edges (blocks cfg) (pairs edges (seqZ 0 (Z.of_nat n) ++ [Z.of_nat n])) =
          fold_left (fun bs t => cfg_add_edge bs (Z.of_nat n) t) (edges (Z.of_nat n)) (add_edges (blocks cfg) (pairs edges (seqZ 0 (Z.of_nat n))))) as ->.
  { unfold add_edges. rewrite <- !(nested_fold (fun b bs t => cfg_add_edge bs b t)), fold_left_app. reflexivity. }
  assert (forall b t, (b, t) ∈ pairs edges (seqZ 0 (Z.of_nat n)) -> in_blocks (blocks cfg) b /\ in_blocks (blocks cfg) t) as Hin.
  { intros b t H. apply pairs_elem in H as [H1 H2]. apply elem_of_seqZ in H1. split; [unfold in_blocks; unfold num_blocks in Hn; lia|]. apply (Hrange b); [lia|exact H2]. }
  destruct (add_edges_at _ (blocks cfg) Hin) as [L B]. set (bs := add_edges _ _) in *.
  unfold fill_block. destruct (block_edges ir cfg (Z.of_nat n)) as [ts sw] eqn:Eb. assert (edges (Z.of_nat n) = ts) as -> by (unfold edges; rewrite Eb; reflexivity).
  destruct sw; [|exists seen; split; [reflexivity|intros t; specialize (Hs t); lia]].
  destruct (switch_edges_scan (Z.of_nat n) ts bs seen) as (seen' & E' & Hs').
  - unfold in_blocks. rewrite L. unfold num_blocks in Hn. lia.
  - intros t Ht. unfold in_blocks. rewrite L. apply (Hrange (Z.of_nat n)); [lia|]. unfold edges. rewrite Eb. exact Ht.
  - intros t. rewrite B by lia. cbn [with_edges succs]. rewrite add_new_all, targets_elem, pairs_elem, elem_of_seqZ.
    rewrite (proj1 (Hempty (Z.of_nat n) ltac:(lia))), elem_of_nil. specialize (Hs t). lia.
  - intros t. specialize (Hs t). lia.
  - exists seen'. split; [exact E'|]. intros t. specialize (Hs' t). lia.
Qed.

(** The filled blocks. *)
Lemma fill_edges_at c : 0 <= c < num_blocks cfg ->
  block_at (fill_edges ir cfg) c = with_edges (fold_left add_new (targets c edge_list) []) (sources c edge_list) (block_at (blocks cfg) c).
Proof using Hrange Hempty.
  intros Hc. rewrite fill_edges_scan. destruct (add_edges_at edge_list (blocks cfg)) as [_ B].
  - intros b t H. apply edge_list_elem in H as [Hb Ht]. split; [exact Hb|exact (Hrange b t Hb Ht)].
  - rewrite B by lia. destruct (Hempty c Hc) as [-> ->]. reflexivity.
Qed.

Lemma fill_edges_length : length (fill_edges ir cfg) = length (blocks cfg).
Proof using Hrange Hempty.
  rewrite fill_edges_scan. apply add_edges_at. intros b t H. apply edge_list_elem in H as [Hb Ht]. split; [exact Hb|exact (Hrange b t Hb Ht)].
Qed.

(** The counts are the numbers of edges, and at most the largest counter. *)
Lemma count_none max es : fold_left (fun a e => count_edge max (fst e) a (snd e)) es None = None.
Proof using. induction es as [|e es IH]; [reflexivity|exact IH]. Qed.

Lemma count_list max es : forall ns np ns' np', fold_left (fun a e => count_edge max (fst e) a (snd e)) es (Some (ns, np)) = Some (ns', np') ->
  forall c, ns' c = ns c + Z.of_nat (length (targets c es)) /\ np' c = np c + Z.of_nat (length (sources c es)) /\
    (ns c <= max -> ns' c <= max) /\ (np c <= max -> np' c <= max).
Proof using.
  induction es as [|[b t] es IH]; intros ns np ns' np' E c; cbn [fold_left fst snd] in E; [injection E as <- <-; cbn; lia|].
  cbn [count_edge] in E. destruct ((ns b <? max) && (np t <? max)) eqn:Hm; [|rewrite count_none in E; discriminate].
  apply andb_true_iff in Hm as [M1 M2]. destruct (IH _ _ _ _ E c) as (H1 & H2 & B1 & B2). clear IH E. rewrite H1, H2. rewrite H1 in B1. rewrite H2 in B2. clear H1 H2.
  unfold aset, targets, sources in *. cbn [fst snd List.filter] in *. rewrite (Z.eqb_sym b c), (Z.eqb_sym t c).
  destruct (Z.eqb_spec c b) as [E1|E1]; destruct (Z.eqb_spec c t) as [E2|E2]; try rewrite <- E1 in *; try rewrite <- E2 in *; cbn [map length] in *; rewrite ?Nat2Z.inj_succ; lia.
Qed.

Lemma count_edges_at max ns np c : 0 <= max -> count_edges max ir cfg = Some (ns, np) ->
  ns c = Z.of_nat (length (targets c edge_list)) /\ np c = Z.of_nat (length (sources c edge_list)) /\ ns c <= max /\ np c <= max.
Proof using.
  unfold count_edges. rewrite (nested_fold (fun b a t => count_edge max b a t) edges). intros Hm E. destruct (count_list max edge_list _ _ _ _ E c) as (H1 & H2 & B1 & B2).
  rewrite Z.add_0_l in H1, H2. auto.
Qed.

Lemma slices_fit max ns np c : 0 <= max -> count_edges max ir cfg = Some (ns, np) -> 0 <= c < num_blocks cfg ->
  num_succs (block_at (fill_edges ir cfg) c) <= ns c <= max /\ num_preds (block_at (fill_edges ir cfg) c) = np c /\ np c <= max.
Proof using Hrange Hempty.
  intros Hm E Hc. destruct (count_edges_at max ns np c Hm E) as (E1 & E2 & B1 & B2). rewrite fill_edges_at by exact Hc. unfold num_succs, num_preds. cbn [with_edges succs preds].
  pose proof (add_new_length (targets c edge_list) []). cbn [length] in *. lia.
Qed.

Lemma filled_wf : wf_cfg (with_blocks cfg (fill_edges ir cfg)) /\
  forall b t, edge (with_blocks cfg (fill_edges ir cfg)) b t <-> 0 <= b < num_blocks cfg /\ t ∈ edges b.
Proof using Hrange Hempty.
  assert (num_blocks (with_blocks cfg (fill_edges ir cfg)) = num_blocks cfg) as N by (unfold num_blocks; cbn [with_blocks blocks]; rewrite fill_edges_length; reflexivity).
  assert (forall b t, 0 <= b < num_blocks cfg -> t ∈ succs_at (with_blocks cfg (fill_edges ir cfg)) b <-> t ∈ edges b) as HS.
  { intros b t Hb. unfold succs_at. cbn [with_blocks blocks]. rewrite fill_edges_at by exact Hb. cbn [with_edges succs].
    rewrite add_new_all, targets_elem, edge_list_elem, elem_of_nil. tauto. }
  assert (forall b t, edge (with_blocks cfg (fill_edges ir cfg)) b t <-> 0 <= b < num_blocks cfg /\ t ∈ edges b) as HE.
  { intros b t. unfold edge. rewrite N. split; [intros (Hb & _ & H); split; [exact Hb|apply HS; assumption]|].
    intros [Hb H]. split; [exact Hb|]. split; [exact (Hrange b t Hb H)|apply HS; assumption]. }
  split; [|exact HE]. split.
  - intros b p Hb. rewrite N in Hb. rewrite HE. cbn [with_blocks blocks]. rewrite fill_edges_at by exact Hb. cbn [with_edges preds]. rewrite sources_elem. apply edge_list_elem.
  - intros b s Hb Hs. rewrite N in *. apply HS in Hs; [|exact Hb]. exact (Hrange b s Hb Hs).
Qed.
End Fill.
