(* ===== verification/CfgBuild.v ===== *)
(** * The graph is the flow of the code

    [tcc_ir_cfg_build] against the flow of control between instructions, and
    the dominator query against paths of instructions. *)

From S2P Require Import Prelude.
From S2P Require Import Cfg.
From S2P Require Import CfgPaths.
From S2P Require Import CfgSemi.
From S2P Require Import CfgDfs.
From S2P Require Import CfgDom.
From S2P Require Import CfgBlocks.
Local Open Scope Z_scope.

(** ** Flow between instructions *)

(** Control passes from instruction [i] to instruction [j], a target the code names. *)
Definition moves (ir : TCCIRState) (i j : Z) : Prop :=
  0 <= j < next_instruction_index ir /\ exists q, ir_at ir i q /\
  match q_op q with
  | OP_JUMP => j = q_dest_imm q
  | OP_JUMPIF => j = q_dest_imm q \/ j = i + 1
  | OP_INLINE_ASM => j ∈ asm_goto_targets q \/ j = i + 1
  | OP_SWITCH_TABLE => exists t, switch_table ir q = Some t /\ j ∈ st_targets t
  | OP_RETURNVALUE | OP_RETURNVOID | OP_IJUMP => False
  | _ => tcc_ir_cfg_instr_ends_flow q = false /\ j = i + 1
  end.






Lemma instr_fun ir i q r : ir_at ir i q -> ir_at ir i r -> q = r.
Proof. intros [_ H1] [_ H2]. congruence. Qed.


Lemma instr_get ir i : 0 <= i < next_instruction_index ir -> exists q, ir_at ir i q.
Proof. intros Hi. destruct (lookup_lt_is_Some_2 (compact_instructions ir) (Z.to_nat i)) as [q Hq]; [unfold next_instruction_index in Hi; lia|]. exists q. split; [lia|exact Hq]. Qed.




Lemma until_negative_nonneg x l : x ∈ until_negative l -> 0 <= x.
Proof.
  induction l as [|y l IH]; cbn [until_negative]; [intros H; apply elem_of_nil in H; contradiction|].
  destruct (y <? 0) eqn:Ey; intros H; [apply elem_of_nil in H; contradiction|]. apply elem_of_cons in H as [->|H]; [lia|auto].
Qed.

Lemma ex_or {A} (P Q R S : A -> Prop) :
  (exists j, P j /\ Q j /\ S j) \/ (exists j, P j /\ R j /\ S j) <-> exists j, P j /\ (Q j \/ R j) /\ S j.
Proof.
  split; [intros [(j & H)|(j & H)]; exists j; tauto|]. intros (j & H1 & [H|H] & H2); [left|right]; exists j; auto.
Qed.

(** ** The shape and the flow *)

Section Flow.
Context (ir : TCCIRState) (cfg : IRCFG) (C : well_cut (is_leader ir) (next_instruction_index ir) cfg).
Notation n := (next_instruction_index ir).
Notation nb := (num_blocks cfg).

Lemma block_of_start b : 0 <= b < nb -> instr_block cfg (start cfg b) = b.
Proof using C. intros Hb. apply (wc_unique _ _ _ C); [exact Hb|]. pose proof (wc_range _ _ _ C b Hb). lia. Qed.



(** The targets in the code, as blocks. *)
Lemma to_elem d x : x ∈ (if in_code n d then [instr_block cfg d] else []) <-> exists j, 0 <= j < n /\ j = d /\ x = instr_block cfg j.
Proof using.
  unfold in_code. destruct ((0 <=? d) && (d <? n)) eqn:E.
  - rewrite list_elem_of_singleton. split; [intros ->; exists d; split; [lia|auto]|]. intros (j & _ & -> & ->). reflexivity.
  - rewrite elem_of_nil. split; [contradiction|]. intros (j & H1 & -> & _). lia.
Qed.

Lemma map_to_elem f l x : (forall t, t ∈ l -> f t = true <-> 0 <= t < n) ->
  x ∈ map (instr_block cfg) (List.filter f l) <-> exists j, 0 <= j < n /\ j ∈ l /\ x = instr_block cfg j.
Proof using.
  intros Hf. rewrite list_elem_of_In, in_map_iff. setoid_rewrite filter_In. setoid_rewrite <- list_elem_of_In. split.
  - intros (j & <- & Hin & Hfj). exists j. split; [apply Hf; assumption|]. auto.
  - intros (j & Hj & Hin & ->). exists j. split; [reflexivity|]. split; [exact Hin|]. apply Hf; assumption.
Qed.

Lemma next_elem b x : 0 <= b < nb -> x ∈ (if b + 1 <? nb then [b + 1] else []) <-> exists j, 0 <= j < n /\ j = stop cfg b - 1 + 1 /\ x = instr_block cfg j.
Proof using C.
  intros Hb. rewrite (wc_next _ _ _ C b Hb). destruct (b + 1 <? nb) eqn:E.
  - pose proof (block_of_start (b + 1) ltac:(lia)) as Hst. pose proof (wc_range _ _ _ C (b + 1) ltac:(lia)). rewrite list_elem_of_singleton. split.
    + intros ->. exists (start cfg (b + 1)). split; [lia|]. split; [lia|]. congruence.
    + intros (j & _ & -> & ->). replace (start cfg (b + 1) - 1 + 1) with (start cfg (b + 1)) by lia. exact Hst.
  - rewrite elem_of_nil. split; [contradiction|]. intros (j & H1 & H2 & _). lia.
Qed.

(** The edges of a block are the flow of its last instruction. *)
Lemma edges_flow b t : 0 <= b < nb -> t ∈ edges ir cfg b <-> exists j, moves ir (stop cfg b - 1) j /\ t = instr_block cfg j.
Proof using C.
  intros Hb. pose proof (wc_range _ _ _ C b Hb) as [Hs He]. pose proof (next_elem b t Hb) as Hnext. set (i := stop cfg b - 1) in *.
  destruct (instr_get ir i ltac:(lia)) as [q Hq].
  assert ((exists j, moves ir i j /\ t = instr_block cfg j) <-> exists j, 0 <= j < n /\ match q_op q with
      | OP_JUMP => j = q_dest_imm q
      | OP_JUMPIF => j = q_dest_imm q \/ j = i + 1
      | OP_INLINE_ASM => j ∈ asm_goto_targets q \/ j = i + 1
      | OP_SWITCH_TABLE => exists t, switch_table ir q = Some t /\ j ∈ st_targets t
      | OP_RETURNVALUE | OP_RETURNVOID | OP_IJUMP => False
      | _ => tcc_ir_cfg_instr_ends_flow q = false /\ j = i + 1 end /\ t = instr_block cfg j) as ->.
  { split; [intros (j & (Hj & r & Hr & H) & Ht); rewrite (instr_fun _ _ _ _ Hr Hq) in H; exists j; auto|].
    intros (j & Hj & H & Ht). exists j. split; [|exact Ht]. split; [exact Hj|]. exists q. auto. }
  unfold edges, block_edges. fold (stop cfg b) (start cfg b). fold i. replace (i <? start cfg b) with false by lia. rewrite (proj2 Hq), (wc_instrs _ _ _ C).
  fold (instr_block cfg). destruct (q_op q) eqn:Eo; cbn [fst]; rewrite ?elem_of_app, ?Hnext.
  all: try (rewrite elem_of_nil; split; [contradiction|]; intros (j & _ & H & _); exact H).
  all: try (destruct (tcc_ir_cfg_instr_ends_flow q);
    [rewrite elem_of_nil; split; [contradiction|]; intros (j & _ & [H _] & _); discriminate
    |rewrite Hnext; split; intros (j & H1 & H2 & H3); exists j; [auto|]; destruct H2; auto]).
  - apply to_elem.
  - rewrite <- ex_or. apply or_iff_compat_r, to_elem.
  - rewrite <- ex_or. apply or_iff_compat_r, map_to_elem. intros x Hx. assert (0 <= x) as H0; [|lia].
    unfold asm_goto_targets in Hx. rewrite Eo in Hx. exact (until_negative_nonneg _ _ Hx).
  - destruct (switch_table ir q) as [tb|].
    + etransitivity; [apply (map_to_elem (in_code n)); intros x _; unfold in_code; lia|].
      split; intros (j & H1 & H2 & H3); exists j; [split; [exact H1|]; split; [exists tb; auto|exact H3]|destruct H2 as (tb' & E & H2); injection E as <-; auto].
    + rewrite elem_of_nil. split; [contradiction|]. intros (j & _ & (tb & E & _) & _). discriminate.
Qed.
End Flow.

(** ** The built graph *)

Lemma well_cut_ext leader n cfg cfg' : num_blocks cfg' = num_blocks cfg -> instr_to_block cfg' = instr_to_block cfg ->
  (forall b, 0 <= b < num_blocks cfg -> start cfg' b = start cfg b /\ stop cfg' b = stop cfg b) -> well_cut leader n cfg -> well_cut leader n cfg'.
Proof.
  intros N I2 S C. assert (forall t, instr_block cfg' t = instr_block cfg t) as HB by (intros t; unfold instr_block; rewrite I2; reflexivity).
  assert (forall b, 0 <= b < num_blocks cfg -> start cfg' b = start cfg b) as S1 by (intros b Hb; apply S, Hb).
  assert (forall b, 0 <= b < num_blocks cfg -> stop cfg' b = stop cfg b) as S2 by (intros b Hb; apply S, Hb).
  constructor; rewrite ?N.
  - apply C.
  - unfold num_instrs. rewrite I2. apply C.
  - rewrite S1; [apply C|]. pose proof (wc_nonempty _ _ _ C). lia.
  - intros b Hb. rewrite S1, S2 by exact Hb. apply (wc_range _ _ _ C b Hb).
  - intros b Hb. rewrite S2 by exact Hb. rewrite (wc_next _ _ _ C b Hb). destruct (_ <? _) eqn:E; [|reflexivity]. symmetry. apply S1. lia.
  - intros t Ht. rewrite HB. destruct (wc_block _ _ _ C t Ht) as [Rb H]. rewrite S1, S2 by exact Rb. auto.
  - intros t b Hb. rewrite S1, S2, HB by exact Hb. apply (wc_unique _ _ _ C t b Hb).
  - intros t Ht. rewrite HB. destruct (wc_block _ _ _ C t Ht) as [Rb _]. rewrite S1 by exact Rb. apply (wc_leader _ _ _ C t Ht).
Qed.

Record cfg_built (ir : TCCIRState) (cfg : IRCFG) : Prop := {
  bt_cut : well_cut (is_leader ir) (next_instruction_index ir) cfg;
  bt_wf : wf_cfg cfg;
  bt_edge b c : edge cfg b c <-> 0 <= b < num_blocks cfg /\ exists j, moves ir (stop cfg b - 1) j /\ c = instr_block cfg j
}.

Section Filled.
Context (ir : TCCIRState) (Hn : 1 <= next_instruction_index ir).
Notation sh := (cfg_shape ir).

Lemma shape_range b t : 0 <= b < num_blocks sh -> t ∈ edges ir sh b -> 0 <= t < num_blocks sh.
Proof using Hn.
  intros Hb Ht. destruct (cfg_shape_cut ir Hn) as (C & _ & _). apply (edges_flow ir sh C b t Hb) in Ht as (j & (Hj & _) & ->).
  apply (wc_block _ _ _ C j Hj).
Qed.

Lemma shape_empty b : 0 <= b < num_blocks sh -> succs (block_at (blocks sh) b) = [] /\ preds (block_at (blocks sh) b) = [].
Proof using Hn.
  intros Hb. destruct (cfg_shape_cut ir Hn) as (_ & F & _). destruct (F (block_at (blocks sh) b)) as (H1 & H2 & _); [|auto].
  apply list_elem_of_lookup_2 with (Z.to_nat b). apply block_at_lookup. exact Hb.
Qed.

Lemma built_filled : cfg_built ir (with_blocks sh (fill_edges ir sh)).
Proof using Hn.
  destruct (cfg_shape_cut ir Hn) as (C & _ & _). pose proof (fill_edges_length ir sh shape_range shape_empty) as L.
  destruct (filled_wf ir sh shape_range shape_empty) as [W HE].
  assert (forall b, 0 <= b < num_blocks sh -> start (with_blocks sh (fill_edges ir sh)) b = start sh b /\ stop (with_blocks sh (fill_edges ir sh)) b = stop sh b) as S
    by (intros b Hb; unfold start, stop; cbn [with_blocks blocks]; rewrite (fill_edges_at ir sh shape_range shape_empty b Hb); split; reflexivity).
  assert (num_blocks (with_blocks sh (fill_edges ir sh)) = num_blocks sh) as N by (unfold num_blocks; cbn [with_blocks blocks]; rewrite L; reflexivity).
  constructor; [exact (well_cut_ext _ _ sh _ N eq_refl S C)|exact W|]. intros b c. rewrite HE, N. split; intros [Hb H]; (split; [exact Hb|]).
  - rewrite (proj2 (S b Hb)). apply (edges_flow ir sh C b c Hb). exact H.
  - rewrite (proj2 (S b Hb)) in H. apply (edges_flow ir sh C b c Hb). exact H.
Qed.
End Filled.

Lemma build_inv mb mi ir cfg : tcc_ir_cfg_build mb mi ir = BuildOk cfg ->
  1 <= next_instruction_index ir <= mi /\ num_blocks cfg <= mb /\ (exists ns np, count_edges mb ir (cfg_shape ir) = Some (ns, np)) /\ cfg = with_blocks (cfg_shape ir) (fill_edges ir (cfg_shape ir)).
Proof.
  unfold tcc_ir_cfg_build. destruct (next_instruction_index ir =? 0) eqn:E0; [discriminate|]. cbv zeta.
  destruct ((mb <? _) || (mi <? next_instruction_index ir)) eqn:E; [discriminate|]. destruct (count_edges mb ir (cfg_shape ir)) as [[ns np]|]; [|discriminate]. intros H. injection H as <-.
  assert (1 <= next_instruction_index ir) as Hn by (unfold next_instruction_index in *; lia).
  pose proof (fill_edges_length ir _ (shape_range ir Hn) (shape_empty ir Hn)) as L. destruct (cfg_shape_cut ir Hn) as (_ & _ & N).
  split; [lia|]. split; [|split; [eauto|reflexivity]]. unfold num_blocks in *. cbn [with_blocks blocks]. rewrite L. lia.
Qed.

(** ** Paths of instructions and paths of blocks *)

Section Paths.
Context (ir : TCCIRState) (cfg : IRCFG) (B : cfg_built ir cfg).
Notation n := (next_instruction_index ir).
Notation nb := (num_blocks cfg).
Notation C := (bt_cut _ _ B).








End Paths.



(** ** The claims *)



(** C35: When the build succeeds, the counting pass of [cfg_build_edges] has reserved
    enough for the filling pass, at the width of its counters: no block stores more
    successors than its slice has slots, every block stores exactly as many predecessors
    as were counted, and both counts are at most the largest [ir_block_idx_t]; a
    successor is stored once, and every stored index is a block below the limit
    [max_blocks] that the build enforces. (A block with more entering or leaving edges
    than that, duplicates of a switch table included, wraps the counter: the build then
    is not a success here, although the code does not notice.) *)
Theorem edge_slices_fit mb mi ir cfg b : tcc_ir_cfg_build mb mi ir = BuildOk cfg -> 0 <= b < num_blocks cfg ->
  let bb := block_at (blocks cfg) b in
  exists ns np, count_edges mb ir (cfg_shape ir) = Some (ns, np) /\
  num_succs bb <= ns b <= mb /\ num_preds bb = np b /\ np b <= mb /\ NoDup (succs bb) /\
  forall s, s ∈ succs bb \/ s ∈ preds bb -> 0 <= s < mb.
Proof.
  intros H Hb. destruct (build_inv _ _ _ _ H) as (Hn & Hmb & (ns & np & Ec) & ->). pose proof (built_filled ir ltac:(lia)) as B.
  pose proof (shape_range ir ltac:(lia)) as HR. pose proof (shape_empty ir ltac:(lia)) as HE.
  assert (0 <= b < num_blocks (cfg_shape ir)) as Hb' by (unfold num_blocks in Hb; cbn [with_blocks blocks] in Hb; rewrite (fill_edges_length ir _ HR HE) in Hb; exact Hb).
  cbv zeta. exists ns, np. split; [exact Ec|]. destruct (slices_fit ir _ HR HE mb ns np b ltac:(lia) Ec Hb') as (H1 & H2 & H3). split; [exact H1|]. split; [exact H2|]. split; [exact H3|]. split.
  - cbn [with_blocks blocks]. rewrite (fill_edges_at ir _ HR HE b Hb'). cbn [with_edges succs]. apply add_new_nodup, NoDup_nil_2.
  - destruct (bt_wf _ _ B) as [W1 W2]. intros s [Hs|Hs]; [pose proof (W2 b s Hb Hs); lia|]. apply (W1 b s Hb) in Hs as (Hs & _). lia.
Qed.

(** ** On the loop *)

Lemma loop_built : tcc_ir_cfg_build (2 ^ 31 - 1) (2 ^ 31 - 1) loop_ir = BuildOk loop_cfg.
Proof. vm_compute. reflexivity. Qed.



Lemma edge_slices_fit_witness : num_preds (block_at (blocks loop_cfg) 1) = 2 /\ NoDup (succs (block_at (blocks loop_cfg) 1)) /\
  exists ns np, count_edges (2 ^ 31 - 1) loop_ir (cfg_shape loop_ir) = Some (ns, np) /\ np 1 = 2.
Proof.
  assert (num_preds (block_at (blocks loop_cfg) 1) = 2) as E by (vm_compute; reflexivity).
  destruct (edge_slices_fit _ _ loop_ir loop_cfg 1 loop_built) as (ns & np & Ec & _ & H & _ & N & _); [vm_compute; intuition congruence|].
  split; [exact E|]. split; [exact N|]. exists ns, np. split; [exact Ec|]. rewrite <- H. exact E.
Defined.

(** A switch of five entries that all go to one block overflows a counter of three. *)
Example switch_counter_wraps :
  tcc_ir_cfg_build 3 100 {| compact_instructions := [{| q_op := OP_SWITCH_TABLE; q_dest_imm := 0; q_src2_imm := 0; q_labels := []; q_noreturn := false |}; ret];
    switch_tables := [{| st_targets := [1; 1; 1; 1; 1]; st_default_target := 1 |}] |} = BuildOverflow.
Proof. vm_compute. reflexivity. Qed.
