(* ===== verification/CfgFrontier.v ===== *)
(** * Dominance frontiers

    [tcc_ir_cfg_compute_dom_frontiers] on a graph with dominators: the children
    of the dominator tree, and the frontiers the runner walk with its
    "last target recorded" marks computes. *)

From S2P Require Import Prelude.
From S2P Require Import Cfg.
From S2P Require Import CfgPaths.
From S2P Require Import CfgSemi.
From S2P Require Import CfgDfs.
From S2P Require Import CfgStamp.
From S2P Require Import CfgDom.
From S2P Require Import CfgBlocks.
Local Open Scope Z_scope.

(** ** What the walk changes *)

Definition with_df (df : list Z) (bb : IRBasicBlock) : IRBasicBlock :=
  {| start_idx := start_idx bb; end_idx := end_idx bb; succs := succs bb; preds := preds bb; idom := idom bb; rpo_number := rpo_number bb;
     dom_frontier := df; dom_children := dom_children bb |}.

Definition df_of (bs : list IRBasicBlock) (x : Z) : list Z := dom_frontier (block_at bs x).

Definition same_but_df (bs bs' : list IRBasicBlock) : Prop :=
  length bs' = length bs /\ forall x, 0 <= x -> block_at bs' x = with_df (df_of bs' x) (block_at bs x).

Lemma same_but_df_refl bs : same_but_df bs bs.
Proof. split; [reflexivity|]. intros x _. unfold df_of. destruct (block_at bs x); reflexivity. Qed.

Lemma same_but_df_add bs bs' r b : in_blocks bs r -> same_but_df bs bs' -> same_but_df bs (set_block bs' r (add_df b)) /\
  forall x, 0 <= x -> df_of (set_block bs' r (add_df b)) x = df_of bs' x ++ if r =? x then [b] else [].
Proof.
  intros Hr [L H]. assert (in_blocks bs' r) as Hr' by (unfold in_blocks; rewrite L; exact Hr). split; [split; [rewrite set_block_length; exact L|]|].
  - intros x Hx. unfold df_of. rewrite set_block_if by assumption. destruct (r =? x); rewrite (H x Hx); reflexivity.
  - intros x Hx. unfold df_of. rewrite set_block_if by assumption. destruct (r =? x); [reflexivity|rewrite app_nil_r; reflexivity].
Qed.

(** ** Climbing the tree *)

Section Climb.
Context (cfg : IRCFG) (rank : Z -> Z) (T : idom_tree cfg rank).
Notation up x := (idom (block_at (blocks cfg) x)).
Notation node x := (x ∈ rpo_order cfg).

(** The blocks from [r] up to [stop], [stop] excluded. *)
Inductive climb (stop : Z) : Z -> list Z -> Prop :=
| climb_stop : climb stop stop []
| climb_up r l : r <> stop -> node r -> r <> 0 -> climb stop (up r) l -> climb stop r (r :: l).

Lemma climb_tanc stop r l : climb stop r l -> forall y, y ∈ l -> tanc cfg y r.
Proof using.
  induction 1 as [|r l Hr Nr H0 H IH]; intros y Hy; [apply elem_of_nil in Hy; contradiction|].
  apply elem_of_cons in Hy as [->|Hy]; [apply tanc_refl|apply tanc_up; auto].
Qed.

Lemma climb_exists stop p : node p -> tanc cfg stop p ->
  exists l, climb stop p l /\ (forall x, x ∈ l <-> tanc cfg x p /\ ~ tanc cfg x stop) /\ NoDup l.
Proof using T.
  intros Np H. revert Np. induction H as [|p H0 H IH]; intros Np.
  - exists []. split; [apply climb_stop|]. split; [intros x; rewrite elem_of_nil; tauto|apply NoDup_nil_2].
  - destruct (Z.eq_dec p stop) as [->|Hne]; [exists []; split; [apply climb_stop|]; split; [intros x; rewrite elem_of_nil; tauto|apply NoDup_nil_2]|].
    destruct (it_up _ _ T p Np H0) as [Nu Hlt]. destruct (IH Nu) as (l & Hc & Hl & Hnd). exists (p :: l). split; [apply climb_up; assumption|]. split.
    + intros x. rewrite elem_of_cons, Hl. split.
      * intros [->|[Hx Hn]]; [|split; [apply tanc_up; assumption|exact Hn]]. split; [apply tanc_refl|]. intros Hx. apply Hne.
        destruct (tanc_rank cfg rank T stop p Np (tanc_up _ _ _ H0 H)) as [Ns _]. apply (tanc_anti cfg rank T); [assumption..|exact Hx|apply tanc_up; assumption].
      * intros [Hx Hn]. inversion Hx as [|? _ Hx']; subst; [left; reflexivity|right; auto].
    + apply NoDup_cons_2; [|exact Hnd]. intros Hp. apply Hl in Hp as [Hp _]. destruct (tanc_rank cfg rank T _ _ Nu Hp) as [_ [He|Hr]]; [rewrite <- He in Hlt|]; lia.
Qed.

Lemma climb_length l : NoDup l -> (forall x, x ∈ l -> node x) -> (length l <= length (blocks cfg))%nat.
Proof using T.
  intros Hnd Hl. assert (l ⊆+ rpo_order cfg) as HS by (apply NoDup_submseteq; [exact Hnd|exact Hl]).
  apply submseteq_length in HS. pose proof (rpo_length cfg rank T). lia.
Qed.

(** ** One runner *)

(** Above a marked block everything on the way is marked. *)
Fixpoint marks_closed (mark : Z -> Prop) (l : list Z) : Prop :=
  match l with [] => True | x :: l => (mark x -> forall y, y ∈ l -> mark y) /\ marks_closed mark l end.

Lemma closed_ext mark mark' l : (forall x, x ∈ l -> mark x <-> mark' x) -> marks_closed mark l -> marks_closed mark' l.
Proof using.
  induction l as [|x l IH]; intros H; [auto|]. intros [H1 H2]. split.
  - intros Hx y Hy. apply H; [right; exact Hy|]. apply H1; [apply H; [left|exact Hx]|exact Hy].
  - apply IH; [|exact H2]. intros y Hy. apply H. right. exact Hy.
Qed.

Lemma climb_closed (mark : Z -> Prop) stop r l : climb stop r l -> (forall x y, mark x -> tanc cfg y x -> ~ tanc cfg y stop -> mark y) ->
  (forall y, y ∈ l -> ~ tanc cfg y stop) -> marks_closed mark l.
Proof using.
  intros H Hm Hn. induction H as [|r l Hr Nr H0 H IH]; [exact I|]. split; [|apply IH; intros y Hy; apply Hn; right; exact Hy].
  intros Hr' y Hy. apply (Hm r y Hr'); [apply tanc_up; [exact H0|]; exact (climb_tanc _ _ _ H y Hy)|apply Hn; right; exact Hy].
Qed.

Lemma runner_spec b stop r l : climb stop r l -> NoDup l -> forall fuel last bs, (length l <= fuel)%nat ->
  marks_closed (fun x => last x = b) l -> same_but_df (blocks cfg) bs ->
  let '(last', bs') := df_runner fuel b stop r last bs in
  same_but_df (blocks cfg) bs' /\ (forall x, last' x = if decide (x ∈ l) then b else last x) /\
  forall x, 0 <= x -> df_of bs' x = df_of bs x ++ if decide (x ∈ l /\ last x <> b) then [b] else [].
Proof using T.
  induction 1 as [|r l Hr Nr H0 H IH]; intros Hnd fuel last bs Hf Hc S.
  - assert (df_runner fuel b stop stop last bs = (last, bs)) as -> by (destruct fuel; [reflexivity|]; cbn [df_runner]; rewrite Z.eqb_refl; reflexivity).
    split; [exact S|]. split; [intros x; rewrite decide_False by apply not_elem_of_nil; reflexivity|].
    intros x _. rewrite decide_False by (intros [Hx _]; apply elem_of_nil in Hx; exact Hx). rewrite app_nil_r. reflexivity.
  - apply list.NoDup_cons in Hnd as [Hnin Hnd]. destruct fuel as [|fuel]; [cbn in Hf; lia|]. cbn [df_runner]. destruct Hc as [Hc1 Hc2].
    replace (r =? stop) with false by lia. destruct (Z.eqb_spec (last r) b) as [E|E].
    + split; [exact S|]. split.
      * intros x. destruct (decide (x ∈ r :: l)) as [Hx|_]; [|reflexivity]. apply elem_of_cons in Hx as [->|Hx]; [exact E|exact (Hc1 E x Hx)].
      * intros x _. rewrite decide_False; [rewrite app_nil_r; reflexivity|]. intros [Hx Hn]. apply Hn. apply elem_of_cons in Hx as [->|Hx]; [exact E|exact (Hc1 E x Hx)].
    + pose proof (it_range _ _ T r Nr) as Rr. destruct (it_up _ _ T r Nr H0) as [Nu Hlt]. pose proof (it_range _ _ T _ Nu) as Ru.
      pose proof (proj2 S r ltac:(lia)) as Hb. assert (idom (block_at bs r) = up r) as -> by (rewrite Hb; reflexivity).
      destruct (same_but_df_add (blocks cfg) bs r b Rr S) as [S1 D1].
      replace (r =? up r) with false by (symmetry; apply Z.eqb_neq; intros He; rewrite <- He in Hlt; lia). replace (up r <? 0) with false by lia.
      assert (marks_closed (fun x => aset last r b x = b) l) as Hc3 by (revert Hc2; apply closed_ext; intros x Hx; rewrite aset_ne; [reflexivity|intros ->; contradiction]).
      specialize (IH Hnd fuel (aset last r b) (set_block bs r (add_df b)) ltac:(cbn in Hf; lia) Hc3 S1).
      destruct (df_runner fuel b stop (up r) (aset last r b) (set_block bs r (add_df b))) as [last' bs']. destruct IH as (S2 & L2 & D2).
      split; [exact S2|]. split.
      * intros x. rewrite L2. destruct (decide (x ∈ l)) as [Hx|Hx]; [rewrite decide_True by (right; exact Hx); reflexivity|].
        destruct (Z.eq_dec x r) as [->|Hne]; [rewrite aset_eq, decide_True by left; reflexivity|].
        rewrite aset_ne by exact Hne. rewrite decide_False; [reflexivity|]. intros H'. apply elem_of_cons in H' as [|]; contradiction.
      * intros x Hx0. rewrite D2, D1 by exact Hx0. rewrite <- app_assoc. f_equal. destruct (Z.eqb_spec r x) as [<-|Hne].
        -- rewrite decide_False by (intros [Hx _]; contradiction). rewrite decide_True by (split; [left|exact E]). reflexivity.
        -- cbn [app]. rewrite aset_ne by congruence. apply decide_ext. rewrite elem_of_cons. split; [tauto|]. intros [[Hx|Hx] Hn]; [congruence|auto].
Qed.
End Climb.

(** ** The walk *)

Section Walk.
Context (cfg : IRCFG) (rank : Z -> Z) (T : idom_tree cfg rank).
Notation up x := (idom (block_at (blocks cfg) x)).
Notation node x := (x ∈ rpo_order cfg).
Notation pr x := (preds (block_at (blocks cfg) x)).
Notation nb := (num_blocks cfg).
Context (Hnode : forall b, 0 <= b < nb -> node b <-> 0 <= up b).
Context (Hpreds : forall b p, 0 <= b < nb -> p ∈ pr b -> 0 <= p < nb).
Context (Hstop : forall b p, node b -> p ∈ pr b -> node p -> tanc cfg (up b) p).
Context (Hclear : forall x, 0 <= x -> df_of (blocks cfg) x = []).

(** The blocks a runner from one of [ps] passes on its way to [idom b]. *)
Definition passed (b : Z) (ps : list Z) (x : Z) : Prop := exists p, p ∈ ps /\ node p /\ tanc cfg x p /\ ~ tanc cfg x (up b).

(** The frontier the walk records. *)
Definition recorded (b x : Z) : Prop := 0 <= b < nb /\ 2 <= Z.of_nat (length (pr b)) /\ node b /\ passed b (pr b) x.

(** The state while the predecessors of [b] are visited, those in [ps] done. *)
Record df_inv (b : Z) (ps : list Z) (st : (Z -> Z) * list IRBasicBlock) : Prop := {
  fi_same : same_but_df (blocks cfg) (snd st);
  fi_last x : fst st x <= b;
  fi_mark x : fst st x = b <-> passed b ps x;
  fi_df x c : 0 <= x -> c ∈ df_of (snd st) x <-> (c < b /\ recorded c x) \/ (c = b /\ passed b ps x);
  fi_nodup x : 0 <= x -> NoDup (df_of (snd st) x)
}.

Lemma passed_snoc b ps p x : passed b (ps ++ [p]) x <-> passed b ps x \/ (node p /\ tanc cfg x p /\ ~ tanc cfg x (up b)).
Proof using.
  unfold passed. setoid_rewrite elem_of_app. setoid_rewrite list_elem_of_singleton. split.
  - intros (q & [Hq| ->] & H); [left; exists q; auto|right; exact H].
  - intros [(q & Hq & H)|H]; [exists q; auto|exists p; auto].
Qed.

Lemma df_pred_step b ps p st : node b -> p ∈ pr b -> df_inv b ps st -> df_inv b (ps ++ [p]) (df_pred nb b st p).
Proof using T Hnode Hpreds Hstop.
  intros Nb Hp I. pose proof (it_range _ _ T b Nb) as Rb. pose proof (Hpreds b p Rb Hp) as Rp. destruct st as [last bs]. pose proof I as [S Hle Hm Hd Hn]. cbn [fst snd] in *.
  assert (forall x, 0 <= x -> idom (block_at bs x) = up x) as Hi by (intros x Hx; rewrite (proj2 S x Hx); reflexivity).
  unfold df_pred. rewrite !Hi by lia. destruct ((p <? 0) || (up p <? 0)) eqn:E.
  - assert (~ node p) as Nn by (rewrite (Hnode p Rp); lia).
    assert (forall x, passed b (ps ++ [p]) x <-> passed b ps x) as Hsame by (intros x; rewrite passed_snoc; tauto).
    constructor; cbn [fst snd]; [exact S|exact Hle|intros x; rewrite Hsame; apply Hm|intros x c Hx; rewrite Hsame; apply Hd; exact Hx|exact Hn].
  - assert (node p) as Np by (apply (Hnode p Rp); lia). destruct (climb_exists cfg rank T (up b) p Np (Hstop b p Nb Hp Np)) as (l & Hc & Hl & Hnd).
    assert (length l <= Z.to_nat nb)%nat as Hlen.
    { unfold num_blocks. rewrite Nat2Z.id. apply (climb_length cfg rank T); [exact Hnd|]. intros x Hx. apply Hl in Hx as [Hx _]. exact (proj1 (tanc_rank cfg rank T x p Np Hx)). }
    assert (marks_closed (fun x => last x = b) l) as Hcl.
    { apply (climb_closed cfg _ (up b) p l Hc); [|intros y Hy; apply Hl in Hy; tauto]. intros x y Hx Hy Hny. apply Hm in Hx as (q & Hq & Nq & Ht & _). apply Hm.
      exists q. split; [exact Hq|]. split; [exact Nq|]. split; [exact (tanc_trans _ _ _ _ Hy Ht)|exact Hny]. }
    pose proof (runner_spec cfg rank T b (up b) p l Hc Hnd (Z.to_nat nb) last bs Hlen Hcl S) as HR.
    destruct (df_runner _ _ _ _ _ _) as [last' bs']. destruct HR as (S' & L' & D').
    assert (forall x, passed b (ps ++ [p]) x <-> passed b ps x \/ x ∈ l) as Hpass by (intros x; rewrite passed_snoc, Hl; tauto).
    constructor; cbn [fst snd]; [exact S'| | | |].
    + intros x. rewrite L'. destruct (decide _); [lia|apply Hle].
    + intros x. rewrite L', Hpass, <- Hm. destruct (decide (x ∈ l)); tauto.
    + intros x c Hx. rewrite D', elem_of_app, Hd, Hpass by exact Hx. destruct (decide (x ∈ l /\ last x <> b)) as [[Hx1 Hx2]|Hx1].
      * rewrite list_elem_of_singleton. tauto.
      * rewrite elem_of_nil, <- Hm. destruct (Z.eq_dec (last x) b); tauto.
    + intros x Hx. rewrite D' by exact Hx. destruct (decide (x ∈ l /\ last x <> b)) as [[Hx1 Hx2]|Hx1]; [|rewrite app_nil_r; apply Hn; exact Hx].
      apply list.NoDup_app. split; [apply Hn; exact Hx|]. split; [|apply NoDup_singleton]. intros c Hin Hc'. apply list_elem_of_singleton in Hc' as ->.
      apply Hd in Hin as [[Hlt _]|[_ Hin]]; [lia| |exact Hx]. apply Hx2, Hm. exact Hin.
Qed.

Lemma df_preds_step b : node b -> forall todo ps st, pr b = ps ++ todo -> df_inv b ps st -> df_inv b (pr b) (fold_left (df_pred nb b) todo st).
Proof using T Hnode Hpreds Hstop.
  intros Nb. induction todo as [|p todo IH]; intros ps st Hp I; cbn [fold_left]; [rewrite Hp, app_nil_r; exact I|].
  apply (IH (ps ++ [p])); [rewrite <- app_assoc; exact Hp|]. apply df_pred_step; [exact Nb|rewrite Hp; apply elem_of_app; right; left|exact I].
Qed.

(** The state after the blocks below [k]. *)
Record df_upto (k : Z) (st : (Z -> Z) * list IRBasicBlock) : Prop := {
  fu_same : same_but_df (blocks cfg) (snd st);
  fu_last x : fst st x < k;
  fu_df x c : 0 <= x -> c ∈ df_of (snd st) x <-> c < k /\ recorded c x;
  fu_nodup x : 0 <= x -> NoDup (df_of (snd st) x)
}.

Lemma df_block_step b st : 0 <= b < nb -> df_upto b st -> df_upto (b + 1) (df_block nb st b).
Proof using T Hnode Hpreds Hstop.
  intros Rb [S L D N]. unfold df_block. pose proof (proj2 S b ltac:(lia)) as Hb.
  assert (preds (block_at (snd st) b) = pr b) as Hp by (rewrite Hb; reflexivity). assert (idom (block_at (snd st) b) = up b) as Hi by (rewrite Hb; reflexivity).
  unfold num_preds. rewrite Hp, Hi.
  assert (~ (2 <= Z.of_nat (length (pr b)) /\ node b) -> df_upto (b + 1) st) as Hskip.
  { intros Hno. constructor; [exact S|intros x; specialize (L x); lia| |exact N]. intros x c Hx. rewrite (D x c Hx). split; [intros [H1 H2]; split; [lia|exact H2]|].
    intros [H1 H2]. split; [|exact H2]. destruct (Z.eq_dec c b) as [->|]; [|lia]. exfalso. apply Hno. unfold recorded in H2. tauto. }
  destruct (Z.of_nat (length (pr b)) <? 2) eqn:E2; [apply Hskip; lia|]. destruct (up b <? 0) eqn:Eu; [apply Hskip; rewrite (Hnode b Rb); lia|].
  assert (node b) as Nb by (apply (Hnode b Rb); lia).
  assert (df_inv b [] st) as I.
  { constructor; [exact S|intros x; specialize (L x); lia| | |exact N].
    - intros x. specialize (L x). split; [lia|]. intros (p & Hin & _). apply elem_of_nil in Hin. contradiction.
    - intros x c Hx. rewrite (D x c Hx). split; [tauto|]. intros [H|[_ (p & Hin & _)]]; [exact H|]. apply elem_of_nil in Hin. contradiction. }
  destruct (df_preds_step b Nb (pr b) [] st eq_refl I) as [S' L' _ D' N']. constructor; [exact S'|intros x; specialize (L' x); lia| |exact N'].
  intros x c Hx. rewrite (D' x c Hx). split.
  - intros [[H1 H2]|[-> H]]; [split; [lia|exact H2]|]. split; [lia|]. split; [exact Rb|]. split; [lia|]. split; [exact Nb|exact H].
  - intros [H1 H2]. destruct (Z.eq_dec c b) as [->|Hne]; [right|left; split; [lia|exact H2]]. split; [reflexivity|apply H2].
Qed.

Lemma df_walk_spec : same_but_df (blocks cfg) (cfg_df_walk nb (blocks cfg)) /\
  forall x, 0 <= x -> (forall c, c ∈ df_of (cfg_df_walk nb (blocks cfg)) x <-> recorded c x) /\ NoDup (df_of (cfg_df_walk nb (blocks cfg)) x).
Proof using T Hnode Hpreds Hstop Hclear.
  unfold cfg_df_walk. assert (forall n : nat, Z.of_nat n <= nb -> df_upto (Z.of_nat n) (fold_left (df_block nb) (seqZ 0 (Z.of_nat n)) (fun _ => -1, blocks cfg))) as H.
  { induction n as [|n IH]; intros Hn.
    - change (seqZ 0 (Z.of_nat 0)) with (@nil Z). constructor; cbn [fst snd fold_left]; [apply same_but_df_refl|intros x; cbn; lia|intros x c Hx|intros x Hx]; [|rewrite (Hclear x Hx); apply NoDup_nil_2]. rewrite (Hclear x Hx).
      rewrite elem_of_nil. split; [contradiction|]. intros [H1 [H2 _]]. lia.
    - rewrite seqZ_snoc, fold_left_app. cbn [fold_left]. replace (Z.of_nat (S n)) with (Z.of_nat n + 1) by lia. rewrite Z.add_0_l. apply df_block_step; [lia|apply IH; lia]. }
  specialize (H (Z.to_nat nb) ltac:(unfold num_blocks; lia)). rewrite Z2Nat.id in H by (unfold num_blocks; lia). destruct H as [S L D N].
  split; [exact S|]. intros x Hx. split; [|exact (N x Hx)]. intros c. rewrite (D x c Hx). split; [tauto|]. intros H. split; [apply H|exact H].
Qed.
End Walk.

(** ** The children of the tree *)

Definition with_children (cs : list Z) (bb : IRBasicBlock) : IRBasicBlock :=
  {| start_idx := start_idx bb; end_idx := end_idx bb; succs := succs bb; preds := preds bb; idom := idom bb; rpo_number := rpo_number bb;
     dom_frontier := dom_frontier bb; dom_children := cs |}.

Definition children_of (bs : list IRBasicBlock) (x : Z) : list Z := dom_children (block_at bs x).

Lemma block_at_clear bs x : block_at (map clear_dom bs) x = clear_dom (block_at bs x).
Proof. unfold block_at. exact (map_nth clear_dom bs no_block (Z.to_nat x)). Qed.

Section Children.
Context (bs0 : list IRBasicBlock) (Hup : forall b, 0 <= b < Z.of_nat (length bs0) -> idom (block_at bs0 b) < Z.of_nat (length bs0)).
Context (Hnone : forall x, 0 <= x -> children_of bs0 x = []).

Lemma children_fold : let bs := fold_left child_block (seqZ 1 (Z.of_nat (length bs0) - 1)) bs0 in
  length bs = length bs0 /\ forall x, 0 <= x ->
    block_at bs x = with_children (children_of bs x) (block_at bs0 x) /\
    forall c, c ∈ children_of bs x <-> 1 <= c < Z.of_nat (length bs0) /\ idom (block_at bs0 c) = x /\ x <> c.
Proof using Hup Hnone.
  cbv zeta. destruct (Nat.eq_dec (length bs0) 0) as [E0|E0].
  { rewrite E0. change (seqZ 1 (Z.of_nat 0 - 1)) with (@nil Z). cbn [fold_left]. split; [exact E0|]. intros x Hx.
    split; [unfold children_of; destruct (block_at bs0 x); reflexivity|]. intros c. rewrite (Hnone x Hx), elem_of_nil. lia. }
  enough (forall n : nat, Z.of_nat n < Z.of_nat (length bs0) -> let bs := fold_left child_block (seqZ 1 (Z.of_nat n)) bs0 in
    length bs = length bs0 /\ forall x, 0 <= x -> block_at bs x = with_children (children_of bs x) (block_at bs0 x) /\
      forall c, c ∈ children_of bs x <-> 1 <= c < 1 + Z.of_nat n /\ idom (block_at bs0 c) = x /\ x <> c) as H.
  { specialize (H (Z.to_nat (Z.of_nat (length bs0) - 1)) ltac:(lia)). rewrite Z2Nat.id in H by lia. cbv zeta in H. destruct H as [L H].
    split; [exact L|]. intros x Hx. destruct (H x Hx) as [H1 H2]. split; [exact H1|]. intros c. rewrite H2. intuition lia. }
  induction n as [|n IH]; intros Hn; cbv zeta.
  - change (seqZ 1 (Z.of_nat 0)) with (@nil Z). cbn [fold_left]. split; [reflexivity|]. intros x Hx.
    split; [unfold children_of; destruct (block_at bs0 x); reflexivity|]. intros c. rewrite (Hnone x Hx), elem_of_nil. lia.
  - rewrite seqZ_snoc, fold_left_app. cbn [fold_left]. destruct (IH ltac:(lia)) as [L H]. set (bs := fold_left _ _ _) in *. set (b := 1 + Z.of_nat n) in *.
    unfold child_block. assert (idom (block_at bs b) = idom (block_at bs0 b)) as -> by (rewrite (proj1 (H b ltac:(lia))); reflexivity).
    set (d := idom (block_at bs0 b)). pose proof (Hup b ltac:(lia)) as Hd. fold d in Hd. replace (1 + Z.of_nat (S n)) with (b + 1) by lia.
    destruct ((0 <=? d) && negb (d =? b)) eqn:E.
    + assert (in_blocks bs d) as Rd by (unfold in_blocks; rewrite L; lia). split; [rewrite set_block_length; exact L|]. intros x Hx. unfold children_of.
      rewrite set_block_if by assumption. destruct (H x Hx) as [H1 H2]. destruct (Z.eqb_spec d x) as [Ed|Ed].
      * split; [rewrite H1; reflexivity|]. intros c. cbn [add_child dom_children]. fold (children_of bs x). rewrite elem_of_app, H2, list_elem_of_singleton. split.
        -- intros [(A & B)| ->]; [split; [lia|exact B]|]. split; [lia|]. fold d. lia.
        -- intros (A & B & C). destruct (Z.eq_dec c b) as [->|Hne]; [right; reflexivity|left; split; [lia|auto]].
      * split; [exact H1|]. intros c. fold (children_of bs x). rewrite H2. split; [intros (A & B); split; [lia|exact B]|]. intros (A & B & C).
        split; [|auto]. destruct (Z.eq_dec c b) as [->|Hne]; [fold d in B; congruence|lia].
    + split; [exact L|]. intros x Hx. destruct (H x Hx) as [H1 H2]. split; [exact H1|]. intros c. rewrite H2. split; [intros (A & B); split; [lia|exact B]|].
      intros (A & B & C). split; [|auto]. destruct (Z.eq_dec c b) as [->|Hne]; [fold d in B; lia|lia].
Qed.
End Children.

(** ** On a graph with dominators *)

Lemma idoms_ok_same cfg cfg' rank : same_graph cfg cfg' -> (forall b, 0 <= b -> idom (block_at (blocks cfg') b) = idom (block_at (blocks cfg) b)) ->
  1 <= num_blocks cfg -> idoms_ok cfg rank -> idoms_ok cfg' rank.
Proof.
  intros S Hi Hnb (A & B & C). assert (forall b, reachable cfg' b -> reachable cfg b) as HR by (intros b Hb; exact (proj2 (same_walk cfg cfg' _ 0 b S) Hb)).
  split; [rewrite Hi by lia; exact A|]. split; [intros b Hb; apply B, HR, Hb|]. intros b Hb Hne. pose proof (reachable_range cfg b Hnb (HR b Hb)) as Rb. rewrite Hi by lia.
  destruct (C b (HR b Hb) Hne) as [[Ra Hx] Hlt]. split; [|exact Hlt]. split; [exact (proj1 (same_walk cfg cfg' _ 0 _ S) Ra)|].
  intros x. rewrite <- !(same_dom cfg cfg' _ _ S). apply Hx.
Qed.

(** A graph whose dominators are stored, and -1 where a block cannot be reached. *)
Record dominated (cfg : IRCFG) (rank : Z -> Z) : Prop := {
  dm_nonempty : 1 <= num_blocks cfg;
  dm_wf : wf_cfg cfg;
  dm_rpo : is_rpo cfg (rpo_order cfg);
  dm_idoms : idoms_ok cfg rank;
  dm_none b : 0 <= b < num_blocks cfg -> ~ reachable cfg b -> idom (block_at (blocks cfg) b) < 0
}.

Section Frontiers.
Context (cfg : IRCFG) (rank : Z -> Z) (M : dominated cfg rank).
Notation up x := (idom (block_at (blocks cfg) x)).
Notation D := (dom (edge cfg) 0).

Lemma node_reachable b : b ∈ rpo_order cfg <-> reachable cfg b.
Proof using M. exact (ro_blocks _ _ (dm_rpo _ _ M) b). Qed.

Lemma dominated_tree : idom_tree cfg rank.
Proof using M. apply idoms_tree; apply M. Qed.

Lemma reachable_up b : reachable cfg b -> 0 <= up b < num_blocks cfg.
Proof using M.
  intros Rb. pose proof (dm_nonempty _ _ M) as H1. destruct (dm_idoms _ _ M) as (H0 & _ & HI). destruct (Z.eq_dec b 0) as [E|Hb]; [rewrite E, H0; lia|].
  destruct (HI b Rb Hb) as [[Ra _] _]. exact (reachable_range cfg _ H1 Ra).
Qed.

Lemma up_node b : 0 <= b < num_blocks cfg -> b ∈ rpo_order cfg <-> 0 <= up b.
Proof using M.
  intros Hb. split; [intros H; apply node_reachable, reachable_up in H; lia|]. intros H. destruct (decide (b ∈ rpo_order cfg)) as [Hin|Hnin]; [exact Hin|].
  rewrite node_reachable in Hnin. pose proof (dm_none _ _ M b Hb Hnin). lia.
Qed.

Lemma up_dom_pred b p : reachable cfg b -> edge cfg p b -> D (up b) p.
Proof using M.
  intros Rb He. destruct (dm_idoms _ _ M) as (H0 & _ & HI). destruct (Z.eq_dec b 0) as [E|Hb].
  - rewrite E, H0. intros W. apply walk_start in W. exact (W eq_refl).
  - destruct (HI b Rb Hb) as [[_ Hu] _]. destruct (proj2 (Hu (up b)) (dom_refl _ _ _)) as [H1 H2]. exact (dom_pred _ _ _ _ _ He H2 H1).
Qed.

Lemma it_up_any b : reachable cfg b -> up b ∈ rpo_order cfg.
Proof using M.
  intros Rb. pose proof (dm_idoms _ _ M) as (H0 & _ & HI). apply node_reachable. destruct (Z.eq_dec b 0) as [E|Hb].
  - rewrite E, H0. apply walk_refl. exact I.
  - apply (HI b Rb Hb).
Qed.

(** The first arrival at [b]. *)
Lemma first_arrival b : b <> 0 -> reachable cfg b -> exists y, walk (edge cfg) (fun u => u <> b) 0 y /\ edge cfg y b.
Proof using.
  intros Hb R. assert (forall z, reachable cfg z -> walk (edge cfg) (fun u => u <> b) 0 z \/ exists y, walk (edge cfg) (fun u => u <> b) 0 y /\ edge cfg y b) as H.
  - intros z W. induction W as [_|y z W IH He _]; [left; apply walk_refl; congruence|]. destruct IH as [IH|IH]; [|right; exact IH].
    destruct (Z.eq_dec z b) as [->|Hne]; [right; exists y; auto|left; eapply walk_snoc; eauto].
  - destruct (H b R) as [W|W]; [|exact W]. apply walk_end in W. contradiction.
Qed.

(** A block with one predecessor is in no frontier. *)
Lemma single_pred a b p : b <> 0 -> reachable cfg b -> Z.of_nat (length (preds (block_at (blocks cfg) b))) < 2 -> edge cfg p b -> D a p -> D a (up b).
Proof using M.
  intros Hb Rb Hlen He Ha. destruct (dm_idoms _ _ M) as (_ & _ & HI). destruct (HI b Rb Hb) as [[_ Hu] _]. destruct (dm_wf _ _ M) as [W1 _].
  pose proof (reachable_range cfg b (dm_nonempty _ _ M) Rb) as Rg.
  assert (forall q, edge cfg q b -> q = p) as Hone.
  { intros q Hq. apply (W1 b q Rg) in Hq. apply (W1 b p Rg) in He. destruct (preds (block_at (blocks cfg) b)) as [|x [|y l]]; [apply elem_of_nil in Hq; contradiction| |cbn in Hlen; lia].
    apply list_elem_of_singleton in Hq, He. congruence. }
  apply Hu. split.
  - intros W. inversion W as [HP|y z W' Hy HP]; subst; [contradiction|]. apply Ha. rewrite <- (Hone _ Hy). exact W'.
  - intros ->. destruct (first_arrival b Hb Rb) as (y & W & Hy). apply Ha. rewrite <- (Hone y Hy). exact W.
Qed.

Lemma frontiers_spec : let cfg' := tcc_ir_cfg_compute_dom_frontiers cfg in
  same_graph cfg cfg' /\ (forall b, 0 <= b -> idom (block_at (blocks cfg') b) = up b) /\
  (forall a b, 0 <= a -> b ∈ children_of (blocks cfg') a <-> b <> 0 /\ reachable cfg b /\ up b = a) /\
  forall a, 0 <= a -> NoDup (df_of (blocks cfg') a) /\ forall b, b ∈ df_of (blocks cfg') a <->
    reachable cfg b /\ 2 <= num_preds (block_at (blocks cfg) b) /\ exists p, edge cfg p b /\ reachable cfg p /\ D a p /\ ~ D a (up b).
Proof using M.
  pose proof (dm_nonempty _ _ M) as Hnb. cbv zeta. unfold tcc_ir_cfg_compute_dom_frontiers. replace (num_blocks cfg =? 0) with false by lia. cbv zeta.
  set (bs1 := map clear_dom (blocks cfg)). assert (length bs1 = length (blocks cfg)) as L1 by apply length_map.
  assert (forall b, 0 <= b < num_blocks cfg -> up b < num_blocks cfg) as Hlt
    by (intros b Hb; destruct (decide (b ∈ rpo_order cfg)) as [H|H]; [apply node_reachable, reachable_up in H; lia|rewrite (up_node b Hb) in H; lia]).
  destruct (children_fold bs1) as [L2 C2].
  { intros b Hb. rewrite L1 in *. unfold bs1. rewrite block_at_clear. exact (Hlt b Hb). }
  { intros x _. unfold children_of, bs1. rewrite block_at_clear. reflexivity. }
  rewrite L1 in L2, C2. fold (num_blocks cfg) in C2, L2. set (bs2 := fold_left child_block _ _) in *.
  assert (forall x, 0 <= x -> block_at bs2 x = with_children (children_of bs2 x) (clear_dom (block_at (blocks cfg) x))) as B2
    by (intros x Hx; rewrite (proj1 (C2 x Hx)) at 1; unfold bs1; rewrite block_at_clear; reflexivity).
  set (c2 := with_blocks cfg bs2). assert (same_graph cfg c2) as S2 by (split; [exact L2|]; intros b Hb; unfold c2; cbn [with_blocks blocks]; rewrite (B2 b Hb); split; reflexivity).
  assert (forall b, 0 <= b -> idom (block_at (blocks c2) b) = up b) as I2 by (intros b Hb; unfold c2; cbn [with_blocks blocks]; rewrite (B2 b Hb); reflexivity).
  pose proof (idoms_ok_same cfg c2 rank S2 I2 Hnb (dm_idoms _ _ M)) as OK2. pose proof (same_num_blocks _ _ S2) as N2.
  pose proof (is_rpo_same cfg c2 _ S2 (dm_rpo _ _ M)) as R2. assert (idom_tree c2 rank) as T2 by (apply idoms_tree; [lia|exact OK2|exact R2]).
  assert (forall a b, reachable cfg b -> tanc c2 a b <-> D a b) as HT.
  { intros a b Rb. rewrite (same_dom cfg c2 a b S2). symmetry. apply (dom_tanc c2 rank a b OK2). exact (proj1 (same_walk cfg c2 _ 0 b S2) Rb). }
  assert (forall b p, p ∈ preds (block_at (blocks c2) b) -> 0 <= b < num_blocks cfg -> edge cfg p b) as HP
    by (intros b p Hp Hb; apply (proj1 (dm_wf _ _ M) b p Hb); rewrite <- (proj2 (proj2 S2 b ltac:(lia))); exact Hp).
  destruct (df_walk_spec c2 rank T2) as [S3 F3].
  { intros b Hb. rewrite N2 in Hb. rewrite I2 by lia. exact (up_node b Hb). }
  { intros b p Hb Hp. rewrite N2 in *. exact (proj1 (HP b p Hp Hb)). }
  { intros b p Nb Hp Np. apply node_reachable in Nb, Np. pose proof (reachable_range cfg b Hnb Nb) as Rb. apply (HT _ p Np). rewrite I2 by lia. apply up_dom_pred; [exact Nb|exact (HP b p Hp Rb)]. }
  { intros x Hx. unfold df_of, c2. cbn [with_blocks blocks]. rewrite (B2 x Hx). reflexivity. }
  rewrite N2 in S3, F3. cbn [c2 with_blocks blocks] in S3, F3. change (blocks c2) with bs2 in S3, F3. set (bs3 := cfg_df_walk (num_blocks cfg) bs2) in *.
  assert (forall x, 0 <= x -> block_at bs3 x = with_df (df_of bs3 x) (block_at bs2 x)) as B3 by (exact (proj2 S3)).
  cbn [with_blocks blocks]. split; [|split; [|split]].
  - split; [cbn [with_blocks blocks]; rewrite (proj1 S3); exact L2|]. intros b Hb. cbn [with_blocks blocks]. rewrite (B3 b Hb), (B2 b Hb). split; reflexivity.
  - intros b Hb. rewrite (B3 b Hb), (B2 b Hb). reflexivity.
  - intros a b Ha. assert (children_of bs3 a = children_of bs2 a) as -> by (unfold children_of; rewrite (B3 a Ha); reflexivity). rewrite (proj2 (C2 a Ha)).
    unfold bs1. rewrite block_at_clear. cbn [clear_dom idom]. split.
    + intros (A & B & C). split; [lia|]. split; [apply node_reachable, up_node; lia|exact B].
    + intros (A & B & C). pose proof (reachable_range cfg b Hnb B). split; [lia|]. split; [exact C|]. intros E. destruct (dm_idoms _ _ M) as (_ & _ & HI). destruct (HI b B A) as [_ Hr]. rewrite C, E in Hr. lia.
  - intros a Ha. destruct (F3 a Ha) as [F N]. split; [exact N|]. intros b. rewrite F. unfold recorded, passed. rewrite N2. split.
    + intros (Rb & H2 & Nb & p & Hp & Np & Ht & Hnt). apply node_reachable in Nb, Np. pose proof (reachable_up b Nb) as Ru. rewrite I2 in Hnt by lia.
      rewrite (proj2 (proj2 S2 b ltac:(lia))) in H2. split; [exact Nb|]. split; [exact H2|]. exists p. split; [exact (HP b p Hp Rb)|]. split; [exact Np|]. split; [apply HT; assumption|].
      intros Hd. apply Hnt. apply HT; [|exact Hd]. apply node_reachable, (it_up_any b Nb).
    + intros (Rb & H2 & p & He & Rp & Hd & Hnd). pose proof (reachable_range cfg b Hnb Rb) as Rg. split; [exact Rg|]. rewrite (proj2 (proj2 S2 b ltac:(lia))).
      split; [exact H2|]. split; [apply node_reachable; exact Rb|]. exists p. split; [apply (proj1 (dm_wf _ _ M) b p Rg); exact He|]. split; [apply node_reachable; exact Rp|].
      split; [apply HT; assumption|]. rewrite I2 by lia. intros Ht. apply Hnd. apply HT; [|exact Ht]. apply node_reachable, (it_up_any b Rb).
Qed.
End Frontiers.

Lemma dominated_after cfg c : wf_cfg cfg -> 1 <= num_blocks cfg -> (forall b, 0 <= b < num_blocks cfg -> idom (block_at (blocks cfg) b) = -1) ->
  tcc_ir_cfg_compute_dominators cfg = Some c -> same_graph cfg c /\ exists rank, dominated c rank.
Proof.
  intros W Hnb Hi E. destruct (compute_dominators_spec cfg W Hnb) as (c' & rank & E' & S & R & OK & _ & U). rewrite E in E'. injection E' as <-.
  split; [exact S|]. exists rank. pose proof (same_num_blocks _ _ S) as N. constructor; [lia|exact (same_wf _ _ S W)|exact R|exact OK|].
  intros b Hb Hn. rewrite N in Hb. rewrite U, (Hi b Hb); [lia|lia|]. intros Hr. apply Hn. exact (proj1 (same_walk cfg c _ 0 b S) Hr).
Qed.

(** ** The claims *)

(** C21: The frontiers and children [tcc_ir_cfg_compute_dom_frontiers] stores on a
    fresh graph with dominators are the ones of the definition, for every block
    but the entry: [b] is recorded at [a], once, exactly when [a] dominates a
    reachable predecessor of [b] and does not strictly dominate [b]; the
    children of [a] are the blocks whose immediate dominator is [a].  The marks
    that cut a runner short lose nothing. *)
Theorem frontiers_exact cfg c : wf_cfg cfg -> 1 <= num_blocks cfg -> (forall b, 0 <= b < num_blocks cfg -> idom (block_at (blocks cfg) b) = -1) ->
  tcc_ir_cfg_compute_dominators cfg = Some c ->
  let fr a := dom_frontier (block_at (blocks (tcc_ir_cfg_compute_dom_frontiers c)) a) in
  let ch a := dom_children (block_at (blocks (tcc_ir_cfg_compute_dom_frontiers c)) a) in
  forall a, 0 <= a -> NoDup (fr a) /\
    (forall b, b <> 0 -> b ∈ fr a <->
       reachable cfg b /\ (exists p, edge cfg p b /\ reachable cfg p /\ dom (edge cfg) 0 a p) /\ ~ (dom (edge cfg) 0 a b /\ a <> b)) /\
    forall b, b ∈ ch a <-> b <> 0 /\ reachable cfg b /\ idom (block_at (blocks c) b) = a.
Proof.
  intros W Hnb Hi E fr ch a Ha. destruct (dominated_after cfg c W Hnb Hi E) as [S [rank M]]. destruct (frontiers_spec c rank M) as (_ & _ & HC & HF). destruct (HF a Ha) as [HN HD].
  assert (forall b, reachable cfg b <-> reachable c b) as HR by (intros b; exact (same_walk cfg c _ 0 b S)).
  split; [exact HN|]. split; [|intros b; rewrite HR; exact (HC a b Ha)]. intros b Hb. unfold fr. fold (df_of (blocks (tcc_ir_cfg_compute_dom_frontiers c)) a). rewrite HD, HR.
  destruct (dm_idoms _ _ M) as (_ & _ & HI). split.
  - intros (Rb & _ & p & He & Rp & Hd & Hn). split; [exact Rb|]. split; [exists p; rewrite (same_edge cfg c p b S), HR, (same_dom cfg c a p S); auto|].
    rewrite (same_dom cfg c a b S). intros Hs. apply Hn. apply (proj2 (proj1 (HI b Rb Hb)) a). exact Hs.
  - intros (Rb & (p & He & Rp & Hd) & Hn). rewrite (same_edge cfg c p b S) in He. rewrite HR in Rp. rewrite (same_dom cfg c a p S) in Hd. rewrite (same_dom cfg c a b S) in Hn.
    assert (~ dom (edge c) 0 a (idom (block_at (blocks c) b))) as Hu by (intros Hu; apply Hn; apply (proj2 (proj1 (HI b Rb Hb)) a); exact Hu).
    split; [exact Rb|]. split; [|exists p; auto]. destruct (Z.le_gt_cases 2 (num_preds (block_at (blocks c) b))) as [H2|H2]; [exact H2|].
    exfalso. apply Hu. exact (single_pred c rank M a b p Hb Rb H2 He Hd).
Qed.

(** The entry block is recorded in fewer frontiers than the definition
    says: it is never in its own, and in no frontier at all when it has one
    predecessor, although a loop back to the entry makes it a join. *)
Theorem entry_frontier cfg c : wf_cfg cfg -> 1 <= num_blocks cfg -> (forall b, 0 <= b < num_blocks cfg -> idom (block_at (blocks cfg) b) = -1) ->
  tcc_ir_cfg_compute_dominators cfg = Some c ->
  forall a, 0 <= a -> 0 ∈ dom_frontier (block_at (blocks (tcc_ir_cfg_compute_dom_frontiers c)) a) <->
    a <> 0 /\ 2 <= num_preds (block_at (blocks cfg) 0) /\ exists p, edge cfg p 0 /\ reachable cfg p /\ dom (edge cfg) 0 a p.
Proof.
  intros W Hnb Hi E a Ha. destruct (dominated_after cfg c W Hnb Hi E) as [S [rank M]]. destruct (frontiers_spec c rank M) as (_ & _ & _ & HF).
  destruct (HF a Ha) as [_ HD]. fold (df_of (blocks (tcc_ir_cfg_compute_dom_frontiers c)) a). rewrite HD. destruct (dm_idoms _ _ M) as (H0 & _ & _). rewrite H0.
  assert (num_preds (block_at (blocks c) 0) = num_preds (block_at (blocks cfg) 0)) as -> by (unfold num_preds; rewrite (proj2 (proj2 S 0 ltac:(lia))); reflexivity).
  assert (dom (edge c) 0 a 0 <-> a = 0) as Hz by (split; [intros H; destruct (Z.eq_dec a 0) as [|Hne]; [assumption|]; exfalso; apply H, walk_refl; congruence|intros ->; apply dom_refl]).
  setoid_rewrite Hz. split.
  - intros (_ & H2 & p & He & Rp & Hd & Hn). split; [exact Hn|]. split; [exact H2|]. exists p. rewrite (same_edge cfg c p 0 S), (same_dom cfg c a p S). split; [exact He|].
    split; [exact (proj2 (same_walk cfg c _ 0 p S) Rp)|exact Hd].
  - intros (Hn & H2 & p & He & Rp & Hd). rewrite (same_edge cfg c p 0 S) in He. rewrite (same_dom cfg c a p S) in Hd. split; [apply walk_refl; exact I|]. split; [exact H2|].
    exists p. split; [exact He|]. split; [exact (proj1 (same_walk cfg c _ 0 p S) Rp)|auto].
Qed.

(** ** Examples *)

Lemma fresh_idoms cfg : forallb (fun b => idom (block_at (blocks cfg) b) =? -1) (seqZ 0 (num_blocks cfg)) = true ->
  forall b, 0 <= b < num_blocks cfg -> idom (block_at (blocks cfg) b) = -1.
Proof. intros H b Hb. rewrite forallb_forall in H. apply Z.eqb_eq, H, list_elem_of_In, elem_of_seqZ. lia. Qed.

(** The join of the diamond is in the frontier of its arm, not of the branch. *)
Lemma frontiers_exact_witness :
  dom_frontier (block_at (blocks (tcc_ir_cfg_compute_dom_frontiers loop_doms)) 3) = [5] /\
  (exists p, edge loop_cfg p 5 /\ reachable loop_cfg p /\ dom (edge loop_cfg) 0 3 p) /\ ~ (dom (edge loop_cfg) 0 3 5 /\ 3 <> 5).
Proof.
  assert (dom_frontier (block_at (blocks (tcc_ir_cfg_compute_dom_frontiers loop_doms)) 3) = [5]) as F by (vm_compute; reflexivity). split; [exact F|].
  assert (forall b, 0 <= b < num_blocks loop_cfg -> idom (block_at (blocks loop_cfg) b) = -1) as Hi by (apply fresh_idoms; vm_compute; reflexivity).
  destruct (frontiers_exact loop_cfg loop_doms loop_wf ltac:(vm_compute; discriminate) Hi ltac:(vm_compute; reflexivity) 3 ltac:(lia)) as (_ & H & _).
  destruct (proj1 (H 5 ltac:(lia))) as (_ & H1 & H2); [rewrite F; left|]. split; [exact H1|exact H2].
Defined.

(** 0: work; 1: if -> 0; 2: if -> 0; 3: ret.  The loops go back to the entry. *)
Definition entry_loop_ir : TCCIRState := {| compact_instructions := [work; jumpif 0; jumpif 0; ret]; switch_tables := [] |}.
Definition entry_loop_cfg : IRCFG := match tcc_ir_cfg_build (2 ^ 31 - 1) (2 ^ 31 - 1) entry_loop_ir with BuildOk c => c | _ => cfg_shape entry_loop_ir end.
Definition entry_loop_doms : IRCFG := match tcc_ir_cfg_compute_dominators entry_loop_cfg with Some c => c | None => entry_loop_cfg end.

(** The entry is a join of its own loop, and is not in its own frontier. *)
Lemma entry_frontier_witness :
  num_preds (block_at (blocks entry_loop_cfg) 0) = 2 /\ edge entry_loop_cfg 0 0 /\
  ~ 0 ∈ dom_frontier (block_at (blocks (tcc_ir_cfg_compute_dom_frontiers entry_loop_doms)) 0).
Proof.
  assert (wf_cfg entry_loop_cfg) as W by (apply wf_cfgb_ok; vm_compute; reflexivity).
  assert (forall b, 0 <= b < num_blocks entry_loop_cfg -> idom (block_at (blocks entry_loop_cfg) b) = -1) as Hi by (apply fresh_idoms; vm_compute; reflexivity).
  split; [vm_compute; reflexivity|]. split; [split; [vm_compute; intuition congruence|]; split; [vm_compute; intuition congruence|]; apply list_elem_of_In; vm_compute; auto|].
  intros H. apply (entry_frontier entry_loop_cfg entry_loop_doms W ltac:(vm_compute; discriminate) Hi ltac:(vm_compute; reflexivity) 0 ltac:(lia)) in H. lia.
Defined.
