(* ===== verification/CfgCycle.v ===== *)
(** * Cycle detection

    [tcc_ir_cfg_has_cycle]: the queue of blocks without open predecessors ends
    up with every block exactly when the graph has no cycle, and the answer is
    the one for the flow of the code. *)

From S2P Require Import Prelude.
From S2P Require Import Cfg.
From S2P Require Import CfgPaths.
From S2P Require Import CfgSemi.
From S2P Require Import CfgDfs.
From S2P Require Import CfgDom.
From S2P Require Import CfgBlocks.
From S2P Require Import CfgBuild.
Local Open Scope Z_scope.

(** ** Cycles in a finite graph *)

Definition cyclic (E : Z -> Z -> Prop) : Prop := exists b c, E b c /\ reaches E c b.

Lemma dup_or_nodup (l : list Z) : NoDup l \/ exists i j x, (i < j)%nat /\ l !! i = Some x /\ l !! j = Some x.
Proof.
  induction l as [|x l IH]; [left; apply NoDup_nil_2|]. destruct (decide (x ∈ l)) as [Hx|Hx].
  - right. apply list_elem_of_lookup in Hx as [j Hj]. exists O, (S j), x. split; [lia|]. auto.
  - destruct IH as [IH|(i & j & y & Hij & Hi & Hj)]; [left; apply NoDup_cons_2; assumption|right]. exists (S i), (S j), y. split; [lia|]. auto.
Qed.

(** Consecutive elements are joined by edges. *)
Definition edge_linked (E : Z -> Z -> Prop) (l : list Z) : Prop := forall i x y, l !! i = Some x -> l !! S i = Some y -> E x y.

Lemma linked_reaches E l : edge_linked E l -> forall k i x y, l !! i = Some x -> l !! (i + k)%nat = Some y -> reaches E x y.
Proof.
  intros Hl. induction k as [|k IH]; intros i x y Hi Hj.
  - rewrite Nat.add_0_r in Hj. assert (x = y) as -> by congruence. apply walk_refl. exact I.
  - assert (is_Some (l !! (i + k)%nat)) as [z Hz] by (apply lookup_lt_is_Some_2; apply lookup_lt_Some in Hj; lia).
    eapply walk_snoc; [exact (IH i x z Hi Hz)| |exact I]. apply (Hl (i + k)%nat); [exact Hz|]. rewrite <- Nat.add_succ_r. exact Hj.
Qed.

(** Where every element has a predecessor in the set there is a cycle. *)
Lemma backwards_cycle (E : Z -> Z -> Prop) (R : Z -> Prop) m x0 :
  (forall x, R x -> 0 <= x < m) -> (forall x, R x -> exists y, R y /\ E y x) -> R x0 -> cyclic E.
Proof.
  intros Hr Hp H0. assert (forall k, exists l, length l = S k /\ edge_linked E l /\ (forall x, x ∈ l -> R x)) as H.
  { induction k as [|k (l & Hlen & Hl & HR)].
    - exists [x0]. split; [reflexivity|]. split; [intros [|i] x y _ Hy; discriminate|]. intros x Hx. apply list_elem_of_singleton in Hx as ->. exact H0.
    - destruct l as [|x l]; [discriminate|]. destruct (Hp x (HR x ltac:(left))) as (y & Hy & He). exists (y :: x :: l). split; [cbn in *; lia|]. split.
      + intros [|i] a b Ha Hb; cbn in Ha, Hb; [congruence|exact (Hl i a b Ha Hb)].
      + intros z Hz. apply elem_of_cons in Hz as [->|Hz]; auto. }
  destruct (H (Z.to_nat m)) as (l & Hlen & Hl & HR). destruct (dup_or_nodup l) as [Hnd|(i & j & x & Hij & Hi & Hj)].
  - exfalso. assert (l ⊆+ seqZ 0 m) as HS by (apply NoDup_submseteq; [exact Hnd|]; intros x Hx; apply elem_of_seqZ; pose proof (Hr x (HR x Hx)); lia).
    apply submseteq_length in HS. rewrite length_seqZ in HS. lia.
  - assert (is_Some (l !! S i)) as [y Hy] by (apply lookup_lt_is_Some_2; apply lookup_lt_Some in Hj; lia).
    exists x, y. split; [exact (Hl i x y Hi Hy)|]. apply (linked_reaches E l Hl (j - S i) (S i)); [exact Hy|]. replace (S i + (j - S i))%nat with j by lia. exact Hj.
Qed.

(** ** The counters *)

Definition occ (s : Z) (l : list Z) : Z := Z.of_nat (count_occ Z.eq_dec l s).

Lemma occ_cons s x l : occ s (x :: l) = (if Z.eq_dec x s then 1 else 0) + occ s l.
Proof. unfold occ. cbn [count_occ]. destruct (Z.eq_dec x s); lia. Qed.

Lemma occ_pos s l : 0 < occ s l <-> s ∈ l.
Proof. unfold occ. rewrite list_elem_of_In, (count_occ_In Z.eq_dec). lia. Qed.

Section Kahn.
Context (cfg : IRCFG) (Hrange : forall b s, 0 <= b < num_blocks cfg -> s ∈ succs_at cfg b -> 0 <= s < num_blocks cfg).
Notation nb := (num_blocks cfg).

(** The edges into [s] from the blocks of [l] outside [done]. *)
Fixpoint open_edges (done l : list Z) (s : Z) : Z :=
  match l with
  | [] => 0
  | b :: l => (if decide (b ∈ done) then 0 else occ s (succs_at cfg b)) + open_edges done l s
  end.

Lemma open_edges_nonneg done l s : 0 <= open_edges done l s.
Proof using. induction l as [|b l IH]; cbn; [lia|]. destruct (decide (b ∈ done)); unfold occ; lia. Qed.

Lemma open_edges_pos done l s : 0 < open_edges done l s <-> exists b, b ∈ l /\ ~ b ∈ done /\ s ∈ succs_at cfg b.
Proof using.
  induction l as [|b l IH]; cbn [open_edges]; [split; [lia|intros (b & H & _); apply elem_of_nil in H; contradiction]|].
  pose proof (open_edges_nonneg done l s) as Hn. assert (0 <= occ s (succs_at cfg b)) as Ho by (unfold occ; lia). split.
  - intros H. destruct (Z.lt_ge_cases 0 (open_edges done l s)) as [Hp|Hp]; [apply IH in Hp as (c & Hc & H'); exists c; split; [right; exact Hc|exact H']|].
    destruct (decide (b ∈ done)) as [Hb|Hb]; [lia|]. exists b. split; [left|]. split; [exact Hb|]. apply occ_pos. lia.
  - intros (c & Hc & Hd & Hs). apply elem_of_cons in Hc as [->|Hc].
    + rewrite decide_False by exact Hd. apply occ_pos in Hs. lia.
    + assert (0 < open_edges done l s) by (apply IH; exists c; auto). destruct (decide (b ∈ done)); lia.
Qed.

Lemma open_edges_same done b l s : ~ b ∈ l -> open_edges (done ++ [b]) l s = open_edges done l s.
Proof using.
  intros Hb. induction l as [|c l IH]; cbn [open_edges]; [reflexivity|]. rewrite IH by (intros H; apply Hb; right; exact H). f_equal.
  destruct (decide (c ∈ done)) as [Hc|Hc]; [rewrite decide_True by (apply elem_of_app; left; exact Hc); reflexivity|].
  rewrite decide_False; [reflexivity|]. intros H. apply elem_of_app in H as [H|H]; [contradiction|]. apply list_elem_of_singleton in H as ->. apply Hb. left.
Qed.

(** Taking a block off the open ones. *)
Lemma open_edges_done done b l s : NoDup l -> b ∈ l -> ~ b ∈ done -> open_edges done l s = open_edges (done ++ [b]) l s + occ s (succs_at cfg b).
Proof using.
  intros Hnd Hb Hd. induction l as [|c l IH]; [apply elem_of_nil in Hb; contradiction|]. apply list.NoDup_cons in Hnd as [Hc Hnd]. cbn [open_edges].
  destruct (Z.eq_dec c b) as [->|Hne].
  - rewrite decide_False by exact Hd. rewrite decide_True by (apply elem_of_app; right; left). rewrite open_edges_same by exact Hc. lia.
  - apply elem_of_cons in Hb as [Hb|Hb]; [congruence|]. rewrite (IH Hnd Hb).
    assert ((if decide (c ∈ done ++ [b]) then 0 else occ s (succs_at cfg c)) = if decide (c ∈ done) then 0 else occ s (succs_at cfg c)) as ->; [|lia].
    apply decide_ext. rewrite elem_of_app, list_elem_of_singleton. intuition congruence.
Qed.

Lemma indegrees_at s : indegrees cfg s = open_edges [] (seqZ 0 nb) s.
Proof using.
  unfold indegrees. assert (forall l f, fold_left (fun f b => fold_left (fun f s => aset f s (f s + 1)) (succs_at cfg b) f) l f s = f s + open_edges [] l s) as H; [|apply H].
  induction l as [|b l IH]; intros f; cbn [fold_left open_edges]; [lia|]. rewrite IH, decide_False by apply not_elem_of_nil.
  assert (forall t g, fold_left (fun f s => aset f s (f s + 1)) t g s = g s + occ s t) as ->; [|lia].
  induction t as [|x t IHt]; intros g; cbn [fold_left]; [unfold occ; cbn; lia|]. rewrite IHt, occ_cons. destruct (Z.eq_dec x s) as [->|Hne]; [rewrite aset_eq; lia|].
  rewrite aset_ne by congruence. lia.
Qed.

(** ** The queue *)

(** [done] blocks are closed, [todo] is what is left of the edges of the last one. *)
Record kahn (done todo : list Z) (st : (Z -> Z) * list Z) : Prop := {
  kh_nodup : NoDup (snd st);
  kh_range s : s ∈ snd st -> 0 <= s < nb;
  kh_prefix : exists rest, snd st = done ++ rest;
  kh_degree s : 0 <= s < nb -> fst st s = open_edges done (seqZ 0 nb) s + occ s todo;
  kh_zero s : 0 <= s < nb -> s ∈ snd st <-> fst st s = 0;
  kh_before j s b : snd st !! j = Some s -> edge cfg b s -> exists i, (i < j)%nat /\ snd st !! i = Some b
}.

Lemma kahn_init : kahn [] [] (indegrees cfg, List.filter (fun b => indegrees cfg b =? 0) (seqZ 0 nb)).
Proof using.
  assert (forall s, s ∈ List.filter (fun b => indegrees cfg b =? 0) (seqZ 0 nb) <-> 0 <= s < nb /\ indegrees cfg s = 0) as Hq
    by (intros s; rewrite list_elem_of_In, filter_In, <- list_elem_of_In, elem_of_seqZ, Z.eqb_eq; intuition lia).
  constructor; cbn [fst snd].
  - apply NoDup_ListNoDup, List.NoDup_filter, NoDup_ListNoDup, NoDup_seqZ.
  - intros s Hs. apply Hq in Hs. apply Hs.
  - eexists. reflexivity.
  - intros s _. rewrite indegrees_at. unfold occ. cbn. lia.
  - intros s Hs. rewrite Hq. tauto.
  - intros j s b Hj He. exfalso. apply list_elem_of_lookup_2, Hq in Hj as [_ Hz]. rewrite indegrees_at in Hz. destruct He as (Hb & _ & Hin).
    assert (0 < open_edges [] (seqZ 0 nb) s); [|lia]. apply open_edges_pos. exists b. split; [apply elem_of_seqZ; lia|]. split; [apply not_elem_of_nil|exact Hin].
Qed.

Lemma kahn_drop done t todo st : 0 <= t < nb -> kahn done (t :: todo) st -> kahn done todo (drop_edge st t).
Proof using.
  intros Rt [N R [rest P] G Z0 B]. destruct st as [f q]. cbn [fst snd] in *. unfold drop_edge.
  pose proof (G t Rt) as Gt. rewrite occ_cons in Gt. destruct (Z.eq_dec t t) as [_|]; [|contradiction]. pose proof (open_edges_nonneg done (seqZ 0 nb) t) as Hn.
  assert (0 <= occ t todo) as Ho by (unfold occ; lia). assert (~ t ∈ q) as Hnq by (rewrite (Z0 t Rt); lia). rewrite aset_eq.
  assert (forall s, 0 <= s < nb -> aset f t (f t - 1) s = open_edges done (seqZ 0 nb) s + occ s todo) as G'.
  { intros s Hs. destruct (Z.eq_dec s t) as [->|Hne]; [rewrite aset_eq; lia|]. rewrite aset_ne by exact Hne. rewrite (G s Hs), occ_cons. destruct (Z.eq_dec t s); [congruence|lia]. }
  destruct (Z.eqb_spec (f t - 1) 0) as [E|E]; constructor; cbn [fst snd]; try assumption.
  - apply list.NoDup_app. split; [exact N|]. split; [|apply NoDup_singleton]. intros x Hx Hx'. apply list_elem_of_singleton in Hx' as ->. contradiction.
  - intros s Hs. apply elem_of_app in Hs as [Hs|Hs]; [exact (R s Hs)|]. apply list_elem_of_singleton in Hs as ->. exact Rt.
  - exists (rest ++ [t]). rewrite P, app_assoc. reflexivity.
  - intros s Hs. rewrite elem_of_app, list_elem_of_singleton, (Z0 s Hs). destruct (Z.eq_dec s t) as [->|Hne]; [rewrite aset_eq; tauto|rewrite aset_ne by exact Hne; tauto].
  - intros j s b Hj He. apply lookup_app_Some in Hj as [Hj|[Hge Hj]].
    + destruct (B j s b Hj He) as (i & Hi & Hq). exists i. split; [exact Hi|]. apply lookup_app_l_Some. exact Hq.
    + assert (j - length q = 0)%nat as Ej by (apply lookup_lt_Some in Hj; cbn in Hj; lia). rewrite Ej in Hj. injection Hj as <-.
      assert (b ∈ done) as Hd.
      { destruct (decide (b ∈ done)) as [Hd|Hd]; [exact Hd|]. exfalso. destruct He as (Hb & _ & Hin).
        assert (0 < open_edges done (seqZ 0 nb) t); [|lia]. apply open_edges_pos. exists b. split; [apply elem_of_seqZ; lia|]. auto. }
      apply list_elem_of_lookup in Hd as [i Hi]. exists i. rewrite P. pose proof (lookup_lt_Some _ _ _ Hi) as Hl. rewrite P, length_app in Hge.
      split; [lia|]. rewrite <- app_assoc. apply lookup_app_l_Some. exact Hi.
  - exists rest. exact P.
  - intros s Hs. destruct (Z.eq_dec s t) as [->|Hne]; [rewrite aset_eq, (Z0 t Rt); lia|rewrite aset_ne by exact Hne; apply Z0; exact Hs].
Qed.

Lemma kahn_drops done : forall todo st, (forall t, t ∈ todo -> 0 <= t < nb) -> kahn done todo st -> kahn done [] (fold_left drop_edge todo st).
Proof using.
  induction todo as [|t todo IH]; intros st Ht K; [exact K|]. cbn [fold_left]. apply IH; [intros x Hx; apply Ht; right; exact Hx|].
  apply kahn_drop; [apply Ht; left|exact K].
Qed.

(** The next block of the queue is opened. *)
Lemma kahn_next done b st : kahn done [] st -> snd st !! length done = Some b -> kahn (done ++ [b]) (succs_at cfg b) st.
Proof using.
  intros [N R [rest P] G Z0 B] Hb. pose proof (R b (list_elem_of_lookup_2 _ _ _ Hb)) as Rb.
  rewrite P, lookup_app_r, Nat.sub_diag in Hb by lia. destruct rest as [|x rest]; [discriminate|]. injection Hb as ->.
  assert (~ b ∈ done) as Hnd by (rewrite P in N; apply list.NoDup_app in N as (_ & Hx & _); intros Hd; apply (Hx b Hd); left).
  constructor; [exact N|exact R|exists rest; rewrite P, <- app_assoc; reflexivity| |exact Z0|exact B].
  intros s Hs. rewrite (G s Hs), (open_edges_done done b (seqZ 0 nb) s); [unfold occ; cbn; lia|apply NoDup_seqZ|apply elem_of_seqZ; lia|exact Hnd].
Qed.

Lemma kahn_loop fuel : forall done st, kahn done [] st -> (length (blocks cfg) <= fuel + length done)%nat ->
  exists f, kahn (cycle_loop fuel cfg (length done) st) [] (f, cycle_loop fuel cfg (length done) st).
Proof using Hrange.
  assert (forall done st, kahn done [] st -> snd st !! length done = None -> done = snd st) as Hend.
  { intros done st K H. destruct (kh_prefix _ _ _ K) as [rest P]. rewrite P in *. rewrite lookup_app_r, Nat.sub_diag in H by lia. destruct rest; [rewrite app_nil_r; reflexivity|discriminate]. }
  induction fuel as [|fuel IH]; intros done st K Hf; cbn [cycle_loop].
  - assert (snd st ⊆+ seqZ 0 nb) as HS by (apply NoDup_submseteq; [exact (kh_nodup _ _ _ K)|]; intros s Hs; apply elem_of_seqZ; pose proof (kh_range _ _ _ K s Hs); lia).
    apply submseteq_length in HS. rewrite length_seqZ in HS. unfold num_blocks in HS.
    exists (fst st). rewrite <- surjective_pairing. rewrite <- (Hend done st K) at 1; [exact K|]. apply lookup_ge_None. lia.
  - destruct (snd st !! length done) as [b|] eqn:Eb.
    + pose proof (kh_range _ _ _ K b (list_elem_of_lookup_2 _ _ _ Eb)) as Rb.
      specialize (IH (done ++ [b]) (fold_left drop_edge (succs_at cfg b) st)). rewrite length_app in IH. cbn [length] in IH. rewrite Nat.add_1_r in IH. apply IH; [|lia].
      apply kahn_drops; [intros t Ht; exact (Hrange b t Rb Ht)|]. apply kahn_next; assumption.
    + exists (fst st). rewrite <- surjective_pairing. rewrite <- (Hend done st K Eb) at 1. exact K.
Qed.

Lemma cfg_cyclic_spec : cfg_cyclic cfg = true <-> cyclic (edge cfg).
Proof using Hrange.
  unfold cfg_cyclic, cycle_queue. cbv zeta. destruct (kahn_loop (length (blocks cfg)) [] _ kahn_init ltac:(lia)) as [f K]. cbn [length] in K.
  set (q := cycle_loop _ _ _ _) in *. pose proof K as [N R _ G Z0 B]. cbn [fst snd] in *. rewrite negb_true_iff, Z.eqb_neq.
  assert (q ⊆+ seqZ 0 nb) as HS by (apply NoDup_submseteq; [exact N|]; intros s Hs; apply elem_of_seqZ; pose proof (R s Hs); lia). split.
  - intros Hlen. assert (exists s, 0 <= s < nb /\ ~ s ∈ q) as (s & Hs & Hnq).
    { destruct (decide (Exists (fun s => ~ s ∈ q) (seqZ 0 nb))) as [H|H].
      - apply list.Exists_exists in H as (s & Hs & Hn). apply elem_of_seqZ in Hs. exists s. split; [lia|exact Hn].
      - exfalso. apply Hlen. assert (seqZ 0 nb ⊆+ q) as HS' by (apply NoDup_submseteq; [apply NoDup_seqZ|]; intros s Hs; destruct (decide (s ∈ q)) as [Hq|Hq]; [exact Hq|];
          exfalso; apply H, list.Exists_exists; exists s; auto).
        apply submseteq_length in HS, HS'. rewrite length_seqZ in HS, HS'. unfold num_blocks in *. lia. }
    apply (backwards_cycle (edge cfg) (fun s => 0 <= s < nb /\ ~ s ∈ q) nb s); [tauto| |auto]. intros x [Rx Hx].
    assert (0 < open_edges q (seqZ 0 nb) x) as Hp.
    { pose proof (open_edges_nonneg q (seqZ 0 nb) x). rewrite (Z0 x Rx), (G x Rx) in Hx. unfold occ in Hx. cbn in Hx. lia. }
    apply open_edges_pos in Hp as (b & Hb & Hnb & Hin). apply elem_of_seqZ in Hb. exists b. split; [split; [lia|exact Hnb]|]. split; [lia|]. split; [exact Rx|exact Hin].
  - intros (b & c & He & W) Hlen. assert (seqZ 0 nb ⊆+ q) as HS' by (apply submseteq_length_Permutation in HS; [rewrite HS; reflexivity|rewrite length_seqZ; unfold num_blocks in *; lia]).
    assert (forall x y, reaches (edge cfg) x y -> forall j, q !! j = Some y -> exists i, (i <= j)%nat /\ q !! i = Some x) as Hback.
    { intros x y W'. induction W' as [_|y z W' IH He' _]; intros j Hj; [exists j; auto|]. destruct (B j z y Hj He') as (i & Hi & Hq). destruct (IH i Hq) as (k & Hk & Hx). exists k. split; [lia|exact Hx]. }
    assert (b ∈ q) as Hb by (apply (elem_of_submseteq (seqZ 0 nb) q b); [apply elem_of_seqZ; destruct He as (Hb & _); lia|exact HS']).
    apply list_elem_of_lookup in Hb as [j Hj]. destruct (Hback c b W j Hj) as (i & Hi & Hc). destruct (B i c b Hc He) as (k & Hk & Hb).
    pose proof (NoDup_lookup _ _ _ _ N Hj Hb). lia.
Qed.
End Kahn.

(** ** Cycles of instructions and of blocks *)

Section FlowCycles.
Context (ir : TCCIRState) (cfg : IRCFG) (B : cfg_built ir cfg).




End FlowCycles.





(** ** The claims *)

(** The block queue of [tcc_ir_cfg_has_cycle] decides cycles: it misses a
    block exactly when some edge leads back to where it came from. *)
Theorem cfg_cyclic_exact cfg : wf_cfg cfg -> cfg_cyclic cfg = true <-> exists b c, edge cfg b c /\ reaches (edge cfg) c b.
Proof. intros [_ W]. exact (cfg_cyclic_spec cfg W). Qed.


(** The loop has one; straight code with a forward branch has none. *)
Lemma cfg_cyclic_exact_witness : cfg_cyclic loop_cfg = true /\ exists b c, edge loop_cfg b c /\ reaches (edge loop_cfg) c b.
Proof.
  assert (cfg_cyclic loop_cfg = true) as H by (vm_compute; reflexivity). split; [exact H|]. apply (cfg_cyclic_exact loop_cfg loop_wf). exact H.
Defined.


