(* ===== verification/Aapcs.v ===== *)
(** * Argument passing

    [src/source/backend/arch/arm/arm_aapcs.c]: where each argument of a call
    goes, the layout of a whole call in [arm-thumb-gen.c], and the register moves
    that drop a hidden result pointer in [ir/gen/params.c].  An [int] is a [Z]. *)

From S2P Require Import Prelude.
Local Open Scope Z_scope.
Local Open Scope c_scope.

Inductive TCCAbiArgKind := TCC_ABI_ARG_SCALAR32 | TCC_ABI_ARG_SCALAR64 | TCC_ABI_ARG_STRUCT_BYVAL.

Record TCCAbiArgDesc := {
  ad_kind : TCCAbiArgKind; ad_size : Z; ad_alignment : Z; ad_is_float : bool; ad_hfa_count : Z; ad_hfa_base : Z
}.

Inductive TCCAbiLocKind := TCC_ABI_LOC_REG | TCC_ABI_LOC_STACK | TCC_ABI_LOC_REG_STACK | TCC_ABI_LOC_VFP_REG.

Record TCCAbiArgLoc := {
  al_kind : TCCAbiLocKind; al_reg_base : Z; al_reg_count : Z; al_stack_off : Z; al_size : Z; al_stack_size : Z
}.

(** The arrays of the layout, which the classification does not touch, are in [abi_arrays] below. *)
Record TCCAbiCallLayout := {
  cl_argc : Z; cl_capacity : Z; cl_next_reg : Z; cl_next_stack_off : Z; cl_vfp_used : Z; cl_vfp_exhausted : bool;
  cl_hard_float : bool; cl_is_variadic : bool; cl_stack_size : Z; cl_stack_align : Z
}.

Definition tcc_abi_align_up_int (v align : Z) : Z := (v + align - 1) &&& Z.lnot (align - 1).

(** ** The core registers and the stack *)

Definition with_regs (l : TCCAbiCallLayout) (next_reg next_stack_off : Z) : TCCAbiCallLayout :=
  {| cl_argc := cl_argc l; cl_capacity := cl_capacity l; cl_next_reg := next_reg; cl_next_stack_off := next_stack_off; cl_vfp_used := cl_vfp_used l;
     cl_vfp_exhausted := cl_vfp_exhausted l; cl_hard_float := cl_hard_float l; cl_is_variadic := cl_is_variadic l; cl_stack_size := cl_stack_size l; cl_stack_align := cl_stack_align l |}.

Definition with_vfp (l : TCCAbiCallLayout) (used : Z) (exhausted : bool) : TCCAbiCallLayout :=
  {| cl_argc := cl_argc l; cl_capacity := cl_capacity l; cl_next_reg := cl_next_reg l; cl_next_stack_off := cl_next_stack_off l; cl_vfp_used := used;
     cl_vfp_exhausted := exhausted; cl_hard_float := cl_hard_float l; cl_is_variadic := cl_is_variadic l; cl_stack_size := cl_stack_size l; cl_stack_align := cl_stack_align l |}.

Definition with_bookkeeping (l : TCCAbiCallLayout) (argc capacity stack_align : Z) : TCCAbiCallLayout :=
  {| cl_argc := argc; cl_capacity := capacity; cl_next_reg := cl_next_reg l; cl_next_stack_off := cl_next_stack_off l; cl_vfp_used := cl_vfp_used l;
     cl_vfp_exhausted := cl_vfp_exhausted l; cl_hard_float := cl_hard_float l; cl_is_variadic := cl_is_variadic l; cl_stack_size := cl_stack_size l; cl_stack_align := stack_align |}.

(** [layout->stack_size = tcc_abi_align_up_int(next_stack_off, stack_align ? stack_align : 8)] *)
Definition with_stack_size (l : TCCAbiCallLayout) : TCCAbiCallLayout :=
  {| cl_argc := cl_argc l; cl_capacity := cl_capacity l; cl_next_reg := cl_next_reg l; cl_next_stack_off := cl_next_stack_off l; cl_vfp_used := cl_vfp_used l;
     cl_vfp_exhausted := cl_vfp_exhausted l; cl_hard_float := cl_hard_float l; cl_is_variadic := cl_is_variadic l;
     cl_stack_size := tcc_abi_align_up_int (cl_next_stack_off l) (if truth (cl_stack_align l) then cl_stack_align l else 8);
     cl_stack_align := cl_stack_align l |}.

Definition loc_reg (size base count : Z) : TCCAbiArgLoc :=
  {| al_kind := TCC_ABI_LOC_REG; al_reg_base := base; al_reg_count := count; al_stack_off := 0; al_size := size; al_stack_size := 0 |}.
Definition loc_stack (size off : Z) : TCCAbiArgLoc :=
  {| al_kind := TCC_ABI_LOC_STACK; al_reg_base := 0; al_reg_count := 0; al_stack_off := off; al_size := size; al_stack_size := 0 |}.
Definition loc_split (size base count off bytes : Z) : TCCAbiArgLoc :=
  {| al_kind := TCC_ABI_LOC_REG_STACK; al_reg_base := base; al_reg_count := count; al_stack_off := off; al_size := size; al_stack_size := bytes |}.
Definition loc_vfp (size base count : Z) : TCCAbiArgLoc :=
  {| al_kind := TCC_ABI_LOC_VFP_REG; al_reg_base := base; al_reg_count := count; al_stack_off := 0; al_size := size; al_stack_size := 0 |}.

(** [while (new_cap < needed) new_cap *= 2;] *)
Fixpoint double_until (fuel : nat) (cap needed : Z) : Z :=
  match fuel with O => cap | S fuel => if cap <? needed then double_until fuel (cap * 2) needed else cap end.

Definition new_capacity (capacity needed : Z) : Z :=
  double_until (Z.to_nat needed) (if truth capacity then capacity else 8) needed.

(** The search for a run of free s-registers. *)
Definition vfp_mask (slots cand : Z) : Z := shl32 (u32 (shl32 1 slots - 1)) cand.

Fixpoint vfp_search (fuel : nat) (used slots step cand : Z) : option Z :=
  match fuel with
  | O => None
  | S fuel =>
      if cand + slots <=? 16 then
        if (used &&& vfp_mask slots cand) =? 0 then Some cand else vfp_search fuel used slots step (cand + step)
      else None
  end.

Definition classify_vfp (l : TCCAbiCallLayout) (size align count base_size : Z) : TCCAbiArgLoc * TCCAbiCallLayout :=
  let step := base_size / 4 in
  let slots := count * step in
  let '(base, l) :=
    if cl_vfp_exhausted l then (None, l)
    else
      match vfp_search 16 (cl_vfp_used l) slots step 0 with
      | Some cand => (Some cand, with_vfp l (cl_vfp_used l ||| u16 (vfp_mask slots cand)) false)
      | None => (None, with_vfp l (cl_vfp_used l) true)
      end in
  match base with
  | Some base => (loc_vfp size (u8 base) (u8 slots), l)
  | None =>
      let off := tcc_abi_align_up_int (cl_next_stack_off l) (if 8 <? align then 8 else align) in
      (loc_stack size off, with_regs l (cl_next_reg l) (off + tcc_abi_align_up_int size 4))
  end.

Definition classify_scalar64 (l : TCCAbiCallLayout) (size : Z) : TCCAbiArgLoc * TCCAbiCallLayout :=
  let next_reg := if truth (cl_next_reg l &&& 1) then u8 (cl_next_reg l + 1) else cl_next_reg l in
  if next_reg <=? 2 then (loc_reg size next_reg 2, with_regs l (u8 (next_reg + 2)) (cl_next_stack_off l))
  else
    let off := tcc_abi_align_up_int (cl_next_stack_off l) 8 in
    (loc_stack size off, with_regs l 4 (off + 8)).

Definition classify_struct (l : TCCAbiCallLayout) (size align : Z) : TCCAbiArgLoc * TCCAbiCallLayout :=
  let slot_sz := tcc_abi_align_up_int size 4 in
  let regs_needed := (slot_sz + 3) / 4 in
  let stack_align := if 8 <? align then 8 else align in
  let next_reg := if (8 <=? align) && truth (cl_next_reg l &&& 1) then u8 (cl_next_reg l + 1) else cl_next_reg l in
  if next_reg + regs_needed <=? 4 then
    (loc_reg size next_reg (u8 regs_needed), with_regs l (u8 (next_reg + regs_needed)) (cl_next_stack_off l))
  else if (next_reg <=? 3) && (cl_next_stack_off l =? 0) then
    let regs_avail := 4 - next_reg in
    let words_on_stack := regs_needed - regs_avail in
    let off := tcc_abi_align_up_int (cl_next_stack_off l) stack_align in
    (loc_split size next_reg (u8 regs_avail) off (u32 (words_on_stack * 4)), with_regs l 4 (off + words_on_stack * 4))
  else
    let off := tcc_abi_align_up_int (cl_next_stack_off l) stack_align in
    (loc_stack size off, with_regs l 4 (off + slot_sz)).

Definition classify_scalar32 (l : TCCAbiCallLayout) (size : Z) : TCCAbiArgLoc * TCCAbiCallLayout :=
  if cl_next_reg l <=? 3 then (loc_reg size (cl_next_reg l) 1, with_regs l (u8 (cl_next_reg l + 1)) (cl_next_stack_off l))
  else
    let off := tcc_abi_align_up_int (cl_next_stack_off l) 4 in
    (loc_stack size off, with_regs l 4 (off + 4)).

(** The candidates for the VFP registers: the number and the size of the elements. *)
Definition cprc_count (d : TCCAbiArgDesc) : Z := if ad_is_float d then 1 else ad_hfa_count d.
Definition cprc_base (d : TCCAbiArgDesc) : Z := if ad_is_float d then ad_size d else ad_hfa_base d.

Definition uses_vfp (l : TCCAbiCallLayout) (d : TCCAbiArgDesc) : bool :=
  cl_hard_float l && negb (cl_is_variadic l) && (0 <? cprc_count d) && ((cprc_base d =? 4) || (cprc_base d =? 8)).

Definition tcc_abi_classify_argument (l : TCCAbiCallLayout) (arg_index : Z) (d : TCCAbiArgDesc) : TCCAbiArgLoc * TCCAbiCallLayout :=
  if arg_index <? 0 then (loc_stack 0 0, l)
  else
    let needed := arg_index + 1 in
    let capacity := if cl_capacity l <? needed then new_capacity (cl_capacity l) needed else cl_capacity l in
    let l := with_bookkeeping l (if cl_argc l <? needed then needed else cl_argc l) capacity (if cl_stack_align l =? 0 then 8 else cl_stack_align l) in
    let size := ad_size d in
    let align := if ad_alignment d <? 4 then 4 else ad_alignment d in
    let '(loc, l) :=
      if uses_vfp l d then classify_vfp l size align (cprc_count d) (cprc_base d)
      else
        match ad_kind d with
        | TCC_ABI_ARG_SCALAR64 => classify_scalar64 l size
        | TCC_ABI_ARG_STRUCT_BYVAL => classify_struct l size align
        | TCC_ABI_ARG_SCALAR32 => classify_scalar32 l size
        end in
    (loc, with_stack_size l).

(** ** A whole call *)

Fixpoint classify_args (l : TCCAbiCallLayout) (i : Z) (args : list TCCAbiArgDesc) : list TCCAbiArgLoc * TCCAbiCallLayout :=
  match args with
  | [] => ([], l)
  | d :: args =>
      let '(loc, l) := tcc_abi_classify_argument l i d in
      let '(locs, l) := classify_args l (i + 1) args in
      (loc :: locs, l)
  end.

(** [memset] and the assignments that start a layout. *)
Definition layout_zero (capacity next_reg stack_align : Z) (hard_float is_variadic : bool) : TCCAbiCallLayout :=
  {| cl_argc := 0; cl_capacity := capacity; cl_next_reg := next_reg; cl_next_stack_off := 0; cl_vfp_used := 0; cl_vfp_exhausted := false;
     cl_hard_float := hard_float; cl_is_variadic := is_variadic; cl_stack_size := 0; cl_stack_align := stack_align |}.

(** The locations and the size of the outgoing stack area. *)
Definition tcc_gen_machine_abi_assign_call_args (capacity : Z) (hard_float is_variadic : bool) (args : list TCCAbiArgDesc) : list TCCAbiArgLoc * Z :=
  let '(locs, l) := classify_args (layout_zero capacity 0 8 hard_float is_variadic) 0 args in
  (locs, cl_stack_size l).

(** ** Dropping the hidden result pointer *)

(** [for (k = 0; k < a.reg_count && n >= 0; k++)]: [None] is [n = -1]. *)
Fixpoint word_moves (k : nat) (src dst : Z) (max : nat) (moves : list (Z * Z)) : option (list (Z * Z)) :=
  match k with
  | O => Some moves
  | S k => if Nat.leb max (length moves) then None else word_moves k (src + 1) (dst + 1) max (moves ++ [(u8 src, u8 dst)])
  end.

Definition arg_moves (a b : TCCAbiArgLoc) (max : nat) (moves : list (Z * Z)) : option (list (Z * Z)) :=
  match al_kind a, al_kind b with
  | TCC_ABI_LOC_VFP_REG, TCC_ABI_LOC_VFP_REG => if al_reg_base a =? al_reg_base b then Some moves else None
  | TCC_ABI_LOC_REG, TCC_ABI_LOC_REG =>
      if negb (al_reg_count a =? al_reg_count b) || (al_reg_base a <? al_reg_base b) then None
      else word_moves (Z.to_nat (al_reg_count a)) (al_reg_base a) (al_reg_base b) max moves
  | _, _ => None
  end.

Fixpoint sret_moves (with_sret without : TCCAbiCallLayout) (i : Z) (args : list TCCAbiArgDesc) (max : nat) (moves : list (Z * Z)) : option (list (Z * Z)) :=
  match args with
  | [] => Some moves
  | d :: args =>
      let '(a, with_sret) := tcc_abi_classify_argument with_sret i d in
      let '(b, without) := tcc_abi_classify_argument without i d in
      match arg_moves a b max moves with
      | None => None
      | Some moves => sret_moves with_sret without (i + 1) args max moves
      end
  end.

(** The moves [(src, dst)] in order; [args] are the descriptions of the parameters. *)
Definition tcc_ir_params_sret_shift_moves (hard_float is_variadic : bool) (args : list TCCAbiArgDesc) (max : nat) : option (list (Z * Z)) :=
  sret_moves (layout_zero 0 1 0 hard_float is_variadic) (layout_zero 0 0 0 hard_float is_variadic) 0 args max [].

(** ** The arrays of a layout *)

(** The four arrays by their numbers of elements, [None] being NULL. *)
Record abi_arrays := { ar_capacity : Z; ar_locs : option Z; ar_args_original : option Z; ar_args_effective : option Z; ar_arg_flags : option Z }.

Definition all_present (l : abi_arrays) : bool :=
  match ar_locs l, ar_args_effective l, ar_args_original l, ar_arg_flags l with Some _, Some _, Some _, Some _ => true | _, _, _, _ => false end.

Definition tcc_abi_call_layout_ensure_capacity (l : abi_arrays) (needed : Z) : abi_arrays :=
  if needed <=? 0 then l
  else if (needed <=? ar_capacity l) && all_present l then l
  else
    let c := new_capacity (ar_capacity l) needed in
    {| ar_capacity := c; ar_locs := Some c; ar_args_original := Some c; ar_args_effective := Some c; ar_arg_flags := Some c |}.

Definition tcc_abi_call_layout_deinit (l : abi_arrays) : abi_arrays :=
  {| ar_capacity := 0; ar_locs := None; ar_args_original := None; ar_args_effective := None; ar_arg_flags := None |}.

(** ** Examples *)

Definition int_arg : TCCAbiArgDesc := {| ad_kind := TCC_ABI_ARG_SCALAR32; ad_size := 4; ad_alignment := 4; ad_is_float := false; ad_hfa_count := 0; ad_hfa_base := 0 |}.
Definition llong_arg : TCCAbiArgDesc := {| ad_kind := TCC_ABI_ARG_SCALAR64; ad_size := 8; ad_alignment := 8; ad_is_float := false; ad_hfa_count := 0; ad_hfa_base := 0 |}.
Definition double_arg : TCCAbiArgDesc := {| ad_kind := TCC_ABI_ARG_SCALAR64; ad_size := 8; ad_alignment := 8; ad_is_float := true; ad_hfa_count := 0; ad_hfa_base := 0 |}.
Definition float_arg : TCCAbiArgDesc := {| ad_kind := TCC_ABI_ARG_SCALAR32; ad_size := 4; ad_alignment := 4; ad_is_float := true; ad_hfa_count := 0; ad_hfa_base := 0 |}.
Definition struct_arg (size align : Z) : TCCAbiArgDesc := {| ad_kind := TCC_ABI_ARG_STRUCT_BYVAL; ad_size := size; ad_alignment := align; ad_is_float := false; ad_hfa_count := 0; ad_hfa_base := 0 |}.

(** r0; the pair r2-r3, aligned; nothing is left for the rest. *)
Example soft_call : tcc_gen_machine_abi_assign_call_args 8 false false [int_arg; llong_arg; struct_arg 12 4; int_arg]
  = ([loc_reg 4 0 1; loc_reg 8 2 2; loc_stack 12 0; loc_stack 4 12], 16).
Proof. vm_compute. reflexivity. Qed.
Example split_call : tcc_gen_machine_abi_assign_call_args 8 false false [int_arg; struct_arg 20 4; int_arg]
  = ([loc_reg 4 0 1; loc_split 20 1 3 0 8; loc_stack 4 8], 16).
Proof. vm_compute. reflexivity. Qed.
(** The float after the double fills the gap before it. *)
Example hard_call : tcc_gen_machine_abi_assign_call_args 8 true false [float_arg; double_arg; float_arg; int_arg]
  = ([loc_vfp 4 0 1; loc_vfp 8 2 2; loc_vfp 4 1 1; loc_reg 4 0 1], 0).
Proof. vm_compute. reflexivity. Qed.
Example sret_shift : tcc_ir_params_sret_shift_moves false false [int_arg; int_arg] 4 = Some [(1, 0); (2, 1)].
Proof. vm_compute. reflexivity. Qed.
