(* ===== verification/AapcsSpec.v ===== *)
(** * Argument passing against the procedure call standard

    The rules of the standard (stage C of AAPCS32 with its VFP variant) as a
    relation, what follows from the rules, and that the classification of
    [arm_aapcs.c] follows them. *)

From S2P Require Import Prelude.
From S2P Require Import Aapcs.
Local Open Scope Z_scope.
Local Open Scope c_scope.

(** ** The rules *)

(** An argument: its size in words, whether it is double-word aligned, and for a
    VFP candidate the number of s-registers and the register alignment. *)
Record aarg := { a_words : Z; a_dw : bool; a_vfp : option (Z * Z) }.

(** Where it goes: core registers, s-registers, and bytes of the stack area. *)
Record place := { p_core : list Z; p_vfp : list Z; p_mem : option (Z * Z) }.

(** The next core register, the next stack offset, the s-registers in use, and
    whether the rest of them have been made unavailable. *)
Record pstate := { ncrn : Z; nsaa : Z; vfp_in_use : Z -> Prop; vfp_closed : bool }.

Definition abi_fits (s : pstate) (slots step base : Z) : Prop :=
  0 <= base /\ base + slots <= 16 /\ (step | base) /\ forall r, base <= r < base + slots -> ~ vfp_in_use s r.

Definition round_up (m x : Z) : Z := (x + m - 1) / m * m.
Definition core_start (s : pstate) (a : aarg) : Z := if a_dw a then round_up 2 (ncrn s) else ncrn s.
Definition mem_start (s : pstate) (a : aarg) : Z := if a_dw a then round_up 8 (nsaa s) else nsaa s.

Inductive aapcs (s : pstate) (a : aarg) : place -> pstate -> Prop :=
| C1_vfp slots step base s' :
    a_vfp a = Some (slots, step) -> vfp_closed s = false -> abi_fits s slots step base -> (forall b, abi_fits s slots step b -> base <= b) ->
    ncrn s' = ncrn s -> nsaa s' = nsaa s -> vfp_closed s' = false ->
    (forall r, vfp_in_use s' r <-> vfp_in_use s r \/ base <= r < base + slots) ->
    aapcs s a {| p_core := []; p_vfp := seqZ base slots; p_mem := None |} s'
| C2_vfp slots step s' :
    a_vfp a = Some (slots, step) -> (vfp_closed s = true \/ forall b, ~ abi_fits s slots step b) ->
    ncrn s' = ncrn s -> nsaa s' = mem_start s a + 4 * a_words a -> vfp_closed s' = true -> (forall r, vfp_in_use s' r <-> vfp_in_use s r) ->
    aapcs s a {| p_core := []; p_vfp := []; p_mem := Some (mem_start s a, 4 * a_words a) |} s'
| C4_core s' :
    a_vfp a = None -> core_start s a + a_words a <= 4 ->
    ncrn s' = core_start s a + a_words a -> nsaa s' = nsaa s -> vfp_closed s' = vfp_closed s -> (forall r, vfp_in_use s' r <-> vfp_in_use s r) ->
    aapcs s a {| p_core := seqZ (core_start s a) (a_words a); p_vfp := []; p_mem := None |} s'
| C5_split s' :
    a_vfp a = None -> core_start s a < 4 -> 4 < core_start s a + a_words a -> nsaa s = 0 ->
    ncrn s' = 4 -> nsaa s' = 4 * (a_words a - (4 - core_start s a)) -> vfp_closed s' = vfp_closed s -> (forall r, vfp_in_use s' r <-> vfp_in_use s r) ->
    aapcs s a {| p_core := seqZ (core_start s a) (4 - core_start s a); p_vfp := []; p_mem := Some (0, 4 * (a_words a - (4 - core_start s a))) |} s'
| C8_mem s' :
    a_vfp a = None -> 4 < core_start s a + a_words a -> ~ (core_start s a < 4 /\ nsaa s = 0) ->
    ncrn s' = 4 -> nsaa s' = mem_start s a + 4 * a_words a -> vfp_closed s' = vfp_closed s -> (forall r, vfp_in_use s' r <-> vfp_in_use s r) ->
    aapcs s a {| p_core := []; p_vfp := []; p_mem := Some (mem_start s a, 4 * a_words a) |} s'.

(** ** What the rules guarantee *)

Definition pstate_ok (s : pstate) : Prop := 0 <= ncrn s <= 4 /\ 0 <= nsaa s /\ (4 | nsaa s).

Lemma round_up_ge m x : 0 < m -> x <= round_up m x < x + m /\ (m | round_up m x).
Proof. intros Hm. unfold round_up. split; [|exists ((x + m - 1) / m); reflexivity]. pose proof (Z.div_mod (x + m - 1) m ltac:(lia)). pose proof (Z.mod_pos_bound (x + m - 1) m Hm). lia. Qed.

Lemma core_start_bounds s a : pstate_ok s -> ncrn s <= core_start s a <= 4 /\ (a_dw a = true -> (2 | core_start s a)).
Proof.
  intros ((H0 & H4) & _). unfold core_start. destruct (a_dw a); [|split; [lia|discriminate]]. destruct (round_up_ge 2 (ncrn s) ltac:(lia)) as [Hr Hd].
  split; [|auto]. destruct Hd as [k Hk]. lia.
Qed.

(** Rounding a multiple of 4 up to a multiple of 8 adds 0 or 4. *)
Lemma round_up_8_4 x : (4 | x) -> round_up 8 x <= x + 4.
Proof. intros [q ->]. unfold round_up. lia_mod. Qed.

Lemma mem_start_bounds s a : pstate_ok s -> nsaa s <= mem_start s a <= nsaa s + 4 /\ (4 | mem_start s a) /\ (a_dw a = true -> (8 | mem_start s a)).
Proof.
  intros (_ & H0 & H4). unfold mem_start. destruct (a_dw a); [|split; [lia|]; split; [exact H4|discriminate]]. destruct (round_up_ge 8 (nsaa s) ltac:(lia)) as [Hr Hd].
  pose proof (round_up_8_4 _ H4). split; [lia|]. split; [|auto]. apply Z.divide_trans with 8; [exists 2; lia|exact Hd].
Qed.

(** A step takes registers from [ncrn] to the new [ncrn], bytes from [nsaa] to the
    new [nsaa], and s-registers that were not in use. *)
Record takes (s : pstate) (a : aarg) (p : place) (s' : pstate) : Prop := {
  tk_ok : pstate_ok s';
  tk_core r : r ∈ p_core p -> ncrn s <= r < ncrn s' /\ r < 4;
  tk_ncrn : ncrn s <= ncrn s';
  tk_vfp r : r ∈ p_vfp p -> 0 <= r < 16 /\ ~ vfp_in_use s r /\ vfp_in_use s' r;
  tk_used r : vfp_in_use s r -> vfp_in_use s' r;
  tk_mem off n : p_mem p = Some (off, n) -> nsaa s <= off /\ off + n = nsaa s' /\ 0 < n /\ (4 | off) /\ (a_dw a = true -> p_core p = [] -> (8 | off));
  tk_nsaa : nsaa s <= nsaa s' <= nsaa s + 4 + 4 * a_words a;
  tk_even : a_dw a = true -> forall r, p_core p !! O = Some r -> (2 | r);
  tk_size : a_vfp a = None -> 4 * Z.of_nat (length (p_core p)) + match p_mem p with Some (_, n) => n | None => 0 end = 4 * a_words a
}.

Lemma seqZ_head m n r : seqZ m n !! O = Some r -> r = m.
Proof. destruct (Z.le_gt_cases n 0) as [H|H]; [rewrite seqZ_nil by lia; discriminate|]. rewrite seqZ_cons by lia. cbn. congruence. Qed.

Lemma aapcs_takes s a p s' : pstate_ok s -> 0 <= a_words a -> (a_vfp a <> None -> 0 < a_words a) -> aapcs s a p s' -> takes s a p s'.
Proof.
  intros Hok Hw Hv H. pose proof Hok as ((H0 & H4) & Hn & Hd4). destruct (core_start_bounds s a Hok) as [Hc He]. destruct (mem_start_bounds s a Hok) as (Hm & Hm4 & Hm8).
  assert (forall k x, (4 | x) -> (4 | x + 4 * k)) as Hdiv by (intros k x [q ->]; exists (q + k); lia).
  destruct H as [slots step base s' Ev Ec Hf _ E1 E2 E3 E4|slots step s' Ev _ E1 E2 E3 E4|s' Ev Hle E1 E2 E3 E4|s' Ev Hlt Hgt Hz E1 E2 E3 E4|s' Ev Hgt Hns E1 E2 E3 E4].
  - destruct Hf as (F0 & F1 & F2 & F3). constructor; cbn [p_core p_vfp p_mem]; [split; [lia|]; rewrite E2; auto| |lia| | |discriminate|lia|discriminate|congruence].
    + intros r Hr. apply elem_of_nil in Hr. contradiction.
    + intros r Hr. apply elem_of_seqZ in Hr. split; [lia|]. split; [apply F3; lia|]. apply E4. right. lia.
    + intros r Hr. apply E4. left. exact Hr.
  - specialize (Hv ltac:(congruence)). constructor; cbn [p_core p_vfp p_mem]; [split; [lia|]; rewrite E2; split; [lia|auto]| |lia| | | |lia|discriminate|congruence].
    + intros r Hr. apply elem_of_nil in Hr. contradiction.
    + intros r Hr. apply elem_of_nil in Hr. contradiction.
    + intros r Hr. apply E4. exact Hr.
    + intros off n Heq. injection Heq as <- <-. split; [lia|]. split; [lia|]. split; [lia|]. auto.
  - constructor; cbn [p_core p_vfp p_mem]; [split; [lia|]; rewrite E2; auto| |lia| | |discriminate|lia| |intros _; rewrite length_seqZ; lia].
    + intros r Hr. apply elem_of_seqZ in Hr. lia.
    + intros r Hr. apply elem_of_nil in Hr. contradiction.
    + intros r Hr. apply E4. exact Hr.
    + intros Hdw r Hr. apply seqZ_head in Hr as ->. auto.
  - constructor; cbn [p_core p_vfp p_mem]; [split; [lia|]; rewrite E2; split; [lia|]; exists (a_words a - (4 - core_start s a)); lia| |lia| | | |lia| |intros _; rewrite length_seqZ; lia].
    + intros r Hr. apply elem_of_seqZ in Hr. lia.
    + intros r Hr. apply elem_of_nil in Hr. contradiction.
    + intros r Hr. apply E4. exact Hr.
    + intros off n Heq. injection Heq as <- <-. split; [lia|]. split; [lia|]. split; [lia|]. split; [exists 0; lia|]. intros _ Hnil. rewrite seqZ_cons in Hnil by lia. discriminate.
    + intros Hdw r Hr. apply seqZ_head in Hr as ->. auto.
  - constructor; cbn [p_core p_vfp p_mem]; [split; [lia|]; rewrite E2; split; [lia|auto]| |lia| | | |lia|discriminate|intros _; cbn; lia].
    + intros r Hr. apply elem_of_nil in Hr. contradiction.
    + intros r Hr. apply elem_of_nil in Hr. contradiction.
    + intros r Hr. apply E4. exact Hr.
    + intros off n Heq. injection Heq as <- <-. split; [lia|]. split; [lia|]. split; [lia|]. auto.
Qed.

(** A whole call. *)
Inductive aapcs_all : pstate -> list aarg -> list place -> pstate -> Prop :=
| all_nil s : aapcs_all s [] [] s
| all_cons s a p s1 l ps s2 : aapcs s a p s1 -> aapcs_all s1 l ps s2 -> aapcs_all s (a :: l) (p :: ps) s2.

Definition arg_ok (a : aarg) : Prop := 0 <= a_words a /\ (a_vfp a <> None -> 0 < a_words a).

(** Two places that share nothing. *)
Definition separate (p q : place) : Prop :=
  (forall r, r ∈ p_core p -> ~ r ∈ p_core q) /\ (forall r, r ∈ p_vfp p -> ~ r ∈ p_vfp q) /\
  forall o1 n1 o2 n2, p_mem p = Some (o1, n1) -> p_mem q = Some (o2, n2) -> o1 + n1 <= o2.

(** A place that suits its argument. *)
Record suits (a : aarg) (p : place) : Prop := {
  su_core r : r ∈ p_core p -> 0 <= r < 4;
  su_vfp r : r ∈ p_vfp p -> 0 <= r < 16;
  su_mem off n : p_mem p = Some (off, n) -> 0 <= off /\ (4 | off) /\ (a_dw a = true -> p_core p = [] -> (8 | off));
  su_even : a_dw a = true -> forall r, p_core p !! O = Some r -> (2 | r);
  su_size : a_vfp a = None -> p_vfp p = [] /\ 4 * Z.of_nat (length (p_core p)) + match p_mem p with Some (_, n) => n | None => 0 end = 4 * a_words a;
  su_cand slots step : a_vfp a = Some (slots, step) -> p_core p = [] /\
    ((p_mem p = None /\ exists base, (step | base) /\ p_vfp p = seqZ base slots) \/ (p_vfp p = [] /\ exists off, p_mem p = Some (off, 4 * a_words a)))
}.

(** The words of the arguments and 4 bytes of padding before each. *)
Definition stack_bound (l : list aarg) : Z := foldr (fun a n => 4 + 4 * a_words a + n) 0 l.

(** Taken after [s], before [s2]. *)
Definition between (s s2 : pstate) (p : place) : Prop :=
  (forall r, r ∈ p_core p -> ncrn s <= r) /\ (forall r, r ∈ p_vfp p -> ~ vfp_in_use s r) /\
  forall o n, p_mem p = Some (o, n) -> nsaa s <= o /\ o + n <= nsaa s2.

Lemma aapcs_core_only s a p s' : a_vfp a = None -> aapcs s a p s' -> p_vfp p = [].
Proof. intros E H. destruct H; try reflexivity. congruence. Qed.

Lemma aapcs_candidate s a p s' slots step : a_vfp a = Some (slots, step) -> aapcs s a p s' -> p_core p = [] /\
  ((p_mem p = None /\ exists base, (step | base) /\ p_vfp p = seqZ base slots) \/ (p_vfp p = [] /\ exists off, p_mem p = Some (off, 4 * a_words a))).
Proof.
  intros E H. destruct H as [sl st base s' Ev _ (_ & _ & Hd & _) _ _ _ _ _|sl st s' Ev _ _ _ _ _|s' Ev|s' Ev|s' Ev]; rewrite E in Ev; try discriminate;
    injection Ev as <- <-; (split; [reflexivity|]); [left; split; [reflexivity|exists base; auto]|right; split; [reflexivity|eexists; reflexivity]].
Qed.

Lemma all_separate s l ps s2 : aapcs_all s l ps s2 -> pstate_ok s -> Forall arg_ok l ->
  pstate_ok s2 /\ nsaa s <= nsaa s2 <= nsaa s + stack_bound l /\ Forall (between s s2) ps /\ ForallOrdPairs separate ps /\ Forall2 suits l ps.
Proof.
  induction 1 as [s|s a p s1 l ps s2 Ha H IH]; intros Hok Hl.
  - split; [exact Hok|]. split; [cbn; lia|]. split; [constructor|]. split; constructor.
  - inversion Hl as [|? ? [Hw Hv] Hl']; subst. pose proof (aapcs_takes s a p s1 Hok Hw Hv Ha) as T. destruct (IH (tk_ok _ _ _ _ T) Hl') as (Hok2 & Hn & Hb & Hs & Hsu).
    pose proof (tk_nsaa _ _ _ _ T) as Hns. pose proof (tk_ncrn _ _ _ _ T) as Hnc. pose proof Hok as ((H0 & H4) & Hn0 & _).
    split; [exact Hok2|]. split; [cbn [stack_bound foldr]; fold (stack_bound l); lia|]. split; [|split].
    + constructor; [|eapply List.Forall_impl; [|exact Hb]].
      * split; [intros r Hr; apply (tk_core _ _ _ _ T) in Hr; lia|]. split; [intros r Hr; apply (tk_vfp _ _ _ _ T) in Hr; tauto|].
        intros o n E. apply (tk_mem _ _ _ _ T) in E. lia.
      * intros q (B1 & B2 & B3). split; [intros r Hr; specialize (B1 r Hr); lia|]. split; [intros r Hr Hu; exact (B2 r Hr (tk_used _ _ _ _ T r Hu))|].
        intros o n E. specialize (B3 o n E). lia.
    + constructor; [|exact Hs]. eapply List.Forall_impl; [|exact Hb]. intros q (B1 & B2 & B3). split; [|split].
      * intros r Hp Hq. apply (tk_core _ _ _ _ T) in Hp. specialize (B1 r Hq). lia.
      * intros r Hp Hq. apply (tk_vfp _ _ _ _ T) in Hp as (_ & _ & Hu). exact (B2 r Hq Hu).
      * intros o1 n1 o2 n2 E1 E2. apply (tk_mem _ _ _ _ T) in E1. specialize (B3 _ _ E2). lia.
    + constructor; [|exact Hsu]. constructor.
      * intros r Hr. apply (tk_core _ _ _ _ T) in Hr. lia.
      * intros r Hr. apply (tk_vfp _ _ _ _ T) in Hr. tauto.
      * intros o n E. destruct (tk_mem _ _ _ _ T o n E) as (A & _ & _ & B & D). split; [lia|]. auto.
      * exact (tk_even _ _ _ _ T).
      * intros E. split; [exact (aapcs_core_only s a p s1 E Ha)|exact (tk_size _ _ _ _ T E)].
      * intros slots step E. exact (aapcs_candidate s a p s1 slots step E Ha).
Qed.

(** ** The classification follows the rules *)

Lemma align_up_pow v k : 0 <= k -> tcc_abi_align_up_int v (2 ^ k) = round_up (2 ^ k) v.
Proof.
  intros Hk. unfold tcc_abi_align_up_int, round_up. replace (2 ^ k - 1) with (Z.ones k) by (rewrite Z.ones_equiv; lia).
  rewrite <- Z.ldiff_land, Z.ldiff_ones_r, Z.shiftl_mul_pow2, Z.shiftr_div_pow2 by lia. reflexivity.
Qed.

Lemma align_up_4 v : tcc_abi_align_up_int v 4 = round_up 4 v.
Proof. exact (align_up_pow v 2 ltac:(lia)). Qed.

Lemma align_up_8 v : tcc_abi_align_up_int v 8 = round_up 8 v.
Proof. exact (align_up_pow v 3 ltac:(lia)). Qed.

Lemma round_up_same m x : 0 < m -> (m | x) -> round_up m x = x.
Proof. intros Hm [k ->]. unfold round_up. replace ((k * m + m - 1) / m) with k; [reflexivity|]. apply Z.div_unique with (m - 1); lia. Qed.

(** The masks of runs of s-registers. *)
Lemma vfp_mask_bits slots cand r : 1 <= slots -> 0 <= cand -> cand + slots <= 16 -> Z.testbit (vfp_mask slots cand) r = (cand <=? r) && (r <? cand + slots).
Proof.
  intros Hs Hc Hle. assert (0 < 2 ^ slots <= 65536) as Hp by (split; [apply Z.pow_pos_nonneg; lia|exact (Z.pow_le_mono_r 2 slots 16 ltac:(lia) ltac:(lia))]).
  assert (vfp_mask slots cand = u32 (Z.shiftl (Z.ones slots) cand)) as ->.
  { unfold vfp_mask, shl32. rewrite (Z.shiftl_mul_pow2 1 slots), Z.mul_1_l, (u32_small (2 ^ slots)) by lia. f_equal. f_equal.
    rewrite Z.ones_equiv, u32_small by lia. lia. }
  unfold u32. rewrite Z.land_spec.
  destruct (Z.lt_ge_cases r 0) as [Hneg|Hr]; [rewrite !(Z.testbit_neg_r _ r Hneg); lia|]. rewrite Z.shiftl_spec by exact Hr.
  destruct (Z.lt_ge_cases (r - cand) 0) as [Hlt|Hge]; [rewrite Z.testbit_neg_r by exact Hlt; lia|]. rewrite !Z.testbit_ones by lia. lia.
Qed.

Lemma land_zero_bits x y : Z.land x y = 0 <-> forall r, 0 <= r -> ~ (Z.testbit x r = true /\ Z.testbit y r = true).
Proof.
  split.
  - intros H r Hr [Hx Hy]. assert (Z.testbit (Z.land x y) r = true) as Ht by (rewrite Z.land_spec, Hx, Hy; reflexivity). rewrite H, Z.bits_0 in Ht. discriminate.
  - intros H. apply Z.bits_inj_0. intros r. destruct (Z.lt_ge_cases r 0) as [Hneg|Hr]; [apply Z.testbit_neg_r; exact Hneg|]. rewrite Z.land_spec. specialize (H r Hr). destruct (Z.testbit x r), (Z.testbit y r); try reflexivity. tauto.
Qed.

(** The state of the rules a layout stands for. *)
Definition abs_layout (l : TCCAbiCallLayout) : pstate :=
  {| ncrn := cl_next_reg l; nsaa := cl_next_stack_off l; vfp_in_use := fun r => Z.testbit (cl_vfp_used l) r = true; vfp_closed := cl_vfp_exhausted l |}.

Definition abi_layout_ok (l : TCCAbiCallLayout) : Prop :=
  pstate_ok (abs_layout l) /\ 0 <= cl_vfp_used l < 2 ^ 16 /\ (cl_stack_align l = 0 \/ cl_stack_align l = 8).

(** The argument a description stands for. *)
Definition arg_words (d : TCCAbiArgDesc) : Z :=
  match ad_kind d with TCC_ABI_ARG_SCALAR32 => 1 | TCC_ABI_ARG_SCALAR64 => 2 | TCC_ABI_ARG_STRUCT_BYVAL => (ad_size d + 3) / 4 end.

Definition arg_dw (d : TCCAbiArgDesc) : bool :=
  match ad_kind d with TCC_ABI_ARG_SCALAR32 => false | TCC_ABI_ARG_SCALAR64 => true | TCC_ABI_ARG_STRUCT_BYVAL => 8 <=? ad_alignment d end.

Definition vfp_candidate (hard_float is_variadic : bool) (d : TCCAbiArgDesc) : bool :=
  hard_float && negb is_variadic && (0 <? cprc_count d) && ((cprc_base d =? 4) || (cprc_base d =? 8)).

Definition arg_of (hard_float is_variadic : bool) (d : TCCAbiArgDesc) : aarg :=
  {| a_words := arg_words d; a_dw := arg_dw d;
     a_vfp := if vfp_candidate hard_float is_variadic d then Some (cprc_count d * (cprc_base d / 4), cprc_base d / 4) else None |}.

Definition place_of (d : TCCAbiArgDesc) (loc : TCCAbiArgLoc) : place :=
  match al_kind loc with
  | TCC_ABI_LOC_REG => {| p_core := seqZ (al_reg_base loc) (al_reg_count loc); p_vfp := []; p_mem := None |}
  | TCC_ABI_LOC_VFP_REG => {| p_core := []; p_vfp := seqZ (al_reg_base loc) (al_reg_count loc); p_mem := None |}
  | TCC_ABI_LOC_STACK => {| p_core := []; p_vfp := []; p_mem := Some (al_stack_off loc, 4 * arg_words d) |}
  | TCC_ABI_LOC_REG_STACK => {| p_core := seqZ (al_reg_base loc) (al_reg_count loc); p_vfp := []; p_mem := Some (al_stack_off loc, al_stack_size loc) |}
  end.

(** A description: alignments are powers of two, scalars have the size and (where
    it matters) the alignment of their kind, candidates are not empty. *)
Record desc_ok (d : TCCAbiArgDesc) : Prop := {
  do_size : 0 <= ad_size d < 2 ^ 31;
  do_align : exists k, 0 <= k < 8 /\ ad_alignment d = 2 ^ k;
  do_cand : 0 < cprc_count d -> 0 < ad_size d;
  do_32 : ad_kind d = TCC_ABI_ARG_SCALAR32 -> ad_size d = 4 /\ (0 < cprc_count d -> ad_alignment d <= 4);
  do_64 : ad_kind d = TCC_ABI_ARG_SCALAR64 -> ad_size d = 8 /\ (0 < cprc_count d -> 8 <= ad_alignment d)
}.

(** The alignment used: 4 or at least 8. *)
Lemma desc_align d : desc_ok d -> let align := if ad_alignment d <? 4 then 4 else ad_alignment d in
  (if 8 <? align then 8 else align) = (if 8 <=? ad_alignment d then 8 else 4) /\ (8 <=? align) = (8 <=? ad_alignment d).
Proof.
  intros [_ (k & Hk & ->) _ _ _]. assert (k = 0 \/ k = 1 \/ k = 2 \/ k = 3 \/ k = 4 \/ k = 5 \/ k = 6 \/ k = 7) as H by lia.
  destruct H as [->|[->|[->|[->|[->|[->|[->| ->]]]]]]]; split; reflexivity.
Qed.

(** The search finds the lowest run of free registers. *)
Lemma vfp_search_spec s used slots step : (forall r, vfp_in_use s r <-> Z.testbit used r = true) -> 1 <= slots -> 1 <= step ->
  forall fuel cand, 0 <= cand -> (step | cand) -> 16 - cand <= Z.of_nat fuel ->
  match vfp_search fuel used slots step cand with
  | Some base => cand <= base /\ abi_fits s slots step base /\ forall b, cand <= b -> abi_fits s slots step b -> base <= b
  | None => forall b, cand <= b -> ~ abi_fits s slots step b
  end.
Proof.
  intros Hu Hs Hst. induction fuel as [|fuel IH]; intros cand Hc Hd Hf; cbn [vfp_search].
  - intros b Hb (_ & F & _). lia.
  - destruct (cand + slots <=? 16) eqn:Ele; [|intros b Hb (_ & F & _); lia].
    assert (abi_fits s slots step cand <-> (Z.land used (vfp_mask slots cand) = 0)) as Hfit.
    { rewrite land_zero_bits. split.
      - intros (_ & _ & _ & F) r Hr [H1 H2]. rewrite vfp_mask_bits in H2 by lia. apply (F r); [lia|]. apply Hu. exact H1.
      - intros H. split; [lia|]. split; [lia|]. split; [exact Hd|]. intros r Hr Hin. apply (H r); [lia|]. split; [apply Hu; exact Hin|]. rewrite vfp_mask_bits by lia. lia. }
    destruct (Z.land used (vfp_mask slots cand) =? 0) eqn:Ez.
    + split; [lia|]. split; [apply Hfit; lia|]. intros b Hb _. exact Hb.
    + assert (~ abi_fits s slots step cand) as Hno by (rewrite Hfit; lia).
      assert (forall b, cand <= b -> abi_fits s slots step b -> cand + step <= b) as Hnext.
      { intros b Hb Fb. destruct (Z.eq_dec b cand) as [->|Hne]; [contradiction|]. destruct Fb as (_ & _ & [q Hq] & _). destruct Hd as [p Hp]. subst b cand.
        assert (p + 1 <= q) by nia. nia. }
      specialize (IH (cand + step) ltac:(lia) ltac:(apply Z.divide_add_r; [exact Hd|apply Z.divide_refl]) ltac:(lia)).
      destruct (vfp_search fuel used slots step (cand + step)) as [base|].
      * destruct IH as (I1 & I2 & I3). split; [lia|]. split; [exact I2|]. intros b Hb Fb. apply I3; [apply Hnext; assumption|exact Fb].
      * intros b Hb Fb. apply (IH b); [apply Hnext; assumption|exact Fb].
Qed.

Lemma odd_bit n : 0 <= n <= 4 -> (if truth (n &&& 1) then u8 (n + 1) else n) = round_up 2 n.
Proof. intros Hn. assert (n = 0 \/ n = 1 \/ n = 2 \/ n = 3 \/ n = 4) as [->|[->|[->|[->| ->]]]] by lia; reflexivity. Qed.

Lemma words_round n : 0 <= n -> round_up 4 n = 4 * ((n + 3) / 4) /\ (round_up 4 n + 3) / 4 = (n + 3) / 4.
Proof. intros Hn. unfold round_up. split; [replace (n + 4 - 1) with (n + 3) by lia; lia|]. lia_mod. Qed.

Lemma u8_id n : 0 <= n < 256 -> u8 n = n.
Proof. intros Hn. apply u8_small. exact Hn. Qed.

Lemma desc_words hf var d : desc_ok d -> arg_ok (arg_of hf var d).
Proof.
  intros Hd. pose proof (do_size _ Hd) as Hs. unfold arg_ok, arg_of, arg_words. cbn [a_words a_vfp]. split; [destruct (ad_kind d); [lia|lia|lia_mod]|].
  destruct (vfp_candidate hf var d) eqn:E; [intros _|congruence]. unfold vfp_candidate in E. rewrite !andb_true_iff in E. destruct E as [[_ E] _]. apply Z.ltb_lt in E.
  pose proof (do_cand _ Hd E). destruct (ad_kind d); [lia|lia|lia_mod].
Qed.

(** What one branch of the classification achieves. *)
Definition follows (l : TCCAbiCallLayout) (d : TCCAbiArgDesc) (r : TCCAbiArgLoc * TCCAbiCallLayout) : Prop :=
  aapcs (abs_layout l) (arg_of (cl_hard_float l) (cl_is_variadic l) d) (place_of d (fst r)) (abs_layout (snd r)) /\
  0 <= cl_vfp_used (snd r) < 2 ^ 16 /\ cl_stack_align (snd r) = cl_stack_align l /\ cl_hard_float (snd r) = cl_hard_float l /\ cl_is_variadic (snd r) = cl_is_variadic l.

Ltac abs_simpl :=
  unfold core_start, mem_start;
  cbn [a_vfp a_words a_dw abs_layout ncrn nsaa vfp_closed vfp_in_use with_regs with_vfp cl_next_reg cl_next_stack_off cl_vfp_used cl_vfp_exhausted].

Lemma scalar32_follows l d : abi_layout_ok l -> ad_kind d = TCC_ABI_ARG_SCALAR32 -> uses_vfp l d = false -> follows l d (classify_scalar32 l (ad_size d)).
Proof.
  intros ((Hr & Hn & H4) & Hu & _) Ek Ev. cbn [abs_layout ncrn nsaa] in *. unfold classify_scalar32, follows, arg_of, arg_words, arg_dw, place_of, arg_words. rewrite Ek.
  change (vfp_candidate (cl_hard_float l) (cl_is_variadic l) d) with (uses_vfp l d). rewrite Ev. destruct (cl_next_reg l <=? 3) eqn:E; cbn [fst snd al_kind al_reg_base al_reg_count al_stack_off loc_reg loc_stack]; (split; [|auto]).
  - apply C4_core; abs_simpl; try reflexivity; [lia|apply u8_id; lia].
  - rewrite align_up_4, round_up_same by (lia || exact H4). apply C8_mem; abs_simpl; try reflexivity; lia.
Qed.

Lemma scalar64_follows l d : abi_layout_ok l -> ad_kind d = TCC_ABI_ARG_SCALAR64 -> uses_vfp l d = false -> follows l d (classify_scalar64 l (ad_size d)).
Proof.
  intros ((Hr & Hn & H4) & Hu & _) Ek Ev. cbn [abs_layout ncrn nsaa] in *. unfold classify_scalar64, follows, arg_of, arg_words, arg_dw, place_of, arg_words. rewrite Ek.
  change (vfp_candidate (cl_hard_float l) (cl_is_variadic l) d) with (uses_vfp l d). rewrite Ev, odd_bit by exact Hr.
  destruct (round_up_ge 2 (cl_next_reg l) ltac:(lia)) as [Hb [k Hk]].
  destruct (round_up 2 (cl_next_reg l) <=? 2) eqn:E; cbn [fst snd al_kind al_reg_base al_reg_count al_stack_off loc_reg loc_stack]; (split; [|auto]).
  - apply C4_core; abs_simpl; try reflexivity; [lia|apply u8_id; lia].
  - rewrite align_up_8. apply C8_mem; abs_simpl; try reflexivity; lia.
Qed.

Lemma struct_follows l d : abi_layout_ok l -> desc_ok d -> ad_kind d = TCC_ABI_ARG_STRUCT_BYVAL -> uses_vfp l d = false ->
  follows l d (classify_struct l (ad_size d) (if ad_alignment d <? 4 then 4 else ad_alignment d)).
Proof.
  intros ((Hr & Hn & H4) & Hu & _) Hd Ek Ev. cbn [abs_layout ncrn nsaa] in *. destruct (desc_align d Hd) as [Ha1 Ha2]. pose proof (do_size _ Hd) as Hsz.
  unfold classify_struct, follows, arg_of, arg_words, arg_dw, place_of, arg_words. rewrite Ek, Ha1, Ha2, align_up_4.
  change (vfp_candidate (cl_hard_float l) (cl_is_variadic l) d) with (uses_vfp l d). rewrite Ev. destruct (words_round (ad_size d) ltac:(lia)) as [Hw1 Hw2]. rewrite Hw2.
  set (w := (ad_size d + 3) / 4) in *. set (dw := 8 <=? ad_alignment d) in *. assert (0 <= w <= 2 ^ 29) as Hw by (unfold w; lia_mod).
  assert ((if dw && truth (cl_next_reg l &&& 1) then u8 (cl_next_reg l + 1) else cl_next_reg l) = if dw then round_up 2 (cl_next_reg l) else cl_next_reg l) as ->
    by (destruct dw; cbn [andb]; [apply odd_bit; exact Hr|reflexivity]).
  set (n := if dw then round_up 2 (cl_next_reg l) else cl_next_reg l).
  assert (cl_next_reg l <= n <= 4) as Hnb by (unfold n; destruct dw; [|lia]; destruct (round_up_ge 2 (cl_next_reg l) ltac:(lia)) as [Hb [k Hk]]; lia).
  assert (forall v, 0 <= v -> (4 | v) -> tcc_abi_align_up_int v (if dw then 8 else 4) = if dw then round_up 8 v else v) as Hal
    by (intros v _ Hv; destruct dw; [apply align_up_8|rewrite align_up_4; apply round_up_same; [lia|exact Hv]]).
  destruct (n + w <=? 4) eqn:E1; [|destruct ((n <=? 3) && (cl_next_stack_off l =? 0)) eqn:E2];
    cbn [fst snd al_kind al_reg_base al_reg_count al_stack_off al_stack_size loc_reg loc_stack loc_split]; (split; [|auto]).
  - rewrite (u8_id w) by lia. apply C4_core; abs_simpl; try reflexivity; [lia|apply u8_id; lia].
  - apply andb_true_iff in E2 as [E2 E3]. apply Z.eqb_eq in E3. rewrite E3, (u8_id (4 - n)), u32_small, Hal by (lia || (exists 0; lia)).
    assert ((if dw then round_up 8 0 else 0) = 0) as -> by (destruct dw; reflexivity).
    replace ((w - (4 - n)) * 4) with (4 * (w - (4 - n))) by lia. apply C5_split; abs_simpl; try reflexivity; try exact E3; fold n; lia.
  - rewrite Hal, Hw1 by assumption. apply C8_mem; abs_simpl; try reflexivity; fold n; [lia|].
    intros [X1 X2]. lia.
Qed.

Lemma vfp_follows l d : abi_layout_ok l -> desc_ok d -> uses_vfp l d = true ->
  follows l d (classify_vfp l (ad_size d) (if ad_alignment d <? 4 then 4 else ad_alignment d) (cprc_count d) (cprc_base d)).
Proof.
  intros ((Hr & Hn & H4) & Hu & _) Hd Ev. cbn [abs_layout ncrn nsaa] in *. destruct (desc_align d Hd) as [Ha1 _]. pose proof (do_size _ Hd) as Hsz.
  unfold classify_vfp, follows, arg_of. rewrite Ha1. change (vfp_candidate (cl_hard_float l) (cl_is_variadic l) d) with (uses_vfp l d). rewrite Ev.
  unfold uses_vfp in Ev. apply andb_true_iff in Ev as [Ev Eb]. apply andb_true_iff in Ev as [_ Ec]. apply Z.ltb_lt in Ec. pose proof (do_cand _ Hd Ec) as Hpos.
  assert (cprc_base d / 4 = 1 \/ cprc_base d / 4 = 2) as Hstep by (apply orb_true_iff in Eb as [E|E]; apply Z.eqb_eq in E; rewrite E; [left|right]; reflexivity).
  set (step := cprc_base d / 4) in *. set (slots := cprc_count d * step). assert (1 <= slots) as Hslots by (unfold slots; nia).
  assert (arg_words d = (ad_size d + 3) / 4 /\ arg_dw d = (8 <=? ad_alignment d)) as [Hw Hdw].
  { unfold arg_words, arg_dw. destruct (ad_kind d) eqn:Ek; [destruct (do_32 _ Hd Ek) as [-> Hx]; specialize (Hx Ec); split; [reflexivity|lia]|destruct (do_64 _ Hd Ek) as [-> Hx]; specialize (Hx Ec); split; [reflexivity|lia]|auto]. }
  set (dw := 8 <=? ad_alignment d) in *.
  assert (forall closed used, 0 <= used < 2 ^ 16 -> (forall r, Z.testbit used r = true <-> Z.testbit (cl_vfp_used l) r = true) -> closed = true ->
    cl_vfp_exhausted l = true \/ (forall b, ~ abi_fits (abs_layout l) slots step b) ->
    let off := tcc_abi_align_up_int (cl_next_stack_off l) (if dw then 8 else 4) in
    aapcs (abs_layout l) {| a_words := arg_words d; a_dw := arg_dw d; a_vfp := Some (slots, step) |} (place_of d (loc_stack (ad_size d) off))
      (abs_layout (with_regs (with_vfp l used closed) (cl_next_reg l) (off + tcc_abi_align_up_int (ad_size d) 4)))) as Hmem.
  { intros closed used Hub Hbits -> Hno off. assert (off = if dw then round_up 8 (cl_next_stack_off l) else cl_next_stack_off l) as Eo
      by (unfold off; destruct dw; [apply align_up_8|rewrite align_up_4; apply round_up_same; [lia|exact H4]]).
    rewrite align_up_4. destruct (words_round (ad_size d) ltac:(lia)) as [-> _]. unfold place_of. cbn [al_kind al_stack_off loc_stack]. rewrite Eo, Hw, Hdw.
    apply C2_vfp with slots step; abs_simpl; try reflexivity; [exact Hno|exact Hbits]. }
  destruct (cl_vfp_exhausted l) eqn:Ex.
  - cbn [fst snd]. split; [|auto]. replace l with (with_vfp l (cl_vfp_used l) true) at 3 by (destruct l; cbn in Ex; subst; reflexivity). apply Hmem; auto.
  - pose proof (vfp_search_spec (abs_layout l) (cl_vfp_used l) slots step ltac:(reflexivity) Hslots ltac:(lia) 16 0 ltac:(lia) ltac:(apply Z.divide_0_r) ltac:(lia)) as HS.
    destruct (vfp_search 16 (cl_vfp_used l) slots step 0) as [base|]; cbn [fst snd].
    + destruct HS as (_ & Hf & Hmin). pose proof Hf as (F0 & F1 & _ & _). assert (forall r, Z.testbit (u16 (vfp_mask slots base)) r = (base <=? r) && (r <? base + slots)) as Hbits.
      { intros r. unfold u16. rewrite Z.land_spec, vfp_mask_bits by lia. destruct (Z.lt_ge_cases r 0) as [Hneg|Hge]; [rewrite (Z.testbit_neg_r _ r Hneg); lia|]. rewrite Z.testbit_ones by lia. lia. }
      split; [|split; [apply (lor_bound 16); [lia|exact Hu|apply u16_bound]|auto]].
      unfold place_of. cbn [al_kind loc_vfp al_reg_base al_reg_count]. rewrite !u8_id by lia. apply C1_vfp with step; abs_simpl; try reflexivity; [exact Ex|exact Hf|intros b Fb; apply Hmin; [apply Fb|exact Fb]|].
      intros r. rewrite Z.lor_spec, Hbits, orb_true_iff. split; (intros [H|H]; [left; exact H|right; lia]).
    + split; [|auto]. apply Hmem; auto. right. intros b Fb. apply (HS b); [apply Fb|exact Fb].
Qed.

Lemma classify_follows l i d : abi_layout_ok l -> desc_ok d -> 0 <= i ->
  let '(loc, l') := tcc_abi_classify_argument l i d in
  abi_layout_ok l' /\ cl_hard_float l' = cl_hard_float l /\ cl_is_variadic l' = cl_is_variadic l /\ cl_stack_align l' = 8 /\
  cl_stack_size l' = round_up 8 (cl_next_stack_off l') /\
  aapcs (abs_layout l) (arg_of (cl_hard_float l) (cl_is_variadic l) d) (place_of d loc) (abs_layout l').
Proof.
  intros Hok Hd Hi. unfold tcc_abi_classify_argument. replace (i <? 0) with false by lia. cbv zeta.
  set (l0 := with_bookkeeping l _ _ _). assert (cl_stack_align l0 = 8) as Hal by (unfold l0; cbn; destruct Hok as (_ & _ & [->| ->]); reflexivity).
  assert (abi_layout_ok l0) as Hok0 by (destruct Hok as (H1 & H2 & _); split; [exact H1|split; [exact H2|right; exact Hal]]).
  assert (follows l0 d (if uses_vfp l0 d then classify_vfp l0 (ad_size d) (if ad_alignment d <? 4 then 4 else ad_alignment d) (cprc_count d) (cprc_base d)
    else match ad_kind d with TCC_ABI_ARG_SCALAR64 => classify_scalar64 l0 (ad_size d) | TCC_ABI_ARG_STRUCT_BYVAL => classify_struct l0 (ad_size d) (if ad_alignment d <? 4 then 4 else ad_alignment d)
         | TCC_ABI_ARG_SCALAR32 => classify_scalar32 l0 (ad_size d) end)) as HF.
  { destruct (uses_vfp l0 d) eqn:Ev; [apply vfp_follows; assumption|]. destruct (ad_kind d) eqn:Ek; [apply scalar32_follows|apply scalar64_follows|apply struct_follows]; assumption. }
  destruct (if uses_vfp l0 d then _ else _) as [loc l1]. destruct HF as (HA & Hu & Ha & Hh & Hv). cbn [fst snd] in *.
  assert (0 <= a_words (arg_of (cl_hard_float l0) (cl_is_variadic l0) d) /\ (a_vfp (arg_of (cl_hard_float l0) (cl_is_variadic l0) d) <> None -> 0 < a_words (arg_of (cl_hard_float l0) (cl_is_variadic l0) d))) as [Hw0 Hw1]
    by (apply desc_words; exact Hd).
  pose proof (tk_ok _ _ _ _ (aapcs_takes _ _ _ _ (proj1 Hok0) Hw0 Hw1 HA)) as Hok1. rewrite Hal in Ha.
  split; [split; [exact Hok1|split; [exact Hu|right; exact Ha]]|]. split; [exact Hh|]. split; [exact Hv|]. split; [exact Ha|]. split; [|exact HA].
  cbn [with_stack_size cl_stack_size cl_next_stack_off]. rewrite Ha. apply align_up_8.
Qed.

(** ** States that differ in how the registers in use are described *)

Definition pstate_eq (s t : pstate) : Prop :=
  ncrn s = ncrn t /\ nsaa s = nsaa t /\ vfp_closed s = vfp_closed t /\ forall r, vfp_in_use s r <-> vfp_in_use t r.

#[export] Instance pstate_eq_equiv : Equivalence pstate_eq.
Proof.
  split.
  - intros s. repeat split; auto.
  - intros s t (A & B & C & D). repeat split; auto; apply D.
  - intros s t u (A & B & C & D) (A' & B' & C' & D'). repeat split; try congruence; intros H; [apply D', D|apply D, D']; exact H.
Qed.

Lemma fits_eq s t slots step b : pstate_eq s t -> abi_fits s slots step b <-> abi_fits t slots step b.
Proof. intros (_ & _ & _ & D). unfold abi_fits. setoid_rewrite D. reflexivity. Qed.

Lemma aapcs_start_eq s t a p s' : pstate_eq s t -> aapcs s a p s' -> aapcs t a p s'.
Proof.
  intros E H. pose proof E as (A & B & C & D).
  assert (core_start s a = core_start t a) as Ec by (unfold core_start; rewrite A; reflexivity). assert (mem_start s a = mem_start t a) as Em by (unfold mem_start; rewrite B; reflexivity).
  destruct H as [slots step base s' Ev Hc Hf Hm E1 E2 E3 E4|slots step s' Ev Hn E1 E2 E3 E4|s' Ev Hle E1 E2 E3 E4|s' Ev Hlt Hgt Hz E1 E2 E3 E4|s' Ev Hgt Hns E1 E2 E3 E4];
    rewrite ?Ec, ?Em in *; setoid_rewrite D in E4; try (setoid_rewrite (fits_eq s t) in Hm; [|exact E]); try (rewrite (fits_eq s t) in Hf by exact E);
    try (setoid_rewrite (fits_eq s t) in Hn; [|exact E]).
  - apply C1_vfp with step; try assumption; congruence.
  - apply C2_vfp with slots step; try assumption. destruct Hn as [Hn|Hn]; [left; congruence|right; exact Hn]. congruence.
  - apply C4_core; try assumption; congruence.
  - apply C5_split; try assumption; congruence.
  - apply C8_mem; try assumption; [|congruence]. rewrite <- B. exact Hns.
Qed.

#[export] Instance aapcs_proper : Proper (pstate_eq ==> eq ==> eq ==> eq ==> iff) aapcs.
Proof. intros s t E a a' <- p p' <- s' s'' <-. split; apply aapcs_start_eq; [exact E|symmetry; exact E]. Qed.

(** Before the first argument. *)
Definition call_start : pstate := {| ncrn := 0; nsaa := 0; vfp_in_use := fun _ => False; vfp_closed := false |}.

Lemma layout_zero_start cap al hf var : pstate_eq (abs_layout (layout_zero cap 0 al hf var)) call_start.
Proof. repeat split; cbn; intros H; [rewrite Z.bits_0 in H; discriminate|contradiction]. Qed.

Lemma layout_zero_ok cap r al hf var : 0 <= r <= 4 -> al = 0 \/ al = 8 -> abi_layout_ok (layout_zero cap r al hf var).
Proof. intros Hr Ha. split; [|split; [cbn; lia|exact Ha]]. split; [exact Hr|]. split; [cbn; lia|apply Z.divide_0_r]. Qed.

Lemma classify_args_follow args : forall l i, abi_layout_ok l -> Forall desc_ok args -> 0 <= i ->
  let '(locs, l') := classify_args l i args in
  length locs = length args /\ abi_layout_ok l' /\ (args <> [] -> cl_stack_size l' = round_up 8 (cl_next_stack_off l')) /\ (args = [] -> l' = l) /\
  aapcs_all (abs_layout l) (map (arg_of (cl_hard_float l) (cl_is_variadic l)) args) (zip_with place_of args locs) (abs_layout l').
Proof.
  induction args as [|d args IH]; intros l i Hok Hd Hi; cbn [classify_args].
  - split; [reflexivity|]. split; [exact Hok|]. split; [congruence|]. split; [reflexivity|constructor].
  - inversion Hd as [|? ? Hd1 Hd2]; subst. pose proof (classify_follows l i d Hok Hd1 Hi) as H. destruct (tcc_abi_classify_argument l i d) as [loc l1].
    destruct H as (Hok1 & Hh & Hv & _ & Hs & Ha). specialize (IH l1 (i + 1) Hok1 Hd2 ltac:(lia)). destruct (classify_args l1 (i + 1) args) as [locs l2]. destruct IH as (L & Hok2 & Hs2 & Hnil & H2).
    split; [cbn; congruence|]. split; [exact Hok2|]. split; [intros _; destruct args as [|x args]; [rewrite (Hnil eq_refl); exact Hs|apply Hs2; discriminate]|]. split; [discriminate|].
    cbn [map zip_with]. rewrite Hh, Hv in H2. econstructor; [exact Ha|exact H2].
Qed.

Lemma aapcs_all_start s t l ps s2 : pstate_eq s t -> aapcs_all s l ps s2 -> exists t2, pstate_eq s2 t2 /\ aapcs_all t l ps t2.
Proof.
  intros E H. destruct H as [s|s a p s1 l ps s2 Ha H]; [exists t; split; [exact E|constructor]|]. exists s2. split; [reflexivity|]. econstructor; [rewrite <- E; exact Ha|exact H].
Qed.

Lemma assign_follows cap hf var args : Forall desc_ok args ->
  let '(locs, size) := tcc_gen_machine_abi_assign_call_args cap hf var args in
  length locs = length args /\ exists s, aapcs_all call_start (map (arg_of hf var) args) (zip_with place_of args locs) s /\ size = round_up 8 (nsaa s).
Proof.
  intros Hd. unfold tcc_gen_machine_abi_assign_call_args. set (l0 := layout_zero cap 0 8 hf var).
  pose proof (classify_args_follow args l0 0 ltac:(apply layout_zero_ok; [lia|auto]) Hd ltac:(lia)) as H. destruct (classify_args l0 0 args) as [locs l']. destruct H as (L & _ & Hs & Hnil & H).
  split; [exact L|]. destruct (aapcs_all_start _ call_start _ _ _ (layout_zero_start cap 8 hf var) H) as (s & (_ & En & _) & Hall). exists s. split; [exact Hall|]. rewrite <- En.
  destruct args as [|d args]; [rewrite (Hnil eq_refl); reflexivity|]. apply Hs. discriminate.
Qed.

(** ** The claims *)

(** C6: The layout of a call is the one of the procedure call standard: the
    locations [tcc_abi_classify_argument] chooses, argument by argument, are
    a run of the rules C.1 to C.8 (with the VFP variant) from the start of a
    call, for every list of arguments, and the stack area is the rounded end of
    that run. *)
Theorem call_layout_follows_aapcs cap hf var args locs size : Forall desc_ok args ->
  tcc_gen_machine_abi_assign_call_args cap hf var args = (locs, size) ->
  length locs = length args /\ exists s, aapcs_all call_start (map (arg_of hf var) args) (zip_with place_of args locs) s /\ size = round_up 8 (nsaa s).
Proof. intros Hd E. pose proof (assign_follows cap hf var args Hd) as H. rewrite E in H. exact H. Qed.

(** C16: For well-formed argument descriptions, the places of the arguments of a call share
    no register and no byte, and each suits its argument: core registers are among r0-r3 and
    s-registers among s0-s15; a stack place starts at a multiple of 4, of 8 when the
    argument is double-word aligned and wholly on the stack, and lies inside the area; a
    double-word aligned argument in core registers starts at an even one. An argument that
    is not a candidate for the VFP registers gets exactly its words, in core registers and
    on the stack; a candidate gets either exactly its s-registers, in a row and aligned to
    its element, or exactly its words on the stack. The area is a multiple of 8 bytes and at
    most the words of all arguments with 4 bytes of padding for each and 4 at the end. *)
Theorem call_layout_sound cap hf var args locs size : Forall desc_ok args ->
  tcc_gen_machine_abi_assign_call_args cap hf var args = (locs, size) ->
  let places := zip_with place_of args locs in
  ForallOrdPairs separate places /\ Forall2 suits (map (arg_of hf var) args) places /\
  Forall (fun p => forall off n, p_mem p = Some (off, n) -> off + n <= size) places /\
  (8 | size) /\ 0 <= size <= stack_bound (map (arg_of hf var) args) + 4.
Proof.
  intros Hd E places. pose proof (assign_follows cap hf var args Hd) as H. rewrite E in H. destruct H as (_ & s & H & ->).
  assert (pstate_ok call_start) as H0 by (split; [cbn; lia|]; split; [cbn; lia|apply Z.divide_0_r]).
  assert (Forall arg_ok (map (arg_of hf var) args)) as Hargs by (apply Forall_map; eapply List.Forall_impl; [|exact Hd]; intros d; apply desc_words).
  destruct (all_separate _ _ _ _ H H0 Hargs) as ((_ & _ & H4) & Hn & Hb & Hs & Hsu). pose proof (round_up_8_4 _ H4). destruct (round_up_ge 8 (nsaa s) ltac:(lia)) as [Hr Hdv]. cbn [call_start nsaa] in Hn.
  split; [exact Hs|]. split; [exact Hsu|]. split; [|split; [exact Hdv|lia]].
  eapply List.Forall_impl; [|exact Hb]. intros p (_ & _ & B) off n Ep. specialize (B off n Ep). lia.
Qed.

(** ** Dropping the hidden result pointer *)

(** The moves, one after the other. *)
Fixpoint run_moves {V} (moves : list (Z * Z)) (regs : Z -> V) : Z -> V :=
  match moves with
  | [] => regs
  | (s, d) :: moves => run_moves moves (fun r => if r =? d then regs s else regs r)
  end.

(** Sources and targets ascend, no target is above its source. *)
Record moves_ok (max : nat) (rs rd : Z) (moves : list (Z * Z)) : Prop := {
  mo_sorted i j x y : (i < j)%nat -> moves !! i = Some x -> moves !! j = Some y -> fst x < fst y /\ snd x < snd y;
  mo_bound x : x ∈ moves -> snd x <= fst x /\ fst x < rs /\ snd x < rd;
  mo_length : (length moves <= max)%nat
}.

Lemma moves_ok_mono max rs rd rs' rd' moves : rs <= rs' -> rd <= rd' -> moves_ok max rs rd moves -> moves_ok max rs' rd' moves.
Proof. intros H1 H2 [A B C]. constructor; [exact A| |exact C]. intros x Hx. specialize (B x Hx). lia. Qed.

Lemma moves_ok_snoc max s d moves : d <= s -> (length moves < max)%nat -> moves_ok max s d moves -> moves_ok max (s + 1) (d + 1) (moves ++ [(s, d)]).
Proof.
  intros Hd Hl [A B C]. constructor.
  - intros i j x y Hij Hx Hy. apply lookup_app_Some in Hy as [Hy|[Hge Hy]].
    + apply (A i j); [exact Hij| |exact Hy]. rewrite lookup_app_l in Hx; [exact Hx|]. apply lookup_lt_Some in Hy. lia.
    + assert (j - length moves = 0)%nat as Ej by (apply lookup_lt_Some in Hy; cbn in Hy; lia). rewrite Ej in Hy. injection Hy as <-.
      rewrite lookup_app_l in Hx by lia. apply list_elem_of_lookup_2, B in Hx. cbn. lia.
  - intros x Hx. apply elem_of_app in Hx as [Hx|Hx]; [specialize (B x Hx); lia|]. apply list_elem_of_singleton in Hx as ->. cbn. lia.
  - rewrite length_app. cbn. lia.
Qed.

Lemma run_moves_other {V} moves : forall (regs : Z -> V) r, (forall x, x ∈ moves -> snd x <> r) -> run_moves moves regs r = regs r.
Proof.
  induction moves as [|[s d] moves IH]; intros regs r Hr; [reflexivity|]. cbn [run_moves]. rewrite IH by (intros x Hx; apply Hr; right; exact Hx).
  pose proof (Hr (s, d) ltac:(left)) as Hne. cbn in Hne. destruct (Z.eqb_spec r d); [congruence|reflexivity].
Qed.

(** Nothing is overwritten before it is read. *)
Lemma run_moves_sorted {V} moves : (forall i j x y, (i < j)%nat -> moves !! i = Some x -> moves !! j = Some y -> fst x < fst y /\ snd x < snd y) ->
  (forall x, x ∈ moves -> snd x <= fst x) -> forall (regs : Z -> V) s d, (s, d) ∈ moves -> run_moves moves regs d = regs s.
Proof.
  induction moves as [|[s0 d0] moves IH]; intros A B regs s d H; [apply elem_of_nil in H; contradiction|]. cbn [run_moves].
  assert (forall x, x ∈ moves -> s0 < fst x /\ d0 < snd x) as Hfirst by (intros x Hx; apply list_elem_of_lookup in Hx as [j Hj]; exact (A O (S j) (s0, d0) x ltac:(lia) eq_refl Hj)).
  apply elem_of_cons in H as [E|H].
  - injection E as -> ->. rewrite run_moves_other by (intros x Hx; specialize (Hfirst x Hx); lia). rewrite Z.eqb_refl. reflexivity.
  - rewrite (IH) with (s := s); [|intros i j x y Hij Hi Hj; apply (A (S i) (S j)); [lia|exact Hi|exact Hj]|intros x Hx; apply B; right; exact Hx|exact H].
    pose proof (Hfirst _ H) as Hf. pose proof (B (s0, d0) ltac:(left)) as Hb. cbn in Hf, Hb. destruct (Z.eqb_spec s d0); [lia|reflexivity].
Qed.

Lemma word_moves_ok max k : forall src dst moves m, moves_ok max src dst moves -> 0 <= dst <= src -> src + Z.of_nat k <= 4 -> word_moves k src dst max moves = Some m ->
  moves_ok max (src + Z.of_nat k) (dst + Z.of_nat k) m /\ (forall x, x ∈ moves -> x ∈ m) /\ forall j, 0 <= j < Z.of_nat k -> (src + j, dst + j) ∈ m.
Proof.
  induction k as [|k IH]; intros src dst moves m Hok Hd Hk E; cbn [word_moves] in E.
  - injection E as <-. rewrite !Z.add_0_r. split; [exact Hok|]. split; [auto|]. intros j Hj. lia.
  - destruct (Nat.leb max (length moves)) eqn:El; [discriminate|]. apply Nat.leb_gt in El. rewrite !u8_id in E by lia.
    destruct (IH (src + 1) (dst + 1) (moves ++ [(src, dst)]) m) as (H1 & H2 & H3); [apply moves_ok_snoc; [lia|exact El|exact Hok]|lia|lia|exact E|].
    replace (src + Z.of_nat (S k)) with (src + 1 + Z.of_nat k) by lia. replace (dst + Z.of_nat (S k)) with (dst + 1 + Z.of_nat k) by lia.
    split; [exact H1|]. split; [intros x Hx; apply H2, elem_of_app; left; exact Hx|]. intros j Hj. destruct (Z.eq_dec j 0) as [->|Hne].
    + rewrite !Z.add_0_r. apply H2, elem_of_app. right. left.
    + replace (src + j) with (src + 1 + (j - 1)) by lia. replace (dst + j) with (dst + 1 + (j - 1)) by lia. apply H3. lia.
Qed.

Lemma reg_loc l i d loc l' : abi_layout_ok l -> desc_ok d -> 0 <= i -> tcc_abi_classify_argument l i d = (loc, l') ->
  abi_layout_ok l' /\ cl_next_reg l <= cl_next_reg l' <= 4 /\
  (al_kind loc = TCC_ABI_LOC_REG -> 0 < al_reg_count loc -> cl_next_reg l <= al_reg_base loc /\ al_reg_base loc + al_reg_count loc <= cl_next_reg l').
Proof.
  intros Hok Hd Hi E. pose proof (classify_follows l i d Hok Hd Hi) as H. rewrite E in H. destruct H as (Hok' & _ & _ & _ & _ & Ha).
  destruct (desc_words (cl_hard_float l) (cl_is_variadic l) d Hd) as [Hw Hv]. pose proof (aapcs_takes _ _ _ _ (proj1 Hok) Hw Hv Ha) as T.
  split; [exact Hok'|]. pose proof (tk_ncrn _ _ _ _ T) as Hn. destruct Hok' as (((_ & H4) & _) & _). cbn [abs_layout ncrn] in *. split; [lia|]. intros Ek Hc.
  assert (forall r, al_reg_base loc <= r < al_reg_base loc + al_reg_count loc -> cl_next_reg l <= r < cl_next_reg l') as Hin.
  { intros r Hr. apply (tk_core _ _ _ _ T r). unfold place_of. rewrite Ek. cbn [p_core]. apply elem_of_seqZ. lia. }
  pose proof (Hin (al_reg_base loc) ltac:(lia)). pose proof (Hin (al_reg_base loc + al_reg_count loc - 1) ltac:(lia)). lia.
Qed.

(** An argument the moves bring from [a] to [b]. *)
Definition arg_moved (m : list (Z * Z)) (a b : TCCAbiArgLoc) : Prop :=
  (al_kind a = TCC_ABI_LOC_VFP_REG /\ al_kind b = TCC_ABI_LOC_VFP_REG /\ al_reg_base a = al_reg_base b) \/
  (al_kind a = TCC_ABI_LOC_REG /\ al_kind b = TCC_ABI_LOC_REG /\ al_reg_count a = al_reg_count b /\
   forall j, 0 <= j < al_reg_count a -> (al_reg_base a + j, al_reg_base b + j) ∈ m).

Lemma arg_moved_mono m m' a b : (forall x, x ∈ m -> x ∈ m') -> arg_moved m a b -> arg_moved m' a b.
Proof. intros H [E|(E1 & E2 & E3 & E4)]; [left; exact E|right]. repeat split; auto. Qed.

Lemma arg_moves_ok max lA lA' lB lB' i d a b moves m : abi_layout_ok lA -> abi_layout_ok lB -> desc_ok d -> 0 <= i ->
  tcc_abi_classify_argument lA i d = (a, lA') -> tcc_abi_classify_argument lB i d = (b, lB') ->
  moves_ok max (cl_next_reg lA) (cl_next_reg lB) moves -> arg_moves a b max moves = Some m ->
  moves_ok max (cl_next_reg lA') (cl_next_reg lB') m /\ (forall x, x ∈ moves -> x ∈ m) /\ arg_moved m a b.
Proof.
  intros HA HB Hd Hi EA EB Hm E. destruct (reg_loc lA i d a lA' HA Hd Hi EA) as (_ & NA & RA). destruct (reg_loc lB i d b lB' HB Hd Hi EB) as (_ & NB & RB).
  unfold arg_moves in E. destruct (al_kind a) eqn:Ka, (al_kind b) eqn:Kb; try discriminate.
  - destruct (negb (al_reg_count a =? al_reg_count b) || (al_reg_base a <? al_reg_base b)) eqn:Eg; [discriminate|]. apply orb_false_iff in Eg as [Eg1 Eg2]. apply negb_false_iff, Z.eqb_eq in Eg1.
    destruct (Z.le_gt_cases (al_reg_count a) 0) as [Hz|Hp].
    + replace (Z.to_nat (al_reg_count a)) with O in E by lia. injection E as <-. split; [exact (moves_ok_mono _ _ _ _ _ _ (proj1 NA) (proj1 NB) Hm)|]. split; [auto|]. right. repeat split; auto. intros j Hj. lia.
    + destruct (RA eq_refl Hp) as [A1 A2]. destruct (RB eq_refl ltac:(lia)) as [B1 B2]. destruct HB as (((B0 & _) & _) & _). cbn [abs_layout ncrn] in B0.
      destruct (word_moves_ok max (Z.to_nat (al_reg_count a)) (al_reg_base a) (al_reg_base b) moves m) as (H1 & H2 & H3);
        [exact (moves_ok_mono _ _ _ _ _ _ A1 B1 Hm)|lia|lia|exact E|]. rewrite Z2Nat.id in * by lia.
      rewrite <- Eg1 in B2. split; [exact (moves_ok_mono _ _ _ _ _ _ A2 B2 H1)|]. split; [exact H2|]. right. repeat split; auto.
  - destruct (Z.eqb_spec (al_reg_base a) (al_reg_base b)) as [Eq|]; [|discriminate]. injection E as <-. split; [exact (moves_ok_mono _ _ _ _ _ _ (proj1 NA) (proj1 NB) Hm)|]. split; [auto|]. left. auto.
Qed.

Lemma sret_moves_ok max args : forall lA lB i moves m, abi_layout_ok lA -> abi_layout_ok lB -> Forall desc_ok args -> 0 <= i ->
  moves_ok max (cl_next_reg lA) (cl_next_reg lB) moves -> sret_moves lA lB i args max moves = Some m ->
  moves_ok max 4 4 m /\ (forall x, x ∈ moves -> x ∈ m) /\ Forall2 (arg_moved m) (fst (classify_args lA i args)) (fst (classify_args lB i args)).
Proof.
  induction args as [|d args IH]; intros lA lB i moves m HA HB Hd Hi Hm E; cbn [sret_moves classify_args] in *.
  - injection E as <-. split; [|split; [auto|constructor]]. destruct HA as (((_ & A) & _) & _). destruct HB as (((_ & B) & _) & _). exact (moves_ok_mono _ _ _ _ _ _ A B Hm).
  - inversion Hd as [|? ? Hd1 Hd2]; subst. destruct (tcc_abi_classify_argument lA i d) as [a lA'] eqn:EA. destruct (tcc_abi_classify_argument lB i d) as [b lB'] eqn:EB.
    destruct (arg_moves a b max moves) as [m1|] eqn:Em; [|discriminate]. destruct (arg_moves_ok max lA lA' lB lB' i d a b moves m1 HA HB Hd1 Hi EA EB Hm Em) as (H1 & H2 & H3).
    destruct (IH lA' lB' (i + 1) m1 m (proj1 (reg_loc _ _ _ _ _ HA Hd1 Hi EA)) (proj1 (reg_loc _ _ _ _ _ HB Hd1 Hi EB)) Hd2 ltac:(lia) H1 E) as (I1 & I2 & I3).
    split; [exact I1|]. split; [auto|]. destruct (classify_args lA' (i + 1) args) as [la ?]. destruct (classify_args lB' (i + 1) args) as [lb ?]. cbn [fst] in *.
    constructor; [exact (arg_moved_mono m1 m a b I2 H3)|exact I3].
Qed.

(** C27: When [tcc_ir_params_sret_shift_moves] returns moves, doing them in order
    turns the registers of a call with a hidden result pointer in r0 into those
    of the same call without it: every argument is in registers both times, each
    word ends up where the other layout wants it, no move destroys a word that a
    later one needs, and there are at most [max] of them. *)
Theorem sret_shift_correct {V} hf var args max moves (regs : Z -> V) : Forall desc_ok args -> tcc_ir_params_sret_shift_moves hf var args max = Some moves ->
  (length moves <= max)%nat /\
  Forall2 (fun a b => (al_kind a = TCC_ABI_LOC_VFP_REG /\ al_kind b = TCC_ABI_LOC_VFP_REG /\ al_reg_base a = al_reg_base b) \/
                      (al_kind a = TCC_ABI_LOC_REG /\ al_kind b = TCC_ABI_LOC_REG /\ al_reg_count a = al_reg_count b /\
                       forall j, 0 <= j < al_reg_count a -> run_moves moves regs (al_reg_base b + j) = regs (al_reg_base a + j)))
    (fst (classify_args (layout_zero 0 1 0 hf var) 0 args)) (fst (classify_args (layout_zero 0 0 0 hf var) 0 args)).
Proof.
  intros Hd E. destruct (sret_moves_ok max args (layout_zero 0 1 0 hf var) (layout_zero 0 0 0 hf var) 0 [] moves) as (H1 & _ & H2);
    [apply layout_zero_ok; [lia|auto]|apply layout_zero_ok; [lia|auto]|exact Hd|lia| |exact E|].
  { constructor; [intros i j x y _ Hx; discriminate|intros x Hx; apply elem_of_nil in Hx; contradiction|cbn; lia]. }
  split; [exact (mo_length _ _ _ _ H1)|]. eapply List.Forall2_impl; [|exact H2]. intros a b [Hv|(Ka & Kb & Kc & Hm)]; [left; exact Hv|right].
  repeat split; auto. intros j Hj. apply run_moves_sorted; [exact (mo_sorted _ _ _ _ H1)|intros x Hx; apply (mo_bound _ _ _ _ H1 x Hx)|apply Hm; exact Hj].
Qed.

(** ** The arrays *)

Lemma double_until_ge fuel : forall cap needed, 1 <= cap -> needed - cap <= Z.of_nat fuel -> needed <= double_until fuel cap needed.
Proof.
  induction fuel as [|fuel IH]; intros cap needed Hc Hf; cbn [double_until]; [lia|]. destruct (cap <? needed) eqn:E; [|lia]. apply IH; lia.
Qed.

Definition arrays_ok (l : abi_arrays) : Prop :=
  0 <= ar_capacity l /\ Forall (fun o => o = None \/ o = Some (ar_capacity l)) [ar_locs l; ar_args_original l; ar_args_effective l; ar_arg_flags l].

(** Every array has the capacity, and the capacity is enough. *)
Lemma ensure_capacity_ok l needed : arrays_ok l -> 0 < needed ->
  let l' := tcc_abi_call_layout_ensure_capacity l needed in
  needed <= ar_capacity l' /\ [ar_locs l'; ar_args_original l'; ar_args_effective l'; ar_arg_flags l'] = replicate 4 (Some (ar_capacity l')).
Proof.
  intros [H0 H] Hn. unfold tcc_abi_call_layout_ensure_capacity. replace (needed <=? 0) with false by lia.
  destruct ((needed <=? ar_capacity l) && all_present l) eqn:E; cbv zeta.
  - apply andb_true_iff in E as [E1 E2]. split; [lia|]. unfold all_present in E2. apply list.Forall_cons in H as [A H]. apply list.Forall_cons in H as [B H]. apply list.Forall_cons in H as [C H]. apply list.Forall_cons in H as [D _].
    destruct A as [A|A], B as [B|B], C as [C|C], D as [D|D]; rewrite A, B, C, D in *; try discriminate E2. reflexivity.
  - split; [|reflexivity]. cbn [ar_capacity]. unfold new_capacity. apply double_until_ge; unfold truth; destruct (Z.eqb_spec (ar_capacity l) 0); cbn [negb]; lia.
Qed.

(** The classification raises the capacity of a layout whose arrays stay as they were. *)
Example capacity_unbacked : cl_capacity (snd (tcc_abi_classify_argument (layout_zero 8 0 8 false false) 8 int_arg)) = 16.
Proof. vm_compute. reflexivity. Qed.

(** ** On concrete calls *)

Definition demo_args : list TCCAbiArgDesc := [float_arg; double_arg; float_arg; int_arg; struct_arg 20 4].
Definition demo_locs : list TCCAbiArgLoc := [loc_vfp 4 0 1; loc_vfp 8 2 2; loc_vfp 4 1 1; loc_reg 4 0 1; loc_split 20 1 3 0 8].

Ltac desc_easy k := constructor; cbn; [lia|exists k; split; [lia|reflexivity]|lia|(intros; split; [reflexivity|lia]) || discriminate|(intros; split; [reflexivity|lia]) || discriminate].

Lemma int_desc : desc_ok int_arg.
Proof. desc_easy 2. Qed.

Lemma demo_descs : Forall desc_ok demo_args.
Proof.
  repeat (apply List.Forall_cons || apply List.Forall_nil); [desc_easy 2|desc_easy 3|desc_easy 2|exact int_desc|desc_easy 2].
Qed.

Lemma demo_layout : tcc_gen_machine_abi_assign_call_args 8 true false demo_args = (demo_locs, 8).
Proof. vm_compute. reflexivity. Qed.

Lemma call_layout_follows_aapcs_witness : exists s,
  aapcs_all call_start (map (arg_of true false) demo_args)
    [{| p_core := []; p_vfp := [0]; p_mem := None |}; {| p_core := []; p_vfp := [2; 3]; p_mem := None |}; {| p_core := []; p_vfp := [1]; p_mem := None |};
     {| p_core := [0]; p_vfp := []; p_mem := None |}; {| p_core := [1; 2; 3]; p_vfp := []; p_mem := Some (0, 8) |}] s.
Proof.
  destruct (call_layout_follows_aapcs 8 true false demo_args demo_locs 8 demo_descs demo_layout) as (_ & s & H & _). exists s. exact H.
Defined.

Lemma call_layout_sound_witness : ForallOrdPairs separate (zip_with place_of demo_args demo_locs) /\ Forall2 suits (map (arg_of true false) demo_args) (zip_with place_of demo_args demo_locs) /\ (8 | 8).
Proof.
  destruct (call_layout_sound 8 true false demo_args demo_locs 8 demo_descs demo_layout) as (H & Hs & _ & H8 & _). split; [exact H|]. split; [exact Hs|exact H8].
Defined.

Lemma sret_shift_correct_witness : tcc_ir_params_sret_shift_moves false false [int_arg; int_arg] 4 = Some [(1, 0); (2, 1)] /\ run_moves [(1, 0); (2, 1)] (fun r => 10 * r) 1 = 20.
Proof.
  split; [vm_compute; reflexivity|].
  assert (Forall desc_ok [int_arg; int_arg]) as Hd by (constructor; [exact int_desc|constructor; [exact int_desc|constructor]]).
  destruct (sret_shift_correct false false [int_arg; int_arg] 4 [(1, 0); (2, 1)] (fun r => 10 * r) Hd ltac:(vm_compute; reflexivity)) as [_ H].
  inversion H as [|? ? ? ? _ H2]; subst. inversion H2 as [|? ? ? ? [[Hv _]|(_ & _ & _ & H3)] _]; subst; [discriminate|]. exact (H3 0 ltac:(cbn; lia)).
Defined.
