(* ===== verification/Fold.v ===== *)
(** * Constant folding

    The comparison tokens and their folds ([src/source/opt/util/cond_util.c]),
    the integer fold the constant passes share ([opt/util/const_eval.c] and its
    callers in [sccp.c] and [known_bits.c]), the barrel shifter of [fold.c], and
    the front end's folding of integer operators ([frontend/gen/op/int.c] with
    the token selection of [op.c]).  An [int64_t] is a [Z] between [-2^63] and
    [2^63], a [uint64_t] one below [2^64]. *)

From S2P Require Import Prelude EabiInt.
Local Open Scope Z_scope.
Local Open Scope c_scope.

(** A [switch] on an integer with one value per case. *)
Fixpoint switch {A} (x : Z) (cases : list (Z * A)) (d : A) : A :=
  match cases with [] => d | (k, v) :: r => if x =? k then v else switch x r d end.

Definition TOK_LAND := 0x90.
Definition TOK_LOR := 0x91.
Definition TOK_ULT := 0x92.
Definition TOK_UGE := 0x93.
Definition TOK_EQ := 0x94.
Definition TOK_NE := 0x95.
Definition TOK_ULE := 0x96.
Definition TOK_UGT := 0x97.
Definition TOK_LT := 0x9c.
Definition TOK_GE := 0x9d.
Definition TOK_LE := 0x9e.
Definition TOK_GT := 0x9f.

(** ** Comparison tokens *)

Definition evaluate_compare_condition (val1 val2 cond_token : Z) : Z :=
  switch cond_token
    [(TOK_EQ, b2z (val1 =? val2)); (TOK_NE, b2z (negb (val1 =? val2)));
     (TOK_LT, b2z (val1 <? val2)); (TOK_GE, b2z (val2 <=? val1));
     (TOK_LE, b2z (val1 <=? val2)); (TOK_GT, b2z (val2 <? val1));
     (TOK_ULT, b2z (u64 val1 <? u64 val2)); (TOK_UGE, b2z (u64 val2 <=? u64 val1));
     (TOK_ULE, b2z (u64 val1 <=? u64 val2)); (TOK_UGT, b2z (u64 val2 <? u64 val1))] (-1).

Definition vrp_negate_cmp_tok (tok : Z) : Z :=
  switch tok
    [(TOK_EQ, TOK_NE); (TOK_NE, TOK_EQ); (TOK_LT, TOK_GE); (TOK_GE, TOK_LT); (TOK_LE, TOK_GT);
     (TOK_GT, TOK_LE); (TOK_ULT, TOK_UGE); (TOK_UGE, TOK_ULT); (TOK_ULE, TOK_UGT); (TOK_UGT, TOK_ULE)] (-1).

Definition vrp_swap_cmp_tok (tok : Z) : Z :=
  switch tok
    [(TOK_EQ, TOK_EQ); (TOK_NE, TOK_NE); (TOK_LT, TOK_GT); (TOK_GT, TOK_LT); (TOK_LE, TOK_GE);
     (TOK_GE, TOK_LE); (TOK_ULT, TOK_UGT); (TOK_UGT, TOK_ULT); (TOK_ULE, TOK_UGE); (TOK_UGE, TOK_ULE)] (-1).

Definition vrp_cmp_implies (known_true check : Z) : bool :=
  if known_true =? check then true else
  switch known_true
    [(TOK_EQ, (check =? TOK_LE) || (check =? TOK_GE) || (check =? TOK_ULE) || (check =? TOK_UGE));
     (TOK_LT, (check =? TOK_LE) || (check =? TOK_NE));
     (TOK_GT, (check =? TOK_GE) || (check =? TOK_NE));
     (TOK_ULT, (check =? TOK_ULE) || (check =? TOK_NE));
     (TOK_UGT, (check =? TOK_UGE) || (check =? TOK_NE))] false.

Definition fcmp_cmp_implies (known_true check : Z) : bool :=
  if known_true =? check then true else
  switch known_true
    [(TOK_EQ, (check =? TOK_LE) || (check =? TOK_GE));
     (TOK_NE, check =? TOK_NE);
     (TOK_LT, (check =? TOK_LE) || (check =? TOK_NE) || (check =? TOK_ULE));
     (TOK_ULT, (check =? TOK_LE) || (check =? TOK_NE) || (check =? TOK_ULE));
     (TOK_GT, (check =? TOK_GE) || (check =? TOK_NE) || (check =? TOK_UGE));
     (TOK_UGT, (check =? TOK_GE) || (check =? TOK_NE) || (check =? TOK_UGE))] false.

Definition swap_cond_token (tok : Z) : Z :=
  switch tok
    [(0x94, tok); (0x95, tok); (0x9c, 0x9f); (0x9f, 0x9c); (0x9e, 0x9d); (0x9d, 0x9e);
     (0x92, 0x97); (0x97, 0x92); (0x96, 0x93); (0x93, 0x96)] (-1).

Definition invert_cond_token (tok : Z) : Z :=
  switch tok
    [(0x94, 0x95); (0x95, 0x94); (0x9c, 0x9d); (0x9d, 0x9c); (0x9e, 0x9f); (0x9f, 0x9e);
     (0x92, 0x93); (0x93, 0x92); (0x96, 0x97); (0x97, 0x96)] (-1).

Definition invert_condition (cond : Z) : Z :=
  switch cond
    [(TOK_GE, TOK_LT); (TOK_GT, TOK_LE); (TOK_LT, TOK_GE); (TOK_LE, TOK_GT); (TOK_EQ, TOK_NE);
     (TOK_NE, TOK_EQ); (TOK_UGE, TOK_ULT); (TOK_UGT, TOK_ULE); (TOK_ULT, TOK_UGE); (TOK_ULE, TOK_UGT)] (-1).

Definition ir_negate_condition (cond : Z) : Z := cond ^^^ 1.

Definition nan_compare_branch_result (cond_token : Z) : Z :=
  switch cond_token
    [(TOK_EQ, 0); (TOK_LT, 0); (TOK_LE, 0); (TOK_ULT, 0); (TOK_ULE, 0); (TOK_NE, 1)] (-1).

(** ** Comparisons of IR operands

    Of an operand the folds read the tag, the type and the signedness. *)
Inductive irop_tag := IROP_TAG_NONE | IROP_TAG_VREG | IROP_TAG_IMM32 | IROP_TAG_STACKOFF | IROP_TAG_F32
  | IROP_TAG_I64 | IROP_TAG_F64 | IROP_TAG_SYMREF.

Inductive irop_btype := IROP_BTYPE_INT32 | IROP_BTYPE_INT64 | IROP_BTYPE_FLOAT32 | IROP_BTYPE_FLOAT64
  | IROP_BTYPE_STRUCT | IROP_BTYPE_FUNC | IROP_BTYPE_INT8 | IROP_BTYPE_INT16.

#[export] Instance irop_tag_eq_dec : EqDecision irop_tag.
Proof. solve_decision. Defined.

#[export] Instance irop_btype_eq_dec : EqDecision irop_btype.
Proof. solve_decision. Defined.

Record IROperand := { op_tag : irop_tag; op_btype : irop_btype; op_is_unsigned : bool }.

Definition irop_is_64bit (op : IROperand) : bool :=
  bool_decide (op_btype op = IROP_BTYPE_INT64) || bool_decide (op_btype op = IROP_BTYPE_FLOAT64).

Definition cmp_operand_is_unsigned_int (op : IROperand) : bool :=
  op_is_unsigned op &&
  (bool_decide (op_tag op = IROP_TAG_I64) ||
   bool_decide (op_btype op = IROP_BTYPE_INT8) || bool_decide (op_btype op = IROP_BTYPE_INT16) ||
   bool_decide (op_btype op = IROP_BTYPE_INT32) || bool_decide (op_btype op = IROP_BTYPE_INT64)).

Definition cmp_operands_unsigned_width (src1 src2 : IROperand) : Z :=
  if bool_decide (op_btype src1 = IROP_BTYPE_INT64) || bool_decide (op_btype src2 = IROP_BTYPE_INT64) then 64 else 32.

Definition unsigned_cond_for_cmp_operands (cond : Z) (src1 src2 : IROperand) : Z :=
  if negb (cmp_operand_is_unsigned_int src1) && negb (cmp_operand_is_unsigned_int src2) then cond else
  switch cond [(TOK_LT, TOK_ULT); (TOK_GE, TOK_UGE); (TOK_LE, TOK_ULE); (TOK_GT, TOK_UGT)] cond.

(** The first [switch] of the 32-bit case leaves the unsigned tokens to the second. *)
Definition evaluate_compare_condition_cmp_operands (val1 val2 cond : Z) (src1 src2 : IROperand) : Z :=
  let cond := unsigned_cond_for_cmp_operands cond src1 src2 in
  let w64 := cmp_operands_unsigned_width src1 src2 =? 64 in
  let unsigned_cases :=
    if w64 then evaluate_compare_condition val1 val2 cond else
    let u1 := u32 val1 in
    let u2 := u32 val2 in
    switch cond
      [(TOK_ULT, b2z (u1 <? u2)); (TOK_UGE, b2z (u2 <=? u1));
       (TOK_ULE, b2z (u1 <=? u2)); (TOK_UGT, b2z (u2 <? u1))] (evaluate_compare_condition val1 val2 cond) in
  let second_switch :=
    switch cond
      [(TOK_ULT, unsigned_cases); (TOK_UGE, unsigned_cases); (TOK_ULE, unsigned_cases); (TOK_UGT, unsigned_cases)]
      (evaluate_compare_condition val1 val2 cond) in
  if w64 then second_switch else
  let s1 := s32 (u32 val1) in
  let s2 := s32 (u32 val2) in
  switch cond
    [(TOK_EQ, b2z (u32 val1 =? u32 val2)); (TOK_NE, b2z (negb (u32 val1 =? u32 val2)));
     (TOK_LT, b2z (s1 <? s2)); (TOK_GE, b2z (s2 <=? s1)); (TOK_LE, b2z (s1 <=? s2)); (TOK_GT, b2z (s2 <? s1))]
    second_switch.

(** The shift that the annotation [bs] applies to a 32-bit [m]; [None] for a
    shift type that does not exist. *)
Definition barrel_shift (m bs : Z) : option Z :=
  let amount := bs &&& 0x1F in
  switch (bs >>> 5)
    [(1, Some (m <<< amount));
     (2, Some (m >>> amount));
     (3, Some ((m >>> amount) ||| (if truth (m &&& 0x80000000) && truth amount then ~~~ (0xFFFFFFFF >>> amount) else 0)));
     (4, Some (if truth amount then (m >>> amount) ||| (m <<< (32 - amount)) else m))] None.

Definition fold_apply_barrel (m bs : Z) : Z := default m (barrel_shift m bs).

(** [bs] is the annotation of the compare, [0] for none. *)
Definition evaluate_compare_condition_cmp_annotated (bs val1 val2 cond : Z) (src1 src2 : IROperand) : Z :=
  if truth bs then
    if irop_is_64bit src1 || irop_is_64bit src2 then -1 else
    match barrel_shift (u32 val2) bs with
    | None => -1
    | Some m => evaluate_compare_condition_cmp_operands val1 (s32 m) cond src1 src2
    end
  else evaluate_compare_condition_cmp_operands val1 val2 cond src1 src2.

(** ** The integer fold of the optimiser *)

Inductive IrArithOp :=
  TCCIR_OP_ADD | TCCIR_OP_SUB | TCCIR_OP_AND | TCCIR_OP_OR | TCCIR_OP_XOR | TCCIR_OP_MUL
| TCCIR_OP_SHL | TCCIR_OP_SHR | TCCIR_OP_SAR | TCCIR_OP_ROR | TCCIR_OP_UMULL | TCCIR_OP_SMULL | TCCIR_OP_UBFX
| TCCIR_OP_DIV | TCCIR_OP_PDIV | TCCIR_OP_IMOD | TCCIR_OP_UDIV | TCCIR_OP_UMOD
| TCCIR_OP_PACK64 | TCCIR_OP_ASSIGN | TCCIR_OP_LOAD | TCCIR_OP_ZEXT | TCCIR_OP_OTHER.

(** A fold gives a value, leaves the instruction alone, or divides on the host
    where C leaves the division undefined. *)
Inductive fold_result := Folded (v : Z) | NotFolded | HostTrap.

(** [INT_MIN] over [-1], and a zero divisor. *)
Definition sdiv_undefined (w a b : Z) : bool := (b =? 0) || ((b =? -1) && (a =? - 2 ^ (w - 1))).

(** A rotation by zero shifts [v] left by 32, which C leaves undefined; the
    model takes the zero that the shift of a 32-bit register by 32 gives. *)
Definition ir_opt_const_binop (op : IrArithOp) (is_64 : bool) (v1 v2 : Z) : fold_result :=
  let width := if is_64 then 64 else 32 in
  match op with
  | TCCIR_OP_ADD => Folded (s64 (u64 v1 + u64 v2))
  | TCCIR_OP_SUB => Folded (s64 (u64 v1 - u64 v2))
  | TCCIR_OP_AND => Folded (v1 &&& v2)
  | TCCIR_OP_OR => Folded (v1 ||| v2)
  | TCCIR_OP_XOR => Folded (v1 ^^^ v2)
  | TCCIR_OP_MUL => Folded (s64 (u64 v1 * u64 v2))
  | TCCIR_OP_SHL =>
      if (v2 <? 0) || (width <=? v2) then NotFolded else Folded (s64 (Z.shiftl (u64 v1) v2))
  | TCCIR_OP_SHR =>
      if (v2 <? 0) || (width <=? v2) then NotFolded else
      Folded (if is_64 then s64 (u64 v1 >>> v2) else u32 v1 >>> v2)
  | TCCIR_OP_SAR =>
      if (v2 <? 0) || (width <=? v2) then NotFolded else
      Folded (if is_64 then v1 >>> v2 else s32 v1 >>> v2)
  | TCCIR_OP_ROR =>
      let v := u32 v1 in
      let sh := u32 v2 &&& 31 in
      Folded (s32 ((v >>> sh) ||| (v <<< (32 - sh))))
  | TCCIR_OP_UMULL => Folded (s64 (u32 v1 * u32 v2))
  | TCCIR_OP_SMULL => Folded (s32 v1 * s32 v2)
  | TCCIR_OP_UBFX =>
      let lsb := s32 v2 &&& 0x1F in
      let w := (s32 v2 >>> 5) &&& 0x1F in
      if (w <=? 0) || (32 <? w) then NotFolded else Folded ((u32 v1 >>> lsb) &&& ((1 <<< w) - 1))
  | TCCIR_OP_DIV | TCCIR_OP_PDIV | TCCIR_OP_IMOD =>
      if (v2 =? 0) || ((v2 =? -1) && (if is_64 then v1 =? - 2 ^ 63 else s32 v1 =? - 2 ^ 31)) then NotFolded else
      let a := if is_64 then v1 else s32 v1 in
      let b := if is_64 then v2 else s32 v2 in
      if sdiv_undefined width a b then HostTrap else
      Folded (match op with TCCIR_OP_IMOD => Z.rem a b | _ => Z.quot a b end)
  | TCCIR_OP_UDIV | TCCIR_OP_UMOD =>
      if v2 =? 0 then NotFolded else
      let a := if is_64 then u64 v1 else u32 v1 in
      let b := if is_64 then u64 v2 else u32 v2 in
      if b =? 0 then HostTrap else
      Folded (s64 (match op with TCCIR_OP_UDIV => a / b | _ => a mod b end))
  | _ => NotFolded
  end.

Fixpoint log_loop (fuel : nat) (n log : Z) : Z :=
  match fuel with
  | O => log
  | S fuel => if 1 <? n then log_loop fuel (n >>> 1) (log + 1) else log
  end.

Definition is_power_of_2 (n : Z) : Z :=
  if n <=? 0 then -1 else
  if truth (n &&& (n - 1)) then -1 else
  log_loop 63 n 0.

Definition sccp_eval_binary (op : IrArithOp) (v1 v2 : Z) (is_64 : bool) : fold_result :=
  match op with
  | TCCIR_OP_PACK64 => if is_64 then Folded (s64 (Z.shiftl (u32 v2) 32 ||| u32 v1)) else NotFolded
  | TCCIR_OP_UMULL | TCCIR_OP_SMULL | TCCIR_OP_UBFX | TCCIR_OP_PDIV => NotFolded
  | _ => match ir_opt_const_binop op is_64 v1 v2 with
         | Folded r => Folded (if is_64 then r else s32 r)
         | other => other
         end
  end.

(** The mask of a source type in [ZEXT]. *)
Definition zext_mask (bt : irop_btype) : Z :=
  match bt with
  | IROP_BTYPE_INT8 => 0xFF
  | IROP_BTYPE_INT16 => 0xFFFF
  | IROP_BTYPE_INT32 => 0xFFFFFFFF
  | _ => Z.ones 64
  end.

(** The constant passes of known_bits keep values as [uint64_t]. *)
Definition kb_const_compute (op : IrArithOp) (dest_btype src1_btype : irop_btype) (a b : Z) : option Z :=
  let wide := bool_decide (dest_btype = IROP_BTYPE_INT64) in
  let mask := if wide then Z.ones 64 else 0xFFFFFFFF in
  let out :=
    match op with
    | TCCIR_OP_ASSIGN | TCCIR_OP_LOAD => Some a
    | TCCIR_OP_ZEXT => Some (a &&& zext_mask src1_btype)
    | TCCIR_OP_ADD | TCCIR_OP_SUB | TCCIR_OP_MUL | TCCIR_OP_AND | TCCIR_OP_OR | TCCIR_OP_XOR
    | TCCIR_OP_SHL | TCCIR_OP_SHR | TCCIR_OP_SAR =>
        match ir_opt_const_binop op wide (s64 a) (s64 b) with Folded r => Some (u64 r) | _ => None end
    | _ => None
    end in
  match out with
  | None => None
  | Some v =>
      let v := v &&& mask in
      Some (if negb wide && truth (v &&& 0x80000000) then v ||| u64 (Z.lnot 0xFFFFFFFF) else v)
  end.

(** ** Integer operators in the front end *)

Definition VT_BTYPE := 0x0f.
Definition VT_BYTE := 1.
Definition VT_SHORT := 2.
Definition VT_INT := 3.
Definition VT_LLONG := 4.
Definition VT_PTR := 5.
Definition VT_UNSIGNED := 0x10.
Definition VT_COMPLEX := 0x10000.
Definition TOK_SHL := 60.
Definition TOK_SAR := 62.
Definition TOK_SHR := 0x8b.
Definition TOK_UDIV := 0x83.
Definition TOK_UMOD := 0x84.
Definition TOK_PDIV := 0x85.
Definition CH_MOD := 37.
Definition CH_AND := 38.
Definition CH_MUL := 42.
Definition CH_ADD := 43.
Definition CH_SUB := 45.
Definition CH_DIV := 47.
Definition CH_XOR := 94.
Definition CH_OR := 124.

Definition btype (t : Z) : Z := t &&& VT_BTYPE.

(** With 32-bit pointers only [long long] has 64 bits. *)
Definition value64 (l1 t : Z) : Z :=
  if truth (t &&& VT_COMPLEX) || (btype t =? VT_LLONG) then l1
  else if truth (t &&& VT_UNSIGNED) then u32 l1
  else u32 l1 ||| u64 (- (l1 &&& 0x80000000)).

Definition gen_opic_sdiv (a b : Z) : Z :=
  let x := (if truth (a >>> 63) then u64 (- a) else a) / (if truth (b >>> 63) then u64 (- b) else b) in
  if truth ((a ^^^ b) >>> 63) then u64 (- x) else x.

Definition gen_opic_lt (a b : Z) : Z := b2z ((a ^^^ 2 ^ 63) <? (b ^^^ 2 ^ 63)).

(** Symbols as the folds see them; the marker stands for the pending difference
    of two labels. *)
Inductive CSym := label_diff_marker | NamedSym (id : Z) (anonymous is_label : bool).

#[export] Instance csym_eq_dec : EqDecision CSym.
Proof. solve_decision. Defined.

(** Where a value is ([r] without its flags): a constant, a symbol plus
    constant, the address of a local, a local, or anything else. *)
Inductive sv_place := VT_CONST | VT_CONST_SYM (s : CSym) | VT_LOCAL | VT_LOCAL_LVAL | VT_ELSEWHERE (id : Z).

Record SValue := { sv_t : Z; sv_place_of : sv_place; sv_c : Z; sv_nonconst : bool }.

Definition is_const (v : SValue) : bool := match sv_place_of v with VT_CONST => true | _ => false end.
Definition const_sym (v : SValue) : option CSym := match sv_place_of v with VT_CONST_SYM s => Some s | _ => None end.
Definition with_c (v : SValue) (c : Z) : SValue :=
  {| sv_t := sv_t v; sv_place_of := sv_place_of v; sv_c := c; sv_nonconst := sv_nonconst v |}.
Definition with_nonconst (v : SValue) (b : bool) : SValue :=
  {| sv_t := sv_t v; sv_place_of := sv_place_of v; sv_c := sv_c v; sv_nonconst := sv_nonconst v || b |}.
Definition with_place (v : SValue) (p : sv_place) : SValue :=
  {| sv_t := sv_t v; sv_place_of := p; sv_c := sv_c v; sv_nonconst := sv_nonconst v |}.

Definition label_or_literal (s : CSym) : bool :=
  match s with label_diff_marker => false | NamedSym _ anonymous is_label => anonymous || is_label end.

Definition label_diff_operands_ok (stack : list SValue) (s1 s2 : CSym) : bool :=
  label_or_literal s1 && label_or_literal s2 &&
  negb (existsb (fun sv => bool_decide (const_sym sv = Some label_diff_marker)) stack).

(** What an operator leaves: a value, after the access to a discarded operand,
    a call of the code generator, or the error of a zero divisor. *)
Inductive opic_result :=
| OpValue (discarded : option SValue) (v : SValue)
| OpEmit (wide : bool) (op : Z) (v1 v2 : SValue)
| OpDivisionByZero.

(** The two-constant fold on normalised values: [None] where the instruction is
    generated after all. *)
Definition opic_const (op shm l1 l2 : Z) : option Z :=
  switch op
    [(CH_ADD, Some (u64 (l1 + l2))); (CH_SUB, Some (u64 (l1 - l2))); (CH_AND, Some (l1 &&& l2));
     (CH_XOR, Some (l1 ^^^ l2)); (CH_OR, Some (l1 ||| l2)); (CH_MUL, Some (u64 (l1 * l2)));
     (TOK_PDIV, Some (gen_opic_sdiv l1 l2)); (CH_DIV, Some (gen_opic_sdiv l1 l2));
     (CH_MOD, Some (u64 (l1 - u64 (l2 * gen_opic_sdiv l1 l2))));
     (TOK_UDIV, Some (l1 / l2)); (TOK_UMOD, Some (l1 mod l2));
     (TOK_SHL, Some (u64 (Z.shiftl l1 (l2 &&& shm)))); (TOK_SHR, Some (l1 >>> (l2 &&& shm)));
     (TOK_SAR, Some (if truth (l1 >>> 63) then u64 (Z.lnot (u64 (Z.lnot l1) >>> (l2 &&& shm))) else l1 >>> (l2 &&& shm)));
     (TOK_ULT, Some (b2z (l1 <? l2))); (TOK_UGE, Some (b2z (l2 <=? l1))); (TOK_EQ, Some (b2z (l1 =? l2)));
     (TOK_NE, Some (b2z (negb (l1 =? l2)))); (TOK_ULE, Some (b2z (l1 <=? l2))); (TOK_UGT, Some (b2z (l2 <? l1)));
     (TOK_LT, Some (gen_opic_lt l1 l2)); (TOK_GE, Some (1 - gen_opic_lt l1 l2));
     (TOK_LE, Some (1 - gen_opic_lt l2 l1)); (TOK_GT, Some (gen_opic_lt l2 l1));
     (TOK_LAND, Some (b2z (truth l1 && truth l2))); (TOK_LOR, Some (b2z (truth l1 || truth l2)))] None.

Definition is_division (op : Z) : bool :=
  (op =? TOK_PDIV) || (op =? CH_DIV) || (op =? CH_MOD) || (op =? TOK_UDIV) || (op =? TOK_UMOD).

Definition commutes (op : Z) : bool :=
  (op =? CH_ADD) || (op =? CH_AND) || (op =? CH_XOR) || (op =? CH_OR) || (op =? CH_MUL) || (op =? TOK_EQ) || (op =? TOK_NE).

Definition reversed_op (op : Z) : Z :=
  switch op
    [(TOK_LT, TOK_GT); (TOK_GT, TOK_LT); (TOK_LE, TOK_GE); (TOK_GE, TOK_LE);
     (TOK_ULT, TOK_UGT); (TOK_UGT, TOK_ULT); (TOK_ULE, TOK_UGE); (TOK_UGE, TOK_ULE)] 0.

Definition btype_size (bt : Z) : Z :=
  switch bt [(VT_BYTE, 1); (11, 1); (VT_SHORT, 2); (VT_INT, 4); (VT_LLONG, 8); (VT_PTR, 4)] 0.

(** A complex integer constant packs its parts, real part low.  [None] for an
    operator that is not folded. *)
Definition gen_opic_complex (op bt l1 l2 : Z) : option Z :=
  let shift := btype_size bt * 8 in
  let mask := if bt =? VT_LLONG then Z.ones 64 else u64 (Z.shiftl 1 shift) - 1 in
  let real1 := s64 (l1 &&& mask) in
  let imag1 := s64 ((l1 >>> shift) &&& mask) in
  let real2 := s64 (l2 &&& mask) in
  let imag2 := s64 ((l2 >>> shift) &&& mask) in
  let pack rr ri := u64 ((s64 rr &&& mask) ||| u64 (Z.shiftl (s64 ri &&& mask) shift)) in
  switch op
    [(CH_ADD, Some (pack (real1 + real2) (imag1 + imag2)));
     (CH_SUB, Some (pack (real1 - real2) (imag1 - imag2)));
     (CH_MUL, Some (pack (real1 * real2 - imag1 * imag2) (real1 * imag2 + imag1 * real2)));
     (TOK_EQ, Some (b2z ((real1 =? real2) && (imag1 =? imag2))));
     (TOK_NE, Some (b2z (negb (real1 =? real2) || negb (imag1 =? imag2))))] None.

(** One operand at most is a constant: [v1 op v2] after the constant has been
    moved to the right where the operator allows it. *)
Record mixed := { m_op : Z; m_v1 : SValue; m_v2 : SValue; m_c1 : bool; m_l1 : Z; m_c2 : bool; m_l2 : Z }.

Definition opic_orient (op : Z) (v1 v2 : SValue) (c1 c2 : bool) (l1 l2 : Z) : mixed :=
  if c1 && commutes op then
    {| m_op := op; m_v1 := v2; m_v2 := v1; m_c1 := c1; m_l1 := l1; m_c2 := c1; m_l2 := l1 |}
  else if c1 && truth (reversed_op op) then
    {| m_op := reversed_op op; m_v1 := v2; m_v2 := v1; m_c1 := false; m_l1 := 0; m_c2 := c1; m_l2 := l1 |}
  else {| m_op := op; m_v1 := v1; m_v2 := v2; m_c1 := c1; m_l1 := l1; m_c2 := c2; m_l2 := l2 |}.

Definition all_ones (l t2 : Z) : bool := (l =? Z.ones 64) || ((l =? 0xFFFFFFFF) && negb (t2 =? VT_LLONG)).

Definition is_shift (op : Z) : bool := (op =? TOK_SHL) || (op =? TOK_SHR) || (op =? TOK_SAR).

Definition absorbs_left (m : mixed) : bool :=
  m_c1 m && (((m_l1 m =? 0) && is_shift (m_op m)) || ((m_l1 m =? Z.ones 64) && (m_op m =? TOK_SAR))).

Definition absorbs_right (m : mixed) (t2 : Z) : bool :=
  m_c2 m &&
  (((m_l2 m =? 0) && ((m_op m =? CH_AND) || (m_op m =? CH_MUL))) ||
   ((m_op m =? CH_OR) && all_ones (m_l2 m) t2) ||
   ((m_l2 m =? 1) && ((m_op m =? CH_MOD) || (m_op m =? TOK_UMOD)))).

Definition is_nop (m : mixed) (t2 : Z) : bool :=
  m_c2 m &&
  ((((m_op m =? CH_MUL) || (m_op m =? CH_DIV) || (m_op m =? TOK_UDIV) || (m_op m =? TOK_PDIV)) && (m_l2 m =? 1)) ||
   (((m_op m =? CH_ADD) || (m_op m =? CH_SUB) || (m_op m =? CH_OR) || (m_op m =? CH_XOR) || is_shift (m_op m)) && (m_l2 m =? 0)) ||
   ((m_op m =? CH_AND) && all_ones (m_l2 m) t2)).

(** The shift that replaces a multiplication or division by [2^shn]. *)
Definition shift_for (op : Z) : Z := if op =? CH_MUL then TOK_SHL else if op =? TOK_PDIV then TOK_SAR else TOK_SHR.

(** A symbol or local address takes the addend; with no code wanted so does a
    pointer in a local. *)
Definition takes_addend (nocode_wanted : Z) (v : SValue) : bool :=
  match sv_place_of v with
  | VT_CONST_SYM _ | VT_LOCAL => true
  | VT_LOCAL_LVAL => truth nocode_wanted && (btype (sv_t v) =? VT_PTR)
  | _ => false
  end.

Definition drop_lval (v : SValue) : SValue :=
  match sv_place_of v with VT_LOCAL_LVAL => with_place v VT_LOCAL | _ => v end.

(** A constant that is left is one by optimisation only. *)
Definition settle (v : SValue) : SValue := with_nonconst v (is_const v).

Definition CONST_WANTED (nocode_wanted : Z) : bool := truth (nocode_wanted &&& 0x0FFF0000).
Definition NOEVAL_WANTED (nocode_wanted : Z) : bool := truth (nocode_wanted &&& 0xFFFF).

Definition opic_mixed (nocode_wanted : Z) (stack : list SValue) (pending : option (CSym * CSym)) (wide : bool) (t2 : Z) (m : mixed) : opic_result * option (CSym * CSym) :=
  let op := m_op m in
  let emit := (OpEmit wide op (m_v1 m) (m_v2 m), pending) in
  if absorbs_left m then (OpValue (Some (m_v2 m)) (with_nonconst (m_v1 m) true), pending)
  else if absorbs_right m t2 then
    (OpValue (Some (m_v1 m)) (with_nonconst (if m_l2 m =? 1 then with_c (m_v2 m) 0 else m_v2 m) true), pending)
  else if is_nop m t2 then (OpValue None (settle (m_v1 m)), pending)
  else if m_c2 m && ((op =? CH_MUL) || (op =? TOK_PDIV) || (op =? TOK_UDIV)) then
    let shn := is_power_of_2 (s64 (m_l2 m)) in
    if 0 <=? shn then (OpEmit wide (shift_for op) (m_v1 m) (with_c (m_v2 m) shn), pending) else emit
  else if m_c2 m && ((op =? CH_ADD) || (op =? CH_SUB)) && takes_addend nocode_wanted (m_v1 m) then
    let l2 := u64 ((if op =? CH_SUB then u64 (- m_l2 m) else m_l2 m) + sv_c (m_v1 m)) in
    if negb (u64 (s32 l2) =? l2) then emit
    else (OpValue None (settle (with_c (drop_lval (m_v1 m)) l2)), pending)
  else
    match const_sym (m_v1 m), const_sym (m_v2 m) with
    | Some s1, Some s2 =>
        if (op =? CH_SUB) && CONST_WANTED nocode_wanted &&
           (bool_decide (s1 = s2) || label_diff_operands_ok (stack ++ [m_v1 m; m_v2 m]) s1 s2) then
          let v := with_c (m_v1 m) (u64 (sv_c (m_v1 m) - sv_c (m_v2 m))) in
          if bool_decide (s1 = s2)
          then (OpValue None {| sv_t := sv_t v; sv_place_of := VT_CONST; sv_c := sv_c v; sv_nonconst := true |}, pending)
          else (OpValue None (with_place v (VT_CONST_SYM label_diff_marker)), Some (s1, s2))
        else emit
    | _, _ => emit
    end.

(** [stack] is the value stack below the operands, [pending] the label
    difference that awaits resolution. *)
Definition gen_opic (nocode_wanted : Z) (stack : list SValue) (pending : option (CSym * CSym)) (op : Z) (v1 v2 : SValue) : opic_result * option (CSym * CSym) :=
  let t1 := btype (sv_t v1) in
  let t2 := btype (sv_t v2) in
  let c1 := is_const v1 in
  let c2 := is_const v2 in
  let l1 := if c1 then value64 (sv_c v1) (sv_t v1) else 0 in
  let l2 := if c2 then value64 (sv_c v2) (sv_t v2) else 0 in
  let shm := if t1 =? VT_LLONG then 63 else 31 in
  let wide := (t1 =? VT_LLONG) || (t2 =? VT_LLONG) in
  let emit := (OpEmit wide op v1 v2, pending) in
  let folded c := (OpValue None (with_nonconst (with_c v1 c) (sv_nonconst v2)), pending) in
  if c1 && c2 && truth ((sv_t v1 ||| sv_t v2) &&& VT_COMPLEX) then
    match gen_opic_complex op t1 l1 l2 with Some c => folded c | None => emit end
  else if c1 && c2 then
    if is_division op && (l2 =? 0) then
      if CONST_WANTED nocode_wanted && negb (NOEVAL_WANTED nocode_wanted) then (OpDivisionByZero, pending) else emit
    else match opic_const op shm l1 l2 with Some l => folded (value64 l (sv_t v1)) | None => emit end
  else opic_mixed nocode_wanted stack pending wide t2 (opic_orient op v1 v2 c1 c2 l1 l2).

(** The unsigned form of an operator, which [gen_op] picks for an unsigned type. *)
Definition unsigned_op (op : Z) : Z :=
  switch op
    [(TOK_SAR, TOK_SHR); (CH_DIV, TOK_UDIV); (CH_MOD, TOK_UMOD); (TOK_LT, TOK_ULT);
     (TOK_GT, TOK_UGT); (TOK_LE, TOK_ULE); (TOK_GE, TOK_UGE)] op.

Definition gen_op_int (nocode_wanted : Z) (stack : list SValue) (pending : option (CSym * CSym)) (op : Z) (v1 v2 : SValue) : opic_result * option (CSym * CSym) :=
  gen_opic nocode_wanted stack pending (if truth (sv_t v1 &&& VT_UNSIGNED) then unsigned_op op else op) v1 v2.
