(* ===== verification/FoldSpec.v ===== *)
(** * What the folds promise

    Comparisons, shifts and arithmetic at a width [w] on residues modulo [2^w],
    and the theorems that the folds of [Fold.v] compute them. *)

From S2P Require Import Prelude EabiInt SoftRound SoftConvInt Fold.
Local Open Scope Z_scope.
Local Open Scope c_scope.

(** ** Integers of a width *)

Definition is_int64 (x : Z) : Prop := - 2 ^ 63 <= x < 2 ^ 63.
Definition is_uint64 (x : Z) : Prop := 0 <= x < 2 ^ 64.

(** The signed value of a residue. *)
Definition sint (w x : Z) : Z := if x mod 2 ^ w <? 2 ^ (w - 1) then x mod 2 ^ w else x mod 2 ^ w - 2 ^ w.

Definition same_residue (w x y : Z) : Prop := x mod 2 ^ w = y mod 2 ^ w.

#[export] Instance same_residue_equiv w : Equivalence (same_residue w).
Proof. split; unfold same_residue; congruence. Qed.

#[export] Instance signed_proper w : Proper (same_residue w ==> eq) (sint w).
Proof. intros x y E. unfold sint. now rewrite E. Qed.

#[export] Instance residue_add w : Proper (same_residue w ==> same_residue w ==> same_residue w) Z.add.
Proof. intros x x' E y y' F. unfold same_residue. rewrite Zplus_mod, E, F, <- Zplus_mod. reflexivity. Qed.

#[export] Instance residue_sub w : Proper (same_residue w ==> same_residue w ==> same_residue w) Z.sub.
Proof. intros x x' E y y' F. unfold same_residue. rewrite Zminus_mod, E, F, <- Zminus_mod. reflexivity. Qed.

#[export] Instance residue_mul w : Proper (same_residue w ==> same_residue w ==> same_residue w) Z.mul.
Proof. intros x x' E y y' F. unfold same_residue. rewrite Zmult_mod, E, F, <- Zmult_mod. reflexivity. Qed.

Lemma mod_residue w x : same_residue w (x mod 2 ^ w) x.
Proof. unfold same_residue. apply Zmod_mod. Qed.

Lemma residue_narrow w w' x y : 0 <= w <= w' -> same_residue w' x y -> same_residue w x y.
Proof.
  intros Hw E. unfold same_residue in *.
  assert (D : (2 ^ w | 2 ^ w')) by (exists (2 ^ (w' - w)); rewrite <- Z.pow_add_r by lia; f_equal; lia).
  rewrite <- (Z.mod_mod_divide x _ _ D), <- (Z.mod_mod_divide y _ _ D), E. reflexivity.
Qed.

Lemma signed_residue w x : same_residue w (sint w x) x.
Proof.
  unfold sint. case Z.ltb_spec; intros _; [apply mod_residue|].
  unfold same_residue. rewrite Zminus_mod, Z_mod_same_full, Z.sub_0_r, !Zmod_mod. reflexivity.
Qed.

Lemma signed_bound w x : 0 < w -> - 2 ^ (w - 1) <= sint w x < 2 ^ (w - 1).
Proof.
  intros Hw. unfold sint. pose proof (Z.mod_pos_bound x (2 ^ w) ltac:(apply Z.pow_pos_nonneg; lia)) as B.
  assert (2 ^ w = 2 * 2 ^ (w - 1)) by (rewrite <- Z.pow_succ_r by lia; f_equal; lia).
  case Z.ltb_spec; lia.
Qed.

Lemma signed_small w x : 0 < w -> - 2 ^ (w - 1) <= x < 2 ^ (w - 1) -> sint w x = x.
Proof.
  intros Hw Hx. assert (P : 2 ^ w = 2 * 2 ^ (w - 1)) by (rewrite <- Z.pow_succ_r by lia; f_equal; lia).
  unfold sint. destruct (Z_lt_le_dec x 0) as [N|N].
  - rewrite <- (Z_mod_plus_full x 1), Z.mod_small by lia. case Z.ltb_spec; lia.
  - rewrite Z.mod_small by lia. case Z.ltb_spec; lia.
Qed.

Lemma residue_signed w x y : 0 < w -> same_residue w x y <-> sint w x = sint w y.
Proof.
  intros Hw. split; [intros ->; reflexivity|]. intros E.
  rewrite <- (signed_residue w x), E. apply signed_residue.
Qed.

Lemma s32_signed x : s32 x = sint 32 x.
Proof. unfold s32, sint. rewrite u32_mod. reflexivity. Qed.

Lemma s32_of_u32 x : s32 (u32 x) = s32 x.
Proof. unfold s32. now rewrite u32_idemp. Qed.

Lemma s64_signed x : s64 x = sint 64 x.
Proof. unfold s64, sint. rewrite u64_mod. reflexivity. Qed.

Lemma u32_residue x : same_residue 32 (u32 x) x.
Proof. rewrite u32_mod. apply mod_residue. Qed.

Lemma u64_residue x : same_residue 64 (u64 x) x.
Proof. rewrite u64_mod. apply mod_residue. Qed.

Lemma s32_residue x : same_residue 32 (s32 x) x.
Proof. rewrite s32_signed. apply signed_residue. Qed.

Lemma s64_residue x : same_residue 64 (s64 x) x.
Proof. rewrite s64_signed. apply signed_residue. Qed.

Create HintDb residues.
#[export] Hint Resolve u32_residue u64_residue s32_residue s64_residue mod_residue signed_residue : residues.

Lemma int64_residue x y : is_int64 x -> is_int64 y -> same_residue 64 x y -> x = y.
Proof.
  intros Hx Hy E. apply (residue_signed 64) in E; [|lia].
  rewrite !(signed_small 64) in E by (unfold is_int64 in *; lia). exact E.
Qed.

(** ** Tokens *)

Definition cond_toks : list Z := [TOK_EQ; TOK_NE; TOK_LT; TOK_GE; TOK_LE; TOK_GT; TOK_ULT; TOK_UGE; TOK_ULE; TOK_UGT].

Lemma switch_default {A} x (cases : list (Z * A)) d : Forall (fun c => x <> c.1) cases -> switch x cases d = d.
Proof. induction 1 as [|[k v] r Hk _ IH]; [reflexivity|]. cbn [switch]. cbn in Hk. case Z.eqb_spec; [intros E; now destruct Hk|auto]. Qed.

(** Decide the tests between token constants. *)
Ltac eval_switch :=
  cbn [switch];
  repeat match goal with
  | |- context [?a =? ?b] =>
      is_const a; is_const b;
      lazymatch eval vm_compute in (a =? b) with
      | true => change (a =? b) with true | false => change (a =? b) with false end; cbv iota
  end.

Ltac each_tok H :=
  cbn [In cond_toks] in H; destruct H as [<-|[<-|[<-|[<-|[<-|[<-|[<-|[<-|[<-|[<-|[]]]]]]]]]]].

(** The ten tokens one by one, then a token that is none of them. *)
Ltac tok_cases tok :=
  let H := fresh "Htok" in
  destruct (in_dec Z.eq_dec tok cond_toks) as [H|H];
  [ each_tok H; eval_switch
  | repeat rewrite (switch_default tok) by (repeat constructor; cbn; intros ->; apply H; cbn; tauto) ].

(** The token [tok] on [w]-bit integers, the ordered tokens unsigned if [uns]. *)
Definition tok_holds (w : Z) (uns : bool) (tok x y : Z) : option bool :=
  let ux := x mod 2 ^ w in
  let uy := y mod 2 ^ w in
  let ox := if uns then ux else sint w x in
  let oy := if uns then uy else sint w y in
  switch tok
    [(TOK_EQ, Some (ux =? uy)); (TOK_NE, Some (negb (ux =? uy)));
     (TOK_LT, Some (ox <? oy)); (TOK_GE, Some (negb (ox <? oy))); (TOK_GT, Some (oy <? ox)); (TOK_LE, Some (negb (oy <? ox)));
     (TOK_ULT, Some (ux <? uy)); (TOK_UGE, Some (negb (ux <? uy))); (TOK_UGT, Some (uy <? ux)); (TOK_ULE, Some (negb (uy <? ux)))] None.

Definition cond_value (b : option bool) : Z := match b with Some b => b2z b | None => -1 end.

#[export] Instance tok_holds_proper w uns tok : Proper (same_residue w ==> same_residue w ==> eq) (tok_holds w uns tok).
Proof. intros x x' E y y' F. unfold tok_holds, sint, same_residue in *. now rewrite E, F. Qed.

Ltac cmp_lia := unfold b2z, negb; repeat case Z.ltb_spec; repeat case Z.leb_spec; repeat case Z.eqb_spec; intros; try lia; try reflexivity.

Lemma evaluate_64 tok a b : is_int64 a -> is_int64 b ->
  evaluate_compare_condition a b tok = cond_value (tok_holds 64 false tok a b).
Proof.
  intros Ha Hb. unfold evaluate_compare_condition, tok_holds, cond_value.
  rewrite !(signed_small 64), <- !u64_mod by (unfold is_int64 in *; lia).
  assert (E : u64 a = u64 b -> a = b) by (intros E; apply int64_residue; auto; unfold same_residue; rewrite <- !u64_mod; exact E).
  tok_cases tok; cmp_lia; try congruence. all: exfalso; auto.
Qed.

Lemma negated_value tok a b : In tok cond_toks ->
  evaluate_compare_condition a b (vrp_negate_cmp_tok tok) = 1 - evaluate_compare_condition a b tok.
Proof.
  intros H. unfold vrp_negate_cmp_tok, evaluate_compare_condition.
  tok_cases tok; [cmp_lia .. | contradiction].
Qed.

Lemma swapped_value tok a b : In tok cond_toks ->
  evaluate_compare_condition b a (vrp_swap_cmp_tok tok) = evaluate_compare_condition a b tok.
Proof.
  intros H. unfold vrp_swap_cmp_tok, evaluate_compare_condition.
  tok_cases tok; [cmp_lia; congruence .. | contradiction].
Qed.

(** The three negation tables and the flip of the low bit are one function,
    which gives the complement of the comparison, and the two tables of swapped
    tokens are one function, which gives the comparison with its operands
    exchanged.  A value that is no comparison token gives [-1] everywhere. *)
Theorem condition_tokens_agree (tok a b : Z) :
  (In tok cond_toks ->
     evaluate_compare_condition a b (vrp_negate_cmp_tok tok) = 1 - evaluate_compare_condition a b tok /\
     evaluate_compare_condition b a (vrp_swap_cmp_tok tok) = evaluate_compare_condition a b tok /\
     invert_cond_token tok = vrp_negate_cmp_tok tok /\ invert_condition tok = vrp_negate_cmp_tok tok /\
     ir_negate_condition tok = vrp_negate_cmp_tok tok /\ swap_cond_token tok = vrp_swap_cmp_tok tok) /\
  (~ In tok cond_toks ->
     evaluate_compare_condition a b tok = -1 /\ vrp_negate_cmp_tok tok = -1 /\ vrp_swap_cmp_tok tok = -1 /\
     invert_cond_token tok = -1 /\ invert_condition tok = -1 /\ swap_cond_token tok = -1).
Proof.
  split; intros H.
  - split; [now apply negated_value|]. split; [now apply swapped_value|].
    unfold cond_toks in H. cbn [In] in H. decompose [or] H; subst; try contradiction; repeat split.
  - unfold evaluate_compare_condition, vrp_negate_cmp_tok, vrp_swap_cmp_tok, invert_cond_token, invert_condition, swap_cond_token.
    rewrite !switch_default by (repeat constructor; cbn; intros ->; apply H; cbn; tauto). repeat split.
Qed.

Lemma condition_tokens_agree_witness :
  evaluate_compare_condition 3 5 (vrp_negate_cmp_tok TOK_LE) = 1 - evaluate_compare_condition 3 5 TOK_LE /\
  evaluate_compare_condition 3 5 0x98 = -1.
Proof.
  destruct (condition_tokens_agree TOK_LE 3 5) as [H _]. destruct (condition_tokens_agree 0x98 3 5) as [_ K].
  split; [apply H; cbn; tauto | apply K]. intros I. vm_compute in I. decompose [or] I; try discriminate. contradiction.
Defined.

(** ** Implications between tokens *)

(** How two floating-point numbers compare, and what a token says of that. *)
Inductive ieee_order := FLess | FEqual | FGreater | FUnordered.

Definition fcond (o : ieee_order) (tok : Z) : bool :=
  let lt := match o with FLess => true | _ => false end in
  let eq := match o with FEqual => true | _ => false end in
  let gt := match o with FGreater => true | _ => false end in
  switch tok
    [(TOK_EQ, eq); (TOK_NE, negb eq); (TOK_LT, lt); (TOK_ULT, lt); (TOK_LE, lt || eq); (TOK_ULE, lt || eq);
     (TOK_GT, gt); (TOK_UGT, gt); (TOK_GE, gt || eq); (TOK_UGE, gt || eq)] false.

(** Pairs that tell any two tokens apart that do not imply each other. *)
Definition sample_pairs : list (Z * Z) := [(0, 0); (0, 1); (1, 0); (-1, 0); (0, -1)].

Definition refuted (k c : Z) : bool :=
  existsb (fun '(a, b) => (evaluate_compare_condition a b k =? 1) && negb (evaluate_compare_condition a b c =? 1)) sample_pairs.

Definition all_pairs (P : Z -> Z -> bool) : bool := forallb (fun k => forallb (P k) cond_toks) cond_toks.

Lemma all_pairs_in P k c : all_pairs P = true -> In k cond_toks -> In c cond_toks -> P k c = true.
Proof. intros H Hk Hc. unfold all_pairs in H. rewrite forallb_forall in H. specialize (H k Hk). rewrite forallb_forall in H. auto. Qed.

Lemma implied_or_refuted k c : In k cond_toks -> In c cond_toks -> vrp_cmp_implies k c = negb (refuted k c).
Proof.
  intros Hk Hc. apply eqb_prop.
  exact (all_pairs_in (fun k c => eqb (vrp_cmp_implies k c) (negb (refuted k c))) k c ltac:(vm_compute; reflexivity) Hk Hc).
Qed.

Lemma refuted_spec k c : refuted k c = true ->
  exists a b, is_int64 a /\ is_int64 b /\ evaluate_compare_condition a b k = 1 /\ evaluate_compare_condition a b c <> 1.
Proof.
  unfold refuted. rewrite existsb_exists. intros ([a b] & Hin & E).
  apply andb_true_iff in E as [E1 E2]. apply Z.eqb_eq in E1. apply negb_true_iff, Z.eqb_neq in E2.
  exists a, b. unfold is_int64. cbn in Hin. decompose [or] Hin; simplify_eq; repeat split; auto; lia.
Qed.

Lemma b2z_one b : b2z b = 1 <-> b = true.
Proof. destruct b; cbn; split; congruence || lia. Qed.

Lemma implies_sound k c a b : In k cond_toks -> In c cond_toks -> vrp_cmp_implies k c = true ->
  evaluate_compare_condition a b k = 1 -> evaluate_compare_condition a b c = 1.
Proof.
  intros Hk Hc H. each_tok Hk; each_tok Hc; try discriminate H; auto.
  all: unfold evaluate_compare_condition; eval_switch.
  all: rewrite !b2z_one, ?negb_true_iff, ?Z.ltb_lt, ?Z.leb_le, ?Z.eqb_eq, ?Z.eqb_neq; intros; subst; try intros ->; lia.
Qed.

(** C28: [vrp_cmp_implies k c] holds exactly when every pair of 64-bit integers
    that satisfies the comparison [k] satisfies [c].  The floating-point version
    is sound for every outcome of an IEEE comparison, NaN operands included, and
    the branch result for a NaN is the value of the comparison where it is
    given. *)
Theorem cmp_implies_exact (k c : Z) (Hk : In k cond_toks) (Hc : In c cond_toks) :
  (vrp_cmp_implies k c = true <->
     forall a b, is_int64 a -> is_int64 b -> evaluate_compare_condition a b k = 1 -> evaluate_compare_condition a b c = 1) /\
  (fcmp_cmp_implies k c = true -> forall o, fcond o k = true -> fcond o c = true) /\
  (nan_compare_branch_result k <> -1 -> nan_compare_branch_result k = b2z (fcond FUnordered k)).
Proof.
  split; [|split].
  - split; [intros H a b _ _; now apply implies_sound|]. intros H.
    rewrite implied_or_refuted by auto. apply negb_true_iff, not_true_iff_false. intros R.
    apply refuted_spec in R as (a & b & Ha & Hb & E & N). auto.
  - intros H o F. pose proof (all_pairs_in (fun k c => implb (fcmp_cmp_implies k c && fcond o k) (fcond o c)) k c
      ltac:(destruct o; vm_compute; reflexivity) Hk Hc) as I. cbv beta in I. now rewrite H, F in I.
  - intros N. pose proof (all_pairs_in (fun k _ => (nan_compare_branch_result k =? -1) || (nan_compare_branch_result k =? b2z (fcond FUnordered k)))
      k c ltac:(vm_compute; reflexivity) Hk Hc) as H.
    apply orb_true_iff in H as [H|H]; apply Z.eqb_eq in H; [contradiction|exact H].
Qed.

Lemma cmp_implies_exact_witness : In TOK_LT cond_toks /\ evaluate_compare_condition (-7) 4 TOK_NE = 1.
Proof.
  split; [cbn; tauto|].
  apply (proj1 (proj1 (cmp_implies_exact TOK_LT TOK_NE ltac:(cbn; tauto) ltac:(cbn; tauto))) eq_refl); [unfold is_int64; lia..|reflexivity].
Defined.

(** ** The barrel shifter *)

(** The second operand that an annotated instruction really uses: shift type in
    the top three bits (LSL, LSR, ASR, ROR from 1), amount below. *)
Definition shifter (bs x : Z) : option Z :=
  let n := bs mod 32 in
  match bs / 32 with
  | 1 => Some (x * 2 ^ n)
  | 2 => Some (x mod 2 ^ 32 / 2 ^ n)
  | 3 => Some (sint 32 x / 2 ^ n)
  | 4 => Some (x mod 2 ^ 32 / 2 ^ n + x * 2 ^ (32 - n))
  | _ => None
  end.

Lemma shl32_residue x n : 0 <= n -> same_residue 32 (x <<< n) (x * 2 ^ n).
Proof. intros Hn. unfold shl32. rewrite Z.shiftl_mul_pow2 by lia. apply u32_residue. Qed.

Lemma high_part x n : 0 <= n <= 32 -> 0 <= x < 2 ^ 32 -> 0 <= x / 2 ^ n < 2 ^ (32 - n).
Proof.
  intros Hn Hx. pose proof (Z.pow_pos_nonneg 2 n ltac:(lia) ltac:(lia)). split; [apply Z.div_pos; lia|].
  apply Z.div_lt_upper_bound; [lia|]. rewrite <- Z.pow_add_r by lia. replace (n + (32 - n)) with 32 by lia. lia.
Qed.

Lemma rotated x n : 0 < n < 32 -> 0 <= x < 2 ^ 32 -> (x >>> n) ||| (x <<< (32 - n)) = x / 2 ^ n + (x <<< (32 - n)).
Proof.
  intros Hn Hx. unfold shl32. rewrite Z.shiftr_div_pow2, Z.shiftl_mul_pow2, u32_mod by lia.
  replace (2 ^ 32) with (2 ^ (32 - n) * 2 ^ n) by (rewrite <- Z.pow_add_r by lia; f_equal; lia).
  rewrite (Z.mul_comm (2 ^ (32 - n))), Z.mul_mod_distr_r, Z.lor_comm, Z.add_comm by (apply Z.pow_nonzero; lia).
  apply lor_fields; [lia|]. now apply high_part; [lia|].
Qed.

Lemma sign_fill n : 0 < n < 32 -> ~~~ (0xFFFFFFFF >>> n) = (2 ^ n - 1) * 2 ^ (32 - n).
Proof. intros Hn. enum_range n 1 31%nat; reflexivity. Qed.

Lemma land_bit31 x : 0 <= x < 2 ^ 32 -> x &&& 0x80000000 = if 2 ^ 31 <=? x then 2 ^ 31 else 0.
Proof.
  intros Hx. change 0x80000000 with (2 ^ 31). pose proof (Z.testbit_spec' x 31 ltac:(lia)) as T.
  assert (D : x / 2 ^ 31 = if 2 ^ 31 <=? x then 1 else 0) by (case Z.leb_spec; intros; [symmetry; apply (Z.div_unique x (2 ^ 31) 1 (x - 2 ^ 31)) | apply Z.div_small]; lia).
  rewrite D in T. replace (2 ^ 31 <=? x) with (Z.testbit x 31) by (revert T; destruct (Z.testbit x 31), (2 ^ 31 <=? x); auto; discriminate).
  apply Z.bits_inj'. intros i Hi. rewrite Z.land_spec, Z.pow2_bits_eqb by lia.
  case Z.eqb_spec; [intros <-; rewrite andb_true_r | intros N; rewrite andb_false_r];
  destruct (Z.testbit x 31); rewrite ?Z.bits_0, ?Z.pow2_bits_eqb by lia; rewrite ?Z.eqb_refl; auto; symmetry; now apply Z.eqb_neq.
Qed.

Lemma bit31_land x : 0 <= x < 2 ^ 32 -> truth (x &&& 0x80000000) = (2 ^ 31 <=? x).
Proof. intros Hx. rewrite land_bit31 by auto. now destruct (2 ^ 31 <=? x). Qed.

Lemma arithmetic_shift x n : 0 <= n < 32 -> 0 <= x < 2 ^ 32 ->
  same_residue 32 ((x >>> n) ||| (if truth (x &&& 0x80000000) && truth n then ~~~ (0xFFFFFFFF >>> n) else 0)) (sint 32 x / 2 ^ n).
Proof.
  intros Hn Hx. rewrite bit31_land by lia. rewrite Z.shiftr_div_pow2 by lia. unfold sint. rewrite (Z.mod_small x) by lia.
  change (32 - 1) with 31. destruct (Z.eqb_spec n 0) as [->|N].
  { rewrite andb_false_r, Z.lor_0_r, !Z.div_1_r. case Z.ltb_spec; [reflexivity|]. intros _.
    unfold same_residue. rewrite Zminus_mod, Z_mod_same_full, Z.sub_0_r, Zmod_mod. reflexivity. }
  assert (Ht : truth n = true) by (now apply truth_true). rewrite Ht, andb_true_r. case Z.leb_spec; intros C; (case Z.ltb_spec; [intros D|intros D]); try lia.
  - pose proof (high_part x n ltac:(lia) Hx). rewrite sign_fill, Z.lor_comm, lor_fields by lia.
    assert (P : 2 ^ 32 = 2 ^ (32 - n) * 2 ^ n) by (rewrite <- Z.pow_add_r by lia; f_equal; lia).
    rewrite P. replace (x - 2 ^ (32 - n) * 2 ^ n) with (x + (- 2 ^ (32 - n)) * 2 ^ n) by lia.
    rewrite Z.div_add by (apply Z.pow_nonzero; lia). unfold same_residue.
    rewrite <- (Z_mod_plus_full (_ + - _) 1). f_equal. lia.
  - rewrite Z.lor_0_r. reflexivity.
Qed.

Lemma barrel_exact bs x : 0 <= bs < 256 -> 0 <= x < 2 ^ 32 ->
  match barrel_shift x bs, shifter bs x with
  | Some m, Some r => 0 <= m < 2 ^ 32 /\ same_residue 32 m r
  | None, None => True
  | _, _ => False
  end.
Proof.
  intros Hb Hx. unfold barrel_shift, shifter.
  assert (En : bs &&& 0x1F = bs mod 32) by (apply (Z.land_ones bs 5); lia). rewrite En.
  rewrite (Z.shiftr_div_pow2 bs 5) by lia. change (2 ^ 5) with 32.
  pose proof (Z.mod_pos_bound bs 32 ltac:(lia)) as Hn. set (n := bs mod 32) in *.
  assert (Ht : 0 <= bs / 32 < 8) by (split; [apply Z.div_pos | apply Z.div_lt_upper_bound]; lia).
  pose proof (Z.shiftr_div_pow2 x n ltac:(lia)) as Es. pose proof (high_part x n ltac:(lia) Hx) as Hh.
  assert (P : 2 ^ (32 - n) <= 2 ^ 32) by (apply Z.pow_le_mono_r; lia).
  assert (T : bs / 32 = 0 \/ bs / 32 = 1 \/ bs / 32 = 2 \/ bs / 32 = 3 \/ bs / 32 = 4 \/ bs / 32 = 5 \/ bs / 32 = 6 \/ bs / 32 = 7) by lia.
  decompose [or] T; match goal with H : bs / 32 = _ |- _ => rewrite H end; cbn -[Z.pow Z.div Z.modulo shl32 Z.shiftr Z.lor truth not32 Z.mul sint]; try exact I.
  - split; [apply u32_bound | now apply shl32_residue].
  - rewrite Es, (Z.mod_small x) by lia. split; [lia|reflexivity].
  - split; [|now apply arithmetic_shift].
    rewrite Es. apply lor_bound; [lia | lia |]. destruct (truth _ && truth n) eqn:F; [|lia].
    apply andb_true_iff in F as [_ F]. apply truth_true in F. rewrite sign_fill by lia.
    assert (2 ^ 32 = 2 ^ n * 2 ^ (32 - n)) by (rewrite <- Z.pow_add_r by lia; f_equal; lia). nia.
  - rewrite (Z.mod_small x) by lia. destruct (truth n) eqn:F.
    + apply truth_true in F. split; [apply lor_bound; [lia | rewrite Es; lia | apply u32_bound]|].
      rewrite rotated by lia. now rewrite shl32_residue by lia.
    + apply truth_false in F. rewrite F, Z.div_1_r. split; [lia|].
      unfold same_residue. change (2 ^ (32 - 0)) with (2 ^ 32). now rewrite Z_mod_plus_full.
Qed.

Lemma shifter_residue bs x y : same_residue 32 x y ->
  match shifter bs x, shifter bs y with Some r, Some s => same_residue 32 r s | None, None => True | _, _ => False end.
Proof.
  intros E. unfold shifter.
  destruct (bs / 32) as [|p|p]; auto. repeat (destruct p as [p|p|]; auto).
  all: unfold same_residue in E |- *; fold (same_residue 32 x y) in *.
  - now rewrite (signed_proper 32 x y E).
  - change (same_residue 32 (x mod 2 ^ 32 / 2 ^ (bs mod 32) + x * 2 ^ (32 - bs mod 32)) (y mod 2 ^ 32 / 2 ^ (bs mod 32) + y * 2 ^ (32 - bs mod 32))).
    rewrite E. now rewrite (E : same_residue 32 x y).
  - now rewrite E.
  - change (same_residue 32 (x * 2 ^ (bs mod 32)) (y * 2 ^ (bs mod 32))). now rewrite (E : same_residue 32 x y).
Qed.

(** The annotation of fold.c computes the shifter on 32-bit values. *)
Lemma fold_apply_barrel_exact bs x r : 0 <= bs < 256 -> 0 <= x < 2 ^ 32 -> shifter bs x = Some r ->
  fold_apply_barrel x bs = r mod 2 ^ 32.
Proof.
  intros Hb Hx Hr. pose proof (barrel_exact bs x Hb Hx) as B. rewrite Hr in B. unfold fold_apply_barrel.
  destruct (barrel_shift x bs) as [m|]; [|contradiction]. destruct B as [Bm Br]. cbn. rewrite <- Br. symmetry. now apply Z.mod_small.
Qed.

(** ** Comparisons of operands *)

Definition cmp_unsigned (src1 src2 : IROperand) : bool := cmp_operand_is_unsigned_int src1 || cmp_operand_is_unsigned_int src2.

Lemma unsigned_tok_holds w tok src1 src2 x y :
  tok_holds w false (unsigned_cond_for_cmp_operands tok src1 src2) x y = tok_holds w (cmp_unsigned src1 src2) tok x y.
Proof.
  unfold unsigned_cond_for_cmp_operands, cmp_unsigned. rewrite <- negb_orb.
  destruct (cmp_operand_is_unsigned_int src1 || cmp_operand_is_unsigned_int src2); [|reflexivity].
  cbn [negb]. unfold tok_holds. tok_cases tok; reflexivity.
Qed.

Lemma cmp_operands_exact tok v1 v2 src1 src2 :
  let w := cmp_operands_unsigned_width src1 src2 in
  (w = 64 -> is_int64 v1 /\ is_int64 v2) ->
  evaluate_compare_condition_cmp_operands v1 v2 tok src1 src2 = cond_value (tok_holds w (cmp_unsigned src1 src2) tok v1 v2).
Proof.
  intros w H. rewrite <- unsigned_tok_holds. unfold evaluate_compare_condition_cmp_operands. fold w.
  set (c := unsigned_cond_for_cmp_operands tok src1 src2). clearbody c.
  assert (Hw : w = 64 \/ w = 32) by (unfold w, cmp_operands_unsigned_width; destruct (_ || _); auto).
  destruct Hw as [Ew|Ew]; rewrite Ew; cbn [Z.eqb Pos.eqb].
  - destruct (H Ew) as [H1 H2]. rewrite <- evaluate_64 by auto. cbn [switch]. repeat case (_ =? _); reflexivity.
  - unfold tok_holds, cond_value. rewrite <- !u32_mod, <- !s32_signed, !s32_of_u32.
    unfold evaluate_compare_condition. tok_cases c; [cmp_lia..|reflexivity].
Qed.

Lemma cmp_annotated_exact bs tok v1 v2 src1 src2 : 0 <= bs < 256 -> is_int64 v1 -> is_int64 v2 ->
  evaluate_compare_condition_cmp_annotated bs v1 v2 tok src1 src2 =
  match if bs =? 0 then Some v2 else if irop_is_64bit src1 || irop_is_64bit src2 then None else shifter bs v2 with
  | Some y => cond_value (tok_holds (cmp_operands_unsigned_width src1 src2) (cmp_unsigned src1 src2) tok v1 y)
  | None => -1
  end.
Proof.
  intros Hbs H1 H2. unfold evaluate_compare_condition_cmp_annotated, truth. case Z.eqb_spec; cbn [negb]; intros _.
  - now apply cmp_operands_exact.
  - destruct (irop_is_64bit src1 || irop_is_64bit src2) eqn:W; [reflexivity|].
    assert (E : cmp_operands_unsigned_width src1 src2 = 32).
    { unfold irop_is_64bit, cmp_operands_unsigned_width in *. rewrite !orb_false_iff in W. destruct W as [[-> _] [-> _]]. reflexivity. }
    pose proof (barrel_exact bs (u32 v2) Hbs (u32_bound v2)) as B. pose proof (shifter_residue bs (u32 v2) v2 (u32_residue v2)) as S.
    destruct (barrel_shift (u32 v2) bs) as [m|], (shifter bs (u32 v2)) as [r|], (shifter bs v2) as [r'|]; try contradiction; [|reflexivity].
    destruct B as [_ B]. rewrite cmp_operands_exact, E by (rewrite E; lia). f_equal.
    apply (tok_holds_proper 32); [reflexivity|]. now rewrite s32_residue, B.
Qed.

(** The tokens that order signed integers. *)
Definition signed_order (tok : Z) : Prop := tok = TOK_LT \/ tok = TOK_GE \/ tok = TOK_LE \/ tok = TOK_GT.

(** An operand whose type is an unsigned integer. *)
Definition unsigned_int (op : IROperand) : Prop :=
  op_is_unsigned op = true /\
  (op_tag op = IROP_TAG_I64 \/ op_btype op = IROP_BTYPE_INT8 \/ op_btype op = IROP_BTYPE_INT16 \/
   op_btype op = IROP_BTYPE_INT32 \/ op_btype op = IROP_BTYPE_INT64).

Lemma cmp_unsigned_spec src1 src2 : cmp_unsigned src1 src2 = true <-> unsigned_int src1 \/ unsigned_int src2.
Proof.
  assert (H : forall op, cmp_operand_is_unsigned_int op = true <-> unsigned_int op).
  { intros op. unfold cmp_operand_is_unsigned_int, unsigned_int. rewrite andb_true_iff, !orb_true_iff, !bool_decide_eq_true. tauto. }
  unfold cmp_unsigned. now rewrite orb_true_iff, !H.
Qed.

(** Only the signed orders depend on how the operands are read. *)
Lemma tok_reading w tok x y : ~ signed_order tok -> tok_holds w true tok x y = tok_holds w false tok x y.
Proof. intros H. unfold tok_holds. tok_cases tok; try reflexivity; exfalso; apply H; unfold signed_order; auto. Qed.

(** The two readings of a signed order agree exactly on operands of one sign. *)
Lemma tok_sign w tok x y : 0 < w -> signed_order tok ->
  cond_value (tok_holds w true tok x y) = cond_value (tok_holds w false tok x y) <-> (sint w x < 0 <-> sint w y < 0).
Proof.
  intros Hw H. assert (R : forall v, sint w v = v mod 2 ^ w /\ 0 <= v mod 2 ^ w < 2 ^ (w - 1) \/ sint w v = v mod 2 ^ w - 2 ^ w /\ 2 ^ (w - 1) <= v mod 2 ^ w < 2 ^ w).
  { intros v. pose proof (Z.mod_pos_bound v (2 ^ w) ltac:(apply Z.pow_pos_nonneg; lia)). unfold sint. case Z.ltb_spec; lia. }
  pose proof (R x). pose proof (R y). clear R. unfold tok_holds. destruct H as [-> |[-> |[-> | ->]]]; eval_switch; cbn [cond_value]; unfold b2z, negb; repeat case Z.ltb_spec; lia.
Qed.

(** C17: folding a compare, against the machine's compare at 64 bits if an operand has
    type [INT64] and at 32 otherwise, of the first operand with the second one shifted
    as the annotation says, the token read as it is. When the token is not a signed
    order (LT, GE, LE, GT) or no operand is an unsigned integer, the fold is that
    compare. When the token is a signed order and an operand is an unsigned integer, the
    fold compares unsigned instead, and gives the machine's answer exactly when the two
    values have the same sign: elsewhere it disagrees with the code generated for the
    same instruction. At 32 bits the upper halves of the constants do not matter. [-1],
    for not folding, comes exactly for a token that is none, for a shift type that does
    not exist and for an annotated 64-bit compare. *)
Theorem cmp_fold_exact (bs tok v1 v2 : Z) (src1 src2 : IROperand) (Hbs : 0 <= bs < 256) (H1 : is_int64 v1) (H2 : is_int64 v2) :
  let fold := evaluate_compare_condition_cmp_annotated bs v1 v2 tok src1 src2 in
  let w := if decide (op_btype src1 = IROP_BTYPE_INT64 \/ op_btype src2 = IROP_BTYPE_INT64) then 64 else 32 in
  let machine y := cond_value (tok_holds w false tok v1 y) in
  match if bs =? 0 then Some v2 else if irop_is_64bit src1 || irop_is_64bit src2 then None else shifter bs v2 with
  | Some y =>
      (~ (signed_order tok /\ (unsigned_int src1 \/ unsigned_int src2)) -> fold = machine y) /\
      (signed_order tok -> unsigned_int src1 \/ unsigned_int src2 ->
         fold = cond_value (tok_holds w true tok v1 y) /\ (fold = machine y <-> (sint w v1 < 0 <-> sint w y < 0)))
  | None => fold = -1
  end.
Proof.
  intros fold w machine. unfold fold. rewrite cmp_annotated_exact by assumption.
  assert (Ew : cmp_operands_unsigned_width src1 src2 = w).
  { unfold cmp_operands_unsigned_width, w. destruct (decide _) as [D|D]; repeat case_bool_decide; cbn; tauto. }
  rewrite Ew. destruct (if bs =? 0 then _ else _) as [y|]; [|reflexivity]. unfold machine.
  assert (0 < w) as Hw by (unfold w; case_decide; lia). rewrite <- cmp_unsigned_spec.
  split; [|intros Ht ->; split; [reflexivity|now apply tok_sign]].
  intros N. destruct (cmp_unsigned src1 src2); [|reflexivity]. f_equal. apply tok_reading. tauto.
Qed.

Lemma cmp_fold_exact_witness :
  let op := {| op_tag := IROP_TAG_VREG; op_btype := IROP_BTYPE_INT32; op_is_unsigned := false |} in
  let uop := {| op_tag := IROP_TAG_VREG; op_btype := IROP_BTYPE_INT32; op_is_unsigned := true |} in
  evaluate_compare_condition_cmp_annotated 0x70 (-1) 0xFFFF8000 TOK_EQ op op = 1 /\
  evaluate_compare_condition_cmp_annotated 0 (-1) 1 TOK_LT uop op <> cond_value (tok_holds 32 false TOK_LT (-1) 1).
Proof.
  cbv zeta. split.
  - destruct (cmp_fold_exact 0x70 TOK_EQ (-1) 0xFFFF8000
      {| op_tag := IROP_TAG_VREG; op_btype := IROP_BTYPE_INT32; op_is_unsigned := false |}
      {| op_tag := IROP_TAG_VREG; op_btype := IROP_BTYPE_INT32; op_is_unsigned := false |}) as [H _]; [lia|unfold is_int64; lia..|].
    apply H. intros [[T|[T|[T|T]]] _]; discriminate T.
  - destruct (cmp_fold_exact 0 TOK_LT (-1) 1
      {| op_tag := IROP_TAG_VREG; op_btype := IROP_BTYPE_INT32; op_is_unsigned := true |}
      {| op_tag := IROP_TAG_VREG; op_btype := IROP_BTYPE_INT32; op_is_unsigned := false |}) as [_ H]; [lia|unfold is_int64; lia..|].
    destruct H as [_ H]; [left; reflexivity|left; split; [reflexivity|cbn; tauto]|].
    intros E. apply H in E. destruct E as [E _]. specialize (E ltac:(reflexivity)). discriminate E.
Defined.

(** ** The integer fold *)

(** What the instruction computes on [w]-bit operands, [None] where C leaves it
    undefined or the fold does not know the operation. The parameter of UBFX has the
    lowest bit of the field, its width, and in bit 12 [UBFX_HI_HALF], which says that
    the field is in the high word ([tccir.h]). *)
Definition ir_arith (op : IrArithOp) (w v1 v2 : Z) : option Z :=
  let count := v2 mod 2 ^ w in
  let lsb := v2 mod 32 in
  let bits := v2 / 32 mod 32 in
  match op with
  | TCCIR_OP_ADD => Some (v1 + v2)
  | TCCIR_OP_SUB => Some (v1 - v2)
  | TCCIR_OP_MUL => Some (v1 * v2)
  | TCCIR_OP_AND => Some (Z.land v1 v2)
  | TCCIR_OP_OR => Some (Z.lor v1 v2)
  | TCCIR_OP_XOR => Some (Z.lxor v1 v2)
  | TCCIR_OP_SHL => if count <? w then Some (v1 * 2 ^ count) else None
  | TCCIR_OP_SHR => if count <? w then Some (v1 mod 2 ^ w / 2 ^ count) else None
  | TCCIR_OP_SAR => if count <? w then Some (sint w v1 / 2 ^ count) else None
  | TCCIR_OP_ROR => Some (v1 mod 2 ^ 32 / 2 ^ lsb + v1 * 2 ^ (32 - lsb))
  | TCCIR_OP_UMULL => Some (v1 mod 2 ^ 32 * (v2 mod 2 ^ 32))
  | TCCIR_OP_SMULL => Some (sint 32 v1 * sint 32 v2)
  | TCCIR_OP_UBFX =>
      let word := if Z.testbit v2 12 then v1 / 2 ^ 32 mod 2 ^ 32 else v1 mod 2 ^ 32 in
      if bits =? 0 then None else Some (word / 2 ^ lsb mod 2 ^ bits)
  | TCCIR_OP_DIV | TCCIR_OP_PDIV | TCCIR_OP_IMOD =>
      let a := sint w v1 in
      let b := sint w v2 in
      if sdiv_undefined w a b then None else Some (match op with TCCIR_OP_IMOD => Z.rem a b | _ => Z.quot a b end)
  | TCCIR_OP_UDIV | TCCIR_OP_UMOD =>
      let a := v1 mod 2 ^ w in
      let b := v2 mod 2 ^ w in
      if b =? 0 then None else Some (match op with TCCIR_OP_UDIV => a / b | _ => a mod b end)
  | _ => None
  end.

Definition fold_width (is_64 : bool) : Z := if is_64 then 64 else 32.

Definition result_width (op : IrArithOp) (is_64 : bool) : Z :=
  match op with TCCIR_OP_UMULL | TCCIR_OP_SMULL => 64 | TCCIR_OP_ROR | TCCIR_OP_UBFX => 32 | _ => fold_width is_64 end.

(** A constant operand: any [int64_t] at 64 bits; at 32 bits the value extended
    with its sign or with zeros. *)
Definition operand_ok (is_64 : bool) (v : Z) : Prop := if is_64 then is_int64 v else - 2 ^ 31 <= v < 2 ^ 32.

Lemma operand_int64 is_64 v : operand_ok is_64 v -> is_int64 v.
Proof. unfold operand_ok, is_int64. destruct is_64; lia. Qed.

(** In range, a count is its residue; out of range, both are. *)
Lemma count_checked is_64 v : operand_ok is_64 v ->
  ((v <? 0) || (fold_width is_64 <=? v)) = negb (v mod 2 ^ fold_width is_64 <? fold_width is_64) /\
  (((v <? 0) || (fold_width is_64 <=? v)) = false -> v mod 2 ^ fold_width is_64 = v /\ 0 <= v < fold_width is_64).
Proof.
  unfold operand_ok, is_int64, fold_width. intros H.
  destruct is_64; (destruct (Z_lt_le_dec v 0);
   [ rewrite <- (Z_mod_plus_full v 1), (Z.mod_small (v + 1 * _)) by lia | rewrite Z.mod_small by lia ];
   split; repeat case Z.ltb_spec; repeat case Z.leb_spec; cbn; intros; try lia; try discriminate; auto with lia).
Qed.

(** The source's width-specific division guard: it sees the sign-extended [-1]. *)
Lemma zero_residue is_64 v : operand_ok is_64 v -> v = 0 <-> v mod 2 ^ fold_width is_64 = 0.
Proof.
  unfold operand_ok, is_int64, fold_width. intros H.
  destruct is_64; (destruct (Z_lt_le_dec v 0);
   [ rewrite <- (Z_mod_plus_full v 1), (Z.mod_small (v + 1 * _)) by lia | rewrite Z.mod_small by lia ]; lia).
Qed.

Definition fold_agrees (op : IrArithOp) (is_64 : bool) (v1 v2 : Z) : Prop :=
  match ir_opt_const_binop op is_64 v1 v2, ir_arith op (fold_width is_64) v1 v2 with
  | Folded r, Some m => same_residue (result_width op is_64) r m
  | NotFolded, None => True
  | HostTrap, None => is_64 = false /\ v2 = 2 ^ 32 - 1 /\ s32 v1 = - 2 ^ 31
  | _, _ => False
  end.

Lemma residue64 is_64 x y : same_residue 64 x y -> same_residue (fold_width is_64) x y.
Proof. apply residue_narrow. unfold fold_width. destruct is_64; lia. Qed.

Lemma fold_ring is_64 v1 v2 :
  fold_agrees TCCIR_OP_ADD is_64 v1 v2 /\ fold_agrees TCCIR_OP_SUB is_64 v1 v2 /\ fold_agrees TCCIR_OP_MUL is_64 v1 v2.
Proof.
  repeat split; unfold fold_agrees, ir_opt_const_binop, ir_arith, result_width; apply residue64;
  rewrite s64_residue, (u64_residue v1), (u64_residue v2); reflexivity.
Qed.

Lemma fold_shift op is_64 v1 v2 : op = TCCIR_OP_SHL \/ op = TCCIR_OP_SHR \/ op = TCCIR_OP_SAR ->
  operand_ok is_64 v1 -> operand_ok is_64 v2 -> fold_agrees op is_64 v1 v2.
Proof.
  intros Hop H1 H2. destruct (count_checked is_64 v2 H2) as [C D].
  assert (G : fold_agrees op is_64 v1 v2 <->
    (((v2 <? 0) || (fold_width is_64 <=? v2)) = false -> fold_agrees op is_64 v1 v2)).
  { split; [auto|]. intros K. destruct ((v2 <? 0) || (fold_width is_64 <=? v2)) eqn:E; [|auto].
    symmetry in C. apply negb_true_iff in C. unfold fold_agrees, ir_arith, ir_opt_const_binop, fold_width in *.
    destruct Hop as [-> |[-> | ->]]; rewrite C; destruct is_64; now rewrite E. }
  apply G. intros E. rewrite E in C. symmetry in C. apply negb_false_iff in C. destruct (D E) as [M B].
  unfold fold_agrees, ir_arith, ir_opt_const_binop, result_width. unfold fold_width in E.
  destruct Hop as [-> |[-> | ->]]; rewrite C, M, E.
  - apply residue64. rewrite s64_residue, Z.shiftl_mul_pow2, (u64_residue v1) by lia. reflexivity.
  - rewrite !Z.shiftr_div_pow2 by lia. destruct is_64; cbn [fold_width].
    + rewrite s64_residue, <- u64_mod. reflexivity.
    + rewrite <- u32_mod. reflexivity.
  - rewrite !Z.shiftr_div_pow2 by lia. destruct is_64; cbn [fold_width].
    + rewrite signed_small by (unfold operand_ok, is_int64 in H1; lia). reflexivity.
    + rewrite s32_signed. reflexivity.
Qed.

Lemma fold_rotate is_64 v1 v2 : fold_agrees TCCIR_OP_ROR is_64 v1 v2.
Proof.
  unfold fold_agrees, ir_arith, ir_opt_const_binop, result_width.
  assert (E : u32 v2 &&& 31 = v2 mod 32).
  { unfold u32. rewrite <- Z.land_assoc. change (Z.ones 32 &&& 31) with (Z.ones 5). apply Z.land_ones. lia. }
  rewrite E. pose proof (Z.mod_pos_bound v2 32 ltac:(lia)). set (n := v2 mod 32) in *. clearbody n.
  rewrite s32_residue. destruct (Z.eq_dec n 0) as [->|N].
  - rewrite Z.shiftr_0_r, Z.div_1_r. change (2 ^ (32 - 0)) with (2 ^ 32).
    unfold shl32. rewrite Z.shiftl_mul_pow2 by lia. rewrite (u32_mod (u32 v1 * _)). change (2 ^ (32 - 0)) with (2 ^ 32). rewrite Z_mod_mult, Z.lor_0_r.
    unfold same_residue. rewrite Z_mod_plus_full, u32_mod. reflexivity.
  - rewrite rotated by (lia || apply u32_bound). rewrite shl32_residue by lia.
    apply residue_add; [now rewrite u32_mod | now rewrite (u32_residue v1)].
Qed.

(** UBFX with the flag that puts the field in the high word. *)
Definition hi_field (op : IrArithOp) (v2 : Z) : bool := match op with TCCIR_OP_UBFX => Z.testbit v2 12 | _ => false end.

Lemma field_operands v : s32 v &&& 0x1F = v mod 32 /\ (s32 v >>> 5) &&& 0x1F = v / 32 mod 32.
Proof.
  split.
  - change 0x1F with (Z.ones 5). rewrite Z.land_ones by lia. apply (residue_narrow 5 32); [lia|apply s32_residue].
  - change (v / 32 mod 32) with (v / 2 ^ 5 mod 2 ^ 5). rewrite <- (Z.shiftr_div_pow2 v 5 ltac:(lia)).
    change 0x1F with (Z.ones 5). apply Z.bits_inj'. intros i Hi. rewrite <- !Z.land_ones, !Z.land_spec, !Z.shiftr_spec, Z.testbit_ones_nonneg by lia.
    case Z.ltb_spec; [intros B|intros _; now rewrite !andb_false_r]. f_equal.
    rewrite <- (Z.mod_pow2_bits_low (s32 v) 32), <- (Z.mod_pow2_bits_low v 32), (s32_residue v) by lia. reflexivity.
Qed.

(** The fold does not look at the flag. *)
Lemma fold_field_flag is_64 v1 v2 : ir_opt_const_binop TCCIR_OP_UBFX is_64 v1 v2 = ir_opt_const_binop TCCIR_OP_UBFX is_64 v1 (v2 - 2 ^ 12).
Proof.
  unfold ir_opt_const_binop. destruct (field_operands v2) as [-> ->], (field_operands (v2 - 2 ^ 12)) as [-> ->].
  replace ((v2 - 2 ^ 12) mod 32) with (v2 mod 32) by lia_mod. replace ((v2 - 2 ^ 12) / 32 mod 32) with (v2 / 32 mod 32) by lia_mod. reflexivity.
Qed.

Lemma fold_field is_64 v1 v2 : Z.testbit v2 12 = false -> fold_agrees TCCIR_OP_UBFX is_64 v1 v2.
Proof.
  intros Hf. unfold fold_agrees, ir_arith, ir_opt_const_binop, result_width. rewrite Hf. destruct (field_operands v2) as [L W].
  rewrite L, W. pose proof (Z.mod_pos_bound (v2 / 32) 32 ltac:(lia)). pose proof (Z.mod_pos_bound v2 32 ltac:(lia)).
  set (n := v2 mod 32) in *. set (b := v2 / 32 mod 32) in *. clearbody n b.
  replace ((b <=? 0) || (32 <? b)) with (b =? 0) by (case Z.eqb_spec; case Z.leb_spec; case Z.ltb_spec; cbn; lia).
  case Z.eqb_spec; [auto|]. intros N. rewrite Z.shiftr_div_pow2, u32_mod by lia.
  replace ((1 <<< b) - 1) with (Z.ones b); [now rewrite Z.land_ones by lia|].
  rewrite Z.ones_equiv. unfold shl32. rewrite Z.shiftl_mul_pow2, Z.mul_1_l, u32_small; [lia|..|lia].
  split; [apply Z.pow_nonneg; lia|apply Z.pow_lt_mono_r; lia].
Qed.

Lemma s32_zero is_64 v : is_64 = false -> operand_ok is_64 v -> s32 v = 0 <-> v = 0.
Proof. intros -> H. unfold s32. rewrite (zero_residue false v H), u32_mod. cbn [fold_width]. case Z.ltb_spec; lia_mod. Qed.

Lemma s32_minus_one v : operand_ok false v -> s32 v = -1 -> v = -1 \/ v = 2 ^ 32 - 1.
Proof. unfold operand_ok, s32. rewrite u32_mod. case Z.ltb_spec; lia_mod. Qed.

Lemma fold_sdiv op is_64 v1 v2 : op = TCCIR_OP_DIV \/ op = TCCIR_OP_PDIV \/ op = TCCIR_OP_IMOD ->
  operand_ok is_64 v1 -> operand_ok is_64 v2 -> fold_agrees op is_64 v1 v2.
Proof.
  intros Hop H1 H2.
  assert (Hr : result_width op is_64 = fold_width is_64) by (destruct Hop as [-> |[-> | ->]]; reflexivity).
  unfold fold_agrees. rewrite Hr. clear Hr. destruct is_64.
  - unfold operand_ok in *.
    assert (E : forall v, is_int64 v -> sint (fold_width true) v = v) by (intros; apply (signed_small 64); unfold is_int64 in *; lia).
    destruct Hop as [-> |[-> | ->]]; unfold ir_opt_const_binop, ir_arith; rewrite !E by auto;
      unfold sdiv_undefined; change (- 2 ^ (64 - 1)) with (- 2 ^ 63); change (- 2 ^ (fold_width true - 1)) with (- 2 ^ 63);
      destruct ((v2 =? 0) || (v2 =? -1) && (v1 =? - 2 ^ 63)); auto; reflexivity.
  - assert (Z0 := s32_zero false v2 eq_refl H2). assert (M1 := s32_minus_one v2 H2).
    assert (K : match (v2 =? 0) || ((v2 =? -1) && (s32 v1 =? - 2 ^ 31)), sdiv_undefined 32 (s32 v1) (s32 v2) with
      | true, false => False | false, true => v2 = 2 ^ 32 - 1 /\ s32 v1 = - 2 ^ 31 | _, _ => True end).
    { unfold sdiv_undefined. change (- 2 ^ (32 - 1)) with (- 2 ^ 31).
      assert (v2 = -1 -> s32 v2 = -1) by (intros ->; reflexivity).
      repeat case Z.eqb_spec; cbn [andb orb]; intros; auto; try tauto; try lia. }
    destruct Hop as [-> |[-> | ->]]; unfold ir_opt_const_binop, ir_arith; cbn [fold_width]; rewrite <- !s32_signed;
      destruct ((v2 =? 0) || ((v2 =? -1) && (s32 v1 =? - 2 ^ 31))), (sdiv_undefined 32 (s32 v1) (s32 v2)); try contradiction; auto; reflexivity.
Qed.

Lemma fold_udiv op is_64 v1 v2 : op = TCCIR_OP_UDIV \/ op = TCCIR_OP_UMOD ->
  operand_ok is_64 v2 -> fold_agrees op is_64 v1 v2.
Proof.
  intros Hop H2. pose proof (zero_residue is_64 v2 H2) as Z0.
  assert (Hr : result_width op is_64 = fold_width is_64) by (destruct Hop as [-> | ->]; reflexivity).
  assert (E : forall v, (if is_64 then u64 v else u32 v) = v mod 2 ^ fold_width is_64) by (intros v; destruct is_64; [apply u64_mod|apply u32_mod]).
  unfold fold_agrees. rewrite Hr. clear Hr. destruct Hop as [-> | ->]; unfold ir_opt_const_binop, ir_arith; rewrite !E.
  all: destruct (Z.eqb_spec v2 0) as [N|N], (Z.eqb_spec (v2 mod 2 ^ fold_width is_64) 0) as [M|M]; try tauto; apply residue64, s64_residue.
Qed.

Lemma binop_agrees op is_64 v1 v2 : hi_field op v2 = false -> operand_ok is_64 v1 -> operand_ok is_64 v2 -> fold_agrees op is_64 v1 v2.
Proof.
  intros Hf H1 H2. destruct (fold_ring is_64 v1 v2) as (A & S & M).
  destruct op; auto using fold_shift, fold_rotate, fold_field, fold_sdiv, fold_udiv; try exact I; try reflexivity.
  - unfold fold_agrees, ir_opt_const_binop, ir_arith. rewrite s64_residue, !u32_mod. reflexivity.
  - unfold fold_agrees, ir_opt_const_binop, ir_arith. rewrite !s32_signed. reflexivity.
Qed.

(** C7: the fold of an integer instruction gives, modulo the width of the
    result, the value the instruction computes on constants that are extended
    with their sign or with zeros, and stays away exactly where the instruction
    is undefined (a count outside the width, a division by zero, [INT_MIN] over
    [-1], an empty bit field) or unknown.  There are two exceptions, both faults of the
    fold: a 32-bit [-1] that is zero-extended passes the division guard, and [INT_MIN]
    over it divides on the host; and for a UBFX whose parameter has [UBFX_HI_HALF], bit
    12, which reads the high word of a 64-bit source, the fold is the one without the
    flag and reads the low word. *)
Theorem const_binop_exact (op : IrArithOp) (is_64 : bool) (v1 v2 : Z) (H1 : operand_ok is_64 v1) (H2 : operand_ok is_64 v2) :
  (~ (op = TCCIR_OP_UBFX /\ Z.testbit v2 12 = true) ->
     match ir_opt_const_binop op is_64 v1 v2, ir_arith op (fold_width is_64) v1 v2 with
     | Folded r, Some m => same_residue (result_width op is_64) r m
     | NotFolded, None => True
     | HostTrap, None => is_64 = false /\ v2 = 2 ^ 32 - 1 /\ s32 v1 = - 2 ^ 31
     | _, _ => False
     end) /\
  (op = TCCIR_OP_UBFX -> Z.testbit v2 12 = true -> ir_opt_const_binop op is_64 v1 v2 = ir_opt_const_binop op is_64 v1 (v2 - 2 ^ 12)).
Proof.
  split; [|intros -> _; apply fold_field_flag]. intros N. apply binop_agrees; auto.
  destruct op; try reflexivity. cbn [hi_field]. destruct (Z.testbit v2 12); [exfalso; auto|reflexivity].
Qed.

(** The high word of 0x100000000 is 1, its low word 0. *)
Lemma const_binop_exact_witness :
  (match ir_opt_const_binop TCCIR_OP_DIV false (-7) 2, ir_arith TCCIR_OP_DIV 32 (-7) 2 with
   | Folded r, Some m => same_residue 32 r m | _, _ => False end) /\
  ir_opt_const_binop TCCIR_OP_DIV false (- 2 ^ 31) (2 ^ 32 - 1) = HostTrap /\
  ir_opt_const_binop TCCIR_OP_UBFX true (2 ^ 32) (2 ^ 12 + 32) = Folded 0 /\ ir_arith TCCIR_OP_UBFX 64 (2 ^ 32) (2 ^ 12 + 32) = Some 1.
Proof.
  split; [|split; [reflexivity|split; [|reflexivity]]].
  - apply (const_binop_exact TCCIR_OP_DIV false (-7) 2 ltac:(cbn; lia) ltac:(cbn; lia)). intros [E _]. discriminate E.
  - destruct (const_binop_exact TCCIR_OP_UBFX true (2 ^ 32) (2 ^ 12 + 32)) as [_ E]; [unfold operand_ok, is_int64; lia..|].
    rewrite E by reflexivity. reflexivity.
Defined.

(** The sparse propagation keeps a 32-bit result as its signed value. *)
Lemma sccp_binary_exact op v1 v2 r : operand_ok false v1 -> operand_ok false v2 ->
  sccp_eval_binary op v1 v2 false = Folded r -> exists m, ir_arith op 32 v1 v2 = Some m /\ r = sint 32 m.
Proof.
  intros H1 H2 E. assert (hi_field op v2 = false) as Hf by (destruct op; (reflexivity || discriminate E)). pose proof (binop_agrees op false v1 v2 Hf H1 H2) as C. unfold sccp_eval_binary, fold_agrees in *. cbn [fold_width] in C.
  destruct op; try discriminate E; destruct (ir_opt_const_binop _ false v1 v2) as [x| |]; try discriminate E;
    destruct (ir_arith _ 32 v1 v2) as [m|]; try contradiction; exists m; injection E as <-; split; auto;
    rewrite s32_signed; now apply signed_proper.
Qed.

(** The sign extension that known_bits writes with masks. *)
Lemma mask_extend x : (if negb false && truth ((x &&& 0xFFFFFFFF) &&& 0x80000000) then (x &&& 0xFFFFFFFF) ||| u64 (Z.lnot 0xFFFFFFFF) else x &&& 0xFFFFFFFF) = u64 (sint 32 x).
Proof.
  change (x &&& 0xFFFFFFFF) with (u32 x). rewrite bit31_land by apply u32_bound. cbn [negb andb].
  rewrite <- s32_signed. unfold s32. pose proof (u32_bound x). change (u64 (Z.lnot 0xFFFFFFFF)) with ((2 ^ 32 - 1) * 2 ^ 32).
  case Z.leb_spec; case Z.ltb_spec; intros; try lia.
  - rewrite Z.lor_comm, lor_fields, u64_mod, <- (Z_mod_plus_full _ 1), Z.mod_small by lia. lia.
  - rewrite u64_small; lia.
Qed.

Definition kb_arith (op : IrArithOp) : bool :=
  match op with
  | TCCIR_OP_ADD | TCCIR_OP_SUB | TCCIR_OP_MUL | TCCIR_OP_AND | TCCIR_OP_OR | TCCIR_OP_XOR | TCCIR_OP_SHL | TCCIR_OP_SHR | TCCIR_OP_SAR => true
  | _ => false
  end.

Definition is_wide (bt : irop_btype) : bool := bool_decide (bt = IROP_BTYPE_INT64).

(** The constants of known_bits stay sign-extended: the fold gives the signed
    value of the result as a [uint64_t]. *)
Lemma kb_const_exact op dest src a b : kb_arith op = true -> operand_ok (is_wide dest) (s64 a) -> operand_ok (is_wide dest) (s64 b) ->
  kb_const_compute op dest src a b = option_map (fun m => u64 (sint (fold_width (is_wide dest)) m)) (ir_arith op (fold_width (is_wide dest)) (s64 a) (s64 b)).
Proof.
  intros Hop Ha Hb. assert (hi_field op (s64 b) = false) as Hf by (destruct op; (reflexivity || discriminate Hop)). pose proof (binop_agrees op (is_wide dest) (s64 a) (s64 b) Hf Ha Hb) as C.
  unfold fold_agrees in C. unfold kb_const_compute. fold (is_wide dest).
  assert (Hr : result_width op (is_wide dest) = fold_width (is_wide dest)) by (destruct op; try discriminate Hop; reflexivity).
  assert (Ht : ir_opt_const_binop op (is_wide dest) (s64 a) (s64 b) <> HostTrap) by (destruct op; try discriminate Hop; cbn; try destruct (_ || _); congruence).
  rewrite Hr in C. destruct op; try discriminate Hop; destruct (ir_opt_const_binop _ (is_wide dest) (s64 a) (s64 b)) as [r| |]; try contradiction;
    destruct (ir_arith _ (fold_width (is_wide dest)) (s64 a) (s64 b)) as [m|]; try contradiction; try reflexivity; cbn [option_map]; f_equal;
    rewrite <- (signed_proper _ _ _ C); destruct (is_wide dest); cbn [fold_width] in *.
  all: try (cbn [negb andb]; change (u64 r &&& Z.ones 64) with (u64 (u64 r)); rewrite !u64_mod, Zmod_mod; symmetry; apply signed_residue).
  all: etransitivity; [apply mask_extend|]; f_equal; apply signed_proper, (residue_narrow 32 64); [lia|apply u64_residue].
Qed.

(** ** Integer operators of the front end *)

Definition width_of (t : Z) : Z := if btype t =? VT_LLONG then 64 else 32.
Definition is_unsigned (t : Z) : bool := truth (t &&& VT_UNSIGNED).
Definition not_complex (t : Z) : Prop := truth (t &&& VT_COMPLEX) = false.

(** The C value of type [t] that a residue stands for. *)
Definition value_of (t x : Z) : Z := if is_unsigned t then x mod 2 ^ width_of t else sint (width_of t) x.

Lemma width_cases t : width_of t = 64 \/ width_of t = 32.
Proof. unfold width_of. destruct (btype t =? VT_LLONG); auto. Qed.

Lemma value_residue t x : same_residue (width_of t) (value_of t x) x.
Proof. unfold value_of. destruct (is_unsigned t); [apply mod_residue | apply signed_residue]. Qed.

Lemma residue_width t x y : same_residue 64 x y -> same_residue (width_of t) x y.
Proof. apply residue_narrow. destruct (width_cases t) as [-> | ->]; lia. Qed.

Lemma value_range t x : if is_unsigned t then 0 <= value_of t x < 2 ^ width_of t else - 2 ^ (width_of t - 1) <= value_of t x < 2 ^ (width_of t - 1).
Proof.
  unfold value_of. destruct (is_unsigned t); [apply Z.mod_pos_bound | apply signed_bound]; destruct (width_cases t) as [-> | ->]; lia.
Qed.

Lemma value64_value c t : is_uint64 c -> not_complex t -> value64 c t = u64 (value_of t c).
Proof.
  unfold is_uint64, not_complex. intros Hc Ht. unfold value64, value_of, width_of, is_unsigned. rewrite Ht. cbn [orb].
  destruct (btype t =? VT_LLONG).
  - destruct (truth (t &&& VT_UNSIGNED)); [now rewrite u64_mod, Zmod_mod, Z.mod_small by lia|].
    rewrite u64_mod, (signed_residue 64 c). symmetry. apply Z.mod_small. lia.
  - destruct (truth (t &&& VT_UNSIGNED)).
    + rewrite u32_mod, u64_small; [reflexivity|]. pose proof (Z.mod_pos_bound c (2 ^ 32) ltac:(lia)). lia.
    + assert (B : c &&& 0x80000000 = u32 c &&& 0x80000000) by (unfold u32; rewrite <- Z.land_assoc; reflexivity).
      pose proof (u32_bound c) as U. rewrite B, land_bit31, <- s32_signed by auto. unfold s32.
      case Z.leb_spec; case Z.ltb_spec; intros; try lia; [|rewrite (u64_small (u32 c)) by lia; apply Z.lor_0_r].
      change (u64 (- 2 ^ 31)) with (2 ^ 31 ||| (2 ^ 33 - 1) * 2 ^ 31).
      assert (L : u32 c = (u32 c - 2 ^ 31) ||| 2 ^ 31) by (rewrite (lor_implicit 31) by lia; lia).
      rewrite Z.lor_assoc, L at 1. rewrite <- (Z.lor_assoc _ (2 ^ 31) (2 ^ 31)), Z.lor_diag, <- Z.lor_assoc.
      change (2 ^ 31 ||| (2 ^ 33 - 1) * 2 ^ 31) with ((2 ^ 33 - 1) * 2 ^ 31).
      rewrite Z.lor_comm, lor_fields, u64_mod, <- (Z_mod_plus_full _ 1), Z.mod_small by lia. lia.
Qed.

(** An operator of C on values of type [t]; [None] where it is undefined.  The
    pointer difference [TOK_PDIV] divides without remainder. *)
Definition c_op (t op x y : Z) : option Z :=
  let w := width_of t in
  let a := value_of t x in
  let b := value_of t y in
  let n := y mod 2 ^ 32 in
  switch op
    [(CH_ADD, Some (a + b)); (CH_SUB, Some (a - b)); (CH_MUL, Some (a * b));
     (CH_AND, Some (Z.land a b)); (CH_OR, Some (Z.lor a b)); (CH_XOR, Some (Z.lxor a b));
     (CH_DIV, if b =? 0 then None else Some (Z.quot a b)); (CH_MOD, if b =? 0 then None else Some (Z.rem a b));
     (TOK_PDIV, if is_unsigned t || (b =? 0) || negb (Z.rem a b =? 0) then None else Some (Z.quot a b));
     (TOK_SHL, if n <? w then Some (a * 2 ^ n) else None); (TOK_SAR, if n <? w then Some (a / 2 ^ n) else None);
     (TOK_EQ, Some (b2z (a =? b))); (TOK_NE, Some (b2z (negb (a =? b))));
     (TOK_LT, Some (b2z (a <? b))); (TOK_GE, Some (b2z (negb (a <? b))));
     (TOK_GT, Some (b2z (b <? a))); (TOK_LE, Some (b2z (negb (b <? a))));
     (TOK_LAND, Some (b2z (truth a && truth b))); (TOK_LOR, Some (b2z (truth a || truth b)))] None.

(** The form of an operator that [gen_op] hands on. *)
Definition selected (t op : Z) : Z := if is_unsigned t then unsigned_op op else op.

Lemma residue_bits w x y : 0 <= w -> same_residue w x y <-> (forall i, 0 <= i < w -> Z.testbit x i = Z.testbit y i).
Proof.
  intros Hw. unfold same_residue. split.
  - intros E i Hi. rewrite <- (Z.mod_pow2_bits_low x w), <- (Z.mod_pow2_bits_low y w), E by lia. reflexivity.
  - intros E. apply Z.bits_inj'. intros i Hi. destruct (Z_lt_le_dec i w).
    + rewrite !Z.mod_pow2_bits_low by lia. auto.
    + rewrite !Z.mod_pow2_bits_high by lia. reflexivity.
Qed.

Section Bitwise.
Context (w x x' y y' : Z) (Hw : 0 <= w) (Hx : same_residue w x x') (Hy : same_residue w y y').

Lemma residue_land : same_residue w (Z.land x y) (Z.land x' y').
Proof. rewrite residue_bits in *; auto. intros i Hi. now rewrite !Z.land_spec, Hx, Hy. Qed.

Lemma residue_lor : same_residue w (Z.lor x y) (Z.lor x' y').
Proof. rewrite residue_bits in *; auto. intros i Hi. now rewrite !Z.lor_spec, Hx, Hy. Qed.

Lemma residue_lxor : same_residue w (Z.lxor x y) (Z.lxor x' y').
Proof. rewrite residue_bits in *; auto. intros i Hi. now rewrite !Z.lxor_spec, Hx, Hy. Qed.
End Bitwise.

Lemma sign_bit64 a : is_int64 a -> truth (u64 a >>> 63) = (a <? 0).
Proof.
  unfold is_int64. intros H. rewrite Z.shiftr_div_pow2, u64_mod by lia. unfold truth.
  destruct (Z.ltb_spec a 0).
  - rewrite <- (Z_mod_plus_full a 1), Z.mod_small by lia. rewrite <- (Z.div_unique (a + 1 * 2 ^ 64) (2 ^ 63) 1 (a + 2 ^ 63)) by lia. reflexivity.
  - rewrite Z.mod_small, Z.div_small by lia. reflexivity.
Qed.

Lemma u64_abs a : is_int64 a -> (if a <? 0 then u64 (- u64 a) else u64 a) = Z.abs a.
Proof.
  unfold is_int64. intros H. case Z.ltb_spec; intros; [|rewrite u64_small; lia].
  rewrite u64_mod, (u64_mod a), <- (Z_mod_plus_full a 1), (Z.mod_small (a + _)) by lia.
  rewrite <- (Z_mod_plus_full _ 1), Z.mod_small by lia. lia.
Qed.

Lemma sdiv_exact a b : is_int64 a -> is_int64 b -> b <> 0 -> gen_opic_sdiv (u64 a) (u64 b) = u64 (Z.quot a b).
Proof.
  intros Ha Hb Nb. unfold gen_opic_sdiv. rewrite !sign_bit64, !u64_abs by auto.
  assert (S : truth ((u64 a ^^^ u64 b) >>> 63) = xorb (a <? 0) (b <? 0)).
  { rewrite <- !sign_bit64 by auto. rewrite Z.shiftr_lxor.
    assert (B : forall x, is_int64 x -> u64 x >>> 63 = b2z (truth (u64 x >>> 63))).
    { intros x Hx. rewrite sign_bit64, Z.shiftr_div_pow2, u64_mod by (auto; lia). unfold is_int64 in Hx.
      case Z.ltb_spec; intros; cbn [b2z]; lia_mod. }
    rewrite (B a Ha), (B b Hb). destruct (truth (u64 a >>> 63)), (truth (u64 b >>> 63)); reflexivity. }
  rewrite S. assert (Q : Z.abs a / Z.abs b = Z.abs (Z.quot a b)) by (rewrite <- Z.quot_div_nonneg, Z.quot_abs by lia; reflexivity).
  rewrite Q. unfold is_int64 in *.
  assert (L : Z.abs (Z.quot a b) <= 2 ^ 63) by (rewrite <- Q; etransitivity; [apply Z.div_le_upper_bound with (q := Z.abs a); nia | lia]).
  assert (G : if xorb (a <? 0) (b <? 0) then Z.quot a b <= 0 else 0 <= Z.quot a b).
  { case Z.ltb_spec; case Z.ltb_spec; cbn [xorb]; intros; [|..].
    - rewrite <- (Z.opp_involutive a), <- (Z.opp_involutive b), Z.quot_opp_opp by lia. apply Z.quot_pos; lia.
    - rewrite <- (Z.opp_involutive a), Z.quot_opp_l by lia. pose proof (Z.quot_pos (- a) b). lia.
    - rewrite <- (Z.opp_involutive b), Z.quot_opp_r by lia. pose proof (Z.quot_pos a (- b)). lia.
    - apply Z.quot_pos; lia. }
  destruct (xorb (a <? 0) (b <? 0)); [f_equal; lia | rewrite u64_small; lia].
Qed.

Lemma lt_exact a b : is_int64 a -> is_int64 b -> gen_opic_lt (u64 a) (u64 b) = b2z (a <? b).
Proof.
  intros Ha Hb. unfold gen_opic_lt.
  assert (F : forall x, is_int64 x -> u64 x ^^^ 2 ^ 63 = x + 2 ^ 63).
  { intros x Hx. unfold is_int64 in Hx. rewrite u64_mod. destruct (Z_lt_le_dec x 0).
    - rewrite <- (Z_mod_plus_full x 1), Z.mod_small by lia. replace (x + 1 * 2 ^ 64) with ((x + 2 ^ 63) ||| 2 ^ 63) by (rewrite (lor_implicit 63) by lia; lia).
      rewrite Z.lor_comm. apply Z.bits_inj'. intros i Hi. rewrite Z.lxor_spec, Z.lor_spec, Z.pow2_bits_eqb by lia.
      case Z.eqb_spec; [intros <-|intros; now rewrite xorb_false_r, orb_false_l]. rewrite (testbit_above 63) by lia. reflexivity.
    - rewrite Z.mod_small, <- (lor_implicit 63) by lia. apply Z.bits_inj'. intros i Hi. rewrite Z.lxor_spec, Z.lor_spec, Z.pow2_bits_eqb by lia.
      case Z.eqb_spec; [intros <-|intros; now rewrite xorb_false_r, orb_false_r]. rewrite (testbit_above 63) by lia. reflexivity. }
  rewrite !F by auto. f_equal. case Z.ltb_spec; case Z.ltb_spec; lia.
Qed.

Definition c_ops : list Z :=
  [CH_ADD; CH_SUB; CH_MUL; CH_AND; CH_OR; CH_XOR; CH_DIV; CH_MOD; TOK_PDIV; TOK_SHL; TOK_SAR;
   TOK_EQ; TOK_NE; TOK_LT; TOK_GE; TOK_GT; TOK_LE; TOK_LAND; TOK_LOR].

Lemma c_op_in t op x y m : c_op t op x y = Some m -> In op c_ops.
Proof.
  intros H. destruct (in_dec Z.eq_dec op c_ops) as [|N]; [auto|]. unfold c_op in H.
  rewrite switch_default in H; [discriminate|]. repeat constructor; cbn; intros ->; apply N; cbn; tauto.
Qed.

Definition takes_count (op : Z) : bool := (op =? TOK_SHL) || (op =? TOK_SAR).

(** The second constant: a value of the same type, except that an addend needs
    the width only and a count is an [int]. *)
Definition second_ok (t op y l2 : Z) : Prop :=
  is_uint64 l2 /\
  if takes_count op then same_residue 32 l2 y
  else same_residue (width_of t) l2 y /\ (op = CH_ADD \/ op = CH_SUB \/ l2 = u64 (value_of t y)).

Definition count_mask (t : Z) : Z := if btype t =? VT_LLONG then 63 else 31.

Lemma masked_count t l2 y : same_residue 32 l2 y -> y mod 2 ^ 32 < width_of t -> l2 &&& count_mask t = y mod 2 ^ 32.
Proof.
  intros E H. rewrite <- E in H |- *. unfold same_residue in E. pose proof (Z.mod_pos_bound l2 (2 ^ 32) ltac:(lia)).
  assert (L : forall k, 0 <= k <= 32 -> l2 &&& Z.ones k = l2 mod 2 ^ 32 mod 2 ^ k).
  { intros k Hk. rewrite Z.land_ones by lia. apply (residue_narrow k 32); [lia|]. symmetry. apply mod_residue. }
  unfold count_mask, width_of in *. destruct (btype t =? VT_LLONG);
    [change 63 with (Z.ones 6) | change 31 with (Z.ones 5)]; rewrite L by lia; apply Z.mod_small; lia.
Qed.

Lemma u64_range x : is_uint64 (u64 x).
Proof. unfold is_uint64. rewrite u64_mod. apply Z.mod_pos_bound. lia. Qed.

Lemma sar_exact a n : is_int64 a -> 0 <= n ->
  (if truth (u64 a >>> 63) then u64 (Z.lnot (u64 (Z.lnot (u64 a)) >>> n)) else u64 a >>> n) = u64 (a / 2 ^ n).
Proof.
  intros Ha Hn. rewrite sign_bit64 by auto. unfold is_int64 in Ha. pose proof (Z.pow_pos_nonneg 2 n ltac:(lia) Hn).
  case Z.ltb_spec; intros S.
  - assert (E : u64 (Z.lnot (u64 a)) = Z.lnot a).
    { unfold Z.lnot. rewrite !u64_mod, <- (Z_mod_plus_full a 1), (Z.mod_small (a + _)) by lia.
      rewrite <- (Z_mod_plus_full _ 1), Z.mod_small by lia. lia. }
    rewrite E, <- Z.shiftr_div_pow2 by lia.
    f_equal. apply Z.bits_inj'. intros i Hi. now rewrite Z.lnot_spec, !Z.shiftr_spec, Z.lnot_spec, negb_involutive by lia.
  - rewrite (u64_small a), Z.shiftr_div_pow2 by lia. symmetry. apply u64_small. split; [apply Z.div_pos; lia|].
    apply Z.div_lt_upper_bound; nia.
Qed.

Section TypedValues.
Context (t x y : Z).

Lemma value_unsigned z : is_unsigned t = true -> 0 <= value_of t z < 2 ^ 64 /\ u64 (value_of t z) = value_of t z.
Proof.
  intros U. pose proof (value_range t z) as R. rewrite U in R.
  assert (0 <= value_of t z < 2 ^ 64) by (destruct (width_cases t) as [E|E]; rewrite E in R; lia). split; [auto|now apply u64_small].
Qed.

Lemma value_signed z : is_unsigned t = false -> is_int64 (value_of t z).
Proof. intros U. pose proof (value_range t z) as R. rewrite U in R. unfold is_int64. destruct (width_cases t) as [E|E]; rewrite E in R; lia. Qed.

Lemma value_eq : (u64 (value_of t x) =? u64 (value_of t y)) = (value_of t x =? value_of t y).
Proof.
  destruct (is_unsigned t) eqn:U.
  - destruct (value_unsigned x U) as [_ ->], (value_unsigned y U) as [_ ->]. reflexivity.
  - case Z.eqb_spec; case Z.eqb_spec; auto; intros N E; exfalso; [apply N | apply E; now rewrite N].
    apply int64_residue; auto using value_signed. unfold same_residue. now rewrite <- !u64_mod.
Qed.

Lemma value_truth z : truth (u64 (value_of t z)) = truth (value_of t z).
Proof.
  destruct (is_unsigned t) eqn:U; [now destruct (value_unsigned z U) as [_ ->]|].
  unfold truth. f_equal. case Z.eqb_spec; case Z.eqb_spec; auto; intros N E; exfalso; [|apply E; now rewrite N].
  apply N, int64_residue; [auto using value_signed | unfold is_int64; lia | unfold same_residue; now rewrite <- !u64_mod].
Qed.

End TypedValues.

Lemma u64_bitwise l1 l2 : is_uint64 l1 -> is_uint64 l2 ->
  Z.land l1 l2 = u64 (Z.land l1 l2) /\ Z.lor l1 l2 = u64 (Z.lor l1 l2) /\ Z.lxor l1 l2 = u64 (Z.lxor l1 l2).
Proof.
  unfold is_uint64. intros B1 B2. unfold u64. repeat split; apply Z.bits_inj'; intros i Hi;
  rewrite ?Z.land_spec, ?Z.lor_spec, ?Z.lxor_spec, ?Z.land_spec, Z.testbit_ones_nonneg by lia;
  (case Z.ltb_spec; intros; [now rewrite andb_true_r|]); rewrite !(testbit_above 64) by lia; reflexivity.
Qed.

(** The folded operators, one group at a time: [l1] and [l2] stand for [x] and [y]. *)
Section OpicConst.
Context (t x y l1 l2 : Z).
Hypothesis (H1 : l1 = u64 (value_of t x)).
Let shm := count_mask t.

Definition folds_to (op m : Z) : Prop :=
  exists l, opic_const op shm l1 l2 = Some l /\ is_uint64 l /\ same_residue (width_of t) l m.

Lemma l1_residue : same_residue (width_of t) l1 x.
Proof. subst l1. rewrite (residue_width t _ _ (u64_residue _)). apply value_residue. Qed.

Lemma w_nonneg : 0 <= width_of t.
Proof. destruct (width_cases t) as [-> | ->]; lia. Qed.

Lemma folds_u64 op z m : opic_const op shm l1 l2 = Some (u64 z) -> same_residue (width_of t) z m -> folds_to op m.
Proof. intros E R. exists (u64 z). split; [exact E|]. split; [apply u64_range|]. now rewrite (residue_width t _ _ (u64_residue z)). Qed.

Lemma folds_b2z op b : opic_const op shm l1 l2 = Some (b2z b) -> folds_to op (b2z b).
Proof. intros E. exists (b2z b). repeat split; auto; unfold is_uint64; destruct b; cbn; lia. Qed.

Lemma value_sum f : (f = Z.add \/ f = Z.sub \/ f = Z.mul) -> same_residue (width_of t) l2 y ->
  same_residue (width_of t) (f l1 l2) (f (value_of t x) (value_of t y)).
Proof. intros Hf E. destruct Hf as [-> |[-> | ->]]; rewrite l1_residue, E, !(value_residue t); reflexivity. Qed.

Lemma folds_ring op m : same_residue (width_of t) l2 y -> (op = CH_ADD \/ op = CH_SUB \/ op = CH_MUL) ->
  c_op t op x y = Some m -> folds_to op m.
Proof.
  intros E Hop C. destruct Hop as [-> |[-> | ->]]; injection C as <-; (eapply folds_u64; [reflexivity|]); apply value_sum; auto.
Qed.

Hypothesis (H2 : l2 = u64 (value_of t y)).

Lemma l2_residue : same_residue (width_of t) l2 y.
Proof. subst l2. rewrite (residue_width t _ _ (u64_residue _)). apply value_residue. Qed.

Lemma folds_bitwise op m : (op = CH_AND \/ op = CH_OR \/ op = CH_XOR) -> c_op t op x y = Some m -> folds_to op m.
Proof.
  intros Hop C. assert (B1 : is_uint64 l1) by (subst l1; apply u64_range). assert (B2 : is_uint64 l2) by (subst l2; apply u64_range).
  assert (R1 : same_residue (width_of t) l1 (value_of t x)) by now rewrite l1_residue, (value_residue t).
  assert (R2 : same_residue (width_of t) l2 (value_of t y)) by now rewrite l2_residue, (value_residue t).
  pose proof w_nonneg. destruct (u64_bitwise l1 l2 B1 B2) as (E1 & E2 & E3).
  destruct Hop as [-> |[-> | ->]]; injection C as <-; eapply folds_u64;
    [unfold opic_const; eval_switch; now rewrite E1 | now apply residue_land
    |unfold opic_const; eval_switch; now rewrite E2 | now apply residue_lor
    |unfold opic_const; eval_switch; now rewrite E3 | now apply residue_lxor].
Qed.

(** Signed operators see 64-bit signed values, the unsigned ones the values themselves. *)
Lemma folds_division op m : (op = CH_DIV \/ op = CH_MOD) -> c_op t op x y = Some m -> l2 <> 0 /\ folds_to (selected t op) m.
Proof.
  intros Hop C. assert (Nb : value_of t y <> 0) by (intros E; destruct Hop as [-> | ->]; unfold c_op in C; revert C; eval_switch; rewrite E; discriminate).
  assert (T := value_truth t y). split; [intros E; apply Nb; apply truth_false; rewrite <- T, <- H2, E; reflexivity|].
  assert (Em : m = if op =? CH_DIV then Z.quot (value_of t x) (value_of t y) else Z.rem (value_of t x) (value_of t y)).
  { destruct Hop as [-> | ->]; unfold c_op in C; revert C; eval_switch; case Z.eqb_spec; congruence. }
  subst m. unfold selected. destruct (is_unsigned t) eqn:U.
  - destruct (value_unsigned t x U) as [Rx Ex], (value_unsigned t y U) as [Ry Ey]. rewrite Ex in H1. rewrite Ey in H2.
    destruct Hop as [-> | ->]; [rewrite Z.quot_div_nonneg by lia | rewrite Z.rem_mod_nonneg by lia]; eexists; (split; [unfold opic_const; eval_switch; rewrite H1, H2; reflexivity|]); split; try reflexivity.
    + unfold is_uint64. split; [apply Z.div_pos; lia|]. apply Z.div_lt_upper_bound; nia.
    + unfold is_uint64. pose proof (Z.mod_pos_bound (value_of t x) (value_of t y)). lia.
  - pose proof (value_signed t x U) as Rx. pose proof (value_signed t y U) as Ry.
    pose proof (sdiv_exact _ _ Rx Ry Nb) as Q. rewrite <- H1, <- H2 in Q.
    destruct Hop as [-> | ->]; (eapply folds_u64; [unfold opic_const; eval_switch; rewrite Q; reflexivity|]); [reflexivity|].
    rewrite (residue_width t _ _ (u64_residue (l2 * _))), (residue_width t _ _ (u64_residue (Z.quot _ _))), l1_residue, l2_residue.
    change (CH_MOD =? CH_DIV) with false. cbv iota.
    replace (Z.rem (value_of t x) (value_of t y)) with (value_of t x - value_of t y * Z.quot (value_of t x) (value_of t y))
      by (pose proof (Z.quot_rem (value_of t x) (value_of t y) Nb); lia).
    apply residue_sub; [|apply residue_mul; [|reflexivity]]; symmetry; apply value_residue.
Qed.

Lemma folds_pointer_difference m : c_op t TOK_PDIV x y = Some m -> l2 <> 0 /\ folds_to TOK_PDIV m.
Proof.
  unfold c_op. eval_switch. destruct (is_unsigned t) eqn:U; [discriminate|]. cbn [orb].
  destruct (Z.eqb_spec (value_of t y) 0) as [|Nb]; [discriminate|]. cbn [orb].
  destruct (negb _); [discriminate|]. intros C. injection C as <-.
  split; [intros E; apply Nb, truth_false; rewrite <- (value_truth t y), <- H2, E; reflexivity|].
  eapply folds_u64; [unfold opic_const; eval_switch; rewrite H1, H2, sdiv_exact by auto using value_signed; reflexivity|reflexivity].
Qed.

Lemma value_lt : (if is_unsigned t then b2z (l1 <? l2) else gen_opic_lt l1 l2) = b2z (value_of t x <? value_of t y) /\
  (if is_unsigned t then b2z (l2 <? l1) else gen_opic_lt l2 l1) = b2z (value_of t y <? value_of t x).
Proof.
  rewrite H1, H2. destruct (is_unsigned t) eqn:U.
  - destruct (value_unsigned t x U) as [_ ->], (value_unsigned t y U) as [_ ->]. auto.
  - rewrite !lt_exact by auto using value_signed. auto.
Qed.

Lemma folds_order op m : (op = TOK_LT \/ op = TOK_GE \/ op = TOK_GT \/ op = TOK_LE) -> c_op t op x y = Some m -> folds_to (selected t op) m.
Proof.
  intros Hop C. unfold selected. pose proof value_lt as LG. destruct (is_unsigned t) eqn:U; destruct LG as [L G].
  - assert (N : forall p q, b2z p = b2z q -> b2z (negb p) = b2z (negb q)) by (intros [] []; cbn; congruence).
    destruct Hop as [-> |[-> |[-> | ->]]]; injection C as <-; apply folds_b2z; unfold opic_const, unsigned_op; eval_switch; f_equal; auto;
      rewrite Z.leb_antisym; auto.
  - assert (N : forall p, 1 - b2z p = b2z (negb p)) by now intros [].
    destruct Hop as [-> |[-> |[-> | ->]]]; injection C as <-; apply folds_b2z; unfold opic_const; eval_switch; f_equal; auto; rewrite ?L, ?G; auto.
Qed.

Lemma folds_equality op m : (op = TOK_EQ \/ op = TOK_NE \/ op = TOK_LAND \/ op = TOK_LOR) -> c_op t op x y = Some m -> folds_to op m.
Proof.
  intros Hop C. destruct Hop as [-> |[-> |[-> | ->]]]; injection C as <-; apply folds_b2z; unfold opic_const; eval_switch;
    rewrite H1, H2, ?value_eq, ?value_truth; reflexivity.
Qed.
End OpicConst.

Lemma folds_shift t op x y l1 l2 m : l1 = u64 (value_of t x) -> same_residue 32 l2 y -> (op = TOK_SHL \/ op = TOK_SAR) ->
  c_op t op x y = Some m -> folds_to t l1 l2 (selected t op) m.
Proof.
  intros H1 H2 Hop C.
  assert (N : y mod 2 ^ 32 < width_of t).
  { destruct Hop as [-> | ->]; unfold c_op in C; revert C; eval_switch; (case Z.ltb_spec; [auto|discriminate]). }
  pose proof (masked_count t l2 y H2 N) as E. pose proof (Z.mod_pos_bound y (2 ^ 32) ltac:(lia)). set (n := y mod 2 ^ 32) in *.
  assert (Em : m = if op =? TOK_SHL then value_of t x * 2 ^ n else value_of t x / 2 ^ n).
  { destruct Hop as [-> | ->]; unfold c_op in C; revert C; eval_switch; fold n; (case Z.ltb_spec; [congruence|lia]). }
  subst m. pose proof (l1_residue t x l1 H1) as R. destruct Hop as [-> | ->].
  - unfold selected. replace (if is_unsigned t then unsigned_op TOK_SHL else TOK_SHL) with TOK_SHL by now destruct (is_unsigned t).
    eapply folds_u64; [unfold opic_const; eval_switch; rewrite E; reflexivity|]. rewrite Z.shiftl_mul_pow2 by lia.
    apply residue_mul; [rewrite R; symmetry; apply value_residue|reflexivity].
  - unfold selected. destruct (is_unsigned t) eqn:U.
    + destruct (value_unsigned t x U) as [Rx Ex]. rewrite Ex in H1. exists (value_of t x / 2 ^ n).
      split; [unfold opic_const; change (unsigned_op TOK_SAR) with TOK_SHR; eval_switch; rewrite E, H1, Z.shiftr_div_pow2 by lia; reflexivity|].
      split; [|reflexivity]. unfold is_uint64. pose proof (Z.pow_pos_nonneg 2 n ltac:(lia) ltac:(lia)). split; [apply Z.div_pos; lia|apply Z.div_lt_upper_bound; nia].
    + eapply folds_u64; [|reflexivity]. unfold opic_const. eval_switch. rewrite E, H1, sar_exact by (auto using value_signed; lia). reflexivity.
Qed.

Lemma c_op_group op : In op c_ops ->
  (op = CH_ADD \/ op = CH_SUB \/ op = CH_MUL) \/ (op = CH_AND \/ op = CH_OR \/ op = CH_XOR) \/ (op = CH_DIV \/ op = CH_MOD) \/ op = TOK_PDIV \/
  (op = TOK_SHL \/ op = TOK_SAR) \/ (op = TOK_LT \/ op = TOK_GE \/ op = TOK_GT \/ op = TOK_LE) \/ (op = TOK_EQ \/ op = TOK_NE \/ op = TOK_LAND \/ op = TOK_LOR).
Proof. cbn [In c_ops]. intros H. decompose [or] H; subst; auto 12; contradiction. Qed.

Lemma selected_same t op : unsigned_op op = op -> selected t op = op.
Proof. unfold selected. destruct (is_unsigned t); auto. Qed.

(** What the front end folds for two constants. *)
Lemma opic_const_exact t op x y l1 l2 m : l1 = u64 (value_of t x) -> second_ok t op y l2 -> c_op t op x y = Some m ->
  (is_division (selected t op) = true -> l2 <> 0) /\ folds_to t l1 l2 (selected t op) m.
Proof.
  intros H1 [B H2] C. pose proof (c_op_in _ _ _ _ _ C) as Hin.
  destruct (c_op_group op Hin) as [G|[G|[G|[G|[G|[G|G]]]]]].
  - rewrite selected_same by (destruct G as [-> |[-> | ->]]; reflexivity).
    split; [destruct G as [-> |[-> | ->]]; discriminate|]. eapply folds_ring; eauto.
    destruct G as [-> |[-> | ->]]; exact (proj1 H2).
  - assert (E : l2 = u64 (value_of t y)) by (destruct G as [-> |[-> | ->]]; destruct H2 as [_ [N|[N|E]]]; try discriminate N; auto).
    rewrite selected_same by (destruct G as [-> |[-> | ->]]; reflexivity).
    split; [destruct G as [-> |[-> | ->]]; discriminate|]. eapply folds_bitwise; eauto.
  - assert (E : l2 = u64 (value_of t y)) by (destruct G as [-> | ->]; destruct H2 as [_ [N|[N|E]]]; try discriminate N; auto).
    destruct (folds_division t x y l1 l2 H1 E op m G C). auto.
  - subst op. destruct H2 as [_ [N|[N|E]]]; try discriminate N.
    rewrite selected_same by reflexivity. destruct (folds_pointer_difference t x y l1 l2 H1 E m C). auto.
  - split; [destruct G as [-> | ->]; unfold selected; destruct (is_unsigned t); discriminate|]. eapply folds_shift; eauto.
    destruct G as [-> | ->]; exact H2.
  - assert (E : l2 = u64 (value_of t y)) by (destruct G as [-> |[-> |[-> | ->]]]; destruct H2 as [_ [N|[N|E]]]; try discriminate N; auto).
    split; [destruct G as [-> |[-> |[-> | ->]]]; unfold selected; destruct (is_unsigned t); discriminate|]. eapply folds_order; eauto.
  - assert (E : l2 = u64 (value_of t y)) by (destruct G as [-> |[-> |[-> | ->]]]; destruct H2 as [_ [N|[N|E]]]; try discriminate N; auto).
    rewrite selected_same by (destruct G as [-> |[-> |[-> | ->]]]; reflexivity).
    split; [destruct G as [-> |[-> |[-> | ->]]]; discriminate|]. eapply folds_equality; eauto.
Qed.

(** What the code generator computes for an operator token at a width. *)
Definition low_op (w op x y : Z) : option Z :=
  let ux := x mod 2 ^ w in
  let uy := y mod 2 ^ w in
  let sx := sint w x in
  let sy := sint w y in
  let n := y mod 2 ^ 32 in
  switch op
    [(CH_ADD, Some (x + y)); (CH_SUB, Some (x - y)); (CH_MUL, Some (x * y));
     (CH_AND, Some (Z.land x y)); (CH_OR, Some (Z.lor x y)); (CH_XOR, Some (Z.lxor x y));
     (CH_DIV, if sy =? 0 then None else Some (Z.quot sx sy)); (CH_MOD, if sy =? 0 then None else Some (Z.rem sx sy));
     (TOK_PDIV, if (sy =? 0) || negb (Z.rem sx sy =? 0) then None else Some (Z.quot sx sy));
     (TOK_UDIV, if uy =? 0 then None else Some (ux / uy)); (TOK_UMOD, if uy =? 0 then None else Some (ux mod uy));
     (TOK_SHL, if n <? w then Some (x * 2 ^ n) else None); (TOK_SHR, if n <? w then Some (ux / 2 ^ n) else None);
     (TOK_SAR, if n <? w then Some (sx / 2 ^ n) else None);
     (TOK_EQ, Some (b2z (ux =? uy))); (TOK_NE, Some (b2z (negb (ux =? uy))));
     (TOK_LT, Some (b2z (sx <? sy))); (TOK_GE, Some (b2z (negb (sx <? sy))));
     (TOK_GT, Some (b2z (sy <? sx))); (TOK_LE, Some (b2z (negb (sy <? sx))));
     (TOK_ULT, Some (b2z (ux <? uy))); (TOK_UGE, Some (b2z (negb (ux <? uy))));
     (TOK_UGT, Some (b2z (uy <? ux))); (TOK_ULE, Some (b2z (negb (uy <? ux))));
     (TOK_LAND, Some (b2z (truth ux && truth uy))); (TOK_LOR, Some (b2z (truth ux || truth uy)))] None.

Lemma residue_truth w x : 0 < w -> truth (sint w x) = truth (x mod 2 ^ w).
Proof.
  intros Hw. unfold truth. f_equal. pose proof (Z.mod_pos_bound x (2 ^ w) ltac:(apply Z.pow_pos_nonneg; lia)).
  unfold sint. case Z.ltb_spec; [reflexivity|]. intros C. pose proof (Z.pow_pos_nonneg 2 (w - 1) ltac:(lia) ltac:(lia)).
  case Z.eqb_spec; case Z.eqb_spec; auto; lia.
Qed.

Lemma residue_eqb w x y : 0 < w -> (sint w x =? sint w y) = (x mod 2 ^ w =? y mod 2 ^ w).
Proof.
  intros Hw. pose proof (residue_signed w x y Hw) as AB. unfold same_residue in AB.
  case Z.eqb_spec; case Z.eqb_spec; tauto.
Qed.

(** The selected token computes the C operator at the width of the type. *)
Lemma c_low t op x y m : c_op t op x y = Some m ->
  exists m', low_op (width_of t) (selected t op) x y = Some m' /\ same_residue (width_of t) m' m.
Proof.
  intros C. pose proof (c_op_in _ _ _ _ _ C) as Hin. pose proof (w_nonneg t) as Hw.
  assert (Hp : 0 < width_of t) by (destruct (width_cases t) as [-> | ->]; lia).
  pose proof (Z.pow_pos_nonneg 2 (width_of t) ltac:(lia) Hw) as P.
  pose proof (Z.mod_pos_bound x _ P) as Bx. pose proof (Z.mod_pos_bound y _ P) as By.
  pose proof (value_residue t x) as Rx. pose proof (value_residue t y) as Ry. symmetry in Rx, Ry.
  assert (V : forall z, value_of t z = if is_unsigned t then z mod 2 ^ width_of t else sint (width_of t) z) by reflexivity.
  unfold selected. destruct (c_op_group op Hin) as [G|[G|[G|[G|[G|[G|G]]]]]].
  1: destruct G as [-> |[-> | ->]].
  4: destruct G as [-> |[-> | ->]].
  7: destruct G as [-> | ->].
  9: subst op.
  10: destruct G as [-> | ->].
  12: destruct G as [-> |[-> |[-> | ->]]].
  16: destruct G as [-> |[-> |[-> | ->]]].
  all: revert C; unfold c_op, low_op, unsigned_op; eval_switch; intros C.
  1-6: injection C as <-; destruct (is_unsigned t); eval_switch; eexists; (split; [reflexivity|]);
    solve [apply residue_add; auto | apply residue_sub; auto | apply residue_mul; auto | apply residue_land; auto | apply residue_lor; auto | apply residue_lxor; auto].
  all: rewrite !V in C; clear V Rx Ry; destruct (is_unsigned t); eval_switch; cbn [orb] in C; try discriminate C.
  all: rewrite ?residue_eqb, ?residue_truth in C by lia; try (exists m; split; [exact C|reflexivity]).
  1-2: destruct (Z.eqb_spec (y mod 2 ^ width_of t) 0); [discriminate C|]; exists m; (split; [|reflexivity]); rewrite <- C; f_equal; symmetry;
    first [apply Z.quot_div_nonneg | apply Z.rem_mod_nonneg]; lia.
  all: destruct (y mod 2 ^ 32 <? width_of t); [injection C as <-|discriminate C]; eexists; (split; [reflexivity|]);
    apply residue_mul; [symmetry; auto using mod_residue, signed_residue | reflexivity].
Qed.

(** ** Powers of two *)

Lemma log_loop_exact fuel : forall n log, 0 < n -> Z.log2 n <= Z.of_nat fuel -> log_loop fuel n log = log + Z.log2 n.
Proof.
  induction fuel as [|f IH]; intros n log Hn Hf; cbn [log_loop]; [pose proof (Z.log2_nonneg n); lia|].
  case Z.ltb_spec; intros C.
  - assert (L : Z.log2 (n >>> 1) = Z.log2 n - 1).
    { rewrite Z.log2_shiftr by lia. pose proof (Z.log2_le_mono 2 n ltac:(lia)) as M. change (Z.log2 2) with 1 in M. lia. }
    rewrite IH; [lia| |lia]. rewrite Z.shiftr_div_pow2 by lia. change (2 ^ 1) with 2. apply Z.div_str_pos. lia.
  - replace n with 1 by lia. change (Z.log2 1) with 0. lia.
Qed.

Lemma power_bit n : 0 < n -> n &&& (n - 1) = 0 -> n = 2 ^ Z.log2 n.
Proof.
  intros Hn E. pose proof (Z.log2_spec n Hn) as [L U]. destruct (Z.eq_dec n (2 ^ Z.log2 n)) as [|N]; [auto|exfalso].
  assert (M : Z.log2 (n - 1) = Z.log2 n) by (apply Z.log2_unique; [apply Z.log2_nonneg|lia]).
  apply (f_equal (fun z => Z.testbit z (Z.log2 n))) in E. rewrite Z.land_spec, Z.bits_0, Z.bit_log2 in E by lia.
  rewrite <- M, Z.bit_log2 in E; [discriminate|]. pose proof (Z.log2_nonneg n). pose proof (Z.pow_pos_nonneg 2 (Z.log2 n) ltac:(lia) ltac:(lia)). lia.
Qed.

(** [is_power_of_2] is the exponent of a power of two, [-1] for anything else. *)
Lemma is_power_of_2_exact n : is_int64 n ->
  (forall k, 0 <= k -> is_power_of_2 n = k <-> n = 2 ^ k) /\ (is_power_of_2 n = -1 \/ 0 <= is_power_of_2 n <= 62).
Proof.
  unfold is_int64. intros Hn. unfold is_power_of_2, truth.
  assert (NoPow : forall k, 0 <= k -> 0 < 2 ^ k) by (intros; apply Z.pow_pos_nonneg; lia).
  case Z.leb_spec; intros Hp; [split; [intros k Hk; pose proof (NoPow k Hk); split; lia|auto]|].
  assert (Hl : Z.log2 n <= 62) by (assert (Z.log2 n < 63) by (apply Z.log2_lt_pow2; lia); lia).
  case Z.eqb_spec; intros E; cbn [negb].
  - rewrite log_loop_exact by (auto; cbn; lia). pose proof (Z.log2_nonneg n). split; [|lia]. intros k Hk. split.
    + intros <-. rewrite Z.add_0_l. now apply power_bit.
    + intros ->. rewrite Z.log2_pow2 by lia. lia.
  - split; [|auto]. intros k Hk. split; [lia|]. intros ->. exfalso. apply E. apply Z.bits_inj'. intros i Hi. rewrite Z.land_spec, Z.bits_0, Z.pow2_bits_eqb by lia. case Z.eqb_spec; [intros <-|reflexivity].
    replace (2 ^ k - 1) with (Z.ones k) by (rewrite Z.ones_equiv; lia). rewrite Z.ones_spec_high by lia. reflexivity.
Qed.

(** ** Values on the front end's stack *)

(** Addresses of symbols and of the frame, and the contents of locals and of
    other places. *)
Record c_env := { sym_addr : CSym -> Z; frame_base : Z; local_at : Z -> Z; elsewhere : Z -> Z }.

Section Simplify.
Context (env : c_env).

(** The marker stands for the pending difference. *)
Definition sym_value (pending : option (CSym * CSym)) (s : CSym) : Z :=
  match s, pending with
  | label_diff_marker, Some (p, m) => sym_addr env p - sym_addr env m
  | _, _ => sym_addr env s
  end.

Definition sv_value (pending : option (CSym * CSym)) (v : SValue) : Z :=
  match sv_place_of v with
  | VT_CONST => sv_c v
  | VT_CONST_SYM s => sym_value pending s + sv_c v
  | VT_LOCAL => frame_base env + sv_c v
  | VT_LOCAL_LVAL => local_at env (sv_c v)
  | VT_ELSEWHERE id => elsewhere env id
  end.

(** The value that an outcome leaves on the stack. *)
Definition result_value (res : opic_result * option (CSym * CSym)) : option Z :=
  match fst res with
  | OpValue _ v => Some (sv_value (snd res) v)
  | OpEmit _ op a b => low_op (width_of (sv_t a)) op (sv_value (snd res) a) (sv_value (snd res) b)
  | OpDivisionByZero => None
  end.

Definition gives (w : Z) (res : opic_result * option (CSym * CSym)) (m : Z) : Prop :=
  exists r, result_value res = Some r /\ same_residue w r m.

Lemma sv_value_nonconst p v b : sv_value p (with_nonconst v b) = sv_value p v.
Proof. reflexivity. Qed.

Lemma sv_value_settle p v : sv_value p (settle v) = sv_value p v.
Proof. reflexivity. Qed.

Lemma sv_value_const p v c : is_const v = true -> sv_value p (with_c v c) = c.
Proof. unfold is_const, sv_value. cbn. destruct (sv_place_of v); congruence. Qed.

Lemma sv_value_is_const p v : is_const v = true -> sv_value p v = sv_c v.
Proof. unfold is_const, sv_value. destruct (sv_place_of v); congruence. Qed.

(** Moving the constant of an address moves its value. *)
Lemma sv_value_addend p v c : (match sv_place_of v with VT_CONST_SYM _ | VT_LOCAL => True | _ => False end) ->
  sv_value p (with_c v c) = sv_value p v - sv_c v + c.
Proof. unfold sv_value. cbn. destruct (sv_place_of v); intros H; try contradiction; lia. Qed.

(** One operand is not a constant: what [opic_mixed] may assume of the operands
    after the orientation.  A constant stands for its operand at the width [w], a
    shift count at 32 bits. *)
Record mixed_ok (w nocode_wanted t2 : Z) (pending : option (CSym * CSym)) (m : mixed) : Prop := {
  mo_width : width_of (sv_t (m_v1 m)) = w;
  mo_t2 : is_shift (m_op m) = false -> (t2 =? VT_LLONG) = (w =? 64);
  mo_c1 : m_c1 m = true -> is_shift (m_op m) = true -> is_const (m_v1 m) = true /\ same_residue w (m_l1 m) (sv_value pending (m_v1 m));
  mo_c2 : m_c2 m = true -> is_const (m_v2 m) = true /\ is_uint64 (m_l2 m) /\
          same_residue (if is_shift (m_op m) then 32 else w) (m_l2 m) (sv_value pending (m_v2 m));
  mo_l2 : m_c2 m = true -> is_shift (m_op m) = false -> m_l2 m < 2 ^ w \/ 2 ^ 63 <= m_l2 m;
  mo_pdiv : m_c2 m = true -> m_op m = TOK_PDIV -> m_l2 m < 2 ^ (w - 1) \/ 2 ^ 63 <= m_l2 m;
  mo_local : sv_place_of (m_v1 m) = VT_LOCAL_LVAL -> takes_addend nocode_wanted (m_v1 m) = false;
  mo_c : is_uint64 (sv_c (m_v1 m)) /\ is_uint64 (sv_c (m_v2 m)) }.

Section MixedOk.
Context (w nocode_wanted t2 : Z) (stack : list SValue) (pending : option (CSym * CSym)) (wide : bool) (m : mixed).
Context (OK : mixed_ok w nocode_wanted t2 pending m).
Let x := sv_value pending (m_v1 m).
Let y := sv_value pending (m_v2 m).

Lemma mw : w = 64 \/ w = 32.
Proof. rewrite <- (mo_width _ _ _ _ _ OK). apply width_cases. Qed.

Lemma shift_cases : is_shift (m_op m) = true -> m_op m = TOK_SHL \/ m_op m = TOK_SHR \/ m_op m = TOK_SAR.
Proof. unfold is_shift. rewrite !orb_true_iff, !Z.eqb_eq. tauto. Qed.

(** The value of a shift whose count is in range. *)
Lemma shift_value r : is_shift (m_op m) = true -> low_op w (m_op m) x y = Some r ->
  0 <= y mod 2 ^ 32 < w /\ r = (if m_op m =? TOK_SHL then x * 2 ^ (y mod 2 ^ 32) else if m_op m =? TOK_SHR then x mod 2 ^ w / 2 ^ (y mod 2 ^ 32) else sint w x / 2 ^ (y mod 2 ^ 32)).
Proof.
  intros Hs H. pose proof (Z.mod_pos_bound y (2 ^ 32) ltac:(lia)). revert H.
  destruct (shift_cases Hs) as [E|[E|E]]; rewrite E; unfold low_op; eval_switch; (case Z.ltb_spec; [|discriminate]); intros C H; injection H as <-; auto with lia.
Qed.

Lemma absorb_left_ok r : absorbs_left m = true -> low_op w (m_op m) x y = Some r -> same_residue w x r.
Proof.
  unfold absorbs_left. rewrite !andb_true_iff, !orb_true_iff, !andb_true_iff, !Z.eqb_eq. intros [C1 A] L.
  assert (Hs : is_shift (m_op m) = true) by (destruct A as [[_ A]|[_ A]]; [auto|rewrite A; reflexivity]).
  destruct (mo_c1 _ _ _ _ _ OK C1 Hs) as [_ R]. fold x in R. destruct (shift_value r Hs L) as [Hn ->].
  set (n := y mod 2 ^ 32) in *. clearbody n. pose proof (Z.pow_pos_nonneg 2 n ltac:(lia) ltac:(lia)) as P.
  destruct A as [[Z0 _]|[Z1 E]].
  - rewrite Z0 in R. assert (Ex : x mod 2 ^ w = 0) by (rewrite <- R; apply Z.mod_0_l, Z.pow_nonzero; destruct mw; lia).
    destruct (m_op m =? TOK_SHL); [|destruct (m_op m =? TOK_SHR)].
    + rewrite <- R. reflexivity.
    + rewrite Ex, Z.div_0_l by lia. now symmetry.
    + rewrite <- (signed_proper _ _ _ R). rewrite signed_small, Z.div_0_l by (destruct mw; lia). now symmetry.
  - rewrite E. eval_switch. change (TOK_SAR =? TOK_SHL) with false. change (TOK_SAR =? TOK_SHR) with false. cbv iota.
    assert (M : same_residue w (-1) x) by (rewrite <- R, Z1; destruct mw as [-> | ->]; reflexivity).
    rewrite <- (signed_proper _ _ _ M), <- M. rewrite signed_small by (destruct mw; lia).
    replace (-1 / 2 ^ n) with (-1); [reflexivity|]. apply Z.div_unique with (r := 2 ^ n - 1); lia.
Qed.

(** An operand that is all ones at the width. *)
Lemma ones_residue : is_shift (m_op m) = false -> m_c2 m = true -> all_ones (m_l2 m) t2 = true -> same_residue w y (-1).
Proof.
  intros Hs C2 A. destruct (mo_c2 _ _ _ _ _ OK C2) as (_ & _ & R). rewrite Hs in R. fold y in R. rewrite <- R.
  unfold all_ones in A. rewrite (mo_t2 _ _ _ _ _ OK Hs) in A. rewrite orb_true_iff, andb_true_iff, negb_true_iff, !Z.eqb_eq, Z.eqb_neq in A.
  destruct mw as [W|W]; rewrite W in *; destruct A as [->|[-> N]]; try reflexivity. contradiction.
Qed.

Lemma c2_residue : m_c2 m = true -> is_shift (m_op m) = false -> same_residue w (m_l2 m) y.
Proof. intros C2 Hs. destruct (mo_c2 _ _ _ _ _ OK C2) as (_ & _ & R). now rewrite Hs in R. Qed.

Lemma one_divisor k : m_c2 m = true -> is_shift (m_op m) = false -> m_l2 m = k -> 0 <= k <= 1 -> y mod 2 ^ w = k /\ sint w y = k.
Proof.
  intros C2 Hs E Hk. pose proof (c2_residue C2 Hs) as R. rewrite E in R.
  split; [rewrite <- R; apply Z.mod_small; destruct mw as [-> | ->]; lia|].
  rewrite <- (signed_proper _ _ _ R). apply signed_small; destruct mw as [-> | ->]; lia.
Qed.

Lemma absorb_right_ok r : absorbs_right m t2 = true -> low_op w (m_op m) x y = Some r -> same_residue w (if m_l2 m =? 1 then 0 else y) r.
Proof.
  unfold absorbs_right. rewrite !andb_true_iff, !orb_true_iff, !andb_true_iff, !orb_true_iff, !Z.eqb_eq. intros [C2 A].
  assert (Hw : 0 <= w) by (destruct mw; lia).
  destruct A as [[[L0 A]|[A O]]|[L1 A]].
  - assert (Hs : is_shift (m_op m) = false) by (destruct A as [-> | ->]; reflexivity). pose proof (c2_residue C2 Hs) as R. rewrite L0 in *. cbn [Z.eqb].
    destruct A as [-> | ->]; unfold low_op; eval_switch; intros H; injection H as <-.
    + transitivity 0; [now symmetry|]. rewrite <- (Z.land_0_r x). apply residue_land; auto. reflexivity.
    + rewrite <- R, Z.mul_0_r. reflexivity.
  - assert (Hs : is_shift (m_op m) = false) by (rewrite A; reflexivity). pose proof (ones_residue Hs C2 O) as R.
    replace (m_l2 m =? 1) with false by (symmetry; apply Z.eqb_neq; intros E; rewrite E in O; unfold all_ones in O; revert O; cbn; discriminate).
    rewrite A. unfold low_op. eval_switch. intros H. injection H as <-. transitivity (-1); [exact R|].
    transitivity (Z.lor x (-1)); [unfold same_residue; f_equal; symmetry; apply Z.lor_m1_r|].
    apply residue_lor; auto; [reflexivity|now symmetry].
  - assert (Hs : is_shift (m_op m) = false) by (destruct A as [-> | ->]; reflexivity).
    destruct (one_divisor 1 C2 Hs L1 ltac:(lia)) as [U S]. rewrite L1. cbn [Z.eqb].
    destruct A as [-> | ->]; unfold low_op; eval_switch; rewrite ?U, ?S; cbn [Z.eqb]; intros H; injection H as <-.
    + now rewrite Z.rem_1_r.
    + now rewrite Z.mod_1_r.
Qed.

Lemma nop_ok r : is_nop m t2 = true -> low_op w (m_op m) x y = Some r -> same_residue w x r.
Proof.
  unfold is_nop. rewrite !andb_true_iff, !orb_true_iff, !andb_true_iff, !orb_true_iff, !Z.eqb_eq. intros [C2 A].
  assert (Hw : 0 <= w) by (destruct mw; lia).
  destruct A as [[[A L1]|[A L0]]|[A O]].
  - assert (Hs : is_shift (m_op m) = false) by (decompose [or] A; match goal with H : m_op m = _ |- _ => rewrite H; reflexivity end).
    destruct (one_divisor 1 C2 Hs L1 ltac:(lia)) as [U S]. pose proof (c2_residue C2 Hs) as R. rewrite L1 in R.
    destruct A as [[[-> | ->]| ->]| ->]; unfold low_op; eval_switch; rewrite ?U, ?S, ?Z.quot_1_r, ?Z.rem_1_r, ?Z.div_1_r; cbn [Z.eqb negb orb];
      intros H; injection H as <-; try (symmetry; auto using mod_residue, signed_residue; fail).
    rewrite <- R, Z.mul_1_r. reflexivity.
  - destruct (is_shift (m_op m)) eqn:Hs.
    + intros H. destruct (mo_c2 _ _ _ _ _ OK C2) as (_ & _ & R). rewrite Hs, L0 in R. fold y in R.
      destruct (shift_value r Hs H) as [_ ->]. rewrite <- R. change (0 mod 2 ^ 32) with 0. rewrite Z.pow_0_r, Z.mul_1_r, !Z.div_1_r.
      destruct (m_op m =? TOK_SHL); [reflexivity|]. destruct (m_op m =? TOK_SHR); symmetry; auto using mod_residue, signed_residue.
    + pose proof (c2_residue C2 Hs) as R. rewrite L0 in R.
      destruct A as [[[[-> | ->]| ->]| ->]|A]; [..|discriminate A]; unfold low_op; eval_switch; intros H; injection H as <-.
      * rewrite <- R, Z.add_0_r. reflexivity.
      * rewrite <- R, Z.sub_0_r. reflexivity.
      * rewrite <- (Z.lor_0_r x) at 1. apply residue_lor; auto. reflexivity.
      * rewrite <- (Z.lxor_0_r x) at 1. apply residue_lxor; auto. reflexivity.
  - assert (Hs : is_shift (m_op m) = false) by (rewrite A; reflexivity). pose proof (ones_residue Hs C2 O) as R.
    rewrite A. unfold low_op. eval_switch. intros H. injection H as <-.
    transitivity (Z.land x (-1)); [unfold same_residue; f_equal; symmetry; apply Z.land_m1_r|].
    apply residue_land; auto; [reflexivity|now symmetry].
Qed.

(** Multiplying and dividing by [2^shn] as shifts. *)
Lemma strength_ok r shn : m_c2 m = true -> (m_op m = CH_MUL \/ m_op m = TOK_PDIV \/ m_op m = TOK_UDIV) ->
  is_power_of_2 (s64 (m_l2 m)) = shn -> 0 <= shn -> low_op w (m_op m) x y = Some r ->
  exists r', low_op w (shift_for (m_op m)) x shn = Some r' /\ same_residue w r' r.
Proof.
  intros C2 Hop Ep Hp L. assert (Hs : is_shift (m_op m) = false) by (destruct Hop as [-> |[-> | ->]]; reflexivity).
  destruct (mo_c2 _ _ _ _ _ OK C2) as (_ & Ul & _). pose proof (c2_residue C2 Hs) as R.
  assert (Hi : is_int64 (s64 (m_l2 m))) by (rewrite s64_signed; apply (signed_bound 64); lia).
  destruct (is_power_of_2_exact _ Hi) as [Pk Pr]. apply Pk in Ep; [|lia].
  assert (P : 0 < 2 ^ shn) by (apply Z.pow_pos_nonneg; lia).
  assert (El : m_l2 m = 2 ^ shn) by (revert Ep; unfold s64; unfold is_uint64 in Ul; rewrite u64_small by lia; case Z.ltb_spec; lia).
  unfold is_int64 in Hi. rewrite Ep in Hi.
  assert (Hb : 2 ^ shn < 2 ^ w) by (destruct (mo_l2 _ _ _ _ _ OK C2 Hs); lia).
  assert (Hn : shn < w) by (apply (Z.pow_lt_mono_r_iff 2); destruct mw; lia).
  rewrite El in R. assert (Ey : y mod 2 ^ w = 2 ^ shn) by (rewrite <- R; apply Z.mod_small; lia).
  assert (En : shn mod 2 ^ 32 = shn) by (apply Z.mod_small; destruct mw; lia).
  destruct Hop as [E|[E|E]]; rewrite E in *; revert L; unfold shift_for, low_op; eval_switch; rewrite En;
    (destruct (Z.ltb_spec shn w); [|lia]); intros L; eexists; (split; [reflexivity|]).
  - injection L as <-. rewrite <- R. reflexivity.
  - destruct (mo_pdiv _ _ _ _ _ OK C2 E) as [Hd|Hd]; rewrite El in Hd; [|lia].
    assert (Es : sint w y = 2 ^ shn) by (rewrite <- (signed_proper _ _ _ R); apply signed_small; destruct mw; lia).
    rewrite Es in L. destruct (Z.eqb_spec (2 ^ shn) 0); [lia|]. destruct (Z.eqb_spec (Z.rem (sint w x) (2 ^ shn)) 0) as [E0|]; [|discriminate L].
    injection L as <-. pose proof (Z.quot_rem (sint w x) (2 ^ shn) ltac:(lia)) as Q. rewrite E0, Z.add_0_r in Q.
    rewrite Q at 1. rewrite Z.mul_comm, Z.div_mul by lia. reflexivity.
  - rewrite Ey in L. destruct (Z.eqb_spec (2 ^ shn) 0); [lia|]. injection L as <-. reflexivity.
Qed.

(** An address takes the constant if the sum still fits an addend. *)
Lemma addend_ok r l : m_c2 m = true -> (m_op m = CH_ADD \/ m_op m = CH_SUB) -> takes_addend nocode_wanted (m_v1 m) = true ->
  l = u64 ((if m_op m =? CH_SUB then u64 (- m_l2 m) else m_l2 m) + sv_c (m_v1 m)) ->
  low_op w (m_op m) x y = Some r -> same_residue w (sv_value pending (settle (with_c (drop_lval (m_v1 m)) l))) r.
Proof.
  intros C2 Hop T -> L. assert (Hs : is_shift (m_op m) = false) by (destruct Hop as [-> | ->]; reflexivity).
  pose proof (c2_residue C2 Hs) as R. pose proof (mo_local _ _ _ _ _ OK) as NL.
  assert (PL : match sv_place_of (m_v1 m) with VT_CONST_SYM _ | VT_LOCAL => True | _ => False end).
  { destruct (sv_place_of (m_v1 m)) eqn:Epl; try exact I; [|rewrite NL in T by auto; discriminate T|]; unfold takes_addend in T; rewrite Epl in T; discriminate T. }
  assert (D : drop_lval (m_v1 m) = m_v1 m) by (unfold drop_lval; destruct (sv_place_of (m_v1 m)); auto; contradiction).
  rewrite sv_value_settle, D, (sv_value_addend _ _ _ PL). fold x.
  assert (N : forall z, same_residue w (u64 z) z) by (intros z; apply (residue_narrow w 64); [destruct mw; lia | apply u64_residue]).
  destruct Hop as [E|E]; rewrite E in *; eval_switch; revert L; unfold low_op; eval_switch; intros L; injection L as <-.
  - rewrite N, <- R. replace (x - sv_c (m_v1 m) + (m_l2 m + sv_c (m_v1 m))) with (x + m_l2 m) by lia. reflexivity.
  - rewrite N, N, <- R. replace (x - sv_c (m_v1 m) + (- m_l2 m + sv_c (m_v1 m))) with (x - m_l2 m) by lia. reflexivity.
Qed.

Lemma emit_ok b r p : low_op w (m_op m) x y = Some r -> p = pending -> gives w (OpEmit b (m_op m) (m_v1 m) (m_v2 m), p) r.
Proof. intros L ->. exists r. unfold result_value. cbn [fst snd]. rewrite (mo_width _ _ _ _ _ OK). split; [exact L|reflexivity]. Qed.

(** The difference of two symbols in a constant expression. *)
Lemma symbol_difference_ok s1 s2 r : const_sym (m_v1 m) = Some s1 -> const_sym (m_v2 m) = Some s2 ->
  (s1 <> s2 -> label_or_literal s1 = true /\ label_or_literal s2 = true) ->
  m_op m = CH_SUB -> low_op w (m_op m) x y = Some r ->
  let c := u64 (sv_c (m_v1 m) - sv_c (m_v2 m)) in
  same_residue w (if bool_decide (s1 = s2) then c else sym_value (Some (s1, s2)) label_diff_marker + c) r.
Proof.
  intros P1 P2 Hl E L c. rewrite E in L. revert L. unfold low_op. eval_switch. intros L. injection L as <-.
  assert (N : same_residue w c (sv_c (m_v1 m) - sv_c (m_v2 m))) by (apply (residue_narrow w 64); [destruct mw; lia | apply u64_residue]).
  unfold x, y, sv_value, const_sym in *. destruct (sv_place_of (m_v1 m)); try discriminate P1. destruct (sv_place_of (m_v2 m)); try discriminate P2.
  injection P1 as ->. injection P2 as ->. case_bool_decide as D.
  - subst s2. rewrite N. replace (sym_value pending s1 + sv_c (m_v1 m) - (sym_value pending s1 + sv_c (m_v2 m))) with (sv_c (m_v1 m) - sv_c (m_v2 m)) by lia. reflexivity.
  - destruct (Hl D) as [A1 A2]. destruct s1 as [|i1 a1 b1]; [discriminate A1|]. destruct s2 as [|i2 a2 b2]; [discriminate A2|].
    rewrite N. cbn [sym_value].
    set (u := sym_addr env (NamedSym i1 a1 b1)). set (v := sym_addr env (NamedSym i2 a2 b2)).
    replace (u + sv_c (m_v1 m) - (v + sv_c (m_v2 m))) with (u - v + (sv_c (m_v1 m) - sv_c (m_v2 m))) by lia. reflexivity.
Qed.

Lemma mixed_sound r : low_op w (m_op m) x y = Some r -> gives w (opic_mixed nocode_wanted stack pending wide t2 m) r.
Proof.
  intros L. unfold opic_mixed.
  destruct (absorbs_left m) eqn:AL; [exists x; split; [reflexivity|now apply absorb_left_ok]|].
  destruct (absorbs_right m t2) eqn:AR.
  { exists (if m_l2 m =? 1 then 0 else y). split; [|now apply absorb_right_ok]. cbn. f_equal.
    assert (C2 : m_c2 m = true) by (unfold absorbs_right in AR; destruct (m_c2 m); [auto|discriminate AR]).
    destruct (mo_c2 _ _ _ _ _ OK C2) as (K & _ & _). destruct (m_l2 m =? 1); [now apply sv_value_const|reflexivity]. }
  destruct (is_nop m t2) eqn:NO; [exists x; split; [reflexivity|now apply nop_ok]|].
  destruct (m_c2 m && ((m_op m =? CH_MUL) || (m_op m =? TOK_PDIV) || (m_op m =? TOK_UDIV))) eqn:ST.
  { rewrite andb_true_iff, !orb_true_iff, !Z.eqb_eq in ST. destruct ST as [C2 Hop].
    case Z.leb_spec; intros Hp; [|now apply emit_ok].
    destruct (strength_ok r _ C2 ltac:(tauto) eq_refl Hp L) as (r' & L' & R'). exists r'. split; [|exact R'].
    cbn [result_value fst snd]. destruct (mo_c2 _ _ _ _ _ OK C2) as (K & _ & _). rewrite (mo_width _ _ _ _ _ OK), sv_value_const by auto. exact L'. }
  destruct (m_c2 m && ((m_op m =? CH_ADD) || (m_op m =? CH_SUB)) && takes_addend nocode_wanted (m_v1 m)) eqn:AD.
  { rewrite !andb_true_iff, !orb_true_iff, !Z.eqb_eq in AD. destruct AD as [[C2 Hop] T].
    cbv zeta. destruct (negb _); [now apply emit_ok|]. eexists. split; [reflexivity|]. now apply (addend_ok r _ C2 Hop T eq_refl). }
  destruct (const_sym (m_v1 m)) as [s1|] eqn:P1, (const_sym (m_v2 m)) as [s2|] eqn:P2; try now apply emit_ok.
  destruct ((m_op m =? CH_SUB) && _ && _) eqn:D; [|now apply emit_ok].
  rewrite !andb_true_iff, orb_true_iff, Z.eqb_eq in D. destruct D as [[E _] D].
  pose proof (symbol_difference_ok s1 s2 r P1 P2) as S. cbv zeta in S |- *.
  assert (Hl : s1 <> s2 -> label_or_literal s1 = true /\ label_or_literal s2 = true).
  { intros N. destruct D as [D|D]; [now apply bool_decide_eq_true in D|]. unfold label_diff_operands_ok in D. rewrite !andb_true_iff in D. tauto. }
  specialize (S Hl E L). destruct (bool_decide (s1 = s2)); eexists; (split; [reflexivity|]); exact S.
Qed.
End MixedOk.

(** The normalised value of a constant operand. *)
Lemma constant_facts v p : is_const v = true -> is_uint64 (sv_c v) -> not_complex (sv_t v) ->
  let l := value64 (sv_c v) (sv_t v) in
  let w := width_of (sv_t v) in
  is_uint64 l /\ same_residue w l (sv_value p v) /\ (l < 2 ^ w \/ 2 ^ 63 <= l) /\
  (is_unsigned (sv_t v) = false -> l < 2 ^ (w - 1) \/ 2 ^ 63 <= l).
Proof.
  intros K U NC l w. unfold l. rewrite value64_value, sv_value_is_const by auto. clear l.
  set (a := value_of (sv_t v) (sv_c v)). pose proof (value_range (sv_t v) (sv_c v)) as R. fold a w in R.
  assert (P : 2 ^ (w - 1) <= 2 ^ w) by (destruct (width_cases (sv_t v)) as [E|E]; unfold w; rewrite E; lia).
  assert (Q : 2 ^ w <= 2 ^ 64) by (destruct (width_cases (sv_t v)) as [E|E]; unfold w; rewrite E; lia).
  split; [apply u64_range|]. split; [rewrite (residue_width _ _ _ (u64_residue a)); apply value_residue|].
  assert (N : 0 <= a -> u64 a = a) by (intros; apply u64_small; destruct (is_unsigned (sv_t v)); lia).
  assert (M : - 2 ^ 63 <= a < 0 -> 2 ^ 63 <= u64 a) by (intros; rewrite u64_mod, <- (Z_mod_plus_full a 1), Z.mod_small by lia; lia).
  assert (B : 2 ^ (w - 1) <= 2 ^ 63) by (destruct (width_cases (sv_t v)) as [E|E]; unfold w; rewrite E; lia).
  destruct (is_unsigned (sv_t v)); [split; [left; rewrite N; lia|discriminate]|].
  destruct (Z_lt_le_dec a 0); [split; intros; right; apply M; lia | split; intros; left; rewrite N; lia].
Qed.

(** Both operands have been converted to one type, except that a pointer takes an
    integer addend and a shift an [int] count; and a pointer in a local is only
    used where code is generated. *)
Record operands_typed (nocode_wanted op : Z) (v1 v2 : SValue) : Prop := {
  ot_real : not_complex (sv_t v1) /\ not_complex (sv_t v2);
  ot_c : is_uint64 (sv_c v1) /\ is_uint64 (sv_c v2);
  ot_types : if takes_count op then width_of (sv_t v2) = 32
             else width_of (sv_t v1) = width_of (sv_t v2) /\ (op = CH_ADD \/ op = CH_SUB \/ is_unsigned (sv_t v1) = is_unsigned (sv_t v2));
  ot_local : forall v, v = v1 \/ v = v2 -> sv_place_of v = VT_LOCAL_LVAL -> takes_addend nocode_wanted v = false }.

Lemma selected_shift t op : In op c_ops -> is_shift (selected t op) = takes_count op.
Proof.
  intros H. unfold selected. destruct (c_op_group op H) as [G|[G|[G|[G|[G|[G|G]]]]]]; decompose [or] G; subst; destruct (is_unsigned t); reflexivity.
Qed.

Lemma width_llong t : (btype t =? VT_LLONG) = (width_of t =? 64).
Proof. unfold width_of. destruct (btype t =? VT_LLONG); reflexivity. Qed.

Lemma commutes_shift op : commutes op = true -> is_shift op = false /\ op <> TOK_PDIV.
Proof. unfold commutes. rewrite !orb_true_iff, !Z.eqb_eq. intros H. decompose [or] H; subst; split; reflexivity || discriminate. Qed.

Lemma commuted w op x y : commutes op = true -> low_op w op y x = low_op w op x y.
Proof.
  unfold commutes. rewrite !orb_true_iff, !Z.eqb_eq. intros H. decompose [or] H; subst; unfold low_op; eval_switch; f_equal;
    auto using Z.add_comm, Z.land_comm, Z.lxor_comm, Z.lor_comm, Z.mul_comm; now rewrite Z.eqb_sym.
Qed.

Definition rev_ops : list Z := [TOK_LT; TOK_GT; TOK_LE; TOK_GE; TOK_ULT; TOK_UGT; TOK_ULE; TOK_UGE].

Lemma reversible op : truth (reversed_op op) = true -> In op rev_ops.
Proof.
  intros H. destruct (in_dec Z.eq_dec op rev_ops) as [|N]; [auto|]. unfold reversed_op in H. rewrite switch_default in H; [discriminate|].
  repeat constructor; cbn; intros ->; apply N; cbn; tauto.
Qed.

Lemma reversed w op x y : In op rev_ops -> low_op w (reversed_op op) y x = low_op w op x y /\ is_shift (reversed_op op) = false /\ is_shift op = false /\ reversed_op op <> TOK_PDIV.
Proof. cbn [In rev_ops]. intros H. decompose [or] H; subst; try contradiction; repeat split; discriminate. Qed.

Section GenOp.
Context (nocode_wanted : Z) (stack : list SValue) (pending : option (CSym * CSym)) (o : Z) (v1 v2 : SValue).
Context (T : operands_typed nocode_wanted o v1 v2).
Let t := sv_t v1.
Let w := width_of t.
Let op := selected t o.
Let x := sv_value pending v1.
Let y := sv_value pending v2.
Let l1 := if is_const v1 then value64 (sv_c v1) t else 0.
Let l2 := if is_const v2 then value64 (sv_c v2) (sv_t v2) else 0.
Let mx := opic_orient op v1 v2 (is_const v1) (is_const v2) l1 l2.

Lemma second_width : takes_count o = false -> width_of (sv_t v2) = w.
Proof. intros H. pose proof (ot_types _ _ _ _ T) as W. rewrite H in W. symmetry. apply W. Qed.

Lemma pdiv_signed m : op = TOK_PDIV -> c_op t o x y = Some m -> o = TOK_PDIV /\ is_unsigned (sv_t v2) = false.
Proof.
  unfold op, selected. intros E C. pose proof (c_op_in _ _ _ _ _ C) as Hin.
  assert (o = TOK_PDIV).
  { destruct (c_op_group o Hin) as [G|[G|[G|[G|[G|[G|G]]]]]]; [..|]; decompose [or] G; subst; auto; destruct (is_unsigned t); discriminate E. }
  subst o. split; [auto|]. pose proof (ot_types _ _ _ _ T) as [_ [W|[W|W]]]; try discriminate W.
  rewrite <- W. revert C. unfold c_op. eval_switch. fold t. destruct (is_unsigned t); [discriminate|auto].
Qed.

Lemma constant_second : is_const v2 = true -> is_uint64 l2 /\ same_residue (width_of (sv_t v2)) l2 y /\ (l2 < 2 ^ width_of (sv_t v2) \/ 2 ^ 63 <= l2) /\
  (is_unsigned (sv_t v2) = false -> l2 < 2 ^ (width_of (sv_t v2) - 1) \/ 2 ^ 63 <= l2).
Proof. intros K. unfold l2. rewrite K. apply constant_facts; [auto | apply (ot_c _ _ _ _ T) | apply (ot_real _ _ _ _ T)]. Qed.

Lemma constant_first : is_const v1 = true -> is_uint64 l1 /\ same_residue w l1 x /\ (l1 < 2 ^ w \/ 2 ^ 63 <= l1) /\
  (is_unsigned t = false -> l1 < 2 ^ (w - 1) \/ 2 ^ 63 <= l1).
Proof. intros K. unfold l1. rewrite K. apply constant_facts; [auto | apply (ot_c _ _ _ _ T) | apply (ot_real _ _ _ _ T)]. Qed.

(** The constant on the right: same operator with its operands exchanged. *)
Lemma swapped_ok op' c1 k1 : is_shift op' = false -> op' <> TOK_PDIV -> takes_count o = false -> is_const v1 = true ->
  mixed_ok w nocode_wanted (btype (sv_t v2)) pending {| m_op := op'; m_v1 := v2; m_v2 := v1; m_c1 := c1; m_l1 := k1; m_c2 := is_const v1; m_l2 := l1 |}.
Proof.
  intros Hs Hp Hc K. pose proof (second_width Hc) as W. destruct (constant_first K) as (U & R & B & _).
  split; cbn [m_op m_v1 m_v2 m_c1 m_l1 m_c2 m_l2]; try congruence; auto.
  - intros _. rewrite width_llong. congruence.
  - rewrite Hs. auto.
  - intros L. apply (ot_local _ _ _ _ T); auto.
  - destruct (ot_c _ _ _ _ T). auto.
Qed.

Lemma oriented_ok m : c_op t o x y = Some m -> mixed_ok w nocode_wanted (btype (sv_t v2)) pending mx.
Proof.
  intros C. pose proof (selected_shift t o (c_op_in _ _ _ _ _ C)) as Hs. fold op in Hs.
  unfold mx, opic_orient. destruct (is_const v1 && commutes op) eqn:Co.
  { apply andb_true_iff in Co as [K Co]. destruct (commutes_shift op Co) as [S P]. apply swapped_ok; auto. congruence. }
  destruct (is_const v1 && truth (reversed_op op)) eqn:Re.
  { apply andb_true_iff in Re as [K Re]. destruct (reversed w op x y (reversible op Re)) as (_ & S & S' & P). apply swapped_ok; auto. congruence. }
  split; cbn [m_op m_v1 m_v2 m_c1 m_l1 m_c2 m_l2].
  - reflexivity.
  - intros S. rewrite width_llong. f_equal. apply second_width. congruence.
  - intros K _. split; [auto|]. apply (constant_first K).
  - intros K. destruct (constant_second K) as (U & R & _ & _). repeat split; auto; try apply U. rewrite Hs.
    destruct (takes_count o) eqn:Hc; [|now rewrite <- (second_width Hc)].
    pose proof (ot_types _ _ _ _ T) as W. rewrite Hc in W. now rewrite W in R.
  - intros K S. destruct (constant_second K) as (_ & _ & B & _). rewrite <- second_width by congruence. exact B.
  - intros K P. destruct (pdiv_signed m P C) as [E S]. destruct (constant_second K) as (_ & _ & _ & B).
    rewrite <- second_width by (rewrite E; reflexivity). auto.
  - intros L. apply (ot_local _ _ _ _ T); auto.
  - apply (ot_c _ _ _ _ T).
Qed.

Lemma oriented_value : low_op w (m_op mx) (sv_value pending (m_v1 mx)) (sv_value pending (m_v2 mx)) = low_op w op x y.
Proof.
  unfold mx, opic_orient. destruct (is_const v1 && commutes op) eqn:Co; [apply andb_true_iff in Co as [_ Co]; now apply commuted|].
  destruct (is_const v1 && truth (reversed_op op)) eqn:Re; [|reflexivity].
  apply andb_true_iff in Re as [_ Re]. apply (reversed w op x y (reversible op Re)).
Qed.

Lemma constants_second_ok : is_const v2 = true -> second_ok t o y l2.
Proof.
  intros K. destruct (constant_second K) as (U & R & _). split; [exact U|]. pose proof (ot_types _ _ _ _ T) as W.
  destruct (takes_count o); [now rewrite W in R|]. destruct W as [W S]. split; [fold t in W; now rewrite W|].
  destruct S as [S|[S|S]]; auto. right. right. unfold l2, y. rewrite K, value64_value, sv_value_is_const by (auto; apply (ot_c _ _ _ _ T) || apply (ot_real _ _ _ _ T)).
  f_equal. unfold value_of. fold t in S, W. now rewrite S, W.
Qed.

Lemma real_operands : truth ((sv_t v1 ||| sv_t v2) &&& VT_COMPLEX) = false.
Proof.
  destruct (ot_real _ _ _ _ T) as [A B]. unfold not_complex in *. apply truth_false in A, B. apply truth_false.
  rewrite Z.land_comm, Z.land_lor_distr_r, !(Z.land_comm VT_COMPLEX), A, B. reflexivity.
Qed.

Let wide := (btype t =? VT_LLONG) || (btype (sv_t v2) =? VT_LLONG).

(** [gen_op] on real operands. *)
Lemma gen_op_real : gen_op_int nocode_wanted stack pending o v1 v2 =
  if is_const v1 && is_const v2 then
    if is_division op && (l2 =? 0) then
      if CONST_WANTED nocode_wanted && negb (NOEVAL_WANTED nocode_wanted) then (OpDivisionByZero, pending) else (OpEmit wide op v1 v2, pending)
    else match opic_const op (count_mask t) l1 l2 with
         | Some l => (OpValue None (with_nonconst (with_c v1 (value64 l t)) (sv_nonconst v2)), pending)
         | None => (OpEmit wide op v1 v2, pending)
         end
  else opic_mixed nocode_wanted stack pending wide (btype (sv_t v2)) mx.
Proof. unfold gen_op_int, gen_opic. rewrite real_operands, andb_false_r. reflexivity. Qed.

Lemma gen_op_gives m : c_op t o x y = Some m -> gives w (gen_op_int nocode_wanted stack pending o v1 v2) m.
Proof.
  intros C. rewrite gen_op_real.
  destruct (is_const v1 && is_const v2) eqn:K.
  - apply andb_true_iff in K as [K1 K2].
    assert (E1 : l1 = u64 (value_of t x)) by (unfold l1, x; rewrite K1, value64_value, sv_value_is_const by (auto; apply (ot_c _ _ _ _ T) || apply (ot_real _ _ _ _ T)); reflexivity).
    destruct (opic_const_exact t o x y l1 l2 m E1 (constants_second_ok K2) C) as [D (l & F & U & R)]. fold op in D, F.
    replace (is_division op && (l2 =? 0)) with false by (symmetry; destruct (is_division op); [apply Z.eqb_neq, D; reflexivity|reflexivity]).
    rewrite F. exists (value64 l t). split; [unfold result_value; cbn [fst snd]; now rewrite sv_value_nonconst, sv_value_const|].
    rewrite value64_value by (auto; apply (ot_real _ _ _ _ T)). rewrite (residue_width t _ _ (u64_residue _)). fold w. now rewrite (value_residue t l).
  - destruct (c_low t o x y m C) as (m' & L & R). fold w op in L, R. rewrite <- oriented_value in L.
    destruct (mixed_sound w nocode_wanted (btype (sv_t v2)) stack pending wide mx (oriented_ok m C) m' L) as (r & E & Rr).
    exists r. split; [exact E|]. now rewrite Rr.
Qed.

(** Only a constant replaces a discarded operand. *)
Lemma discarded_operand m d v : c_op t o x y = Some m ->
  fst (gen_op_int nocode_wanted stack pending o v1 v2) = OpValue (Some d) v -> is_const v = true /\ (d = v1 \/ d = v2).
Proof.
  intros C. pose proof (oriented_ok m C) as OK. rewrite gen_op_real. destruct (is_const v1 && is_const v2).
  { destruct (_ && _); [destruct (_ && _); discriminate|]. destruct (opic_const _ _ _ _); discriminate. }
  assert (Hd : (m_v1 mx = v1 /\ m_v2 mx = v2) \/ (m_v1 mx = v2 /\ m_v2 mx = v1)) by (unfold mx, opic_orient; do 2 (destruct (_ && _); [cbn; auto|]); cbn; auto).
  unfold opic_mixed. destruct (absorbs_left mx) eqn:AL.
  { cbn [fst]. intros E. injection E as <- <-. unfold absorbs_left in AL. rewrite andb_true_iff, orb_true_iff, !andb_true_iff, !Z.eqb_eq in AL. destruct AL as [C1 A].
    split; [|destruct Hd as [[_ ->]|[_ ->]]; auto]. apply (mo_c1 _ _ _ _ _ OK C1). destruct A as [[_ A]|[_ A]]; [auto|rewrite A; reflexivity]. }
  destruct (absorbs_right mx _) eqn:AR.
  { cbn [fst]. intros E. injection E as <- <-. unfold absorbs_right in AR. rewrite andb_true_iff in AR. destruct AR as [C2 _].
    split; [|destruct Hd as [[-> _]|[-> _]]; auto]. destruct (mo_c2 _ _ _ _ _ OK C2) as [K _]. now destruct (m_l2 mx =? 1). }
  destruct (is_nop mx _); [discriminate|]. destruct (_ && _); [destruct (0 <=? _); discriminate|].
  cbv zeta. destruct (_ && _); [destruct (negb _); discriminate|].
  destruct (const_sym (m_v1 mx)) as [s1|], (const_sym (m_v2 mx)) as [s2|]; try discriminate. destruct (_ && _ && _); [|discriminate].
  destruct (bool_decide (s1 = s2)); discriminate.
Qed.

Lemma division_by_zero : (o = CH_DIV \/ o = CH_MOD) -> is_const v1 = true -> is_const v2 = true -> value_of t (sv_c v2) = 0 ->
  gen_op_int nocode_wanted stack pending o v1 v2 =
  ((if CONST_WANTED nocode_wanted && negb (NOEVAL_WANTED nocode_wanted) then OpDivisionByZero else OpEmit wide op v1 v2), pending).
Proof.
  intros Ho K1 K2 Z0. rewrite gen_op_real, K1, K2. cbn [andb].
  pose proof (constants_second_ok K2) as [_ S]. assert (E : l2 = 0).
  { destruct Ho as [-> | ->]; destruct S as [_ [N|[N|S]]]; try discriminate N; rewrite S; unfold y; rewrite sv_value_is_const, Z0 by auto; reflexivity. }
  rewrite E. replace (is_division op) with true by (unfold op, selected; destruct (is_unsigned t), Ho as [-> | ->]; reflexivity).
  cbn [andb Z.eqb]. now destruct (_ && _).
Qed.

Lemma value_of_residue l m : same_residue w l m -> value_of t l = value_of t m.
Proof. intros R. unfold value_of. fold w. destruct (is_unsigned t); [exact R|now apply signed_proper]. Qed.

Lemma constants_value m : is_const v1 = true -> is_const v2 = true -> c_op t o x y = Some m ->
  gen_op_int nocode_wanted stack pending o v1 v2 =
  (OpValue None {| sv_t := t; sv_place_of := VT_CONST; sv_c := u64 (value_of t m); sv_nonconst := sv_nonconst v1 || sv_nonconst v2 |}, pending).
Proof.
  intros K1 K2 C. rewrite gen_op_real, K1, K2. cbn [andb].
  assert (E1 : l1 = u64 (value_of t x)) by (unfold l1, x; rewrite K1, value64_value, sv_value_is_const by (auto; apply (ot_c _ _ _ _ T) || apply (ot_real _ _ _ _ T)); reflexivity).
  destruct (opic_const_exact t o x y l1 l2 m E1 (constants_second_ok K2) C) as [D (l & F & U & R)]. fold op in D, F.
  replace (is_division op && (l2 =? 0)) with false by (symmetry; destruct (is_division op); [apply Z.eqb_neq, D; reflexivity|reflexivity]).
  rewrite F, value64_value by (auto; apply (ot_real _ _ _ _ T)). rewrite (value_of_residue l m R).
  unfold with_nonconst, with_c. cbn. unfold is_const in K1. destruct (sv_place_of v1); try discriminate K1. reflexivity.
Qed.
End GenOp.
End Simplify.

(** An environment for constants. *)
Definition empty_env : c_env := {| sym_addr := fun _ => 0; frame_base := 0; local_at := fun _ => 0; elsewhere := fun _ => 0 |}.

(** C19: two integer constants of one type fold to the constant that the C
    operator gives, normalised to the type (sign-extended, or zero-extended if
    unsigned), whatever the 64 bits above the operands' width hold.  A division
    by zero is an error in a constant expression that is evaluated, and is left
    to the code generator elsewhere. *)
Theorem constants_fold (nocode_wanted : Z) (stack : list SValue) (pending : option (CSym * CSym)) (o : Z) (v1 v2 : SValue)
  (K1 : is_const v1 = true) (K2 : is_const v2 = true) (T : operands_typed nocode_wanted o v1 v2) :
  let t := sv_t v1 in
  (forall m, c_op t o (sv_c v1) (sv_c v2) = Some m ->
     gen_op_int nocode_wanted stack pending o v1 v2 =
     (OpValue None {| sv_t := t; sv_place_of := VT_CONST; sv_c := u64 (value_of t m); sv_nonconst := sv_nonconst v1 || sv_nonconst v2 |}, pending)) /\
  ((o = CH_DIV \/ o = CH_MOD) -> value_of t (sv_c v2) = 0 ->
     fst (gen_op_int nocode_wanted stack pending o v1 v2) =
     if CONST_WANTED nocode_wanted && negb (NOEVAL_WANTED nocode_wanted) then OpDivisionByZero
     else OpEmit ((btype t =? VT_LLONG) || (btype (sv_t v2) =? VT_LLONG)) (selected t o) v1 v2).
Proof.
  split.
  - intros m C. apply (constants_value empty_env); auto. now rewrite !sv_value_is_const by auto.
  - intros Ho Z0. rewrite (division_by_zero empty_env) by auto. reflexivity.
Qed.

Lemma constants_fold_witness :
  let k t c := {| sv_t := t; sv_place_of := VT_CONST; sv_c := c; sv_nonconst := false |} in
  fst (gen_op_int 0 [] None CH_DIV (k VT_INT (u64 (-7))) (k VT_INT 2)) =
    OpValue None (k VT_INT (u64 (-3))) /\
  fst (gen_op_int 0x10000 [] None CH_MOD (k VT_INT 7) (k VT_INT (2 ^ 32))) = OpDivisionByZero.
Proof.
  cbv zeta.
  assert (T : forall n o a b, is_uint64 a -> is_uint64 b -> takes_count o = false ->
    operands_typed n o {| sv_t := VT_INT; sv_place_of := VT_CONST; sv_c := a; sv_nonconst := false |} {| sv_t := VT_INT; sv_place_of := VT_CONST; sv_c := b; sv_nonconst := false |}).
  { intros n o a b Ha Hb Ho. split; [split; reflexivity | auto | rewrite Ho; auto | intros v [-> | ->] E; discriminate E]. }
  split.
  - destruct (constants_fold 0 [] None CH_DIV
      {| sv_t := VT_INT; sv_place_of := VT_CONST; sv_c := u64 (-7); sv_nonconst := false |}
      {| sv_t := VT_INT; sv_place_of := VT_CONST; sv_c := 2; sv_nonconst := false |} eq_refl eq_refl) as [F _].
    + apply T; [apply u64_range | unfold is_uint64; lia | reflexivity].
    + rewrite (F (-3)); reflexivity.
  - destruct (constants_fold 0x10000 [] None CH_MOD
      {| sv_t := VT_INT; sv_place_of := VT_CONST; sv_c := 7; sv_nonconst := false |}
      {| sv_t := VT_INT; sv_place_of := VT_CONST; sv_c := 2 ^ 32; sv_nonconst := false |} eq_refl eq_refl) as [_ F].
    + apply T; [unfold is_uint64; lia .. | reflexivity].
    + rewrite F; [reflexivity | auto | reflexivity].
Defined.

(** C5: an integer operator of the front end leaves the value of the C operator
    modulo the width of its type, whether it folds constants, moves a constant to
    the right and reverses the comparison, absorbs an operand ([x & 0], [x * 0],
    [x | -1], [x % 1], [0 << x], [-1 >> x]), drops a neutral one, turns a
    multiplication or a division by a power of two into a shift, adds a constant to
    the address of a symbol or local, takes the difference of two symbols, or hands
    the operation to the code generator.  An operand is discarded, after the
    access a volatile one needs, only where a constant takes its place. *)
Theorem gen_op_preserves (env : c_env) (nocode_wanted : Z) (stack : list SValue) (pending : option (CSym * CSym)) (o : Z) (v1 v2 : SValue) (m : Z)
  (T : operands_typed nocode_wanted o v1 v2)
  (C : c_op (sv_t v1) o (sv_value env pending v1) (sv_value env pending v2) = Some m) :
  let res := gen_op_int nocode_wanted stack pending o v1 v2 in
  (exists r, result_value env res = Some r /\ same_residue (width_of (sv_t v1)) r m) /\
  (forall d v, fst res = OpValue (Some d) v -> is_const v = true /\ (d = v1 \/ d = v2)).
Proof.
  split; [exact (gen_op_gives env nocode_wanted stack pending o v1 v2 T m C)|].
  intros d v E. exact (discarded_operand env nocode_wanted stack pending o v1 v2 T m d v C E).
Qed.

Lemma gen_op_preserves_witness :
  let env := {| sym_addr := fun _ => 0x8000; frame_base := 0; local_at := fun _ => 0; elsewhere := fun _ => 100 |} in
  let x := {| sv_t := VT_INT ||| VT_UNSIGNED; sv_place_of := VT_ELSEWHERE 1; sv_c := 0; sv_nonconst := false |} in
  let k := {| sv_t := VT_INT ||| VT_UNSIGNED; sv_place_of := VT_CONST; sv_c := 8; sv_nonconst := false |} in
  gen_op_int 0 [] None CH_DIV x k = (OpEmit false TOK_SHR x (with_c k 3), None) /\
  (exists r, result_value env (gen_op_int 0 [] None CH_DIV x k) = Some r /\ same_residue 32 r 12).
Proof.
  cbv zeta. split; [reflexivity|].
  refine (proj1 (gen_op_preserves {| sym_addr := fun _ => 0x8000; frame_base := 0; local_at := fun _ => 0; elsewhere := fun _ => 100 |}
    0 [] None CH_DIV {| sv_t := VT_INT ||| VT_UNSIGNED; sv_place_of := VT_ELSEWHERE 1; sv_c := 0; sv_nonconst := false |}
    {| sv_t := VT_INT ||| VT_UNSIGNED; sv_place_of := VT_CONST; sv_c := 8; sv_nonconst := false |} 12 _ eq_refl)).
  split; [split; reflexivity | split; unfold is_uint64; cbn; lia | split; auto | intros v [-> | ->] E; discriminate E].
Defined.
