(* ===== verification/KnownBits.v ===== *)
(** * Known bits

    [src/source/opt/flat/scalar/known_bits.c]: the lattice of known bits, its
    transfer functions, the table of stack slots with the events that change it,
    and the branches that known bits decide.  A 32-bit word is a [Z]. *)

From stdpp Require Import relations.
From S2P Require Import Prelude EabiInt SoftRound Fold FoldSpec.
Local Open Scope Z_scope.
Local Open Scope c_scope.

(** ** The lattice *)

(** Known-zero and known-one masks. *)
Record KB := mkKB { kz : Z; ko : Z }.

Definition kb_width_mask (bt : irop_btype) : Z :=
  match bt with IROP_BTYPE_INT8 => 0xFF | IROP_BTYPE_INT16 => 0xFFFF | _ => 0xFFFFFFFF end.

Definition kb_apply_store_width (bt : irop_btype) (k : KB) : KB :=
  mkKB (kz k &&& kb_width_mask bt) (ko k &&& kb_width_mask bt).

Definition kb_apply_load_width (bt : irop_btype) (is_unsigned : bool) (k : KB) : KB :=
  let mask := kb_width_mask bt in
  if mask =? 0xFFFFFFFF then k else
  let z := kz k &&& mask in
  let o := ko k &&& mask in
  let high_mask := ~~~ mask in
  if is_unsigned then mkKB (z ||| high_mask) o else
  let sign_bit := match bt with IROP_BTYPE_INT8 => 0x80 | _ => 0x8000 end in
  if truth (o &&& sign_bit) then mkKB z (o ||| high_mask)
  else if truth (z &&& sign_bit) then mkKB (z ||| high_mask) o
  else mkKB z o.

Definition kb_apply_const_width (v : Z) (bt : irop_btype) (is_unsigned : bool) : Z :=
  let extend mask sign := let v := v &&& mask in if negb is_unsigned && truth (v &&& sign) then v ||| u64 (Z.lnot mask) else v in
  match bt with
  | IROP_BTYPE_INT8 => extend 0xFF 0x80
  | IROP_BTYPE_INT16 => extend 0xFFFF 0x8000
  | IROP_BTYPE_INT32 => extend 0xFFFFFFFF 0x80000000
  | _ => v
  end.

(** The carry is known as long as the loop runs. *)
Fixpoint add_bits (fuel : nat) (i : Z) (a b : KB) (carry_val : Z) (acc : KB) : KB :=
  match fuel with
  | O => acc
  | S fuel =>
      let mask := 1 <<< i in
      if negb (truth ((kz a ||| ko a) &&& mask)) || negb (truth ((kz b ||| ko b) &&& mask)) then acc else
      let a_bit := (ko a >>> i) &&& 1 in
      let b_bit := (ko b >>> i) &&& 1 in
      let sum_bit := a_bit ^^^ b_bit ^^^ carry_val in
      let new_carry := (a_bit &&& b_bit) ||| ((a_bit ^^^ b_bit) &&& carry_val) in
      add_bits fuel (i + 1) a b new_carry
        (if truth sum_bit then mkKB (kz acc) (ko acc ||| mask) else mkKB (kz acc ||| mask) (ko acc))
  end.

(** The [switch] of [kb_compute]; [None] for its early returns. *)
Definition kb_transfer (op : IrArithOp) (a b : KB) : option KB :=
  let shifted f := if negb ((kz b ||| ko b) =? 0xFFFFFFFF) then None else
    let n := ko b &&& 31 in Some (if n =? 0 then a else f n) in
  match op with
  | TCCIR_OP_AND => Some (mkKB (kz a ||| kz b) (ko a &&& ko b))
  | TCCIR_OP_OR => Some (mkKB (kz a &&& kz b) (ko a ||| ko b))
  | TCCIR_OP_XOR => Some (mkKB ((ko a &&& ko b) ||| (kz a &&& kz b)) ((ko a &&& kz b) ||| (kz a &&& ko b)))
  | TCCIR_OP_SHL => shifted (fun n => mkKB ((kz a <<< n) ||| ((1 <<< n) - 1)) (ko a <<< n))
  | TCCIR_OP_SHR => shifted (fun n => mkKB ((kz a >>> n) ||| (0xFFFFFFFF <<< (32 - n))) (ko a >>> n))
  | TCCIR_OP_SAR => shifted (fun n =>
        let high_mask := 0xFFFFFFFF <<< (32 - n) in
        if truth ((ko a >>> 31) &&& 1) then mkKB (kz a >>> n) ((ko a >>> n) ||| high_mask)
        else if truth ((kz a >>> 31) &&& 1) then mkKB ((kz a >>> n) ||| high_mask) (ko a >>> n)
        else mkKB (kz a >>> n) (ko a >>> n))
  | TCCIR_OP_ASSIGN | TCCIR_OP_LOAD | TCCIR_OP_ZEXT => Some a
  | TCCIR_OP_ADD => Some (add_bits 32 0 a b 0 (mkKB 0 0))
  | TCCIR_OP_SUB => Some (add_bits 32 0 a (mkKB (ko b) (kz b)) 1 (mkKB 0 0))
  | _ => None
  end.

(** [None] where nothing is known. *)
Definition kb_compute (op : IrArithOp) (a b : KB) : option KB :=
  match kb_transfer op a b with
  | Some k => if truth (kz k ||| ko k) then Some k else None
  | None => None
  end.

(** ** Stack slots *)

Record StackKB := mkSlot { sk_off : Z; sk_gen : Z; sk_kb : KB }.

Definition stack_kb_lookup (slots : list StackKB) (current_gen off : Z) : option KB :=
  sk_kb <$> find (fun s => (sk_gen s =? current_gen) && (sk_off s =? off)) slots.

Definition stack_kb_const32 (slots : list StackKB) (current_gen off : Z) : option Z :=
  match stack_kb_lookup slots current_gen off with
  | Some k => if (kz k ||| ko k) =? 0xFFFFFFFF then Some (ko k) else None
  | None => None
  end.

Definition set_gen (g : Z) (s : StackKB) : StackKB := mkSlot (sk_off s) g (sk_kb s).

(** The slot at [off] is overwritten, or a slot is added while there is room. *)
Fixpoint overwrite_slot (slots : list StackKB) (current_gen off : Z) (k : KB) : option (list StackKB) :=
  match slots with
  | [] => None
  | s :: r => if sk_off s =? off then Some (mkSlot off current_gen k :: r) else
              (fun r => s :: r) <$> overwrite_slot r current_gen off k
  end.

Definition KB_MAX_STACK_SLOTS := 64.

Definition stack_kb_set (slots : list StackKB) (current_gen off : Z) (k : KB) : list StackKB :=
  match overwrite_slot slots current_gen off k with
  | Some slots' => slots'
  | None => if Z.of_nat (length slots) <? KB_MAX_STACK_SLOTS then slots ++ [mkSlot off current_gen k] else slots
  end.

Definition stack_kb_invalidate_all (slots : list StackKB) : list StackKB := map (set_gen 0) slots.

Definition stack_kb_rebase_gen (slots : list StackKB) (old_gen new_gen : Z) : list StackKB :=
  map (fun s => if sk_gen s =? old_gen then set_gen new_gen s else s) slots.

Definition kb_invalidate_overlapping_slots (slots : list StackKB) (off width : Z) (exclude_exact : bool) : list StackKB :=
  map (fun s => if (negb exclude_exact || negb (sk_off s =? off)) && (sk_off s <? off + width) && (off <? sk_off s + 4)
                then set_gen 0 s else s) slots.

Definition forget_slot (slots : list StackKB) (off : Z) : list StackKB :=
  map (fun s => if sk_off s =? off then set_gen 0 s else s) slots.

Definition ir_opt_store_btype_size_bytes (bt : irop_btype) : Z :=
  match bt with
  | IROP_BTYPE_INT8 => 1
  | IROP_BTYPE_INT16 => 2
  | IROP_BTYPE_INT32 | IROP_BTYPE_FLOAT32 => 4
  | IROP_BTYPE_INT64 | IROP_BTYPE_FLOAT64 => 8
  | _ => 0
  end.

(** The part of [KBState] that concerns the frame. *)
Record KBState := mkState { slots : list StackKB; current_gen : Z; stack_addr_escaped : bool; stack_dirty_since_split : bool }.

Definition kb_begin : KBState := mkState [] 1 false false.

(** [kb_each_pre] at the start of a block. *)
Definition kb_block_start (backedge : bool) (st : KBState) : KBState :=
  let gen := current_gen st + 1 in
  mkState (if stack_dirty_since_split st || backedge then stack_kb_invalidate_all (slots st)
           else stack_kb_rebase_gen (slots st) (current_gen st) gen) gen (stack_addr_escaped st) false.

Definition store_size (bt : irop_btype) : Z :=
  if ir_opt_store_btype_size_bytes bt <=? 0 then 4 else ir_opt_store_btype_size_bytes bt.

(** A store of type [bt]: [off] is the frame offset its address resolves to,
    [src] the known bits of the value, [is_addr] that the value is a stack address. *)
Definition kb_store (off : option Z) (bt : irop_btype) (src : option KB) (is_addr : bool) (st : KBState) : KBState :=
  let sl := slots st in
  let wide := match bt with IROP_BTYPE_INT64 | IROP_BTYPE_FLOAT32 | IROP_BTYPE_FLOAT64 | IROP_BTYPE_STRUCT => true | _ => false end in
  let sl' :=
    match off with
    | None => stack_kb_invalidate_all sl
    | Some off =>
        if wide then
          match bt with
          | IROP_BTYPE_STRUCT => stack_kb_invalidate_all sl
          | _ => kb_invalidate_overlapping_slots sl off (match bt with IROP_BTYPE_FLOAT32 => 4 | _ => 8 end) false
          end
        else
          let sl := kb_invalidate_overlapping_slots sl off (store_size bt) true in
          match src with
          | Some k => stack_kb_set sl (current_gen st) off (kb_apply_store_width bt k)
          | None => forget_slot sl off
          end
    end in
  mkState sl' (current_gen st) (stack_addr_escaped st || is_addr) true.

(** A store through a base and an index; [off] when both resolve. *)
Definition kb_store_indexed (off : option Z) (bt : irop_btype) (st : KBState) : KBState :=
  mkState (match off with
           | Some off => kb_invalidate_overlapping_slots (slots st) off (store_size bt) false
           | None => stack_kb_invalidate_all (slots st)
           end) (current_gen st) (stack_addr_escaped st) true.

Definition kb_call (exposes : bool) (st : KBState) : KBState :=
  if stack_addr_escaped st || exposes then mkState (stack_kb_invalidate_all (slots st)) (current_gen st) true true
  else st.

(** [set_chain] for SET_CHAIN, which hands out the frame. *)
Definition kb_barrier (set_chain : bool) (st : KBState) : KBState :=
  mkState (stack_kb_invalidate_all (slots st)) (current_gen st) (stack_addr_escaped st || set_chain) true.

(** ** Branches *)

(** [Some true] for a branch that is always taken, [Some false] for one that never is. *)
Definition kb_cmp_sign_branch_taken (sign_one sign_zero nonzero : bool) (tok : Z) : option bool :=
  if sign_one then
    switch tok [(0x9c, Some true); (0x9e, Some true); (0x9d, Some false); (0x9f, Some false); (0x94, Some false); (0x95, Some true)] None
  else if sign_zero && nonzero then
    switch tok [(0x9c, Some false); (0x9e, Some false); (0x9d, Some true); (0x9f, Some true); (0x94, Some false); (0x95, Some true)] None
  else if sign_zero then switch tok [(0x9c, Some false); (0x9d, Some true)] None
  else None.

(** [CMP x, #0] and a branch, from the known bits of [x]. *)
Definition kb_cmp_fold_sign_branch (k : KB) (tok : Z) : option bool :=
  kb_cmp_sign_branch_taken (truth ((ko k >>> 31) &&& 1)) (truth ((kz k >>> 31) &&& 1)) (truth (ko k)) tok.

(** [CMP x, #c] and a branch on equality. *)
Definition kb_cmp_fold_const_eq_neq (k : KB) (c tok : Z) : option bool :=
  if c =? 0 then None else
  if negb (truth (ko k &&& ~~~ c) || truth (kz k &&& c)) then None else
  switch tok [(0x94, Some false); (0x95, Some true)] None.

(** [TEST_ZERO x] and a branch: decided by a known one. *)
Definition kb_test_zero (k : KB) (tok : Z) : option bool :=
  if truth (ko k) then switch tok [(0x94, Some false); (0x95, Some true)] None else None.

(** ** What is known holds *)

Definition kb_ok (k : KB) : Prop := 0 <= kz k < 2 ^ 32 /\ 0 <= ko k < 2 ^ 32.

(** The bits of a 32-bit value. *)
Definition known (k : KB) (x : Z) : Prop :=
  forall i, 0 <= i < 32 -> (Z.testbit (kz k) i = true -> Z.testbit x i = false) /\ (Z.testbit (ko k) i = true -> Z.testbit x i = true).

#[export] Instance known_proper k : Proper (same_residue 32 ==> iff) (known k).
Proof. intros x y E. rewrite residue_bits in E by lia. unfold known. split; intros H i Hi; specialize (H i Hi); rewrite E in * by auto; auto. Qed.

Definition fully_known (k : KB) : bool := (kz k ||| ko k) =? 0xFFFFFFFF.

Lemma fully_known_value k x : fully_known k = true -> known k x -> same_residue 32 x (ko k).
Proof.
  intros F K. apply Z.eqb_eq in F. apply residue_bits; [lia|]. intros i Hi. destruct (K i Hi) as [Kz Ko].
  apply (f_equal (fun z => Z.testbit z i)) in F. rewrite Z.lor_spec in F. change 0xFFFFFFFF with (Z.ones 32) in F. rewrite Z.testbit_ones_nonneg in F by lia.
  assert ((i <? 32) = true) as B by (apply Z.ltb_lt; lia). rewrite B in F.
  destruct (Z.testbit (ko k) i); [auto|]. rewrite orb_false_r in F. auto.
Qed.

Lemma shl32_testbit x n i : 0 <= n -> 0 <= i < 32 -> Z.testbit (x <<< n) i = if i <? n then false else Z.testbit x (i - n).
Proof.
  intros Hn Hi. unfold shl32, u32. rewrite Z.land_spec, Z.testbit_ones_nonneg, Z.shiftl_spec by lia.
  assert (i <? 32 = true) as -> by (apply Z.ltb_lt; lia). rewrite andb_true_r. case Z.ltb_spec; [intros; apply Z.testbit_neg_r; lia|auto].
Qed.

Lemma low_mask_testbit n i : 0 <= n < 32 -> 0 <= i < 32 -> Z.testbit ((1 <<< n) - 1) i = (i <? n).
Proof.
  intros Hn Hi. assert (B : 0 <= 2 ^ n < 2 ^ 32) by (split; [apply Z.pow_nonneg; lia|apply Z.pow_lt_mono_r; lia]).
  unfold shl32. rewrite Z.shiftl_mul_pow2, Z.mul_1_l, u32_small by lia.
  replace (2 ^ n - 1) with (Z.ones n) by (rewrite Z.ones_equiv; lia). apply Z.testbit_ones_nonneg; lia.
Qed.

Lemma high_mask_testbit n i : 0 < n < 32 -> 0 <= i < 32 -> Z.testbit (0xFFFFFFFF <<< (32 - n)) i = (32 - n <=? i).
Proof.
  intros Hn Hi. rewrite shl32_testbit by lia. change 0xFFFFFFFF with (Z.ones 32).
  case Z.ltb_spec; case Z.leb_spec; intros; try lia; auto. rewrite Z.testbit_ones_nonneg by lia. apply Z.ltb_lt. lia.
Qed.

Lemma not32_bit x i : 0 <= i < 32 -> Z.testbit (~~~ x) i = negb (Z.testbit x i).
Proof.
  intros Hi. unfold not32, u32. rewrite Z.lxor_spec, Z.land_spec, Z.testbit_ones_nonneg by lia.
  assert (i <? 32 = true) as -> by (apply Z.ltb_lt; lia). now rewrite andb_true_r, xorb_true_r.
Qed.

Lemma signed_bits n x i : 0 < n -> 0 <= i -> Z.testbit (sint n x) i = Z.testbit x (Z.min i (n - 1)).
Proof.
  intros Hn Hi. assert (R := signed_residue n x). rewrite residue_bits in R by lia.
  destruct (Z_lt_le_dec i n); [rewrite R, Z.min_l by lia; reflexivity|]. rewrite Z.min_r, <- R by lia.
  pose proof (signed_bound n x Hn) as B. destruct (Z_lt_le_dec (sint n x) 0).
  - replace (sint n x) with (Z.lnot (Z.lnot (sint n x))) by apply Z.lnot_involutive.
    rewrite !(Z.lnot_spec (Z.lnot _)) by lia. f_equal. unfold Z.lnot. rewrite !(testbit_above (n - 1)) by lia. reflexivity.
  - rewrite !(testbit_above (n - 1)) by lia. reflexivity.
Qed.

Lemma signed_testbit x j : 0 <= j -> Z.testbit (sint 32 x) j = Z.testbit x (Z.min j 31).
Proof. intros Hj. apply (signed_bits 32); lia. Qed.

(** ** Addition, bit by bit *)

Lemma bit_of m i : 0 <= i -> (m >>> i) &&& 1 = b2z (Z.testbit m i).
Proof.
  intros Hi. change 1 with (Z.ones 1) at 1. rewrite Z.land_ones, Z.shiftr_div_pow2 by lia. rewrite <- Z.testbit_spec' by lia. now destruct (Z.testbit m i).
Qed.

Lemma one_bit_testbit i j : 0 <= i < 32 -> 0 <= j < 32 -> Z.testbit (1 <<< i) j = (j =? i).
Proof.
  intros Hi Hj. rewrite shl32_testbit by lia. case Z.ltb_spec; intros; [symmetry; apply Z.eqb_neq; lia|].
  destruct (Z.eqb_spec j i) as [->|N]; [now rewrite Z.sub_diag|]. apply (testbit_above 1); lia.
Qed.

Lemma tests_bit m i : 0 <= i < 32 -> truth (m &&& (1 <<< i)) = Z.testbit m i.
Proof.
  intros Hi. assert (P : 1 <<< i = 2 ^ i).
  { unfold shl32. rewrite Z.shiftl_mul_pow2, Z.mul_1_l by lia. apply u32_small. split; [apply Z.pow_nonneg; lia|apply Z.pow_lt_mono_r; lia]. }
  rewrite P. destruct (Z.testbit m i) eqn:E.
  - apply truth_true. intros Z0. apply (f_equal (fun z => Z.testbit z i)) in Z0. rewrite Z.land_spec, E, Z.pow2_bits_true, Z.bits_0 in Z0 by lia. discriminate.
  - apply truth_false. apply Z.bits_inj'. intros j Hj. rewrite Z.land_spec, Z.pow2_bits_eqb, Z.bits_0 by lia.
    case Z.eqb_spec; [intros <-; now rewrite E|intros; now rewrite andb_false_r].
Qed.

(** The carry into bit [i] of [x + y + c]. *)
Definition carry_in (x y c i : Z) : Z := (x mod 2 ^ i + y mod 2 ^ i + c) / 2 ^ i.

Lemma carry_bit x y c i : 0 <= i -> 0 <= c <= 1 ->
  let s := b2z (Z.testbit x i) + b2z (Z.testbit y i) + carry_in x y c i in
  b2z (Z.testbit (x + y + c) i) = s mod 2 /\ carry_in x y c (i + 1) = s / 2 /\ 0 <= carry_in x y c i <= 1.
Proof.
  intros Hi Hc s. pose proof (Z.pow_pos_nonneg 2 i ltac:(lia) Hi) as P. unfold s, carry_in.
  assert (B : forall z, b2z (Z.testbit z i) = (z / 2 ^ i) mod 2) by (intros z; rewrite <- Z.testbit_spec' by lia; now destruct (Z.testbit z i)).
  pose proof (Z.mod_pos_bound x _ P). pose proof (Z.mod_pos_bound y _ P).
  set (q := (x mod 2 ^ i + y mod 2 ^ i + c) / 2 ^ i).
  assert (Q : 0 <= q <= 1) by (unfold q; split; [apply Z.div_pos; lia | apply Z.lt_succ_r, Z.div_lt_upper_bound; lia]).
  assert (D : (x + y + c) / 2 ^ i = x / 2 ^ i + y / 2 ^ i + q).
  { rewrite (Z.div_mod x (2 ^ i)) at 1 by lia. rewrite (Z.div_mod y (2 ^ i)) at 1 by lia.
    replace (2 ^ i * (x / 2 ^ i) + x mod 2 ^ i + (2 ^ i * (y / 2 ^ i) + y mod 2 ^ i) + c)
      with ((x mod 2 ^ i + y mod 2 ^ i + c) + (x / 2 ^ i + y / 2 ^ i) * 2 ^ i) by lia.
    rewrite Z.div_add by lia. fold q. lia. }
  split; [|split; [|exact Q]].
  - rewrite !B, D. lia_mod.
  - rewrite !B, Z.pow_add_r, !Z.rem_mul_r by lia. change (2 ^ 1) with 2.
    replace (x mod 2 ^ i + 2 ^ i * ((x / 2 ^ i) mod 2) + (y mod 2 ^ i + 2 ^ i * ((y / 2 ^ i) mod 2)) + c)
      with ((x mod 2 ^ i + y mod 2 ^ i + c) + ((x / 2 ^ i) mod 2 + (y / 2 ^ i) mod 2) * 2 ^ i) by lia.
    rewrite <- Z.div_div, Z.div_add by lia. fold q. f_equal. lia.
Qed.

Lemma known_bit k x i : 0 <= i < 32 -> known k x -> Z.testbit (kz k) i || Z.testbit (ko k) i = true -> Z.testbit (ko k) i = Z.testbit x i.
Proof. intros Hi K H. destruct (K i Hi) as [A B]. destruct (Z.testbit (ko k) i); [symmetry; auto|]. rewrite orb_false_r in H. symmetry. auto. Qed.

Lemma known_set_bit k x i : 0 <= i < 32 -> known k x ->
  known (if Z.testbit x i then mkKB (kz k) (ko k ||| (1 <<< i)) else mkKB (kz k ||| (1 <<< i)) (ko k)) x.
Proof.
  intros Hi K j Hj. destruct (K j Hj) as [A B]. destruct (Z.testbit x i) eqn:E; cbn [kz ko]; split; auto;
  rewrite Z.lor_spec, one_bit_testbit, orb_true_iff, Z.eqb_eq by lia; intros [H| ->]; auto.
Qed.

Lemma add_bits_sound fuel : forall i a b acc x y c, known a x -> known b y -> 0 <= c <= 1 -> 0 <= i -> i + Z.of_nat fuel <= 32 ->
  known acc (x + y + c) -> known (add_bits fuel i a b (carry_in x y c i) acc) (x + y + c).
Proof.
  induction fuel as [|f IH]; intros i a b acc x y c Ka Kb Hc Hi Hf Kacc; cbn [add_bits]; [auto|].
  rewrite !tests_bit, !Z.lor_spec by lia. destruct (Z.testbit (kz a) i || Z.testbit (ko a) i) eqn:A; [|exact Kacc].
  destruct (Z.testbit (kz b) i || Z.testbit (ko b) i) eqn:B; [|exact Kacc]. cbn [negb orb].
  rewrite !bit_of, (known_bit a x i ltac:(lia) Ka A), (known_bit b y i ltac:(lia) Kb B) by lia.
  destruct (carry_bit x y c i Hi Hc) as (S & N & Q). cbv zeta in S, N.
  set (q := carry_in x y c i) in *. pose proof (known_set_bit acc (x + y + c) i ltac:(lia) Kacc) as K'.
  assert (C : q = 0 \/ q = 1) by lia.
  match goal with |- known (add_bits f (i + 1) a b ?nc ?k) _ =>
    replace nc with (carry_in x y c (i + 1)) by (rewrite N; destruct (Z.testbit x i), (Z.testbit y i), C as [-> | ->]; reflexivity);
    replace k with (if Z.testbit (x + y + c) i then mkKB (kz acc) (ko acc ||| (1 <<< i)) else mkKB (kz acc ||| (1 <<< i)) (ko acc))
  end; [apply IH; auto; lia|].
  revert S. destruct (Z.testbit x i), (Z.testbit y i), C as [-> | ->], (Z.testbit (x + y + c) i); intros S; reflexivity || discriminate S.
Qed.

Lemma add_bits_ok fuel : forall i a b c acc, kb_ok acc -> kb_ok (add_bits fuel i a b c acc).
Proof.
  induction fuel as [|f IH]; intros i a b c acc H; cbn [add_bits]; [auto|]. destruct (_ || _); [auto|]. apply IH.
  destruct H. destruct (truth _); split; cbn [kz ko]; auto; apply lor_bound; auto; try lia; apply u32_bound.
Qed.

(** ** Transfer functions *)

(** What the instruction computes; copies are 32 bits wide here. A shift by 32 or more
    has no meaning ([None]): the pass only asks for counts below 32. *)
Definition kb_sem (op : IrArithOp) (x y : Z) : option Z :=
  match op with TCCIR_OP_ASSIGN | TCCIR_OP_LOAD | TCCIR_OP_ZEXT => Some x | _ => ir_arith op 32 x y end.

(** A shift by a known count in range. *)
Lemma shift_count b y : kb_ok b -> known b y -> fully_known b = true -> y mod 2 ^ 32 < 32 -> ko b &&& 31 = y mod 2 ^ 32.
Proof.
  intros [_ Hb] K F H. rewrite (fully_known_value b y F K) in *. rewrite (Z.mod_small (ko b)) in * by lia.
  change 31 with (Z.ones 5). rewrite Z.land_ones by lia. apply Z.mod_small. lia.
Qed.

Lemma above_32 m i : 0 <= m < 2 ^ 32 -> 32 <= i -> Z.testbit m i = false.
Proof. intros Hm Hi. apply (testbit_above 32); lia. Qed.

Lemma shr_known a x n : 0 < n < 32 -> kb_ok a -> known a x ->
  known (mkKB ((kz a >>> n) ||| (0xFFFFFFFF <<< (32 - n))) (ko a >>> n)) (x mod 2 ^ 32 / 2 ^ n).
Proof.
  intros Hn [Hz Ho] K i Hi. cbn [kz ko]. rewrite Z.lor_spec, !Z.shiftr_spec, high_mask_testbit, orb_true_iff, Z.leb_le by lia.
  rewrite <- Z.shiftr_div_pow2, Z.shiftr_spec by lia. destruct (Z_lt_le_dec (i + n) 32).
  - rewrite Z.mod_pow2_bits_low by lia. destruct (K (i + n) ltac:(lia)) as [A B]. split; [intros [H|H]; [auto|lia]|auto].
  - rewrite Z.mod_pow2_bits_high by lia. split; [auto|]. rewrite above_32 by lia. discriminate.
Qed.

Lemma shl_known a x n : 0 < n < 32 -> known a x -> known (mkKB ((kz a <<< n) ||| ((1 <<< n) - 1)) (ko a <<< n)) (x * 2 ^ n).
Proof.
  intros Hn K i Hi. cbn [kz ko]. rewrite Z.lor_spec, !shl32_testbit, low_mask_testbit by lia.
  rewrite <- Z.shiftl_mul_pow2, Z.shiftl_spec by lia. case Z.ltb_spec; intros C; cbn [orb].
  - rewrite Z.testbit_neg_r by lia. auto.
  - rewrite orb_false_r. apply K. lia.
Qed.

Lemma sar_known a x n : 0 < n < 32 -> kb_ok a -> known a x ->
  known (let high_mask := 0xFFFFFFFF <<< (32 - n) in
         if truth ((ko a >>> 31) &&& 1) then mkKB (kz a >>> n) ((ko a >>> n) ||| high_mask)
         else if truth ((kz a >>> 31) &&& 1) then mkKB ((kz a >>> n) ||| high_mask) (ko a >>> n)
         else mkKB (kz a >>> n) (ko a >>> n)) (sint 32 x / 2 ^ n).
Proof.
  intros Hn [Hz Ho] K. cbv zeta. rewrite !bit_of by lia. destruct (K 31 ltac:(lia)) as [S0 S1].
  assert (T : forall b, truth (b2z b) = b) by now intros []. rewrite !T. intros i Hi.
  rewrite <- Z.shiftr_div_pow2, Z.shiftr_spec, signed_testbit by lia.
  assert (L : i + n < 32 -> Z.min (i + n) 31 = i + n) by lia. assert (G : 32 <= i + n -> Z.min (i + n) 31 = 31) by lia.
  destruct (Z_lt_le_dec (i + n) 32) as [C|C].
  - rewrite L by lia. destruct (K (i + n) ltac:(lia)) as [A B].
    assert (M : Z.testbit (0xFFFFFFFF <<< (32 - n)) i = false) by (rewrite high_mask_testbit by lia; apply Z.leb_gt; lia).
    destruct (Z.testbit (ko a) 31), (Z.testbit (kz a) 31); cbn [kz ko]; rewrite ?Z.lor_spec, ?M, ?orb_false_r, !Z.shiftr_spec by lia; auto.
  - rewrite G by lia.
    destruct (Z.testbit (ko a) 31) eqn:E1, (Z.testbit (kz a) 31) eqn:E0; cbn [kz ko]; rewrite ?Z.lor_spec, !Z.shiftr_spec by lia; rewrite (above_32 (kz a)), (above_32 (ko a)) by lia; cbn [orb].
    all: split; intros ?; auto; discriminate.
Qed.

Lemma shr_bound m n : 0 <= n -> 0 <= m < 2 ^ 32 -> 0 <= m >>> n < 2 ^ 32.
Proof.
  intros Hn Hm. rewrite Z.shiftr_div_pow2 by lia. pose proof (Z.pow_pos_nonneg 2 n ltac:(lia) Hn). split; [apply Z.div_pos; lia|apply Z.div_lt_upper_bound; nia].
Qed.

Lemma land_bound32 a b : 0 <= b < 2 ^ 32 -> 0 <= a &&& b < 2 ^ 32.
Proof.
  intros Hb. replace b with (b &&& Z.ones 32) by (rewrite Z.land_ones, Z.mod_small by lia; reflexivity). rewrite Z.land_assoc. apply land_ones_bound. lia.
Qed.

Lemma low_mask_bound n : 0 <= n < 32 -> 0 <= (1 <<< n) - 1 < 2 ^ 32.
Proof.
  intros Hn. unfold shl32. assert (0 < 2 ^ n < 2 ^ 32) by (split; [apply Z.pow_pos_nonneg; lia|apply Z.pow_lt_mono_r; lia]).
  rewrite Z.shiftl_mul_pow2, Z.mul_1_l, u32_small by lia. lia.
Qed.

(** Bounds of masks, by their last operation. *)
Ltac mask_bound :=
  lazymatch goal with
  | |- 0 <= Z.lor _ _ < _ => apply lor_bound; [lia | mask_bound | mask_bound]
  | |- 0 <= Z.land _ _ < _ => apply land_bound32; mask_bound
  | |- 0 <= Z.shiftr _ _ < _ => apply shr_bound; [lia | mask_bound]
  | |- 0 <= shl32 _ _ < _ => apply u32_bound
  | |- 0 <= shl32 _ _ - 1 < _ => apply low_mask_bound; lia
  | |- _ => assumption
  end.

(** Masks that hold of a value do not overlap. *)
Lemma known_consistent k x : kb_ok k -> known k x -> kz k &&& ko k = 0.
Proof.
  intros [Hz Ho] K. apply Z.bits_inj'. intros i Hi. rewrite Z.land_spec, Z.bits_0. destruct (Z_lt_le_dec i 32).
  - destruct (K i ltac:(lia)) as [A B]. destruct (Z.testbit (kz k) i), (Z.testbit (ko k) i); auto. rewrite A in B by auto. symmetry. now apply B.
  - now rewrite above_32 by lia.
Qed.

Lemma lxor_bound32 v : 0 <= v < 2 ^ 32 -> 0 <= Z.lxor v (Z.ones 32) < 2 ^ 32.
Proof.
  intros Hv. assert (E : Z.lxor v (Z.ones 32) = Z.ones 32 - v); [|rewrite E, Z.ones_equiv; lia].
  pose proof (Z.add_nocarry_lxor (Z.lxor v (Z.ones 32)) v) as A.
  assert (X : Z.lxor (Z.lxor v (Z.ones 32)) v = Z.ones 32) by (rewrite Z.lxor_comm, <- Z.lxor_assoc, Z.lxor_nilpotent; apply Z.lxor_0_l).
  rewrite X in A. enough (N : Z.lxor v (Z.ones 32) &&& v = 0) by (specialize (A N); lia). apply Z.bits_inj'. intros i Hi. rewrite Z.land_spec, Z.lxor_spec, Z.bits_0, Z.testbit_ones_nonneg by lia.
  case Z.ltb_spec; intros; [now destruct (Z.testbit v i)|]. now rewrite above_32 by lia.
Qed.

#[local] Opaque add_bits.

Lemma transfer_ok op a b k : kb_ok a -> kb_ok b -> kb_transfer op a b = Some k -> kb_ok k.
Proof.
  intros [A1 A2] [B1 B2] H. pose proof (Z.land_ones (ko b) 5 ltac:(lia)) as E. change (Z.ones 5) with 31 in E. change (2 ^ 5) with 32 in E.
  pose proof (Z.mod_pos_bound (ko b) 32 ltac:(lia)) as N. rewrite <- E in N. clear E.
  assert (Ha : kb_ok a) by now split. assert (Z0 : kb_ok (mkKB 0 0)) by (split; cbn; lia). unfold kb_transfer in H.
  destruct op; try discriminate H; try (destruct (negb _); [discriminate H|]); apply (inj Some) in H; subst k.
  1-2: apply add_bits_ok; exact Z0.
  all: try exact Ha; try (set (n := ko b &&& 31) in *; clearbody n; case Z.eqb_spec; intros; [exact Ha|]; cbv zeta; try destruct (truth _); try destruct (truth _));
    split; cbn [kz ko]; mask_bound.
Qed.

(** One bit of the bitwise operations. *)
Lemma bit_transfer (az ao bz bo u v : bool) :
  (az = true -> u = false) -> (ao = true -> u = true) -> (bz = true -> v = false) -> (bo = true -> v = true) ->
  ((az || bz = true -> u && v = false) /\ (ao && bo = true -> u && v = true)) /\
  ((az && bz = true -> u || v = false) /\ (ao || bo = true -> u || v = true)) /\
  ((ao && bo || az && bz = true -> xorb u v = false) /\ (ao && bz || az && bo = true -> xorb u v = true)).
Proof.
  intros A B C D. destruct az; [rewrite A in * by reflexivity|]; (destruct ao; [try (specialize (B eq_refl); discriminate B); try rewrite B in * by reflexivity|]);
  (destruct bz; [rewrite C in * by reflexivity|]); (destruct bo; [try (specialize (D eq_refl); discriminate D); try rewrite D in * by reflexivity|]);
  destruct u, v; cbn; repeat split; intros; try reflexivity; try discriminate.
Qed.

Lemma transfer_sound op a b k x y r : kb_ok a -> kb_ok b -> known a x -> known b y ->
  kb_transfer op a b = Some k -> kb_sem op x y = Some r -> known k r.
Proof.
  intros Ha Hb Ka Kb H R. unfold kb_transfer in H.
  assert (Z0 : forall z, known (mkKB 0 0) z) by (intros z i _; cbn; rewrite Z.bits_0; split; discriminate).
  destruct op; try discriminate H; try (destruct ((kz b ||| ko b) =? 0xFFFFFFFF) eqn:F; [|discriminate H]); apply (inj Some) in H; subst k.
  1: injection R as <-; pose proof (add_bits_sound 32 0 a b (mkKB 0 0) x y 0 Ka Kb ltac:(lia) ltac:(lia) ltac:(lia) (Z0 _)) as S;
     rewrite Z.add_0_r in S; replace (carry_in x y 0 0) with 0 in S by (unfold carry_in; rewrite !Z.mod_1_r; reflexivity); exact S.
  1: injection R as <-; assert (Kb' : known (mkKB (ko b) (kz b)) (Z.lnot y)) by
       (intros i Hi; destruct (Kb i Hi) as [A B]; cbn [kz ko]; rewrite Z.lnot_spec by lia; split; intros C; [rewrite (B C) | rewrite (A C)]; reflexivity);
     pose proof (add_bits_sound 32 0 a _ (mkKB 0 0) x (Z.lnot y) 1 Ka Kb' ltac:(lia) ltac:(lia) ltac:(lia) (Z0 _)) as S;
     replace (carry_in x (Z.lnot y) 1 0) with 1 in S by (unfold carry_in; rewrite !Z.mod_1_r; reflexivity);
     replace (x - y) with (x + Z.lnot y + 1) by (unfold Z.lnot; lia); exact S.
  1-3: injection R as <-; intros i Hi; destruct (Ka i Hi) as [A1 A2], (Kb i Hi) as [B1 B2]; cbn [kz ko];
       rewrite ?Z.lor_spec, ?Z.land_spec, ?Z.lxor_spec, ?Z.lor_spec, ?Z.land_spec; now apply bit_transfer.
  1-3: unfold kb_sem, ir_arith in R; destruct (Z.ltb_spec (y mod 2 ^ 32) 32) as [C|]; [injection R as <-|discriminate R];
       rewrite (shift_count b y Hb Kb F C); pose proof (Z.mod_pos_bound y (2 ^ 32) ltac:(lia)); set (n := y mod 2 ^ 32) in *; clearbody n;
       (destruct (Z.eqb_spec n 0) as [->|]; [rewrite ?Z.mul_1_r, ?Z.div_1_r; [..] |]).
  - exact Ka.
  - apply shl_known; [lia|exact Ka].
  - now rewrite mod_residue.
  - apply shr_known; [lia|exact Ha|exact Ka].
  - now rewrite signed_residue.
  - apply sar_known; [lia|exact Ha|exact Ka].
  - injection R as <-. exact Ka.
  - injection R as <-. exact Ka.
  - injection R as <-. exact Ka.
Qed.

(** C18: the transfer functions of the known-bits pass are sound: if the masks
    of the operands hold of two values, the masks that [kb_compute] gives hold of
    the 32-bit result, and stay 32-bit masks that do not contradict each other.
    If every bit of the result is known, the result is the known-one mask, which
    is the constant the pass writes. A shift is by a count below 32, as the pass makes
    sure before it asks. *)
Theorem kb_compute_sound (op : IrArithOp) (a b k : KB) (x y r : Z) (Ha : kb_ok a) (Hb : kb_ok b) (Ka : known a x) (Kb : known b y)
  (H : kb_compute op a b = Some k) (R : kb_sem op x y = Some r) :
  kb_ok k /\ known k r /\ kz k &&& ko k = 0 /\ (fully_known k = true -> r mod 2 ^ 32 = ko k).
Proof.
  unfold kb_compute in H. destruct (kb_transfer op a b) as [k'|] eqn:T; [|discriminate H]. destruct (truth _); [|discriminate H]. injection H as ->.
  pose proof (transfer_ok op a b k Ha Hb T) as Hk. pose proof (transfer_sound op a b k x y r Ha Hb Ka Kb T R) as Kk.
  split; [exact Hk|]. split; [exact Kk|]. split; [now apply (known_consistent k r)|].
  intros F. rewrite (fully_known_value k r F Kk). apply Z.mod_small. apply Hk.
Qed.

Lemma kb_compute_sound_witness :
  kb_compute TCCIR_OP_AND (mkKB 0 0) (mkKB 0x3F80 0xFFFFC07F) = Some (mkKB 0x3F80 0) /\
  kb_compute TCCIR_OP_OR (mkKB 0x3F80 0) (mkKB 0xFFFFE17F 0x1E80) = Some (mkKB 0x2100 0x1E80) /\
  (forall x, known (mkKB 0x2100 0x1E80) (Z.lor (Z.land x 0xFFFFC07F) 0x1E80)).
Proof.
  assert (T : forall x, known (mkKB 0 0) x) by (intros x i _; cbn; rewrite Z.bits_0; split; discriminate).
  assert (C : forall v, 0 <= v < 2 ^ 32 -> known (mkKB (~~~ v) v) v).
  { intros v Hv i Hi. cbn [kz ko]. rewrite not32_bit by lia. destruct (Z.testbit v i); split; auto; discriminate. }
  assert (A : kb_compute TCCIR_OP_AND (mkKB 0 0) (mkKB 0x3F80 0xFFFFC07F) = Some (mkKB 0x3F80 0)) by (vm_compute; reflexivity).
  assert (O : kb_compute TCCIR_OP_OR (mkKB 0x3F80 0) (mkKB 0xFFFFE17F 0x1E80) = Some (mkKB 0x2100 0x1E80)) by (vm_compute; reflexivity).
  split; [exact A|]. split; [exact O|]. intros x.
  destruct (kb_compute_sound TCCIR_OP_AND (mkKB 0 0) (mkKB 0x3F80 0xFFFFC07F) (mkKB 0x3F80 0) x 0xFFFFC07F (Z.land x 0xFFFFC07F)) as (Ok & K & _);
    [split; cbn; lia | split; cbn; lia | apply T | exact (C 0xFFFFC07F ltac:(lia)) | exact A | reflexivity |].
  destruct (kb_compute_sound TCCIR_OP_OR (mkKB 0x3F80 0) (mkKB 0xFFFFE17F 0x1E80) (mkKB 0x2100 0x1E80) (Z.land x 0xFFFFC07F) 0x1E80 (Z.lor (Z.land x 0xFFFFC07F) 0x1E80)) as (_ & K' & _);
    [exact Ok | split; cbn; lia | exact K | exact (C 0x1E80 ltac:(lia)) | exact O | reflexivity | exact K'].
Defined.

(** ** Narrow loads *)

(** The value of a load of type [bt] from a word. *)
Definition load_value (bt : irop_btype) (uns : bool) (w : Z) : Z :=
  match bt with
  | IROP_BTYPE_INT8 => if uns then w mod 2 ^ 8 else sint 8 w
  | IROP_BTYPE_INT16 => if uns then w mod 2 ^ 16 else sint 16 w
  | _ => w
  end.

(** [kb_apply_load_width] on a field of [n] bits. *)
Lemma narrow_load n k w mask sign : 0 < n < 32 -> mask = Z.ones n -> sign = 2 ^ (n - 1) -> known k w ->
  known (mkKB (kz k &&& mask ||| ~~~ mask) (ko k &&& mask)) (w mod 2 ^ n) /\
  known (if truth (ko k &&& mask &&& sign) then mkKB (kz k &&& mask) (ko k &&& mask ||| ~~~ mask)
         else if truth (kz k &&& mask &&& sign) then mkKB (kz k &&& mask ||| ~~~ mask) (ko k &&& mask)
         else mkKB (kz k &&& mask) (ko k &&& mask)) (sint n w).
Proof.
  intros Hn -> -> K.
  assert (M : forall m i, 0 <= i < 32 -> Z.testbit (m &&& Z.ones n) i = Z.testbit m i && (i <? n)) by (intros; rewrite Z.land_spec, Z.testbit_ones_nonneg by lia; reflexivity).
  assert (N : forall i, 0 <= i < 32 -> Z.testbit (~~~ Z.ones n) i = negb (i <? n)) by (intros; rewrite not32_bit, Z.testbit_ones_nonneg by lia; reflexivity).
  assert (S : forall m, truth (m &&& Z.ones n &&& 2 ^ (n - 1)) = Z.testbit m (n - 1)).
  { intros m. replace (2 ^ (n - 1)) with (1 <<< (n - 1)) by (unfold shl32; rewrite Z.shiftl_mul_pow2, Z.mul_1_l by lia; apply u32_small; split; [apply Z.pow_nonneg; lia|apply Z.pow_lt_mono_r; lia]).
    rewrite tests_bit, M by lia. assert (n - 1 <? n = true) as -> by (apply Z.ltb_lt; lia). apply andb_true_r. }
  rewrite !S. destruct (K (n - 1) ltac:(lia)) as [S0 S1]. split; intros i Hi; destruct (K i Hi) as [A B].
  - cbn [kz ko]. rewrite Z.lor_spec, !M, N by lia. case Z.ltb_spec; intros C; cbn [negb].
    + rewrite !andb_true_r, orb_false_r, Z.mod_pow2_bits_low by lia. auto.
    + rewrite !andb_false_r, Z.mod_pow2_bits_high by lia. split; [auto|discriminate].
  - rewrite signed_bits by lia. destruct (Z_lt_le_dec i n) as [C|C].
    + rewrite Z.min_l by lia. assert (T : i <? n = true) by (apply Z.ltb_lt; lia).
      destruct (Z.testbit (ko k) (n - 1)), (Z.testbit (kz k) (n - 1)); cbn [kz ko]; rewrite ?Z.lor_spec, !M, ?N, T by lia; rewrite ?andb_true_r, ?orb_false_r; auto.
    + rewrite Z.min_r by lia. assert (T : i <? n = false) by (apply Z.ltb_ge; lia).
      destruct (Z.testbit (ko k) (n - 1)) eqn:E1, (Z.testbit (kz k) (n - 1)) eqn:E0; cbn [kz ko]; rewrite ?Z.lor_spec, !M, ?N, T by lia; rewrite ?andb_false_r; cbn [orb negb];
        split; intros F; auto; discriminate F.
Qed.

Lemma load_width_sound bt uns k w : known k w -> known (kb_apply_load_width bt uns k) (load_value bt uns w).
Proof.
  intros K. unfold kb_apply_load_width, load_value.
  destruct bt; cbn [kb_width_mask Z.eqb Pos.eqb]; try exact K.
  - destruct (narrow_load 8 k w 0xFF 0x80 ltac:(lia) eq_refl eq_refl K) as [U S]. destruct uns; assumption.
  - destruct (narrow_load 16 k w 0xFFFF 0x8000 ltac:(lia) eq_refl eq_refl K) as [U S]. destruct uns; assumption.
Qed.

(** ** The frame *)

Definition frame := Z -> Z.
Definition bytes_ok (m : frame) : Prop := forall a, 0 <= m a < 2 ^ 8.

Definition frame_word (m : frame) (off : Z) : Z :=
  m off ||| Z.shiftl (m (off + 1)) 8 ||| Z.shiftl (m (off + 2)) 16 ||| Z.shiftl (m (off + 3)) 24.

Definition store_bytes (m : frame) (off size v : Z) : frame :=
  fun a => if (off <=? a) && (a <? off + size) then (v / 2 ^ (8 * (a - off))) mod 2 ^ 8 else m a.

Lemma store_bytes_ok m off size v : bytes_ok m -> bytes_ok (store_bytes m off size v).
Proof. intros H a. unfold store_bytes. destruct (_ && _); [apply Z.mod_pos_bound; lia|apply H]. Qed.

Lemma load_bit m off i : bytes_ok m -> 0 <= i < 32 -> Z.testbit (frame_word m off) i = Z.testbit (m (off + i / 8)) (i mod 8).
Proof.
  intros H Hi. unfold frame_word. rewrite !Z.lor_spec, !Z.shiftl_spec by lia.
  assert (D := Z.div_mod i 8 ltac:(lia)). assert (R := Z.mod_pos_bound i 8 ltac:(lia)).
  assert (Q : i / 8 = 0 \/ i / 8 = 1 \/ i / 8 = 2 \/ i / 8 = 3) by lia.
  assert (B : forall a j, (j < 0 \/ 8 <= j) -> Z.testbit (m a) j = false) by (intros a j [?|?]; [apply Z.testbit_neg_r; lia | apply (testbit_above 8); [lia|apply H]]).
  destruct Q as [Q|[Q|[Q|Q]]]; rewrite Q in *; rewrite ?Z.add_0_r.
  - rewrite !(B _ (i - _)) by lia. rewrite !orb_false_r. replace (i mod 8) with i by lia. reflexivity.
  - rewrite (B off), (B (off + 2)), (B (off + 3)) by lia. rewrite !orb_false_r. replace (i mod 8) with (i - 8) by lia. reflexivity.
  - rewrite (B off), (B (off + 1)), (B (off + 3)) by lia. rewrite !orb_false_r. replace (i mod 8) with (i - 16) by lia. reflexivity.
  - rewrite (B off), (B (off + 1)), (B (off + 2)) by lia. replace (i mod 8) with (i - 24) by lia. reflexivity.
Qed.

(** A store leaves a word that it does not touch. *)
Lemma load_other m off size v a : a + 4 <= off \/ off + size <= a -> frame_word (store_bytes m off size v) a = frame_word m a.
Proof.
  intros H. unfold frame_word, store_bytes.
  repeat match goal with |- context [if ?c then _ else _] => replace c with false by (symmetry; apply andb_false_iff; rewrite Z.leb_gt, Z.ltb_ge; lia) end.
  reflexivity.
Qed.

(** The stored word: the low bytes are the value's, those above are unknown. *)
Lemma load_stored m off bt k v : bytes_ok m -> (match bt with IROP_BTYPE_INT8 | IROP_BTYPE_INT16 | IROP_BTYPE_INT32 | IROP_BTYPE_FUNC => True | _ => False end) ->
  known k v -> known (kb_apply_store_width bt k) (frame_word (store_bytes m off (store_size bt) v) off).
Proof.
  intros Hm Hb K i Hi. destruct (K i Hi) as [A B]. unfold kb_apply_store_width. cbn [kz ko].
  assert (Hw : exists n, kb_width_mask bt = Z.ones (8 * n) /\ store_size bt = n /\ 1 <= n <= 4) by (destruct bt; try contradiction; [exists 4|exists 4|exists 1|exists 2]; repeat split; lia).
  destruct Hw as (n & -> & -> & Hn). rewrite !Z.land_spec, !Z.testbit_ones_nonneg by lia. rewrite load_bit by auto using store_bytes_ok.
  case Z.ltb_spec; intros C; [|rewrite !andb_false_r; split; discriminate]. rewrite !andb_true_r.
  assert (D := Z.div_mod i 8 ltac:(lia)). assert (R := Z.mod_pos_bound i 8 ltac:(lia)).
  unfold store_bytes. replace (_ && _) with true by (symmetry; apply andb_true_iff; rewrite Z.leb_le, Z.ltb_lt; split; lia).
  rewrite Z.mod_pow2_bits_low, <- Z.shiftr_div_pow2, Z.shiftr_spec by lia. replace (i mod 8 + 8 * (off + i / 8 - off)) with i by lia. auto.
Qed.

(** ** The pass and the program side by side *)

(** A step of the pass with what the instruction does to the frame.  A block
    starts with whatever its other predecessors leave; a store whose address does
    not resolve, a call that may see the frame and a barrier write anywhere.  An
    indexed store, of any type, writes at most the bytes the pass counts for its type,
    which are four for one without a size of its own, such as a structure. *)
Inductive frame_step : KBState * frame -> KBState * frame -> Prop :=
| fs_block st m m' backedge : bytes_ok m' -> frame_step (st, m) (kb_block_start backedge st, m')
| fs_store st m off bt src is_addr v :
    (forall k, src = Some k -> kb_ok k /\ known k v) -> bt <> IROP_BTYPE_STRUCT ->
    frame_step (st, m) (kb_store (Some off) bt src is_addr st, store_bytes m off (store_size bt) v)
| fs_store_anywhere st m m' off bt src is_addr : bytes_ok m' -> off = None \/ bt = IROP_BTYPE_STRUCT ->
    frame_step (st, m) (kb_store off bt src is_addr st, m')
| fs_indexed st m off bt size v : size <= store_size bt -> frame_step (st, m) (kb_store_indexed (Some off) bt st, store_bytes m off size v)
| fs_indexed_anywhere st m m' bt : bytes_ok m' -> frame_step (st, m) (kb_store_indexed None bt st, m')
| fs_call st m m' exposes : bytes_ok m' -> (stack_addr_escaped st || exposes = false -> m' = m) -> frame_step (st, m) (kb_call exposes st, m')
| fs_barrier st m m' set_chain : bytes_ok m' -> frame_step (st, m) (kb_barrier set_chain st, m').

Definition slot_holds (gen : Z) (m : frame) (s : StackKB) : Prop := sk_gen s = gen -> kb_ok (sk_kb s) /\ known (sk_kb s) (frame_word m (sk_off s)).

(** What the pass maintains: one entry per offset, at most 64, none from a later
    generation; a live entry holds of the frame; a clean block has none. *)
Record frame_inv (c : KBState * frame) : Prop := {
  fi_bytes : bytes_ok c.2;
  fi_gen : 1 <= current_gen c.1;
  fi_size : Z.of_nat (length (slots c.1)) <= KB_MAX_STACK_SLOTS;
  fi_nodup : NoDup (map sk_off (slots c.1));
  fi_le : Forall (fun s => sk_gen s <= current_gen c.1) (slots c.1);
  fi_holds : Forall (slot_holds (current_gen c.1) c.2) (slots c.1);
  fi_clean : stack_dirty_since_split c.1 = false -> Forall (fun s => sk_gen s <> current_gen c.1) (slots c.1) }.

(** Dropping entries to generation 0. *)
Definition drops (f : StackKB -> StackKB) : Prop := forall s, sk_off (f s) = sk_off s /\ (f s = s \/ sk_gen (f s) = 0).

Lemma drops_nodup f l : drops f -> NoDup (map sk_off l) -> NoDup (map sk_off (map f l)).
Proof. intros D H. rewrite map_map. erewrite map_ext; [exact H|]. intros s. apply D. Qed.

Lemma drops_le f l g : drops f -> 0 <= g -> Forall (fun s => sk_gen s <= g) l -> Forall (fun s => sk_gen s <= g) (map f l).
Proof. intros D Hg H. rewrite Forall_map. eapply List.Forall_impl; [|exact H]. intros s Hs. cbv beta in *. destruct (D s) as [_ [-> | ->]]; lia. Qed.

Lemma drops_holds f l g m m' : drops f -> 1 <= g -> (forall s, f s = s -> slot_holds g m s -> slot_holds g m' s) ->
  Forall (slot_holds g m) l -> Forall (slot_holds g m') (map f l).
Proof.
  intros D Hg K H. rewrite Forall_map. eapply List.Forall_impl; [|exact H]. intros s Hs. cbv beta in *. destruct (D s) as [_ [E|E]].
  - rewrite E. apply K; auto.
  - intros G. lia.
Qed.

Lemma drops_clean f l g : drops f -> 1 <= g -> Forall (fun s => sk_gen s <> g) l -> Forall (fun s => sk_gen s <> g) (map f l).
Proof. intros D Hg H. rewrite Forall_map. eapply List.Forall_impl; [|exact H]. intros s Hs. cbv beta in *. destruct (D s) as [_ [-> | ->]]; lia. Qed.

Lemma drop_all : drops (set_gen 0).
Proof. intros s. cbn. auto. Qed.

Lemma drop_if (p : StackKB -> bool) : drops (fun s => if p s then set_gen 0 s else s).
Proof. intros s. destruct (p s); cbn; auto. Qed.

Lemma invalidated_none l g : 1 <= g -> Forall (fun s => sk_gen s <> g) (stack_kb_invalidate_all l).
Proof. intros Hg. unfold stack_kb_invalidate_all. rewrite Forall_map. apply list.Forall_forall. intros s _. cbn. lia. Qed.

(** A state whose entries are those of an old one, some dropped. *)
Lemma dropped_inv st m m' f dirty escaped : frame_inv (st, m) -> bytes_ok m' -> drops f ->
  (forall s, f s = s -> slot_holds (current_gen st) m s -> slot_holds (current_gen st) m' s) ->
  (dirty = false -> Forall (fun s => sk_gen s <> current_gen st) (map f (slots st))) ->
  frame_inv (mkState (map f (slots st)) (current_gen st) escaped dirty, m').
Proof.
  intros I Hm D K C. destruct I as [_ G S N L H _]. cbn [fst snd] in *. split; cbn [fst snd slots current_gen stack_dirty_since_split]; auto.
  - now rewrite length_map.
  - now apply drops_nodup.
  - apply drops_le; auto. lia.
  - eapply drops_holds; eauto.
Qed.

Lemma cleared_inv st m m' dirty escaped : frame_inv (st, m) -> bytes_ok m' ->
  frame_inv (mkState (stack_kb_invalidate_all (slots st)) (current_gen st) escaped dirty, m').
Proof.
  intros I Hm. apply (dropped_inv st m m' (set_gen 0)); auto using drop_all.
  - intros s E _ G. rewrite <- E in G. cbn in G. pose proof (fi_gen _ I). cbn in *. lia.
  - intros _. apply invalidated_none. apply (fi_gen _ I).
Qed.

Lemma overwrite_spec g off k l :
  match overwrite_slot l g off k with
  | Some l' => map sk_off l' = map sk_off l /\
      (forall P : StackKB -> Prop, NoDup (map sk_off l) -> Forall (fun s => sk_off s <> off -> P s) l -> P (mkSlot off g k) -> Forall P l')
  | None => Forall (fun s => sk_off s <> off) l
  end.
Proof.
  induction l as [|s r IH]; cbn [overwrite_slot]; [constructor|]. destruct (Z.eqb_spec (sk_off s) off) as [E|E].
  - split; [cbn; now rewrite E|]. intros P N F H. constructor; [exact H|]. cbn in N. apply list.NoDup_cons in N as [N _].
    apply list.Forall_cons in F as [_ F]. rewrite list.Forall_forall in *. intros s' Hs'. apply F; auto. intros E'. apply N.
    rewrite E, <- E'. apply list_elem_of_In, in_map, list_elem_of_In, Hs'.
  - destruct (overwrite_slot r g off k) as [l'|]; cbn; [|constructor; auto]. destruct IH as [M IH]. split; [now rewrite M|].
    intros P N F H. apply list.NoDup_cons in N as [_ N]. apply list.Forall_cons in F as [F0 F]. constructor; auto.
Qed.

Lemma set_spec g off k l : NoDup (map sk_off l) -> Z.of_nat (length l) <= KB_MAX_STACK_SLOTS ->
  let l' := stack_kb_set l g off k in
  NoDup (map sk_off l') /\ Z.of_nat (length l') <= KB_MAX_STACK_SLOTS /\
  (forall P : StackKB -> Prop, Forall (fun s => sk_off s <> off -> P s) l -> P (mkSlot off g k) -> Forall P l').
Proof.
  intros N S. unfold stack_kb_set. pose proof (overwrite_spec g off k l) as O. destruct (overwrite_slot l g off k) as [l'|].
  - destruct O as [M O]. rewrite M. split; [auto|]. split; [rewrite <- (length_map sk_off l'), M, length_map; auto|auto].
  - assert (F : forall P : StackKB -> Prop, Forall (fun s => sk_off s <> off -> P s) l -> Forall P l).
    { intros P H. rewrite list.Forall_forall in *. intros s Hs. auto. }
    case Z.ltb_spec; intros C; [|split; [auto|]; split; auto]. split; [|split].
    + rewrite map_app. apply list.NoDup_app. split; [auto|]. split; [|apply list.NoDup_singleton].
      intros o Ho Ho'. cbn in Ho'. apply list_elem_of_singleton in Ho'. subst o. apply list_elem_of_In, in_map_iff in Ho as (s & E & Hs).
      rewrite list.Forall_forall in O. apply (O s); auto. now apply list_elem_of_In.
    + rewrite length_app. cbn. lia.
    + intros P H K. apply Forall_app. split; [auto|]. repeat constructor. exact K.
Qed.

Lemma untouched off width size s m v g : size <= width -> ((sk_off s <? off + width) && (off <? sk_off s + 4)) = false ->
  slot_holds g m s -> slot_holds g (store_bytes m off size v) s.
Proof. intros Hs H K G. rewrite load_other by (rewrite andb_false_iff, !Z.ltb_ge in H; lia). now apply K. Qed.

(** [kb_invalidate_overlapping_slots] before a store inside the range. *)
Lemma overlap_inv st m off width size v escaped : frame_inv (st, m) -> size <= width ->
  frame_inv (mkState (kb_invalidate_overlapping_slots (slots st) off width false) (current_gen st) escaped true, store_bytes m off size v).
Proof.
  intros I Hs. apply (dropped_inv st m); auto using drop_if, store_bytes_ok; [apply store_bytes_ok, (fi_bytes _ I) | | discriminate].
  cbn [negb orb andb]. intros s E H. destruct ((sk_off s <? off + width) && (off <? sk_off s + 4)) eqn:O; [|now apply (untouched off width)].
  intros G. apply (f_equal sk_gen) in E. cbn in E. pose proof (fi_gen _ I). cbn in *. lia.
Qed.

Lemma narrow_store_inv st m off bt src v escaped : frame_inv (st, m) ->
  (match bt with IROP_BTYPE_INT8 | IROP_BTYPE_INT16 | IROP_BTYPE_INT32 | IROP_BTYPE_FUNC => True | _ => False end) ->
  (forall k, src = Some k -> kb_ok k /\ known k v) ->
  let sl := kb_invalidate_overlapping_slots (slots st) off (store_size bt) true in
  frame_inv (mkState (match src with Some k => stack_kb_set sl (current_gen st) off (kb_apply_store_width bt k) | None => forget_slot sl off end)
    (current_gen st) escaped true, store_bytes m off (store_size bt) v).
Proof.
  intros I Hb Hs sl. pose proof I as [B G S N L H _]. cbn [fst snd] in *.
  set (g := current_gen st) in *. set (m' := store_bytes m off (store_size bt) v).
  assert (Bm : bytes_ok m') by now apply store_bytes_ok.
  set (f := fun s => if (negb true || negb (sk_off s =? off)) && (sk_off s <? off + store_size bt) && (off <? sk_off s + 4) then set_gen 0 s else s).
  assert (Df : drops f) by apply drop_if. change sl with (map f (slots st)).
  assert (K : Forall (fun s => sk_off s <> off -> slot_holds g m' s) (map f (slots st))).
  { rewrite Forall_map. eapply List.Forall_impl; [|exact H]. intros s Hh No. rewrite (proj1 (Df s)) in No. unfold f. cbn [negb orb].
    destruct (Z.eqb_spec (sk_off s) off) as [|Ne]; [contradiction|]. cbn [negb andb].
    destruct ((sk_off s <? off + store_size bt) && (off <? sk_off s + 4)) eqn:O; [intros C; cbn in C; lia|now apply (untouched off (store_size bt))]. }
  assert (Nf : NoDup (map sk_off (map f (slots st)))) by now apply drops_nodup.
  assert (Lf : Forall (fun s => sk_gen s <= g) (map f (slots st))) by (apply drops_le; auto; lia).
  destruct src as [k|].
  - destruct (Hs k eq_refl) as [Ok Kv]. destruct (set_spec g off (kb_apply_store_width bt k) (map f (slots st)) Nf) as (N' & S' & P'); [now rewrite length_map|].
    split; cbn [fst snd slots current_gen stack_dirty_since_split]; auto using store_bytes_ok; try discriminate.
    + apply P'; [|cbn; lia]. eapply List.Forall_impl; [|exact Lf]. auto.
    + apply P'; [exact K|]. intros _. cbn [sk_kb sk_off]. split; [|now apply load_stored].
      destruct Ok. unfold kb_apply_store_width. split; cbn [kz ko]; rewrite Z.land_comm; now apply land_bound32.
  - set (h := fun s => if sk_off s =? off then set_gen 0 s else s). change (forget_slot (map f (slots st)) off) with (map h (map f (slots st))).
    assert (Dh : drops h) by apply drop_if. split; cbn [fst snd slots current_gen stack_dirty_since_split]; auto using store_bytes_ok; try discriminate.
    + now rewrite !length_map.
    + now apply drops_nodup.
    + apply drops_le; auto. lia.
    + rewrite Forall_map. eapply List.Forall_impl; [|exact K]. intros s Hh. unfold h. destruct (Z.eqb_spec (sk_off s) off); [intros C; cbn in C; lia|auto].
Qed.

Lemma block_start_forgets st m backedge : frame_inv (st, m) -> Forall (fun s => sk_gen s <> current_gen st + 1) (slots (kb_block_start backedge st)).
Proof.
  intros I. pose proof (fi_gen _ I) as G. pose proof (fi_le _ I) as L. cbn [fst snd] in *. unfold kb_block_start. cbn [slots].
  destruct (stack_dirty_since_split st) eqn:D; [apply invalidated_none; lia|]. destruct backedge; [apply invalidated_none; lia|]. cbn [orb].
  pose proof (fi_clean _ I D) as C. cbn [fst] in C. unfold stack_kb_rebase_gen. rewrite Forall_map. rewrite list.Forall_forall in *. intros s Hs.
  specialize (C s Hs). specialize (L s Hs). cbv beta in *. destruct (Z.eqb_spec (sk_gen s) (current_gen st)); [contradiction|lia].
Qed.

Lemma block_start_inv st m m' backedge : frame_inv (st, m) -> bytes_ok m' -> frame_inv (kb_block_start backedge st, m').
Proof.
  intros I Hm. pose proof (block_start_forgets st m backedge I) as F. pose proof I as [_ G S N L _ _]. cbn [fst snd] in *.
  assert (Off : map sk_off (slots (kb_block_start backedge st)) = map sk_off (slots st)).
  { unfold kb_block_start, stack_kb_invalidate_all, stack_kb_rebase_gen. cbn [slots]. destruct (_ || _); rewrite map_map; apply map_ext; intros s; auto. now destruct (_ =? _). }
  split; cbn [fst snd]; auto.
  - unfold kb_block_start. cbn. lia.
  - rewrite <- (length_map sk_off), Off, length_map. exact S.
  - now rewrite Off.
  - unfold kb_block_start, stack_kb_invalidate_all, stack_kb_rebase_gen in *. cbn [slots current_gen] in *.
    destruct (_ || _); rewrite Forall_map; rewrite list.Forall_forall in *; intros s Hs; specialize (L s Hs); cbv beta in *; [cbn; lia|].
    destruct (_ =? _); cbn; lia.
  - eapply List.Forall_impl; [|exact F]. intros s Hs E. cbn in E. contradiction.
Qed.

Lemma frame_step_inv c c' : frame_step c c' -> frame_inv c -> frame_inv c'.
Proof.
  intros St I. inversion St; subst; clear St.
  - now apply (block_start_inv st m).
  - unfold kb_store. destruct bt; try congruence; cbv zeta; cbn [store_size].
    1,5-7: apply narrow_store_inv; auto. all: apply (overlap_inv st m off _ _ v); auto; reflexivity.
  - unfold kb_store. destruct off; [|now apply (cleared_inv st m)]. destruct H0 as [?| ->]; [discriminate|]. now apply (cleared_inv st m).
  - now apply (overlap_inv st m off _ _ v).
  - now apply (cleared_inv st m).
  - unfold kb_call. destruct (stack_addr_escaped st || exposes) eqn:E; [now apply (cleared_inv st m)|]. now rewrite H0.
  - now apply (cleared_inv st m).
Qed.

Lemma begin_inv m : bytes_ok m -> frame_inv (kb_begin, m).
Proof. intros Hm. split; [exact Hm | cbn; lia | cbn; unfold KB_MAX_STACK_SLOTS; lia | apply NoDup_nil_2 | constructor | constructor | intros _; constructor]. Qed.

Lemma reachable_inv m c : bytes_ok m -> rtc frame_step (kb_begin, m) c -> frame_inv c.
Proof. intros Hm H. pose proof (begin_inv m Hm) as I. induction H; auto. apply IHrtc. eapply frame_step_inv; eauto. Qed.

Lemma lookup_holds st m off k : frame_inv (st, m) -> stack_kb_lookup (slots st) (current_gen st) off = Some k -> kb_ok k /\ known k (frame_word m off).
Proof.
  intros I H. unfold stack_kb_lookup in H. destruct (find _ (slots st)) as [s|] eqn:F; [|discriminate H]. injection H as <-.
  apply find_some in F as [Hin E]. rewrite andb_true_iff, !Z.eqb_eq in E. destruct E as [Eg <-].
  pose proof (fi_holds _ I) as A. cbn [fst snd] in A. rewrite list.Forall_forall in A. apply A; [now apply list_elem_of_In|exact Eg].
Qed.

Lemma load_word_bound m off : bytes_ok m -> 0 <= frame_word m off < 2 ^ 32.
Proof.
  intros H. unfold frame_word. rewrite !Z.shiftl_mul_pow2 by lia.
  pose proof (H off). pose proof (H (off + 1)). pose proof (H (off + 2)). pose proof (H (off + 3)). repeat (apply lor_bound; [lia| |]); lia.
Qed.

(** C8: whatever sequence of blocks, stores, indexed stores, calls and barriers the pass has
    seen, as long as an indexed store to a known offset writes no more bytes than the pass
    counts for the type of its value (the pass takes a structure for four bytes, and a
    larger one stored so would leave stale entries) and a call reaches the frame only when
    an address of it has escaped, an entry it finds for a frame offset holds of the word
    there, a constant it reads is that word, and a narrow load of the word has the bits that
    the widened entry says. At the start of a block it knows nothing, so that the facts of
    another predecessor cannot be wrong; the table never has two entries for an offset nor
    more than 64 of them. *)
Theorem kb_slots_sound (m0 : frame) (st : KBState) (m : frame) (Hm : bytes_ok m0) (R : rtc frame_step (kb_begin, m0) (st, m)) :
  (forall off k bt uns, stack_kb_lookup (slots st) (current_gen st) off = Some k ->
     known k (frame_word m off) /\ known (kb_apply_load_width bt uns k) (load_value bt uns (frame_word m off))) /\
  (forall off v, stack_kb_const32 (slots st) (current_gen st) off = Some v -> frame_word m off = v) /\
  (forall backedge off, let st' := kb_block_start backedge st in stack_kb_lookup (slots st') (current_gen st') off = None) /\
  NoDup (map sk_off (slots st)) /\ Z.of_nat (length (slots st)) <= KB_MAX_STACK_SLOTS.
Proof.
  pose proof (reachable_inv m0 (st, m) Hm R) as I. split; [|split; [|split; [|split]]].
  - intros off k bt uns L. destruct (lookup_holds st m off k I L) as [_ K]. split; [exact K|]. now apply load_width_sound.
  - intros off v. unfold stack_kb_const32. destruct (stack_kb_lookup _ _ off) as [k|] eqn:L; [|discriminate].
    destruct (lookup_holds st m off k I L) as [[_ Ok] K]. destruct (_ =? _) eqn:F; [|discriminate]. intros E. injection E as <-.
    pose proof (fully_known_value k _ F K) as E. unfold same_residue in E. rewrite !Z.mod_small in E by (auto; apply load_word_bound, (fi_bytes _ I)). exact E.
  - intros backedge off. cbv zeta. pose proof (block_start_forgets st m backedge I) as F. unfold stack_kb_lookup.
    destruct (find _ _) as [s|] eqn:E; [|reflexivity]. apply find_some in E as [Hin E]. rewrite andb_true_iff, !Z.eqb_eq in E. destruct E as [E _].
    rewrite list.Forall_forall in F. exfalso. apply (F s); [now apply list_elem_of_In|exact E].
  - apply (fi_nodup _ I).
  - apply (fi_size _ I).
Qed.

Lemma kb_slots_sound_witness : exists st m, rtc frame_step (kb_begin, fun _ => 0) (st, m) /\
  slots st = [mkSlot 8 1 (mkKB 0x5555 0)] /\ frame_word m 8 = 0xAAAA /\ known (kb_apply_load_width IROP_BTYPE_INT8 true (mkKB 0x5555 0)) 0xAA.
Proof.
  set (k := mkKB 0x5555 0). set (m := store_bytes (fun _ => 0) 8 4 0xAAAA).
  exists (kb_store (Some 8) IROP_BTYPE_INT32 (Some k) false kb_begin), m.
  assert (B : bytes_ok (fun _ => 0)) by (intros a; lia).
  assert (S : frame_step (kb_begin, fun _ => 0) (kb_store (Some 8) IROP_BTYPE_INT32 (Some k) false kb_begin, m)).
  { apply (fs_store kb_begin (fun _ => 0) 8 IROP_BTYPE_INT32 (Some k) false 0xAAAA); [|discriminate]. intros k' E. apply (inj Some) in E. subst k'.
    split; [split; cbn; lia|]. intros i Hi. assert (C : Z.land 0x5555 0xAAAA = 0) by reflexivity.
    apply (f_equal (fun z => Z.testbit z i)) in C. rewrite Z.land_spec, Z.bits_0 in C. cbn [kz ko k]. rewrite Z.bits_0.
    split; [intros H; now rewrite H in C|discriminate]. }
  assert (R := rtc_once _ _ S). split; [exact R|]. split; [reflexivity|]. split; [reflexivity|].
  destruct (kb_slots_sound (fun _ => 0) _ m B R) as [H _]. apply (H 8 k IROP_BTYPE_INT8 true). reflexivity.
Defined.

(** ** Decided branches *)

Lemma known_one_nonzero k x : kb_ok k -> known k x -> truth (ko k) = true -> x mod 2 ^ 32 <> 0.
Proof.
  intros [_ Ho] K T E. unfold truth in T. apply negb_true_iff, Z.eqb_neq in T. apply T. apply Z.bits_inj'. intros i Hi. rewrite Z.bits_0.
  destruct (Z.lt_ge_cases i 32) as [L|L]; [|now apply above_32]. destruct (K i ltac:(lia)) as [_ A]. destruct (Z.testbit (ko k) i); [|reflexivity].
  specialize (A eq_refl). rewrite <- (Z.mod_pow2_bits_low x 32 i) in A by lia. rewrite E, Z.bits_0 in A. discriminate A.
Qed.

Lemma sign_known k x : known k x ->
  (truth ((ko k >>> 31) &&& 1) = true -> sint 32 x < 0) /\ (truth ((kz k >>> 31) &&& 1) = true -> 0 <= sint 32 x).
Proof.
  intros K. destruct (K 31 ltac:(lia)) as [Kz Ko]. rewrite !bit_of by lia. pose proof (signed_testbit x 31 ltac:(lia)) as B. change (Z.min 31 31) with 31 in B.
  rewrite <- B in *. pose proof (signed_bound 32 x ltac:(lia)) as R.
  assert (S : Z.testbit (sint 32 x) 31 = (sint 32 x <? 0)).
  { rewrite Z.testbit_odd, Z.shiftr_div_pow2 by lia. case Z.ltb_spec; intros L.
    - replace (sint 32 x / 2 ^ 31) with (-1) by (apply (Z.div_unique _ _ _ (sint 32 x + 2 ^ 31)); lia). reflexivity.
    - now rewrite Z.div_small by lia. }
  rewrite S, Z.ltb_lt, Z.ltb_ge in *.
  split; intros H; [apply Ko; destruct (Z.testbit (ko k) 31) | apply Kz; destruct (Z.testbit (kz k) 31)]; auto; discriminate H.
Qed.

Lemma nonzero_signed x : sint 32 x = 0 <-> x mod 2 ^ 32 = 0.
Proof.
  pose proof (signed_residue 32 x) as E. unfold same_residue in E. pose proof (signed_bound 32 x ltac:(lia)) as B.
  split; intros H; [rewrite <- E, H; reflexivity|]. rewrite H in E. destruct (Z.lt_ge_cases (sint 32 x) 0); [|rewrite Z.mod_small in E; lia].
  rewrite <- (Z.mod_unique_pos (sint 32 x) (2 ^ 32) (-1) (sint 32 x + 2 ^ 32)) in E; lia.
Qed.

Lemma contradicts k x c : kb_ok k -> known k x -> 0 <= c < 2 ^ 32 ->
  truth (ko k &&& ~~~ c) || truth (kz k &&& c) = true -> x mod 2 ^ 32 <> c.
Proof.
  intros [Hz Ho] K Hc T E. apply orb_true_iff in T. unfold truth in T. rewrite !negb_true_iff, !Z.eqb_neq in T.
  destruct T as [T|T]; apply T; apply Z.bits_inj'; intros i Hi; rewrite Z.land_spec, Z.bits_0;
    (destruct (Z.lt_ge_cases i 32) as [L|L]; [|now rewrite above_32]);
    destruct (K i ltac:(lia)) as [A B]; rewrite <- (Z.mod_pow2_bits_low x 32 i), E in A, B by lia.
  - rewrite not32_bit by lia. destruct (Z.testbit (ko k) i); [now rewrite B|reflexivity].
  - destruct (Z.testbit (kz k) i); [now rewrite A|reflexivity].
Qed.

(** C29: a branch that known bits decide goes where the comparison sends it: the
    sign fold of [CMP x, #0] for each of the tokens it handles, the contradicted
    equality of [CMP x, #c], and the zero test. *)
Theorem kb_branch_sound (k : KB) (x c tok : Z) (taken : bool) (Hk : kb_ok k) (K : known k x) (Hc : 0 <= c < 2 ^ 32) :
  (kb_cmp_fold_sign_branch k tok = Some taken -> tok_holds 32 false tok x 0 = Some taken) /\
  (kb_cmp_fold_const_eq_neq k c tok = Some taken -> tok_holds 32 false tok x c = Some taken) /\
  (kb_test_zero k tok = Some taken -> tok_holds 32 false tok x 0 = Some taken).
Proof.
  destruct (sign_known k x K) as [Neg Pos]. pose proof (known_one_nonzero k x Hk K) as NZ. pose proof (nonzero_signed x) as Z0.
  split; [|split].
  - unfold kb_cmp_fold_sign_branch, kb_cmp_sign_branch_taken, tok_holds. change (sint 32 0) with 0. change (0 mod 2 ^ 32) with 0.
    destruct (truth ((ko k >>> 31) &&& 1)); [|destruct (truth ((kz k >>> 31) &&& 1)); [destruct (truth (ko k))|]]; cbn [andb]; try discriminate;
      try specialize (Neg eq_refl); try specialize (Pos eq_refl); try specialize (NZ eq_refl);
      tok_cases tok; intros E; try discriminate E; rewrite <- E; f_equal; cmp_lia.
  - unfold kb_cmp_fold_const_eq_neq, tok_holds. pose proof (contradicts k x c Hk K Hc) as N. rewrite (Z.mod_small c) by auto.
    destruct (c =? 0); [discriminate|]. destruct (_ || _); [|discriminate]. specialize (N eq_refl). cbn [negb].
    tok_cases tok; intros E; try discriminate E; rewrite <- E; f_equal; cmp_lia.
  - unfold kb_test_zero, tok_holds. destruct (truth (ko k)); [|discriminate]. specialize (NZ eq_refl). change (0 mod 2 ^ 32) with 0.
    tok_cases tok; intros E; try discriminate E; rewrite <- E; f_equal; cmp_lia.
Qed.

Lemma kb_branch_sound_witness :
  kb_cmp_fold_sign_branch (mkKB 0 0x80000001) TOK_LT = Some true /\ tok_holds 32 false TOK_LT 0x80000003 0 = Some true.
Proof.
  assert (E : kb_cmp_fold_sign_branch (mkKB 0 0x80000001) TOK_LT = Some true) by reflexivity. split; [exact E|].
  refine (proj1 (kb_branch_sound (mkKB 0 0x80000001) 0x80000003 0 TOK_LT true _ _ _) E); [split; cbn; lia | | lia].
  intros i Hi. assert (C : Z.land 0x80000001 0x80000003 = 0x80000001) by reflexivity. apply (f_equal (fun z => Z.testbit z i)) in C.
  rewrite Z.land_spec in C. cbn [kz ko]. rewrite Z.bits_0. split; [discriminate|]. intros H. now rewrite H in C.
Defined.
