(* ===== verification/BitSet.v ===== *)
(** * Bit sets and small sequences

    [memory/include/memory/]: [bitspan.h], the kernels on runs of 64-bit words;
    [bit_matrix.h], a matrix whose rows are such runs; [dynamic_bitset.h] and
    [small_sequence.h], buffers that live in the object while they are small and in
    one allocation otherwise. *)

From S2P Require Import Prelude.
From stdpp Require Import list gmap list_numbers relations.
Local Open Scope Z_scope.
Local Open Scope c_scope.

(** ** Spans *)

(** [for (i = 0; i < n; i++) words[i] = f(i, words[i]);] *)
Definition each_word (n : Z) (f : Z -> Z -> Z) (words : list Z) : list Z :=
  fold_left (fun ws i => set_int ws i (f i (int_at ws i))) (seqZ 0 n) words.

Definition tcc_bitspan_zero (words : list Z) (n : Z) : list Z := each_word n (fun _ _ => 0) words.

Definition tcc_bitspan_copy (destination source : list Z) (n : Z) : list Z :=
  each_word n (fun i _ => int_at source i) destination.

Definition tcc_bitspan_or (destination source : list Z) (n : Z) : list Z :=
  each_word n (fun i w => w ||| int_at source i) destination.

(** The flag and the words. *)
Definition tcc_bitspan_or_andnot (destination gen inn kill : list Z) (n : Z) : bool * list Z :=
  fold_left (fun st i =>
    let value := int_at gen i ||| (int_at inn i &&& u64 (Z.lnot (int_at kill i))) in
    if value =? int_at (snd st) i then st else (true, set_int (snd st) i value)) (seqZ 0 n) (false, destination).

(** [__builtin_popcountll]. *)
Definition popcount64 (x : Z) : Z := Z.of_nat (length (filter (fun b => Z.testbit x b = true) (seqZ 0 64))).

Definition tcc_bitspan_and_popcount (a b : list Z) (n : Z) : Z :=
  fold_left (fun count i => count + popcount64 (int_at a i &&& int_at b i)) (seqZ 0 n) 0.

Definition tcc_bitspan_set (words : list Z) (bit : Z) : list Z :=
  set_int words (bit >>> 6) (int_at words (bit >>> 6) ||| Z.shiftl 1 (bit &&& 63)).

Definition tcc_bitspan_reset (words : list Z) (bit : Z) : list Z :=
  set_int words (bit >>> 6) (int_at words (bit >>> 6) &&& u64 (Z.lnot (Z.shiftl 1 (bit &&& 63)))).

Definition tcc_bitspan_test (words : list Z) (bit : Z) : Z := (int_at words (bit >>> 6) >>> (bit &&& 63)) &&& 1.

Definition tcc_bitspan_ctz64 (bits : Z) : Z :=
  let lo := u32 bits in
  if truth lo then ctz32 lo else 32 + ctz32 (u32 (bits >>> 32)).

(** The two inner loops of [tcc_bitspan_for_each_set]: the indices for which the
    body runs. [base] is the word's first index and [limit] the bound, both already
    converted to [int]. *)
Fixpoint word_bits (fuel : nat) (base bits limit : Z) : list Z :=
  match fuel with
  | O => []
  | S fuel =>
      if truth bits then
        let idx := base + tcc_bitspan_ctz64 bits in
        (if idx <? limit then [idx] else []) ++ word_bits fuel base (bits &&& (bits - 1)) limit
      else []
  end.

Definition tcc_bitspan_for_each_set (words : list Z) (n limit : Z) : list Z :=
  concat (map (fun w => word_bits 64 (s32 (Z.shiftl w 6)) (int_at words w) (s32 limit)) (seqZ 0 n)).

(** ** What a span is: a set of bit indices *)

Definition words_ok (ws : list Z) : Prop := Forall (fun w => 0 <= w < 2 ^ 64) ws.
Definition span_bit (ws : list Z) (b : Z) : bool := Z.testbit (int_at ws (b / 64)) (b mod 64).
Definition spans (ws : list Z) (n : Z) : Prop := 0 <= n <= Z.of_nat (length ws).

Lemma word_index b : b >>> 6 = b / 64.
Proof. now rewrite Z.shiftr_div_pow2. Qed.
Lemma bit_index b : b &&& 63 = b mod 64.
Proof. change 63 with (Z.ones 6). now rewrite Z.land_ones. Qed.

Lemma word_at_ok ws i : words_ok ws -> 0 <= int_at ws i < 2 ^ 64.
Proof. intros H. unfold int_at. destruct (ws !! Z.to_nat i) eqn:E; cbn; [|lia]. unfold words_ok in H. rewrite Forall_lookup in H. exact (H _ _ E). Qed.

Lemma each_word_at f n : 0 <= n -> forall ws i, spans ws n -> 0 <= i ->
  int_at (each_word n f ws) i = (if i <? n then f i (int_at ws i) else int_at ws i) /\ length (each_word n f ws) = length ws.
Proof.
  intros Hn. pattern n. apply natlike_ind; [| |exact Hn].
  - intros ws i _ Hi. unfold each_word. rewrite seqZ_nil by lia. cbn. case Z.ltb_spec; [lia|auto].
  - intros k Hk IH ws i [_ Hc] Hi. unfold each_word in *. rewrite <- Z.add_1_r, seqZ_app, fold_left_app by lia.
    rewrite (seqZ_cons (0 + k)) by lia. rewrite (seqZ_nil (Z.succ _)) by lia. cbn [fold_left]. rewrite Z.add_0_l.
    destruct (IH ws i ltac:(split; lia) Hi) as [Ei El]. destruct (IH ws k ltac:(split; lia) Hk) as [Ek _].
    rewrite set_int_length. split; [|exact El]. destruct (Z.eq_dec i k) as [->|N].
    + rewrite int_at_set by lia. rewrite Ek. rewrite (proj2 (Z.ltb_ge k k)), (proj2 (Z.ltb_lt k (k + 1))) by lia. reflexivity.
    + rewrite int_at_set_ne by lia. rewrite Ei. repeat case Z.ltb_spec; intros; try lia; reflexivity.
Qed.

Lemma each_word_bit f n ws b : spans ws n -> 0 <= b ->
  span_bit (each_word n f ws) b = if b <? 64 * n then Z.testbit (f (b / 64) (int_at ws (b / 64))) (b mod 64) else span_bit ws b.
Proof.
  intros Hc Hb. unfold span_bit. destruct (each_word_at f n (proj1 Hc) ws (b / 64) Hc ltac:(apply Z.div_pos; lia)) as [-> _].
  pose proof (Z.div_mod b 64 ltac:(lia)). pose proof (Z.mod_pos_bound b 64 ltac:(lia)).
  repeat case Z.ltb_spec; intros; try lia; reflexivity.
Qed.

Lemma andnot_testbit x y i : 0 <= x < 2 ^ 64 -> 0 <= i < 64 -> Z.testbit (x &&& u64 (Z.lnot y)) i = Z.testbit x i && negb (Z.testbit y i).
Proof.
  intros Hx Hi. unfold u64. rewrite !Z.land_spec, Z.lnot_spec, Z.testbit_ones_nonneg by lia.
  rewrite (proj2 (Z.ltb_lt i 64)) by lia. now rewrite andb_true_r.
Qed.

Lemma word_ext x y : 0 <= x < 2 ^ 64 -> 0 <= y < 2 ^ 64 -> (forall i, 0 <= i < 64 -> Z.testbit x i = Z.testbit y i) -> x = y.
Proof.
  intros Hx Hy H. apply Z.bits_inj'. intros i Hi. destruct (Z.lt_ge_cases i 64); [auto|]. now rewrite !(testbit_above 64) by (lia || auto).
Qed.

Lemma seqZ_last n : 0 <= n -> seqZ 0 (n + 1) = seqZ 0 n ++ [n].
Proof. intros H. rewrite seqZ_app by lia. f_equal. Qed.

Lemma set_same ws i : 0 <= i < Z.of_nat (length ws) -> set_int ws i (int_at ws i) = ws.
Proof.
  intros H. unfold set_int, int_at. destruct (lookup_lt_is_Some_2 ws (Z.to_nat i) ltac:(lia)) as [x E]. rewrite E. cbn. now apply list_insert_id.
Qed.

Definition andnot_value (gen inn kill : list Z) (i : Z) : Z := int_at gen i ||| (int_at inn i &&& u64 (Z.lnot (int_at kill i))).

Lemma or_andnot_loop d gen inn kill n : 0 <= n -> spans d n ->
  tcc_bitspan_or_andnot d gen inn kill n =
  (existsb (fun i => negb (andnot_value gen inn kill i =? int_at d i)) (seqZ 0 n), each_word n (fun i _ => andnot_value gen inn kill i) d).
Proof.
  intros Hn. pattern n. apply natlike_ind; [intros _; unfold tcc_bitspan_or_andnot, each_word; now rewrite seqZ_nil by lia| |exact Hn].
  intros k Hk IH Hc. unfold spans in *. unfold tcc_bitspan_or_andnot in *. rewrite <- Z.add_1_r, seqZ_last, fold_left_app, IH by lia.
  cbn [fold_left snd]. rewrite existsb_app. cbn [existsb]. rewrite orb_false_r.
  fold (andnot_value gen inn kill k).
  pose proof (each_word_at (fun i _ => andnot_value gen inn kill i) k Hk d k ltac:(split; lia) Hk) as [E L].
  rewrite E, (proj2 (Z.ltb_ge k k)) by lia.
  assert (N : each_word (k + 1) (fun i _ => andnot_value gen inn kill i) d = set_int (each_word k (fun i _ => andnot_value gen inn kill i) d) k (andnot_value gen inn kill k)).
  { unfold each_word. now rewrite seqZ_last, fold_left_app by lia. }
  rewrite N. rewrite (proj2 (Z.ltb_ge k k)) in E by lia.
  case Z.eqb_spec; intros C; cbn [negb]; rewrite ?orb_false_r, ?orb_true_r; [|reflexivity].
  f_equal. rewrite C, <- E. symmetry. apply set_same. lia.
Qed.

Lemma andnot_bound gen inn kill i : words_ok gen -> words_ok inn -> 0 <= andnot_value gen inn kill i < 2 ^ 64.
Proof.
  intros Hg Hi. apply lor_bound; [lia|now apply word_at_ok|]. pose proof (land_ones_bound 64 (int_at inn i &&& Z.lnot (int_at kill i)) ltac:(lia)) as B.
  unfold u64. rewrite Z.land_assoc. exact B.
Qed.

Lemma split_index b : b / 64 * 64 <= b < b / 64 * 64 + 64 /\ 0 <= b mod 64 < 64 /\ b = 64 * (b / 64) + b mod 64.
Proof. pose proof (Z.div_mod b 64 ltac:(lia)). pose proof (Z.mod_pos_bound b 64 ltac:(lia)). lia. Qed.

Lemma join_index w i : 0 <= i < 64 -> (64 * w + i) / 64 = w /\ (64 * w + i) mod 64 = i.
Proof. intros H. split; [symmetry; apply (Z.div_unique_pos _ _ _ i)|symmetry; apply (Z.mod_unique_pos _ _ w)]; lia. Qed.

(** The flag is set exactly when a bit changes. *)
Lemma or_andnot_changed d gen inn kill n : spans d n -> words_ok d -> words_ok gen -> words_ok inn ->
  fst (tcc_bitspan_or_andnot d gen inn kill n) = true <->
  exists b, 0 <= b < 64 * n /\ span_bit d b <> span_bit gen b || (span_bit inn b && negb (span_bit kill b)).
Proof.
  intros Hc Hd Hg Hi. rewrite or_andnot_loop by (auto; apply Hc). cbn [fst]. rewrite existsb_exists.
  assert (V : forall b, 0 <= b -> Z.testbit (andnot_value gen inn kill (b / 64)) (b mod 64) = span_bit gen b || (span_bit inn b && negb (span_bit kill b))).
  { intros b Hb. destruct (split_index b) as (_ & Hm & _). unfold andnot_value. rewrite Z.lor_spec, andnot_testbit by (auto using word_at_ok). reflexivity. }
  split.
  - intros (w & Hw & N). rewrite <- list_elem_of_In, elem_of_seqZ in Hw. rewrite negb_true_iff, Z.eqb_neq in N.
    destruct (decide (Forall (fun i => Z.testbit (andnot_value gen inn kill w) i = Z.testbit (int_at d w) i) (seqZ 0 64))) as [A|A].
    + exfalso. apply N, word_ext; [now apply andnot_bound|now apply word_at_ok|]. rewrite list.Forall_forall in A. intros i Hi'. apply A. rewrite elem_of_seqZ. lia.
    + apply not_Forall_Exists in A; [|solve_decision]. rewrite Exists_exists in A. destruct A as (i & Hin & D). rewrite elem_of_seqZ in Hin. cbv beta in D.
      exists (64 * w + i). destruct (join_index w i ltac:(lia)) as [E1 E2]. split; [lia|]. rewrite <- V by lia. unfold span_bit. rewrite E1, E2. congruence.
  - intros (b & Hb & N). exists (b / 64). destruct (split_index b) as (B & _ & _). split; [rewrite <- list_elem_of_In, elem_of_seqZ; lia|].
    rewrite negb_true_iff, Z.eqb_neq. intros E. apply N. rewrite <- V by lia. unfold span_bit. now rewrite E.
Qed.

(** ** Members in order *)

(** The lowest set bit [c] of [x], and what [x & (x - 1)] leaves. *)
Definition lowest_set (x c : Z) : Prop := 0 <= c /\ exists m, 0 <= m /\ x = (2 * m + 1) * 2 ^ c.

Lemma lowest_bits x c i : lowest_set x c -> 0 <= i <= c -> Z.testbit x i = (i =? c).
Proof.
  intros (Hc & m & Hm & ->) Hi. rewrite Z.mul_pow2_bits by lia. case Z.eqb_spec; intros C.
  - subst i. rewrite Z.sub_diag. apply Z.testbit_odd_0.
  - apply Z.testbit_neg_r. lia.
Qed.

Lemma clear_lowest x c i : lowest_set x c -> 0 <= i -> Z.testbit (x &&& (x - 1)) i = Z.testbit x i && negb (i =? c).
Proof.
  intros (Hc & m & Hm & E) Hi. rewrite Z.land_spec. destruct (Z.lt_total i c) as [L|[->|G]].
  - rewrite (lowest_bits x c i) by (lia || (split; eauto)). case Z.eqb_spec; [lia|reflexivity].
  - rewrite Z.eqb_refl. f_equal. replace (x - 1) with (2 * m * 2 ^ c + (2 ^ c - 1)) by lia.
    pose proof (Z.pow_pos_nonneg 2 c ltac:(lia) Hc).
    rewrite Z.testbit_odd, Z.shiftr_div_pow2 by lia. rewrite Z.div_add_l, (Z.div_small (2 ^ c - 1)), Z.add_0_r by lia. rewrite Z.odd_mul. reflexivity.
  - rewrite (proj2 (Z.eqb_neq i c)) by lia. cbn [negb]. rewrite andb_true_r.
    assert (D : (x - 1) / 2 ^ (c + 1) = x / 2 ^ (c + 1)).
    { pose proof (Z.pow_pos_nonneg 2 c ltac:(lia) Hc). rewrite Z.pow_add_r by lia. change (2 ^ 1) with 2.
      transitivity m; [symmetry; apply (Z.div_unique_pos _ _ _ (2 ^ c - 1)) | apply (Z.div_unique_pos _ _ _ (2 ^ c))]; lia. }
    replace i with ((i - (c + 1)) + (c + 1)) by lia. rewrite <- !Z.div_pow2_bits, D by lia. apply andb_diag.
Qed.

Lemma ctz64_lowest x : 0 < x < 2 ^ 64 -> lowest_set x (tcc_bitspan_ctz64 x) /\ tcc_bitspan_ctz64 x < 64.
Proof.
  intros Hx. assert (L : lowest_set x (tcc_bitspan_ctz64 x)).
  { unfold tcc_bitspan_ctz64. rewrite Z.shiftr_div_pow2, !u32_mod by lia. pose proof (Z.div_mod x (2 ^ 32) ltac:(lia)) as D.
    pose proof (Z.mod_pos_bound x (2 ^ 32) ltac:(lia)) as B. rewrite (Z.mod_small (x / 2 ^ 32)) by (split; [apply Z.div_pos|apply Z.div_lt_upper_bound]; lia).
    destruct (truth (x mod 2 ^ 32)) eqn:T.
    - apply truth_true in T. destruct (ctz_odd (x mod 2 ^ 32) ltac:(lia)) as (Hc & m & E). split; [exact Hc|].
      set (c := ctz32 _) in *. pose proof (Z.pow_pos_nonneg 2 c ltac:(lia) Hc). assert (Hm : 0 <= m) by nia.
      assert (c < 32) by (apply (Z.pow_lt_mono_r_iff 2); nia).
      exists (x / 2 ^ 32 * 2 ^ (31 - c) + m). split; [apply Z.add_nonneg_nonneg; [apply Z.mul_nonneg_nonneg; [apply Z.div_pos; lia|apply Z.pow_nonneg; lia]|lia]|].
      rewrite D at 1. rewrite E at 1. replace (2 ^ 32) with (2 * 2 ^ (31 - c) * 2 ^ c) at 1; [lia|].
      rewrite <- Z.mul_assoc, <- Z.pow_add_r by lia. replace (31 - c + c) with 31 by lia. reflexivity.
    - apply truth_false in T. rewrite T, Z.add_0_r in D. destruct (ctz_odd (x / 2 ^ 32) ltac:(lia)) as (Hc & m & E). split; [lia|].
      set (c := ctz32 _) in *. pose proof (Z.pow_pos_nonneg 2 c ltac:(lia) Hc). exists m. split; [nia|]. rewrite Z.pow_add_r by lia. rewrite D, E. lia. }
  split; [exact L|]. destruct (Z.lt_ge_cases (tcc_bitspan_ctz64 x) 64) as [|G]; [auto|]. exfalso.
  pose proof (lowest_bits x _ (tcc_bitspan_ctz64 x) L ltac:(destruct L; lia)) as T. rewrite Z.eqb_refl, (testbit_above 64) in T by lia. discriminate T.
Qed.

(** The members of a word from bit [k] on. *)
Definition word_members (x k : Z) : list Z := filter (fun i => Z.testbit x i = true) (seqZ k (64 - k)).

Lemma filter_none {A} (P : A -> Prop) (DP : forall x, Decision (P x)) l : Forall (fun x => ~ P x) l -> filter P l = [].
Proof. induction 1 as [|x l H _ IH]; [reflexivity|]. now rewrite filter_cons_False. Qed.

Lemma filter_same {A} (P Q : A -> Prop) (DP : forall x, Decision (P x)) (DQ : forall x, Decision (Q x)) l : Forall (fun x => P x <-> Q x) l -> filter P l = filter Q l.
Proof.
  induction 1 as [|x l H _ IH]; [reflexivity|]. destruct (decide (P x)) as [D|D].
  - rewrite !filter_cons_True, IH; tauto.
  - rewrite !filter_cons_False, IH; tauto.
Qed.

Lemma members_step x c k : lowest_set x c -> 0 <= k <= c -> c < 64 -> word_members x k = c :: word_members (x &&& (x - 1)) (c + 1).
Proof.
  intros L Hk Hc. unfold word_members. replace (64 - k) with ((c - k) + (1 + (64 - (c + 1)))) by lia.
  rewrite seqZ_app, filter_app by lia. rewrite filter_none, app_nil_l.
  - rewrite seqZ_app by lia. replace (k + (c - k)) with c by lia. change (seqZ c 1) with [Z.add 0 c]. rewrite Z.add_0_l. cbn [app].
    rewrite filter_cons_True by (now rewrite (lowest_bits x c c L), Z.eqb_refl by lia). f_equal.
    apply filter_same, list.Forall_forall. intros i Hi. rewrite elem_of_seqZ in Hi. rewrite (clear_lowest x c i L) by lia.
    rewrite (proj2 (Z.eqb_neq i c)) by lia. cbn [negb]. now rewrite andb_true_r.
  - apply list.Forall_forall. intros i Hi. rewrite elem_of_seqZ in Hi. rewrite (lowest_bits x c i L) by lia. rewrite (proj2 (Z.eqb_neq i c)) by lia. discriminate.
Qed.

Lemma land_word x y : 0 <= x < 2 ^ 64 -> 0 <= x &&& y < 2 ^ 64.
Proof.
  intros Hx. rewrite <- (Z.mod_small x (2 ^ 64)), <- Z.land_ones by lia. rewrite <- Z.land_assoc, (Z.land_comm _ y), Z.land_assoc.
  apply land_ones_bound. lia.
Qed.

Lemma word_bits_members base limit fuel : forall x k, 0 <= x < 2 ^ 64 -> 0 <= k -> (forall i, 0 <= i < k -> Z.testbit x i = false) -> 64 - k <= Z.of_nat fuel ->
  word_bits fuel base x limit = filter (fun b => b < limit) (map (Z.add base) (word_members x k)).
Proof.
  induction fuel as [|fuel IH]; intros x k Hx Hk Low Hf; cbn [word_bits].
  - unfold word_members. now rewrite seqZ_nil by lia.
  - destruct (truth x) eqn:T.
    + apply truth_true in T. destruct (ctz64_lowest x ltac:(lia)) as [L C]. set (c := tcc_bitspan_ctz64 x) in *. cbv zeta.
      assert (k <= c). { destruct (Z.lt_ge_cases c k) as [D|D]; [|lia]. pose proof (Low c ltac:(destruct L; lia)) as N. rewrite (lowest_bits x c c L), Z.eqb_refl in N by (destruct L; lia). discriminate N. }
      rewrite (members_step x c k L) by lia. cbn [map]. rewrite (IH _ (c + 1)); [| |lia| |lia].
      * case Z.ltb_spec; intros D; [now rewrite filter_cons_True | now rewrite filter_cons_False by lia].
      * now apply land_word.
      * intros i Hi. rewrite (clear_lowest x c i L) by lia. destruct (Z.eq_dec i c) as [->|N]; [rewrite Z.eqb_refl; apply andb_false_r|].
        rewrite (lowest_bits x c i L) by lia. now rewrite (proj2 (Z.eqb_neq i c)) by lia.
    + apply truth_false in T. subst x. unfold word_members. rewrite (filter_none (fun i => Z.testbit 0 i = true)); [reflexivity|]. apply Forall_true. intros i. rewrite Z.bits_0. discriminate.
Qed.

Lemma filter_shift (f g : Z -> bool) k l : Forall (fun i => f (k + i) = g i) l ->
  filter (fun b => f b = true) (map (Z.add k) l) = map (Z.add k) (filter (fun i => g i = true) l).
Proof.
  induction 1 as [|i l H _ IH]; [reflexivity|]. cbn [map]. destruct (g i) eqn:G.
  - rewrite !filter_cons_True, IH by congruence. reflexivity.
  - rewrite !filter_cons_False, IH by congruence. reflexivity.
Qed.

(** The members of a span in the word [w]. *)
Lemma span_word_members (f : Z -> bool) x w : (forall i, 0 <= i < 64 -> f (64 * w + i) = Z.testbit x i) ->
  filter (fun b => f b = true) (seqZ (64 * w) 64) = map (Z.add (64 * w)) (word_members x 0).
Proof.
  intros H. replace (seqZ (64 * w) 64) with (map (Z.add (64 * w)) (seqZ 0 64)) by (rewrite <- (Z.add_0_r (64 * w)) at 2; apply fmap_add_seqZ).
  apply filter_shift, list.Forall_forall. intros i Hi. rewrite elem_of_seqZ in Hi. apply H. lia.
Qed.

Lemma seqZ_words k : 0 <= k -> seqZ 0 (64 * (k + 1)) = seqZ 0 (64 * k) ++ seqZ (64 * k) 64.
Proof. intros H. replace (64 * (k + 1)) with (64 * k + 64) by lia. now rewrite seqZ_app by lia. Qed.

Lemma for_each_members ws n limit : 0 <= n -> 64 * n <= 2 ^ 31 -> words_ok ws ->
  tcc_bitspan_for_each_set ws n limit = filter (fun b => b < s32 limit) (filter (fun b => span_bit ws b = true) (seqZ 0 (64 * n))).
Proof.
  intros Hn Hmax Hw. revert Hmax. pattern n. apply natlike_ind; [reflexivity| |exact Hn]. intros k Hk IH Hmax.
  specialize (IH ltac:(lia)). unfold tcc_bitspan_for_each_set in *.
  rewrite <- Z.add_1_r, seqZ_last, map_app, concat_app, IH, seqZ_words, !filter_app by lia. f_equal. cbn [map concat]. rewrite app_nil_r.
  rewrite (word_bits_members _ _ 64 _ 0) by (lia || auto using word_at_ok). rewrite (span_word_members _ (int_at ws k)).
  - rewrite Z.shiftl_mul_pow2, (Z.mul_comm k) by lia. change (2 ^ 6) with 64. now rewrite (s32_small (64 * k)) by lia.
  - intros i Hi. unfold span_bit. destruct (join_index k i Hi) as [-> ->]. reflexivity.
Qed.

Lemma popcount_members a b n : 0 <= n -> words_ok a ->
  tcc_bitspan_and_popcount a b n = Z.of_nat (length (filter (fun i => span_bit a i && span_bit b i = true) (seqZ 0 (64 * n)))).
Proof.
  intros Hn Ha. pattern n. apply natlike_ind; [reflexivity| |exact Hn]. intros k Hk IH. unfold tcc_bitspan_and_popcount in *.
  rewrite <- Z.add_1_r, seqZ_last, fold_left_app, IH, seqZ_words, filter_app, length_app, Nat2Z.inj_add by lia. f_equal. cbn [fold_left].
  unfold popcount64. rewrite (span_word_members _ (int_at a k &&& int_at b k)).
  - now rewrite length_map.
  - intros i Hi. unfold span_bit. destruct (join_index k i Hi) as [-> ->]. now rewrite Z.land_spec.
Qed.

(** ** One bit *)

Lemma one_shifted p i : 0 <= p -> 0 <= i -> Z.testbit (Z.shiftl 1 p) i = (i =? p).
Proof.
  intros Hp Hi. rewrite Z.shiftl_spec by lia. case Z.eqb_spec; intros E; [subst; now rewrite Z.sub_diag|].
  destruct (Z.lt_ge_cases (i - p) 0); [now apply Z.testbit_neg_r|]. change 1 with (2 ^ 0). rewrite Z.pow2_bits_eqb by lia. apply Z.eqb_neq. lia.
Qed.

Lemma same_index b bit : 0 <= b -> 0 <= bit -> (b / 64 = bit / 64 /\ b mod 64 = bit mod 64) <-> b = bit.
Proof. intros Hb Hp. pose proof (split_index b). pose proof (split_index bit). split; [lia|intros ->; auto]. Qed.

Lemma set_word_bit ws bit x b : 0 <= b -> 0 <= bit < 64 * Z.of_nat (length ws) ->
  span_bit (set_int ws (bit / 64) x) b = if b / 64 =? bit / 64 then Z.testbit x (b mod 64) else span_bit ws b.
Proof.
  intros Hb Hp. pose proof (split_index bit). unfold span_bit. case Z.eqb_spec; intros E.
  - rewrite E, int_at_set by lia. reflexivity.
  - rewrite int_at_set_ne; auto; apply Z.div_pos; lia.
Qed.

Lemma bitspan_set_bit ws bit b : words_ok ws -> 0 <= b -> 0 <= bit < 64 * Z.of_nat (length ws) ->
  span_bit (tcc_bitspan_set ws bit) b = (b =? bit) || span_bit ws b.
Proof.
  intros Hw Hb Hp. unfold tcc_bitspan_set. rewrite word_index, bit_index, set_word_bit by auto. pose proof (same_index b bit Hb ltac:(lia)) as S.
  destruct (split_index b) as (_ & Hm & _). destruct (split_index bit) as (_ & Hm' & _).
  case Z.eqb_spec; intros E.
  - rewrite Z.lor_spec, one_shifted, <- E by lia. fold (span_bit ws b). rewrite orb_comm. f_equal. apply Bool.eq_iff_eq_true. rewrite !Z.eqb_eq. tauto.
  - rewrite (proj2 (Z.eqb_neq b bit)) by tauto. reflexivity.
Qed.

Lemma bitspan_reset_bit ws bit b : words_ok ws -> 0 <= b -> 0 <= bit < 64 * Z.of_nat (length ws) ->
  span_bit (tcc_bitspan_reset ws bit) b = span_bit ws b && negb (b =? bit).
Proof.
  intros Hw Hb Hp. unfold tcc_bitspan_reset. rewrite word_index, bit_index, set_word_bit by auto. pose proof (same_index b bit Hb ltac:(lia)) as S.
  destruct (split_index b) as (_ & Hm & _). destruct (split_index bit) as (_ & Hm' & _).
  case Z.eqb_spec; intros E.
  - rewrite andnot_testbit, one_shifted, <- E by (lia || auto using word_at_ok). fold (span_bit ws b). do 2 f_equal. apply Bool.eq_iff_eq_true. rewrite !Z.eqb_eq. tauto.
  - rewrite (proj2 (Z.eqb_neq b bit)) by tauto. cbn. now rewrite andb_true_r.
Qed.

Lemma bitspan_test_bit ws b : tcc_bitspan_test ws b = b2z (span_bit ws b).
Proof.
  unfold tcc_bitspan_test, span_bit. rewrite word_index, bit_index. destruct (split_index b) as (_ & Hm & _).
  change 1 with (Z.ones 1) at 1. rewrite Z.land_ones by lia. change (2 ^ 1) with 2. rewrite <- Z.bit0_mod, Z.shiftr_spec, Z.add_0_l by lia. reflexivity.
Qed.

Lemma set_int_ok ws i x : words_ok ws -> 0 <= x < 2 ^ 64 -> words_ok (set_int ws i x).
Proof. intros H Hx. unfold words_ok, set_int. now apply Forall_insert. Qed.

Lemma each_word_ok f n ws : words_ok ws -> (forall i w, 0 <= w < 2 ^ 64 -> 0 <= f i w < 2 ^ 64) -> words_ok (each_word n f ws).
Proof. intros H Hf. unfold each_word. revert ws H. induction (seqZ 0 n) as [|i l IH]; intros ws H; cbn; [exact H|]. apply IH, set_int_ok; [exact H|]. now apply Hf, word_at_ok. Qed.

Lemma shifted_word p : 0 <= p < 64 -> 0 <= Z.shiftl 1 p < 2 ^ 64.
Proof. intros H. rewrite Z.shiftl_1_l. split; [apply Z.pow_nonneg; lia|apply Z.pow_lt_mono_r; lia]. Qed.

Lemma bitspan_set_ok ws bit : words_ok ws -> words_ok (tcc_bitspan_set ws bit).
Proof.
  intros H. unfold tcc_bitspan_set. rewrite bit_index. apply set_int_ok; [exact H|]. apply lor_bound; [lia|now apply word_at_ok|].
  apply shifted_word. pose proof (split_index bit). lia.
Qed.

Lemma bitspan_reset_ok ws bit : words_ok ws -> words_ok (tcc_bitspan_reset ws bit).
Proof. intros H. unfold tcc_bitspan_reset. apply set_int_ok; [exact H|]. now apply land_word, word_at_ok. Qed.

(** C24: the kernels on spans are the operations on sets of bit indices: clearing,
    copying, union and the transfer step of a dataflow pass inside the first [n]
    words, leaving the rest; the flag of the transfer step is set exactly when an
    index changes membership; the count is the size of the intersection; a single
    bit is added, removed and tested alone. *)
Theorem bitspan_set_algebra (d s inn kill : list Z) (n b bit : Z)
  (Hd : words_ok d) (Hs : words_ok s) (Hi : words_ok inn) (Hn : spans d n) (Hb : 0 <= b) (Hbit : 0 <= bit < 64 * Z.of_nat (length d)) :
  let low := b <? 64 * n in
  span_bit (tcc_bitspan_zero d n) b = negb low && span_bit d b /\
  span_bit (tcc_bitspan_copy d s n) b = (if low then span_bit s b else span_bit d b) /\
  span_bit (tcc_bitspan_or d s n) b = span_bit d b || (low && span_bit s b) /\
  span_bit (snd (tcc_bitspan_or_andnot d s inn kill n)) b = (if low then span_bit s b || (span_bit inn b && negb (span_bit kill b)) else span_bit d b) /\
  (fst (tcc_bitspan_or_andnot d s inn kill n) = true <-> exists c, 0 <= c < 64 * n /\ span_bit d c <> span_bit s c || (span_bit inn c && negb (span_bit kill c))) /\
  tcc_bitspan_and_popcount d s n = Z.of_nat (length (filter (fun i => span_bit d i && span_bit s i = true) (seqZ 0 (64 * n)))) /\
  span_bit (tcc_bitspan_set d bit) b = (b =? bit) || span_bit d b /\
  span_bit (tcc_bitspan_reset d bit) b = span_bit d b && negb (b =? bit) /\
  tcc_bitspan_test d b = b2z (span_bit d b) /\
  Forall words_ok [tcc_bitspan_zero d n; tcc_bitspan_copy d s n; tcc_bitspan_or d s n; snd (tcc_bitspan_or_andnot d s inn kill n); tcc_bitspan_set d bit; tcc_bitspan_reset d bit].
Proof.
  intros low. destruct (split_index b) as (_ & Hm & _).
  split; [unfold tcc_bitspan_zero; rewrite each_word_bit by auto; unfold low; case Z.ltb_spec; intros _; [now rewrite Z.bits_0|reflexivity]|].
  split; [unfold tcc_bitspan_copy; now rewrite each_word_bit by auto|].
  split; [unfold tcc_bitspan_or; rewrite each_word_bit by auto; unfold low; case Z.ltb_spec; intros _; [apply Z.lor_spec|now rewrite orb_false_r]|].
  rewrite or_andnot_loop by (auto; apply Hn). cbn [snd].
  split; [rewrite each_word_bit by auto; unfold andnot_value, low; case Z.ltb_spec; intros _; [now rewrite Z.lor_spec, andnot_testbit by auto using word_at_ok|reflexivity]|].
  split; [rewrite <- or_andnot_loop by (auto; apply Hn); now apply or_andnot_changed|].
  split; [apply popcount_members; [apply Hn|auto]|]. split; [now apply bitspan_set_bit|]. split; [now apply bitspan_reset_bit|]. split; [apply bitspan_test_bit|].
  repeat constructor; auto using bitspan_set_ok, bitspan_reset_ok; apply each_word_ok; auto; intros i w Hw.
  - lia.
  - now apply word_at_ok.
  - apply lor_bound; auto using word_at_ok. lia.
  - now apply andnot_bound.
Qed.

Lemma bitspan_set_algebra_witness :
  tcc_bitspan_or_andnot [1; 0] [0; 4] [3; 0] [1; 0] 2 = (true, [2; 4]) /\ span_bit [2; 4] 66 = true.
Proof.
  split; [reflexivity|].
  destruct (bitspan_set_algebra [1; 0] [0; 4] [3; 0] [1; 0] 2 66 0) as (_ & _ & _ & H & _);
    [repeat constructor; lia | repeat constructor; lia | repeat constructor; lia | split; cbn; lia | lia | cbn; lia | exact H].
Defined.

(** C25: over a span whose indices are all [int]s, at most 2^25 words, the iteration
    runs its body for exactly the members below the limit as the macro converts it,
    [(int)(limit)], once each and in ascending order, whatever the two halves of a
    count of trailing zeros hold; the inner loop ends after at most 64 rounds a word.
    A limit in the range of [int] is itself; one from 2^31 up to 2^32 converts to a
    negative number and the body never runs. *)
Theorem for_each_set_exact (ws : list Z) (n limit : Z) (Hn : 0 <= n <= 2 ^ 25) (Hw : words_ok ws) :
  tcc_bitspan_for_each_set ws n limit = filter (fun b => b < s32 limit /\ span_bit ws b = true) (seqZ 0 (64 * n)) /\
  (0 <= limit < 2 ^ 31 -> s32 limit = limit) /\
  (2 ^ 31 <= limit < 2 ^ 32 -> tcc_bitspan_for_each_set ws n limit = []).
Proof.
  assert (E : tcc_bitspan_for_each_set ws n limit = filter (fun b => b < s32 limit /\ span_bit ws b = true) (seqZ 0 (64 * n)))
    by (rewrite for_each_members by (lia || auto); apply list_filter_filter).
  split; [exact E|]. split; [intros H; apply s32_small; lia|]. intros H. rewrite E. apply elem_of_nil_inv. intros b [[Hlt _] Hb]%list_elem_of_filter. rewrite elem_of_seqZ in Hb. unfold s32 in Hlt. rewrite u32_small in Hlt by lia. case_match; lia.
Qed.

Lemma for_each_set_exact_witness :
  tcc_bitspan_for_each_set [2 ^ 63 + 5; 0; 2 ^ 40] 3 150 = [0; 2; 63] /\ filter (fun b => b < s32 150 /\ span_bit [2 ^ 63 + 5; 0; 2 ^ 40] b = true) (seqZ 0 192) = [0; 2; 63].
Proof.
  assert (E : tcc_bitspan_for_each_set [2 ^ 63 + 5; 0; 2 ^ 40] 3 150 = [0; 2; 63]) by reflexivity. split; [exact E|].
  rewrite <- E. symmetry. apply (for_each_set_exact [2 ^ 63 + 5; 0; 2 ^ 40] 3 150); [lia|repeat constructor; lia].
Defined.

(** ** Buffers that start inside their object *)

(** The union [storage]: the values in use of the inline array, or the pointer. *)
Inductive storage (A : Type) := Inline (values : list A) | Heap (p : option Z).
Arguments Inline {A}.
Arguments Heap {A}.
Record buffer (A : Type) := mk_buffer { bf_size : Z; bf_storage : storage A }.
Arguments mk_buffer {A}.
Arguments bf_size {A}.
Arguments bf_storage {A}.

(** A buffer of [size] keeps [units size] elements, [inline_units] of them inline:
    64-bit words in a bit set, the elements themselves in a sequence.  The blocks
    are the allocations by address; [allocate] gives the address of a new block of
    so many elements, or fails. *)
Section buffers.
Context {A : Type} (zero : A) (units : Z -> Z) (inline_units element_size SIZE_MAX : Z).
Context (allocate : gmap Z (list A) -> Z -> option Z).
Notation blocks := (gmap Z (list A)).

Definition is_inline (b : buffer A) : bool := units (bf_size b) <=? inline_units.

(** What a cleaned object holds: a null pointer and no value. *)
Definition emptied : buffer A := mk_buffer 0 (Inline []).

(** [None] is an access through a null or stale pointer. *)
Definition buffer_data (h : blocks) (b : buffer A) : option (list A) :=
  if is_inline b then match bf_storage b with Inline ws => Some ws | Heap _ => None end
  else match bf_storage b with Heap (Some p) => h !! p | _ => None end.

(** A write through the data pointer. *)
Definition buffer_update (f : list A -> list A) (h : blocks) (b : buffer A) : option (blocks * buffer A) :=
  ws ← buffer_data h b;
  Some (if is_inline b then (h, mk_buffer (bf_size b) (Inline (f ws)))
        else match bf_storage b with Heap (Some p) => (<[p := f ws]> h, b) | _ => (h, b) end).

(** [None] is a free of what is not allocated. *)
Definition buffer_cleanup (h : blocks) (b : buffer A) : option (blocks * buffer A) :=
  if is_inline b then Some (h, emptied)
  else match bf_storage b with
       | Heap (Some p) => if bool_decide (is_Some (h !! p)) then Some (delete p h, emptied) else None
       | _ => Some (h, emptied)
       end.

(** Destination and source are different objects: what they become. *)
Definition buffer_move (h : blocks) (destination source : buffer A) : option (blocks * buffer A * buffer A) :=
  '(h, _) ← buffer_cleanup h destination;
  s ← (if is_inline source then
         match bf_storage source with Inline ws => Some (Inline (take (Z.to_nat (units (bf_size source))) ws)) | Heap _ => None end
       else Some (bf_storage source));
  Some (h, mk_buffer (bf_size source) s, emptied).

(** The two kinds of object differ in the order of the checks and in the size
    they leave on failure. *)
Definition dynamic_bitset_init (h : blocks) (size : Z) : Z * blocks * buffer A :=
  let word_count := units size in
  if word_count <=? inline_units then (0, h, mk_buffer size (Inline (replicate (Z.to_nat word_count) zero)))
  else if SIZE_MAX / element_size <? word_count then (-1, h, emptied)
  else match allocate h word_count with
       | None => (-1, h, emptied)
       | Some p => (0, <[p := replicate (Z.to_nat word_count) zero]> h, mk_buffer size (Heap (Some p)))
       end.

Definition small_sequence_init (h : blocks) (size : Z) : Z * blocks * buffer A :=
  if SIZE_MAX / element_size <? size then (-1, h, mk_buffer size (Heap None))
  else if units size <=? inline_units then (0, h, mk_buffer size (Inline (replicate (Z.to_nat size) zero)))
  else match allocate h size with
       | None => (-1, h, mk_buffer size (Heap None))
       | Some p => (0, <[p := replicate (Z.to_nat size) zero]> h, mk_buffer size (Heap (Some p)))
       end.

(** *** Objects in scope *)

(** A client holds objects and performs operations on them. *)
Record buf_state := mk_buf_state { objs : gmap Z (buffer A); heap_blocks : blocks }.

Inductive buf_op := OpInit (o size : Z) | OpInitSeq (o size : Z) | OpCleanup (o : Z) | OpUpdate (o : Z) (f : list A -> list A) | OpMove (d s : Z).

(** The C result, 0 for an operation without one; [None] for an invalid access. *)
Definition run_op (op : buf_op) (st : buf_state) : option (Z * buf_state) :=
  let h := heap_blocks st in
  match op with
  | OpInit o size => let '(rc, h, b) := dynamic_bitset_init h size in Some (rc, mk_buf_state (<[o := b]> (objs st)) h)
  | OpInitSeq o size => let '(rc, h, b) := small_sequence_init h size in Some (rc, mk_buf_state (<[o := b]> (objs st)) h)
  | OpCleanup o => b ← objs st !! o; '(h, b) ← buffer_cleanup h b; Some (0, mk_buf_state (<[o := b]> (objs st)) h)
  | OpUpdate o f => b ← objs st !! o; '(h, b) ← buffer_update f h b; Some (0, mk_buf_state (<[o := b]> (objs st)) h)
  | OpMove d s =>
      if d =? s then Some (0, st) else
      bd ← objs st !! d; bs ← objs st !! s; '(h, bd, bs) ← buffer_move h bd bs;
      Some (0, mk_buf_state (<[s := bs]> (<[d := bd]> (objs st))) h)
  end.

(** The specification: an object is a size and a list, or a sequence whose
    initialisation failed. *)
Notation abs_state := (gmap Z (Z * option (list A))).

Definition legal (op : buf_op) (a : abs_state) : Prop :=
  match op with
  | OpInit o size | OpInitSeq o size => 0 <= size /\ (a !! o = None \/ a !! o = Some (0, Some []))
  | OpCleanup o => is_Some (a !! o)
  | OpUpdate o f => exists n ws, a !! o = Some (n, Some ws) /\ length (f ws) = length ws
  | OpMove d s => is_Some (a !! d) /\ is_Some (a !! s)
  end.

Definition abs_op (op : buf_op) (rc : Z) (a : abs_state) : abs_state :=
  match op with
  | OpInit o size => <[o := if rc =? 0 then (size, Some (replicate (Z.to_nat (units size)) zero)) else (0, Some [])]> a
  | OpInitSeq o size => <[o := (size, if rc =? 0 then Some (replicate (Z.to_nat (units size)) zero) else None)]> a
  | OpCleanup o => <[o := (0, Some [])]> a
  | OpUpdate o f => match a !! o with Some (n, c) => <[o := (n, f <$> c)]> a | None => a end
  | OpMove d s => if d =? s then a else match a !! s with Some x => <[s := (0, Some [])]> (<[d := x]> a) | None => a end
  end.

Definition owns (b : buffer A) (p : Z) : Prop := is_inline b = false /\ bf_storage b = Heap (Some p).

Definition obj_rel (h : blocks) (b : buffer A) (x : Z * option (list A)) : Prop :=
  bf_size b = fst x /\ 0 <= fst x /\
  match snd x with
  | Some ws => buffer_data h b = Some ws /\ length ws = Z.to_nat (units (fst x))
  | None => is_inline b = false /\ bf_storage b = Heap None
  end.

Record buf_rel (st : buf_state) (a : abs_state) : Prop := {
  br_objs : forall o, match objs st !! o, a !! o with Some b, Some x => obj_rel (heap_blocks st) b x | None, None => True | _, _ => False end;
  br_owned : forall p, is_Some (heap_blocks st !! p) -> exists o b, objs st !! o = Some b /\ owns b p;
  br_unique : forall o1 o2 b1 b2 p, objs st !! o1 = Some b1 -> objs st !! o2 = Some b2 -> owns b1 p -> owns b2 p -> o1 = o2 }.

Context (units_0 : units 0 = 0) (units_nonneg : forall n, 0 <= n -> 0 <= units n) (inline_nonneg : 0 <= inline_units).
Context (allocate_fresh : forall h n p, allocate h n = Some p -> h !! p = None).

Lemma emptied_inline : is_inline emptied = true.
Proof. unfold is_inline. cbn. rewrite units_0. now apply Z.leb_le. Qed.

Lemma emptied_rel h : obj_rel h emptied (0, Some []).
Proof. split; [reflexivity|]. split; [cbn; lia|]. cbn [snd]. unfold buffer_data. rewrite emptied_inline. cbn. now rewrite units_0. Qed.

Lemma emptied_owns p : ~ owns emptied p.
Proof. intros [H _]. rewrite emptied_inline in H. discriminate H. Qed.

Lemma zero_owns h b p : obj_rel h b (0, Some []) -> ~ owns b p.
Proof. intros (E & _ & _) [H _]. unfold is_inline in H. rewrite E in H. cbn in H. rewrite units_0 in H. apply Z.leb_gt in H. lia. Qed.

(** Only the block that a buffer owns matters to it. *)
Lemma obj_frame h h' b x : (forall p, owns b p -> h' !! p = h !! p) -> obj_rel h b x -> obj_rel h' b x.
Proof.
  intros F (E & N & C). split; [exact E|]. split; [exact N|]. destruct (snd x) as [ws|]; [|exact C]. destruct C as [D L]. split; [|exact L].
  revert D. unfold buffer_data. destruct (is_inline b) eqn:I; [auto|]. destruct (bf_storage b) as [|[p|]] eqn:S; auto. rewrite F; [auto|]. now split.
Qed.

Lemma owned_live st a o b p : buf_rel st a -> objs st !! o = Some b -> owns b p -> is_Some (heap_blocks st !! p).
Proof.
  intros R Ho [I S]. pose proof (br_objs _ _ R o) as B. rewrite Ho in B. destruct (a !! o) as [[n [ws|]]|]; [| |contradiction]; destruct B as (_ & _ & C); cbn in C.
  - destruct C as [D _]. unfold buffer_data in D. rewrite I, S in D. eauto.
  - destruct C as [_ D]. rewrite S in D. discriminate D.
Qed.

(** One object changes, with the blocks that it alone owns before or after. *)
Lemma rel_update st a o b' x' h' : buf_rel st a -> obj_rel h' b' x' ->
  (forall o' b p, o' <> o -> objs st !! o' = Some b -> owns b p -> h' !! p = heap_blocks st !! p /\ ~ owns b' p) ->
  (forall p, is_Some (h' !! p) -> owns b' p \/ (is_Some (heap_blocks st !! p) /\ forall b, objs st !! o = Some b -> ~ owns b p)) ->
  buf_rel (mk_buf_state (<[o := b']> (objs st)) h') (<[o := x']> a).
Proof.
  intros R Hx F G. split; cbn [objs heap_blocks].
  - intros o'. destruct (decide (o' = o)) as [->|N]; [now rewrite !lookup_insert_eq|]. rewrite !lookup_insert_ne by auto.
    pose proof (br_objs _ _ R o') as B. destruct (objs st !! o') as [b|] eqn:E; [|exact B]. destruct (a !! o') as [x|]; [|exact B].
    apply (obj_frame (heap_blocks st)); [|exact B]. intros p Hp. now apply (F o' b).
  - intros p Hp. destruct (G p Hp) as [O|[L U]]; [exists o, b'; now rewrite lookup_insert_eq|].
    destruct (br_owned _ _ R p L) as (o' & b & E & O). exists o', b. split; [|exact O].
    destruct (decide (o' = o)) as [->|N]; [exfalso; exact (U b E O)|]. now rewrite lookup_insert_ne.
  - intros o1 o2 b1 b2 p E1 E2 O1 O2. destruct (decide (o1 = o)) as [->|N1]; destruct (decide (o2 = o)) as [->|N2]; [reflexivity| | |].
    + rewrite lookup_insert_eq in E1. rewrite lookup_insert_ne in E2 by auto. apply (inj Some) in E1. subst b1. exfalso. exact (proj2 (F o2 b2 p N2 E2 O2) O1).
    + rewrite lookup_insert_eq in E2. rewrite lookup_insert_ne in E1 by auto. apply (inj Some) in E2. subst b2. exfalso. exact (proj2 (F o1 b1 p N1 E1 O1) O2).
    + rewrite lookup_insert_ne in E1, E2 by auto. exact (br_unique _ _ R o1 o2 b1 b2 p E1 E2 O1 O2).
Qed.

Lemma init_rel st a o b' x' h' : buf_rel st a -> a !! o = None \/ a !! o = Some (0, Some []) -> obj_rel h' b' x' ->
  (h' = heap_blocks st /\ (forall p, ~ owns b' p)) \/ (exists p ws, heap_blocks st !! p = None /\ h' = <[p := ws]> (heap_blocks st) /\ bf_storage b' = Heap (Some p) /\ is_inline b' = false) ->
  buf_rel (mk_buf_state (<[o := b']> (objs st)) h') (<[o := x']> a).
Proof.
  intros R Ha Hx C. assert (None_owned : forall b p, objs st !! o = Some b -> ~ owns b p).
  { intros b p E. pose proof (br_objs _ _ R o) as B. rewrite E in B. destruct Ha as [Ha|Ha]; rewrite Ha in B; [contradiction|]. now apply (zero_owns (heap_blocks st)). }
  apply rel_update; auto.
  - intros o' b p N E O. destruct (owned_live st a o' b p R E O) as [ws L].
    destruct C as [[-> Nb]|(q & w & Fq & -> & Sq & _)]; [auto|]. assert (q <> p) by congruence. rewrite lookup_insert_ne by auto.
    split; [auto|]. intros [_ S]. congruence.
  - intros p Hp. destruct C as [[-> Nb]|(q & w & Fq & -> & Sq & Iq)]; [right; eauto|].
    destruct (decide (p = q)) as [->|N]; [left; now split|]. rewrite lookup_insert_ne in Hp by auto. right; eauto.
Qed.

Lemma inline_fresh size : 0 <= size -> units size <= inline_units -> forall h, obj_rel h (mk_buffer size (Inline (replicate (Z.to_nat (units size)) zero))) (size, Some (replicate (Z.to_nat (units size)) zero)).
Proof.
  intros H L h. split; [reflexivity|]. split; [exact H|]. cbn [snd fst]. unfold buffer_data, is_inline. cbn. rewrite (proj2 (Z.leb_le _ _) L).
  now rewrite length_replicate.
Qed.

Lemma heap_fresh size p h : 0 <= size -> inline_units < units size ->
  obj_rel (<[p := replicate (Z.to_nat (units size)) zero]> h) (mk_buffer size (Heap (Some p))) (size, Some (replicate (Z.to_nat (units size)) zero)) /\
  is_inline (mk_buffer size (Heap (Some p))) = false.
Proof.
  intros H L. assert (I : is_inline (mk_buffer size (Heap (Some p))) = false) by (unfold is_inline; cbn; now apply Z.leb_gt).
  split; [|exact I]. split; [reflexivity|]. split; [exact H|]. cbn [snd fst]. unfold buffer_data. rewrite I. cbn. rewrite lookup_insert_eq. now rewrite length_replicate.
Qed.

Lemma bitset_init_rel st a o size : buf_rel st a -> 0 <= size -> a !! o = None \/ a !! o = Some (0, Some []) ->
  exists rc st', run_op (OpInit o size) st = Some (rc, st') /\ buf_rel st' (abs_op (OpInit o size) rc a).
Proof.
  intros R Hs Ha. cbn [run_op abs_op]. unfold dynamic_bitset_init. cbv zeta.
  assert (E : forall rc, rc <> 0 -> exists rc' st', Some (rc, mk_buf_state (<[o := emptied]> (objs st)) (heap_blocks st)) = Some (rc', st') /\
    buf_rel st' (<[o := if rc' =? 0 then (size, Some (replicate (Z.to_nat (units size)) zero)) else (0, Some [])]> a)).
  { intros rc Hrc. eexists _, _. split; [reflexivity|]. rewrite (proj2 (Z.eqb_neq rc 0)) by auto. apply init_rel; auto using emptied_rel, emptied_owns. }
  case Z.leb_spec; intros L.
  - eexists _, _. split; [reflexivity|]. apply init_rel; auto using inline_fresh. left. split; [auto|]. intros p [I _]. apply Z.leb_gt in I. cbn in I. lia.
  - destruct (_ <? _); [now apply E|]. destruct (allocate (heap_blocks st) (units size)) as [p|] eqn:Al; [|now apply E].
    eexists _, _. split; [reflexivity|]. destruct (heap_fresh size p (heap_blocks st) Hs L) as [O I]. apply init_rel; auto. right. exists p, (replicate (Z.to_nat (units size)) zero). eauto using allocate_fresh.
Qed.

Lemma sequence_init_rel st a o size : buf_rel st a -> 0 <= size -> units size = size -> inline_units <= SIZE_MAX / element_size ->
  a !! o = None \/ a !! o = Some (0, Some []) ->
  exists rc st', run_op (OpInitSeq o size) st = Some (rc, st') /\ buf_rel st' (abs_op (OpInitSeq o size) rc a).
Proof.
  intros R Hs Hu Hc Ha. cbn [run_op abs_op]. unfold small_sequence_init.
  assert (E : inline_units < size -> exists rc' st', Some (-1, mk_buf_state (<[o := mk_buffer size (Heap None)]> (objs st)) (heap_blocks st)) = Some (rc', st') /\
    buf_rel st' (<[o := (size, if rc' =? 0 then Some (replicate (Z.to_nat (units size)) zero) else None)]> a)).
  { intros L. eexists _, _. split; [reflexivity|]. apply init_rel; auto.
    - split; [reflexivity|]. split; [exact Hs|]. cbn. split; [|reflexivity]. unfold is_inline. cbn. apply Z.leb_gt. lia.
    - left. split; [auto|]. intros p [_ S]. discriminate S. }
  case Z.ltb_spec; intros L; [apply E; lia|]. case Z.leb_spec; intros L'.
  - eexists _, _. split; [reflexivity|]. pose proof (inline_fresh size Hs L' (heap_blocks st)) as O. rewrite Hu in *. apply init_rel; auto. left. split; [auto|]. intros p [I _]. apply Z.leb_gt in I. cbn in I. lia.
  - destruct (allocate (heap_blocks st) size) as [p|] eqn:Al; [|apply E; lia].
    eexists _, _. split; [reflexivity|]. destruct (heap_fresh size p (heap_blocks st) Hs L') as [O I]. rewrite Hu in *. apply init_rel; auto.
    right. exists p, (replicate (Z.to_nat size) zero). eauto using allocate_fresh.
Qed.

Lemma found st a o x : buf_rel st a -> a !! o = Some x -> exists b, objs st !! o = Some b /\ obj_rel (heap_blocks st) b x.
Proof. intros R E. pose proof (br_objs _ _ R o) as B. rewrite E in B. destruct (objs st !! o) as [b|]; [eauto|contradiction]. Qed.

Lemma heap_storage h b n ws : obj_rel h b (n, Some ws) -> is_inline b = false -> exists p, bf_storage b = Heap (Some p) /\ h !! p = Some ws.
Proof. intros (_ & _ & D & _) I. unfold buffer_data in D. rewrite I in D. destruct (bf_storage b) as [|[p|]]; try discriminate D. eauto. Qed.

Lemma cleanup_rel st a o : buf_rel st a -> is_Some (a !! o) ->
  exists st' b, objs st !! o = Some b /\ buffer_cleanup (heap_blocks st) b = Some (heap_blocks st', emptied) /\ objs st' = <[o := emptied]> (objs st) /\ buf_rel st' (<[o := (0, Some [])]> a).
Proof.
  intros R [[n c] Ha]. destruct (found st a o _ R Ha) as (b & E & O). unfold buffer_cleanup.
  assert (Keep : (forall p, ~ owns b p) -> exists st' b', objs st !! o = Some b' /\ b' = b /\ Some (heap_blocks st, emptied) = Some (heap_blocks st', emptied) /\
    objs st' = <[o := emptied]> (objs st) /\ buf_rel st' (<[o := (0, Some [])]> a)).
  { intros N. exists (mk_buf_state (<[o := emptied]> (objs st)) (heap_blocks st)), b. repeat (split; [auto; fail|]).
    apply rel_update; auto using emptied_rel; [intros; split; auto using emptied_owns|]. intros p Hp. right. split; [exact Hp|]. intros b'. rewrite E. intros E'. apply (inj Some) in E'. now subst b'. }
  destruct (is_inline b) eqn:I.
  { destruct Keep as (st' & b' & E' & -> & K1 & K2 & K3); [intros p [N _]; congruence|]. exists st', b. rewrite I. auto. }
  destruct c as [ws|].
  - destruct (heap_storage _ b n ws O I) as (p & S & L). exists (mk_buf_state (<[o := emptied]> (objs st)) (delete p (heap_blocks st))), b.
    rewrite I, S, L. split; [exact E|]. split; [reflexivity|]. split; [reflexivity|]. apply rel_update; auto using emptied_rel.
    + intros o' b' q N E' O'. split; [|apply emptied_owns]. rewrite lookup_delete_ne; [reflexivity|]. intros <-. apply N. apply (br_unique _ _ R o' o b' b p); auto. now split.
    + intros q [w Hq]. rewrite lookup_delete_Some in Hq. destruct Hq as [N Hq]. right. split; [eauto|]. intros b'. rewrite E. intros E'. apply (inj Some) in E'. subst b'. intros [_ S']. congruence.
  - destruct O as (_ & _ & _ & S). cbn in S. destruct Keep as (st' & b' & E' & -> & K1 & K2 & K3); [intros p [_ N]; congruence|].
    exists st', b. rewrite I, S. auto.
Qed.

Lemma update_rel st a o f n ws : buf_rel st a -> length (f ws) = length ws -> a !! o = Some (n, Some ws) ->
  exists st', run_op (OpUpdate o f) st = Some (0, st') /\ buf_rel st' (<[o := (n, Some (f ws))]> a).
Proof.
  intros R Hf Ha. destruct (found st a o _ R Ha) as (b & E & O). cbn [run_op]. rewrite E. cbn [mbind option_bind].
  unfold buffer_update. pose proof O as (En & Hn & D & Len). cbn [fst snd] in *. rewrite D. cbn [mbind option_bind].
  destruct (is_inline b) eqn:I.
  - eexists. split; [reflexivity|]. assert (I' : is_inline (mk_buffer (bf_size b) (Inline (f ws))) = true) by exact I.
    apply rel_update; auto.
    + split; [exact En|]. split; [exact Hn|]. cbn [snd fst]. unfold buffer_data. rewrite I'. cbn. now rewrite Hf.
    + intros o' b' p N E' O'. split; [reflexivity|]. intros [J _]. congruence.
    + intros p Hp. right. split; [exact Hp|]. intros b'. rewrite E. intros E'. apply (inj Some) in E'. subst b'. intros [J _]. congruence.
  - destruct (heap_storage _ b n ws O I) as (p & S & L). rewrite S. eexists. split; [reflexivity|]. apply rel_update; auto.
    + split; [exact En|]. split; [exact Hn|]. cbn [snd fst]. unfold buffer_data. rewrite I, S, lookup_insert_eq. now rewrite Hf.
    + intros o' b' q N E' O'. assert (q <> p). { intros ->. apply N. apply (br_unique _ _ R o' o b' b p); auto. now split. }
      rewrite lookup_insert_ne by auto. split; [reflexivity|]. intros [_ S']. congruence.
    + intros q Hq. destruct (decide (q = p)) as [->|N]; [left; now split|]. rewrite lookup_insert_ne in Hq by auto. right. split; [exact Hq|].
      intros b'. rewrite E. intros E'. apply (inj Some) in E'. subst b'. intros [_ S']. congruence.
Qed.

(** What a move leaves in the destination is the source's object. *)
Lemma moved_rel h b x : obj_rel h b x ->
  exists s, (if is_inline b then match bf_storage b with Inline ws => Some (Inline (take (Z.to_nat (units (bf_size b))) ws)) | Heap _ => None end else Some (bf_storage b)) = Some s /\
  mk_buffer (bf_size b) s = b.
Proof.
  intros (En & Hn & C). destruct b as [n st]. cbn [bf_size bf_storage] in *. destruct (is_inline _) eqn:I; [|eauto].
  destruct x as [m [ws|]]; cbn [fst snd] in *; [|destruct C; congruence]. destruct C as [D L]. unfold buffer_data in D. rewrite I in D. cbn in D.
  destruct st as [v|]; [|discriminate D]. apply (inj Some) in D. subst v m. eexists. split; [reflexivity|]. rewrite firstn_all2 by lia. reflexivity.
Qed.

Lemma move_rel st a d s : buf_rel st a -> is_Some (a !! d) -> is_Some (a !! s) ->
  exists st', run_op (OpMove d s) st = Some (0, st') /\ buf_rel st' (abs_op (OpMove d s) 0 a).
Proof.
  intros R Hd [x Hs]. cbn [run_op abs_op]. case Z.eqb_spec; intros N; [eauto|]. rewrite Hs.
  destruct (found st a s x R Hs) as (b & E & O). destruct (cleanup_rel st a d R Hd) as (st1 & bd & Ed & Cl & Eo & R1). rewrite Ed, E. cbn [mbind option_bind].
  unfold buffer_move. rewrite Cl. cbn [mbind option_bind].
  assert (E1 : objs st1 !! s = Some b) by (rewrite Eo; now rewrite lookup_insert_ne).
  assert (O1 : obj_rel (heap_blocks st1) b x).
  { pose proof (br_objs _ _ R1 s) as B. rewrite E1, lookup_insert_ne, Hs in B by auto. exact B. }
  destruct (moved_rel _ b x O1) as (sto & -> & Eb). cbn [mbind option_bind]. rewrite Eb. eexists. split; [reflexivity|].
  assert (D1 : objs st1 !! d = Some emptied) by (rewrite Eo; now rewrite lookup_insert_eq).
  assert (Look : forall o, <[s := emptied]> (<[d := b]> (objs st)) !! o = if decide (o = s) then Some emptied else if decide (o = d) then Some b else objs st1 !! o).
  { intros o. rewrite Eo. destruct (decide (o = s)) as [->|]; [now rewrite lookup_insert_eq|]. rewrite lookup_insert_ne by auto.
    destruct (decide (o = d)) as [->|]; [now rewrite lookup_insert_eq|]. now rewrite !lookup_insert_ne by auto. }
  split; cbn [objs heap_blocks].
  - intros o. rewrite Look. destruct (decide (o = s)) as [->|Ns]; [rewrite lookup_insert_eq; apply emptied_rel|]. rewrite lookup_insert_ne by auto.
    destruct (decide (o = d)) as [->|Nd]; [now rewrite lookup_insert_eq|]. rewrite lookup_insert_ne by auto.
    pose proof (br_objs _ _ R1 o) as B. now rewrite lookup_insert_ne in B by auto.
  - intros p Hp. destruct (br_owned _ _ R1 p Hp) as (o & b' & Eo' & Ow). destruct (decide (o = s)) as [->|Ns].
    + exists d, b. rewrite Look. rewrite decide_False by auto. rewrite decide_True by auto. split; [reflexivity|]. congruence.
    + exists o, b'. rewrite Look. rewrite decide_False by auto. destruct (decide (o = d)) as [->|Nd]; [|auto]. exfalso. rewrite D1 in Eo'. apply (inj Some) in Eo'. subst b'. now apply (emptied_owns p).
  - assert (Own : forall o b' p, <[s := emptied]> (<[d := b]> (objs st)) !! o = Some b' -> owns b' p ->
      exists o1, objs st1 !! o1 = Some b' /\ o = (if decide (o1 = s) then d else o1)).
    { intros o b' p. rewrite Look. destruct (decide (o = s)) as [->|Ns]; [intros E' Ow; apply (inj Some) in E'; subst b'; now apply emptied_owns in Ow|].
      destruct (decide (o = d)) as [->|Nd]; intros E' Ow; [apply (inj Some) in E'; subst b'; exists s; now rewrite decide_True by auto|]. exists o. now rewrite decide_False by auto. }
    intros o1 o2 b1 b2 p H1 H2 W1 W2. destruct (Own o1 b1 p H1 W1) as (q1 & Q1 & ->). destruct (Own o2 b2 p H2 W2) as (q2 & Q2 & ->).
    now rewrite (br_unique _ _ R1 q1 q2 b1 b2 p Q1 Q2 W1 W2).
Qed.

Lemma run_op_rel st a op : buf_rel st a -> (forall n, units n = n) \/ (forall o n, op <> OpInitSeq o n) -> inline_units <= SIZE_MAX / element_size -> legal op a ->
  exists rc st', run_op op st = Some (rc, st') /\ buf_rel st' (abs_op op rc a).
Proof.
  intros R Hu Hc Hl. destruct op as [o size|o size|o|o f|d s]; cbn [legal] in Hl.
  - destruct Hl. now apply bitset_init_rel.
  - destruct Hl. destruct Hu as [Hu|Hu]; [|now destruct (Hu o size)]. now apply sequence_init_rel.
  - destruct (cleanup_rel st a o R Hl) as (st' & b & E & C & Eo & R'). exists 0, st'. split; [|exact R']. cbn [run_op]. rewrite E. cbn [mbind option_bind]. rewrite C. cbn [mbind option_bind].
    rewrite <- Eo. now destruct st'.
  - destruct Hl as (n & ws & Ha & Hf). destruct (update_rel st a o f n ws R Hf Ha) as (st' & E & R'). exists 0, st'. split; [exact E|]. cbn [abs_op]. rewrite Ha. exact R'.
  - destruct Hl. destruct (move_rel st a d s) as (st' & E & R'); eauto.
Qed.

(** What a client can reach from nothing, with the specification beside it. *)
Inductive buf_reaches : buf_state -> abs_state -> Prop :=
| reach_start : buf_reaches (mk_buf_state ∅ ∅) ∅
| reach_step st a op rc st' : buf_reaches st a -> legal op a -> (forall o n, op <> OpInitSeq o n) \/ (forall n, units n = n) ->
    run_op op st = Some (rc, st') -> buf_reaches st' (abs_op op rc a).

Lemma start_rel : buf_rel (mk_buf_state ∅ ∅) ∅.
Proof.
  split; cbn [objs heap_blocks].
  - intros o. now rewrite !lookup_empty.
  - intros p [ws H]. now rewrite lookup_empty in H.
  - intros o1 o2 b1 b2 p H. now rewrite lookup_empty in H.
Qed.

Lemma reaches_rel st a : inline_units <= SIZE_MAX / element_size -> buf_reaches st a -> buf_rel st a.
Proof.
  intros Hc. induction 1 as [|st a op rc st' _ IH Hl Hu E]; [apply start_rel|].
  destruct (run_op_rel st a op IH ltac:(tauto) Hc Hl) as (rc' & st'' & E' & R). rewrite E in E'. apply (inj Some) in E'. injection E' as <- <-. exact R.
Qed.

(** C15: buffers that are inline while small implement lists, for every allocator
    that hands out new addresses and may fail.  However a client initialises,
    updates, moves and cleans objects, as long as it initialises only objects that are new
    or clean and uses only initialised ones, the next operation frees nothing twice and
    goes through no stale pointer; an object holds the size and the elements the
    specification says, inline or not; a failed initialisation leaves an object that
    can be cleaned or moved; every block has one owner, and none is left when all
    objects are clean. *)
Theorem buffers_implement_lists (st : buf_state) (a : abs_state) (Hc : inline_units <= SIZE_MAX / element_size) (R : buf_reaches st a) :
  (forall op, legal op a -> (forall o n, op <> OpInitSeq o n) \/ (forall n, units n = n) -> is_Some (run_op op st)) /\
  (forall o n ws, a !! o = Some (n, Some ws) -> exists b, objs st !! o = Some b /\ bf_size b = n /\ buffer_data (heap_blocks st) b = Some ws /\ Z.of_nat (length ws) = units n) /\
  (forall p, is_Some (heap_blocks st !! p) -> exists o b, objs st !! o = Some b /\ owns b p /\ forall o' b', objs st !! o' = Some b' -> owns b' p -> o' = o) /\
  ((forall o x, a !! o = Some x -> x = (0, Some [])) -> heap_blocks st = ∅).
Proof.
  pose proof (reaches_rel st a Hc R) as B. split; [|split; [|split]].
  - intros op Hl Hu. destruct (run_op_rel st a op B ltac:(tauto) Hc Hl) as (rc & st' & -> & _). eauto.
  - intros o n ws Ha. destruct (found st a o _ B Ha) as (b & E & En & Hn & D & L). exists b. cbn in *. rewrite L, Z2Nat.id by auto. auto.
  - intros p Hp. destruct (br_owned _ _ B p Hp) as (o & b & E & O). exists o, b. split; [exact E|]. split; [exact O|].
    intros o' b' E' O'. exact (br_unique _ _ B o' o b' b p E' E O' O).
  - intros Clean. apply map_empty. intros p. apply eq_None_not_Some. intros Hp. destruct (br_owned _ _ B p Hp) as (o & b & E & O).
    pose proof (br_objs _ _ B o) as X. rewrite E in X. destruct (a !! o) as [x|] eqn:Ha; [|contradiction]. rewrite (Clean o x Ha) in X. now apply (zero_owns _ b p X).
Qed.
End buffers.

(** *** Bit sets on such buffers *)

Definition WORD_BITS := 64.
Definition dynamic_bitset_word_count (size : Z) : Z := size / WORD_BITS + b2z (negb (size mod WORD_BITS =? 0)).

Section bitset.
Context (inline_bit_capacity : Z).
Definition inline_words : Z := (inline_bit_capacity + WORD_BITS - 1) / WORD_BITS.
Notation data := (buffer_data dynamic_bitset_word_count inline_words).
Notation update := (buffer_update dynamic_bitset_word_count inline_words).
Notation rel := (@obj_rel Z dynamic_bitset_word_count inline_words).

Definition dynamic_bitset_clear (h : gmap Z (list Z)) (b : buffer Z) : option (gmap Z (list Z) * buffer Z) :=
  update (fun ws => replicate (Z.to_nat (dynamic_bitset_word_count (bf_size b))) 0 ++ drop (Z.to_nat (dynamic_bitset_word_count (bf_size b))) ws) h b.

Definition dynamic_bitset_test (h : gmap Z (list Z)) (b : buffer Z) (position : Z) : option Z :=
  if bf_size b <=? position then Some 0 else
  ws ← data h b; Some ((int_at ws (position / WORD_BITS) >>> (position mod WORD_BITS)) &&& 1).

Definition dynamic_bitset_set (h : gmap Z (list Z)) (b : buffer Z) (position : Z) : option (gmap Z (list Z) * buffer Z) :=
  if position <? bf_size b then
    update (fun ws => set_int ws (position / WORD_BITS) (int_at ws (position / WORD_BITS) ||| Z.shiftl 1 (position mod WORD_BITS))) h b
  else Some (h, b).

Definition dynamic_bitset_reset (h : gmap Z (list Z)) (b : buffer Z) (position : Z) : option (gmap Z (list Z) * buffer Z) :=
  if position <? bf_size b then
    update (fun ws => set_int ws (position / WORD_BITS) (int_at ws (position / WORD_BITS) &&& u64 (Z.lnot (Z.shiftl 1 (position mod WORD_BITS))))) h b
  else Some (h, b).

Lemma word_count_covers n : 0 <= n -> n <= 64 * dynamic_bitset_word_count n.
Proof.
  intros H. unfold dynamic_bitset_word_count, WORD_BITS. pose proof (split_index n). case Z.eqb_spec; cbn; lia.
Qed.

Lemma test_member h b n ws q : 0 <= q -> rel h b (n, Some ws) ->
  dynamic_bitset_test h b q = Some (b2z ((q <? n) && span_bit ws q)).
Proof.
  intros Hq (En & Hn & D & _). cbn [fst snd] in *. unfold dynamic_bitset_test. rewrite En, D. cbn [mbind option_bind].
  pose proof (bitspan_test_bit ws q) as T. unfold tcc_bitspan_test in T. rewrite word_index, bit_index in T. change WORD_BITS with 64. rewrite T.
  case Z.leb_spec; case Z.ltb_spec; intros; try lia; reflexivity.
Qed.

Lemma updated_obj h b n ws f : rel h b (n, Some ws) -> length (f ws) = length ws ->
  exists h' b', update f h b = Some (h', b') /\ rel h' b' (n, Some (f ws)).
Proof.
  intros O Hf. pose proof O as (En & Hn & D & L). cbn [fst snd] in *. unfold buffer_update. rewrite D. cbn [mbind option_bind].
  destruct (is_inline dynamic_bitset_word_count inline_words b) eqn:I.
  - eexists _, _. split; [reflexivity|]. split; [exact En|]. split; [exact Hn|]. cbn [fst snd]. unfold buffer_data.
    assert (I' : is_inline dynamic_bitset_word_count inline_words (mk_buffer (bf_size b) (Inline (f ws))) = true) by exact I. rewrite I'. cbn. now rewrite Hf.
  - destruct (heap_storage _ _ h b n ws O I) as (p & S & Lp). rewrite S. eexists _, _. split; [reflexivity|]. split; [exact En|]. split; [exact Hn|].
    cbn [fst snd]. unfold buffer_data. rewrite I, S, lookup_insert_eq. now rewrite Hf.
Qed.

(** The operations on an initialised bit set succeed, keep its size and change
    membership as those on a set of positions below the size do: a position past the
    end is never a member, and setting or resetting it does nothing. *)
Theorem dynamic_bitset_is_set (h : gmap Z (list Z)) (b : buffer Z) (n : Z) (ws : list Z) (position : Z)
  (O : rel h b (n, Some ws)) (Hw : words_ok ws) (Hp : 0 <= position) :
  let becomes r member := exists h' b' ws', r = Some (h', b') /\ rel h' b' (n, Some ws') /\ words_ok ws' /\
    forall q, 0 <= q -> dynamic_bitset_test h' b' q = Some (b2z ((q <? n) && member q)) in
  (forall q, 0 <= q -> dynamic_bitset_test h b q = Some (b2z ((q <? n) && span_bit ws q))) /\
  becomes (dynamic_bitset_set h b position) (fun q => (q =? position) || span_bit ws q) /\
  becomes (dynamic_bitset_reset h b position) (fun q => span_bit ws q && negb (q =? position)) /\
  becomes (dynamic_bitset_clear h b) (fun _ => false).
Proof.
  intros becomes. pose proof O as (En & Hn & D & L). cbn [fst snd] in *. pose proof (word_count_covers n Hn) as C.
  assert (Wc : 0 <= dynamic_bitset_word_count n) by lia.
  assert (Up : forall f member, length (f ws) = length ws -> words_ok (f ws) -> (forall q, 0 <= q -> (q <? n) && span_bit (f ws) q = (q <? n) && member q) -> becomes (update f h b) member).
  { intros f member Hf Ho Hm. destruct (updated_obj h b n ws f O Hf) as (h' & b' & -> & O'). exists h', b', (f ws). repeat (split; [auto; fail|]).
    intros q Hq. rewrite (test_member h' b' n (f ws)) by auto. now rewrite Hm. }
  assert (Same : forall member, (forall q, 0 <= q -> (q <? n) && span_bit ws q = (q <? n) && member q) -> becomes (Some (h, b)) member).
  { intros member Hm. exists h, b, ws. repeat (split; [auto; fail|]). intros q Hq. rewrite (test_member h b n ws) by auto. now rewrite Hm. }
  assert (Beyond : forall q, n <= position -> (q <? n) = true -> (q =? position) = false) by (intros q; rewrite Z.ltb_lt, Z.eqb_neq; lia).
  split; [intros q Hq; now apply test_member|]. split; [|split].
  - unfold dynamic_bitset_set. rewrite En. change WORD_BITS with 64. pose proof (bitspan_set_bit ws position) as B. pose proof (bitspan_set_ok ws position Hw) as K. unfold tcc_bitspan_set in B, K. rewrite word_index, bit_index in K.
    case Z.ltb_spec; intros P.
    + apply Up; [apply set_int_length|exact K|]. intros q Hq. rewrite word_index, bit_index in B. rewrite B by (auto; lia). reflexivity.
    + apply Same. intros q Hq. destruct (q <? n) eqn:Q; [|reflexivity]. now rewrite (Beyond q P Q).
  - unfold dynamic_bitset_reset. rewrite En. change WORD_BITS with 64. pose proof (bitspan_reset_bit ws position) as B. pose proof (bitspan_reset_ok ws position Hw) as K. unfold tcc_bitspan_reset in B, K. rewrite word_index, bit_index in K.
    case Z.ltb_spec; intros P.
    + apply Up; [apply set_int_length|exact K|]. intros q Hq. rewrite word_index, bit_index in B. rewrite B by (auto; lia). reflexivity.
    + apply Same. intros q Hq. destruct (q <? n) eqn:Q; [|reflexivity]. rewrite (Beyond q P Q). cbn. now rewrite andb_true_r.
  - unfold dynamic_bitset_clear. rewrite En. apply Up; rewrite <- L, drop_all, app_nil_r.
    + apply length_replicate.
    + apply Forall_replicate. lia.
    + intros q Hq. f_equal. unfold span_bit, int_at. destruct (replicate _ _ !! _) as [w|] eqn:E; [apply lookup_replicate in E as [-> _]|]; apply Z.bits_0.
Qed.
End bitset.

(** An allocator with a single block. *)
Definition one_block (h : gmap Z (list Z)) (n : Z) : option Z := match h !! 1 with None => Some 1 | Some _ => None end.

(** Bit sets of one inline word: the second takes over the block of the first, and
    a third finds no memory. *)
Lemma buffers_implement_lists_witness : exists st a,
  buf_reaches 0 dynamic_bitset_word_count 1 8 (2 ^ 32 - 1) one_block st a /\ a !! 3 = Some (0, Some []) /\
  exists b, objs st !! 2 = Some b /\ bf_size b = 200 /\ buffer_data dynamic_bitset_word_count 1 (heap_blocks st) b = Some [0; 0; 0; 0].
Proof.
  set (run := fun op st => match run_op 0 dynamic_bitset_word_count 1 8 (2 ^ 32 - 1) one_block op st with Some (_, st') => st' | None => st end).
  set (spec := abs_op 0 dynamic_bitset_word_count).
  pose (st1 := run (OpInit 1 200) (mk_buf_state ∅ ∅)). pose (a1 := spec (OpInit 1 200) 0 ∅).
  pose (st2 := run (OpInit 2 10) st1). pose (a2 := spec (OpInit 2 10) 0 a1).
  pose (st3 := run (OpMove 2 1) st2). pose (a3 := spec (OpMove 2 1) 0 a2).
  pose (st4 := run (OpInit 3 100) st3). pose (a4 := spec (OpInit 3 100) (-1) a3).
  assert (R : buf_reaches 0 dynamic_bitset_word_count 1 8 (2 ^ 32 - 1) one_block st4 a4).
  { apply (reach_step _ _ _ _ _ _ st3 a3 (OpInit 3 100)); [|split; [lia|left; reflexivity]|left; discriminate|vm_compute; reflexivity].
    apply (reach_step _ _ _ _ _ _ st2 a2 (OpMove 2 1)); [|split; eexists; reflexivity|left; discriminate|vm_compute; reflexivity].
    apply (reach_step _ _ _ _ _ _ st1 a1 (OpInit 2 10)); [|split; [lia|left; reflexivity]|left; discriminate|vm_compute; reflexivity].
    apply (reach_step _ _ _ _ _ _ (mk_buf_state ∅ ∅) ∅ (OpInit 1 200)); [constructor|split; [lia|left; reflexivity]|left; discriminate|vm_compute; reflexivity]. }
  exists st4, a4. split; [exact R|]. split; [reflexivity|].
  destruct (buffers_implement_lists 0 dynamic_bitset_word_count 1 8 (2 ^ 32 - 1) one_block) with (st := st4) (a := a4) as (_ & C & _); [reflexivity| |lia| |vm_compute; discriminate|exact R|].
  - intros n Hn. pose proof (word_count_covers n Hn). lia.
  - intros h n p. unfold one_block. destruct (h !! 1) eqn:E; intros P; [discriminate P|]. apply (inj Some) in P. now subst p.
  - destruct (C 2 200 [0; 0; 0; 0]) as (b & E & En & D & _); [reflexivity|]. exists b. auto.
Defined.

(** ** Matrices *)

Record bit_matrix := mk_matrix { bm_words : option (list Z); bm_rows : Z; bm_words_per_row : Z }.

Section matrix.
(** [SIZE_MAX], and the contents of a new block of so many words, if there is one. *)
Context (SIZE_MAX : Z) (allocate : Z -> option (list Z)).

Definition bit_matrix_init_empty : bit_matrix := mk_matrix None 0 0.

(** The sizes of an [int] are assumed not to overflow in [columns + 63]. *)
Definition bit_matrix_init (rows columns : Z) : Z * bit_matrix :=
  let words_per_row := Z.quot (columns + 63) 64 in
  let size_t x := x mod (SIZE_MAX + 1) in
  let total := size_t (size_t rows * size_t words_per_row) in
  if (rows <? 0) || (columns <? 0) then (-1, bit_matrix_init_empty)
  else if negb (words_per_row =? 0) && negb (total / size_t words_per_row =? size_t rows) then (-1, bit_matrix_init_empty)
  else if SIZE_MAX / 8 <? total then (-1, bit_matrix_init_empty)
  else if negb (total =? 0) then
    match allocate total with
    | None => (-1, bit_matrix_init_empty)
    | Some ws => (0, mk_matrix (Some (replicate (Z.to_nat total) 0 ++ drop (Z.to_nat total) ws)) rows words_per_row)
    end
  else (0, mk_matrix None rows words_per_row).

(** What is deallocated, if anything, and the matrix. *)
Definition bit_matrix_cleanup (m : bit_matrix) : option (list Z) * bit_matrix := (bm_words m, bit_matrix_init_empty).

(** A row is the storage from its first word on. *)
Definition row_start (m : bit_matrix) (row : Z) : nat := Z.to_nat (row * bm_words_per_row m).

Definition bit_matrix_row (m : bit_matrix) (row : Z) : option (list Z) := drop (row_start m row) <$> bm_words m.

Definition on_row (f : list Z -> list Z) (m : bit_matrix) (row : Z) : bit_matrix :=
  mk_matrix ((fun ws => take (row_start m row) ws ++ f (drop (row_start m row) ws)) <$> bm_words m) (bm_rows m) (bm_words_per_row m).

Definition bit_matrix_set (m : bit_matrix) (row bit : Z) : bit_matrix := on_row (fun ws => tcc_bitspan_set ws bit) m row.
Definition bit_matrix_reset (m : bit_matrix) (row bit : Z) : bit_matrix := on_row (fun ws => tcc_bitspan_reset ws bit) m row.
Definition bit_matrix_test (m : bit_matrix) (row bit : Z) : option Z := (fun ws => tcc_bitspan_test ws bit) <$> bit_matrix_row m row.

(** An initialised matrix of [rows] and [columns] with its cells. *)
Definition matrix_ok (m : bit_matrix) (rows columns : Z) : Prop :=
  bm_rows m = rows /\ 0 <= columns <= 64 * bm_words_per_row m /\ 0 <= bm_words_per_row m /\
  (0 < rows -> 0 < columns -> exists ws, bm_words m = Some ws /\ words_ok ws /\ rows * bm_words_per_row m <= Z.of_nat (length ws)).
Definition cell (m : bit_matrix) (row bit : Z) : bool := span_bit (default [] (bm_words m)) (64 * (row * bm_words_per_row m) + bit).

Lemma dropped_bit ws k bit : 0 <= k -> 0 <= bit -> span_bit (drop (Z.to_nat k) ws) bit = span_bit ws (64 * k + bit).
Proof.
  intros Hk Hb. unfold span_bit, int_at. rewrite lookup_drop. destruct (split_index bit) as (_ & B & E).
  destruct (join_index (k + bit / 64) (bit mod 64) B) as [E1 E2]. replace (64 * k + bit) with (64 * (k + bit / 64) + bit mod 64) by lia. rewrite E1, E2.
  rewrite Z2Nat.inj_add by (lia || (apply Z.div_pos; lia)). reflexivity.
Qed.

Lemma kept_bit ws k f q : 0 <= k <= Z.of_nat (length ws) -> 0 <= q < 64 * k -> span_bit (take (Z.to_nat k) ws ++ f) q = span_bit ws q.
Proof.
  intros Hk Hq. unfold span_bit, int_at. pose proof (split_index q). rewrite lookup_app_l by (rewrite length_take; lia). now rewrite lookup_take_lt by lia.
Qed.

Lemma past_bit ws k f q : 0 <= k <= Z.of_nat (length ws) -> 64 * k <= q -> span_bit (take (Z.to_nat k) ws ++ f) q = span_bit f (q - 64 * k).
Proof.
  intros Hk Hq. unfold span_bit, int_at. pose proof (split_index q) as (A & B & C).
  destruct (join_index (q / 64 - k) (q mod 64) B) as [E1 E2]. replace (q - 64 * k) with (64 * (q / 64 - k) + q mod 64) by lia. rewrite E1, E2.
  rewrite lookup_app_r by (rewrite length_take; lia). rewrite length_take. do 3 f_equal. lia.
Qed.

(** A change of a bit of a row is a change of that cell and of no other, in any row. *)
Lemma matrix_cell m rows columns row bit row' bit' f (g : bool -> bool) : matrix_ok m rows columns ->
  0 <= row < rows -> 0 <= bit < columns -> 0 <= row' < rows -> 0 <= bit' < columns ->
  (forall ws q, words_ok ws -> 0 <= q -> bit < 64 * Z.of_nat (length ws) -> span_bit (f ws) q = if q =? bit then g (span_bit ws q) else span_bit ws q) ->
  cell (on_row f m row) row' bit' = if (row' =? row) && (bit' =? bit) then g (cell m row' bit') else cell m row' bit'.
Proof.
  intros (Er & Hc & Hw & Hws) Hr Hb Hr' Hb' Hf. destruct (Hws ltac:(lia) ltac:(lia)) as (ws & E & Ok & L).
  unfold cell, on_row, row_start. cbn [bm_words bm_words_per_row]. rewrite E. cbn. set (w := bm_words_per_row m) in *.
  assert (K : 0 <= row * w /\ row * w + w <= Z.of_nat (length ws)) by nia. destruct K as [K1 K2].
  assert (D : words_ok (drop (Z.to_nat (row * w)) ws)) by (now apply Forall_drop).
  destruct (Z.lt_ge_cases row' row) as [Lt|Ge].
  - rewrite kept_bit by nia. rewrite (proj2 (Z.eqb_neq row' row)) by lia. reflexivity.
  - rewrite past_bit by nia. rewrite Hf; [|exact D|nia|rewrite length_drop; nia]. rewrite !dropped_bit by nia.
    replace (64 * (row * w) + (64 * (row' * w) + bit' - 64 * (row * w))) with (64 * (row' * w) + bit') by lia.
    replace (64 * (row' * w) + bit' - 64 * (row * w) =? bit) with ((row' =? row) && (bit' =? bit)); [reflexivity|].
    apply Bool.eq_iff_eq_true. rewrite andb_true_iff, !Z.eqb_eq. split; [intros [-> ->]; lia|]. intros Q. assert (row' = row) by nia. subst row'. lia.
Qed.

Lemma matrix_test m rows columns row bit : matrix_ok m rows columns -> 0 <= row < rows -> 0 <= bit < columns ->
  bit_matrix_test m row bit = Some (b2z (cell m row bit)).
Proof.
  intros (Er & Hc & Hw & Hws) Hr Hb. destruct (Hws ltac:(lia) ltac:(lia)) as (ws & E & Ok & L).
  unfold bit_matrix_test, bit_matrix_row, cell, row_start. rewrite E. cbn. rewrite bitspan_test_bit, dropped_bit by nia. reflexivity.
Qed.

Lemma quot_words columns : 0 <= columns -> Z.quot (columns + 63) 64 = (columns + 63) / 64 /\ columns <= 64 * ((columns + 63) / 64).
Proof. intros H. rewrite Z.quot_div_nonneg by lia. pose proof (split_index (columns + 63)). split; lia. Qed.

Lemma zeroed_cells n rest q : 0 <= q -> span_bit (replicate n 0 ++ rest) q = true -> Z.of_nat n <= q / 64.
Proof.
  intros Hq H. unfold span_bit, int_at in H. destruct (Z.lt_ge_cases (q / 64) (Z.of_nat n)) as [L|L]; [|exact L]. exfalso.
  pose proof (split_index q). rewrite lookup_app_l, lookup_replicate_2 in H by (rewrite ?length_replicate; lia). cbn in H. now rewrite Z.bits_0 in H.
Qed.

(** The overflow check: a quotient that gives the rows back means an exact product. *)
Lemma product_check rows w : 0 <= rows <= SIZE_MAX -> 0 <= w <= SIZE_MAX ->
  let total := (rows * w) mod (SIZE_MAX + 1) in
  if negb (w =? 0) && negb (total / w =? rows) then SIZE_MAX < rows * w else total = rows * w.
Proof.
  intros Hr Hw total. destruct (Z.eqb_spec w 0) as [->|N]; cbn [negb andb]; [unfold total; rewrite Z.mul_0_r; apply Z.mod_small; lia|].
  pose proof (Z.mod_pos_bound (rows * w) (SIZE_MAX + 1) ltac:(lia)) as B. fold total in B.
  destruct (Z.lt_ge_cases SIZE_MAX (rows * w)) as [G|G].
  - case Z.eqb_spec; intros E; cbn [negb]; [|exact G]. exfalso. pose proof (Z.mul_div_le total w ltac:(lia)). nia.
  - assert (T : total = rows * w) by (apply Z.mod_small; nia). rewrite T, Z.div_mul by lia. rewrite Z.eqb_refl. reflexivity.
Qed.

(** A bit matrix of non-negative dimensions is initialised with every cell
    clear or fails without storage, the failure being a size that does not fit or
    an allocation; in an initialised matrix, setting, resetting and testing a cell
    concern that cell alone, the rows sharing no bit. *)
Theorem bit_matrix_cells (rows columns : Z) (Hr : 0 <= rows <= SIZE_MAX) (Hc : 0 <= columns <= SIZE_MAX - 63)
  (Al : forall n ws, allocate n = Some ws -> Z.of_nat (length ws) = n) :
  (fst (bit_matrix_init rows columns) <> 0 -> snd (bit_matrix_init rows columns) = bit_matrix_init_empty /\
     (SIZE_MAX / 8 < rows * ((columns + 63) / 64) \/ allocate (rows * ((columns + 63) / 64)) = None)) /\
  (fst (bit_matrix_init rows columns) = 0 -> matrix_ok (snd (bit_matrix_init rows columns)) rows columns /\
     forall row bit, 0 <= row < rows -> 0 <= bit < columns -> cell (snd (bit_matrix_init rows columns)) row bit = false) /\
  (forall m row bit row' bit', matrix_ok m rows columns -> 0 <= row < rows -> 0 <= bit < columns -> 0 <= row' < rows -> 0 <= bit' < columns ->
     let here := (row' =? row) && (bit' =? bit) in
     bit_matrix_test m row bit = Some (b2z (cell m row bit)) /\
     cell (bit_matrix_set m row bit) row' bit' = here || cell m row' bit' /\
     cell (bit_matrix_reset m row bit) row' bit' = negb here && cell m row' bit').
Proof.
  destruct (quot_words columns ltac:(lia)) as [Q Cov]. pose proof (split_index (columns + 63)) as Sp. set (w := (columns + 63) / 64) in *.
  pose proof (product_check rows w Hr ltac:(lia)) as Pc. cbv zeta in Pc.
  split; [|split].
  - unfold bit_matrix_init. rewrite Q. fold w. cbv zeta. rewrite (Z.mod_small rows), (Z.mod_small w) by lia. rewrite (proj2 (Z.ltb_ge rows 0)), (proj2 (Z.ltb_ge columns 0)) by lia. cbn [orb].
    destruct (negb (w =? 0) && _); [intros _; split; [reflexivity|]; left; pose proof (Z.div_lt_upper_bound SIZE_MAX 8 (SIZE_MAX + 1) ltac:(lia) ltac:(lia)); lia|].
    rewrite Pc. case Z.ltb_spec; intros L; [intros _; split; [reflexivity|]; now left|]. case Z.eqb_spec; intros E; cbn [negb]; [intros N; now destruct N|].
    destruct (allocate _) eqn:A; cbn; [intros N; now destruct N|]. auto.
  - unfold bit_matrix_init. rewrite Q. fold w. cbv zeta. rewrite (Z.mod_small rows), (Z.mod_small w) by lia. rewrite (proj2 (Z.ltb_ge rows 0)), (proj2 (Z.ltb_ge columns 0)) by lia. cbn [orb].
    destruct (negb (w =? 0) && _); [discriminate|]. rewrite Pc. case Z.ltb_spec; intros L; [discriminate|]. case Z.eqb_spec; intros E; cbn [negb].
    + intros _. cbn [snd]. split.
      * repeat split; cbn; try lia; nia.
      * intros row bit P1 P2. unfold cell, span_bit, int_at. cbn. now rewrite lookup_nil, Z.bits_0.
    + destruct (allocate _) as [ws|] eqn:A; cbn [fst snd]; [|discriminate]. intros _. specialize (Al _ _ A). split.
      * repeat split; cbn; try lia. intros _ _. eexists. split; [reflexivity|]. rewrite drop_ge, app_nil_r, length_replicate by lia. split; [apply Forall_replicate; lia|lia].
      * intros row bit P1 P2. unfold cell. cbn. destruct (span_bit _ _) eqn:S; [|reflexivity]. exfalso. apply zeroed_cells in S; [|nia]. rewrite Z2Nat.id in S by nia.
        pose proof (Z.div_lt_upper_bound (64 * (row * w) + bit) 64 (rows * w) ltac:(lia) ltac:(nia)). lia.
  - intros m row bit row' bit' Ok R B R' B' here. split; [now apply (matrix_test m rows columns)|]. split.
    + unfold bit_matrix_set. rewrite (matrix_cell m rows columns row bit row' bit' _ (fun _ => true)); auto.
      intros ws q W P Lq. rewrite bitspan_set_bit by (auto; lia). now destruct (q =? bit).
    + unfold bit_matrix_reset. rewrite (matrix_cell m rows columns row bit row' bit' _ (fun _ => false)); auto; [fold here; now destruct here|].
      intros ws q W P Lq. rewrite bitspan_reset_bit by (auto; lia). destruct (q =? bit); [apply andb_false_r|apply andb_true_r].
Qed.
End matrix.
